(* ===== verification/_CoqProject ===== *)
-Q . S2P
Prelude.v
Varint.v
PrefixCompress.v
Values.v
LockManager.v
Mvcc.v
RowLocks.v
Bloom.v
PagerIface.v
FileIO.v
Superblock.v
Wal.v
WalRecovery.v
WalCheckpoint.v
Pager.v
PagerFlaws.v
PagerSlots.v
PagerMemory.v
PagerRollback.v
PagerCommit.v
BTreePage.v
BTreeNode.v
BTree.v
BTreeTree.v
BTreeDelete.v
BTreeSplit.v
BTreeInsert.v
BTreeVacuum.v
PagerTable.v
Text.v
Like.v
Expr.v
ExprTypes.v
ExprLaws.v
ExprFns.v
Binlog.v
BinlogFollower.v
Transactions.v
RowOps.v
Joins.v
TableFns.v
Aggregates.v
Window.v
Select.v
SelectProps.v
SelectFlaws.v
IndexCache.v
IndexScan.v
IndexUpkeep.v
IndexProps.v
IndexFlaws.v
Checks.v
Dml.v
Keeps.v
DmlLemmas.v
DmlAtomic.v
DmlStore.v
DmlProps.v
DmlUpdate.v
DmlFlaws.v
QueryCache.v
