(* ===== verification/Prelude.v ===== *)
(** * kkdb: a verification library

    kkdb (src/, a Rust crate whose sources lie under src/src/) is an SQL
    database engine: a pager over a single copy-on-write file with two
    superblocks and an optional write-ahead log, a B+tree of rows over the
    pager, a row codec, transactions with undo log, snapshots and locks, a
    binary log for replication, and an SQL interpreter on top.  This library
    models the storage and transaction core at the level of bytes and states,
    the evaluation of expressions, the interpreter of SELECT, INSERT, UPDATE and
    DELETE and the secondary indexes over the syntax tree, and proves what makes
    them correct.

    ** Outcomes and state

    Every fallible function returns [res A] (below): [Ok], [Err] with one of
    the crate's errors, [Panic] (a Rust panic: a slice out of range, arithmetic
    overflow where the crate does not wrap) or [Hang] (the fuel of a loop ran
    out).  Stateful code is [ST S A], a function from the state to an outcome
    and the state; on an error the state keeps what was written before.  Bytes
    and machine integers are [Z] with their width written out ([as_u16],
    [saturating_add_u64], ...); a file or a page is the list of its bytes; a
    double is its 64 bits, computed with through [SpecFloat], one NaN standing
    for all.

    ** Files

    Storage:
    - Prelude: outcomes, state, integers, byte slices, shared lemmas
      (src/src/error.rs).
    - Varint, PrefixCompress, Values: variable-length integers, prefix
      compression of keys, values, rows and index rows (src/src/varint.rs,
      storage/prefix_compress.rs, types.rs).
    - Bloom: the Bloom filter (src/src/storage/bloom.rs).
    - PagerIface: the page size, the four pager operations the B-tree calls
      ([PagerOps]), what it relies on ([PagerLaws]), a plain map that satisfies
      it, and the addition of an invariant to the interface.
    - FileIO, Superblock: files; the superblock format, its two slots, opening
      and creating a database (src/src/storage/pager.rs).
    - Wal, WalRecovery, WalCheckpoint: the write-ahead log; crash recovery and
      refinement of a store of pages; checkpoints and reader snapshots
      (src/src/storage/wal.rs).
    - Pager: every operation of src/src/storage/pager.rs on its whole state.
      PagerMemory: the pager without a file satisfies [PagerLaws], its free
      pools being linked lists through the free pages.  PagerRollback,
      PagerCommit: the two ends of a transaction.  PagerSlots: LZ4 slots.
      PagerFlaws: runs that contradict the documentation.
    - BTreePage, BTreeNode: the page images of src/src/storage/btree.rs and
      which sorted cells they hold.  BTree: its operations over the pager
      interface.  BTreeTree, BTreeDelete, BTreeSplit, BTreeInsert: the table a
      pager holds at a root page, and what searching, scanning, counting,
      deleting, splitting and inserting do to it.  BTreeVacuum: fragmentation
      statistics and defragmentation.
    - PagerTable: the B-tree on the pager in a transaction.

    Transactions and replication:
    - LockManager, Mvcc, RowLocks: table locks and deadlock search; undo log,
      snapshots, registry, visibility and the rows a snapshot reads; row locks,
      read-set validation, wait-for graph, timeouts (src/src/vm/lock_manager.rs,
      vm/mvcc.rs, the read path of vm/exec_select.rs).
    - Binlog, BinlogFollower: the binary log, its file and its followers
      (src/src/binlog/mod.rs).
    - Transactions: BEGIN, COMMIT, ROLLBACK and the savepoint statements
      (src/src/vm/execute.rs).

    SQL:
    - Text, Like: Unicode text and numbers as text; LIKE.  Expr: the syntax of
      src/src/sql/ast.rs and the evaluator of src/src/vm/eval_expr.rs.
      ExprTypes: type safety and totality.  ExprLaws, ExprFns: the laws of the
      operators, and of the scalar functions.
    - RowOps, Joins, TableFns, Aggregates, Window: the operations on rows of
      src/src/vm/exec_select.rs.  Select: the pipeline that composes them,
      [exec_select_fuel].  SelectProps: its theorems.  SelectFlaws: statements
      whose answer is not the intended one.
    - IndexCache: the caches of an index over its two trees.  IndexScan: the
      use of an index by SELECT, UPDATE and DELETE, and the entries of a row.
      IndexUpkeep: maintenance and UNIQUE.  IndexProps: agreement with full
      scans.  IndexFlaws: where they disagree (src/src/vm/execute.rs,
      exec_select.rs, exec_dml.rs).
    - Checks: the evaluator of CHECK constraints.  Dml: INSERT with its conflict
      policies, UPDATE, DELETE, NOT NULL, foreign keys, triggers, RETURNING and
      what they log (src/src/vm/exec_dml.rs).  Keeps: computations that keep a
      property of the state, evaluation among them.  DmlLemmas: a table with its
      indexes, step by step.  DmlAtomic: the implicit transaction of INSERT.
      DmlStore: a store of lists with transactions, and a sample database.
      DmlProps, DmlUpdate: the theorems of INSERT and DELETE, and of UPDATE.
      DmlFlaws: statements that leave something undone.
    - QueryCache: the query cache and the statements that use it
      (src/src/vm/optimizer/query_cache.rs, vm/execute.rs).

    ** Interfaces

    The components meet at classes whose laws the client's theorems assume and
    the implementation's theorems discharge.  [PagerLaws]: the theorems about
    the B-tree hold for every pager with these laws, PagerMemory shows them for
    the modelled pager, and PagerTable puts both together.  The log meets the
    pager in [Pager.write_dirty_page], [Pager.commit_wal], [Pager.get_page] and
    [Pager.wal_checkpoint].  [IndexCache.Trees] and [TreeReads] are the trees
    under an index; the B-tree over any lawful pager discharges them.
    [IndexUpkeep.TreeWrites] is what the maintenance of indexes relies on,
    discharged there by trees that are lists of rows.  [Expr.SelectExec] is the
    execution of a subquery, which Select ties to the pipeline itself.
    [Select.TableScans] and [Select.Planner] are the tables and the planner as
    SELECT calls them, [IndexScan.FtsScan] and [CostModel] full-text MATCH and
    the cost estimate: the theorems hold whatever these answer, under the
    hypotheses they state.  [Dml.Pagers] are the transactions of the pagers as
    a statement calls them, with the laws [DmlAtomic.Transactional] and
    [DmlProps.FlushKeeps], which DmlStore discharges; [Dml.ExecuteSql] executes
    the text of a trigger or a cascade, [Dml.SearchIndexes] maintains full-text
    and vector indexes, [QueryCache.NestedTables] names the tables such text
    writes.  Code outside the repository is a parameter: [Expr.StdFns] (Unicode case, word segmentation, powers and roots of the
    platform), [Binlog.Crc32], the LZ4 codec, HTTP and JSON, uuids; time is an
    argument.

    ** What the theorems show

    - Tables: point lookup, five scans and counting return what the table
      holds and change no page; deletion removes exactly the one row and gives
      back its overflow pages; insertion of the largest rowid, or among cells
      alike in size, adds exactly the one row (other insertions can fail in a
      split and lose rows).  Both keep the slotted pages, the tree, the leaf
      list and the overflow chains well formed, and always return; rows loaded
      in order are the rows read back, on the abstract pager and, through a
      committed transaction, on the modelled one.
    - Transactions of the pager without file and log: a rollback restores
      header, superblock and every page, unless ROLLBACK TO was called; a commit
      keeps every page, publishes the new superblock in the other slot and
      loses no free page.
    - Crashes: a superblock write that is torn, and rejected by its checksum,
      leaves the old superblock; a log cut at any byte of a commit recovers the state before or after it;
      the log refines a store with committed and pending pages; a checkpoint
      moves exactly the committed pages.  A crash of the binary log keeps a
      prefix of its file that includes the synced bytes: the log refines a list
      of records of which a prefix is durable, and a follower catches up.
    - Codecs: round trips and safety of decoding on arbitrary bytes for rows,
      values, index rows, varints, superblocks, log frames and page slots.
    - Concurrency control: lock compatibility, cycle search against
      reachability, snapshot isolation in every history, visibility of rows,
      read-set validation; COMMIT of a session with two databases is
      two-phase, ROLLBACK restores both.
    - Expressions: evaluation on typed rows returns a typed value or an error;
      three-valued logic, quantified comparisons, name resolution through
      enclosing queries, 64-bit arithmetic; LIKE against its declarative
      meaning.  Subqueries and the functions outside the model may panic or not
      return.
    - SELECT from one table without an index: the pipeline returns what a query
      without shortcuts means, but for DISTINCT under ORDER BY and LIMIT; a
      row-level security policy hides its rows; nested loops are the joins
      of relational algebra (NATURAL where no common column has NULL) and hash
      joins agree with them; multiplicities of set operations; aggregates of
      groups; ranks of windows.
    - Indexes: a SELECT, or a DELETE, by an index finds the rows of a full scan
      (the values of an index being of one kind: no integers beside doubles);
      maintenance keeps every index a mirror of its table; the search for a
      conflict decides UNIQUE.
    - Data modification: INSERT stores exactly the rows it is given, UPDATE
      rewrites and DELETE removes exactly the rows WHERE selects, in the table,
      every index, the undo log and the binary log; new rows satisfy NOT NULL,
      CHECK and FOREIGN KEY, and no row of another table loses the row it refers
      to; an INSERT that fails is undone; the evaluator of CHECK decides as a
      query does.  The conditions on the statements are in each theorem.
    - The query cache: a cached answer is never older than a successful
      statement that writes a table its query names (failed statements and the
      writes of triggers do not count); the cache keeps its bound.
    - Runs that do not do what the code means to (PagerFlaws, SelectFlaws,
      IndexFlaws, DmlFlaws, and the ends of the other files), each a closed computation.

    ** Bounds and fuel

    The page size is a parameter ranging over the sizes the crate accepts
    ([PageSize]); concrete runs use 512 bytes.  Loops over chains, leaves and
    tree levels take fuel; the theorems state how much is enough (the height or
    the number of pages of the table) and that the call then returns.
    [Wal.open] takes fuel from the length of the file, [Pager.evict_loop] from
    the length of the clock queue as the code does.  [Expr.eval_expr] recurses
    over the expression; [exec_select_fuel] takes the nesting of queries as
    fuel (a view may be arbitrarily deep, and a view that names itself exhausts
    the stack of the crate); a recursive WITH has the crate's own bound of 1000
    rounds.  The sorts of the standard library are stable insertion sorts.

    ** Not modelled

    - The operating system below [FileIO]: partial writes other than those the
      crash theorems quantify over, full disks, permissions, fsync order.
      Mutexes are never poisoned; a session's statements do not interleave
      with another's inside one call.
    - Bloom sizing, statistics, the vector index; Display output.
    - HashMap iteration order: where the result does not depend on it the model
      uses the order of [gmap]; the order of window partitions, where it does,
      is a parameter.
    - The SQL front end: a translation of the syntax tree of a third-party
      parser.  The JSON, regular-expression, random and vector functions
      ([Expr.OtherFunctions]).
    - Join reordering and the cost estimate, which only choose among plans.
    - Data definition, the catalogue's own rows, and the dispatch of the other
      statements, which rest on the parser.  The theorems about whole
      statements take tables without triggers and search indexes, keys that
      restrict, and WHERE without an index (IndexProps shows what an index
      finds).
    - The buffer pool, cursor and LSM modules, which the table engine does not
      call; consensus (built on the openraft crate and asynchronous network
      code), servers, full-text and vector indexes and the feature modules that
      the storage and transaction core does not call. *)
From stdpp Require Export base tactics list numbers strings pretty gmap sorting.
From Stdlib Require Export ZArith Lia.

#[export] Set Default Goal Selector "!".
#[global] Open Scope Z_scope.

(** ** Errors and outcomes *)

(** [KkdbError] (src/src/error.rs): the seventeen variants, each with its
    payload; [Io] carries the text of the wrapped [std::io::Error]. *)
Inductive KkdbError : Type :=
  | Io (msg : string)
  | SyntaxError (msg : string)
  | ParseError (msg : string)
  | RuntimeError (msg : string)
  | TypeError (msg : string)
  | TableAlreadyExists (name : string)
  | TableNotFound (name : string)
  | ColumnNotFound (name : string)
  | ColumnCountMismatch (expected got : Z)
  | PageOutOfRange (page : Z)
  | BTreeError (msg : string)
  | DatabaseFull
  | CorruptDatabase (msg : string)
  | ConstraintViolation (msg : string)
  | Internal (msg : string)
  | NotImplemented (msg : string)
  | LockConflict (msg : string).

(** The outcome of a call: a value, a returned [KkdbError], a panic (an
    out-of-range index, an arithmetic overflow), or [Hang] when the fuel
    given to a loop did not suffice. *)
Inductive res (A : Type) : Type :=
  | Ok (a : A)
  | Err (e : KkdbError)
  | Panic
  | Hang.
Arguments Ok {A} a.
Arguments Err {A} e.
Arguments Panic {A}.
Arguments Hang {A}.

#[export] Instance KkdbError_eq_dec : EqDecision KkdbError.
Proof. solve_decision. Defined.
#[export] Instance res_eq_dec {A} `{EqDecision A} : EqDecision (res A).
Proof. solve_decision. Defined.

#[export] Instance res_ret : MRet res := λ A a, Ok a.
#[export] Instance res_bind : MBind res := λ A B f m,
  match m with
  | Ok a => f a
  | Err e => Err e
  | Panic => Panic
  | Hang => Hang
  end.
#[export] Instance res_fmap : FMap res := λ A B f m,
  match m with
  | Ok a => Ok (f a)
  | Err e => Err e
  | Panic => Panic
  | Hang => Hang
  end.

Definition is_Ok {A} (r : res A) : bool := match r with Ok _ => true | _ => false end.
Definition is_Err {A} (r : res A) : bool := match r with Err _ => true | _ => false end.

Lemma res_bind_Ok {A B} (f : A → res B) (m : res A) (b : B) :
  m ≫= f = Ok b ↔ ∃ a, m = Ok a ∧ f a = Ok b.
Proof. destruct m; simpl; naive_solver. Qed.

(** Effectful code keeps the state it has built up when it returns an error:
    [?] leaves earlier writes in place.  So the state is outside [res]. *)
Definition ST (S A : Type) : Type := S → res A * S.

#[export] Instance ST_ret {S} : MRet (ST S) := λ A a s, (Ok a, s).
#[export] Instance ST_bind {S} : MBind (ST S) := λ A B f m s,
  match m s with
  | (Ok a, s') => f a s'
  | (Err e, s') => (Err e, s')
  | (Panic, s') => (Panic, s')
  | (Hang, s') => (Hang, s')
  end.

Definition st_get {S} : ST S S := λ s, (Ok s, s).
Definition st_put {S} (s : S) : ST S unit := λ _, (Ok tt, s).
Definition st_lift {S A} (r : res A) : ST S A := λ s, (r, s).
Definition st_gets {S A} (f : S → res A) : ST S A := λ s, (f s, s).
Definition st_err {S A} (e : KkdbError) : ST S A := λ s, (Err e, s).
(** Apply a fallible update; a failing update leaves the state alone. *)
Definition st_upd {S} (f : S → res S) : ST S unit := λ s,
  match f s with
  | Ok s' => (Ok tt, s')
  | Err e => (Err e, s)
  | Panic => (Panic, s)
  | Hang => (Hang, s)
  end.

(** [for x in l { f x }] *)
Fixpoint st_iter {S A} (f : A → ST S unit) (l : list A) : ST S unit :=
  match l with
  | [] => mret tt
  | x :: l' => f x ≫= λ _, st_iter f l'
  end.

Lemma ST_bind_unfold {S A B} (f : A → ST S B) (m : ST S A) s :
  (m ≫= f) s = match m s with
               | (Ok a, s') => f a s'
               | (Err e, s') => (Err e, s')
               | (Panic, s') => (Panic, s')
               | (Hang, s') => (Hang, s')
               end.
Proof. reflexivity. Qed.

Lemma ST_bind_Ok {S A B} (f : A → ST S B) (m : ST S A) s s' a :
  m s = (Ok a, s') → (m ≫= f) s = f a s'.
Proof. intros H. rewrite ST_bind_unfold, H. reflexivity. Qed.

Lemma st_iter_app {S A} (f : A → ST S unit) l1 l2 s s' :
  st_iter f l1 s = (Ok tt, s') → st_iter f (l1 ++ l2) s = st_iter f l2 s'.
Proof.
  revert s. induction l1 as [|x l1 IH]; intros s; simpl.
  - by intros [= ->].
  - rewrite !ST_bind_unfold. destruct (f x s) as [[[]| | |] s1]; try done. apply IH.
Qed.

(** [for x in l { out.extend(f(x)?) }] *)
Fixpoint st_flat_map {S A B} (f : A → ST S (list B)) (l : list A) : ST S (list B) :=
  match l with
  | [] => mret []
  | x :: l' => a ← f x; b ← st_flat_map f l'; mret (a ++ b)
  end.
(** A loop whose body leaves the state alone. *)
Lemma st_flat_map_pure {S A B} (f : A → ST S (list B)) (g : A → list B) l s :
  (∀ x, x ∈ l → f x s = (Ok (g x), s)) → st_flat_map f l s = (Ok (l ≫= g), s).
Proof.
  induction l as [|x l IH]; intros Hf; [done|]. cbn [st_flat_map]. rewrite ST_bind_unfold, Hf by left.
  rewrite ST_bind_unfold, IH by (intros y Hy; apply Hf; by right). done.
Qed.
(** [for x in l { out.push(f(x)?) }] *)
Lemma st_mapM_pure {S A B} (f : A → ST S B) (g : A → B) l s :
  (∀ x, x ∈ l → f x s = (Ok (g x), s)) → mapM f l s = (Ok (map g l), s).
Proof.
  induction l as [|x l IH]; intros Hf; [done|]. cbn [mapM]. rewrite ST_bind_unfold, Hf by left.
  rewrite ST_bind_unfold, IH by (intros y Hy; apply Hf; by right). done.
Qed.

(** ** Strings *)

(** ASCII case folding on strings, as [to_ascii_lowercase] and
    [eq_ignore_ascii_case] do it. *)
Definition ascii_lower (c : Ascii.ascii) : Ascii.ascii :=
  let n := Ascii.nat_of_ascii c in
  if ((65 <=? n) && (n <=? 90))%nat then Ascii.ascii_of_nat (n + 32) else c.
Fixpoint to_ascii_lowercase (s : string) : string :=
  match s with
  | String.EmptyString => String.EmptyString
  | String.String c s' => String.String (ascii_lower c) (to_ascii_lowercase s')
  end.
Definition eq_ignore_ascii_case (s t : string) : bool :=
  String.eqb (to_ascii_lowercase s) (to_ascii_lowercase t).
(** [format!("{:02x}", n)] of a byte. *)
Definition hex_char (n : Z) : Ascii.ascii :=
  Ascii.ascii_of_nat (Z.to_nat (if n <? 10 then 48 + n else 87 + n)).
Definition hex2 (n : Z) : string :=
  String.String (hex_char (n / 16)) (String.String (hex_char (n mod 16)) String.EmptyString).

Lemma eq_ignore_ascii_case_refl s : eq_ignore_ascii_case s s = true.
Proof. apply String.eqb_refl. Qed.

(** ** Machine integers *)

Definition U8_MAX : Z := 255.
Definition U16_MAX : Z := 65535.
Definition U32_MAX : Z := 4294967295.
Definition U64_MAX : Z := 18446744073709551615.

(** [x as uN] *)
Definition as_u8 (x : Z) : Z := x mod 2 ^ 8.
Definition as_u16 (x : Z) : Z := x mod 2 ^ 16.
Definition as_u32 (x : Z) : Z := x mod 2 ^ 32.
Definition as_u64 (x : Z) : Z := x mod 2 ^ 64.
(** [x as i64] of an integer *)
Definition as_i64 (x : Z) : Z :=
  let u := x mod 2 ^ 64 in if u <? 2 ^ 63 then u else u - 2 ^ 64.

Definition is_u8 (x : Z) : Prop := 0 ≤ x < 2 ^ 8.
Definition is_u16 (x : Z) : Prop := 0 ≤ x < 2 ^ 16.
Definition is_u32 (x : Z) : Prop := 0 ≤ x < 2 ^ 32.
Definition is_u64 (x : Z) : Prop := 0 ≤ x < 2 ^ 64.
Definition is_i64 (x : Z) : Prop := - 2 ^ 63 ≤ x < 2 ^ 63.

#[export] Instance is_u8_dec x : Decision (is_u8 x) := _.
#[export] Instance is_u16_dec x : Decision (is_u16 x) := _.
#[export] Instance is_u32_dec x : Decision (is_u32 x) := _.
#[export] Instance is_u64_dec x : Decision (is_u64 x) := _.
#[export] Instance is_i64_dec x : Decision (is_i64 x) := _.

(** [x.wrapping_mul(y)], [x.wrapping_add(y)], [x.saturating_add(y)],
    [x.saturating_sub(y)] at their widths *)
Definition wrapping_mul_u32 (x y : Z) : Z := as_u32 (x * y).
Definition wrapping_mul_u64 (x y : Z) : Z := as_u64 (x * y).
Definition wrapping_add_u64 (x y : Z) : Z := as_u64 (x + y).
Definition saturating_add_u64 (x y : Z) : Z := Z.min (x + y) U64_MAX.
Definition saturating_sub (x y : Z) : Z := Z.max 0 (x - y).

Ltac int_unfold :=
  unfold is_u8, is_u16, is_u32, is_u64, is_i64,
    U8_MAX, U16_MAX, U32_MAX, U64_MAX in *.
(** [lia] after unfolding the integer ranges. *)
Ltac int_lia := int_unfold; lia.
(** [lia] with division and remainder by constants. *)
Ltac div_lia := int_unfold; Z.to_euclidean_division_equations; lia.

Lemma as_u8_id x : is_u8 x → as_u8 x = x.
Proof. unfold as_u8, is_u8. intros. apply Z.mod_small. lia. Qed.
Lemma as_u16_id x : is_u16 x → as_u16 x = x.
Proof. unfold as_u16, is_u16. intros. apply Z.mod_small. lia. Qed.
Lemma as_u32_id x : is_u32 x → as_u32 x = x.
Proof. unfold as_u32, is_u32. intros. apply Z.mod_small. lia. Qed.
Lemma as_u64_id x : is_u64 x → as_u64 x = x.
Proof. unfold as_u64, is_u64. intros. apply Z.mod_small. lia. Qed.
Lemma as_u64_range x : is_u64 (as_u64 x).
Proof. unfold as_u64, is_u64. apply Z.mod_pos_bound. lia. Qed.
Lemma as_u32_range x : is_u32 (as_u32 x).
Proof. unfold as_u32, is_u32. apply Z.mod_pos_bound. lia. Qed.
Lemma as_i64_mod x : is_i64 x → as_i64 (x mod 2 ^ 64) = x.
Proof.
  unfold as_i64, is_i64. intros H. rewrite Z.mod_mod by lia.
  destruct (decide (0 ≤ x)).
  - rewrite Z.mod_small by lia. destruct (Z.ltb_spec x (2 ^ 63)); lia.
  - replace (x mod 2 ^ 64) with (x + 2 ^ 64)
      by (apply Z.mod_unique_pos with (-1); lia).
    destruct (Z.ltb_spec (x + 2 ^ 64) (2 ^ 63)); lia.
Qed.
Lemma as_i64_id x : is_i64 x → as_i64 x = x.
Proof. intros H. rewrite <- (as_i64_mod x) at 2 by done. unfold as_i64. by rewrite Z.mod_mod by lia. Qed.
Lemma as_i64_range x : is_i64 (as_i64 x).
Proof.
  unfold as_i64, is_i64. pose proof (Z.mod_pos_bound x (2 ^ 64)).
  destruct (Z.ltb_spec (x mod 2 ^ 64) (2 ^ 63)); lia.
Qed.

(** ** Byte strings *)

(** A [Vec<u8>], a [&[u8]] or a fixed array: a list of byte values. *)
Abbreviation bytes := (list Z).
Definition is_byte (b : Z) : Prop := 0 ≤ b < 256.
#[export] Instance is_byte_dec b : Decision (is_byte b) := _.
Definition bytes_ok (l : bytes) : Prop := Forall is_byte l.

(** A decidable fact about bytes holds when it holds for each of the 256. *)
Lemma byte_forallb (P : Z → bool) :
  forallb P (seqZ 0 256) = true → ∀ b, is_byte b → P b = true.
Proof.
  intros H b Hb. rewrite forallb_forall in H. apply H, list_elem_of_In, elem_of_seqZ.
  unfold is_byte in Hb. lia.
Qed.

(** [l.len()] *)
Definition zlen {A} (l : list A) : Z := Z.of_nat (length l).

Lemma zlen_nonneg {A} (l : list A) : 0 ≤ zlen l.
Proof. unfold zlen. lia. Qed.
Lemma zlen_nil {A} : zlen (@nil A) = 0.
Proof. reflexivity. Qed.
Lemma zlen_cons {A} (x : A) l : zlen (x :: l) = 1 + zlen l.
Proof. unfold zlen. simpl. lia. Qed.
Lemma zlen_app {A} (l k : list A) : zlen (l ++ k) = zlen l + zlen k.
Proof. unfold zlen. rewrite length_app. lia. Qed.
Lemma zlen_0_nil {A} (l : list A) : zlen l = 0 → l = [].
Proof. unfold zlen. destruct l; simpl; [done | lia]. Qed.

(** [.iter().sum()] *)
Definition zsum (l : list Z) : Z := foldr Z.add 0 l.
Lemma zsum_app l k : zsum (l ++ k) = zsum l + zsum k.
Proof. unfold zsum. induction l; simpl; lia. Qed.

(** The [n] bytes at offset [off]. *)
Definition sub {A} (l : list A) (off n : Z) : list A :=
  take (Z.to_nat n) (drop (Z.to_nat off) l).

(** [&l[a..b]] panics unless [a <= b <= l.len()]. *)
Definition slice {A} (l : list A) (a b : Z) : res (list A) :=
  if (0 <=? a) && (a <=? b) && (b <=? zlen l) then Ok (sub l a (b - a)) else Panic.
(** [&l[a..]] *)
Definition slice_from {A} (l : list A) (a : Z) : res (list A) := slice l a (zlen l).
(** [l[i]] *)
Definition index {A} (l : list A) (i : Z) : res A :=
  if 0 <=? i then match l !! Z.to_nat i with Some x => Ok x | None => Panic end else Panic.
(** Overwrite the bytes at [off] with [bs]. *)
Definition splice {A} (l : list A) (off : Z) (bs : list A) : list A :=
  take (Z.to_nat off) l ++ bs ++ drop (Z.to_nat off + length bs) l.
(** [l[a..b].copy_from_slice(bs)] panics when the range is out of bounds or
    the lengths differ. *)
Definition copy_from_slice {A} (l : list A) (a b : Z) (bs : list A) : res (list A) :=
  if (0 <=? a) && (a <=? b) && (b <=? zlen l) && (zlen bs =? b - a)
  then Ok (splice l a bs) else Panic.
(** [l[i] = x] *)
Definition set_index {A} (l : list A) (i : Z) (x : A) : res (list A) :=
  if (0 <=? i) && (i <? zlen l) then Ok (splice l i [x]) else Panic.

(** [x.to_le_bytes()] for an integer of [n] bytes; two's complement for a
    negative one. *)
Fixpoint le_bytes (n : nat) (x : Z) : bytes :=
  match n with
  | O => []
  | S n' => x mod 256 :: le_bytes n' (x / 256)
  end.
(** [uN::from_le_bytes(bs)] *)
Fixpoint le_val (bs : bytes) : Z :=
  match bs with
  | [] => 0
  | b :: bs' => b + 256 * le_val bs'
  end.

Definition read_u16 (l : bytes) (off : Z) : res Z := le_val <$> slice l off (off + 2).
Definition read_u32 (l : bytes) (off : Z) : res Z := le_val <$> slice l off (off + 4).
Definition read_u64 (l : bytes) (off : Z) : res Z := le_val <$> slice l off (off + 8).
Definition read_i64 (l : bytes) (off : Z) : res Z := (λ bs, as_i64 (le_val bs)) <$> slice l off (off + 8).
Definition write_u16 (l : bytes) (off x : Z) : res bytes := copy_from_slice l off (off + 2) (le_bytes 2 x).
Definition write_u32 (l : bytes) (off x : Z) : res bytes := copy_from_slice l off (off + 4) (le_bytes 4 x).
Definition write_u64 (l : bytes) (off x : Z) : res bytes := copy_from_slice l off (off + 8) (le_bytes 8 x).

Lemma length_le_bytes n x : length (le_bytes n x) = n.
Proof. revert x. induction n; intros; simpl; auto. Qed.
Lemma zlen_le_bytes n x : zlen (le_bytes n x) = Z.of_nat n.
Proof. unfold zlen. by rewrite length_le_bytes. Qed.
Lemma le_bytes_ok n x : bytes_ok (le_bytes n x).
Proof.
  revert x. induction n; intros; simpl; constructor; [|apply IHn].
  unfold is_byte. apply Z.mod_pos_bound. lia.
Qed.
Lemma le_val_le_bytes n x : le_val (le_bytes n x) = x mod 2 ^ (8 * Z.of_nat n).
Proof.
  revert x. induction n as [|n IH]; intros x.
  - simpl. by rewrite Z.mod_1_r.
  - cbn [le_bytes le_val]. rewrite IH.
    replace (8 * Z.of_nat (S n)) with (8 + 8 * Z.of_nat n) by lia.
    rewrite Z.pow_add_r by lia. change (2 ^ 8) with 256.
    rewrite (Z.rem_mul_r x 256) by lia. reflexivity.
Qed.
Lemma le_val_bound bs : bytes_ok bs → 0 ≤ le_val bs < 2 ^ (8 * zlen bs).
Proof.
  induction 1 as [|b bs Hb _ IH]; [done|].
  cbn [le_val]. rewrite zlen_cons. unfold is_byte in Hb.
  replace (8 * (1 + zlen bs)) with (8 + 8 * zlen bs) by lia.
  pose proof (zlen_nonneg bs). rewrite Z.pow_add_r by lia. change (2 ^ 8) with 256. lia.
Qed.
Lemma le_bytes_le_val bs : bytes_ok bs → le_bytes (length bs) (le_val bs) = bs.
Proof.
  induction 1 as [|b bs Hb _ IH]; [done|]. simpl. unfold is_byte in Hb.
  replace (b + 256 * le_val bs) with (b + le_val bs * 256) by lia.
  rewrite Z.mod_add, Z.div_add, (Z.mod_small b), (Z.div_small b), Z.add_0_l by lia.
  by rewrite IH.
Qed.

Lemma slice_Ok {A} (l : list A) a b :
  0 ≤ a ≤ b → b ≤ zlen l → slice l a b = Ok (sub l a (b - a)).
Proof.
  intros [??] ?. unfold slice.
  destruct (Z.leb_spec 0 a), (Z.leb_spec a b), (Z.leb_spec b (zlen l)); simpl; done || lia.
Qed.
Lemma slice_inv {A} (l : list A) a b k :
  slice l a b = Ok k → 0 ≤ a ≤ b ∧ b ≤ zlen l ∧ k = sub l a (b - a).
Proof.
  unfold slice.
  destruct (Z.leb_spec 0 a), (Z.leb_spec a b), (Z.leb_spec b (zlen l)); simpl; naive_solver lia.
Qed.
Lemma length_sub {A} (l : list A) off n :
  0 ≤ off → 0 ≤ n → off + n ≤ zlen l → zlen (sub l off n) = n.
Proof. unfold zlen, sub. rewrite length_take, length_drop. lia. Qed.
Lemma sub_app_l {A} (l k : list A) off n :
  0 ≤ off → 0 ≤ n → off + n ≤ zlen l → sub (l ++ k) off n = sub l off n.
Proof.
  unfold zlen, sub. intros. rewrite drop_app_le by lia.
  rewrite take_app_le; [done|]. rewrite length_drop. lia.
Qed.
Lemma sub_app_r {A} (l k : list A) off n :
  zlen l ≤ off → sub (l ++ k) off n = sub k (off - zlen l) n.
Proof. unfold zlen, sub. intros. rewrite drop_app_ge by lia. do 2 f_equal. lia. Qed.
Lemma sub_all {A} (l : list A) n : zlen l ≤ n → sub l 0 n = l.
Proof. unfold zlen, sub. intros. rewrite drop_0, take_ge; [done|lia]. Qed.
Lemma sub_sub {A} (l : list A) a n b m :
  0 ≤ a → 0 ≤ b → 0 ≤ m → b + m ≤ n → sub (sub l a n) b m = sub l (a + b) m.
Proof.
  intros. unfold sub. rewrite skipn_firstn_comm, take_take, drop_drop. f_equal; [lia|f_equal; lia].
Qed.
Lemma sub_ok l off n : bytes_ok l → bytes_ok (sub l off n).
Proof. intros. by apply Forall_take, Forall_drop. Qed.

Lemma length_splice {A} (l : list A) off bs :
  0 ≤ off → off + zlen bs ≤ zlen l → zlen (splice l off bs) = zlen l.
Proof. unfold zlen, splice. intros. rewrite !length_app, length_take, length_drop. lia. Qed.
Lemma splice_ok l off bs : bytes_ok l → bytes_ok bs → bytes_ok (splice l off bs).
Proof. intros. apply Forall_app_2; [by apply Forall_take|]. apply Forall_app_2; [done|by apply Forall_drop]. Qed.
Lemma sub_splice_eq {A} (l : list A) off bs :
  0 ≤ off → off + zlen bs ≤ zlen l → sub (splice l off bs) off (zlen bs) = bs.
Proof.
  unfold zlen, sub, splice. intros.
  rewrite drop_app_ge, length_take by (rewrite length_take; lia).
  replace (Z.to_nat off - Z.to_nat off `min` length l)%nat with 0%nat by lia.
  rewrite drop_0, take_app_le, take_ge by lia. done.
Qed.
Lemma sub_splice_in {A} (l : list A) off bs a n :
  0 ≤ off → off + zlen bs ≤ zlen l → off ≤ a → 0 ≤ n → a + n ≤ off + zlen bs →
  sub (splice l off bs) a n = sub bs (a - off) n.
Proof.
  intros. rewrite <- (sub_splice_eq l off bs) at 2 by done.
  rewrite sub_sub by lia. f_equal. lia.
Qed.
Lemma sub_splice_before {A} (l : list A) off bs a n :
  0 ≤ a → 0 ≤ n → a + n ≤ off → off + zlen bs ≤ zlen l → sub (splice l off bs) a n = sub l a n.
Proof.
  intros. pose proof (zlen_nonneg bs). unfold splice.
  rewrite sub_app_l by (unfold zlen in *; rewrite ?length_take; lia).
  unfold sub. rewrite skipn_firstn_comm, take_take. f_equal. lia.
Qed.
Lemma sub_splice_after {A} (l : list A) off bs a n :
  0 ≤ off → off + zlen bs ≤ a → off + zlen bs ≤ zlen l → sub (splice l off bs) a n = sub l a n.
Proof.
  intros. unfold splice. pose proof (zlen_nonneg bs).
  assert (zlen (take (Z.to_nat off) l) = off) as Ht by (unfold zlen in *; rewrite length_take; lia).
  rewrite sub_app_r by lia. rewrite sub_app_r by lia. rewrite Ht.
  unfold sub. rewrite drop_drop. f_equal. f_equal. unfold zlen in *. lia.
Qed.
Lemma sub_splice_disjoint {A} (l : list A) off bs a n :
  0 ≤ off → off + zlen bs ≤ zlen l → 0 ≤ a → 0 ≤ n →
  a + n ≤ off ∨ off + zlen bs ≤ a → sub (splice l off bs) a n = sub l a n.
Proof. intros ???? [?|?]; [apply sub_splice_before|apply sub_splice_after]; lia. Qed.

Lemma copy_from_slice_Ok {A} (l : list A) a b bs :
  0 ≤ a → b ≤ zlen l → zlen bs = b - a → copy_from_slice l a b bs = Ok (splice l a bs).
Proof.
  intros. pose proof (zlen_nonneg bs). unfold copy_from_slice.
  destruct (Z.leb_spec 0 a), (Z.leb_spec a b), (Z.leb_spec b (zlen l)), (Z.eqb_spec (zlen bs) (b - a));
    simpl; done || lia.
Qed.
Lemma index_Ok {A} (l : list A) i x : l !! Z.to_nat i = Some x → 0 ≤ i → index l i = Ok x.
Proof. intros H ?. unfold index. destruct (Z.leb_spec 0 i); [by rewrite H|lia]. Qed.

Create HintDb kkdb.
Create Rewrite HintDb kkdb.
#[export] Hint Resolve zlen_nonneg le_bytes_ok as_u64_range as_u32_range as_i64_range : kkdb.
#[export] Hint Resolve sub_ok splice_ok : kkdb.
#[export] Hint Rewrite @zlen_app @zlen_cons @zlen_nil zlen_le_bytes : kkdb.
