(* ===== verification/Varint.v ===== *)
(** Variable-length integers: src/src/varint.rs.

    LEB128 encoding of a [u64] ([write_varint_u64], [read_varint_u64]) and the
    ZigZag mapping between [i64] and [u64].  The theorems: every [u64] is
    written in one to ten bytes that are read back exactly, with whatever
    follows left alone; reading never consumes more than ten bytes nor yields
    a number beyond 64 bits; ZigZag is a bijection between [i64] and [u64]. *)
From S2P Require Import Prelude.

(** ** The code *)

(** The loop of [write_varint_u64]; [val >>= 7] empties [val] after at most
    [log2 val + 1] rounds, the fuel [write_varint_u64] gives it. *)
Fixpoint write_varint_loop (fuel : nat) (val : Z) (buf : bytes) : bytes :=
  match fuel with
  | O => buf
  | S fuel' =>
      let byte := as_u8 (Z.land val 0x7F) in
      let val := Z.shiftr val 7 in
      let byte := if negb (val =? 0) then Z.lor byte 0x80 else byte in
      let buf := buf ++ [byte] in
      if val =? 0 then buf else write_varint_loop fuel' val buf
  end.
Definition write_varint_u64 (val : Z) (buf : bytes) : bytes :=
  write_varint_loop (S (Z.to_nat (Z.log2 val))) val buf.

(** The [for &byte in data] loop of [read_varint_u64]. *)
Fixpoint read_varint_loop (data : bytes) (val shift consumed : Z) : res (Z * Z) :=
  match data with
  | [] => Err (CorruptDatabase "truncated varint")
  | byte :: data' =>
      let consumed := consumed + 1 in
      if 63 <=? shift then
        if 0x01 <? byte then Err (CorruptDatabase "varint overflowed 64 bits")
        else Ok (Z.lor val (as_u64 (Z.shiftl byte shift)), consumed)
      else
        let val := Z.lor val (as_u64 (Z.shiftl (Z.land byte 0x7F) shift)) in
        if Z.land byte 0x80 =? 0 then Ok (val, consumed)
        else read_varint_loop data' val (shift + 7) consumed
  end.
Definition read_varint_u64 (data : bytes) : res (Z * Z) := read_varint_loop data 0 0 0.

Definition zigzag_encode (val : Z) : Z :=
  as_u64 (Z.lxor (as_i64 (Z.shiftl val 1)) (Z.shiftr val 63)).
Definition zigzag_decode (val : Z) : Z :=
  Z.lxor (as_i64 (Z.shiftr val 1)) (- as_i64 (Z.land val 1)).

(** ** Bit-level facts *)

Lemma land_127 b : Z.land b 0x7F = b mod 128.
Proof. change 0x7F with (Z.ones 7). apply Z.land_ones. lia. Qed.
Lemma lor_shiftl_add a b n :
  0 ≤ n → 0 ≤ a < 2 ^ n → Z.lor a (Z.shiftl b n) = a + b * 2 ^ n.
Proof.
  intros Hn Ha. assert (Z.land a (Z.shiftl b n) = 0) as Hd.
  { apply Z.bits_inj'. intros i Hi. rewrite Z.land_spec, Z.bits_0.
    destruct (decide (i < n)).
    - rewrite Z.shiftl_spec_low by lia. apply andb_false_r.
    - destruct (decide (a = 0)) as [->|]; [by rewrite Z.bits_0|].
      rewrite Z.bits_above_log2; [done|lia|].
      assert (2 ^ n ≤ 2 ^ i) by (apply Z.pow_le_mono_r; lia).
      apply Z.log2_lt_pow2; lia. }
  rewrite <- Z.lxor_lor, <- Z.add_nocarry_lxor by done.
  by rewrite Z.shiftl_mul_pow2 by lia.
Qed.
Lemma lor_128 b : 0 ≤ b < 128 → Z.lor b 0x80 = b + 128.
Proof. intros. change (Z.lor b 0x80) with (Z.lor b (Z.shiftl 1 7)). rewrite lor_shiftl_add; lia. Qed.
Lemma land_128 b : is_byte b → Z.land b 0x80 = if b <? 128 then 0 else 128.
Proof.
  intros Hb. apply Z.eqb_eq.
  by apply (byte_forallb (λ b, Z.land b 0x80 =? if b <? 128 then 0 else 128)).
Qed.

(** ** Writing *)

Lemma write_varint_loop_app fuel val buf :
  write_varint_loop fuel val buf = buf ++ write_varint_loop fuel val [].
Proof.
  revert val buf. induction fuel as [|fuel IH]; intros val buf; cbn [write_varint_loop].
  - by rewrite app_nil_r.
  - destruct (Z.shiftr val 7 =? 0); [done|]. rewrite IH. symmetry. rewrite IH.
    simpl. by rewrite <- app_assoc.
Qed.

Lemma write_varint_loop_fuel fuel fuel' val buf :
  0 ≤ val → val < 2 ^ Z.of_nat fuel → val < 2 ^ Z.of_nat fuel' → fuel ≠ O → fuel' ≠ O →
  write_varint_loop fuel val buf = write_varint_loop fuel' val buf.
Proof.
  revert fuel' val buf. induction fuel as [|fuel IH]; intros [|fuel'] val buf Hv Hf Hf' ??; try done.
  cbn [write_varint_loop]. rewrite Z.shiftr_div_pow2 by lia. change (2 ^ 7) with 128.
  destruct (Z.eqb_spec (val / 128) 0) as [|Hne]; [done|].
  rewrite !Nat2Z.inj_succ, !Z.pow_succ_r in * by lia.
  assert (2 * (val / 128) ≤ val) by (pose proof (Z.mul_div_le val 128); lia).
  assert (0 ≤ val / 128) by (apply Z.div_pos; lia).
  apply IH; try lia; intros ->; simpl in *; lia.
Qed.

(** The loop does what its Rust text says, one round at a time. *)
Lemma write_varint_unfold val buf :
  0 ≤ val →
  write_varint_u64 val buf =
    if val <? 128 then buf ++ [val]
    else write_varint_u64 (val / 128) (buf ++ [val mod 128 + 128]).
Proof.
  intros Hv. unfold write_varint_u64 at 1. cbn [write_varint_loop].
  rewrite land_127, Z.shiftr_div_pow2 by lia. change (2 ^ 7) with 128.
  pose proof (Z.mod_pos_bound val 128). unfold as_u8. rewrite (Z.mod_small (val mod 128)) by lia.
  destruct (Z.ltb_spec val 128).
  - rewrite Z.div_small, Z.mod_small by lia. done.
  - assert (1 ≤ val / 128) by (apply Z.div_le_lower_bound; lia).
    destruct (Z.eqb_spec (val / 128) 0); [lia|]. simpl negb. cbv iota.
    rewrite lor_128 by lia. unfold write_varint_u64.
    assert (val < 2 ^ (Z.log2 val + 1)) by (apply Z.log2_spec; lia).
    assert (0 ≤ Z.log2 val) by apply Z.log2_nonneg.
    assert (2 * (val / 128) ≤ val) by (pose proof (Z.mul_div_le val 128); lia).
    apply write_varint_loop_fuel; try lia.
    + rewrite Z2Nat.id by lia. rewrite Z.pow_add_r in * by lia. lia.
    + rewrite Nat2Z.inj_succ, Z2Nat.id by apply Z.log2_nonneg.
      apply Z.log2_spec. lia.
    + intros E. assert (Z.log2 val = 0) as El by lia.
      rewrite El in *. simpl in *. lia.
Qed.

(** The encoding itself, without the buffer it is appended to. *)
Definition varint (val : Z) : bytes := write_varint_u64 val [].

Lemma write_varint_app val buf : write_varint_u64 val buf = buf ++ varint val.
Proof. apply write_varint_loop_app. Qed.
Lemma varint_unfold val :
  0 ≤ val →
  varint val = if val <? 128 then [val] else (val mod 128 + 128) :: varint (val / 128).
Proof.
  intros. unfold varint. rewrite write_varint_unfold by done.
  destruct (val <? 128); [done|]. simpl. by rewrite write_varint_app.
Qed.

(** Induction on the number of 7-bit groups. *)
Lemma varint_ind (P : Z → Prop) :
  (∀ v, 0 ≤ v < 128 → P v) →
  (∀ v, 128 ≤ v → P (v / 128) → P v) →
  ∀ v, 0 ≤ v → P v.
Proof.
  intros Hb Hs v0 Hv0. apply (Z_lt_induction (λ v, 0 ≤ v → P v)); [|done..].
  intros v IH Hv.
  destruct (decide (v < 128)); [apply Hb; lia|].
  assert (0 ≤ v / 128 < v) by (split; [apply Z.div_pos; lia|apply Z.div_lt; lia]).
  apply Hs; [lia|]. apply IH; lia.
Qed.

Lemma varint_bytes_ok v : 0 ≤ v → bytes_ok (varint v).
Proof.
  revert v. apply varint_ind; intros v Hv; [|intros IH]; rewrite varint_unfold by lia.
  - destruct (Z.ltb_spec v 128); [|lia]. repeat constructor; lia.
  - destruct (Z.ltb_spec v 128); [lia|]. constructor; [|done].
    pose proof (Z.mod_pos_bound v 128). unfold is_byte. lia.
Qed.

Lemma varint_length v n :
  0 ≤ v → v < 2 ^ (7 * n) → 1 ≤ n → 1 ≤ zlen (varint v) ≤ n.
Proof.
  intros Hv. revert v Hv n.
  apply (varint_ind (λ v, ∀ n, _ → _ → _)); intros v Hv; [|intros IH]; intros n Hn H1;
    rewrite varint_unfold by lia.
  - destruct (Z.ltb_spec v 128); [|lia]. unfold zlen. simpl. lia.
  - destruct (Z.ltb_spec v 128); [lia|]. rewrite zlen_cons.
    assert (2 ≤ n). { destruct (decide (n = 1)) as [->|]; [simpl in *; lia|lia]. }
    assert (v / 128 < 2 ^ (7 * (n - 1))).
    { apply Z.div_lt_upper_bound; [lia|]. change 128 with (2 ^ 7).
      rewrite <- Z.pow_add_r by lia. replace (7 + 7 * (n - 1)) with (7 * n) by lia. lia. }
    specialize (IH (n - 1)). lia.
Qed.

(** ** Reading *)

Lemma read_varint_step b data val shift consumed :
  is_byte b → 0 ≤ shift → shift < 63 → 0 ≤ val < 2 ^ shift →
  (b mod 128) * 2 ^ shift < 2 ^ 64 →
  read_varint_loop (b :: data) val shift consumed =
    if b <? 128 then Ok (val + b * 2 ^ shift, consumed + 1)
    else read_varint_loop data (val + (b mod 128) * 2 ^ shift) (shift + 7) (consumed + 1).
Proof.
  intros Hb Hs Hs' Hv Hov. cbn [read_varint_loop].
  destruct (Z.leb_spec 63 shift); [lia|].
  rewrite land_127, land_128 by done. pose proof (Z.mod_pos_bound b 128).
  rewrite as_u64_id by (unfold is_u64; rewrite Z.shiftl_mul_pow2 by lia; nia).
  rewrite lor_shiftl_add by lia. unfold is_byte in Hb.
  destruct (Z.ltb_spec b 128); simpl; [|done]. by rewrite Z.mod_small by lia.
Qed.

Lemma read_varint_loop_varint v rest val shift consumed :
  0 ≤ v → 0 ≤ shift → (∃ k, shift = 7 * k) → 0 ≤ val < 2 ^ shift → v * 2 ^ shift < 2 ^ 64 →
  (shift < 64) →
  read_varint_loop (varint v ++ rest) val shift consumed =
    Ok (val + v * 2 ^ shift, consumed + zlen (varint v)).
Proof.
  intros Hv. revert v Hv val shift consumed.
  apply (varint_ind (λ v, ∀ val shift consumed, _ → _ → _ → _ → _ → _));
    intros v Hv; [|intros IH]; intros val shift consumed Hs [k Hk] Hval Hov H64;
    rewrite varint_unfold by lia.
  - destruct (Z.ltb_spec v 128); [|lia]. simpl app. unfold zlen at 1. cbn [length].
    destruct (decide (shift = 63)) as [->|].
    + cbn [read_varint_loop]. destruct (Z.leb_spec 63 63); [|lia].
      destruct (Z.ltb_spec 1 v); [lia|].
      rewrite as_u64_id by (unfold is_u64; rewrite Z.shiftl_mul_pow2 by lia; nia).
      by rewrite lor_shiftl_add by lia.
    + rewrite read_varint_step; try (unfold is_byte; lia).
      * destruct (Z.ltb_spec v 128); [done|lia].
      * rewrite Z.mod_small by lia. lia.
  - destruct (Z.ltb_spec v 128); [lia|]. simpl app.
    pose proof (Z.mod_pos_bound v 128) as Hm. pose proof (Z.div_mod v 128) as Hdm.
    assert (0 < 2 ^ shift) by (apply Z.pow_pos_nonneg; lia).
    assert (shift < 57). { destruct (decide (shift < 57)); [done|].
      assert (2 ^ 57 ≤ 2 ^ shift) by (apply Z.pow_le_mono_r; lia). nia. }
    assert ((v mod 128 + 128) mod 128 = v mod 128) as Hmm.
    { rewrite <- (Z.mul_1_l 128) at 2. rewrite Z.mod_add by lia. apply Z.mod_small. lia. }
    rewrite read_varint_step; try (unfold is_byte; lia).
    + destruct (Z.ltb_spec (v mod 128 + 128) 128); [lia|]. rewrite Hmm.
      assert (2 ^ (shift + 7) = 128 * 2 ^ shift) as Hp by (rewrite Z.pow_add_r by lia; lia).
      rewrite IH; try (rewrite ?Hp; nia).
      * f_equal. rewrite zlen_cons, Hp. f_equal; [|lia].
        rewrite Hdm at 3 by lia. ring.
      * exists (k + 1). lia.
    + rewrite Hmm. nia.
Qed.

Lemma read_varint_app v rest :
  is_u64 v → read_varint_u64 (varint v ++ rest) = Ok (v, zlen (varint v)).
Proof.
  intros [??]. unfold read_varint_u64.
  rewrite read_varint_loop_varint; try lia.
  - f_equal. f_equal; lia.
  - by exists 0.
Qed.

Lemma varint_u64_length v : is_u64 v → 1 ≤ zlen (varint v) ≤ 10.
Proof. intros [??]. apply varint_length; lia. Qed.
Lemma varint_nonempty v : 0 ≤ v → varint v ≠ [].
Proof. intros. rewrite varint_unfold by done. by destruct (v <? 128). Qed.

Lemma read_varint_loop_bounds data val shift consumed v n :
  bytes_ok data → 0 ≤ shift ≤ 63 → (∃ k, shift = 7 * k) → 0 ≤ val < 2 ^ shift →
  read_varint_loop data val shift consumed = Ok (v, n) →
  is_u64 v ∧ consumed < n ∧ n ≤ consumed + zlen data ∧ 7 * (n - consumed) ≤ 70 - shift.
Proof.
  intros Hd. revert val shift consumed. induction Hd as [|b data Hb Hd IH];
    intros val shift consumed Hs [k Hk] Hval; [done|].
  rewrite zlen_cons. pose proof (zlen_nonneg data). pose proof Hb as Hb'. unfold is_byte in Hb'.
  destruct (decide (shift = 63)) as [->|].
  - cbn [read_varint_loop]. destruct (Z.leb_spec 63 63); [|lia].
    destruct (Z.ltb_spec 1 b); [done|]. intros [= <- <-].
    rewrite as_u64_id by (unfold is_u64; rewrite Z.shiftl_mul_pow2 by lia; lia).
    rewrite lor_shiftl_add by lia. unfold is_u64. lia.
  - assert (shift ≤ 56) by lia.
    assert (0 < 2 ^ shift ≤ 2 ^ 56) by (split; [apply Z.pow_pos_nonneg; lia|apply Z.pow_le_mono_r; lia]).
    pose proof (Z.mod_pos_bound b 128).
    rewrite read_varint_step; try lia; [|done|nia].
    assert (2 ^ (shift + 7) = 128 * 2 ^ shift) as Hp by (rewrite Z.pow_add_r by lia; lia).
    destruct (Z.ltb_spec b 128).
    + intros [= <- <-]. unfold is_u64. nia.
    + intros Hr. apply IH in Hr; [int_lia|lia|exists (k + 1); lia|rewrite Hp; nia].
Qed.

(** Reading either succeeds or reports a corrupt database. *)
Lemma read_varint_shape data val shift n :
  match read_varint_loop data val shift n with Ok _ | Err (CorruptDatabase _) => True | _ => False end.
Proof.
  revert val shift n. induction data as [|b d IH]; intros; cbn [read_varint_loop]; [done|].
  destruct (63 <=? shift); [by destruct (1 <? b)|]. destruct (_ =? 0); [done|]. apply IH.
Qed.
Lemma read_varint_cases data :
  bytes_ok data →
  (∃ v n, read_varint_u64 data = Ok (v, n) ∧ is_u64 v ∧ 1 ≤ n ≤ zlen data) ∨
  (∃ m, read_varint_u64 data = Err (CorruptDatabase m)).
Proof.
  intros H. unfold read_varint_u64. pose proof (read_varint_shape data 0 0 0) as Hshape.
  destruct (read_varint_loop data 0 0 0) as [[v n]|[]| |] eqn:E; try done; [left|by eauto].
  apply read_varint_loop_bounds in E; try done; try lia; [|by exists 0].
  exists v, n. split; [done|]. int_lia.
Qed.

(** ** ZigZag *)

Lemma lxor_m1_r x : Z.lxor x (-1) = - x - 1.
Proof. rewrite Z.lxor_m1_r. unfold Z.lnot. lia. Qed.

Lemma zigzag_encode_spec v :
  is_i64 v → zigzag_encode v = if 0 <=? v then 2 * v else - 2 * v - 1.
Proof.
  intros Hv. unfold is_i64 in Hv. unfold zigzag_encode.
  rewrite Z.shiftl_mul_pow2, Z.shiftr_div_pow2 by lia. change (2 ^ 1) with 2.
  destruct (Z.leb_spec 0 v).
  - rewrite Z.div_small, Z.lxor_0_r by lia. unfold as_u64, as_i64.
    rewrite (Z.mod_small (v * 2)) by lia.
    destruct (Z.ltb_spec (v * 2) (2 ^ 63)).
    + rewrite Z.mod_small by lia. lia.
    + rewrite <- (Z.mod_add _ 1), Z.mod_small by lia. lia.
  - replace (v / 2 ^ 63) with (-1) by (apply Z.div_unique with (v + 2 ^ 63); lia).
    rewrite lxor_m1_r. unfold as_u64, as_i64.
    destruct (Z.ltb_spec ((v * 2) mod 2 ^ 64) (2 ^ 63)) as [Hlt|Hge].
    + replace ((v * 2) mod 2 ^ 64) with (v * 2 + 2 ^ 64) in *
        by (apply Z.mod_unique_pos with (-1); lia).
      rewrite <- (Z.mod_add _ 1), Z.mod_small by lia. lia.
    + replace ((v * 2) mod 2 ^ 64) with (v * 2 + 2 ^ 64) in *
        by (apply Z.mod_unique_pos with (-1); lia).
      rewrite Z.mod_small by lia. lia.
Qed.

Lemma zigzag_decode_spec u :
  is_u64 u → zigzag_decode u = if u mod 2 =? 0 then u / 2 else - (u / 2) - 1.
Proof.
  intros Hu. unfold is_u64 in Hu. unfold zigzag_decode.
  change 1 with (Z.ones 1) at 2. rewrite Z.land_ones, Z.shiftr_div_pow2 by lia. change (2 ^ 1) with 2.
  assert (0 ≤ u / 2 < 2 ^ 63) by (split; [apply Z.div_pos; lia|apply Z.div_lt_upper_bound; lia]).
  pose proof (Z.mod_pos_bound u 2).
  rewrite !as_i64_id by (unfold is_i64; lia).
  destruct (Z.eqb_spec (u mod 2) 0) as [->|].
  - apply Z.lxor_0_r.
  - replace (u mod 2) with 1 by lia. apply lxor_m1_r.
Qed.

Lemma zigzag_encode_range v : is_i64 v → is_u64 (zigzag_encode v).
Proof. intros _. apply as_u64_range. Qed.

Lemma zigzag_decode_ok u : is_u64 u → is_i64 (zigzag_decode u).
Proof.
  intros Hu. rewrite zigzag_decode_spec by done. destruct (Z.eqb_spec (u mod 2) 0); div_lia.
Qed.
Lemma zigzag_decode_encode v : is_i64 v → zigzag_decode (zigzag_encode v) = v.
Proof.
  intros Hv. rewrite zigzag_decode_spec by by apply zigzag_encode_range.
  rewrite zigzag_encode_spec by done.
  destruct (Z.leb_spec 0 v).
  - destruct (Z.eqb_spec ((2 * v) mod 2) 0); div_lia.
  - destruct (Z.eqb_spec ((- 2 * v - 1) mod 2) 0); div_lia.
Qed.
#[export] Hint Resolve zigzag_encode_range zigzag_decode_ok varint_u64_length : kkdb.

(** ** Properties *)

(** LEB128 round trip.  For every [u64] and whatever bytes follow,
    [read_varint_u64] of the bytes [write_varint_u64] appended returns that
    number and exactly the number of bytes written, which is between one and
    ten; and nothing already in the buffer changes. *)
Theorem varint_roundtrip (v : Z) (buf rest : bytes) (Hv : is_u64 v) :
  ∃ enc, write_varint_u64 v buf = buf ++ enc ∧ bytes_ok enc ∧ 1 ≤ zlen enc ≤ 10 ∧
         read_varint_u64 (enc ++ rest) = Ok (v, zlen enc).
Proof.
  exists (varint v). pose proof Hv as [??]. pose proof (varint_u64_length v Hv) as [??].
  split_and!; auto using write_varint_app, varint_bytes_ok, read_varint_app.
Qed.

Lemma varint_roundtrip_witness :
  ∃ enc, write_varint_u64 U64_MAX [7] = [7] ++ enc ∧ bytes_ok enc ∧ 1 ≤ zlen enc ≤ 10 ∧
         read_varint_u64 (enc ++ [1; 2]) = Ok (U64_MAX, zlen enc).
Proof. apply (varint_roundtrip U64_MAX [7] [1; 2]). unfold is_u64, U64_MAX. lia. Defined.

(** Reading is safe on any input: it never panics, and when it succeeds
    the number fits in 64 bits and the count of consumed bytes is between one
    and ten and does not run past the input. *)
Theorem read_varint_safe (data : bytes) (Hd : bytes_ok data) :
  match read_varint_u64 data with
  | Ok (v, n) => is_u64 v ∧ 1 ≤ n ≤ 10 ∧ n ≤ zlen data
  | Err (CorruptDatabase _) => True
  | _ => False
  end.
Proof.
  pose proof (read_varint_shape data 0 0 0) as Hshape. unfold read_varint_u64.
  destruct (read_varint_loop data 0 0 0) as [[v n]| | |] eqn:E; try done.
  apply read_varint_loop_bounds in E; try done; try lia; [|by exists 0].
  int_lia.
Qed.

Lemma read_varint_safe_witness :
  match read_varint_u64 [0x80; 0x80; 0x03; 9] with
  | Ok (v, n) => is_u64 v ∧ 1 ≤ n ≤ 10 ∧ n ≤ zlen [0x80; 0x80; 0x03; 9]
  | Err (CorruptDatabase _) => True
  | _ => False
  end.
Proof. apply (read_varint_safe [0x80; 0x80; 0x03; 9]). unfold bytes_ok. repeat constructor; lia. Defined.

(** ZigZag is a bijection: decoding undoes encoding on every [i64] and
    encoding undoes decoding on every [u64]. *)
Theorem zigzag_roundtrip (v u : Z) (Hv : is_i64 v) (Hu : is_u64 u) :
  zigzag_decode (zigzag_encode v) = v ∧
  zigzag_encode (zigzag_decode u) = u ∧ is_i64 (zigzag_decode u).
Proof.
  split_and!; auto using zigzag_decode_encode with kkdb.
  rewrite zigzag_encode_spec by auto with kkdb. rewrite zigzag_decode_spec by done.
  destruct (Z.eqb_spec (u mod 2) 0).
  - destruct (Z.leb_spec 0 (u / 2)); div_lia.
  - destruct (Z.leb_spec 0 (- (u / 2) - 1)); div_lia.
Qed.

Lemma zigzag_roundtrip_witness :
  zigzag_decode (zigzag_encode (- 2 ^ 63)) = - 2 ^ 63 ∧
  zigzag_encode (zigzag_decode U64_MAX) = U64_MAX ∧ is_i64 (zigzag_decode U64_MAX).
Proof. apply (zigzag_roundtrip (- 2 ^ 63) U64_MAX); unfold is_i64, is_u64, U64_MAX; lia. Defined.
