(* ===== verification/PrefixCompress.v ===== *)
(** Prefix compression of index keys: src/src/storage/prefix_compress.rs.

    A key is stored as the number of leading bytes it shares with the
    previous key (at most 255), the length of the remaining suffix as a
    little-endian [u16], and the suffix.  The theorems: decoding against the
    same previous key gives the key back as long as its suffix fits in a
    [u16]; a longer key loses everything past its first 65535 bytes; the size
    estimate is the exact size of the encoded run. *)
From S2P Require Import Prelude.

(** ** The code *)

(** [prev.iter().zip(cur.iter()).take_while(|(a, b)| a == b).count()] *)
Fixpoint shared_prefix (prev cur : bytes) : Z :=
  match prev, cur with
  | a :: prev', b :: cur' => if a =? b then 1 + shared_prefix prev' cur' else 0
  | _, _ => 0
  end.

Definition prefix_encode (prev cur : bytes) : bytes :=
  let shared := Z.min (shared_prefix prev cur) 255 in
  let suffix := drop (Z.to_nat shared) cur in
  if U16_MAX <? zlen suffix then
    [0] ++ le_bytes 2 U16_MAX ++ take (Z.to_nat U16_MAX) cur
  else
    [shared] ++ le_bytes 2 (zlen suffix) ++ suffix.

Definition prefix_decode (prev encoded : bytes) : bytes :=
  match encoded with
  | shared :: lo :: hi :: rest =>
      let suffix_len := le_val [lo; hi] in
      let suffix :=
        if 3 + suffix_len <=? zlen encoded then take (Z.to_nat suffix_len) rest else rest in
      let safe_shared := Z.min shared (zlen prev) in
      take (Z.to_nat safe_shared) prev ++ suffix
  | _ => encoded
  end.

(** The loop [for i in 0..keys.len()], with [prev] the key before [keys]. *)
Fixpoint estimate_compressed_loop (prev : bytes) (keys : list bytes) (total : Z) : Z :=
  match keys with
  | [] => total
  | key :: keys' =>
      let shared := Z.min (shared_prefix prev key) 255 in
      let suffix_len := Z.min (zlen key - shared) U16_MAX in
      estimate_compressed_loop key keys' (total + (1 + 2 + suffix_len))
  end.
Definition estimate_compressed_size (keys : list bytes) : Z :=
  estimate_compressed_loop [] keys 0.

(** A run of keys, each encoded against the one before it. *)
Fixpoint encode_run (prev : bytes) (keys : list bytes) : list bytes :=
  match keys with
  | [] => []
  | key :: keys' => prefix_encode prev key :: encode_run key keys'
  end.
Fixpoint decode_run (prev : bytes) (encs : list bytes) : list bytes :=
  match encs with
  | [] => []
  | enc :: encs' => let key := prefix_decode prev enc in key :: decode_run key encs'
  end.

(** ** Lemmas *)

Lemma shared_prefix_bounds prev cur :
  0 ≤ shared_prefix prev cur ≤ zlen prev ∧ shared_prefix prev cur ≤ zlen cur.
Proof.
  revert cur. induction prev as [|a prev IH]; intros [|b cur]; simpl;
    rewrite ?zlen_cons; try (unfold zlen; simpl; lia).
  pose proof (zlen_nonneg prev). pose proof (zlen_nonneg cur). specialize (IH cur).
  destruct (a =? b); lia.
Qed.

Lemma shared_prefix_take prev cur n :
  (Z.of_nat n ≤ shared_prefix prev cur) → take n prev = take n cur.
Proof.
  revert cur n. induction prev as [|a prev IH]; intros [|b cur] [|n]; simpl; try done; try lia.
  destruct (Z.eqb_spec a b) as [->|]; [|lia]. intros. f_equal. apply IH. lia.
Qed.

Lemma le_val_2_bytes n : 0 ≤ n ≤ U16_MAX → le_val (le_bytes 2 n) = n.
Proof. intros. rewrite le_val_le_bytes. apply Z.mod_small. unfold U16_MAX in *. lia. Qed.

Lemma prefix_decode_cons prev shared n suffix :
  0 ≤ n ≤ U16_MAX → zlen suffix = n →
  prefix_decode prev ([shared] ++ le_bytes 2 n ++ suffix) =
    take (Z.to_nat (Z.min shared (zlen prev))) prev ++ suffix.
Proof.
  intros Hn Hs. pose proof (le_val_2_bytes n Hn) as Hle. cbn [le_bytes app prefix_decode] in *.
  rewrite Hle. rewrite !zlen_cons, Hs.
  destruct (Z.leb_spec (3 + n) (1 + (1 + (1 + n)))); [|lia].
  f_equal. apply take_ge. unfold zlen in Hs. lia.
Qed.

Lemma prefix_roundtrip_aux prev cur :
  zlen cur - Z.min (shared_prefix prev cur) 255 ≤ U16_MAX →
  prefix_decode prev (prefix_encode prev cur) = cur.
Proof.
  intros H. pose proof (shared_prefix_bounds prev cur) as [??].
  unfold prefix_encode. set (sh := Z.min (shared_prefix prev cur) 255) in *.
  assert (zlen (drop (Z.to_nat sh) cur) = zlen cur - sh) as Hl
    by (unfold zlen in *; rewrite length_drop; lia).
  destruct (Z.ltb_spec U16_MAX (zlen (drop (Z.to_nat sh) cur))); [lia|].
  rewrite prefix_decode_cons; [|split; [apply zlen_nonneg|done]|done].
  rewrite Z.min_l by lia.
  rewrite (shared_prefix_take prev cur) by lia. apply take_drop.
Qed.

Lemma length_prefix_encode prev cur :
  zlen (prefix_encode prev cur) =
    3 + Z.min (zlen cur - Z.min (shared_prefix prev cur) 255) U16_MAX.
Proof.
  pose proof (shared_prefix_bounds prev cur) as [??]. unfold prefix_encode.
  set (sh := Z.min (shared_prefix prev cur) 255).
  assert (zlen (drop (Z.to_nat sh) cur) = zlen cur - sh) as Hl
    by (unfold zlen in *; rewrite length_drop; lia).
  rewrite Hl. destruct (Z.ltb_spec U16_MAX (zlen cur - sh)); rewrite !zlen_app, zlen_le_bytes.
  - replace (zlen (take (Z.to_nat U16_MAX) cur)) with U16_MAX; [unfold zlen at 1; simpl; lia|].
    unfold zlen, U16_MAX in *. rewrite length_take. lia.
  - rewrite Hl. unfold zlen at 1. simpl. lia.
Qed.

Lemma prefix_encode_ok prev cur : bytes_ok cur → bytes_ok (prefix_encode prev cur).
Proof.
  intros. pose proof (shared_prefix_bounds prev cur) as [??]. unfold prefix_encode.
  destruct (_ <? _); repeat apply Forall_app_2; try apply le_bytes_ok;
    auto using Forall_take, Forall_drop; repeat constructor; lia.
Qed.

(** ** Properties *)

(** Prefix compression round trip along a whole run of keys: when every
    key is at most 65535 bytes long, decoding the encoded run, each entry
    against the key decoded before it, gives the keys back. *)
Theorem prefix_run_roundtrip (prev : bytes) (keys : list bytes)
    (Hk : Forall (λ k, zlen k ≤ U16_MAX) keys) :
  decode_run prev (encode_run prev keys) = keys.
Proof.
  revert prev. induction Hk as [|key keys Hk _ IH]; intros prev; simpl; [done|].
  pose proof (shared_prefix_bounds prev key). rewrite prefix_roundtrip_aux by lia. by rewrite IH.
Qed.

Lemma prefix_run_roundtrip_witness :
  decode_run [] (encode_run [] [[117; 1]; [117; 1; 2]; [117; 2]; []]) = [[117; 1]; [117; 1; 2]; [117; 2]; []].
Proof. apply prefix_run_roundtrip. repeat constructor; vm_compute; discriminate. Defined.

(** The limit of the format: a key whose unshared suffix exceeds 65535
    bytes is decoded to its first 65535 bytes only, whatever the previous
    key was; the rest is lost without an error. *)
Theorem prefix_long_key_truncated (prev cur : bytes)
    (Hlong : U16_MAX < zlen cur - Z.min (shared_prefix prev cur) 255) :
  prefix_decode prev (prefix_encode prev cur) = take (Z.to_nat U16_MAX) cur ∧
  prefix_decode prev (prefix_encode prev cur) ≠ cur.
Proof.
  pose proof (shared_prefix_bounds prev cur) as [??]. unfold prefix_encode.
  set (sh := Z.min (shared_prefix prev cur) 255) in *.
  assert (zlen (drop (Z.to_nat sh) cur) = zlen cur - sh) as Hl
    by (unfold zlen in *; rewrite length_drop; lia).
  assert (zlen (take (Z.to_nat U16_MAX) cur) = U16_MAX) as Ht
    by (unfold zlen, U16_MAX in *; rewrite length_take; lia).
  destruct (Z.ltb_spec U16_MAX (zlen (drop (Z.to_nat sh) cur))); [|lia].
  rewrite prefix_decode_cons by (try done; unfold U16_MAX; lia).
  rewrite Z.min_l by apply zlen_nonneg. split; [done|].
  intros E. rewrite <- E in Hlong at 1. simpl in Hlong. rewrite Ht in Hlong. lia.
Qed.

Lemma prefix_long_key_truncated_witness :
  let key := repeat 65 (Z.to_nat 65536) in
  prefix_decode [] (prefix_encode [] key) = take (Z.to_nat U16_MAX) key ∧
  prefix_decode [] (prefix_encode [] key) ≠ key.
Proof.
  apply (prefix_long_key_truncated [] (repeat 65 (Z.to_nat 65536))).
  unfold zlen. rewrite repeat_length, Z2Nat.id by lia. reflexivity.
Defined.

(** [estimate_compressed_size] is exact: it equals the total number of
    bytes [prefix_encode] produces for the run, long keys included. *)
Theorem estimate_compressed_exact (keys : list bytes) :
  estimate_compressed_size keys = zsum (map zlen (encode_run [] keys)).
Proof.
  unfold estimate_compressed_size.
  assert (∀ prev total, estimate_compressed_loop prev keys total =
    total + zsum (map zlen (encode_run prev keys))) as H.
  { induction keys as [|key keys IH]; intros prev total; simpl; [lia|].
    rewrite IH, length_prefix_encode. lia. }
  by rewrite H.
Qed.
