(* ===== verification/Values.v ===== *)
(** Values and rows: src/src/types.rs.

    The dynamically typed [Value] with its comparison operators, the tagged
    binary encoding of values and rows, the prefix-compressed encoding of
    index rows with its page encoder and decoder, and the conversion of epoch
    seconds to a calendar date.  The theorems: encoding round trips for
    values, rows and runs of index rows; decoding arbitrary bytes never
    panics and never reads past its input; the two comparison operators agree
    with each other; the calendar conversion inverts the usual day count. *)
From Stdlib Require Import SpecFloat.
From S2P Require Import Prelude Varint PrefixCompress.

(** ** Data *)

Inductive DataType : Type :=
  | DtNull | DtInteger | DtReal | DtText | DtBlob | DtTimestamp.

(** [DataType::from_str] *)
Definition DataType_from_str (s : string) : DataType :=
  let same t := eq_ignore_ascii_case s t in
  if same "INTEGER" || same "INT" || same "BIGINT" || same "SMALLINT" || same "TINYINT" then DtInteger
  else if same "REAL" || same "FLOAT" || same "DOUBLE" || same "DOUBLE PRECISION" || same "DECIMAL" || same "NUMERIC"
          || String.prefix "decimal(" (to_ascii_lowercase s)
          || String.prefix "numeric(" (to_ascii_lowercase s) then DtReal
  else if same "BLOB" || same "BINARY" || same "VARBINARY" then DtBlob
  else if same "TIMESTAMP" || same "DATETIME" || same "DATE" || same "TIME" then DtTimestamp
  else DtText.

(** [Value]: a [Real] is its 64-bit pattern, a [Text] its UTF-8 bytes. *)
Inductive Value : Type :=
  | VNull
  | VInteger (v : Z)
  | VReal (bits : Z)
  | VText (t : bytes)
  | VBlob (b : bytes).
Abbreviation Row := (list Value).

#[export] Instance Value_eq_dec : EqDecision Value.
Proof. solve_decision. Defined.

(** [std::str::from_utf8] accepts exactly the well-formed UTF-8 sequences. *)
Definition is_cont (b : Z) : bool := (0x80 <=? b) && (b <=? 0xBF).
Fixpoint utf8_valid (l : bytes) : bool :=
  match l with
  | [] => true
  | a :: l1 =>
      if a <=? 0x7F then utf8_valid l1
      else match l1 with
      | [] => false
      | b :: l2 =>
          if (0xC2 <=? a) && (a <=? 0xDF) then is_cont b && utf8_valid l2
          else match l2 with
          | [] => false
          | c :: l3 =>
              if a =? 0xE0 then (0xA0 <=? b) && (b <=? 0xBF) && is_cont c && utf8_valid l3
              else if a =? 0xED then (0x80 <=? b) && (b <=? 0x9F) && is_cont c && utf8_valid l3
              else if (0xE1 <=? a) && (a <=? 0xEF) then is_cont b && is_cont c && utf8_valid l3
              else match l3 with
              | [] => false
              | d :: l4 =>
                  if a =? 0xF0 then (0x90 <=? b) && (b <=? 0xBF) && is_cont c && is_cont d && utf8_valid l4
                  else if a =? 0xF4 then (0x80 <=? b) && (b <=? 0x8F) && is_cont c && is_cont d && utf8_valid l4
                  else (0xF1 <=? a) && (a <=? 0xF3) && is_cont b && is_cont c && is_cont d && utf8_valid l4
              end
          end
      end
  end.

(** The double a 64-bit pattern denotes, and [x as f64] of an integer. *)
Definition f64_of_bits (bits : Z) : spec_float :=
  let s := Z.testbit bits 63 in
  let e := Z.land (Z.shiftr bits 52) 2047 in
  let m := Z.land bits (Z.ones 52) in
  if e =? 2047 then (if m =? 0 then S754_infinity s else S754_nan)
  else if e =? 0 then (match m with Zpos p => S754_finite s p (-1074) | _ => S754_zero s end)
  else match m + 2 ^ 52 with Zpos p => S754_finite s p (e - 1075) | _ => S754_nan end.
Definition f64_of_i64 (v : Z) : spec_float := binary_normalize 53 1024 v 0 false.

(** [v as i64] of a double: truncates towards zero, saturates, NaN is 0. *)
Definition i64_of_f64 (f : spec_float) : Z :=
  let clamp z := Z.max (- 2 ^ 63) (Z.min (2 ^ 63 - 1) z) in
  match f with
  | S754_zero _ | S754_nan => 0
  | S754_infinity s => if s then - 2 ^ 63 else 2 ^ 63 - 1
  | S754_finite s m e =>
      let mag := if 0 <=? e then Zpos m * 2 ^ e else Zpos m / 2 ^ (- e) in
      clamp (if s then - mag else mag)
  end.

(** What every [Value] of the program satisfies. *)
Definition MAX_VALUE_LEN : Z := 256 * 1024 * 1024.
Definition value_ok (v : Value) : Prop :=
  match v with
  | VNull => True
  | VInteger z => is_i64 z
  | VReal bits => is_u64 bits
  | VText t => bytes_ok t ∧ utf8_valid t = true ∧ zlen t ≤ MAX_VALUE_LEN
  | VBlob b => bytes_ok b ∧ zlen b ≤ MAX_VALUE_LEN
  end.
Definition MAX_COLUMNS : Z := 4096.
Definition row_ok (row : Row) : Prop := Forall value_ok row ∧ zlen row ≤ MAX_COLUMNS.

(** ** Operations on values *)

Definition serialized_size (v : Value) : Z :=
  match v with
  | VNull => 1
  | VInteger _ => 10
  | VReal _ => 9
  | VText t => 1 + 9 + zlen t
  | VBlob b => 1 + 9 + zlen b
  end.

Definition serialize_into (v : Value) (buf : bytes) : bytes :=
  match v with
  | VNull => buf ++ [0x00]
  | VInteger z => write_varint_u64 (zigzag_encode z) (buf ++ [0x01])
  | VReal bits => (buf ++ [0x02]) ++ le_bytes 8 bits
  | VText t => write_varint_u64 (zlen t) (buf ++ [0x03]) ++ t
  | VBlob b => write_varint_u64 (zlen b) (buf ++ [0x04]) ++ b
  end.
Definition serialize (v : Value) : bytes := serialize_into v [].

(** [Value::deserialize]: the value and the number of bytes it occupied. *)
Definition deserialize (data : bytes) : res (Value * Z) :=
  match data with
  | [] => Err (CorruptDatabase "empty value data")
  | tag :: _ =>
      if tag =? 0x00 then Ok (VNull, 1)
      else if tag =? 0x01 then
        tail ← slice_from data 1;
        '(v_u64, consumed) ← read_varint_u64 tail;
        Ok (VInteger (zigzag_decode v_u64), 1 + consumed)
      else if tag =? 0x02 then
        if zlen data <? 9 then Err (CorruptDatabase "truncated real")
        else bs ← slice data 1 9; Ok (VReal (le_val bs), 9)
      else if tag =? 0x03 then
        tail ← slice_from data 1;
        '(len_u64, consumed) ← read_varint_u64 tail;
        if MAX_VALUE_LEN <? len_u64
        then Err (CorruptDatabase ("text value length " +:+ pretty len_u64 +:+ " exceeds maximum"))
        else
          let start := 1 + consumed in
          let end_ := start + len_u64 in
          if zlen data <? end_ then Err (CorruptDatabase "truncated text data")
          else
            bs ← slice data start end_;
            if utf8_valid bs then Ok (VText bs, end_)
            else Err (CorruptDatabase "invalid utf-8 in text value")
      else if tag =? 0x04 then
        tail ← slice_from data 1;
        '(len_u64, consumed) ← read_varint_u64 tail;
        if MAX_VALUE_LEN <? len_u64
        then Err (CorruptDatabase ("blob value length " +:+ pretty len_u64 +:+ " exceeds maximum"))
        else
          let start := 1 + consumed in
          let end_ := start + len_u64 in
          if zlen data <? end_ then Err (CorruptDatabase "truncated blob data")
          else
            bs ← slice data start end_;
            Ok (VBlob bs, end_)
      else Err (CorruptDatabase ("unknown value tag: 0x" +:+ hex2 tag))
  end.

Definition is_truthy (v : Value) : bool :=
  match v with
  | VNull => false
  | VInteger z => negb (z =? 0)
  | VReal bits => negb (SFeqb (f64_of_bits bits) (S754_zero false))
  | VText t => negb (zlen t =? 0)
  | VBlob b => negb (zlen b =? 0)
  end.

(** [str::parse::<i64>]: an optional sign, then one or more digits, within
    range. *)
Fixpoint parse_digits (acc : Z) (l : bytes) : option Z :=
  match l with
  | [] => Some acc
  | b :: l' => if (48 <=? b) && (b <=? 57) then parse_digits (10 * acc + (b - 48)) l' else None
  end.
Definition parse_i64 (t : bytes) : option Z :=
  let digits neg l :=
    match l with
    | [] => None
    | _ => n ← parse_digits 0 l;
           let z := if (neg : bool) then - n else n in
           if (- 2 ^ 63 <=? z) && (z <? 2 ^ 63) then Some z else None
    end in
  match t with
  | [] => None
  | b :: t' => if b =? 43 then digits false t' else if b =? 45 then digits true t' else digits false t
  end.
Definition to_i64 (v : Value) : option Z :=
  match v with
  | VInteger z => Some z
  | VReal bits => Some (i64_of_f64 (f64_of_bits bits))
  | VText t => parse_i64 t
  | _ => None
  end.

Definition data_type (v : Value) : DataType :=
  match v with
  | VNull => DtNull | VInteger _ => DtInteger | VReal _ => DtReal | VText _ => DtText | VBlob _ => DtBlob
  end.

(** [impl PartialEq for Value] *)
Definition value_eq (a b : Value) : bool :=
  match a, b with
  | VNull, VNull => true
  | VInteger x, VInteger y => x =? y
  | VReal x, VReal y => SFeqb (f64_of_bits x) (f64_of_bits y)
  | VInteger x, VReal y => SFeqb (f64_of_i64 x) (f64_of_bits y)
  | VReal x, VInteger y => SFeqb (f64_of_bits x) (f64_of_i64 y)
  | VText x, VText y => bool_decide (x = y)
  | VBlob x, VBlob y => bool_decide (x = y)
  | _, _ => false
  end.

(** Lexicographic order of byte strings. *)
Fixpoint bytes_cmp (a b : bytes) : comparison :=
  match a, b with
  | [], [] => Eq
  | [], _ => Lt
  | _, [] => Gt
  | x :: a', y :: b' => match x ?= y with Eq => bytes_cmp a' b' | c => c end
  end.

(** [impl PartialOrd for Value] *)
Definition partial_cmp (a b : Value) : option comparison :=
  match a, b with
  | VNull, VNull => Some Eq
  | VNull, _ => Some Lt
  | _, VNull => Some Gt
  | VInteger x, VInteger y => Some (x ?= y)
  | VReal x, VReal y => SFcompare (f64_of_bits x) (f64_of_bits y)
  | VInteger x, VReal y => SFcompare (f64_of_i64 x) (f64_of_bits y)
  | VReal x, VInteger y => SFcompare (f64_of_bits x) (f64_of_i64 y)
  | VText x, VText y => Some (bytes_cmp x y)
  | VBlob x, VBlob y => Some (bytes_cmp x y)
  | (VInteger _ | VReal _), (VText _ | VBlob _) => Some Lt
  | (VText _ | VBlob _), (VInteger _ | VReal _) => Some Gt
  | VText _, VBlob _ => Some Lt
  | VBlob _, VText _ => Some Gt
  end.

(** ** Rows *)

Definition serialize_row (row : Row) : bytes :=
  foldl (λ buf val, serialize_into val buf) (write_varint_u64 (zlen row) []) row.

(** [serialize_row_into] clears the buffer it is given first. *)
Definition serialize_row_into (row : Row) (buf : bytes) : bytes :=
  let buf := take 0 buf in
  foldl (λ buf val, serialize_into val buf) (write_varint_u64 (zlen row) buf) row.

(** The [for _ in 0..col_count] loop. *)
Fixpoint deserialize_cols (n : nat) (data : bytes) (offset : Z) (row : Row) : res Row :=
  match n with
  | O => Ok row
  | S n' =>
      tail ← slice_from data offset;
      '(val, consumed) ← deserialize tail;
      deserialize_cols n' data (offset + consumed) (row ++ [val])
  end.
Definition deserialize_row (data : bytes) : res Row :=
  if zlen data =? 0 then Err (CorruptDatabase "row data too short")
  else
    '(col_count, offset) ← read_varint_u64 data;
    if MAX_COLUMNS <? col_count
    then Err (CorruptDatabase ("row column count " +:+ pretty col_count +:+ " exceeds maximum " +:+ pretty MAX_COLUMNS))
    else deserialize_cols (Z.to_nat col_count) data offset [].

Definition hex_digit (n : Z) : Z := if n <? 10 then 48 + n else 87 + n.
Definition hex_encode (l : bytes) : bytes :=
  mjoin (map (λ b, [hex_digit (Z.shiftr b 4); hex_digit (Z.land b 0x0f)]) l).

(** ** Prefix-compressed index rows *)

(** The [for val in row] loop: [is_first] is true for the first column. *)
Fixpoint serialize_index_cols (row : Row) (prev_key : bytes) (is_first : bool)
    (buf new_prev : bytes) : bytes * bytes :=
  match row with
  | [] => (buf, new_prev)
  | val :: row' =>
      match is_first, val with
      | true, VText raw =>
          let buf := buf ++ [0x03] in
          let encoded := prefix_encode prev_key raw in
          let buf := write_varint_u64 (zlen encoded) buf in
          let buf := buf ++ encoded in
          serialize_index_cols row' prev_key false buf raw
      | _, _ => serialize_index_cols row' prev_key false (serialize_into val buf) new_prev
      end
  end.
Definition serialize_index_row_compressed (row : Row) (prev_key : bytes) : bytes * bytes :=
  serialize_index_cols row prev_key true (write_varint_u64 (zlen row) []) prev_key.

(** [offset + enc_len as usize]: a sum beyond [usize] panics in a checked
    build, and wraps to a value below [offset] in an unchecked one, where the
    slice [data[offset..enc_end]] then panics. *)
Fixpoint deserialize_index_cols (n : nat) (data prev_key : bytes) (is_first : bool)
    (offset : Z) (row : Row) (new_prev : bytes) : res (Row * bytes) :=
  match n with
  | O => Ok (row, new_prev)
  | S n' =>
      let first_tag := match index data offset with Ok b => b =? 0x03 | _ => false end in
      if is_first && (offset <? zlen data) && first_tag then
        let offset := offset + 1 in
        tail ← slice_from data offset;
        '(enc_len, consumed) ← read_varint_u64 tail;
        let offset := offset + consumed in
        if U64_MAX <? offset + enc_len then Panic
        else
          let enc_end := offset + enc_len in
          if zlen data <? enc_end
          then Err (CorruptDatabase ("prefix-compressed index payload truncated: enc_end=" +:+ pretty enc_end
                                     +:+ " > data_len=" +:+ pretty (zlen data)))
          else
            encoded ← slice data offset enc_end;
            let decoded := prefix_decode prev_key encoded in
            if utf8_valid decoded
            then deserialize_index_cols n' data prev_key false enc_end (row ++ [VText decoded]) decoded
            else Err (CorruptDatabase "invalid utf-8 in index key")
      else
        tail ← slice_from data offset;
        '(val, consumed) ← deserialize tail;
        deserialize_index_cols n' data prev_key false (offset + consumed) (row ++ [val]) new_prev
  end.
Definition deserialize_index_row_with_prefix (data prev_key : bytes) : res (Row * bytes) :=
  if zlen data =? 0 then Err (CorruptDatabase "row data too short")
  else
    '(col_count, offset) ← read_varint_u64 data;
    if MAX_COLUMNS <? col_count
    then Err (CorruptDatabase ("index row col_count " +:+ pretty col_count +:+ " exceeds MAX_COLUMNS " +:+ pretty MAX_COLUMNS))
    else deserialize_index_cols (Z.to_nat col_count) data prev_key true offset [] prev_key.

(** [PrefixPageDecoder] and [PrefixPageEncoder]: both hold the previous key. *)
Record PrefixPageDecoder := { dec_prev_key : bytes }.
Definition decoder_new : PrefixPageDecoder := {| dec_prev_key := [] |}.
Definition decoder_decode (data : bytes) (d : PrefixPageDecoder) : res (Row * PrefixPageDecoder) :=
  '(row, new_prev) ← deserialize_index_row_with_prefix data (dec_prev_key d);
  Ok (row, {| dec_prev_key := new_prev |}).
Definition decoder_reset (d : PrefixPageDecoder) : PrefixPageDecoder := {| dec_prev_key := [] |}.

Record PrefixPageEncoder := { enc_prev_key : bytes }.
Definition encoder_new : PrefixPageEncoder := {| enc_prev_key := [] |}.
Definition encoder_encode (row : Row) (e : PrefixPageEncoder) : bytes * PrefixPageEncoder :=
  let '(bs, new_prev) := serialize_index_row_compressed row (enc_prev_key e) in
  (bs, {| enc_prev_key := new_prev |}).
Definition encoder_reset (e : PrefixPageEncoder) : PrefixPageEncoder := {| enc_prev_key := [] |}.

(** ** Calendar *)

Definition epoch_secs_to_datetime (secs : Z) : Z * Z * Z * Z * Z * Z :=
  let s := secs mod 86400 in
  let h := as_u32 (s / 3600) in
  let mi := as_u32 (s mod 3600 / 60) in
  let sec := as_u32 (s mod 60) in
  let days := secs / 86400 in
  let z := days + 719468 in
  let era := z / 146097 in
  let doe := z - era * 146097 in
  let yoe := (doe - doe / 1460 + doe / 36524 - doe / 146096) / 365 in
  let y := as_u32 (yoe + era * 400) in
  let doy := doe - (365 * yoe + yoe / 4 - yoe / 100) in
  let mp := (5 * doy + 2) / 153 in
  let d := as_u32 (doy - (153 * mp + 2) / 5 + 1) in
  let m := as_u32 (if mp <? 10 then mp + 3 else mp - 9) in
  let y := if m <=? 2 then y + 1 else y in
  (y, m, d, h, mi, sec).

(** ** Lemmas: encoding *)

Lemma serialize_into_app v buf : serialize_into v buf = buf ++ serialize v.
Proof.
  unfold serialize. destruct v; simpl; rewrite ?write_varint_app, <- ?app_assoc; try done;
    rewrite (write_varint_app _ [_]); by rewrite <- app_assoc.
Qed.
Lemma serialize_tag v : ∃ tag rest, serialize v = tag :: rest.
Proof.
  unfold serialize. destruct v; simpl; rewrite ?write_varint_app; simpl; eauto.
Qed.

Lemma foldl_serialize row buf :
  foldl (λ buf val, serialize_into val buf) buf row = buf ++ mjoin (map serialize row).
Proof.
  revert buf. induction row as [|v row IH]; intros buf; simpl; [by rewrite app_nil_r|].
  rewrite IH, serialize_into_app. by rewrite <- app_assoc.
Qed.
Lemma serialize_row_eq row : serialize_row row = varint (zlen row) ++ mjoin (map serialize row).
Proof. apply foldl_serialize. Qed.

Lemma slice_from_cons (x : Z) l : slice_from (x :: l) 1 = Ok l.
Proof.
  unfold slice_from. pose proof (zlen_nonneg l).
  rewrite slice_Ok by (rewrite zlen_cons; lia). f_equal.
  unfold sub. simpl. apply take_ge. rewrite zlen_cons. unfold zlen. lia.
Qed.
Lemma slice_from_app {A} (l k : list A) : slice_from (l ++ k) (zlen l) = Ok k.
Proof.
  unfold slice_from. pose proof (zlen_nonneg l). pose proof (zlen_nonneg k).
  rewrite slice_Ok by (rewrite zlen_app; lia). f_equal.
  rewrite sub_app_r by lia. rewrite zlen_app, Z.sub_diag. apply sub_all. lia.
Qed.
Lemma slice_mid (a m k : bytes) : slice (a ++ m ++ k) (zlen a) (zlen a + zlen m) = Ok m.
Proof.
  pose proof (zlen_nonneg a). pose proof (zlen_nonneg m). pose proof (zlen_nonneg k).
  rewrite slice_Ok by (rewrite ?zlen_app; lia). f_equal.
  rewrite sub_app_r by lia. rewrite sub_app_l by lia.
  rewrite Z.sub_diag. apply sub_all. lia.
Qed.

Lemma deserialize_serialize v rest :
  value_ok v → deserialize (serialize v ++ rest) = Ok (v, zlen (serialize v)).
Proof.
  intros Hv. assert (MAX_VALUE_LEN < 2 ^ 64) as Hmax by done.
  destruct v as [|z|bits|t|b]; unfold serialize, serialize_into; cbn [app].
  - reflexivity.
  - rewrite (write_varint_app _ [1]). cbn [app deserialize]. rewrite slice_from_cons. simpl.
    rewrite read_varint_app by auto with kkdb. simpl. rewrite zlen_cons.
    by rewrite zigzag_decode_encode.
  - pose proof (zlen_nonneg rest). pose proof (slice_mid [2] (le_bytes 8 bits) rest) as Hs.
    cbn [app] in Hs |- *. cbn [deserialize Z.eqb]. rewrite !zlen_cons, zlen_app in *. rewrite zlen_le_bytes in *.
    destruct (Z.ltb_spec (1 + (Z.of_nat 8 + zlen rest)) 9); [lia|].
    change (zlen [] + 1 + Z.of_nat 8) with 9 in Hs. change (1 + zlen []) with 1 in Hs.
    change (1 + Z.of_nat 8) with 9 in Hs. rewrite Hs. cbn [mbind res_bind].
    rewrite le_val_le_bytes, Z.mod_small by apply Hv. done.
  - destruct Hv as (Hb & Hu & Hl). rewrite (write_varint_app _ [3]). cbn [app deserialize].
    pose proof (zlen_nonneg t). pose proof (zlen_nonneg rest).
    rewrite slice_from_cons. simpl. rewrite <- app_assoc, read_varint_app by int_lia. simpl.
    destruct (Z.ltb_spec MAX_VALUE_LEN (zlen t)); [lia|]. rewrite !zlen_cons, !zlen_app.
    destruct (Z.ltb_spec (1 + (zlen (varint (zlen t)) + (zlen t + zlen rest))) (1 + zlen (varint (zlen t)) + zlen t)); [lia|].
    pose proof (slice_mid (3 :: varint (zlen t)) t rest) as Hs. rewrite zlen_cons in Hs. simpl app in Hs.
    rewrite Hs. simpl. rewrite Hu. do 2 f_equal. lia.
  - destruct Hv as (Hb & Hl). rewrite (write_varint_app _ [4]). cbn [app deserialize].
    pose proof (zlen_nonneg b). pose proof (zlen_nonneg rest).
    rewrite slice_from_cons. simpl. rewrite <- app_assoc, read_varint_app by int_lia. simpl.
    destruct (Z.ltb_spec MAX_VALUE_LEN (zlen b)); [lia|]. rewrite !zlen_cons, !zlen_app.
    destruct (Z.ltb_spec (1 + (zlen (varint (zlen b)) + (zlen b + zlen rest))) (1 + zlen (varint (zlen b)) + zlen b)); [lia|].
    pose proof (slice_mid (4 :: varint (zlen b)) b rest) as Hs. rewrite zlen_cons in Hs. simpl app in Hs.
    rewrite Hs. simpl. do 2 f_equal. lia.
Qed.

Lemma deserialize_cols_app row pre rest acc :
  Forall value_ok row →
  deserialize_cols (length row) (pre ++ mjoin (map serialize row) ++ rest) (zlen pre) acc = Ok (acc ++ row).
Proof.
  intros H. revert pre acc. induction H as [|v row Hv _ IH]; intros pre acc; cbn [length deserialize_cols].
  - by rewrite app_nil_r.
  - rewrite slice_from_app. cbn [mbind res_bind]. change (map serialize (v :: row)) with (serialize v :: map serialize row).
    change (mjoin (serialize v :: map serialize row)) with (serialize v ++ mjoin (map serialize row)).
    rewrite <- app_assoc, deserialize_serialize by done. cbn [mbind res_bind].
    specialize (IH (pre ++ serialize v) (acc ++ [v])). rewrite zlen_app, <- !app_assoc in IH.
    apply IH.
Qed.

Lemma read_varint_cons_nonempty v rest : 0 ≤ v → (zlen (varint v ++ rest) =? 0) = false.
Proof.
  intros. apply Z.eqb_neq. intros E%zlen_0_nil. apply app_eq_nil in E as [E _].
  by apply varint_nonempty in E.
Qed.

Lemma deserialize_serialize_row row rest :
  row_ok row → deserialize_row (serialize_row row ++ rest) = Ok row.
Proof.
  intros [Hr Hc]. pose proof (zlen_nonneg row).
  unfold deserialize_row. rewrite serialize_row_eq, <- app_assoc.
  rewrite read_varint_cons_nonempty by lia.
  rewrite read_varint_app by (unfold MAX_COLUMNS in *; int_lia). cbn [mbind res_bind].
  destruct (Z.ltb_spec MAX_COLUMNS (zlen row)); [lia|].
  unfold zlen at 1. rewrite Nat2Z.id. by apply deserialize_cols_app.
Qed.

Lemma serialize_bytes_ok v : value_ok v → bytes_ok (serialize v).
Proof.
  unfold serialize, value_ok. destruct v as [|z|b|t|b]; cbn [serialize_into app]; intros Hv.
  - constructor; [done|constructor].
  - rewrite write_varint_app. apply Forall_app_2; [constructor; [done|constructor]|].
    apply varint_bytes_ok. pose proof (zigzag_encode_range z Hv). int_lia.
  - constructor; [done|apply le_bytes_ok].
  - rewrite write_varint_app. apply Forall_app_2; [|apply Hv].
    apply Forall_app_2; [constructor; [done|constructor]|apply varint_bytes_ok, zlen_nonneg].
  - rewrite write_varint_app. apply Forall_app_2; [|apply Hv].
    apply Forall_app_2; [constructor; [done|constructor]|apply varint_bytes_ok, zlen_nonneg].
Qed.
Lemma serialize_row_bytes_ok row : row_ok row → bytes_ok (serialize_row row).
Proof.
  intros [Hr _]. rewrite serialize_row_eq. apply Forall_app_2; [apply varint_bytes_ok, zlen_nonneg|].
  induction Hr as [|v row Hv _ IH]; [constructor|].
  change (mjoin (map serialize (v :: row))) with (serialize v ++ mjoin (map serialize row)).
  apply Forall_app_2; [by apply serialize_bytes_ok|exact IH].
Qed.
Lemma serialize_row_nonempty row : serialize_row row ≠ [].
Proof. rewrite serialize_row_eq. intros [E _]%app_eq_nil. apply varint_nonempty in E; [done|apply zlen_nonneg]. Qed.

(** ** Lemmas: decoding arbitrary bytes *)

Lemma slice_ok_bytes l a b k : bytes_ok l → slice l a b = Ok k → bytes_ok k.
Proof. intros H (?&?&->)%slice_inv. by apply sub_ok. Qed.

(** Decoding a value: success stays within the input and yields a
    well-formed value; otherwise a [CorruptDatabase] error. *)
Lemma deserialize_cases data :
  bytes_ok data →
  (∃ v n, deserialize data = Ok (v, n) ∧ value_ok v ∧ 1 ≤ n ≤ zlen data) ∨
  (∃ m, deserialize data = Err (CorruptDatabase m)).
Proof.
  intros H. destruct data as [|tag data]; [by right; eexists|]. cbn [deserialize].
  pose proof (zlen_nonneg data). rewrite slice_from_cons, zlen_cons. cbn [mbind res_bind].
  apply Forall_cons in H as [Htag H].
  destruct (tag =? 0); [left; eexists _, _; repeat split; lia|].
  destruct (Z.eqb_spec tag 2) as [->|Hne].
  { cbn [Z.eqb Pos.eqb]. destruct (Z.ltb_spec (1 + zlen data) 9); [by right; eexists|].
    rewrite slice_Ok by (rewrite ?zlen_cons; lia). cbn [mbind res_bind].
    left. eexists _, _. split; [done|]. split; [|lia]. cbn [value_ok].
    assert (bytes_ok (sub (2 :: data) 1 (9 - 1))) as Hb by (apply sub_ok; by constructor).
    apply le_val_bound in Hb. rewrite length_sub in Hb by (rewrite ?zlen_cons; lia). int_lia. }
  destruct (read_varint_cases data H) as [(v & n & Hr & Hv & ?)|[m Hr]]; rewrite Hr; cbn [mbind res_bind].
  2: { destruct (tag =? 1), (tag =? 3), (tag =? 4); by right; eexists. }
  destruct (tag =? 1).
  { left. eexists _, _. split; [done|]. split; [|lia].
    cbn [value_ok]. auto with kkdb. }
  unfold is_u64 in Hv. assert (bytes_ok (tag :: data)) as Hd by (by constructor).
  destruct (tag =? 3); [|destruct (tag =? 4); [|by right; eexists]];
    (destruct (Z.ltb_spec MAX_VALUE_LEN v); [by right; eexists|]);
    (destruct (Z.ltb_spec (1 + zlen data) (1 + n + v)); [by right; eexists|]);
    rewrite slice_Ok by (rewrite ?zlen_cons; lia); cbn [mbind res_bind];
    [destruct (utf8_valid _) eqn:Hu; [|by right; eexists]|];
    left; eexists _, _; (split; [done|]); (split; [|lia]); cbn [value_ok];
    split_and?; auto using sub_ok; rewrite length_sub by (rewrite ?zlen_cons; lia); lia.
Qed.

Lemma deserialize_cols_cases n data offset row :
  bytes_ok data → 0 ≤ offset ≤ zlen data → Forall value_ok row →
  (∃ row', deserialize_cols n data offset row = Ok row' ∧ Forall value_ok row' ∧ length row' = (length row + n)%nat) ∨
  (∃ m, deserialize_cols n data offset row = Err (CorruptDatabase m)).
Proof.
  intros Hd. revert offset row. induction n as [|n IH]; intros offset row Ho Hr; cbn [deserialize_cols].
  - left. eexists. split_and!; eauto; lia.
  - unfold slice_from. rewrite slice_Ok by lia. cbn [mbind res_bind].
    destruct (deserialize_cases (sub data offset (zlen data - offset))) as [(v & k & -> & Hv & Hk)|[m ->]];
      [by apply sub_ok| |by right; eexists].
    rewrite length_sub in Hk by lia. cbn [mbind res_bind].
    destruct (IH (offset + k) (row ++ [v])) as [(row' & -> & ? & Hl)|?]; [lia| | |by right].
    + apply Forall_app. auto.
    + left. eexists. split_and!; eauto. rewrite Hl, length_app. simpl. lia.
Qed.

(** ** Lemmas: index rows *)

Lemma serialize_index_cols_rest row prev buf np :
  serialize_index_cols row prev false buf np = (buf ++ mjoin (map serialize row), np).
Proof.
  revert buf. induction row as [|v row IH]; intros buf; simpl; [by rewrite app_nil_r|].
  by rewrite IH, serialize_into_app, <- app_assoc.
Qed.
Lemma deserialize_index_cols_rest n data prev off row np :
  deserialize_index_cols n data prev false off row np =
    (r ← deserialize_cols n data off row; Ok (r, np)).
Proof.
  revert off row. induction n as [|n IH]; intros off row; cbn [deserialize_index_cols deserialize_cols]; [done|].
  simpl andb. cbv iota. destruct (slice_from data off); try done. cbn [mbind res_bind].
  destruct (deserialize a) as [[v k]| | |]; try done. cbn [mbind res_bind]. apply IH.
Qed.

(** The previous key after an index row: its first column when that is text. *)
Definition next_prev_key (row : Row) (prev : bytes) : bytes :=
  match row with VText t :: _ => t | _ => prev end.
(** The rows the compressed encoding represents exactly. *)
Definition index_row_ok (row : Row) : Prop :=
  row_ok row ∧ match row with VText t :: _ => zlen t ≤ U16_MAX | _ => True end.

Lemma index_app_head (a : bytes) x k : index (a ++ x :: k) (zlen a) = Ok x.
Proof.
  apply index_Ok; [|apply zlen_nonneg]. unfold zlen. rewrite Nat2Z.id.
  by rewrite list_lookup_middle.
Qed.

Lemma serialize_tag_3 v rest :
  (∃ t, v = VText t) ∨
  (∀ t, v ≠ VText t) ∧ ∃ tag k, serialize v ++ rest = tag :: k ∧ (tag =? 3) = false.
Proof.
  destruct v as [| | |t|]; try (by left; eexists); right; (split; [done|]); unfold serialize; simpl;
    rewrite ?write_varint_app; simpl; by eexists _, _.
Qed.

Lemma deserialize_index_text t row prev pre :
  value_ok (VText t) → zlen t ≤ U16_MAX → Forall value_ok row → zlen pre ≤ 10 →
  let enc := prefix_encode prev t in
  deserialize_index_cols (S (length row)) (pre ++ [3] ++ varint (zlen enc) ++ enc ++ mjoin (map serialize row))
    prev true (zlen pre) [] prev = Ok (VText t :: row, t).
Proof.
  intros (Hb & Hu & _) Hl Hrow Hpre enc. cbn [deserialize_index_cols].
  pose proof (length_prefix_encode prev t) as Hel. pose proof (shared_prefix_bounds prev t). fold enc in Hel.
  pose proof (zlen_nonneg pre). pose proof (zlen_nonneg enc).
  assert (is_u64 (zlen enc)) as He by int_lia.
  pose proof (varint_u64_length _ He).
  set (tl := varint (zlen enc) ++ enc ++ mjoin (map serialize row)).
  change ([3] ++ tl) with (3 :: tl). rewrite index_app_head.
  destruct (Z.ltb_spec (zlen pre) (zlen (pre ++ 3 :: tl))) as [_|Hx];
    [|rewrite zlen_app, zlen_cons in Hx; pose proof (zlen_nonneg tl); lia].
  simpl andb. cbv iota.
  replace (pre ++ 3 :: tl) with ((pre ++ [3]) ++ tl) by by rewrite <- app_assoc.
  replace (zlen pre + 1) with (zlen (pre ++ [3])) by by rewrite zlen_app.
  rewrite slice_from_app. cbn [mbind res_bind].
  assert (read_varint_u64 tl = Ok (zlen enc, zlen (varint (zlen enc)))) as -> by by apply read_varint_app.
  cbn [mbind res_bind]. unfold tl. set (k := mjoin (map serialize row)).
  replace ((pre ++ [3]) ++ varint (zlen enc) ++ enc ++ k) with (((pre ++ [3]) ++ varint (zlen enc)) ++ enc ++ k)
    by by rewrite <- app_assoc.
  rewrite <- zlen_app. set (h := (pre ++ [3]) ++ varint (zlen enc)).
  assert (zlen h ≤ 21) by (unfold h; rewrite !zlen_app; unfold zlen at 2; simpl; lia).
  destruct (Z.ltb_spec U64_MAX (zlen h + zlen enc)); [int_lia|].
  destruct (Z.ltb_spec (zlen (h ++ enc ++ k)) (zlen h + zlen enc)) as [Hx|_];
    [rewrite !zlen_app in Hx; pose proof (zlen_nonneg k); lia|].
  rewrite slice_mid. cbn [mbind res_bind].
  assert (prefix_decode prev enc = t) as -> by (apply prefix_roundtrip_aux; lia).
  rewrite Hu, deserialize_index_cols_rest.
  pose proof (deserialize_cols_app row (h ++ enc) [] [VText t] Hrow) as Hd.
  rewrite app_nil_r, zlen_app, <- app_assoc in Hd. unfold k. cbn [app]. by rewrite Hd.
Qed.

Lemma index_row_roundtrip_aux row prev :
  index_row_ok row →
  deserialize_index_row_with_prefix (serialize_index_row_compressed row prev).1 prev =
    Ok (row, next_prev_key row prev) ∧
  (serialize_index_row_compressed row prev).2 = next_prev_key row prev.
Proof.
  intros [[Hrow Hcols] Hkey]. pose proof (zlen_nonneg row).
  assert (is_u64 (zlen row)) as Hu by (unfold MAX_COLUMNS in *; int_lia).
  pose proof (varint_u64_length _ Hu) as Hvl.
  unfold serialize_index_row_compressed, deserialize_index_row_with_prefix.
  rewrite write_varint_app. cbn [app].
  assert (∀ k, deserialize_index_cols (length row) (varint (zlen row) ++ k) prev true (zlen (varint (zlen row))) [] prev
             = Ok (row, next_prev_key row prev) →
     (if zlen (varint (zlen row) ++ k) =? 0 then Err (CorruptDatabase "row data too short")
      else '(col_count, offset) ← read_varint_u64 (varint (zlen row) ++ k);
      if MAX_COLUMNS <? col_count
      then Err (CorruptDatabase ("index row col_count " +:+ pretty col_count +:+ " exceeds MAX_COLUMNS " +:+ pretty MAX_COLUMNS))
      else deserialize_index_cols (Z.to_nat col_count) (varint (zlen row) ++ k) prev true offset [] prev)
     = Ok (row, next_prev_key row prev)) as Hwrap.
  { intros k Hk. rewrite read_varint_cons_nonempty by lia. rewrite read_varint_app by done.
    cbn [mbind res_bind]. destruct (Z.ltb_spec MAX_COLUMNS (zlen row)); [lia|].
    unfold zlen at 1. by rewrite Nat2Z.id. }
  destruct row as [|v row]; [split; [|done]; rewrite <- (app_nil_r (varint _)); by apply Hwrap|].
  pose proof Hrow as [Hv Hrow']%Forall_cons.
  destruct (serialize_tag_3 v (mjoin (map serialize row))) as [[t ->]|(Hnt & tag & k & Htag & Hne)].
  - cbn [serialize_index_cols]. rewrite serialize_index_cols_rest. cbn [fst snd]. split; [|done].
    rewrite write_varint_app, <- !app_assoc. apply Hwrap.
    apply (deserialize_index_text t row prev (varint (zlen (VText t :: row)))); done || lia.
  - assert (serialize_index_cols (v :: row) prev true (varint (zlen (v :: row))) prev
            = (varint (zlen (v :: row)) ++ mjoin (map serialize (v :: row)), prev)) as ->.
    { destruct v; cbn [serialize_index_cols]; rewrite ?serialize_index_cols_rest;
        rewrite ?serialize_into_app, <- ?app_assoc; try done; by edestruct Hnt. }
    assert (next_prev_key (v :: row) prev = prev) as Hnp.
    { destruct v; try done; by edestruct Hnt. }
    cbn [fst snd]. split; [|by rewrite Hnp]. apply Hwrap. cbn [length deserialize_index_cols].
    change (mjoin (map serialize (v :: row))) with (serialize v ++ mjoin (map serialize row)).
    pose proof (deserialize_cols_app (v :: row) (varint (zlen (v :: row))) [] [] Hrow) as Hd.
    cbn [length deserialize_cols] in Hd. rewrite app_nil_r in Hd.
    change (mjoin (map serialize (v :: row))) with (serialize v ++ mjoin (map serialize row)) in Hd.
    rewrite Htag in Hd |- *. rewrite index_app_head, Hne, andb_false_r.
    rewrite slice_from_app in Hd |- *. cbn [mbind res_bind] in Hd |- *.
    destruct (deserialize (tag :: k)) as [[v' n']| | |]; try done. cbn [mbind res_bind] in Hd |- *.
    rewrite deserialize_index_cols_rest. cbn [app] in Hd |- *. rewrite Hd. cbn [mbind res_bind]. by rewrite Hnp.
Qed.

(** ** Lemmas: comparison *)

Lemma bytes_cmp_eq a b : bytes_cmp a b = Eq ↔ a = b.
Proof.
  revert b. induction a as [|x a IH]; intros [|y b]; simpl; try done.
  destruct (Z.compare_spec x y) as [->| |]; [rewrite IH; split; [by intros ->|by intros [=]]|split; [done|]; intros [=]; lia..].
Qed.
Lemma bytes_cmp_antisym a b : bytes_cmp b a = CompOpp (bytes_cmp a b).
Proof.
  revert b. induction a as [|x a IH]; intros [|y b]; simpl; try done.
  rewrite Z.compare_antisym. destruct (x ?= y); simpl; auto.
Qed.
Lemma SFcompare_antisym f g : SFcompare g f = CompOpp <$> SFcompare f g.
Proof.
  destruct f as [[]|[]| |[] m e], g as [[]|[]| |[] m' e']; simpl; try done.
  all: rewrite (Z.compare_antisym e e').
  all: destruct (e ?= e'); simpl; rewrite ?CompOpp_involutive; try done.
  all: change (PosDef.Pos.compare_cont Eq) with Pos.compare;
       rewrite (Pos.compare_antisym m m'), ?CompOpp_involutive; done.
Qed.

(** ** Lemmas: calendar *)

(** The day count of a civil date (days since 1970-01-01), the textbook
    inverse of the conversion. *)
Definition days_from_civil (y m d : Z) : Z :=
  let y' := if m <=? 2 then y - 1 else y in
  let era := y' / 400 in
  let yoe := y' mod 400 in
  let mp := if 2 <? m then m - 3 else m + 9 in
  era * 146097 + (yoe * 365 + yoe / 4 - yoe / 100 + ((153 * mp + 2) / 5 + d - 1)) - 719468.
Definition days_in_month (m : Z) : Z :=
  if m =? 2 then 29 else if (m =? 4) || (m =? 6) || (m =? 9) || (m =? 11) then 30 else 31.

Lemma year_of_era doe :
  0 ≤ doe < 146097 →
  let yoe := (doe - doe / 1460 + doe / 36524 - doe / 146096) / 365 in
  0 ≤ yoe < 400 ∧ 0 ≤ doe - (365 * yoe + yoe / 4 - yoe / 100) ≤ 365.
Proof. intros H yoe. subst yoe. div_lia. Qed.
Lemma month_of_year doy :
  0 ≤ doy ≤ 365 →
  let mp := (5 * doy + 2) / 153 in
  let m := if mp <? 10 then mp + 3 else mp - 9 in
  0 ≤ mp ≤ 11 ∧ 1 ≤ m ≤ 12 ∧ 1 ≤ doy - (153 * mp + 2) / 5 + 1 ≤ days_in_month m.
Proof.
  intros H mp m. assert (0 ≤ mp ≤ 11) by (subst mp; div_lia).
  assert (mp = 0 ∨ mp = 1 ∨ mp = 2 ∨ mp = 3 ∨ mp = 4 ∨ mp = 5 ∨ mp = 6 ∨ mp = 7 ∨
          mp = 8 ∨ mp = 9 ∨ mp = 10 ∨ mp = 11) as Hc by lia.
  destruct_or! Hc; subst m; rewrite Hc; unfold days_in_month; simpl; subst mp; div_lia.
Qed.

(** ** Properties *)

(** Value encoding round trip: [Value::deserialize] applied to the bytes
    of [Value::serialize], with anything after them, returns the value and
    the number of bytes it occupied. *)
Theorem value_roundtrip (v : Value) (rest : bytes) (Hv : value_ok v) :
  deserialize (serialize v ++ rest) = Ok (v, zlen (serialize v)).
Proof. by apply deserialize_serialize. Qed.
Lemma value_roundtrip_witness :
  deserialize (serialize (VText [0xE4; 0xB8; 0xAD]) ++ [1]) = Ok (VText [0xE4; 0xB8; 0xAD], 5).
Proof.
  apply (value_roundtrip (VText [0xE4; 0xB8; 0xAD]) [1]). unfold value_ok, bytes_ok.
  split_and!; [repeat constructor; lia|reflexivity|vm_compute; discriminate].
Defined.

(** [C17] Row encoding round trip: [deserialize_row] of [serialize_row] is the
    row, trailing bytes ignored; the buffer-reusing [serialize_row_into]
    writes the same bytes whatever the buffer held. *)
Theorem row_roundtrip (row : Row) (rest buf : bytes) (Hrow : row_ok row) :
  deserialize_row (serialize_row row ++ rest) = Ok row ∧
  serialize_row_into row buf = serialize_row row.
Proof.
  split; [by apply deserialize_serialize_row|done].
Qed.
Lemma row_roundtrip_witness :
  deserialize_row (serialize_row [VInteger (-7); VNull; VBlob [0; 255]] ++ [9; 9]) =
    Ok [VInteger (-7); VNull; VBlob [0; 255]] ∧
  serialize_row_into [VInteger (-7); VNull; VBlob [0; 255]] [1; 2; 3] =
    serialize_row [VInteger (-7); VNull; VBlob [0; 255]].
Proof.
  apply row_roundtrip. split; [|vm_compute; discriminate].
  repeat constructor; unfold bytes_ok; try (vm_compute; discriminate);
    unfold is_i64; try lia; repeat constructor; lia.
Defined.

(** [C18] Decoding untrusted bytes is safe: for any byte string,
    [deserialize_row] either returns a row whose values are well formed and
    whose column count is at most 4096, or a [CorruptDatabase] error; it
    never panics. *)
Theorem deserialize_row_safe (data : bytes) (Hd : bytes_ok data) :
  match deserialize_row data with
  | Ok row => row_ok row
  | Err (CorruptDatabase _) => True
  | _ => False
  end.
Proof.
  unfold deserialize_row. destruct (zlen data =? 0); [done|].
  destruct (read_varint_cases data Hd) as [(c & n & -> & Hc & Hn)|[m ->]]; [|done]. cbn [mbind res_bind].
  destruct (Z.ltb_spec MAX_COLUMNS c); [done|].
  destruct (deserialize_cols_cases (Z.to_nat c) data n []) as [(row & -> & Hr & Hl)|[m ->]]; try done; [lia|].
  split; [done|]. unfold zlen. rewrite Hl. simpl. unfold is_u64 in Hc. lia.
Qed.
Lemma deserialize_row_safe_witness :
  match deserialize_row [2; 3; 255; 0] with
  | Ok row => row_ok row
  | Err (CorruptDatabase _) => True
  | _ => False
  end.
Proof. apply (deserialize_row_safe [2; 3; 255; 0]). unfold bytes_ok. repeat constructor; lia. Defined.

(** A page of index rows written by one encoder. *)
Fixpoint encode_page (rows : list Row) (e : PrefixPageEncoder) : list bytes :=
  match rows with
  | [] => []
  | row :: rows' => let '(bs, e') := encoder_encode row e in bs :: encode_page rows' e'
  end.
Fixpoint decode_page (encs : list bytes) (d : PrefixPageDecoder) : res (list Row) :=
  match encs with
  | [] => Ok []
  | bs :: encs' =>
      '(row, d') ← decoder_decode bs d;
      rows ← decode_page encs' d';
      Ok (row :: rows)
  end.

(** Compressed index pages round trip: the rows one [PrefixPageEncoder]
    writes from its initial state are read back, in order, by one
    [PrefixPageDecoder] started in its initial state. *)
Theorem index_page_roundtrip (rows : list Row) (Hrows : Forall index_row_ok rows) :
  decode_page (encode_page rows encoder_new) decoder_new = Ok rows.
Proof.
  unfold encoder_new, decoder_new. generalize (@nil Z) as prev.
  induction Hrows as [|row rows Hrow _ IH]; intros prev; simpl; [done|].
  unfold encoder_encode. cbn [enc_prev_key].
  pose proof (index_row_roundtrip_aux row prev Hrow) as [Hd Hp].
  destruct (serialize_index_row_compressed row prev) as [bs np]. cbn [fst snd] in *. subst np.
  cbn [decode_page]. unfold decoder_decode. cbn [dec_prev_key]. rewrite Hd. cbn [mbind res_bind].
  by rewrite IH.
Qed.
Lemma index_page_roundtrip_witness :
  decode_page (encode_page [[VText [97; 98]; VInteger 1]; [VText [97; 99]; VInteger 2]; [VNull]] encoder_new)
    decoder_new = Ok [[VText [97; 98]; VInteger 1]; [VText [97; 99]; VInteger 2]; [VNull]].
Proof.
  apply index_page_roundtrip. unfold index_row_ok, row_ok.
  repeat constructor; unfold bytes_ok, is_i64; try (vm_compute; discriminate); try lia; repeat constructor; lia.
Defined.

(** [deserialize_index_row_with_prefix] is not safe on untrusted bytes,
    unlike [deserialize_row]: a length field near 2^64 makes the end offset
    overflow and the decoder panics instead of reporting corruption. *)
Theorem index_row_length_overflow_panics :
  deserialize_index_row_with_prefix ([1; 3] ++ write_varint_u64 U64_MAX [] ++ [0]) [] = Panic.
Proof. reflexivity. Qed.

(** The two comparison traits of [Value] are consistent: [==] holds
    exactly when [partial_cmp] is [Equal], and swapping the arguments of
    [partial_cmp] reverses its answer. *)
Theorem value_cmp_consistent (a b : Value) :
  (value_eq a b = true ↔ partial_cmp a b = Some Eq) ∧
  partial_cmp b a = CompOpp <$> partial_cmp a b.
Proof.
  assert (∀ f g, SFeqb f g = true ↔ SFcompare f g = Some Eq) as Hf.
  { intros. unfold SFeqb. destruct (SFcompare f g) as [[]|]; naive_solver. }
  split.
  - destruct a, b; cbn [value_eq partial_cmp]; rewrite ?Hf; try (by split).
    + rewrite Z.eqb_eq, <- Z.compare_eq_iff. split; [by intros ->|by intros [=]].
    + rewrite bool_decide_eq_true, <- bytes_cmp_eq. split; [by intros ->|by intros [=]].
    + rewrite bool_decide_eq_true, <- bytes_cmp_eq. split; [by intros ->|by intros [=]].
  - destruct a, b; cbn [partial_cmp]; rewrite <- ?SFcompare_antisym; try reflexivity; cbn [fmap option_fmap option_map].
    + by rewrite Z.compare_antisym.
    + by rewrite bytes_cmp_antisym.
    + by rewrite bytes_cmp_antisym.
Qed.

(** [==] on [Value] is not transitive: integers beyond 2^53 are compared
    with reals after rounding, so 2^53 and 2^53 + 1 both equal the real
    2^53 although they differ from each other. *)
Theorem value_eq_not_transitive :
  let real := VReal 0x4340000000000000 in
  value_eq (VInteger (2 ^ 53)) real = true ∧
  value_eq real (VInteger (2 ^ 53 + 1)) = true ∧
  value_eq (VInteger (2 ^ 53)) (VInteger (2 ^ 53 + 1)) = false.
Proof. vm_compute. auto. Qed.

(** Calendar conversion: for every moment whose year fits in 32 bits the
    fields [epoch_secs_to_datetime] returns are in range, the time of day is
    exact, and the date is the one whose day count is [secs / 86400]. *)
Theorem epoch_datetime_correct (secs : Z) (Hs : 0 ≤ secs < 86400 * 10 ^ 12) :
  let '(y, m, d, h, mi, s) := epoch_secs_to_datetime secs in
  1 ≤ m ≤ 12 ∧ 1 ≤ d ≤ days_in_month m ∧ 0 ≤ h < 24 ∧ 0 ≤ mi < 60 ∧ 0 ≤ s < 60 ∧
  h * 3600 + mi * 60 + s = secs mod 86400 ∧ days_from_civil y m d = secs / 86400.
Proof.
  unfold epoch_secs_to_datetime.
  set (z := secs / 86400 + 719468). set (era := z / 146097). set (doe := z - era * 146097).
  assert (0 ≤ doe < 146097) as Hdoe by (subst doe era; div_lia).
  assert (0 ≤ era < 10 ^ 7) as Hera by (subst era z; div_lia).
  pose proof (year_of_era doe Hdoe) as [Hyoe Hdoy].
  set (yoe := (doe - doe / 1460 + doe / 36524 - doe / 146096) / 365) in *.
  set (doy := doe - (365 * yoe + yoe / 4 - yoe / 100)) in *.
  pose proof (month_of_year doy Hdoy) as (Hmp & Hm & Hd).
  set (mp := (5 * doy + 2) / 153) in *. set (m := if mp <? 10 then mp + 3 else mp - 9) in *.
  set (d := doy - (153 * mp + 2) / 5 + 1) in *.
  assert (days_in_month m ≤ 31) by (unfold days_in_month; repeat case_match; lia).
  rewrite !as_u32_id by (unfold is_u32; div_lia).
  split_and!; try lia; try div_lia.
  unfold days_from_civil.
  assert ((if 2 <? m then m - 3 else m + 9) = mp) as ->.
  { subst m. destruct (Z.ltb_spec mp 10); repeat case_match; lia. }
  assert ((if m <=? 2 then (if m <=? 2 then yoe + era * 400 + 1 else yoe + era * 400) - 1
           else if m <=? 2 then yoe + era * 400 + 1 else yoe + era * 400) = yoe + era * 400) as ->
    by (destruct (m <=? 2); lia).
  rewrite Z.div_add, Z.mod_add, Z.div_small, Z.mod_small by lia.
  subst d doy doe z. lia.
Qed.
Lemma epoch_datetime_correct_witness :
  let '(y, m, d, h, mi, s) := epoch_secs_to_datetime 1709208000 in
  1 ≤ m ≤ 12 ∧ 1 ≤ d ≤ days_in_month m ∧ 0 ≤ h < 24 ∧ 0 ≤ mi < 60 ∧ 0 ≤ s < 60 ∧
  h * 3600 + mi * 60 + s = 1709208000 mod 86400 ∧ days_from_civil y m d = 1709208000 / 86400.
Proof. apply (epoch_datetime_correct 1709208000). lia. Defined.
