(* ===== verification/LockManager.v ===== *)
(** Table locks and deadlock detection: src/src/vm/lock_manager.rs.

    [LockTable] maps a table name to the locks held on it and a transaction
    to the tables it waits for.  The theorems: the wait-for search terminates
    and answers exactly whether the transaction lies on a cycle; acquisition
    grants exactly the compatible requests and leaves the table as it was
    when it refuses; without upgrades an exclusive lock is the only lock on
    its table; an upgrade is granted while others still hold shared locks, so
    two exclusive holders are reachable; and because a refused request does
    not stay registered as a waiter, no run of the interface ever reports a
    deadlock. *)
From S2P Require Import Prelude.

(** ** The code *)

Inductive LockMode : Type := Shared | Exclusive.
#[export] Instance LockMode_eq_dec : EqDecision LockMode.
Proof. solve_decision. Defined.

Record LockEntry := mkLockEntry { mode : LockMode; holder_txn : Z }.
#[export] Instance LockEntry_eq_dec : EqDecision LockEntry.
Proof. solve_decision. Defined.

Record LockTable := mkLockTable {
  locks : gmap string (list LockEntry);
  waiters : gmap Z (list string)
}.
Definition LockTable_new : LockTable := mkLockTable ∅ ∅.

(** [{:?}] of a mode *)
Definition show_mode (m : LockMode) : string :=
  match m with Shared => "Shared" | Exclusive => "Exclusive" end.

(** [map.entry(k).or_default()] *)
Definition entry_or_default {K A} `{Countable K} (m : gmap K (list A)) (k : K) : list A :=
  default [] (m !! k).

(** The inner loop of [has_cycle], over the entries of one table: found a way
    back to [start], or the updated visited set and stack (top first). *)
Fixpoint scan_entries (entries : list LockEntry) (txn start : Z)
    (visited : gset Z) (stack : list Z) : option (gset Z * list Z) :=
  match entries with
  | [] => Some (visited, stack)
  | entry :: rest =>
      let holder := holder_txn entry in
      if holder =? txn then scan_entries rest txn start visited stack
      else if holder =? start then None
      else if bool_decide (holder ∈ visited) then scan_entries rest txn start visited stack
      else scan_entries rest txn start ({[holder]} ∪ visited) (holder :: stack)
  end.
Fixpoint scan_tables (lt : LockTable) (tables : list string) (txn start : Z)
    (visited : gset Z) (stack : list Z) : option (gset Z * list Z) :=
  match tables with
  | [] => Some (visited, stack)
  | tbl :: rest =>
      match locks lt !! tbl with
      | Some entries =>
          match scan_entries entries txn start visited stack with
          | Some (visited, stack) => scan_tables lt rest txn start visited stack
          | None => None
          end
      | None => scan_tables lt rest txn start visited stack
      end
  end.
(** [while let Some(txn) = stack.pop()] *)
Fixpoint has_cycle_loop (fuel : nat) (lt : LockTable) (start : Z)
    (visited : gset Z) (stack : list Z) : res bool :=
  match fuel with
  | O => Hang
  | S fuel' =>
      match stack with
      | [] => Ok false
      | txn :: stack =>
          match waiters lt !! txn with
          | Some waiting_tables =>
              match scan_tables lt waiting_tables txn start visited stack with
              | None => Ok true
              | Some (visited, stack) => has_cycle_loop fuel' lt start visited stack
              end
          | None => has_cycle_loop fuel' lt start visited stack
          end
      end
  end.
(** Every transaction holding a lock: the nodes the search can reach. *)
Definition holders (lt : LockTable) : gset Z :=
  list_to_set (mjoin ((λ p, map holder_txn p.2) <$> map_to_list (locks lt))).
Definition has_cycle (lt : LockTable) (start : Z) : res bool :=
  has_cycle_loop (size (holders lt) + 2) lt start ∅ [start].

(** [iter_mut().find(|e| e.holder_txn == txn_id)] and, when the request is
    exclusive, the assignment to its mode. *)
Fixpoint upgrade_first (txn_id : Z) (entries : list LockEntry) : list LockEntry :=
  match entries with
  | [] => []
  | e :: rest =>
      if holder_txn e =? txn_id then mkLockEntry Exclusive txn_id :: rest
      else e :: upgrade_first txn_id rest
  end.
Definition holds (txn_id : Z) (entries : list LockEntry) : bool :=
  existsb (λ e, holder_txn e =? txn_id) entries.

Definition compatible (held req : LockMode) : bool :=
  match held, req with Shared, Shared => true | _, _ => false end.
(** The first entry of another transaction that conflicts with [m]. *)
Definition find_conflict (m : LockMode) (txn_id : Z) (entries : list LockEntry) : option LockEntry :=
  find (λ e, negb (holder_txn e =? txn_id) && negb (compatible (mode e) m)) entries.

Definition deadlock_msg (txn_id holder : Z) (tbl : string) : string :=
  "Deadlock detected: txn " +:+ pretty txn_id +:+ " and txn " +:+ pretty holder
  +:+ " form a cycle on table `" +:+ tbl +:+ "`".
Definition conflict_msg (tbl : string) (hm : LockMode) (holder txn_id : Z) (m : LockMode) : string :=
  "Lock conflict: table `" +:+ tbl +:+ "` is " +:+ show_mode hm +:+ "-locked by txn " +:+ pretty holder
  +:+ ", txn " +:+ pretty txn_id +:+ " cannot acquire " +:+ show_mode m.

Definition try_acquire (table : string) (m : LockMode) (txn_id : Z) : ST LockTable unit := λ lt,
  let tbl := to_ascii_lowercase table in
  let entries := entry_or_default (locks lt) tbl in
  let locks1 := <[tbl := entries]> (locks lt) in
  if holds txn_id entries then
    let entries := match m with Exclusive => upgrade_first txn_id entries | Shared => entries end in
    (Ok tt, mkLockTable (<[tbl := entries]> locks1) (waiters lt))
  else
    match find_conflict m txn_id entries with
    | Some e =>
        let waiting := entry_or_default (waiters lt) txn_id ++ [tbl] in
        let lt1 := mkLockTable locks1 (<[txn_id := waiting]> (waiters lt)) in
        match has_cycle lt1 txn_id with
        | Ok has_deadlock =>
            let v := filter (λ t, t ≠ tbl) waiting in
            let waiters2 := match v with
                            | [] => delete txn_id (waiters lt1)
                            | _ => <[txn_id := v]> (waiters lt1)
                            end in
            let lt2 := mkLockTable locks1 waiters2 in
            if has_deadlock then (Err (Internal (deadlock_msg txn_id (holder_txn e) tbl)), lt2)
            else (Err (Internal (conflict_msg tbl (mode e) (holder_txn e) txn_id m)), lt2)
        | Err e => (Err e, lt1)
        | Panic => (Panic, lt1)
        | Hang => (Hang, lt1)
        end
    | None =>
        (Ok tt, mkLockTable (<[tbl := entries ++ [mkLockEntry m txn_id]]> locks1) (waiters lt))
    end.

Definition release_all (txn_id : Z) (lt : LockTable) : LockTable :=
  let kept := (λ entries, filter (λ e, holder_txn e ≠ txn_id) entries) <$> locks lt in
  mkLockTable (filter (λ p, p.2 ≠ []) kept) (delete txn_id (waiters lt)).

(** A run of the interface: any calls, in any order, by any transactions. *)
Inductive lock_op : Type := OpAcquire (table : string) (m : LockMode) (txn : Z) | OpRelease (txn : Z).
Definition lock_step (lt : LockTable) (op : lock_op) : LockTable :=
  match op with
  | OpAcquire table m txn => (try_acquire table m txn lt).2
  | OpRelease txn => release_all txn lt
  end.
Definition run_locks (ops : list lock_op) : LockTable := foldl lock_step LockTable_new ops.

(** ** Lemmas: the wait-for search *)

(** [txn] waits for [h]: [h] holds a lock on a table [txn] is waiting for. *)
Definition waits (lt : LockTable) (txn h : Z) : Prop :=
  ∃ tables tbl entries e, waiters lt !! txn = Some tables ∧ tbl ∈ tables ∧
    locks lt !! tbl = Some entries ∧ e ∈ entries ∧ holder_txn e = h ∧ h ≠ txn.

Lemma waits_holders lt txn h : waits lt txn h → h ∈ holders lt.
Proof.
  intros (tables & tbl & entries & e & _ & _ & Hl & He & <- & _). unfold holders.
  rewrite elem_of_list_to_set, list_elem_of_join. exists (map holder_txn entries). split.
  - apply list_elem_of_fmap. eauto.
  - apply list_elem_of_fmap. exists (tbl, entries). split; [done|]. by apply elem_of_map_to_list.
Qed.

(** What one scan promises: no way back to [start] among the holders [P], and
    every one of them visited; what is newly visited has been pushed. *)
Definition scanned (P : Z → Prop) (start : Z) (V : gset Z) (S : list Z) (V' : gset Z) (S' : list Z) : Prop :=
  V ⊆ V' ∧ (∀ h, P h → h ≠ start ∧ h ∈ V') ∧
  (∀ h, h ∈ V' → h ∉ V → P h) ∧
  (∀ x, x ∈ S' ↔ x ∈ S ∨ x ∈ V' ∧ x ∉ V) ∧
  (length S' + size V = length S + size V')%nat.

Lemma scanned_refl (P : Z → Prop) start V S : (∀ h, ¬ P h) → scanned P start V S V S.
Proof. intros H. split_and!; try done; naive_solver. Qed.
Lemma scanned_trans (P Q R : Z → Prop) start V1 S1 V2 S2 V3 S3 :
  scanned P start V1 S1 V2 S2 → scanned Q start V2 S2 V3 S3 → (∀ h, R h ↔ P h ∨ Q h) →
  scanned R start V1 S1 V3 S3.
Proof.
  intros (Hs1 & Hp1 & Hn1 & He1 & Hl1) (Hs2 & Hp2 & Hn2 & He2 & Hl2) HR. split_and!; [set_solver| | | |lia].
  - intros h [?|?]%HR; [destruct (Hp1 h)|destruct (Hp2 h)]; set_solver.
  - intros h Hh Hn. apply HR. destruct (decide (h ∈ V2)); [left|right]; auto.
  - intros x. rewrite He2, He1. destruct (decide (x ∈ V2)); set_solver.
Qed.

Lemma scan_entries_spec entries txn start V S :
  match scan_entries entries txn start V S with
  | None => ∃ e, e ∈ entries ∧ holder_txn e = start ∧ start ≠ txn
  | Some (V', S') => scanned (λ h, ∃ e, e ∈ entries ∧ holder_txn e = h ∧ h ≠ txn) start V S V' S'
  end.
Proof.
  revert V S. induction entries as [|e entries IH]; intros V S; cbn [scan_entries].
  { apply scanned_refl. set_solver. }
  assert (∀ V1 S1, scanned (λ h, e = mkLockEntry (mode e) h ∧ h ≠ txn) start V S V1 S1 →
    match scan_entries entries txn start V1 S1 with
    | None => ∃ e0, e0 ∈ e :: entries ∧ holder_txn e0 = start ∧ start ≠ txn
    | Some (V', S') => scanned (λ h, ∃ e0, e0 ∈ e :: entries ∧ holder_txn e0 = h ∧ h ≠ txn) start V S V' S'
    end) as Hk.
  { intros V1 S1 H1. specialize (IH V1 S1). destruct (scan_entries entries txn start V1 S1) as [[V' S']|].
    - eapply scanned_trans; [done..|]. intros h. setoid_rewrite elem_of_cons.
      destruct e as [me he]; simpl. split; [|naive_solver].
      intros (e0 & [->|?] & <- & ?); eauto.
    - destruct IH as (e0 & ? & ?). exists e0. set_solver. }
  destruct e as [me he]; simpl in *.
  destruct (Z.eqb_spec he txn) as [->|Hnt]; [apply Hk, scanned_refl; naive_solver|].
  destruct (Z.eqb_spec he start) as [->|Hns]; [exists (mkLockEntry me start); set_solver|].
  case_bool_decide; apply Hk; split_and!; try (simpl; lia); try set_solver.
  rewrite size_union by set_solver. rewrite size_singleton. simpl. lia.
Qed.

Lemma scan_tables_spec lt tables txn start V S :
  match scan_tables lt tables txn start V S with
  | None => ∃ tbl entries e, tbl ∈ tables ∧ locks lt !! tbl = Some entries ∧ e ∈ entries ∧
                             holder_txn e = start ∧ start ≠ txn
  | Some (V', S') =>
      scanned (λ h, ∃ tbl entries e, tbl ∈ tables ∧ locks lt !! tbl = Some entries ∧ e ∈ entries ∧
                                     holder_txn e = h ∧ h ≠ txn) start V S V' S'
  end.
Proof.
  revert V S. induction tables as [|tbl tables IH]; intros V S; cbn [scan_tables].
  { apply scanned_refl. set_solver. }
  destruct (locks lt !! tbl) as [entries|] eqn:El.
  - pose proof (scan_entries_spec entries txn start V S) as He.
    destruct (scan_entries entries txn start V S) as [[V1 S1]|].
    + specialize (IH V1 S1). destruct (scan_tables lt tables txn start V1 S1) as [[V' S']|].
      * eapply scanned_trans; [done..|]. intros h. simpl. setoid_rewrite elem_of_cons. split.
        -- intros (? & ? & e & [->|?] & ? & ?); [left; simplify_eq; eauto|right; eauto 10].
        -- intros [(e & ?)|(? & ? & e & ?)]; [exists tbl, entries, e|]; naive_solver.
      * destruct IH as (tbl' & es' & e' & ? & ?). exists tbl', es', e'. set_solver.
    + destruct He as (e & ?). exists tbl, entries, e. set_solver.
  - specialize (IH V S). destruct (scan_tables lt tables txn start V S) as [[V' S']|].
    + eapply (scanned_trans (λ _, False)); [by apply scanned_refl; tauto|done|].
      intros h. simpl. setoid_rewrite elem_of_cons. split.
      * intros (? & ? & e & [->|?] & ? & ?); [congruence|right; eauto 10].
      * intros [[]|(? & ? & e & ?)]. naive_solver.
    + destruct IH as (tbl' & es' & e' & ? & ?). exists tbl', es', e'. set_solver.
Qed.

(** The invariant of the search, with the set [P] of nodes already popped. *)
Record search_inv (lt : LockTable) (start : Z) (P V : gset Z) (S : list Z) : Prop := {
  si_reach : ∀ x, x ∈ S → rtc (waits lt) start x;
  si_closed : ∀ x y, x ∈ P → waits lt x y → y ∈ V ∧ y ≠ start;
  si_visited : ∀ x, x ∈ V → x ∈ S ∨ x ∈ P;
  si_start : start ∈ S ∨ start ∈ P;
  si_holders : V ⊆ holders lt
}.

Lemma has_cycle_loop_spec fuel lt start P V S :
  search_inv lt start P V S →
  (length S + size (holders lt) < fuel + size V)%nat →
  ∃ b, has_cycle_loop fuel lt start V S = Ok b ∧ (b = true ↔ tc (waits lt) start start).
Proof.
  revert P V S. induction fuel as [|fuel IH]; intros P V S HI Hf.
  { pose proof (subseteq_size _ _ (si_holders _ _ _ _ _ HI)). lia. }
  destruct HI as [Hr Hc Hv Hst Hh]. cbn [has_cycle_loop]. destruct S as [|txn S].
  - exists false. split; [done|]. split; [done|]. intros Htc. exfalso.
    assert (∀ x y, tc (waits lt) x y → x ∈ P → y ∈ V ∧ y ≠ start) as Hall.
    { induction 1 as [x y Hxy|x y z Hxy _ IHt]; intros Hx; [eauto|].
      apply IHt. destruct (Hc x y Hx Hxy) as [Hy _]. apply Hv in Hy. set_solver. }
    apply (Hall start start) in Htc; [|set_solver]. tauto.
  - assert (rtc (waits lt) start txn) as Hrt by (apply Hr; set_solver).
    simpl in Hf. destruct (waiters lt !! txn) as [tables|] eqn:Ew.
    + pose proof (scan_tables_spec lt tables txn start V S) as Hs.
      destruct (scan_tables lt tables txn start V S) as [[V' S']|].
      * destruct Hs as (Hsub & Hp & Hn & He & Hl).
        assert (∀ h, (∃ tbl entries e, tbl ∈ tables ∧ locks lt !! tbl = Some entries ∧ e ∈ entries ∧
                                       holder_txn e = h ∧ h ≠ txn) ↔ waits lt txn h) as Hw.
        { intros h. split.
          - intros (tbl & entries & e & ? & ? & ? & ? & ?). exists tables, tbl, entries, e. done.
          - intros (tables' & tbl & entries & e & ? & ? & ?). simplify_eq. eauto 10. }
        setoid_rewrite Hw in Hp. setoid_rewrite Hw in Hn.
        apply (IH ({[txn]} ∪ P) V' S'); [|lia]. split.
        -- intros x [Hx|[Hx Hx']]%He; [apply Hr; set_solver|].
           eapply rtc_r; [done|]. by apply Hn.
        -- intros x y [->%elem_of_singleton|Hx]%elem_of_union Hxy; [destruct (Hp y); auto|].
           destruct (Hc x y Hx Hxy). auto.
        -- intros x Hx. rewrite He, elem_of_union, elem_of_singleton.
           destruct (decide (x ∈ V)) as [Hx'|]; [|tauto]. apply Hv in Hx'. set_solver.
        -- rewrite He, elem_of_union, elem_of_singleton. set_solver.
        -- intros x Hx. destruct (decide (x ∈ V)); [auto|]. eapply waits_holders, Hn; eauto.
      * destruct Hs as (tbl & entries & e & ? & ? & ? & Hhe & Hne). exists true. split; [done|]. split; [|done].
        intros _. eapply tc_rtc_l; [done|]. apply tc_once. exists tables, tbl, entries, e. done.
    + apply (IH ({[txn]} ∪ P) V S); [|lia]. split; [set_solver| |set_solver|set_solver|done].
      intros x y [->%elem_of_singleton|Hx]%elem_of_union Hxy; [|by eapply Hc].
      destruct Hxy as (? & ? & ? & ? & ? & _). congruence.
Qed.

Lemma has_cycle_total lt start :
  ∃ b, has_cycle lt start = Ok b ∧ (b = true ↔ tc (waits lt) start start).
Proof.
  unfold has_cycle. apply (has_cycle_loop_spec _ lt start ∅).
  - split; set_solver.
  - rewrite size_empty. simpl. lia.
Qed.

(** ** Lemmas: acquisition *)

Lemma holds_true txn es : holds txn es = true ↔ ∃ e, e ∈ es ∧ holder_txn e = txn.
Proof.
  unfold holds. rewrite existsb_exists. setoid_rewrite <- list_elem_of_In.
  split; intros (e & ? & H); exists e; (split; [done|]); by apply Z.eqb_eq.
Qed.
Lemma holds_false txn es e : holds txn es = false → e ∈ es → holder_txn e ≠ txn.
Proof. intros H He Ht. rewrite (proj2 (holds_true txn es)) in H; [done|eauto]. Qed.

Lemma find_conflict_None m txn es :
  holds txn es = false →
  find_conflict m txn es = None ↔ ∀ e, e ∈ es → compatible (mode e) m = true.
Proof.
  intros Hh. split.
  - intros H e He. pose proof (find_none _ _ H e (proj1 (list_elem_of_In _ _) He)) as Hf. simpl in Hf.
    pose proof (holds_false _ _ _ Hh He) as Hne%Z.eqb_neq. rewrite Hne in Hf.
    by destruct (compatible (mode e) m).
  - intros H. destruct (find_conflict m txn es) as [e|] eqn:Ef; [|done].
    apply find_some in Ef as [He%list_elem_of_In Hf]. rewrite (H e He) in Hf.
    by rewrite andb_false_r in Hf.
Qed.

Lemma upgrade_first_others txn es :
  filter (λ e, holder_txn e ≠ txn) (upgrade_first txn es) = filter (λ e, holder_txn e ≠ txn) es.
Proof.
  induction es as [|e es IH]; simpl; [done|].
  destruct (Z.eqb_spec (holder_txn e) txn) as [<-|Hne].
  - rewrite !filter_cons_False by (simpl; congruence). done.
  - rewrite !filter_cons_True by done. by rewrite IH.
Qed.
Lemma upgrade_first_holders txn es :
  map holder_txn (upgrade_first txn es) = map holder_txn es.
Proof.
  induction es as [|e es IH]; simpl; [done|].
  destruct (Z.eqb_spec (holder_txn e) txn) as [<-|Hne]; simpl; by rewrite ?IH.
Qed.
Lemma upgrade_first_mode txn es :
  holds txn es = true → mkLockEntry Exclusive txn ∈ upgrade_first txn es.
Proof.
  induction es as [|e es IH]; simpl; [done|]. destruct (holder_txn e =? txn); simpl; set_solver.
Qed.

Lemma entry_or_default_insert (m : gmap string (list LockEntry)) k v t :
  entry_or_default (<[k := v]> m) t = if decide (k = t) then v else entry_or_default m t.
Proof. unfold entry_or_default. rewrite lookup_insert. by case_decide. Qed.

(** The result of one call, its effect on the locks of every table, and the
    waiting lists afterwards. *)
Lemma try_acquire_cases table m txn lt :
  let tbl := to_ascii_lowercase table in
  let es := entry_or_default (locks lt) tbl in
  (holds txn es = true ∧ ∃ lt', try_acquire table m txn lt = (Ok tt, lt') ∧ waiters lt' = waiters lt ∧
     (∀ t, entry_or_default (locks lt') t = if decide (tbl = t)
        then (match m with Exclusive => upgrade_first txn es | Shared => es end)
        else entry_or_default (locks lt) t)) ∨
  (holds txn es = false ∧ (∀ e, e ∈ es → compatible (mode e) m = true) ∧
     ∃ lt', try_acquire table m txn lt = (Ok tt, lt') ∧ waiters lt' = waiters lt ∧
     (∀ t, entry_or_default (locks lt') t = if decide (tbl = t) then es ++ [mkLockEntry m txn]
        else entry_or_default (locks lt) t)) ∨
  (∃ e lt' lt1 dead, holds txn es = false ∧ e ∈ es ∧ compatible (mode e) m = false ∧
     lt1 = mkLockTable (<[tbl := es]> (locks lt)) (<[txn := entry_or_default (waiters lt) txn ++ [tbl]]> (waiters lt)) ∧
     has_cycle lt1 txn = Ok dead ∧
     try_acquire table m txn lt =
       (Err (Internal (if dead : bool then deadlock_msg txn (holder_txn e) tbl
                       else conflict_msg tbl (mode e) (holder_txn e) txn m)), lt') ∧
     (∀ t, entry_or_default (locks lt') t = entry_or_default (locks lt) t) ∧
     (waiters lt !! txn = None → waiters lt' = waiters lt)).
Proof.
  intros tbl es. unfold try_acquire. fold tbl. fold es.
  destruct (holds txn es) eqn:Hh.
  { left. split; [done|]. eexists. split; [done|]. split; [done|]. intros t. simpl.
    rewrite !entry_or_default_insert. by repeat case_decide. }
  right. destruct (find_conflict m txn es) as [e|] eqn:Ef.
  - right. pose proof Ef as [He%list_elem_of_In Hc]%find_some. apply andb_true_iff in Hc as [_ Hc%negb_true_iff].
    set (lt1 := mkLockTable _ _). destruct (has_cycle_total lt1 txn) as (dead & Hd & _). rewrite Hd.
    eexists e, _, lt1, dead. split_and!; [done|done|done|done|done|by destruct dead| |].
    + intros t. simpl. rewrite entry_or_default_insert. case_decide; by subst.
    + intros Hw. cbn [waiters lt1]. unfold entry_or_default. rewrite Hw. cbn [default app].
      rewrite filter_cons_False, filter_nil by tauto. rewrite delete_insert_id; done.
  - left. split; [done|]. split; [by apply (find_conflict_None m txn es Hh)|].
    eexists. split; [done|]. split; [done|]. intros t. simpl. rewrite !entry_or_default_insert. by repeat case_decide.
Qed.

Lemma release_all_entries txn lt t :
  entry_or_default (locks (release_all txn lt)) t =
    filter (λ e, holder_txn e ≠ txn) (entry_or_default (locks lt) t).
Proof.
  unfold entry_or_default, release_all. simpl. rewrite map_lookup_filter, lookup_fmap.
  destruct (locks lt !! t) as [es|]; simpl; [|by rewrite filter_nil].
  destruct (filter (λ e, holder_txn e ≠ txn) es) eqn:E; by case_guard.
Qed.

Lemma run_locks_waiters ops : waiters (run_locks ops) = ∅.
Proof.
  unfold run_locks. induction ops as [|op ops IH] using rev_ind; [done|].
  rewrite foldl_app. simpl. set (lt := foldl lock_step LockTable_new ops) in *.
  destruct op as [table m txn|txn]; simpl.
  - pose proof (try_acquire_cases table m txn lt) as [(_ & lt' & -> & Hw & _)|[(_ & _ & lt' & -> & Hw & _)|Hr]];
      simpl; try by rewrite Hw.
    destruct Hr as (e & lt' & lt1 & dead & _ & _ & _ & _ & _ & -> & _ & Hw). simpl.
    by rewrite Hw, IH by (by rewrite IH, lookup_empty).
  - rewrite IH. apply delete_empty.
Qed.

(** ** Properties *)

(** [C14] Deadlock detection is exact and terminates: [has_cycle] always
    returns, and returns [true] precisely when the transaction can reach
    itself along wait-for edges. *)
Theorem has_cycle_correct (lt : LockTable) (start : Z) :
  ∃ b, has_cycle lt start = Ok b ∧ (b = true ↔ tc (waits lt) start start).
Proof. apply has_cycle_total. Qed.

(** Lock acquisition: a request is granted exactly when the transaction
    already holds a lock on the table or all held locks are compatible;
    granting leaves other tables and other transactions' locks alone and the
    requester with a lock (an exclusive one if it asked for that); refusing
    changes no lock of any table. *)
Theorem try_acquire_correct (table : string) (m : LockMode) (txn : Z) (lt : LockTable) :
  let tbl := to_ascii_lowercase table in
  let es := entry_or_default (locks lt) tbl in
  let '(r, lt') := try_acquire table m txn lt in
  let es' := entry_or_default (locks lt') tbl in
  (r = Ok tt ↔ holds txn es = true ∨ ∀ e, e ∈ es → compatible (mode e) m = true) ∧
  (r = Ok tt →
     (∀ t, t ≠ tbl → entry_or_default (locks lt') t = entry_or_default (locks lt) t) ∧
     filter (λ e, holder_txn e ≠ txn) es' = filter (λ e, holder_txn e ≠ txn) es ∧
     holds txn es' = true ∧ (m = Exclusive → mkLockEntry Exclusive txn ∈ es')) ∧
  (r ≠ Ok tt → (∃ msg, r = Err (Internal msg)) ∧
     ∀ t, entry_or_default (locks lt') t = entry_or_default (locks lt) t).
Proof.
  intros tbl es. pose proof (try_acquire_cases table m txn lt) as Hc. cbv zeta in Hc. fold tbl in Hc. fold es in Hc.
  destruct Hc as [(Hh & lt' & -> & _ & Hl)|[(Hh & Hcomp & lt' & -> & _ & Hl)|Hr]].
  - split_and!; [by split; [left|]| |done]. intros _. rewrite Hl, decide_True by done.
    split_and!; [intros t Ht; rewrite Hl, decide_False; done| | |].
    + destruct m; [done|]. apply upgrade_first_others.
    + destruct m; [done|]. apply holds_true. exists (mkLockEntry Exclusive txn).
      split; [by apply upgrade_first_mode|done].
    + intros ->. by apply upgrade_first_mode.
  - split_and!; [by split; [right|]| |done]. intros _. rewrite Hl, decide_True by done.
    split_and!; [intros t Ht; rewrite Hl, decide_False; done| | |].
    + rewrite filter_app, filter_cons_False, filter_nil, app_nil_r by (simpl; tauto). done.
    + apply holds_true. exists (mkLockEntry m txn). set_solver.
    + intros ->. set_solver.
  - destruct Hr as (e & lt' & lt1 & dead & Hh & He & Hcf & _ & _ & -> & Hl & _).
    split_and!; [|done|intros _; split; [eauto|done]].
    split; [done|]. intros [?|Hall]; [congruence|]. rewrite (Hall e He) in Hcf. done.
Qed.

(** [release_all] removes exactly the locks of the transaction, keeps
    everyone else's in order, forgets that it waits, and leaves no table with
    an empty lock list. *)
Theorem release_all_correct (txn : Z) (lt : LockTable) :
  (∀ t, entry_or_default (locks (release_all txn lt)) t =
        filter (λ e, holder_txn e ≠ txn) (entry_or_default (locks lt) t)) ∧
  (∀ t, locks (release_all txn lt) !! t ≠ Some []) ∧
  waiters (release_all txn lt) = delete txn (waiters lt).
Proof.
  split_and!; [apply release_all_entries| |done].
  intros t. simpl. rewrite map_lookup_filter_Some. intros [_ ?]. done.
Qed.

(** An exclusive lock is alone on its table, and nobody is listed twice. *)
Definition exclusive_alone (lt : LockTable) : Prop :=
  ∀ t, let es := entry_or_default (locks lt) t in
  NoDup (map holder_txn es) ∧ ∀ e, e ∈ es → mode e = Exclusive → es = [e].
(** The request does not upgrade a lock on a table others hold too. *)
Definition no_upgrade (lt : LockTable) (op : lock_op) : Prop :=
  match op with
  | OpAcquire table Exclusive txn =>
      let es := entry_or_default (locks lt) (to_ascii_lowercase table) in
      holds txn es = true → ∃ e, es = [e]
  | _ => True
  end.
Inductive reachable : LockTable → Prop :=
  | reachable_new : reachable LockTable_new
  | reachable_step lt op : reachable lt → no_upgrade lt op → reachable (lock_step lt op).

(** Mutual exclusion, for runs in which no shared lock is upgraded while
    others hold the table: in every reachable state an exclusive lock is the
    only lock on its table and no transaction is listed twice. *)
Theorem exclusive_alone_reachable (lt : LockTable) (Hr : reachable lt) : exclusive_alone lt.
Proof.
  induction Hr as [|lt op _ IH Hop]; [intros t; simpl; split; [constructor|set_solver]|].
  destruct op as [table m txn|txn]; simpl.
  - pose proof (try_acquire_cases table m txn lt) as Hc. simpl in Hop. cbv zeta in Hc.
    set (tbl := to_ascii_lowercase table) in *. set (es := entry_or_default (locks lt) tbl) in *.
    destruct Hc as [(Hh & lt' & -> & _ & Hl)|[(Hh & Hcomp & lt' & -> & _ & Hl)|Hrf]]; simpl.
    + intros t. cbv zeta. rewrite Hl. case_decide as Ht; [subst t|apply IH].
      destruct m; [apply IH|]. destruct (Hop Hh) as [e Hes]. rewrite Hes in Hh |- *.
      simpl in *. rewrite orb_false_r in Hh. rewrite Hh. simpl.
      split; [apply NoDup_singleton|]. set_solver.
    + intros t. cbv zeta. rewrite Hl. case_decide as Ht; [subst t|apply IH].
      destruct (IH tbl) as [Hnd Hex]. fold es in Hnd, Hex. split.
      * rewrite map_app. apply NoDup_app. split_and!; [done| |apply NoDup_singleton].
        intros h (e & -> & He)%list_elem_of_fmap Hin. simpl in Hin.
        apply list_elem_of_singleton in Hin. by eapply holds_false.
      * intros e [He|He%list_elem_of_singleton]%elem_of_app Hm.
        -- specialize (Hcomp e He). rewrite Hm in Hcomp. by destruct m.
        -- subst e. simpl in Hm. subst m. destruct es as [|e' es']; [done|].
           specialize (Hcomp e'). destruct (mode e') in Hcomp; by discriminate Hcomp; set_solver.
    + destruct Hrf as (e & lt' & lt1 & dead & _ & _ & _ & _ & _ & -> & Hl & _). simpl.
      intros t. cbv zeta. rewrite Hl. apply IH.
  - intros t. cbv zeta. rewrite release_all_entries. destruct (IH t) as [Hnd Hex]. split.
    + eapply sublist_NoDup; [exact Hnd|]. apply (fmap_sublist holder_txn), sublist_filter.
    + intros e [Hne He]%list_elem_of_filter Hm. rewrite (Hex e He Hm), filter_cons_True by done.
      by rewrite filter_nil.
Qed.
Lemma exclusive_alone_reachable_witness :
  exclusive_alone (lock_step (lock_step LockTable_new (OpAcquire "T" Exclusive 1)) (OpAcquire "t" Shared 2)).
Proof. apply exclusive_alone_reachable. repeat apply reachable_step; [apply reachable_new|discriminate|exact I]. Defined.

(** Upgrades break mutual exclusion: two transactions that share a table
    may both upgrade, after which the table has two exclusive holders. *)
Theorem upgrade_two_exclusive :
  locks (run_locks [OpAcquire "t" Shared 1; OpAcquire "t" Shared 2;
                    OpAcquire "t" Exclusive 1; OpAcquire "t" Exclusive 2]) !! "t"%string =
    Some [mkLockEntry Exclusive 1; mkLockEntry Exclusive 2].
Proof. reflexivity. Qed.

(** A refused request is always reported as a lock conflict: whatever
    calls were made before, [try_acquire] never returns the deadlock error,
    since no refused transaction stays registered as a waiter. *)
Theorem deadlock_never_reported (ops : list lock_op) (table : string) (m : LockMode) (txn : Z) :
  let r := (try_acquire table m txn (run_locks ops)).1 in
  r = Ok tt ∨ ∃ hm h, r = Err (Internal (conflict_msg (to_ascii_lowercase table) hm h txn m)).
Proof.
  pose proof (run_locks_waiters ops) as Hw. set (lt := run_locks ops) in *.
  pose proof (try_acquire_cases table m txn lt) as [(_ & lt' & -> & _)|[(_ & _ & lt' & -> & _)|Hr]];
    [by left..|right].
  destruct Hr as (e & lt' & lt1 & dead & Hh & He & _ & Hlt1 & Hcy & -> & _). simpl.
  exists (mode e), (holder_txn e).
  destruct (has_cycle_total lt1 txn) as (b & Hb & Hcyc). rewrite Hcy in Hb. injection Hb as <-.
  destruct dead; [exfalso|done].
  (* every wait-for edge starts at [txn] and leaves it *)
  assert (∀ x y, waits lt1 x y → x = txn ∧ y ≠ txn) as Hedge.
  { intros x y (tables & tbl & es & e0 & Hwx & _ & _ & _ & _ & Hne). subst lt1. simpl in Hwx.
    rewrite Hw, lookup_insert in Hwx. case_decide; [by subst|]. by rewrite lookup_empty in Hwx. }
  assert (∀ x y, tc (waits lt1) x y → x = txn ∧ y ≠ txn) as Htc.
  { induction 1 as [x y Hxy|x y z Hxy _ [-> ?]]; [by apply Hedge|]. by apply Hedge in Hxy as [-> ?]. }
  destruct (Htc txn txn); [by apply Hcyc|done].
Qed.
