(* ===== verification/Mvcc.v ===== *)
(** Multi-version concurrency control, first part: src/src/vm/mvcc.rs lines
    19-510, and the row visibility step of SELECT
    (src/src/vm/exec_select.rs).

    [UndoLog] with savepoint markers and purging, [IsolationLevel],
    [MvccSnapshot], [TransactionRegistry] and [compute_visibility_delta].  The
    theorems: partial rollback cuts the log exactly at the latest marker of
    that name and returns the tail newest first; the size estimate is always
    the sum over the entries; a snapshot shows committed transactions and
    hides active and future ones in every reachable registry; garbage
    collection keeps every entry of an active transaction; and, when no row
    is touched again after an invisible change, the rows a snapshot read
    returns are those the visible transactions alone would have left.  The
    last hypothesis is needed: an insert followed by an update in one
    invisible transaction leaks the inserted row. *)
From S2P Require Import Prelude Values.

(** ** Undo log *)

Inductive UndoEntry : Type :=
  | UInsert (table : string) (rowid : Z) (txn_id : Z)
  | UUpdate (table : string) (rowid : Z) (old_row : Row) (txn_id : Z)
  | UDelete (table : string) (rowid : Z) (old_row : Row) (txn_id : Z)
  | USavepoint (name : string) (txn_id : Z).

(** [UndoEntry::txn_id] *)
Definition entry_txn_id (e : UndoEntry) : Z :=
  match e with
  | UInsert _ _ t => t
  | UUpdate _ _ _ t => t
  | UDelete _ _ _ t => t
  | USavepoint _ t => t
  end.
(** [UndoEntry::table_name] *)
Definition entry_table_name (e : UndoEntry) : option string :=
  match e with
  | UInsert table _ _ => Some table
  | UUpdate table _ _ _ => Some table
  | UDelete table _ _ _ => Some table
  | USavepoint _ _ => None
  end.

Record UndoLog := mkUndoLog { entries : list UndoEntry; size_bytes : Z }.
Definition UndoLog_new : UndoLog := mkUndoLog [] 0.

Record UndoLogStats := mkUndoLogStats {
  total_entries : Z; stat_size_bytes : Z; inserts : Z; updates : Z; deletes : Z; savepoints : Z
}.

(** The last position satisfying [p]: [iter().rposition(p)]. *)
Fixpoint rposition {A} (p : A → bool) (l : list A) : option nat :=
  match l with
  | [] => None
  | x :: l' => match rposition p l' with
               | Some i => Some (S i)
               | None => if p x then Some O else None
               end
  end.
Definition is_savepoint_named (name : string) (e : UndoEntry) : bool :=
  match e with USavepoint n _ => eq_ignore_ascii_case n name | _ => false end.

Section UndoLog.
(** [std::mem::size_of_val(v)] of a [Value]: one number per platform. *)
Variable value_size : Z.

Definition entry_size (e : UndoEntry) : Z :=
  let base := 64 in
  match e with
  | UInsert table _ _ => base + Z.of_nat (String.length table)
  | UUpdate table _ old_row _ | UDelete table _ old_row _ =>
      base + Z.of_nat (String.length table) + zsum (map (λ _, value_size + 16) old_row)
  | USavepoint name _ => base + Z.of_nat (String.length name)
  end.

Definition push (e : UndoEntry) (log : UndoLog) : UndoLog :=
  mkUndoLog (entries log ++ [e]) (size_bytes log + entry_size e).
Definition savepoint (name : string) (txn_id : Z) (log : UndoLog) : UndoLog :=
  push (USavepoint name txn_id) log.
Definition undo_len (log : UndoLog) : Z := zlen (entries log).
Definition undo_is_empty (log : UndoLog) : bool := zlen (entries log) =? 0.
Definition clear (log : UndoLog) : UndoLog := mkUndoLog [] 0.

Definition rollback_to_savepoint (name : string) (log : UndoLog) : list UndoEntry * UndoLog :=
  match rposition (is_savepoint_named name) (entries log) with
  | Some idx =>
      let undone := rev (drop (idx + 1) (entries log)) in
      let kept := take (idx + 1) (entries log) in
      (undone, mkUndoLog kept (zsum (map entry_size kept)))
  | None => ([], log)
  end.

Definition purge (min_active_txn_id : Z) (log : UndoLog) : UndoLog :=
  let kept := filter (λ e, min_active_txn_id ≤ entry_txn_id e) (entries log) in
  mkUndoLog kept (zsum (map entry_size kept)).

Definition iter_rev (log : UndoLog) : list UndoEntry := rev (entries log).

(** The [match] of the counting loop of [stats]. *)
Definition count_entry (s : UndoLogStats) (e : UndoEntry) : UndoLogStats :=
  let '(mkUndoLogStats t b i u d sp) := s in
  match e with
  | UInsert _ _ _ => mkUndoLogStats t b (i + 1) u d sp
  | UUpdate _ _ _ _ => mkUndoLogStats t b i (u + 1) d sp
  | UDelete _ _ _ _ => mkUndoLogStats t b i u (d + 1) sp
  | USavepoint _ _ => mkUndoLogStats t b i u d (sp + 1)
  end.
Definition stats (log : UndoLog) : UndoLogStats :=
  foldl count_entry (mkUndoLogStats (zlen (entries log)) (size_bytes log) 0 0 0 0) (entries log).

End UndoLog.

(** ** Isolation levels and snapshots *)

Inductive IsolationLevel : Type := Serializable | RepeatableRead | ReadCommitted | ReadUncommitted.
#[export] Instance IsolationLevel_eq_dec : EqDecision IsolationLevel.
Proof. solve_decision. Defined.

Definition uses_begin_snapshot (l : IsolationLevel) : bool :=
  match l with Serializable | RepeatableRead => true | _ => false end.
Definition requires_read_set_validation (l : IsolationLevel) : bool :=
  match l with Serializable => true | _ => false end.
Definition allows_dirty_reads (l : IsolationLevel) : bool :=
  match l with ReadUncommitted => true | _ => false end.

Record MvccSnapshot := mkSnapshot {
  reader_txn_id : Z;
  active_txn_ids : list Z;
  max_committed_txn_id : Z
}.
Definition is_visible (s : MvccSnapshot) (creator : Z) : bool :=
  if creator =? reader_txn_id s then true
  else if max_committed_txn_id s <? creator then false
  else if bool_decide (creator ∈ active_txn_ids s) then false
  else true.

(** Transaction identifiers are natural numbers here: the 64-bit counter of
    the code would need 2^64 transactions to wrap. *)
Record TransactionRegistry := mkRegistry {
  active_txns : list Z;
  next_txn_id : Z;
  max_committed : Z
}.
Definition Registry_new : TransactionRegistry := mkRegistry [] 1 0.

Definition reg_begin (r : TransactionRegistry) : Z * TransactionRegistry :=
  let txn_id := next_txn_id r in
  (txn_id, mkRegistry (active_txns r ++ [txn_id]) (next_txn_id r + 1) (max_committed r)).
Definition reg_commit (txn_id : Z) (r : TransactionRegistry) : TransactionRegistry :=
  mkRegistry (filter (λ id, id ≠ txn_id) (active_txns r)) (next_txn_id r)
    (if max_committed r <? txn_id then txn_id else max_committed r).
Definition reg_abort (txn_id : Z) (r : TransactionRegistry) : TransactionRegistry :=
  mkRegistry (filter (λ id, id ≠ txn_id) (active_txns r)) (next_txn_id r) (max_committed r).
Definition snapshot (reader : Z) (r : TransactionRegistry) : MvccSnapshot :=
  mkSnapshot reader (active_txns r) (max_committed r).
(** [.iter().copied().min().unwrap_or(next_txn_id)] *)
Definition min_active_txn_id (r : TransactionRegistry) : Z :=
  match active_txns r with
  | [] => next_txn_id r
  | x :: l => foldl Z.min x l
  end.
Definition active_count (r : TransactionRegistry) : Z := zlen (active_txns r).
Definition auto_purge (value_size : Z) (r : TransactionRegistry) (log : UndoLog) : Z * UndoLog :=
  let log' := purge value_size (min_active_txn_id r) log in
  (undo_len log - undo_len log', log').
Definition snapshot_read_uncommitted (reader : Z) (r : TransactionRegistry) : MvccSnapshot :=
  mkSnapshot reader [] U64_MAX.
Definition snapshot_for_isolation (reader : Z) (l : IsolationLevel) (r : TransactionRegistry) : MvccSnapshot :=
  match l with
  | ReadUncommitted => snapshot_read_uncommitted reader r
  | _ => snapshot reader r
  end.

(** ** Visibility *)

(** One round of the loop of [compute_visibility_delta]. *)
Definition visibility_step (s : MvccSnapshot) (table_lower : string)
    (acc : gset Z * list (Z * Row)) (e : UndoEntry) : gset Z * list (Z * Row) :=
  let '(invisible, restored) := acc in
  let hidden table txn := String.eqb (to_ascii_lowercase table) table_lower && negb (is_visible s txn) in
  match e with
  | UInsert table rowid txn =>
      if hidden table txn then ({[rowid]} ∪ invisible, restored) else acc
  | UDelete table rowid old_row txn =>
      if hidden table txn then (invisible, restored ++ [(rowid, old_row)]) else acc
  | UUpdate table rowid old_row txn =>
      if hidden table txn then ({[rowid]} ∪ invisible, restored ++ [(rowid, old_row)]) else acc
  | USavepoint _ _ => acc
  end.
Definition compute_visibility_delta (log : UndoLog) (s : MvccSnapshot) (table_name : string)
    : gset Z * list (Z * Row) :=
  foldl (visibility_step s (to_ascii_lowercase table_name)) (∅, []) (entries log).

(** The rows [eval_from] returns for a table under a snapshot, given the
    [(rowid, row)] pairs the table scan produced. *)
Definition snapshot_rows (log : UndoLog) (s : MvccSnapshot) (table_name : string)
    (all_rows : list (Z * Row)) : list Row :=
  let '(invisible, restored) := compute_visibility_delta log s table_name in
  map snd (filter (λ p, p.1 ∉ invisible) all_rows) ++ map snd restored.

(** ** Lemmas: undo log *)

Section UndoLogFacts.
Variable value_size : Z.
Implicit Types (log : UndoLog) (name : string).

(** The size estimate is the sum over the entries. *)
Definition size_ok log : Prop := size_bytes log = zsum (map (entry_size value_size) (entries log)).

Lemma push_size_ok e log : size_ok log → size_ok (push value_size e log).
Proof. unfold size_ok, push. simpl. intros ->. rewrite map_app, zsum_app. unfold zsum; simpl; lia. Qed.
Lemma rollback_size_ok name log : size_ok log → size_ok (rollback_to_savepoint value_size name log).2.
Proof. unfold rollback_to_savepoint. by destruct (rposition _ _). Qed.
Lemma purge_size_ok n log : size_ok (purge value_size n log).
Proof. done. Qed.

Lemma rposition_Some {A} (p : A → bool) l i :
  rposition p l = Some i →
  ∃ x, l !! i = Some x ∧ p x = true ∧ Forall (λ y, p y = false) (drop (i + 1) l).
Proof.
  revert i. induction l as [|x l IH]; intros i; simpl; [done|].
  destruct (rposition p l) as [j|] eqn:E.
  - intros [= <-]. destruct (IH j eq_refl) as (y & ? & ? & ?). eauto.
  - destruct (p x) eqn:Ep; [|done]. intros [= <-]. exists x. split_and!; [done..|].
    simpl. rewrite drop_0. clear IH. induction l as [|y l IH]; [done|]. simpl in E.
    destruct (rposition p l) eqn:E'; [done|]. destruct (p y) eqn:Ey; [done|]. constructor; auto.
Qed.
Lemma rposition_None {A} (p : A → bool) l :
  rposition p l = None ↔ Forall (λ y, p y = false) l.
Proof.
  induction l as [|y l IH]; simpl; [by split|].
  rewrite Forall_cons. destruct (rposition p l); [naive_solver|].
  destruct (p y); naive_solver.
Qed.

(** The operations on an undo log, as one type. *)
Inductive undo_op : Type :=
  | OpPush (e : UndoEntry) | OpSavepoint (name : string) (txn : Z) | OpClear
  | OpRollbackTo (name : string) | OpPurge (min_active : Z).
Definition undo_step (log : UndoLog) (op : undo_op) : UndoLog :=
  match op with
  | OpPush e => push value_size e log
  | OpSavepoint name txn => savepoint value_size name txn log
  | OpClear => clear log
  | OpRollbackTo name => (rollback_to_savepoint value_size name log).2
  | OpPurge n => purge value_size n log
  end.
Lemma undo_steps_size_ok ops : size_ok (foldl undo_step UndoLog_new ops).
Proof.
  induction ops as [|op ops IH] using rev_ind; [done|]. rewrite foldl_app.
  destruct op; simpl; try done; auto using push_size_ok, rollback_size_ok.
  by apply push_size_ok.
Qed.

Lemma count_entry_foldl l s :
  let s' := foldl count_entry s l in
  total_entries s' = total_entries s ∧ stat_size_bytes s' = stat_size_bytes s ∧
  inserts s' + updates s' + deletes s' + savepoints s' =
    inserts s + updates s + deletes s + savepoints s + zlen l.
Proof.
  revert s. induction l as [|e l IH]; intros s; simpl; [unfold zlen; simpl; lia|].
  rewrite zlen_cons. destruct (IH (count_entry s e)) as (-> & -> & ->).
  destruct s, e; simpl; lia.
Qed.

End UndoLogFacts.

(** ** Lemmas: registry *)

(** The fate of a transaction, kept beside the registry. *)
Inductive txn_status : Type := Active | Committed | Aborted.
#[export] Instance txn_status_eq_dec : EqDecision txn_status.
Proof. solve_decision. Defined.
Inductive reg_op : Type := RBegin | RCommit (txn : Z) | RAbort (txn : Z).
(** Only active transactions are committed or aborted. *)
Definition reg_step (st : TransactionRegistry * gmap Z txn_status) (op : reg_op)
    : TransactionRegistry * gmap Z txn_status :=
  let '(r, m) := st in
  match op with
  | RBegin => let '(t, r') := reg_begin r in (r', <[t := Active]> m)
  | RCommit t => if bool_decide (m !! t = Some Active) then (reg_commit t r, <[t := Committed]> m) else st
  | RAbort t => if bool_decide (m !! t = Some Active) then (reg_abort t r, <[t := Aborted]> m) else st
  end.
Definition reg_run (ops : list reg_op) : TransactionRegistry * gmap Z txn_status :=
  foldl reg_step (Registry_new, ∅) ops.

Record registry_inv (r : TransactionRegistry) (m : gmap Z txn_status) : Prop := {
  ri_active : ∀ t, t ∈ active_txns r ↔ m !! t = Some Active;
  ri_nodup : NoDup (active_txns r);
  ri_known : ∀ t, is_Some (m !! t) ↔ 1 ≤ t < next_txn_id r;
  ri_max : ∀ t, m !! t = Some Committed → t ≤ max_committed r;
  ri_max_lt : 0 ≤ max_committed r < next_txn_id r
}.

Lemma finish_inv t st r m mc :
  registry_inv r m → m !! t = Some Active → st ≠ Active →
  (mc = max_committed r ∧ st = Aborted ∨ mc = Z.max t (max_committed r)) →
  registry_inv (mkRegistry (filter (λ id, id ≠ t) (active_txns r)) (next_txn_id r) mc) (<[t := st]> m).
Proof.
  intros [Ha Hn Hk Hm Hml] Ht Hst Hmc.
  assert (1 ≤ t < next_txn_id r) by (apply Hk; eauto).
  split; simpl.
  - intros x. rewrite list_elem_of_filter, Ha, lookup_insert. case_decide; naive_solver.
  - by apply NoDup_filter.
  - intros x. rewrite <- Hk, lookup_insert. case_decide; subst; naive_solver.
  - intros x. rewrite lookup_insert. case_decide; subst; [naive_solver lia|].
    intros ?%Hm. naive_solver lia.
  - naive_solver lia.
Qed.

Lemma reg_run_inv ops : registry_inv (reg_run ops).1 (reg_run ops).2.
Proof.
  unfold reg_run. induction ops as [|op ops IH] using rev_ind.
  { split; simpl; try set_solver; try lia; [apply NoDup_nil_2|]. intros t.
    rewrite lookup_empty. split; [by intros [??]|lia]. }
  rewrite foldl_app. simpl. destruct (foldl reg_step (Registry_new, ∅) ops) as [r m]. simpl in *.
  destruct op as [|t|t]; simpl.
  - destruct IH as [Ha Hn Hk Hm Hml].
    assert (m !! next_txn_id r = None) as Hf.
    { destruct (m !! next_txn_id r) eqn:E; [|done]. assert (is_Some (m !! next_txn_id r)) as H%Hk by eauto. lia. }
    split; simpl.
    + intros x. rewrite elem_of_app, list_elem_of_singleton, Ha, lookup_insert. case_decide; naive_solver.
    + apply NoDup_app. split_and!; [done| |apply NoDup_singleton].
      intros x Hx%Ha ->%list_elem_of_singleton. congruence.
    + intros x. rewrite lookup_insert. case_decide; subst.
      * split; [lia|eauto].
      * rewrite Hk. lia.
    + intros x. rewrite lookup_insert. case_decide; [done|]. auto.
    + lia.
  - case_bool_decide; [|done]. apply finish_inv; try done. right.
    destruct (Z.ltb_spec (max_committed r) t); lia.
  - case_bool_decide; [|done]. apply finish_inv; try done. by left.
Qed.

Lemma min_active_le r t : t ∈ active_txns r → min_active_txn_id r ≤ t.
Proof.
  unfold min_active_txn_id. destruct (active_txns r) as [|x l]; [set_solver|].
  assert (∀ l x, foldl Z.min x l ≤ x ∧ ∀ y, y ∈ l → foldl Z.min x l ≤ y) as H.
  { clear. induction l as [|z l IH]; intros x; simpl; [split; [lia|set_solver]|].
    destruct (IH (x `min` z)) as [H1 H2]. split; [lia|].
    intros y [->|?]%elem_of_cons; [lia|auto]. }
  destruct (H l x) as [H1 H2]. intros [->|?]%elem_of_cons; auto.
Qed.

(** ** Lemmas: visibility *)

(** Changes to one table, as they happened; each records its undo entry. *)
Inductive event : Type :=
  | EvInsert (rowid : Z) (row : Row) (txn : Z)
  | EvUpdate (rowid : Z) (row : Row) (txn : Z)
  | EvDelete (rowid : Z) (txn : Z).
Definition ev_rowid (e : event) : Z :=
  match e with EvInsert r _ _ | EvUpdate r _ _ | EvDelete r _ => r end.
Definition ev_txn (e : event) : Z :=
  match e with EvInsert _ _ t | EvUpdate _ _ t | EvDelete _ t => t end.
(** An insert needs a fresh rowid, an update or delete an existing row. *)
Definition ev_enabled (st : gmap Z Row) (e : event) : Prop :=
  match e with
  | EvInsert r _ _ => st !! r = None
  | EvUpdate r _ _ | EvDelete r _ => is_Some (st !! r)
  end.
Definition ev_apply (st : gmap Z Row) (e : event) : gmap Z Row :=
  match e with
  | EvInsert r row _ | EvUpdate r row _ => <[r := row]> st
  | EvDelete r _ => delete r st
  end.
Definition ev_undo (table : string) (st : gmap Z Row) (e : event) : UndoEntry :=
  match e with
  | EvInsert r _ t => UInsert table r t
  | EvUpdate r _ t => UUpdate table r (default [] (st !! r)) t
  | EvDelete r t => UDelete table r (default [] (st !! r)) t
  end.
Fixpoint undo_of (table : string) (st : gmap Z Row) (h : list event) : list UndoEntry :=
  match h with
  | [] => []
  | e :: h' => ev_undo table st e :: undo_of table (ev_apply st e) h'
  end.
Fixpoint enabled (st : gmap Z Row) (h : list event) : Prop :=
  match h with
  | [] => True
  | e :: h' => ev_enabled st e ∧ enabled (ev_apply st e) h'
  end.
(** The table the visible transactions alone would have left. *)
Definition visible_events (s : MvccSnapshot) (h : list event) : list event :=
  filter (λ e, is_visible s (ev_txn e) = true) h.
Definition visible_store (s : MvccSnapshot) (st : gmap Z Row) (h : list event) : gmap Z Row :=
  foldl ev_apply st (visible_events s h).
(** After a change the snapshot does not see, nobody touches that row again. *)
Fixpoint last_touch (s : MvccSnapshot) (h : list event) : Prop :=
  match h with
  | [] => True
  | e :: h' =>
      (is_visible s (ev_txn e) = false → Forall (λ e', ev_rowid e' ≠ ev_rowid e) h') ∧ last_touch s h'
  end.

Lemma filter_ext_in {A} (P Q : A → Prop) `{!∀ x, Decision (P x), !∀ x, Decision (Q x)} (l : list A) :
  (∀ x, x ∈ l → P x ↔ Q x) → filter P l = filter Q l.
Proof.
  induction l as [|x l IH]; intros HPQ; [done|].
  rewrite !filter_cons, IH by (intros; apply HPQ; by right).
  pose proof (HPQ x ltac:(by left)). repeat case_decide; tauto.
Qed.

Lemma filter_all {A} (P : A → Prop) `{!∀ x, Decision (P x)} (l : list A) :
  (∀ x, x ∈ l → P x) → filter P l = l.
Proof.
  induction l as [|x l IH]; intros HP; [done|].
  rewrite filter_cons_True by (apply HP; by left). f_equal. apply IH. intros; apply HP; by right.
Qed.

(** Adding [r] to the hidden rows drops the row of [r] and nothing else. *)
Lemma filter_hidden_app (r : Z) (X X' : gset Z) (o : list (Z * Row)) (m : gmap Z Row) :
  (∀ p, p ∈ o → p.1 = r) → X' = {[r]} ∪ X →
  filter (λ p, p.1 ∉ X') (o ++ map_to_list (delete r m)) =
  filter (λ p, p.1 ∉ X) (map_to_list (delete r m)).
Proof.
  intros Ho ->. rewrite filter_app. replace (filter _ o) with (@nil (Z * Row)).
  2: { induction o as [|p o IH]; [done|]. rewrite filter_cons_False; [apply IH; set_solver|]. set_solver. }
  simpl. apply filter_ext_in. intros [k x] Hk. simpl.
  apply elem_of_map_to_list, lookup_delete_Some in Hk. set_solver.
Qed.

Section Visibility.
Variable s : MvccSnapshot.
Variable table : string.
Let delta := visibility_step s (to_ascii_lowercase table).

(** What the loop has gathered so far is kept, and the rest is added to it. *)
Lemma visibility_foldl l acc :
  foldl delta acc l =
    ((foldl delta (∅, []) l).1 ∪ acc.1, acc.2 ++ (foldl delta (∅, []) l).2).
Proof.
  revert acc. induction l as [|e l IH]; intros [inv rest]; cbn [foldl fst snd].
  { by rewrite app_nil_r, (left_id_L ∅ (∪)). }
  rewrite (IH (delta (inv, rest) e)), (IH (delta (∅, []) e)).
  set (D := foldl delta (∅, []) l).
  subst delta. destruct e; simpl; try (by rewrite (right_id_L ∅ (∪)));
    destruct (_ && _); simpl; rewrite <- ?app_assoc; simpl; f_equal; set_solver.
Qed.

Lemma delta_hidden_table t :
  String.eqb (to_ascii_lowercase table) (to_ascii_lowercase table) && t = t.
Proof. by rewrite String.eqb_refl. Qed.

Lemma delta_visible st e acc :
  is_visible s (ev_txn e) = true → delta acc (ev_undo table st e) = acc.
Proof. destruct e, acc; simpl; intros ->; subst delta; simpl; by rewrite ?andb_false_r. Qed.

(** Only rows that were touched are hidden. *)
Lemma delta_untouched st h r :
  Forall (λ e, ev_rowid e ≠ r) h → r ∉ (foldl delta (∅, []) (undo_of table st h)).1.
Proof.
  intros H. revert st. induction H as [|e h He _ IH]; intros st; simpl; [set_solver|].
  rewrite visibility_foldl. simpl. specialize (IH (ev_apply st e)).
  assert (r ∉ (delta (∅, []) (ev_undo table st e)).1); [|set_solver].
  subst delta. destruct e; simpl in *; destruct (_ && _); simpl; set_solver.
Qed.

Lemma events_untouched h r st :
  Forall (λ e, ev_rowid e ≠ r) h → foldl ev_apply st h !! r = st !! r.
Proof.
  intros H. revert st. induction H as [|e h He _ IH]; intros st; simpl; [done|].
  rewrite IH. destruct e; simpl in *; by rewrite ?lookup_insert_ne, ?lookup_delete_ne.
Qed.
Lemma events_delete h r st :
  Forall (λ e, ev_rowid e ≠ r) h → delete r (foldl ev_apply st h) = foldl ev_apply (delete r st) h.
Proof.
  intros H. revert st. induction H as [|e h He _ IH]; intros st; simpl; [done|].
  rewrite IH. f_equal.
  destruct e; simpl in *; [apply delete_insert_ne; congruence..|apply delete_delete].
Qed.
Lemma delete_ev_apply st e : delete (ev_rowid e) (ev_apply st e) = delete (ev_rowid e) st.
Proof. destruct e; simpl; by rewrite ?delete_insert_eq, ?delete_delete_eq. Qed.
Lemma map_to_list_at (m : gmap Z Row) r :
  map_to_list m ≡ₚ match m !! r with Some x => [(r, x)] | None => [] end ++ map_to_list (delete r m).
Proof.
  destruct (m !! r) as [x|] eqn:E; simpl.
  - by rewrite (map_to_list_delete m r x).
  - by rewrite delete_id.
Qed.

Lemma visible_untouched h r :
  Forall (λ e, ev_rowid e ≠ r) h → Forall (λ e, ev_rowid e ≠ r) (visible_events s h).
Proof. unfold visible_events. rewrite !Forall_forall. intros H x [_ Hx]%list_elem_of_filter. auto. Qed.

(** The pairs of rowid and row a snapshot read keeps and restores. *)
Lemma snapshot_pairs st h :
  enabled st h → last_touch s h →
  filter (λ p, p.1 ∉ (foldl delta (∅, []) (undo_of table st h)).1) (map_to_list (foldl ev_apply st h))
    ++ (foldl delta (∅, []) (undo_of table st h)).2
  ≡ₚ map_to_list (visible_store s st h).
Proof.
  revert st. induction h as [|e h IH]; intros st; cbn [foldl undo_of last_touch enabled].
  { intros _ _. cbn [fst snd]. rewrite app_nil_r. by rewrite filter_all by set_solver. }
  intros [He Hen] [Hl Hlast]. specialize (IH _ Hen Hlast).
  unfold visible_store, visible_events in *.
  destruct (is_visible s (ev_txn e)) eqn:Ev.
  { rewrite filter_cons_True by done. cbn [foldl]. rewrite (delta_visible _ _ _ Ev). exact IH. }
  rewrite filter_cons_False by congruence. specialize (Hl eq_refl).
  pose proof (delta_untouched (ev_apply st e) _ _ Hl) as Hnot.
  pose proof (events_untouched _ _ (ev_apply st e) Hl) as Hfin.
  pose proof (visible_untouched _ _ Hl) as Hlv.
  pose proof (events_untouched _ _ st Hlv) as HV.
  pose proof (events_untouched _ _ (ev_apply st e) Hlv) as HV'.
  pose proof (events_delete _ _ st Hlv) as HdV.
  pose proof (events_delete _ _ (ev_apply st e) Hlv) as HdV'.
  rewrite delete_ev_apply, <- HdV in HdV'.
  unfold visible_events in *.
  rewrite visibility_foldl. cbn [fst snd].
  set (D := foldl delta (∅, []) (undo_of table (ev_apply st e) h)) in *.
  set (F := foldl ev_apply (ev_apply st e) h) in *.
  set (V := foldl ev_apply st (filter _ h)) in *.
  set (V' := foldl ev_apply (ev_apply st e) (filter _ h)) in *.
  rewrite (map_to_list_at V' (ev_rowid e)), (map_to_list_at F (ev_rowid e)), HV', HdV', Hfin, filter_app in IH.
  rewrite (map_to_list_at V (ev_rowid e)), (map_to_list_at F (ev_rowid e)), HV, Hfin.
  assert (filter (λ p, p.1 ∉ D.1) (map_to_list (delete (ev_rowid e) F)) ++ D.2
    ≡ₚ map_to_list (delete (ev_rowid e) V)) as HA.
  { destruct e as [r row t|r row t|r t]; cbn [ev_apply ev_rowid] in IH;
      rewrite ?lookup_insert_eq, ?lookup_delete_eq in IH; cbn [app] in IH; try exact IH;
      rewrite filter_cons_True in IH by exact Hnot; by apply (Permutation_cons_inv (a:=(r, row))). }
  clear IH. destruct e as [r row t|r row t|r t]; cbn [ev_rowid ev_apply ev_undo ev_enabled ev_txn] in *;
    unfold delta; cbn [visibility_step]; rewrite delta_hidden_table, Ev; cbn [negb fst snd].
  - rewrite He, lookup_insert_eq, (filter_hidden_app r D.1) by set_solver. exact HA.
  - destruct He as [old Hold]. rewrite Hold, lookup_insert_eq, (filter_hidden_app r D.1) by set_solver. simpl.
    by rewrite <- Permutation_middle, HA.
  - destruct He as [old Hold]. rewrite Hold, lookup_delete_eq. cbn [app default].
    rewrite <- Permutation_middle, <- HA, union_empty_r_L. done.
Qed.
End Visibility.

(** ** Properties *)

(** Partial rollback cuts the undo log exactly after the latest
    savepoint marker of that name (names compared without case): what is kept
    followed by what is undone, reversed back, is the old log, the kept part
    ends with the marker, and no undone entry is another marker of the name;
    when there is no such marker, nothing is undone and the log is unchanged. *)
Theorem rollback_to_savepoint_cuts (value_size : Z) (name : string) (log : UndoLog) :
  let '(undone, log') := rollback_to_savepoint value_size name log in
  entries log = entries log' ++ rev undone ∧
  ((∃ pre n t, entries log' = pre ++ [USavepoint n t] ∧ eq_ignore_ascii_case n name = true ∧
      Forall (λ e, is_savepoint_named name e = false) undone) ∨
   (Forall (λ e, is_savepoint_named name e = false) (entries log) ∧ undone = [] ∧ log' = log)).
Proof.
  unfold rollback_to_savepoint. destruct (rposition _ _) as [i|] eqn:E; simpl.
  - apply rposition_Some in E as (e & Hi & He & Hrest).
    rewrite rev_involutive, take_drop. split; [done|]. left.
    destruct e as [| | |n t]; try done.
    exists (take i (entries log)), n, t. rewrite Nat.add_1_r, (take_S_r _ _ _ Hi). split_and!; [done..|].
    rewrite Nat.add_1_r in Hrest. by apply Forall_rev.
  - apply rposition_None in E. by rewrite app_nil_r; auto.
Qed.

(** Whatever sequence of pushes, savepoints, partial rollbacks, purges
    and clears is applied, the size the log reports is the sum of the
    estimates of its entries, and the four counters of its statistics add up
    to the number of its entries. *)
Theorem undo_accounting (value_size : Z) (ops : list undo_op) :
  let log := foldl (undo_step value_size) UndoLog_new ops in
  let st := stats log in
  stat_size_bytes st = zsum (map (entry_size value_size) (entries log)) ∧
  total_entries st = zlen (entries log) ∧
  inserts st + updates st + deletes st + savepoints st = total_entries st.
Proof.
  simpl. pose proof (undo_steps_size_ok value_size ops) as Hs.
  set (log := foldl _ _ _) in *. unfold stats.
  destruct (count_entry_foldl (entries log) (mkUndoLogStats (zlen (entries log)) (size_bytes log) 0 0 0 0))
    as (-> & -> & ->). simpl. split_and!; [done..|lia].
Qed.

(** [C11] In every history of begins, commits and aborts, a snapshot taken by
    transaction [me] shows the changes of [me] and of every transaction
    committed so far, and hides those of every other transaction that is
    active and of every transaction not yet begun.  Of aborted transactions it
    says nothing: their changes are to be undone by their rollback. *)
Theorem snapshot_isolation (ops : list reg_op) (me t : Z) :
  let '(r, m) := reg_run ops in
  let s := snapshot me r in
  is_visible s me = true ∧
  (m !! t = Some Committed → is_visible s t = true) ∧
  (m !! t = Some Active → t ≠ me → is_visible s t = false) ∧
  (next_txn_id r ≤ t → t ≠ me → is_visible s t = false).
Proof.
  pose proof (reg_run_inv ops) as [Ha Hn Hk Hm Hml]. destruct (reg_run ops) as [r m]. simpl in *.
  unfold is_visible, snapshot. simpl. rewrite Z.eqb_refl. split_and!; [done| | |].
  - intros Hc. destruct (t =? me); [done|]. specialize (Hm _ Hc).
    rewrite (proj2 (Z.ltb_ge _ _)) by done.
    rewrite bool_decide_eq_false_2; [done|]. rewrite Ha. congruence.
  - intros Hact Hne. rewrite (proj2 (Z.eqb_neq _ _) Hne).
    rewrite bool_decide_eq_true_2 by (by apply Ha). by destruct (_ <? _).
  - intros Hf Hne. rewrite (proj2 (Z.eqb_neq _ _) Hne), (proj2 (Z.ltb_lt _ _)) by lia. done.
Qed.

(** Garbage collection of the undo log keeps, in order, every entry of a
    transaction that is still active or not yet begun, and reports exactly
    the number of entries it dropped. *)
Theorem auto_purge_keeps_active (value_size : Z) (ops : list reg_op) (log : UndoLog) :
  let '(r, m) := reg_run ops in
  let '(dropped, log') := auto_purge value_size r log in
  sublist (entries log') (entries log) ∧
  (∀ e, e ∈ entries log → m !! entry_txn_id e = Some Active ∨ next_txn_id r ≤ entry_txn_id e →
        e ∈ entries log') ∧
  zlen (entries log') + dropped = zlen (entries log).
Proof.
  pose proof (reg_run_inv ops) as [Ha Hn Hk Hm Hml]. destruct (reg_run ops) as [r m]. simpl in *.
  unfold undo_len. simpl. split_and!; [apply sublist_filter| |lia].
  intros e He Hact. apply list_elem_of_filter. split; [|done].
  destruct Hact as [Hact|Hf].
  - apply min_active_le. by apply Ha.
  - unfold min_active_txn_id. destruct (active_txns r) as [|x l] eqn:E; [done|].
    transitivity x; [|].
    + pose proof (min_active_le r x) as H. unfold min_active_txn_id in H. rewrite E in H. apply H. by left.
    + assert (is_Some (m !! x)) as Hx%Hk; [|lia]. exists Active. apply Ha. by left.
Qed.

(** [C12] Reading a table under a snapshot returns exactly the rows the
    visible transactions alone would have left, for every history of inserts,
    updates and deletes recorded in the undo log in which no row is touched
    again after a change the snapshot does not see. *)
Theorem snapshot_rows_correct (s : MvccSnapshot) (table : string) (st : gmap Z Row)
    (h : list event) (size : Z) :
  enabled st h → last_touch s h →
  snapshot_rows (mkUndoLog (undo_of table st h) size) s table (map_to_list (foldl ev_apply st h))
    ≡ₚ (map_to_list (visible_store s st h)).*2.
Proof.
  intros He Hl. unfold snapshot_rows, compute_visibility_delta. simpl.
  rewrite <- (snapshot_pairs s table st h He Hl). destruct (foldl _ _ _) as [inv rest]. simpl.
  by rewrite <- map_app.
Qed.
Lemma snapshot_rows_correct_witness :
  snapshot_rows
    (mkUndoLog [UUpdate "t" 1 [VInteger 10] 2; UInsert "t" 2 3; UDelete "t" 3 [VInteger 30] 3] 0)
    (mkSnapshot 1 [3] 2) "t" [(1, [VInteger 11]); (2, [VInteger 20])]
  ≡ₚ [[VInteger 30]; [VInteger 11]].
Proof.
  pose proof (snapshot_rows_correct (mkSnapshot 1 [3] 2) "t"
    {[1 := [VInteger 10]; 3 := [VInteger 30]]}
    [EvUpdate 1 [VInteger 11] 2; EvInsert 2 [VInteger 20] 3; EvDelete 3 3] 0) as H.
  vm_compute in H. vm_compute. apply H; repeat split; try done; eauto; repeat constructor; done.
Defined.

(** The proviso is needed: when an uncommitted transaction inserts a row
    and then updates it, a concurrent snapshot read of the table returns the
    inserted row, although the visible transactions left the table empty. *)
Theorem snapshot_rows_dirty_read :
  let h := [EvInsert 1 [VInteger 10] 5; EvUpdate 1 [VInteger 11] 5] in
  let s := mkSnapshot 1 [5] 4 in
  enabled ∅ h ∧ is_visible s 5 = false ∧ visible_store s ∅ h = ∅ ∧
  snapshot_rows (mkUndoLog (undo_of "t" ∅ h) 0) s "t" (map_to_list (foldl ev_apply ∅ h)) = [[VInteger 10]].
Proof. cbv zeta. split_and!; [split; [done|]; split; [by eexists|done]|done..]. Qed.
