(* ===== verification/RowLocks.v ===== *)
(** Multi-version concurrency control, second part: src/src/vm/mvcc.rs lines
    514-817.

    [RowLockManager] (exclusive row locks, read sets and committed versions),
    [WaitForGraph] (deadlock detection) and [TransactionTimeoutManager].  The
    theorems: in every run each locked row has exactly one holder, the
    per-transaction lists agree with the lock table, and a conflicting request
    is refused without a change; read-set validation passes exactly when no
    row read has a newer committed version, and garbage collection of versions
    does not change its verdict; deadlock detection terminates and reports a
    genuine cycle through the waiter exactly when the new edge closes one. *)
From S2P Require Import Prelude.

(** ** Row locks *)

Abbreviation RowLockKey := (string * Z)%type (only parsing).

Record RowLockManager := mkRLM {
  locks : gmap RowLockKey Z;
  txn_locks : gmap Z (list RowLockKey);
  read_sets : gmap Z (list RowLockKey);
  committed_versions : gmap RowLockKey Z
}.
Definition RLM_new : RowLockManager := mkRLM ∅ ∅ ∅ ∅.

Definition row_key (table : string) (rowid : Z) : RowLockKey := (to_ascii_lowercase table, rowid).

Definition try_lock_row (table : string) (rowid txn_id : Z) (m : RowLockManager)
    : res unit * RowLockManager :=
  let key := row_key table rowid in
  match locks m !! key with
  | Some holder =>
      if holder =? txn_id then (Ok (), m)
      else (Err (Internal "Write-write conflict"), m)
  | None =>
      (Ok (), mkRLM (<[key := txn_id]> (locks m))
                (<[txn_id := default [] (txn_locks m !! txn_id) ++ [key]]> (txn_locks m))
                (read_sets m) (committed_versions m))
  end.

Definition record_read (table : string) (rowid txn_id : Z) (m : RowLockManager) : RowLockManager :=
  let key := row_key table rowid in
  let set := default [] (read_sets m !! txn_id) in
  let set' := if bool_decide (key ∈ set) then set else set ++ [key] in
  mkRLM (locks m) (txn_locks m) (<[txn_id := set']> (read_sets m)) (committed_versions m).

Definition release_all (txn_id : Z) (m : RowLockManager) : RowLockManager :=
  let '(locks', txn_locks') :=
    match txn_locks m !! txn_id with
    | Some keys => (foldl (λ l key, delete key l) (locks m) keys, delete txn_id (txn_locks m))
    | None => (locks m, txn_locks m)
    end in
  mkRLM locks' txn_locks' (delete txn_id (read_sets m)) (committed_versions m).

Definition commit_version (txn_id : Z) (m : RowLockManager) : RowLockManager :=
  match txn_locks m !! txn_id with
  | Some keys =>
      mkRLM (locks m) (txn_locks m) (read_sets m)
        (foldl (λ v key, <[key := txn_id]> v) (committed_versions m) keys)
  | None => m
  end.

(** The loop of [validate_read_set] over the read set. *)
Fixpoint validate_reads (txn_id snapshot_txn_id : Z) (versions : gmap RowLockKey Z)
    (reads : list RowLockKey) : res unit :=
  match reads with
  | [] => Ok ()
  | key :: rest =>
      match versions !! key with
      | Some committed_by =>
          if (snapshot_txn_id <? committed_by) && negb (committed_by =? txn_id)
          then Err (Internal "Serialization failure")
          else validate_reads txn_id snapshot_txn_id versions rest
      | None => validate_reads txn_id snapshot_txn_id versions rest
      end
  end.
Definition validate_read_set (txn_id snapshot_txn_id : Z) (m : RowLockManager) : res unit :=
  match read_sets m !! txn_id with
  | Some reads => validate_reads txn_id snapshot_txn_id (committed_versions m) reads
  | None => Ok ()
  end.

Definition lock_count (m : RowLockManager) : Z := Z.of_nat (size (locks m)).
Definition read_set_size (txn_id : Z) (m : RowLockManager) : Z :=
  match read_sets m !! txn_id with Some s => zlen s | None => 0 end.
Definition gc_versions (min_txn_id : Z) (m : RowLockManager) : RowLockManager :=
  mkRLM (locks m) (txn_locks m) (read_sets m)
    (filter (λ kv, min_txn_id ≤ kv.2) (committed_versions m)).

(** ** Wait-for graph *)

Record WaitForGraph := mkWFG { edges : gmap Z Z }.
Definition WFG_new : WaitForGraph := mkWFG ∅.
Definition add_wait (waiter holder : Z) (g : WaitForGraph) : WaitForGraph :=
  mkWFG (<[waiter := holder]> (edges g)).
Definition remove_wait (waiter : Z) (g : WaitForGraph) : WaitForGraph :=
  mkWFG (delete waiter (edges g)).
Definition remove_transaction (txn_id : Z) (g : WaitForGraph) : WaitForGraph :=
  mkWFG (filter (λ wh, wh.2 ≠ txn_id) (delete txn_id (edges g))).

(** The [loop] of [detect_deadlock]; [Hang] when the fuel runs out. *)
Fixpoint detect_loop (fuel : nat) (es : gmap Z Z) (waiter : Z) (visited : gset Z)
    (cycle : list Z) (current : Z) : res (option (list Z)) :=
  match fuel with
  | O => Hang
  | S fuel =>
      match es !! current with
      | Some next =>
          if next =? waiter then Ok (Some (cycle ++ [waiter]))
          else if bool_decide (next ∈ visited) then Ok None
          else detect_loop fuel es waiter ({[next]} ∪ visited) (cycle ++ [next]) next
      | None => Ok None
      end
  end.
Definition detect_deadlock (waiter holder : Z) (g : WaitForGraph) : res (option (list Z)) :=
  if waiter =? holder then Ok (Some [waiter; holder])
  else detect_loop (S (size (dom (edges g)))) (edges g) waiter
         ({[holder]} ∪ {[waiter]}) [waiter; holder] holder.
Definition edge_count (g : WaitForGraph) : Z := Z.of_nat (size (edges g)).
Definition edge_list (g : WaitForGraph) : list (Z * Z) := map_to_list (edges g).

(** ** Timeouts *)

(** Instants and durations are nanosecond counts; [now] is the clock reading. *)
Record TransactionTimeoutManager := mkTTM {
  start_times : gmap Z Z; default_timeout : Z; timeouts : gmap Z Z
}.
Definition TTM_new (default : Z) : TransactionTimeoutManager := mkTTM ∅ default ∅.
Definition TTM_default : TransactionTimeoutManager := TTM_new (30 * 1000000000).
Definition tt_begin (now txn_id : Z) (m : TransactionTimeoutManager) : TransactionTimeoutManager :=
  mkTTM (<[txn_id := now]> (start_times m)) (default_timeout m) (timeouts m).
Definition set_timeout (txn_id timeout : Z) (m : TransactionTimeoutManager) : TransactionTimeoutManager :=
  mkTTM (start_times m) (default_timeout m) (<[txn_id := timeout]> (timeouts m)).
Definition tt_end (txn_id : Z) (m : TransactionTimeoutManager) : TransactionTimeoutManager :=
  mkTTM (delete txn_id (start_times m)) (default_timeout m) (delete txn_id (timeouts m)).
Definition timeout_for (txn_id : Z) (m : TransactionTimeoutManager) : Z :=
  default (default_timeout m) (timeouts m !! txn_id).
(** [Instant::elapsed] saturates at zero. *)
Definition elapsed_since (now start : Z) : Z := Z.max 0 (now - start).
Definition is_timed_out (now txn_id : Z) (m : TransactionTimeoutManager) : bool :=
  match start_times m !! txn_id with
  | Some start => timeout_for txn_id m <=? elapsed_since now start
  | None => false
  end.
Definition elapsed (now txn_id : Z) (m : TransactionTimeoutManager) : option Z :=
  elapsed_since now <$> start_times m !! txn_id.
Definition timed_out_transactions (now : Z) (m : TransactionTimeoutManager) : list Z :=
  filter (λ t, is_timed_out now t m = true) (map_to_list (start_times m)).*1.
Definition set_default_timeout (timeout : Z) (m : TransactionTimeoutManager) : TransactionTimeoutManager :=
  mkTTM (start_times m) timeout (timeouts m).
Definition tracked_count (m : TransactionTimeoutManager) : Z := Z.of_nat (size (start_times m)).

(** ** Lemmas: row locks *)

Lemma foldl_delete_lookup {V} (keys : list RowLockKey) (m : gmap RowLockKey V) k :
  foldl (λ l key, delete key l) m keys !! k = if bool_decide (k ∈ keys) then None else m !! k.
Proof.
  revert m. induction keys as [|x keys IH]; intros m; cbn [foldl].
  { by rewrite bool_decide_eq_false_2 by set_solver. }
  rewrite IH, lookup_delete. repeat case_bool_decide; repeat case_decide; set_solver.
Qed.
Lemma foldl_insert_lookup {V} (keys : list RowLockKey) (v : V) (m : gmap RowLockKey V) k :
  foldl (λ l key, <[key := v]> l) m keys !! k = if bool_decide (k ∈ keys) then Some v else m !! k.
Proof.
  revert m. induction keys as [|x keys IH]; intros m; cbn [foldl].
  { by rewrite bool_decide_eq_false_2 by set_solver. }
  rewrite IH, lookup_insert. repeat case_bool_decide; repeat case_decide; set_solver.
Qed.

Inductive row_op : Type :=
  | LockRow (table : string) (rowid txn : Z)
  | ReadRow (table : string) (rowid txn : Z)
  | ReleaseAll (txn : Z)
  | CommitVersion (txn : Z)
  | GcVersions (min_txn : Z).
Definition row_step (m : RowLockManager) (op : row_op) : RowLockManager :=
  match op with
  | LockRow table rowid t => (try_lock_row table rowid t m).2
  | ReadRow table rowid t => record_read table rowid t m
  | ReleaseAll t => release_all t m
  | CommitVersion t => commit_version t m
  | GcVersions n => gc_versions n m
  end.
Definition row_run (ops : list row_op) : RowLockManager := foldl row_step RLM_new ops.

(** The rows the per-transaction list says a transaction has locked. *)
Definition locked_by (m : RowLockManager) (t : Z) : list RowLockKey := default [] (txn_locks m !! t).

(** The lock table and the per-transaction lists say the same. *)
Definition locks_agree (m : RowLockManager) : Prop :=
  (∀ k t, locks m !! k = Some t ↔ k ∈ locked_by m t) ∧
  ∀ t, NoDup (locked_by m t).

Lemma release_all_locks t m k :
  locks_agree m →
  locks (release_all t m) !! k =
    match locks m !! k with Some t' => if t' =? t then None else Some t' | None => None end.
Proof.
  intros [Hag _]. unfold release_all. pose proof (Hag k t) as Hk. unfold locked_by in Hk.
  destruct (txn_locks m !! t) as [ks|]; simpl in *.
  - rewrite foldl_delete_lookup. destruct (locks m !! k) as [t'|]; case_bool_decide; try done.
    + destruct (Z.eqb_spec t' t); [done|]. naive_solver.
    + destruct (Z.eqb_spec t' t); naive_solver.
  - destruct (locks m !! k) as [t'|]; [|done]. destruct (Z.eqb_spec t' t); [|done].
    subst. exfalso. set_solver.
Qed.
Lemma release_all_lists t m t' :
  locked_by (release_all t m) t' = if t' =? t then [] else locked_by m t'.
Proof.
  unfold release_all, locked_by. destruct (txn_locks m !! t) eqn:E; simpl.
  - rewrite lookup_delete. destruct (Z.eqb_spec t' t) as [->|]; [by rewrite decide_True|by rewrite decide_False].
  - destruct (Z.eqb_spec t' t); [by subst; rewrite E|done].
Qed.

Lemma row_run_agree ops : locks_agree (row_run ops).
Proof.
  unfold row_run. induction ops as [|op ops IH] using rev_ind.
  { split; intros; unfold locked_by; simpl; rewrite !lookup_empty; [set_solver|constructor]. }
  rewrite foldl_app. simpl. destruct op as [table rowid t|table rowid t|t|t|n]; simpl; try exact IH.
  - destruct IH as [Ha Hn]. unfold try_lock_row. set (key := row_key table rowid).
    destruct (locks _ !! key) as [h|] eqn:E; [by case_match|].
    set (m := foldl row_step RLM_new ops) in *. simpl.
    assert (∀ t', locked_by (mkRLM (<[key := t]> (locks m)) (<[t := locked_by m t ++ [key]]> (txn_locks m))
      (read_sets m) (committed_versions m)) t' = if t' =? t then locked_by m t ++ [key] else locked_by m t') as HL.
    { intros t'. unfold locked_by. simpl. rewrite lookup_insert.
      destruct (Z.eqb_spec t' t) as [->|]; [by rewrite decide_True|by rewrite decide_False]. }
    fold (locked_by m t). split.
    + intros k t'. rewrite HL. simpl. rewrite lookup_insert.
      assert (key ∉ locked_by m t') by (by rewrite <- Ha, E).
      destruct (Z.eqb_spec t' t); case_decide; subst; rewrite ?elem_of_app, ?list_elem_of_singleton, <- ?Ha; naive_solver.
    + intros t'. rewrite HL. destruct (t' =? t); [|apply Hn]. apply NoDup_app. split_and!; [apply Hn| |apply NoDup_singleton].
      intros k Hk ->%list_elem_of_singleton. apply Ha in Hk. congruence.
  - split.
    + intros k t'. rewrite release_all_locks, release_all_lists by done. destruct IH as [Ha Hn].
      pose proof (Ha k t'). destruct (Z.eqb_spec t' t); destruct (locks _ !! k) as [h|]; try destruct (Z.eqb_spec h t); set_solver.
    + intros t'. rewrite release_all_lists. destruct (t' =? t); [constructor|apply IH].
  - unfold commit_version. destruct (txn_locks _ !! t); [|done]. exact IH.
Qed.

(** Validation looks at the committed versions of the rows read only. *)
Lemma validate_reads_ok t snap versions reads :
  validate_reads t snap versions reads = Ok () ↔
  ∀ k v, k ∈ reads → versions !! k = Some v → v ≤ snap ∨ v = t.
Proof.
  induction reads as [|k reads IH]; simpl; [set_solver|].
  destruct (versions !! k) as [v|] eqn:E.
  - destruct (Z.ltb_spec snap v), (Z.eqb_spec v t); simpl; rewrite ?IH.
    + subst. split; [|set_solver]. intros H1 k' v' [->|?]%elem_of_cons ?; simplify_eq; eauto.
    + split; [done|]. intros H1. destruct (H1 k v); [set_solver|done|lia|done].
    + split; [|set_solver]. intros H1 k' v' [->|?]%elem_of_cons ?; simplify_eq; eauto.
    + split; [|set_solver]. intros H1 k' v' [->|?]%elem_of_cons ?; simplify_eq; eauto.
  - rewrite IH. split; [|set_solver]. intros H1 k' v' [->|?]%elem_of_cons ?; simplify_eq; eauto.
Qed.
Lemma validate_reads_cases t snap versions reads :
  validate_reads t snap versions reads = Ok () ∨
  validate_reads t snap versions reads = Err (Internal "Serialization failure").
Proof.
  induction reads as [|k reads IH]; simpl; [by left|].
  destruct (versions !! k); [|done]. destruct (_ && _); auto.
Qed.

(** ** Lemmas: wait-for graph *)

Definition edge (es : gmap Z Z) (a b : Z) : Prop := es !! a = Some b.
(** Consecutive elements are joined by edges. *)
Definition is_path (es : gmap Z Z) (l : list Z) : Prop :=
  ∀ i a b, l !! i = Some a → l !! S i = Some b → edge es a b.

Lemma is_path_snoc es l a b :
  is_path es (l ++ [a]) → edge es a b → is_path es ((l ++ [a]) ++ [b]).
Proof.
  intros Hp Hab i x y Hx Hy. apply lookup_app_Some in Hy as [Hy|[Hlen Hy]].
  - apply (Hp i); [|done]. rewrite lookup_app_l in Hx; [done|]. apply lookup_lt_Some in Hy. lia.
  - rewrite length_app in *. simpl in *. destruct (S i - (length l + 1))%nat as [|n] eqn:E; [|done].
    simpl in Hy. simplify_eq. assert (i = length l) as -> by lia.
    rewrite lookup_app_l in Hx by (rewrite length_app; simpl; lia).
    rewrite lookup_app_r, Nat.sub_diag in Hx by lia. simpl in Hx. by simplify_eq.
Qed.

(** A set the edges do not leave keeps everything reachable from it. *)
Lemma rtc_closed (R : Z → Z → Prop) (X : gset Z) a b :
  (∀ x y, x ∈ X → R x y → y ∈ X) → rtc R a b → a ∈ X → b ∈ X.
Proof. intros HX. induction 1; eauto. Qed.

Section Detect.
Variables (es : gmap Z Z) (waiter holder : Z).
Hypothesis Hwh : waiter ≠ holder.
Let es' := <[waiter := holder]> es.

(** The state of the search: the walk from the waiter is a path of distinct
    visited nodes, and every node before the current one leads to a visited
    node other than the waiter. *)
Record search_inv (visited : gset Z) (cycle : list Z) (current : Z) : Prop := {
  si_path : is_path es' cycle;
  si_last : ∃ l, cycle = waiter :: l ++ [current];
  si_current : current ∈ visited ∧ current ≠ waiter;
  si_start : holder ∈ visited ∧ waiter ∈ visited;
  si_closed : ∀ x, x ∈ visited → x ≠ waiter → x ≠ current →
    ∃ y, edge es x y ∧ y ∈ visited ∧ y ≠ waiter
}.
Lemma search_inv_init : search_inv ({[holder]} ∪ {[waiter]}) [waiter; holder] holder.
Proof.
  split; [|by exists []|set_solver..].
  intros [|[|i]] a b Ha Hb; simpl in *; simplify_eq. apply lookup_insert_eq.
Qed.
Lemma search_inv_next visited cycle current next :
  search_inv visited cycle current → edge es current next → next ≠ waiter → next ∉ visited →
  search_inv ({[next]} ∪ visited) (cycle ++ [next]) next.
Proof.
  intros [Hp [l ->] [Hc Hcw] [Hs Hw] Hcl] He Hn Hv. split.
  - rewrite app_comm_cons in *. apply is_path_snoc; [done|]. unfold edge, es'.
    by rewrite lookup_insert_ne.
  - exists (l ++ [current]). simpl. by rewrite <- app_assoc.
  - set_solver.
  - set_solver.
  - intros x Hx Hxw Hxn. destruct (decide (x = current)) as [->|].
    + exists next. set_solver.
    + destruct (Hcl x) as (y & ? & ? & ?); set_solver.
Qed.
Lemma search_inv_closed visited cycle current :
  search_inv visited cycle current →
  (es !! current = None ∨ ∃ y, edge es current y ∧ y ∈ visited ∧ y ≠ waiter) →
  ¬ rtc (edge es') holder waiter.
Proof.
  intros [_ _ [Hc Hcw] [Hs Hw] Hcl] Hend Hr.
  assert (waiter ∈ visited ∖ {[waiter]}); [|set_solver].
  eapply rtc_closed; [|exact Hr|set_solver].
  intros x y Hx Hy. unfold edge, es' in Hy. rewrite lookup_insert_ne in Hy by set_solver.
  destruct (decide (x = current)) as [->|].
  - destruct Hend as [Hn|(z & Hz & ? & ?)]; [congruence|].
    unfold edge in *. simplify_eq. set_solver.
  - destruct (Hcl x) as (z & Hz & ? & ?); [set_solver..|]. unfold edge in *. simplify_eq. set_solver.
Qed.

Lemma detect_loop_correct fuel visited cycle current :
  search_inv visited cycle current →
  (size (dom es ∖ (visited ∖ {[current]})) < fuel)%nat →
  match detect_loop fuel es waiter visited cycle current with
  | Ok (Some c) => is_path es' c ∧ ∃ l, c = waiter :: l ++ [waiter]
  | Ok None => ¬ rtc (edge es') holder waiter
  | _ => False
  end.
Proof.
  revert visited cycle current.
  induction fuel as [|fuel IH]; intros visited cycle current Hinv Hf; [lia|]. simpl.
  destruct (es !! current) as [next|] eqn:E.
  2: { eapply search_inv_closed; eauto. }
  destruct (Z.eqb_spec next waiter) as [->|Hn].
  { destruct Hinv as [Hp [l ->] [Hc Hcw] _ _]. split.
    - rewrite app_comm_cons in *. apply is_path_snoc; [done|]. unfold edge, es'. by rewrite lookup_insert_ne.
    - exists (l ++ [current]). simpl. by rewrite <- app_assoc. }
  case_bool_decide as Hv.
  { eapply search_inv_closed; [exact Hinv|]. right. eauto. }
  apply IH; [by apply (search_inv_next _ _ current)|].
  apply Nat.lt_le_trans with (size (dom es ∖ (visited ∖ {[current]}))); [|lia].
  apply subset_size. apply elem_of_dom_2 in E. destruct (si_current _ _ _ Hinv).
  split; [set_solver|]. intros Hsub. specialize (Hsub current). set_solver.
Qed.
End Detect.

Lemma tc_first (R : Z → Z → Prop) x z : tc R x z → ∃ y, R x y ∧ rtc R y z.
Proof. destruct 1; eauto using rtc_refl, tc_rtc. Qed.
Lemma cycle_iff es waiter holder :
  tc (edge (<[waiter := holder]> es)) waiter waiter ↔ rtc (edge (<[waiter := holder]> es)) holder waiter.
Proof.
  split.
  - intros (y & Hy & Hr)%tc_first. unfold edge in Hy. rewrite lookup_insert_eq in Hy. by simplify_eq.
  - intros H. eapply tc_rtc_r; [|exact H]. apply tc_once. unfold edge. apply lookup_insert_eq.
Qed.

(** A list of nodes that starts and ends at [w] along edges is a cycle. *)
Lemma is_path_rtc es l a b : is_path es (a :: l ++ [b]) → tc (edge es) a b.
Proof.
  revert a. induction l as [|x l IH]; intros a Hp; simpl in *.
  - apply tc_once. apply (Hp 0%nat); done.
  - apply tc_l with x; [apply (Hp 0%nat); done|]. apply IH. intros i u v Hu Hv. by apply (Hp (S i)).
Qed.

(** ** Properties *)

(** In every run of lock requests, reads, commits, releases and version
    collections, a row has at most one holder and the per-transaction lists
    agree with the lock table; a request is granted exactly when no other
    transaction holds the row, whereupon the requester holds it and no other
    row changes hands, and a refused request changes nothing. *)
Theorem try_lock_row_correct (ops : list row_op) (table : string) (rowid t : Z) :
  let m := row_run ops in
  let key := row_key table rowid in
  (∀ k t1, locks m !! k = Some t1 ↔ k ∈ locked_by m t1) ∧
  match try_lock_row table rowid t m with
  | (Ok _, m') =>
      (∀ h, locks m !! key = Some h → h = t) ∧
      locks m' = <[key := t]> (locks m) ∧ locks_agree m'
  | (_, m') => (∃ h, locks m !! key = Some h ∧ h ≠ t) ∧ m' = m
  end.
Proof.
  intros m key. pose proof (row_run_agree ops) as Hag. fold m in Hag.
  split; [apply Hag|].
  pose proof (row_run_agree (ops ++ [LockRow table rowid t])) as Hag'.
  unfold row_run in Hag'. rewrite foldl_app in Hag'. cbn [foldl row_step] in Hag'.
  fold (row_run ops) in Hag'. fold m in Hag'.
  unfold try_lock_row in *. fold key in Hag' |- *.
  destruct (locks m !! key) as [h|] eqn:E.
  - destruct (Z.eqb_spec h t) as [->|]; [|eauto].
    split_and!; [naive_solver| |done]. by rewrite insert_id.
  - simpl. split_and!; [done..|exact Hag'].
Qed.

(** At commit, [commit_version] followed by [release_all], in every
    run: every row the transaction had locked gets its identifier as
    committed version, every other version is kept; its locks and its read
    set are gone and every lock of another transaction is kept. *)
Theorem commit_release_correct (ops : list row_op) (t : Z) (k : RowLockKey) :
  let m := row_run ops in
  let m' := release_all t (commit_version t m) in
  committed_versions m' !! k =
    (if bool_decide (locks m !! k = Some t) then Some t else committed_versions m !! k) ∧
  locks m' !! k = (if bool_decide (locks m !! k = Some t) then None else locks m !! k) ∧
  read_sets m' = delete t (read_sets m) ∧ locked_by m' t = [] ∧ locks_agree m'.
Proof.
  intros m m'.
  pose proof (row_run_agree ops) as Hag. fold m in Hag.
  pose proof (row_run_agree (ops ++ [CommitVersion t; ReleaseAll t])) as Hag'.
  unfold row_run in Hag'. rewrite foldl_app in Hag'. cbn [foldl row_step] in Hag'.
  fold (row_run ops) in Hag'. fold m m' in Hag'.
  assert (locks_agree (commit_version t m)) as Hc.
  { unfold commit_version. by destruct (txn_locks m !! t). }
  assert (locks (commit_version t m) = locks m) as Hl.
  { unfold commit_version. by destruct (txn_locks m !! t). }
  split_and!; [| | | |done].
  - destruct Hag as [Ha _]. specialize (Ha k t). unfold locked_by in Ha. subst m'.
    unfold release_all, commit_version.
    destruct (txn_locks m !! t) as [ks|] eqn:E; simpl; rewrite E; simpl in *.
    + rewrite foldl_insert_lookup. repeat case_bool_decide; naive_solver.
    + case_bool_decide; [set_solver|done].
  - subst m'. rewrite release_all_locks, Hl by done.
    destruct (locks m !! k) as [h|]; [|by case_bool_decide].
    destruct (Z.eqb_spec h t); case_bool_decide; naive_solver.
  - subst m'. unfold release_all, commit_version.
    destruct (txn_locks m !! t) as [ks|] eqn:E; simpl; by rewrite E.
  - subst m'. rewrite release_all_lists. by rewrite Z.eqb_refl.
Qed.

(** Read-set validation succeeds exactly when every row the transaction
    read has no committed version newer than the snapshot, other than its
    own, and otherwise reports a serialization failure; collecting versions
    below a bound that is at most one above the snapshot does not change the
    verdict. *)
Theorem validate_read_set_correct (t snap min_txn : Z) (m : RowLockManager) :
  min_txn ≤ snap + 1 →
  (validate_read_set t snap m = Ok () ↔
    ∀ k v, k ∈ default [] (read_sets m !! t) → committed_versions m !! k = Some v → v ≤ snap ∨ v = t) ∧
  (validate_read_set t snap m ≠ Ok () →
    validate_read_set t snap m = Err (Internal "Serialization failure")) ∧
  validate_read_set t snap (gc_versions min_txn m) = validate_read_set t snap m.
Proof.
  intros Hmin. unfold validate_read_set. simpl.
  destruct (read_sets m !! t) as [reads|]; simpl; [|split_and!; [set_solver|done..]].
  split_and!; [apply validate_reads_ok|destruct (validate_reads_cases t snap (committed_versions m) reads); naive_solver|].
  assert (∀ k, filter (λ kv : RowLockKey * Z, min_txn ≤ kv.2) (committed_versions m) !! k =
    match committed_versions m !! k with Some v => if decide (min_txn ≤ v) then Some v else None | None => None end) as Hf.
  { intros k. rewrite map_lookup_filter. destruct (committed_versions m !! k); simpl; [|done].
    by destruct (decide (min_txn ≤ z)); [rewrite option_guard_True|rewrite option_guard_False]. }
  induction reads as [|k reads IH]; simpl; [done|]. rewrite Hf.
  destruct (committed_versions m !! k) as [v|]; [|done]. case_decide; [by rewrite IH|].
  rewrite (proj2 (Z.ltb_ge snap v)) by lia. done.
Qed.
Lemma validate_read_set_correct_witness :
  validate_read_set 7 5 (gc_versions 6 (mkRLM ∅ ∅ {[7 := [("t"%string, 1)]]} {[("t"%string, 1) := 6]}))
  = Err (Internal "Serialization failure").
Proof.
  destruct (validate_read_set_correct 7 5 6 (mkRLM ∅ ∅ {[7 := [("t"%string, 1)]]} {[("t"%string, 1) := 6]}))
    as (_ & _ & ->); [lia|]. vm_compute. reflexivity.
Defined.

(** Versions are compared by transaction identifier, not by commit
    order: a transaction that was active when the reader took its snapshot
    and commits afterwards with a smaller identifier than one already
    committed is not detected by the reader's validation. *)
Theorem validation_misses_late_commit :
  let reader := 9 in let writer := 3 in let snap_max_committed := 5 in
  let m := row_run [ReadRow "t" 1 reader; LockRow "t" 1 writer; CommitVersion writer; ReleaseAll writer] in
  locks (row_run [ReadRow "t" 1 reader; LockRow "t" 1 writer]) !! row_key "t" 1 = Some writer ∧
  committed_versions m !! row_key "t" 1 = Some writer ∧
  row_key "t" 1 ∈ default [] (read_sets m !! reader) ∧
  validate_read_set reader snap_max_committed m = Ok ().
Proof. cbv zeta. split_and!; try by vm_compute. vm_compute. by left. Qed.

(** [C15] Deadlock detection always returns; it reports a deadlock exactly
    when the graph with the new edge has a cycle through the waiter, and the
    list it returns is such a cycle: it starts and ends at the waiter and
    consecutive transactions wait for one another. *)
Theorem detect_deadlock_correct (waiter holder : Z) (g : WaitForGraph) :
  let es := edges (add_wait waiter holder g) in
  match detect_deadlock waiter holder g with
  | Ok (Some c) => is_path es c ∧ (∃ l, c = waiter :: l ++ [waiter]) ∧ tc (edge es) waiter waiter
  | Ok None => ¬ tc (edge es) waiter waiter
  | _ => False
  end.
Proof.
  unfold detect_deadlock, add_wait. cbn [edges]. destruct (Z.eqb_spec waiter holder) as [->|Hne].
  { split_and!; [|by exists []|apply tc_once, lookup_insert_eq].
    cbv zeta. intros [|[|i]] a b Ha Hb; simpl in *; simplify_eq. apply lookup_insert_eq. }
  pose proof (detect_loop_correct (edges g) waiter holder Hne (S (size (dom (edges g))))
    ({[holder]} ∪ {[waiter]}) [waiter; holder] holder (search_inv_init _ _ _ Hne)) as H.
  assert (size (dom (edges g) ∖ (({[holder]} ∪ {[waiter]}) ∖ {[holder]})) < S (size (dom (edges g))))%nat as Hsz.
  { apply Nat.lt_succ_r, subseteq_size. set_solver. }
  specialize (H Hsz). destruct (detect_loop _ _ _ _ _ _) as [[c|]| | |]; [|by intros ?%cycle_iff|done..].
  destruct H as [Hp [l ->]]. eauto using is_path_rtc.
Qed.
