(* ===== verification/Bloom.v ===== *)
(** The Bloom filter (src/src/storage/bloom.rs): the bit vector and its FNV-1a
    double hashing, insertion, lookup, merging and the byte format.  The
    sizing formula [for_capacity] and the two floating-point estimates are not
    modelled. *)
From S2P Require Import Prelude.

Record BloomFilter := mkBloom { bits : bytes; num_hashes : Z; count : Z }.

(** [u64] addition as the checked build profile does it. *)
Definition add_u64 (x y : Z) : res Z := if x + y <=? U64_MAX then Ok (x + y) else Panic.

(** [BloomFilter::new] asserts that both arguments are positive. *)
Definition Bloom_new (size_bytes nh : Z) : res BloomFilter :=
  if (0 <? size_bytes) && (0 <? nh)
  then Ok (mkBloom (replicate (Z.to_nat size_bytes) 0) (Z.min nh 16) 0) else Panic.

Definition FNV_PRIME : Z := 0x100000001b3.
Definition fnv1a (seed : Z) (key : bytes) : Z :=
  foldl (λ h b, wrapping_mul_u64 (Z.lxor h b) FNV_PRIME) seed key.
Definition hash_pair (key : bytes) : Z * Z :=
  (fnv1a 0xcbf29ce484222325 key, fnv1a 0x6c62272e07bb0142 key).

(** The bit index of the [i]th hash function; [num_bits] is zero for an empty
    bit vector, and the remainder by zero panics. *)
Definition bit_index (h : Z * Z) (num_bits i : Z) : res Z :=
  if num_bits =? 0 then Panic
  else Ok (wrapping_add_u64 h.1 (wrapping_mul_u64 h.2 i) mod num_bits).

Definition set_bit (bs : bytes) (bit_idx : Z) : res bytes :=
  b ← index bs (bit_idx / 8);
  set_index bs (bit_idx / 8) (Z.lor b (Z.shiftl 1 (bit_idx mod 8))).
Definition test_bit (bs : bytes) (bit_idx : Z) : res bool :=
  b ← index bs (bit_idx / 8);
  Ok (negb (Z.land b (Z.shiftl 1 (bit_idx mod 8)) =? 0)).

Fixpoint set_bits (h : Z * Z) (num_bits : Z) (ixs : list Z) (bs : bytes) : res bytes :=
  match ixs with
  | [] => Ok bs
  | i :: ixs' => idx ← bit_index h num_bits i; bs' ← set_bit bs idx; set_bits h num_bits ixs' bs'
  end.
Fixpoint test_bits (h : Z * Z) (num_bits : Z) (ixs : list Z) (bs : bytes) : res bool :=
  match ixs with
  | [] => Ok true
  | i :: ixs' =>
      idx ← bit_index h num_bits i;
      b ← test_bit bs idx;
      if b : bool then test_bits h num_bits ixs' bs else Ok false
  end.

Definition insert (key : bytes) (bf : BloomFilter) : res BloomFilter :=
  bs ← set_bits (hash_pair key) (zlen (bits bf) * 8) (seqZ 0 (num_hashes bf)) (bits bf);
  c ← add_u64 (count bf) 1;
  Ok (mkBloom bs (num_hashes bf) c).
Definition may_contain (key : bytes) (bf : BloomFilter) : res bool :=
  test_bits (hash_pair key) (zlen (bits bf) * 8) (seqZ 0 (num_hashes bf)) (bits bf).
Definition item_count (bf : BloomFilter) : Z := count bf.
Definition size_bytes (bf : BloomFilter) : Z := zlen (bits bf).
Definition clear (bf : BloomFilter) : BloomFilter :=
  mkBloom (replicate (length (bits bf)) 0) (num_hashes bf) 0.
(** The filter that receives the bits and whether the merge was done. *)
Definition merge (other bf : BloomFilter) : res (bool * BloomFilter) :=
  if negb (zlen (bits bf) =? zlen (bits other)) || negb (num_hashes bf =? num_hashes other)
  then Ok (false, bf)
  else
    c ← add_u64 (count bf) (count other);
    Ok (true, mkBloom (zip_with Z.lor (bits bf) (bits other)) (num_hashes bf) c).
Definition to_bytes (bf : BloomFilter) : bytes :=
  le_bytes 4 (as_u32 (zlen (bits bf))) ++ le_bytes 4 (num_hashes bf)
    ++ le_bytes 4 (as_u32 (count bf)) ++ bits bf.
(** The slices are within the length checked first, so they never panic. *)
Definition from_bytes (data : bytes) : res (option BloomFilter) :=
  if zlen data <? 12 then Ok None
  else
    size ← read_u32 data 0;
    nh ← read_u32 data 4;
    c ← read_u32 data 8;
    if zlen data <? 12 + size then Ok None
    else bs ← slice data 12 (12 + size); Ok (Some (mkBloom bs nh c)).

(** ** Bits *)

Definition bit_set (bs : bytes) (k : Z) : bool := Z.testbit (default 0 (bs !! Z.to_nat (k / 8))) (k mod 8).

Definition bloom_ok (bf : BloomFilter) : Prop :=
  bits bf ≠ [] ∧ bytes_ok (bits bf) ∧ is_u32 (num_hashes bf) ∧ is_u64 (count bf).

Lemma land_bit b k : 0 ≤ k → negb (Z.land b (Z.shiftl 1 k) =? 0) = Z.testbit b k.
Proof.
  intros Hk. rewrite Z.shiftl_1_l.
  destruct (Z.testbit b k) eqn:E.
  - apply negb_true_iff, Z.eqb_neq. intros H.
    apply (f_equal (λ z, Z.testbit z k)) in H.
    by rewrite Z.land_spec, E, Z.pow2_bits_true, Z.bits_0 in H by lia.
  - apply negb_false_iff, Z.eqb_eq, Z.bits_inj'. intros n Hn.
    rewrite Z.land_spec, Z.bits_0, Z.pow2_bits_eqb by lia.
    destruct (Z.eqb_spec k n) as [->|]; [by rewrite E|apply andb_false_r].
Qed.

Lemma byte_at (bs : bytes) k : 0 ≤ k < zlen bs * 8 → ∃ b, bs !! Z.to_nat (k / 8) = Some b.
Proof.
  intros Hk. apply lookup_lt_is_Some. unfold zlen in Hk.
  apply Nat2Z.inj_lt. rewrite Z2Nat.id by (apply Z.div_pos; lia). div_lia.
Qed.

Lemma test_bit_Ok bs k : 0 ≤ k < zlen bs * 8 → test_bit bs k = Ok (bit_set bs k).
Proof.
  intros Hk. destruct (byte_at bs k Hk) as [b Hb]. unfold test_bit, bit_set.
  rewrite (index_Ok _ _ b) by (try apply Z.div_pos; done || lia).
  cbn. rewrite Hb, land_bit by (apply Z.mod_pos_bound; lia). done.
Qed.

Lemma set_bit_Ok bs k : 0 ≤ k < zlen bs * 8 →
  ∃ bs', set_bit bs k = Ok bs' ∧ zlen bs' = zlen bs
    ∧ ∀ j, 0 ≤ j < zlen bs * 8 → bit_set bs' j = bit_set bs j || (j =? k).
Proof.
  intros Hk. destruct (byte_at bs k Hk) as [b Hb]. unfold set_bit.
  assert (0 ≤ k / 8) as Hq by (apply Z.div_pos; lia).
  pose proof (lookup_lt_Some _ _ _ Hb) as Hlt.
  rewrite (index_Ok _ _ b) by done. cbn. unfold set_index.
  replace ((0 <=? k / 8) && (k / 8 <? zlen bs)) with true
    by (symmetry; apply andb_true_intro; split; [apply Z.leb_le; lia | apply Z.ltb_lt; div_lia]).
  assert (splice bs (k / 8) [Z.lor b (Z.shiftl 1 (k mod 8))]
          = <[Z.to_nat (k / 8) := Z.lor b (Z.shiftl 1 (k mod 8))]> bs) as ->.
  { unfold splice. simpl length. rewrite insert_take_drop by done. simpl. f_equal. f_equal. f_equal. lia. }
  eexists. split; [done|]. split; [unfold zlen; by rewrite length_insert|].
  intros j Hj. unfold bit_set.
  destruct (decide (j / 8 = k / 8)) as [E|E].
  - rewrite E, list_lookup_insert_eq, Hb by done. simpl.
    rewrite Z.lor_spec, Z.shiftl_1_l, Z.pow2_bits_eqb by (apply Z.mod_pos_bound; lia).
    f_equal. destruct (Z.eqb_spec (k mod 8) (j mod 8)), (Z.eqb_spec j k); try done; subst; div_lia.
  - rewrite list_lookup_insert_ne by (assert (0 ≤ j / 8) by (apply Z.div_pos; lia); lia).
    destruct (Z.eqb_spec j k) as [->|]; [done|]. by rewrite orb_false_r.
Qed.

(** The bit of the [i]th hash function among [n] bits. *)
Definition bit_pos (key : bytes) (n i : Z) : Z :=
  wrapping_add_u64 (hash_pair key).1 (wrapping_mul_u64 (hash_pair key).2 i) mod n.

(** The bit positions a key occupies. *)
Definition positions (key : bytes) (bf : BloomFilter) : list Z :=
  map (bit_pos key (zlen (bits bf) * 8)) (seqZ 0 (num_hashes bf)).

Section hashing.
Context (key : bytes) (n : Z) (Hn : 0 < n).

Lemma bit_index_Ok i : bit_index (hash_pair key) n i = Ok (bit_pos key n i).
Proof using Hn. unfold bit_index. destruct (Z.eqb_spec n 0); [lia|done]. Qed.
Lemma pos_range i : 0 ≤ bit_pos key n i < n.
Proof using Hn. apply Z.mod_pos_bound. done. Qed.

Lemma test_bits_Ok ixs bs : zlen bs * 8 = n →
  test_bits (hash_pair key) n ixs bs = Ok (forallb (bit_set bs) (map (bit_pos key n) ixs)).
Proof using Hn.
  intros Hb. induction ixs as [|i ixs IH]; [done|].
  cbn [test_bits map forallb]. rewrite bit_index_Ok. cbn.
  rewrite test_bit_Ok by (rewrite Hb; apply pos_range). cbn.
  destruct (bit_set bs (bit_pos key n i)); [apply IH | done].
Qed.

Lemma set_bits_Ok ixs bs : zlen bs * 8 = n →
  ∃ bs', set_bits (hash_pair key) n ixs bs = Ok bs' ∧ zlen bs' = zlen bs
    ∧ ∀ j, 0 ≤ j < n → bit_set bs' j = bit_set bs j || bool_decide (j ∈ map (bit_pos key n) ixs).
Proof using Hn.
  revert bs. induction ixs as [|i ixs IH]; intros bs Hb; cbn [set_bits map].
  { exists bs. split_and!; try done. intros. rewrite bool_decide_eq_false_2 by apply not_elem_of_nil.
    by rewrite orb_false_r. }
  rewrite bit_index_Ok. cbn.
  destruct (set_bit_Ok bs (bit_pos key n i)) as (b1 & -> & Hl & Hs); [rewrite Hb; apply pos_range|]. cbn.
  destruct (IH b1) as (b2 & -> & Hl2 & Hs2); [lia|].
  exists b2. split_and!; [done|lia|]. intros j Hj.
  rewrite Hs2, Hs, <- orb_assoc by lia. f_equal.
  destruct (Z.eqb_spec j (bit_pos key n i)) as [E|E]; cbn; symmetry.
  - apply bool_decide_eq_true_2. rewrite E. apply list_elem_of_here.
  - apply bool_decide_ext. rewrite elem_of_cons. naive_solver.
Qed.
End hashing.

Lemma num_bits_pos bf : bloom_ok bf → 0 < zlen (bits bf) * 8.
Proof. intros [H _]. destruct (bits bf); [done|]. rewrite zlen_cons. pose proof (zlen_nonneg l). lia. Qed.

Lemma may_contain_Ok key bf : bloom_ok bf →
  may_contain key bf = Ok (forallb (bit_set (bits bf)) (positions key bf)).
Proof. intros Hok. apply test_bits_Ok; [by apply num_bits_pos | done]. Qed.

Lemma zlen_set_bits h n ixs bs bs' :
  set_bits h n ixs bs = Ok bs' → bytes_ok bs → zlen bs' = zlen bs ∧ bytes_ok bs'.
Proof.
  revert bs. induction ixs as [|i ixs IH]; intros bs; cbn [set_bits].
  - intros [= ->]. done.
  - intros H Hok. apply res_bind_Ok in H as (k & Hk & H). apply res_bind_Ok in H as (b1 & Hb & H).
    unfold set_bit in Hb. apply res_bind_Ok in Hb as (b & Hi & Hb).
    unfold set_index in Hb. destruct ((0 <=? k / 8) && (k / 8 <? zlen bs)) eqn:E; [|done].
    apply andb_prop in E as [E1 E2]. apply Z.leb_le in E1. apply Z.ltb_lt in E2.
    injection Hb as <-.
    assert (is_byte b) as Hbb.
    { unfold index in Hi. destruct (0 <=? k / 8); [|done].
      destruct (bs !! Z.to_nat (k / 8)) eqn:Hl; [|done]. injection Hi as <-.
      by eapply Forall_lookup_1. }
    assert (0 ≤ k mod 8 < 8) as Hm by (apply Z.mod_pos_bound; lia).
    assert (is_byte (Z.lor b (Z.shiftl 1 (k mod 8)))) as Hlor.
    { unfold is_byte in *. rewrite Z.shiftl_1_l.
      assert (0 ≤ 2 ^ (k mod 8) < 2 ^ 8) by (split; [lia | apply Z.pow_lt_mono_r; lia]).
      split; [apply Z.lor_nonneg; lia|].
      destruct (decide (Z.lor b (2 ^ (k mod 8)) = 0)) as [->|]; [lia|].
      apply (Z.log2_lt_pow2 _ 8); [pose proof (Z.lor_nonneg b (2 ^ (k mod 8))); lia|].
      rewrite Z.log2_lor, Z.log2_pow2 by lia.
      destruct (decide (b = 0)) as [->|]; [simpl; lia|].
      assert (Z.log2 b < 8) by (apply Z.log2_lt_pow2; lia). lia. }
    apply IH in H as [-> ?]; [|apply splice_ok; [done|by constructor]].
    split; [|done]. apply length_splice; [lia|]. rewrite zlen_cons, zlen_nil. lia.
Qed.

Lemma insert_Ok key bf : bloom_ok bf → count bf < U64_MAX →
  ∃ bf', insert key bf = Ok bf' ∧ bloom_ok bf' ∧ zlen (bits bf') = zlen (bits bf)
    ∧ num_hashes bf' = num_hashes bf ∧ count bf' = count bf + 1
    ∧ ∀ j, 0 ≤ j < zlen (bits bf) * 8 →
        bit_set (bits bf') j = bit_set (bits bf) j || bool_decide (j ∈ positions key bf).
Proof.
  intros Hok Hc. pose proof (num_bits_pos bf Hok) as Hn. pose proof Hok as (Hne & Hby & Hh & Hc2).
  unfold insert.
  destruct (set_bits_Ok key _ Hn (seqZ 0 (num_hashes bf)) (bits bf) eq_refl) as (bs & E & Hl & Hs).
  rewrite E. cbn. unfold add_u64.
  destruct (Z.leb_spec (count bf + 1) U64_MAX); [|lia]. cbn.
  eexists. split; [done|]. unfold bloom_ok. cbn.
  apply zlen_set_bits in E as [_ Hb]; [|done].
  assert (bs ≠ []) by (intros ->; rewrite zlen_nil in Hl; lia).
  split_and!; try done; int_lia.
Qed.

Lemma positions_same key bf bf' :
  zlen (bits bf') = zlen (bits bf) → num_hashes bf' = num_hashes bf → positions key bf' = positions key bf.
Proof. intros Hl Hh. unfold positions. by rewrite Hl, Hh. Qed.

Lemma positions_range key bf j : bloom_ok bf → j ∈ positions key bf → 0 ≤ j < zlen (bits bf) * 8.
Proof.
  intros Hok Hj. pose proof (num_bits_pos bf Hok). apply list_elem_of_fmap in Hj as (i & -> & _).
  apply Z.mod_pos_bound. done.
Qed.

Lemma bit_set_zip (l k : bytes) j : length l = length k → 0 ≤ j →
  bit_set (zip_with Z.lor l k) j = bit_set l j || bit_set k j.
Proof.
  intros Hl Hj. unfold bit_set. rewrite lookup_zip_with.
  destruct (l !! Z.to_nat (j / 8)) as [a|] eqn:Ea; simpl.
  - assert (is_Some (k !! Z.to_nat (j / 8))) as [b ->].
    { apply lookup_lt_is_Some. rewrite <- Hl. by eapply lookup_lt_Some. }
    simpl. apply Z.lor_spec.
  - assert (k !! Z.to_nat (j / 8) = None) as ->.
    { apply lookup_ge_None. rewrite <- Hl. by apply lookup_ge_None. }
    simpl. by rewrite Z.bits_0.
Qed.

Lemma bit_set_zeros n j : bit_set (replicate n 0) j = false.
Proof.
  unfold bit_set. destruct (replicate n 0 !! _) eqn:E; [|apply Z.bits_0].
  apply lookup_replicate in E as [-> _]. apply Z.bits_0.
Qed.

(** ** The filters a program can build *)

(** [built bf keys]: the filter is the result of operations that put at least
    the keys [keys] in, from the constructor, the decoder included. *)
Inductive built : BloomFilter → list bytes → Prop :=
  | built_new n k bf : n < 2 ^ 32 → is_u32 k → Bloom_new n k = Ok bf → built bf []
  | built_insert bf keys key bf' :
      bytes_ok key → built bf keys → insert key bf = Ok bf' → built bf' (key :: keys)
  | built_clear bf keys : built bf keys → built (clear bf) []
  | built_merge bf keys other keys' bf' :
      built bf keys → built other keys' → merge other bf = Ok (true, bf') → built bf' (keys ++ keys')
  | built_merge_refused bf keys other keys' bf' :
      built bf keys → built other keys' → merge other bf = Ok (false, bf') → built bf' keys
  | built_load bf keys bf' :
      built bf keys → from_bytes (to_bytes bf) = Ok (Some bf') → built bf' keys.

Lemma from_to_bytes bf : bloom_ok bf → is_u32 (zlen (bits bf)) →
  from_bytes (to_bytes bf) = Ok (Some (mkBloom (bits bf) (num_hashes bf) (as_u32 (count bf)))).
Proof.
  intros (Hne & Hb & Hh & Hc) Hl. unfold from_bytes, to_bytes.
  set (a := le_bytes 4 (as_u32 (zlen (bits bf)))). set (b := le_bytes 4 (num_hashes bf)).
  set (c := le_bytes 4 (as_u32 (count bf))).
  assert (zlen a = 4 ∧ zlen b = 4 ∧ zlen c = 4) as (Ha & Hb4 & Hc4)
    by (unfold a, b, c; by rewrite !zlen_le_bytes).
  pose proof (zlen_nonneg (bits bf)) as Hz.
  assert (zlen (a ++ b ++ c ++ bits bf) = 12 + zlen (bits bf)) as E by (rewrite !zlen_app; lia).
  rewrite E. destruct (Z.ltb_spec (12 + zlen (bits bf)) 12); [lia|].
  unfold read_u32. rewrite !slice_Ok by lia.
  assert (sub (a ++ b ++ c ++ bits bf) 0 (0 + 4 - 0) = a) as ->.
  { rewrite sub_app_l by lia. apply sub_all. lia. }
  assert (sub (a ++ b ++ c ++ bits bf) 4 (4 + 4 - 4) = b) as ->.
  { rewrite sub_app_r, sub_app_l by lia. rewrite Ha. apply sub_all. lia. }
  assert (sub (a ++ b ++ c ++ bits bf) 8 (8 + 4 - 8) = c) as ->.
  { rewrite sub_app_r, sub_app_r, sub_app_l by lia. rewrite Ha, Hb4. apply sub_all. lia. }
  unfold a, b, c. cbn [fmap res_fmap mbind res_bind]. rewrite !le_val_le_bytes.
  change (2 ^ (8 * Z.of_nat 4)) with (2 ^ 32).
  fold a. fold b. fold c.
  rewrite (as_u32_id (zlen (bits bf))) by done.
  rewrite (Z.mod_small (zlen (bits bf))), (Z.mod_small (num_hashes bf)) by int_lia.
  pose proof (as_u32_range (count bf)). rewrite (Z.mod_small (as_u32 _)) by int_lia.
  destruct (Z.ltb_spec (12 + zlen (bits bf)) (12 + zlen (bits bf))); [lia|].
  rewrite slice_Ok by lia. cbn [mbind res_bind].
  do 3 f_equal. rewrite sub_app_r, sub_app_r, sub_app_r by lia. rewrite Ha, Hb4, Hc4.
  apply sub_all. lia.
Qed.

Lemma bytes_lor_ok (l k : bytes) : bytes_ok l → bytes_ok k → bytes_ok (zip_with Z.lor l k).
Proof.
  intros Hl. revert k. induction Hl as [|a l Ha _ IH]; intros k Hk; [constructor|].
  destruct Hk as [|b k Hb Hk]; [constructor|]. simpl. constructor; [|by apply IH].
  unfold is_byte in *. split; [apply Z.lor_nonneg; lia|].
  destruct (decide (Z.lor a b = 0)) as [->|]; [lia|].
  apply (Z.log2_lt_pow2 _ 8); [pose proof (Z.lor_nonneg a b); lia|].
  rewrite Z.log2_lor by lia.
  assert (∀ x, 0 ≤ x < 256 → Z.log2 x < 8) as Hlog.
  { intros x Hx. destruct (decide (x = 0)) as [->|]; [done|]. apply Z.log2_lt_pow2; lia. }
  pose proof (Hlog a). pose proof (Hlog b). lia.
Qed.

Lemma built_inv bf keys : built bf keys →
  bloom_ok bf ∧ is_u32 (zlen (bits bf)) ∧
  ∀ key j, key ∈ keys → j ∈ positions key bf → bit_set (bits bf) j = true.
Proof.
  induction 1 as [n k bf Hn Hk E|bf keys key bf' Hkey _ (Hok & Hsz & IH) E|bf keys _ (Hok & Hsz & IH)
    |bf keys other keys' bf' _ (Hok & Hsz & IH) _ (Hok2 & Hsz2 & IH2) E
    |bf keys other keys' bf' _ (Hok & Hsz & IH) _ _ E|bf keys bf' _ (Hok & Hsz & IH) E].
  - unfold Bloom_new in E. destruct (Z.ltb_spec 0 n), (Z.ltb_spec 0 k); simplify_eq/=.
    unfold bloom_ok, zlen. cbn. rewrite length_replicate.
    split_and!; [|by apply Forall_replicate|int_lia..|].
    + destruct (Z.to_nat n) eqn:?; [lia|done].
    + intros ?? Hin%not_elem_of_nil. done.
  - assert (count bf < U64_MAX) as Hc.
    { unfold insert in E. apply res_bind_Ok in E as (? & _ & E). apply res_bind_Ok in E as (? & E & _).
      unfold add_u64 in E. destruct (Z.leb_spec (count bf + 1) U64_MAX); [lia|done]. }
    destruct (insert_Ok key bf Hok Hc) as (bf2 & E2 & Hok2 & Hl & Hh & _ & Hs).
    rewrite E in E2. injection E2 as <-.
    split; [done|]. split; [by rewrite Hl|]. intros k j Hk Hj. rewrite (positions_same k bf) in Hj by done.
    rewrite Hs by (by eapply positions_range).
    apply elem_of_cons in Hk as [->|Hk]; [|by rewrite (IH k)].
    rewrite bool_decide_eq_true_2 by done. apply orb_true_r.
  - destruct Hok as (Hne & Hb & Hh & Hc). unfold bloom_ok, zlen. cbn. rewrite length_replicate.
    split_and!; [|by apply Forall_replicate|done|done|done|].
    + destruct (bits bf); done.
    + intros ?? Hin%not_elem_of_nil. done.
  - unfold merge in E. destruct (Z.eqb_spec (zlen (bits bf)) (zlen (bits other))) as [El|]; [|done].
    destruct (Z.eqb_spec (num_hashes bf) (num_hashes other)) as [Eh|]; [|done]. cbn in E.
    unfold add_u64 in E. destruct (Z.leb_spec (count bf + count other) U64_MAX); [|done].
    injection E as <-. unfold zlen in El. apply Nat2Z.inj in El.
    destruct Hok as (Hne & Hb & Hh & Hc). destruct Hok2 as (Hne2 & Hb2 & Hh2 & Hc2).
    assert (zlen (zip_with Z.lor (bits bf) (bits other)) = zlen (bits bf)) as Hlz.
    { unfold zlen. rewrite length_zip_with; lia. }
    split_and!.
    + unfold bloom_ok. cbn. split_and!; [|by apply bytes_lor_ok|done|int_lia..].
      destruct (bits bf), (bits other); done.
    + cbn. by rewrite Hlz.
    + cbn. intros key j Hk Hj.
      assert (0 ≤ j) as Hj0.
      { pose proof (num_bits_pos bf (conj Hne (conj Hb (conj Hh Hc)))).
        apply list_elem_of_fmap in Hj as (i & -> & _). cbn. rewrite Hlz. apply Z.mod_pos_bound. lia. }
      rewrite bit_set_zip by done. apply elem_of_app in Hk as [Hk|Hk].
      * rewrite (positions_same key bf) in Hj by done. by rewrite (IH key).
      * rewrite (positions_same key other) in Hj by (cbn; rewrite ?Hlz; unfold zlen; congruence).
        rewrite (IH2 key) by done. apply orb_true_r.
  - unfold merge in E. destruct (negb _ || negb _); [by simplify_eq|].
    by destruct (add_u64 _ _).
  - rewrite from_to_bytes in E by done. injection E as <-.
    destruct Hok as (Hne & Hb & Hh & Hc). split_and!; [|done|].
    + unfold bloom_ok. cbn. split_and!; try done. pose proof (as_u32_range (count bf)). int_lia.
    + intros key j Hk Hj. by apply (IH key).
Qed.

(** ** Properties *)

(** The filter has no false negatives: in every filter built by the
    constructor, insertions, clears, merges and a round trip through the byte
    format, each key put in is reported as possibly present, and no lookup
    panics. *)
Theorem bloom_no_false_negatives bf keys key :
  built bf keys →
  (∃ b, may_contain key bf = Ok b) ∧ (key ∈ keys → may_contain key bf = Ok true).
Proof.
  intros (Hok & _ & H)%built_inv. rewrite may_contain_Ok by done. split; [by eexists|].
  intros Hk. f_equal. apply forallb_forall. intros j Hj%list_elem_of_In. by apply (H key).
Qed.
Lemma bloom_no_false_negatives_witness :
  may_contain [3] (mkBloom [32; 8; 4; 0; 0; 20; 0; 1] 3 2) = Ok true.
Proof.
  assert (built (mkBloom [32; 8; 4; 0; 0; 20; 0; 1] 3 2) [[1; 2]; [3]]) as H.
  { apply (built_insert (mkBloom [32; 0; 4; 0; 0; 0; 0; 1] 3 1));
      [repeat constructor; lia| |vm_compute; reflexivity].
    apply (built_insert (mkBloom [0; 0; 0; 0; 0; 0; 0; 0] 3 0));
      [repeat constructor; lia| |vm_compute; reflexivity].
    apply (built_new 8 3); [lia|int_lia|reflexivity]. }
  apply (bloom_no_false_negatives _ _ [3] H). apply list_elem_of_further, list_elem_of_here.
Defined.

(** Insertion and lookup are exact at the level of bits: insertion sets the
    bits of the key and no other, and a lookup answers whether all the bits
    of its key are set, so that an empty or cleared filter contains nothing. *)
Theorem bloom_insert_exact key probe bf :
  bloom_ok bf → count bf < U64_MAX →
  (∃ bf', insert key bf = Ok bf' ∧ count bf' = count bf + 1 ∧
     may_contain probe bf' = Ok (forallb (λ j, bit_set (bits bf) j || bool_decide (j ∈ positions key bf))
                                   (positions probe bf))) ∧
  may_contain probe (clear bf) = Ok (num_hashes bf =? 0).
Proof.
  intros Hok Hc. split.
  - destruct (insert_Ok key bf Hok Hc) as (bf' & E & Hok' & Hl & Hh & Hc' & Hs).
    exists bf'. split_and!; [done..|]. rewrite may_contain_Ok by done.
    rewrite (positions_same probe bf) by done. f_equal.
    assert (∀ j, j ∈ positions probe bf → 0 ≤ j < zlen (bits bf) * 8) as Hr
      by (intros; by eapply positions_range).
    induction (positions probe bf) as [|j l IH]; [done|]. cbn. rewrite Hs by (apply Hr; left).
    f_equal. apply IH. intros. apply Hr. by right.
  - assert (bloom_ok (clear bf)) as Hok'.
    { destruct Hok as (Hne & Hb & Hh & Hc2). unfold bloom_ok. cbn.
      split_and!; [by destruct (bits bf)|by apply Forall_replicate|done|done]. }
    rewrite may_contain_Ok by done. f_equal. unfold positions. cbn [clear bits num_hashes].
    destruct (Z.eqb_spec (num_hashes bf) 0) as [->|Hn]; [done|].
    destruct Hok as (_ & _ & Hh & _). rewrite seqZ_cons by int_lia. cbn. by rewrite bit_set_zeros.
Qed.
Lemma bloom_insert_exact_witness :
  may_contain [9] (clear (mkBloom [255] 2 1)) = Ok false.
Proof.
  apply (bloom_insert_exact [7] [9] (mkBloom [255] 2 1)).
  - unfold bloom_ok. cbn. split_and!; [done|repeat constructor; lia|int_lia..].
  - cbn. int_lia.
Defined.

(** The byte format keeps the bits and the number of hash functions, and so
    every answer of the filter; the item count is cut to 32 bits. *)
Theorem bloom_bytes_roundtrip bf :
  bloom_ok bf → is_u32 (zlen (bits bf)) →
  ∃ bf', from_bytes (to_bytes bf) = Ok (Some bf')
    ∧ (∀ key, may_contain key bf' = may_contain key bf)
    ∧ count bf' = count bf mod 2 ^ 32.
Proof. intros. rewrite from_to_bytes by done. eexists. split_and!; done. Qed.
Lemma bloom_bytes_roundtrip_witness :
  ∃ bf', from_bytes (to_bytes (mkBloom [5; 255] 3 (2 ^ 32 + 1))) = Ok (Some bf')
    ∧ (∀ key, may_contain key bf' = may_contain key (mkBloom [5; 255] 3 (2 ^ 32 + 1)))
    ∧ count bf' = (2 ^ 32 + 1) mod 2 ^ 32.
Proof.
  apply (bloom_bytes_roundtrip (mkBloom [5; 255] 3 (2 ^ 32 + 1))).
  - unfold bloom_ok. cbn. split_and!; [done|repeat constructor; lia|int_lia..].
  - vm_compute. split; [discriminate|reflexivity].
Defined.

(** The decoder does not check what it reads: twelve bytes that announce an
    empty bit vector are accepted, and every lookup in the filter panics on a
    remainder by zero. *)
Theorem bloom_decoder_unchecked :
  ∃ data bf, from_bytes data = Ok (Some bf) ∧ ∀ key, may_contain key bf = Panic.
Proof. exists [0; 0; 0; 0; 1; 0; 0; 0; 0; 0; 0; 0]. eexists. split; [reflexivity|]. reflexivity. Qed.
