(* ===== verification/PagerIface.v ===== *)
(** What the pager promises to its clients (src/src/storage/pager.rs as
    btree.rs uses it).

    [PageSize] is the compile-time page size; [PagerOps] the four operations
    the B-tree calls; [PagerLaws] what it relies on, stated with a relation
    [pager_rep s m]: the pager state [s] holds, for its client, the pages of
    the finite map [m].  The theorems about the B-tree are proved against this
    interface; the model of the pager discharges it, and so does the plain map
    at the end of this file. *)
From S2P Require Import Prelude.

(** ** Page size *)

(** [PAGE_SIZE] is chosen when the crate is built. *)
Class PageSize := {
  PAGE_SIZE : Z;
  page_size_valid : PAGE_SIZE ∈ [512; 1024; 2048; 4096; 8192; 16384; 32768; 65536]
}.

Lemma PAGE_SIZE_bounds `{PageSize} : 512 ≤ PAGE_SIZE ≤ 65536.
Proof. pose proof page_size_valid as Hv. repeat (apply elem_of_cons in Hv as [->|Hv]; [lia|]). set_solver. Qed.
Lemma PAGE_SIZE_even `{PageSize} : PAGE_SIZE / 2 * 2 = PAGE_SIZE.
Proof. pose proof page_size_valid as Hv. repeat (apply elem_of_cons in Hv as [->|Hv]; [done|]). set_solver. Qed.

Section PageSize.
Context `{PageSize}.

Definition page_size_to_u16 : Z := if PAGE_SIZE =? 65536 then 0 else as_u16 PAGE_SIZE.
Definition u16_to_page_size (v : Z) : Z := if v =? 0 then 65536 else v.
Definition page_size_to_u16_val (v : Z) : Z := if 65536 <=? v then 0 else as_u16 v.
(** [[0u8; PAGE_SIZE]] *)
Definition zero_page : bytes := replicate (Z.to_nat PAGE_SIZE) 0.

Lemma zlen_zero_page : zlen zero_page = PAGE_SIZE.
Proof. unfold zlen, zero_page. rewrite length_replicate. pose proof PAGE_SIZE_bounds. lia. Qed.
Lemma zero_page_ok : bytes_ok zero_page.
Proof. apply Forall_replicate. done. Qed.

(** Encoding an offset and decoding it is the identity, the page size included. *)
Lemma u16_to_page_size_as_u16 v : 0 < v ≤ 65536 → u16_to_page_size (as_u16 v) = v.
Proof.
  intros Hv. unfold u16_to_page_size, as_u16. destruct (decide (v = 65536)) as [->|]; [done|].
  rewrite Z.mod_small by lia. destruct (Z.eqb_spec v 0); lia.
Qed.
Lemma page_size_to_u16_eq : page_size_to_u16 = as_u16 PAGE_SIZE.
Proof. unfold page_size_to_u16. destruct (Z.eqb_spec PAGE_SIZE 65536) as [->|]; done. Qed.

(** A page of bytes of the right length. *)
Definition page_ok (d : bytes) : Prop := zlen d = PAGE_SIZE ∧ bytes_ok d.
Lemma zero_page_page_ok : page_ok zero_page.
Proof. split; [apply zlen_zero_page|apply zero_page_ok]. Qed.
End PageSize.

(** ** Operations *)

(** [get_page_mut n f] runs [f] on the borrowed page; what [f] wrote before an
    early return stays in the page. *)
Class PagerOps (P : Type) := {
  get_page : Z → ST P bytes;
  get_page_mut : ∀ {A}, Z → ST bytes A → ST P A;
  allocate_page : ST P Z;
  free_page : Z → ST P unit
}.

(** ** Laws *)

Class PagerLaws (P : Type) `{PageSize, PagerOps P} := {
  pager_rep : P → gmap Z bytes → Prop;
  (** [k] more pages can be handed out. *)
  pager_room : P → nat → Prop;
  pager_room_le s j k : pager_room s k → (j ≤ k)%nat → pager_room s j;
  pager_rep_page s m n d : pager_rep s m → m !! n = Some d → page_ok d ∧ 1 ≤ n ∧ is_u32 n;
  get_page_law s m n d :
    pager_rep s m → m !! n = Some d →
    ∃ s', get_page n s = (Ok d, s') ∧ pager_rep s' m ∧ ∀ k, pager_room s k → pager_room s' k;
  get_page_mut_law A (f : ST bytes A) s m n d r d' :
    pager_rep s m → m !! n = Some d → f d = (r, d') → page_ok d' →
    ∃ s', get_page_mut n f s = (r, s') ∧ pager_rep s' (<[n := d']> m) ∧ ∀ k, pager_room s k → pager_room s' k;
  allocate_page_law s m :
    pager_rep s m →
    (∃ e s', allocate_page s = (Err e, s') ∧ pager_rep s' m ∧ ∀ k, ¬ pager_room s (S k)) ∨
    (∃ n s', allocate_page s = (Ok n, s') ∧ m !! n = None ∧ pager_rep s' (<[n := zero_page]> m) ∧
       ∀ k, pager_room s (S k) → pager_room s' k);
  free_page_law s m n d :
    pager_rep s m → m !! n = Some d →
    ∃ s', free_page n s = (Ok tt, s') ∧ pager_rep s' (delete n m) ∧ ∀ k, pager_room s k → pager_room s' k
}.

(** ** Adding an invariant *)

(** What every client of the interface preserves: a property of the pager's
    state that the four operations preserve can be added to [pager_rep], so
    that whatever is proved of a client against the interface also shows that
    the client preserves it. *)
Record PagerInvariant (P : Type) `{PagerLaws P} (I : P → Prop) : Prop := {
  inv_get s m n d : pager_rep s m → I s → m !! n = Some d → I (get_page n s).2;
  inv_get_mut A (f : ST bytes A) s m n d :
    pager_rep s m → I s → m !! n = Some d → page_ok (f d).2 → I (get_page_mut n f s).2;
  inv_allocate s m : pager_rep s m → I s → I (allocate_page s).2;
  inv_free s m n d : pager_rep s m → I s → m !! n = Some d → I (free_page n s).2
}.
Definition PagerLaws_with {P} `{PagerLaws P} {I : P → Prop} (HI : PagerInvariant P I) : PagerLaws P.
Proof.
  refine {| pager_rep s m := pager_rep s m ∧ I s; pager_room := pager_room |}.
  - apply pager_room_le.
  - intros s m n d [Hr _]. by apply (pager_rep_page s m n d).
  - intros s m n d [Hr Hi] Hn. destruct (get_page_law s m n d Hr Hn) as (s' & Hrun & Hr' & Hk).
    exists s'. split; [done|]. split; [|done]. split; [done|]. pose proof (inv_get _ _ HI s m n d Hr Hi Hn) as Hi'. by rewrite Hrun in Hi'.
  - intros A f s m n d r d' [Hr Hi] Hn Hf Hd'. destruct (get_page_mut_law A f s m n d r d' Hr Hn Hf Hd') as (s' & Hrun & Hr' & Hk).
    exists s'. split; [done|]. split; [|done]. split; [done|].
    pose proof (inv_get_mut _ _ HI A f s m n d Hr Hi Hn) as Hi'. rewrite Hf, Hrun in Hi'. by apply Hi'.
  - intros s m [Hr Hi]. pose proof (inv_allocate _ _ HI s m Hr Hi) as Hi'.
    destruct (allocate_page_law s m Hr) as [(e & s' & Hrun & Hr' & Hk)|(n & s' & Hrun & Hn & Hr' & Hk)]; rewrite Hrun in Hi'.
    + left. by exists e, s'.
    + right. by exists n, s'.
  - intros s m n d [Hr Hi] Hn. destruct (free_page_law s m n d Hr Hn) as (s' & Hrun & Hr' & Hk).
    exists s'. split; [done|]. split; [|done]. split; [done|]. pose proof (inv_free _ _ HI s m n d Hr Hi Hn) as Hi'. by rewrite Hrun in Hi'.
Defined.

(** ** The plain map as a pager *)

(** A map from page numbers to pages with a counter of the pages handed out;
    freed pages are not reused. *)
Record MapPager := mkMapPager { mp_pages : gmap Z bytes; mp_total : Z }.

#[export] Instance MapPager_ops `{PageSize} : PagerOps MapPager := {
  get_page n := λ s, match mp_pages s !! n with
                     | Some d => (Ok d, s)
                     | None => (Err (PageOutOfRange n), s)
                     end;
  get_page_mut A n f := λ s, match mp_pages s !! n with
                             | Some d => let '(r, d') := f d in (r, mkMapPager (<[n := d']> (mp_pages s)) (mp_total s))
                             | None => (Err (PageOutOfRange n), s)
                             end;
  allocate_page := λ s,
    if 1048576 <=? mp_total s then (Err DatabaseFull, s)
    else let n := mp_total s + 1 in (Ok n, mkMapPager (<[n := zero_page]> (mp_pages s)) n);
  free_page n := λ s, match mp_pages s !! n with
                      | Some _ => (Ok tt, mkMapPager (delete n (mp_pages s)) (mp_total s))
                      | None => (Err (PageOutOfRange n), s)
                      end
}.

(** An empty one, with the two superblock pages already handed out. *)
Definition MapPager_new : MapPager := mkMapPager ∅ 2.

Definition MapPager_rep `{PageSize} (s : MapPager) (m : gmap Z bytes) : Prop :=
  mp_pages s = m ∧ 0 ≤ mp_total s ≤ 1048576 ∧
  ∀ n d, m !! n = Some d → page_ok d ∧ 1 ≤ n ≤ mp_total s.

Definition MapPager_room (s : MapPager) (k : nat) : Prop := mp_total s + Z.of_nat k ≤ 1048576.

#[export] Instance MapPager_laws `{PageSize} : PagerLaws MapPager.
Proof.
  refine {| pager_rep := MapPager_rep; pager_room := MapPager_room |}.
  - unfold MapPager_room. lia.
  - intros s m n d (<- & Ht & Hok) Hd. destruct (Hok n d Hd). split; [done|]. split; int_lia.
  - intros s m n d Hrep Hd. pose proof Hrep as (<- & _). exists s. simpl. by rewrite Hd.
  - intros A f s m n d r d' (<- & Ht & Hok) Hd Hf Hd'. simpl. rewrite Hd, Hf. eexists. split; [done|].
    split; [|done]. split; [done|]. split; [done|]. intros k x. simpl. rewrite lookup_insert. case_decide; [|apply Hok].
    intros [= ->]. subst. destruct (Hok _ _ Hd). done.
  - intros s m (<- & Ht & Hok). simpl. unfold MapPager_room. destruct (Z.leb_spec 1048576 (mp_total s)).
    { left. eexists _, s. split_and!; [done..|]. lia. }
    right. eexists _, _. split; [done|].
    assert (mp_pages s !! (mp_total s + 1) = None) as Hn.
    { destruct (mp_pages s !! (mp_total s + 1)) eqn:E; [|done]. apply Hok in E. lia. }
    split; [done|]. split; [|simpl; lia]. split; [done|]. split; [simpl; lia|]. simpl.
    intros k x. rewrite lookup_insert. case_decide.
    + intros [= <-]. split; [apply zero_page_page_ok|lia].
    + intros Hk%Hok. split; [apply Hk|lia].
  - intros s m n d (<- & Ht & Hok) Hd. simpl. rewrite Hd. eexists. split; [done|]. split; [|done].
    split; [done|]. split; [simpl; lia|]. simpl. intros k x [_ Hk]%lookup_delete_Some. auto.
Defined.

Lemma MapPager_new_rep `{PageSize} : MapPager_rep MapPager_new ∅.
Proof. split; [done|]. split; [simpl; lia|]. intros n d. by rewrite lookup_empty. Qed.

(** The smallest page size, for concrete instances. *)
Definition page_size_512 : PageSize.
Proof. refine {| PAGE_SIZE := 512 |}. by left. Defined.
