(* ===== verification/FileIO.v ===== *)
(** Byte-level storage: what the source uses of [std::fs::File], and the
    fixed-layout buffers that are written to files.

    A file is the list of its bytes.  [file_write] is a [seek] followed by
    [write_all], [file_read_exact] a [seek] followed by [read_exact] (the only
    error of a read is the unexpected end of the file), [file_set_len] is
    [set_len].  [sync_data] changes no content.  Errors of the operating
    system itself (a full disk, missing permissions) are not modelled. *)
From S2P Require Import Prelude.

Abbreviation file := bytes.

(** The bytes between the end of the file and [n] read as zero. *)
Definition pad_to (n : Z) (f : file) : file := f ++ replicate (Z.to_nat n - length f) 0.
Definition file_write (off : Z) (bs : bytes) (f : file) : file := splice (pad_to off f) off bs.
Definition file_read_exact (off n : Z) (f : file) : option bytes :=
  if off + n <=? zlen f then Some (sub f off n) else None.
Definition file_set_len (n : Z) (f : file) : file := take (Z.to_nat n) (pad_to n f).

(** FNV-1a at 32 bits ([fnv32] of wal.rs). *)
Definition FNV32_OFFSET_BASIS : Z := 0x811C9DC5.
Definition FNV32_PRIME : Z := 16777619.
Definition fnv32 (data : bytes) : Z :=
  foldl (λ h b, wrapping_mul_u32 (Z.lxor h b) FNV32_PRIME) FNV32_OFFSET_BASIS data.

Lemma fnv32_range data : is_u32 (fnv32 data).
Proof.
  unfold fnv32. rewrite <- (rev_involutive data). destruct (rev data) as [|b l]; [done|].
  cbn [rev]. rewrite foldl_app. cbn [foldl]. apply as_u32_range.
Qed.

(** ** Lengths *)

Lemma zlen_replicate {A} n (x : A) : zlen (replicate n x) = Z.of_nat n.
Proof. unfold zlen. by rewrite length_replicate. Qed.
Lemma zlen_pad_to n f : zlen (pad_to n f) = Z.max n (zlen f).
Proof. unfold pad_to. rewrite zlen_app, zlen_replicate. unfold zlen. lia. Qed.
Lemma zlen_drop {A} n (l : list A) : zlen (drop n l) = Z.max 0 (zlen l - Z.of_nat n).
Proof. unfold zlen. rewrite length_drop. lia. Qed.
Lemma zlen_take {A} n (l : list A) : zlen (take n l) = Z.min (Z.of_nat n) (zlen l).
Proof. unfold zlen. rewrite length_take. lia. Qed.
(** [lia] after computing the lengths of concatenations. *)
Ltac len_lia :=
  rewrite ?zlen_app, ?zlen_cons, ?zlen_nil, ?zlen_le_bytes, ?zlen_replicate in *; try lia.

Lemma zlen_file_write off bs f : 0 ≤ off → zlen (file_write off bs f) = Z.max (zlen f) (off + zlen bs).
Proof.
  intros. pose proof (zlen_pad_to off f). pose proof (zlen_nonneg bs). pose proof (zlen_nonneg f).
  unfold file_write, splice. rewrite !zlen_app, zlen_take, zlen_drop.
  replace (zlen bs) with (Z.of_nat (length bs)) in * by done. lia.
Qed.
Lemma zlen_file_set_len n f : 0 ≤ n → zlen (file_set_len n f) = n.
Proof. intros. unfold file_set_len. rewrite zlen_take, zlen_pad_to. lia. Qed.

(** ** Reading what was written *)

Lemma pad_to_id n f : n ≤ zlen f → pad_to n f = f.
Proof. unfold pad_to, zlen. intros. replace (_ - _)%nat with 0%nat by lia. apply app_nil_r. Qed.
Lemma file_write_end bs f : file_write (zlen f) bs f = f ++ bs.
Proof.
  unfold file_write. rewrite pad_to_id by lia. unfold splice, zlen. rewrite Nat2Z.id.
  rewrite take_ge by lia. rewrite drop_ge by lia. by rewrite app_nil_r.
Qed.
(** Overwriting inside a file whose prefix and suffix are named. *)
Lemma file_write_mid a b c bs :
  length b = length bs → file_write (zlen a) bs (a ++ b ++ c) = a ++ bs ++ c.
Proof.
  intros Hl. unfold file_write. rewrite pad_to_id by (rewrite zlen_app; pose proof (zlen_nonneg (b ++ c)); lia).
  unfold splice, zlen. rewrite Nat2Z.id.
  rewrite take_app_length. do 2 f_equal. rewrite <- Hl. rewrite <- length_app.
  rewrite app_assoc. by rewrite drop_app_length.
Qed.
Lemma sub_pad_to f n a m : 0 ≤ a → 0 ≤ m → a + m ≤ zlen f → sub (pad_to n f) a m = sub f a m.
Proof. intros. unfold pad_to. by apply sub_app_l. Qed.

Lemma sub_file_write_eq off bs f : 0 ≤ off → sub (file_write off bs f) off (zlen bs) = bs.
Proof.
  intros. unfold file_write, sub, splice. pose proof (zlen_pad_to off f).
  rewrite drop_app_ge by (rewrite length_take; unfold zlen in *; lia).
  rewrite length_take. replace (_ - _)%nat with 0%nat by (unfold zlen in *; lia).
  rewrite drop_0. unfold zlen. rewrite Nat2Z.id. by rewrite take_app_length.
Qed.
Lemma sub_file_write_before off bs f a m :
  0 ≤ a → 0 ≤ m → a + m ≤ off → a + m ≤ zlen f → sub (file_write off bs f) a m = sub f a m.
Proof.
  intros. rewrite <- (sub_pad_to f off a m) by done. unfold file_write, splice.
  pose proof (zlen_pad_to off f).
  rewrite sub_app_l by (rewrite ?zlen_take; lia).
  unfold sub. rewrite skipn_firstn_comm, take_take. f_equal. lia.
Qed.
Lemma sub_file_write_after off bs f a m :
  0 ≤ off → off + zlen bs ≤ a → sub (file_write off bs f) a m = sub f a m.
Proof.
  intros Ho Ha. unfold file_write, splice, sub. pose proof (zlen_nonneg bs) as Hb. f_equal.
  pose proof (zlen_pad_to off f) as Hp. unfold zlen in *.
  rewrite !drop_app_ge by (rewrite ?length_take; lia).
  rewrite length_take, drop_drop.
  replace (Z.to_nat off + length bs + _)%nat with (Z.to_nat a) by lia.
  unfold pad_to. destruct (decide (Z.to_nat a ≤ length f)%nat).
  - rewrite drop_app_le by lia. destruct (decide (Z.to_nat off ≤ length f)%nat).
    + replace (Z.to_nat off - length f)%nat with 0%nat by lia. apply app_nil_r.
    + lia.
  - rewrite !drop_ge; [done|lia|]. rewrite length_app, length_replicate. lia.
Qed.
(** A write that does not meet the range read. *)
Lemma sub_file_write_disjoint off bs f a m :
  0 ≤ off → 0 ≤ a → 0 ≤ m → a + m ≤ zlen f → a + m ≤ off ∨ off + zlen bs ≤ a →
  sub (file_write off bs f) a m = sub f a m.
Proof. intros ???? [?|?]; [by apply sub_file_write_before | by apply sub_file_write_after]. Qed.

Lemma file_read_Some off n f : off + n ≤ zlen f → file_read_exact off n f = Some (sub f off n).
Proof. intros. unfold file_read_exact. destruct (Z.leb_spec (off + n) (zlen f)); done || lia. Qed.
Lemma file_read_None off n f : zlen f < off + n → file_read_exact off n f = None.
Proof. intros. unfold file_read_exact. destruct (Z.leb_spec (off + n) (zlen f)); done || lia. Qed.

(** ** Fixed-layout buffers *)

(** Filling a zeroed buffer from left to right. *)
Lemma fill_next pre n bs o e :
  o = zlen pre → e = o + zlen bs → (length bs ≤ n)%nat →
  copy_from_slice (pre ++ replicate n 0) o e bs = Ok ((pre ++ bs) ++ replicate (n - length bs) 0).
Proof.
  intros -> -> Hn. rewrite copy_from_slice_Ok.
  - f_equal. unfold splice, zlen. rewrite Nat2Z.id, take_app_length, <- app_assoc. do 2 f_equal.
    rewrite drop_app_ge by lia. rewrite drop_replicate. f_equal. lia.
  - apply zlen_nonneg.
  - rewrite zlen_app, zlen_replicate. unfold zlen. lia.
  - lia.
Qed.

(** Reading a field: skip what precedes it, then take it. *)
Lemma slice_skip {A} (a l : list A) o e :
  zlen a ≤ o → slice (a ++ l) o e = slice l (o - zlen a) (e - zlen a).
Proof.
  intros Ho. unfold slice. pose proof (zlen_nonneg a).
  rewrite zlen_app.
  replace (0 <=? o) with (0 <=? o - zlen a) by (apply eq_true_iff_eq; rewrite !Z.leb_le; lia).
  replace (o - zlen a <=? e - zlen a) with (o <=? e) by (apply eq_true_iff_eq; rewrite !Z.leb_le; lia).
  replace (e - zlen a <=? zlen l) with (e <=? zlen a + zlen l) by (apply eq_true_iff_eq; rewrite !Z.leb_le; lia).
  rewrite sub_app_r by done. by replace (e - zlen a - (o - zlen a)) with (e - o) by lia.
Qed.
Lemma slice_here {A} (b l : list A) n : n = zlen b → slice (b ++ l) 0 n = Ok b.
Proof.
  intros ->. pose proof (zlen_nonneg b). pose proof (zlen_nonneg l).
  rewrite slice_Ok by (rewrite ?zlen_app; lia). rewrite Z.sub_0_r, sub_app_l by lia.
  by rewrite sub_all.
Qed.
Lemma slice_whole {A} (b : list A) n : n = zlen b → slice b 0 n = Ok b.
Proof. intros. rewrite <- (app_nil_r b) at 1. by apply slice_here. Qed.
Lemma le_val_id n x : 0 ≤ x < 2 ^ (8 * Z.of_nat n) → le_val (le_bytes n x) = x.
Proof. intros. rewrite le_val_le_bytes. by apply Z.mod_small. Qed.

(** Adjacent ranges, and the number in a range of bytes. *)
Lemma sub_join {A} (l : list A) a n b m :
  0 ≤ a → 0 ≤ n → 0 ≤ m → b = a + n → sub l a n ++ sub l b m = sub l a (n + m).
Proof.
  intros ??? ->. unfold sub. rewrite !Z2Nat.inj_add by lia. rewrite <- drop_drop. apply take_take_drop.
Qed.
Lemma le_bytes_sub l off n :
  bytes_ok l → 0 ≤ off → off + Z.of_nat n ≤ zlen l → le_bytes n (le_val (sub l off (Z.of_nat n))) = sub l off (Z.of_nat n).
Proof.
  intros. rewrite <- (le_bytes_le_val (sub l off (Z.of_nat n))) at 2 by (by apply sub_ok).
  pose proof (length_sub l off (Z.of_nat n) ltac:(done) ltac:(lia) ltac:(done)) as Hl.
  f_equal. unfold zlen in Hl. lia.
Qed.

(** The next field of a right-nested concatenation, by its offset. *)
Ltac read_field :=
  repeat (rewrite slice_skip by len_lia; rewrite ?zlen_le_bytes);
  rewrite ?slice_here by len_lia; rewrite ?slice_whole by len_lia.
