(* ===== verification/Superblock.v ===== *)
(** The two superblocks of the file format (src/src/storage/pager.rs:
    [SuperblockV2], [SuperblockSlot], reading, writing and choosing the slot
    to open).

    The header lives twice in the file, on page 1 (slot A) and page 2 (slot
    B).  A commit writes the slot that is not active; opening takes the valid
    slot of the higher generation that fits the file.  The theorems: the byte
    format round trips and its decoder never panics; a commit is atomic with
    respect to the slot it writes; a damaged magic in slot A hides a sound
    slot B. *)
From S2P Require Import Prelude PagerIface FileIO.

(** [b"KKDB COW v2\0\0\0\0\0"] *)
Definition COW_MAGIC : bytes := [75; 75; 68; 66; 32; 67; 79; 87; 32; 118; 50; 0; 0; 0; 0; 0].
Definition COW_SUPERBLOCK_SIZE : Z := 68.

Inductive SuperblockSlot := SlotA | SlotB.
#[export] Instance SuperblockSlot_eq_dec : EqDecision SuperblockSlot.
Proof. solve_decision. Defined.

Definition slot_page_num (s : SuperblockSlot) : Z := match s with SlotA => 1 | SlotB => 2 end.
Definition inactive (s : SuperblockSlot) : SuperblockSlot :=
  match s with SlotA => SlotB | SlotB => SlotA end.

Record SuperblockV2 := mkSuperblock {
  format_version : Z;
  page_size : Z;
  flags : Z;
  generation : Z;
  db_uuid : bytes;
  schema_root : Z;
  free_root : Z;
  pending_free_root : Z;
  page_count : Z;
  checksum : Z
}.
#[export] Instance SuperblockV2_eq_dec : EqDecision SuperblockV2.
Proof. solve_decision. Defined.

(** Updates of single fields. *)
Definition with_generation (g : Z) (sb : SuperblockV2) : SuperblockV2 :=
  mkSuperblock (format_version sb) (page_size sb) (flags sb) g (db_uuid sb) (schema_root sb)
    (free_root sb) (pending_free_root sb) (page_count sb) (checksum sb).
Definition with_page_count (n : Z) (sb : SuperblockV2) : SuperblockV2 :=
  mkSuperblock (format_version sb) (page_size sb) (flags sb) (generation sb) (db_uuid sb) (schema_root sb)
    (free_root sb) (pending_free_root sb) n (checksum sb).
Definition with_free (fr pend : Z) (sb : SuperblockV2) : SuperblockV2 :=
  mkSuperblock (format_version sb) (page_size sb) (flags sb) (generation sb) (db_uuid sb) (schema_root sb)
    fr pend (page_count sb) (checksum sb).
Definition with_schema_root (r : Z) (sb : SuperblockV2) : SuperblockV2 :=
  mkSuperblock (format_version sb) (page_size sb) (flags sb) (generation sb) (db_uuid sb) r
    (free_root sb) (pending_free_root sb) (page_count sb) (checksum sb).
Definition with_flags (fl : Z) (sb : SuperblockV2) : SuperblockV2 :=
  mkSuperblock (format_version sb) (page_size sb) fl (generation sb) (db_uuid sb) (schema_root sb)
    (free_root sb) (pending_free_root sb) (page_count sb) (checksum sb).

(** [checksum32]: FNV-1a over the bytes. *)
Definition checksum32 (data : bytes) : Z :=
  foldl (λ h b, wrapping_mul_u32 (Z.lxor h b) FNV32_PRIME) FNV32_OFFSET_BASIS data.

Section Superblock.
Context `{PageSize}.

(** [SuperblockV2::new]; the uuid comes from the clock and the process id. *)
Definition Superblock_new (uuid : bytes) : SuperblockV2 :=
  mkSuperblock 2 page_size_to_u16 0 1 uuid 3 0 0 2 0.

(** [SuperblockV2::serialize] returns the filled buffer. *)
Definition sb_serialize (sb : SuperblockV2) (buf : bytes) : res bytes :=
  if zlen buf <? COW_SUPERBLOCK_SIZE then Err (CorruptDatabase "superblock buffer too short")
  else
    buf ← copy_from_slice (replicate (length buf) 0) 0 16 COW_MAGIC;
    buf ← copy_from_slice buf 16 18 (le_bytes 2 (format_version sb));
    buf ← copy_from_slice buf 18 20 (le_bytes 2 (page_size sb));
    buf ← copy_from_slice buf 20 24 (le_bytes 4 (flags sb));
    buf ← copy_from_slice buf 24 32 (le_bytes 8 (generation sb));
    buf ← copy_from_slice buf 32 48 (db_uuid sb);
    buf ← copy_from_slice buf 48 52 (le_bytes 4 (schema_root sb));
    buf ← copy_from_slice buf 52 56 (le_bytes 4 (free_root sb));
    buf ← copy_from_slice buf 56 60 (le_bytes 4 (pending_free_root sb));
    buf ← copy_from_slice buf 60 64 (le_bytes 4 (page_count sb));
    head ← slice buf 0 64;
    copy_from_slice buf 64 68 (le_bytes 4 (checksum32 head)).

(** [SuperblockV2::deserialize] *)
Definition sb_deserialize (buf : bytes) : res SuperblockV2 :=
  if zlen buf <? COW_SUPERBLOCK_SIZE then Err (CorruptDatabase "superblock too short") else
  magic ← slice buf 0 16;
  if negb (bool_decide (magic = COW_MAGIC)) then Err (CorruptDatabase "invalid superblock magic") else
  version ← read_u16 buf 16;
  if negb (version =? 2) then Err (CorruptDatabase ("unsupported superblock version: " +:+ pretty version)) else
  psize ← read_u16 buf 18;
  if negb (u16_to_page_size psize =? PAGE_SIZE)
  then Err (CorruptDatabase ("unsupported page size: " +:+ pretty psize)) else
  stored_checksum ← read_u32 buf 64;
  head ← slice buf 0 64;
  if negb (stored_checksum =? checksum32 head) then Err (CorruptDatabase "superblock checksum mismatch") else
  fl ← read_u32 buf 20;
  gen ← read_u64 buf 24;
  uuid ← slice buf 32 48;
  sroot ← read_u32 buf 48;
  froot ← read_u32 buf 52;
  pfroot ← read_u32 buf 56;
  pcount ← read_u32 buf 60;
  Ok (mkSuperblock version psize fl gen uuid sroot froot pfroot pcount stored_checksum).

(** ** Reading and writing slots *)

Definition page_offset (page_num : Z) : Z := (page_num - 1) * PAGE_SIZE.

Definition read_superblock_v2 (f : file) (page_num : Z) : res SuperblockV2 :=
  match file_read_exact (page_offset page_num) PAGE_SIZE f with
  | None => Err (CorruptDatabase ("short read for superblock " +:+ pretty page_num))
  | Some page => head ← slice page 0 COW_SUPERBLOCK_SIZE; sb_deserialize head
  end.
Definition write_superblock_v2 (slot : SuperblockSlot) (sb : SuperblockV2) (f : file) : res file :=
  page ← sb_serialize sb zero_page;
  Ok (file_write (page_offset (slot_page_num slot)) page f).

Definition superblock_fits_file (sb : SuperblockV2) (file_len : Z) : bool :=
  if page_count sb <? 3 then false else page_count sb * PAGE_SIZE <=? file_len.

Definition choose_openable_superblock_v2 (left right : res SuperblockV2) (file_len : Z)
    : res (SuperblockV2 * SuperblockSlot) :=
  match left, right with
  | Ok a, Ok b =>
      if negb (bool_decide (db_uuid a = db_uuid b))
      then Err (CorruptDatabase "superblock UUID mismatch across slots")
      else
        match superblock_fits_file a file_len, superblock_fits_file b file_len with
        | true, true => if generation a <? generation b then Ok (b, SlotB) else Ok (a, SlotA)
        | true, false => Ok (a, SlotA)
        | false, true => Ok (b, SlotB)
        | false, false =>
            Err (CorruptDatabase ("no openable superblock slot for file len " +:+ pretty file_len))
        end
  | Ok a, Err _ =>
      if superblock_fits_file a file_len then Ok (a, SlotA)
      else Err (CorruptDatabase ("superblock A does not fit file len " +:+ pretty file_len))
  | Err _, Ok b =>
      if superblock_fits_file b file_len then Ok (b, SlotB)
      else Err (CorruptDatabase ("superblock B does not fit file len " +:+ pretty file_len))
  | Err _, Err _ => Err (CorruptDatabase "both superblock slots are invalid")
  | Panic, _ | _, Panic => Panic
  | Hang, _ | _, Hang => Hang
  end.

(** The part of [open_cow_v2] that reads the file. *)
Definition open_superblock (f : file) : res (SuperblockV2 * SuperblockSlot) :=
  let file_len := zlen f in
  if file_len <? PAGE_SIZE * 2 then Err (CorruptDatabase "format v2 file is too small") else
  match file_read_exact 0 16 f with
  | None => Err (Io "failed to fill whole buffer")
  | Some magic =>
      if negb (bool_decide (magic = COW_MAGIC)) then Err (CorruptDatabase "database is not format v2")
      else choose_openable_superblock_v2 (read_superblock_v2 f 1) (read_superblock_v2 f 2) file_len
  end.

(** ** Creating a database *)

Definition init_leaf_table_page (header_offset : Z) (page : bytes) : res bytes :=
  page ← set_index page header_offset 0x0D;
  page ← copy_from_slice page (header_offset + 1) (header_offset + 3) (le_bytes 2 0);
  page ← copy_from_slice page (header_offset + 3) (header_offset + 5) (le_bytes 2 page_size_to_u16);
  set_index page (header_offset + 5) 0.

(** The superblocks [create_cow_v2] and [open_memory] start with. *)
Definition initial_superblock_a (uuid : bytes) : SuperblockV2 :=
  with_page_count 3 (with_generation 1 (Superblock_new uuid)).
Definition initial_superblock_b (uuid : bytes) : SuperblockV2 :=
  with_generation 0 (initial_superblock_a uuid).

(** The file [create_cow_v2] writes before it opens it. *)
Definition create_file (uuid : bytes) : res file :=
  schema_page ← init_leaf_table_page 0 zero_page;
  f ← write_superblock_v2 SlotA (initial_superblock_a uuid) [];
  f ← write_superblock_v2 SlotB (initial_superblock_b uuid) f;
  Ok (file_write (page_offset 3) schema_page f).

(** ** Well-formed superblocks *)

Record sb_ok (sb : SuperblockV2) : Prop := {
  ok_version : format_version sb = 2;
  ok_page_size : page_size sb = page_size_to_u16;
  ok_flags : is_u32 (flags sb);
  ok_generation : is_u64 (generation sb);
  ok_uuid : zlen (db_uuid sb) = 16 ∧ bytes_ok (db_uuid sb);
  ok_schema_root : is_u32 (schema_root sb);
  ok_free_root : is_u32 (free_root sb);
  ok_pending : is_u32 (pending_free_root sb);
  ok_page_count : is_u32 (page_count sb)
}.

(** The sixty-four bytes under the checksum, and the sixty-eight of the slot. *)
Definition sb_head (sb : SuperblockV2) : bytes :=
  COW_MAGIC ++ le_bytes 2 (format_version sb) ++ le_bytes 2 (page_size sb) ++ le_bytes 4 (flags sb) ++
  le_bytes 8 (generation sb) ++ db_uuid sb ++ le_bytes 4 (schema_root sb) ++ le_bytes 4 (free_root sb) ++
  le_bytes 4 (pending_free_root sb) ++ le_bytes 4 (page_count sb).
Definition sb_bytes (sb : SuperblockV2) : bytes := sb_head sb ++ le_bytes 4 (checksum32 (sb_head sb)).
(** What [sb_deserialize] reads back: the checksum field is the computed one. *)
Definition with_checksum (sb : SuperblockV2) : SuperblockV2 :=
  mkSuperblock (format_version sb) (page_size sb) (flags sb) (generation sb) (db_uuid sb) (schema_root sb)
    (free_root sb) (pending_free_root sb) (page_count sb) (checksum32 (sb_head sb)).
(** The page a crash leaves behind when it interrupts the write of [new] over
    [old]: every byte is the old one or the new one. *)
Definition torn (old new d : bytes) : Prop :=
  length d = length new ∧ ∀ i x, d !! i = Some x → old !! i = Some x ∨ new !! i = Some x.

End Superblock.

(** ** Lemmas *)

Lemma inactive_inactive s : inactive (inactive s) = s.
Proof. by destruct s. Qed.
Lemma checksum32_fnv32 data : checksum32 data = fnv32 data.
Proof. reflexivity. Qed.

Section Lemmas.
Context `{PageSize}.

Lemma page_size_decode v : is_u16 v → u16_to_page_size v = PAGE_SIZE → v = page_size_to_u16.
Proof.
  unfold u16_to_page_size, page_size_to_u16. intros Hv Hp. int_unfold. destruct (Z.eqb_spec v 0), (Z.eqb_spec PAGE_SIZE 65536); try lia.
  rewrite <- Hp. symmetry. apply as_u16_id. int_lia.
Qed.
Lemma page_size_to_u16_range : is_u16 page_size_to_u16.
Proof. rewrite page_size_to_u16_eq. apply Z.mod_pos_bound. lia. Qed.
Lemma page_size_to_u16_inv : u16_to_page_size page_size_to_u16 = PAGE_SIZE.
Proof. rewrite page_size_to_u16_eq. apply u16_to_page_size_as_u16. pose proof PAGE_SIZE_bounds. lia. Qed.

Lemma zlen_sb_head sb : zlen (db_uuid sb) = 16 → zlen (sb_head sb) = 64.
Proof. intros Hu. unfold sb_head. rewrite !zlen_app, !zlen_le_bytes, Hu. done. Qed.
Lemma zlen_sb_bytes sb : zlen (db_uuid sb) = 16 → zlen (sb_bytes sb) = 68.
Proof. intros. unfold sb_bytes. rewrite zlen_app, zlen_sb_head, zlen_le_bytes; done. Qed.
Lemma sb_bytes_ok sb : sb_ok sb → bytes_ok (sb_bytes sb).
Proof.
  intros Hok. pose proof (proj2 (ok_uuid sb Hok)). unfold sb_bytes, sb_head.
  assert (bytes_ok COW_MAGIC) by (unfold COW_MAGIC; repeat (constructor; [done|]); constructor).
  repeat (apply Forall_app_2); first [done | apply le_bytes_ok].
Qed.

Lemma sb_serialize_Ok sb buf :
  zlen (db_uuid sb) = 16 → 68 ≤ zlen buf →
  sb_serialize sb buf = Ok (sb_bytes sb ++ replicate (length buf - 68) 0).
Proof.
  intros Hu Hb. unfold sb_serialize, COW_SUPERBLOCK_SIZE.
  destruct (Z.ltb_spec (zlen buf) 68); [lia|].
  assert (length (db_uuid sb) = 16)%nat as Hu' by (unfold zlen in Hu; lia).
  assert (68 ≤ length buf)%nat as Hb' by (unfold zlen in Hb; lia).
  assert (length COW_MAGIC = 16)%nat as Hm by done.
  change (replicate (length buf) 0) with ([] ++ replicate (length buf) 0).
  repeat (rewrite fill_next by (rewrite ?zlen_app, ?zlen_le_bytes, ?Hu, ?length_le_bytes, ?Hu', ?Hm; done || lia);
          rewrite ?length_le_bytes, ?Hu', ?Hm; cbn [mbind res_bind]).
  match goal with |- context [slice (?p ++ _) 0 64] =>
    replace p with (sb_head sb) by (unfold sb_head; by rewrite <- !app_assoc) end.
  rewrite slice_here by (by rewrite zlen_sb_head). cbn [mbind res_bind].
  rewrite fill_next by (rewrite ?zlen_sb_head, ?zlen_le_bytes, ?length_le_bytes; done || lia).
  rewrite length_le_bytes. do 3 f_equal. lia.
Qed.

(** Where each field lies. *)
Lemma sb_fields sb l :
  zlen (db_uuid sb) = 16 →
  let buf := sb_bytes sb ++ l in
  slice buf 0 16 = Ok COW_MAGIC ∧ slice buf 16 18 = Ok (le_bytes 2 (format_version sb)) ∧
  slice buf 18 20 = Ok (le_bytes 2 (page_size sb)) ∧ slice buf 20 24 = Ok (le_bytes 4 (flags sb)) ∧
  slice buf 24 32 = Ok (le_bytes 8 (generation sb)) ∧ slice buf 32 48 = Ok (db_uuid sb) ∧
  slice buf 48 52 = Ok (le_bytes 4 (schema_root sb)) ∧ slice buf 52 56 = Ok (le_bytes 4 (free_root sb)) ∧
  slice buf 56 60 = Ok (le_bytes 4 (pending_free_root sb)) ∧
  slice buf 60 64 = Ok (le_bytes 4 (page_count sb)) ∧ slice buf 0 64 = Ok (sb_head sb) ∧
  slice buf 64 68 = Ok (le_bytes 4 (checksum32 (sb_head sb))).
Proof.
  intros Hu buf. subst buf. assert (zlen COW_MAGIC = 16) as Hm by done.
  pose proof (zlen_sb_head sb Hu) as Hh. unfold sb_bytes. generalize dependent (checksum32 (sb_head sb)). intros ck.
  split_and!.
  all: try (rewrite <- app_assoc; rewrite ?slice_skip by (rewrite Hh; lia); apply slice_here; rewrite ?zlen_le_bytes; lia).
  all: unfold sb_head; rewrite <- !app_assoc;
    repeat (rewrite slice_skip by (rewrite ?zlen_le_bytes, ?Hu, ?Hm; lia); rewrite ?zlen_le_bytes, ?Hu, ?Hm);
    apply slice_here; rewrite ?zlen_le_bytes, ?Hu, ?Hm; lia.
Qed.

Lemma sb_deserialize_bytes sb l :
  sb_ok sb → sb_deserialize (sb_bytes sb ++ l) = Ok (with_checksum sb).
Proof.
  intros [Hv Hp Hf Hg [Hu _] Hs Hfr Hpf Hc]. unfold sb_deserialize, COW_SUPERBLOCK_SIZE.
  rewrite zlen_app, zlen_sb_bytes by done. pose proof (zlen_nonneg l).
  destruct (Z.ltb_spec (68 + zlen l) 68); [lia|].
  destruct (sb_fields sb l Hu) as (E1 & E2 & E3 & E4 & E5 & E6 & E7 & E8 & E9 & E10 & E11 & E12).
  unfold read_u16, read_u32, read_u64.
  change (16 + 2) with 18. change (18 + 2) with 20. change (64 + 4) with 68. change (20 + 4) with 24.
  change (24 + 8) with 32. change (48 + 4) with 52. change (52 + 4) with 56. change (56 + 4) with 60.
  change (60 + 4) with 64.
  rewrite E1, E2, E3, E4, E5, E6, E7, E8, E9, E10, E11, E12.
  pose proof page_size_to_u16_range. pose proof (fnv32_range (sb_head sb)) as Hck.
  rewrite <- checksum32_fnv32 in Hck. int_unfold.
  cbn [fmap res_fmap mbind res_bind].
  rewrite !le_val_id by (rewrite ?Hv, ?Hp; done || lia).
  rewrite bool_decide_true by done. rewrite Hv, Hp, page_size_to_u16_inv, !Z.eqb_refl. cbn [negb mbind res_bind].
  unfold with_checksum. by rewrite Hv, Hp.
Qed.

(** Any sixty-four bytes with the magic are the head of what is read from them. *)
Lemma sb_head_sub buf sb :
  bytes_ok buf → 68 ≤ zlen buf → sub buf 0 16 = COW_MAGIC →
  format_version sb = le_val (sub buf 16 2) → page_size sb = le_val (sub buf 18 2) →
  flags sb = le_val (sub buf 20 4) → generation sb = le_val (sub buf 24 8) → db_uuid sb = sub buf 32 16 →
  schema_root sb = le_val (sub buf 48 4) → free_root sb = le_val (sub buf 52 4) →
  pending_free_root sb = le_val (sub buf 56 4) → page_count sb = le_val (sub buf 60 4) →
  sb_head sb = sub buf 0 64.
Proof.
  intros Hok Hl Hm E1 E2 E3 E4 E5 E6 E7 E8 E9. unfold sb_head. rewrite E1, E2, E3, E4, E5, E6, E7, E8, E9.
  rewrite !le_bytes_sub by (done || lia).
  rewrite <- Hm. by rewrite !sub_join by lia.
Qed.

(** The slots in the file. *)
Lemma page_offset_range slot (f : file) :
  PAGE_SIZE * 2 ≤ zlen f → 0 ≤ page_offset (slot_page_num slot) ∧ page_offset (slot_page_num slot) + PAGE_SIZE ≤ zlen f.
Proof. pose proof PAGE_SIZE_bounds. unfold page_offset. destruct slot; simpl; lia. Qed.

Lemma read_superblock_sub slot f :
  PAGE_SIZE * 2 ≤ zlen f →
  read_superblock_v2 f (slot_page_num slot) =
  sb_deserialize (sub f (page_offset (slot_page_num slot)) COW_SUPERBLOCK_SIZE).
Proof.
  intros Hf. pose proof (page_offset_range slot f Hf) as [? ?]. pose proof PAGE_SIZE_bounds.
  unfold read_superblock_v2. rewrite file_read_Some by done.
  unfold COW_SUPERBLOCK_SIZE. rewrite slice_Ok by (rewrite ?length_sub; lia). cbn [mbind res_bind].
  rewrite sub_sub by lia. f_equal. f_equal. lia.
Qed.

(** A whole page [d] written to a slot is what is read from it; the other
    slot reads as before. *)
Lemma write_slot_reads slot d f :
  PAGE_SIZE * 2 ≤ zlen f → zlen d = PAGE_SIZE →
  let f' := file_write (page_offset (slot_page_num slot)) d f in
  zlen f' = zlen f ∧
  read_superblock_v2 f' (slot_page_num slot) = sb_deserialize (sub d 0 COW_SUPERBLOCK_SIZE) ∧
  read_superblock_v2 f' (slot_page_num (inactive slot)) = read_superblock_v2 f (slot_page_num (inactive slot)).
Proof.
  intros Hf Hd f'. pose proof (page_offset_range slot f Hf) as [? ?]. pose proof PAGE_SIZE_bounds.
  assert (zlen f' = zlen f) as Hl by (unfold f'; rewrite zlen_file_write; lia).
  split; [done|]. rewrite !read_superblock_sub by lia. unfold COW_SUPERBLOCK_SIZE. split.
  - pose proof (sub_file_write_eq (page_offset (slot_page_num slot)) d f ltac:(done)) as Hw.
    rewrite <- Hw, sub_sub by lia. f_equal. f_equal. lia.
  - f_equal. pose proof (page_offset_range (inactive slot) f Hf). unfold f'.
    apply sub_file_write_disjoint; try lia. unfold page_offset. destruct slot; simpl in *; lia.
Qed.

(** Page 1 keeps its magic through a write to either slot. *)
Lemma write_slot_magic slot d f :
  PAGE_SIZE * 2 ≤ zlen f → zlen d = PAGE_SIZE → sub f 0 16 = COW_MAGIC →
  (slot = SlotA → sub d 0 16 = COW_MAGIC) →
  sub (file_write (page_offset (slot_page_num slot)) d f) 0 16 = COW_MAGIC.
Proof.
  intros Hf Hd Hm Hs. pose proof PAGE_SIZE_bounds. destruct slot; simpl.
  - change (page_offset 1) with 0. rewrite <- Hs by done.
    pose proof (sub_file_write_eq 0 d f ltac:(done)) as Hw. rewrite <- Hw at 2. rewrite sub_sub by lia. done.
  - unfold page_offset. rewrite sub_file_write_before by lia. done.
Qed.
(** A torn write over a page with the magic leaves the magic. *)
Lemma torn_magic old new d :
  torn old new d → sub old 0 16 = COW_MAGIC → sub new 0 16 = COW_MAGIC → sub d 0 16 = COW_MAGIC.
Proof.
  intros [Hl Ht] Ho Hn. apply list_eq. intros i. destruct (decide (i < 16)%nat) as [Hi|].
  - assert (16 ≤ length new)%nat as Hln.
    { assert (length (sub new 0 16) = 16%nat) as E by (by rewrite Hn). unfold sub in E. rewrite length_take, length_drop in E. lia. }
    unfold sub in Ho, Hn |- *. rewrite drop_0 in Ho, Hn |- *. change (Z.to_nat 16) with 16%nat in *.
    destruct (lookup_lt_is_Some_2 d i ltac:(lia)) as [x Hx]. rewrite lookup_take_lt, Hx by done. symmetry.
    destruct (Ht i x Hx); [rewrite <- Ho | rewrite <- Hn]; by rewrite lookup_take_lt.
  - rewrite !lookup_ge_None_2; [done|simpl; lia|]. unfold sub. rewrite length_take. lia.
Qed.
(** A write that stopped after [n] bytes is torn. *)
Lemma torn_prefix old new n : length old = length new → torn old new (take n new ++ drop n old).
Proof.
  intros Hl. split.
  - rewrite length_app, length_take, length_drop. lia.
  - intros i x. destruct (decide (i < n)%nat).
    + destruct (decide (i < length new)%nat).
      * rewrite lookup_app_l by (rewrite length_take; lia). rewrite lookup_take_lt by done. by right.
      * rewrite lookup_ge_None_2; [done|]. rewrite length_app, length_take, length_drop. lia.
    + destruct (decide (i < length new)%nat).
      * rewrite lookup_app_r by (rewrite length_take; lia). rewrite length_take, lookup_drop.
        replace (n + (i - n `min` length new))%nat with i by lia. by left.
      * rewrite lookup_ge_None_2; [done|]. rewrite length_app, length_take, length_drop. lia.
Qed.
Lemma sb_bytes_magic sb l : sub (sb_bytes sb ++ l) 0 16 = COW_MAGIC.
Proof. unfold sb_bytes, sb_head. rewrite <- !app_assoc. rewrite sub_app_l by done. by apply sub_all. Qed.

(** The choice looks at the two slots symmetrically, except for ties. *)
Definition choose (slot : SuperblockSlot) (mine other : res SuperblockV2) (len : Z) :=
  match slot with
  | SlotA => choose_openable_superblock_v2 mine other len
  | SlotB => choose_openable_superblock_v2 other mine len
  end.
Lemma choose_inactive slot r1 r2 len : choose (inactive slot) r1 r2 len = choose slot r2 r1 len.
Proof. by destruct slot. Qed.
Lemma open_superblock_choose slot f :
  PAGE_SIZE * 2 ≤ zlen f → sub f 0 16 = COW_MAGIC →
  open_superblock f = choose slot (read_superblock_v2 f (slot_page_num slot))
                        (read_superblock_v2 f (slot_page_num (inactive slot))) (zlen f).
Proof.
  intros Hf Hm. pose proof PAGE_SIZE_bounds. unfold open_superblock.
  destruct (Z.ltb_spec (zlen f) (PAGE_SIZE * 2)); [lia|].
  rewrite file_read_Some, Hm, bool_decide_true by (done || lia). by destruct slot.
Qed.
Lemma choose_newer slot a b len :
  db_uuid a = db_uuid b → superblock_fits_file a len = true → generation b < generation a →
  choose slot (Ok a) (Ok b) len = Ok (a, slot).
Proof.
  intros Hu Hf Hg. destruct slot; simpl; rewrite ?Hu, bool_decide_true, Hf by done; cbn;
    repeat case_match; try done; lia.
Qed.
Lemma choose_single slot a e len :
  superblock_fits_file a len = true → choose slot (Ok a) (Err e) len = Ok (a, slot).
Proof. intros Hf. destruct slot; simpl; by rewrite Hf. Qed.

(** ** Theorems *)

(** Serializing a well-formed superblock into any buffer that is long enough
    succeeds, keeps the buffer's length, and [deserialize] reads the same
    superblock back, with the checksum field filled in. *)
Theorem superblock_roundtrip sb buf :
  sb_ok sb → COW_SUPERBLOCK_SIZE ≤ zlen buf →
  ∃ buf', sb_serialize sb buf = Ok buf' ∧ zlen buf' = zlen buf ∧ sb_deserialize buf' = Ok (with_checksum sb).
Proof.
  intros Hok Hb. unfold COW_SUPERBLOCK_SIZE in Hb. pose proof (proj1 (ok_uuid sb Hok)) as Hu.
  eexists. split; [by apply sb_serialize_Ok|]. split; [|by apply sb_deserialize_bytes].
  rewrite zlen_app, zlen_sb_bytes, zlen_replicate by done. unfold zlen in *. lia.
Qed.

(** [deserialize] never panics.  What it accepts is a well-formed superblock
    whose checksum matches, and the first 68 bytes are exactly what
    [serialize] writes for it; everything else is [CorruptDatabase]. *)
Theorem superblock_decode_safe buf :
  bytes_ok buf →
  (∃ sb, sb_deserialize buf = Ok sb ∧ sb_ok sb ∧ checksum sb = checksum32 (sb_head sb) ∧
     sub buf 0 COW_SUPERBLOCK_SIZE = sb_bytes sb) ∨
  (∃ msg, sb_deserialize buf = Err (CorruptDatabase msg)).
Proof.
  intros Hok. unfold sb_deserialize, COW_SUPERBLOCK_SIZE. destruct (Z.ltb_spec (zlen buf) 68); [eauto|].
  unfold read_u16, read_u32, read_u64. rewrite !slice_Ok by lia.
  rewrite !Z.add_simpl_l, !Z.sub_0_r. change (48 - 32) with 16. cbn [fmap res_fmap mbind res_bind].
  case_bool_decide as Hm; cbn [negb]; [|eauto].
  destruct (Z.eqb_spec (le_val (sub buf 16 2)) 2) as [Hv|]; cbn [negb]; [|eauto].
  destruct (Z.eqb_spec (u16_to_page_size (le_val (sub buf 18 2))) PAGE_SIZE) as [Hp|]; cbn [negb]; [|eauto].
  destruct (Z.eqb_spec (le_val (sub buf 64 4)) (checksum32 (sub buf 0 64))) as [Hc|]; cbn [negb]; [|eauto].
  assert (∀ off n, 0 ≤ off → 0 ≤ n → off + n ≤ 68 → 0 ≤ le_val (sub buf off n) < 2 ^ (8 * n)) as Hle.
  { intros off n ???. pose proof (le_val_bound (sub buf off n) (sub_ok _ _ _ Hok)) as Hb.
    by rewrite length_sub in Hb by lia. }
  assert (le_val (sub buf 18 2) = page_size_to_u16) as Hp'.
  { apply page_size_decode; [|done]. pose proof (Hle 18 2). int_unfold. lia. }
  left. eexists. split; [done|]. split; [|split].
  - split; simpl; try done; try (split; [apply length_sub; lia | by apply sub_ok]);
      match goal with |- context [sub buf ?o ?n] => pose proof (Hle o n); int_unfold; lia end.
  - simpl. rewrite Hc. f_equal. symmetry. by apply sb_head_sub.
  - unfold sb_bytes. erewrite sb_head_sub by done. cbn [checksum]. rewrite <- Hc, le_bytes_sub by (done || lia).
    by rewrite sub_join by lia.
Qed.

(** [C9] A commit replaces the superblock atomically, up to the checksum.  Let
    [old] be sound in its slot of the file, and [new] a later one of the same
    database that fits the file.  Writing [new] whole to the other slot makes
    opening choose [new]; if the write is torn and the checks of the format
    (magic, version, checksum) reject what is left there, opening chooses
    [old]. *)
Theorem superblock_commit_atomic f slot old new :
  PAGE_SIZE * 2 ≤ zlen f → sub f 0 16 = COW_MAGIC →
  read_superblock_v2 f (slot_page_num slot) = Ok old → superblock_fits_file old (zlen f) = true →
  sb_ok new → db_uuid new = db_uuid old → generation old < generation new →
  superblock_fits_file new (zlen f) = true →
  let off := page_offset (slot_page_num (inactive slot)) in
  (∃ f', write_superblock_v2 (inactive slot) new f = Ok f' ∧ zlen f' = zlen f ∧
     open_superblock f' = Ok (with_checksum new, inactive slot)) ∧
  (∀ d e, torn (sub f off PAGE_SIZE) (sb_bytes new ++ replicate (Z.to_nat PAGE_SIZE - 68) 0) d →
     sb_deserialize (sub d 0 COW_SUPERBLOCK_SIZE) = Err e →
     open_superblock (file_write off d f) = Ok (old, slot)).
Proof.
  intros Hf Hm Hold Hfit Hok Hu Hg Hfit' off. pose proof PAGE_SIZE_bounds.
  pose proof (proj1 (ok_uuid new Hok)) as Hul.
  pose proof (page_offset_range (inactive slot) f Hf) as [? ?]. fold off in H1, H2.
  split.
  - eexists. split.
    { unfold write_superblock_v2. rewrite sb_serialize_Ok by (rewrite ?zlen_zero_page; lia).
      cbn [mbind res_bind]. reflexivity. }
    assert (zlen (sb_bytes new ++ replicate (length zero_page - 68) 0) = PAGE_SIZE) as Hd.
    { pose proof zlen_zero_page. rewrite zlen_app, zlen_sb_bytes, zlen_replicate by done. unfold zlen in *. lia. }
    destruct (write_slot_reads (inactive slot) _ f Hf Hd) as (Hl & Hr1 & Hr2). split; [done|].
    rewrite (open_superblock_choose (inactive slot)), Hr1, Hr2, inactive_inactive, Hold, Hl;
      [|lia|apply write_slot_magic; auto using sb_bytes_magic].
    rewrite sub_app_l, sub_all, <- (app_nil_r (sb_bytes new)), sb_deserialize_bytes
      by (done || unfold COW_SUPERBLOCK_SIZE; rewrite zlen_sb_bytes by done; lia).
    by apply choose_newer.
  - intros d e Ht He.
    assert (zlen d = PAGE_SIZE) as Hd.
    { pose proof (zlen_sb_bytes new Hul). destruct Ht as [Ht _]. unfold zlen in *. rewrite Ht, length_app, length_replicate. lia. }
    destruct (write_slot_reads (inactive slot) d f Hf Hd) as (Hl & Hr1 & Hr2). fold off in Hl, Hr1, Hr2.
    rewrite (open_superblock_choose slot), Hl, Hr1; [|lia|].
    + rewrite inactive_inactive in Hr2. rewrite Hr2, Hold, He. by apply choose_single.
    + apply write_slot_magic; try done. intros Hs. apply (torn_magic _ _ _ Ht); [|apply sb_bytes_magic].
      unfold off. rewrite Hs. change (page_offset (slot_page_num SlotA)) with 0. by rewrite sub_sub by lia.
Qed.

(** [open_cow_v2] looks at the magic of page 1 before it looks at the slots:
    when that magic is damaged, a sound superblock in slot B that
    [choose_openable_superblock_v2] would take is not opened. *)
Theorem bad_magic_hides_slot_b f b :
  PAGE_SIZE * 2 ≤ zlen f → sub f 0 16 ≠ COW_MAGIC →
  read_superblock_v2 f 2 = Ok b → superblock_fits_file b (zlen f) = true →
  choose_openable_superblock_v2 (read_superblock_v2 f 1) (read_superblock_v2 f 2) (zlen f) = Ok (b, SlotB) ∧
  open_superblock f = Err (CorruptDatabase "database is not format v2").
Proof.
  intros Hf Hm Hb Hfit. pose proof PAGE_SIZE_bounds. split.
  - assert (read_superblock_v2 f 1 = Err (CorruptDatabase "invalid superblock magic")) as ->.
    { pose proof (read_superblock_sub SlotA f Hf) as E. simpl in E. rewrite E.
      unfold sb_deserialize, COW_SUPERBLOCK_SIZE, page_offset. rewrite length_sub by lia.
      destruct (Z.ltb_spec 68 68); [lia|]. change ((1 - 1) * PAGE_SIZE) with 0.
      assert (slice (sub f 0 68) 0 16 = Ok (sub f 0 16)) as ->.
      { rewrite slice_Ok by (rewrite ?length_sub; lia). by rewrite sub_sub by lia. }
      cbn [mbind res_bind]. by rewrite bool_decide_false. }
    rewrite Hb. simpl. by rewrite Hfit.
  - unfold open_superblock. destruct (Z.ltb_spec (zlen f) (PAGE_SIZE * 2)); [lia|].
    by rewrite file_read_Some, bool_decide_false by (done || lia).
Qed.
End Lemmas.

(** ** Witnesses *)

Definition demo_uuid : bytes := replicate 16 7.
Definition demo_file `{PageSize} : file := match create_file demo_uuid with Ok f => f | _ => [] end.
(** The superblock of the first commit. *)
Definition demo_next `{PageSize} : SuperblockV2 := with_generation 2 (initial_superblock_a demo_uuid).

Lemma demo_next_ok `{PageSize} : sb_ok demo_next.
Proof.
  split; try done. split; [done|]. apply Forall_replicate. done.
Qed.

Lemma superblock_roundtrip_witness :
  let _ := page_size_512 in
  ∃ buf', sb_serialize demo_next (replicate 80 1) = Ok buf' ∧ zlen buf' = 80 ∧
    sb_deserialize buf' = Ok (with_checksum demo_next).
Proof. intros Hps. apply (superblock_roundtrip demo_next (replicate 80 1)); [apply demo_next_ok|]. done. Defined.

Lemma superblock_decode_safe_witness :
  let _ := page_size_512 in
  ∃ sb, sb_deserialize (sub demo_file 0 68) = Ok sb ∧
    sub (sub demo_file 0 68) 0 COW_SUPERBLOCK_SIZE = sb_bytes sb.
Proof.
  intros Hps. assert (bytes_ok (sub demo_file 0 68)) as Hb.
  { apply (bool_decide_unpack _). vm_compute. done. }
  assert (is_Ok (sb_deserialize (sub demo_file 0 68)) = true) as E by (vm_compute; done).
  destruct (superblock_decode_safe (sub demo_file 0 68) Hb) as [(sb & Hsb & _ & _ & Hs)|(msg & Hm)].
  - exists sb. split; [exact Hsb | exact Hs].
  - rewrite Hm in E. discriminate E.
Defined.

(** The first commit of a fresh database writes slot B: done, it is opened;
    stopped after forty bytes, slot A is. *)
Definition demo_torn `{PageSize} : bytes :=
  take 40 (sb_bytes demo_next ++ replicate (Z.to_nat PAGE_SIZE - 68) 0) ++ drop 40 (sub demo_file PAGE_SIZE PAGE_SIZE).
Lemma superblock_commit_atomic_witness :
  let _ := page_size_512 in
  (∃ f', write_superblock_v2 SlotB demo_next demo_file = Ok f' ∧
     open_superblock f' = Ok (with_checksum demo_next, SlotB)) ∧
  open_superblock (file_write 512 demo_torn demo_file)
    = Ok (with_checksum (initial_superblock_a demo_uuid), SlotA).
Proof.
  intros Hps.
  destruct (superblock_commit_atomic demo_file SlotA (with_checksum (initial_superblock_a demo_uuid)) demo_next)
    as [(f' & Hw & _ & Ho) Ht].
  1-4,6-8: vm_compute; done.
  - apply demo_next_ok.
  - split; [by exists f'|]. apply (Ht demo_torn (CorruptDatabase "superblock checksum mismatch")).
    + apply torn_prefix. vm_compute. done.
    + vm_compute. done.
Defined.

Lemma bad_magic_hides_slot_b_witness :
  let _ := page_size_512 in
  let f := file_write 0 [0] demo_file in
  choose_openable_superblock_v2 (read_superblock_v2 f 1) (read_superblock_v2 f 2) (zlen f)
    = Ok (with_checksum (initial_superblock_b demo_uuid), SlotB) ∧
  open_superblock f = Err (CorruptDatabase "database is not format v2").
Proof.
  intros Hps f. apply (bad_magic_hides_slot_b f (with_checksum (initial_superblock_b demo_uuid))).
  - vm_compute. discriminate.
  - vm_compute. discriminate.
  - vm_compute. reflexivity.
  - vm_compute. reflexivity.
Defined.
