(* ===== verification/Wal.v ===== *)
(** The write-ahead log (src/src/storage/wal.rs): the byte formats of its
    header and frames, the in-memory index, writing, committing, rolling back
    and reading pages, reopening after a crash, checkpointing into the
    database file, and reader snapshots.

    The log file and the database file are [FileIO.file]s; the clock that
    supplies the salts is the argument [nanos].  Frame indices are natural
    numbers, statistics counters are unbounded. *)
From S2P Require Import Prelude PagerIface FileIO.

(** [b"WLOG"] *)
Definition WAL_MAGIC : bytes := [87; 76; 79; 71].
Definition WAL_VERSION : Z := 1.
Definition WAL_HEADER_SIZE : Z := 32.
Definition WAL_FRAME_HEADER_SIZE : Z := 24.

(** ** Data *)

Record WalHeader := mkWalHeader {
  wal_version : Z; db_uuid_prefix : bytes; wal_page_size : Z; salt1 : Z; salt2 : Z
}.
Record WalFrame := mkWalFrame { page_num : Z; commit_size : Z; frame_checksum : Z; data : bytes }.
Record WalIndex := mkWalIndex {
  page_map : gmap Z nat; total_frames : nat; index_committed : nat; db_page_count : Z
}.
Definition WalIndex_new : WalIndex := mkWalIndex ∅ 0 0 0.

Inductive WalSyncMode := Immediate | GroupCommit | NoSync.
Record WalStats := mkWalStats {
  total_commits : Z; total_fsyncs : Z; group_syncs : Z; total_frames_written : Z;
  stat_pending_sync_commits : Z; total_checkpoints : Z; total_checkpoint_frames : Z;
  blocked_checkpoints : Z; max_batch_size : Z; wal_file_bytes : Z
}.
Definition WalStats_default : WalStats := mkWalStats 0 0 0 0 0 0 0 0 0 0.
Record GroupCommitConfig := mkGroupCommitConfig { max_batch_commits : Z; auto_sync_on_batch : bool }.
Record SnapshotEntry := mkSnapshotEntry { snapshot_id : Z; visible_frames : nat }.
Record WalSnapshot := mkWalSnapshot { snap_page_map : gmap Z nat; snapshot_end : nat }.

Record Wal := mkWal {
  wal_file : option file;
  header : WalHeader;
  wal_index : WalIndex;
  uncommitted : list WalFrame;
  committed_frames : list WalFrame;
  auto_checkpoint_threshold : Z;
  sync_mode : WalSyncMode;
  pending_sync_commits : Z;
  stats : WalStats;
  active_snapshots : list SnapshotEntry;
  next_snapshot_id : Z;
  group_commit_config : GroupCommitConfig
}.

#[export] Instance WalHeader_eq_dec : EqDecision WalHeader.
Proof. solve_decision. Defined.
#[export] Instance WalFrame_eq_dec : EqDecision WalFrame.
Proof. solve_decision. Defined.
#[export] Instance SnapshotEntry_eq_dec : EqDecision SnapshotEntry.
Proof. solve_decision. Defined.

(** The counters [commit], [group_sync] and [checkpoint] update. *)
Definition stats_fsync (s : WalStats) : WalStats :=
  mkWalStats (total_commits s) (total_fsyncs s + 1) (group_syncs s) (total_frames_written s)
    (stat_pending_sync_commits s) (total_checkpoints s) (total_checkpoint_frames s)
    (blocked_checkpoints s) (max_batch_size s) (wal_file_bytes s).
Definition stats_commit (frames pending : Z) (file_bytes : option Z) (s : WalStats) : WalStats :=
  mkWalStats (total_commits s + 1) (total_fsyncs s) (group_syncs s) (total_frames_written s + frames)
    pending (total_checkpoints s) (total_checkpoint_frames s) (blocked_checkpoints s)
    (if max_batch_size s <? pending then pending else max_batch_size s)
    (default (wal_file_bytes s) file_bytes).
Definition stats_group_sync (has_file : bool) (s : WalStats) : WalStats :=
  mkWalStats (total_commits s) (total_fsyncs s + if has_file then 1 else 0)
    (group_syncs s + if has_file then 1 else 0) (total_frames_written s) 0 (total_checkpoints s)
    (total_checkpoint_frames s) (blocked_checkpoints s) (max_batch_size s) (wal_file_bytes s).
Definition stats_checkpoint (applied : Z) (s : WalStats) : WalStats :=
  mkWalStats (total_commits s) (total_fsyncs s) (group_syncs s) (total_frames_written s)
    (stat_pending_sync_commits s) (total_checkpoints s + 1) (total_checkpoint_frames s + applied)
    (blocked_checkpoints s) (max_batch_size s) (wal_file_bytes s).
Definition stats_blocked (s : WalStats) : WalStats :=
  mkWalStats (total_commits s) (total_fsyncs s) (group_syncs s) (total_frames_written s)
    (stat_pending_sync_commits s) (total_checkpoints s) (total_checkpoint_frames s)
    (blocked_checkpoints s + 1) (max_batch_size s) (wal_file_bytes s).
Definition stats_file_bytes (n : Z) (s : WalStats) : WalStats :=
  mkWalStats (total_commits s) (total_fsyncs s) (group_syncs s) (total_frames_written s)
    (stat_pending_sync_commits s) (total_checkpoints s) (total_checkpoint_frames s)
    (blocked_checkpoints s) (max_batch_size s) n.

(** ** Header format *)

(** [WalHeader::new]: the salts are the low and the high word of the clock. *)
Definition salt_low (nanos : Z) : Z := as_u32 (Z.land nanos 0xFFFFFFFF).
Definition salt_high (nanos : Z) : Z := as_u32 (Z.land (Z.shiftr nanos 32) 0xFFFFFFFF).
Definition WalHeader_new (uuid : bytes) (psize nanos : Z) : WalHeader :=
  mkWalHeader WAL_VERSION (take 8 uuid) psize (salt_low nanos) (salt_high nanos).

Definition header_serialize (h : WalHeader) : res bytes :=
  buf ← copy_from_slice (replicate 32 0) 0 4 WAL_MAGIC;
  buf ← copy_from_slice buf 4 8 (le_bytes 4 (wal_version h));
  buf ← copy_from_slice buf 8 16 (db_uuid_prefix h);
  buf ← copy_from_slice buf 16 20 (le_bytes 4 (wal_page_size h));
  buf ← copy_from_slice buf 20 24 (le_bytes 4 (salt1 h));
  copy_from_slice buf 24 28 (le_bytes 4 (salt2 h)).

Definition header_deserialize (buf : bytes) : res WalHeader :=
  if zlen buf <? WAL_HEADER_SIZE then Err (CorruptDatabase "WAL header too short") else
  magic ← slice buf 0 4;
  if negb (bool_decide (magic = WAL_MAGIC)) then Err (CorruptDatabase "invalid WAL magic") else
  version ← read_u32 buf 4;
  if negb (version =? WAL_VERSION) then Err (CorruptDatabase ("unsupported WAL version: " +:+ pretty version)) else
  prefix ← slice buf 8 16;
  psize ← read_u32 buf 16;
  s1 ← read_u32 buf 20;
  s2 ← read_u32 buf 24;
  Ok (mkWalHeader version prefix psize s1 s2).

Section Wal.
Context `{PageSize}.

Definition WAL_FRAME_SIZE : Z := WAL_FRAME_HEADER_SIZE + PAGE_SIZE.

(** ** Frame format *)

Definition frame_serialize (f : WalFrame) (s1 s2 : Z) : res bytes :=
  buf ← copy_from_slice (replicate (Z.to_nat WAL_FRAME_SIZE) 0) 0 4 (le_bytes 4 (page_num f));
  buf ← copy_from_slice buf 4 8 (le_bytes 4 (commit_size f));
  buf ← copy_from_slice buf 8 12 (le_bytes 4 s1);
  buf ← copy_from_slice buf 12 16 (le_bytes 4 s2);
  head ← slice buf 0 16;
  let ck := fnv32 (head ++ data f) in
  buf ← copy_from_slice buf 16 20 (le_bytes 4 ck);
  buf ← copy_from_slice buf 20 24 (le_bytes 4 0);
  copy_from_slice buf 24 (24 + PAGE_SIZE) (data f).

Definition frame_deserialize (buf : bytes) (s1 s2 : Z) : res WalFrame :=
  if zlen buf <? WAL_FRAME_SIZE then Err (CorruptDatabase "WAL frame too short") else
  pnum ← read_u32 buf 0;
  csize ← read_u32 buf 4;
  fs1 ← read_u32 buf 8;
  fs2 ← read_u32 buf 12;
  if negb (fs1 =? s1) || negb (fs2 =? s2)
  then Err (CorruptDatabase "WAL frame salt mismatch (stale WAL?)") else
  stored ← read_u32 buf 16;
  head ← slice buf 0 16;
  page ← slice buf 24 (24 + PAGE_SIZE);
  if negb (stored =? fnv32 (head ++ page)) then Err (CorruptDatabase "WAL frame checksum mismatch")
  else Ok (mkWalFrame pnum csize stored page).

(** ** Opening *)

Definition new_wal (f : option file) (h : WalHeader) (ix : WalIndex) (frames : list WalFrame) (threshold : Z) : Wal :=
  mkWal f h ix [] frames threshold Immediate 0 WalStats_default [] 1 (mkGroupCommitConfig 0 false).

(** [Wal::create]: the file is truncated and the header written. *)
Definition create (uuid : bytes) (nanos : Z) : res Wal :=
  let h := WalHeader_new uuid PAGE_SIZE nanos in
  hdr ← header_serialize h;
  Ok (new_wal (Some (file_write 0 hdr [])) h WalIndex_new [] 1000).

(** The loop of [Wal::open] over the frames, from [offset] on: [pending] maps
    the pages of the frames since the last commit frame, [frames] is
    [committed_frames].  [fuel] counts the frames that may still come. *)
Fixpoint scan_frames (fuel : nat) (f : file) (h : WalHeader) (offset : Z) (pending : gmap Z nat)
    (frames : list WalFrame) (ix : WalIndex) (frame_idx : nat) : res (list WalFrame * WalIndex) :=
  let stop := Ok (frames, mkWalIndex (page_map ix) frame_idx (index_committed ix) (db_page_count ix)) in
  if zlen f <? offset + WAL_FRAME_SIZE then stop
  else match fuel with
  | O => Hang
  | S fuel =>
      match file_read_exact offset WAL_FRAME_SIZE f with
      | None => stop
      | Some buf =>
          match frame_deserialize buf (salt1 h) (salt2 h) with
          | Err _ => stop
          | Panic => Panic
          | Hang => Hang
          | Ok frame =>
              let pending := <[page_num frame := length frames]> pending in
              let frames := frames ++ [frame] in
              let commit := 0 <? commit_size frame in
              let ix := if commit
                then mkWalIndex (pending ∪ page_map ix) (total_frames ix) (length frames) (commit_size frame)
                else ix in
              scan_frames fuel f h (offset + WAL_FRAME_SIZE) (if commit then ∅ else pending) frames ix (S frame_idx)
          end
      end
  end.

(** [Wal::open] of a file that exists, by its contents. *)
Definition open (f : file) : res Wal :=
  if zlen f <? WAL_HEADER_SIZE then Err (CorruptDatabase "WAL file too short") else
  hdr_buf ← slice f 0 WAL_HEADER_SIZE;
  h ← header_deserialize hdr_buf;
  r ← scan_frames (Z.to_nat (zlen f / WAL_FRAME_SIZE)) f h WAL_HEADER_SIZE ∅ [] WalIndex_new 0;
  let '(frames, ix) := r in
  Ok (new_wal (Some f) h ix (take (index_committed ix) frames) 1000).

(** [Wal::open_or_create]; [None] when there is no file yet. *)
Definition open_or_create (f : option file) (uuid : bytes) (nanos : Z) : res Wal :=
  match f with
  | Some f => if WAL_HEADER_SIZE <=? zlen f then open f else create uuid nanos
  | None => create uuid nanos
  end.

Definition open_memory (uuid : bytes) (nanos : Z) : Wal :=
  new_wal None (WalHeader_new uuid PAGE_SIZE nanos) WalIndex_new [] U64_MAX.

(** ** Writing and committing *)

Definition set_uncommitted (fs : list WalFrame) (w : Wal) : Wal :=
  mkWal (wal_file w) (header w) (wal_index w) fs (committed_frames w) (auto_checkpoint_threshold w)
    (sync_mode w) (pending_sync_commits w) (stats w) (active_snapshots w) (next_snapshot_id w) (group_commit_config w).

Definition write_page (pnum : Z) (d : bytes) (w : Wal) : Wal :=
  set_uncommitted (uncommitted w ++ [mkWalFrame pnum 0 0 d]) w.

(** [self.uncommitted[last_idx].commit_size = db_page_count] *)
Definition mark_commit (n : Z) (fs : list WalFrame) : list WalFrame :=
  alter (λ f, mkWalFrame (page_num f) n (frame_checksum f) (data f)) (length fs - 1)%nat fs.

(** [write_all] of each frame in turn, from [off] on. *)
Fixpoint write_frames (h : WalHeader) (off : Z) (fs : list WalFrame) (f : file) : res file :=
  match fs with
  | [] => Ok f
  | frame :: fs =>
      bs ← frame_serialize frame (salt1 h) (salt2 h);
      write_frames h (off + zlen bs) fs (file_write off bs f)
  end.

(** [page_map.insert(frame.page_num, base + i)] for each frame in turn. *)
Fixpoint index_frames (base : nat) (fs : list WalFrame) (m : gmap Z nat) : gmap Z nat :=
  match fs with
  | [] => m
  | f :: fs => index_frames (S base) fs (<[page_num f := base]> m)
  end.

Definition group_sync (w : Wal) : Z * Wal :=
  let pending := pending_sync_commits w in
  if pending =? 0 then (0, w)
  else (pending,
    mkWal (wal_file w) (header w) (wal_index w) (uncommitted w) (committed_frames w) (auto_checkpoint_threshold w)
      (sync_mode w) 0 (stats_group_sync (bool_decide (is_Some (wal_file w))) (stats w))
      (active_snapshots w) (next_snapshot_id w) (group_commit_config w)).

Definition commit (n : Z) : ST Wal unit := λ w,
  match uncommitted w with
  | [] => (Ok tt, w)
  | _ =>
      let fs := mark_commit n (uncommitted w) in
      let off := WAL_HEADER_SIZE + Z.of_nat (total_frames (wal_index w)) * WAL_FRAME_SIZE in
      match (match wal_file w with None => Ok None | Some f => Some <$> write_frames (header w) off fs f end) with
      | Ok f' =>
          let has_file := bool_decide (is_Some (wal_file w)) in
          let pending := match sync_mode w with
            | GroupCommit => if has_file then pending_sync_commits w + 1 else pending_sync_commits w
            | _ => pending_sync_commits w end in
          let st := match sync_mode w with
            | Immediate => if has_file then stats_fsync (stats w) else stats w
            | _ => stats w end in
          let committed := committed_frames w ++ fs in
          let file_bytes := if has_file then Some (WAL_HEADER_SIZE + zlen committed * WAL_FRAME_SIZE) else None in
          let w' := mkWal f' (header w)
            (mkWalIndex (index_frames (length (committed_frames w)) fs (page_map (wal_index w)))
               (length committed) (length committed) n)
            [] committed (auto_checkpoint_threshold w) (sync_mode w) pending
            (stats_commit (zlen fs) pending file_bytes st) (active_snapshots w) (next_snapshot_id w)
            (group_commit_config w) in
          let cfg := group_commit_config w in
          if auto_sync_on_batch cfg && (0 <? max_batch_commits cfg) && (max_batch_commits cfg <=? pending)
          then (Ok tt, (group_sync w').2) else (Ok tt, w')
      | Err e => (Err e, set_uncommitted fs w)
      | Panic => (Panic, set_uncommitted fs w)
      | Hang => (Hang, set_uncommitted fs w)
      end
  end.

Definition rollback (w : Wal) : Wal := set_uncommitted [] w.

(** ** Reading *)

Definition read_page (pnum : Z) (w : Wal) : option bytes :=
  match List.find (λ f, page_num f =? pnum) (rev (uncommitted w)) with
  | Some frame => Some (data frame)
  | None => i ← page_map (wal_index w) !! pnum; data <$> committed_frames w !! i
  end.

Definition register_snapshot (w : Wal) : (Z * WalSnapshot) * Wal :=
  let id := next_snapshot_id w in
  let snap := mkWalSnapshot (page_map (wal_index w)) (length (committed_frames w)) in
  ((id, snap),
   mkWal (wal_file w) (header w) (wal_index w) (uncommitted w) (committed_frames w) (auto_checkpoint_threshold w)
     (sync_mode w) (pending_sync_commits w) (stats w)
     (active_snapshots w ++ [mkSnapshotEntry id (snapshot_end snap)]) (id + 1) (group_commit_config w)).
Definition set_snapshots (l : list SnapshotEntry) (w : Wal) : Wal :=
  mkWal (wal_file w) (header w) (wal_index w) (uncommitted w) (committed_frames w) (auto_checkpoint_threshold w)
    (sync_mode w) (pending_sync_commits w) (stats w) l (next_snapshot_id w) (group_commit_config w).
Definition release_snapshot (id : Z) (w : Wal) : bool * Wal :=
  let kept := filter (λ s, snapshot_id s ≠ id) (active_snapshots w) in
  (bool_decide (length kept < length (active_snapshots w))%nat, set_snapshots kept w).
Definition snapshot (w : Wal) : WalSnapshot :=
  mkWalSnapshot (page_map (wal_index w)) (length (committed_frames w)).
Definition read_page_snapshot (pnum : Z) (s : WalSnapshot) (w : Wal) : option bytes :=
  i ← snap_page_map s !! pnum;
  if ((i <? snapshot_end s) && (i <? length (committed_frames w)))%nat
  then data <$> committed_frames w !! i else None.
Definition has_page (pnum : Z) (s : WalSnapshot) : bool :=
  match snap_page_map s !! pnum with Some i => (i <? snapshot_end s)%nat | None => false end.

(** ** Checkpointing *)

(** The smallest [visible_frames] of the active snapshots. *)
Definition min_visible (l : list SnapshotEntry) : nat :=
  match map visible_frames l with [] => 0 | v :: vs => foldl Nat.min v vs end.
Definition safe_checkpoint_boundary (w : Wal) : nat :=
  match active_snapshots w with
  | [] => length (committed_frames w)
  | snaps => if (length (committed_frames w) <=? min_visible snaps)%nat then length (committed_frames w) else 0
  end.
Definition is_checkpoint_blocked (w : Wal) : bool :=
  match active_snapshots w with [] => false | _ => (safe_checkpoint_boundary w =? 0)%nat end.
Definition should_checkpoint (w : Wal) : bool := auto_checkpoint_threshold w <=? zlen (committed_frames w).
Definition is_empty (w : Wal) : bool :=
  match committed_frames w, uncommitted w with [], [] => true | _, _ => false end.

(** The loop of the checkpoints over the page map, in the order of [entries];
    a partial checkpoint
    writes only the frames below its [boundary].  The keys of a map are distinct,
    so the source's [written_pages] never skips a page. *)
Fixpoint apply_frames (entries : list (Z * nat)) (frames : list WalFrame) (boundary : option nat) (db : file) : res file :=
  match entries with
  | [] => Ok db
  | (pnum, i) :: entries =>
      if match boundary with Some b => (b <=? i)%nat | None => false end then apply_frames entries frames boundary db
      else
        match frames !! i with
        | None => Panic
        | Some frame =>
            if pnum =? 0 then Panic
            else apply_frames entries frames boundary (file_write ((pnum - 1) * PAGE_SIZE) (data frame) db)
        end
  end.

(** The database file as [full_checkpoint] leaves it, its length included. *)
Definition apply_full (w : Wal) (db : file) : res file :=
  db ← apply_frames (map_to_list (page_map (wal_index w))) (committed_frames w) None db;
  Ok (if 0 <? db_page_count (wal_index w) then file_set_len (db_page_count (wal_index w) * PAGE_SIZE) db else db).
Definition fresh_salts (nanos : Z) (h : WalHeader) : WalHeader :=
  mkWalHeader (wal_version h) (db_uuid_prefix h) (wal_page_size h) (salt_low nanos) (salt_high nanos).

(** The number of frames applied, the database file and the log afterwards. *)
Definition full_checkpoint (nanos : Z) (w : Wal) (db : file) : res (nat * file * Wal) :=
  db ← apply_full w db;
  let h := fresh_salts nanos (header w) in
  f ← match wal_file w with
      | None => Ok None
      | Some f => hdr ← header_serialize h; Ok (Some (file_set_len WAL_HEADER_SIZE (file_write 0 hdr f)))
      end;
  Ok (length (committed_frames w), db,
      mkWal f h WalIndex_new [] [] (auto_checkpoint_threshold w) (sync_mode w) (pending_sync_commits w)
        (stats_file_bytes WAL_HEADER_SIZE (stats w)) (active_snapshots w) (next_snapshot_id w) (group_commit_config w)).

Definition partial_checkpoint (boundary : nat) (w : Wal) (db : file) : res (nat * file * Wal) :=
  if (boundary =? 0)%nat then Ok (0%nat, db, w) else
  db ← apply_frames (map_to_list (page_map (wal_index w))) (committed_frames w) (Some boundary) db;
  let kept := drop boundary (committed_frames w) in
  Ok (boundary, db,
      mkWal (wal_file w) (header w)
        (mkWalIndex (index_frames 0 kept ∅) (length kept) (length kept) (db_page_count (wal_index w)))
        (uncommitted w) kept (auto_checkpoint_threshold w) (sync_mode w) (pending_sync_commits w) (stats w)
        (map (λ s, mkSnapshotEntry (snapshot_id s) (visible_frames s - boundary)%nat) (active_snapshots w))
        (next_snapshot_id w) (group_commit_config w)).

Definition set_stats (st : WalStats) (w : Wal) : Wal :=
  mkWal (wal_file w) (header w) (wal_index w) (uncommitted w) (committed_frames w) (auto_checkpoint_threshold w)
    (sync_mode w) (pending_sync_commits w) st (active_snapshots w) (next_snapshot_id w) (group_commit_config w).

Definition checkpoint (nanos : Z) (w : Wal) (db : file) : res (nat * file * Wal) :=
  let boundary := safe_checkpoint_boundary w in
  if (boundary =? 0)%nat && negb (bool_decide (active_snapshots w = []))
  then Ok (0%nat, db, set_stats (stats_blocked (stats w)) w)
  else
    r ← (if (length (committed_frames w) <=? boundary)%nat then full_checkpoint nanos w db
         else partial_checkpoint boundary w db);
    let '(n, db, w') := r in
    Ok (n, db, set_stats (stats_checkpoint (Z.of_nat n) (stats w')) w').
End Wal.

(** ** Lemmas: formats *)

(** The bytes of a header and of a frame. *)
Definition header_bytes (h : WalHeader) : bytes :=
  WAL_MAGIC ++ le_bytes 4 (wal_version h) ++ db_uuid_prefix h ++ le_bytes 4 (wal_page_size h) ++
  le_bytes 4 (salt1 h) ++ le_bytes 4 (salt2 h) ++ replicate 4 0.
Definition frame_head (s1 s2 : Z) (f : WalFrame) : bytes :=
  le_bytes 4 (page_num f) ++ le_bytes 4 (commit_size f) ++ le_bytes 4 s1 ++ le_bytes 4 s2.
Definition frame_check (s1 s2 : Z) (f : WalFrame) : Z := fnv32 (frame_head s1 s2 f ++ data f).
Definition frame_bytes (s1 s2 : Z) (f : WalFrame) : bytes :=
  frame_head s1 s2 f ++ le_bytes 4 (frame_check s1 s2 f) ++ le_bytes 4 0 ++ data f.
(** The frame as it is read back: the checksum field is filled in. *)
Definition seal (h : WalHeader) (f : WalFrame) : WalFrame :=
  mkWalFrame (page_num f) (commit_size f) (frame_check (salt1 h) (salt2 h) f) (data f).

Record header_ok (h : WalHeader) : Prop := {
  ok_wal_version : wal_version h = WAL_VERSION;
  ok_prefix : zlen (db_uuid_prefix h) = 8;
  ok_wal_page_size : is_u32 (wal_page_size h);
  ok_salt1 : is_u32 (salt1 h);
  ok_salt2 : is_u32 (salt2 h)
}.
Record frame_ok `{PageSize} (f : WalFrame) : Prop := {
  ok_page_num : is_u32 (page_num f);
  ok_commit_size : is_u32 (commit_size f);
  ok_data : zlen (data f) = PAGE_SIZE
}.

Lemma zlen_header_bytes h : header_ok h → zlen (header_bytes h) = 32.
Proof. intros [_ Hp _ _ _]. unfold header_bytes. rewrite !zlen_app, !zlen_le_bytes, Hp. done. Qed.
Lemma zlen_frame_head s1 s2 f : zlen (frame_head s1 s2 f) = 16.
Proof. unfold frame_head. by rewrite !zlen_app, !zlen_le_bytes. Qed.

Lemma header_serialize_Ok h : header_ok h → header_serialize h = Ok (header_bytes h).
Proof.
  intros [_ Hp _ _ _]. unfold header_serialize. assert (length (db_uuid_prefix h) = 8)%nat as Hp' by (unfold zlen in Hp; lia).
  assert (length WAL_MAGIC = 4)%nat as Hm by done.
  change (replicate 32 0) with ([] ++ replicate 32 0).
  repeat (rewrite fill_next by (rewrite ?zlen_app, ?zlen_le_bytes, ?Hp, ?length_le_bytes, ?Hp', ?Hm; done || lia);
          rewrite ?length_le_bytes, ?Hp', ?Hm; cbn [mbind res_bind]).
  unfold header_bytes. rewrite <- !app_assoc. done.
Qed.
(** Where each field lies. *)
Lemma header_fields h :
  zlen (db_uuid_prefix h) = 8 →
  let buf := header_bytes h in
  slice buf 0 4 = Ok WAL_MAGIC ∧ slice buf 4 8 = Ok (le_bytes 4 (wal_version h)) ∧
  slice buf 8 16 = Ok (db_uuid_prefix h) ∧ slice buf 16 20 = Ok (le_bytes 4 (wal_page_size h)) ∧
  slice buf 20 24 = Ok (le_bytes 4 (salt1 h)) ∧ slice buf 24 28 = Ok (le_bytes 4 (salt2 h)).
Proof.
  intros Hp buf. subst buf. assert (zlen WAL_MAGIC = 4) as Hm by done. unfold header_bytes.
  split_and!; repeat (rewrite slice_skip by (rewrite ?zlen_le_bytes, ?Hp, ?Hm; lia); rewrite ?zlen_le_bytes, ?Hp, ?Hm);
    apply slice_here; rewrite ?zlen_le_bytes, ?Hp, ?Hm; lia.
Qed.
Lemma header_deserialize_bytes h : header_ok h → header_deserialize (header_bytes h) = Ok h.
Proof.
  intros Hok. pose proof (zlen_header_bytes h Hok) as Hl. destruct Hok as [Hv Hp Hs H1 H2].
  unfold header_deserialize, WAL_HEADER_SIZE. rewrite Hl. destruct (Z.ltb_spec 32 32); [lia|].
  destruct (header_fields h Hp) as (E1 & E2 & E3 & E4 & E5 & E6). unfold read_u32.
  change (4 + 4) with 8. change (16 + 4) with 20. change (20 + 4) with 24. change (24 + 4) with 28.
  rewrite E1, E2, E3, E4, E5, E6. int_unfold. cbn [fmap res_fmap mbind res_bind].
  rewrite !le_val_id by (rewrite ?Hv; done || lia).
  rewrite bool_decide_true, Hv by done. cbn [negb mbind res_bind]. rewrite Z.eqb_refl. cbn [negb].
  destruct h; simpl in *. by rewrite Hv.
Qed.

Section Formats.
Context `{PageSize}.

Lemma zlen_frame_bytes s1 s2 f : zlen (data f) = PAGE_SIZE → zlen (frame_bytes s1 s2 f) = WAL_FRAME_SIZE.
Proof.
  intros Hd. unfold frame_bytes, WAL_FRAME_SIZE, WAL_FRAME_HEADER_SIZE. rewrite !zlen_app, zlen_frame_head, !zlen_le_bytes. lia.
Qed.

Lemma frame_serialize_Ok f s1 s2 :
  zlen (data f) = PAGE_SIZE → frame_serialize f s1 s2 = Ok (frame_bytes s1 s2 f).
Proof.
  intros Hd. pose proof PAGE_SIZE_bounds. unfold frame_serialize.
  assert (length (data f) = Z.to_nat PAGE_SIZE)%nat as Hd' by (unfold zlen in Hd; lia).
  replace (Z.to_nat WAL_FRAME_SIZE) with (24 + Z.to_nat PAGE_SIZE)%nat by (unfold WAL_FRAME_SIZE, WAL_FRAME_HEADER_SIZE; lia).
  change (replicate (24 + Z.to_nat PAGE_SIZE) 0) with ([] ++ replicate (24 + Z.to_nat PAGE_SIZE) 0).
  repeat (rewrite fill_next by (rewrite ?zlen_app, ?zlen_le_bytes, ?length_le_bytes; done || lia);
          rewrite ?length_le_bytes; cbn [mbind res_bind]).
  match goal with |- context [slice (?p ++ _) 0 16] =>
    replace p with (frame_head s1 s2 f) by (unfold frame_head; by rewrite <- !app_assoc) end.
  rewrite slice_here by (by rewrite zlen_frame_head). cbn [mbind res_bind].
  repeat (rewrite fill_next by (rewrite ?zlen_app, ?zlen_frame_head, ?zlen_le_bytes, ?length_le_bytes; done || lia);
          rewrite ?length_le_bytes; cbn [mbind res_bind]).
  rewrite Hd'. replace (_ - Z.to_nat PAGE_SIZE)%nat with 0%nat by lia.
  unfold frame_bytes, frame_check. rewrite <- !app_assoc. cbn [replicate]. by rewrite app_nil_r.
Qed.

Lemma frame_fields s1 s2 f l :
  zlen (data f) = PAGE_SIZE →
  let buf := frame_bytes s1 s2 f ++ l in
  slice buf 0 4 = Ok (le_bytes 4 (page_num f)) ∧ slice buf 4 8 = Ok (le_bytes 4 (commit_size f)) ∧
  slice buf 8 12 = Ok (le_bytes 4 s1) ∧ slice buf 12 16 = Ok (le_bytes 4 s2) ∧
  slice buf 16 20 = Ok (le_bytes 4 (frame_check s1 s2 f)) ∧ slice buf 0 16 = Ok (frame_head s1 s2 f) ∧
  slice buf 24 (24 + PAGE_SIZE) = Ok (data f).
Proof.
  intros Hd buf. subst buf. pose proof (zlen_frame_head s1 s2 f) as Hh. pose proof PAGE_SIZE_bounds.
  unfold frame_bytes. generalize (frame_check s1 s2 f). intros ck. rewrite <- !app_assoc.
  assert (slice (frame_head s1 s2 f ++ le_bytes 4 ck ++ le_bytes 4 0 ++ data f ++ l) 0 16 = Ok (frame_head s1 s2 f)) as H16
    by (by apply slice_here).
  assert (slice (frame_head s1 s2 f ++ le_bytes 4 ck ++ le_bytes 4 0 ++ data f ++ l) 16 20 = Ok (le_bytes 4 ck)) as H20.
  { rewrite slice_skip, Hh by lia. by apply slice_here. }
  assert (slice (frame_head s1 s2 f ++ le_bytes 4 ck ++ le_bytes 4 0 ++ data f ++ l) 24 (24 + PAGE_SIZE) = Ok (data f)) as H24.
  { do 3 (rewrite slice_skip by (rewrite ?Hh, ?zlen_le_bytes; lia); rewrite ?Hh, ?zlen_le_bytes).
    replace (_ - _) with 0 by lia. apply slice_here. lia. }
  unfold frame_head. rewrite <- !app_assoc. split_and!; try done;
    repeat (rewrite slice_skip by (rewrite ?zlen_le_bytes; lia); rewrite ?zlen_le_bytes);
    apply slice_here; rewrite ?zlen_le_bytes; lia.
Qed.

Lemma frame_deserialize_bytes h f l :
  header_ok h → frame_ok f →
  frame_deserialize (frame_bytes (salt1 h) (salt2 h) f ++ l) (salt1 h) (salt2 h) = Ok (seal h f).
Proof.
  intros [_ _ _ H1 H2] [Hn Hc Hd]. destruct (frame_fields (salt1 h) (salt2 h) f l Hd) as (E1 & E2 & E3 & E4 & E5 & E6 & E7).
  unfold frame_deserialize. rewrite zlen_app, zlen_frame_bytes by done. pose proof (zlen_nonneg l).
  destruct (Z.ltb_spec (WAL_FRAME_SIZE + zlen l) WAL_FRAME_SIZE); [lia|]. unfold read_u32.
  change (0 + 4) with 4. change (4 + 4) with 8. change (8 + 4) with 12. change (12 + 4) with 16. change (16 + 4) with 20.
  rewrite E1, E2, E3, E4, E5, E6, E7. pose proof (fnv32_range (frame_head (salt1 h) (salt2 h) f ++ data f)) as Hck.
  fold (frame_check (salt1 h) (salt2 h) f) in Hck. int_unfold. cbn [fmap res_fmap mbind res_bind].
  rewrite !le_val_id by (done || lia). rewrite !Z.eqb_refl. cbn [negb orb mbind res_bind].
  done.
Qed.
End Formats.
