(* ===== verification/WalRecovery.v ===== *)
(** Recovery of the write-ahead log: which frames [Wal.open] finds in a file,
    the invariant of a log under writing and committing, the atomicity of a
    commit under a crash at any byte, and what goes wrong after a crash left
    whole uncommitted frames in the file. *)
From S2P Require Import Prelude PagerIface FileIO Wal.

(** ** Abstract contents of a log *)

Definition is_commit (f : WalFrame) : bool := 0 <? commit_size f.
(** The number of frames up to the last commit frame. *)
Fixpoint committed_prefix (fs : list WalFrame) : nat :=
  match fs with
  | [] => 0
  | f :: fs =>
      match committed_prefix fs with
      | O => if is_commit f then 1 else 0
      | S k => S (S k)
      end
  end.
(** The page count in the last commit frame. *)
Definition last_commit_size (fs : list WalFrame) : Z :=
  match last (take (committed_prefix fs) fs) with Some f => commit_size f | None => 0 end.
(** The index [Wal.open] builds for a log with the frames [fs]. *)
Definition recovered_index (fs : list WalFrame) : WalIndex :=
  mkWalIndex (index_frames 0 (take (committed_prefix fs) fs) ∅) (length fs) (committed_prefix fs) (last_commit_size fs).
Definition frames_bytes (h : WalHeader) (fs : list WalFrame) : bytes :=
  concat (map (frame_bytes (salt1 h) (salt2 h)) fs).
Definition log_bytes (h : WalHeader) (fs : list WalFrame) : file := header_bytes h ++ frames_bytes h fs.

(** ** Indexing frames *)

Lemma index_frames_app b fs1 fs2 m :
  index_frames b (fs1 ++ fs2) m = index_frames (b + length fs1) fs2 (index_frames b fs1 m).
Proof.
  revert b m. induction fs1 as [|f fs1 IH]; intros b m; simpl.
  - by rewrite Nat.add_0_r.
  - rewrite IH. f_equal. lia.
Qed.
Lemma index_frames_union b fs m : index_frames b fs ∅ ∪ m = index_frames b fs m.
Proof.
  induction fs as [|f fs IH] using rev_ind; simpl.
  - apply map_empty_union.
  - rewrite !index_frames_app. simpl. by rewrite <- insert_union_l, IH.
Qed.
Lemma index_frames_seal h b fs m : index_frames b (map (seal h) fs) m = index_frames b fs m.
Proof. revert b m. induction fs as [|f fs IH]; intros; simpl; [done|]. apply IH. Qed.
(** A page maps to the last of its frames. *)
Lemma index_frames_lookup fs p i :
  index_frames 0 fs ∅ !! p = Some i →
  ∃ f, fs !! i = Some f ∧ page_num f = p ∧ ∀ j g, (i < j)%nat → fs !! j = Some g → page_num g ≠ p.
Proof.
  revert i. induction fs as [|f fs IH] using rev_ind; intros i; simpl; [done|].
  rewrite index_frames_app. simpl. rewrite lookup_insert_Some. intros [[<- <-]|[Hne Hi]].
  - exists f. rewrite list_lookup_middle by done. split; [done|]. split; [done|].
    intros j g Hj Hg. apply lookup_lt_Some in Hg. rewrite length_app in Hg. simpl in Hg. lia.
  - destruct (IH i Hi) as (g & Hg & Hp & Hlast). exists g. split; [by apply lookup_app_l_Some|]. split; [done|].
    intros j g' Hj Hg'. apply lookup_app_Some in Hg' as [Hg'|[Hle Hg']]; [eauto|].
    destruct (j - length fs)%nat; [|done]. by injection Hg' as <-.
Qed.
Lemma index_frames_None fs p : index_frames 0 fs ∅ !! p = None → ∀ f, f ∈ fs → page_num f ≠ p.
Proof.
  induction fs as [|f fs IH] using rev_ind; simpl; [intros _ g Hg; set_solver|].
  rewrite index_frames_app. simpl. intros [Hp Hne]%lookup_insert_None g [Hg|Hg]%elem_of_app; [by apply IH|].
  apply list_elem_of_singleton in Hg as ->. done.
Qed.

Lemma committed_prefix_snoc fs f :
  committed_prefix (fs ++ [f]) = if is_commit f then S (length fs) else committed_prefix fs.
Proof.
  induction fs as [|g fs IH]; simpl; [by destruct (is_commit f)|]. rewrite IH. by destruct (is_commit f).
Qed.
Lemma committed_prefix_le fs : (committed_prefix fs ≤ length fs)%nat.
Proof.
  induction fs as [|f fs IH] using rev_ind; [done|]. rewrite committed_prefix_snoc, length_app. simpl.
  destruct (is_commit f); lia.
Qed.
(** Frames without a commit mark do not change what is committed. *)
Lemma committed_prefix_app fs us :
  Forall (λ f, is_commit f = false) us → committed_prefix (fs ++ us) = committed_prefix fs.
Proof.
  induction us as [|u us IH] using rev_ind; intros Hu; [by rewrite app_nil_r|].
  apply Forall_app in Hu as [Hus Hu]. inversion_clear Hu as [|? ? Hc _].
  rewrite app_assoc, committed_prefix_snoc, Hc. by apply IH.
Qed.
Lemma last_commit_size_app fs us :
  Forall (λ f, is_commit f = false) us → last_commit_size (fs ++ us) = last_commit_size fs.
Proof.
  intros Hu. unfold last_commit_size. rewrite committed_prefix_app by done.
  by rewrite take_app_le by apply committed_prefix_le.
Qed.

(** The committed frames in memory: a later frame of a page shadows an earlier one. *)
Definition frames_map (fs : list WalFrame) : gmap Z bytes := foldl (λ m f, <[page_num f := data f]> m) ∅ fs.
Lemma frames_map_snoc fs f : frames_map (fs ++ [f]) = <[page_num f := data f]> (frames_map fs).
Proof. unfold frames_map. by rewrite foldl_app. Qed.
Lemma frames_map_lookup fs p :
  frames_map fs !! p = (i ← index_frames 0 fs ∅ !! p; data <$> fs !! i).
Proof.
  induction fs as [|f fs IH] using rev_ind; [done|].
  rewrite frames_map_snoc, index_frames_app. simpl. destruct (decide (page_num f = p)) as [<-|Hne].
  - rewrite !lookup_insert_eq. simpl. by rewrite list_lookup_middle.
  - rewrite !lookup_insert_ne, IH by done. destruct (index_frames 0 fs ∅ !! p) as [i|] eqn:Hi; [|done]. simpl.
    destruct (index_frames_lookup _ _ _ Hi) as (g & Hg & _). rewrite Hg. by rewrite (lookup_app_l_Some _ _ _ _ Hg).
Qed.

(** ** Scanning a log *)

(** A prefix of a concatenation that covers the first part. *)
Lemma prefix_app_inv {A} (p a b : list A) :
  p `prefix_of` a ++ b → (length a ≤ length p)%nat → ∃ p', p = a ++ p' ∧ p' `prefix_of` b.
Proof.
  intros [k Hk] Hl. exists (drop (length a) p).
  assert (take (length a) p = a) as Ht.
  { rewrite <- (take_app_le p k) by done. by rewrite <- Hk, take_app_length. }
  split; [rewrite <- (take_drop (length a) p) at 1; by rewrite Ht|]. exists k.
  rewrite <- (take_drop (length a) p), Ht, <- app_assoc in Hk. by apply app_inv_head in Hk.
Qed.

Section Recovery.
Context `{PageSize}.

Lemma WAL_FRAME_SIZE_pos : 0 < WAL_FRAME_SIZE.
Proof. pose proof PAGE_SIZE_bounds. unfold WAL_FRAME_SIZE, WAL_FRAME_HEADER_SIZE. lia. Qed.
Lemma frames_bytes_app h fs1 fs2 : frames_bytes h (fs1 ++ fs2) = frames_bytes h fs1 ++ frames_bytes h fs2.
Proof. unfold frames_bytes. by rewrite map_app, concat_app. Qed.
Lemma zlen_frames_bytes h fs : Forall frame_ok fs → zlen (frames_bytes h fs) = zlen fs * WAL_FRAME_SIZE.
Proof.
  induction 1 as [|f fs [_ _ Hd] _ IH]; [done|]. unfold frames_bytes in *. cbn [map concat].
  rewrite zlen_app, zlen_frame_bytes, IH, zlen_cons by done. lia.
Qed.
Lemma zlen_log_bytes h fs :
  header_ok h → Forall frame_ok fs → zlen (log_bytes h fs) = WAL_HEADER_SIZE + zlen fs * WAL_FRAME_SIZE.
Proof. intros Hh Hf. unfold log_bytes. rewrite zlen_app, zlen_header_bytes, zlen_frames_bytes by done. done. Qed.

(** What stops the scan: too few bytes, or bytes that are no frame of this log. *)
Definition unreadable (h : WalHeader) (t : bytes) : Prop :=
  zlen t < WAL_FRAME_SIZE ∨ ∃ e, frame_deserialize (sub t 0 WAL_FRAME_SIZE) (salt1 h) (salt2 h) = Err e.

(** The state of the scan after the frames [fs]. *)
Definition scan_pending (fs : list WalFrame) : gmap Z nat :=
  index_frames (committed_prefix fs) (drop (committed_prefix fs) fs) ∅.
Definition scan_index (fs : list WalFrame) : WalIndex :=
  mkWalIndex (index_frames 0 (take (committed_prefix fs) fs) ∅) 0 (committed_prefix fs) (last_commit_size fs).

Lemma scan_pending_snoc fs f :
  scan_pending (fs ++ [f]) =
  if is_commit f then ∅ else <[page_num f := length fs]> (scan_pending fs).
Proof.
  unfold scan_pending. rewrite committed_prefix_snoc. destruct (is_commit f).
  - by rewrite drop_ge by (rewrite length_app; simpl; lia).
  - pose proof (committed_prefix_le fs). rewrite drop_app_le, index_frames_app by done. simpl.
    f_equal. rewrite length_drop. lia.
Qed.
Lemma scan_index_snoc fs f :
  scan_index (fs ++ [f]) =
  if is_commit f
  then mkWalIndex (<[page_num f := length fs]> (scan_pending fs) ∪ page_map (scan_index fs)) 0 (S (length fs)) (commit_size f)
  else scan_index fs.
Proof.
  unfold scan_index. pose proof (committed_prefix_le fs) as Hle. destruct (is_commit f) eqn:Hc.
  - unfold last_commit_size. rewrite committed_prefix_snoc, Hc.
    rewrite !(take_ge (fs ++ [f])) by (rewrite length_app; simpl; lia). rewrite last_snoc. f_equal.
    unfold scan_pending. simpl. rewrite <- insert_union_l, index_frames_union, index_frames_app. simpl.
    f_equal. rewrite <- (take_drop (committed_prefix fs) fs) at 1. rewrite index_frames_app, length_take. f_equal. lia.
  - rewrite last_commit_size_app by (by constructor). rewrite committed_prefix_app by (by constructor).
    by rewrite take_app_le.
Qed.

(** The scan reads frame after frame and stops at the unreadable tail. *)
Lemma scan_frames_log h t rest pre fuel :
  header_ok h → Forall frame_ok (pre ++ rest) → unreadable h t →
  (length rest + Z.to_nat (zlen t / WAL_FRAME_SIZE) ≤ fuel)%nat →
  scan_frames fuel (log_bytes h (pre ++ rest) ++ t) h (WAL_HEADER_SIZE + zlen pre * WAL_FRAME_SIZE)
    (scan_pending pre) (map (seal h) pre) (scan_index pre) (length pre)
  = Ok (map (seal h) (pre ++ rest), recovered_index (pre ++ rest)).
Proof.
  intros Hh. pose proof WAL_FRAME_SIZE_pos as Hpos. revert pre fuel.
  induction rest as [|f rest IH]; intros pre fuel Hok Ht Hfuel.
  - rewrite app_nil_r in *. pose proof (zlen_log_bytes h pre Hh Hok) as Hl. pose proof (zlen_nonneg t).
    assert (Ok (map (seal h) pre, mkWalIndex (page_map (scan_index pre)) (length pre) (index_committed (scan_index pre))
              (db_page_count (scan_index pre))) = Ok (map (seal h) pre, recovered_index pre)) as Hstop by done.
    assert (0 ≤ zlen t / WAL_FRAME_SIZE) by (apply Z.div_pos; lia).
    destruct fuel as [|fuel]; cbn [scan_frames]; rewrite zlen_app, Hl.
    + destruct (Z.ltb_spec (WAL_HEADER_SIZE + zlen pre * WAL_FRAME_SIZE + zlen t)
        (WAL_HEADER_SIZE + zlen pre * WAL_FRAME_SIZE + WAL_FRAME_SIZE)) as [|Hge]; [done|].
      assert (1 ≤ zlen t / WAL_FRAME_SIZE) by (apply Z.div_le_lower_bound; lia). simpl in Hfuel. lia.
    + destruct (Z.ltb_spec (WAL_HEADER_SIZE + zlen pre * WAL_FRAME_SIZE + zlen t)
        (WAL_HEADER_SIZE + zlen pre * WAL_FRAME_SIZE + WAL_FRAME_SIZE)) as [|Hge]; [done|].
      rewrite file_read_Some by (rewrite zlen_app; lia). rewrite sub_app_r, Hl, Z.sub_diag by lia.
      destruct Ht as [Ht|[e He]]; [lia|]. by rewrite He.
  - apply Forall_app in Hok as Hok'. destruct Hok' as [Hpre Hrest]. inversion_clear Hrest as [|? ? Hf Hrest'].
    pose proof (zlen_log_bytes h _ Hh Hok) as Hl. pose proof (zlen_log_bytes h _ Hh Hpre) as Hlp. pose proof (zlen_nonneg t).
    pose proof (zlen_nonneg rest).
    destruct fuel as [|fuel]; [simpl in Hfuel; lia|]. cbn [scan_frames].
    rewrite zlen_app, Hl, zlen_app, zlen_cons.
    destruct (Z.ltb_spec (WAL_HEADER_SIZE + (zlen pre + (1 + zlen rest)) * WAL_FRAME_SIZE + zlen t)
      (WAL_HEADER_SIZE + zlen pre * WAL_FRAME_SIZE + WAL_FRAME_SIZE)) as [|Hge]; [nia|].
    rewrite file_read_Some by (rewrite zlen_app, Hl, zlen_app, zlen_cons; nia).
    rewrite <- Hlp. unfold log_bytes at 1 2. rewrite frames_bytes_app, !app_assoc. fold (log_bytes h pre).
    rewrite <- !app_assoc, sub_app_r, Z.sub_diag by lia.
    change (frames_bytes h (f :: rest)) with (frame_bytes (salt1 h) (salt2 h) f ++ frames_bytes h rest).
    rewrite <- app_assoc, sub_app_l by (rewrite ?zlen_frame_bytes by apply Hf; lia).
    rewrite sub_all by (rewrite ?zlen_frame_bytes by apply Hf; lia).
    rewrite <- (app_nil_r (frame_bytes _ _ _)), frame_deserialize_bytes by done.
    specialize (IH (pre ++ [f]) fuel). rewrite <- app_assoc in IH. cbn [app] in IH. rewrite <- IH; [|done|done|simpl in Hfuel; lia].
    rewrite scan_pending_snoc, scan_index_snoc, Hlp. unfold is_commit. simpl.
    rewrite !length_app, !length_map, map_app, zlen_app. simpl. rewrite !Nat.add_1_r.
    f_equal. rewrite zlen_cons, zlen_nil. lia.
Qed.

(** Opening a file that starts with a log: the committed prefix of its frames
    is back, whatever unreadable bytes follow. *)
Lemma open_log h fs t :
  header_ok h → Forall frame_ok fs → unreadable h t →
  open (log_bytes h fs ++ t) =
  Ok (new_wal (Some (log_bytes h fs ++ t)) h (recovered_index fs) (map (seal h) (take (committed_prefix fs) fs)) 1000).
Proof.
  intros Hh Hfs Ht. pose proof WAL_FRAME_SIZE_pos as Hpos. pose proof (zlen_log_bytes h fs Hh Hfs) as Hl.
  pose proof (zlen_nonneg fs). pose proof (zlen_nonneg t). unfold open.
  destruct (Z.ltb_spec (zlen (log_bytes h fs ++ t)) WAL_HEADER_SIZE) as [Hlt|_]; [rewrite zlen_app in Hlt; nia|].
  assert (slice (log_bytes h fs ++ t) 0 WAL_HEADER_SIZE = Ok (header_bytes h)) as ->.
  { unfold log_bytes. rewrite <- app_assoc. apply slice_here. by rewrite zlen_header_bytes. }
  cbn [mbind res_bind]. rewrite header_deserialize_bytes by done. cbn [mbind res_bind].
  pose proof (scan_frames_log h t fs [] (Z.to_nat (zlen (log_bytes h fs ++ t) / WAL_FRAME_SIZE)) Hh Hfs Ht) as Hscan.
  change (WAL_HEADER_SIZE + zlen (@nil WalFrame) * WAL_FRAME_SIZE) with WAL_HEADER_SIZE in Hscan.
  change (scan_pending []) with (@empty (gmap Z nat) _) in Hscan. change (map (seal h) []) with (@nil WalFrame) in Hscan.
  change (scan_index []) with WalIndex_new in Hscan. cbn [app length] in Hscan.
  rewrite Hscan; [cbn [mbind res_bind recovered_index index_committed]; by rewrite <- firstn_map|].
  rewrite zlen_app, Hl.
  assert (zlen fs + zlen t / WAL_FRAME_SIZE ≤ (WAL_HEADER_SIZE + zlen fs * WAL_FRAME_SIZE + zlen t) / WAL_FRAME_SIZE).
  { rewrite <- Z.div_add_l by lia. apply Z.div_le_mono; [lia|]. unfold WAL_HEADER_SIZE. lia. }
  assert (0 ≤ zlen t / WAL_FRAME_SIZE) by (apply Z.div_pos; lia). unfold zlen at 1 in H2. lia.
Qed.

(** ** The invariant *)

Record wal_ok (w : Wal) : Prop := {
  wok_header : header_ok (header w);
  wok_committed : Forall frame_ok (committed_frames w);
  wok_uncommitted : Forall (λ f, frame_ok f ∧ is_commit f = false) (uncommitted w);
  wok_index : wal_index w = recovered_index (committed_frames w);
  wok_all : committed_prefix (committed_frames w) = length (committed_frames w);
  wok_file : ∀ f, wal_file w = Some f → f = log_bytes (header w) (committed_frames w)
}.

Lemma write_frames_log h fs f :
  Forall frame_ok fs → write_frames h (zlen f) fs f = Ok (f ++ frames_bytes h fs).
Proof.
  intros Hfs. revert f. induction Hfs as [|fr fs [_ _ Hd] _ IH]; intros f; simpl.
  - by rewrite app_nil_r.
  - rewrite frame_serialize_Ok by done. cbn [mbind res_bind]. rewrite file_write_end, <- zlen_app, IH.
    by rewrite <- app_assoc.
Qed.
Lemma mark_commit_snoc n us u :
  mark_commit n (us ++ [u]) = us ++ [mkWalFrame (page_num u) n (frame_checksum u) (data u)].
Proof.
  unfold mark_commit. rewrite length_app, Nat.add_sub. rewrite alter_app_r_alt by lia.
  by rewrite Nat.sub_diag.
Qed.
Lemma frames_bytes_seal h fs : frames_bytes h (map (seal h) fs) = frames_bytes h fs.
Proof. unfold frames_bytes. rewrite map_map. done. Qed.
Lemma frames_map_seal h fs : frames_map (map (seal h) fs) = frames_map fs.
Proof.
  induction fs as [|f fs IH] using rev_ind; [done|]. rewrite map_app. cbn [map]. by rewrite !frames_map_snoc, IH.
Qed.
Lemma committed_prefix_seal h fs : committed_prefix (map (seal h) fs) = committed_prefix fs.
Proof. induction fs as [|f fs IH]; [done|]. simpl. by rewrite IH. Qed.
Lemma recovered_index_seal h fs : recovered_index (map (seal h) fs) = recovered_index fs.
Proof.
  unfold recovered_index, last_commit_size. rewrite committed_prefix_seal, length_map. f_equal.
  - by rewrite firstn_map, index_frames_seal.
  - rewrite firstn_map, fmap_last. by destruct (last (take (committed_prefix fs) fs)).
Qed.
Lemma frame_ok_seal h f : frame_ok f → frame_ok (seal h f).
Proof. by intros [? ? ?]. Qed.

(** A proper prefix of the bytes of some frames: whole frames, then a
    fragment of the next one. *)
Lemma frames_prefix h fs p :
  Forall frame_ok fs → p `prefix_of` frames_bytes h fs → p ≠ frames_bytes h fs →
  ∃ k t, (k < length fs)%nat ∧ p = frames_bytes h (take k fs) ++ t ∧ zlen t < WAL_FRAME_SIZE.
Proof.
  intros Hfs. revert p. induction Hfs as [|f fs Hf Hfs IH]; intros p Hp Hne.
  { apply prefix_nil_inv in Hp. done. }
  pose proof (zlen_frame_bytes (salt1 h) (salt2 h) f (ok_data f Hf)) as Hl.
  change (frames_bytes h (f :: fs)) with (frame_bytes (salt1 h) (salt2 h) f ++ frames_bytes h fs) in *.
  destruct (decide (zlen p < WAL_FRAME_SIZE)) as [Hlt|Hge].
  - exists 0%nat, p. simpl. split; [lia|done].
  - destruct (prefix_app_inv p (frame_bytes (salt1 h) (salt2 h) f) (frames_bytes h fs)) as (p' & -> & Hp'); [done|unfold zlen in *; lia|].
    destruct (IH p' Hp') as (k & t & Hk & -> & Ht); [naive_solver|].
    exists (S k), t. simpl. split; [lia|]. split; [|done]. unfold frames_bytes. simpl. by rewrite <- app_assoc.
Qed.

(** ** Writing, committing, rolling back *)

Lemma write_page_ok p d w :
  wal_ok w → is_u32 p → zlen d = PAGE_SIZE → wal_ok (write_page p d w).
Proof.
  intros [Hh Hc Hu Hi Ha Hf] Hp Hd. split; try done. simpl. apply Forall_app_2; [done|]. constructor; [|done]. done.
Qed.
Lemma rollback_ok w : wal_ok w → wal_ok (rollback w).
Proof. intros [Hh Hc Hu Hi Ha Hf]. split; try done. Qed.

(** Marking the last frame touches neither pages nor contents. *)
Lemma frames_map_mark fs0 n fs : frames_map (fs0 ++ mark_commit n fs) = frames_map (fs0 ++ fs).
Proof.
  destruct fs as [|u us] using rev_ind; [done|]. rewrite mark_commit_snoc, !app_assoc, !frames_map_snoc. done.
Qed.
Lemma mark_commit_ok n fs :
  is_u32 n → 0 < n → fs ≠ [] → Forall (λ f, frame_ok f ∧ is_commit f = false) fs →
  Forall frame_ok (mark_commit n fs) ∧
  ∃ us u, mark_commit n fs = us ++ [u] ∧ is_commit u = true ∧ commit_size u = n ∧
    Forall (λ f, is_commit f = false) us.
Proof.
  intros Hn Hpos Hne Hfs. destruct fs as [|u us _] using rev_ind; [done|]. rewrite mark_commit_snoc.
  apply Forall_app in Hfs as [Hus Hu]. inversion_clear Hu as [|? ? [[? ? ?] ?] _]. split.
  - apply Forall_app_2; [by eapply Forall_impl; [exact Hus|intros ? [? _]]|].
    apply Forall_singleton. done.
  - eexists us, _. split; [done|]. split; [by apply Z.ltb_lt|]. split; [done|].
    eapply Forall_impl; [exact Hus|]. by intros ? [_ ?].
Qed.

Lemma group_sync_fields w :
  let w' := (group_sync w).2 in
  (wal_ok w → wal_ok w') ∧ header w' = header w ∧ uncommitted w' = uncommitted w ∧
  committed_frames w' = committed_frames w ∧ wal_file w' = wal_file w ∧ active_snapshots w' = active_snapshots w.
Proof.
  unfold group_sync. destruct (pending_sync_commits w =? 0); [done|]. split; [|done]. by intros [? ? ? ? ? ?].
Qed.

(** What [commit] does to the state, apart from counters and configuration. *)
Lemma commit_spec n w :
  wal_ok w → is_u32 n → 0 < n → uncommitted w ≠ [] →
  ∃ w', commit n w = (Ok tt, w') ∧ wal_ok w' ∧ header w' = header w ∧ uncommitted w' = [] ∧
    committed_frames w' = committed_frames w ++ mark_commit n (uncommitted w) ∧
    wal_file w' = (λ f, f ++ frames_bytes (header w) (mark_commit n (uncommitted w))) <$> wal_file w ∧
    active_snapshots w' = active_snapshots w.
Proof.
  intros [Hh Hc Hu Hi Ha Hf] Hn Hpos Hne.
  destruct (mark_commit_ok n _ Hn Hpos Hne Hu) as (Hok & us & u & Hm & Hcu & Hnu & Hus).
  unfold commit. destruct (uncommitted w) as [|u0 us0] eqn:Hw; [done|]. rewrite <- Hw in *. clear u0 us0 Hw Hne.
  set (fs := mark_commit n (uncommitted w)) in *.
  assert (∀ f, wal_file w = Some f →
    write_frames (header w) (WAL_HEADER_SIZE + Z.of_nat (total_frames (wal_index w)) * WAL_FRAME_SIZE) fs f
    = Ok (f ++ frames_bytes (header w) fs)) as Hwrite.
  { intros f Hwf. rewrite Hi. cbn [recovered_index total_frames]. fold (zlen (committed_frames w)).
    rewrite <- (zlen_log_bytes (header w)), <- (Hf f Hwf) by done. by apply write_frames_log. }
  set (f' := match wal_file w with None => Ok None | Some f => Some <$> write_frames _ _ fs f end).
  assert (f' = Ok ((λ f, f ++ frames_bytes (header w) fs) <$> wal_file w)) as ->.
  { unfold f'. destruct (wal_file w) as [f|] eqn:Hwf; [|done]. by rewrite Hwrite. }
  set (w1 := mkWal _ _ _ _ _ _ _ _ _ _ _ _).
  assert (wal_ok w1 ∧ header w1 = header w ∧ uncommitted w1 = [] ∧ committed_frames w1 = committed_frames w ++ fs ∧
    wal_file w1 = (λ f, f ++ frames_bytes (header w) fs) <$> wal_file w ∧ active_snapshots w1 = active_snapshots w) as H1.
  { split; [|done]. assert (committed_prefix (committed_frames w ++ fs) = length (committed_frames w ++ fs)) as Hall.
    { rewrite Hm, app_assoc, committed_prefix_snoc, Hcu, (length_app _ [u]). simpl. lia. }
    split; simpl; try done; try (by apply Forall_app_2).
    - unfold recovered_index. rewrite Hall. f_equal.
      + rewrite take_ge, index_frames_app by lia. rewrite Hi. simpl. by rewrite Ha, take_ge by lia.
      + unfold last_commit_size. rewrite Hall, take_ge by lia. by rewrite Hm, app_assoc, last_snoc.
    - intros f. destruct (wal_file w) as [f0|]; [|done]. simpl. intros [= <-]. rewrite (Hf f0) by done.
      unfold log_bytes. by rewrite frames_bytes_app, app_assoc. }
  match goal with |- context [if ?b then (Ok tt, _) else _] => destruct b end; [|by exists w1].
  eexists. split; [reflexivity|]. destruct H1 as [Hok1 H1].
  destruct (group_sync_fields w1) as (Hs & -> & -> & -> & -> & ->). split; [by apply Hs|done].
Qed.

(** A page read from the log is the last uncommitted frame of the page, or
    else the last committed one. *)
Lemma find_rev_frames fs p :
  frames_map fs !! p = data <$> List.find (λ f, page_num f =? p) (rev fs).
Proof.
  induction fs as [|f fs IH] using rev_ind; [done|]. rewrite frames_map_snoc, rev_unit. simpl.
  destruct (Z.eqb_spec (page_num f) p) as [->|Hne].
  - by rewrite lookup_insert_eq.
  - by rewrite lookup_insert_ne.
Qed.
Lemma frames_map_app fs1 fs2 : frames_map (fs1 ++ fs2) = frames_map fs2 ∪ frames_map fs1.
Proof.
  induction fs2 as [|f fs2 IH] using rev_ind; [rewrite app_nil_r; symmetry; apply map_empty_union|].
  by rewrite app_assoc, !frames_map_snoc, IH, insert_union_l.
Qed.
Lemma read_page_lookup p w :
  wal_ok w → read_page p w = frames_map (committed_frames w ++ uncommitted w) !! p.
Proof.
  intros [Hh Hc Hu Hi Ha Hf]. unfold read_page. rewrite frames_map_app, lookup_union, find_rev_frames.
  destruct (List.find _ _) as [f|]; simpl.
  - by rewrite union_Some_l.
  - rewrite option_union_left_id, frames_map_lookup, Hi. simpl. by rewrite Ha, firstn_all.
Qed.

(** ** Reopening *)

(** What is known of a log reopened from [fs] and an unreadable rest. *)
Lemma reopen_committed h fs us t :
  header_ok h → Forall frame_ok fs → Forall frame_ok us → Forall (λ f, is_commit f = false) us →
  committed_prefix fs = length fs → zlen t < WAL_FRAME_SIZE →
  ∃ w0, open (log_bytes h fs ++ frames_bytes h us ++ t) = Ok w0 ∧ header w0 = h ∧ uncommitted w0 = [] ∧
    committed_frames w0 = map (seal h) fs ∧ page_map (wal_index w0) = index_frames 0 fs ∅ ∧
    (us = [] → t = [] → wal_ok w0).
Proof.
  intros Hh Hfs Hus Hnc Hall Ht.
  assert (log_bytes h fs ++ frames_bytes h us ++ t = log_bytes h (fs ++ us) ++ t) as ->.
  { unfold log_bytes. by rewrite frames_bytes_app, !app_assoc. }
  rewrite open_log; [|done|by apply Forall_app_2|by left].
  eexists. split; [reflexivity|]. cbn [header uncommitted committed_frames new_wal wal_index recovered_index page_map].
  rewrite committed_prefix_app, Hall, take_app_length by done.
  split; [done|]. split; [done|]. split; [done|]. split; [done|]. intros -> ->. rewrite !app_nil_r. split; simpl; try done.
  - apply Forall_map. eapply Forall_impl; [exact Hfs|]. intros f. apply frame_ok_seal.
  - by rewrite recovered_index_seal.
  - by rewrite committed_prefix_seal, length_map.
  - intros f [= <-]. unfold log_bytes. by rewrite frames_bytes_seal.
Qed.

Lemma reopen_ok w f :
  wal_ok w → wal_file w = Some f →
  ∃ w0, open f = Ok w0 ∧ wal_ok w0 ∧ header w0 = header w ∧ uncommitted w0 = [] ∧ wal_file w0 = Some f ∧
    committed_frames w0 = map (seal (header w)) (committed_frames w) ∧
    page_map (wal_index w0) = index_frames 0 (committed_frames w) ∅.
Proof.
  intros [Hh Hc Hu Hi Ha Hfile] Hf. rewrite (Hfile f Hf).
  destruct (reopen_committed (header w) (committed_frames w) [] [] Hh Hc) as (w0 & Ho & H1 & H2 & H3 & H4 & H5);
    [done|done|done|apply WAL_FRAME_SIZE_pos|].
  change (frames_bytes (header w) [] ++ []) with (@nil Z) in Ho. rewrite app_nil_r in Ho. exists w0.
  split; [done|]. split; [by apply H5|]. split; [done|]. split; [done|]. split; [|done].
  pose proof (open_log (header w) (committed_frames w) [] Hh Hc ltac:(left; apply WAL_FRAME_SIZE_pos)) as Ho'.
  rewrite app_nil_r, Ho in Ho'. injection Ho' as ->. done.
Qed.

(** A new log satisfies the invariant. *)
Lemma create_ok uuid nanos :
  zlen uuid = 16 →
  ∃ w f, create uuid nanos = Ok w ∧ wal_ok w ∧ wal_file w = Some f ∧ committed_frames w = [] ∧ uncommitted w = [] ∧
    active_snapshots w = [].
Proof.
  intros Hu. pose proof PAGE_SIZE_bounds.
  assert (header_ok (WalHeader_new uuid PAGE_SIZE nanos)) as Hh.
  { split; simpl; try done; [|int_lia|apply as_u32_range|apply as_u32_range].
    unfold zlen in *. rewrite length_take. lia. }
  unfold create. rewrite header_serialize_Ok by done. eexists _, _. split; [reflexivity|]. simpl.
  split; [|done]. split; simpl; try done. intros f [= <-].
  change 0 with (zlen (@nil Z)). rewrite file_write_end. unfold log_bytes. by rewrite app_nil_r.
Qed.

(** ** Theorems *)

(** The byte formats of the log: a header and a frame are read back as they
    were written, the frame with its checksum filled in, whatever follows. *)
Theorem wal_formats_roundtrip h f l :
  header_ok h → frame_ok f →
  (∃ bs, header_serialize h = Ok bs ∧ zlen bs = WAL_HEADER_SIZE ∧ header_deserialize bs = Ok h) ∧
  (∃ bs, frame_serialize f (salt1 h) (salt2 h) = Ok bs ∧ zlen bs = WAL_FRAME_SIZE ∧
     frame_deserialize (bs ++ l) (salt1 h) (salt2 h) = Ok (seal h f)).
Proof.
  intros Hh Hf. split.
  - exists (header_bytes h). split; [by apply header_serialize_Ok|]. split; [by apply zlen_header_bytes|].
    by apply header_deserialize_bytes.
  - eexists. split; [apply frame_serialize_Ok, Hf|]. split; [apply zlen_frame_bytes, Hf|].
    by apply frame_deserialize_bytes.
Qed.

(** [C2] A commit to a log file is atomic under a crash.  While the frames of the
    commit are being written, the file is what it was followed by some prefix
    of the new bytes; opening the file at any such moment succeeds and finds
    exactly the frames committed before, until the last byte is there, and
    from then on exactly those and the new ones. *)
Theorem wal_commit_crash_atomic w f n :
  wal_ok w → wal_file w = Some f → uncommitted w ≠ [] → is_u32 n → 0 < n →
  ∃ w' f', commit n w = (Ok tt, w') ∧ wal_file w' = Some f' ∧ wal_ok w' ∧
    committed_frames w' = committed_frames w ++ mark_commit n (uncommitted w) ∧ uncommitted w' = [] ∧
    f `prefix_of` f' ∧
    ∀ c, f `prefix_of` c → c `prefix_of` f' →
      ∃ w0, open c = Ok w0 ∧ header w0 = header w ∧
        let survivors := if decide (c = f') then committed_frames w' else committed_frames w in
        committed_frames w0 = map (seal (header w)) survivors ∧
        page_map (wal_index w0) = index_frames 0 survivors ∅.
Proof.
  intros Hw Hf Hne Hn Hpos. destruct (commit_spec n w Hw Hn Hpos Hne) as (w' & Hrun & Hw' & Hh' & Hu' & Hc' & Hf' & _).
  rewrite Hf in Hf'. simpl in Hf'. exists w', (f ++ frames_bytes (header w) (mark_commit n (uncommitted w))).
  destruct Hw as [Hh Hc Hu Hi Ha Hfile]. rewrite (Hfile f Hf) in *. clear Hfile.
  destruct (mark_commit_ok n _ Hn Hpos Hne Hu) as (Hok & us & u & Hm & Hcu & _ & Hus).
  do 5 (split; [done|]). split; [by eexists|]. intros c [p ->] Hp. apply prefix_app_inv in Hp as (p' & Hp & Hpre); [|rewrite length_app; lia].
  apply app_inv_head in Hp as ->. case_decide as Heq.
  - subst. destruct (reopen_ok w' _ Hw' Hf') as (w0 & Ho & _ & Hh0 & _ & _ & Hc0 & Hp0).
    rewrite Hh' in *. exists w0. by rewrite Heq.
  - destruct (frames_prefix (header w) _ p' Hok Hpre) as (k & t & Hk & -> & Ht); [by intros ->|].
    destruct (reopen_committed (header w) (committed_frames w) (take k (mark_commit n (uncommitted w))) t Hh Hc)
      as (w0 & Ho & Hh0 & _ & Hc0 & Hp0 & _); [by apply Forall_take| |done|done|by exists w0].
    rewrite Hm in *. rewrite length_app in Hk. simpl in Hk. rewrite take_app_le by lia. by apply Forall_take.
Qed.

(** The log as a store with a durable and a current contents. *)
Record Store := mkStore { durable : gmap Z bytes; current : gmap Z bytes }.
Inductive wal_op :=
  | OWrite (p : Z) (d : bytes)
  | OCommit (n : Z)
  | ORollback
  | OReopen.
Definition store_step (o : wal_op) (s : Store) : Store :=
  match o with
  | OWrite p d => mkStore (durable s) (<[p := d]> (current s))
  | OCommit _ => mkStore (current s) (current s)
  | ORollback | OReopen => mkStore (durable s) (durable s)
  end.
(** [OReopen]: the process ends between two calls and the file is opened again. *)
Definition wal_step (o : wal_op) (w : Wal) : res Wal :=
  match o with
  | OWrite p d => Ok (write_page p d w)
  | OCommit n => match commit n w with (Ok _, w') => Ok w' | (Err e, _) => Err e | (Panic, _) => Panic | (Hang, _) => Hang end
  | ORollback => Ok (rollback w)
  | OReopen => match wal_file w with Some f => open f | None => Err (RuntimeError "WAL file does not exist") end
  end.
Fixpoint wal_run (os : list wal_op) (w : Wal) : res Wal :=
  match os with [] => Ok w | o :: os => w ← wal_step o w; wal_run os w end.
Definition op_ok (o : wal_op) : Prop :=
  match o with
  | OWrite p d => is_u32 p ∧ zlen d = PAGE_SIZE
  | OCommit n => is_u32 n ∧ 0 < n
  | _ => True
  end.

(** [C7] A log file refines the store: every sequence of page writes, commits,
    rollbacks and reopenings succeeds, and afterwards [read_page] answers the
    store's current contents and a fresh opening its durable contents. *)
Theorem wal_refines_store os w s :
  Forall op_ok os → wal_ok w → is_Some (wal_file w) →
  durable s = frames_map (committed_frames w) → current s = frames_map (committed_frames w ++ uncommitted w) →
  let s' := foldl (λ s o, store_step o s) s os in
  ∃ w', wal_run os w = Ok w' ∧ wal_ok w' ∧ (∀ p, read_page p w' = current s' !! p) ∧
    ∃ w0, wal_step OReopen w' = Ok w0 ∧ ∀ p, read_page p w0 = durable s' !! p.
Proof.
  intros Hos. revert w s. induction Hos as [|o os Ho Hos IH]; intros w s Hw [f Hf] Hd Hc; cbn [foldl wal_run].
  - exists w. split; [done|]. split; [done|]. split; [intros p; by rewrite Hc, read_page_lookup|].
    destruct (reopen_ok w f Hw Hf) as (w0 & Ho & Hw0 & _ & Hu0 & _ & Hc0 & _).
    exists w0. simpl. rewrite Hf. split; [done|]. intros p.
    by rewrite read_page_lookup, Hu0, Hc0, app_nil_r, frames_map_seal, Hd.
  - assert (∃ w1, wal_step o w = Ok w1 ∧ wal_ok w1 ∧ is_Some (wal_file w1) ∧
      durable (store_step o s) = frames_map (committed_frames w1) ∧
      current (store_step o s) = frames_map (committed_frames w1 ++ uncommitted w1)) as (w1 & Hstep & Hw1 & Hf1 & Hd1 & Hc1).
    { destruct o as [p d|n| |]; simpl in Ho |- *.
      - destruct Ho. eexists. split; [done|]. split; [by apply write_page_ok|]. split; [by exists f|]. split; [done|].
        simpl. by rewrite app_assoc, frames_map_snoc, Hc.
      - destruct Ho. destruct (decide (uncommitted w = [])) as [He|Hne].
        + exists w. unfold commit. rewrite He. split; [done|]. split; [done|]. split; [by exists f|].
          rewrite He, app_nil_r in *. by rewrite Hc.
        + destruct (commit_spec n w) as (w1 & Hrun & Hw1 & _ & Hu1 & Hc1 & Hf1 & _); [done..|].
          exists w1. rewrite Hrun. split; [done|]. split; [done|]. split; [rewrite Hf1, Hf; by eexists|].
          rewrite Hu1, app_nil_r, Hc1, frames_map_mark, Hc. done.
      - eexists. split; [done|]. split; [by apply rollback_ok|]. split; [by exists f|]. simpl. by rewrite app_nil_r.
      - rewrite Hf. destruct (reopen_ok w f Hw Hf) as (w0 & Ho0 & Hw0 & _ & Hu0 & Hf0 & Hc0 & _).
        exists w0. split; [done|]. split; [done|]. split; [by exists f|].
        by rewrite Hu0, app_nil_r, Hc0, frames_map_seal. }
    rewrite Hstep. cbn [mbind res_bind]. by apply IH.
Qed.
End Recovery.

(** ** Witnesses *)

(** A new log with page 3 written and not committed. *)
Lemma demo_pending :
  let _ := page_size_512 in
  ∃ w f, wal_ok w ∧ wal_file w = Some f ∧ committed_frames w = [] ∧
    uncommitted w = [mkWalFrame 3 0 0 (replicate 512 1)] ∧ active_snapshots w = [].
Proof.
  intros Hps. destruct (create_ok (replicate 16 9) 12345 eq_refl) as (w & f & _ & Hw & Hf & Hc & Hu & Hs).
  exists (write_page 3 (replicate 512 1) w), f. split; [by apply write_page_ok|]. simpl. by rewrite Hu.
Qed.

Lemma wal_formats_roundtrip_witness :
  let _ := page_size_512 in
  let h := WalHeader_new (replicate 16 9) 512 12345 in
  let f := mkWalFrame 3 5 0 (replicate 512 1) in
  ∃ bs, frame_serialize f (salt1 h) (salt2 h) = Ok bs ∧ frame_deserialize (bs ++ [1; 2]) (salt1 h) (salt2 h) = Ok (seal h f).
Proof.
  intros Hps h f. destruct (wal_formats_roundtrip h f [1; 2]) as [_ (bs & Hs & _ & Hd)].
  - by split.
  - by split.
  - by exists bs.
Defined.

Lemma wal_commit_crash_atomic_witness :
  let _ := page_size_512 in
  ∃ w w' f, commit 3 w = (Ok tt, w') ∧ wal_file w = Some f ∧
    ∃ w0, open f = Ok w0 ∧ committed_frames w0 = map (seal (header w)) [].
Proof.
  intros Hps. destruct demo_pending as (w & f & Hw & Hf & Hc & Hu & _).
  destruct (wal_commit_crash_atomic w f 3 Hw Hf) as (w' & f' & Hrun & Hf' & _ & Hc' & _ & Hpre & Hcrash);
    [by rewrite Hu|int_lia|lia|].
  exists w, w', f. split; [exact Hrun|]. split; [exact Hf|].
  destruct (Hcrash f (reflexivity f) Hpre) as (w0 & Ho & _ & Hs & _). exists w0. split; [exact Ho|].
  rewrite Hs. case_decide as Heq; [|by rewrite Hc].
  exfalso. destruct (commit_spec 3 w Hw) as (w2 & Hrun2 & _ & _ & _ & _ & Hf2 & _); [int_lia|lia|by rewrite Hu|].
  rewrite Hrun in Hrun2. injection Hrun2 as <-. rewrite Hf, Hf' in Hf2. injection Hf2 as Hf2. rewrite <- Heq, Hu in Hf2.
  apply (f_equal length) in Hf2. rewrite length_app in Hf2. vm_compute length in Hf2 at 3. lia.
Defined.

Lemma wal_refines_store_witness :
  let _ := page_size_512 in
  ∃ w w', wal_run [OWrite 4 (replicate 512 2); OCommit 4; OWrite 4 (replicate 512 5); ORollback] w = Ok w' ∧
    read_page 4 w' = Some (replicate 512 2).
Proof.
  intros Hps. destruct demo_pending as (w & f & Hw & Hf & Hc & Hu & _).
  destruct (wal_refines_store [OWrite 4 (replicate 512 2); OCommit 4; OWrite 4 (replicate 512 5); ORollback] w
    (mkStore (frames_map (committed_frames w)) (frames_map (committed_frames w ++ uncommitted w))))
    as (w' & Hrun & _ & Hread & _); [|done|by eexists|done|done|].
  - repeat constructor; done.
  - exists w, w'. split; [exact Hrun|]. rewrite Hread, Hc, Hu. vm_compute. done.
Defined.
