(* ===== verification/WalCheckpoint.v ===== *)
(** Checkpoints and reader snapshots of the write-ahead log: what a checkpoint
    does to the database file, when a reader blocks it, what a snapshot keeps
    seeing, and the two flaws of index reuse (after a crash inside a commit,
    and after a checkpoint under a registered snapshot). *)
From S2P Require Import Prelude PagerIface FileIO Wal WalRecovery.

Section Checkpoint.
Context `{PageSize}.

(** The bytes of page [p] of a database file. *)
Definition page_at (p : Z) (db : file) : bytes := sub db ((p - 1) * PAGE_SIZE) PAGE_SIZE.

(** ** Applying frames *)

Lemma page_off_nonneg p : 0 < p → 0 ≤ (p - 1) * PAGE_SIZE.
Proof. pose proof PAGE_SIZE_bounds. intros. apply Z.mul_nonneg_nonneg; lia. Qed.

Lemma page_at_write_same p d db :
  0 < p → zlen d = PAGE_SIZE → page_at p (file_write ((p - 1) * PAGE_SIZE) d db) = d.
Proof.
  pose proof PAGE_SIZE_bounds. intros Hp Hd. unfold page_at. pose proof (page_off_nonneg p Hp) as Ho.
  pose proof (sub_file_write_eq ((p - 1) * PAGE_SIZE) d db Ho) as E. by rewrite Hd in E. Qed.
Lemma page_at_write_other p q d db :
  0 < p → 0 < q → p ≠ q → zlen d = PAGE_SIZE → p * PAGE_SIZE ≤ zlen db →
  page_at p (file_write ((q - 1) * PAGE_SIZE) d db) = page_at p db.
Proof. pose proof PAGE_SIZE_bounds. intros. unfold page_at. apply sub_file_write_disjoint; nia. Qed.

Lemma apply_frames_spec entries frames db :
  NoDup entries.*1 →
  (∀ p i, (p, i) ∈ entries → 0 < p ∧ ∃ f, frames !! i = Some f ∧ zlen (data f) = PAGE_SIZE) →
  ∃ db', apply_frames entries frames None db = Ok db' ∧ zlen db ≤ zlen db' ∧
    (∀ p i f, (p, i) ∈ entries → frames !! i = Some f → page_at p db' = data f ∧ p * PAGE_SIZE ≤ zlen db') ∧
    (∀ p, 0 < p → p ∉ entries.*1 → p * PAGE_SIZE ≤ zlen db → page_at p db' = page_at p db).
Proof.
  pose proof PAGE_SIZE_bounds as HP. revert db. induction entries as [|[q j] entries IH]; intros db Hnd Hok.
  { exists db. split; [done|]. split; [done|]. split; [set_solver|done]. }
  cbn [fmap list_fmap fst] in Hnd. apply NoDup_cons in Hnd as [Hq Hnd].
  destruct (Hok q j) as (Hq0 & g & Hg & Hdg); [by left|].
  pose proof (zlen_file_write ((q - 1) * PAGE_SIZE) (data g) db (page_off_nonneg q Hq0)) as Hlen.
  destruct (IH (file_write ((q - 1) * PAGE_SIZE) (data g) db) Hnd) as (db' & Hrun & Hl & Hin & Hout).
  { intros p i Hpi. apply Hok. by right. }
  exists db'. cbn [apply_frames]. rewrite Hg. destruct (Z.eqb_spec q 0); [lia|]. split; [done|]. split; [lia|]. split.
  - intros p i f [[= -> ->]|Hpi]%elem_of_cons Hf; [|by eapply Hin].
    rewrite Hg in Hf. injection Hf as <-. rewrite Hout by (done || nia). split; [by apply page_at_write_same|nia].
  - intros p Hp [Hpq Hpe]%not_elem_of_cons Hpl. rewrite Hout by (done || lia). by apply page_at_write_other.
Qed.

Lemma page_at_set_len p n db :
  0 < p → p ≤ n → p * PAGE_SIZE ≤ zlen db → page_at p (file_set_len (n * PAGE_SIZE) db) = page_at p db.
Proof.
  pose proof PAGE_SIZE_bounds. intros. unfold page_at, file_set_len. unfold sub at 1.
  rewrite skipn_firstn_comm, take_take. unfold pad_to. rewrite drop_app_le by (unfold zlen in *; nia).
  unfold sub. rewrite Nat.min_l by nia. rewrite take_app_le; [done|]. rewrite length_drop. unfold zlen in *. nia.
Qed.

Lemma fresh_salts_ok nanos h : header_ok h → header_ok (fresh_salts nanos h).
Proof. intros [? ? ? _ _]. split; simpl; try done; apply as_u32_range. Qed.
Lemma last_commit_pos fs : committed_prefix fs = length fs → fs ≠ [] → 0 < last_commit_size fs.
Proof.
  intros Ha Hne. unfold last_commit_size. rewrite Ha, take_ge by lia.
  destruct fs as [|f fs _] using rev_ind; [done|]. rewrite last_snoc. rewrite committed_prefix_snoc, length_app in Ha.
  unfold is_commit in Ha. destruct (Z.ltb_spec 0 (commit_size f)); [done|].
  pose proof (committed_prefix_le fs). simpl in Ha. lia.
Qed.

(** The log file after the reset is the new header alone. *)
Lemma reset_log_file w f nanos :
  wal_ok w → wal_file w = Some f →
  header_serialize (fresh_salts nanos (header w)) = Ok (header_bytes (fresh_salts nanos (header w))) ∧
  file_set_len WAL_HEADER_SIZE (file_write 0 (header_bytes (fresh_salts nanos (header w))) f)
    = log_bytes (fresh_salts nanos (header w)) [].
Proof.
  intros Hw Hf. pose proof (wok_header w Hw) as Hh. pose proof (fresh_salts_ok nanos _ Hh) as Hh'.
  pose proof (zlen_header_bytes _ Hh) as Hl. pose proof (zlen_header_bytes _ Hh') as Hl'.
  split; [by apply header_serialize_Ok|]. rewrite (wok_file w Hw f Hf). unfold log_bytes.
  pose proof (file_write_mid [] (header_bytes (header w)) (frames_bytes (header w) (committed_frames w))
    (header_bytes (fresh_salts nanos (header w))) ltac:(unfold zlen in *; lia)) as E. rewrite zlen_nil in E. cbn [app] in E.
  rewrite E.
  unfold file_set_len, WAL_HEADER_SIZE. rewrite pad_to_id by (rewrite zlen_app, Hl'; pose proof (zlen_nonneg (frames_bytes (header w) (committed_frames w))); lia).
  cbn [app]. rewrite take_app_le, take_ge by (unfold zlen in *; lia). change (frames_bytes _ []) with (@nil Z).
  by rewrite app_nil_r.
Qed.

Lemma min_visible_le l s : s ∈ l → (min_visible l ≤ visible_frames s)%nat.
Proof.
  assert (∀ vs v x, x = v ∨ x ∈ vs → (foldl Nat.min v vs ≤ x)%nat) as Hfold.
  { induction vs as [|u vs IH]; intros v x; simpl; [intros [->|?]; [done|set_solver]|].
    intros [->|[->|?]%elem_of_cons]; [| |by apply IH; right].
    - etrans; [apply (IH _ (v `min` u)%nat); by left|lia].
    - etrans; [apply (IH _ (v `min` u)%nat); by left|lia]. }
  unfold min_visible. destruct l as [|s0 l]; [by intros ?%not_elem_of_nil|]. simpl.
  intros [->|Hs]%elem_of_cons; apply Hfold; [by left|]. right. by apply list_elem_of_fmap_2.
Qed.

(** ** Theorems *)

(** [C13] A checkpoint with no active snapshot moves the log into the database
    file.  The file gets the page count of the last commit; each of its pages
    is the last committed frame of that page, or, when the log has none, what
    the file held before.  The log is empty afterwards, its file again a
    well-formed log under new salts; the uncommitted frames are gone too. *)
Theorem wal_checkpoint_correct w db nanos :
  wal_ok w → active_snapshots w = [] → (∀ f, f ∈ committed_frames w → 0 < page_num f) →
  ∃ db' w', checkpoint nanos w db = Ok (length (committed_frames w), db', w') ∧
    wal_ok w' ∧ committed_frames w' = [] ∧ uncommitted w' = [] ∧
    (committed_frames w ≠ [] → zlen db' = last_commit_size (committed_frames w) * PAGE_SIZE) ∧
    (∀ p d, p ≤ last_commit_size (committed_frames w) → frames_map (committed_frames w) !! p = Some d → page_at p db' = d) ∧
    (∀ p, 0 < p → p ≤ last_commit_size (committed_frames w) ∨ committed_frames w = [] → p * PAGE_SIZE ≤ zlen db →
       frames_map (committed_frames w) !! p = None → page_at p db' = page_at p db).
Proof.
  intros Hw Hsn Hpos. pose proof PAGE_SIZE_bounds as HP.
  destruct (apply_frames_spec (map_to_list (page_map (wal_index w))) (committed_frames w) db) as (db1 & Hrun & Hl & Hin & Hout).
  { apply NoDup_fst_map_to_list. }
  { intros p i Hpi%elem_of_map_to_list. rewrite (wok_index w Hw) in Hpi. simpl in Hpi. rewrite (wok_all w Hw), firstn_all in Hpi.
    destruct (index_frames_lookup _ _ _ Hpi) as (f & Hf & <- & _). apply list_elem_of_lookup_2 in Hf as Hel.
    split; [by apply Hpos|]. exists f. split; [done|]. apply ok_data. pose proof (wok_committed w Hw) as Hc. rewrite Forall_forall in Hc. by apply Hc. }
  set (n := last_commit_size (committed_frames w)).
  set (db2 := if 0 <? n then file_set_len (n * PAGE_SIZE) db1 else db1).
  assert (apply_full w db = Ok db2) as Hfull.
  { unfold apply_full. rewrite Hrun. cbn [mbind res_bind]. unfold db2, n. by rewrite (wok_index w Hw). }
  assert (∀ p d, frames_map (committed_frames w) !! p = Some d → 0 < p ∧ page_at p db1 = d ∧ p * PAGE_SIZE ≤ zlen db1) as Hpages.
  { intros p d Hd. rewrite frames_map_lookup in Hd. destruct (index_frames 0 (committed_frames w) ∅ !! p) as [i|] eqn:Hi; [|done].
    simpl in Hd. destruct (committed_frames w !! i) as [f|] eqn:Hf; [|done]. injection Hd as <-.
    destruct (index_frames_lookup _ _ _ Hi) as (g & Hg & Hgp & _). rewrite Hf in Hg. injection Hg as <-.
    split; [rewrite <- Hgp; apply Hpos; by eapply list_elem_of_lookup_2|].
    apply (Hin p i f); [|done]. apply elem_of_map_to_list. rewrite (wok_index w Hw). simpl.
    by rewrite (wok_all w Hw), firstn_all. }
  set (h' := fresh_salts nanos (header w)).
  set (f' := match wal_file w with None => None | Some _ => Some (log_bytes h' []) end).
  assert (∃ w', full_checkpoint nanos w db = Ok (length (committed_frames w), db2, w') ∧ wal_ok w' ∧
    committed_frames w' = [] ∧ uncommitted w' = []) as (w' & Hck & Hw' & Hc' & Hu').
  { assert (match wal_file w with None => Ok None | Some f => hdr ← header_serialize h'; Ok (Some (file_set_len WAL_HEADER_SIZE (file_write 0 hdr f))) end
      = Ok f') as Hf'.
    { unfold f'. destruct (wal_file w) as [f|] eqn:Hf; [|done]. destruct (reset_log_file w f nanos Hw Hf) as [Hs Hr].
      fold h' in Hs, Hr. rewrite Hs. cbn [mbind res_bind]. by rewrite Hr. }
    eexists. unfold full_checkpoint. rewrite Hfull. cbn [mbind res_bind]. fold h'. rewrite Hf'. split; [reflexivity|].
    split; [|done]. split; simpl; try done; [apply fresh_salts_ok, Hw|].
    unfold f'. intros f. destruct (wal_file w); [|done]. by intros [= <-]. }
  exists db2, (set_stats (stats_checkpoint (Z.of_nat (length (committed_frames w))) (stats w')) w').
  split.
  { unfold checkpoint, safe_checkpoint_boundary. rewrite Hsn. rewrite bool_decide_true by done.
    rewrite andb_false_r, Nat.leb_refl, Hck. done. }
  split; [by destruct Hw'|]. split; [done|]. split; [done|].
  assert (committed_frames w ≠ [] → 0 < n) as Hn by (apply last_commit_pos, Hw).
  assert (∀ p, 0 < p → p ≤ n ∨ committed_frames w = [] → p * PAGE_SIZE ≤ zlen db1 → page_at p db2 = page_at p db1) as Hset.
  { intros p Hp Hpn Hpl. unfold db2. destruct (Z.ltb_spec 0 n); [|done]. apply page_at_set_len; [done| |done].
    destruct Hpn as [|Hnil]; [done|]. unfold n in *. rewrite Hnil in *. done. }
  split_and!.
  - intros Hne. unfold db2. destruct (Z.ltb_spec 0 n); [|by apply Hn in Hne; lia]. apply zlen_file_set_len. lia.
  - intros p d Hp Hd. destruct (Hpages p d Hd) as (Hp0 & Hd1 & Hlen). rewrite Hset by auto. done.
  - intros p Hp Hpn Hpl Hnone. rewrite Hset by (done || lia). apply Hout; [done| |done].
    intros [[q i] [Hq Hqi%elem_of_map_to_list]]%list_elem_of_fmap. simpl in Hq. subst q.
    rewrite (wok_index w Hw) in Hqi. simpl in Hqi. rewrite (wok_all w Hw), firstn_all in Hqi.
    rewrite frames_map_lookup, Hqi in Hnone. simpl in Hnone.
    destruct (index_frames_lookup _ _ _ Hqi) as (f & Hf & _). by rewrite Hf in Hnone.
Qed.

(** A reader that does not see every committed frame blocks the checkpoint:
    nothing is applied and only the statistics change.  A checkpoint is never
    partial: what can be applied is everything or nothing. *)
Theorem wal_checkpoint_blocked w db nanos s :
  s ∈ active_snapshots w → (visible_frames s < length (committed_frames w))%nat →
  checkpoint nanos w db = Ok (0%nat, db, set_stats (stats_blocked (stats w)) w) ∧ is_checkpoint_blocked w = true.
Proof.
  intros Hs Hv. unfold checkpoint, is_checkpoint_blocked, safe_checkpoint_boundary.
  pose proof (min_visible_le _ _ Hs) as Hmin.
  destruct (active_snapshots w) as [|s0 snaps] eqn:Ha; [by apply not_elem_of_nil in Hs|]. rewrite <- Ha in *.
  destruct (Nat.leb_spec (length (committed_frames w)) (min_visible (active_snapshots w))); [lia|].
  rewrite bool_decide_false by (by rewrite Ha). done.
Qed.

(** A snapshot keeps reading the pages committed when it was taken, through
    every later sequence of writes, commits and rollbacks. *)
Theorem wal_snapshot_stable os w :
  Forall op_ok os → OReopen ∉ os → wal_ok w →
  ∃ w', wal_run os w = Ok w' ∧
    ∀ p, read_page_snapshot p (snapshot w) w' = frames_map (committed_frames w) !! p.
Proof.
  intros Hos Hno Hw.
  assert (∃ w', wal_run os w = Ok w' ∧ committed_frames w `prefix_of` committed_frames w') as (w' & Hrun & [k Hk]).
  { revert w Hw. induction Hos as [|o os Ho Hos IH]; intros w Hw; [by exists w|].
    apply not_elem_of_cons in Hno as [Hne Hno]. cbn [wal_run].
    assert (∃ w1, wal_step o w = Ok w1 ∧ wal_ok w1 ∧ committed_frames w `prefix_of` committed_frames w1) as (w1 & Hs & Hw1 & Hp1).
    { destruct o as [p d|n| |]; simpl in Ho |- *; [| | |done].
      - destruct Ho. eexists. split; [done|]. split; [by apply write_page_ok|done].
      - destruct Ho. destruct (decide (uncommitted w = [])) as [He|Hnu].
        + exists w. unfold commit. by rewrite He.
        + destruct (commit_spec n w) as (w1 & Hrun & Hw1 & _ & _ & Hc1 & _); [done..|].
          exists w1. rewrite Hrun, Hc1. split; [done|]. split; [done|]. by eexists.
      - eexists. split; [done|]. split; [by apply rollback_ok|done]. }
    rewrite Hs. cbn [mbind res_bind]. destruct (IH Hno w1 Hw1) as (w' & Hrun & Hp). exists w'. split; [done|]. by etrans. }
  exists w'. split; [done|]. intros p. unfold read_page_snapshot, snapshot. cbn [snap_page_map snapshot_end].
  rewrite frames_map_lookup, (wok_index w Hw). cbn [recovered_index page_map]. rewrite (wok_all w Hw), firstn_all.
  destruct (index_frames 0 (committed_frames w) ∅ !! p) as [i|] eqn:Hi; [|done]. cbn [mbind option_bind].
  destruct (index_frames_lookup _ _ _ Hi) as (f & Hf & _). apply lookup_lt_Some in Hf as Hlt.
  destruct (Nat.ltb_spec i (length (committed_frames w))), (Nat.ltb_spec i (length (committed_frames w'))); [|rewrite Hk, length_app in *; lia..].
  simpl. by rewrite Hk, lookup_app_l.
Qed.
End Checkpoint.

(** ** Runs on concrete logs *)

Definition demo_wal_page `{PageSize} (x : Z) : bytes := replicate (Z.to_nat PAGE_SIZE) x.
Definition demo_wal_uuid : bytes := replicate 16 9.
(** A log with one committed page, and two pages waiting. *)
Definition demo_log `{PageSize} : res Wal :=
  w ← create demo_wal_uuid 12345;
  wal_run [OWrite 3 (demo_wal_page 1); OCommit 3; OWrite 4 (demo_wal_page 2); OWrite 5 (demo_wal_page 3)] w.

Definition file_of (w : Wal) : file := default [] (wal_file w).
(** The file after [n] bytes of the pending commit of [demo_log] were written. *)
Definition demo_crash `{PageSize} (n : Z) : res file :=
  w ← demo_log;
  w' ← wal_step (OCommit 5) w;
  Ok (take (Z.to_nat (zlen (file_of w) + n)) (file_of w')).

(** After a crash that left a whole uncommitted frame in the file, [open]
    counts that frame among [total_frames] although it drops it.  The next
    commit is appended behind it, and the one after that overwrites the first:
    when the log is opened again, the page of the crashed transaction (page 4)
    has become committed and the committed page 6 is lost. *)
Theorem crashed_commit_corrupts_log :
  let _ := page_size_512 in
  ∃ c w1 w2 w3,
    demo_crash WAL_FRAME_SIZE = Ok c ∧ open c = Ok w1 ∧ read_page 4 w1 = None ∧
    wal_run [OWrite 6 (demo_wal_page 6); OCommit 6; OWrite 7 (demo_wal_page 7); OCommit 7] w1 = Ok w2 ∧
    read_page 6 w2 = Some (demo_wal_page 6) ∧ read_page 4 w2 = None ∧
    wal_step OReopen w2 = Ok w3 ∧
    read_page 6 w3 = None ∧ read_page 4 w3 = Some (demo_wal_page 2) ∧ read_page 7 w3 = Some (demo_wal_page 7).
Proof.
  intros Hps. do 4 eexists.
  split; [vm_compute; reflexivity|]. split; [vm_compute; reflexivity|]. split; [vm_compute; reflexivity|].
  split; [vm_compute; reflexivity|]. repeat (split; [vm_compute; reflexivity|]). vm_compute. reflexivity.
Qed.

(** A registered snapshot that sees the whole log does not hold back a
    checkpoint, and the checkpoint does not touch the snapshot: once later
    commits have reused the frame numbers, reading page 3 through the snapshot
    answers the contents of page 9. *)
Theorem snapshot_reads_wrong_page :
  let _ := page_size_512 in
  ∃ w w1 snap db w2 w3,
    (w0 ← create demo_wal_uuid 12345; wal_run [OWrite 3 (demo_wal_page 1); OCommit 3] w0) = Ok w ∧
    register_snapshot w = ((1, snap), w1) ∧ read_page_snapshot 3 snap w1 = Some (demo_wal_page 1) ∧
    checkpoint 777 w1 [] = Ok (1%nat, db, w2) ∧
    wal_run [OWrite 9 (demo_wal_page 2); OCommit 9] w2 = Ok w3 ∧
    read_page_snapshot 3 snap w3 = Some (demo_wal_page 2).
Proof.
  intros Hps. do 6 eexists.
  split; [vm_compute; reflexivity|]. split; [vm_compute; reflexivity|]. split; [vm_compute; reflexivity|].
  split; [vm_compute; reflexivity|]. split; [vm_compute; reflexivity|]. vm_compute. reflexivity.
Qed.

(** ** Witnesses *)

(** A log with page 3 committed in three-page database, and a reader of the
    state before that commit. *)
Lemma demo_committed :
  let _ := page_size_512 in
  ∃ w, wal_ok w ∧ active_snapshots w = [] ∧ committed_frames w = [mkWalFrame 3 3 0 (replicate 512 1)].
Proof.
  intros Hps. destruct demo_pending as (w & f & Hw & Hf & Hc & Hu & Hs).
  destruct (commit_spec 3 w Hw) as (w' & _ & Hw' & _ & _ & Hc' & _ & Hs'); [int_lia|lia|by rewrite Hu|].
  exists w'. split; [done|]. split; [by rewrite Hs'|]. by rewrite Hc', Hc, Hu.
Qed.

Lemma wal_checkpoint_correct_witness :
  let _ := page_size_512 in
  ∃ w db' w', checkpoint 777 w [] = Ok (1%nat, db', w') ∧ page_at 3 db' = replicate 512 1.
Proof.
  intros Hps. destruct demo_committed as (w & Hw & Hs & Hc).
  destruct (wal_checkpoint_correct w [] 777 Hw Hs) as (db' & w' & Hrun & _ & _ & _ & _ & Hp & _).
  - rewrite Hc. intros f ->%list_elem_of_singleton. done.
  - rewrite Hc in *. exists w, db', w'. split; [exact Hrun|]. apply Hp; [vm_compute; discriminate|]. vm_compute. done.
Defined.

Lemma wal_checkpoint_blocked_witness :
  let _ := page_size_512 in
  ∃ w, checkpoint 777 w [] = Ok (0%nat, [], set_stats (stats_blocked (stats w)) w).
Proof.
  intros Hps. destruct demo_committed as (w & Hw & Hs & Hc).
  exists (set_snapshots [mkSnapshotEntry 1 0] w).
  apply (wal_checkpoint_blocked (set_snapshots [mkSnapshotEntry 1 0] w) [] 777 (mkSnapshotEntry 1 0)).
  - by left.
  - simpl. rewrite Hc. simpl. lia.
Defined.

Lemma wal_snapshot_stable_witness :
  let _ := page_size_512 in
  ∃ w w', wal_run [OWrite 3 (replicate 512 8); OCommit 4] w = Ok w' ∧
    read_page_snapshot 3 (snapshot w) w' = Some (replicate 512 1).
Proof.
  intros Hps. destruct demo_committed as (w & Hw & Hs & Hc).
  destruct (wal_snapshot_stable [OWrite 3 (replicate 512 8); OCommit 4] w) as (w' & Hrun & Hread); [|set_solver|done|].
  - repeat constructor; done.
  - exists w, w'. split; [exact Hrun|]. rewrite Hread, Hc. vm_compute. done.
Defined.
