(* ===== verification/Pager.v ===== *)
(** The pager (src/src/storage/pager.rs): the page buffer with its clock
    eviction, page allocation and the two-generation free pool, transactions
    with copied-out original pages, savepoints, rollback, the commit protocol
    over data pages, write-ahead log and superblocks, and LZ4 page slots.

    The database file and the log are [FileIO.file]s.  [cow_state] is filled by
    both constructors and never emptied, so it is the state itself and the
    "missing v2 state" errors do not arise.  The LZ4 codec is a parameter; the
    clock supplies [nanos].  A failpoint that aborts the process is [Panic]. *)
From S2P Require Import Prelude PagerIface FileIO Superblock Wal.

(** A step given by its effect on the state. *)
Definition st_fun {S A} (f : S → res A * S) : ST S A := f.

Definition MAX_PAGES : Z := 1048576.

Inductive PagerFailpoint := AfterDataPagesWrite | AfterDataPagesSync | AfterSuperblockWrite | AfterSuperblockSync.
Inductive PagerFailAction := FailError | FailAbortProcess.
#[export] Instance PagerFailpoint_eq_dec : EqDecision PagerFailpoint.
Proof. solve_decision. Defined.
(** [{:?}] *)
Definition show_failpoint (f : PagerFailpoint) : string :=
  match f with
  | AfterDataPagesWrite => "AfterDataPagesWrite"
  | AfterDataPagesSync => "AfterDataPagesSync"
  | AfterSuperblockWrite => "AfterSuperblockWrite"
  | AfterSuperblockSync => "AfterSuperblockSync"
  end.

Record Page := mkPage { data : bytes; dirty : bool; snapshotted : bool; recently_used : bool }.
Record DbHeader := mkDbHeader {
  db_page_size : Z; total_pages : Z; first_freelist_page : Z; freelist_count : Z; schema_version : Z
}.
Record CowTxnState := mkCowTxn {
  txid : Z; base_generation : Z; target_generation : Z; freed_root : option Z; freed_tail : option Z
}.
Record CowPagerState := mkCow {
  active_superblock : SuperblockV2; active_slot : SuperblockSlot; next_txid : Z; active_tx : option CowTxnState
}.
Record TxnSnapshot := mkTxnSnapshot {
  snap_header : DbHeader; snap_superblock : SuperblockV2; snap_slot : SuperblockSlot;
  original_pages : gmap Z bytes; snap_total_pages : Z
}.
Record SavepointMarker := mkSavepoint {
  sp_name : string; sp_header : DbHeader; sp_superblock : SuperblockV2; sp_slot : SuperblockSlot;
  sp_total_pages : Z; watermark_keys : gset Z
}.
Inductive FlushMethod := Fsync | FdataSync | FlushNone.
Record EngineConfig := mkEngineConfig {
  buffer_pool_pages : Z; wal_auto_checkpoint : Z; wal_enabled : bool; cfg_use_lz4 : bool; flush_method : FlushMethod
}.
Definition EngineConfig_default : EngineConfig := mkEngineConfig 256 1000 true false Fsync.

Record Pager := mkPager {
  pfile : option file;
  header : DbHeader;
  pages : list Page;
  loaded : list bool;
  is_memory : bool;
  cow_state : CowPagerState;
  failpoint : option PagerFailpoint;
  fail_action : PagerFailAction;
  txn_snapshot : option TxnSnapshot;
  savepoint_stack : list SavepointMarker;
  bulk_mode : bool;
  max_buffer_pages : Z;
  lru_queue : list Z;
  lru_loaded_count : Z;
  use_lz4 : bool;
  dirty_pages : list Z;
  wal : option Wal;
  engine_config : EngineConfig;
  current_lsn : Z;
  page_lsn : gmap Z Z
}.

(** Updates of single fields. *)
Definition set_pfile (x : option file) (p : Pager) : Pager :=
  mkPager x (header p) (pages p) (loaded p) (is_memory p) (cow_state p) (failpoint p) (fail_action p)
    (txn_snapshot p) (savepoint_stack p) (bulk_mode p) (max_buffer_pages p) (lru_queue p) (lru_loaded_count p)
    (use_lz4 p) (dirty_pages p) (wal p) (engine_config p) (current_lsn p) (page_lsn p).
Definition set_header (x : DbHeader) (p : Pager) : Pager :=
  mkPager (pfile p) x (pages p) (loaded p) (is_memory p) (cow_state p) (failpoint p) (fail_action p)
    (txn_snapshot p) (savepoint_stack p) (bulk_mode p) (max_buffer_pages p) (lru_queue p) (lru_loaded_count p)
    (use_lz4 p) (dirty_pages p) (wal p) (engine_config p) (current_lsn p) (page_lsn p).
Definition set_pages (x : list Page) (p : Pager) : Pager :=
  mkPager (pfile p) (header p) x (loaded p) (is_memory p) (cow_state p) (failpoint p) (fail_action p)
    (txn_snapshot p) (savepoint_stack p) (bulk_mode p) (max_buffer_pages p) (lru_queue p) (lru_loaded_count p)
    (use_lz4 p) (dirty_pages p) (wal p) (engine_config p) (current_lsn p) (page_lsn p).
Definition set_loaded (x : list bool) (p : Pager) : Pager :=
  mkPager (pfile p) (header p) (pages p) x (is_memory p) (cow_state p) (failpoint p) (fail_action p)
    (txn_snapshot p) (savepoint_stack p) (bulk_mode p) (max_buffer_pages p) (lru_queue p) (lru_loaded_count p)
    (use_lz4 p) (dirty_pages p) (wal p) (engine_config p) (current_lsn p) (page_lsn p).
Definition set_cow_state (x : CowPagerState) (p : Pager) : Pager :=
  mkPager (pfile p) (header p) (pages p) (loaded p) (is_memory p) x (failpoint p) (fail_action p)
    (txn_snapshot p) (savepoint_stack p) (bulk_mode p) (max_buffer_pages p) (lru_queue p) (lru_loaded_count p)
    (use_lz4 p) (dirty_pages p) (wal p) (engine_config p) (current_lsn p) (page_lsn p).
Definition set_failpoint (x : option PagerFailpoint) (p : Pager) : Pager :=
  mkPager (pfile p) (header p) (pages p) (loaded p) (is_memory p) (cow_state p) x (fail_action p)
    (txn_snapshot p) (savepoint_stack p) (bulk_mode p) (max_buffer_pages p) (lru_queue p) (lru_loaded_count p)
    (use_lz4 p) (dirty_pages p) (wal p) (engine_config p) (current_lsn p) (page_lsn p).
Definition set_fail_action (x : PagerFailAction) (p : Pager) : Pager :=
  mkPager (pfile p) (header p) (pages p) (loaded p) (is_memory p) (cow_state p) (failpoint p) x (txn_snapshot
    p) (savepoint_stack p) (bulk_mode p) (max_buffer_pages p) (lru_queue p) (lru_loaded_count p) (use_lz4 p)
    (dirty_pages p) (wal p) (engine_config p) (current_lsn p) (page_lsn p).
Definition set_txn_snapshot (x : option TxnSnapshot) (p : Pager) : Pager :=
  mkPager (pfile p) (header p) (pages p) (loaded p) (is_memory p) (cow_state p) (failpoint p) (fail_action p)
    x (savepoint_stack p) (bulk_mode p) (max_buffer_pages p) (lru_queue p) (lru_loaded_count p) (use_lz4 p)
    (dirty_pages p) (wal p) (engine_config p) (current_lsn p) (page_lsn p).
Definition set_savepoint_stack (x : list SavepointMarker) (p : Pager) : Pager :=
  mkPager (pfile p) (header p) (pages p) (loaded p) (is_memory p) (cow_state p) (failpoint p) (fail_action p)
    (txn_snapshot p) x (bulk_mode p) (max_buffer_pages p) (lru_queue p) (lru_loaded_count p) (use_lz4 p)
    (dirty_pages p) (wal p) (engine_config p) (current_lsn p) (page_lsn p).
Definition set_bulk_mode (x : bool) (p : Pager) : Pager :=
  mkPager (pfile p) (header p) (pages p) (loaded p) (is_memory p) (cow_state p) (failpoint p) (fail_action p)
    (txn_snapshot p) (savepoint_stack p) x (max_buffer_pages p) (lru_queue p) (lru_loaded_count p) (use_lz4 p)
    (dirty_pages p) (wal p) (engine_config p) (current_lsn p) (page_lsn p).
Definition set_max_buffer_pages (x : Z) (p : Pager) : Pager :=
  mkPager (pfile p) (header p) (pages p) (loaded p) (is_memory p) (cow_state p) (failpoint p) (fail_action p)
    (txn_snapshot p) (savepoint_stack p) (bulk_mode p) x (lru_queue p) (lru_loaded_count p) (use_lz4 p)
    (dirty_pages p) (wal p) (engine_config p) (current_lsn p) (page_lsn p).
Definition set_lru_queue (x : list Z) (p : Pager) : Pager :=
  mkPager (pfile p) (header p) (pages p) (loaded p) (is_memory p) (cow_state p) (failpoint p) (fail_action p)
    (txn_snapshot p) (savepoint_stack p) (bulk_mode p) (max_buffer_pages p) x (lru_loaded_count p) (use_lz4 p)
    (dirty_pages p) (wal p) (engine_config p) (current_lsn p) (page_lsn p).
Definition set_lru_loaded_count (x : Z) (p : Pager) : Pager :=
  mkPager (pfile p) (header p) (pages p) (loaded p) (is_memory p) (cow_state p) (failpoint p) (fail_action p)
    (txn_snapshot p) (savepoint_stack p) (bulk_mode p) (max_buffer_pages p) (lru_queue p) x (use_lz4 p)
    (dirty_pages p) (wal p) (engine_config p) (current_lsn p) (page_lsn p).
Definition set_use_lz4 (x : bool) (p : Pager) : Pager :=
  mkPager (pfile p) (header p) (pages p) (loaded p) (is_memory p) (cow_state p) (failpoint p) (fail_action p)
    (txn_snapshot p) (savepoint_stack p) (bulk_mode p) (max_buffer_pages p) (lru_queue p) (lru_loaded_count p)
    x (dirty_pages p) (wal p) (engine_config p) (current_lsn p) (page_lsn p).
Definition set_dirty_pages (x : list Z) (p : Pager) : Pager :=
  mkPager (pfile p) (header p) (pages p) (loaded p) (is_memory p) (cow_state p) (failpoint p) (fail_action p)
    (txn_snapshot p) (savepoint_stack p) (bulk_mode p) (max_buffer_pages p) (lru_queue p) (lru_loaded_count p)
    (use_lz4 p) x (wal p) (engine_config p) (current_lsn p) (page_lsn p).
Definition set_wal (x : option Wal) (p : Pager) : Pager :=
  mkPager (pfile p) (header p) (pages p) (loaded p) (is_memory p) (cow_state p) (failpoint p) (fail_action p)
    (txn_snapshot p) (savepoint_stack p) (bulk_mode p) (max_buffer_pages p) (lru_queue p) (lru_loaded_count p)
    (use_lz4 p) (dirty_pages p) x (engine_config p) (current_lsn p) (page_lsn p).
Definition set_engine_config (x : EngineConfig) (p : Pager) : Pager :=
  mkPager (pfile p) (header p) (pages p) (loaded p) (is_memory p) (cow_state p) (failpoint p) (fail_action p)
    (txn_snapshot p) (savepoint_stack p) (bulk_mode p) (max_buffer_pages p) (lru_queue p) (lru_loaded_count p)
    (use_lz4 p) (dirty_pages p) (wal p) x (current_lsn p) (page_lsn p).
Definition set_current_lsn (x : Z) (p : Pager) : Pager :=
  mkPager (pfile p) (header p) (pages p) (loaded p) (is_memory p) (cow_state p) (failpoint p) (fail_action p)
    (txn_snapshot p) (savepoint_stack p) (bulk_mode p) (max_buffer_pages p) (lru_queue p) (lru_loaded_count p)
    (use_lz4 p) (dirty_pages p) (wal p) (engine_config p) x (page_lsn p).
Definition set_page_lsn (x : gmap Z Z) (p : Pager) : Pager :=
  mkPager (pfile p) (header p) (pages p) (loaded p) (is_memory p) (cow_state p) (failpoint p) (fail_action p)
    (txn_snapshot p) (savepoint_stack p) (bulk_mode p) (max_buffer_pages p) (lru_queue p) (lru_loaded_count p)
    (use_lz4 p) (dirty_pages p) (wal p) (engine_config p) (current_lsn p) x.
Definition set_superblock (sb : SuperblockV2) (p : Pager) : Pager :=
  let c := cow_state p in set_cow_state (mkCow sb (active_slot c) (next_txid c) (active_tx c)) p.
Definition set_active_tx (tx : option CowTxnState) (p : Pager) : Pager :=
  let c := cow_state p in set_cow_state (mkCow (active_superblock c) (active_slot c) (next_txid c) tx) p.
Definition set_total_pages (n : Z) (p : Pager) : Pager :=
  let h := header p in
  set_header (mkDbHeader (db_page_size h) n (first_freelist_page h) (freelist_count h) (schema_version h)) p.
Definition sb_of (p : Pager) : SuperblockV2 := active_superblock (cow_state p).

(** [(page_num - 1) as usize] *)
Definition idx (page_num : Z) : nat := Z.to_nat (page_num - 1).
Definition upd_page (n : Z) (f : Page → Page) (p : Pager) : Pager := set_pages (alter f (idx n) (pages p)) p.
Definition in_transaction (p : Pager) : bool := bool_decide (is_Some (active_tx (cow_state p))).
Definition active_txid (p : Pager) : option Z := txid <$> active_tx (cow_state p).

(** The third-party LZ4 block codec: the compressed bytes, or [None] when it
    fails; the decompressed bytes, or the error's text. *)
Class Lz4 := {
  compress_into : bytes → option bytes;
  decompress_size_prepended : bytes → bytes + string
}.

(** A codec that never compresses. *)
Definition no_lz4 : Lz4 := {| compress_into := λ _, None; decompress_size_prepended := λ _, inr "corrupt"%string |}.

Section Pager.
Context `{PageSize} `{Lz4}.

Definition Page_new : Page := mkPage zero_page false false false.

(** ** LZ4 page slots *)

Definition FLAG_LZ4 : Z := 1.
Definition LZ4_RAW : Z := 0xFFFF.
Definition raw_slot (d : bytes) : bytes := le_bytes 2 LZ4_RAW ++ take (Z.to_nat (PAGE_SIZE - 2)) d.
Definition compress_for_disk (d : bytes) : bytes :=
  match compress_into d with
  | None => raw_slot d
  | Some c =>
      let scratch := le_bytes 4 PAGE_SIZE ++ c in
      let total := 4 + zlen c in
      if total <? PAGE_SIZE - 2
      then le_bytes 2 (as_u16 total) ++ scratch ++ replicate (Z.to_nat (PAGE_SIZE - 2 - total)) 0
      else raw_slot d
  end.
Definition decompress_from_disk (slot : bytes) : res bytes :=
  comp_len ← read_u16 slot 0;
  if comp_len =? LZ4_RAW then tail ← slice_from slot 2; Ok (tail ++ [0; 0])
  else
    compressed ← slice slot 2 (Z.min (2 + comp_len) PAGE_SIZE);
    match decompress_size_prepended compressed with
    | inr e => Err (CorruptDatabase ("LZ4 decompress failed: " +:+ e))
    | inl d =>
        if negb (zlen d =? PAGE_SIZE)
        then Err (CorruptDatabase ("LZ4 decompressed to " +:+ pretty (zlen d) +:+ " bytes, expected " +:+ pretty PAGE_SIZE))
        else Ok d
    end.
Definition enable_lz4 (p : Pager) : Pager :=
  set_superblock (with_flags (Z.lor (flags (sb_of p)) FLAG_LZ4) (sb_of p)) (set_use_lz4 true p).

(** ** Opening *)

Definition initial_header (total : Z) : DbHeader := mkDbHeader page_size_to_u16 total 0 0 0.

Definition open_cow_v2 (f : file) : res Pager :=
  r ← open_superblock f;
  let '(sb, slot) := r in
  let total := page_count sb in
  Ok (mkPager (Some f) (initial_header total) (replicate (Z.to_nat total) Page_new) (replicate (Z.to_nat total) false)
        false (mkCow sb slot (saturating_add_u64 (generation sb) 1) None) None FailError None [] false
        256 [] 0 (negb (Z.land (flags sb) FLAG_LZ4 =? 0)) [] None EngineConfig_default 0 ∅).
Definition create_cow_v2 (uuid : bytes) : res Pager := f ← create_file uuid; open_cow_v2 f.

(** [Pager::open]; [None] when there is no file yet. *)
Definition open (f : option file) (uuid : bytes) : res Pager :=
  match f with
  | None => create_cow_v2 uuid
  | Some f =>
      if zlen f <? 16 then Err (CorruptDatabase "database file is too short")
      else if bool_decide (sub f 0 16 = COW_MAGIC) then open_cow_v2 f
      else Err (RuntimeError "unsupported database format: only format v2 is supported")
  end.

Definition open_memory (uuid : bytes) : res Pager :=
  page1 ← sb_serialize (initial_superblock_a uuid) zero_page;
  page2 ← sb_serialize (initial_superblock_b uuid) zero_page;
  page3 ← init_leaf_table_page 0 zero_page;
  let pg d := mkPage d false false false in
  Ok (mkPager None (initial_header 3) [pg page1; pg page2; pg page3] [true; true; true]
        true (mkCow (initial_superblock_a uuid) SlotA 2 None) None FailError None [] false
        0 [] 0 false [] None (mkEngineConfig 0 1000 false false Fsync) 0 ∅).

(** ** Buffer pool *)

(** The clock sweep; [fuel] is [max_iters - checked].  [pages] and [loaded]
    have the same length. *)
Fixpoint evict_loop (fuel : nat) (target queue_len checked passes : Z) (p : Pager) : Pager :=
  match fuel with
  | O => p
  | S fuel =>
      if negb (target <? lru_loaded_count p) then p
      else
        match lru_queue p with
        | [] => p
        | pn :: queue =>
            let p := set_lru_queue queue p in
            match loaded p !! idx pn, pages p !! idx pn with
            | Some true, Some pg =>
                if dirty pg then evict_loop fuel target queue_len (checked + 1) passes (set_lru_queue (queue ++ [pn]) p)
                else if recently_used pg then
                  let p := set_lru_queue (queue ++ [pn])
                             (upd_page pn (λ pg, mkPage (data pg) (dirty pg) (snapshotted pg) false) p) in
                  let checked := checked + 1 in
                  if (0 <? queue_len) && (checked mod queue_len =? 0) then
                    if 2 <=? passes + 1 then p else evict_loop fuel target queue_len checked (passes + 1) p
                  else evict_loop fuel target queue_len checked passes p
                else
                  evict_loop fuel target queue_len (checked + 1) passes
                    (set_lru_loaded_count (saturating_sub (lru_loaded_count p) 1)
                      (set_loaded (alter (λ _, false) (idx pn) (loaded p)) (upd_page pn (λ _, Page_new) p)))
            | _, _ => evict_loop fuel target queue_len (checked + 1) passes p
            end
        end
  end.
Definition evict_lru_if_needed (p : Pager) : Pager :=
  if (max_buffer_pages p =? 0) || (lru_loaded_count p <=? max_buffer_pages p) then p
  else
    let queue_len := zlen (lru_queue p) in
    evict_loop (Z.to_nat (queue_len * 2)) (max_buffer_pages p) queue_len 0 0 p.

(** The page's bytes after loading it. *)
Definition load_page_from_disk (f : option file) (page_num : Z) (d : bytes) (lz4 : bool) : res bytes :=
  match f with
  | None => Ok d
  | Some f =>
      match file_read_exact (page_offset page_num) PAGE_SIZE f with
      | None => Err (CorruptDatabase ("short read for page " +:+ pretty page_num))
      | Some slot => if lz4 && (2 <? page_num) then decompress_from_disk slot else Ok slot
      end
  end.

(** [self.loaded[idx] = true; lru_loaded_count += 1; lru_queue.push_back] *)
Definition mark_loaded (n : Z) (d : bytes) (p : Pager) : Pager :=
  set_lru_queue (lru_queue p ++ [n]) (set_lru_loaded_count (lru_loaded_count p + 1)
    (set_loaded (alter (λ _, true) (idx n) (loaded p))
      (upd_page n (λ pg, mkPage d (dirty pg) (snapshotted pg) (recently_used pg)) p))).
Definition touch (n : Z) (p : Pager) : Pager :=
  if 0 <? max_buffer_pages p
  then upd_page n (λ pg, mkPage (data pg) (dirty pg) (snapshotted pg) true) p else p.

(** Make the page resident; [use_wal] is whether the log is asked first. *)
Definition ensure_loaded (use_wal : bool) (n : Z) : ST Pager unit := λ p,
  match loaded p !! idx n with
  | None => (Panic, p)
  | Some true => (Ok tt, p)
  | Some false =>
      let from_wal := if use_wal then w ← wal p; Wal.read_page n w else None in
      let p := evict_lru_if_needed p in
      match pages p !! idx n with
      | None => (Panic, p)
      | Some pg =>
          match (match from_wal with Some d => Ok d | None => load_page_from_disk (pfile p) n (data pg) (use_lz4 p) end) with
          | Ok d => (Ok tt, mark_loaded n d p)
          | Err e => (Err e, p)
          | Panic => (Panic, p)
          | Hang => (Hang, p)
          end
      end
  end.
Definition in_range (n : Z) (p : Pager) : bool := negb (n =? 0) && (n <=? total_pages (header p)).
Definition check_range (n : Z) : ST Pager unit := λ p,
  if in_range n p then (Ok tt, p) else (Err (PageOutOfRange n), p).

Definition get_page (n : Z) : ST Pager bytes :=
  _ ← check_range n;
  _ ← ensure_loaded true n;
  st_fun (λ p, let p := touch n p in
    match pages p !! idx n with Some pg => (Ok (data pg), p) | None => (Panic, p) end).
Definition get_page_data (n : Z) : ST Pager bytes := get_page n.

(** The first write in a transaction saves the original; a page that was
    clean joins [dirty_pages]. *)
Definition snapshot_page (n : Z) (pg : Page) (p : Pager) : Pager :=
  match txn_snapshot p with
  | Some snap =>
      if snapshotted pg then p
      else
        upd_page n (λ pg, mkPage (data pg) (dirty pg) true (recently_used pg))
          (set_txn_snapshot (Some (mkTxnSnapshot (snap_header snap) (snap_superblock snap) (snap_slot snap)
             (<[n := data pg]> (original_pages snap)) (snap_total_pages snap))) p)
  | None => p
  end.
Definition mark_dirty (n : Z) (pg : Page) (p : Pager) : Pager :=
  upd_page n (λ pg, mkPage (data pg) true (snapshotted pg) (recently_used pg))
    (if dirty pg then p else set_dirty_pages (dirty_pages p ++ [n]) p).

(** [get_page_mut] followed by [f] on the borrowed page. *)
Definition get_page_mut {A} (n : Z) (f : ST bytes A) : ST Pager A :=
  _ ← check_range n;
  _ ← ensure_loaded false n;
  st_fun (λ p, let p := touch n p in
    match pages p !! idx n with
    | None => (Panic, p)
    | Some pg =>
        let p := mark_dirty n pg (snapshot_page n pg p) in
        let '(r, d) := f (data pg) in
        (r, upd_page n (λ pg, mkPage d (dirty pg) (snapshotted pg) (recently_used pg)) p)
    end).

(** ** Allocation *)

(** [page.data[0..4].copy_from_slice(&next.to_le_bytes())] *)
Definition put_next (next : Z) : ST bytes unit := st_upd (λ d, copy_from_slice d 0 4 (le_bytes 4 next)).
(** [page.data.fill(0)] *)
Definition fill_zero : ST bytes unit := λ d, (Ok tt, replicate (length d) 0).

Definition free_list_head (p : Pager) : option Z * Pager :=
  let sb := sb_of p in
  if negb (free_root sb =? 0) then (Some (free_root sb), p)
  else if negb (pending_free_root sb =? 0)
  then (Some (pending_free_root sb), set_superblock (with_free (pending_free_root sb) 0 sb) p)
  else (None, p).

Definition allocate_page : ST Pager Z := λ p,
  if MAX_PAGES <=? total_pages (header p) then (Err DatabaseFull, p)
  else
    let '(head, p) := free_list_head p in
    match head with
    | Some page_num =>
        (current_free ← get_page page_num;
         next_free ← st_lift (read_u32 current_free 0);
         _ ← st_fun (λ p, (Ok tt, set_superblock (with_free next_free (pending_free_root (sb_of p)) (sb_of p)) p));
         _ ← get_page_mut page_num fill_zero;
         mret page_num) p
    | None =>
        let n := total_pages (header p) + 1 in
        (Ok n, set_loaded (loaded p ++ [true]) (set_pages (pages p ++ [Page_new]) (set_total_pages n p)))
    end.

(** The bookkeeping of [free_page] on the transaction or the superblock: the
    page to link to the freed one, and the page the freed one links to. *)
Definition record_freed (n : Z) (p : Pager) : option Z * option Z * Pager :=
  match active_tx (cow_state p) with
  | Some tx =>
      let root := match freed_tail tx with Some _ => freed_root tx | None => Some n end in
      (freed_tail tx, None,
       set_active_tx (Some (mkCowTxn (txid tx) (base_generation tx) (target_generation tx) root (Some n))) p)
  | None =>
      let sb := sb_of p in
      (None, Some (pending_free_root sb), set_superblock (with_free (free_root sb) n sb) p)
  end.
Definition free_page (n : Z) : ST Pager unit :=
  _ ← check_range n;
  _ ← get_page_mut n (_ ← fill_zero; put_next 0);
  st_fun (λ p,
    let '(previous_tail, current_pending, p) := record_freed n p in
    (_ ← (match previous_tail with Some tail => get_page_mut tail (put_next n) | None => mret tt end);
     match current_pending with Some pend => get_page_mut n (put_next pend) | None => mret tt end) p).

(** ** Flushing and committing *)

Definition maybe_failpoint (fp : PagerFailpoint) : ST Pager unit := λ p,
  if bool_decide (failpoint p = Some fp) then
    match fail_action p with
    | FailError => (Err (RuntimeError ("injected pager failpoint: " +:+ show_failpoint fp)), p)
    | FailAbortProcess => (Panic, p)
    end
  else (Ok tt, p).

Definition ERR_RESERVED : KkdbError := RuntimeError "format v2 reserves page 1/2 for superblocks".

(** One round of the loop of [write_v2_data_pages]. *)
Definition write_dirty_page (n : Z) : ST Pager unit := λ p,
  match pages p !! idx n with
  | None => (Ok tt, p)
  | Some pg =>
      if negb (dirty pg) then (Ok tt, p)
      else if n <=? 2 then (Err ERR_RESERVED, p)
      else
        let clean := upd_page n (λ pg, mkPage (data pg) false (snapshotted pg) (recently_used pg)) in
        match wal p with
        | Some w =>
            let lsn := current_lsn p + 1 in
            (Ok tt, clean (set_wal (Some (Wal.write_page n (data pg) w))
                             (set_page_lsn (<[n := lsn]> (page_lsn p)) (set_current_lsn lsn p))))
        | None =>
            match pfile p with
            | Some f =>
                let slot := if use_lz4 p then compress_for_disk (data pg) else data pg in
                (Ok tt, clean (set_pfile (Some (file_write (page_offset n) slot f)) p))
            | None => (Ok tt, clean p)
            end
        end
  end.
Definition superblock_page_dirty (p : Pager) : bool :=
  match pages p with a :: b :: _ => dirty a || dirty b | _ => false end.
Definition write_v2_data_pages : ST Pager unit := λ p,
  if superblock_page_dirty p then (Err ERR_RESERVED, p)
  else st_iter write_dirty_page (dirty_pages p) (set_dirty_pages [] p).
(** [sync_db_file] changes no content. *)
Definition flush_v2_data_pages : ST Pager unit := write_v2_data_pages.

Definition commit_wal : ST Pager unit := λ p,
  match wal p with
  | None => (Ok tt, p)
  | Some w => let '(r, w') := Wal.commit (total_pages (header p)) w in (r, set_wal (Some w') p)
  end.

Definition write_superblock_v2_memory (slot : SuperblockSlot) (sb : SuperblockV2) (ps : list Page) : res (list Page) :=
  match ps !! idx (slot_page_num slot) with
  | None => Err (CorruptDatabase ("missing superblock page for slot " +:+ match slot with SlotA => "A" | SlotB => "B" end))
  | Some pg =>
      d ← sb_serialize sb (data pg);
      Ok (alter (λ pg, mkPage d false (snapshotted pg) (recently_used pg)) (idx (slot_page_num slot)) ps)
  end.
Definition write_v2_superblock (slot : SuperblockSlot) (sb : SuperblockV2) : ST Pager unit := st_upd (λ p,
  match pfile p with
  | Some f => f' ← write_superblock_v2 slot sb f; Ok (set_pfile (Some f') p)
  | None => ps ← write_superblock_v2_memory slot sb (pages p); Ok (set_pages ps p)
  end).

(** The steps both commit paths share, up to the switch to the new superblock. *)
Definition publish (slot : SuperblockSlot) (sb : SuperblockV2) : ST Pager unit :=
  _ ← write_v2_data_pages;
  _ ← commit_wal;
  _ ← maybe_failpoint AfterDataPagesWrite;
  _ ← maybe_failpoint AfterDataPagesSync;
  _ ← write_v2_superblock slot sb;
  _ ← maybe_failpoint AfterSuperblockWrite;
  _ ← maybe_failpoint AfterSuperblockSync;
  st_fun (λ p, let c := cow_state p in (Ok tt, set_cow_state (mkCow sb slot (next_txid c) (active_tx c)) p)).

(** [if free_root == 0 && pending_free_root != 0 { rotate }] *)
Definition rotate_pools (p : Pager) : Pager :=
  let sb := sb_of p in
  if (free_root sb =? 0) && negb (pending_free_root sb =? 0)
  then set_superblock (with_free (pending_free_root sb) 0 sb) p else p.

(** The transaction's freed pages go in front of the pending pool. *)
Definition hand_over_freed : ST Pager unit := λ p,
  match active_tx (cow_state p) with
  | Some (mkCowTxn _ _ _ (Some root) (Some tail)) =>
      let old_pending := pending_free_root (sb_of p) in
      get_page_mut tail (put_next old_pending) (set_superblock (with_free (free_root (sb_of p)) root (sb_of p)) p)
  | _ => (Ok tt, p)
  end.

Definition clear_snapshotted (n : Z) (p : Pager) : Pager :=
  upd_page n (λ pg, mkPage (data pg) (dirty pg) false (recently_used pg)) p.
(** [self.txn_snapshot.take()] and the reset of the flags. *)
Definition drop_snapshot (p : Pager) : Pager :=
  match txn_snapshot p with
  | None => p
  | Some snap => set_txn_snapshot None (foldr clear_snapshotted p (map fst (map_to_list (original_pages snap))))
  end.

Definition commit_transaction_v2 : ST Pager unit := λ p,
  match active_tx (cow_state p) with
  | None => (Err (RuntimeError "transaction not active"), p)
  | Some tx =>
      if negb (base_generation tx =? generation (sb_of p))
      then (Err (RuntimeError ("stale v2 transaction state for txid " +:+ pretty (txid tx))), p)
      else
        let sb := with_page_count (total_pages (header p)) (with_generation (target_generation tx) (sb_of p)) in
        (_ ← publish (inactive (active_slot (cow_state p))) sb;
         _ ← hand_over_freed;
         st_fun (λ p, (Ok tt, drop_snapshot (set_active_tx None (rotate_pools p))))) p
  end.

(** The automatic checkpoint, whose error is ignored. *)
Definition auto_checkpoint (nanos : Z) : ST Pager unit := λ p,
  match wal p with
  | None => (Ok tt, p)
  | Some w =>
      let threshold := wal_auto_checkpoint (engine_config p) in
      if (0 <? threshold) && (threshold <=? zlen (Wal.committed_frames w)) then
        match pfile p with
        | Some f =>
            match Wal.checkpoint nanos w f with
            | Ok (_, f', w') => (Ok tt, set_page_lsn ∅ (set_wal (Some w') (set_pfile (Some f') p)))
            | Err _ => (Ok tt, set_page_lsn ∅ p)
            | Panic => (Panic, p)
            | Hang => (Hang, p)
            end
        | None => (Ok tt, set_page_lsn ∅ p)
        end
      else (Ok tt, p)
  end.
Definition flush_v2_autocommit (nanos : Z) : ST Pager unit := λ p,
  let sb := with_page_count (total_pages (header p))
              (with_generation (saturating_add_u64 (generation (sb_of p)) 1) (sb_of p)) in
  (_ ← publish (inactive (active_slot (cow_state p))) sb;
   st_fun (λ p,
     let p := rotate_pools p in
     let c := cow_state p in
     let p := set_cow_state (mkCow (active_superblock c) (active_slot c) (saturating_add_u64 (next_txid c) 1) (active_tx c)) p in
     auto_checkpoint nanos p)) p.
Definition flush (nanos : Z) : ST Pager unit := λ p,
  if in_transaction p then flush_v2_data_pages p else flush_v2_autocommit nanos p.

(** ** Transactions *)

Definition begin_transaction : ST Pager unit := λ p,
  if in_transaction p then (Err (RuntimeError "transaction already active"), p)
  else
    let c := cow_state p in
    let base := generation (active_superblock c) in
    (Ok tt,
     set_cow_state (mkCow (active_superblock c) (active_slot c) (saturating_add_u64 (next_txid c) 1)
         (Some (mkCowTxn (next_txid c) base (saturating_add_u64 base 1) None None)))
       (set_txn_snapshot (Some (mkTxnSnapshot (header p) (active_superblock c) (active_slot c) ∅ (total_pages (header p)))) p)).
Definition commit_transaction : ST Pager unit := λ p,
  if in_transaction p then commit_transaction_v2 p else (Ok tt, p).

(** Put the saved content of a page back; [self.pages[page_num - 1]] panics
    when there is no such page. *)
Fixpoint restore_pages (originals : list (Z * bytes)) (ps : list Page) : res (list Page) :=
  match originals with
  | [] => Ok ps
  | (n, d) :: rest =>
      match ps !! idx n with
      | None => Panic
      | Some _ => restore_pages rest (alter (λ pg, mkPage d false false (recently_used pg)) (idx n) ps)
      end
  end.
Definition truncate_pages (n : Z) (p : Pager) : Pager :=
  set_loaded (take (Z.to_nat n) (loaded p)) (set_pages (take (Z.to_nat n) (pages p)) p).

Definition rollback_transaction : ST Pager unit := λ p,
  let p := set_wal (Wal.rollback <$> wal p) (set_savepoint_stack [] p) in
  match txn_snapshot p with
  | None => (Ok tt, set_active_tx None p)
  | Some snap =>
      let p := set_txn_snapshot None p in
      let p := set_cow_state (mkCow (snap_superblock snap) (snap_slot snap) (next_txid (cow_state p)) None)
                 (set_header (snap_header snap) p) in
      match restore_pages (map_to_list (original_pages snap)) (pages p) with
      | Ok ps => (Ok tt, truncate_pages (snap_total_pages snap) (set_dirty_pages [] (set_pages ps p)))
      | Err e => (Err e, p)
      | Panic => (Panic, p)
      | Hang => (Hang, p)
      end
  end.

(** ** Savepoints *)

Definition named (name : string) (m : SavepointMarker) : bool := eq_ignore_ascii_case (sp_name m) name.
(** [.iter().rposition(...)] *)
Definition find_savepoint (name : string) (l : list SavepointMarker) : option nat :=
  snd <$> last (filter (λ mi, named name mi.1 = true) (zip l (seq 0 (length l)))).

Definition savepoint (name : string) : ST Pager unit :=
  _ ← st_fun (λ p, if in_transaction p then (Ok tt, p) else begin_transaction p);
  st_fun (λ p,
    let stack := filter (λ m, named name m = false) (savepoint_stack p) in
    let keys := match txn_snapshot p with Some s => dom (original_pages s) | None => ∅ end in
    let marker := mkSavepoint name (header p) (sb_of p) (active_slot (cow_state p)) (total_pages (header p)) keys in
    (Ok tt, set_savepoint_stack (stack ++ [marker]) p)).

Definition ERR_NO_SAVEPOINT (name : string) : KkdbError := RuntimeError ("savepoint '" +:+ name +:+ "' not found").
Definition release_savepoint (name : string) : ST Pager unit := λ p,
  match find_savepoint name (savepoint_stack p) with
  | None => (Err (ERR_NO_SAVEPOINT name), p)
  | Some pos => (Ok tt, set_savepoint_stack (take pos (savepoint_stack p)) p)
  end.

Definition rollback_to_savepoint (name : string) : ST Pager unit := λ p,
  match m ← (pos ← find_savepoint name (savepoint_stack p); (λ m, (pos, m)) <$> savepoint_stack p !! pos);
        Some m with
  | None => (Err (ERR_NO_SAVEPOINT name), p)
  | Some (pos, marker) =>
      let p := set_savepoint_stack (take (pos + 1) (savepoint_stack p)) p in
      let p := set_header (sp_header marker) p in
      let c := cow_state p in
      let p := set_cow_state (mkCow (sp_superblock marker) (sp_slot marker) (next_txid c) (active_tx c)) p in
      let after := match txn_snapshot p with
        | Some s => filter (λ nd, nd.1 ∉ watermark_keys marker) (map_to_list (original_pages s)) | None => [] end in
      match restore_pages after (pages p) with
      | Ok ps =>
          let p := set_pages ps p in
          let p := match txn_snapshot p with
            | Some s =>
                set_txn_snapshot (Some (mkTxnSnapshot (header p) (sb_of p) (active_slot (cow_state p))
                  (filter (λ nd, nd.1 ∈ watermark_keys marker) (original_pages s)) (sp_total_pages marker))) p
            | None => p end in
          let p := truncate_pages (sp_total_pages marker) p in
          (Ok tt, set_dirty_pages (filter (λ n, (dirty <$> pages p !! idx n) = Some true) (dirty_pages p)) p)
      | Err e => (Err e, p)
      | Panic => (Panic, p)
      | Hang => (Hang, p)
      end
  end.

(** ** Schema root, log, configuration *)

Definition schema_root_page (p : Pager) : Z := schema_root (sb_of p).
Definition set_schema_root_page (new_root : Z) : ST Pager unit := λ p,
  if (new_root <? 3) || (total_pages (header p) <? new_root) then (Err (PageOutOfRange new_root), p)
  else (Ok tt, set_superblock (with_schema_root new_root (sb_of p)) p).

(** [enable_wal]; [log] is the log file if there is one. *)
Definition enable_wal (log : option file) (nanos : Z) : ST Pager unit := st_upd (λ p,
  if is_memory p || bool_decide (is_Some (wal p)) then Ok p
  else w ← Wal.open_or_create log (db_uuid (sb_of p)) nanos; Ok (set_wal (Some w) p)).
Definition wal_checkpoint (nanos : Z) : ST Pager nat := λ p,
  match wal p, pfile p with
  | Some w, Some f =>
      match Wal.checkpoint nanos w f with
      | Ok (n, f', w') => (Ok n, set_page_lsn ∅ (set_wal (Some w') (set_pfile (Some f') p)))
      | Err e => (Err e, p)
      | Panic => (Panic, p)
      | Hang => (Hang, p)
      end
  | _, _ => (Ok 0%nat, p)
  end.
Definition set_max_buffer_pages_cfg (max : Z) (p : Pager) : Pager :=
  let c := engine_config p in
  set_engine_config (mkEngineConfig max (wal_auto_checkpoint c) (wal_enabled c) (cfg_use_lz4 c) (flush_method c))
    (set_max_buffer_pages max p).
Definition apply_engine_config (c : EngineConfig) (log : option file) (nanos : Z) : ST Pager unit := λ p,
  let p := set_use_lz4 (cfg_use_lz4 c) (set_max_buffer_pages (buffer_pool_pages c) p) in
  (_ ← (if wal_enabled c && negb (is_memory p) then enable_wal log nanos else mret tt);
   st_fun (λ p, (Ok tt, set_engine_config c p))) p.
End Pager.

#[export] Instance Pager_ops `{PageSize, Lz4} : PagerOps Pager := {
  PagerIface.get_page := get_page;
  PagerIface.get_page_mut := @get_page_mut _ _;
  PagerIface.allocate_page := allocate_page;
  PagerIface.free_page := free_page
}.
