(* ===== verification/PagerFlaws.v ===== *)
(** Runs of the pager that do not do what its documentation says, each on a
    concrete database with 512-byte pages. *)
From S2P Require Import Prelude PagerIface FileIO Superblock Wal Pager.

Definition demo_db_uuid : bytes := replicate 16 5.
Definition page_of `{PageSize} (x : Z) : bytes := replicate (Z.to_nat PAGE_SIZE) x.
(** Overwrite a whole page through [get_page_mut]. *)
Definition write_all `{PageSize, Lz4} (n x : Z) : ST Pager unit := get_page_mut n (λ _, (Ok tt, page_of x)).
(** What a fresh opening of the pager's file reads on page [n]. *)
Definition on_disk `{PageSize, Lz4} (n : Z) (p : Pager) : res bytes :=
  match pfile p with
  | Some f => q ← open_cow_v2 f; (get_page n q).1
  | None => Err (RuntimeError "no file")
  end.
(** Run [m] on a new database file. *)
Definition run_new `{PageSize, Lz4} {A} (m : ST Pager A) : res A * option Pager :=
  match create_cow_v2 demo_db_uuid with Ok p => let '(r, p') := m p in (r, Some p') | Err e => (Err e, None) | Panic => (Panic, None) | Hang => (Hang, None) end.

Section Flaws.
#[local] Instance ps : PageSize := page_size_512.
#[local] Instance lz : Lz4 := no_lz4.

(** A write is durable once the transaction commits. *)
Example commit_writes_page :
  (let '(r, p) := run_new (_ ← begin_transaction; _ ← write_all 3 7; commit_transaction) in
   (r, p ≫= λ p, Some (on_disk 3 p))) = (Ok tt, Some (Ok (page_of 7))).
Proof. vm_compute. reflexivity. Qed.
End Flaws.

(** Flushing inside a transaction (as dropping the connection does) writes the
    uncommitted page into the database file, and rolling back does not take it
    out again: the pager has the old page, the file the new one. *)
Theorem flush_in_transaction_reaches_disk :
  let _ := page_size_512 in let _ := no_lz4 in
  ∃ p old, run_new (_ ← begin_transaction; _ ← write_all 3 7; _ ← flush 0; rollback_transaction) = (Ok tt, Some p) ∧
    (get_page 3 p).1 = Ok old ∧ old ≠ page_of 7 ∧ on_disk 3 p = Ok (page_of 7).
Proof.
  intros Hps Hlz. do 2 eexists. split; [vm_compute; reflexivity|]. split; [vm_compute; reflexivity|].
  split; [vm_compute; discriminate|]. vm_compute. reflexivity.
Qed.

(** A commit overwrites data pages in place before it writes the superblock.
    When it stops in between, the old superblock is opened with the new page. *)
Theorem crash_before_superblock_exposes_page :
  let _ := page_size_512 in let _ := no_lz4 in
  ∃ p q f,
    run_new (_ ← begin_transaction; _ ← write_all 3 7;
             _ ← st_upd (λ p, Ok (set_failpoint (Some AfterDataPagesWrite) p)); commit_transaction)
      = (Err (RuntimeError "injected pager failpoint: AfterDataPagesWrite"), Some p) ∧
    pfile p = Some f ∧ open_cow_v2 f = Ok q ∧ generation (sb_of q) = 1 ∧ (get_page 3 q).1 = Ok (page_of 7).
Proof.
  intros Hps Hlz. do 3 eexists. split; [vm_compute; reflexivity|]. split; [vm_compute; reflexivity|].
  split; [vm_compute; reflexivity|]. split; vm_compute; reflexivity.
Qed.

(** Rolling a transaction back forgets which pages were dirty before it: a
    page written earlier outside a transaction stays in memory, flushing
    succeeds and never writes it, and neither does any later write to it. *)
Theorem rollback_loses_earlier_write :
  let _ := page_size_512 in let _ := no_lz4 in
  ∃ p old,
    run_new (_ ← write_all 3 7; _ ← begin_transaction; _ ← rollback_transaction; _ ← flush 0;
             _ ← write_all 3 8; flush 0) = (Ok tt, Some p) ∧
    (get_page 3 p).1 = Ok (page_of 8) ∧ on_disk 3 p = Ok old ∧ old ≠ page_of 7 ∧ old ≠ page_of 8.
Proof.
  intros Hps Hlz. do 2 eexists. split; [vm_compute; reflexivity|]. split; [vm_compute; reflexivity|].
  split; [vm_compute; reflexivity|]. split; vm_compute; discriminate.
Qed.

(** Rolling back to a savepoint leaves a page as it is when the page was
    already written before the savepoint. *)
Theorem savepoint_rollback_keeps_change :
  let _ := page_size_512 in let _ := no_lz4 in
  ∃ p, run_new (_ ← begin_transaction; _ ← write_all 3 1; _ ← savepoint "s"; _ ← write_all 3 2;
                rollback_to_savepoint "s") = (Ok tt, Some p) ∧
    (get_page 3 p).1 = Ok (page_of 2).
Proof. intros Hps Hlz. eexists. split; vm_compute; reflexivity. Qed.

(** A commit leaves the savepoints of the transaction behind: rolling back to
    one afterwards succeeds outside any transaction and removes a committed
    page. *)
Theorem savepoint_survives_commit :
  let _ := page_size_512 in let _ := no_lz4 in
  ∃ p, run_new (_ ← begin_transaction; _ ← savepoint "s"; n ← allocate_page; _ ← write_all n 6;
                _ ← commit_transaction; rollback_to_savepoint "s") = (Ok tt, Some p) ∧
    in_transaction p = false ∧ (get_page 4 p).1 = Err (PageOutOfRange 4) ∧ on_disk 4 p = Ok (page_of 6).
Proof. intros Hps Hlz. eexists. split; [vm_compute; reflexivity|]. split; [vm_compute; reflexivity|]. split; vm_compute; reflexivity. Qed.

(** [get_page_mut] does not ask the log: a page that was committed to the log
    and evicted is modified from its stale image in the database file. *)
Theorem get_page_mut_ignores_wal :
  let _ := page_size_512 in let _ := no_lz4 in
  ∃ p p' old d,
    run_new (_ ← enable_wal None 99; _ ← st_upd (λ p, Ok (set_max_buffer_pages_cfg 1 p));
             _ ← write_all 3 7; _ ← flush 0; _ ← get_page 1; get_page 2) = (Ok d, Some p) ∧
    (get_page 3 p).1 = Ok (page_of 7) ∧
    get_page_mut 3 (λ d, (Ok d, d)) p = (Ok old, p') ∧ old ≠ page_of 7.
Proof.
  intros Hps Hlz. do 4 eexists. split; [vm_compute; reflexivity|]. split; [vm_compute; reflexivity|].
  split; [vm_compute; reflexivity|]. vm_compute. discriminate.
Qed.

(** Rolling back to a savepoint replaces what the transaction would restore by
    the state at the savepoint: rolling the transaction back afterwards keeps
    the page that was allocated in it and the schema root it set. *)
Theorem rollback_after_savepoint_keeps_changes :
  let _ := page_size_512 in let _ := no_lz4 in
  ∃ p, run_new (_ ← begin_transaction; _ ← allocate_page; _ ← set_schema_root_page 4; _ ← savepoint "s";
                _ ← rollback_to_savepoint "s"; rollback_transaction) = (Ok tt, Some p) ∧
    in_transaction p = false ∧ total_pages (header p) = 4 ∧ schema_root_page p = 4.
Proof. intros Hps Hlz. eexists. split; [vm_compute; reflexivity|]. split; [vm_compute; reflexivity|]. split; vm_compute; reflexivity. Qed.
