(* ===== verification/PagerSlots.v ===== *)
(** Page slots of an LZ4 database: what a page is after it has been written and
    read back, whatever the codec compresses to. *)
From S2P Require Import Prelude PagerIface FileIO Superblock Wal Pager PagerFlaws.

Section Slots.
Context `{PageSize} `{Lz4}.

(** Documented behaviour of the codec: decompressing what it compressed, with
    the length in front, gives the data back. *)
Definition codec_ok : Prop :=
  ∀ d c, compress_into d = Some c → decompress_size_prepended (le_bytes 4 (zlen d) ++ c) = inl d.

(** Whether a page is stored compressed. *)
Definition fits_compressed (d : bytes) : Prop := ∃ c, compress_into d = Some c ∧ 4 + zlen c < PAGE_SIZE - 2.

Lemma raw_slot_read d : page_ok d → zlen (raw_slot d) = PAGE_SIZE ∧
  decompress_from_disk (raw_slot d) = Ok (take (Z.to_nat (PAGE_SIZE - 2)) d ++ [0; 0]).
Proof.
  intros [Hl _]. pose proof PAGE_SIZE_bounds. unfold raw_slot. set (t := take _ d).
  assert (zlen t = PAGE_SIZE - 2) as Ht by (unfold t, zlen in *; rewrite length_take; lia). split.
  { rewrite zlen_app, zlen_le_bytes, Ht. lia. }
  assert (zlen (le_bytes 2 LZ4_RAW ++ t) = PAGE_SIZE) as Hs by (rewrite zlen_app, zlen_le_bytes, Ht; lia).
  unfold decompress_from_disk, read_u16, slice_from. rewrite !slice_Ok, Hs by lia. cbn [mbind res_bind].
  change (le_val <$> Ok (sub (le_bytes 2 LZ4_RAW ++ t) 0 (0 + 2 - 0))) with (Ok LZ4_RAW). cbn [mbind res_bind].
  rewrite Z.eqb_refl. do 2 f_equal. unfold sub. rewrite drop_app_length' by done. apply take_ge. unfold zlen in Ht. lia.
Qed.
Lemma compressed_slot_read d c :
  codec_ok → page_ok d → compress_into d = Some c → 4 + zlen c < PAGE_SIZE - 2 →
  zlen (compress_for_disk d) = PAGE_SIZE ∧ decompress_from_disk (compress_for_disk d) = Ok d.
Proof.
  intros Hc [Hl _] Hcomp Hfit. pose proof PAGE_SIZE_bounds. pose proof (zlen_nonneg c). unfold compress_for_disk. rewrite Hcomp.
  destruct (Z.ltb_spec (4 + zlen c) (PAGE_SIZE - 2)); [|lia]. cbv zeta. set (pad := replicate _ 0). set (body := le_bytes 4 PAGE_SIZE ++ c).
  assert (zlen body = 4 + zlen c) as Hb by (unfold body; by rewrite zlen_app, zlen_le_bytes).
  assert (zlen pad = PAGE_SIZE - 2 - (4 + zlen c)) as Hp by (unfold pad, zlen in *; rewrite length_replicate; lia).
  assert (as_u16 (4 + zlen c) = 4 + zlen c) as Hu by (apply as_u16_id; int_lia).
  assert (zlen (le_bytes 2 (as_u16 (4 + zlen c)) ++ body ++ pad) = PAGE_SIZE) as Hslot
    by (rewrite !zlen_app, zlen_le_bytes, Hb, Hp; lia). split; [done|].
  unfold decompress_from_disk, read_u16. rewrite slice_Ok by lia. cbn [fmap res_fmap mbind res_bind].
  replace (sub (le_bytes 2 (as_u16 (4 + zlen c)) ++ body ++ pad) 0 (0 + 2 - 0)) with (le_bytes 2 (as_u16 (4 + zlen c))) by done.
  rewrite Hu, le_val_id by (change (8 * Z.of_nat 2) with 16; lia). unfold LZ4_RAW. destruct (Z.eqb_spec (4 + zlen c) 0xFFFF); [lia|].
  rewrite Hu in Hslot. rewrite slice_Ok by lia. cbn [mbind res_bind].
  replace (sub _ 2 _) with body; [unfold body; rewrite <- Hl, (Hc d c Hcomp), Z.eqb_refl; done|].
  rewrite Z.min_l by lia. unfold sub. rewrite drop_app_length' by (rewrite length_le_bytes; done).
  rewrite take_app_length' by (unfold zlen in *; lia). done.
Qed.
End Slots.

(** A page's slot is one page long, and reading it back gives the page when it
    was stored compressed; a page that does not compress below the page size
    is stored raw without its last two bytes, which read back as zeros.  The
    length written for a compressed page is never taken for the raw marker. *)
Theorem lz4_slot_read_back `{PageSize} `{Lz4} d :
  codec_ok → page_ok d →
  zlen (compress_for_disk d) = PAGE_SIZE ∧
  ((fits_compressed d ∧ decompress_from_disk (compress_for_disk d) = Ok d) ∨
   ((¬ fits_compressed d) ∧ decompress_from_disk (compress_for_disk d) = Ok (take (Z.to_nat (PAGE_SIZE - 2)) d ++ [0; 0]))).
Proof.
  intros Hc Hd. destruct (compress_into d) as [c|] eqn:E.
  - destruct (Z.ltb_spec (4 + zlen c) (PAGE_SIZE - 2)) as [Hlt|Hge].
    + destruct (compressed_slot_read d c Hc Hd E Hlt). split; [done|]. left. split; [by exists c|done].
    + assert (compress_for_disk d = raw_slot d) as ->.
      { unfold compress_for_disk. rewrite E. by destruct (Z.ltb_spec (4 + zlen c) (PAGE_SIZE - 2)); [lia|]. }
      destruct (raw_slot_read d Hd). split; [done|]. right. split; [|done]. intros (c' & Hc' & ?). rewrite E in Hc'. injection Hc' as <-. lia.
  - assert (compress_for_disk d = raw_slot d) as -> by (unfold compress_for_disk; by rewrite E).
    destruct (raw_slot_read d Hd). split; [done|]. right. split; [|done]. intros (c' & Hc' & ?). by rewrite E in Hc'.
Qed.

Lemma lz4_slot_read_back_witness :
  let _ := page_size_512 in
  let _ := {| compress_into := λ d : bytes, if bool_decide (d = replicate 512 7) then Some [7] else None;
              decompress_size_prepended := λ s, inl (replicate 512 7) |} in
  codec_ok ∧ decompress_from_disk (compress_for_disk (replicate 512 7)) = Ok (replicate 512 7) ∧
  decompress_from_disk (compress_for_disk (replicate 512 8)) = Ok (replicate 510 8 ++ [0; 0]).
Proof.
  intros Hps Hlz. assert (codec_ok) as Hc.
  { intros d c. unfold compress_into, decompress_size_prepended. simpl. case_bool_decide as Hd; [|discriminate]. by rewrite Hd. }
  split; [exact Hc|]. split.
  - destruct (lz4_slot_read_back (replicate 512 7) Hc) as [_ [[_ Hr]|[Hn _]]]; [|exact Hr|].
    + split; [reflexivity|]. by apply Forall_replicate.
    + destruct Hn. exists [7]. split; [vm_compute; reflexivity|vm_compute; reflexivity].
  - destruct (lz4_slot_read_back (replicate 512 8) Hc) as [_ [[(c & Hf & _) _]|[_ Hr]]]; [| |exact Hr].
    + split; [reflexivity|]. by apply Forall_replicate.
    + vm_compute in Hf. discriminate Hf.
Defined.

(** In a database with LZ4 enabled a page that does not compress comes back
    changed: what was written, committed and reported as a success loses its
    last two bytes. *)
Theorem lz4_raw_page_changes :
  let _ := page_size_512 in let _ := no_lz4 in
  ∃ p, run_new (_ ← get_page 3; _ ← st_upd (λ p, Ok (enable_lz4 p)); _ ← begin_transaction; _ ← write_all 3 7;
                commit_transaction) = (Ok tt, Some p) ∧
    (get_page 3 p).1 = Ok (page_of 7) ∧ on_disk 3 p = Ok (replicate 510 7 ++ [0; 0]).
Proof. intros Hps Hlz. eexists. split; [vm_compute; reflexivity|]. split; vm_compute; reflexivity. Qed.

(** Switching compression on through the engine configuration does not record
    it in the superblock: after reopening, the slots written meanwhile are
    taken for page contents. *)
Theorem configured_lz4_not_recorded :
  let _ := page_size_512 in let _ := no_lz4 in
  ∃ p d, run_new (_ ← get_page 3; _ ← apply_engine_config (mkEngineConfig 256 1000 false true Fsync) None 0;
                  _ ← write_all 3 7; flush 0) = (Ok tt, Some p) ∧
    use_lz4 p = true ∧ flags (sb_of p) = 0 ∧ (get_page 3 p).1 = Ok (page_of 7) ∧ on_disk 3 p = Ok d ∧ d ≠ page_of 7.
Proof.
  intros Hps Hlz. do 2 eexists. split; [vm_compute; reflexivity|]. split; [vm_compute; reflexivity|].
  split; [vm_compute; reflexivity|]. split; [vm_compute; reflexivity|]. split; [vm_compute; reflexivity|]. vm_compute. discriminate.
Qed.
