(* ===== verification/PagerMemory.v ===== *)
(** The pager without a file: it keeps its promises to the B-tree
    ([PagerIface.PagerLaws]) inside and outside transactions, with the free
    pools as linked lists through the free pages; commits keep the pages;
    rolling back restores the state at the beginning of the transaction. *)
From S2P Require Import Prelude PagerIface FileIO Superblock Wal Pager.

(** ** Lists under [alter] *)

Lemma map_alter_same {A B} (g : A → B) f i (l : list A) :
  (∀ x, g (f x) = g x) → map g (alter f i l) = map g l.
Proof. intros Hf. revert i. induction l as [|x l IH]; intros [|i]; simpl; try done; [by rewrite Hf|f_equal; apply IH]. Qed.
Lemma map_alter_to {A B} (g : A → B) f i (l : list A) b :
  (∀ x, g (f x) = b) → map g (alter f i l) = <[i := b]> (map g l).
Proof. intros Hf. revert i. induction l as [|x l IH]; intros [|i]; simpl; try done; [by rewrite Hf|f_equal; apply IH]. Qed.
Lemma list_alter_true i (l : list bool) : Forall (eq true) l → alter (λ _, true) i l = l.
Proof. intros Hl. revert i. induction Hl as [|b l <- _ IH]; intros [|i]; simpl; try done. f_equal. apply IH. Qed.

(** ** What clients see of a pager *)

Definition pdata (p : Pager) : list bytes := map data (pages p).
Definition next_of (d : bytes) : Z := le_val (sub d 0 4).

(** Everything but the buffer's bookkeeping. *)
Record View := mkView {
  v_header : DbHeader; v_cow : CowPagerState; v_file : option file; v_wal : option Wal;
  v_loaded : list bool; v_data : list bytes; v_sb_dirty : bool
}.
Definition view (p : Pager) : View :=
  mkView (header p) (cow_state p) (pfile p) (wal p) (loaded p) (pdata p) (superblock_page_dirty p).
Definition v_write (n : Z) (d : bytes) (v : View) : View :=
  mkView (v_header v) (v_cow v) (v_file v) (v_wal v) (v_loaded v) (<[idx n := d]> (v_data v)) (v_sb_dirty v).

(** Every page is in memory and there is no file behind it. *)
Record resident (p : Pager) : Prop := {
  res_file : pfile p = None;
  res_wal : wal p = None;
  res_pages : length (pages p) = Z.to_nat (total_pages (header p));
  res_len : length (loaded p) = Z.to_nat (total_pages (header p));
  res_loaded : Forall (eq true) (loaded p)
}.

Section Memory.
Context `{PageSize} `{Lz4}.

Lemma in_range_true n p : 1 ≤ n ≤ total_pages (header p) → in_range n p = true.
Proof. intros. unfold in_range. destruct (Z.eqb_spec n 0), (Z.leb_spec n (total_pages (header p))); done || lia. Qed.
Lemma in_range_inv n p : in_range n p = true → 0 ≤ n → 1 ≤ n ≤ total_pages (header p).
Proof. unfold in_range. destruct (Z.eqb_spec n 0), (Z.leb_spec n (total_pages (header p))); done || lia. Qed.
Lemma resident_lookup p n :
  resident p → 1 ≤ n ≤ total_pages (header p) →
  loaded p !! idx n = Some true ∧ ∃ pg, pages p !! idx n = Some pg.
Proof.
  intros [_ _ Hp Hl Ht] Hn. unfold idx. split.
  - destruct (lookup_lt_is_Some_2 (loaded p) (Z.to_nat (n - 1))) as [b Hb]; [lia|].
    rewrite Hb. rewrite Forall_lookup in Ht. by rewrite (Ht _ _ Hb).
  - destruct (lookup_lt_is_Some_2 (pages p) (Z.to_nat (n - 1))) as [pg Hpg]; [lia|]. by exists pg.
Qed.

Lemma ensure_loaded_resident b p n :
  resident p → 1 ≤ n ≤ total_pages (header p) → ensure_loaded b n p = (Ok tt, p).
Proof. intros Hr Hn. destruct (resident_lookup p n Hr Hn) as [Hl _]. unfold ensure_loaded. by rewrite Hl. Qed.

Lemma sb_dirty_pages p q : map dirty (pages p) = map dirty (pages q) → superblock_page_dirty p = superblock_page_dirty q.
Proof.
  unfold superblock_page_dirty. destruct (pages p) as [|a [|b l]], (pages q) as [|c [|d k]]; simpl; congruence.
Qed.
Lemma touch_view n p : view (touch n p) = view p.
Proof.
  unfold touch. destruct (0 <? max_buffer_pages p); [|done]. unfold view, pdata. simpl.
  f_equal; [by apply map_alter_same|]. apply sb_dirty_pages. simpl. by apply map_alter_same.
Qed.
Lemma view_resident p q : view p = view q → resident p → resident q.
Proof.
  unfold view. intros [= Hh _ Hf Hw Hl Hd _] [H1 H2 H3 H4 H5]. split; try congruence.
  rewrite <- Hh, <- H3. apply (f_equal length) in Hd. unfold pdata in Hd. by rewrite !length_map in Hd.
Qed.

Lemma check_range_ok n p : 1 ≤ n ≤ total_pages (header p) → check_range n p = (Ok tt, p).
Proof. intros. unfold check_range. by rewrite in_range_true. Qed.

Lemma get_page_resident p n :
  resident p → 1 ≤ n ≤ total_pages (header p) →
  ∃ d p', get_page n p = (Ok d, p') ∧ pdata p !! idx n = Some d ∧ view p' = view p.
Proof.
  intros Hr Hn. unfold get_page. rewrite !ST_bind_unfold, check_range_ok, ST_bind_unfold, ensure_loaded_resident by done.
  unfold st_fun. pose proof (touch_view n p) as Hv. pose proof (view_resident _ _ (eq_sym Hv) Hr) as Hr'.
  destruct (resident_lookup (touch n p) n Hr') as [_ (pg & Hpg)]; [by injection Hv as -> _ _ _ _ _ _|].
  rewrite Hpg. eexists _, _. split; [reflexivity|]. split; [|done].
  injection Hv as _ _ _ _ _ Hd _. rewrite <- Hd. unfold pdata. by rewrite list_lookup_fmap, Hpg.
Qed.

(** [get_page_mut] of a resident page, step by step. *)
Definition set_data (n : Z) (d : bytes) : Pager → Pager :=
  upd_page n (λ pg, mkPage d (dirty pg) (snapshotted pg) (recently_used pg)).
Lemma get_page_mut_run {A} (f : ST bytes A) p n :
  resident p → 1 ≤ n ≤ total_pages (header p) →
  ∃ pg, pages (touch n p) !! idx n = Some pg ∧ pdata p !! idx n = Some (data pg) ∧
    get_page_mut n f p =
      ((f (data pg)).1, set_data n (f (data pg)).2 (mark_dirty n pg (snapshot_page n pg (touch n p)))).
Proof.
  intros Hr Hn. unfold get_page_mut. rewrite !ST_bind_unfold, check_range_ok, ST_bind_unfold, ensure_loaded_resident by done.
  unfold st_fun. pose proof (touch_view n p) as Hv. pose proof (view_resident _ _ (eq_sym Hv) Hr) as Hr'.
  destruct (resident_lookup (touch n p) n Hr') as [_ (pg & Hpg)]; [by injection Hv as -> _ _ _ _ _ _|].
  rewrite Hpg. exists pg. split; [done|]. split.
  - injection Hv as _ _ _ _ _ Hd _. rewrite <- Hd. unfold pdata. by rewrite list_lookup_fmap, Hpg.
  - by destruct (f (data pg)) as [r d].
Qed.

Lemma snapshot_page_view n pg p : view (snapshot_page n pg p) = view p.
Proof.
  unfold snapshot_page. destruct (txn_snapshot p) as [snap|]; [|done]. destruct (snapshotted pg); [done|].
  unfold view, pdata. simpl. f_equal; [by apply map_alter_same|]. apply sb_dirty_pages. simpl. by apply map_alter_same.
Qed.
Lemma superblock_page_dirty_alter f n p :
  3 ≤ n → superblock_page_dirty (upd_page n f p) = superblock_page_dirty p.
Proof.
  intros Hn. unfold superblock_page_dirty, upd_page, idx. simpl.
  destruct (Z.to_nat (n - 1)) as [|[|k]] eqn:E; [lia|lia|]. by destruct (pages p) as [|a [|b l]].
Qed.
Lemma mark_dirty_view n pg p : 3 ≤ n → view (mark_dirty n pg p) = view p.
Proof.
  intros Hn. unfold mark_dirty, view, pdata. destruct (dirty pg); simpl; f_equal;
    try (by apply map_alter_same); by (etrans; [by apply superblock_page_dirty_alter|]).
Qed.
Lemma set_data_view n d p : 3 ≤ n → view (set_data n d p) = v_write n d (view p).
Proof.
  intros Hn. unfold set_data, view, v_write, pdata. simpl. f_equal; [by apply map_alter_to|].
  by apply superblock_page_dirty_alter.
Qed.

Lemma get_page_mut_resident {A} (f : ST bytes A) p n :
  resident p → 3 ≤ n ≤ total_pages (header p) →
  ∃ d, pdata p !! idx n = Some d ∧
    ∃ p', get_page_mut n f p = ((f d).1, p') ∧ view p' = v_write n (f d).2 (view p).
Proof.
  intros Hr Hn. destruct (get_page_mut_run f p n Hr ltac:(lia)) as (pg & _ & Hd & Hrun).
  exists (data pg). split; [done|]. eexists. split; [exact Hrun|].
  by rewrite set_data_view, mark_dirty_view, snapshot_page_view, touch_view by lia.
Qed.
Lemma v_write_resident n d p p' :
  resident p → view p' = v_write n d (view p) → resident p'.
Proof.
  unfold view, v_write. simpl. intros [H1 H2 H3 H4 H5] [= Hh _ Hf Hw Hl Hd _]. split; try congruence.
  apply (f_equal length) in Hd. rewrite length_insert in Hd. unfold pdata in Hd. rewrite !length_map in Hd. congruence.
Qed.

(** ** The free pools *)

(** The pages of [l], from [r] on, each holding the number of the next. *)
Fixpoint chain (pd : list bytes) (r : Z) (l : list Z) : Prop :=
  match l with
  | [] => r = 0
  | n :: l => r = n ∧ ∃ d, pd !! idx n = Some d ∧ chain pd (next_of d) l
  end.
Definition tx_chain (pd : list bytes) (tx : option CowTxnState) (l : list Z) : Prop :=
  match tx, l with
  | None, l => l = []
  | Some tx, [] => freed_root tx = None ∧ freed_tail tx = None
  | Some tx, n :: l' => freed_root tx = Some n ∧ freed_tail tx = last l ∧ chain pd n l
  end.

(** The pager's state: the client's pages [m], the free pool, the pending
    pool, and the pages the transaction has freed. *)
Record mem_ok (p : Pager) (m : gmap Z bytes) (fl pl tl : list Z) : Prop := {
  mok_resident : resident p;
  mok_total : 3 ≤ total_pages (header p) ≤ MAX_PAGES;
  mok_pages : Forall page_ok (pdata p);
  mok_sb : superblock_page_dirty p = false;
  mok_free : chain (pdata p) (free_root (sb_of p)) fl;
  mok_pending : chain (pdata p) (pending_free_root (sb_of p)) pl;
  mok_tx : tx_chain (pdata p) (active_tx (cow_state p)) tl;
  mok_nodup : NoDup (fl ++ pl ++ tl);
  mok_range : ∀ n, n ∈ fl ++ pl ++ tl → 3 ≤ n ≤ total_pages (header p);
  mok_client : ∀ n d, m !! n = Some d →
    3 ≤ n ≤ total_pages (header p) ∧ (n ∉ fl ++ pl ++ tl) ∧ pdata p !! idx n = Some d
}.

(** Chains do not look at other pages. *)
Lemma pool_chain_frame pd pd' r l :
  (∀ n, n ∈ l → pd' !! idx n = pd !! idx n) → chain pd r l → chain pd' r l.
Proof.
  revert r. induction l as [|n l IH]; intros r Hf; simpl; [done|]. intros [-> (d & Hd & Hc)].
  split; [done|]. exists d. rewrite Hf by (by left). split; [done|]. apply IH; [|done]. intros k Hk. apply Hf. by right.
Qed.
Lemma tx_chain_frame pd pd' tx l :
  (∀ n, n ∈ l → pd' !! idx n = pd !! idx n) → tx_chain pd tx l → tx_chain pd' tx l.
Proof.
  intros Hf. destruct tx as [tx|], l as [|n l]; simpl; try done. intros (? & ? & Hc). split; [done|]. split; [done|].
  by apply (pool_chain_frame pd _ n (n :: l) Hf).
Qed.
Lemma idx_ne n k : 1 ≤ n → 1 ≤ k → n ≠ k → idx n ≠ idx k.
Proof. unfold idx. lia. Qed.

(** Appending a page behind the last one of a chain. *)
Lemma chain_snoc pd r l t d' n dn :
  chain pd r l → last l = Some t → NoDup l → (∀ k, k ∈ l → 1 ≤ k) → (idx t < length pd)%nat →
  next_of d' = n → 1 ≤ n → n ∉ l → pd !! idx n = Some dn → next_of dn = 0 →
  chain (<[idx t := d']> pd) r (l ++ [n]).
Proof.
  intros Hc Hlast Hnd Hpos Hlt Hd' Hn Hnl Hdn Hz. revert r Hc. induction l as [|x l IH]; intros r Hc; [done|].
  destruct Hc as [-> (d & Hd & Hc)]. split; [done|]. apply NoDup_cons in Hnd as [Hx Hnd].
  apply not_elem_of_cons in Hnl as [Hnx Hnl]. destruct l as [|y l].
  - injection Hlast as ->. exists d'. rewrite list_lookup_insert_eq by done. split; [done|]. simpl. split; [done|].
    exists dn. rewrite list_lookup_insert_ne by (apply idx_ne; [apply Hpos; by left|done|congruence]). done.
  - rewrite last_cons_cons in Hlast. exists d. rewrite list_lookup_insert_ne.
    + split; [done|]. apply IH; try done. intros k Hk. apply Hpos. by right.
    + apply idx_ne; [apply Hpos; right; by apply last_Some_elem_of|apply Hpos; by left|].
      intros ->. by apply Hx, last_Some_elem_of.
Qed.

Lemma mem_ok_view p q m fl pl tl : view q = view p → mem_ok p m fl pl tl → mem_ok q m fl pl tl.
Proof.
  intros Hv [H1 H2 H3 H4 H5 H6 H7 H8 H9 H10]. pose proof (view_resident _ _ (eq_sym Hv) H1) as Hr.
  unfold view in Hv. injection Hv as Hh Hc _ _ _ Hd Hs. split; unfold sb_of; rewrite ?Hh, ?Hc, ?Hd, ?Hs; done.
Qed.

(** Writing a page that is on none of the lists. *)
Lemma mem_ok_write p p' m fl pl tl n d' :
  mem_ok p m fl pl tl → view p' = v_write n d' (view p) → 3 ≤ n ≤ total_pages (header p) →
  n ∉ fl ++ pl ++ tl → page_ok d' → mem_ok p' (<[n := d']> m) fl pl tl.
Proof.
  intros [H1 H2 H3 H4 H5 H6 H7 H8 H9 H10] Hv Hn Hnl Hd'. pose proof (v_write_resident _ _ _ _ H1 Hv) as Hr.
  unfold view, v_write in Hv. injection Hv as Hh Hc _ _ _ Hd Hs.
  assert (∀ k, k ∈ fl ++ pl ++ tl → pdata p' !! idx k = pdata p !! idx k) as Hframe.
  { intros k Hk. rewrite Hd. apply list_lookup_insert_ne, idx_ne; [lia|apply H9 in Hk; lia|congruence]. }
  split; unfold sb_of; rewrite ?Hh, ?Hc, ?Hs; try done.
  - rewrite Hd. by apply Forall_insert.
  - apply (pool_chain_frame (pdata p)); [|done]. set_solver.
  - apply (pool_chain_frame (pdata p)); [|done]. set_solver.
  - apply (tx_chain_frame (pdata p)); [|done]. set_solver.
  - intros k d. rewrite lookup_insert_Some. intros [[<- <-]|[Hne Hk]].
    + split; [done|]. split; [done|]. rewrite Hd. apply list_lookup_insert_eq.
      pose proof (res_pages p H1). unfold pdata. rewrite length_map. unfold idx. lia.
    + destruct (H10 k d Hk) as (? & ? & Hdk). split; [done|]. split; [done|]. rewrite Hd, list_lookup_insert_ne; [done|].
      apply idx_ne; lia || congruence.
Qed.

Lemma mem_get_page p m fl pl tl n :
  mem_ok p m fl pl tl → 3 ≤ n ≤ total_pages (header p) →
  ∃ d p', get_page n p = (Ok d, p') ∧ pdata p !! idx n = Some d ∧ mem_ok p' m fl pl tl ∧ view p' = view p.
Proof.
  intros Hm Hn. destruct (get_page_resident p n (mok_resident _ _ _ _ _ Hm)) as (d & p' & Hrun & Hd & Hv); [lia|].
  exists d, p'. split; [done|]. split; [done|]. split; [by eapply mem_ok_view|done].
Qed.
Lemma mem_get_page_mut {A} (f : ST bytes A) p m fl pl tl n d r d' :
  mem_ok p m fl pl tl → 3 ≤ n ≤ total_pages (header p) → n ∉ fl ++ pl ++ tl →
  pdata p !! idx n = Some d → f d = (r, d') → page_ok d' →
  ∃ p', get_page_mut n f p = (r, p') ∧ mem_ok p' (<[n := d']> m) fl pl tl ∧ view p' = v_write n d' (view p).
Proof.
  intros Hm Hn Hnl Hd Hf Hd'. destruct (get_page_mut_resident f p n (mok_resident _ _ _ _ _ Hm) Hn) as (d0 & Hd0 & p' & Hrun & Hv).
  rewrite Hd in Hd0. injection Hd0 as <-. rewrite Hf in Hrun, Hv. exists p'. split; [done|].
  split; [by eapply mem_ok_write|done].
Qed.

(** ** Allocation *)

Lemma put_next_ok d x :
  page_ok d → is_u32 x → ∃ d', put_next x d = (Ok tt, d') ∧ page_ok d' ∧ next_of d' = x.
Proof.
  intros [Hl Hb] Hx. pose proof PAGE_SIZE_bounds. unfold put_next, st_upd.
  rewrite copy_from_slice_Ok by (rewrite ?zlen_le_bytes; lia). eexists. split; [reflexivity|]. split.
  - split; [rewrite length_splice; rewrite ?zlen_le_bytes; lia|]. apply splice_ok; [done|apply le_bytes_ok].
  - unfold next_of. pose proof (sub_splice_eq d 0 (le_bytes 4 x)) as Hs. rewrite zlen_le_bytes in Hs.
    change (Z.of_nat 4) with 4 in Hs. rewrite Hs by lia. by apply le_val_id.
Qed.
Lemma fill_zero_ok d : page_ok d → fill_zero d = (Ok tt, zero_page).
Proof. intros [Hl _]. unfold fill_zero, zero_page. rewrite <- Hl. unfold zlen. by rewrite Nat2Z.id. Qed.
Lemma next_of_zero : next_of zero_page = 0.
Proof.
  unfold next_of, sub, zero_page. rewrite drop_0. pose proof PAGE_SIZE_bounds.
  rewrite take_replicate. by replace (Z.to_nat 4 `min` Z.to_nat PAGE_SIZE)%nat with 4%nat by lia.
Qed.
Lemma read_next d : page_ok d → read_u32 d 0 = Ok (next_of d).
Proof. intros [Hl _]. pose proof PAGE_SIZE_bounds. unfold read_u32. by rewrite slice_Ok by lia. Qed.

Lemma set_superblock_view sb p q :
  view q = view p → view (set_superblock sb q) = view (set_superblock sb p).
Proof. unfold view. intros [= Hh Hc Hf Hw Hl Hd Hs]. unfold set_superblock. simpl. rewrite Hc. by f_equal. Qed.

(** Taking the first page off the free pool. *)
Lemma mem_ok_pop p m n fl pl tl d :
  mem_ok p m (n :: fl) pl tl → pdata p !! idx n = Some d →
  mem_ok (set_superblock (with_free (next_of d) (pending_free_root (sb_of p)) (sb_of p)) p) m fl pl tl.
Proof.
  intros [H1 H2 H3 H4 H5 H6 H7 H8 H9 H10] Hd. destruct H5 as [_ (d0 & Hd0 & Hc)]. rewrite Hd in Hd0. injection Hd0 as <-.
  cbn [app] in *. apply NoDup_cons in H8 as [Hn H8]. split; try done.
  - by destruct H1.
  - intros k Hk. apply H9. by right.
  - intros k dk Hk. destruct (H10 k dk Hk) as (? & Hnk & ?). split; [done|]. split; [|done]. intros ?. apply Hnk. by right.
Qed.
(** The pending pool becomes the free pool. *)
Lemma mem_ok_rotate p m pl tl :
  mem_ok p m [] pl tl →
  mem_ok (set_superblock (with_free (pending_free_root (sb_of p)) 0 (sb_of p)) p) m pl [] tl.
Proof. intros [H1 H2 H3 H4 H5 H6 H7 H8 H9 H10]. split; try done. by destruct H1. Qed.

Lemma chain_root_pos pd r l : chain pd r l → (∀ n, n ∈ l → 3 ≤ n) → (r =? 0) = true ↔ l = [].
Proof.
  destruct l as [|n l]; simpl; [intros -> _; done|]. intros [-> _] Hl. specialize (Hl n ltac:(by left)).
  split; [|done]. intros ?%Z.eqb_eq. lia.
Qed.

(** The part of [allocate_page] that takes the head of the free pool. *)
Definition pop_page (n : Z) : ST Pager Z :=
  current_free ← get_page n; next_free ← st_lift (read_u32 current_free 0);
  _ ← st_fun (λ p, (Ok tt, set_superblock (with_free next_free (pending_free_root (sb_of p)) (sb_of p)) p));
  _ ← get_page_mut n fill_zero; mret n.
Lemma mem_pop_page p m n fl pl tl :
  mem_ok p m (n :: fl) pl tl →
  ∃ p', pop_page n p = (Ok n, p') ∧ m !! n = None ∧ mem_ok p' (<[n := zero_page]> m) fl pl tl ∧
    total_pages (header p') = total_pages (header p).
Proof.
  intros Hm. assert (3 ≤ n ≤ total_pages (header p)) as Hn by (apply (mok_range _ _ _ _ _ Hm); by left).
  destruct (mem_get_page p m _ _ _ n Hm Hn) as (d & p1 & Hrun & Hd & Hm1 & Hv1).
  assert (pdata p1 = pdata p) as Hpd by (by injection Hv1). assert (header p1 = header p) as Hh1 by (by injection Hv1).
  assert (page_ok d) as Hdok by (pose proof (mok_pages _ _ _ _ _ Hm) as Hf; rewrite Forall_lookup in Hf; eauto).
  set (p2 := set_superblock (with_free (next_of d) (pending_free_root (sb_of p1)) (sb_of p1)) p1).
  assert (mem_ok p2 m fl pl tl) as Hm2 by (eapply mem_ok_pop; [exact Hm1|by rewrite Hpd]).
  pose proof (mok_nodup _ _ _ _ _ Hm) as Hnd. cbn [app] in Hnd. apply NoDup_cons in Hnd as [Hnn _].
  destruct (mem_get_page_mut fill_zero p2 m fl pl tl n d (Ok tt) zero_page Hm2) as (p3 & Hrun3 & Hm3 & Hv3);
    [simpl; by rewrite Hh1|done|simpl; by rewrite <- Hpd in Hd|by apply fill_zero_ok|apply zero_page_page_ok|].
  exists p3. unfold pop_page. rewrite ST_bind_unfold, Hrun, ST_bind_unfold. unfold st_lift. rewrite read_next by done.
  rewrite ST_bind_unfold. unfold st_fun. fold p2. rewrite ST_bind_unfold, Hrun3. split; [done|]. split.
  - destruct (m !! n) as [dn|] eqn:E; [|done]. apply (mok_client _ _ _ _ _ Hm) in E as (_ & E & _). destruct E. by left.
  - split; [done|]. injection Hv3 as -> _. simpl. by rewrite Hh1.
Qed.

(** Appending a fresh page to the database. *)
Lemma mem_ok_extend p m tl :
  mem_ok p m [] [] tl → total_pages (header p) < MAX_PAGES →
  let n := total_pages (header p) + 1 in
  m !! n = None ∧
  mem_ok (set_loaded (loaded p ++ [true]) (set_pages (pages p ++ [Page_new]) (set_total_pages n p))) (<[n := zero_page]> m) [] [] tl.
Proof.
  intros [H1 H2 H3 H4 H5 H6 H7 H8 H9 H10] Hmax n. destruct H1 as [R1 R2 R3 R4 R5].
  assert (length (pdata p) = Z.to_nat (total_pages (header p))) as Hlen by (unfold pdata; by rewrite length_map).
  set (p' := set_loaded _ _). assert (pdata p' = pdata p ++ [zero_page]) as Hd by (unfold pdata; simpl; by rewrite map_app).
  assert (∀ k, 3 ≤ k ≤ total_pages (header p) → pdata p' !! idx k = pdata p !! idx k) as Hframe.
  { intros k Hk. rewrite Hd. apply lookup_app_l. unfold idx. lia. }
  split; [destruct (m !! n) as [d|] eqn:E; [|done]; apply H10 in E; lia|].
  split; try done; simpl.
  - split; simpl; try done; [rewrite length_app, R3; simpl; lia|rewrite length_app, R4; simpl; lia|].
    apply Forall_app_2; [done|]. by apply Forall_singleton.
  - lia.
  - rewrite Hd. apply Forall_app_2; [done|]. apply Forall_singleton, zero_page_page_ok.
  - unfold superblock_page_dirty in *. simpl. destruct (pages p) as [|a [|b l]]; simpl in *; try done; lia.
  - apply (tx_chain_frame (pdata p)); [|done]. intros k Hk. apply Hframe, H9. done.
  - intros k Hk. apply H9 in Hk. lia.
  - intros k d. rewrite lookup_insert_Some. intros [[<- <-]|[Hne Hk]].
    + split; [lia|]. split; [intros Hin; apply H9 in Hin; lia|]. rewrite Hd. rewrite lookup_app_r by (unfold idx; lia).
      replace (idx n - length (pdata p))%nat with 0%nat by (unfold idx; lia). done.
    + destruct (H10 k d Hk) as (? & ? & ?). split; [lia|]. split; [done|]. by rewrite Hframe.
Qed.

Lemma mem_allocate p m fl pl tl :
  mem_ok p m fl pl tl →
  if MAX_PAGES <=? total_pages (header p) then allocate_page p = (Err DatabaseFull, p)
  else ∃ n p' fl' pl', allocate_page p = (Ok n, p') ∧ m !! n = None ∧
         mem_ok p' (<[n := zero_page]> m) fl' pl' tl ∧
         total_pages (header p') ≤ total_pages (header p) + 1.
Proof.
  intros Hm. unfold allocate_page. destruct (Z.leb_spec MAX_PAGES (total_pages (header p))) as [|Hmax]; [done|].
  unfold free_list_head. pose proof (mok_range _ _ _ _ _ Hm) as Hr.
  pose proof (chain_root_pos _ _ _ (mok_free _ _ _ _ _ Hm) ltac:(intros ? ?; apply Hr; set_solver)) as Hf0.
  pose proof (chain_root_pos _ _ _ (mok_pending _ _ _ _ _ Hm) ltac:(intros ? ?; apply Hr; set_solver)) as Hp0.
  destruct fl as [|n fl].
  - rewrite (proj2 Hf0 eq_refl). cbn [negb]. destruct pl as [|n pl].
    + rewrite (proj2 Hp0 eq_refl). cbn [negb]. destruct (mem_ok_extend p m tl Hm Hmax) as [Hnone Hm'].
      eexists _, _, [], []. split; [reflexivity|]. split; [done|]. split; [done|simpl; lia].
    + destruct (pending_free_root (sb_of p) =? 0) eqn:E; [by discriminate (proj1 Hp0 eq_refl)|]. cbn [negb].
      pose proof (proj1 (mok_pending _ _ _ _ _ Hm)) as Hn. apply mem_ok_rotate in Hm. rewrite Hn in *.
      destruct (mem_pop_page _ _ n pl [] _ Hm) as (p' & Hrun & Hnone & Hm' & Ht). exists n, p', pl, []. simpl in Ht.
      split; [exact Hrun|]. split; [done|]. split; [done|lia].
  - destruct (free_root (sb_of p) =? 0) eqn:E; [by discriminate (proj1 Hf0 eq_refl)|]. cbn [negb].
    pose proof (proj1 (mok_free _ _ _ _ _ Hm)) as Hn. rewrite Hn.
    destruct (mem_pop_page _ _ n fl pl _ Hm) as (p' & Hrun & Hnone & Hm' & Ht). exists n, p', fl, pl.
    split; [exact Hrun|]. split; [done|]. split; [done|lia].
Qed.

(** ** Freeing *)

Lemma idx_lt p n : resident p → 1 ≤ n ≤ total_pages (header p) → (idx n < length (pdata p))%nat.
Proof. intros Hr Hn. pose proof (res_pages p Hr). unfold pdata. rewrite length_map. unfold idx. lia. Qed.

(** Outside a transaction the page goes in front of the pending pool. *)
Lemma mem_ok_push_pending p p' m n d' fl pl :
  mem_ok p m fl pl [] → active_tx (cow_state p) = None → is_Some (m !! n) →
  page_ok d' → next_of d' = pending_free_root (sb_of p) →
  view p' = v_write n d' (view (set_superblock (with_free (free_root (sb_of p)) n (sb_of p)) p)) →
  mem_ok p' (delete n m) fl (n :: pl) [].
Proof.
  intros [H1 H2 H3 H4 H5 H6 H7 H8 H9 H10] Htx [dn Hn] Hd' Hnext Hv. destruct (H10 n dn Hn) as (Hrange & Hnl & Hdn).
  assert (resident p') as Hr by (eapply v_write_resident; [|exact Hv]; by destruct H1).
  unfold view, v_write in Hv. simpl in Hv. injection Hv as Hh Hc _ _ _ Hd Hs.
  assert (∀ k, k ∈ fl ++ pl ++ [] → pdata p' !! idx k = pdata p !! idx k) as Hframe.
  { intros k Hk. rewrite Hd. apply list_lookup_insert_ne, idx_ne; [lia|apply H9 in Hk; lia|congruence]. }
  split; unfold sb_of; rewrite ?Hh, ?Hc, ?Hs; try done; simpl.
  - rewrite Hd. by apply Forall_insert.
  - apply (pool_chain_frame (pdata p)); [|done]. set_solver.
  - split; [done|]. exists d'. split.
    + rewrite Hd. apply list_lookup_insert_eq, (idx_lt p); [done|lia].
    + rewrite Hnext. apply (pool_chain_frame (pdata p)); [|done]. set_solver.
  - rewrite app_nil_r in *. apply NoDup_app in H8 as (Hf & Hfp & Hp). apply NoDup_app. split; [done|]. split; [set_solver|].
    apply NoDup_cons. set_solver.
  - intros k Hk. rewrite app_nil_r in *. destruct (decide (k = n)) as [->|]; [done|]. apply H9. set_solver.
  - intros k d [Hne Hk]%lookup_delete_Some. destruct (H10 k d Hk) as (? & ? & Hdk). split; [done|]. split; [set_solver|].
    rewrite Hd, list_lookup_insert_ne; [done|]. apply idx_ne; lia || congruence.
Qed.

(** Inside one it is linked behind the transaction's last freed page. *)
Lemma mem_ok_push_tx p p' m n dz tx tx' fl pl tl :
  mem_ok p m fl pl tl → active_tx (cow_state p) = Some tx → m !! n = Some dz → next_of dz = 0 → freed_tail tx' = Some n →
  freed_root tx' = match freed_tail tx with Some _ => freed_root tx | None => Some n end →
  match last tl with
  | None => view p' = view (set_active_tx (Some tx') p)
  | Some t => ∃ d', page_ok d' ∧ next_of d' = n ∧ view p' = v_write t d' (view (set_active_tx (Some tx') p))
  end →
  mem_ok p' (delete n m) fl pl (tl ++ [n]).
Proof.
  intros [H1 H2 H3 H4 H5 H6 H7 H8 H9 H10] Htx Hn Hdz Htail Hroot Hv. destruct (H10 n _ Hn) as (Hrange & Hnl & Hdn).
  rewrite Htx in H7.
  assert (resident p' ∧ header p' = header p ∧ active_superblock (cow_state p') = sb_of p ∧ active_tx (cow_state p') = Some tx' ∧
    superblock_page_dirty p' = superblock_page_dirty p ∧ Forall page_ok (pdata p') ∧
    (∀ k, 1 ≤ k → last tl ≠ Some k → pdata p' !! idx k = pdata p !! idx k) ∧
    chain (pdata p') (default 0 (freed_root tx')) (tl ++ [n])) as (Hr & Hh & Hsb & Hta & Hs & Hok & Hframe & Hch).
  { destruct (last tl) as [t|] eqn:Hlast.
    - destruct Hv as (d' & Hd' & Hnext & Hv).
      assert (resident p') as Hr by (eapply v_write_resident; [|exact Hv]; by destruct H1).
      unfold view, v_write in Hv. simpl in Hv. injection Hv as Hh Hc _ _ _ Hd Hs.
      assert (t ∈ tl) as Ht by (by apply last_Some_elem_of). assert (3 ≤ t ≤ total_pages (header p)) as Htr by (apply H9; set_solver).
      split; [done|]. split; [done|]. split; [by rewrite Hc|]. split; [by rewrite Hc|]. split; [done|].
      split; [rewrite Hd; by apply Forall_insert|]. split.
      + intros k Hk Hne. rewrite Hd. apply list_lookup_insert_ne, idx_ne; [lia|lia|congruence].
      + destruct tl as [|x tl]; [done|]. destruct H7 as (Hfr & Hft & Hch). rewrite Hroot, Hft, Hlast, Hfr, Hd. simpl default.
        apply (chain_snoc _ _ _ t d' n dz); try done; [|by intros k Hk; enough (3 ≤ k ≤ total_pages (header p)) by lia; apply H9; set_solver
          |by apply (idx_lt p); [|lia]|lia|set_solver].
        apply NoDup_app in H8 as (_ & _ & H8). by apply NoDup_app in H8 as (_ & _ & H8).
    - apply last_None in Hlast as ->. destruct H7 as [Hfr Hft]. pose proof Hv as Hv'. unfold view in Hv. simpl in Hv. injection Hv as Hh Hc _ _ _ Hd Hs.
      split; [apply (view_resident (set_active_tx (Some tx') p)); [done|by destruct H1]|]. split; [done|]. split; [by rewrite Hc|]. split; [by rewrite Hc|].
      split; [done|]. split; [by rewrite Hd|]. split; [by rewrite Hd|].
      rewrite Hroot, Hft. simpl. split; [done|]. by exists dz; rewrite Hd. }
  assert (∀ k, k ∈ fl ++ pl → pdata p' !! idx k = pdata p !! idx k) as Hframe'.
  { intros k Hk. apply Hframe; [enough (3 ≤ k ≤ total_pages (header p)) by lia; apply H9; set_solver|].
    intros Hlast%last_Some_elem_of. rewrite app_assoc in H8. apply NoDup_app in H8 as (_ & H8 & _). by apply (H8 k). }
  split; unfold sb_of; rewrite ?Hh, ?Hsb, ?Hta, ?Hs; try done.
  - apply (pool_chain_frame (pdata p)); [|done]. set_solver.
  - apply (pool_chain_frame (pdata p)); [|done]. set_solver.
  - destruct tl as [|x tl]; simpl in *.
    + destruct H7 as [Hfr Hft]. rewrite Hft in Hroot. split; [done|]. split; [done|]. by rewrite Hroot in Hch.
    + destruct H7 as (Hfr & Hft & _). rewrite Hft in Hroot. destruct (last (x :: tl)) as [t|] eqn:Hlast; [|by apply last_None in Hlast].
      rewrite Hroot, Hfr in *. split; [done|]. split; [rewrite Htail; symmetry; change (x :: tl ++ [n]) with ((x :: tl) ++ [n]); apply last_snoc|done].
  - rewrite !app_assoc. apply NoDup_app. rewrite <- app_assoc. split; [done|]. split; [|apply NoDup_singleton].
    intros k Hk ->%list_elem_of_singleton. done.
  - intros k Hk. rewrite !app_assoc in Hk. apply elem_of_app in Hk as [Hk|Hk]; [|by apply list_elem_of_singleton in Hk as ->].
    apply H9. by rewrite app_assoc.
  - intros k d [Hne Hk]%lookup_delete_Some. destruct (H10 k d Hk) as (? & ? & Hdk). split; [done|]. split; [set_solver|].
    rewrite Hframe; [done|lia|]. intros Hlast%last_Some_elem_of. set_solver.
Qed.

Lemma mem_free p m fl pl tl n d :
  mem_ok p m fl pl tl → m !! n = Some d →
  ∃ p' pl' tl', free_page n p = (Ok tt, p') ∧ mem_ok p' (delete n m) fl pl' tl' ∧ header p' = header p.
Proof.
  intros Hm Hn. destruct (mok_client _ _ _ _ _ Hm n d Hn) as (Hr & Hnl & Hd).
  assert (page_ok d) as Hdok by (pose proof (mok_pages _ _ _ _ _ Hm) as Hf; rewrite Forall_lookup in Hf; eauto).
  destruct (put_next_ok zero_page 0 zero_page_page_ok) as (dz & Hput & Hdz & Hz); [int_lia|].
  destruct (mem_get_page_mut (_ ← fill_zero; put_next 0) p m fl pl tl n d (Ok tt) dz Hm Hr Hnl Hd) as (p1 & Hrun1 & Hm1 & Hv1);
    [by rewrite ST_bind_unfold, fill_zero_ok|done|].
  assert (header p1 = header p ∧ cow_state p1 = cow_state p) as [Hh1 Hc1] by (by injection Hv1).
  assert ((<[n := dz]> m) !! n = Some dz) as Hn1 by apply lookup_insert_eq.
  replace (delete n m) with (delete n (<[n := dz]> m)) by apply delete_insert_eq.
  unfold free_page. rewrite ST_bind_unfold, check_range_ok, ST_bind_unfold, Hrun1 by lia. unfold st_fun, record_freed.
  destruct (active_tx (cow_state p1)) as [tx|] eqn:Htx.
  - set (tx' := mkCowTxn _ _ _ _ _). rewrite ST_bind_unfold.
    pose proof (mok_tx _ _ _ _ _ Hm1) as Htc. rewrite Htx in Htc.
    assert (freed_tail tx = last tl) as Hlast by (destruct tl; [apply Htc|by destruct Htc as (_ & -> & _)]).
    rewrite Hlast. destruct (last tl) as [t|] eqn:Hl.
    + assert (t ∈ fl ++ pl ++ tl) as Ht by (apply last_Some_elem_of in Hl; set_solver).
      pose proof (mok_range _ _ _ _ _ Hm1 t Ht) as Htr.
      assert (resident (set_active_tx (Some tx') p1)) as Hres by (by destruct (mok_resident _ _ _ _ _ Hm1)).
      destruct (get_page_mut_resident (put_next n) (set_active_tx (Some tx') p1) t Hres Htr) as (dt & Hdt & p' & Hrun & Hv).
      assert (page_ok dt) as Hdtok by (pose proof (mok_pages _ _ _ _ _ Hm1) as Hf; rewrite Forall_lookup in Hf; eauto).
      destruct (put_next_ok dt n Hdtok) as (dt' & Hput' & Hdt' & Hnext); [rewrite Hh1 in *; pose proof (mok_total _ _ _ _ _ Hm); unfold MAX_PAGES in *; int_lia|].
      rewrite Hput' in Hrun, Hv. rewrite Hrun. exists p', pl, (tl ++ [n]). split; [done|]. split; [|by injection Hv; intros; congruence].
      apply (mem_ok_push_tx p1 p' _ n dz tx tx'); try done. rewrite Hl. by exists dt'.
    + exists (set_active_tx (Some tx') p1), pl, (tl ++ [n]). split; [done|]. split; [|done].
      apply (mem_ok_push_tx p1 _ _ n dz tx tx'); try done. by rewrite Hl.
  - rewrite ST_bind_unfold. cbn [mret ST_ret].
    pose proof (mok_tx _ _ _ _ _ Hm1) as Htc. rewrite Htx in Htc. simpl in Htc. subst tl.
    set (p2 := set_superblock _ p1). assert (resident p2) as Hres by (by destruct (mok_resident _ _ _ _ _ Hm1)).
    destruct (get_page_mut_resident (put_next (pending_free_root (sb_of p1))) p2 n Hres) as (d2 & Hd2 & p' & Hrun & Hv);
      [simpl; rewrite Hh1; lia|].
    assert (page_ok d2) as Hd2ok by (pose proof (mok_pages _ _ _ _ _ Hm1) as Hf; rewrite Forall_lookup in Hf; eauto).
    destruct (put_next_ok d2 (pending_free_root (sb_of p1)) Hd2ok) as (d2' & Hput' & Hd2' & Hnext).
    { pose proof (mok_pending _ _ _ _ _ Hm1) as Hpc. pose proof (mok_total _ _ _ _ _ Hm1). pose proof (mok_range _ _ _ _ _ Hm1) as Hrg.
      destruct pl as [|x pl]; simpl in Hpc; [rewrite Hpc; int_lia|]. destruct Hpc as [-> _].
      assert (x ∈ fl ++ (x :: pl) ++ []) as Hx by set_solver. apply Hrg in Hx. unfold MAX_PAGES in *. int_lia. }
    rewrite Hput' in Hrun, Hv. rewrite Hrun. exists p', (n :: pl), []. split; [done|]. split; [|by injection Hv; intros; congruence].
    apply (mem_ok_push_pending p1 p' _ n d2'); try done.
Qed.

(** ** The interface *)

Definition mem_rep (p : Pager) (m : gmap Z bytes) : Prop := ∃ fl pl tl, mem_ok p m fl pl tl.
Definition mem_room (p : Pager) (k : nat) : Prop := total_pages (header p) + Z.of_nat k ≤ MAX_PAGES.

#[export] Instance Pager_laws : PagerLaws Pager.
Proof.
  refine {| pager_rep := mem_rep; pager_room := mem_room |}.
  - unfold mem_room. lia.
  - intros p m n d (fl & pl & tl & Hm) Hn. destruct (mok_client _ _ _ _ _ Hm n d Hn) as (Hr & _ & Hd).
    split; [|split; [lia|pose proof (mok_total _ _ _ _ _ Hm); unfold MAX_PAGES in *; int_lia]].
    pose proof (mok_pages _ _ _ _ _ Hm) as Hf. rewrite Forall_lookup in Hf. eauto.
  - intros p m n d (fl & pl & tl & Hm) Hn. destruct (mok_client _ _ _ _ _ Hm n d Hn) as (Hr & _ & Hd).
    destruct (mem_get_page p m fl pl tl n Hm Hr) as (d' & p' & Hrun & Hd' & Hm' & Hv). rewrite Hd in Hd'. injection Hd' as <-.
    exists p'. split; [done|]. split; [by exists fl, pl, tl|]. unfold mem_room. by injection Hv as -> _.
  - intros A f p m n d r d' (fl & pl & tl & Hm) Hn Hf Hd'. destruct (mok_client _ _ _ _ _ Hm n d Hn) as (Hr & Hnl & Hd).
    destruct (mem_get_page_mut f p m fl pl tl n d r d' Hm Hr Hnl Hd Hf Hd') as (p' & Hrun & Hm' & Hv).
    exists p'. split; [done|]. split; [by exists fl, pl, tl|]. unfold mem_room. by injection Hv as -> _.
  - intros p m (fl & pl & tl & Hm). pose proof (mem_allocate p m fl pl tl Hm) as Ha.
    destruct (Z.leb_spec MAX_PAGES (total_pages (header p))).
    + left. exists DatabaseFull, p. split; [done|]. split; [by exists fl, pl, tl|]. unfold mem_room. lia.
    + right. destruct Ha as (n & p' & fl' & pl' & Hrun & Hnone & Hm' & Ht). exists n, p'. split; [done|]. split; [done|].
      split; [by exists fl', pl', tl|]. unfold mem_room. lia.
  - intros p m n d (fl & pl & tl & Hm) Hn. destruct (mem_free p m fl pl tl n d Hm Hn) as (p' & pl' & tl' & Hrun & Hm' & Hh).
    exists p'. split; [done|]. split; [by exists fl, pl', tl'|]. unfold mem_room. by rewrite Hh.
Defined.
End Memory.
