(* ===== verification/PagerRollback.v ===== *)
(** Transactions of a pager without a file: rolling back restores the header,
    the superblock and every page as they were when the transaction began,
    whatever was read, written, allocated, freed and marked in between, failed
    calls included; committing keeps every page and loses no free one. *)
From S2P Require Import Prelude PagerIface FileIO Superblock Wal Pager PagerMemory.

(** ** What a rollback would restore *)

(** The saved originals over the pages. *)
Definition overlay (m : gmap Z bytes) (l : list bytes) : list bytes :=
  imap (λ i d, default d (m !! (Z.of_nat i + 1))) l.
Definition restored (p : Pager) : option (DbHeader * SuperblockV2 * SuperblockSlot * list bytes) :=
  s ← txn_snapshot p;
  Some (snap_header s, snap_superblock s, snap_slot s,
        take (Z.to_nat (snap_total_pages s)) (overlay (original_pages s) (pdata p))).

(** The flags of the pages agree with the saved originals. *)
Definition snap_flags (p : Pager) : list bool := map snapshotted (pages p).
Definition flags_ok (p : Pager) : Prop :=
  match txn_snapshot p with
  | None => False
  | Some s =>
      (∀ i b, snap_flags p !! i = Some b → b = bool_decide (is_Some (original_pages s !! (Z.of_nat i + 1)))) ∧
      (∀ n, is_Some (original_pages s !! n) → 1 ≤ n ≤ zlen (snap_flags p)) ∧
      0 ≤ snap_total_pages s ≤ zlen (snap_flags p) ∧ snap_total_pages s = total_pages (snap_header s)
  end.
(** Bytes are bytes and the numbers of the free pools are page numbers. *)
Definition nums_ok (p : Pager) : Prop :=
  0 ≤ total_pages (header p) ∧
  Forall bytes_ok (pdata p) ∧ 0 ≤ free_root (sb_of p) ∧ 0 ≤ pending_free_root (sb_of p) ∧
  ∃ tx, active_tx (cow_state p) = Some tx ∧ ∀ t, freed_tail tx = Some t → 0 ≤ t.
(** Inside a transaction. *)
Definition good (p : Pager) : Prop := resident p ∧ flags_ok p ∧ nums_ok p.

(** What a step between two states leaves alone. *)
Definition step (p q : Pager) : Prop :=
  good q ∧ restored q = restored p.
(** A computation that leaves the restored state alone, however it ends. *)
Definition keeps {A} (m : ST Pager A) : Prop := ∀ p, good p → step p (m p).2.

Lemma step_trans p q r : step p q → step q r → step p r.
Proof. intros (_ & H1) (? & H2). split; [done|congruence]. Qed.
Lemma keeps_bind {A B} (m : ST Pager A) (f : A → ST Pager B) :
  keeps m → (∀ a, keeps (f a)) → keeps (m ≫= f).
Proof.
  intros Hm Hf p Hp. rewrite ST_bind_unfold. pose proof (Hm p Hp) as Hs.
  destruct (m p) as [[a| | |] p']; simpl in *; try done. eapply step_trans; [exact Hs|]. by apply Hf, Hs.
Qed.
Lemma keeps_pure {A} (r : Pager → res A) : keeps (λ p, (r p, p)).
Proof. intros p Hp. done. Qed.
Lemma keeps_mret {A} (a : A) : keeps (mret a).
Proof. apply (keeps_pure (λ _, Ok a)). Qed.
Lemma keeps_lift {A} (r : res A) : keeps (st_lift r).
Proof. apply (keeps_pure (λ _, r)). Qed.

(** ** Overlays *)

Lemma overlay_lookup m l i : overlay m l !! i = (λ d, default d (m !! (Z.of_nat i + 1))) <$> l !! i.
Proof. unfold overlay. by rewrite list_lookup_imap. Qed.
Lemma overlay_empty l : overlay ∅ l = l.
Proof. apply list_eq. intros i. rewrite overlay_lookup. by destruct (l !! i). Qed.
Lemma idx_inv n i : 1 ≤ n → idx n = i ↔ n = Z.of_nat i + 1.
Proof. unfold idx. lia. Qed.

(** Saving the current content of a page changes nothing; writing a saved
    page neither. *)
Lemma overlay_save m l n d : 1 ≤ n → m !! n = None → l !! idx n = Some d → overlay (<[n := d]> m) l = overlay m l.
Proof.
  intros Hn Hm Hd. apply list_eq. intros i. rewrite !overlay_lookup. destruct (decide (idx n = i)) as [<-|Hne].
  - rewrite Hd. simpl. replace (Z.of_nat (idx n) + 1) with n by (unfold idx; lia). by rewrite lookup_insert_eq, Hm.
  - by rewrite lookup_insert_ne by (rewrite idx_inv in Hne by done; done).
Qed.
Lemma overlay_write m l n d : 1 ≤ n → is_Some (m !! n) → overlay m (<[idx n := d]> l) = overlay m l.
Proof.
  intros Hn [d0 Hm]. apply list_eq. intros i. rewrite !overlay_lookup. destruct (decide (idx n = i)) as [<-|Hne].
  - destruct (decide (idx n < length l)%nat).
    + rewrite list_lookup_insert_eq by done. destruct (lookup_lt_is_Some_2 l (idx n)) as [d1 ->]; [done|]. simpl.
      replace (Z.of_nat (idx n) + 1) with n by (unfold idx; lia). by rewrite Hm.
    + by rewrite list_insert_ge by lia.
  - by rewrite list_lookup_insert_ne.
Qed.
Lemma overlay_app m l k n :
  (n ≤ length l)%nat → take n (overlay m (l ++ k)) = take n (overlay m l).
Proof.
  intros Hn. unfold overlay. rewrite imap_app, take_app_le; [done|]. by rewrite length_imap.
Qed.

Section Rollback.
Context `{PageSize} `{Lz4}.

(** ** Primitive steps *)

(** Steps that keep the pages' contents and flags, and the snapshot. *)
Definition same (p q : Pager) : Prop :=
  snap_flags q = snap_flags p ∧ pdata q = pdata p ∧ txn_snapshot q = txn_snapshot p ∧ (resident p → resident q) ∧ (nums_ok p → nums_ok q).
Lemma same_step p q : same p q → good p → step p q.
Proof.
  intros (Hp & Hd & Hs & Hres & Hn) (Hr & Hfl & Hnum). unfold step, good, flags_ok, restored in *. rewrite Hp, Hd, Hs. auto.
Qed.
Lemma keeps_same {A} (r : Pager → res A) (f : Pager → Pager) : (∀ p, same p (f p)) → keeps (λ p, (r p, f p)).
Proof. intros Hf p Hp. by apply same_step. Qed.
Lemma touch_same n p : same p (touch n p).
Proof.
  pose proof (touch_view n p) as Hv. split; [|split; [by injection Hv|split; [|split]]].
  - unfold touch, snap_flags. destruct (0 <? max_buffer_pages p); [|done]. simpl. by apply map_alter_same.
  - unfold touch. by destruct (0 <? max_buffer_pages p).
  - by apply view_resident.
  - unfold nums_ok, sb_of. by injection Hv as -> -> _ _ _ -> _.
Qed.
Lemma keeps_check_range n : keeps (check_range n).
Proof. intros p Hp. unfold check_range. by destruct (in_range n p). Qed.
Lemma ensure_loaded_good b n p : good p → 1 ≤ n → in_range n p = true → ensure_loaded b n p = (Ok tt, p).
Proof. intros (Hr & _) Hn Hin. apply ensure_loaded_resident; [done|]. apply in_range_inv; [done|lia]. Qed.

(** A client's access to a page: out of range it is refused, in range the
    page is in memory. *)
Lemma access_step {A} b n (f : Pager → res A * Pager) p :
  good p → 0 ≤ n → (1 ≤ n ≤ total_pages (header p) → step p (f p).2) →
  step p ((_ ← check_range n; _ ← ensure_loaded b n; st_fun f) p).2.
Proof.
  intros Hp Hn Hf. rewrite ST_bind_unfold. unfold check_range. destruct (in_range n p) eqn:E; [|done].
  assert (1 ≤ n ≤ total_pages (header p)) as Hr by (apply in_range_inv; [done|lia]).
  rewrite ST_bind_unfold, ensure_loaded_good by (done || lia). by apply Hf.
Qed.
Lemma keeps_get_page n : 0 ≤ n → keeps (get_page n).
Proof.
  intros Hn p Hp. apply access_step; [done|done|]. intros Hr. pose proof (same_step _ _ (touch_same n p) Hp) as Hs.
  cbv zeta. destruct (pages (touch n p) !! idx n); exact Hs.
Qed.

(** The first write of a transaction to a page saves its content. *)
Lemma snapshot_page_step n pg p :
  good p → 1 ≤ n → pages p !! idx n = Some pg →
  step p (snapshot_page n pg p) ∧ pdata (snapshot_page n pg p) = pdata p ∧
  ∀ s, txn_snapshot (snapshot_page n pg p) = Some s → is_Some (original_pages s !! n).
Proof.
  intros (Hr & Hf & Hnum) Hn Hpg. pose proof (snapshot_page_view n pg p) as Hv.
  assert (resident (snapshot_page n pg p) ∧ nums_ok (snapshot_page n pg p)) as Hr'.
  { split; [by eapply view_resident|]. unfold nums_ok, sb_of. by injection Hv as -> -> _ _ _ -> _. }
  assert (snap_flags p !! idx n = Some (snapshotted pg)) as Hfl by (unfold snap_flags; by rewrite list_lookup_fmap, Hpg).
  assert (pdata p !! idx n = Some (data pg)) as Hd by (unfold pdata; by rewrite list_lookup_fmap, Hpg).
  assert (Z.of_nat (idx n) + 1 = n) as Hidx by (unfold idx; lia).
  split; [|split; [by injection Hv|]]; unfold snapshot_page, step, good, restored, flags_ok in *;
    destruct (txn_snapshot p) as [s|] eqn:Es; [|done| |done].
  - destruct Hf as (F1 & F2 & F3 & F4). pose proof (F1 _ _ Hfl) as Hb. rewrite Hidx in Hb.
    destruct (snapshotted pg) eqn:Esn; [by rewrite Es|]. symmetry in Hb. apply bool_decide_eq_false in Hb.
    apply eq_None_not_Some in Hb. simpl. split; [split; [apply Hr'|split; [|apply Hr']]|].
    + assert (snap_flags (snapshot_page n pg p) = <[idx n := true]> (snap_flags p)) as Hfl'.
      { unfold snapshot_page, snap_flags. rewrite Es, Esn. simpl. by apply map_alter_to. }
      unfold snapshot_page in Hfl'. rewrite Es, Esn in Hfl'. rewrite Hfl'. unfold zlen in *. rewrite !length_insert.
      apply lookup_lt_Some in Hfl as Hlt. split; [|split; [|done]].
      * intros i b. rewrite list_lookup_insert_Some. intros [(<- & <- & _)|[Hne Hi]].
        { rewrite Hidx, lookup_insert_eq. done. }
        rewrite lookup_insert_ne by (rewrite <- Hidx; lia). by apply F1.
      * intros k. rewrite lookup_insert. case_decide as Hk; [subst k; intros _; lia|apply F2].
    + replace (pdata _) with (pdata p) by (unfold pdata; simpl; by rewrite map_alter_same). by rewrite overlay_save.
  - intros s'. destruct (snapshotted pg) eqn:Esn.
    + rewrite Es. intros [= <-]. destruct Hf as (F1 & _). specialize (F1 _ _ Hfl). rewrite Hidx in F1. symmetry in F1.
      by apply bool_decide_eq_true in F1.
    + simpl. intros [= <-]. simpl. by rewrite lookup_insert_eq.
Qed.

(** Writing a page that has been saved. *)
Lemma write_step n d p q :
  good p → 1 ≤ n → bytes_ok d → (∀ s, txn_snapshot p = Some s → is_Some (original_pages s !! n)) →
  snap_flags q = snap_flags p → txn_snapshot q = txn_snapshot p → resident q → cow_state q = cow_state p →
  header q = header p → pdata q = <[idx n := d]> (pdata p) → step p q.
Proof.
  intros (Hr & Hf & Ht0 & Hnum & ?) Hn Hb Hs Hfl Ht Hr' Hc Hh Hd. unfold step, good, flags_ok, restored, nums_ok, sb_of in *.
  rewrite Hfl, Ht, Hc, Hh, Hd. split.
  - split; [done|]. split; [done|]. split; [done|]. split; [by apply Forall_insert|done].
  - destruct (txn_snapshot p) as [s|]; [|done]. simpl. by rewrite overlay_write by auto.
Qed.
Lemma step_get_page_mut {A} n (f : ST bytes A) p :
  good p → 0 ≤ n → (∀ d, pdata p !! idx n = Some d → bytes_ok d → bytes_ok (f d).2) → step p (get_page_mut n f p).2.
Proof.
  intros Hp Hn0 Hb. apply access_step; [done|done|]. intros Hn. pose proof (same_step _ _ (touch_same n p) Hp) as Hs.
  pose proof (proj1 (proj2 (touch_same n p))) as Hdt.
  cbv zeta. destruct (pages (touch n p) !! idx n) as [pg|] eqn:Hpg; [|exact Hs].
  eapply step_trans; [exact Hs|]. destruct Hs as (Hg & _). set (p1 := touch n p) in *.
  destruct (snapshot_page_step n pg p1 Hg ltac:(lia) Hpg) as (Hs2 & Hd2 & Ho2). eapply step_trans; [exact Hs2|].
  destruct Hs2 as (Hg2 & _). set (p2 := snapshot_page n pg p1) in *.
  assert (pdata p1 !! idx n = Some (data pg)) as Hpd by (unfold pdata; by rewrite list_lookup_fmap, Hpg).
  assert (bytes_ok (data pg)) as Hdat.
  { destruct Hg as (_ & _ & _ & Hnum & _). rewrite Forall_lookup in Hnum. by apply (Hnum (idx n)). }
  rewrite Hdt in Hpd. specialize (Hb _ Hpd Hdat). destruct (f (data pg)) as [r d]. simpl in Hb |- *.
  set (q := upd_page _ _ _). assert (pdata q = <[idx n := d]> (pdata p2)) as Hd.
  { unfold q, mark_dirty, pdata. destruct (dirty pg); simpl; rewrite (map_alter_to data _ _ _ d) by done; by rewrite map_alter_same by done. }
  apply (write_step n d p2 q); try done; try lia.
  - unfold q, mark_dirty, snap_flags. by destruct (dirty pg); simpl; rewrite !map_alter_same by done.
  - unfold q, mark_dirty. by destruct (dirty pg).
  - destruct Hg2 as ([R1 R2 R3 R4 R5] & _). split; unfold q, mark_dirty; destruct (dirty pg); simpl; rewrite ?length_alter; done.
  - unfold q, mark_dirty. by destruct (dirty pg).
  - unfold q, mark_dirty. by destruct (dirty pg).
Qed.
Lemma keeps_get_page_mut {A} n (f : ST bytes A) :
  0 ≤ n → (∀ d, bytes_ok d → bytes_ok (f d).2) → keeps (get_page_mut n f).
Proof. intros Hn Hb p Hp. apply step_get_page_mut; auto. Qed.

(** ** Operations *)

(** Steps on the superblock and the transaction's bookkeeping. *)
Lemma meta_step p q :
  good p → pages q = pages p → loaded q = loaded p → header q = header p → pfile q = pfile p → wal q = wal p →
  txn_snapshot q = txn_snapshot p → (nums_ok p → nums_ok q) → step p q.
Proof.
  intros Hg Hp Hl Hh Hf Hw Ht Hn. apply same_step; [|done]. unfold same, snap_flags, pdata. rewrite Hp.
  split_and!; try done. intros [R1 R2 R3 R4 R5]. split; congruence.
Qed.
Lemma nums_free a b p : 0 ≤ a → 0 ≤ b → nums_ok p → nums_ok (set_superblock (with_free a b (sb_of p)) p).
Proof. intros Ha Hb (H0' & H1 & H2 & H3 & H4). done. Qed.
Lemma free_list_head_step p : good p → step p (free_list_head p).2 ∧ ∀ n, (free_list_head p).1 = Some n → 0 ≤ n.
Proof.
  intros Hg. pose proof Hg as (_ & _ & Hn). pose proof Hn as (_ & _ & H1 & H2 & _).
  unfold free_list_head. destruct (negb (free_root (sb_of p) =? 0)); simpl; [by split; [|intros n [= <-]]|].
  destruct (negb (pending_free_root (sb_of p) =? 0)); simpl; [|by split].
  split; [|by intros n [= <-]]. apply meta_step; try done. by apply nums_free.
Qed.
Lemma read_u32_nonneg d n : bytes_ok d → read_u32 d 0 = Ok n → 0 ≤ n.
Proof.
  intros Hd. unfold read_u32, slice. destruct (_ && _); simpl; [|done]. intros [= <-].
  apply le_val_bound. by apply sub_ok.
Qed.
Lemma get_page_bytes n p d : good p → 0 ≤ n → (get_page n p).1 = Ok d → bytes_ok d.
Proof.
  intros Hg Hn. pose proof Hg as (Hr & _ & _ & Hb & _). unfold get_page. rewrite ST_bind_unfold. unfold check_range.
  destruct (in_range n p) eqn:E; [|done]. apply in_range_inv in E; [|done].
  destruct (get_page_resident p n Hr E) as (d' & p' & Hrun & Hd & _). unfold get_page in Hrun.
  rewrite ST_bind_unfold, check_range_ok in Hrun by done. rewrite Hrun. intros [= <-].
  rewrite Forall_lookup in Hb. eauto.
Qed.
Lemma put_next_bytes n d : bytes_ok d → bytes_ok (put_next n d).2.
Proof.
  intros Hd. unfold put_next, st_upd, copy_from_slice. destruct (_ && _); [|done]. simpl.
  apply splice_ok; [done|apply (le_bytes_ok 4 n)].
Qed.
Lemma fill_zero_bytes d : bytes_ok d → bytes_ok (fill_zero d).2.
Proof. intros _. by apply Forall_replicate. Qed.

(** Appending a page. *)
Lemma extend_step p :
  good p → let n := total_pages (header p) + 1 in
  step p (set_loaded (loaded p ++ [true]) (set_pages (pages p ++ [Page_new]) (set_total_pages n p))).
Proof.
  intros (Hr & Hf & Hn) n. set (q := set_loaded _ _).
  assert (snap_flags q = snap_flags p ++ [false]) as Hfl by (unfold snap_flags; simpl; by rewrite map_app).
  assert (pdata q = pdata p ++ [zero_page]) as Hd by (unfold pdata; simpl; by rewrite map_app).
  assert (length (snap_flags p) = length (pages p)) as Hlen by apply length_map.
  unfold step, good, flags_ok, restored in *. change (txn_snapshot q) with (txn_snapshot p). rewrite Hfl, Hd.
  destruct (txn_snapshot p) as [s|]; [|done]. destruct Hf as (F1 & F2 & F3 & F4). unfold zlen in *. split; [split; [|split; [split; [|split]|]]|].
  - destruct Hr as [R1 R2 R3 R4 R5], Hn as (N0 & _). split; simpl; try done; [..|apply Forall_app_2; [done|by apply Forall_singleton]];
      rewrite length_app, ?R3, ?R4; simpl; lia.
  - intros i b Hb. apply lookup_app_Some in Hb as [Hb|[Hi Hb]]; [by apply F1|].
    apply list_lookup_singleton_Some in Hb as [Hi0 <-]. symmetry. apply bool_decide_eq_false. intros Hs%F2. lia.
  - intros k Hk%F2. rewrite length_app. lia.
  - rewrite length_app. split; [lia|done].
  - destruct Hn as (N0 & N1 & N2). split; [simpl; lia|]. split; [|done]. rewrite Hd. apply Forall_app_2; [done|]. apply Forall_singleton, zero_page_ok.
  - simpl. rewrite overlay_app; [done|]. unfold pdata. rewrite length_map. lia.
Qed.

Lemma keeps_allocate_page : keeps allocate_page.
Proof.
  intros p Hg. unfold allocate_page. destruct (MAX_PAGES <=? total_pages (header p)); [done|].
  destruct (free_list_head_step p Hg) as [Hs Hpos]. destruct (free_list_head p) as [head p1]. simpl in Hs, Hpos.
  eapply step_trans; [exact Hs|]. destruct Hs as [Hg1 _]. destruct head as [n|].
  - specialize (Hpos n eq_refl). pose proof (keeps_get_page n Hpos p1 Hg1) as Hs1.
    pose proof (get_page_bytes n p1) as Hb. rewrite ST_bind_unfold.
    destruct (get_page n p1) as [[d| | |] p2]; simpl in *; try exact Hs1. specialize (Hb d Hg1 Hpos eq_refl).
    eapply step_trans; [exact Hs1|]. destruct Hs1 as [Hg2 _]. rewrite ST_bind_unfold. unfold st_lift.
    destruct (read_u32 d 0) as [next| | |] eqn:Hread; simpl; try done. apply read_u32_nonneg in Hread; [|done].
    rewrite ST_bind_unfold. unfold st_fun.
    eapply step_trans; [apply (meta_step p2 (set_superblock (with_free next (pending_free_root (sb_of p2)) (sb_of p2)) p2)); try done|].
    { intros Hn. apply nums_free; [done|apply Hn|done]. }
    apply keeps_bind; [by apply keeps_get_page_mut; [|apply fill_zero_bytes]|intros _; apply keeps_mret|].
    destruct Hg2 as (Hr2 & Hf2 & Hn2). split; [by destruct Hr2|]. split; [done|]. apply nums_free; [done|apply Hn2|done].
  - by apply extend_step.
Qed.

Lemma record_freed_step n p :
  good p → 0 ≤ n → step p (record_freed n p).2 ∧
  (∀ t, (record_freed n p).1.1 = Some t → 0 ≤ t).
Proof.
  intros Hg Hn. pose proof Hg as (_ & _ & _ & _ & _ & _ & tx & Htx & Ht). unfold record_freed. rewrite Htx. simpl.
  split; [|done]. apply meta_step; try done. intros (H1 & H2 & H3 & H4 & _). split_and!; try done.
  eexists. split; [reflexivity|]. simpl. by intros t [= <-].
Qed.
Lemma keeps_free_page n : 0 ≤ n → keeps (free_page n).
Proof.
  intros Hn. unfold free_page. apply keeps_bind; [apply keeps_check_range|intros _].
  apply keeps_bind; [|intros _ p Hg].
  { apply keeps_get_page_mut; [done|]. intros d Hd. rewrite ST_bind_unfold. by apply put_next_bytes, fill_zero_bytes. }
  unfold st_fun. destruct (record_freed_step n p Hg Hn) as [Hs Hpos]. destruct (record_freed n p) as [[prev pend] q].
  simpl in Hs, Hpos. eapply step_trans; [exact Hs|]. destruct Hs as [Hq _].
  apply keeps_bind; [|intros _|done].
  - destruct prev as [t|]; [|apply keeps_mret]. apply keeps_get_page_mut; [by apply Hpos|]. intros. by apply put_next_bytes.
  - destruct pend as [x|]; [|apply keeps_mret]. apply keeps_get_page_mut; [done|]. intros. by apply put_next_bytes.
Qed.
Lemma keeps_set_schema_root_page r : keeps (set_schema_root_page r).
Proof.
  intros p Hg. unfold set_schema_root_page. destruct (_ || _); [done|]. by apply meta_step.
Qed.
Lemma keeps_savepoint name : keeps (savepoint name).
Proof.
  apply keeps_bind; [|intros _ p Hg; by apply meta_step]. intros p Hg. unfold st_fun, in_transaction.
  pose proof Hg as (_ & _ & _ & _ & _ & _ & tx & -> & _). done.
Qed.
Lemma keeps_release_savepoint name : keeps (release_savepoint name).
Proof. intros p Hg. unfold release_savepoint. destruct (find_savepoint _ _); [|done]. by apply meta_step. Qed.
Lemma keeps_iter {A} (f : A → ST Pager unit) l : (∀ x, keeps (f x)) → keeps (st_iter f l).
Proof. intros Hf. induction l as [|x l IH]; [apply keeps_mret|]. by apply keeps_bind. Qed.
Lemma clean_same n p : same p (upd_page n (λ pg, mkPage (data pg) false (snapshotted pg) (recently_used pg)) p).
Proof.
  assert (pdata (upd_page n (λ pg, mkPage (data pg) false (snapshotted pg) (recently_used pg)) p) = pdata p) as Hd
    by (by apply map_alter_same).
  split; [by apply map_alter_same|]. split; [done|]. split; [done|]. split; [|unfold nums_ok; by rewrite Hd].
  intros [R1 R2 R3 R4 R5]. split; simpl; rewrite ?length_alter; done.
Qed.
Lemma keeps_flush nanos : keeps (flush nanos).
Proof.
  intros p Hg. unfold flush, in_transaction. pose proof Hg as (_ & _ & _ & _ & _ & _ & tx & -> & _). simpl.
  unfold flush_v2_data_pages, write_v2_data_pages. destruct (superblock_page_dirty p); [done|].
  apply (step_trans _ (set_dirty_pages [] p)); [by apply meta_step|]. apply keeps_iter; [|by apply (meta_step p)].
  intros n q Hq. unfold write_dirty_page. destruct (pages q !! idx n) as [pg|]; [|done].
  destruct (negb (dirty pg)); [done|]. destruct (n <=? 2); [done|]. pose proof Hq as ([Rf Rw _ _ _] & _). rewrite Rw, Rf.
  apply same_step; [apply clean_same|done].
Qed.

(** ** Putting the originals back *)

Definition page_core (pg : Page) : bytes * bool := (data pg, snapshotted pg).
Lemma restore_pages_spec l ps :
  NoDup l.*1 → (∀ n, n ∈ l.*1 → 1 ≤ n ≤ zlen ps) →
  ∃ ps', restore_pages l ps = Ok ps' ∧ length ps' = length ps ∧
    ∀ i, page_core <$> ps' !! i =
      match (list_to_map l : gmap Z bytes) !! (Z.of_nat i + 1) with
      | Some d => (λ _, (d, false)) <$> ps !! i
      | None => page_core <$> ps !! i
      end.
Proof.
  revert ps. induction l as [|[n d] l IH]; intros ps Hnd Hr; simpl.
  { exists ps. split; [done|]. split; [done|]. intros i. by rewrite lookup_empty. }
  apply NoDup_cons in Hnd as [Hn Hnd]. unfold zlen in Hr. assert (1 ≤ n ≤ Z.of_nat (length ps)) as Hnr by (apply Hr; by left).
  destruct (lookup_lt_is_Some_2 ps (idx n)) as [pg Hpg]; [unfold idx; lia|]. rewrite Hpg.
  destruct (IH (alter (λ pg, mkPage d false false (recently_used pg)) (idx n) ps) Hnd) as (ps' & Hrun & Hlen & Hl).
  { unfold zlen. rewrite length_alter. intros k Hk. apply Hr. by right. }
  exists ps'. rewrite length_alter in Hlen. split; [done|]. split; [done|]. intros i. rewrite Hl, lookup_insert.
  case_decide as Hi.
  - assert (idx n = i) as <- by (unfold idx; lia). rewrite <- Hi, not_elem_of_list_to_map_1 by done.
    by rewrite list_lookup_alter_eq, Hpg.
  - rewrite list_lookup_alter_ne by (unfold idx; lia). done.
Qed.

Lemma restore_all m ps :
  (∀ n, is_Some (m !! n) → 1 ≤ n ≤ zlen ps) →
  ∃ ps', restore_pages (map_to_list m) ps = Ok ps' ∧ length ps' = length ps ∧
    map data ps' = overlay m (map data ps) ∧
    ((∀ i b, map snapshotted ps !! i = Some b → b = bool_decide (is_Some (m !! (Z.of_nat i + 1)))) →
     Forall (eq false) (map snapshotted ps')).
Proof.
  intros Hm. destruct (restore_pages_spec (map_to_list m) ps (NoDup_fst_map_to_list m)) as (ps' & Hrun & Hlen & Hl).
  { intros n Hn. apply Hm. apply list_elem_of_fmap in Hn as ([k d] & -> & Hk). apply elem_of_map_to_list in Hk. by exists d. }
  exists ps'. rewrite list_to_map_to_list in Hl. unfold page_core in Hl. split; [done|]. split; [done|]. split.
  - apply list_eq. intros i. rewrite overlay_lookup, !list_lookup_fmap. specialize (Hl i).
    destruct (ps' !! i) as [q|], (ps !! i) as [p|]; destruct (m !! _) as [d|]; simplify_eq/=; congruence.
  - intros Hf. apply Forall_forall. intros b (i & Hb)%list_elem_of_lookup. rewrite list_lookup_fmap in Hb. specialize (Hl i).
    specialize (Hf i). rewrite list_lookup_fmap in Hf.
    destruct (ps' !! i) as [q|]; [|done]. injection Hb as <-. destruct (m !! _) as [d|] eqn:E, (ps !! i) as [p|]; simplify_eq/=; try done.
    specialize (Hf _ eq_refl). simpl in Hf. congruence.
Qed.

(** Restoring makes no page dirty. *)
Lemma restore_pages_clean l ps ps' :
  restore_pages l ps = Ok ps' → ∀ i, (dirty <$> ps' !! i) = Some true → (dirty <$> ps !! i) = Some true.
Proof.
  revert ps. induction l as [|[n d] l IH]; simpl; intros ps; [by intros [= ->]|].
  destruct (ps !! idx n) as [pg|] eqn:Hpg; [|done]. intros Hrun i Hi. specialize (IH _ Hrun i Hi).
  rewrite list_lookup_alter in IH. case_decide; [|done]. by destruct (ps !! _).
Qed.

Lemma superblock_clean_restored n ps ps' p q :
  pages p = ps → pages q = take n ps' → length ps' = length ps →
  (∀ i, (dirty <$> ps' !! i) = Some true → (dirty <$> ps !! i) = Some true) →
  superblock_page_dirty p = false → superblock_page_dirty q = false.
Proof.
  unfold superblock_page_dirty. intros -> -> Hlen Hd Hs.
  destruct ps' as [|a' [|b' l']], ps as [|a [|b l]]; try done; try (by destruct n as [|[|n]]).
  apply orb_false_iff in Hs as [Ha Hb]. pose proof (Hd 0%nat) as Hd0. pose proof (Hd 1%nat) as Hd1. simpl in *.
  destruct n as [|[|n]]; [done..|]. simpl.
  destruct (dirty a'); [destruct (dirty a); [done|by specialize (Hd0 eq_refl)]|].
  destruct (dirty b'); [destruct (dirty b); [done|by specialize (Hd1 eq_refl)]|done].
Qed.

(** ** Transactions *)

(** Outside a transaction. *)
Record idle (p : Pager) : Prop := {
  idle_resident : resident p;
  idle_flags : Forall (eq false) (snap_flags p);
  idle_total : 0 ≤ total_pages (header p);
  idle_bytes : Forall bytes_ok (pdata p);
  idle_free : 0 ≤ free_root (sb_of p);
  idle_pending : 0 ≤ pending_free_root (sb_of p);
  idle_tx : active_tx (cow_state p) = None;
  idle_snapshot : txn_snapshot p = None
}.

(** Calls inside a transaction; their results are not looked at. *)
Inductive txn_op :=
  | OpRead (n : Z)
  | OpWrite (n : Z) (f : ST bytes unit)
  | OpAllocate
  | OpFree (n : Z)
  | OpSetSchemaRoot (n : Z)
  | OpSavepoint (name : string)
  | OpRelease (name : string)
  | OpFlush (nanos : Z).
Definition op_ok (o : txn_op) : Prop :=
  match o with
  | OpRead n | OpFree n => 0 ≤ n
  | OpWrite n f => 0 ≤ n ∧ ∀ d, bytes_ok d → bytes_ok (f d).2
  | _ => True
  end.
Definition run_op (p : Pager) (o : txn_op) : Pager :=
  match o with
  | OpRead n => (get_page n p).2
  | OpWrite n f => (get_page_mut n f p).2
  | OpAllocate => (allocate_page p).2
  | OpFree n => (free_page n p).2
  | OpSetSchemaRoot n => (set_schema_root_page n p).2
  | OpSavepoint name => (savepoint name p).2
  | OpRelease name => (release_savepoint name p).2
  | OpFlush nanos => (flush nanos p).2
  end.

Lemma run_op_step p o : good p → op_ok o → step p (run_op p o).
Proof.
  intros Hg Ho. destruct o; simpl in *.
  - by apply keeps_get_page.
  - destruct Ho as [Hn Hf]. by apply (keeps_get_page_mut n f Hn Hf).
  - by apply keeps_allocate_page.
  - by apply keeps_free_page.
  - by apply keeps_set_schema_root_page.
  - by apply keeps_savepoint.
  - by apply keeps_release_savepoint.
  - by apply keeps_flush.
Qed.
Lemma run_ops_step p os : good p → Forall op_ok os → step p (foldl run_op p os).
Proof.
  intros Hg Hos. revert p Hg. induction Hos as [|o os Ho _ IH]; intros p Hg; [done|]. simpl.
  pose proof (run_op_step p o Hg Ho) as Hs. eapply step_trans; [exact Hs|]. by apply IH, Hs.
Qed.

Lemma begin_good p :
  idle p → ∃ p1, begin_transaction p = (Ok tt, p1) ∧ good p1 ∧
    restored p1 = Some (header p, sb_of p, active_slot (cow_state p), pdata p).
Proof.
  intros [I1 I2 I3 I4 I5 I6 I7 I8]. unfold begin_transaction, in_transaction. rewrite I7. simpl. eexists. split; [reflexivity|].
  assert (length (snap_flags p) = length (pages p)) as Hlen by apply length_map.
  pose proof (res_pages p I1) as Hp. rewrite Forall_lookup in I2. split; [split; [by destruct I1|split]|].
  - unfold flags_ok, zlen. cbn [txn_snapshot set_txn_snapshot set_cow_state original_pages snap_total_pages snap_header]. split; [|split; [|split; [|done]]].
    + intros i b Hb. rewrite <- (I2 i b Hb). rewrite lookup_empty. symmetry. apply bool_decide_eq_false. by intros [].
    + intros n [? Hn]. by rewrite lookup_empty in Hn.
    + change (snap_flags _) with (snap_flags p). rewrite Hlen, Hp. lia.
  - split; [done|]. split; [done|]. split; [done|]. split; [done|]. eexists. split; [reflexivity|]. done.
  - unfold restored. simpl. rewrite overlay_empty, take_ge; [done|]. unfold pdata. rewrite length_map. simpl. lia.
Qed.

Lemma rollback_shape p s ps' :
  txn_snapshot p = Some s → restore_pages (map_to_list (original_pages s)) (pages p) = Ok ps' →
  rollback_transaction p =
    (Ok tt, mkPager (pfile p) (snap_header s) (take (Z.to_nat (snap_total_pages s)) ps')
       (take (Z.to_nat (snap_total_pages s)) (loaded p)) (is_memory p)
       (mkCow (snap_superblock s) (snap_slot s) (next_txid (cow_state p)) None) (failpoint p) (fail_action p)
       None [] (bulk_mode p) (max_buffer_pages p) (lru_queue p) (lru_loaded_count p) (use_lz4 p) []
       (Wal.rollback <$> wal p) (engine_config p) (current_lsn p) (page_lsn p)).
Proof. destruct p. cbn. intros -> Hrun. unfold rollback_transaction. cbn. rewrite Hrun. reflexivity. Qed.

Lemma rollback_good p h sb slot pd :
  good p → restored p = Some (h, sb, slot, pd) → 0 ≤ total_pages h → Z.to_nat (total_pages h) = length pd →
  ∃ q, rollback_transaction p = (Ok tt, q) ∧ header q = h ∧ sb_of q = sb ∧ active_slot (cow_state q) = slot ∧
    pdata q = pd ∧ active_tx (cow_state q) = None ∧ txn_snapshot q = None ∧ savepoint_stack q = [] ∧
    resident q ∧ Forall (eq false) (snap_flags q) ∧
    (superblock_page_dirty p = false → superblock_page_dirty q = false).
Proof.
  intros (Hr & Hf & _) Hre Hh0 Hlen. unfold restored, flags_ok in *.
  destruct (txn_snapshot p) as [s|] eqn:Es; [|done]. destruct Hf as (F1 & F2 & F3 & F4). injection Hre as <- <- <- Hpd.
  assert (zlen (snap_flags p) = zlen (pages p)) as Hfl by (unfold zlen, snap_flags; by rewrite length_map). rewrite Hfl in *.
  destruct (restore_all (original_pages s) (pages p) F2) as (ps' & Hrun & Hlps & Hdata & Hflags). specialize (Hflags F1).
  rewrite (rollback_shape p s ps' Es Hrun). eexists. split; [reflexivity|]. unfold sb_of, pdata, snap_flags. cbn.
  unfold zlen in F3. split_and!; try done.
  - change (map data) with (fmap (M := list) data) in *. rewrite fmap_take, Hdata. exact Hpd.
  - destruct Hr as [R1 R2 R3 R4 R5]. split; cbn; rewrite ?R2; try done; rewrite <- ?F4;
      [rewrite length_take; lia|rewrite length_take; lia|by apply Forall_take].
  - change (map snapshotted) with (fmap (M := list) snapshotted) in *. rewrite fmap_take. by apply Forall_take.
  - by apply (superblock_clean_restored (Z.to_nat (snap_total_pages s)) (pages p) ps'); [| |done|by eapply restore_pages_clean].
Qed.
End Rollback.

(** [C5] In a pager without a file and without a write-ahead log, rolling a
    transaction back restores the header, the superblock, the slot and the
    content of every page as they were when it began, whatever reads, writes,
    allocations, frees, changes of the schema root, savepoints, releases of
    savepoints and flushes were called in it and however they ended, and leaves
    no transaction, no savepoint and no page marked as saved: the next
    transaction can begin.  ROLLBACK TO a savepoint is not among the calls. *)
Theorem rollback_restores `{PageSize} `{Lz4} p ops :
  idle p → Forall op_ok ops →
  ∃ p1 q, begin_transaction p = (Ok tt, p1) ∧ rollback_transaction (foldl run_op p1 ops) = (Ok tt, q) ∧
    header q = header p ∧ sb_of q = sb_of p ∧ active_slot (cow_state q) = active_slot (cow_state p) ∧
    pdata q = pdata p ∧ savepoint_stack q = [] ∧ idle q.
Proof.
  intros Hi Ho. destruct (begin_good p Hi) as (p1 & Hb & Hg & Hre). exists p1.
  destruct (run_ops_step p1 ops Hg Ho) as [Hg2 Hre2]. rewrite Hre in Hre2. pose proof Hi as [I1 I2 I3 I4 I5 I6 I7 I8].
  destruct (rollback_good _ _ _ _ _ Hg2 Hre2) as (q & Hq & Qh & Qs & Qsl & Qd & Qt & Qn & Qsp & Qr & Qf & _);
    [done|unfold pdata; by rewrite length_map, (res_pages p I1)|].
  exists q. split_and!; try done. split; rewrite ?Qh, ?Qs, ?Qd; done.
Qed.
