(* ===== verification/PagerCommit.v ===== *)
(** Committing a transaction of a pager without a file keeps the client's
    pages, publishes the superblock in the other slot, ends the transaction and
    loses no free page; a new database in memory satisfies the invariants the
    other files start from. *)
From S2P Require Import Prelude PagerIface FileIO Superblock Wal Pager PagerMemory PagerRollback.

Section Commit.
Context `{PageSize} `{Lz4}.

(** ** A new database in memory *)

Definition schema_page : bytes :=
  splice (splice (splice (splice zero_page 0 [0x0D]) 1 (le_bytes 2 0)) 3 (le_bytes 2 page_size_to_u16)) 5 [0].
Lemma splice_page_ok d off bs : page_ok d → bytes_ok bs → 0 ≤ off → off + zlen bs ≤ PAGE_SIZE → page_ok (splice d off bs).
Proof. intros [Hl Hb] ???. split; [rewrite length_splice; lia|by apply splice_ok]. Qed.
Lemma init_leaf_table_page_zero : init_leaf_table_page 0 zero_page = Ok schema_page ∧ page_ok schema_page.
Proof.
  pose proof PAGE_SIZE_bounds. unfold init_leaf_table_page, set_index, schema_page.
  change (0 + 1) with 1. change (0 + 3) with 3. change (0 + 5) with 5.
  assert (∀ b, is_byte b → bytes_ok [b]) as Hone by (intros; by apply Forall_singleton).
  pose proof (splice_page_ok zero_page 0 [0x0D] zero_page_page_ok (Hone 0x0D ltac:(done)) ltac:(lia) ltac:(unfold zlen; simpl; lia)) as P1.
  set (d1 := splice zero_page 0 [0x0D]) in *. 
  pose proof (splice_page_ok d1 1 (le_bytes 2 0) P1 (le_bytes_ok 2 0) ltac:(lia) ltac:(rewrite zlen_le_bytes; lia)) as P2.
  set (d2 := splice d1 1 _) in *.
  pose proof (splice_page_ok d2 3 (le_bytes 2 page_size_to_u16) P2 (le_bytes_ok 2 _) ltac:(lia) ltac:(rewrite zlen_le_bytes; lia)) as P3.
  set (d3 := splice d2 3 _) in *.
  pose proof (splice_page_ok d3 5 [0] P3 (Hone _ ltac:(done)) ltac:(lia) ltac:(unfold zlen; simpl; lia)) as P4.
  rewrite zlen_zero_page. destruct (Z.ltb_spec 0 PAGE_SIZE); [|lia]. cbn [andb Z.leb Z.compare mbind res_bind]. fold d1.
  destruct P1 as [L1 _], P2 as [L2 _], P3 as [L3 _].
  rewrite copy_from_slice_Ok by (rewrite ?L1, ?zlen_le_bytes; lia). cbn [mbind res_bind]. fold d2.
  rewrite copy_from_slice_Ok by (rewrite ?L2, ?zlen_le_bytes; lia). cbn [mbind res_bind]. fold d3.
  rewrite L3. destruct (Z.ltb_spec 5 PAGE_SIZE); [|lia]. done.
Qed.

Lemma sb_serialize_page sb d :
  sb_ok sb → page_ok d → sb_serialize sb d = Ok (sb_bytes sb ++ replicate (length d - 68) 0) ∧
    page_ok (sb_bytes sb ++ replicate (length d - 68) 0).
Proof.
  intros Hsb [Hl _]. pose proof PAGE_SIZE_bounds. pose proof (proj1 (ok_uuid _ Hsb)) as Hu. split; [apply sb_serialize_Ok; [done|lia]|].
  split; [rewrite zlen_app, zlen_sb_bytes, zlen_replicate by done; unfold zlen in *; lia|].
  apply Forall_app_2; [by apply sb_bytes_ok|]. by apply Forall_replicate.
Qed.
Lemma initial_superblock_ok uuid :
  zlen uuid = 16 → bytes_ok uuid → sb_ok (initial_superblock_a uuid) ∧ sb_ok (initial_superblock_b uuid).
Proof. intros. split; split; try done; cbn; int_lia. Qed.

Lemma open_memory_ok uuid :
  zlen uuid = 16 → bytes_ok uuid →
  ∃ p, open_memory uuid = Ok p ∧ mem_ok p {[3 := schema_page]} [] [] [] ∧ idle p ∧
    total_pages (header p) = 3 ∧ sb_of p = initial_superblock_a uuid ∧ failpoint p = None.
Proof.
  intros Hu Hb. destruct (initial_superblock_ok uuid Hu Hb) as [Ha Hb']. pose proof zero_page_page_ok as Hz.
  destruct (sb_serialize_page _ zero_page Ha Hz) as [Ea Pa], (sb_serialize_page _ zero_page Hb' Hz) as [Eb Pb].
  destruct init_leaf_table_page_zero as [Es Ps]. unfold open_memory. rewrite Ea, Eb, Es. cbn [mbind res_bind].
  eexists. split; [reflexivity|].
  set (d1 := _ ++ _) in *. set (d2 := sb_bytes (initial_superblock_b uuid) ++ _) in *.
  set (p := mkPager _ _ _ _ _ _ _ _ _ _ _ _ _ _ _ _ _ _ _ _).
  assert (resident p) as Hr by (split; done || (repeat constructor)).
  assert (pdata p = [d1; d2; schema_page]) as Hd by done.
  split; [split|split; [split|done]]; rewrite ?Hd; try done.
  - apply Forall_cons. split; [done|]. apply Forall_cons. split; [done|]. by apply Forall_singleton.
  - apply NoDup_nil_2.
  - intros n Hn. by apply elem_of_nil in Hn.
  - intros n d [<- <-]%lookup_singleton_Some. split; [done|]. split; [set_solver|done].
  - by repeat apply Forall_cons_2.
  - apply Forall_cons. split; [apply Pa|]. apply Forall_cons. split; [apply Pb|]. apply Forall_singleton, Ps.
Qed.

(** ** Writing the pages out *)

Lemma clean_view n p : 3 ≤ n → view (upd_page n (λ pg, mkPage (data pg) false (snapshotted pg) (recently_used pg)) p) = view p.
Proof.
  intros Hn. unfold view, pdata. simpl. f_equal; [by apply map_alter_same|]. by apply superblock_page_dirty_alter.
Qed.
(** What a commit does not look at. *)
Definition quiet (p q : Pager) : Prop := failpoint q = failpoint p ∧ txn_snapshot q = txn_snapshot p.
Lemma write_dirty_page_memory p n :
  resident p → 3 ≤ total_pages (header p) → superblock_page_dirty p = false →
  ∃ p', write_dirty_page n p = (Ok tt, p') ∧ view p' = view p ∧ quiet p p'.
Proof.
  intros Hr Ht Hs. unfold write_dirty_page. destruct (pages p !! idx n) as [pg|] eqn:Hpg; [|by exists p].
  destruct (dirty pg) eqn:Hd; [|by exists p]. simpl. pose proof (res_pages p Hr) as Hl. destruct (Z.leb_spec n 2) as [Hn|Hn].
  - exfalso. unfold superblock_page_dirty in Hs. unfold idx in Hpg.
    destruct (pages p) as [|a [|b l]]; simpl in Hl; [lia..|]. apply orb_false_iff in Hs as [Ha Hb].
    assert (Z.to_nat (n - 1) = 0 ∨ Z.to_nat (n - 1) = 1)%nat as [E|E] by lia; rewrite E in Hpg; simpl in Hpg; congruence.
  - destruct Hr as [Rf Rw _ _ _]. rewrite Rw, Rf. eexists. split; [reflexivity|]. split; [apply clean_view; lia|done].
Qed.
Lemma write_pages_memory p l :
  resident p → 3 ≤ total_pages (header p) → superblock_page_dirty p = false →
  ∃ p', st_iter write_dirty_page l p = (Ok tt, p') ∧ view p' = view p ∧ quiet p p'.
Proof.
  revert p. induction l as [|n l IH]; intros p Hr Ht Hs; [by exists p|]. simpl.
  destruct (write_dirty_page_memory p n Hr Ht Hs) as (p1 & Hrun & Hv & Hf & Hq).
  destruct (IH p1) as (p2 & Hrun2 & Hv2 & Hf2 & Hq2);
    [by eapply view_resident|by injection Hv as -> _|by injection Hv as _ _ _ _ _ _ ->|].
  exists p2. rewrite ST_bind_unfold, Hrun, Hrun2, Hv2. split; [done|]. split; [done|]. split; congruence.
Qed.

(** Replacing the content of a superblock page and the superblock. *)
Lemma mem_ok_slot p q m fl pl tl slot d sb :
  mem_ok p m fl pl tl → page_ok d →
  view q = mkView (header p) (mkCow sb slot (next_txid (cow_state p)) (active_tx (cow_state p)))
             (pfile p) (wal p) (loaded p) (<[idx (slot_page_num slot) := d]> (pdata p)) false →
  free_root sb = free_root (sb_of p) → pending_free_root sb = pending_free_root (sb_of p) →
  mem_ok q m fl pl tl.
Proof.
  intros [H1 H2 H3 H4 H5 H6 H7 H8 H9 H10] Hd Hv Hf Hp. unfold view in Hv. injection Hv as Qh Qc Qf Qw Ql Qd Qs.
  assert (∀ k, 3 ≤ k → pdata q !! idx k = pdata p !! idx k) as Hframe.
  { intros k Hk. rewrite Qd. apply list_lookup_insert_ne. unfold idx. destruct slot; simpl; lia. }
  split; unfold sb_of in *; rewrite ?Qh, ?Qc, ?Qs; simpl; rewrite ?Hf, ?Hp; try done.
  - destruct H1 as [R1 R2 R3 R4 R5]. split; rewrite ?Qh; try congruence.
    apply (f_equal length) in Qd. rewrite length_insert in Qd. unfold pdata in Qd. rewrite !length_map in Qd. congruence.
  - rewrite Qd. by apply Forall_insert.
  - apply (pool_chain_frame (pdata p)); [|done]. intros k Hk. apply Hframe, H9. set_solver.
  - apply (pool_chain_frame (pdata p)); [|done]. intros k Hk. apply Hframe, H9. set_solver.
  - apply (tx_chain_frame (pdata p)); [|done]. intros k Hk. apply Hframe, H9. set_solver.
  - intros n dn Hn. destruct (H10 n dn Hn) as (? & ? & ?). split; [done|]. split; [done|]. rewrite Hframe by lia. done.
Qed.

(** What a commit leaves in the slot's page and in the pager. *)
Record published (p q : Pager) (slot : SuperblockSlot) (sb : SuperblockV2) : Prop := {
  pub_header : header q = header p;
  pub_sb : sb_of q = sb;
  pub_slot : active_slot (cow_state q) = slot;
  pub_tx : active_tx (cow_state q) = active_tx (cow_state p);
  pub_page : ∃ d, pdata q !! idx (slot_page_num slot) = Some d ∧ sb_deserialize d = Ok (with_checksum sb)
}.

Lemma write_superblock_memory p m fl pl tl slot sb :
  mem_ok p m fl pl tl → sb_ok sb →
  ∃ q d, write_v2_superblock slot sb p = (Ok tt, q) ∧ page_ok d ∧ sb_deserialize d = Ok (with_checksum sb) ∧
    view q = mkView (header p) (cow_state p) (pfile p) (wal p) (loaded p)
               (<[idx (slot_page_num slot) := d]> (pdata p)) false ∧ quiet p q.
Proof.
  intros Hm Hsb. pose proof (mok_resident _ _ _ _ _ Hm) as Hr. pose proof (mok_total _ _ _ _ _ Hm) as Ht.
  assert (1 ≤ slot_page_num slot ≤ 2) as Hslot by (destruct slot; simpl; lia).
  destruct (resident_lookup p (slot_page_num slot) Hr ltac:(lia)) as [_ (pg & Hpg)].
  assert (page_ok (data pg)) as Hd.
  { pose proof (mok_pages _ _ _ _ _ Hm) as Hf. rewrite Forall_lookup in Hf. apply (Hf (idx (slot_page_num slot))).
    unfold pdata. by rewrite list_lookup_fmap, Hpg. }
  destruct (sb_serialize_page sb (data pg) Hsb Hd) as [Hser Hok].
  unfold write_v2_superblock, st_upd, write_superblock_v2_memory. rewrite (res_file p Hr), Hpg, Hser. cbn [mbind res_bind].
  eexists _, _. split; [reflexivity|]. split; [exact Hok|]. split; [by apply sb_deserialize_bytes|]. split; [|done].
  unfold view, pdata. simpl. f_equal; [apply Hr|by apply map_alter_to|].
  pose proof (mok_sb _ _ _ _ _ Hm) as Hs. unfold superblock_page_dirty, idx in *. simpl.
  destruct (pages p) as [|a [|b l]]; [by destruct slot..|]. apply orb_false_iff in Hs as [Ha Hb].
  destruct slot; simpl; by rewrite ?Ha, ?Hb.
Qed.

Lemma no_failpoint fp p : failpoint p = None → maybe_failpoint fp p = (Ok tt, p).
Proof. intros Hf. unfold maybe_failpoint. by rewrite Hf. Qed.

Lemma publish_memory p m fl pl tl slot sb :
  mem_ok p m fl pl tl → sb_ok sb → failpoint p = None →
  free_root sb = free_root (sb_of p) → pending_free_root sb = pending_free_root (sb_of p) →
  ∃ q, publish slot sb p = (Ok tt, q) ∧ mem_ok q m fl pl tl ∧ published p q slot sb ∧ quiet p q.
Proof.
  intros Hm Hsb Hf Hfr Hpr. pose proof (mok_resident _ _ _ _ _ Hm) as Hr. pose proof (mok_total _ _ _ _ _ Hm) as Ht.
  pose proof (mok_sb _ _ _ _ _ Hm) as Hs. unfold publish, write_v2_data_pages. rewrite ST_bind_unfold, Hs.
  destruct (write_pages_memory (set_dirty_pages [] p) (dirty_pages p)) as (p1 & Hrun & Hv & Hf1 & Hq1); [by destruct Hr|simpl; lia|done|].
  rewrite Hrun. change (view (set_dirty_pages [] p)) with (view p) in Hv.
  assert (mem_ok p1 m fl pl tl) as Hm1 by (by eapply mem_ok_view). pose proof (mok_resident _ _ _ _ _ Hm1) as Hr1.
  change (failpoint (set_dirty_pages [] p)) with (failpoint p) in Hf1. rewrite Hf in Hf1.
  rewrite ST_bind_unfold. unfold commit_wal. rewrite (res_wal p1 Hr1).
  rewrite ST_bind_unfold, no_failpoint, ST_bind_unfold, no_failpoint by done.
  destruct (write_superblock_memory p1 m fl pl tl slot sb Hm1 Hsb) as (p2 & d & Hrun2 & Hd & Hdes & Hv2 & Hf2 & Hq2).
  rewrite ST_bind_unfold, Hrun2. rewrite Hf1 in Hf2.
  rewrite ST_bind_unfold, no_failpoint, ST_bind_unfold, no_failpoint by done. unfold st_fun. cbv zeta.
  assert (header p1 = header p ∧ cow_state p1 = cow_state p) as [Hh1 Hc1] by (by injection Hv).
  assert (header p2 = header p ∧ cow_state p2 = cow_state p) as [Hh2 Hc2] by (injection Hv2; intros; split; congruence).
  eexists. split; [reflexivity|]. split; [|split; [|split; simpl; [congruence|by rewrite Hq2, Hq1]]].
  - apply (mem_ok_slot p1 _ m fl pl tl slot d sb); try done.
    + unfold view in *. simpl. injection Hv2 as -> -> -> -> -> Hd2 Hs2. unfold pdata, superblock_page_dirty in *. simpl. congruence.
    + unfold sb_of in *. by rewrite Hc1.
    + unfold sb_of in *. by rewrite Hc1.
  - split; try done; simpl; [by rewrite Hc2|]. exists d. split; [|done].
    assert (pdata p2 = <[idx (slot_page_num slot) := d]> (pdata p1)) as Hd2 by (by injection Hv2).
    change (pdata p2 !! idx (slot_page_num slot) = Some d). rewrite Hd2. apply list_lookup_insert_eq, idx_lt; [done|].
    rewrite Hh1. destruct slot; simpl; lia.
Qed.

(** ** Handing the freed pages over *)

Lemma chain_app pd r l1 t d' l2 :
  chain pd r l1 → last l1 = Some t → NoDup (l1 ++ l2) → (∀ k, k ∈ l1 ++ l2 → 1 ≤ k) → (idx t < length pd)%nat →
  chain pd (next_of d') l2 → chain (<[idx t := d']> pd) r (l1 ++ l2).
Proof.
  intros Hc Hlast Hnd Hpos Hlt Hl2.
  assert (t ∈ l1) as Htl by (by apply last_Some_elem_of).
  assert (∀ k, k ∈ l1 ++ l2 → k ≠ t → <[idx t:=d']> pd !! idx k = pd !! idx k) as Hframe.
  { intros k Hk Hne. apply list_lookup_insert_ne, idx_ne; [apply Hpos; set_solver|by apply Hpos|done]. }
  apply NoDup_app in Hnd as (Hnd & Hdisj & _).
  assert (chain (<[idx t:=d']> pd) (next_of d') l2) as Hl2'.
  { apply (pool_chain_frame pd); [|done]. intros k Hk. apply Hframe; [set_solver|]. intros ->. by apply (Hdisj t). }
  clear Hdisj Hl2 Htl. assert (∀ k, k ∈ l1 → k ≠ t → <[idx t:=d']> pd !! idx k = pd !! idx k) as Hf1 by set_solver.
  clear Hframe Hpos. revert r Hc Hlast Hnd Hf1. induction l1 as [|x l1 IH]; intros r Hc Hlast Hnd Hf1; [done|].
  destruct Hc as [-> (d & Hd & Hc)]. apply NoDup_cons in Hnd as [Hx Hnd]. split; [done|]. destruct l1 as [|y l1].
  - injection Hlast as ->. exists d'. split; [by apply list_lookup_insert_eq|done].
  - rewrite last_cons_cons in Hlast. assert (x ≠ t) as Hxt by (intros ->; by apply Hx, last_Some_elem_of).
    exists d. rewrite Hf1 by (done || by left). split; [done|]. apply IH; try done. intros k Hk. apply Hf1. by right.
Qed.

Lemma hand_over_memory p m fl pl tl tx :
  mem_ok p m fl pl tl → active_tx (cow_state p) = Some tx →
  ∃ q, hand_over_freed p = (Ok tt, q) ∧ mem_ok (set_active_tx None q) m fl (tl ++ pl) [] ∧
    header q = header p ∧ active_slot (cow_state q) = active_slot (cow_state p) ∧
    (∃ pend, sb_of q = with_free (free_root (sb_of p)) pend (sb_of p)) ∧
    ∀ k, k ≤ 2 → pdata q !! idx k = pdata p !! idx k.
Proof.
  intros [H1 H2 H3 H4 H5 H6 H7 H8 H9 H10] Htx. rewrite Htx in H7. unfold hand_over_freed. rewrite Htx.
  destruct tx as [id base tgt froot ftail]. destruct tl as [|x tl]; simpl in H7.
  - destruct H7 as [-> ->]. exists p. split; [done|]. split; [|split; [done|split; [done|split; [|done]]]].
    + split; try done. by destruct H1.
    + exists (pending_free_root (sb_of p)). by destruct (sb_of p).
  - destruct H7 as (-> & -> & Hc). destruct (last (x :: tl)) as [t|] eqn:Hlast; [|by apply last_None in Hlast].
    cbv zeta. set (p1 := set_superblock _ p). assert (resident p1) as Hr1 by (by destruct H1).
    assert (t ∈ x :: tl) as Ht by (by apply last_Some_elem_of).
    assert (3 ≤ t ≤ total_pages (header p)) as Htr by (apply H9; set_solver).
    set (old := pending_free_root (sb_of p)) in *.
    destruct (get_page_mut_resident (put_next old) p1 t Hr1 Htr) as (d & Hd & q & Hrun & Hv).
    assert (page_ok d) as Hdok by (rewrite Forall_lookup in H3; by apply (H3 (idx t))).
    destruct (put_next_ok d old Hdok) as (d' & Hput & Hd' & Hnext).
    { destruct pl as [|y pl]; simpl in H6; [rewrite H6; int_lia|]. destruct H6 as [-> _].
      assert (y ∈ fl ++ (y :: pl) ++ x :: tl) as Hy by set_solver. apply H9 in Hy. unfold MAX_PAGES in *. int_lia. }
    rewrite Hput in Hrun, Hv. exists q. split; [exact Hrun|]. pose proof (v_write_resident _ _ _ _ Hr1 Hv) as Hrq.
    unfold view, v_write in Hv. injection Hv as Qh Qc _ _ _ Qd Qs. change (pdata p1) with (pdata p) in Qd.
    assert (∀ k, k ≤ 2 ∨ (1 ≤ k ∧ k ≠ t) → pdata q !! idx k = pdata p !! idx k) as Hframe.
    { intros k Hk. rewrite Qd. apply list_lookup_insert_ne. unfold idx. lia. }
    split; [|split; [done|split; [by rewrite Qc|split; [unfold sb_of; rewrite Qc; by eexists|auto]]]].
    assert (Forall (λ k, 3 ≤ k ∧ k ≠ t) fl) as Hfl.
    { apply Forall_forall. intros k Hk. split; [apply H9; set_solver|]. intros ->. apply NoDup_app in H8 as (_ & H8 & _). by apply (H8 t); [|set_solver]. }
    rewrite Forall_forall in Hfl.
    assert ((x :: tl) ++ pl ≡ₚ pl ++ x :: tl) as Hperm by apply Permutation_app_comm.
    assert (∀ k, k ∈ fl ++ (x :: tl) ++ pl → k ∈ fl ++ pl ++ x :: tl) as Hin by set_solver.
    split; unfold sb_of; simpl; rewrite ?Qh, ?Qc; try done.
    + destruct Hrq as [R1 R2 R3 R4 R5]. split; simpl; rewrite ?Qh in *; done.
    + change (pdata (set_active_tx None q)) with (pdata q). rewrite Qd. by apply Forall_insert.
    + change (superblock_page_dirty q = false). by rewrite Qs.
    + simpl. apply (pool_chain_frame (pdata p)); [|done]. intros k Hk. destruct (Hfl k Hk). apply Hframe. lia.
    + simpl. change (pdata (set_active_tx None q)) with (pdata q). rewrite Qd. apply (chain_app _ _ (x :: tl)); try done.
      * rewrite Hperm. by apply NoDup_app in H8 as (_ & _ & H8).
      * intros k Hk. enough (3 ≤ k ≤ total_pages (header p)) by lia. apply H9. set_solver.
      * by apply (idx_lt p); [|lia].
      * by rewrite Hnext.
    + rewrite app_nil_r, Hperm. done.
    + intros k Hk. rewrite app_nil_r in Hk. by apply H9, Hin.
    + intros k dk Hk. destruct (H10 k dk Hk) as (? & Hnk & ?). split; [done|]. rewrite app_nil_r. split; [auto|].
      change (pdata q !! idx k = Some dk). rewrite Hframe; [done|]. right. split; [lia|]. intros ->. apply Hnk. set_solver.
Qed.

Lemma clear_snapshotted_view n p : view (clear_snapshotted n p) = view p.
Proof.
  unfold view, pdata. simpl. f_equal; [by apply map_alter_same|]. apply sb_dirty_pages. simpl. by apply map_alter_same.
Qed.
Lemma drop_snapshot_view p : view (drop_snapshot p) = view p ∧ txn_snapshot (drop_snapshot p) = None.
Proof.
  unfold drop_snapshot. destruct (txn_snapshot p) as [s|] eqn:Es; [|done]. split; [|done].
  change (view (foldr clear_snapshotted p (map fst (map_to_list (original_pages s)))) = view p).
  induction (map fst (map_to_list (original_pages s))) as [|n l IH]; [done|]. simpl. by rewrite clear_snapshotted_view.
Qed.
Lemma rotate_memory p m fl pl tl :
  mem_ok p m fl pl tl → ∃ fl' pl', mem_ok (rotate_pools p) m fl' pl' tl ∧ fl' ++ pl' = fl ++ pl.
Proof.
  intros Hm. unfold rotate_pools. pose proof (mok_range _ _ _ _ _ Hm) as Hr.
  pose proof (chain_root_pos _ _ _ (mok_free _ _ _ _ _ Hm)) as Hf.
  destruct (free_root (sb_of p) =? 0) eqn:E; simpl; [|by exists fl, pl].
  assert (fl = []) as -> by (apply Hf; [intros n Hn; apply Hr; set_solver|done]).
  destruct (negb _); [|by exists [], pl]. exists pl, []. split; [by apply mem_ok_rotate|by rewrite app_nil_r].
Qed.

Lemma sb_ok_commit g n sb : sb_ok sb → is_u64 g → is_u32 n → sb_ok (with_page_count n (with_generation g sb)).
Proof. intros [S1 S2 S3 S4 S5 S6 S7 S8 S9] Hg Hn. by split. Qed.
Lemma total_u32 p m fl pl tl : mem_ok p m fl pl tl → is_u32 (total_pages (header p)).
Proof. intros Hm. pose proof (mok_total _ _ _ _ _ Hm). unfold MAX_PAGES in *. int_lia. Qed.
Lemma rotate_pools_tx p : set_active_tx None (rotate_pools p) = rotate_pools (set_active_tx None p).
Proof. unfold rotate_pools. simpl. by destruct (_ && _). Qed.
Lemma rotate_pools_core p :
  header (rotate_pools p) = header p ∧ active_slot (cow_state (rotate_pools p)) = active_slot (cow_state p) ∧
  active_tx (cow_state (rotate_pools p)) = active_tx (cow_state p) ∧ pdata (rotate_pools p) = pdata p ∧
  generation (sb_of (rotate_pools p)) = generation (sb_of p) ∧ page_count (sb_of (rotate_pools p)) = page_count (sb_of p) ∧
  schema_root (sb_of (rotate_pools p)) = schema_root (sb_of p).
Proof. unfold rotate_pools. by destruct (_ && _). Qed.
End Commit.

(** [C8] In a pager without a file, without a write-ahead log and without a
    failpoint set, committing keeps every page of the client and the header,
    moves to the other superblock slot with the transaction's generation,
    leaves a superblock there that decodes to the new one, ends the transaction,
    and its free and pending pools are the old ones with the freed pages. *)
Theorem memory_commit_correct `{PageSize} `{Lz4} p m fl pl tl tx :
  mem_ok p m fl pl tl → active_tx (cow_state p) = Some tx → base_generation tx = generation (sb_of p) →
  is_u64 (target_generation tx) → sb_ok (sb_of p) → failpoint p = None →
  ∃ q fl' pl' d,
    commit_transaction p = (Ok tt, q) ∧ mem_ok q m fl' pl' [] ∧ fl' ++ pl' ≡ₚ fl ++ pl ++ tl ∧ header q = header p ∧
    generation (sb_of q) = target_generation tx ∧ page_count (sb_of q) = total_pages (header p) ∧
    schema_root (sb_of q) = schema_root (sb_of p) ∧
    active_slot (cow_state q) = inactive (active_slot (cow_state p)) ∧
    active_tx (cow_state q) = None ∧ txn_snapshot q = None ∧
    pdata q !! idx (slot_page_num (inactive (active_slot (cow_state p)))) = Some d ∧
    sb_deserialize d = Ok (with_checksum (with_page_count (total_pages (header p))
                             (with_generation (target_generation tx) (sb_of p)))).
Proof.
  intros Hm Htx Hbase Hgen Hsb Hfp. unfold commit_transaction, in_transaction. rewrite Htx. simpl.
  unfold commit_transaction_v2. rewrite Htx, Hbase, Z.eqb_refl. cbn [negb].
  set (slot := inactive _). set (sb := with_page_count _ _).
  assert (sb_ok sb) as Hsb' by (apply sb_ok_commit; [done..|by eapply total_u32]).
  destruct (publish_memory p m fl pl tl slot sb Hm Hsb' Hfp eq_refl eq_refl) as (p1 & Hrun & Hm1 & [Ph Ps Psl Pt (d & Pd & Pdes)] & _ & _).
  rewrite ST_bind_unfold, Hrun. rewrite Htx in Pt.
  destruct (hand_over_memory p1 m fl pl tl tx Hm1 Pt) as (p2 & Hrun2 & Hm2 & Hh2 & Hs2 & (pend & Hsb2) & Hd2).
  rewrite ST_bind_unfold, Hrun2. unfold st_fun. rewrite rotate_pools_tx.
  destruct (rotate_memory _ _ _ _ _ Hm2) as (fl' & pl' & Hm3 & Hperm).
  destruct (rotate_pools_core (set_active_tx None p2)) as (Rh & Rs & Rt & Rd & Rg & Rp & Rr).
  set (p3 := rotate_pools _) in *. destruct (drop_snapshot_view p3) as [Hv Hn].
  assert (header (drop_snapshot p3) = header p3 ∧ cow_state (drop_snapshot p3) = cow_state p3 ∧ pdata (drop_snapshot p3) = pdata p3)
    as (Hh & Hc & Hd) by (by injection Hv).
  exists (drop_snapshot p3), fl', pl', d. unfold sb_of in *. rewrite Hh, Hc, Hd, Rh, Rs, Rt, Rd, Rg, Rp, Rr. simpl. rewrite Hsb2, Hs2, Psl.
  split_and!; try done.
  - by eapply mem_ok_view.
  - rewrite Hperm. apply Permutation_app_head, Permutation_app_comm.
  - by rewrite Hh2.
  - simpl. by rewrite Ps.
  - simpl. by rewrite Ps.
  - simpl. by rewrite Ps.
  - change (pdata p2 !! idx (slot_page_num slot) = Some d). rewrite Hd2; [done|]. destruct slot; simpl; lia.
Qed.

(** ** Witnesses *)

Definition demo_memory_uuid : bytes := replicate 16 5.
(** A transaction that allocates a page, fills it and frees it again. *)
Definition demo_free_txn `{PageSize, Lz4} : ST Pager unit :=
  _ ← begin_transaction; n ← allocate_page; _ ← get_page_mut n (λ _, (Ok tt, replicate (Z.to_nat PAGE_SIZE) 6)); free_page n.

Lemma rollback_restores_witness :
  let _ := page_size_512 in let _ := no_lz4 in
  ∃ p p1 q, open_memory demo_memory_uuid = Ok p ∧ begin_transaction p = (Ok tt, p1) ∧
    rollback_transaction
      (foldl run_op p1 [OpAllocate; OpWrite 4 (put_next 9); OpFree 3; OpSavepoint "s"; OpSetSchemaRoot 4; OpRead 77; OpFlush 0])
      = (Ok tt, q) ∧ pdata q = pdata p.
Proof.
  intros Hps Hlz. destruct (open_memory_ok demo_memory_uuid eq_refl) as (p & Hp & _ & Hi & _).
  { by apply Forall_replicate. }
  destruct (rollback_restores p
    [OpAllocate; OpWrite 4 (put_next 9); OpFree 3; OpSavepoint "s"; OpSetSchemaRoot 4; OpRead 77; OpFlush 0] Hi)
    as (p1 & q & H1 & H2 & _ & _ & _ & H3 & _).
  { repeat apply Forall_cons_2; try done. split; [done|]. intros d. apply put_next_bytes. }
  exists p, p1, q. split; [exact Hp|]. split; [exact H1|]. split; [exact H2|exact H3].
Defined.

Lemma memory_commit_correct_witness :
  let _ := page_size_512 in let _ := no_lz4 in
  ∃ p0 p q fl' pl', open_memory demo_memory_uuid = Ok p0 ∧ demo_free_txn p0 = (Ok tt, p) ∧
    commit_transaction p = (Ok tt, q) ∧ fl' ++ pl' ≡ₚ [] ++ [] ++ [4] ∧ mem_ok q {[3 := schema_page]} fl' pl' [].
Proof.
  intros Hps Hlz.
  eassert (open_memory demo_memory_uuid = Ok _) as H0 by (vm_compute; reflexivity).
  match type of H0 with _ = Ok ?x => set (p0 := x) in H0 end.
  eassert (demo_free_txn p0 = (Ok tt, _)) as Hrun by (vm_compute; reflexivity).
  match type of Hrun with _ = (_, ?x) => set (p := x) in Hrun end.
  assert (mem_ok p {[3 := schema_page]} [] [] [4]) as Hm.
  { assert (resident p) as Hr by (split; [done|done|done|done|vm_compute; repeat constructor]).
    split.
    - exact Hr.
    - vm_compute. split; discriminate.
    - apply (bool_decide_unpack _). vm_compute. done.
    - reflexivity.
    - reflexivity.
    - reflexivity.
    - split; [reflexivity|]. split; [reflexivity|]. split; [reflexivity|]. eexists. split; [vm_compute; reflexivity|]. vm_compute. reflexivity.
    - apply NoDup_singleton.
    - intros n Hn. apply list_elem_of_singleton in Hn as ->. vm_compute. split; discriminate.
    - intros n d [<- <-]%lookup_singleton_Some. split; [vm_compute; split; discriminate|].
      split; [|vm_compute; reflexivity]. intros Hn. by apply list_elem_of_singleton in Hn. }
  eassert (active_tx (cow_state p) = Some _) as Htx by (vm_compute; reflexivity).
  destruct (memory_commit_correct p _ _ _ _ _ Hm Htx) as (q & fl' & pl' & d & Hc & Hq & Hperm & _).
  - vm_compute. reflexivity.
  - vm_compute. split; [discriminate|reflexivity].
  - assert (sb_of p = initial_superblock_a demo_memory_uuid) as -> by (vm_compute; reflexivity).
    apply initial_superblock_ok; [reflexivity|]. apply Forall_replicate. split; [discriminate|reflexivity].
  - reflexivity.
  - exists p0, p, q, fl', pl'. split; [exact H0|]. split; [exact Hrun|]. split; [exact Hc|]. split; [exact Hperm|exact Hq].
Defined.
