(* ===== verification/BTreePage.v ===== *)
(** B-tree pages: the parts of src/src/storage/btree.rs that read and write
    one page image.

    The page header, the cell pointer array that grows upwards and the cell
    content area that grows downwards, leaf cells (inline and overflow stubs),
    interior cells, the binary searches and the pointer shifts, all at byte
    level.  [leaf_ok d cco cs] and [interior_ok d cco cs rc] say which sorted
    list of cells a page holds; the lemmas show what each operation does to
    that list. *)
From S2P Require Import Prelude PagerIface.

(** ** Layout *)

Definition LEAF_TABLE : Z := 13.
Definition INTERIOR_TABLE : Z := 5.
Definition OVERFLOW_FLAG : Z := 2147483648.
Definition LEAF_HEADER_SIZE : Z := 14.
Definition INTERIOR_HEADER_SIZE : Z := 10.

Record PageHeader := mkPageHeader {
  page_type : Z; cell_count : Z; cell_content_offset : Z; right_child : option Z
}.

(** [BTree::header_offset] *)
Definition header_offset (page_num : Z) : Z := 0.

(** Writes to the borrowed page image. *)
Definition put_bytes (off : Z) (bs : bytes) : ST bytes unit :=
  st_upd (λ d, copy_from_slice d off (off + zlen bs) bs).
Definition put_byte (off b : Z) : ST bytes unit := st_upd (λ d, set_index d off b).
Definition put_u16 (off x : Z) : ST bytes unit := st_upd (λ d, write_u16 d off x).
Definition put_u32 (off x : Z) : ST bytes unit := st_upd (λ d, write_u32 d off x).

Section BTreePage.
Context `{PageSize}.

Definition OVERFLOW_DATA_SIZE : Z := PAGE_SIZE - 4.
Definition MAX_INLINE_PAYLOAD : Z := PAGE_SIZE / 2 - 32.
Definition MAX_INTERIOR_CHILDREN : Z := (PAGE_SIZE - INTERIOR_HEADER_SIZE) / 14 + 2.

Definition validate_cell_offset (cell_offset needed : Z) : res Z :=
  if PAGE_SIZE <? cell_offset + needed then Err (CorruptDatabase "cell offset exceeds page size")
  else Ok cell_offset.

(** The body of [write_page_header] on the borrowed page. *)
Definition page_write_header (off : Z) (header : PageHeader) : ST bytes unit :=
  put_byte off (page_type header) ≫= λ _,
  put_u16 (off + 1) (cell_count header) ≫= λ _,
  put_u16 (off + 3) (cell_content_offset header) ≫= λ _,
  put_byte (off + 5) 0 ≫= λ _,
  put_u32 (off + 6) (default 0 (right_child header)) ≫= λ _,
  if page_type header =? LEAF_TABLE then put_u32 (off + 10) 0 else mret tt.

(** The headers [init_leaf_page] and [init_interior_page] write. *)
Definition leaf_header : PageHeader := mkPageHeader LEAF_TABLE 0 page_size_to_u16 None.
Definition interior_header (right_child : Z) : PageHeader :=
  mkPageHeader INTERIOR_TABLE 0 page_size_to_u16 (Some right_child).

(** ** Cells *)

Definition make_leaf_cell (rowid : Z) (payload : bytes) : bytes :=
  le_bytes 4 (as_u32 (zlen payload)) ++ le_bytes 8 rowid ++ payload.
Definition make_overflow_cell (rowid total_payload_len overflow_first_page : Z) : bytes :=
  le_bytes 4 OVERFLOW_FLAG ++ le_bytes 8 rowid ++
  le_bytes 4 total_payload_len ++ le_bytes 4 overflow_first_page.

(** ** Binary search *)

(** What one round of a binary search finds at the midpoint. *)
Inductive probe (A : Type) : Type := PFound (a : A) | PRight | PLeft.
Arguments PFound {A} a.
Arguments PRight {A}.
Arguments PLeft {A}.

(** [while lo < hi { let mid = lo + (hi - lo) / 2; ... }] *)
Fixpoint bsearch {A} (fuel : nat) (p : Z → res (probe A)) (lo hi : Z) : res (A + Z) :=
  match fuel with
  | O => Hang
  | S fuel =>
      if lo <? hi then
        let mid := lo + (hi - lo) / 2 in
        p mid ≫= λ c,
        match c with
        | PFound a => Ok (inl a)
        | PRight => bsearch fuel p (mid + 1) hi
        | PLeft => bsearch fuel p lo mid
        end
      else Ok (inr lo)
  end.

(** The loop of [leaf_insert_index]. *)
Definition insert_probe (page_data : bytes) (ptr_base rowid mid : Z) : res (probe unit) :=
  let mid_ptr := ptr_base + mid * 2 in
  read_u16 page_data mid_ptr ≫= λ mid_cell_off,
  read_i64 page_data (mid_cell_off + 4) ≫= λ mid_rowid,
  Ok (if mid_rowid =? rowid then PFound tt else if mid_rowid <? rowid then PRight else PLeft).
Definition leaf_insert_index (page_data : bytes) (ptr_base cell_count rowid : Z) : res Z :=
  bsearch (S (Z.to_nat cell_count)) (insert_probe page_data ptr_base rowid) 0 cell_count ≫= λ r,
  match r with
  | inl _ => Err (ConstraintViolation "UNIQUE constraint failed: rowid")
  | inr lo => Ok lo
  end.

(** The search loops of [find_by_rowid] and [delete_from_page] in a leaf: the
    index and offset of the cell, and its size field. *)
Definition find_probe (data : bytes) (ptr_base target_rowid mid : Z) : res (probe (Z * Z * Z)) :=
  let mid_ptr := ptr_base + mid * 2 in
  read_u16 data mid_ptr ≫= λ mid_cell_off,
  validate_cell_offset mid_cell_off 12 ≫= λ _,
  read_i64 data (mid_cell_off + 4) ≫= λ mid_rowid,
  if mid_rowid =? target_rowid then
    read_u32 data mid_cell_off ≫= λ raw_size, Ok (PFound (mid, mid_cell_off, raw_size))
  else Ok (if mid_rowid <? target_rowid then PRight else PLeft).
Definition leaf_find (data : bytes) (ptr_base cell_count target_rowid : Z) : res (option (Z * Z * Z)) :=
  bsearch (S (Z.to_nat cell_count)) (find_probe data ptr_base target_rowid) 0 cell_count ≫= λ r,
  Ok (match r with inl x => Some x | inr _ => None end).

(** The search loops of [insert_interior_cell] and [find_child_page]: the
    first cell whose key is greater; only the latter validates the offset. *)
Definition interior_probe (validate : bool) (data : bytes) (ptr_base key mid : Z) : res (probe unit) :=
  let mid_ptr := ptr_base + mid * 2 in
  read_u16 data mid_ptr ≫= λ mid_cell_off,
  (if validate then validate_cell_offset mid_cell_off 12 else Ok mid_cell_off) ≫= λ _,
  read_i64 data (mid_cell_off + 4) ≫= λ mid_key,
  Ok (if key <? mid_key then PLeft else PRight).
Definition interior_index (validate : bool) (data : bytes) (ptr_base cell_count key : Z) : res Z :=
  bsearch (S (Z.to_nat cell_count)) (interior_probe validate data ptr_base key) 0 cell_count ≫= λ r,
  match r with inl _ => Panic | inr lo => Ok lo end.

(** ** Pointer array *)

(** [for i in (insert_idx..cell_count).rev() { ptr[i + 1] = ptr[i] }] *)
Definition shift_pointers_right (ptr_base insert_idx cell_count : Z) : ST bytes unit :=
  st_iter (λ i,
    let src := ptr_base + i * 2 in
    let dst := ptr_base + (i + 1) * 2 in
    st_gets (λ d, read_u16 d src) ≫= λ val, put_u16 dst val)
  (rev (seqZ insert_idx (cell_count - insert_idx))).
(** [for i in mid..cell_count - 1 { ptr[i] = ptr[i + 1] }] *)
Definition shift_pointers_left (ptr_base mid cell_count : Z) : ST bytes unit :=
  st_iter (λ i,
    let src := ptr_base + (i + 1) * 2 in
    let dst := ptr_base + i * 2 in
    st_gets (λ d, read_u16 d src) ≫= λ val, put_u16 dst val)
  (seqZ mid (cell_count - 1 - mid)).

(** ** Leaf operations *)

Definition write_cell_to_leaf (hdr_offset : Z) (cell_data : bytes) (insert_idx cell_count : Z) : ST bytes unit :=
  let ptr_base := hdr_offset + LEAF_HEADER_SIZE in
  st_gets (λ d, u16_to_page_size <$> read_u16 d (hdr_offset + 3)) ≫= λ cell_content_offset,
  if cell_content_offset <? zlen cell_data then
    st_err (CorruptDatabase "leaf page overflow: cell_content_offset < cell size")
  else
    let new_offset := cell_content_offset - zlen cell_data in
    put_bytes new_offset cell_data ≫= λ _,
    shift_pointers_right ptr_base insert_idx cell_count ≫= λ _,
    put_u16 (ptr_base + insert_idx * 2) (as_u16 new_offset) ≫= λ _,
    put_u16 (hdr_offset + 1) (as_u16 (cell_count + 1)) ≫= λ _,
    put_u16 (hdr_offset + 3) (as_u16 new_offset).

(** The body of [insert_cell_into_leaf] on the borrowed page. *)
Definition page_insert_cell (hdr_offset rowid : Z) (cell_data : bytes) : ST bytes unit :=
  st_gets (λ d, read_u16 d (hdr_offset + 1)) ≫= λ cell_count,
  let ptr_base := hdr_offset + LEAF_HEADER_SIZE in
  st_gets (λ d, leaf_insert_index d ptr_base cell_count rowid) ≫= λ insert_idx,
  write_cell_to_leaf hdr_offset cell_data insert_idx cell_count.

(** The body of [insert_cell_into_leaf_raw] on the borrowed page. *)
Definition page_insert_cell_raw (hdr_offset rowid : Z) (payload : bytes) : ST bytes unit :=
  let cell_len := 12 + zlen payload in
  st_gets (λ d, read_u16 d (hdr_offset + 1)) ≫= λ cell_count,
  let ptr_base := hdr_offset + LEAF_HEADER_SIZE in
  st_gets (λ d, leaf_insert_index d ptr_base cell_count rowid) ≫= λ insert_idx,
  st_gets (λ d, u16_to_page_size <$> read_u16 d (hdr_offset + 3)) ≫= λ cell_content_offset,
  if cell_content_offset <? cell_len then
    st_err (CorruptDatabase "leaf page overflow: cell_content_offset < cell size")
  else
    let new_offset := cell_content_offset - cell_len in
    put_bytes new_offset (le_bytes 4 (as_u32 (zlen payload))) ≫= λ _,
    put_bytes (new_offset + 4) (le_bytes 8 rowid) ≫= λ _,
    put_bytes (new_offset + 12) payload ≫= λ _,
    shift_pointers_right ptr_base insert_idx cell_count ≫= λ _,
    put_u16 (ptr_base + insert_idx * 2) (as_u16 new_offset) ≫= λ _,
    put_u16 (hdr_offset + 1) (as_u16 (cell_count + 1)) ≫= λ _,
    put_u16 (hdr_offset + 3) (as_u16 new_offset).

(** The body of [insert_overflow_cell_raw] on the borrowed page. *)
Definition page_insert_overflow_raw (hdr_offset rowid total_payload_len overflow_first_page : Z) : ST bytes unit :=
  let cell_len := 20 in
  st_gets (λ d, read_u16 d (hdr_offset + 1)) ≫= λ cell_count,
  let ptr_base := hdr_offset + LEAF_HEADER_SIZE in
  st_gets (λ d, leaf_insert_index d ptr_base cell_count rowid) ≫= λ insert_idx,
  st_gets (λ d, u16_to_page_size <$> read_u16 d (hdr_offset + 3)) ≫= λ cell_content_offset,
  if cell_content_offset <? cell_len then
    st_err (CorruptDatabase "leaf page overflow: cell_content_offset < cell size")
  else
    let new_offset := cell_content_offset - cell_len in
    put_bytes new_offset (le_bytes 4 OVERFLOW_FLAG) ≫= λ _,
    put_bytes (new_offset + 4) (le_bytes 8 rowid) ≫= λ _,
    put_bytes (new_offset + 12) (le_bytes 4 total_payload_len) ≫= λ _,
    put_bytes (new_offset + 16) (le_bytes 4 overflow_first_page) ≫= λ _,
    shift_pointers_right ptr_base insert_idx cell_count ≫= λ _,
    put_u16 (ptr_base + insert_idx * 2) (as_u16 new_offset) ≫= λ _,
    put_u16 (hdr_offset + 1) (as_u16 (cell_count + 1)) ≫= λ _,
    put_u16 (hdr_offset + 3) (as_u16 new_offset).

(** The leaf branch of [delete_from_page] on the borrowed page: whether the
    row was there, and the overflow chain to free. *)
Definition page_delete (hdr_offset target_rowid : Z) : ST bytes (option (option Z)) :=
  st_gets (λ d, read_u16 d (hdr_offset + 1)) ≫= λ cell_count,
  let ptr_base := hdr_offset + LEAF_HEADER_SIZE in
  st_gets (λ d, leaf_find d ptr_base cell_count target_rowid) ≫= λ found,
  match found with
  | Some (mid, mid_cell_off, raw_size) =>
      (if negb (Z.land raw_size OVERFLOW_FLAG =? 0)
       then st_gets (λ d, Some <$> read_u32 d (mid_cell_off + 16)) else mret None) ≫= λ overflow_first,
      shift_pointers_left ptr_base mid cell_count ≫= λ _,
      put_u16 (hdr_offset + 1) (as_u16 (cell_count - 1)) ≫= λ _,
      mret (Some overflow_first)
  | None => mret None
  end.

(** The cells of a leaf as [split_leaf] collects them: rowid and bytes. *)
Definition collect_leaf_cell (data : bytes) (ptr_base i : Z) : res (Z * bytes) :=
  let ptr_off := ptr_base + i * 2 in
  read_u16 data ptr_off ≫= λ cell_off,
  validate_cell_offset cell_off 12 ≫= λ _,
  read_u32 data cell_off ≫= λ raw_size,
  read_i64 data (cell_off + 4) ≫= λ rid,
  let cell_len := if negb (Z.land raw_size OVERFLOW_FLAG =? 0) then 20 else 12 + raw_size in
  validate_cell_offset cell_off cell_len ≫= λ _,
  slice data cell_off (cell_off + cell_len) ≫= λ cell, Ok (rid, cell).
Fixpoint collect {A} (f : Z → res A) (idxs : list Z) : res (list A) :=
  match idxs with
  | [] => Ok []
  | i :: rest => f i ≫= λ x, collect f rest ≫= λ xs, Ok (x :: xs)
  end.
Definition collect_leaf_cells (data : bytes) (hdr_offset : Z) : res (list (Z * bytes)) :=
  read_u16 data (hdr_offset + 1) ≫= λ cell_count,
  let ptr_base := hdr_offset + LEAF_HEADER_SIZE in
  collect (collect_leaf_cell data ptr_base) (seqZ 0 cell_count).

(** ** Interior operations *)

(** The body of [insert_interior_cell] on the borrowed page. *)
Definition page_insert_interior (hdr_offset key left_child : Z) : ST bytes unit :=
  let cell_data := le_bytes 4 left_child ++ le_bytes 8 key in
  st_gets (λ d, read_u16 d (hdr_offset + 1)) ≫= λ cell_count,
  st_gets (λ d, u16_to_page_size <$> read_u16 d (hdr_offset + 3)) ≫= λ cell_content_offset,
  let ptr_base := hdr_offset + INTERIOR_HEADER_SIZE in
  st_gets (λ d, interior_index false d ptr_base cell_count key) ≫= λ insert_idx,
  if cell_content_offset <? zlen cell_data then
    st_err (CorruptDatabase "interior page overflow: cell_content_offset < cell size")
  else
    let new_content_offset := cell_content_offset - zlen cell_data in
    put_bytes new_content_offset cell_data ≫= λ _,
    shift_pointers_right ptr_base insert_idx cell_count ≫= λ _,
    put_u16 (ptr_base + insert_idx * 2) (as_u16 new_content_offset) ≫= λ _,
    put_u16 (hdr_offset + 1) (as_u16 (cell_count + 1)) ≫= λ _,
    put_u16 (hdr_offset + 3) (as_u16 new_content_offset).

(** [find_child_page] on the page image. *)
Definition page_find_child (data : bytes) (hdr_offset rowid : Z) : res Z :=
  read_u16 data (hdr_offset + 1) ≫= λ cell_count,
  read_u32 data (hdr_offset + 6) ≫= λ right_child,
  if cell_count =? 0 then Ok right_child
  else
    interior_index true data (hdr_offset + INTERIOR_HEADER_SIZE) cell_count rowid ≫= λ lo,
    if lo <? cell_count then
      let ptr_offset := hdr_offset + INTERIOR_HEADER_SIZE + lo * 2 in
      read_u16 data ptr_offset ≫= λ cell_offset,
      validate_cell_offset cell_offset 4 ≫= λ _,
      read_u32 data cell_offset
    else Ok right_child.

(** The loop of [replace_child_pointer] looking for the divider. *)
Fixpoint find_divider (data : bytes) (ptr_base divider_key : Z) (idxs : list Z) : res (option Z) :=
  match idxs with
  | [] => Ok None
  | i :: rest =>
      read_u16 data (ptr_base + i * 2) ≫= λ cell_off,
      validate_cell_offset cell_off 12 ≫= λ _,
      read_i64 data (cell_off + 4) ≫= λ key,
      if key =? divider_key then Ok (Some i) else find_divider data ptr_base divider_key rest
  end.
(** The body of [replace_child_pointer] on the borrowed page. *)
Definition page_replace_child (hdr_offset divider_key new_page : Z) : ST bytes unit :=
  st_gets (λ d, read_u16 d (hdr_offset + 1)) ≫= λ cell_count,
  let ptr_base := hdr_offset + INTERIOR_HEADER_SIZE in
  st_gets (λ d, find_divider d ptr_base divider_key (seqZ 0 cell_count)) ≫= λ divider_idx,
  match divider_idx with
  | None => st_err (BTreeError "divider key not found after insert")
  | Some div_i =>
      if div_i + 1 <? cell_count then
        st_gets (λ d, read_u16 d (ptr_base + (div_i + 1) * 2)) ≫= λ next_cell_offset,
        put_u32 next_cell_offset new_page
      else put_u32 (hdr_offset + 6) new_page
  end.

(** The cells of an interior page as [split_interior] collects them. *)
Definition collect_interior_cell (data : bytes) (hdr_offset i : Z) : res (Z * Z) :=
  let ptr_offset := hdr_offset + INTERIOR_HEADER_SIZE + i * 2 in
  read_u16 data ptr_offset ≫= λ cell_offset,
  validate_cell_offset cell_offset 12 ≫= λ _,
  read_u32 data cell_offset ≫= λ child,
  read_i64 data (cell_offset + 4) ≫= λ key, Ok (child, key).

End BTreePage.
Arguments PFound {A} a.
Arguments PRight {A}.
Arguments PLeft {A}.

(** ** Lemmas: page images *)

Lemma put_bytes_Ok off bs d :
  0 ≤ off → off + zlen bs ≤ zlen d → put_bytes off bs d = (Ok tt, splice d off bs).
Proof. intros. unfold put_bytes, st_upd. by rewrite copy_from_slice_Ok by lia. Qed.
Lemma put_u16_Ok off x d :
  0 ≤ off → off + 2 ≤ zlen d → put_u16 off x d = (Ok tt, splice d off (le_bytes 2 x)).
Proof. intros. unfold put_u16, st_upd, write_u16. by rewrite copy_from_slice_Ok by (rewrite ?zlen_le_bytes; lia). Qed.
Lemma put_u32_Ok off x d :
  0 ≤ off → off + 4 ≤ zlen d → put_u32 off x d = (Ok tt, splice d off (le_bytes 4 x)).
Proof. intros. unfold put_u32, st_upd, write_u32. by rewrite copy_from_slice_Ok by (rewrite ?zlen_le_bytes; lia). Qed.
Lemma put_byte_Ok off b d :
  0 ≤ off < zlen d → put_byte off b d = (Ok tt, splice d off [b]).
Proof.
  intros. unfold put_byte, st_upd, set_index.
  destruct (Z.leb_spec 0 off), (Z.ltb_spec off (zlen d)); simpl; done || lia.
Qed.

(** What a fixed-width read returns when the bytes there are known. *)
Lemma read_u16_sub d off x :
  0 ≤ off → off + 2 ≤ zlen d → sub d off 2 = le_bytes 2 x → read_u16 d off = Ok (as_u16 x).
Proof.
  intros ?? Hs. unfold read_u16. rewrite slice_Ok by lia.
  replace (off + 2 - off) with 2 by lia. simpl. by rewrite Hs, le_val_le_bytes.
Qed.
Lemma read_u32_sub d off x :
  0 ≤ off → off + 4 ≤ zlen d → sub d off 4 = le_bytes 4 x → read_u32 d off = Ok (as_u32 x).
Proof.
  intros ?? Hs. unfold read_u32. rewrite slice_Ok by lia.
  replace (off + 4 - off) with 4 by lia. simpl. by rewrite Hs, le_val_le_bytes.
Qed.
Lemma read_i64_sub d off x :
  0 ≤ off → off + 8 ≤ zlen d → is_i64 x → sub d off 8 = le_bytes 8 x → read_i64 d off = Ok x.
Proof.
  intros ??? Hs. unfold read_i64. rewrite slice_Ok by lia.
  replace (off + 8 - off) with 8 by lia. simpl. rewrite Hs, le_val_le_bytes. f_equal. by apply as_i64_mod.
Qed.

(** Two adjacent writes are one write. *)
Lemma splice_adjacent {A} (d x y : list A) a :
  0 ≤ a → a + zlen x + zlen y ≤ zlen d → splice (splice d a x) (a + zlen x) y = splice d a (x ++ y).
Proof.
  intros Ha Hl. unfold splice, zlen in *.
  replace (Z.to_nat (a + Z.of_nat (length x))) with (Z.to_nat a + length x)%nat by lia.
  rewrite take_app_ge, drop_app_ge by (rewrite length_take; lia). rewrite length_take.
  replace (Z.to_nat a + length x - Z.to_nat a `min` length d)%nat with (length x) by lia.
  replace (Z.to_nat a + length x + length y - Z.to_nat a `min` length d)%nat with (length x + length y)%nat by lia.
  rewrite take_app_le, (take_ge x), drop_app_ge by lia. rewrite drop_drop, length_app, <- !app_assoc.
  do 4 f_equal; lia.
Qed.
Lemma splice_adjacent' {A} (d x y : list A) a :
  0 ≤ a → a + zlen x + zlen y ≤ zlen d → splice (splice d (a + zlen x) y) a x = splice d a (x ++ y).
Proof.
  intros Ha Hl. unfold splice, zlen in *.
  replace (Z.to_nat (a + Z.of_nat (length x))) with (Z.to_nat a + length x)%nat by lia.
  rewrite take_app_le by (rewrite length_take; lia). rewrite take_take.
  replace (Z.to_nat a `min` (Z.to_nat a + length x))%nat with (Z.to_nat a) by lia.
  rewrite drop_app_ge by (rewrite length_take; lia). rewrite length_take.
  replace (Z.to_nat a + length x - (Z.to_nat a + length x) `min` length d)%nat with 0%nat by lia.
  rewrite drop_0, length_app, <- !app_assoc. do 4 f_equal. lia.
Qed.
(** A window is the concatenation of its parts. *)
Lemma sub_split {A} (d : list A) a n m :
  0 ≤ a → 0 ≤ n → 0 ≤ m → a + n + m ≤ zlen d → sub d a (n + m) = sub d a n ++ sub d (a + n) m.
Proof.
  intros. unfold sub, zlen in *.
  replace (Z.to_nat (n + m)) with (Z.to_nat n + Z.to_nat m)%nat by lia.
  replace (Z.to_nat (a + n)) with (Z.to_nat a + Z.to_nat n)%nat by lia.
  rewrite <- drop_drop. generalize (drop (Z.to_nat a) d). intros l. generalize (Z.to_nat n) as k. clear.
  intros k. revert l. induction k; intros [|? l]; simpl; rewrite ?take_nil; f_equal; auto.
Qed.

Lemma sub_splice_inside {A} (d bs : list A) o k n :
  0 ≤ o → 0 ≤ k → k + zlen bs ≤ n → o + n ≤ zlen d →
  sub (splice d (o + k) bs) o n = splice (sub d o n) k bs.
Proof.
  intros ? ? ? ?. pose proof (zlen_nonneg bs).
  assert (zlen (splice d (o + k) bs) = zlen d) by (apply length_splice; lia).
  replace n with (k + (zlen bs + (n - k - zlen bs))) at 1 by lia.
  rewrite sub_split, sub_split by lia. rewrite sub_splice_before, sub_splice_eq, sub_splice_after by lia.
  unfold splice. f_equal; [|f_equal].
  - change (take (Z.to_nat k) (sub d o n)) with (sub (sub d o n) 0 k). rewrite sub_sub by lia. f_equal. lia.
  - unfold sub. rewrite skipn_firstn_comm, drop_drop. unfold zlen in *. f_equal; [lia|f_equal; lia].
Qed.

Lemma page_read_write_u16 d off x :
  bytes_ok d → 0 ≤ off → off + 2 ≤ zlen d → read_u16 d off = Ok x → le_bytes 2 x = sub d off 2.
Proof.
  intros Hd ?? Hr. unfold read_u16 in Hr. rewrite slice_Ok in Hr by lia.
  replace (off + 2 - off) with 2 in Hr by lia. simpl in Hr. injection Hr as <-.
  replace 2%nat with (length (sub d off 2)); [apply le_bytes_le_val; auto with kkdb|].
  pose proof (length_sub d off 2 ltac:(lia) ltac:(lia) ltac:(lia)) as Hl. unfold zlen in Hl. lia.
Qed.
Lemma read_u16_Ok d off : 0 ≤ off → off + 2 ≤ zlen d → read_u16 d off = Ok (le_val (sub d off 2)).
Proof. intros. unfold read_u16. rewrite slice_Ok by lia. by replace (off + 2 - off) with 2 by lia. Qed.

(** Copying one pointer cell. *)
Lemma copy_u16_Ok d src dst :
  bytes_ok d → 0 ≤ src → src + 2 ≤ zlen d → 0 ≤ dst → dst + 2 ≤ zlen d →
  (st_gets (λ d, read_u16 d src) ≫= λ val, put_u16 dst val) d = (Ok tt, splice d dst (sub d src 2)).
Proof.
  intros. rewrite ST_bind_unfold. unfold st_gets. rewrite read_u16_Ok by lia.
  rewrite put_u16_Ok by lia. do 2 f_equal. apply page_read_write_u16; try done. by apply read_u16_Ok.
Qed.

Lemma seqZ_snoc a k : 0 ≤ k → seqZ a (k + 1) = seqZ a k ++ [a + k].
Proof. intros. rewrite seqZ_app by lia. done. Qed.

(** The pointer shifts are block moves. *)
Lemma shift_pointers_right_Ok d pb idx n :
  bytes_ok d → 0 ≤ pb → 0 ≤ idx ≤ n → pb + n * 2 + 2 ≤ zlen d →
  shift_pointers_right pb idx n d =
    (Ok tt, splice d (pb + idx * 2 + 2) (sub d (pb + idx * 2) ((n - idx) * 2))).
Proof.
  intros Hd Hpb Hi Hn. unfold shift_pointers_right.
  assert (∀ k, 0 ≤ k → ∀ d, bytes_ok d → pb + (idx + k) * 2 + 2 ≤ zlen d →
    st_iter (λ i, st_gets (λ d, read_u16 d (pb + i * 2)) ≫= λ val, put_u16 (pb + (i + 1) * 2) val)
      (rev (seqZ idx k)) d = (Ok tt, splice d (pb + idx * 2 + 2) (sub d (pb + idx * 2) (k * 2)))) as IH.
  { clear d Hd Hn. intros k Hk. pattern k. apply natlike_ind; [| |exact Hk]; clear k Hk.
    - intros d Hd Hl. simpl. rewrite (Z.mul_0_l 2). f_equal. unfold sub, splice. simpl.
      by rewrite Nat.add_0_r, take_drop.
    - intros k Hk IH d Hd Hl. unfold Z.succ in *. rewrite seqZ_snoc, rev_app_distr by lia. cbn [rev app st_iter].
      erewrite ST_bind_Ok by (apply copy_u16_Ok; [done|lia..]).
      replace (pb + (idx + k + 1) * 2) with (pb + idx * 2 + 2 + k * 2) by lia.
      replace (pb + (idx + k) * 2) with (pb + idx * 2 + k * 2) by lia.
      set (s := sub d (pb + idx * 2 + k * 2) 2).
      assert (zlen s = 2) as Hs by (apply length_sub; lia).
      rewrite IH; [|apply splice_ok; subst s; auto with kkdb|rewrite length_splice; lia].
      rewrite sub_splice_before by lia. f_equal.
      assert (zlen (sub d (pb + idx * 2) (k * 2)) = k * 2) as Hx by (apply length_sub; lia).
      rewrite <- Hx at 1. rewrite splice_adjacent' by lia. f_equal.
      replace ((k + 1) * 2) with (k * 2 + 2) by lia. subst s. rewrite sub_split by lia. done. }
  apply IH; [lia|done|lia].
Qed.
Lemma shift_pointers_left_Ok d pb mid n :
  bytes_ok d → 0 ≤ pb → 0 ≤ mid < n → pb + n * 2 ≤ zlen d →
  shift_pointers_left pb mid n d =
    (Ok tt, splice d (pb + mid * 2) (sub d (pb + mid * 2 + 2) ((n - 1 - mid) * 2))).
Proof.
  intros Hd Hpb Hi Hn. unfold shift_pointers_left.
  assert (∀ k, 0 ≤ k → mid + k < n →
    st_iter (λ i, st_gets (λ d, read_u16 d (pb + (i + 1) * 2)) ≫= λ val, put_u16 (pb + i * 2) val)
      (seqZ mid k) d = (Ok tt, splice d (pb + mid * 2) (sub d (pb + mid * 2 + 2) (k * 2)))) as IH.
  { intros k Hk. pattern k. apply natlike_ind; [| |exact Hk]; clear k Hk.
    - intros _. simpl. rewrite (Z.mul_0_l 2). f_equal. unfold sub, splice. simpl.
      by rewrite Nat.add_0_r, take_drop.
    - intros k Hk IH Hlt. unfold Z.succ in *. rewrite seqZ_snoc by lia.
      erewrite st_iter_app by (apply IH; lia). cbn [st_iter].
      assert (zlen (sub d (pb + mid * 2 + 2) (k * 2)) = k * 2) as Hx by (apply length_sub; lia).
      erewrite ST_bind_Ok; [|apply copy_u16_Ok; rewrite ?length_splice; auto with kkdb; lia].
      rewrite sub_splice_after by lia. unfold mret, ST_ret. f_equal.
      replace (pb + (mid + k) * 2) with (pb + mid * 2 + zlen (sub d (pb + mid * 2 + 2) (k * 2))) by lia.
      rewrite splice_adjacent by (rewrite ?length_sub; lia). f_equal.
      replace ((k + 1) * 2) with (k * 2 + 2) by lia. rewrite (sub_split _ _ (k * 2) 2) by lia.
      do 2 f_equal. lia. }
  apply IH; lia.
Qed.

(** ** Lemmas: binary search *)

Section BSearch.
Context {A : Type} (p : Z → res (probe A)) (c : Z → probe A) (n : Z).
Hypothesis Hp : ∀ i, 0 ≤ i < n → p i = Ok (c i).
Hypothesis Hright : ∀ i j, 0 ≤ i ≤ j → j < n → c j = PRight → c i = PRight.
Hypothesis Hleft : ∀ i j, 0 ≤ i ≤ j → j < n → c i = PLeft → c j = PLeft.

(** The search ends at the hit, or at the boundary between left and right. *)
Lemma bsearch_spec fuel lo hi :
  0 ≤ lo → lo ≤ hi → hi ≤ n → hi - lo < Z.of_nat fuel →
  (∀ i, 0 ≤ i < lo → c i = PRight) → (∀ i, hi ≤ i < n → c i = PLeft) →
  (∃ i a, 0 ≤ i < n ∧ c i = PFound a ∧ bsearch fuel p lo hi = Ok (inl a)) ∨
  (∃ l, 0 ≤ l ≤ n ∧ (∀ i, 0 ≤ i < l → c i = PRight) ∧ (∀ i, l ≤ i < n → c i = PLeft) ∧
     bsearch fuel p lo hi = Ok (inr l)).
Proof.
  revert lo hi. induction fuel as [|fuel IH]; intros lo hi Hlo Hlh Hhi Hf Hr Hl; [lia|]. cbn [bsearch].
  destruct (Z.ltb_spec lo hi) as [Hlt|].
  2: { right. exists lo. split_and!; [lia|lia|done| |done]. intros i Hi. apply Hl. lia. }
  assert (lo ≤ lo + (hi - lo) / 2 < hi) as Hm by div_lia.
  set (mid := lo + (hi - lo) / 2) in *. rewrite Hp by lia. simpl.
  destruct (c mid) as [a| |] eqn:Hc.
  - left. exists mid, a. split_and!; done || lia.
  - apply IH; try lia; [|intros; apply Hl; lia]. intros i Hi. apply (Hright i mid); done || lia.
  - apply IH; try lia; [intros; apply Hr; lia|]. intros i Hi. apply (Hleft mid i); done || lia.
Qed.
End BSearch.

(** Searching a sorted list of keys. *)
Definition key_at (ks : list Z) (i : Z) : Z := default 0 (ks !! Z.to_nat i).

Lemma sorted_key_lt ks i j :
  StronglySorted Z.lt ks → 0 ≤ i < j → j < zlen ks → key_at ks i < key_at ks j.
Proof.
  unfold key_at, zlen. intros Hs Hij Hj. revert i j Hij Hj.
  induction Hs as [|k ks Hs IH Hk]; intros i j Hij Hj; simpl in *; [lia|].
  replace (Z.to_nat j) with (S (Z.to_nat (j - 1))) by lia. simpl.
  destruct (decide (i = 0)) as [->|].
  - simpl. destruct (lookup_lt_is_Some_2 ks (Z.to_nat (j - 1))) as [x Hx]; [lia|]. rewrite Hx. simpl.
    rewrite Forall_forall in Hk. apply Hk. by eapply list_elem_of_lookup_2.
  - replace (Z.to_nat i) with (S (Z.to_nat (i - 1))) by lia. simpl. apply IH; lia.
Qed.
Lemma key_at_lookup ks i : 0 ≤ i < zlen ks → ks !! Z.to_nat i = Some (key_at ks i).
Proof.
  unfold key_at, zlen. intros. destruct (lookup_lt_is_Some_2 ks (Z.to_nat i)) as [x Hx]; [lia|]. by rewrite Hx.
Qed.
Lemma elem_of_key_at ks k : k ∈ ks ↔ ∃ i, 0 ≤ i < zlen ks ∧ key_at ks i = k.
Proof.
  split.
  - intros [i Hi]%list_elem_of_lookup. exists (Z.of_nat i). unfold key_at, zlen.
    rewrite Nat2Z.id, Hi. apply lookup_lt_Some in Hi. split; [lia|done].
  - intros (i & Hi & <-). eapply list_elem_of_lookup_2. by apply key_at_lookup.
Qed.

(** Where [t] belongs in a sorted list: everything before is smaller,
    everything from there on is greater ([strict]) or, for [upper_at], what is
    before is at most [t]. *)
Definition insert_at (ks : list Z) (t l : Z) : Prop :=
  0 ≤ l ≤ zlen ks ∧ (∀ i, 0 ≤ i < l → key_at ks i < t) ∧ (∀ i, l ≤ i < zlen ks → t < key_at ks i).
Definition upper_at (ks : list Z) (t l : Z) : Prop :=
  0 ≤ l ≤ zlen ks ∧ (∀ i, 0 ≤ i < l → key_at ks i ≤ t) ∧ (∀ i, l ≤ i < zlen ks → t < key_at ks i).

Lemma bsearch_exact {A} (p : Z → res (probe A)) (f : Z → A) ks t :
  StronglySorted Z.lt ks →
  (∀ i, 0 ≤ i < zlen ks →
    p i = Ok (if key_at ks i =? t then PFound (f i) else if key_at ks i <? t then PRight else PLeft)) →
  (∃ i, 0 ≤ i < zlen ks ∧ key_at ks i = t ∧ bsearch (S (Z.to_nat (zlen ks))) p 0 (zlen ks) = Ok (inl (f i))) ∨
  (∃ l, (t ∉ ks) ∧ insert_at ks t l ∧ bsearch (S (Z.to_nat (zlen ks))) p 0 (zlen ks) = Ok (inr l)).
Proof.
  intros Hs Hp. pose proof (zlen_nonneg ks).
  set (c := λ i, if key_at ks i =? t then PFound (f i) else if key_at ks i <? t then PRight else PLeft).
  assert (∀ i, c i = PRight ↔ key_at ks i < t) as HR.
  { intros i. unfold c. destruct (Z.eqb_spec (key_at ks i) t), (Z.ltb_spec (key_at ks i) t); naive_solver lia. }
  assert (∀ i, c i = PLeft ↔ t < key_at ks i) as HL.
  { intros i. unfold c. destruct (Z.eqb_spec (key_at ks i) t), (Z.ltb_spec (key_at ks i) t); naive_solver lia. }
  assert (∀ i j, 0 ≤ i ≤ j → j < zlen ks → key_at ks i ≤ key_at ks j) as Hmono.
  { intros i j ? ?. destruct (decide (i = j)) as [->|]; [lia|]. pose proof (sorted_key_lt ks i j Hs). lia. }
  destruct (bsearch_spec p c (zlen ks) Hp) with (fuel := S (Z.to_nat (zlen ks))) (lo := 0) (hi := zlen ks)
    as [(i & a & Hi & Hc & Hb)|(l & Hl & Hr & Hle & Hb)]; try lia.
  - intros i j Hij Hj. rewrite !HR. specialize (Hmono i j Hij Hj). lia.
  - intros i j Hij Hj. rewrite !HL. specialize (Hmono i j Hij Hj). lia.
  - left. exists i. unfold c in Hc. destruct (Z.eqb_spec (key_at ks i) t); [|by destruct (_ <? _)].
    by injection Hc as <-.
  - right. exists l. setoid_rewrite HR in Hr. setoid_rewrite HL in Hle. split_and!; try done.
    rewrite elem_of_key_at. intros (i & Hi & Hk). destruct (decide (i < l)).
    + specialize (Hr i). lia.
    + specialize (Hle i). lia.
Qed.
Lemma bsearch_upper (p : Z → res (probe unit)) ks t :
  StronglySorted Z.lt ks →
  (∀ i, 0 ≤ i < zlen ks → p i = Ok (if t <? key_at ks i then PLeft else PRight)) →
  ∃ l, upper_at ks t l ∧ bsearch (S (Z.to_nat (zlen ks))) p 0 (zlen ks) = Ok (inr l).
Proof.
  intros Hs Hp. pose proof (zlen_nonneg ks).
  set (c := λ i, if t <? key_at ks i then @PLeft unit else PRight).
  assert (∀ i j, 0 ≤ i ≤ j → j < zlen ks → key_at ks i ≤ key_at ks j) as Hmono.
  { intros i j ? ?. destruct (decide (i = j)) as [->|]; [lia|]. pose proof (sorted_key_lt ks i j Hs). lia. }
  assert (∀ i, c i = PRight ↔ key_at ks i ≤ t) as HR.
  { intros i. unfold c. destruct (Z.ltb_spec t (key_at ks i)); naive_solver lia. }
  assert (∀ i, c i = PLeft ↔ t < key_at ks i) as HL.
  { intros i. unfold c. destruct (Z.ltb_spec t (key_at ks i)); naive_solver lia. }
  destruct (bsearch_spec p c (zlen ks) Hp) with (fuel := S (Z.to_nat (zlen ks))) (lo := 0) (hi := zlen ks)
    as [(i & a & Hi & Hc & Hb)|(l & Hl & Hr & Hle & Hb)]; try lia.
  - intros i j Hij Hj. rewrite !HR. specialize (Hmono i j Hij Hj). lia.
  - intros i j Hij Hj. rewrite !HL. specialize (Hmono i j Hij Hj). lia.
  - unfold c in Hc. by destruct (_ <? _).
  - exists l. setoid_rewrite HR in Hr. setoid_rewrite HL in Hle. split; [split_and!; done || lia|done].
Qed.

(** ** Lemmas: slotted pages *)

Lemma FOP_insert {A} (R : A → A → Prop) l1 x l2 :
  ForallOrdPairs R (l1 ++ l2) → Forall (λ y, R x y ∧ R y x) (l1 ++ l2) → ForallOrdPairs R (l1 ++ x :: l2).
Proof.
  induction l1 as [|y l1 IH]; simpl; intros HF Hx.
  - constructor; [|done]. eapply Forall_impl; [exact Hx|naive_solver].
  - inversion HF as [|? ? Hy HF']; subst. apply Forall_cons in Hx as [[Hxy Hyx] Hx]. constructor; [|auto].
    apply Forall_app in Hy as [? ?]. apply Forall_app_2; [done|]. by constructor.
Qed.
Lemma FOP_remove {A} (R : A → A → Prop) l1 x l2 :
  ForallOrdPairs R (l1 ++ x :: l2) → ForallOrdPairs R (l1 ++ l2).
Proof.
  induction l1 as [|y l1 IH]; simpl; inversion 1; subst; [done|]. constructor; [|auto].
  rewrite Forall_app, Forall_cons in *. naive_solver.
Qed.
Lemma FOP_lookup {A} (R : A → A → Prop) l i j x y :
  ForallOrdPairs R l → l !! i = Some x → l !! j = Some y → (i < j)%nat → R x y.
Proof.
  intros HF. revert i j. induction HF as [|z l Hz HF IH]; intros i j Hi Hj Hij; [done|].
  destruct i, j; simpl in *; try lia.
  - simplify_eq. rewrite Forall_forall in Hz. apply Hz. by eapply list_elem_of_lookup_2.
  - eapply (IH i j); eauto. lia.
Qed.

Lemma FOP_update {A} (R : A → A → Prop) l i x y :
  ForallOrdPairs R l → l !! i = Some x → (∀ z, R x z → R y z) → (∀ z, R z x → R z y) →
  ForallOrdPairs R (<[i := y]> l).
Proof.
  intros HF. revert i. induction HF as [|z l Hz HF IH]; intros [|i] Hi H1 H2; simpl in *; simplify_eq.
  - constructor; [|done]. by eapply Forall_impl; [exact Hz|].
  - constructor; [|auto]. apply Forall_insert; [done|]. apply H2.
    by apply (Forall_lookup_1 _ _ _ _ Hz Hi).
Qed.

Lemma take_drop_lookup {A} (l : list A) i x :
  l !! i = Some x → l = take i l ++ x :: drop (S i) l.
Proof. intros Hx. by rewrite <- (take_drop_middle l i x Hx) at 1. Qed.

(** Reading beside the last write. *)
Ltac skip_write := rewrite sub_splice_disjoint by (rewrite ?zlen_le_bytes; lia).

Section Slotted.
Context `{PageSize}.

(** Two cells, given with their offsets, do not overlap. *)
Definition apart (x y : Z * bytes) : Prop := x.1 + zlen x.2 ≤ y.1 ∨ y.1 + zlen y.2 ≤ x.1.

(** A page with [hdr] bytes of header whose pointer array lists the cells
    [cs], given with their offsets, in the content area from [cco]. *)
Record slotted (hdr : Z) (d : bytes) (cco : Z) (cs : list (Z * bytes)) : Prop := {
  sl_page : page_ok d;
  sl_count : sub d 1 2 = le_bytes 2 (zlen cs);
  sl_cco : sub d 3 2 = le_bytes 2 cco;
  sl_room : hdr + zlen cs * 2 ≤ cco ≤ PAGE_SIZE;
  sl_ptrs : sub d hdr (zlen cs * 2) = concat (map (λ c, le_bytes 2 c.1) cs);
  sl_cells : Forall (λ c, cco ≤ c.1 ∧ 12 ≤ zlen c.2 ∧ c.1 + zlen c.2 ≤ PAGE_SIZE ∧ sub d c.1 (zlen c.2) = c.2) cs;
  sl_apart : ForallOrdPairs apart cs;
  sl_used : zsum (map (λ c, zlen c.2) cs) ≤ PAGE_SIZE - cco
}.
(** The header outside the count and the content offset. *)
Definition header_same (hdr : Z) (d d' : bytes) : Prop :=
  sub d' 0 1 = sub d 0 1 ∧ sub d' 5 (hdr - 5) = sub d 5 (hdr - 5).

Context (hdr : Z) (Hhdr : 10 ≤ hdr ≤ 14).
Implicit Types (d : bytes) (cs : list (Z * bytes)).

Lemma zlen_ptrs cs : zlen (concat (map (λ c : Z * bytes, le_bytes 2 c.1) cs)) = zlen cs * 2.
Proof. induction cs as [|c cs IH]; [done|]. cbn [map concat]. rewrite zlen_app, zlen_cons, zlen_le_bytes, IH. lia. Qed.
Lemma ptrs_app cs cs' :
  concat (map (λ c : Z * bytes, le_bytes 2 c.1) (cs ++ cs')) =
  concat (map (λ c, le_bytes 2 c.1) cs) ++ concat (map (λ c, le_bytes 2 c.1) cs').
Proof. by rewrite map_app, concat_app. Qed.

Lemma slotted_read_count d cco cs : slotted hdr d cco cs → read_u16 d 1 = Ok (zlen cs).
Proof.
  intros [[Hl Hb] Hc Ho Hr _ _ _ _]. pose proof PAGE_SIZE_bounds. pose proof (zlen_nonneg cs).
  rewrite (read_u16_sub d 1 (zlen cs)) by (done || lia). by rewrite as_u16_id by int_lia.
Qed.
Lemma slotted_read_cco d cco cs : slotted hdr d cco cs → u16_to_page_size <$> read_u16 d 3 = Ok cco.
Proof.
  intros [[Hl Hb] Hc Ho Hr _ _ _ _]. pose proof PAGE_SIZE_bounds. pose proof (zlen_nonneg cs).
  rewrite (read_u16_sub d 3 cco) by (done || lia). simpl. by rewrite u16_to_page_size_as_u16 by lia.
Qed.
Lemma slotted_cell d cco cs i o c :
  slotted hdr d cco cs → cs !! i = Some (o, c) →
  cco ≤ o ∧ 12 ≤ zlen c ∧ o + zlen c ≤ PAGE_SIZE ∧ sub d o (zlen c) = c.
Proof. intros Hs Hi. by apply (Forall_lookup_1 _ _ _ _ (sl_cells _ _ _ _ Hs) Hi). Qed.
Lemma slotted_read_ptr d cco cs i o c :
  slotted hdr d cco cs → cs !! i = Some (o, c) → read_u16 d (hdr + Z.of_nat i * 2) = Ok o.
Proof.
  intros Hs Hi. pose proof (slotted_cell _ _ _ _ _ _ Hs Hi) as (? & ? & ? & _).
  destruct Hs as [[Hl Hb] _ _ Hr Hp _ _ _]. pose proof PAGE_SIZE_bounds.
  pose proof (lookup_lt_Some _ _ _ Hi). unfold zlen in Hr.
  rewrite (read_u16_sub d _ o); [by rewrite as_u16_id by int_lia|lia|lia|].
  assert (sub (sub d hdr (zlen cs * 2)) (Z.of_nat i * 2) 2 = le_bytes 2 o) as Hx.
  2: { by rewrite sub_sub in Hx by (unfold zlen; lia). }
  rewrite Hp, (take_drop_lookup cs i (o, c) Hi), ptrs_app. cbn [map concat fst].
  assert (zlen (concat (map (λ c, le_bytes 2 c.1) (take i cs))) = Z.of_nat i * 2) as Ht.
  { rewrite zlen_ptrs. unfold zlen. rewrite length_take. lia. }
  rewrite sub_app_r by lia. rewrite Ht, Z.sub_diag, sub_app_l by (rewrite ?zlen_le_bytes; lia).
  by rewrite sub_all by (rewrite zlen_le_bytes; lia).
Qed.
(** A window inside a cell. *)
Lemma slotted_sub d cco cs i o c k n :
  slotted hdr d cco cs → cs !! i = Some (o, c) → 0 ≤ k → 0 ≤ n → k + n ≤ zlen c →
  sub d (o + k) n = sub c k n.
Proof.
  intros Hs Hi ???. pose proof (slotted_cell _ _ _ _ _ _ Hs Hi) as (? & ? & ? & Hc).
  pose proof (sl_room _ _ _ _ Hs). pose proof (zlen_nonneg cs).
  transitivity (sub (sub d o (zlen c)) k n); [by rewrite sub_sub by lia|by rewrite Hc].
Qed.

(** The writes every insertion ends with. *)
Definition slot_insert (ptr_base idx count : Z) (new_offset : Z) (cell : bytes) : ST bytes unit :=
  put_bytes new_offset cell ≫= λ _,
  shift_pointers_right ptr_base idx count ≫= λ _,
  put_u16 (ptr_base + idx * 2) (as_u16 new_offset) ≫= λ _,
  put_u16 (0 + 1) (as_u16 (count + 1)) ≫= λ _,
  put_u16 (0 + 3) (as_u16 new_offset).

Lemma le_bytes_2_as_u16 x : le_bytes 2 (as_u16 x) = le_bytes 2 x.
Proof.
  unfold as_u16. cbn [le_bytes]. f_equal; [|f_equal]; Z.to_euclidean_division_equations; lia.
Qed.

(** The page image after an insertion, as block writes. *)
Definition inserted (d : bytes) (idx count new_offset : Z) (cell : bytes) : bytes :=
  let d1 := splice d new_offset cell in
  let d2 := splice d1 (hdr + idx * 2 + 2) (sub d1 (hdr + idx * 2) ((count - idx) * 2)) in
  let d3 := splice d2 (hdr + idx * 2) (le_bytes 2 (as_u16 new_offset)) in
  let d4 := splice d3 1 (le_bytes 2 (as_u16 (count + 1))) in
  splice d4 3 (le_bytes 2 (as_u16 new_offset)).

Lemma slot_insert_Ok d cco cs idx cell :
  slotted hdr d cco cs → bytes_ok cell → 0 ≤ idx ≤ zlen cs →
  hdr + zlen cs * 2 + 2 ≤ cco - zlen cell →
  slot_insert hdr idx (zlen cs) (cco - zlen cell) cell d =
    (Ok tt, inserted d idx (zlen cs) (cco - zlen cell) cell) ∧
  page_ok (inserted d idx (zlen cs) (cco - zlen cell) cell).
Proof.
  intros [[Hl Hb] _ _ Hr _ _ _ _] Hc Hi Hroom. pose proof PAGE_SIZE_bounds.
  pose proof (zlen_nonneg cell). unfold slot_insert, inserted. cbv zeta.
  set (d1 := splice d _ cell).
  assert (page_ok d1) as [Hl1 Hb1]. { split; [|by apply splice_ok]. unfold d1. rewrite length_splice; lia. }
  erewrite ST_bind_Ok by (apply put_bytes_Ok; lia). fold d1.
  erewrite ST_bind_Ok by (apply shift_pointers_right_Ok; done || lia).
  set (d2 := splice d1 _ _).
  assert (page_ok d2) as [Hl2 Hb2].
  { split; [|apply splice_ok; auto with kkdb]. unfold d2. rewrite length_splice; rewrite ?length_sub; lia. }
  erewrite ST_bind_Ok by (apply put_u16_Ok; lia). set (d3 := splice d2 _ _).
  assert (page_ok d3) as [Hl3 Hb3].
  { split; [|apply splice_ok; auto with kkdb]. unfold d3. rewrite length_splice; rewrite ?zlen_le_bytes; lia. }
  erewrite ST_bind_Ok by (apply put_u16_Ok; lia). set (d4 := splice d3 _ _).
  assert (page_ok d4) as [Hl4 Hb4].
  { split; [|apply splice_ok; auto with kkdb]. unfold d4. rewrite length_splice; rewrite ?zlen_le_bytes; lia. }
  rewrite (put_u16_Ok (0 + 3)) by lia. split; [done|].
  split; [rewrite length_splice; rewrite ?zlen_le_bytes; lia|]. apply splice_ok; auto with kkdb.
Qed.

(** What the image after an insertion holds, window by window. *)
Lemma inserted_sub d cco cs idx cell (d' := inserted d idx (zlen cs) (cco - zlen cell) cell) :
  slotted hdr d cco cs → bytes_ok cell → 0 ≤ idx ≤ zlen cs →
  hdr + zlen cs * 2 + 2 ≤ cco - zlen cell →
  sub d' 1 2 = le_bytes 2 (zlen cs + 1) ∧ sub d' 3 2 = le_bytes 2 (cco - zlen cell) ∧
  header_same hdr d d' ∧
  sub d' hdr (idx * 2) = sub d hdr (idx * 2) ∧
  sub d' (hdr + idx * 2) 2 = le_bytes 2 (cco - zlen cell) ∧
  sub d' (hdr + idx * 2 + 2) ((zlen cs - idx) * 2) = sub d (hdr + idx * 2) ((zlen cs - idx) * 2) ∧
  sub d' (cco - zlen cell) (zlen cell) = cell ∧
  (∀ o n, cco ≤ o → 0 ≤ n → o + n ≤ PAGE_SIZE → sub d' o n = sub d o n).
Proof.
  intros [[Hl Hb] _ _ Hr _ _ _ _] Hc Hi Hroom. pose proof PAGE_SIZE_bounds. pose proof (zlen_nonneg cell).
  pose proof (zlen_nonneg cs). unfold d', inserted, header_same. cbv zeta. rewrite !le_bytes_2_as_u16.
  set (d1 := splice d _ cell).
  assert (zlen d1 = PAGE_SIZE) as Hl1 by (unfold d1; rewrite length_splice; lia).
  set (m := sub d1 _ _).
  assert (zlen m = (zlen cs - idx) * 2) as Hm by (unfold m; rewrite length_sub; lia).
  set (d2 := splice d1 _ m).
  assert (zlen d2 = PAGE_SIZE) as Hl2 by (unfold d2; rewrite length_splice; lia).
  set (d3 := splice d2 _ _).
  assert (zlen d3 = PAGE_SIZE) as Hl3 by (unfold d3; rewrite length_splice; rewrite ?zlen_le_bytes; lia).
  set (d4 := splice d3 _ _).
  assert (zlen d4 = PAGE_SIZE) as Hl4 by (unfold d4; rewrite length_splice; rewrite ?zlen_le_bytes; lia).
  split_and!.
  - skip_write. apply (sub_splice_eq d3 1 (le_bytes 2 _)); rewrite ?zlen_le_bytes; lia.
  - apply (sub_splice_eq d4 3 (le_bytes 2 _)); rewrite ?zlen_le_bytes; lia.
  - skip_write. unfold d4. skip_write. unfold d3. skip_write. unfold d2. skip_write. unfold d1. by skip_write.
  - skip_write. unfold d4. skip_write. unfold d3. skip_write. unfold d2. skip_write. unfold d1. by skip_write.
  - skip_write. unfold d4. skip_write. unfold d3. skip_write. unfold d2. skip_write. unfold d1. by skip_write.
  - skip_write. unfold d4. skip_write. apply (sub_splice_eq d2 _ (le_bytes 2 _)); rewrite ?zlen_le_bytes; lia.
  - skip_write. unfold d4. skip_write. unfold d3. skip_write. unfold d2.
    etransitivity; [rewrite <- Hm; apply sub_splice_eq; lia|]. unfold m, d1. by skip_write.
  - skip_write. unfold d4. skip_write. unfold d3. skip_write. unfold d2. skip_write. apply sub_splice_eq; lia.
  - intros o n Ho Hn Hon.
    skip_write. unfold d4. skip_write. unfold d3. skip_write. unfold d2. skip_write. unfold d1. by skip_write.
Qed.

Definition list_insert_at {A} (idx : Z) (x : A) (l : list A) : list A :=
  take (Z.to_nat idx) l ++ x :: drop (Z.to_nat idx) l.

Lemma zlen_list_insert_at {A} idx (x : A) l : zlen (list_insert_at idx x l) = zlen l + 1.
Proof. unfold list_insert_at, zlen. rewrite length_app. simpl. rewrite length_take, length_drop. lia. Qed.

Lemma slotted_inserted d cco cs idx cell :
  slotted hdr d cco cs → bytes_ok cell → 12 ≤ zlen cell → 0 ≤ idx ≤ zlen cs →
  hdr + zlen cs * 2 + 2 ≤ cco - zlen cell →
  slotted hdr (inserted d idx (zlen cs) (cco - zlen cell) cell) (cco - zlen cell)
    (list_insert_at idx (cco - zlen cell, cell) cs).
Proof.
  intros Hs Hc Hlen Hi Hroom.
  destruct (inserted_sub d cco cs idx cell Hs Hc Hi Hroom) as (H1 & H2 & _ & H4 & H5 & H6 & H7 & H8).
  destruct (slot_insert_Ok d cco cs idx cell Hs Hc Hi Hroom) as [_ Hpage].
  set (d' := inserted _ _ _ _ _) in *. pose proof PAGE_SIZE_bounds.
  destruct Hs as [[Hl Hb] Hcount Hcco Hr Hp Hcells Hap Hused].
  split; rewrite ?zlen_list_insert_at; try done || lia.
  - replace ((zlen cs + 1) * 2) with (idx * 2 + (2 + (zlen cs - idx) * 2)) by lia.
    rewrite sub_split, sub_split by (rewrite ?(proj1 Hpage); lia). rewrite H4, H5, H6.
    unfold list_insert_at. rewrite ptrs_app. cbn [map concat fst].
    assert (sub d hdr (zlen cs * 2) =
      concat (map (λ c, le_bytes 2 c.1) (take (Z.to_nat idx) cs)) ++
      concat (map (λ c, le_bytes 2 c.1) (drop (Z.to_nat idx) cs))) as Hp'.
    { by rewrite Hp, <- ptrs_app, take_drop. }
    replace (zlen cs * 2) with (idx * 2 + (zlen cs - idx) * 2) in Hp' by lia.
    rewrite sub_split in Hp' by lia.
    apply app_inj_1 in Hp' as [-> ->]; [done|].
    apply Nat2Z.inj. change (zlen (sub d hdr (idx * 2)) = zlen (concat (map (λ c, le_bytes 2 c.1) (take (Z.to_nat idx) cs)))).
    rewrite zlen_ptrs, length_sub by lia. unfold zlen in *. rewrite length_take. lia.
  - apply Forall_app_2; [|constructor].
    + apply Forall_take. eapply Forall_impl; [exact Hcells|]. intros [o c]; simpl. intros (?&?&?&Hsub).
      split_and!; try lia. by rewrite H8 by lia.
    + simpl. split_and!; done || lia.
    + apply Forall_drop. eapply Forall_impl; [exact Hcells|]. intros [o c]; simpl. intros (?&?&?&Hsub).
      split_and!; try lia. by rewrite H8 by lia.
  - apply FOP_insert; rewrite take_drop; [done|].
    eapply Forall_impl; [exact Hcells|]. intros [o c]; unfold apart; simpl. lia.
  - unfold list_insert_at. rewrite <- (take_drop (Z.to_nat idx) cs) in Hused.
    rewrite map_app, zsum_app in *. cbn [map zsum foldr snd]. unfold zsum in *. lia.
Qed.

Definition list_remove_at {A} (idx : Z) (l : list A) : list A :=
  take (Z.to_nat idx) l ++ drop (S (Z.to_nat idx)) l.
Lemma zlen_list_remove_at {A} idx (l : list A) :
  0 ≤ idx < zlen l → zlen (list_remove_at idx l) = zlen l - 1.
Proof. unfold list_remove_at, zlen. rewrite length_app, length_take, length_drop. lia. Qed.

(** The page image after a deletion: the pointers behind the cell move down. *)
Definition removed (d : bytes) (idx count : Z) : bytes :=
  splice (splice d (hdr + idx * 2) (sub d (hdr + idx * 2 + 2) ((count - 1 - idx) * 2)))
    1 (le_bytes 2 (as_u16 (count - 1))).

Lemma slotted_removed d cco cs idx :
  slotted hdr d cco cs → 0 ≤ idx < zlen cs →
  (shift_pointers_left hdr idx (zlen cs) ≫= λ _, put_u16 (0 + 1) (as_u16 (zlen cs - 1))) d =
    (Ok tt, removed d idx (zlen cs)) ∧
  slotted hdr (removed d idx (zlen cs)) cco (list_remove_at idx cs) ∧
  header_same hdr d (removed d idx (zlen cs)).
Proof.
  intros [[Hl Hb] Hcount Hcco Hr Hp Hcells Hap Hused] Hi. pose proof PAGE_SIZE_bounds.
  unfold removed. set (m := sub d (hdr + idx * 2 + 2) _).
  assert (zlen m = (zlen cs - 1 - idx) * 2) as Hm by (unfold m; rewrite length_sub; lia).
  set (d1 := splice d _ m).
  assert (zlen d1 = PAGE_SIZE) as Hl1 by (unfold d1; rewrite length_splice; lia).
  split; [|split].
  - erewrite ST_bind_Ok by (apply shift_pointers_left_Ok; done || lia). fold m d1.
    by rewrite (put_u16_Ok (0 + 1)) by lia.
  - assert (∀ o n, cco ≤ o → 0 ≤ n → o + n ≤ PAGE_SIZE →
      sub (splice d1 1 (le_bytes 2 (as_u16 (zlen cs - 1)))) o n = sub d o n) as Hsame.
    { intros o n ? ? ?. skip_write. unfold d1. by skip_write. }
    split; rewrite ?zlen_list_remove_at by done; try lia.
    + split; [rewrite length_splice; rewrite ?zlen_le_bytes; lia|]. subst d1 m. auto 6 with kkdb.
    + rewrite le_bytes_2_as_u16. apply (sub_splice_eq d1 1 (le_bytes 2 _)); rewrite ?zlen_le_bytes; lia.
    + skip_write. unfold d1. by skip_write.
    + replace ((zlen cs - 1) * 2) with (idx * 2 + (zlen cs - 1 - idx) * 2) by lia.
      assert (zlen (splice d1 1 (le_bytes 2 (as_u16 (zlen cs - 1)))) = PAGE_SIZE) as Hl2
        by (rewrite length_splice; rewrite ?zlen_le_bytes; lia).
      rewrite sub_split by lia. do 2 skip_write. unfold d1. rewrite sub_splice_before by lia.
      rewrite <- Hm at 1. rewrite sub_splice_eq by lia. unfold m, list_remove_at. rewrite ptrs_app.
      destruct (lookup_lt_is_Some_2 cs (Z.to_nat idx)) as [c Hc]; [unfold zlen in *; lia|].
      assert (sub d hdr (zlen cs * 2) = concat (map (λ c, le_bytes 2 c.1) (take (Z.to_nat idx) cs)) ++
        le_bytes 2 c.1 ++ concat (map (λ c, le_bytes 2 c.1) (drop (S (Z.to_nat idx)) cs))) as Hp'.
      { rewrite Hp. rewrite (take_drop_lookup cs _ c Hc) at 1. by rewrite ptrs_app. }
      replace (zlen cs * 2) with (idx * 2 + (2 + (zlen cs - 1 - idx) * 2)) in Hp' by lia.
      rewrite sub_split, sub_split in Hp' by lia.
      apply app_inj_1 in Hp' as [-> Hp'].
      * apply app_inj_1 in Hp' as [_ ->]; [done|]. apply Nat2Z.inj.
        change (zlen (sub d (hdr + idx * 2) 2) = zlen (le_bytes 2 c.1)). rewrite length_sub, zlen_le_bytes; lia.
      * apply Nat2Z.inj. change (zlen (sub d hdr (idx * 2)) = zlen (concat (map (λ c, le_bytes 2 c.1) (take (Z.to_nat idx) cs)))).
        rewrite zlen_ptrs, length_sub by lia. unfold zlen in *. rewrite length_take. lia.
    + assert (Forall (λ c : Z * bytes, cco ≤ c.1 ∧ 12 ≤ zlen c.2 ∧ c.1 + zlen c.2 ≤ PAGE_SIZE ∧
        sub (splice d1 1 (le_bytes 2 (as_u16 (zlen cs - 1)))) c.1 (zlen c.2) = c.2) cs) as HF.
      { eapply Forall_impl; [exact Hcells|]. intros [o c]; simpl. intros (?&?&?&Hsub).
        split_and!; try lia. by rewrite Hsame by lia. }
      apply Forall_app_2; [by apply Forall_take|by apply Forall_drop].
    + destruct (lookup_lt_is_Some_2 cs (Z.to_nat idx)) as [c Hc]; [unfold zlen in *; lia|].
      rewrite (take_drop_lookup cs _ c Hc) in Hap. by apply FOP_remove in Hap.
    + destruct (lookup_lt_is_Some_2 cs (Z.to_nat idx)) as [c Hc]; [unfold zlen in *; lia|].
      rewrite (take_drop_lookup cs _ c Hc) in Hused. unfold list_remove_at.
      rewrite map_app, zsum_app in *. cbn [map zsum foldr snd] in Hused. unfold zsum in *.
      pose proof (zlen_nonneg c.2). lia.
  - unfold header_same. split; (skip_write; unfold d1; by skip_write).
Qed.

(** Overwriting a cell in place with one of the same length. *)
Lemma slotted_overwrite d cco cs i o c k bs :
  slotted hdr d cco cs → cs !! i = Some (o, c) → bytes_ok bs → 0 ≤ k → k + zlen bs ≤ zlen c →
  slotted hdr (splice d (o + k) bs) cco (<[i := (o, splice c k bs)]> cs) ∧
  header_same hdr d (splice d (o + k) bs).
Proof.
  intros Hs Hi Hbs Hk Hkl. pose proof (slotted_cell _ _ _ _ _ _ Hs Hi) as (Ho & H12 & Hend & Hc).
  destruct Hs as [[Hl Hb] Hcount Hcco Hr Hp Hcells Hap Hused]. pose proof PAGE_SIZE_bounds.
  pose proof (zlen_nonneg bs). pose proof (zlen_nonneg cs).
  assert (zlen (splice c k bs) = zlen c) as Hlc by (apply length_splice; lia).
  split; [|unfold header_same; split; by skip_write].
  assert (zlen (<[i:=(o, splice c k bs)]> cs) = zlen cs) as Hlen by (unfold zlen; by rewrite length_insert).
  split; rewrite ?Hlen; try done || lia.
  - split; [rewrite length_splice; lia|auto with kkdb].
  - by skip_write.
  - by skip_write.
  - skip_write. rewrite Hp. f_equal. apply list_eq. intros j. rewrite !list_lookup_fmap.
    destruct (decide (i = j)) as [<-|]; [|by rewrite list_lookup_insert_ne].
    rewrite list_lookup_insert_eq by (by eapply lookup_lt_Some). by rewrite Hi.
  - apply Forall_lookup_2. intros j [o' c'] Hj. destruct (decide (i = j)) as [<-|Hij].
    + rewrite list_lookup_insert_eq in Hj by (by eapply lookup_lt_Some). injection Hj as <- <-. simpl.
      rewrite Hlc. split_and!; try lia. rewrite <- Hc at 2. by apply sub_splice_inside; lia.
    + rewrite list_lookup_insert_ne in Hj by done.
      destruct (Forall_lookup_1 _ _ _ _ Hcells Hj) as (?&?&?&Hsub). simpl in *. split_and!; try lia.
      assert (apart (o, c) (o', c')) as Hapart.
      { destruct (decide (i < j)%nat); [by eapply FOP_lookup|].
        assert (apart (o', c') (o, c)) by (eapply FOP_lookup; [done..|lia]). unfold apart in *. lia. }
      unfold apart in Hapart. simpl in *. by skip_write.
  - eapply FOP_update; [done|exact Hi|..]; intros [o' c']; unfold apart; simpl; lia.
  - etransitivity; [|exact Hused]. apply Z.eq_le_incl. f_equal. apply list_eq. intros j.
    rewrite !list_lookup_fmap. destruct (decide (i = j)) as [<-|]; [|by rewrite list_lookup_insert_ne].
    rewrite list_lookup_insert_eq, Hi by (by eapply lookup_lt_Some). simpl. by rewrite Hlc.
Qed.
End Slotted.
