(* ===== verification/BTreeNode.v ===== *)
(** B-tree nodes: which sorted cells a leaf or interior page holds, and what
    the page operations of BTreePage.v do to them.

    [leaf_ok d cco cs] says that the page image [d] is a leaf holding the cells
    [cs] (with their offsets) in increasing rowid order; [interior_ok] is the
    same for interior pages with their children and keys.  The theorems show
    that inserting into a page is sorted insertion, with duplicates refused
    and the page unchanged, that the two in-place insertion routines write
    exactly the page the generic one writes, that deletion removes exactly the
    row, and that the searches find what is there. *)
From S2P Require Import Prelude PagerIface BTreePage.

(** ** Cells *)

Inductive cell : Type :=
  | CInline (rowid : Z) (payload : bytes)
  | COverflow (rowid total first : Z).
Definition cell_rowid (c : cell) : Z :=
  match c with CInline r _ => r | COverflow r _ _ => r end.
Definition cell_bytes (c : cell) : bytes :=
  match c with
  | CInline r p => make_leaf_cell r p
  | COverflow r t f => make_overflow_cell r t f
  end.
(** The size field of a cell. *)
Definition cell_raw_size (c : cell) : Z :=
  match c with CInline _ p => zlen p | COverflow _ _ _ => OVERFLOW_FLAG end.
Definition cell_ok (c : cell) : Prop :=
  match c with
  | CInline r p => is_i64 r ∧ bytes_ok p ∧ zlen p < 2 ^ 31
  | COverflow r t f => is_i64 r ∧ is_u32 t ∧ is_u32 f
  end.

Lemma cell_ok_rowid c : cell_ok c → is_i64 (cell_rowid c).
Proof. destruct c; simpl; naive_solver. Qed.
Lemma cell_bytes_ok c : cell_ok c → bytes_ok (cell_bytes c).
Proof.
  destruct c; simpl; intros Hc; unfold make_leaf_cell, make_overflow_cell;
    repeat apply Forall_app_2; try apply le_bytes_ok; apply Hc.
Qed.
Lemma cell_bytes_len c :
  zlen (cell_bytes c) = match c with CInline _ p => 12 + zlen p | COverflow _ _ _ => 20 end.
Proof.
  destruct c; simpl; unfold make_leaf_cell, make_overflow_cell;
    rewrite !zlen_app, !zlen_le_bytes; lia.
Qed.
Lemma cell_bytes_len_ge c : 12 ≤ zlen (cell_bytes c).
Proof. rewrite cell_bytes_len. destruct c as [r p|]; [pose proof (zlen_nonneg p)|]; lia. Qed.
Lemma cell_bytes_rowid c : sub (cell_bytes c) 4 8 = le_bytes 8 (cell_rowid c).
Proof.
  destruct c; cbn [cell_bytes cell_rowid]; unfold make_leaf_cell, make_overflow_cell;
    rewrite sub_app_r by (rewrite ?zlen_le_bytes; lia); rewrite zlen_le_bytes, Z.sub_diag;
    rewrite sub_app_l by (rewrite ?zlen_le_bytes; lia);
    by rewrite sub_all by (rewrite ?zlen_le_bytes; lia).
Qed.
Lemma cell_bytes_size c : cell_ok c → sub (cell_bytes c) 0 4 = le_bytes 4 (cell_raw_size c).
Proof.
  destruct c as [r p|]; cbn [cell_bytes cell_ok cell_raw_size]; intros Hc; unfold make_leaf_cell, make_overflow_cell;
    rewrite sub_app_l, sub_all by (rewrite ?zlen_le_bytes; lia); [|done].
  pose proof (zlen_nonneg p). by rewrite as_u32_id by (destruct Hc as (_&_&?); int_lia).
Qed.
Lemma cell_raw_size_range c : cell_ok c → is_u32 (cell_raw_size c).
Proof. destruct c as [r p|]; simpl; intros Hc; [pose proof (zlen_nonneg p)|]; unfold OVERFLOW_FLAG; int_lia. Qed.
Lemma cell_raw_size_flag c :
  cell_ok c → (Z.land (cell_raw_size c) OVERFLOW_FLAG =? 0) = match c with CInline _ _ => true | _ => false end.
Proof.
  destruct c as [r p|]; simpl; intros Hc; [|done]. apply Z.eqb_eq.
  pose proof (zlen_nonneg p). apply Z.bits_inj'. intros i Hi. rewrite Z.land_spec, Z.bits_0.
  change OVERFLOW_FLAG with (2 ^ 31). destruct (decide (i = 31)) as [->|].
  - apply andb_false_iff. left. apply Z.testbit_false; [lia|]. by rewrite Z.div_small by lia.
  - rewrite Z.pow2_bits_false by lia. by rewrite andb_false_r.
Qed.

(** Sorted insertion and removal, the reference for the page operations. *)
Definition put_cell (c : cell) (l : list cell) : list cell :=
  filter (λ x, cell_rowid x < cell_rowid c) l ++ c :: filter (λ x, cell_rowid c < cell_rowid x) l.
Definition del_cell (r : Z) (l : list cell) : list cell := filter (λ x, cell_rowid x ≠ r) l.
Definition rowids (l : list cell) : list Z := map cell_rowid l.
Definition sorted_cells (l : list cell) : Prop := StronglySorted Z.lt (rowids l).

Lemma zlen_map {A B} (f : A → B) l : zlen (map f l) = zlen l.
Proof. unfold zlen. by rewrite length_map. Qed.
Lemma key_at_rowids l i c :
  l !! Z.to_nat i = Some c → key_at (rowids l) i = cell_rowid c.
Proof. intros Hi. unfold key_at, rowids. by rewrite list_lookup_fmap, Hi. Qed.

Lemma filter_none {A} (P : A → Prop) `{!∀ x, Decision (P x)} (l : list A) :
  Forall (λ x, ¬ P x) l → filter P l = [].
Proof. induction 1 as [|x l Hx _ IH]; [done|]. by rewrite filter_cons_False. Qed.
Lemma filter_id {A} (P : A → Prop) `{!∀ x, Decision (P x)} (l : list A) :
  Forall P l → filter P l = l.
Proof. induction 1 as [|x l Hx _ IH]; [done|]. by rewrite filter_cons_True, IH. Qed.

(** Inserting where a search says the rowid belongs is sorted insertion. *)
Lemma put_cell_at c l idx :
  insert_at (rowids l) (cell_rowid c) idx → put_cell c l = list_insert_at idx c l.
Proof.
  intros (Hi & Hlt & Hgt). unfold put_cell, list_insert_at.
  assert (Forall (λ x, cell_rowid x < cell_rowid c) (take (Z.to_nat idx) l)) as Ht.
  { apply Forall_lookup_2. intros i x Hx. apply lookup_take_Some in Hx as [Hx Hlti].
    rewrite <- (key_at_rowids l (Z.of_nat i)) by (by rewrite Nat2Z.id). apply Hlt. lia. }
  assert (Forall (λ x, cell_rowid c < cell_rowid x) (drop (Z.to_nat idx) l)) as Hd.
  { apply Forall_lookup_2. intros i x Hx. rewrite lookup_drop in Hx.
    rewrite <- (key_at_rowids l (Z.of_nat (Z.to_nat idx + i)) x) by (by rewrite Nat2Z.id). apply Hgt.
    unfold rowids. rewrite zlen_map. apply lookup_lt_Some in Hx. unfold zlen. lia. }
  rewrite <- (take_drop (Z.to_nat idx) l) at 1 2. rewrite !filter_app.
  rewrite (filter_id (λ x, cell_rowid x < _) (take _ l)), (filter_id (λ x, _ < cell_rowid x) (drop _ l)) by done.
  rewrite (filter_none (λ x, cell_rowid x < _) (drop _ l)) by (eapply Forall_impl; [exact Hd|]; simpl; lia).
  rewrite (filter_none (λ x, _ < cell_rowid x) (take _ l)) by (eapply Forall_impl; [exact Ht|]; simpl; lia).
  by rewrite app_nil_r.
Qed.
Lemma sorted_filter_lt l P `{!∀ x : cell, Decision (P x)} : sorted_cells l → sorted_cells (filter P l).
Proof.
  unfold sorted_cells, rowids. induction l as [|x l IH]; intros Hs; [done|]. inversion Hs as [|? ? Hs' Hx]; subst.
  rewrite filter_cons. case_decide; [|exact (IH Hs')]. simpl. constructor; [exact (IH Hs')|].
  rewrite Forall_forall in Hx. apply Forall_fmap, Forall_forall. intros y [_ Hy]%list_elem_of_filter.
  by apply Hx, list_elem_of_fmap_2.
Qed.
Lemma sorted_cells_app l1 l2 :
  sorted_cells (l1 ++ l2) ↔
  sorted_cells l1 ∧ sorted_cells l2 ∧ ∀ x y, x ∈ l1 → y ∈ l2 → cell_rowid x < cell_rowid y.
Proof.
  unfold sorted_cells, rowids. rewrite map_app. induction l1 as [|x l1 IH]; simpl.
  - split; [|naive_solver]. intros; split_and!; [constructor|done|set_solver].
  - split.
    + inversion 1 as [|? ? Hs Hx]; subst. apply IH in Hs as (H1 & H2 & H3).
      apply Forall_app in Hx as [Hx1 Hx2]. split_and!; [by constructor|done|].
      intros a b [->|Ha]%elem_of_cons Hb; [|auto]. rewrite Forall_forall in Hx2. apply Hx2. by apply list_elem_of_fmap_2.
    + intros (Hs & H2 & H3). inversion Hs as [|? ? Hs' Hx]; subst. constructor.
      * apply IH. split_and!; [done..|]. intros; apply H3; [by right|done].
      * apply Forall_app_2; [done|]. rewrite Forall_forall. intros k (b & -> & Hb)%list_elem_of_fmap.
        apply H3; [by left|done].
Qed.
Lemma put_cell_sorted c l : sorted_cells l → sorted_cells (put_cell c l).
Proof.
  intros Hs. apply sorted_cells_app. split_and!; [by apply sorted_filter_lt| |].
  - unfold sorted_cells. simpl. constructor; [by apply sorted_filter_lt|].
    apply Forall_fmap, Forall_forall. intros x [Hx _]%list_elem_of_filter. done.
  - intros x y [Hx _]%list_elem_of_filter [->|[Hy _]%list_elem_of_filter]%elem_of_cons; simpl in *; lia.
Qed.

(** ** Leaves *)

Lemma zlen_1 {A} (x : A) : zlen [x] = 1.
Proof. done. Qed.
(** Reading beside a one-byte write. *)
Ltac skip_field := rewrite sub_splice_disjoint by (rewrite ?zlen_1; lia).

(** Every page has its header at offset zero. *)
Ltac hdr_zero :=
  change (0 + 1) with 1; change (0 + 3) with 3; change (0 + 6) with 6;
  change (0 + LEAF_HEADER_SIZE) with LEAF_HEADER_SIZE;
  change (0 + INTERIOR_HEADER_SIZE) with INTERIOR_HEADER_SIZE.

Section Leaf.
Context `{PageSize}.

Definition cell_slots (cs : list (Z * cell)) : list (Z * bytes) := map (λ c, (c.1, cell_bytes c.2)) cs.
Record leaf_ok (d : bytes) (cco : Z) (cs : list (Z * cell)) : Prop := {
  lf_type : sub d 0 1 = [LEAF_TABLE];
  lf_slotted : slotted LEAF_HEADER_SIZE d cco (cell_slots cs);
  lf_cells : Forall (λ c, cell_ok c.2) cs;
  lf_sorted : sorted_cells cs.*2;
  lf_frag : sub d 5 1 = [0]
}.

Lemma leaf_hdr : 10 ≤ LEAF_HEADER_SIZE ≤ 14.
Proof. unfold LEAF_HEADER_SIZE. lia. Qed.
Lemma zlen_cell_slots cs : zlen (cell_slots cs) = zlen cs.
Proof. apply zlen_map. Qed.
Lemma cell_slots_lookup cs i o c :
  cs !! i = Some (o, c) → cell_slots cs !! i = Some (o, cell_bytes c).
Proof. intros Hi. unfold cell_slots. by rewrite list_lookup_fmap, Hi. Qed.
Lemma leaf_count d cco cs : leaf_ok d cco cs → read_u16 d 1 = Ok (zlen cs).
Proof. intros [_ Hs _ _]. rewrite <- zlen_cell_slots. exact (slotted_read_count _ leaf_hdr _ _ _ Hs). Qed.
Lemma zlen_rowids (cs : list (Z * cell)) : zlen (rowids cs.*2) = zlen cs.
Proof. unfold rowids. rewrite zlen_map. unfold zlen. by rewrite length_fmap. Qed.
Lemma key_at_leaf (cs : list (Z * cell)) i o c :
  cs !! i = Some (o, c) → key_at (rowids cs.*2) (Z.of_nat i) = cell_rowid c.
Proof. intros Hi. apply key_at_rowids. by rewrite Nat2Z.id, list_lookup_fmap, Hi. Qed.

(** What every loop over a leaf reads of its cell [i]. *)
Lemma leaf_read d cco cs i o c :
  leaf_ok d cco cs → cs !! i = Some (o, c) →
  read_u16 d (14 + Z.of_nat i * 2) = Ok o ∧
  read_i64 d (o + 4) = Ok (cell_rowid c) ∧
  read_u32 d o = Ok (cell_raw_size c) ∧
  0 ≤ o ∧ o + zlen (cell_bytes c) ≤ PAGE_SIZE ∧ sub d o (zlen (cell_bytes c)) = cell_bytes c.
Proof.
  intros [Ht Hs Hc _] Hi. pose proof (cell_slots_lookup _ _ _ _ Hi) as Hi'.
  pose proof (slotted_cell _ _ _ _ _ _ _ Hs Hi') as (? & ? & ? & ?).
  pose proof (sl_room _ _ _ _ Hs) as Hr. pose proof (zlen_nonneg (cell_slots cs)). unfold LEAF_HEADER_SIZE in Hr.
  pose proof (Forall_lookup_1 _ _ _ _ Hc Hi) as Hok. simpl in Hok.
  pose proof (proj1 (sl_page _ _ _ _ Hs)) as Hl. pose proof (cell_bytes_len_ge c). split_and!; try (done || lia).
  - exact (slotted_read_ptr LEAF_HEADER_SIZE leaf_hdr _ _ _ _ _ _ Hs Hi').
  - apply read_i64_sub; [lia|lia|by apply cell_ok_rowid|].
    rewrite (slotted_sub LEAF_HEADER_SIZE leaf_hdr _ _ _ _ _ _ _ _ Hs Hi') by lia. apply cell_bytes_rowid.
  - rewrite (read_u32_sub d o (cell_raw_size c)); [by rewrite as_u32_id by (by apply cell_raw_size_range)|lia|lia|].
    replace o with (o + 0) by lia. rewrite (slotted_sub LEAF_HEADER_SIZE leaf_hdr _ _ _ _ _ _ _ _ Hs Hi') by lia. by apply cell_bytes_size.
Qed.

Lemma zlen_lookup {A} (l : list A) i : 0 ≤ i < zlen l → ∃ x, l !! Z.to_nat i = Some x.
Proof. unfold zlen. intros. apply lookup_lt_is_Some_2. lia. Qed.

(** The insertion point of a rowid, or the constraint violation. *)
Lemma leaf_insert_index_spec d cco cs rowid :
  leaf_ok d cco cs →
  (rowid ∈ rowids cs.*2 ∧
   leaf_insert_index d 14 (zlen cs) rowid = Err (ConstraintViolation "UNIQUE constraint failed: rowid")) ∨
  (∃ idx, (rowid ∉ rowids cs.*2) ∧ insert_at (rowids cs.*2) rowid idx ∧
   leaf_insert_index d 14 (zlen cs) rowid = Ok idx).
Proof.
  intros Hleaf. unfold leaf_insert_index. rewrite <- (zlen_rowids cs).
  destruct (bsearch_exact (insert_probe d 14 rowid) (λ _, tt) (rowids cs.*2) rowid) as
    [(i & Hi & Hk & ->)|(idx & Hn & Hat & ->)].
  - apply (lf_sorted _ _ _ Hleaf).
  - intros i Hi. rewrite zlen_rowids in Hi. destruct (zlen_lookup cs i Hi) as [[o c] Hc].
    destruct (leaf_read _ _ _ _ _ _ Hleaf Hc) as (Hp & Hr & _).
    rewrite Z2Nat.id in Hp by lia. unfold insert_probe. rewrite Hp. simpl. rewrite Hr. simpl.
    pose proof (key_at_leaf _ _ _ _ Hc) as Hkey. rewrite Z2Nat.id in Hkey by lia. by rewrite Hkey.
  - left. split; [|done]. apply elem_of_key_at. eauto.
  - right. exists idx. done.
Qed.

(** Looking a rowid up. *)
Lemma leaf_find_spec d cco cs rowid :
  leaf_ok d cco cs →
  (∃ i o c, 0 ≤ i < zlen cs ∧ cs !! Z.to_nat i = Some (o, c) ∧ cell_rowid c = rowid ∧
     leaf_find d 14 (zlen cs) rowid = Ok (Some (i, o, cell_raw_size c))) ∨
  ((rowid ∉ rowids cs.*2) ∧ leaf_find d 14 (zlen cs) rowid = Ok None).
Proof.
  intros Hleaf. unfold leaf_find. rewrite <- (zlen_rowids cs).
  destruct (bsearch_exact (find_probe d 14 rowid)
      (λ i, (i, (default (0, CInline 0 []) (cs !! Z.to_nat i)).1,
              cell_raw_size (default (0, CInline 0 []) (cs !! Z.to_nat i)).2)) (rowids cs.*2) rowid) as
    [(i & Hi & Hk & ->)|(idx & Hn & Hat & ->)].
  - apply (lf_sorted _ _ _ Hleaf).
  - intros i Hi. rewrite zlen_rowids in Hi. destruct (zlen_lookup cs i Hi) as [[o c] Hc].
    destruct (leaf_read _ _ _ _ _ _ Hleaf Hc) as (Hp & Hr & Hsz & Ho & Hend & _).
    pose proof (cell_bytes_len_ge c).
    rewrite Z2Nat.id in Hp by lia. unfold find_probe. rewrite Hp. cbn [mbind res_bind].
    unfold validate_cell_offset. rewrite (proj2 (Z.ltb_ge PAGE_SIZE _)) by lia. cbn [mbind res_bind].
    rewrite Hr. cbn [mbind res_bind].
    pose proof (key_at_leaf _ _ _ _ Hc) as Hkey. rewrite Z2Nat.id in Hkey by lia. rewrite Hkey, Hsz, Hc. simpl.
    by destruct (cell_rowid c =? rowid).
  - left. rewrite zlen_rowids in Hi. destruct (zlen_lookup cs i Hi) as [[o c] Hc].
    pose proof (key_at_leaf _ _ _ _ Hc) as Hkey. rewrite Z2Nat.id in Hkey by lia.
    exists i, o, c. rewrite Hc, zlen_rowids. split_and!; done || lia.
  - by right.
Qed.

(** The cell fits between the pointer array and the content area. *)
Definition cell_fits (cco : Z) (cs : list (Z * cell)) (len : Z) : Prop :=
  LEAF_HEADER_SIZE + zlen cs * 2 + 2 + len ≤ cco.

(** A header byte of the same page. *)
Lemma header_same_frag (d d' : bytes) x : header_same 14 d d' → sub d 5 1 = x → sub d' 5 1 = x.
Proof.
  intros [_ H5] Hx. change (14 - 5) with 9 in H5. rewrite <- Hx.
  assert (∀ l : bytes, sub l 5 1 = sub (sub l 5 9) 0 1) as Hsub by (intros l; symmetry; by apply (sub_sub l 5 9 0 1)).
  by rewrite !Hsub, H5.
Qed.
Lemma header_same_type hdr (d d' : bytes) x : header_same hdr d d' → sub d 0 1 = x → sub d' 0 1 = x.
Proof. intros [-> _]. done. Qed.

Lemma cell_slots_insert idx o c cs :
  cell_slots (list_insert_at idx (o, c) cs) = list_insert_at idx (o, cell_bytes c) (cell_slots cs).
Proof. unfold cell_slots, list_insert_at. by rewrite map_app, firstn_map, skipn_map. Qed.
Lemma snd_insert {A B} idx o (c : B) (cs : list (A * B)) :
  (list_insert_at idx (o, c) cs).*2 = list_insert_at idx c cs.*2.
Proof. unfold list_insert_at. by rewrite fmap_app, fmap_cons, fmap_take, fmap_drop. Qed.

(** Inserting a cell that fits is sorted insertion; a duplicate rowid is
    refused and the page is left as it was. *)
Lemma page_insert_cell_spec d cco cs c :
  leaf_ok d cco cs → cell_ok c → cell_fits cco cs (zlen (cell_bytes c)) →
  (cell_rowid c ∈ rowids cs.*2 ∧
   page_insert_cell 0 (cell_rowid c) (cell_bytes c) d =
     (Err (ConstraintViolation "UNIQUE constraint failed: rowid"), d)) ∨
  (∃ d' cs', (cell_rowid c ∉ rowids cs.*2) ∧
   page_insert_cell 0 (cell_rowid c) (cell_bytes c) d = (Ok tt, d') ∧
   leaf_ok d' (cco - zlen (cell_bytes c)) cs' ∧ cs'.*2 = put_cell c cs.*2 ∧ header_same 14 d d').
Proof.
  intros Hleaf Hok Hfits. unfold page_insert_cell. hdr_zero. unfold cell_fits, LEAF_HEADER_SIZE in Hfits.
  pose proof (leaf_count _ _ _ Hleaf) as Hcount.
  erewrite ST_bind_Ok by (unfold st_gets; rewrite Hcount; done). cbv zeta.
  destruct (leaf_insert_index_spec _ _ _ (cell_rowid c) Hleaf) as [[Hin Hidx]|(idx & Hnin & Hat & Hidx)].
  { left. split; [done|]. rewrite ST_bind_unfold. unfold st_gets, LEAF_HEADER_SIZE.
    by rewrite Hidx. }
  right. erewrite ST_bind_Ok by (unfold st_gets, LEAF_HEADER_SIZE; rewrite Hidx; done).
  destruct Hleaf as [Ht Hs Hcells Hsorted Hfrag]. unfold write_cell_to_leaf. hdr_zero.
  pose proof (slotted_read_cco LEAF_HEADER_SIZE leaf_hdr _ _ _ Hs) as Hcco.
  erewrite ST_bind_Ok by (unfold st_gets; rewrite Hcco; done). cbv zeta.
  pose proof (zlen_nonneg cs). rewrite (proj2 (Z.ltb_ge cco _)) by lia.
  assert (0 ≤ idx ≤ zlen (cell_slots cs)) as Hidxr.
  { rewrite zlen_cell_slots, <- zlen_rowids. apply Hat. }
  destruct (slot_insert_Ok LEAF_HEADER_SIZE leaf_hdr _ _ _ idx (cell_bytes c) Hs) as [Hrun _];
    [by apply cell_bytes_ok|done|rewrite zlen_cell_slots; unfold LEAF_HEADER_SIZE; lia|].
  rewrite zlen_cell_slots in Hrun. unfold slot_insert in Hrun.
  exists (inserted LEAF_HEADER_SIZE d idx (zlen cs) (cco - zlen (cell_bytes c)) (cell_bytes c)),
    (list_insert_at idx (cco - zlen (cell_bytes c), c) cs).
  destruct (inserted_sub LEAF_HEADER_SIZE leaf_hdr d cco (cell_slots cs) idx (cell_bytes c))
    as (_ & _ & Hsame & _); [done|by apply cell_bytes_ok|done|rewrite zlen_cell_slots; unfold LEAF_HEADER_SIZE; lia|].
  rewrite zlen_cell_slots in Hsame.
  split_and!; [done|exact Hrun| |by rewrite snd_insert, <- put_cell_at|exact Hsame].
  split.
  - by eapply header_same_type.
  - rewrite cell_slots_insert, <- (zlen_cell_slots cs). apply (slotted_inserted _ leaf_hdr); try done;
      [by apply cell_bytes_ok|apply cell_bytes_len_ge|].
    rewrite zlen_cell_slots. unfold LEAF_HEADER_SIZE. lia.
  - apply Forall_app_2; [by apply Forall_take|]. constructor; [done|by apply Forall_drop].
  - rewrite snd_insert, <- put_cell_at by done. by apply put_cell_sorted.
  - by eapply header_same_frag.
Qed.

(** Writing a block piece by piece. *)
Lemma put_bytes_app {A} off x y (k : ST bytes A) d :
  0 ≤ off → off + zlen x + zlen y ≤ zlen d →
  (put_bytes off x ≫= λ _, put_bytes (off + zlen x) y ≫= λ _, k) d =
  (put_bytes off (x ++ y) ≫= λ _, k) d.
Proof.
  intros. pose proof (zlen_nonneg x). pose proof (zlen_nonneg y).
  erewrite ST_bind_Ok by (apply put_bytes_Ok; lia).
  erewrite ST_bind_Ok by (apply put_bytes_Ok; rewrite ?length_splice; lia).
  erewrite (ST_bind_Ok _ (put_bytes off (x ++ y))) by (apply put_bytes_Ok; rewrite ?zlen_app; lia).
  by rewrite splice_adjacent by lia.
Qed.

(** After the same first write, compare what follows. *)
Lemma put_bytes_then {A} off x (k k' : unit → ST bytes A) d :
  0 ≤ off → off + zlen x ≤ zlen d →
  (∀ d', zlen d' = zlen d → k tt d' = k' tt d') → (put_bytes off x ≫= k) d = (put_bytes off x ≫= k') d.
Proof.
  intros ?? Hk. erewrite !ST_bind_Ok by (apply put_bytes_Ok; lia). apply Hk. by apply length_splice.
Qed.

(** Both in-place routines write exactly what the generic one writes. *)
Lemma page_insert_cell_raw_eq rowid payload d cco :
  zlen d = PAGE_SIZE → u16_to_page_size <$> read_u16 d 3 = Ok cco → cco ≤ PAGE_SIZE →
  page_insert_cell_raw 0 rowid payload d = page_insert_cell 0 rowid (make_leaf_cell rowid payload) d.
Proof.
  intros Hl Hcco Hle. unfold page_insert_cell_raw, page_insert_cell, write_cell_to_leaf. hdr_zero.
  assert (zlen (make_leaf_cell rowid payload) = 12 + zlen payload) as Hlen
    by (unfold make_leaf_cell; rewrite !zlen_app, !zlen_le_bytes; lia).
  rewrite !ST_bind_unfold. unfold st_gets at 1 4. destruct (read_u16 d 1) as [n| | |]; try done.
  rewrite !ST_bind_unfold. unfold st_gets at 1 3. destruct (leaf_insert_index d _ n rowid) as [idx| | |]; try done.
  rewrite !ST_bind_unfold. unfold st_gets. rewrite Hcco, Hlen.
  destruct (Z.ltb_spec cco (12 + zlen payload)) as [|Hfit]; [done|]. pose proof (zlen_nonneg payload).
  unfold make_leaf_cell. cbv zeta.
  rewrite <- (put_bytes_app _ (le_bytes 4 (as_u32 (zlen payload))) (le_bytes 8 rowid ++ payload))
    by (rewrite ?zlen_app, ?zlen_le_bytes; lia).
  rewrite zlen_le_bytes. apply put_bytes_then; rewrite ?zlen_le_bytes; [lia..|]. intros d1 Hd1. cbv beta.
  rewrite <- (put_bytes_app _ (le_bytes 8 rowid) payload) by (rewrite ?zlen_le_bytes; lia).
  rewrite zlen_le_bytes. by replace (cco - (12 + zlen payload) + Z.of_nat 4 + Z.of_nat 8) with (cco - (12 + zlen payload) + 12) by lia.
Qed.
Lemma page_insert_overflow_raw_eq rowid total first d cco :
  zlen d = PAGE_SIZE → u16_to_page_size <$> read_u16 d 3 = Ok cco → cco ≤ PAGE_SIZE →
  page_insert_overflow_raw 0 rowid total first d = page_insert_cell 0 rowid (make_overflow_cell rowid total first) d.
Proof.
  intros Hl Hcco Hle. unfold page_insert_overflow_raw, page_insert_cell, write_cell_to_leaf. hdr_zero.
  assert (zlen (make_overflow_cell rowid total first) = 20) as Hlen
    by (unfold make_overflow_cell; rewrite !zlen_app, !zlen_le_bytes; lia).
  rewrite !ST_bind_unfold. unfold st_gets at 1 4. destruct (read_u16 d 1) as [n| | |]; try done.
  rewrite !ST_bind_unfold. unfold st_gets at 1 3. destruct (leaf_insert_index d _ n rowid) as [idx| | |]; try done.
  rewrite !ST_bind_unfold. unfold st_gets. rewrite Hcco, Hlen.
  destruct (Z.ltb_spec cco 20) as [|Hfit]; [done|]. unfold make_overflow_cell. cbv zeta.
  rewrite <- (put_bytes_app _ (le_bytes 4 OVERFLOW_FLAG)) by (rewrite ?zlen_app, ?zlen_le_bytes; lia).
  rewrite zlen_le_bytes. apply put_bytes_then; rewrite ?zlen_le_bytes; [lia..|]. intros d1 Hd1. cbv beta.
  rewrite <- (put_bytes_app _ (le_bytes 8 rowid)) by (rewrite ?zlen_app, ?zlen_le_bytes; lia).
  rewrite zlen_le_bytes. apply put_bytes_then; rewrite ?zlen_le_bytes; [lia..|]. intros d2 Hd2. cbv beta.
  rewrite <- (put_bytes_app _ (le_bytes 4 total)) by (rewrite ?zlen_le_bytes; lia).
  rewrite zlen_le_bytes. replace (cco - 20 + Z.of_nat 4 + Z.of_nat 8 + Z.of_nat 4) with (cco - 20 + 16) by lia.
  by replace (cco - 20 + Z.of_nat 4 + Z.of_nat 8) with (cco - 20 + 12) by lia.
Qed.

(** Deleting a rowid removes exactly its cell, and reports the overflow chain
    it had; a missing rowid leaves the page as it was. *)
Lemma cell_slots_remove idx cs : cell_slots (list_remove_at idx cs) = list_remove_at idx (cell_slots cs).
Proof. unfold cell_slots, list_remove_at. by rewrite map_app, firstn_map, skipn_map. Qed.
Lemma sorted_nodup l : sorted_cells l → NoDup (rowids l).
Proof.
  unfold sorted_cells. induction 1 as [|k ks Hs IH Hk]; constructor; [|done].
  rewrite Forall_forall in Hk. intros Hin%Hk. lia.
Qed.
Lemma del_cell_at l idx c :
  sorted_cells l → l !! Z.to_nat idx = Some c → del_cell (cell_rowid c) l = list_remove_at idx l.
Proof.
  intros Hs Hc. unfold del_cell, list_remove_at. pose proof (sorted_nodup _ Hs) as Hnd.
  rewrite (take_drop_lookup l _ c Hc) in Hnd |- * at 1. unfold rowids in Hnd. rewrite map_app in Hnd. simpl in Hnd.
  apply NoDup_app in Hnd as (_ & Hd & Hnd). apply NoDup_cons in Hnd as [Hn _].
  rewrite filter_app, filter_cons_False by naive_solver. rewrite !filter_id; [done|..].
  - apply Forall_forall. intros x Hx Heq. apply Hn. rewrite <- Heq. by apply list_elem_of_fmap_2.
  - apply Forall_forall. intros x Hx Heq. apply (Hd (cell_rowid x)); [by apply list_elem_of_fmap_2|].
    rewrite Heq. by left.
Qed.
Lemma del_cell_absent r l : (r ∉ rowids l) → del_cell r l = l.
Proof.
  intros Hn. apply filter_id, Forall_forall. intros x Hx Heq. apply Hn. rewrite <- Heq. by apply list_elem_of_fmap_2.
Qed.

Definition cell_overflow (c : cell) : option Z :=
  match c with CInline _ _ => None | COverflow _ _ f => Some f end.

Lemma page_delete_spec d cco cs r :
  leaf_ok d cco cs →
  ((r ∉ rowids cs.*2) ∧ page_delete 0 r d = (Ok None, d)) ∨
  (∃ c d' cs', c ∈ cs.*2 ∧ cell_rowid c = r ∧ page_delete 0 r d = (Ok (Some (cell_overflow c)), d') ∧
     leaf_ok d' cco cs' ∧ cs'.*2 = del_cell r cs.*2 ∧ header_same 14 d d').
Proof.
  intros Hleaf. unfold page_delete. hdr_zero.
  erewrite ST_bind_Ok by (unfold st_gets; rewrite (leaf_count _ _ _ Hleaf); done). cbv zeta.
  destruct (leaf_find_spec _ _ _ r Hleaf) as [(i & o & c & Hi & Hc & Hr & Hf)|[Hn Hf]].
  2: { left. split; [done|]. by erewrite ST_bind_Ok by (unfold st_gets, LEAF_HEADER_SIZE; rewrite Hf; done). }
  right. erewrite ST_bind_Ok by (unfold st_gets, LEAF_HEADER_SIZE; rewrite Hf; done). cbv beta iota.
  destruct (leaf_read _ _ _ _ _ _ Hleaf Hc) as (Hp & Hrd & Hsz & Ho & Hend & Hsub).
  destruct Hleaf as [Ht Hs Hcells Hsorted Hfrag].
  pose proof (Forall_lookup_1 _ _ _ _ Hcells Hc) as Hok. simpl in Hok.
  assert ((if negb (Z.land (cell_raw_size c) OVERFLOW_FLAG =? 0)
     then st_gets (λ d, Some <$> read_u32 d (o + 16)) else mret None) d = (Ok (cell_overflow c), d)) as Hov.
  { rewrite cell_raw_size_flag by done. destruct c as [rr p|rr t f]; simpl; [done|]. unfold st_gets.
    rewrite (read_u32_sub d (o + 16) f).
    - simpl. by rewrite as_u32_id by apply Hok.
    - lia.
    - rewrite cell_bytes_len in Hend. rewrite (proj1 (sl_page _ _ _ _ Hs)). lia.
    - rewrite (slotted_sub _ leaf_hdr _ _ _ _ _ _ _ _ Hs (cell_slots_lookup _ _ _ _ Hc))
        by (rewrite ?cell_bytes_len; lia).
      simpl. unfold make_overflow_cell. rewrite !app_assoc, sub_app_r by (rewrite !zlen_app, !zlen_le_bytes; lia).
      rewrite !zlen_app, !zlen_le_bytes. by rewrite sub_all by (rewrite zlen_le_bytes; lia). }
  erewrite ST_bind_Ok by exact Hov. cbv beta.
  destruct (slotted_removed _ leaf_hdr _ _ _ i Hs) as (Hrun & Hs' & Hsame); [by rewrite zlen_cell_slots|].
  rewrite zlen_cell_slots in *.
  exists c, (removed LEAF_HEADER_SIZE d i (zlen cs)), (list_remove_at i cs).
  assert (cs.*2 !! Z.to_nat i = Some c) as Hc2 by (by rewrite list_lookup_fmap, Hc).
  assert ((list_remove_at i cs).*2 = del_cell r cs.*2) as Hdel.
  { subst r. rewrite (del_cell_at _ i) by done. unfold list_remove_at. by rewrite fmap_app, fmap_take, fmap_drop. }
  split_and!; [by eapply list_elem_of_lookup_2|done| | |done|exact Hsame].
  - rewrite ST_bind_unfold in Hrun. rewrite ST_bind_unfold. fold LEAF_HEADER_SIZE.
    destruct (shift_pointers_left _ _ _ d) as [[[]| | |] d1]; try done.
    erewrite ST_bind_Ok by exact Hrun. done.
  - split; [by eapply header_same_type|by rewrite cell_slots_remove| | |by eapply header_same_frag].
    + apply Forall_app_2; [by apply Forall_take|by apply Forall_drop].
    + rewrite Hdel. by apply sorted_filter_lt.
Qed.

(** What [write_page_header] leaves in the page. *)
Lemma page_write_header_Ok h d :
  page_ok d → is_byte (page_type h) →
  ∃ d', page_write_header 0 h d = (Ok tt, d') ∧ page_ok d' ∧
    sub d' 0 1 = [page_type h] ∧ sub d' 1 2 = le_bytes 2 (cell_count h) ∧
    sub d' 3 2 = le_bytes 2 (cell_content_offset h) ∧ sub d' 5 1 = [0] ∧
    sub d' 6 4 = le_bytes 4 (default 0 (right_child h)) ∧
    (page_type h = LEAF_TABLE → sub d' 10 4 = le_bytes 4 0).
Proof.
  intros [Hl Hb] Ht. pose proof PAGE_SIZE_bounds. unfold page_write_header. hdr_zero. change (0 + 5) with 5. change (0 + 10) with 10.
  erewrite ST_bind_Ok by (apply put_byte_Ok; lia). set (d0 := splice d 0 _).
  assert (zlen d0 = PAGE_SIZE) as L0 by (unfold d0; rewrite length_splice; rewrite ?zlen_1; lia).
  erewrite ST_bind_Ok by (apply put_u16_Ok; lia). set (d1 := splice d0 _ _).
  assert (zlen d1 = PAGE_SIZE) as L1 by (unfold d1; rewrite length_splice; rewrite ?zlen_le_bytes; lia).
  erewrite ST_bind_Ok by (apply put_u16_Ok; lia). set (d3 := splice d1 _ _).
  assert (zlen d3 = PAGE_SIZE) as L3 by (unfold d3; rewrite length_splice; rewrite ?zlen_le_bytes; lia).
  erewrite ST_bind_Ok by (apply put_byte_Ok; lia). set (d5 := splice d3 _ _).
  assert (zlen d5 = PAGE_SIZE) as L5 by (unfold d5; rewrite length_splice; rewrite ?zlen_1; lia).
  erewrite ST_bind_Ok by (apply put_u32_Ok; lia). set (d6 := splice d5 _ _).
  assert (zlen d6 = PAGE_SIZE) as L6 by (unfold d6; rewrite length_splice; rewrite ?zlen_le_bytes; lia).
  assert (bytes_ok d6) as Hb6.
  { unfold d6, d5, d3, d1, d0. repeat apply splice_ok; try apply le_bytes_ok; try done; by apply Forall_singleton. }
  assert (∀ d', (d' = d6 ∨ d' = splice d6 10 (le_bytes 4 0)) →
    page_ok d' ∧ sub d' 0 1 = [page_type h] ∧ sub d' 1 2 = le_bytes 2 (cell_count h) ∧
    sub d' 3 2 = le_bytes 2 (cell_content_offset h) ∧ sub d' 5 1 = [0] ∧
    sub d' 6 4 = le_bytes 4 (default 0 (right_child h))) as Hall.
  { assert (page_ok d6 ∧ sub d6 0 1 = [page_type h] ∧ sub d6 1 2 = le_bytes 2 (cell_count h) ∧
      sub d6 3 2 = le_bytes 2 (cell_content_offset h) ∧ sub d6 5 1 = [0] ∧
      sub d6 6 4 = le_bytes 4 (default 0 (right_child h))) as (?&?&?&?&?&?).
    { split_and!; [done|done|..].
      - unfold d6. skip_write. unfold d5. skip_field. unfold d3. skip_write.
        apply (sub_splice_eq d0 1 (le_bytes 2 _)); rewrite ?zlen_le_bytes; lia.
      - unfold d6. skip_write. unfold d5. skip_field.
        apply (sub_splice_eq d1 3 (le_bytes 2 _)); rewrite ?zlen_le_bytes; lia.
      - unfold d6. skip_write. apply (sub_splice_eq d3 5 [_]); rewrite ?zlen_1; lia.
      - apply (sub_splice_eq d5 6 (le_bytes 4 _)); rewrite ?zlen_le_bytes; lia. }
    intros d' [->| ->]; [done|]. split_and!; try (by skip_write).
    split; [rewrite length_splice; rewrite ?zlen_le_bytes; lia|]. apply splice_ok; [done|apply le_bytes_ok]. }
  destruct (Z.eqb_spec (page_type h) LEAF_TABLE).
  - rewrite put_u32_Ok by lia. eexists. split; [done|].
    destruct (Hall (splice d6 10 (le_bytes 4 0))) as (?&?&?&?&?&?); [by right|]. do 6 (split; [done|]).
    intros _. apply (sub_splice_eq d6 10 (le_bytes 4 0)); rewrite ?zlen_le_bytes; lia.
  - eexists. split; [done|]. destruct (Hall d6) as (?&?&?&?&?&?); [by left|]. do 6 (split; [done|]). done.
Qed.

(** Formatting a page as an empty leaf. *)
Lemma init_leaf_spec d :
  page_ok d → ∃ d', page_write_header 0 leaf_header d = (Ok tt, d') ∧ leaf_ok d' PAGE_SIZE [] ∧
    sub d' 6 4 = le_bytes 4 0 ∧ sub d' 10 4 = le_bytes 4 0 ∧ sub d' 5 1 = [0].
Proof.
  intros Hd. destruct (page_write_header_Ok leaf_header d Hd) as (d' & Hrun & Hok & H0 & H1 & H3 & H5 & H6 & H10); [done|].
  exists d'. split; [done|]. split_and!; [|done|by apply H10|done]. pose proof PAGE_SIZE_bounds.
  split; [done| |constructor|constructor|done]. split; try done.
  - rewrite H3. unfold leaf_header. cbn [cell_content_offset]. by rewrite page_size_to_u16_eq, le_bytes_2_as_u16.
  - unfold LEAF_HEADER_SIZE, zlen. simpl. lia.
  - constructor.
  - simpl. lia.
Qed.

(** The link fields of a leaf are the same. *)
Definition same_links (d d' : bytes) : Prop := sub d' 6 4 = sub d 6 4 ∧ sub d' 10 4 = sub d 10 4.
Lemma header_same_links d d' : header_same 14 d d' → same_links d d'.
Proof.
  intros [_ H5]. change (14 - 5) with 9 in H5.
  assert (∀ x : bytes, sub x 6 4 = sub (sub x 5 9) 1 4) as Hx by (intros; by rewrite sub_sub by lia).
  assert (∀ x : bytes, sub x 10 4 = sub (sub x 5 9) 5 4) as Hy by (intros; by rewrite sub_sub by lia).
  split; [by rewrite Hx, H5, <- Hx|by rewrite Hy, H5, <- Hy].
Qed.

(** The collected cells of a leaf are its cells, in order. *)
Lemma collect_Ok {A B} (f : Z → res A) (g : B → A) (l : list B) k :
  (∀ i x, l !! i = Some x → f (k + Z.of_nat i) = Ok (g x)) →
  collect f (seqZ k (zlen l)) = Ok (map g l).
Proof.
  revert k. induction l as [|x l IH]; intros k Hf; [done|].
  rewrite zlen_cons. pose proof (zlen_nonneg l). rewrite seqZ_cons by lia. cbn [collect map].
  pose proof (Hf 0%nat x eq_refl) as Hx0. rewrite Z.add_0_r in Hx0. rewrite Hx0. cbn [mbind res_bind].
  replace (Z.pred (1 + zlen l)) with (zlen l) by lia. rewrite IH; [done|].
  intros i y Hy. rewrite <- (Hf (S i) y Hy). f_equal. lia.
Qed.
Lemma cell_bytes_on_page c : cell_ok c →
  zlen (cell_bytes c) = if negb (Z.land (cell_raw_size c) OVERFLOW_FLAG =? 0) then 20 else 12 + cell_raw_size c.
Proof. intros Hc. rewrite cell_raw_size_flag, cell_bytes_len by done. by destruct c. Qed.
Lemma collect_leaf_cells_spec d cco cs :
  leaf_ok d cco cs → collect_leaf_cells d 0 = Ok (map (λ c, (cell_rowid c, cell_bytes c)) cs.*2).
Proof.
  intros Hleaf. unfold collect_leaf_cells. hdr_zero. rewrite (leaf_count _ _ _ Hleaf). cbn [mbind res_bind].
  unfold LEAF_HEADER_SIZE. rewrite (collect_Ok _ (λ c, (cell_rowid c.2, cell_bytes c.2))).
  { do 2 f_equal. by rewrite <- list_fmap_compose. }
  intros i [o c] Hc. unfold collect_leaf_cell. rewrite Z.add_0_l.
  destruct (leaf_read _ _ _ _ _ _ Hleaf Hc) as (Hp & Hrd & Hsz & Ho & Hend & Hsub).
  pose proof (cell_bytes_len_ge c). pose proof (Forall_lookup_1 _ _ _ _ (lf_cells _ _ _ Hleaf) Hc) as Hok. simpl in Hok.
  rewrite Hp. cbn [mbind res_bind]. unfold validate_cell_offset. rewrite (proj2 (Z.ltb_ge PAGE_SIZE _)) by lia.
  cbn [mbind res_bind]. rewrite Hsz. cbn [mbind res_bind]. rewrite Hrd. cbn [mbind res_bind].
  rewrite <- cell_bytes_on_page by done. rewrite (proj2 (Z.ltb_ge PAGE_SIZE _)) by lia. cbn [mbind res_bind].
  rewrite slice_Ok by (rewrite ?(proj1 (sl_page _ _ _ _ (lf_slotted _ _ _ Hleaf))); lia).
  replace (o + zlen (cell_bytes c) - o) with (zlen (cell_bytes c)) by lia. by rewrite Hsub.
Qed.
End Leaf.

(** ** Interior pages *)

Section Interior.
Context `{PageSize}.

(** A cell is the left child and its key. *)
Definition interior_cell (c : Z * Z) : bytes := le_bytes 4 c.1 ++ le_bytes 8 c.2.
Definition interior_slots (cs : list (Z * (Z * Z))) : list (Z * bytes) :=
  map (λ c, (c.1, interior_cell c.2)) cs.
Definition keys (l : list (Z * Z)) : list Z := l.*2.
Record interior_ok (d : bytes) (cco : Z) (cs : list (Z * (Z * Z))) (rc : Z) : Prop := {
  in_type : sub d 0 1 = [INTERIOR_TABLE];
  in_slotted : slotted INTERIOR_HEADER_SIZE d cco (interior_slots cs);
  in_cells : Forall (λ c, is_u32 c.2.1 ∧ is_i64 c.2.2) cs;
  in_sorted : StronglySorted Z.lt (keys cs.*2);
  in_right : sub d 6 4 = le_bytes 4 rc;
  in_right_ok : is_u32 rc
}.

Lemma interior_hdr : 10 ≤ INTERIOR_HEADER_SIZE ≤ 14.
Proof. unfold INTERIOR_HEADER_SIZE. lia. Qed.
Lemma zlen_interior_cell c : zlen (interior_cell c) = 12.
Proof. unfold interior_cell. rewrite zlen_app, !zlen_le_bytes. lia. Qed.
Lemma interior_cell_ok c : bytes_ok (interior_cell c).
Proof. apply Forall_app_2; apply le_bytes_ok. Qed.
Lemma zlen_interior_slots cs : zlen (interior_slots cs) = zlen cs.
Proof. apply zlen_map. Qed.
Lemma interior_slots_lookup cs i o c :
  cs !! i = Some (o, c) → interior_slots cs !! i = Some (o, interior_cell c).
Proof. intros Hi. unfold interior_slots. by rewrite list_lookup_fmap, Hi. Qed.
Lemma interior_count d cco cs rc : interior_ok d cco cs rc → read_u16 d 1 = Ok (zlen cs).
Proof.
  intros Hin. rewrite <- zlen_interior_slots.
  exact (slotted_read_count _ interior_hdr _ _ _ (in_slotted _ _ _ _ Hin)).
Qed.
Lemma interior_page_len d cco cs rc : interior_ok d cco cs rc → zlen d = PAGE_SIZE.
Proof. intros Hin. apply (sl_page _ _ _ _ (in_slotted _ _ _ _ Hin)). Qed.
Lemma interior_right d cco cs rc : interior_ok d cco cs rc → read_u32 d 6 = Ok rc.
Proof.
  intros Hin. pose proof PAGE_SIZE_bounds. pose proof (interior_page_len _ _ _ _ Hin).
  rewrite (read_u32_sub d 6 rc) by (try lia; apply Hin). by rewrite as_u32_id by apply Hin.
Qed.
Lemma zlen_keys (cs : list (Z * (Z * Z))) : zlen (keys cs.*2) = zlen cs.
Proof. unfold keys, zlen. by rewrite !length_fmap. Qed.

Lemma interior_read d cco cs rc i o child key :
  interior_ok d cco cs rc → cs !! i = Some (o, (child, key)) →
  read_u16 d (10 + Z.of_nat i * 2) = Ok o ∧ read_i64 d (o + 4) = Ok key ∧ read_u32 d o = Ok child ∧
  0 ≤ o ∧ o + 12 ≤ PAGE_SIZE ∧ key_at (keys cs.*2) (Z.of_nat i) = key.
Proof.
  intros Hin Hi. pose proof (interior_slots_lookup _ _ _ _ Hi) as Hi'.
  pose proof (in_slotted _ _ _ _ Hin) as Hs.
  pose proof (slotted_cell _ _ _ _ _ _ _ Hs Hi') as (? & ? & Hend & ?). rewrite zlen_interior_cell in Hend.
  pose proof (sl_room _ _ _ _ Hs) as Hr. pose proof (zlen_nonneg (interior_slots cs)).
  unfold INTERIOR_HEADER_SIZE in Hr.
  pose proof (Forall_lookup_1 _ _ _ _ (in_cells _ _ _ _ Hin) Hi) as [Hc Hk]. simpl in Hc, Hk.
  pose proof (interior_page_len _ _ _ _ Hin). split_and!; try lia.
  - exact (slotted_read_ptr _ interior_hdr _ _ _ _ _ _ Hs Hi').
  - apply read_i64_sub; [lia..|done|].
    rewrite (slotted_sub _ interior_hdr _ _ _ _ _ _ _ _ Hs Hi') by (rewrite ?zlen_interior_cell; lia).
    unfold interior_cell. rewrite sub_app_r by (rewrite zlen_le_bytes; lia). rewrite zlen_le_bytes.
    by rewrite sub_all by (rewrite zlen_le_bytes; lia).
  - rewrite (read_u32_sub d o child); [by rewrite as_u32_id|lia..|].
    replace o with (o + 0) by lia.
    rewrite (slotted_sub _ interior_hdr _ _ _ _ _ _ _ _ Hs Hi') by (rewrite ?zlen_interior_cell; lia).
    unfold interior_cell. by rewrite sub_app_l, sub_all by (rewrite ?zlen_le_bytes; lia).
  - unfold key_at, keys. by rewrite Nat2Z.id, !list_lookup_fmap, Hi.
Qed.

(** The boundary between the keys at most [key] and those greater. *)
Lemma interior_index_spec b d cco cs rc key :
  interior_ok d cco cs rc →
  ∃ idx, upper_at (keys cs.*2) key idx ∧ interior_index b d 10 (zlen cs) key = Ok idx.
Proof.
  intros Hin. unfold interior_index. rewrite <- (zlen_keys cs).
  destruct (bsearch_upper (interior_probe b d 10 key) (keys cs.*2) key) as (idx & Hat & ->).
  - apply Hin.
  - intros i Hi. rewrite zlen_keys in Hi. destruct (zlen_lookup cs i Hi) as [[o [c k]] Hc].
    destruct (interior_read _ _ _ _ _ _ _ _ Hin Hc) as (Hp & Hr & _ & Ho & Hend & Hkey).
    rewrite Z2Nat.id in Hp, Hkey by lia. unfold interior_probe. rewrite Hp. cbn [mbind res_bind].
    unfold validate_cell_offset. rewrite (proj2 (Z.ltb_ge PAGE_SIZE _)) by lia.
    destruct b; cbn [mbind res_bind]; rewrite Hr; cbn [mbind res_bind]; by rewrite Hkey.
  - by exists idx.
Qed.

(** The child an interior page sends a rowid to. *)
Fixpoint child_for (l : list (Z * Z)) (rc r : Z) : Z :=
  match l with
  | [] => rc
  | (c, k) :: l' => if r <? k then c else child_for l' rc r
  end.
Lemma child_for_upper l rc r idx :
  upper_at (keys l) r idx →
  child_for l rc r = match l !! Z.to_nat idx with Some (c, _) => c | None => rc end.
Proof.
  revert idx. induction l as [|[c k] l IH]; intros idx (Hi & Hle & Hgt); [done|]. unfold keys in *.
  rewrite fmap_cons in *. cbn [snd child_for] in *. rewrite zlen_cons in *. destruct (Z.ltb_spec r k).
  - assert (idx = 0) as ->; [|done]. destruct (decide (idx = 0)); [done|].
    specialize (Hle 0 ltac:(lia)). unfold key_at in Hle. simpl in Hle. lia.
  - assert (0 < idx) as Hpos.
    { destruct (decide (idx = 0)) as [->|]; [|lia]. pose proof (zlen_nonneg (l.*2)).
      specialize (Hgt 0 ltac:(rewrite ?zlen_cons; lia)). unfold key_at in Hgt. simpl in Hgt. lia. }
    replace (Z.to_nat idx) with (S (Z.to_nat (idx - 1))) by lia. simpl. apply IH. split_and!; [lia..| |].
    + intros i Hi'. specialize (Hle (i + 1) ltac:(lia)). unfold key_at in *.
      replace (Z.to_nat (i + 1)) with (S (Z.to_nat i)) in Hle by lia. done.
    + intros i Hi'. specialize (Hgt (i + 1) ltac:(lia)). unfold key_at in *.
      replace (Z.to_nat (i + 1)) with (S (Z.to_nat i)) in Hgt by lia. done.
Qed.

Lemma page_find_child_spec d cco cs rc r :
  interior_ok d cco cs rc → page_find_child d 0 r = Ok (child_for cs.*2 rc r).
Proof.
  intros Hin. unfold page_find_child. hdr_zero. rewrite (interior_count _ _ _ _ Hin). cbn [mbind res_bind].
  rewrite (interior_right _ _ _ _ Hin). cbn [mbind res_bind]. pose proof (zlen_nonneg cs).
  destruct (Z.eqb_spec (zlen cs) 0) as [Hz|Hnz]; [by rewrite (zlen_0_nil cs Hz)|].
  unfold INTERIOR_HEADER_SIZE.
  destruct (interior_index_spec true d cco cs rc r Hin) as (idx & Hat & ->). cbn [mbind res_bind].
  rewrite (child_for_upper _ _ _ _ Hat). destruct Hat as [Hidx _]. rewrite zlen_keys in Hidx.
  destruct (Z.ltb_spec idx (zlen cs)).
  - destruct (zlen_lookup cs idx) as [[o [c k]] Hc]; [lia|].
    destruct (interior_read _ _ _ _ _ _ _ _ Hin Hc) as (Hp & _ & Hch & Ho & Hend & _).
    rewrite Z2Nat.id in Hp by lia. rewrite Hp. cbn [mbind res_bind].
    unfold validate_cell_offset. rewrite (proj2 (Z.ltb_ge PAGE_SIZE _)) by lia. cbn [mbind res_bind].
    by rewrite list_lookup_fmap, Hc.
  - rewrite lookup_ge_None_2; [done|]. rewrite length_fmap. unfold zlen in *. lia.
Qed.

Lemma interior_slots_insert idx o c cs :
  interior_slots (list_insert_at idx (o, c) cs) = list_insert_at idx (o, interior_cell c) (interior_slots cs).
Proof. unfold interior_slots, list_insert_at. by rewrite map_app, firstn_map, skipn_map. Qed.

Lemma sorted_app_keys (l1 l2 : list Z) :
  StronglySorted Z.lt (l1 ++ l2) ↔
  StronglySorted Z.lt l1 ∧ StronglySorted Z.lt l2 ∧ ∀ x y, x ∈ l1 → y ∈ l2 → x < y.
Proof.
  induction l1 as [|x l1 IH]; simpl.
  - split; [intros; split_and!; [constructor|done|set_solver]|naive_solver].
  - split.
    + inversion 1 as [|? ? Hs Hx]; subst. apply IH in Hs as (H1 & H2 & H3).
      apply Forall_app in Hx as [Hx1 Hx2]. split_and!; [by constructor|done|].
      intros a b [->|Ha]%elem_of_cons Hb; [|auto]. rewrite Forall_forall in Hx2. auto.
    + intros (Hs & H2 & H3). inversion Hs as [|? ? Hs' Hx]; subst. constructor.
      * apply IH. split_and!; [done..|]. intros; apply H3; [by right|done].
      * apply Forall_app_2; [done|]. rewrite Forall_forall. intros b Hb. apply H3; [by left|done].
Qed.
(** Adding a new key where the search says keeps the keys sorted. *)
Lemma upper_insert_sorted ks k idx :
  StronglySorted Z.lt ks → (k ∉ ks) → upper_at ks k idx → StronglySorted Z.lt (list_insert_at idx k ks).
Proof.
  intros Hs Hn (Hi & Hle & Hgt). unfold list_insert_at.
  assert (∀ x, x ∈ take (Z.to_nat idx) ks → x < k) as Ht.
  { intros x [i Hx]%list_elem_of_lookup. apply lookup_take_Some in Hx as [Hx Hlt].
    assert (x ≠ k) by (intros ->; apply Hn; by eapply list_elem_of_lookup_2).
    specialize (Hle (Z.of_nat i) ltac:(lia)). unfold key_at in Hle. rewrite Nat2Z.id, Hx in Hle. simpl in Hle. lia. }
  assert (∀ x, x ∈ drop (Z.to_nat idx) ks → k < x) as Hd.
  { intros x [i Hx]%list_elem_of_lookup. rewrite lookup_drop in Hx. pose proof (lookup_lt_Some _ _ _ Hx).
    specialize (Hgt (Z.of_nat (Z.to_nat idx + i)) ltac:(unfold zlen; lia)). unfold key_at in Hgt.
    rewrite Nat2Z.id, Hx in Hgt. done. }
  rewrite <- (take_drop (Z.to_nat idx) ks) in Hs. apply sorted_app_keys in Hs as (Hs1 & Hs2 & Hs3).
  apply sorted_app_keys. split_and!; [done| |].
  - constructor; [done|]. by apply Forall_forall.
  - intros x y Hx [->|Hy]%elem_of_cons; auto.
Qed.

Lemma page_insert_interior_spec d cco cs rc key child :
  interior_ok d cco cs rc → is_u32 child → is_i64 key → (key ∉ keys cs.*2) →
  INTERIOR_HEADER_SIZE + zlen cs * 2 + 2 + 12 ≤ cco →
  ∃ d' cs' idx, page_insert_interior 0 key child d = (Ok tt, d') ∧
    interior_ok d' (cco - 12) cs' rc ∧ upper_at (keys cs.*2) key idx ∧
    cs'.*2 = list_insert_at idx (child, key) cs.*2.
Proof.
  intros Hin Hch Hk Hn Hfits. unfold page_insert_interior. hdr_zero. unfold INTERIOR_HEADER_SIZE in Hfits.
  erewrite ST_bind_Ok by (unfold st_gets; rewrite (interior_count _ _ _ _ Hin); done). cbv beta zeta.
  pose proof (slotted_read_cco _ interior_hdr _ _ _ (in_slotted _ _ _ _ Hin)) as Hcco.
  erewrite ST_bind_Ok by (unfold st_gets; rewrite Hcco; done). cbv beta zeta.
  destruct (interior_index_spec false d cco cs rc key Hin) as (idx & Hat & Hidx).
  erewrite ST_bind_Ok by (unfold st_gets, INTERIOR_HEADER_SIZE; rewrite Hidx; done). cbv beta zeta.
  fold (interior_cell (child, key)). change (le_bytes 4 child ++ le_bytes 8 key) with (interior_cell (child, key)).
  rewrite zlen_interior_cell. pose proof (zlen_nonneg cs). rewrite (proj2 (Z.ltb_ge cco _)) by lia.
  pose proof (in_slotted _ _ _ _ Hin) as Hs.
  assert (0 ≤ idx ≤ zlen (interior_slots cs)) as Hidxr. { rewrite zlen_interior_slots, <- zlen_keys. apply Hat. }
  assert (INTERIOR_HEADER_SIZE + zlen (interior_slots cs) * 2 + 2 ≤ cco - zlen (interior_cell (child, key))) as Hroom.
  { rewrite zlen_interior_slots, zlen_interior_cell. unfold INTERIOR_HEADER_SIZE. lia. }
  destruct (slot_insert_Ok _ interior_hdr _ _ _ idx _ Hs (interior_cell_ok _) Hidxr Hroom) as [Hrun _].
  pose proof (slotted_inserted _ interior_hdr _ _ _ idx _ Hs (interior_cell_ok _)
    ltac:(rewrite (zlen_interior_cell (child, key)); lia) Hidxr Hroom) as Hs'.
  destruct (inserted_sub _ interior_hdr d cco _ idx _ Hs (interior_cell_ok _) Hidxr Hroom) as (_ & _ & Hsame & _).
  rewrite zlen_interior_slots, zlen_interior_cell in *. unfold slot_insert in Hrun.
  eexists _, (list_insert_at idx (cco - 12, (child, key)) cs), idx.
  split_and!; [exact Hrun| |done|by rewrite snd_insert]. destruct Hsame as [Hs0 Hs5].
  destruct Hin as [Hty _ Hcells Hsorted Hright Hrcok]. split; [by rewrite Hs0| | | | |done].
  - by rewrite interior_slots_insert.
  - apply Forall_app_2; [by apply Forall_take|]. constructor; [done|by apply Forall_drop].
  - rewrite snd_insert. unfold keys. rewrite snd_insert. by apply upper_insert_sorted.
  - pose proof PAGE_SIZE_bounds. destruct Hs' as [[Hl _] _ _ _ _ _ _ _].
    assert (zlen d = PAGE_SIZE) by apply Hs. change (INTERIOR_HEADER_SIZE - 5) with 5 in Hs5.
    assert (∀ x : bytes, sub x 6 4 = sub (sub x 5 5) 1 4) as Hx by (intros; by rewrite sub_sub by lia).
    rewrite Hx in Hright |- *. by rewrite Hs5.
Qed.

Lemma find_divider_spec d cco cs rc key l1 c l2 :
  interior_ok d cco cs rc → cs.*2 = l1 ++ (c, key) :: l2 →
  find_divider d 10 key (seqZ 0 (zlen cs)) = Ok (Some (zlen l1)).
Proof.
  intros Hin Hcs.
  assert (∀ k, (k ≤ length l1)%nat →
    find_divider d 10 key (seqZ (Z.of_nat k) (zlen cs - Z.of_nat k)) = Ok (Some (zlen l1))) as Hall.
  2: { specialize (Hall 0%nat ltac:(lia)). by rewrite Z.sub_0_r in Hall. }
  intros k Hk. remember (length l1 - k)%nat as n eqn:En. revert k Hk En.
  assert (length cs = length l1 + S (length l2))%nat as Hlen.
  { rewrite <- (length_fmap snd cs), Hcs, length_app. done. }
  induction n as [|n IH]; intros k Hk En.
  - assert (k = length l1) as -> by lia. rewrite seqZ_cons by (unfold zlen; lia). cbn [find_divider].
    assert (cs.*2 !! length l1 = Some (c, key)) as Hc by (by rewrite Hcs, list_lookup_middle).
    rewrite list_lookup_fmap in Hc. destruct (cs !! length l1) as [[o ck]|] eqn:E; [|done]. simpl in Hc. injection Hc as ->.
    destruct (interior_read _ _ _ _ _ _ _ _ Hin E) as (Hp & Hr & _ & Ho & Hend & _).
    rewrite Hp. cbn [mbind res_bind]. unfold validate_cell_offset. rewrite (proj2 (Z.ltb_ge PAGE_SIZE _)) by lia.
    cbn [mbind res_bind]. rewrite Hr. cbn [mbind res_bind]. rewrite Z.eqb_refl. done.
  - rewrite seqZ_cons by (unfold zlen; lia). cbn [find_divider].
    destruct (lookup_lt_is_Some_2 cs k) as [[o [c' k']] E]; [lia|].
    destruct (interior_read _ _ _ _ _ _ _ _ Hin E) as (Hp & Hr & _ & Ho & Hend & Hkey).
    rewrite Hp. cbn [mbind res_bind]. unfold validate_cell_offset. rewrite (proj2 (Z.ltb_ge PAGE_SIZE _)) by lia.
    cbn [mbind res_bind]. rewrite Hr. cbn [mbind res_bind].
    assert (k' ≠ key) as Hne.
    { pose proof (in_sorted _ _ _ _ Hin) as Hs. rewrite Hcs in Hs. unfold keys in Hs. rewrite fmap_app in Hs.
      apply sorted_app_keys in Hs as (_ & _ & Hs). specialize (Hs k' key).
      assert (k' < key); [|lia]. apply Hs; [|by left].
      assert (cs.*2 !! k = Some (c', k')) as E2 by (by rewrite list_lookup_fmap, E).
      rewrite Hcs, lookup_app_l in E2 by lia. apply list_elem_of_fmap. exists (c', k'). split; [done|].
      by eapply list_elem_of_lookup_2. }
    rewrite (proj2 (Z.eqb_neq _ _) Hne). specialize (IH (S k) ltac:(lia) ltac:(lia)).
    replace (Z.succ (Z.of_nat k)) with (Z.of_nat (S k)) by lia.
    replace (Z.pred (zlen cs - Z.of_nat k)) with (zlen cs - Z.of_nat (S k)) by lia. exact IH.
Qed.

(** Writing the right-child field. *)
Lemma interior_set_right d cco cs rc rc' :
  interior_ok d cco cs rc → is_u32 rc' → interior_ok (splice d 6 (le_bytes 4 rc')) cco cs rc'.
Proof.
  intros [Ht Hs Hcells Hsorted Hright Hrc] Hrc'. pose proof PAGE_SIZE_bounds.
  destruct Hs as [[Hl Hb] Hcount Hcco Hr Hp Hsl Hap Hused]. pose proof (zlen_nonneg (interior_slots cs)).
  unfold INTERIOR_HEADER_SIZE in *.
  split; [by skip_write| |done..| |done].
  - unfold INTERIOR_HEADER_SIZE. split; [|by skip_write|by skip_write|done|by skip_write| |done|done].
    + split; [rewrite length_splice; rewrite ?zlen_le_bytes; lia|apply splice_ok; [done|apply le_bytes_ok]].
    + eapply Forall_impl; [exact Hsl|]. intros [o c]; cbn [fst snd]. intros (?&?&?&?). split_and!; [done..|].
      by skip_write.
  - apply (sub_splice_eq d 6 (le_bytes 4 rc')); rewrite ?zlen_le_bytes; lia.
Qed.

(** After the divider is in, the child to its right becomes the new page. *)
Lemma page_replace_child_spec d cco cs rc key new l1 c l2 :
  interior_ok d cco cs rc → is_u32 new → cs.*2 = l1 ++ (c, key) :: l2 →
  ∃ d' cs' rc', page_replace_child 0 key new d = (Ok tt, d') ∧ interior_ok d' cco cs' rc' ∧
    (cs'.*2, rc') = match l2 with
                    | [] => (l1 ++ [(c, key)], new)
                    | (_, k2) :: l2' => (l1 ++ (c, key) :: (new, k2) :: l2', rc)
                    end.
Proof.
  intros Hin Hnew Hcs. unfold page_replace_child. hdr_zero.
  erewrite ST_bind_Ok by (unfold st_gets; rewrite (interior_count _ _ _ _ Hin); done). cbv beta zeta.
  unfold INTERIOR_HEADER_SIZE.
  erewrite ST_bind_Ok by (unfold st_gets; rewrite (find_divider_spec _ _ _ _ _ _ _ _ Hin Hcs); done). cbv beta iota.
  assert (zlen cs = zlen l1 + 1 + zlen l2) as Hlen.
  { transitivity (zlen cs.*2); [unfold zlen; by rewrite length_fmap|]. rewrite Hcs, zlen_app, zlen_cons. lia. }
  pose proof PAGE_SIZE_bounds. pose proof (interior_page_len _ _ _ _ Hin) as Hl. pose proof (zlen_nonneg l1).
  destruct l2 as [|[c2 k2] l2].
  { rewrite zlen_nil in Hlen. rewrite (proj2 (Z.ltb_ge _ _)) by lia. rewrite put_u32_Ok by lia.
    exists (splice d 6 (le_bytes 4 new)), cs, new. split_and!; [done|by eapply interior_set_right|by rewrite Hcs]. }
  rewrite zlen_cons in Hlen. pose proof (zlen_nonneg l2). rewrite (proj2 (Z.ltb_lt _ _)) by lia.
  destruct (zlen_lookup cs (zlen l1 + 1)) as [[o [c2' k2']] E]; [lia|].
  assert (cs.*2 !! Z.to_nat (zlen l1 + 1) = Some (c2, k2)) as E2.
  { rewrite Hcs. replace (Z.to_nat (zlen l1 + 1)) with (length l1 + 1)%nat by (unfold zlen; lia).
    rewrite lookup_app_r by lia. by replace (length l1 + 1 - length l1)%nat with 1%nat by lia. }
  rewrite list_lookup_fmap, E in E2. simpl in E2. injection E2 as -> ->.
  destruct (interior_read _ _ _ _ _ _ _ _ Hin E) as (Hp & _ & _ & Ho & Hend & _).
  rewrite Z2Nat.id in Hp by lia.
  erewrite ST_bind_Ok by (unfold st_gets; rewrite Hp; done). cbv beta. rewrite put_u32_Ok by lia.
  pose proof (interior_slots_lookup _ _ _ _ E) as E'.
  destruct (slotted_overwrite _ interior_hdr _ _ _ _ _ _ 0 (le_bytes 4 new) (in_slotted _ _ _ _ Hin) E')
    as [Hs' Hsame]; [apply le_bytes_ok|lia|rewrite zlen_le_bytes, zlen_interior_cell; lia|].
  rewrite Z.add_0_r in *.
  assert (splice (interior_cell (c2, k2)) 0 (le_bytes 4 new) = interior_cell (new, k2)) as Hcell by done.
  rewrite Hcell in Hs'.
  exists (splice d o (le_bytes 4 new)), (<[Z.to_nat (zlen l1 + 1) := (o, (new, k2))]> cs), rc.
  assert ((<[Z.to_nat (zlen l1 + 1) := (o, (new, k2))]> cs).*2 = l1 ++ (c, key) :: (new, k2) :: l2) as Hcs'.
  { rewrite list_fmap_insert, Hcs. replace (Z.to_nat (zlen l1 + 1)) with (length l1 + 1)%nat by (unfold zlen; lia).
    by rewrite insert_app_r. }
  split_and!; [done| |by rewrite Hcs']. destruct Hin as [Hty Hs Hcells Hsorted Hright Hrc].
  destruct Hsame as [Hs0 Hs5]. split; [by rewrite Hs0| | | | |done].
  - unfold interior_slots in *. by rewrite list_fmap_insert.
  - apply Forall_insert; [done|]. split; [done|]. simpl.
    apply (Forall_lookup_1 _ _ _ _ Hcells E).
  - rewrite Hcs'. rewrite Hcs in Hsorted. unfold keys in *. rewrite fmap_app in *. done.
  - change (INTERIOR_HEADER_SIZE - 5) with 5 in Hs5.
    assert (∀ x : bytes, sub x 6 4 = sub (sub x 5 5) 1 4) as Hx by (intros; by rewrite sub_sub by lia).
    rewrite Hx in Hright |- *. by rewrite Hs5.
Qed.

Lemma init_interior_spec d rc :
  page_ok d → is_u32 rc → ∃ d', page_write_header 0 (interior_header rc) d = (Ok tt, d') ∧ interior_ok d' PAGE_SIZE [] rc.
Proof.
  intros Hd Hrc.
  destruct (page_write_header_Ok (interior_header rc) d Hd) as (d' & Hrun & Hok & W0 & W1 & W3 & W5 & W6 & _); [done|].
  exists d'. split; [done|]. pose proof PAGE_SIZE_bounds.
  split; [done| |constructor|constructor|done|done]. split; try done.
  - rewrite W3. unfold interior_header. cbn [cell_content_offset]. by rewrite page_size_to_u16_eq, le_bytes_2_as_u16.
  - unfold INTERIOR_HEADER_SIZE, zlen. simpl. lia.
  - constructor.
  - simpl. lia.
Qed.

Lemma collect_interior_spec d cco cs rc :
  interior_ok d cco cs rc → collect (collect_interior_cell d 0) (seqZ 0 (zlen cs)) = Ok cs.*2.
Proof.
  intros Hin. rewrite (collect_Ok _ snd).
  { done. }
  intros i [o [c k]] E. unfold collect_interior_cell. hdr_zero. rewrite Z.add_0_l. unfold INTERIOR_HEADER_SIZE.
  destruct (interior_read _ _ _ _ _ _ _ _ Hin E) as (Hp & Hr & Hc & Ho & Hend & _).
  rewrite Hp. cbn [mbind res_bind]. unfold validate_cell_offset. rewrite (proj2 (Z.ltb_ge PAGE_SIZE _)) by lia.
  cbn [mbind res_bind]. rewrite Hc. cbn [mbind res_bind]. by rewrite Hr.
Qed.
End Interior.

(** ** Lemmas: ranges of an interior page *)

(** [r] lies between the same two keys as [key]. *)
Definition same_range (ks : list Z) (key r : Z) : bool := forallb (λ k, Bool.eqb (k <=? r) (k <=? key)) ks.

Lemma child_for_skip l1 l2 rc r : Forall (λ k, k ≤ r) (keys l1) → child_for (l1 ++ l2) rc r = child_for l2 rc r.
Proof.
  induction l1 as [|[c k] l1 IH]; simpl; intros Hf; [done|]. apply Forall_cons in Hf as [Hk Hf].
  rewrite (proj2 (Z.ltb_ge r k)) by done. auto.
Qed.
Lemma child_for_stop l1 l2 l2' rc rc' r :
  ¬ Forall (λ k, k ≤ r) (keys l1) → child_for (l1 ++ l2) rc r = child_for (l1 ++ l2') rc' r.
Proof.
  induction l1 as [|[c k] l1 IH]; simpl; intros Hf; [by destruct Hf|]. destruct (Z.ltb_spec r k); [done|].
  apply IH. intros Hf'. apply Hf. by constructor.
Qed.
Lemma upper_split l key idx :
  upper_at (keys l) key idx →
  Forall (λ k, k ≤ key) (keys (take (Z.to_nat idx) l)) ∧ Forall (λ k, key < k) (keys (drop (Z.to_nat idx) l)).
Proof.
  intros (Hi & Hle & Hgt). unfold keys in *. split; apply Forall_lookup_2; intros i k Hk.
  - rewrite fmap_take in Hk. apply lookup_take_Some in Hk as [Hk Hlt]. specialize (Hle (Z.of_nat i) ltac:(lia)).
    unfold key_at in Hle. by rewrite Nat2Z.id, Hk in Hle.
  - rewrite fmap_drop, lookup_drop in Hk. pose proof (lookup_lt_Some _ _ _ Hk).
    specialize (Hgt (Z.of_nat (Z.to_nat idx + i)) ltac:(unfold zlen; lia)). unfold key_at in Hgt.
    by rewrite Nat2Z.id, Hk in Hgt.
Qed.
(** Splitting the child that a key belongs to. *)
Lemma child_for_split l1 l2 rc key new r :
  Forall (λ k, k ≤ key) (keys l1) → Forall (λ k, key < k) (keys l2) → StronglySorted Z.lt (keys l2) →
  let child := child_for l2 rc key in
  child_for (match l2 with [] => l1 ++ [(child, key)] | (_, k2) :: l2' => l1 ++ (child, key) :: (new, k2) :: l2' end)
      (match l2 with [] => new | _ => rc end) r =
    (if same_range (keys (l1 ++ l2)) key r then (if r <? key then child else new)
     else child_for (l1 ++ l2) rc r).
Proof.
  intros H1 H2 Hs child. unfold same_range, keys in *. rewrite fmap_app, forallb_app.
  assert (Forall (λ k, k ≤ r) l1.*2 → forallb (λ k, Bool.eqb (k <=? r) (k <=? key)) l1.*2 = true) as Hf1.
  { intros Hr. apply forallb_forall. intros k Hk%list_elem_of_In. rewrite Forall_forall in H1, Hr.
    specialize (H1 k Hk). specialize (Hr k Hk). by rewrite !(proj2 (Z.leb_le _ _)). }
  destruct (Z.ltb_spec r key) as [Hlt|Hge].
  - assert (forallb (λ k, Bool.eqb (k <=? r) (k <=? key)) l2.*2 = true) as ->.
    { apply forallb_forall. intros k Hk%list_elem_of_In. rewrite Forall_forall in H2. specialize (H2 k Hk).
      by rewrite !(proj2 (Z.leb_gt _ _)) by lia. }
    rewrite andb_true_r. destruct (decide (Forall (λ k, k ≤ r) l1.*2)) as [Hr|Hr].
    + rewrite Hf1 by done. destruct l2 as [|[c2 k2] l2]; rewrite child_for_skip by done; simpl;
        by rewrite (proj2 (Z.ltb_lt _ _)).
    + assert (forallb (λ k, Bool.eqb (k <=? r) (k <=? key)) l1.*2 = false) as ->.
      { apply not_true_is_false. intros Hf. apply Hr. rewrite forallb_forall in Hf. apply Forall_forall.
        intros k Hk. specialize (Hf k (proj1 (list_elem_of_In _ _) Hk)). rewrite Forall_forall in H1. specialize (H1 k Hk).
        rewrite (proj2 (Z.leb_le k key)) in Hf by done. by apply Bool.eqb_prop, Z.leb_le in Hf. }
      destruct l2 as [|[c2 k2] l2]; by apply child_for_stop.
  - assert (Forall (λ k, k ≤ r) l1.*2) as Hr by (eapply Forall_impl; [exact H1|]; simpl; lia).
    rewrite Hf1 by done. cbn [andb]. rewrite (child_for_skip l1 l2) by done.
    destruct l2 as [|[c2 k2] l2].
    + rewrite child_for_skip by done. simpl. by rewrite (proj2 (Z.ltb_ge _ _)).
    + rewrite child_for_skip by done. cbn [child_for]. rewrite (proj2 (Z.ltb_ge r key)) by done. cbn [fmap list_fmap snd forallb].
      apply Forall_cons in H2 as [Hk2 H2]. simpl in Hk2. rewrite (proj2 (Z.leb_gt k2 key)) by done.
      destruct (Z.ltb_spec r k2).
      * rewrite (proj2 (Z.leb_gt k2 r)) by done. cbn [Bool.eqb andb].
        assert (forallb (λ k, Bool.eqb (k <=? r) (k <=? key)) l2.*2 = true) as ->; [|done].
        apply forallb_forall. intros k Hk%list_elem_of_In. rewrite Forall_forall in H2. specialize (H2 k Hk).
        inversion Hs as [|? ? _ Hs2]; subst. rewrite Forall_forall in Hs2. specialize (Hs2 k Hk).
        by rewrite !(proj2 (Z.leb_gt _ _)) by lia.
      * rewrite (proj2 (Z.leb_le k2 r)) by done. done.
Qed.

(** ** Properties *)

(** Inserting a cell into a leaf page whose free space can take it is
    sorted insertion on the list of cells the page holds: on success the page
    holds exactly the old cells and the new one in rowid order, with its
    leaf-list links intact; a rowid already there is refused with a constraint
    violation and the page is not written. *)
Theorem leaf_page_insert `{PageSize} d cco cs c :
  leaf_ok d cco cs → cell_ok c → cell_fits cco cs (zlen (cell_bytes c)) →
  match page_insert_cell (header_offset 0) (cell_rowid c) (cell_bytes c) d with
  | (Ok _, d') =>
      (cell_rowid c ∉ rowids cs.*2) ∧
      ∃ cs', leaf_ok d' (cco - zlen (cell_bytes c)) cs' ∧ cs'.*2 = put_cell c cs.*2 ∧ same_links d d'
  | (Err e, d') =>
      cell_rowid c ∈ rowids cs.*2 ∧ d' = d ∧ e = ConstraintViolation "UNIQUE constraint failed: rowid"
  | _ => False
  end.
Proof.
  intros Hleaf Hok Hfits. unfold header_offset.
  destruct (page_insert_cell_spec d cco cs c Hleaf Hok Hfits) as [[Hin ->]|(d' & cs' & Hn & -> & Hl & Hcs & Hsame)].
  - done.
  - split; [done|]. exists cs'. eauto using header_same_links.
Qed.
Lemma leaf_page_insert_witness :
  let _ := page_size_512 in
  ∃ d cs, leaf_ok d 512 [] ∧ (page_insert_cell (header_offset 0) 7 (cell_bytes (CInline 7 [1; 2; 3])) d).1 = Ok tt ∧
    leaf_ok (page_insert_cell (header_offset 0) 7 (cell_bytes (CInline 7 [1; 2; 3])) d).2 497 cs.
Proof.
  intros Hps. destruct (init_leaf_spec zero_page zero_page_page_ok) as (d & _ & Hleaf & _).
  assert (cell_ok (CInline 7 [1; 2; 3])) as Hc by (apply (bool_decide_unpack _); vm_compute; done).
  pose proof (leaf_page_insert d 512 [] (CInline 7 [1; 2; 3]) Hleaf Hc) as Hins.
  specialize (Hins ltac:(vm_compute; done)). change (cell_rowid (CInline 7 [1; 2; 3])) with 7 in Hins.
  destruct (page_insert_cell _ _ _ d) as [[[]|e| |] d'] eqn:E; [|destruct Hins as [Hin _]; set_solver|done..].
  destruct Hins as (_ & cs & Hl & _). exists d, cs. rewrite E. split_and!; [done..|exact Hl].
Defined.

(** The two routines that build the cell directly in the page, for inline
    payloads and for overflow stubs, leave exactly the page (and the result)
    that the generic routine leaves for the corresponding prebuilt cell, on
    every page whose content offset is within the page. *)
Theorem raw_inserts_equivalent `{PageSize} d cco :
  zlen d = PAGE_SIZE → u16_to_page_size <$> read_u16 d 3 = Ok cco → cco ≤ PAGE_SIZE →
  (∀ rowid payload, page_insert_cell_raw (header_offset 0) rowid payload d =
     page_insert_cell (header_offset 0) rowid (make_leaf_cell rowid payload) d) ∧
  (∀ rowid total first, page_insert_overflow_raw (header_offset 0) rowid total first d =
     page_insert_cell (header_offset 0) rowid (make_overflow_cell rowid total first) d).
Proof. intros. split; intros; [by eapply page_insert_cell_raw_eq|by eapply page_insert_overflow_raw_eq]. Qed.
Lemma raw_inserts_equivalent_witness :
  let _ := page_size_512 in
  let d := splice (replicate 512 0) 0 [13; 0; 0; 0; 2] in
  page_insert_cell_raw (header_offset 0) 9 [4; 5] d =
    page_insert_cell (header_offset 0) 9 (make_leaf_cell 9 [4; 5]) d.
Proof.
  intros Hps d. apply (proj1 (raw_inserts_equivalent d 512 ltac:(vm_compute; done) ltac:(vm_compute; done)
    ltac:(vm_compute; done))).
Defined.

(** An interior page sends a rowid to the first child whose key is
    greater, or to the right child; adding a divider key and then redirecting
    the child on its right splits the range of that child at the key: rowids
    of the range below the key still go to the old child, those from the key
    on go to the new page, and rowids of every other range go where they went
    before. *)
Theorem interior_page_add_child `{PageSize} d cco cs rc key new :
  interior_ok d cco cs rc → is_i64 key → is_u32 new → (key ∉ keys cs.*2) →
  INTERIOR_HEADER_SIZE + zlen cs * 2 + 2 + 12 ≤ cco →
  let child := child_for cs.*2 rc key in
  ∃ d1 d2,
    page_insert_interior (header_offset 0) key child d = (Ok tt, d1) ∧
    page_replace_child (header_offset 0) key new d1 = (Ok tt, d2) ∧
    ∀ r, page_find_child d (header_offset 0) r = Ok (child_for cs.*2 rc r) ∧
      page_find_child d2 (header_offset 0) r =
        Ok (if same_range (keys cs.*2) key r then (if r <? key then child else new)
            else child_for cs.*2 rc r).
Proof.
  intros Hin Hk Hnew Hn Hfits child. unfold header_offset.
  assert (Forall (λ c, is_u32 c.1) cs.*2) as Hch.
  { apply Forall_fmap. eapply Forall_impl; [apply (in_cells _ _ _ _ Hin)|]. simpl. by intros c [? _]. }
  assert (is_u32 child) as Hchild.
  { subst child. destruct Hin as [_ _ _ _ _ Hrc]. clear -Hrc Hch. induction Hch as [|[c k] l Hc _ IH]; [done|].
    simpl. by destruct (_ <? _). }
  destruct (page_insert_interior_spec d cco cs rc key child Hin Hchild Hk Hn Hfits) as (d1 & cs1 & idx & Hrun1 & Hin1 & Hat & Hcs1).
  unfold list_insert_at in Hcs1.
  destruct (page_replace_child_spec d1 _ cs1 rc key new _ child _ Hin1 Hnew Hcs1) as (d2 & cs2 & rc2 & Hrun2 & Hin2 & Hcs2).
  exists d1, d2. split_and!; [done..|]. intros r. split; [by eapply page_find_child_spec|].
  rewrite (page_find_child_spec _ _ _ _ _ Hin2). f_equal.
  destruct (upper_split cs.*2 key idx Hat) as [Hlo Hhi].
  set (l1 := take (Z.to_nat idx) cs.*2) in *. set (l2 := drop (Z.to_nat idx) cs.*2) in *.
  assert (cs.*2 = l1 ++ l2) as Hsplit by (symmetry; apply take_drop).
  assert (child = child_for l2 rc key) as Hc by (subst child; rewrite Hsplit; by apply child_for_skip).
  assert (StronglySorted Z.lt (keys l2)) as Hs.
  { pose proof (in_sorted _ _ _ _ Hin) as Hs. rewrite Hsplit in Hs. unfold keys in *. rewrite fmap_app in Hs.
    by apply sorted_app_keys in Hs as (_ & Hs & _). }
  pose proof (child_for_split l1 l2 rc key new r Hlo Hhi Hs) as Hfinal. cbv zeta in Hfinal.
  rewrite Hsplit, Hc, <- Hfinal. rewrite Hc in Hcs2. destruct l2 as [|[c2 k2] l2]; by injection Hcs2 as -> ->.
Qed.
Lemma interior_page_add_child_witness :
  let _ := page_size_512 in
  ∃ d d1 d2, page_insert_interior (header_offset 0) 10 4 d = (Ok tt, d1) ∧
    page_replace_child (header_offset 0) 10 5 d1 = (Ok tt, d2) ∧
    page_find_child d2 (header_offset 0) 9 = Ok 4 ∧ page_find_child d2 (header_offset 0) 10 = Ok 5.
Proof.
  intros Hps. destruct (init_interior_spec zero_page 4 zero_page_page_ok) as (d & _ & Hint); [vm_compute; done|].
  destruct (interior_page_add_child d _ _ _ 10 5 Hint) as (d1 & d2 & H1 & H2 & H3);
    [vm_compute; done|vm_compute; done|set_solver|vm_compute; done|].
  exists d, d1, d2. split_and!; [exact H1|exact H2|exact (proj2 (H3 9))|exact (proj2 (H3 10))].
Defined.
