(* ===== verification/BTree.v ===== *)
(** The B-tree: src/src/storage/btree.rs over the pager interface.

    Overflow chains, insertion with leaf and interior splits, search,
    deletion, update, forward and backward scans along the leaf list,
    prefix-compressed scans and inserts and counting.  Loops over chains of pages and recursion over the
    height take fuel; [Hang] is the outcome when it runs out. *)
From S2P Require Import Prelude Values PagerIface BTreePage.

(** [payload.chunks(n)] *)
Fixpoint chunks_fuel (fuel : nat) (n : Z) (l : bytes) : list bytes :=
  match fuel, l with
  | S fuel, _ :: _ => take (Z.to_nat n) l :: chunks_fuel fuel n (drop (Z.to_nat n) l)
  | _, _ => []
  end.
Definition chunks (n : Z) (l : bytes) : list bytes := chunks_fuel (length l) n l.

(** [for x in l { acc = f(acc, x)? }] *)
Fixpoint st_fold {S A B} (f : B → A → ST S B) (b : B) (l : list A) : ST S B :=
  match l with
  | [] => mret b
  | x :: l' => b' ← f b x; st_fold f b' l'
  end.

(** [v.iter().position(p).unwrap_or(v.len())] *)
Fixpoint position {A} (p : A → bool) (l : list A) : nat :=
  match l with
  | [] => O
  | x :: l' => if p x then O else S (position p l')
  end.
(** [v.insert(i, x)] for [i] at most the length. *)
Definition vec_insert {A} (i : nat) (x : A) (l : list A) : list A := take i l ++ x :: drop i l.

Inductive InsertResult : Type :=
  | Done
  | Split (divider_key new_page : Z).

Section BTree.
Context {P : Type} `{PageSize, PagerOps P}.

(** ** Page accessors *)

Definition write_page_header (page_num : Z) (header : PageHeader) : ST P unit :=
  get_page_mut page_num (page_write_header (header_offset page_num) header).
Definition get_next_leaf (page_num : Z) : ST P Z :=
  data ← get_page page_num; st_lift (read_u32 data (header_offset page_num + 6)).
Definition set_next_leaf (page_num next : Z) : ST P unit :=
  get_page_mut page_num (put_u32 (header_offset page_num + 6) next).
Definition get_prev_leaf (page_num : Z) : ST P Z :=
  data ← get_page page_num; st_lift (read_u32 data (header_offset page_num + 10)).
Definition set_prev_leaf (page_num prev : Z) : ST P unit :=
  get_page_mut page_num (put_u32 (header_offset page_num + 10) prev).
Definition init_leaf_page (page_num : Z) : ST P unit := write_page_header page_num leaf_header.
Definition init_interior_page (page_num right_child : Z) : ST P unit :=
  write_page_header page_num (interior_header right_child).
Definition create_table : ST P Z :=
  page_num ← allocate_page; _ ← init_leaf_page page_num; mret page_num.

(** ** Overflow chains *)

(** The body of the [while let Some(chunk)] loop on the borrowed page. *)
Definition page_write_chunk (next_page : Z) (chunk : bytes) : ST bytes unit :=
  _ ← put_u32 0 next_page;
  _ ← put_bytes 4 chunk;
  if (next_page =? 0) && (zlen chunk <? OVERFLOW_DATA_SIZE)
  then put_bytes (4 + zlen chunk) (replicate (Z.to_nat (PAGE_SIZE - (4 + zlen chunk))) 0)
  else mret tt.
Fixpoint write_chunks (cs : list bytes) (cur_page : Z) : ST P unit :=
  match cs with
  | [] => mret tt
  | chunk :: rest =>
      next_page ← (if bool_decide (rest = []) then mret 0 else allocate_page);
      _ ← get_page_mut cur_page (page_write_chunk next_page chunk);
      write_chunks rest (if bool_decide (rest = []) then cur_page else next_page)
  end.
Definition write_overflow_chain (payload : bytes) : ST P Z :=
  first_page ← allocate_page;
  _ ← write_chunks (chunks OVERFLOW_DATA_SIZE payload) first_page;
  mret first_page.

(** [while cur_page != 0 && result.len() < total_len]: every round adds at
    least a byte, so [total_len] rounds are enough. *)
Fixpoint read_chain (fuel : nat) (cur_page total_len : Z) (result : bytes) : ST P bytes :=
  if (cur_page =? 0) || (total_len <=? zlen result) then mret result
  else match fuel with
  | O => st_lift Hang
  | S fuel =>
      let remaining := total_len - zlen result in
      data ← get_page cur_page;
      next_page ← st_lift (read_u32 data 0);
      let to_copy := Z.min remaining OVERFLOW_DATA_SIZE in
      chunk ← st_lift (slice data 4 (4 + to_copy));
      read_chain fuel next_page total_len (result ++ chunk)
  end.
Definition read_cell_payload (raw_payload_size inline_start : Z) (page_data : bytes) : ST P bytes :=
  if Z.land raw_payload_size OVERFLOW_FLAG =? 0 then
    let len := raw_payload_size in
    if zlen page_data <? inline_start + len
    then st_err (CorruptDatabase "inline payload extends beyond page boundary")
    else st_lift (slice page_data inline_start (inline_start + len))
  else
    let inline_len := Z.land raw_payload_size (U32_MAX - OVERFLOW_FLAG) in
    if zlen page_data <? inline_start + 8
    then st_err (CorruptDatabase "overflow header extends beyond page boundary")
    else
      total_len ← st_lift (read_u32 page_data inline_start);
      overflow_page ← st_lift (read_u32 page_data (inline_start + 4));
      if zlen page_data <? inline_start + 8 + inline_len
      then st_err (CorruptDatabase "overflow inline bytes extend beyond page boundary")
      else
        result ← st_lift (slice page_data (inline_start + 8) (inline_start + 8 + inline_len));
        read_chain (Z.to_nat total_len) overflow_page total_len result.

Fixpoint free_overflow_chain (fuel : nat) (cur : Z) : ST P unit :=
  if cur =? 0 then mret tt
  else match fuel with
  | O => st_lift Hang
  | S fuel =>
      data ← get_page cur;
      next ← st_lift (read_u32 data 0);
      _ ← free_page cur;
      free_overflow_chain fuel next
  end.

(** ** Insertion *)

Definition insert_cell_into_leaf (page_num rowid : Z) (cell_data : bytes) : ST P unit :=
  get_page_mut page_num (page_insert_cell (header_offset page_num) rowid cell_data).
Definition insert_cell_into_leaf_raw (page_num rowid : Z) (payload : bytes) : ST P unit :=
  get_page_mut page_num (page_insert_cell_raw (header_offset page_num) rowid payload).
Definition insert_overflow_cell_raw (page_num rowid total_payload_len overflow_first_page : Z) : ST P unit :=
  get_page_mut page_num
    (page_insert_overflow_raw (header_offset page_num) rowid total_payload_len overflow_first_page).
Definition insert_interior_cell (page_num key left_child : Z) : ST P unit :=
  get_page_mut page_num (page_insert_interior (header_offset page_num) key left_child).
Definition replace_child_pointer (page_num old_child divider_key new_page : Z) : ST P unit :=
  get_page_mut page_num (page_replace_child (header_offset page_num) divider_key new_page).
Definition find_child_page (page_num rowid : Z) : ST P Z :=
  data ← get_page page_num; st_lift (page_find_child data (header_offset page_num) rowid).

Definition split_leaf (page_num rowid : Z) (cell_data : bytes) : ST P InsertResult :=
  old_next ← get_next_leaf page_num;
  old_prev ← get_prev_leaf page_num;
  data ← get_page page_num;
  old_cells ← st_lift (collect_leaf_cells data (header_offset page_num));
  let insert_pos := position (λ '(rid, _), rowid <? rid) old_cells in
  let cells := vec_insert insert_pos (rowid, cell_data) old_cells in
  let mid := if (insert_pos =? length cells - 1)%nat then (length cells - 1)%nat
             else (length cells / 2)%nat in
  divider ← st_lift (index cells (Z.of_nat mid));
  _ ← init_leaf_page page_num;
  _ ← st_iter (λ '(rid, cell), insert_cell_into_leaf page_num rid cell) (take mid cells);
  right_page_num ← allocate_page;
  _ ← init_leaf_page right_page_num;
  _ ← st_iter (λ '(rid, cell), insert_cell_into_leaf right_page_num rid cell) (drop mid cells);
  _ ← set_next_leaf page_num right_page_num;
  _ ← set_prev_leaf page_num old_prev;
  _ ← set_next_leaf right_page_num old_next;
  _ ← set_prev_leaf right_page_num page_num;
  _ ← (if old_next =? 0 then mret tt else set_prev_leaf old_next right_page_num);
  mret (Split divider.1 right_page_num).

Definition split_interior (page_num new_key left_child right_child_of_new : Z) : ST P InsertResult :=
  data ← get_page page_num;
  cell_count ← st_lift (read_u16 data (header_offset page_num + 1));
  old_right_child ← st_lift (read_u32 data (header_offset page_num + 6));
  old_cells ← st_lift (collect (collect_interior_cell data (header_offset page_num)) (seqZ 0 cell_count));
  let insert_pos := position (λ '(_, k), new_key <? k) old_cells in
  let cells0 := vec_insert insert_pos (left_child, new_key) old_cells in
  let last := negb (insert_pos + 1 <? length cells0)%nat in
  let cells := if last then cells0
               else alter (λ '(_, k), (right_child_of_new, k)) (insert_pos + 1)%nat cells0 in
  let final_right_child := if last then right_child_of_new else old_right_child in
  let mid := if (insert_pos =? length cells - 1)%nat then (length cells - 1)%nat
             else (length cells / 2)%nat in
  promoted ← st_lift (index cells (Z.of_nat mid));
  _ ← init_interior_page page_num promoted.1;
  _ ← st_iter (λ '(c, k), insert_interior_cell page_num k c) (take mid cells);
  new_page ← allocate_page;
  _ ← init_interior_page new_page final_right_child;
  _ ← st_iter (λ '(c, k), insert_interior_cell new_page k c) (drop (mid + 1) cells);
  mret (Split promoted.2 new_page).

(** The free bytes between the pointer array and the content area. *)
Definition page_available (data : bytes) (off header_size : Z) : res Z :=
  cc ← read_u16 data (off + 1);
  cco ← read_u16 data (off + 3);
  Ok (saturating_sub (u16_to_page_size cco) (off + header_size + cc * 2)).

(** [insert_into_page]; the fuel bounds the height. *)
Fixpoint insert_into_page (fuel : nat) (page_num rowid : Z) (payload : bytes) : ST P InsertResult :=
  match fuel with
  | O => st_lift Hang
  | S fuel =>
      if U32_MAX <? zlen payload then st_err (BTreeError "payload too large") else
      let off := header_offset page_num in
      data ← get_page page_num;
      pt ← st_lift (index data off);
      if pt =? LEAF_TABLE then
        let needs_overflow := MAX_INLINE_PAYLOAD <? zlen payload in
        let cell_len := if needs_overflow then 12 + 8 else 12 + zlen payload in
        available ← st_lift (page_available data off LEAF_HEADER_SIZE);
        if cell_len + 2 <=? available then
          if needs_overflow then
            overflow_page ← write_overflow_chain payload;
            _ ← insert_overflow_cell_raw page_num rowid (as_u32 (zlen payload)) overflow_page;
            mret Done
          else
            _ ← insert_cell_into_leaf_raw page_num rowid payload; mret Done
        else
          cell_data ← (if needs_overflow then
                         overflow_page ← write_overflow_chain payload;
                         mret (make_overflow_cell rowid (as_u32 (zlen payload)) overflow_page)
                       else mret (make_leaf_cell rowid payload));
          split_leaf page_num rowid cell_data
      else if pt =? INTERIOR_TABLE then
        child_page ← find_child_page page_num rowid;
        r ← insert_into_page fuel child_page rowid payload;
        match r with
        | Done => mret Done
        | Split divider_key new_page =>
            data' ← get_page page_num;
            available ← st_lift (page_available data' off INTERIOR_HEADER_SIZE);
            if 12 + 2 <=? available then
              _ ← insert_interior_cell page_num divider_key child_page;
              _ ← replace_child_pointer page_num child_page divider_key new_page;
              mret Done
            else split_interior page_num divider_key child_page new_page
        end
      else st_err (BTreeError "invalid page type")
  end.

(** A split of the root makes a new root above it. *)
Definition grow_root (root_page : Z) (r : InsertResult) : ST P Z :=
  match r with
  | Done => mret root_page
  | Split divider_key new_page =>
      new_root ← allocate_page;
      _ ← init_interior_page new_root new_page;
      _ ← insert_interior_cell new_root divider_key root_page;
      mret new_root
  end.
Definition insert (fuel : nat) (root_page rowid : Z) (row : Row) : ST P Z :=
  r ← insert_into_page fuel root_page rowid (serialize_row row);
  grow_root root_page r.
(** The caller's buffer is returned beside the new root. *)
Definition insert_with_buf (fuel : nat) (root_page rowid : Z) (row : Row) (buf : bytes) : ST P (Z * bytes) :=
  let buf := serialize_row_into row buf in
  r ← insert_into_page fuel root_page rowid buf;
  root ← grow_root root_page r;
  mret (root, buf).
Definition insert_compressed (fuel : nat) (root_page rowid : Z) (row : Row) (prev_key : bytes) : ST P (Z * bytes) :=
  let '(payload, new_prev) := serialize_index_row_compressed row prev_key in
  r ← insert_into_page fuel root_page rowid payload;
  match r with
  | Done => mret (root_page, new_prev)
  | Split _ _ =>
      _ ← grow_root root_page r;
      st_err (BTreeError "page split occurred during prefix-compressed insert")
  end.

(** ** Search *)

Fixpoint find_by_rowid (fuel : nat) (root_page target_rowid : Z) : ST P (option (Z * Row)) :=
  match fuel with
  | O => st_lift Hang
  | S fuel =>
      let off := header_offset root_page in
      data ← get_page root_page;
      page_type ← st_lift (index data off);
      cell_count ← st_lift (read_u16 data (off + 1));
      if page_type =? LEAF_TABLE then
        found ← st_lift (leaf_find data (off + LEAF_HEADER_SIZE) cell_count target_rowid);
        match found with
        | Some (_, cell_off, raw_size) =>
            page_data ← get_page root_page;
            payload ← read_cell_payload raw_size (cell_off + 12) page_data;
            row ← st_lift (deserialize_row payload);
            mret (Some (target_rowid, row))
        | None => mret None
        end
      else if page_type =? INTERIOR_TABLE then
        child ← find_child_page root_page target_rowid;
        find_by_rowid fuel child target_rowid
      else st_err (BTreeError "unexpected page type")
  end.

Fixpoint max_rowid (fuel : nat) (root_page : Z) : ST P Z :=
  match fuel with
  | O => st_lift Hang
  | S fuel =>
      let off := header_offset root_page in
      data ← get_page root_page;
      page_type ← st_lift (index data off);
      cell_count ← st_lift (read_u16 data (off + 1));
      if page_type =? LEAF_TABLE then
        if cell_count =? 0 then mret 0
        else
          cell_off ← st_lift (read_u16 data (off + LEAF_HEADER_SIZE + (cell_count - 1) * 2));
          _ ← st_lift (validate_cell_offset cell_off 12);
          st_lift (read_i64 data (cell_off + 4))
      else if page_type =? INTERIOR_TABLE then
        right_child ← st_lift (read_u32 data (off + 6));
        max_rowid fuel right_child
      else st_err (BTreeError "unexpected page type")
  end.

(** The child pointers [count_rows] gathers into its fixed array. *)
Definition count_rows_child (data : bytes) (off i : Z) : res Z :=
  cell_offset ← read_u16 data (off + INTERIOR_HEADER_SIZE + i * 2);
  _ ← validate_cell_offset cell_offset 4;
  read_u32 data cell_offset.
Fixpoint count_rows (fuel : nat) (root_page : Z) : ST P Z :=
  match fuel with
  | O => st_lift Hang
  | S fuel =>
      let off := header_offset root_page in
      data ← get_page root_page;
      page_type ← st_lift (index data off);
      cell_count ← st_lift (read_u16 data (off + 1));
      if page_type =? LEAF_TABLE then mret cell_count
      else if page_type =? INTERIOR_TABLE then
        children ← st_lift (collect (count_rows_child data off) (seqZ 0 (Z.min cell_count MAX_INTERIOR_CHILDREN)));
        _ ← (if MAX_INTERIOR_CHILDREN <=? cell_count then st_lift Panic else mret tt);
        right ← st_lift (read_u32 data (off + 6));
        st_fold (λ total child, n ← count_rows fuel child; mret (total + n)) 0 (children ++ [right])
      else mret 0
  end.

(** ** Deletion and update *)

(** The two fuels bound the height and the overflow chain. *)
Fixpoint delete_from_page (fuel chain_fuel : nat) (page_num target_rowid : Z) : ST P bool :=
  match fuel with
  | O => st_lift Hang
  | S fuel =>
      let off := header_offset page_num in
      data ← get_page page_num;
      page_type ← st_lift (index data off);
      if page_type =? LEAF_TABLE then
        deleted ← get_page_mut page_num (page_delete off target_rowid);
        match deleted with
        | None => mret false
        | Some None => mret true
        | Some (Some first_overflow) => _ ← free_overflow_chain chain_fuel first_overflow; mret true
        end
      else if page_type =? INTERIOR_TABLE then
        child ← find_child_page page_num target_rowid;
        delete_from_page fuel chain_fuel child target_rowid
      else st_err (BTreeError "unexpected page type")
  end.
Definition delete_by_rowid (fuel chain_fuel : nat) (root_page target_rowid : Z) : ST P (bool * Z) :=
  deleted ← delete_from_page fuel chain_fuel root_page target_rowid;
  mret (deleted, root_page).
Definition update_row (fuel chain_fuel : nat) (root_page rowid : Z) (new_row : Row) : ST P Z :=
  r ← delete_by_rowid fuel chain_fuel root_page rowid;
  insert fuel r.2 rowid new_row.
Definition update_row_with_buf (fuel chain_fuel : nat) (root_page rowid : Z) (new_row : Row) (buf : bytes)
    : ST P (Z * bytes) :=
  r ← delete_by_rowid fuel chain_fuel root_page rowid;
  insert_with_buf fuel r.2 rowid new_row buf.

(** ** Scans *)

Fixpoint find_leftmost_leaf (fuel : nat) (cur : Z) : ST P Z :=
  match fuel with
  | O => st_lift Hang
  | S fuel =>
      let off := header_offset cur in
      data ← get_page cur;
      page_type ← st_lift (index data off);
      if page_type =? LEAF_TABLE then mret cur
      else
        cell_count ← st_lift (read_u16 data (off + 1));
        child ← (if 0 <? cell_count then
                   cell_off ← st_lift (read_u16 data (off + INTERIOR_HEADER_SIZE));
                   _ ← st_lift (validate_cell_offset cell_off 4);
                   st_lift (read_u32 data cell_off)
                 else st_lift (read_u32 data (off + 6)));
        find_leftmost_leaf fuel child
  end.
Fixpoint find_rightmost_leaf (fuel : nat) (page_num : Z) : ST P Z :=
  match fuel with
  | O => st_lift Hang
  | S fuel =>
      let off := header_offset page_num in
      data ← get_page page_num;
      page_type ← st_lift (index data off);
      if page_type =? LEAF_TABLE then mret page_num
      else if page_type =? INTERIOR_TABLE then
        right_child ← st_lift (read_u32 data (off + 6));
        find_rightmost_leaf fuel right_child
      else st_err (BTreeError "unexpected page type")
  end.

(** How the six scans differ: the offset check they make (if any), whether
    they read the rowid, the direction, the limit, and how a payload is
    decoded given what the previous cell of the page left behind. *)
Record scan_kind := mkScan {
  sc_check : option Z;
  sc_rowid : bool;
  sc_backward : bool;
  sc_limit : option Z;
  sc_decode : bytes → bytes → res (Row * bytes)
}.
Definition decode_plain (payload prev_key : bytes) : res (Row * bytes) :=
  row ← deserialize_row payload; Ok (row, prev_key).

(** The inner [for] loop: [inr] when the limit breaks out of both loops. *)
Fixpoint scan_cells (k : scan_kind) (page_data : bytes) (ptr_base : Z) (idxs : list Z) (prev_key : bytes)
    (results : list (Z * Row)) : ST P (list (Z * Row) + list (Z * Row)) :=
  match idxs with
  | [] => mret (inl results)
  | i :: rest =>
      if match sc_limit k with Some limit => limit <=? zlen results | None => false end
      then mret (inr results)
      else
        cell_off ← st_lift (read_u16 page_data (ptr_base + i * 2));
        _ ← st_lift (match sc_check k with Some n => validate_cell_offset cell_off n | None => Ok cell_off end);
        raw_size ← st_lift (read_u32 page_data cell_off);
        rowid ← (if sc_rowid k then st_lift (read_i64 page_data (cell_off + 4)) else mret 0);
        payload ← read_cell_payload raw_size (cell_off + 12) page_data;
        d ← st_lift (sc_decode k payload prev_key);
        scan_cells k page_data ptr_base rest d.2 (results ++ [(rowid, d.1)])
  end.
(** The outer [while cur != 0] loop. *)
Fixpoint scan_leaves (fuel : nat) (k : scan_kind) (cur : Z) (results : list (Z * Row)) : ST P (list (Z * Row)) :=
  if cur =? 0 then mret results
  else match fuel with
  | O => st_lift Hang
  | S fuel =>
      let off := header_offset cur in
      page_data ← get_page cur;
      cell_count ← st_lift (read_u16 page_data (off + 1));
      let idxs := if sc_backward k then rev (seqZ 0 cell_count) else seqZ 0 cell_count in
      r ← scan_cells k page_data (off + LEAF_HEADER_SIZE) idxs [] results;
      match r with
      | inr out => mret out
      | inl results' =>
          next ← st_lift (read_u32 page_data (if sc_backward k then off + 10 else off + 6));
          scan_leaves fuel k next results'
      end
  end.

(** The fuels bound the height and the number of leaves. *)
Definition scan_leaf_chain (fuel leaves : nat) (root_page : Z) : ST P (list (Z * Row)) :=
  first_leaf ← find_leftmost_leaf fuel root_page;
  scan_leaves leaves (mkScan None true false None decode_plain) first_leaf [].
Definition scan_leaf_chain_rows (fuel leaves : nat) (root_page : Z) : ST P (list Row) :=
  first_leaf ← find_leftmost_leaf fuel root_page;
  rs ← scan_leaves leaves (mkScan (Some 4) false false None decode_plain) first_leaf [];
  mret (map snd rs).
Definition scan_leaf_chain_rows_limit (fuel leaves : nat) (root_page limit : Z) : ST P (list Row) :=
  first_leaf ← find_leftmost_leaf fuel root_page;
  rs ← scan_leaves leaves (mkScan (Some 4) false false (Some limit) decode_plain) first_leaf [];
  mret (map snd rs).
Definition scan_all := scan_leaf_chain.
Definition scan_rows := scan_leaf_chain_rows.
Definition scan_rows_limit := scan_leaf_chain_rows_limit.
Definition scan_all_reverse (fuel leaves : nat) (root_page : Z) : ST P (list (Z * Row)) :=
  last_leaf ← find_rightmost_leaf fuel root_page;
  scan_leaves leaves (mkScan (Some 12) true true None decode_plain) last_leaf [].
Definition scan_rows_reverse_limit (fuel leaves : nat) (root_page limit : Z) : ST P (list Row) :=
  last_leaf ← find_rightmost_leaf fuel root_page;
  rs ← scan_leaves leaves (mkScan (Some 4) false true (Some limit) decode_plain) last_leaf [];
  mret (map snd rs).
Definition scan_all_compressed (fuel leaves : nat) (root_page : Z) : ST P (list (Z * Row)) :=
  first_leaf ← find_leftmost_leaf fuel root_page;
  scan_leaves leaves (mkScan (Some 12) true false None deserialize_index_row_with_prefix) first_leaf [].
End BTree.
