(* ===== verification/BTreeTree.v ===== *)
(** The B-tree as an ordered table: what tree, leaf list and overflow chains
    the pages of a pager hold, and that searching and scanning read it.

    [chain] is an overflow chain holding a payload, [tree] a subtree whose
    rowids lie in a half-open range and whose leaves, left to right, hold
    given cells, [linked] the doubly-linked leaf list, and [btree_rep s root h
    rows] puts them together: the pager [s] holds at [root] a table of height
    [h] with exactly the rows [rows], in increasing rowid order. *)
From S2P Require Import Prelude Values PagerIface BTreePage BTreeNode BTree.

(** Replace a pager call by its result and new state. *)
Ltac pstep H := erewrite ST_bind_Ok by exact H; cbv beta.

Section Represent.
Context `{PageSize}.
Implicit Types (m : gmap Z bytes) (s : list Z).

(** ** Overflow chains *)

Inductive chain (m : gmap Z bytes) : Z → bytes → list Z → Prop :=
  | chain_last p d pl :
      m !! p = Some d → 0 < zlen pl ≤ OVERFLOW_DATA_SIZE →
      sub d 0 4 = le_bytes 4 0 → sub d 4 (zlen pl) = pl → chain m p pl [p]
  | chain_more p d next pl1 pl2 ps :
      m !! p = Some d → zlen pl1 = OVERFLOW_DATA_SIZE →
      sub d 0 4 = le_bytes 4 next → sub d 4 OVERFLOW_DATA_SIZE = pl1 →
      chain m next pl2 ps → chain m p (pl1 ++ pl2) (p :: ps).

(** The payload of a cell and the overflow pages it occupies. *)
Definition cell_payload (m : gmap Z bytes) (c : cell) (pl : bytes) (ps : list Z) : Prop :=
  match c with
  | CInline _ p => pl = p ∧ ps = []
  | COverflow _ t f => t = zlen pl ∧ chain m f pl ps
  end.
(** The cells of a table with their rows and overflow pages. *)
Inductive cells_rows (m : gmap Z bytes) : list cell → list (Z * Row) → list Z → Prop :=
  | cr_nil : cells_rows m [] [] []
  | cr_cons c cs row rows pl ps pgs :
      cell_payload m c pl ps → deserialize_row pl = Ok row → cells_rows m cs rows pgs →
      cells_rows m (c :: cs) ((cell_rowid c, row) :: rows) (ps ++ pgs).

(** ** Trees *)

Definition in_range (lo hi : option Z) (r : Z) : Prop :=
  (∀ l, lo = Some l → l ≤ r) ∧ (∀ u, hi = Some u → r < u).

(** [tree m h lo hi n ls inner]: page [n] roots a subtree of height [h] with
    rowids in [[lo, hi)], leaves [ls] (page and cells) and interior pages
    [inner]; [forest] is the list of children of an interior page, the right
    child last. *)
Inductive tree (m : gmap Z bytes) : nat → option Z → option Z → Z → list (Z * list cell) → list Z → Prop :=
  | tree_leaf lo hi n d cco cs :
      m !! n = Some d → leaf_ok d cco cs → Forall (λ c, in_range lo hi (cell_rowid c)) cs.*2 →
      tree m 0 lo hi n [(n, cs.*2)] []
  | tree_node h lo hi n d cco cs rc ls inner :
      m !! n = Some d → interior_ok d cco cs rc → forest m h lo hi cs.*2 rc ls inner →
      tree m (S h) lo hi n ls (n :: inner)
with forest (m : gmap Z bytes) : nat → option Z → option Z → list (Z * Z) → Z → list (Z * list cell) → list Z → Prop :=
  | forest_last h lo hi rc ls inner :
      tree m h lo hi rc ls inner → forest m h lo hi [] rc ls inner
  | forest_child h lo hi c k cells rc ls1 inner1 ls2 inner2 :
      in_range lo hi k → tree m h lo (Some k) c ls1 inner1 → forest m h (Some k) hi cells rc ls2 inner2 →
      forest m h lo hi ((c, k) :: cells) rc (ls1 ++ ls2) (inner1 ++ inner2).
Scheme tree_mut := Minimality for tree Sort Prop
  with forest_mut := Minimality for forest Sort Prop.
Combined Scheme tree_forest_ind from tree_mut, forest_mut.

Definition tree_cells (ls : list (Z * list cell)) : list cell := concat ls.*2.

(** The leaf list: each leaf names its neighbours. *)
Fixpoint linked (m : gmap Z bytes) (prev : Z) (ps : list Z) (next : Z) : Prop :=
  match ps with
  | [] => True
  | p :: ps' =>
      (∃ d, m !! p = Some d ∧ sub d 6 4 = le_bytes 4 (match ps' with [] => next | q :: _ => q end) ∧
            sub d 10 4 = le_bytes 4 prev) ∧
      linked m p ps' next
  end.

(** The pages of a table are distinct. *)
Record table (m : gmap Z bytes) (h : nat) (root : Z) (ls : list (Z * list cell)) (inner pgs : list Z)
    (rows : list (Z * Row)) : Prop := {
  tb_tree : tree m h None None root ls inner;
  tb_rows : cells_rows m (tree_cells ls) rows pgs;
  tb_linked : linked m 0 ls.*1 0;
  tb_nodup : NoDup (ls.*1 ++ inner ++ pgs)
}.

(** At page [root] the pages hold a table with the rows [rows], in increasing
    rowid order, and [used] are the pages it occupies: leaves, interior pages
    and the overflow chains of its rows. *)
Definition table_at (m : gmap Z bytes) (root : Z) (rows : list (Z * Row)) (used : list Z) : Prop :=
  ∃ h ls inner pgs, table m h root ls inner pgs rows ∧ used = ls.*1 ++ inner ++ pgs.

(** ** Lemmas: trees *)

Lemma in_range_sub lo hi r : in_range lo hi r → in_range None None r.
Proof. done. Qed.

Lemma tree_range m :
  (∀ h lo hi n ls inner, tree m h lo hi n ls inner → Forall (λ c, in_range lo hi (cell_rowid c)) (tree_cells ls)) ∧
  (∀ h lo hi cells rc ls inner, forest m h lo hi cells rc ls inner →
     Forall (λ c, in_range lo hi (cell_rowid c)) (tree_cells ls)).
Proof.
  apply tree_forest_ind; unfold tree_cells; simpl.
  - intros. by rewrite app_nil_r.
  - done.
  - done.
  - intros h lo hi c k cells rc ls1 inner1 ls2 inner2 Hk _ IH1 _ IH2. rewrite fmap_app, concat_app.
    apply Forall_app_2; [eapply Forall_impl; [exact IH1|]|eapply Forall_impl; [exact IH2|]];
      unfold in_range in *; intros x [H1 H2]; split.
    + auto.
    + intros u Hu. destruct Hk as [_ Hk]. specialize (Hk u Hu). specialize (H2 k eq_refl). lia.
    + intros l Hl. destruct Hk as [Hk _]. specialize (Hk l Hl). specialize (H1 k eq_refl). lia.
    + auto.
Qed.
Lemma tree_sorted m :
  (∀ h lo hi n ls inner, tree m h lo hi n ls inner → sorted_cells (tree_cells ls)) ∧
  (∀ h lo hi cells rc ls inner, forest m h lo hi cells rc ls inner → sorted_cells (tree_cells ls)).
Proof.
  apply tree_forest_ind; unfold tree_cells; simpl.
  - intros lo hi n d cco cs _ Hleaf _. rewrite app_nil_r. apply Hleaf.
  - done.
  - done.
  - intros h lo hi c k cells rc ls1 inner1 ls2 inner2 Hk Ht IH1 Hf IH2. rewrite fmap_app, concat_app.
    apply sorted_cells_app. split_and!; [done..|]. intros x y Hx Hy.
    pose proof (proj1 (tree_range m) _ _ _ _ _ _ Ht) as H1. pose proof (proj2 (tree_range m) _ _ _ _ _ _ _ Hf) as H2.
    rewrite Forall_forall in H1, H2. destruct (H1 x Hx) as [_ H1']. destruct (H2 y Hy) as [H2' _].
    specialize (H1' k eq_refl). specialize (H2' k eq_refl). lia.
Qed.

(** The child an interior page sends a rowid to, in the forest. *)
Lemma forest_child_for m h lo hi cells rc ls inner r :
  forest m h lo hi cells rc ls inner → in_range lo hi r →
  ∃ lo' hi' ls1 ls' ls2 inner', tree m h lo' hi' (child_for cells rc r) ls' inner' ∧ in_range lo' hi' r ∧
    ls = ls1 ++ ls' ++ ls2 ∧
    (∀ c, c ∈ tree_cells ls1 → cell_rowid c < r) ∧ (∀ c, c ∈ tree_cells ls2 → r < cell_rowid c).
Proof.
  intros Hf. induction Hf as [h lo hi rc ls inner Ht|h lo hi c k cells rc ls1 inner1 ls2 inner2 Hk Ht Hf IH]; intros Hr.
  - exists lo, hi, [], ls, [], inner. rewrite app_nil_r. split_and!; try done; unfold tree_cells; set_solver.
  - cbn [child_for]. destruct (Z.ltb_spec r k).
    + exists lo, (Some k), [], ls1, ls2, inner1. split_and!; try done.
      * split; [apply Hr|]. intros u [= <-]. done.
      * unfold tree_cells. set_solver.
      * intros x Hx. pose proof (proj2 (tree_range m) _ _ _ _ _ _ _ Hf) as H2. rewrite Forall_forall in H2.
        destruct (H2 x Hx) as [H2' _]. specialize (H2' k eq_refl). lia.
    + destruct IH as (lo' & hi' & lsa & ls' & lsb & inner' & Ht' & Hr' & -> & Ha & Hb).
      { split; [by intros l [= <-]|apply Hr]. }
      exists lo', hi', (ls1 ++ lsa), ls', lsb, inner'. split_and!; [done|done|by rewrite !app_assoc| |done].
      intros x Hx. unfold tree_cells in *. rewrite fmap_app, concat_app, elem_of_app in Hx.
      destruct Hx as [Hx|Hx]; [|auto]. pose proof (proj1 (tree_range m) _ _ _ _ _ _ Ht) as H1.
      rewrite Forall_forall in H1. destruct (H1 x Hx) as [_ H1']. specialize (H1' k eq_refl). lia.
Qed.
End Represent.

Section Reading.
Context {P : Type} `{PagerLaws P}.
Implicit Types (m : gmap Z bytes) (s : P).

(** The state after a read: same pages, no less room. *)
Definition keeps (m : gmap Z bytes) (s s' : P) : Prop :=
  pager_rep s' m ∧ ∀ k, pager_room s k → pager_room s' k.
Lemma keeps_refl m s : pager_rep s m → keeps m s s.
Proof. by split. Qed.
Lemma keeps_trans m s1 s2 s3 : keeps m s1 s2 → keeps m s2 s3 → keeps m s1 s3.
Proof. intros [??] [??]. split; auto. Qed.

Lemma get_page_keeps m s n d :
  pager_rep s m → m !! n = Some d → ∃ s', get_page n s = (Ok d, s') ∧ keeps m s s'.
Proof. intros Hrep Hd. destruct (get_page_law s m n d Hrep Hd) as (s' & ? & ? & ?). by exists s'. Qed.

Lemma rep_page_len m s n d : pager_rep s m → m !! n = Some d → zlen d = PAGE_SIZE ∧ n ≠ 0 ∧ is_u32 n.
Proof. intros Hrep Hd. destruct (pager_rep_page s m n d Hrep Hd) as ([??]&?&?). split_and!; try done || lia; apply H5. Qed.

(** Following an overflow chain yields its payload. *)
Lemma read_chain_spec m p pl ps :
  chain m p pl ps → ∀ s fuel total acc, pager_rep s m → total = zlen acc + zlen pl → zlen pl ≤ Z.of_nat fuel →
  ∃ s', read_chain fuel p total acc s = (Ok (acc ++ pl), s') ∧ keeps m s s'.
Proof.
  pose proof PAGE_SIZE_bounds.
  assert (OVERFLOW_DATA_SIZE = PAGE_SIZE - 4) as Hods by done.
  induction 1 as [p d pl Hd Hpl Hnext Hdata|p d next pl1 pl2 ps Hd Hpl1 Hnext Hdata Hch IH];
    intros s fuel total acc Hrep Htot Hfuel; destruct (rep_page_len _ _ _ _ Hrep Hd) as (Hl & Hp0 & _).
  - destruct fuel as [|fuel]; [lia|]. cbn [read_chain].
    rewrite (proj2 (Z.eqb_neq _ _) Hp0), (proj2 (Z.leb_gt _ _)) by lia. cbn [orb].
    destruct (get_page_keeps _ _ _ _ Hrep Hd) as (s1 & Hg & Hk1). pstep Hg.
    erewrite ST_bind_Ok; [|unfold st_lift; rewrite (read_u32_sub d 0 0) by (done || lia); done]. cbv beta zeta.
    rewrite Z.min_l by lia. replace (total - zlen acc) with (zlen pl) by lia.
    erewrite ST_bind_Ok; [|unfold st_lift; rewrite slice_Ok by lia; done]. cbv beta.
    replace (4 + zlen pl - 4) with (zlen pl) by lia. rewrite Hdata.
    exists s1. split; [|done]. by destruct fuel.
  - pose proof (zlen_nonneg pl2). rewrite zlen_app in Htot, Hfuel.
    destruct fuel as [|fuel]; [lia|]. cbn [read_chain].
    rewrite (proj2 (Z.eqb_neq _ _) Hp0), (proj2 (Z.leb_gt _ _)) by lia. cbn [orb].
    destruct (get_page_keeps _ _ _ _ Hrep Hd) as (s1 & Hg & Hk1). pstep Hg.
    assert (is_u32 next) as Hnu.
    { inversion Hch as [? dn ? Hdn|? dn ? ? ? ? Hdn]; subst; apply (rep_page_len _ _ _ _ Hrep Hdn). }
    erewrite ST_bind_Ok; [|unfold st_lift; rewrite (read_u32_sub d 0 next) by (done || lia); done]. cbv beta zeta.
    rewrite as_u32_id, Z.min_r by (done || lia).
    erewrite ST_bind_Ok; [|unfold st_lift; rewrite slice_Ok by lia; done]. cbv beta.
    replace (4 + OVERFLOW_DATA_SIZE - 4) with OVERFLOW_DATA_SIZE by lia. rewrite Hdata.
    destruct (IH s1 fuel total (acc ++ pl1)) as (s2 & Hr & Hk2); [apply Hk1|rewrite zlen_app; lia|lia|].
    exists s2. rewrite app_assoc. split; [done|]. by eapply keeps_trans.
Qed.

(** Reading the payload of a cell found on a page. *)
Lemma read_cell_payload_spec m s d o c pl ps :
  pager_rep s m → cell_ok c → 0 ≤ o → o + zlen (cell_bytes c) ≤ PAGE_SIZE → zlen d = PAGE_SIZE →
  sub d o (zlen (cell_bytes c)) = cell_bytes c → cell_payload m c pl ps →
  ∃ s', read_cell_payload (cell_raw_size c) (o + 12) d s = (Ok pl, s') ∧ keeps m s s'.
Proof.
  intros Hrep Hok Ho Hend Hl Hsub Hpl. unfold read_cell_payload. rewrite cell_raw_size_flag by done.
  assert (∀ k n, 0 ≤ k → 0 ≤ n → k + n ≤ zlen (cell_bytes c) → sub d (o + k) n = sub (cell_bytes c) k n) as Hwin.
  { intros k n ???. rewrite <- Hsub. by rewrite sub_sub by lia. }
  rewrite cell_bytes_len in *. destruct c as [r p|r t f]; simpl in Hpl.
  - destruct Hpl as [-> ->]. cbn [cell_raw_size]. pose proof (zlen_nonneg p). rewrite (proj2 (Z.ltb_ge _ _)) by lia.
    unfold st_lift. rewrite slice_Ok by lia. replace (o + 12 + zlen p - (o + 12)) with (zlen p) by lia.
    rewrite (Hwin 12 (zlen p)) by lia. exists s. split; [|by apply keeps_refl]. do 2 f_equal.
    cbn [cell_bytes]. unfold make_leaf_cell. rewrite app_assoc, sub_app_r by (rewrite !zlen_app, !zlen_le_bytes; lia).
    rewrite sub_all; [done|]. lia.
  - destruct Hpl as [-> Hch]. destruct Hok as (_ & Ht & Hf). cbn [cell_raw_size].
    rewrite (proj2 (Z.ltb_ge _ _)) by lia. change (Z.land OVERFLOW_FLAG (U32_MAX - OVERFLOW_FLAG)) with 0.
    assert (sub d (o + 12) 4 = le_bytes 4 (zlen pl) ∧ sub d (o + 12 + 4) 4 = le_bytes 4 f) as [Hs1 Hs2].
    { rewrite <- Z.add_assoc, !Hwin by lia. cbn [cell_bytes]. unfold make_overflow_cell. split.
      - rewrite app_assoc, sub_app_r by (rewrite !zlen_app, !zlen_le_bytes; lia).
        rewrite sub_app_l by (rewrite ?zlen_app, ?zlen_le_bytes; lia). by rewrite sub_all by (rewrite ?zlen_app, ?zlen_le_bytes; lia).
      - rewrite !app_assoc, sub_app_r by (rewrite !zlen_app, !zlen_le_bytes; lia).
        by rewrite sub_all by (rewrite ?zlen_app, ?zlen_le_bytes; lia). }
    erewrite ST_bind_Ok; [|unfold st_lift; rewrite (read_u32_sub d _ _) by (exact Hs1 || lia); done]. cbv beta.
    rewrite as_u32_id by done.
    erewrite ST_bind_Ok; [|unfold st_lift; rewrite (read_u32_sub d _ _) by (exact Hs2 || lia); done]. cbv beta.
    rewrite as_u32_id by done. rewrite (proj2 (Z.ltb_ge _ _)) by lia.
    erewrite ST_bind_Ok; [|unfold st_lift; rewrite slice_Ok by lia; done]. cbv beta.
    replace (o + 12 + 8 + 0 - (o + 12 + 8)) with 0 by lia.
    destruct (read_chain_spec _ _ _ _ Hch s (Z.to_nat (zlen pl)) (zlen pl) (sub d (o + 12 + 8) 0)) as (s' & Hr & Hk);
      [done|done|pose proof (zlen_nonneg pl); lia|]. exists s'. split; [exact Hr|done].
Qed.

Lemma page_type_byte (d : bytes) (t : Z) : zlen d = PAGE_SIZE → sub d 0 1 = [t] → index d 0 = Ok t.
Proof.
  intros Hl Ht. pose proof PAGE_SIZE_bounds. destruct d as [|x d]; [unfold zlen in Hl; simpl in Hl; lia|].
  unfold sub in Ht. simpl in Ht. by injection Ht as ->.
Qed.

(** Cells and rows by position. *)
Lemma cells_rows_app m cs1 cs2 rows pgs :
  cells_rows m (cs1 ++ cs2) rows pgs →
  ∃ r1 r2 p1 p2, rows = r1 ++ r2 ∧ pgs = p1 ++ p2 ∧ cells_rows m cs1 r1 p1 ∧ cells_rows m cs2 r2 p2.
Proof.
  revert rows pgs. induction cs1 as [|c cs1 IH]; intros rows pgs Hc; simpl in *.
  - exists [], rows, [], pgs. split_and!; [done..|constructor|done].
  - inversion Hc as [|? ? row rows' pl ps pgs' Hpl Hrow Hrest]; subst.
    destruct (IH _ _ Hrest) as (r1 & r2 & p1 & p2 & -> & -> & H1' & H2').
    exists ((cell_rowid c, row) :: r1), r2, (ps ++ p1), p2. split_and!; [done|by rewrite app_assoc|by econstructor|done].
Qed.
Lemma cells_rows_app_2 m cs1 cs2 r1 r2 p1 p2 :
  cells_rows m cs1 r1 p1 → cells_rows m cs2 r2 p2 → cells_rows m (cs1 ++ cs2) (r1 ++ r2) (p1 ++ p2).
Proof. induction 1; intros; simpl; [done|]. rewrite <- app_assoc. econstructor; eauto. Qed.
Lemma cells_rows_rowids m cs rows pgs : cells_rows m cs rows pgs → rows.*1 = rowids cs.
Proof. induction 1; simpl; f_equal; done. Qed.
Lemma cells_rows_elem m cs rows pgs c :
  cells_rows m cs rows pgs → c ∈ cs →
  ∃ row pl ps, (cell_rowid c, row) ∈ rows ∧ cell_payload m c pl ps ∧ deserialize_row pl = Ok row.
Proof.
  induction 1 as [|c' cs row rows pl ps pgs Hpl Hrow Hrest IH]; [set_solver|].
  intros [->|Hin]%elem_of_cons.
  - exists row, pl, ps. split_and!; [by left|done..].
  - destruct (IH Hin) as (row' & pl' & ps' & ? & ? & ?). exists row', pl', ps'. split_and!; [by right|done..].
Qed.
(** Rowids are unique in a table. *)
Lemma rows_functional m cs rows pgs r row row' :
  cells_rows m cs rows pgs → sorted_cells cs → (r, row) ∈ rows → (r, row') ∈ rows → row = row'.
Proof.
  intros Hc Hs. apply sorted_nodup in Hs. rewrite <- (cells_rows_rowids _ _ _ _ Hc) in Hs. clear Hc.
  induction rows as [|[r0 row0] rows IH]; [set_solver|]. simpl in Hs. apply NoDup_cons in Hs as [Hn Hs].
  intros [Heq|Hin]%elem_of_cons [Heq'|Hin']%elem_of_cons; simplify_eq; try done; [..|by apply IH];
    exfalso; apply Hn; apply list_elem_of_fmap; by eexists (_, _).
Qed.

(** What [find_by_rowid] should return. *)
Definition row_lookup (r : Z) (rows : list (Z * Row)) : option (Z * Row) :=
  head (filter (λ x, x.1 = r) rows).
Lemma row_lookup_elem r row rows :
  (∀ row', (r, row') ∈ rows → row' = row) → (r, row) ∈ rows → row_lookup r rows = Some (r, row).
Proof.
  unfold row_lookup. intros Hu Hin. induction rows as [|[r0 row0] rows IH]; [set_solver|].
  rewrite filter_cons. simpl. case_decide as Hr.
  - simpl in *. subst. f_equal. f_equal. apply Hu. by left.
  - apply IH; [intros; apply Hu; by right|]. apply elem_of_cons in Hin as [|]; [by simplify_eq|done].
Qed.
Lemma row_lookup_none r rows : (r ∉ rows.*1) → row_lookup r rows = None.
Proof.
  unfold row_lookup. intros Hn. induction rows as [|[r0 row0] rows IH]; [done|]. simpl in *.
  rewrite filter_cons_False by set_solver. apply IH. set_solver.
Qed.

Lemma find_by_rowid_tree m h : ∀ lo hi n ls inner s r rows pgs fuel,
  tree m h lo hi n ls inner → in_range lo hi r → cells_rows m (tree_cells ls) rows pgs → pager_rep s m →
  (h < fuel)%nat → ∃ s', find_by_rowid fuel n r s = (Ok (row_lookup r rows), s') ∧ keeps m s s'.
Proof.
  induction h as [|h IH]; intros lo hi n ls inner s r rows pgs fuel Ht Hr Hrows Hrep Hfuel;
    (destruct fuel as [|fuel]; [lia|]); cbn [find_by_rowid]; unfold header_offset; cbv zeta.
  - pose proof (proj1 (tree_sorted m) _ _ _ _ _ _ Ht) as Hsort.
    inversion Ht as [? ? ? d cco cs Hd Hleaf _|]; subst. unfold tree_cells in *. simpl in *. rewrite app_nil_r in *.
    destruct (rep_page_len _ _ _ _ Hrep Hd) as (Hl & Hn0 & _).
    destruct (get_page_keeps _ _ _ _ Hrep Hd) as (s1 & Hg & Hk1). pstep Hg.
    erewrite ST_bind_Ok; [|unfold st_lift; rewrite (page_type_byte _ _ Hl (lf_type _ _ _ Hleaf)); done]. cbv beta.
    erewrite ST_bind_Ok; [|unfold st_lift; change (0 + 1) with 1; rewrite (leaf_count _ _ _ Hleaf); done]. cbv beta.
    rewrite Z.eqb_refl. change (0 + LEAF_HEADER_SIZE) with 14.
    destruct (leaf_find_spec _ _ _ r Hleaf) as [(i & o & c & Hi & Hc & Hcr & Hf)|[Hn Hf]].
    + erewrite ST_bind_Ok by (unfold st_lift; rewrite Hf; done). cbv beta iota.
      destruct (get_page_keeps _ _ _ _ (proj1 Hk1) Hd) as (s2 & Hg2 & Hk2). pstep Hg2.
      destruct (leaf_read _ _ _ _ _ _ Hleaf Hc) as (_ & _ & _ & Ho & Hend & Hsub).
      pose proof (Forall_lookup_1 _ _ _ _ (lf_cells _ _ _ Hleaf) Hc) as Hok. simpl in Hok.
      assert (c ∈ cs.*2) as Hin.
      { apply list_elem_of_fmap. exists (o, c). split; [done|]. by eapply list_elem_of_lookup_2. }
      destruct (cells_rows_elem _ _ _ _ _ Hrows Hin) as (row & pl & ps & Hrow & Hpl & Hdec).
      destruct (read_cell_payload_spec _ _ _ _ _ _ _ (proj1 Hk2) Hok Ho Hend Hl Hsub Hpl) as (s3 & Hp & Hk3).
      pstep Hp. erewrite ST_bind_Ok by (unfold st_lift; rewrite Hdec; done). exists s3.
      split; [|by eapply keeps_trans; [exact Hk1|]; eapply keeps_trans].
      rewrite Hcr in Hrow. rewrite (row_lookup_elem r row); [done| |done].
      intros row' Hrow'. by eapply rows_functional.
    + erewrite ST_bind_Ok by (unfold st_lift; rewrite Hf; done). exists s1. split; [|done].
      rewrite row_lookup_none; [done|]. by rewrite (cells_rows_rowids _ _ _ _ Hrows).
  - pose proof (proj1 (tree_sorted m) _ _ _ _ _ _ Ht) as Hsort.
    inversion Ht as [|? ? ? ? d cco cs rc ? inner' Hd Hint Hf]; subst.
    pose proof (interior_page_len _ _ _ _ Hint) as Hl.
    destruct (get_page_keeps _ _ _ _ Hrep Hd) as (s1 & Hg & Hk1). pstep Hg.
    erewrite ST_bind_Ok; [|unfold st_lift; rewrite (page_type_byte _ _ Hl (in_type _ _ _ _ Hint)); done]. cbv beta.
    erewrite ST_bind_Ok; [|unfold st_lift; change (0 + 1) with 1; rewrite (interior_count _ _ _ _ Hint); done]. cbv beta.
    change (INTERIOR_TABLE =? LEAF_TABLE) with false. rewrite Z.eqb_refl. cbv iota.
    destruct (get_page_keeps _ _ _ _ (proj1 Hk1) Hd) as (s2 & Hg2 & Hk2).
    assert (find_child_page n r s1 = (Ok (child_for cs.*2 rc r), s2)) as Hfc.
    { unfold find_child_page. pstep Hg2. unfold st_lift, header_offset. by rewrite (page_find_child_spec _ _ _ _ _ Hint). }
    pstep Hfc.
    destruct (forest_child_for _ _ _ _ _ _ _ _ r Hf Hr) as (lo' & hi' & ls1 & ls' & ls2 & inner2 & Ht' & Hr' & -> & Ha & Hb).
    unfold tree_cells in Hrows. rewrite !fmap_app, !concat_app in Hrows.
    apply cells_rows_app in Hrows as (ra & rbc & pa & pbc & -> & -> & Hra & Hrbc).
    apply cells_rows_app in Hrbc as (rb & rc' & pb & pc & -> & -> & Hrb & Hrc).
    destruct (IH _ _ _ _ _ s2 r rb pb fuel Ht' Hr' Hrb (proj1 Hk2) ltac:(lia)) as (s3 & Hfind & Hk3).
    exists s3. split; [|by eapply keeps_trans; [exact Hk1|]; eapply keeps_trans]. rewrite Hfind. do 2 f_equal.
    unfold row_lookup. rewrite !filter_app.
    rewrite (filter_none _ ra), (filter_none _ rc'), app_nil_r; [done|..].
    + apply Forall_forall. intros [r0 row0] Hin Heq. simpl in Heq. subst.
      assert (r ∈ rc'.*1) as Hin' by (apply list_elem_of_fmap; by eexists (_, _)).
      rewrite (cells_rows_rowids _ _ _ _ Hrc) in Hin'. apply list_elem_of_fmap in Hin' as (c & -> & Hc).
      specialize (Hb c Hc). lia.
    + apply Forall_forall. intros [r0 row0] Hin Heq. simpl in Heq. subst.
      assert (r ∈ ra.*1) as Hin' by (apply list_elem_of_fmap; by eexists (_, _)).
      rewrite (cells_rows_rowids _ _ _ _ Hra) in Hin'. apply list_elem_of_fmap in Hin' as (c & -> & Hc).
      specialize (Ha c Hc). lia.
Qed.

(** ** Lemmas: scans *)

Definition plain_scan (k : scan_kind) : Prop :=
  sc_decode k = decode_plain ∧ (∀ n, sc_check k = Some n → n ≤ 12) ∧ (∀ n, sc_limit k = Some n → 0 ≤ n).
(** What a scan keeps of a row, and how the limit cuts the result. *)
Definition scan_out (k : scan_kind) (rows : list (Z * Row)) : list (Z * Row) :=
  map (λ x, (if sc_rowid k then x.1 else 0, x.2)) rows.
Definition scan_cut (k : scan_kind) (l : list (Z * Row)) : list (Z * Row) :=
  match sc_limit k with Some n => take (Z.to_nat n) l | None => l end.
Definition under_limit (k : scan_kind) (l : list (Z * Row)) : Prop :=
  ∀ n, sc_limit k = Some n → zlen l ≤ n.

Lemma scan_cells_spec k m d cco cs : plain_scan k → leaf_ok d cco cs →
  ∀ idxs cl rows pgs s prev acc,
  Forall2 (λ i c, 0 ≤ i ∧ ∃ o, cs !! Z.to_nat i = Some (o, c)) idxs cl →
  cells_rows m cl rows pgs → pager_rep s m → under_limit k acc →
  ∃ s' r, scan_cells k d 14 idxs prev acc s = (Ok r, s') ∧ keeps m s s' ∧
    ((r = inl (acc ++ scan_out k rows) ∧ under_limit k (acc ++ scan_out k rows)) ∨
     ∃ out, r = inr out ∧ ∀ more, scan_cut k (acc ++ scan_out k rows ++ more) = out).
Proof.
  intros (Hdec & Hchk & Hlim) Hleaf idxs cl rows pgs s prev acc HF. revert rows pgs s prev acc.
  pose proof (proj1 (sl_page _ _ _ _ (lf_slotted _ _ _ Hleaf))) as Hl.
  induction HF as [|i c idxs cl (Hi & o & Hc) HF IH]; intros rows pgs s prev acc Hrows Hrep Hacc.
  - inversion Hrows; subst. exists s, (inl acc). split_and!; [done|by apply keeps_refl|].
    left. simpl. by rewrite app_nil_r.
  - inversion Hrows as [|? ? row rows' pl ps pgs' Hpl Hrow Hrest]; subst. cbn [scan_cells].
    destruct (match sc_limit k with Some limit => limit <=? zlen acc | None => false end) eqn:Elim.
    { destruct (sc_limit k) as [n|] eqn:En; [|done]. exists s, (inr acc). split_and!; [done|by apply keeps_refl|].
      right. exists acc. split; [done|]. intros more. unfold scan_cut. rewrite En.
      apply Z.leb_le in Elim. specialize (Hacc n En). rewrite take_app_le by (unfold zlen in *; lia).
      apply take_ge. unfold zlen in *. lia. }
    destruct (leaf_read _ _ _ _ _ _ Hleaf Hc) as (Hp & Hrd & Hsz & Ho & Hend & Hsub).
    rewrite Z2Nat.id in Hp by lia.
    pose proof (Forall_lookup_1 _ _ _ _ (lf_cells _ _ _ Hleaf) Hc) as Hok. simpl in Hok.
    pose proof (cell_bytes_len_ge c).
    erewrite ST_bind_Ok by (unfold st_lift; rewrite Hp; done). cbv beta.
    assert (match sc_check k with Some n => validate_cell_offset o n | None => Ok o end = Ok o) as Hv.
    { destruct (sc_check k) as [n|] eqn:En; [|done]. specialize (Hchk n eq_refl). unfold validate_cell_offset.
      by rewrite (proj2 (Z.ltb_ge PAGE_SIZE _)) by lia. }
    erewrite ST_bind_Ok by (unfold st_lift; rewrite Hv; done). cbv beta.
    erewrite ST_bind_Ok by (unfold st_lift; rewrite Hsz; done). cbv beta.
    assert ((if sc_rowid k then st_lift (read_i64 d (o + 4)) else mret 0) s =
      (Ok (if sc_rowid k then cell_rowid c else 0), s)) as Hrid.
    { unfold st_lift. destruct (sc_rowid k); [by rewrite Hrd|done]. }
    pstep Hrid.
    destruct (read_cell_payload_spec _ _ _ _ _ _ _ Hrep Hok Ho Hend Hl Hsub Hpl) as (s1 & Hpay & Hk1). pstep Hpay.
    assert (sc_decode k pl prev = Ok (row, prev)) as Hdk.
    { rewrite Hdec. unfold decode_plain. by rewrite Hrow. }
    erewrite ST_bind_Ok by (unfold st_lift; rewrite Hdk; done). cbn [fst snd].
    destruct (IH rows' pgs' s1 prev (acc ++ [(if sc_rowid k then cell_rowid c else 0, row)])) as (s2 & r & Hs & Hk2 & Hr);
      [done|apply Hk1| |].
    { intros n En. rewrite En in Elim. apply Z.leb_gt in Elim. rewrite zlen_app, zlen_cons, zlen_nil. lia. }
    exists s2, r. split; [exact Hs|]. split; [by eapply keeps_trans|].
    destruct Hr as [[-> Hu]|(out & -> & Hcut)]; [left; by rewrite <- app_assoc in *|].
    right. exists out. split; [done|]. intros more. rewrite <- (Hcut more). by rewrite <- app_assoc.
Qed.

Lemma cells_rows_rev m cs rows pgs :
  cells_rows m cs rows pgs → ∃ pgs', cells_rows m (rev cs) (rev rows) pgs'.
Proof.
  induction 1 as [|c cs row rows pl ps pgs Hpl Hrow Hrest [pgs' IH]]; simpl; [eexists; constructor|].
  exists (pgs' ++ (ps ++ [])). apply cells_rows_app_2; [done|]. econstructor; [done..|constructor].
Qed.

(** The leaves of a tree are leaf pages. *)
Definition leaves_ok m (ls : list (Z * list cell)) : Prop :=
  Forall (λ x, ∃ d cco cs, m !! x.1 = Some d ∧ leaf_ok d cco cs ∧ cs.*2 = x.2) ls.
Lemma tree_leaves_ok m :
  (∀ h lo hi n ls inner, tree m h lo hi n ls inner → leaves_ok m ls ∧ ls ≠ []) ∧
  (∀ h lo hi cells rc ls inner, forest m h lo hi cells rc ls inner → leaves_ok m ls ∧ ls ≠ []).
Proof.
  unfold leaves_ok. apply tree_forest_ind; try done.
  - intros lo hi n d cco cs Hd Hleaf _. split; [|done]. constructor; [|done]. by exists d, cco, cs.
  - intros h lo hi c k cells rc ls1 inner1 ls2 inner2 _ _ [H1' ?] _ [H2' ?]. split; [by apply Forall_app_2|].
    by destruct ls1.
Qed.

Lemma Forall2_rev {A B} (R : A → B → Prop) l k : Forall2 R l k → Forall2 R (rev l) (rev k).
Proof. induction 1; simpl; [constructor|]. apply Forall2_app; [done|]. by repeat constructor. Qed.

(** Reading one leaf of a scan. *)
Lemma scan_leaf_page k m s n cl (more : bytes → list (Z * Row) → ST P (list (Z * Row))) rows pgs acc d cco cs :
  plain_scan k → pager_rep s m → m !! n = Some d → leaf_ok d cco cs → cs.*2 = cl →
  cells_rows m cl rows pgs → under_limit k acc →
  ∃ s' r, keeps m s s' ∧
    (page_data ← get_page n;
     cell_count ← st_lift (read_u16 page_data (0 + 1));
     r ← scan_cells k page_data (0 + LEAF_HEADER_SIZE)
       (if sc_backward k then rev (seqZ 0 cell_count) else seqZ 0 cell_count) [] acc;
     match r with inr out => mret out | inl results' => more page_data results' end) s =
    match r with inr out => (Ok out, s') | inl results' => more d results' s' end ∧
    let out := scan_out k (if sc_backward k then rev rows else rows) in
    ((r = inl (acc ++ out) ∧ under_limit k (acc ++ out)) ∨
     ∃ o, r = inr o ∧ ∀ rest, scan_cut k (acc ++ out ++ rest) = o).
Proof.
  intros Hk Hrep Hd Hleaf <- Hrows Hacc.
  destruct (get_page_keeps _ _ _ _ Hrep Hd) as (s1 & Hg & Hk1).
  assert (Forall2 (λ i c, 0 ≤ i ∧ ∃ o, cs !! Z.to_nat i = Some (o, c)) (seqZ 0 (zlen cs)) cs.*2) as HF.
  { apply Forall2_same_length_lookup_2.
    - rewrite length_seqZ, length_fmap. unfold zlen. lia.
    - intros i x c Hx Hc. apply lookup_seqZ in Hx as [-> Hlt]. rewrite list_lookup_fmap in Hc.
      split; [lia|]. replace (Z.to_nat (0 + Z.of_nat i)) with i by lia.
      destruct (cs !! i) as [[o c']|]; [|done]. simpl in Hc. injection Hc as ->. by exists o. }
  assert (∃ pgs', cells_rows m (if sc_backward k then rev cs.*2 else cs.*2)
    (if sc_backward k then rev rows else rows) pgs') as [pgs' Hrows'].
  { destruct (sc_backward k); [by eapply cells_rows_rev|by exists pgs]. }
  assert (Forall2 (λ i c, 0 ≤ i ∧ ∃ o, cs !! Z.to_nat i = Some (o, c))
    (if sc_backward k then rev (seqZ 0 (zlen cs)) else seqZ 0 (zlen cs))
    (if sc_backward k then rev cs.*2 else cs.*2)) as HF'.
  { destruct (sc_backward k); [by apply Forall2_rev|done]. }
  destruct (scan_cells_spec k m d cco cs Hk Hleaf _ _ _ _ s1 [] acc HF' Hrows' (proj1 Hk1) Hacc) as (s2 & r & Hs & Hk2 & Hr).
  exists s2, r. split; [by eapply keeps_trans|]. split; [|exact Hr].
  pstep Hg. erewrite ST_bind_Ok; [|unfold st_lift; change (0 + 1) with 1; rewrite (leaf_count _ _ _ Hleaf); done]. cbv beta.
  change (0 + LEAF_HEADER_SIZE) with 14. pstep Hs. by destruct r.
Qed.

(** Forward: from the first of a run of linked leaves to the end. *)
Lemma scan_leaves_forward k m : plain_scan k → sc_backward k = false →
  ∀ ls prev rows pgs s acc fuel, leaves_ok m ls → linked m prev ls.*1 0 →
  cells_rows m (tree_cells ls) rows pgs → pager_rep s m → under_limit k acc → (length ls ≤ fuel)%nat →
  ∃ s', scan_leaves fuel k (hd 0 ls.*1) acc s = (Ok (scan_cut k (acc ++ scan_out k rows)), s') ∧ keeps m s s'.
Proof.
  intros Hk Hb ls. induction ls as [|[n cl] ls IH]; intros prev rows pgs s acc fuel Hok Hlink Hrows Hrep Hacc Hfuel.
  { inversion Hrows; subst. exists s. split; [|by apply keeps_refl]. unfold scan_cut. simpl. rewrite app_nil_r.
    destruct fuel; simpl; (destruct (sc_limit k) as [l|] eqn:E; [|done]); (rewrite take_ge; [done|]);
      specialize (Hacc l E); destruct Hk as (_ & _ & Hk); specialize (Hk l E); unfold zlen in *; lia. }
  apply Forall_cons in Hok as [(d & cco & cs & Hd & Hleaf & Hcs) Hok]. simpl in Hd, Hcs.
  simpl in Hlink. destruct Hlink as [(d' & Hd' & Hnext & _) Hlink]. rewrite Hd in Hd'. injection Hd' as <-.
  unfold tree_cells in Hrows. simpl in Hrows.
  apply cells_rows_app in Hrows as (r1 & r2 & p1 & p2 & -> & -> & Hr1 & Hr2).
  destruct (rep_page_len _ _ _ _ Hrep Hd) as (Hl & Hn0 & _).
  destruct fuel as [|fuel]; [simpl in Hfuel; lia|]. cbn [scan_leaves hd fmap list_fmap fst].
  rewrite (proj2 (Z.eqb_neq _ _) Hn0). unfold header_offset. cbv zeta.
  destruct (scan_leaf_page k m s n cl
    (λ page_data results', next ← st_lift (read_u32 page_data (if sc_backward k then 0 + 10 else 0 + 6));
       scan_leaves fuel k next results') r1 p1 acc d cco cs) as (s1 & r & Hk1 & Hrun & Hr); try done.
  rewrite Hrun. rewrite Hb in Hr |- *. unfold scan_out in *. rewrite map_app.
  destruct Hr as [[-> Hu]|(o & -> & Hcut)].
  2: { exists s1. split; [|done]. by rewrite Hcut. }
  pose proof PAGE_SIZE_bounds.
  assert (read_u32 d (0 + 6) = Ok (hd 0 ls.*1)) as Hn.
  { change (0 + 6) with 6. rewrite (read_u32_sub d 6 (hd 0 ls.*1)); [|lia|lia|].
    - rewrite as_u32_id; [done|]. destruct ls as [|[q cq] ls']; [done|]. simpl.
      apply Forall_cons in Hok as [(dq & ? & ? & Hdq & _) _]. apply (rep_page_len _ _ _ _ Hrep Hdq).
    - rewrite Hnext. by destruct ls as [|[q cq] ls']. }
  destruct (IH n r2 p2 s1 (acc ++ map (λ x, (if sc_rowid k then x.1 else 0, x.2)) r1) fuel) as (s2 & Hrec & Hk2);
    [done|done|done|apply Hk1|done|simpl in Hfuel; lia|].
  exists s2. split; [|by eapply keeps_trans]. unfold st_lift. rewrite ST_bind_unfold, Hn, Hrec.
  by rewrite <- app_assoc.
Qed.

Lemma last_default {A} (l : list A) x d d' : List.last (x :: l) d = List.last (x :: l) d'.
Proof. revert x. induction l as [|y l IH]; intros x; [done|]. apply (IH y). Qed.
Lemma linked_snoc m prev ps p next :
  linked m prev (ps ++ [p]) next →
  linked m prev ps p ∧ ∃ d, m !! p = Some d ∧ sub d 6 4 = le_bytes 4 next ∧ sub d 10 4 = le_bytes 4 (List.last ps prev).
Proof.
  revert prev. induction ps as [|q ps IH]; intros prev; simpl.
  - intros [(d & ? & ? & ?) _]. split; [done|]. eauto.
  - intros [(d & Hd & Hn & Hp) Hl]. destruct (IH _ Hl) as [Hl' Hlast].
    split; [split; [|done]|]. { exists d. split_and!; [done| |done]. rewrite Hn. by destruct ps. }
    destruct Hlast as (d' & ? & ? & Hprev). exists d'. split_and!; [done..|]. rewrite Hprev.
    destruct ps as [|q' ps]; [done|]. by rewrite (last_default ps q' q prev).
Qed.
(** Backward: from the last of a run of linked leaves to the front. *)
Lemma scan_leaves_backward k m : plain_scan k → sc_backward k = true →
  ∀ ls next rows pgs s acc fuel, leaves_ok m ls → linked m 0 ls.*1 next →
  cells_rows m (tree_cells ls) rows pgs → pager_rep s m → under_limit k acc → (length ls ≤ fuel)%nat →
  ∃ s', scan_leaves fuel k (List.last ls.*1 0) acc s = (Ok (scan_cut k (acc ++ scan_out k (rev rows))), s') ∧ keeps m s s'.
Proof.
  intros Hk Hb ls. induction ls as [|[n cl] ls IH] using rev_ind; intros next rows pgs s acc fuel Hok Hlink Hrows Hrep Hacc Hfuel.
  { inversion Hrows; subst. exists s. split; [|by apply keeps_refl]. unfold scan_cut. simpl. rewrite app_nil_r.
    destruct fuel; simpl; (destruct (sc_limit k) as [l|] eqn:E; [|done]); (rewrite take_ge; [done|]);
      specialize (Hacc l E); destruct Hk as (_ & _ & Hk); specialize (Hk l E); unfold zlen in *; lia. }
  apply Forall_app in Hok as [Hok [(d & cco & cs & Hd & Hleaf & Hcs) _]%Forall_cons]. simpl in Hd, Hcs.
  rewrite fmap_app in Hlink |- *. simpl in Hlink |- *.
  apply linked_snoc in Hlink as [Hlink (d' & Hd' & _ & Hprev)]. rewrite Hd in Hd'. injection Hd' as <-.
  unfold tree_cells in Hrows. rewrite fmap_app, concat_app in Hrows. simpl in Hrows. rewrite app_nil_r in Hrows.
  apply cells_rows_app in Hrows as (r1 & r2 & p1 & p2 & -> & -> & Hr1 & Hr2).
  destruct (rep_page_len _ _ _ _ Hrep Hd) as (Hl & Hn0 & _). rewrite length_app in Hfuel. simpl in Hfuel.
  destruct fuel as [|fuel]; [lia|]. rewrite List.last_last. cbn [scan_leaves].
  rewrite (proj2 (Z.eqb_neq _ _) Hn0). unfold header_offset. cbv zeta.
  destruct (scan_leaf_page k m s n cl
    (λ page_data results', next ← st_lift (read_u32 page_data (if sc_backward k then 0 + 10 else 0 + 6));
       scan_leaves fuel k next results') r2 p2 acc d cco cs) as (s1 & r & Hk1 & Hrun & Hr); try done.
  rewrite Hrun. rewrite Hb in Hr |- *. unfold scan_out in *. rewrite rev_app_distr, map_app.
  destruct Hr as [[-> Hu]|(o & -> & Hcut)].
  2: { exists s1. split; [|done]. by rewrite Hcut. }
  pose proof PAGE_SIZE_bounds.
  assert (read_u32 d (0 + 10) = Ok (List.last ls.*1 0)) as Hn.
  { change (0 + 10) with 10. rewrite (read_u32_sub d 10 (List.last ls.*1 0)); [|lia|lia|done].
    rewrite as_u32_id; [done|]. destruct (decide (ls = [])) as [->|Hne]; [done|].
    destruct (List.exists_last Hne) as (ls' & [q cq] & ->). rewrite fmap_app. change ([(q, cq)].*1) with [q]. rewrite List.last_last.
    apply Forall_app in Hok as [_ [(dq & ? & ? & Hdq & _) _]%Forall_cons]. apply (rep_page_len _ _ _ _ Hrep Hdq). }
  destruct (IH n r1 p1 s1 (acc ++ map (λ x, (if sc_rowid k then x.1 else 0, x.2)) (rev r2)) fuel) as (s2 & Hrec & Hk2);
    [done|done|done|apply Hk1|done|lia|].
  exists s2. split; [|by eapply keeps_trans]. unfold st_lift. rewrite ST_bind_unfold, Hn, Hrec.
  by rewrite <- app_assoc.
Qed.

End Reading.

(** What every descent through a page does first: get it and read its type. *)
Ltac enter_leaf Hrep Hd Hleaf s1 Hk1 :=
  let Hg := fresh in
  destruct (get_page_keeps _ _ _ _ Hrep Hd) as (s1 & Hg & Hk1); pstep Hg;
  erewrite ST_bind_Ok; [|unfold st_lift;
    rewrite (page_type_byte _ _ (proj1 (rep_page_len _ _ _ _ Hrep Hd)) (lf_type _ _ _ Hleaf)); done]; cbv beta.
Ltac enter_interior Hrep Hd Hint s1 Hk1 :=
  let Hg := fresh in
  destruct (get_page_keeps _ _ _ _ Hrep Hd) as (s1 & Hg & Hk1); pstep Hg;
  erewrite ST_bind_Ok; [|unfold st_lift;
    rewrite (page_type_byte _ _ (interior_page_len _ _ _ _ Hint) (in_type _ _ _ _ Hint)); done]; cbv beta.

Section Descents.
Context {P : Type} `{PagerLaws P}.
Implicit Types (m : gmap Z bytes) (s : P).

Definition first_child (cells : list (Z * Z)) (rc : Z) : Z := match cells with [] => rc | (c, _) :: _ => c end.
Lemma forest_first m h lo hi cells rc ls inner :
  forest m h lo hi cells rc ls inner →
  ∃ hi' ls' inner', tree m h lo hi' (first_child cells rc) ls' inner' ∧ hd 0 ls'.*1 = hd 0 ls.*1.
Proof.
  destruct 1 as [? ? ? ? ls inner Ht|? ? ? c k cells rc ls1 inner1 ls2 inner2 _ Ht _]; [by exists hi, ls, inner|].
  exists (Some k), ls1, inner1. split; [done|]. pose proof (proj2 (proj1 (tree_leaves_ok m) _ _ _ _ _ _ Ht)).
  by destruct ls1.
Qed.
Lemma forest_right m h lo hi cells rc ls inner :
  forest m h lo hi cells rc ls inner →
  ∃ lo' ls1 ls' inner', tree m h lo' hi rc ls' inner' ∧ ls = ls1 ++ ls'.
Proof.
  induction 1 as [? ? ? ? ls inner Ht|? ? ? c k cells rc ls1 inner1 ls2 inner2 _ _ _ (lo' & lsa & ls' & i' & Ht & ->)].
  - by eexists _, [], ls, inner.
  - exists lo', (ls1 ++ lsa), ls', i'. by rewrite app_assoc.
Qed.

Lemma find_leftmost_tree m h : ∀ lo hi n ls inner s fuel,
  tree m h lo hi n ls inner → pager_rep s m → (h < fuel)%nat →
  ∃ s', find_leftmost_leaf fuel n s = (Ok (hd 0 ls.*1), s') ∧ keeps m s s'.
Proof.
  induction h as [|h IH]; intros lo hi n ls inner s fuel Ht Hrep Hfuel; (destruct fuel as [|fuel]; [lia|]);
    cbn [find_leftmost_leaf]; unfold header_offset; cbv zeta.
  - inversion Ht as [? ? ? d cco cs Hd Hleaf _|]; subst.
    enter_leaf Hrep Hd Hleaf s1 Hk1. by exists s1.
  - inversion Ht as [|? ? ? ? d cco cs rc ? inner' Hd Hint Hf]; subst.
    enter_interior Hrep Hd Hint s1 Hk1.
    change (INTERIOR_TABLE =? LEAF_TABLE) with false. cbv iota.
    erewrite ST_bind_Ok; [|unfold st_lift; change (0 + 1) with 1; rewrite (interior_count _ _ _ _ Hint); done]. cbv beta.
    destruct (forest_first _ _ _ _ _ _ _ _ Hf) as (hi' & ls' & i' & Ht' & <-).
    assert ((if 0 <? zlen cs then
               cell_off ← st_lift (read_u16 d (0 + INTERIOR_HEADER_SIZE));
               _ ← st_lift (validate_cell_offset cell_off 4);
               st_lift (read_u32 d cell_off)
             else st_lift (read_u32 d (0 + 6))) s1 = (Ok (first_child cs.*2 rc), s1)) as Hc.
    { destruct cs as [|[o [c k]] cs].
      - change (0 <? zlen (@nil (Z * (Z * Z)))) with false. cbv iota. change (0 + 6) with 6. unfold st_lift.
        by rewrite (interior_right _ _ _ _ Hint).
      - rewrite zlen_cons. pose proof (zlen_nonneg cs). rewrite (proj2 (Z.ltb_lt _ _)) by lia.
        destruct (interior_read _ _ _ _ 0 o c k Hint eq_refl) as (Hp & _ & Hch & Ho & Hend & _).
        change (10 + Z.of_nat 0 * 2) with (0 + INTERIOR_HEADER_SIZE) in Hp.
        erewrite ST_bind_Ok by (unfold st_lift; rewrite Hp; done). cbv beta. unfold validate_cell_offset.
        rewrite (proj2 (Z.ltb_ge PAGE_SIZE _)) by lia. erewrite ST_bind_Ok by done. cbv beta.
        unfold st_lift. by rewrite Hch. }
    pstep Hc. destruct (IH _ _ _ _ _ s1 fuel Ht' (proj1 Hk1) ltac:(lia)) as (s2 & Hrun & Hk2).
    exists s2. split; [done|by eapply keeps_trans].
Qed.
Lemma find_rightmost_tree m h : ∀ lo hi n ls inner s fuel,
  tree m h lo hi n ls inner → pager_rep s m → (h < fuel)%nat →
  ∃ s', find_rightmost_leaf fuel n s = (Ok (List.last ls.*1 0), s') ∧ keeps m s s'.
Proof.
  induction h as [|h IH]; intros lo hi n ls inner s fuel Ht Hrep Hfuel; (destruct fuel as [|fuel]; [lia|]);
    cbn [find_rightmost_leaf]; unfold header_offset; cbv zeta.
  - inversion Ht as [? ? ? d cco cs Hd Hleaf _|]; subst.
    enter_leaf Hrep Hd Hleaf s1 Hk1. by exists s1.
  - inversion Ht as [|? ? ? ? d cco cs rc ? inner' Hd Hint Hf]; subst.
    enter_interior Hrep Hd Hint s1 Hk1.
    change (INTERIOR_TABLE =? LEAF_TABLE) with false. rewrite Z.eqb_refl. cbv iota. change (0 + 6) with 6.
    erewrite ST_bind_Ok by (unfold st_lift; rewrite (interior_right _ _ _ _ Hint); done). cbv beta.
    destruct (forest_right _ _ _ _ _ _ _ _ Hf) as (lo' & ls1 & ls' & i' & Ht' & ->).
    destruct (IH _ _ _ _ _ s1 fuel Ht' (proj1 Hk1) ltac:(lia)) as (s2 & Hrun & Hk2).
    exists s2. split; [|by eapply keeps_trans]. rewrite Hrun, fmap_app. do 2 f_equal.
    destruct (proj1 (tree_leaves_ok m) _ _ _ _ _ _ Ht') as [_ Hne].
    destruct (List.exists_last Hne) as (l & [q cq] & ->). rewrite fmap_app. change ([(q, cq)].*1) with [q].
    by rewrite app_assoc, !List.last_last.
Qed.

(** The children of an interior page fit the array [count_rows] reserves. *)
Lemma interior_count_bound d cco cs rc : interior_ok d cco cs rc → zlen cs < MAX_INTERIOR_CHILDREN.
Proof.
  intros Hint. pose proof (in_slotted _ _ _ _ Hint) as Hs.
  pose proof (sl_room _ _ _ _ Hs) as Hr. pose proof (sl_used _ _ _ _ Hs) as Hu.
  rewrite zlen_interior_slots in Hr.
  assert (zsum (map (λ c, zlen c.2) (interior_slots cs)) = 12 * zlen cs) as Hz.
  { clear. induction cs as [|[o c] cs IH]; [done|]. cbn [interior_slots map zsum foldr snd] in *.
    rewrite zlen_interior_cell, zlen_cons. unfold zsum, interior_slots in *. rewrite IH. lia. }
  rewrite Hz in Hu. unfold MAX_INTERIOR_CHILDREN, INTERIOR_HEADER_SIZE in *. Z.to_euclidean_division_equations; lia.
Qed.
Lemma count_rows_children d cco cs rc :
  interior_ok d cco cs rc → collect (count_rows_child d 0) (seqZ 0 (zlen cs)) = Ok cs.*2.*1.
Proof.
  intros Hint. rewrite (collect_Ok _ (λ c, c.2.1)); [by rewrite <- list_fmap_compose|].
  intros i [o [c k]] Hc. rewrite Z.add_0_l.
  destruct (interior_read _ _ _ _ _ _ _ _ Hint Hc) as (Hp & _ & Hch & Ho & Hend & _).
  unfold count_rows_child. change (0 + INTERIOR_HEADER_SIZE) with 10. rewrite Hp. cbn [mbind res_bind].
  unfold validate_cell_offset. rewrite (proj2 (Z.ltb_ge PAGE_SIZE _)) by lia. cbn [mbind res_bind]. exact Hch.
Qed.
Lemma count_rows_tree m h : ∀ lo hi n ls inner s fuel,
  tree m h lo hi n ls inner → pager_rep s m → (h < fuel)%nat →
  ∃ s', count_rows fuel n s = (Ok (zlen (tree_cells ls)), s') ∧ keeps m s s'.
Proof.
  induction h as [|h IH]; intros lo hi n ls inner s fuel Ht Hrep Hfuel; (destruct fuel as [|fuel]; [lia|]);
    cbn [count_rows]; unfold header_offset; cbv zeta.
  - inversion Ht as [? ? ? d cco cs Hd Hleaf _|]; subst.
    enter_leaf Hrep Hd Hleaf s1 Hk1.
    erewrite ST_bind_Ok; [|unfold st_lift; change (0 + 1) with 1; rewrite (leaf_count _ _ _ Hleaf); done]. cbv beta.
    exists s1. split; [|done]. unfold tree_cells. simpl. rewrite app_nil_r. unfold mret, ST_ret. do 2 f_equal.
    unfold zlen. by rewrite length_fmap.
  - inversion Ht as [|? ? ? ? d cco cs rc ? inner' Hd Hint Hf]; subst.
    enter_interior Hrep Hd Hint s1 Hk1.
    erewrite ST_bind_Ok; [|unfold st_lift; change (0 + 1) with 1; rewrite (interior_count _ _ _ _ Hint); done]. cbv beta.
    change (INTERIOR_TABLE =? LEAF_TABLE) with false. rewrite Z.eqb_refl. cbv iota.
    pose proof (interior_count_bound _ _ _ _ Hint) as Hb. rewrite Z.min_l by lia.
    erewrite ST_bind_Ok by (unfold st_lift; rewrite (count_rows_children _ _ _ _ Hint); done). cbv beta.
    rewrite (proj2 (Z.leb_gt _ _)) by done. erewrite ST_bind_Ok by done. cbv beta. change (0 + 6) with 6.
    erewrite ST_bind_Ok by (unfold st_lift; rewrite (interior_right _ _ _ _ Hint); done). cbv beta.
    assert (∀ cells ls inner lo acc s1, forest m h lo hi cells rc ls inner → pager_rep s1 m →
      ∃ s2, st_fold (λ total child, n ← count_rows fuel child; mret (total + n)) acc (cells.*1 ++ [rc]) s1 =
        (Ok (acc + zlen (tree_cells ls)), s2) ∧ keeps m s1 s2) as Hfold.
    2: { destruct (Hfold _ _ _ _ 0 s1 Hf (proj1 Hk1)) as (s2 & Hrun & Hk2). exists s2.
         split; [exact Hrun|by eapply keeps_trans]. }
    clear -IH Hfuel. intros cells. induction cells as [|[c k] cells IHc]; intros ls inner lo acc s1 Hf Hrep;
      inversion Hf as [? ? ? ? ? ? Ht|? ? ? ? ? ? ? ls1 i1 ls2 i2 _ Ht Hf']; subst.
    + destruct (IH _ _ _ _ _ s1 fuel Ht Hrep ltac:(lia)) as (s2 & Hrun & Hk2). exists s2. split; [|done].
      cbn [fmap list_fmap app st_fold]. rewrite !ST_bind_unfold, Hrun. done.
    + destruct (IH _ _ _ _ _ s1 fuel Ht Hrep ltac:(lia)) as (s2 & Hrun & Hk2).
      destruct (IHc _ _ _ (acc + zlen (tree_cells ls1)) s2 Hf' (proj1 Hk2)) as (s3 & Hrun3 & Hk3).
      exists s3. split; [|by eapply keeps_trans].
      cbn [fmap list_fmap app st_fold fst]. rewrite !ST_bind_unfold, Hrun. unfold mret, ST_ret at 1.
      etransitivity; [exact Hrun3|]. do 2 f_equal. unfold tree_cells. rewrite fmap_app, concat_app, zlen_app. lia.
Qed.

(** ** The table held at a root page *)

(** The pager [s] holds at [root] a table of at most [N] pages with the rows
    [rows], in increasing rowid order. *)
Definition btree_rep (s : P) (root : Z) (N : nat) (rows : list (Z * Row)) : Prop :=
  ∃ m h ls inner pgs, pager_rep s m ∧ table m h root ls inner pgs rows ∧
    (length (ls.*1 ++ inner ++ pgs) ≤ N)%nat.

Lemma tree_height m :
  (∀ h lo hi n ls inner, tree m h lo hi n ls inner → (h ≤ length inner)%nat) ∧
  (∀ h lo hi cells rc ls inner, forest m h lo hi cells rc ls inner → (h ≤ length inner)%nat).
Proof.
  apply tree_forest_ind; simpl; intros; [lia|lia|done|]. rewrite length_app. lia.
Qed.
Lemma table_at_bounds m root rows used N :
  table_at m root rows used → (length used ≤ N)%nat →
  ∃ h ls inner pgs, table m h root ls inner pgs rows ∧ used = ls.*1 ++ inner ++ pgs ∧
    (h < N)%nat ∧ (length ls ≤ N)%nat ∧ (length pgs ≤ N)%nat.
Proof.
  intros (h & ls & inner & pgs & Ht & ->) Hlen. exists h, ls, inner, pgs.
  pose proof (proj1 (tree_height m) _ _ _ _ _ _ (tb_tree _ _ _ _ _ _ _ Ht)).
  destruct (proj1 (tree_leaves_ok m) _ _ _ _ _ _ (tb_tree _ _ _ _ _ _ _ Ht)) as [_ Hne].
  rewrite !length_app, length_fmap in *. destruct ls; [done|]. simpl in *. split_and!; done || lia.
Qed.
Lemma btree_rep_table s root N rows :
  btree_rep s root N rows ↔ ∃ m used, pager_rep s m ∧ table_at m root rows used ∧ (length used ≤ N)%nat.
Proof.
  split.
  - intros (m & h & ls & inner & pgs & Hrep & Ht & Hlen). exists m, (ls.*1 ++ inner ++ pgs). split_and!; [done| |done]. by exists h, ls, inner, pgs.
  - intros (m & used & Hrep & (h & ls & inner & pgs & Ht & ->) & Hlen). by exists m, h, ls, inner, pgs.
Qed.
Lemma btree_rep_unfold s root N rows :
  btree_rep s root N rows →
  ∃ m h ls inner pgs, pager_rep s m ∧ table m h root ls inner pgs rows ∧
    (length (ls.*1 ++ inner ++ pgs) ≤ N)%nat ∧ (h < N)%nat ∧ (length ls ≤ N)%nat ∧ (length pgs ≤ N)%nat.
Proof.
  intros (m & used & Hrep & Ht & Hlen)%btree_rep_table.
  destruct (table_at_bounds m root rows used N Ht Hlen) as (h & ls & inner & pgs & Ht' & -> & ?). by exists m, h, ls, inner, pgs.
Qed.
Lemma btree_rep_keeps s s' m h root ls inner pgs N rows :
  keeps m s s' → table m h root ls inner pgs rows → (length (ls.*1 ++ inner ++ pgs) ≤ N)%nat → btree_rep s' root N rows.
Proof. intros [Hrep _] Ht Hlen. by exists m, h, ls, inner, pgs. Qed.
Lemma tree_leaves m h root ls inner pgs rows : table m h root ls inner pgs rows → leaves_ok m ls.
Proof. intros Ht. by eapply (proj1 (tree_leaves_ok m)), Ht. Qed.

Lemma st_then_map {S A B C} (a : ST S A) (b : A → ST S B) (f : B → C) st r st' :
  (a ≫= b) st = (Ok r, st') → (a ≫= λ x, b x ≫= λ r, mret (f r)) st = (Ok (f r), st').
Proof.
  rewrite !ST_bind_unfold. destruct (a st) as [[x| | |] st1]; try done. intros Hb. by erewrite ST_bind_Ok.
Qed.

(** All five plain scans at once. *)
Lemma scan_table s m root rows used fuel leaves k :
  pager_rep s m → table_at m root rows used → (length used ≤ fuel)%nat → (length used ≤ leaves)%nat → plain_scan k →
  ∃ s', (start ← (if sc_backward k then find_rightmost_leaf fuel root else find_leftmost_leaf fuel root);
         scan_leaves leaves k start []) s =
    (Ok (scan_cut k (scan_out k (if sc_backward k then rev rows else rows))), s') ∧ keeps m s s'.
Proof.
  intros Hrep Hat Hf Hl Hk. destruct (table_at_bounds m root rows used _ Hat (le_n _)) as (h & ls & inner & pgs & Ht & _ & Hh & Hls & _).
  assert (under_limit k []) as Hu. { intros n Hn. destruct Hk as (_ & _ & Hk). rewrite zlen_nil. auto. }
  pose proof (tree_leaves _ _ _ _ _ _ _ Ht) as Hok. destruct (sc_backward k) eqn:Eb.
  - destruct (find_rightmost_tree m h _ _ _ _ _ s fuel (tb_tree _ _ _ _ _ _ _ Ht) Hrep ltac:(lia)) as (s1 & Hr & Hk1).
    destruct (scan_leaves_backward k m Hk Eb ls 0 rows pgs s1 [] leaves Hok (tb_linked _ _ _ _ _ _ _ Ht)
      (tb_rows _ _ _ _ _ _ _ Ht) (proj1 Hk1) Hu ltac:(lia)) as (s2 & Hs & Hk2).
    exists s2. pstep Hr. split; [exact Hs|]. by eapply keeps_trans.
  - destruct (find_leftmost_tree m h _ _ _ _ _ s fuel (tb_tree _ _ _ _ _ _ _ Ht) Hrep ltac:(lia)) as (s1 & Hr & Hk1).
    destruct (scan_leaves_forward k m Hk Eb ls 0 rows pgs s1 [] leaves Hok (tb_linked _ _ _ _ _ _ _ Ht)
      (tb_rows _ _ _ _ _ _ _ Ht) (proj1 Hk1) Hu ltac:(lia)) as (s2 & Hs & Hk2).
    exists s2. pstep Hr. split; [exact Hs|]. by eapply keeps_trans.
Qed.
Lemma scan_out_id k rows : sc_rowid k = true → scan_out k rows = rows.
Proof. intros Hk. unfold scan_out. rewrite Hk. induction rows as [|[r row] rows IH]; simpl; by f_equal. Qed.
Lemma scan_out_snd k rows : map snd (scan_out k rows) = rows.*2.
Proof. unfold scan_out. by rewrite <- list_fmap_compose. Qed.
End Descents.

(** ** A sample table *)

(** One row in a leaf of a 512-byte page. *)
Lemma sample_table :
  let _ := page_size_512 in
  ∃ s : MapPager, btree_rep s 3 1 [(7, [VInteger 1])] ∧ pager_room s 100.
Proof.
  intros Hps. destruct (init_leaf_spec zero_page zero_page_page_ok) as (d0 & _ & Hleaf0 & H6 & H10 & _).
  set (c := CInline 7 (serialize_row [VInteger 1])).
  destruct (page_insert_cell_spec d0 _ [] c Hleaf0) as [[Hin _]|(d & cs & _ & _ & Hleaf & Hcs & Hsame)].
  { split; [done|]. split; [|done]. apply (bool_decide_unpack _). vm_compute. done. }
  { vm_compute. done. }
  { set_solver. }
  apply header_same_links in Hsame as [Hn Hp]. rewrite H6 in Hn. rewrite H10 in Hp.
  exists (mkMapPager {[3 := d]} 3). split; [|unfold pager_room; simpl; unfold MapPager_room; simpl; lia].
  exists {[3 := d]}, 0%nat, [(3, cs.*2)], [], []. split_and!.
  - split; [done|]. split; [simpl; lia|]. intros n x Hx. apply lookup_singleton_Some in Hx as [<- <-].
    split; [apply (sl_page _ _ _ _ (lf_slotted _ _ _ Hleaf))|simpl; lia].
  - split; [| | |apply NoDup_singleton].
    + econstructor; [apply lookup_singleton_eq|exact Hleaf|]. apply Forall_forall. done.
    + unfold tree_cells. simpl. rewrite app_nil_r, Hcs. unfold put_cell. simpl.
      apply (cr_cons _ c [] [VInteger 1] [] (serialize_row [VInteger 1]) [] []); [done|by vm_compute|constructor].
    + simpl. split; [|done]. exists d. split; [apply lookup_singleton_eq|done].
  - simpl. lia.
Qed.

(** ** Properties *)

(** [C4] Point lookup is complete and correct: on a table with the given rows
    it always returns, with the row of that rowid when there is one and
    nothing otherwise, following overflow chains where the row needs them; every
    page of the pager keeps its content, and as many pages can be handed out
    as before. *)
Theorem find_by_rowid_correct {P} `{PagerLaws P} s m root rows used fuel r :
  pager_rep s m → table_at m root rows used → (length used ≤ fuel)%nat →
  ∃ s', find_by_rowid fuel root r s = (Ok (row_lookup r rows), s') ∧ keeps m s s'.
Proof.
  intros Hrep Hat Hf. destruct (table_at_bounds m root rows used _ Hat (le_n _)) as (h & ls & inner & pgs & Ht & _ & Hh & _).
  apply (find_by_rowid_tree m h None None root ls inner s r rows pgs fuel); [apply Ht|done|apply Ht|done|lia].
Qed.
Lemma find_by_rowid_correct_witness :
  let _ := page_size_512 in
  ∃ s s' : MapPager, find_by_rowid 1 3 7 s = (Ok (Some (7, [VInteger 1])), s') ∧ mp_pages s' = mp_pages s.
Proof.
  intros Hps. destruct sample_table as (s & Hs & _). exists s. apply btree_rep_table in Hs as (m & used & Hrep & Hat & Hlen).
  destruct (find_by_rowid_correct s m 3 _ used 1 7 Hrep Hat Hlen) as (s' & Hrun & Hrep' & _). exists s'. split; [exact Hrun|].
  destruct Hrep as [-> _], Hrep' as [-> _]. reflexivity.
Defined.

(** [C10] The five table scans agree with the table: forwards they return every
    row in increasing rowid order, backwards in decreasing order, and with a
    limit the first rows of that order; all of them return, every page of the
    pager keeps its content, and as many pages can be handed out as before. *)
Theorem scans_correct {P} `{PagerLaws P} s m root rows used fuel leaves limit :
  pager_rep s m → table_at m root rows used → (length used ≤ fuel)%nat → (length used ≤ leaves)%nat → 0 ≤ limit →
  (∃ s', scan_all fuel leaves root s = (Ok rows, s') ∧ keeps m s s') ∧
  (∃ s', scan_rows fuel leaves root s = (Ok rows.*2, s') ∧ keeps m s s') ∧
  (∃ s', scan_rows_limit fuel leaves root limit s = (Ok (take (Z.to_nat limit) rows.*2), s') ∧ keeps m s s') ∧
  (∃ s', scan_all_reverse fuel leaves root s = (Ok (rev rows), s') ∧ keeps m s s') ∧
  (∃ s', scan_rows_reverse_limit fuel leaves root limit s = (Ok (take (Z.to_nat limit) (rev rows).*2), s') ∧ keeps m s s').
Proof.
  intros Hrep Hat Hf Hl Hlim.
  assert (∀ c b w l, (∀ n, c = Some n → n ≤ 12) → (∀ n, l = Some n → 0 ≤ n) →
    plain_scan (mkScan c w b l decode_plain)) as Hplain by done.
  split_and!.
  - destruct (scan_table s m root rows used fuel leaves (mkScan None true false None decode_plain)) as (s' & Hs & Hr);
      [done..| |]; [by apply Hplain|]. exists s'. split; [|done].
    rewrite scan_out_id in Hs by done. exact Hs.
  - destruct (scan_table s m root rows used fuel leaves (mkScan (Some 4) false false None decode_plain)) as (s' & Hs & Hr);
      [done..| |]; [apply Hplain; [by intros n [= <-]|done]|]. exists s'. split; [|done].
    apply (st_then_map _ _ (map snd)) in Hs. unfold scan_cut in Hs. cbn [sc_limit] in Hs. by rewrite scan_out_snd in Hs.
  - destruct (scan_table s m root rows used fuel leaves (mkScan (Some 4) false false (Some limit) decode_plain)) as (s' & Hs & Hr);
      [done..| |]; [apply Hplain; [by intros n [= <-]|by intros n [= <-]]|]. exists s'. split; [|done].
    apply (st_then_map _ _ (map snd)) in Hs. unfold scan_cut in Hs. cbn [sc_limit] in Hs.
    by rewrite <- firstn_map, scan_out_snd in Hs.
  - destruct (scan_table s m root rows used fuel leaves (mkScan (Some 12) true true None decode_plain)) as (s' & Hs & Hr);
      [done..| |]; [apply Hplain; [by intros n [= <-]|done]|]. exists s'. split; [|done].
    rewrite scan_out_id in Hs by done. exact Hs.
  - destruct (scan_table s m root rows used fuel leaves (mkScan (Some 4) false true (Some limit) decode_plain)) as (s' & Hs & Hr);
      [done..| |]; [apply Hplain; [by intros n [= <-]|by intros n [= <-]]|]. exists s'. split; [|done].
    apply (st_then_map _ _ (map snd)) in Hs. unfold scan_cut in Hs. cbn [sc_limit] in Hs.
    by rewrite <- firstn_map, scan_out_snd in Hs.
Qed.
Lemma scans_correct_witness :
  let _ := page_size_512 in
  ∃ s s' : MapPager, scan_all 1 1 3 s = (Ok [(7, [VInteger 1])], s').
Proof.
  intros Hps. destruct sample_table as (s & Hs & _). exists s. apply btree_rep_table in Hs as (m & used & Hrep & Hat & Hlen).
  destruct (scans_correct s m 3 _ used 1 1 0 Hrep Hat Hlen Hlen ltac:(lia)) as [(s' & Hrun & _) _]. exists s'. exact Hrun.
Defined.

(** Counting visits every leaf once: the count is the number of rows, and
    the fixed array of child pointers is never overrun. *)
Theorem count_rows_correct {P} `{PagerLaws P} s root N rows fuel :
  btree_rep s root N rows → (N ≤ fuel)%nat →
  ∃ s', count_rows fuel root s = (Ok (zlen rows), s') ∧ btree_rep s' root N rows.
Proof.
  intros Hrep Hf. apply btree_rep_unfold in Hrep as (m & h & ls & inner & pgs & Hrep & Ht & Hlen & Hh & _).
  destruct (count_rows_tree m h None None root ls inner s fuel) as (s' & Hrun & Hk); [apply Ht|done|lia|].
  exists s'. split; [|by eapply (btree_rep_keeps s s')]. rewrite Hrun. do 2 f_equal.
  transitivity (zlen rows.*1); [|unfold zlen; by rewrite length_fmap].
  rewrite (cells_rows_rowids _ _ _ _ (tb_rows _ _ _ _ _ _ _ Ht)). unfold rowids. by rewrite zlen_map.
Qed.
Lemma count_rows_correct_witness :
  let _ := page_size_512 in
  ∃ s s' : MapPager, count_rows 1 3 s = (Ok 1, s').
Proof.
  intros Hps. destruct sample_table as (s & Hs & _). exists s.
  destruct (count_rows_correct s 3 1 _ 1 Hs ltac:(lia)) as (s' & Hrun & _). exists s'. exact Hrun.
Defined.

(** ** Counterexamples *)

Section Counterexamples.
#[local] Existing Instance page_size_512.
Definition big_row : Row := [VBlob (replicate 206 7)].
Definition small_row : Row := [VNull].
(** A full leaf: two large rows and three small ones. *)
Definition full_leaf : ST MapPager Z :=
  root ← create_table;
  root ← insert 5 root 10 big_row;
  root ← insert 5 root 20 big_row;
  root ← insert 5 root 30 small_row;
  root ← insert 5 root 40 small_row;
  insert 5 root 50 small_row.

(** The largest rowid is read from the last leaf alone: once the rows of
    that leaf are deleted it is reported as 0 although the table still holds
    rows. *)
Theorem max_rowid_ignores_other_leaves :
  ((root ← create_table;
    root ← insert 5 root 1 big_row;
    root ← insert 5 root 2 big_row;
    root ← insert 5 root 3 big_row;
    before ← max_rowid 5 root;
    _ ← delete_by_rowid 5 5 root 3;
    n ← count_rows 5 root;
    after ← max_rowid 5 root;
    mret (before, n, after)) MapPager_new).1 = Ok (3, 2, 0).
Proof. vm_compute. reflexivity. Qed.

(** A failed insertion into a full leaf loses rows.  Splitting clears the
    page before it rewrites it, so (1) inserting a rowid that is already there
    returns the constraint violation, but of the five rows only one is left;
    and (2) inserting a row below two large ones puts more bytes into the left
    half than a page holds, and the error leaves two of the six rows. *)
Theorem split_failure_loses_rows :
  (full_leaf MapPager_new).1 = Ok 3 ∧
  let s := (full_leaf MapPager_new).2 in
  (count_rows 5 3 s).1 = Ok 5 ∧
  (let '(r, s') := insert 5 3 10 small_row s in
   r = Err (ConstraintViolation "UNIQUE constraint failed: rowid") ∧
   (count_rows 5 3 s').1 = Ok 1 ∧ (find_by_rowid 5 3 50 s').1 = Ok None) ∧
  (let '(r, s') := insert 5 3 5 big_row s in
   r = Err (CorruptDatabase "leaf page overflow: cell_content_offset < cell size") ∧
   (count_rows 5 3 s').1 = Ok 2 ∧ (find_by_rowid 5 3 50 s').1 = Ok None).
Proof. vm_compute. repeat split. Qed.
End Counterexamples.
