(* ===== verification/BTreeDelete.v ===== *)
(** Deleting from the B-tree.

    [delete_from_page] removes exactly the row asked for, in the table the
    pages represent: the leaf loses its cell, the overflow chain of the cell is
    freed page by page, and everything else of the table is untouched. *)
From S2P Require Import Prelude Values PagerIface BTreePage BTreeNode BTree BTreeTree.

Section Frame.
Context `{PageSize}.
Implicit Types m : gmap Z bytes.

(** ** Lemmas: what depends on which pages *)

Lemma chain_frame m m' p pl ps :
  chain m p pl ps → (∀ q, q ∈ ps → m' !! q = m !! q) → chain m' p pl ps.
Proof.
  induction 1 as [p d pl Hd Hpl Hn Hdata|p d next pl1 pl2 ps Hd Hpl1 Hn Hdata Hch IH]; intros Hq.
  - apply (chain_last m' p d); [by rewrite Hq by set_solver|done..].
  - apply (chain_more m' p d next); [by rewrite Hq by set_solver|done..|]. apply IH. set_solver.
Qed.
Lemma cells_rows_frame m m' cs rows pgs :
  cells_rows m cs rows pgs → (∀ q, q ∈ pgs → m' !! q = m !! q) → cells_rows m' cs rows pgs.
Proof.
  induction 1 as [|c cs row rows pl ps pgs Hpl Hrow Hrest IH]; intros Hq; [constructor|].
  apply (cr_cons m' c cs row rows pl ps pgs); [|done|apply IH; set_solver].
  destruct c; simpl in *; [done|]. destruct Hpl as [? Hch]. split; [done|]. eapply chain_frame; [done|set_solver].
Qed.
Lemma tree_frame m m' :
  (∀ h lo hi n ls inner, tree m h lo hi n ls inner →
     (∀ q, q ∈ ls.*1 ++ inner → m' !! q = m !! q) → tree m' h lo hi n ls inner) ∧
  (∀ h lo hi cells rc ls inner, forest m h lo hi cells rc ls inner →
     (∀ q, q ∈ ls.*1 ++ inner → m' !! q = m !! q) → forest m' h lo hi cells rc ls inner).
Proof.
  apply tree_forest_ind.
  - intros lo hi n d cco cs Hd Hleaf Hr Hq. econstructor; [|done..]. rewrite Hq; [done|]. by left.
  - intros h lo hi n d cco cs rc ls inner Hd Hint _ IH Hq. econstructor; [|done|].
    + rewrite Hq; [done|]. set_solver.
    + apply IH. set_solver.
  - intros h lo hi rc ls inner _ IH Hq. constructor. auto.
  - intros h lo hi c k cells rc ls1 inner1 ls2 inner2 Hk _ IH1 _ IH2 Hq. rewrite fmap_app in Hq.
    constructor; [done|apply IH1; set_solver|apply IH2; set_solver].
Qed.

Lemma linked_frame m m' prev ps next :
  linked m prev ps next →
  (∀ q d, q ∈ ps → m !! q = Some d → ∃ d', m' !! q = Some d' ∧ same_links d d') → linked m' prev ps next.
Proof.
  revert prev. induction ps as [|p ps IH]; intros prev; simpl; [done|].
  intros [(d & Hd & Hn & Hp) Hl] Hq. split; [|apply IH; [done|intros; apply Hq; [by right|done]]].
  destruct (Hq p d) as (d' & Hd' & [H6 H10]); [by left|done|]. exists d'. split_and!; [done|congruence|congruence].
Qed.

Definition delete_pages (ps : list Z) (m : gmap Z bytes) : gmap Z bytes := foldl (λ m p, delete p m) m ps.
Lemma delete_pages_lookup ps m q : (q ∉ ps) → delete_pages ps m !! q = m !! q.
Proof.
  revert m. induction ps as [|p ps IH]; intros m Hq; [done|]. simpl. rewrite IH by set_solver.
  apply lookup_delete_ne. set_solver.
Qed.

(** Taking one cell out of a table. *)
Lemma cells_rows_remove m cs rows pgs c :
  cells_rows m cs rows pgs → sorted_cells cs → c ∈ cs →
  ∃ pl ps p1 p2, pgs = p1 ++ ps ++ p2 ∧ cell_payload m c pl ps ∧
    cells_rows m (del_cell (cell_rowid c) cs) (filter (λ x, x.1 ≠ cell_rowid c) rows) (p1 ++ p2).
Proof.
  intros Hc Hs%sorted_nodup. revert Hs. induction Hc as [|c' cs row rows pl ps pgs Hpl Hrow Hrest IH]; [set_solver|].
  unfold rowids. simpl. intros [Hn Hs]%NoDup_cons. intros [->|Hin]%elem_of_cons.
  - exists pl, ps, [], pgs. split_and!; [done..|]. simpl. unfold del_cell.
    rewrite filter_cons_False, filter_cons_False by (intros Hx; by apply Hx).
    rewrite filter_id, (filter_id _ rows); [done|..].
    + apply Forall_forall. intros [r row'] Hin Heq. simpl in Heq. apply Hn. rewrite <- Heq.
      change (map cell_rowid cs) with (rowids cs). rewrite <- (cells_rows_rowids _ _ _ _ Hrest).
      apply list_elem_of_fmap. by exists (r, row').
    + apply Forall_forall. intros x Hin Heq. apply Hn. rewrite <- Heq. by apply list_elem_of_fmap_2.
  - destruct (IH Hs Hin) as (pl' & ps' & p1 & p2 & -> & Hpl' & Hrest').
    assert (cell_rowid c' ≠ cell_rowid c) as Hne.
    { intros Heq. apply Hn. rewrite Heq. by apply list_elem_of_fmap_2. }
    exists pl', ps', (ps ++ p1), p2. split_and!; [by rewrite <- !app_assoc|done|].
    unfold del_cell. rewrite !filter_cons_True by done. rewrite <- app_assoc. by econstructor.
Qed.
Lemma del_cell_app r l1 l2 : del_cell r (l1 ++ l2) = del_cell r l1 ++ del_cell r l2.
Proof. apply filter_app. Qed.

(** Replacing one leaf in a forest. *)
Lemma tree_pages_nodup_app {A} (l1 l2 i1 i2 : list A) :
  NoDup ((l1 ++ l2) ++ i1 ++ i2) → NoDup (l1 ++ i1) ∧ NoDup (l2 ++ i2) ∧ ∀ x, x ∈ l1 ++ i1 → x ∈ l2 ++ i2 → False.
Proof.
  intros Hn. assert (((l1 ++ l2) ++ i1 ++ i2) ≡ₚ (l1 ++ i1) ++ l2 ++ i2) as Hp by solve_Permutation.
  rewrite Hp in Hn. apply NoDup_app in Hn as (? & Hd & ?). split_and!; [done..|]. intros x ? ?. by eapply Hd.
Qed.
End Frame.

Section Delete.
Context {P : Type} `{PagerLaws P}.
Implicit Types (m : gmap Z bytes) (s : P).

(** Freeing a chain gives back its pages and nothing else. *)
Lemma free_overflow_chain_spec ps : ∀ m p pl s fuel,
  chain m p pl ps → NoDup ps → pager_rep s m → (length ps ≤ fuel)%nat →
  ∃ s', free_overflow_chain fuel p s = (Ok tt, s') ∧ pager_rep s' (delete_pages ps m) ∧
    ∀ k, pager_room s k → pager_room s' k.
Proof.
  pose proof PAGE_SIZE_bounds.
  induction ps as [|q ps IH]; intros m p pl s fuel Hch Hnd Hrep Hfuel; [inversion Hch|].
  assert (p = q) as -> by (by inversion Hch).
  assert (∃ d, m !! q = Some d) as [d Hd] by (inversion Hch; eauto).
  destruct (rep_page_len _ _ _ _ Hrep Hd) as (Hl & Hp0 & _).
  destruct fuel as [|fuel]; [simpl in Hfuel; lia|]. cbn [free_overflow_chain].
  rewrite (proj2 (Z.eqb_neq _ _) Hp0). destruct (get_page_keeps _ _ _ _ Hrep Hd) as (s1 & Hg & Hk1). pstep Hg.
  destruct (free_page_law _ _ _ _ (proj1 Hk1) Hd) as (s2 & Hf & Hrep2 & Hroom).
  apply NoDup_cons in Hnd as [Hnin Hnd].
  inversion Hch as [? d' ? Hd' Hpl Hn Hdata|? d' next pl1 pl2 ? Hd' Hpl1 Hn Hdata Hch']; subst;
    rewrite Hd in Hd'; injection Hd' as <-.
  - erewrite ST_bind_Ok; [|unfold st_lift; rewrite (read_u32_sub d 0 0) by (done || lia); done]. cbv beta. pstep Hf.
    exists s2. split_and!; [by destruct fuel|done|]. intros k Hk. apply Hroom, Hk1, Hk.
  - assert (is_u32 next) as Hnu.
    { inversion Hch' as [? dn ? Hdn|? dn ? ? ? ? Hdn]; subst; apply (rep_page_len _ _ _ _ Hrep Hdn). }
    erewrite ST_bind_Ok; [|unfold st_lift; rewrite (read_u32_sub d 0 next) by (done || lia); done]. cbv beta.
    rewrite as_u32_id by done. pstep Hf.
    destruct (IH (delete q m) next pl2 s2 fuel) as (s3 & Hrun & Hrep3 & Hroom3).
    + eapply chain_frame; [exact Hch'|]. intros x Hx. apply lookup_delete_ne. set_solver.
    + done.
    + done.
    + simpl in Hfuel. lia.
    + exists s3. split_and!; [done|done|]. intros k Hk. apply Hroom3, Hroom, Hk1, Hk.
Qed.

(** The descent of a deletion: either the rowid is absent and nothing
    changes, or one leaf loses its cell and the chain is left to be freed. *)
Lemma delete_tree m h : ∀ lo hi n ls inner s r fuel cf,
  tree m h lo hi n ls inner → in_range lo hi r → NoDup (ls.*1 ++ inner) → pager_rep s m → (h < fuel)%nat →
  ∃ s', (∀ k, pager_room s k → pager_room s' k) ∧
  (((r ∉ rowids (tree_cells ls)) ∧ delete_from_page fuel cf n r s = (Ok false, s') ∧ pager_rep s' m) ∨
   (∃ c p d d' ls', c ∈ tree_cells ls ∧ cell_rowid c = r ∧ m !! p = Some d ∧ p ∈ ls.*1 ∧
      pager_rep s' (<[p := d']> m) ∧ header_same 14 d d' ∧ tree (<[p := d']> m) h lo hi n ls' inner ∧
      ls'.*1 = ls.*1 ∧ tree_cells ls' = del_cell r (tree_cells ls) ∧
      delete_from_page fuel cf n r s =
        match cell_overflow c with
        | None => mret true
        | Some f => _ ← free_overflow_chain cf f; mret true
        end s')).
Proof.
  induction h as [|h IH]; intros lo hi n ls inner s r fuel cf Ht Hr Hnd Hrep Hfuel; (destruct fuel as [|fuel]; [lia|]);
    cbn [delete_from_page]; unfold header_offset; cbv zeta.
  - inversion Ht as [? ? ? d cco cs Hd Hleaf Hrange|]; subst. enter_leaf Hrep Hd Hleaf s1 Hk1.
    rewrite Z.eqb_refl. unfold tree_cells. cbn [fmap list_fmap snd concat]. rewrite app_nil_r.
    destruct (page_delete_spec _ _ _ r Hleaf) as [[Hn Hdel]|(c & d' & cs' & Hc & Hcr & Hdel & Hleaf' & Hcs' & Hsame)].
    + destruct (get_page_mut_law _ _ _ _ _ _ _ _ (proj1 Hk1) Hd Hdel (sl_page _ _ _ _ (lf_slotted _ _ _ Hleaf)))
        as (s2 & Hg & Hrep2 & Hroom). pstep Hg. exists s2. rewrite insert_id in Hrep2 by done.
      split; [intros k Hk; apply Hroom, Hk1, Hk|]. left. done.
    + destruct (get_page_mut_law _ _ _ _ _ _ _ _ (proj1 Hk1) Hd Hdel (sl_page _ _ _ _ (lf_slotted _ _ _ Hleaf')))
        as (s2 & Hg & Hrep2 & Hroom). pstep Hg. exists s2.
      split; [intros k Hk; apply Hroom, Hk1, Hk|]. right.
      exists c, n, d, d', [(n, cs'.*2)]. split_and!; try done; [by left| |by simpl; rewrite app_nil_r].
      econstructor; [apply lookup_insert_eq|done|]. rewrite Hcs'. unfold del_cell.
      rewrite Forall_forall in Hrange |- *. intros x [_ Hx]%list_elem_of_filter. auto.
  - inversion Ht as [|? ? ? ? d cco cs rc ? inner' Hd Hint Hf]; subst. enter_interior Hrep Hd Hint s1 Hk1.
    change (INTERIOR_TABLE =? LEAF_TABLE) with false. rewrite Z.eqb_refl. cbv iota.
    destruct (get_page_keeps _ _ _ _ (proj1 Hk1) Hd) as (s2 & Hg2 & Hk2).
    assert (find_child_page n r s1 = (Ok (child_for cs.*2 rc r), s2)) as Hfc.
    { unfold find_child_page. pstep Hg2. unfold st_lift, header_offset. by rewrite (page_find_child_spec _ _ _ _ _ Hint). }
    pstep Hfc.
    assert (∀ cells ls inner lo, forest m h lo hi cells rc ls inner → in_range lo hi r → NoDup (ls.*1 ++ inner) →
      ∃ s', (∀ k, pager_room s2 k → pager_room s' k) ∧
      (((r ∉ rowids (tree_cells ls)) ∧ delete_from_page fuel cf (child_for cells rc r) r s2 = (Ok false, s') ∧ pager_rep s' m) ∨
       (∃ c p d d' ls', c ∈ tree_cells ls ∧ cell_rowid c = r ∧ m !! p = Some d ∧ p ∈ ls.*1 ∧
          pager_rep s' (<[p := d']> m) ∧ header_same 14 d d' ∧ forest (<[p := d']> m) h lo hi cells rc ls' inner ∧
          ls'.*1 = ls.*1 ∧ tree_cells ls' = del_cell r (tree_cells ls) ∧
          delete_from_page fuel cf (child_for cells rc r) r s2 =
            match cell_overflow c with
            | None => mret true
            | Some f => _ ← free_overflow_chain cf f; mret true
            end s'))) as Hforest.
    2: { assert (NoDup (ls.*1 ++ inner') ∧ (n ∉ ls.*1)) as [Hnd' Hnls].
         { rewrite NoDup_app, NoDup_cons in Hnd. rewrite NoDup_app. destruct Hnd as (? & Hd2 & ? & ?).
           split_and!; [done| |done|]; intros; [|by intros ?%Hd2; set_solver]. set_solver. }
         destruct (Hforest _ _ _ _ Hf Hr Hnd') as (s3 & Hroom & Hcases). exists s3.
         split; [intros k Hk; apply Hroom, Hk2, Hk1, Hk|].
         destruct Hcases as [?|(c & p & dp & d' & ls' & ? & ? & ? & Hp & ? & ? & ? & ? & ? & ?)]; [by left|right].
         exists c, p, dp, d', ls'. split_and!; try done. econstructor; [|done|done].
         rewrite lookup_insert_ne; [done|]. intros ->. done. }
    pose proof (proj1 Hk2) as Hrep2. clear Hd Hint Hf Hfc Hg2 Hrep Hk1 Hnd Hr Ht Hk2 ls.
    intros cells. induction cells as [|[c k] cells IHc]; intros ls inner lo' Hf Hr Hnd;
      inversion Hf as [? ? ? ? ? ? Ht|? ? ? ? ? ? ? ls1 i1 ls2 i2 Hk Ht Hf']; subst; cbn [child_for].
    + destruct (IH _ _ _ _ _ s2 r fuel cf Ht Hr Hnd Hrep2 ltac:(lia)) as (s3 & Hroom & Hcases). exists s3.
      split; [done|]. destruct Hcases as [?|(c & p & dp & d' & ls' & ? & ? & ? & ? & ? & ? & ? & ? & ? & ?)]; [by left|right].
      exists c, p, dp, d', ls'. split_and!; try done. by constructor.
    + rewrite fmap_app in Hnd. apply tree_pages_nodup_app in Hnd as (Hnd1 & Hnd2 & Hdisj).
      unfold tree_cells. rewrite fmap_app, concat_app. change (concat ls1.*2) with (tree_cells ls1).
      change (concat ls2.*2) with (tree_cells ls2). rewrite del_cell_app.
      pose proof (proj1 (tree_range m) _ _ _ _ _ _ Ht) as Hr1. pose proof (proj2 (tree_range m) _ _ _ _ _ _ _ Hf') as Hr2.
      rewrite Forall_forall in Hr1, Hr2. destruct (Z.ltb_spec r k).
      * assert (r ∉ rowids (tree_cells ls2)) as Hn2.
        { intros (x & -> & Hx)%list_elem_of_fmap. destruct (Hr2 x Hx) as [Hx' _]. specialize (Hx' k eq_refl). lia. }
        destruct (IH lo' (Some k) c ls1 i1 s2 r fuel cf Ht) as (s3 & Hroom & Hcases); [|done|done|lia|].
        { split; [apply Hr|]. by intros u [= <-]. }
        exists s3. split; [done|]. destruct Hcases as [(?&?&?)|(c' & p & dp & d' & ls' & ? & ? & ? & Hp & ? & ? & ? & ? & Hdel & ?)].
        { left. split_and!; [|done|done]. unfold rowids in *. rewrite map_app. set_solver. }
        right. exists c', p, dp, d', (ls' ++ ls2). split_and!; try done.
        -- apply elem_of_app. by left.
        -- rewrite fmap_app. apply elem_of_app. by left.
        -- constructor; [done|done|]. eapply (proj2 (tree_frame m _)); [done|]. intros q Hq.
           apply lookup_insert_ne. intros ->. eapply Hdisj; [|exact Hq]. apply elem_of_app. by left.
        -- rewrite !fmap_app. by f_equal.
        -- rewrite fmap_app, concat_app. rewrite (del_cell_absent r (tree_cells ls2)) by done. by f_equal.
      * assert (r ∉ rowids (tree_cells ls1)) as Hn1.
        { intros (x & -> & Hx)%list_elem_of_fmap. destruct (Hr1 x Hx) as [_ Hx']. specialize (Hx' k eq_refl). lia. }
        destruct (IHc ls2 i2 (Some k) Hf') as (s3 & Hroom & Hcases); [|done|].
        { split; [by intros l [= <-]|apply Hr]. }
        exists s3. split; [done|]. destruct Hcases as [(?&?&?)|(c' & p & dp & d' & ls' & ? & ? & ? & Hp & ? & ? & ? & ? & Hdel & ?)].
        { left. split_and!; [|done|done]. unfold rowids in *. rewrite map_app. set_solver. }
        right. exists c', p, dp, d', (ls1 ++ ls'). split_and!; try done.
        -- apply elem_of_app. by right.
        -- rewrite fmap_app. apply elem_of_app. by right.
        -- constructor; [done| |done]. eapply (proj1 (tree_frame m _)); [done|]. intros q Hq.
           apply lookup_insert_ne. intros ->. eapply Hdisj; [exact Hq|]. apply elem_of_app. by left.
        -- rewrite !fmap_app. by f_equal.
        -- rewrite fmap_app, concat_app. rewrite (del_cell_absent r (tree_cells ls1)) by done. by f_equal.
Qed.
End Delete.

Section DeleteTable.
Context {P : Type} `{PagerLaws P}.
Implicit Types (m : gmap Z bytes) (s : P).

(** The table that is left after a leaf lost a cell and its chain was freed. *)
Lemma table_after_delete m h root ls ls' inner pgs rows c p d d' pl ps p1 p2 :
  table m h root ls inner pgs rows → tree (<[p := d']> m) h None None root ls' inner → ls'.*1 = ls.*1 →
  tree_cells ls' = del_cell (cell_rowid c) (tree_cells ls) → m !! p = Some d → p ∈ ls.*1 → header_same 14 d d' →
  pgs = p1 ++ ps ++ p2 → cell_payload m c pl ps →
  cells_rows m (del_cell (cell_rowid c) (tree_cells ls)) (filter (λ x, x.1 ≠ cell_rowid c) rows) (p1 ++ p2) →
  table (delete_pages ps (<[p := d']> m)) h root ls' inner (p1 ++ p2) (filter (λ x, x.1 ≠ cell_rowid c) rows) ∧
  (p ∉ ps) ∧ NoDup ps.
Proof.
  intros [Ht Hrows Hlink Hnd] Ht' Hpages Hcells Hd Hp Hsame -> Hpl Hrows'.
  assert (∀ q, q ∈ ps → q ∉ ls.*1 ++ inner ++ p1 ++ p2) as Hdisj.
  { intros q Hq Hin. rewrite app_assoc in Hnd. rewrite !NoDup_app in Hnd.
    destruct Hnd as (_ & Hd1 & Hp1 & Hd2 & Hps & Hd3 & Hp2). rewrite !elem_of_app in Hin.
    destruct Hin as [Hin|[Hin|[Hin|Hin]]].
    - apply (Hd1 q); [by apply elem_of_app; left|]. rewrite !elem_of_app. tauto.
    - apply (Hd1 q); [by apply elem_of_app; right|]. rewrite !elem_of_app. tauto.
    - apply (Hd2 q); [done|]. rewrite elem_of_app. tauto.
    - by apply (Hd3 q). }
  assert (NoDup ps) as Hndps.
  { rewrite !NoDup_app in Hnd. tauto. }
  assert (p ∉ ps) as Hpps. { intros Hin%Hdisj. set_solver. }
  assert (p ∉ p1 ++ p2) as Hpp.
  { intros Hin. rewrite NoDup_app in Hnd. destruct Hnd as (_ & Hd1 & _). apply (Hd1 p Hp). set_solver. }
  split; [|done]. split.
  - eapply (proj1 (tree_frame _ _)); [exact Ht'|]. rewrite Hpages. intros q Hq. apply delete_pages_lookup.
    intros Hin%Hdisj. apply Hin. set_solver.
  - rewrite Hcells. eapply cells_rows_frame; [done|]. intros q Hq. rewrite delete_pages_lookup.
    + apply lookup_insert_ne. by intros ->.
    + intros Hin%Hdisj. set_solver.
  - rewrite Hpages. eapply linked_frame; [done|]. intros q dq Hq Hdq.
    rewrite delete_pages_lookup by (intros Hin%Hdisj; set_solver).
    destruct (decide (q = p)) as [->|].
    + rewrite lookup_insert_eq. exists d'. split; [done|]. simplify_eq. by apply header_same_links.
    + rewrite lookup_insert_ne by done. exists dq. done.
  - rewrite Hpages. rewrite (Permutation_app_comm p1 (ps ++ p2)), <- (app_assoc ps), (Permutation_app_comm p2 p1) in Hnd.
    assert (ls.*1 ++ inner ++ ps ++ p1 ++ p2 ≡ₚ ps ++ ls.*1 ++ inner ++ p1 ++ p2) as Hperm by solve_Permutation.
    rewrite Hperm in Hnd. by apply NoDup_app in Hnd as (_ & _ & ?).
Qed.

Lemma delete_pages_elem ps m q : q ∈ ps → delete_pages ps m !! q = None.
Proof.
  revert m. induction ps as [|p ps IH]; intros m; [set_solver|]. intros Hq. simpl.
  destruct (decide (q ∈ ps)); [by apply IH|]. rewrite delete_pages_lookup by done.
  apply elem_of_cons in Hq as [->|]; [|done]. apply lookup_delete_eq.
Qed.
(** Going from the pages [m] to [m'], a table on the pages [used] has given up
    those that are not in [used']: the pager no longer holds them, and every
    page that is not of the table is as it was. *)
Definition gives_up (m m' : gmap Z bytes) (used used' : list Z) : Prop :=
  used' `sublist_of` used ∧ ∀ q, q ∉ used' → m' !! q = if decide (q ∈ used) then None else m !! q.
Lemma delete_from_page_table s m root rows used fuel cf r :
  pager_rep s m → table_at m root rows used → (length used ≤ fuel)%nat → (length used ≤ cf)%nat →
  ∃ s' m' used', delete_from_page fuel cf root r s = (Ok (bool_decide (r ∈ rows.*1)), s') ∧ pager_rep s' m' ∧
    table_at m' root (filter (λ x, x.1 ≠ r) rows) used' ∧ gives_up m m' used used' ∧ ∀ k, pager_room s k → pager_room s' k.
Proof.
  intros Hrep Hat Hf Hcf. destruct (table_at_bounds m root rows used _ Hat (le_n _)) as (h & ls & inner & pgs & Ht & -> & Hh & _ & Hpgs).
  pose proof (proj1 (tree_sorted m) _ _ _ _ _ _ (tb_tree _ _ _ _ _ _ _ Ht)) as Hsort.
  pose proof (cells_rows_rowids _ _ _ _ (tb_rows _ _ _ _ _ _ _ Ht)) as Hids.
  assert (NoDup (ls.*1 ++ inner)) as Hnd.
  { pose proof (tb_nodup _ _ _ _ _ _ _ Ht) as Hnd. rewrite app_assoc in Hnd. by apply NoDup_app in Hnd as [? _]. }
  destruct (delete_tree m h None None root ls inner s r fuel cf (tb_tree _ _ _ _ _ _ _ Ht) ltac:(done) Hnd Hrep ltac:(lia))
    as (s1 & Hroom & [(Hn & Hrun & Hrep1)|(c & p & d & d' & ls' & Hc & <- & Hd & Hp & Hrep1 & Hsame & Ht' & Hpages & Hcells & Hrun)]).
  - exists s1, m, (ls.*1 ++ inner ++ pgs). rewrite Hids, bool_decide_eq_false_2 by done. split_and!; [done..| | |done].
    2: { split; [done|]. intros q Hq. by rewrite decide_False. }
    rewrite filter_id; [done|].
    apply Forall_forall. intros [r0 row0] Hin Heq. simpl in Heq. subst. apply Hn. rewrite <- Hids.
    apply list_elem_of_fmap. by exists (r, row0).
  - destruct (cells_rows_remove _ _ _ _ _ (tb_rows _ _ _ _ _ _ _ Ht) Hsort Hc) as (pl & ps & p1 & p2 & Hpgs' & Hpl & Hrows').
    destruct (table_after_delete _ _ _ _ _ _ _ _ _ _ _ _ _ _ _ _ Ht Ht' Hpages Hcells Hd Hp Hsame Hpgs' Hpl Hrows')
      as (Htab & Hpps & Hndps).
    rewrite Hids, bool_decide_eq_true_2 by (by apply list_elem_of_fmap_2).
    assert (gives_up m (delete_pages ps (<[p := d']> m)) (ls.*1 ++ inner ++ pgs) (ls'.*1 ++ inner ++ p1 ++ p2)) as Hgives.
    { rewrite Hpages, Hpgs'. split.
      - repeat (apply sublist_app; [done|]). by apply sublist_inserts_l.
      - intros q Hq. destruct (decide (q ∈ ps)) as [Hin|Hin].
        + rewrite delete_pages_elem, decide_True by set_solver. done.
        + rewrite delete_pages_lookup, lookup_insert_ne, decide_False by set_solver. done. }
    destruct c as [rr pp|rr tt' f]; simpl in Hrun, Hpl.
    + destruct Hpl as [-> ->]. exists s1, (<[p := d']> m), (ls'.*1 ++ inner ++ p1 ++ p2). split_and!; [exact Hrun|exact Hrep1| |exact Hgives|done].
      by exists h, ls', inner, (p1 ++ p2).
    + destruct Hpl as [-> Hch].
      destruct (free_overflow_chain_spec ps (<[p := d']> m) f pl s1 cf) as (s2 & Hfree & Hrep2 & Hroom2).
      * eapply chain_frame; [done|]. intros q Hq. apply lookup_insert_ne. by intros ->.
      * done.
      * done.
      * subst pgs. rewrite !length_app in *. lia.
      * exists s2, (delete_pages ps (<[p := d']> m)), (ls'.*1 ++ inner ++ p1 ++ p2).
        split_and!; [etransitivity; [exact Hrun|]; by erewrite ST_bind_Ok by exact Hfree|exact Hrep2| |exact Hgives|auto].
        by exists h, ls', inner, (p1 ++ p2).
Qed.
End DeleteTable.

(** ** Properties *)

(** [C6] Deletion removes exactly the row asked for: it always returns, says
    whether the row was there, keeps the root, and leaves a well-formed table
    with the other rows only.  The pages the table no longer uses, those of the
    overflow chain of the deleted row, are given back to the pager; every page
    that is not of the table is as it was, and as many pages can be handed out
    as before. *)
Theorem delete_by_rowid_correct {P} `{PagerLaws P} s m root rows used fuel chain_fuel r :
  pager_rep s m → table_at m root rows used → (length used ≤ fuel)%nat → (length used ≤ chain_fuel)%nat →
  ∃ s' m' used', delete_by_rowid fuel chain_fuel root r s = (Ok (bool_decide (r ∈ rows.*1), root), s') ∧ pager_rep s' m' ∧
    table_at m' root (filter (λ x, x.1 ≠ r) rows) used' ∧ gives_up m m' used used' ∧ ∀ k, pager_room s k → pager_room s' k.
Proof.
  intros Hrep Hat Hf Hc. destruct (delete_from_page_table s m root rows used fuel chain_fuel r Hrep Hat Hf Hc) as (s' & m' & used' & Hrun & Hrest).
  exists s', m', used'. split; [|done]. unfold delete_by_rowid. pstep Hrun. done.
Qed.
Lemma delete_by_rowid_correct_witness :
  let _ := page_size_512 in
  ∃ s s' : MapPager, delete_by_rowid 1 1 3 7 s = (Ok (true, 3), s') ∧ btree_rep s' 3 1 [].
Proof.
  intros Hps. destruct sample_table as (s & Hs & _). exists s. apply btree_rep_table in Hs as (m & used & Hrep & Hat & Hlen).
  destruct (delete_by_rowid_correct s m 3 _ used 1 1 7 Hrep Hat Hlen Hlen) as (s' & m' & used' & Hrun & Hrep' & Hat' & [Hsub _] & _).
  exists s'. split; [exact Hrun|]. apply btree_rep_table. exists m', used'. split; [exact Hrep'|]. split; [exact Hat'|].
  apply sublist_length in Hsub. lia.
Defined.
