(* ===== verification/BTreeSplit.v ===== *)
(** Splitting pages of the B-tree.

    What the pieces of an insertion do: [write_overflow_chain] writes a payload
    to new pages, a leaf page is cleared and refilled, [split_leaf] cuts a full
    leaf in two and rewires the list of leaves, [split_interior] cuts an
    interior page and promotes the key between the halves. *)
From S2P Require Import Prelude Values PagerIface BTreePage BTreeNode BTree BTreeTree BTreeDelete.

Section Chains.
Context `{PageSize}.

(** ** Lemmas: chunks of a payload *)

(** All chunks are full but the last, which is not empty. *)
Inductive chunked : list bytes → Prop :=
  | chunked_last c : 0 < zlen c ≤ OVERFLOW_DATA_SIZE → chunked [c]
  | chunked_more c cs : zlen c = OVERFLOW_DATA_SIZE → chunked cs → chunked (c :: cs).

Lemma chunks_fuel_spec fuel : ∀ l, l ≠ [] → (length l ≤ fuel)%nat →
  chunked (chunks_fuel fuel OVERFLOW_DATA_SIZE l) ∧ concat (chunks_fuel fuel OVERFLOW_DATA_SIZE l) = l.
Proof.
  pose proof PAGE_SIZE_bounds. assert (508 ≤ OVERFLOW_DATA_SIZE) as Ho by (unfold OVERFLOW_DATA_SIZE; lia).
  induction fuel as [|fuel IH]; intros l Hl Hf; [destruct l; [done|simpl in Hf; lia]|].
  destruct l as [|x l]; [done|]. cbn [chunks_fuel]. set (n := Z.to_nat OVERFLOW_DATA_SIZE).
  destruct (decide (drop n (x :: l) = [])) as [E|E].
  - rewrite E. destruct fuel; cbn [chunks_fuel concat]; rewrite app_nil_r;
      (assert (take n (x :: l) = x :: l) as -> by (rewrite <- (take_drop n (x :: l)) at 2; by rewrite E, app_nil_r));
      (split; [|done]); apply chunked_last;
      apply (f_equal length) in E; rewrite length_drop in E; simpl in *; unfold zlen; simpl; lia.
  - destruct (IH (drop n (x :: l)) E) as [Hc Heq].
    { rewrite length_drop. simpl in *. lia. }
    cbn [concat]. rewrite Heq, take_drop. split; [|done]. apply chunked_more; [|done].
    assert (n < length (x :: l))%nat by (destruct (decide (n < length (x :: l))%nat); [done|]; exfalso; apply E, drop_ge; lia).
    unfold zlen. rewrite length_take. lia.
Qed.
Lemma chunks_spec l : l ≠ [] → chunked (chunks OVERFLOW_DATA_SIZE l) ∧ concat (chunks OVERFLOW_DATA_SIZE l) = l.
Proof. intros. by apply chunks_fuel_spec. Qed.

Lemma page_write_chunk_spec next chunk d :
  page_ok d → zlen chunk ≤ OVERFLOW_DATA_SIZE → bytes_ok chunk →
  ∃ d', page_write_chunk next chunk d = (Ok tt, d') ∧ page_ok d' ∧
    sub d' 0 4 = le_bytes 4 next ∧ sub d' 4 (zlen chunk) = chunk.
Proof.
  intros [Hl Hb] Hc Hcb. pose proof PAGE_SIZE_bounds. pose proof (zlen_nonneg chunk). unfold OVERFLOW_DATA_SIZE in Hc.
  unfold page_write_chunk. erewrite ST_bind_Ok by (apply put_u32_Ok; lia). cbv beta.
  set (d1 := splice d 0 (le_bytes 4 next)).
  assert (zlen d1 = PAGE_SIZE) as Hl1 by (unfold d1; rewrite length_splice; rewrite ?zlen_le_bytes; lia).
  erewrite ST_bind_Ok by (apply put_bytes_Ok; lia). cbv beta. set (d2 := splice d1 4 chunk).
  assert (zlen d2 = PAGE_SIZE) as Hl2 by (unfold d2; rewrite length_splice; lia).
  assert (bytes_ok d2) as Hb2 by (unfold d2, d1; auto using splice_ok, le_bytes_ok).
  assert (sub d2 0 4 = le_bytes 4 next) as Hn.
  { unfold d2. rewrite sub_splice_before by lia. apply (sub_splice_eq d 0 (le_bytes 4 next)); rewrite ?zlen_le_bytes; lia. }
  assert (sub d2 4 (zlen chunk) = chunk) as Hd by (apply sub_splice_eq; lia).
  destruct ((next =? 0) && (zlen chunk <? OVERFLOW_DATA_SIZE)) eqn:E.
  - set (z := replicate (Z.to_nat (PAGE_SIZE - (4 + zlen chunk))) 0).
    assert (zlen z = PAGE_SIZE - (4 + zlen chunk)) as Hz by (unfold z, zlen; rewrite length_replicate; unfold zlen in *; lia).
    rewrite put_bytes_Ok by lia. eexists. split; [done|]. split_and!.
    + split; [rewrite length_splice; lia|]. apply splice_ok; [done|]. by apply Forall_replicate.
    + by rewrite sub_splice_before by lia.
    + by rewrite sub_splice_before by lia.
  - exists d2. done.
Qed.
End Chains.

Section WriteChain.
Context {P : Type} `{PagerLaws P}.
Implicit Types (m : gmap Z bytes) (s : P).

(** Handing out a page when there is room. *)
Lemma allocate_room s m k :
  pager_rep s m → pager_room s (S k) →
  ∃ n s', allocate_page s = (Ok n, s') ∧ m !! n = None ∧ n ≠ 0 ∧ is_u32 n ∧ pager_rep s' (<[n := zero_page]> m) ∧
    ∀ j, pager_room s (S j) → pager_room s' j.
Proof.
  intros Hrep Hroom. destruct (allocate_page_law s m Hrep) as [(e & s' & _ & _ & Hn)|(n & s' & Ha & Hn & Hrep' & Hr)].
  { by destruct (Hn k). }
  exists n, s'. destruct (rep_page_len _ _ n _ Hrep' ltac:(apply lookup_insert_eq)) as (_ & ? & ?).
  split_and!; done.
Qed.

Lemma write_chunks_spec cs : ∀ s m cur d,
  chunked cs → bytes_ok (concat cs) → pager_rep s m → m !! cur = Some d → pager_room s (length cs - 1) →
  ∃ s' m' ps, write_chunks cs cur s = (Ok tt, s') ∧ pager_rep s' m' ∧ chain m' cur (concat cs) (cur :: ps) ∧
    NoDup ps ∧ (∀ q, q ∈ ps → m !! q = None) ∧ (∀ q, q ∉ cur :: ps → m' !! q = m !! q) ∧
    length ps = (length cs - 1)%nat ∧ ∀ k, pager_room s (length cs - 1 + k) → pager_room s' k.
Proof.
  induction cs as [|c cs IH]; intros s m cur d Hch Hb Hrep Hd Hroom; [inversion Hch|].
  cbn [concat] in *. apply Forall_app in Hb as [Hb1 Hb2].
  destruct (pager_rep_page _ _ _ _ Hrep Hd) as (Hpage & Hcur & _).
  inversion Hch as [c' Hc|c' cs' Hc Hch']; subst; cbn [write_chunks].
  - rewrite bool_decide_eq_true_2 by done. erewrite ST_bind_Ok by done. cbv beta.
    destruct (page_write_chunk_spec 0 c d Hpage ltac:(lia) Hb1) as (d' & Hw & Hp' & Hn & Hs).
    destruct (get_page_mut_law _ _ _ _ _ _ _ _ Hrep Hd Hw Hp') as (s1 & Hg & Hrep1 & Hr1). pstep Hg.
    exists s1, (<[cur := d']> m), []. cbn [concat]. rewrite app_nil_r. split_and!; try done.
    + eapply chain_last; [apply lookup_insert_eq|done..].
    + constructor.
    + intros q Hq%not_elem_of_nil. done.
    + intros q Hq. apply lookup_insert_ne. set_solver.
  - assert (cs ≠ []) as Hne by (intros ->; inversion Hch').
    rewrite bool_decide_eq_false_2 by done.
    destruct cs as [|c2 cs]; [done|]. set (rest := c2 :: cs) in *.
    assert (length (c :: rest) - 1 = S (length rest - 1))%nat as El by (unfold rest; simpl; lia). rewrite El in *.
    destruct (allocate_room s m (length rest - 1) Hrep Hroom) as (nx & s1 & Ha & Hnx & Hnx0 & Hnxu & Hrep1 & Hr1). pstep Ha.
    assert (cur ≠ nx) as Hne2 by (intros ->; congruence).
    destruct (page_write_chunk_spec nx c d Hpage ltac:(lia) Hb1) as (d' & Hw & Hp' & Hn & Hs).
    assert (<[nx := zero_page]> m !! cur = Some d) as Hd1 by (by rewrite lookup_insert_ne).
    destruct (get_page_mut_law _ _ _ _ _ _ _ _ Hrep1 Hd1 Hw Hp')
      as (s2 & Hg & Hrep2 & Hr2). pstep Hg.
    destruct (IH s2 _ nx zero_page Hch' Hb2 Hrep2) as (s3 & m3 & ps & Hrun & Hrep3 & Hc3 & Hnd & Hfr & Hsame & Hlen & Hr3).
    + rewrite lookup_insert_ne by done. apply lookup_insert_eq.
    + apply Hr2, Hr1. done.
    + assert (∀ q, q ∈ ps → q ≠ cur ∧ q ≠ nx ∧ m !! q = None) as Hps.
      { intros q Hq. specialize (Hfr q Hq). destruct (decide (q = cur)) as [->|]; [by rewrite lookup_insert_eq in Hfr|].
        rewrite lookup_insert_ne in Hfr by done. destruct (decide (q = nx)) as [->|]; [by rewrite lookup_insert_eq in Hfr|].
        rewrite lookup_insert_ne in Hfr by done. done. }
      exists s3, m3, (nx :: ps). split_and!; [exact Hrun|done| | | | | |].
      * eapply chain_more; [|exact Hc|exact Hn|by rewrite <- Hc|exact Hc3].
        rewrite Hsame; [apply lookup_insert_eq|]. intros [?|Hin]%elem_of_cons; [done|]. by destruct (Hps _ Hin).
      * constructor; [|done]. intros Hin. by destruct (Hps _ Hin) as (_ & ? & _).
      * intros q [->|Hin]%elem_of_cons; [done|]. by destruct (Hps _ Hin) as (_ & _ & ?).
      * intros q Hq. rewrite Hsame by set_solver. rewrite lookup_insert_ne by set_solver.
        apply lookup_insert_ne. set_solver.
      * simpl. rewrite Hlen. unfold rest. simpl. lia.
      * intros k Hk. apply Hr3, Hr2, Hr1. exact Hk.
Qed.

(** The overflow chain of a payload: new pages that hold it. *)
Lemma write_overflow_chain_spec payload s m :
  payload ≠ [] → bytes_ok payload → pager_rep s m → pager_room s (length (chunks OVERFLOW_DATA_SIZE payload)) →
  ∃ s' m' p ps, write_overflow_chain payload s = (Ok p, s') ∧ pager_rep s' m' ∧ chain m' p payload ps ∧ is_u32 p ∧
    NoDup ps ∧ (∀ q, q ∈ ps → m !! q = None) ∧ (∀ q, q ∉ ps → m' !! q = m !! q) ∧
    length ps = length (chunks OVERFLOW_DATA_SIZE payload) ∧
    ∀ k, pager_room s (length (chunks OVERFLOW_DATA_SIZE payload) + k) → pager_room s' k.
Proof.
  intros Hne Hb Hrep Hroom. destruct (chunks_spec payload Hne) as [Hch Hcat].
  set (cs := chunks OVERFLOW_DATA_SIZE payload) in *.
  assert (length cs = S (length cs - 1)) as El by (inversion Hch; simpl; lia). rewrite El in Hroom.
  unfold write_overflow_chain. destruct (allocate_room s m _ Hrep Hroom) as (p & s1 & Ha & Hp & Hp0 & Hpu & Hrep1 & Hr1). pstep Ha.
  destruct (write_chunks_spec cs s1 (<[p := zero_page]> m) p zero_page Hch) as
    (s2 & m2 & ps & Hrun & Hrep2 & Hc2 & Hnd & Hfr & Hsame & Hlen & Hr2).
  - by rewrite Hcat.
  - done.
  - apply lookup_insert_eq.
  - by apply Hr1.
  - change (write_chunks (chunks OVERFLOW_DATA_SIZE payload) p) with (write_chunks cs p). pstep Hrun.
    assert (∀ q, q ∈ ps → q ≠ p ∧ m !! q = None) as Hps.
    { intros q Hq. specialize (Hfr q Hq). destruct (decide (q = p)) as [->|]; [by rewrite lookup_insert_eq in Hfr|].
      rewrite lookup_insert_ne in Hfr by done. done. }
    exists s2, m2, p, (p :: ps). rewrite Hcat in Hc2. split_and!; try done.
    + constructor; [|done]. intros Hin. by destruct (Hps _ Hin).
    + intros q [->|Hin]%elem_of_cons; [done|]. by destruct (Hps _ Hin).
    + intros q Hq. rewrite Hsame by done. apply lookup_insert_ne. set_solver.
    + simpl. lia.
    + intros k Hk. apply Hr2, Hr1. rewrite El in Hk. exact Hk.
Qed.
End WriteChain.

Section LeafPages.
Context `{PageSize}.
Implicit Types (l : list cell).

(** ** Lemmas: leaf pages *)

(** The bytes a cell takes with its pointer. *)
Definition cell_space (c : cell) : Z := zlen (cell_bytes c) + 2.
Definition space l : Z := zsum (map cell_space l).
Lemma space_app l1 l2 : space (l1 ++ l2) = space l1 + space l2.
Proof. unfold space. by rewrite map_app, zsum_app. Qed.
Lemma space_cons c l : space (c :: l) = cell_space c + space l.
Proof. done. Qed.

Lemma leaf_space d cco cs : leaf_ok d cco cs → LEAF_HEADER_SIZE + space cs.*2 ≤ PAGE_SIZE.
Proof.
  intros [_ Hs _ _]. pose proof (sl_used _ _ _ _ Hs) as Hu. pose proof (sl_room _ _ _ _ Hs) as Hr.
  rewrite zlen_cell_slots in Hr.
  assert (space cs.*2 = zsum (map (λ c : Z * bytes, zlen c.2) (cell_slots cs)) + zlen cs * 2) as ->; [|lia].
  clear. unfold space, zsum, cell_slots. induction cs as [|[o c] cs IH]; [done|].
  rewrite zlen_cons, fmap_cons. cbn [map foldr snd fst]. rewrite IH. unfold cell_space. lia.
Qed.

Lemma leaf_relink d cco cs off x :
  leaf_ok d cco cs → 6 ≤ off ≤ 10 → leaf_ok (splice d off (le_bytes 4 x)) cco cs.
Proof.
  intros [Ht Hs Hcells Hsorted Hfrag] Hoff. pose proof PAGE_SIZE_bounds.
  destruct Hs as [[Hl Hb] Hcount Hcco Hr Hp Hsl Hap Hused]. pose proof (zlen_nonneg (cell_slots cs)).
  unfold LEAF_HEADER_SIZE in *.
  split; [by skip_write| |done|done|by skip_write]. unfold LEAF_HEADER_SIZE.
  split; [|by skip_write|by skip_write|done|by skip_write| |done|done].
  - split; [rewrite length_splice; rewrite ?zlen_le_bytes; lia|apply splice_ok; [done|apply le_bytes_ok]].
  - eapply Forall_impl; [exact Hsl|]. intros [o c]; cbn [fst snd]. intros (?&?&?&?). split_and!; [done..|].
    by skip_write.
Qed.
Lemma sub_relink d off x : zlen d = PAGE_SIZE → 6 ≤ off ≤ 10 → sub (splice d off (le_bytes 4 x)) off 4 = le_bytes 4 x.
Proof. intros. pose proof PAGE_SIZE_bounds. apply (sub_splice_eq d off (le_bytes 4 x)); rewrite ?zlen_le_bytes; lia. Qed.

(** A rowid between the cells of a leaf. *)
Lemma filter_split l r :
  sorted_cells l → (r ∉ rowids l) →
  l = filter (λ x, cell_rowid x < r) l ++ filter (λ x, r < cell_rowid x) l.
Proof.
  induction l as [|c l IH]; [done|]. intros Hs Hn. unfold rowids in Hn. cbn [map] in Hn.
  apply not_elem_of_cons in Hn as [Hne Hn]. unfold sorted_cells, rowids in Hs. cbn [map] in Hs.
  apply StronglySorted_inv in Hs as [Hs Hall].
  destruct (decide (cell_rowid c < r)).
  - rewrite (filter_cons_True (λ x, cell_rowid x < r)) by done.
    rewrite (filter_cons_False (λ x, r < cell_rowid x)) by lia. simpl. f_equal. by apply IH.
  - rewrite (filter_cons_False (λ x, cell_rowid x < r)) by done.
    rewrite (filter_cons_True (λ x, r < cell_rowid x)) by lia.
    assert (filter (λ x, cell_rowid x < r) l = []) as E.
    { apply filter_none. apply Forall_forall. intros x Hx. rewrite Forall_forall in Hall.
      assert (cell_rowid c < cell_rowid x) by (apply Hall; by apply list_elem_of_fmap_2). lia. }
    rewrite E. simpl. f_equal. rewrite (IH Hs Hn) at 1. by rewrite E.
Qed.
Lemma position_filter l r :
  sorted_cells l → (r ∉ rowids l) →
  position (λ '(rid, _), r <? rid) (map (λ c, (cell_rowid c, cell_bytes c)) l) = length (filter (λ x, cell_rowid x < r) l).
Proof.
  induction l as [|c l IH]; [done|]. intros Hs Hn. unfold sorted_cells, rowids in Hs. cbn [map] in Hs.
  unfold rowids in Hn. cbn [map] in Hn. apply not_elem_of_cons in Hn as [Hne Hn].
  apply StronglySorted_inv in Hs as [Hs Hall]. cbn [map position].
  destruct (Z.ltb_spec r (cell_rowid c)).
  - rewrite filter_cons_False by lia. rewrite filter_none; [done|].
    apply Forall_forall. intros x Hx. rewrite Forall_forall in Hall.
    assert (cell_rowid c < cell_rowid x) by (apply Hall; by apply list_elem_of_fmap_2). lia.
  - rewrite filter_cons_True by lia. simpl. f_equal. by apply IH.
Qed.

(** Where a full leaf is cut, and that the two parts fit a page each. *)
Definition split_mid l (c : cell) : nat :=
  let pos := length (filter (λ x, cell_rowid x < cell_rowid c) l) in
  if (pos =? length l)%nat then length l else (S (length l) / 2)%nat.
Definition split_fits l (c : cell) : Prop :=
  LEAF_HEADER_SIZE + space (take (split_mid l c) (put_cell c l)) ≤ PAGE_SIZE ∧
  LEAF_HEADER_SIZE + space (drop (split_mid l c) (put_cell c l)) ≤ PAGE_SIZE.

Lemma length_put_cell c l : sorted_cells l → (cell_rowid c ∉ rowids l) → length (put_cell c l) = S (length l).
Proof.
  intros Hs Hn. pose proof (f_equal length (filter_split l (cell_rowid c) Hs Hn)) as E.
  unfold put_cell. rewrite length_app in *. simpl. lia.
Qed.
Lemma split_mid_le l c : (split_mid l c ≤ length l)%nat.
Proof.
  unfold split_mid. destruct (Nat.eqb_spec (length (filter (λ x, cell_rowid x < cell_rowid c) l)) (length l)) as [|Hne]; [done|].
  destruct l; [done|]. cbn [length] in *. pose proof (Nat.div_mod (S (S (length l))) 2). lia.
Qed.
Lemma split_mid_pos l c : l ≠ [] → (0 < split_mid l c)%nat.
Proof.
  intros Hl. unfold split_mid. destruct l as [|x l]; [done|]. cbn [length].
  destruct (_ =? _)%nat; [lia|]. pose proof (Nat.div_mod (S (S (length l))) 2).
  pose proof (Nat.mod_upper_bound (S (S (length l))) 2). lia.
Qed.
End LeafPages.

Section FillLeaf.
Context {P : Type} `{PagerLaws P}.
Implicit Types (m : gmap Z bytes) (s : P).

Definition cell_pairs (l : list cell) : list (Z * bytes) := map (λ c, (cell_rowid c, cell_bytes c)) l.

Lemma insert_cell_append s m p d cco cs c :
  pager_rep s m → m !! p = Some d → leaf_ok d cco cs → cell_ok c → sorted_cells (cs.*2 ++ [c]) →
  cell_fits cco cs (zlen (cell_bytes c)) →
  ∃ s' d' cs', insert_cell_into_leaf p (cell_rowid c) (cell_bytes c) s = (Ok tt, s') ∧ pager_rep s' (<[p := d']> m) ∧
    leaf_ok d' (cco - zlen (cell_bytes c)) cs' ∧ cs'.*2 = cs.*2 ++ [c] ∧ same_links d d' ∧
    ∀ k, pager_room s k → pager_room s' k.
Proof.
  intros Hrep Hd Hleaf Hok Hsort Hfit. apply sorted_cells_app in Hsort as (_ & _ & Hlt).
  assert (∀ x, x ∈ cs.*2 → cell_rowid x < cell_rowid c) as Hlt' by (intros; apply Hlt; [done|by left]).
  destruct (page_insert_cell_spec d cco cs c Hleaf Hok Hfit) as [[Hin _]|(d' & cs' & _ & Hi & Hleaf' & Hcs & Hsame)].
  { apply list_elem_of_fmap in Hin as (x & Hx & Hin). specialize (Hlt' x Hin). lia. }
  unfold insert_cell_into_leaf, header_offset.
  destruct (get_page_mut_law _ _ _ _ _ _ _ _ Hrep Hd Hi (sl_page _ _ _ _ (lf_slotted _ _ _ Hleaf'))) as (s' & Hg & Hrep' & Hr).
  exists s', d', cs'. split_and!; try done.
  - rewrite Hcs. unfold put_cell. rewrite filter_id, filter_none; [done|..].
    + apply Forall_forall. intros x Hx. specialize (Hlt' x Hx). lia.
    + apply Forall_forall. exact Hlt'.
  - by apply header_same_links.
Qed.

Lemma fill_leaf l : ∀ s m p d cco cs,
  pager_rep s m → m !! p = Some d → leaf_ok d cco cs → Forall cell_ok l → sorted_cells (cs.*2 ++ l) →
  LEAF_HEADER_SIZE + zlen cs * 2 + space l ≤ cco →
  ∃ s' d' cco' cs', st_iter (λ '(rid, cell), insert_cell_into_leaf p rid cell) (cell_pairs l) s = (Ok tt, s') ∧
    pager_rep s' (<[p := d']> m) ∧ leaf_ok d' cco' cs' ∧ cs'.*2 = cs.*2 ++ l ∧ same_links d d' ∧
    ∀ k, pager_room s k → pager_room s' k.
Proof.
  induction l as [|c l IH]; intros s m p d cco cs Hrep Hd Hleaf Hok Hsort Hfit; cbn [cell_pairs map st_iter].
  - exists s, d, cco, cs. rewrite app_nil_r. rewrite insert_id by done. done.
  - apply Forall_cons in Hok as [Hok Hoks]. rewrite space_cons in Hfit.
    assert (0 ≤ space l) as Hsp.
    { unfold space. clear. induction l as [|x l IH]; [done|]. cbn [map zsum foldr]. unfold zsum in IH.
      pose proof (zlen_nonneg (cell_bytes x)). unfold cell_space at 1. lia. }
    assert (cs.*2 ++ c :: l = (cs.*2 ++ [c]) ++ l) as E by (by rewrite <- app_assoc). rewrite E in Hsort.
    destruct (insert_cell_append s m p d cco cs c Hrep Hd Hleaf Hok) as (s1 & d1 & cs1 & Hi & Hrep1 & Hleaf1 & Hcs1 & Hl1 & Hr1).
    + apply sorted_cells_app in Hsort as (Hs1 & _ & _). exact Hs1.
    + unfold cell_fits. unfold cell_space in Hfit. lia.
    + pstep Hi. rewrite <- Hcs1 in Hsort.
      assert (zlen cs1 = zlen cs + 1) as Hz.
      { transitivity (zlen cs1.*2); [unfold zlen; by rewrite length_fmap|].
        rewrite Hcs1, zlen_app, zlen_cons, zlen_nil. unfold zlen. rewrite length_fmap. lia. }
      destruct (IH s1 _ p d1 _ cs1 Hrep1 ltac:(apply lookup_insert_eq) Hleaf1 Hoks Hsort) as
        (s2 & d2 & cco2 & cs2 & Hrun & Hrep2 & Hleaf2 & Hcs2 & Hl2 & Hr2).
      { unfold cell_space in Hfit. lia. }
      exists s2, d2, cco2, cs2. split_and!; [exact Hrun| |done| | |auto].
      * by rewrite insert_insert_eq in Hrep2.
      * rewrite Hcs2, Hcs1. by rewrite <- app_assoc.
      * destruct Hl1, Hl2. split; congruence.
Qed.
End FillLeaf.

Lemma alter_id_None {K A} `{Countable K} (f : A → A) (m : gmap K A) k : m !! k = None → alter f k m = m.
Proof. intros Hk. apply map_eq. intros i. destruct (decide (i = k)) as [->|]; [by rewrite lookup_alter_eq, Hk|by rewrite lookup_alter_ne]. Qed.
Lemma alter_insert_self {K A} `{Countable K} (f : A → A) (m : gmap K A) k x :
  m !! k = Some x → alter f k m = <[k := f x]> m.
Proof.
  intros Hk. apply map_eq. intros i. destruct (decide (i = k)) as [->|].
  - by rewrite lookup_alter_eq, lookup_insert_eq, Hk.
  - by rewrite lookup_alter_ne, lookup_insert_ne.
Qed.

Section SplitLeaf.
Context {P : Type} `{PagerLaws P}.
Implicit Types (m : gmap Z bytes) (s : P).

(** ** Lemmas: splitting a leaf *)

Lemma set_link s m p d off x :
  pager_rep s m → m !! p = Some d → 6 ≤ off ≤ 10 →
  ∃ s', get_page_mut p (put_u32 off x) s = (Ok tt, s') ∧ pager_rep s' (<[p := splice d off (le_bytes 4 x)]> m) ∧
    ∀ k, pager_room s k → pager_room s' k.
Proof.
  intros Hrep Hd Hoff. pose proof PAGE_SIZE_bounds. destruct (pager_rep_page _ _ _ _ Hrep Hd) as ([Hl Hb] & _).
  apply (get_page_mut_law _ (put_u32 off x) s m p d (Ok tt)); [done..|apply put_u32_Ok; lia|].
  split; [rewrite length_splice; rewrite ?zlen_le_bytes; lia|apply splice_ok; [done|apply le_bytes_ok]].
Qed.
Lemma init_leaf s m p d :
  pager_rep s m → m !! p = Some d →
  ∃ s' d', init_leaf_page p s = (Ok tt, s') ∧ pager_rep s' (<[p := d']> m) ∧ leaf_ok d' PAGE_SIZE [] ∧
    ∀ k, pager_room s k → pager_room s' k.
Proof.
  intros Hrep Hd. destruct (pager_rep_page _ _ _ _ Hrep Hd) as (Hpage & _).
  destruct (init_leaf_spec d Hpage) as (d' & Hw & Hleaf & _).
  destruct (get_page_mut_law _ _ _ _ _ _ _ _ Hrep Hd Hw (sl_page _ _ _ _ (lf_slotted _ _ _ Hleaf))) as (s' & Hg & Hrep' & Hr).
  by exists s', d'.
Qed.
(** A page cleared and filled with cells that fit. *)
Lemma refill_leaf s m p d l :
  pager_rep s m → m !! p = Some d → Forall cell_ok l → sorted_cells l → LEAF_HEADER_SIZE + space l ≤ PAGE_SIZE →
  ∃ s1 s' d' cco cs, init_leaf_page p s = (Ok tt, s1) ∧
    st_iter (λ '(rid, cell), insert_cell_into_leaf p rid cell) (cell_pairs l) s1 = (Ok tt, s') ∧
    pager_rep s' (<[p := d']> m) ∧ leaf_ok d' cco cs ∧ cs.*2 = l ∧ ∀ k, pager_room s k → pager_room s' k.
Proof.
  intros Hrep Hd Hok Hs Hfit. destruct (init_leaf s m p d Hrep Hd) as (s1 & d1 & Hi & Hrep1 & Hleaf1 & Hr1).
  destruct (fill_leaf l s1 _ p d1 PAGE_SIZE [] Hrep1 ltac:(apply lookup_insert_eq) Hleaf1 Hok Hs) as
    (s2 & d2 & cco2 & cs2 & Hrun & Hrep2 & Hleaf2 & Hcs2 & _ & Hr2); [unfold zlen; simpl; lia|].
  rewrite insert_insert_eq in Hrep2. exists s1, s2, d2, cco2, cs2. split_and!; auto.
Qed.

Lemma put_cell_at_split c l :
  sorted_cells l → (cell_rowid c ∉ rowids l) →
  position (λ '(rid, _), cell_rowid c <? rid) (cell_pairs l) = length (filter (λ x, cell_rowid x < cell_rowid c) l) ∧
  vec_insert (length (filter (λ x, cell_rowid x < cell_rowid c) l)) (cell_rowid c, cell_bytes c) (cell_pairs l) =
    cell_pairs (put_cell c l).
Proof.
  intros Hs Hn. unfold cell_pairs. split.
  - by apply position_filter.
  - unfold vec_insert, put_cell. rewrite (filter_split l (cell_rowid c) Hs Hn) at 2 4.
    rewrite !map_app, take_app_le, drop_app_ge by (rewrite length_map; lia).
    rewrite length_map, Nat.sub_diag, drop_0, take_ge by (rewrite length_map; lia). done.
Qed.

(** The neighbour on the right learns its new predecessor. *)
Definition relink (nx rp : Z) (m : gmap Z bytes) : gmap Z bytes := alter (λ d, splice d 10 (le_bytes 4 rp)) nx m.

Lemma get_link s m n d off x :
  pager_rep s m → m !! n = Some d → 6 ≤ off ≤ 10 → sub d off 4 = le_bytes 4 x → is_u32 x →
  ∃ s', (data ← get_page n; st_lift (read_u32 data off)) s = (Ok x, s') ∧ keeps m s s'.
Proof.
  intros Hrep Hd Hoff Hs Hx. pose proof PAGE_SIZE_bounds. destruct (rep_page_len _ _ _ _ Hrep Hd) as (Hl & _).
  destruct (get_page_keeps _ _ _ _ Hrep Hd) as (s' & Hg & Hk). pstep Hg. exists s'. split; [|done].
  unfold st_lift. rewrite (read_u32_sub d off x) by (done || lia). by rewrite as_u32_id.
Qed.

(** The four or five link updates that end a split. *)
Lemma relink_leaves s m n rp nx pv dl dr col cor csl csr k :
  pager_rep s m → m !! n = Some dl → m !! rp = Some dr → n ≠ rp → nx ≠ n → nx ≠ rp →
  leaf_ok dl col csl → leaf_ok dr cor csr → (nx ≠ 0 → ∃ dn, m !! nx = Some dn) →
  ∃ s' dl' dr',
    (_ ← set_next_leaf n rp; _ ← set_prev_leaf n pv; _ ← set_next_leaf rp nx; _ ← set_prev_leaf rp n;
     _ ← (if nx =? 0 then mret tt else set_prev_leaf nx rp); mret k) s = (Ok (k : InsertResult), s') ∧
    pager_rep s' (relink nx rp (<[rp := dr']> (<[n := dl']> m))) ∧
    leaf_ok dl' col csl ∧ sub dl' 6 4 = le_bytes 4 rp ∧ sub dl' 10 4 = le_bytes 4 pv ∧
    leaf_ok dr' cor csr ∧ sub dr' 6 4 = le_bytes 4 nx ∧ sub dr' 10 4 = le_bytes 4 n ∧
    ∀ k, pager_room s k → pager_room s' k.
Proof.
  intros Hrep Hn Hp Hnp Hxn Hxp Hll Hlr Hnx. pose proof PAGE_SIZE_bounds.
  unfold set_next_leaf, set_prev_leaf, header_offset. change (0 + 6) with 6. change (0 + 10) with 10.
  destruct (set_link s _ n _ 6 rp Hrep Hn ltac:(lia)) as (s1 & H1' & Hr1 & Hk1). pstep H1'.
  destruct (set_link s1 _ n _ 10 pv Hr1 ltac:(apply lookup_insert_eq) ltac:(lia)) as (s2 & H2' & Hr2 & Hk2). pstep H2'.
  rewrite insert_insert_eq in Hr2. set (dl1 := splice dl 6 (le_bytes 4 rp)) in *. set (dl2 := splice dl1 10 (le_bytes 4 pv)) in *.
  assert (<[n := dl2]> m !! rp = Some dr) as Hp2 by (by rewrite lookup_insert_ne).
  destruct (set_link s2 _ rp _ 6 nx Hr2 Hp2 ltac:(lia)) as (s3 & H3' & Hr3 & Hk3). pstep H3'.
  destruct (set_link s3 _ rp _ 10 n Hr3 ltac:(apply lookup_insert_eq) ltac:(lia)) as (s4 & H4' & Hr4 & Hk4). pstep H4'.
  rewrite insert_insert_eq in Hr4. set (dr1 := splice dr 6 (le_bytes 4 nx)) in *. set (dr2 := splice dr1 10 (le_bytes 4 n)) in *.
  assert (leaf_ok dl1 col csl) as Hll1 by (apply leaf_relink; [done|lia]).
  assert (leaf_ok dr1 cor csr) as Hlr1 by (apply leaf_relink; [done|lia]).
  assert (zlen dl = PAGE_SIZE ∧ zlen dl1 = PAGE_SIZE ∧ zlen dr = PAGE_SIZE ∧ zlen dr1 = PAGE_SIZE) as (Hz1 & Hz2 & Hz3 & Hz4).
  { split_and!; [apply (sl_page _ _ _ _ (lf_slotted _ _ _ Hll))|apply (sl_page _ _ _ _ (lf_slotted _ _ _ Hll1))
      |apply (sl_page _ _ _ _ (lf_slotted _ _ _ Hlr))|apply (sl_page _ _ _ _ (lf_slotted _ _ _ Hlr1))]. }
  assert (leaf_ok dl2 col csl ∧ sub dl2 6 4 = le_bytes 4 rp ∧ sub dl2 10 4 = le_bytes 4 pv) as (Hl2 & Hl6 & Hl10).
  { split_and!; [apply leaf_relink; [done|lia]| |apply sub_relink; [done|lia]].
    unfold dl2. rewrite sub_splice_before by (rewrite ?zlen_le_bytes; lia). apply sub_relink; [done|lia]. }
  assert (leaf_ok dr2 cor csr ∧ sub dr2 6 4 = le_bytes 4 nx ∧ sub dr2 10 4 = le_bytes 4 n) as (Hr2' & Hr6 & Hr10).
  { split_and!; [apply leaf_relink; [done|lia]| |apply sub_relink; [done|lia]].
    unfold dr2. rewrite sub_splice_before by (rewrite ?zlen_le_bytes; lia). apply sub_relink; [done|lia]. }
  destruct (Z.eqb_spec nx 0) as [->|Hx0].
  - erewrite ST_bind_Ok by done. exists s4, dl2, dr2. split_and!; try done; [|auto].
    unfold relink. rewrite alter_id_None; [done|].
    destruct (<[rp := dr2]> (<[n := dl2]> m) !! 0) as [dz|] eqn:E; [|done].
    by destruct (rep_page_len _ _ _ _ Hr4 E) as (_ & ? & _).
  - destruct (Hnx Hx0) as [dn Hdn].
    assert (<[rp := dr2]> (<[n := dl2]> m) !! nx = Some dn) as Hdn' by (by rewrite !lookup_insert_ne).
    destruct (set_link s4 _ nx _ 10 rp Hr4 Hdn' ltac:(lia)) as (s5 & H5' & Hr5 & Hk5). pstep H5'.
    exists s5, dl2, dr2. split_and!; try done; [|auto 10].
    unfold relink. rewrite (alter_insert_self _ _ _ _ Hdn'). exact Hr5.
Qed.

Lemma put_cell_ok c l : cell_ok c → Forall cell_ok l → Forall cell_ok (put_cell c l).
Proof.
  rewrite !Forall_forall. intros Hc Hl x. unfold put_cell. rewrite elem_of_app, elem_of_cons, !list_elem_of_filter.
  naive_solver.
Qed.

Lemma split_leaf_spec s m n d cco cs c pv nx :
  pager_rep s m → m !! n = Some d → leaf_ok d cco cs → cell_ok c → (cell_rowid c ∉ rowids cs.*2) →
  split_fits cs.*2 c → sub d 6 4 = le_bytes 4 nx → sub d 10 4 = le_bytes 4 pv → is_u32 nx → is_u32 pv → nx ≠ n →
  (nx ≠ 0 → ∃ dn, m !! nx = Some dn) → pager_room s 1 →
  let l := take (split_mid cs.*2 c) (put_cell c cs.*2) in
  ∃ s' rp ck rest dl dr col cor csl csr,
    split_leaf n (cell_rowid c) (cell_bytes c) s = (Ok (Split (cell_rowid ck) rp), s') ∧
    drop (split_mid cs.*2 c) (put_cell c cs.*2) = ck :: rest ∧ m !! rp = None ∧ rp ≠ 0 ∧ is_u32 rp ∧
    pager_rep s' (relink nx rp (<[rp := dr]> (<[n := dl]> m))) ∧
    leaf_ok dl col csl ∧ csl.*2 = l ∧ sub dl 6 4 = le_bytes 4 rp ∧ sub dl 10 4 = le_bytes 4 pv ∧
    leaf_ok dr cor csr ∧ csr.*2 = ck :: rest ∧ sub dr 6 4 = le_bytes 4 nx ∧ sub dr 10 4 = le_bytes 4 n ∧
    ∀ k, pager_room s (S k) → pager_room s' k.
Proof.
  intros Hrep Hd Hleaf Hok Hn [Hfl Hfr] Hnx Hpv Hnxu Hpvu Hxn Hxd Hroom l.
  pose proof (lf_sorted _ _ _ Hleaf) as Hsort. pose proof (put_cell_sorted c _ Hsort) as Hsort'.
  assert (Forall cell_ok (put_cell c cs.*2)) as Hoks.
  { apply put_cell_ok; [done|]. apply Forall_fmap. exact (lf_cells _ _ _ Hleaf). }
  set (mid := split_mid cs.*2 c) in *. pose proof (length_put_cell c _ Hsort Hn) as Hlen.
  assert (∃ ck rest, drop mid (put_cell c cs.*2) = ck :: rest ∧ put_cell c cs.*2 !! mid = Some ck) as (ck & rest & Hdrop & Hck).
  { pose proof (split_mid_le cs.*2 c). destruct (lookup_lt_is_Some_2 (put_cell c cs.*2) mid) as [ck Hck]; [lia|].
    exists ck, (drop (S mid) (put_cell c cs.*2)). by rewrite (drop_S _ ck). }
  unfold split_leaf.
  destruct (get_link s m n d 6 nx Hrep Hd ltac:(lia) Hnx Hnxu) as (s1 & Hg1 & Hk1).
  erewrite ST_bind_Ok by exact Hg1. cbv beta.
  destruct (get_link s1 m n d 10 pv (proj1 Hk1) Hd ltac:(lia) Hpv Hpvu) as (s2 & Hg2 & Hk2).
  erewrite ST_bind_Ok by exact Hg2. cbv beta.
  destruct (get_page_keeps _ _ _ _ (proj1 Hk2) Hd) as (s3 & Hg3 & Hk3). pstep Hg3. unfold header_offset.
  erewrite ST_bind_Ok by (unfold st_lift; rewrite (collect_leaf_cells_spec _ _ _ Hleaf); done). cbv beta zeta.
  change (map (λ c, (cell_rowid c, cell_bytes c)) cs.*2) with (cell_pairs cs.*2).
  destruct (put_cell_at_split c _ Hsort Hn) as [-> ->].
  assert ((if (length (filter (λ x, (cell_rowid x < cell_rowid c)%Z) cs.*2) =? length (cell_pairs (put_cell c cs.*2)) - 1)%nat
           then (length (cell_pairs (put_cell c cs.*2)) - 1)%nat else (length (cell_pairs (put_cell c cs.*2)) / 2)%nat) = mid) as ->.
  { unfold cell_pairs. rewrite length_map, Hlen. unfold mid, split_mid. cbn [Nat.sub]. by rewrite Nat.sub_0_r. }
  assert (index (cell_pairs (put_cell c cs.*2)) (Z.of_nat mid) = Ok (cell_rowid ck, cell_bytes ck)) as Hidx.
  { apply index_Ok; [|lia]. rewrite Nat2Z.id. unfold cell_pairs. by rewrite list_lookup_fmap, Hck. }
  erewrite ST_bind_Ok by (unfold st_lift; rewrite Hidx; done). cbv beta.
  assert (take mid (cell_pairs (put_cell c cs.*2)) = cell_pairs l) as -> by apply firstn_map.
  assert (drop mid (cell_pairs (put_cell c cs.*2)) = cell_pairs (ck :: rest)) as -> by (rewrite <- Hdrop; apply skipn_map).
  rewrite Hdrop in Hfr.
  assert (sorted_cells (l ++ ck :: rest) ∧ Forall cell_ok (l ++ ck :: rest)) as [Hsp Hop] by (rewrite <- Hdrop; unfold l; by rewrite take_drop).
  apply sorted_cells_app in Hsp as (Hsl & Hsr & _). apply Forall_app in Hop as [Hol Hor].
  destruct (refill_leaf s3 m n d l (proj1 Hk3) Hd Hol Hsl Hfl) as (s4 & s5 & dl & col & csl & Hi4 & Hf5 & Hrep5 & Hll & Hcl & Hr5).
  pstep Hi4. pstep Hf5.
  destruct (allocate_room s5 _ 0 Hrep5 ltac:(apply Hr5, Hk3, Hk2, Hk1, Hroom)) as (rp & s6 & Ha & Hrp & Hrp0 & Hrpu & Hrep6 & Hr6).
  pstep Ha.
  destruct (refill_leaf s6 _ rp zero_page (ck :: rest) Hrep6 ltac:(apply lookup_insert_eq) Hor Hsr Hfr) as
    (s7 & s8 & dr & cor & csr & Hi7 & Hf8 & Hrep8 & Hlr & Hcr & Hr8).
  pstep Hi7. pstep Hf8. rewrite insert_insert_eq in Hrep8.
  assert (n ≠ rp) as Hnp by (intros <-; by rewrite lookup_insert_eq in Hrp). rewrite lookup_insert_ne in Hrp by done.
  assert (nx ≠ rp) as Hxp by (intros ->; destruct Hxd as [? Hx]; [done|congruence]).
  destruct (relink_leaves s8 _ n rp nx pv dl dr col cor csl csr (Split (cell_rowid ck) rp) Hrep8) as
    (s9 & dl' & dr' & Hrun & Hrep9 & Hll' & Hl6 & Hl10 & Hlr' & Hr6' & Hr10 & Hr9); try done.
  - rewrite lookup_insert_ne by done. apply lookup_insert_eq.
  - apply lookup_insert_eq.
  - intros Hx0. destruct (Hxd Hx0) as [dn Hdn]. exists dn. by rewrite !lookup_insert_ne.
  - exists s9, rp, ck, rest, dl', dr', col, cor, csl, csr. split_and!; try done.
    + rewrite (insert_insert_ne _ n rp), !insert_insert_eq in Hrep9 by done. exact Hrep9.
    + intros k Hk. apply Hr9, Hr8, Hr6, Hr5, Hk3, Hk2, Hk1, Hk.
Qed.
End SplitLeaf.

Section InteriorPages.
Context `{PageSize}.
Implicit Types (cells : list (Z * Z)).

(** ** Lemmas: interior pages *)

(** The cells and right child of an interior page after the child of [k]
    split into itself and [new]. *)
Fixpoint add_child cells (rc k new : Z) : list (Z * Z) * Z :=
  match cells with
  | [] => ([(rc, k)], new)
  | (c, k') :: rest =>
      if k <? k' then ((c, k) :: (new, k') :: rest, rc)
      else let '(cs, rc') := add_child rest rc k new in ((c, k') :: cs, rc')
  end.

Lemma add_child_split l1 l2 rc k new :
  Forall (λ k', k' ≤ k) (keys l1) → Forall (λ k', k < k') (keys l2) →
  add_child (l1 ++ l2) rc k new =
    match l2 with
    | [] => (l1 ++ [(child_for (l1 ++ l2) rc k, k)], new)
    | (_, k2) :: l2' => (l1 ++ (child_for (l1 ++ l2) rc k, k) :: (new, k2) :: l2', rc)
    end.
Proof.
  intros H1' H2'. rewrite child_for_skip by done.
  induction l1 as [|[c k'] l1 IH].
  - simpl. destruct l2 as [|[c2 k2] l2]; [done|]. apply Forall_cons in H2' as [Hk _]. simpl in Hk.
    simpl. by rewrite (proj2 (Z.ltb_lt _ _)) by lia.
  - apply Forall_cons in H1' as [Hk H1']. simpl in Hk. simpl. rewrite (proj2 (Z.ltb_ge _ _)) by lia.
    rewrite IH by done. by destruct l2 as [|[c2 k2] l2].
Qed.

Lemma interior_space d cco cs rc : interior_ok d cco cs rc → INTERIOR_HEADER_SIZE + zlen cs * 14 ≤ PAGE_SIZE.
Proof.
  intros [_ Hs _ _ _ _]. pose proof (sl_used _ _ _ _ Hs) as Hu. pose proof (sl_room _ _ _ _ Hs) as Hr.
  rewrite zlen_interior_slots in Hr.
  assert (zsum (map (λ c : Z * bytes, zlen c.2) (interior_slots cs)) = zlen cs * 12) as E; [|lia].
  clear. unfold zsum, interior_slots. induction cs as [|[o c] cs IH]; [done|].
  rewrite zlen_cons. cbn [map foldr snd fst]. rewrite IH, zlen_interior_cell. lia.
Qed.

(** Adding a child to a page with room. *)
Lemma interior_add d cco cs rc k new :
  interior_ok d cco cs rc → is_i64 k → is_u32 new → (k ∉ keys cs.*2) → is_u32 (child_for cs.*2 rc k) →
  INTERIOR_HEADER_SIZE + zlen cs * 2 + 2 + 12 ≤ cco →
  ∃ d1 d2 cs1 cs2 rc2, page_insert_interior 0 k (child_for cs.*2 rc k) d = (Ok tt, d1) ∧ interior_ok d1 (cco - 12) cs1 rc ∧
    page_replace_child 0 k new d1 = (Ok tt, d2) ∧ interior_ok d2 (cco - 12) cs2 rc2 ∧ add_child cs.*2 rc k new = (cs2.*2, rc2).
Proof.
  intros Hin Hk Hnew Hkn Hch Hroom.
  destruct (page_insert_interior_spec d cco cs rc k _ Hin Hch Hk Hkn Hroom) as (d1 & cs1 & idx & Hi & Hin1 & Hup & Hcs1).
  unfold list_insert_at in Hcs1. destruct (upper_split _ _ _ Hup) as [Hle Hlt].
  destruct (page_replace_child_spec d1 _ cs1 rc k new _ _ _ Hin1 Hnew Hcs1) as (d2 & cs2 & rc2 & Hr & Hin2 & Hcs2).
  exists d1, d2, cs1, cs2, rc2. split_and!; try done.
  rewrite Hcs2, <- (take_drop (Z.to_nat idx) cs.*2) at 1. rewrite add_child_split by done. rewrite take_drop. done.
Qed.

Lemma position_split cells k :
  ∃ l1 l2, cells = l1 ++ l2 ∧ position (λ '(_, k'), k <? k') cells = length l1 ∧ Forall (λ k', k' ≤ k) (keys l1) ∧
    (StronglySorted Z.lt (keys cells) → Forall (λ k', k < k') (keys l2)).
Proof.
  induction cells as [|[c k'] cells (l1 & l2 & E & Hp & Hle & Hlt)].
  - exists [], []. split_and!; done || constructor.
  - cbn [position]. destruct (Z.ltb_spec k k').
    + exists [], ((c, k') :: cells). split_and!; [done..|constructor|]. simpl. intros [Hs Hall]%StronglySorted_inv.
      constructor; [done|]. eapply Forall_impl; [exact Hall|]. simpl. lia.
    + exists ((c, k') :: l1), l2. split_and!; [by rewrite E|by rewrite Hp|by constructor|].
      simpl. intros [Hs _]%StronglySorted_inv. auto.
Qed.
(** How [split_interior] builds the new list of cells. *)
Lemma split_interior_cells cells rc k new :
  StronglySorted Z.lt (keys cells) →
  let pos := position (λ '(_, k'), k <? k') cells in
  let cells0 := vec_insert pos (child_for cells rc k, k) cells in
  let last := negb (pos + 1 <? length cells0)%nat in
  add_child cells rc k new =
    (if last then cells0 else alter (λ '(_, k'), (new, k')) (pos + 1)%nat cells0, if last then new else rc) ∧
  (pos ≤ length cells)%nat ∧ length (add_child cells rc k new).1 = S (length cells).
Proof.
  intros Hs pos cells0 last. destruct (position_split cells k) as (l1 & l2 & E & Hp & Hle & Hlt). specialize (Hlt Hs).
  assert (add_child cells rc k new = match l2 with
    | [] => (l1 ++ [(child_for cells rc k, k)], new)
    | (_, k2) :: l2' => (l1 ++ (child_for cells rc k, k) :: (new, k2) :: l2', rc)
    end) as Ha by (rewrite E; by apply add_child_split).
  assert (cells0 = l1 ++ (child_for cells rc k, k) :: l2) as Ec.
  { unfold cells0, vec_insert, pos. rewrite Hp. generalize (child_for cells rc k). intros ch.
    rewrite E. by rewrite take_app_length, drop_app_length. }
  assert (length cells = length l1 + length l2)%nat as El by (by rewrite E, length_app).
  unfold last. rewrite Ha, Ec, El. unfold pos. rewrite Hp, length_app. cbn [length].
  destruct l2 as [|[c2 k2] l2]; cbn [length fst].
  - rewrite (proj2 (Nat.ltb_ge _ _)) by lia. split_and!; [done|lia|]. rewrite length_app. simpl. lia.
  - rewrite (proj2 (Nat.ltb_lt _ _)) by lia. split_and!; [|lia|rewrite length_app; simpl; lia].
    cbn [negb]. by rewrite alter_app_r.
Qed.
End InteriorPages.

Section SplitInterior.
Context {P : Type} `{PagerLaws P}.
Implicit Types (m : gmap Z bytes) (s : P).

Lemma child_for_u32 d cco cs rc r : interior_ok d cco cs rc → is_u32 (child_for cs.*2 rc r).
Proof.
  intros [_ _ Hcells _ _ Hrc]. induction Hcells as [|[o [c k]] cs [Hc _] _ IH]; [done|].
  rewrite fmap_cons. cbn [child_for snd]. by destruct (_ <? _).
Qed.

(** Filling an interior page in key order. *)
Lemma fill_interior l : ∀ s m p d cco cs rc,
  pager_rep s m → m !! p = Some d → interior_ok d cco cs rc → Forall (λ c, is_u32 c.1 ∧ is_i64 c.2) l →
  StronglySorted Z.lt (keys (cs.*2 ++ l)) → INTERIOR_HEADER_SIZE + zlen cs * 2 + zlen l * 14 ≤ cco →
  ∃ s' d' cco' cs', st_iter (λ '(c, k), insert_interior_cell p k c) l s = (Ok tt, s') ∧
    pager_rep s' (<[p := d']> m) ∧ interior_ok d' cco' cs' rc ∧ cs'.*2 = cs.*2 ++ l ∧
    ∀ k, pager_room s k → pager_room s' k.
Proof.
  induction l as [|[c k] l IH]; intros s m p d cco cs rc Hrep Hd Hin Hok Hsort Hfit; cbn [st_iter].
  - exists s, d, cco, cs. rewrite app_nil_r, insert_id by done. done.
  - apply Forall_cons in Hok as [[Hc Hk] Hoks]. rewrite zlen_cons in Hfit. pose proof (zlen_nonneg l).
    assert (Forall (λ x, x < k) (keys cs.*2)) as Hlt.
    { unfold keys in *. rewrite fmap_app, fmap_cons in Hsort. apply sorted_app_keys in Hsort as (_ & _ & Hlt).
      apply Forall_forall. intros x Hx. apply Hlt; [done|by left]. }
    assert (k ∉ keys cs.*2) as Hkn by (intros Hin'; rewrite Forall_forall in Hlt; specialize (Hlt k Hin'); lia).
    destruct (page_insert_interior_spec d cco cs rc k c Hin Hc Hk Hkn ltac:(lia)) as (d1 & cs1 & idx & Hi & Hin1 & Hup & Hcs1).
    assert (cs1.*2 = cs.*2 ++ [(c, k)]) as Hcs1'.
    { rewrite Hcs1. unfold list_insert_at. destruct (upper_split _ _ _ Hup) as [_ Hd2].
      assert (drop (Z.to_nat idx) cs.*2 = []) as Hnil.
      { destruct (drop (Z.to_nat idx) cs.*2) as [|[c' k'] r] eqn:E; [done|]. apply Forall_cons in Hd2 as [Hk' _]. simpl in Hk'.
        assert (k' ∈ keys cs.*2) as Hk2.
        { unfold keys. rewrite <- (take_drop (Z.to_nat idx) cs.*2), E. rewrite fmap_app, fmap_cons. apply elem_of_app. right. by left. }
        rewrite Forall_forall in Hlt. specialize (Hlt k' Hk2). lia. }
      rewrite <- (take_drop (Z.to_nat idx) cs.*2) at 3. rewrite Hnil. by rewrite app_nil_r. }
    destruct (get_page_mut_law _ _ _ _ _ _ _ _ Hrep Hd Hi (sl_page _ _ _ _ (in_slotted _ _ _ _ Hin1))) as (s1 & Hg & Hrep1 & Hr1).
    unfold insert_interior_cell at 1. unfold header_offset. pstep Hg.
    assert (zlen cs1 = zlen cs + 1) as Hz.
    { transitivity (zlen cs1.*2); [unfold zlen; by rewrite length_fmap|].
      rewrite Hcs1', zlen_app, zlen_cons, zlen_nil. unfold zlen. rewrite length_fmap. lia. }
    destruct (IH s1 _ p d1 (cco - 12) cs1 rc Hrep1 ltac:(apply lookup_insert_eq) Hin1 Hoks) as
      (s2 & d2 & cco2 & cs2 & Hrun & Hrep2 & Hin2 & Hcs2 & Hr2).
    + rewrite Hcs1', <- app_assoc. exact Hsort.
    + lia.
    + exists s2, d2, cco2, cs2. split_and!; [exact Hrun|by rewrite insert_insert_eq in Hrep2|done| |auto].
      by rewrite Hcs2, Hcs1', <- app_assoc.
Qed.
Lemma refill_interior s m p d l rc :
  pager_rep s m → m !! p = Some d → is_u32 rc → Forall (λ c, is_u32 c.1 ∧ is_i64 c.2) l →
  StronglySorted Z.lt (keys l) → INTERIOR_HEADER_SIZE + zlen l * 14 ≤ PAGE_SIZE →
  ∃ s1 s' d' cco cs, init_interior_page p rc s = (Ok tt, s1) ∧
    st_iter (λ '(c, k), insert_interior_cell p k c) l s1 = (Ok tt, s') ∧
    pager_rep s' (<[p := d']> m) ∧ interior_ok d' cco cs rc ∧ cs.*2 = l ∧ ∀ k, pager_room s k → pager_room s' k.
Proof.
  intros Hrep Hd Hrc Hok Hs Hfit. destruct (pager_rep_page _ _ _ _ Hrep Hd) as (Hpage & _).
  destruct (init_interior_spec d rc Hpage Hrc) as (d1 & Hw & Hin1).
  destruct (get_page_mut_law _ _ _ _ _ _ _ _ Hrep Hd Hw (sl_page _ _ _ _ (in_slotted _ _ _ _ Hin1))) as (s1 & Hg & Hrep1 & Hr1).
  destruct (fill_interior l s1 _ p d1 PAGE_SIZE [] rc Hrep1 ltac:(apply lookup_insert_eq) Hin1 Hok Hs) as
    (s2 & d2 & cco2 & cs2 & Hrun & Hrep2 & Hin2 & Hcs2 & Hr2); [unfold zlen in *; simpl; lia|].
  rewrite insert_insert_eq in Hrep2. exists s1, s2, d2, cco2, cs2. split_and!; auto.
Qed.

(** The cells of an interior page after a child split are in order. *)
Lemma add_child_ok cells rc k new :
  Forall (λ c, is_u32 c.1 ∧ is_i64 c.2) cells → is_u32 rc → is_u32 new → is_i64 k →
  StronglySorted Z.lt (keys cells) → (k ∉ keys cells) →
  Forall (λ c, is_u32 c.1 ∧ is_i64 c.2) (add_child cells rc k new).1 ∧ is_u32 (add_child cells rc k new).2 ∧
  StronglySorted Z.lt (keys (add_child cells rc k new).1) ∧
  ∀ x, x ∈ keys (add_child cells rc k new).1 ↔ x = k ∨ x ∈ keys cells.
Proof.
  intros Hok Hrc Hnew Hk. induction Hok as [|[c k'] cells [Hc Hk'] Hok IH]; intros Hs Hn.
  - simpl. split_and!; [constructor; [done|constructor]|done|repeat constructor|]. intros x. unfold keys. simpl. set_solver.
  - unfold keys in Hs, Hn. rewrite fmap_cons in Hs, Hn. cbn [snd fst] in *. apply StronglySorted_inv in Hs as [Hs Hall].
    apply not_elem_of_cons in Hn as [Hne Hn]. cbn [add_child]. destruct (Z.ltb_spec k k').
    + cbn [fst snd keys]. split_and!; [by constructor; [|constructor]|done| |unfold keys; simpl; set_solver].
      unfold keys. cbn [fmap list_fmap snd]. constructor; [by constructor|]. constructor; [lia|].
      eapply Forall_impl; [exact Hall|]. simpl. lia.
    + specialize (IH Hs Hn). destruct (add_child cells rc k new) as [cs rc'] eqn:E. cbn [fst snd] in *.
      destruct IH as (IH1 & IH2 & IH3 & IH4). split_and!; [by constructor|done| |].
      * unfold keys. rewrite fmap_cons. constructor; [done|]. apply Forall_forall. intros x Hx. cbn [snd].
        change (x ∈ keys cs) in Hx. rewrite IH4 in Hx. rewrite Forall_forall in Hall. destruct Hx as [->|Hx]; [lia|by apply Hall].
      * intros x. unfold keys. rewrite !fmap_cons, !elem_of_cons. cbn [snd]. change (cs.*2) with (keys cs).
        rewrite IH4. unfold keys. naive_solver.
Qed.

Lemma split_interior_spec s m n d cco cs rc k new :
  pager_rep s m → m !! n = Some d → interior_ok d cco cs rc → is_i64 k → is_u32 new → (k ∉ keys cs.*2) →
  pager_room s 1 →
  ∃ s' np l1 pc pk l2 frc dl dr col cor csl csr,
    add_child cs.*2 rc k new = (l1 ++ (pc, pk) :: l2, frc) ∧
    split_interior n k (child_for cs.*2 rc k) new s = (Ok (Split pk np), s') ∧
    m !! np = None ∧ np ≠ 0 ∧ is_u32 np ∧ pager_rep s' (<[np := dr]> (<[n := dl]> m)) ∧
    interior_ok dl col csl pc ∧ csl.*2 = l1 ∧ interior_ok dr cor csr frc ∧ csr.*2 = l2 ∧ (l1 = [] → pk = k) ∧
    ∀ k, pager_room s (S k) → pager_room s' k.
Proof.
  intros Hrep Hd Hin Hk Hnew Hkn Hroom. pose proof (interior_page_len _ _ _ _ Hin) as Hl. pose proof PAGE_SIZE_bounds.
  pose proof (in_sorted _ _ _ _ Hin) as Hsort. pose proof (interior_space _ _ _ _ Hin) as Hsp.
  assert (Forall (λ c, is_u32 c.1 ∧ is_i64 c.2) cs.*2) as Hcok by (apply Forall_fmap; exact (in_cells _ _ _ _ Hin)).
  destruct (add_child_ok cs.*2 rc k new Hcok (in_right_ok _ _ _ _ Hin) Hnew Hk Hsort Hkn) as (Hok & Hfrc & Hsort' & _).
  destruct (split_interior_cells cs.*2 rc k new Hsort) as (Hac & Hpos & Hlen). cbv zeta in Hac.
  destruct (add_child cs.*2 rc k new) as [cells frc] eqn:Eadd. cbn [fst snd] in *.
  apply pair_equal_spec in Hac as [Ecells Efrc].
  assert (zlen cells = zlen cs + 1) as Hzl.
  { unfold zlen. rewrite Hlen, length_fmap. lia. }
  unfold split_interior. destruct (get_page_keeps _ _ _ _ Hrep Hd) as (s1 & Hg & Hk1). pstep Hg. unfold header_offset.
  change (0 + 1) with 1. change (0 + 6) with 6.
  erewrite ST_bind_Ok by (unfold st_lift; rewrite (interior_count _ _ _ _ Hin); done). cbv beta.
  erewrite ST_bind_Ok by (unfold st_lift; rewrite (interior_right _ _ _ _ Hin); done). cbv beta.
  erewrite ST_bind_Ok by (unfold st_lift; rewrite (collect_interior_spec _ _ _ _ Hin); done). cbv beta zeta.
  rewrite <- Ecells, <- Efrc.
  set (mid := if (_ =? _)%nat then _ else _).
  assert (mid < length cells ∧ mid ≤ length cs.*2)%nat as [Hmid Hmid'].
  { unfold mid. destruct (_ =? _)%nat; rewrite Hlen; [lia|]. pose proof (Nat.div_mod (S (length cs.*2)) 2).
    destruct (length cs.*2); [simpl; lia|lia]. }
  destruct (lookup_lt_is_Some_2 cells mid Hmid) as [[pc pk] Hp].
  pose proof (take_drop_middle cells mid _ Hp) as Esplit. symmetry in Esplit.
  erewrite ST_bind_Ok by (unfold st_lift; rewrite (index_Ok cells (Z.of_nat mid) (pc, pk)) by (rewrite ?Nat2Z.id; done || lia); done).
  cbv beta. cbn [fst snd].
  set (l1 := take mid cells) in *. replace (mid + 1)%nat with (S mid) by lia. set (l2 := drop (S mid) cells) in *.
  rewrite Esplit in Hok, Hsort'. apply Forall_app in Hok as [Hok1 Hok2]. apply Forall_cons in Hok2 as [[Hpc Hpk] Hok2].
  unfold keys in Hsort'. rewrite fmap_app, fmap_cons in Hsort'. apply sorted_app_keys in Hsort' as (Hs1 & Hs2 & _).
  apply StronglySorted_inv in Hs2 as [Hs2 _].
  assert (zlen l1 ≤ zlen cs ∧ zlen l2 ≤ zlen cs) as [Hz1 Hz2].
  { unfold l1, l2, zlen in *. rewrite length_take, length_drop. rewrite length_fmap in *. lia. }
  destruct (refill_interior s1 m n d l1 pc (proj1 Hk1) Hd Hpc Hok1 Hs1 ltac:(lia)) as
    (s2 & s3 & dl & col & csl & Hi2 & Hf3 & Hrep3 & Hinl & Hcsl & Hr3).
  pstep Hi2. pstep Hf3.
  destruct (allocate_room s3 _ 0 Hrep3 ltac:(apply Hr3, Hk1, Hroom)) as (np & s4 & Ha & Hnp & Hnp0 & Hnpu & Hrep4 & Hr4).
  pstep Ha.
  destruct (refill_interior s4 _ np zero_page l2 frc Hrep4 ltac:(apply lookup_insert_eq) Hfrc Hok2 Hs2 ltac:(lia)) as
    (s5 & s6 & dr & cor & csr & Hi5 & Hf6 & Hrep6 & Hinr & Hcsr & Hr6).
  pstep Hi5. pstep Hf6. rewrite insert_insert_eq in Hrep6.
  assert (n ≠ np) as Hne by (intros <-; by rewrite lookup_insert_eq in Hnp). rewrite lookup_insert_ne in Hnp by done.
  exists s6, np, l1, pc, pk, l2, frc, dl, dr, col, cor, csl, csr. split_and!; try done; [by rewrite <- Esplit| |].
  - intros E. assert (mid = 0%nat) as Em.
    { apply (f_equal length) in E. unfold l1 in E. rewrite length_take in E. simpl in E. lia. }
    assert (length cs.*2 = 0%nat) as E0.
    { unfold mid in Em. destruct (_ =? _)%nat in Em; rewrite Hlen in Em; [lia|].
      pose proof (Nat.div_mod (S (length cs.*2)) 2). pose proof (Nat.mod_upper_bound (S (length cs.*2)) 2). lia. }
    apply nil_length_inv in E0. rewrite E0 in Eadd. cbn [add_child] in Eadd. injection Eadd as <- _.
    rewrite Em in Hp. by injection Hp as _ <-.
  - intros j Hj. apply Hr6, Hr4, Hr3, Hk1, Hj.
Qed.
End SplitInterior.
