(* ===== verification/BTreeInsert.v ===== *)
(** Inserting into the B-tree.

    Insertion descends to a leaf, writes the overflow chain of a large row,
    splits the leaf and the interior pages above it when they are full, and
    grows a new root.  On a table in which no leaf but the first is empty, a
    new rowid is inserted, the table then holds exactly the old rows and the
    new one, and the tree, the leaf list and the overflow chains are again
    well formed; the side condition of the theorem says when the two halves of
    a split leaf fit in a page. *)
From S2P Require Import Prelude Values PagerIface BTreePage BTreeNode BTree BTreeTree BTreeDelete BTreeSplit.

Section Shape.
Context `{PageSize}.
Implicit Types m : gmap Z bytes.

(** ** Lemmas: what an insertion may change *)

(** [moved own lb new m m']: from [m] to [m'] the pages [new] were handed out,
    the pages [own] may have changed, and of the others at most a leaf in [lb]
    was told its new left neighbour. *)
Definition relinked (m m' : gmap Z bytes) (q : Z) : Prop :=
  ∃ d x, m !! q = Some d ∧ m' !! q = Some (splice d 10 (le_bytes 4 x)).
Record moved (own lb new : list Z) (m m' : gmap Z bytes) : Prop := {
  mv_nodup : NoDup new;
  mv_new : ∀ q, q ∈ new → m !! q = None;
  mv_same : ∀ q, q ∉ own → q ∉ new → m' !! q = m !! q ∨ (q ∈ lb ∧ relinked m m' q)
}.

(** What became of the subtree at [n]. *)
Definition grown (m : gmap Z bytes) (h : nat) (lo hi : option Z) (n : Z) (r : InsertResult)
    (ls : list (Z * list cell)) (inner : list Z) : Prop :=
  match r with
  | Done => tree m h lo hi n ls inner
  | Split k n2 => ∃ ls1 ls2 i1 i2, ls = ls1 ++ ls2 ∧ inner = i1 ++ i2 ∧ in_range lo hi k ∧ (∀ l, lo = Some l → l < k) ∧
      is_i64 k ∧ is_u32 n2 ∧ tree m h lo (Some k) n ls1 i1 ∧ tree m h (Some k) hi n2 ls2 i2
  end.

(** No leaf but the first of the table is empty. *)
Definition nonempty_leaf (x : Z * list cell) : Prop := x.2 ≠ [].
Definition live (lo : option Z) (ls : list (Z * list cell)) : Prop :=
  Forall nonempty_leaf (match lo with None => tail ls | Some _ => ls end).
Lemma live_app lo ls1 ls2 k : ls1 ≠ [] → live lo (ls1 ++ ls2) ↔ live lo ls1 ∧ live (Some k) ls2.
Proof. unfold live. destruct ls1 as [|x ls1]; [done|]. destruct lo; simpl; rewrite ?Forall_cons, Forall_app; naive_solver. Qed.

Lemma linked_app m ps qs : ∀ prev next,
  linked m prev (ps ++ qs) next ↔ linked m prev ps (hd next qs) ∧ linked m (List.last ps prev) qs next.
Proof.
  induction ps as [|p ps IH]; intros prev next; [simpl; tauto|]. cbn [app linked]. rewrite IH.
  destruct ps as [|p' ps].
  - cbn [app List.last]. destruct qs; simpl; tauto.
  - rewrite (last_default ps p' p prev). change (List.last (p :: p' :: ps) prev) with (List.last (p' :: ps) prev).
    cbn [app]. tauto.
Qed.
Lemma linked_same m m' prev ps next :
  linked m prev ps next → (∀ q, q ∈ ps → m' !! q = m !! q) → linked m' prev ps next.
Proof.
  intros Hl Hq. eapply linked_frame; [exact Hl|]. intros q d Hin Hd. exists d. rewrite Hq by done. done.
Qed.

Lemma linked_pages m prev ps next q : linked m prev ps next → q ∈ ps → is_Some (m !! q).
Proof.
  revert prev. induction ps as [|p ps IH]; intros prev Hl Hq; [by apply not_elem_of_nil in Hq|].
  destruct Hl as [(d & Hd & _) Hl]. apply elem_of_cons in Hq as [->|Hq]; [by eexists|by eapply IH].
Qed.
Lemma chain_pages m p pl ps : chain m p pl ps → ∀ q, q ∈ ps → is_Some (m !! q).
Proof.
  induction 1 as [p d pl Hd|p d next pl1 pl2 ps Hd _ _ _ _ IH]; intros q Hq.
  - apply list_elem_of_singleton in Hq as ->. by eexists.
  - apply elem_of_cons in Hq as [->|Hq]; [by eexists|by apply IH].
Qed.
Lemma cells_rows_pages m cs rows pgs : cells_rows m cs rows pgs → ∀ q, q ∈ pgs → is_Some (m !! q).
Proof.
  induction 1 as [|c cs row rows pl ps pgs Hpl _ _ IH]; intros q Hq; [by apply not_elem_of_nil in Hq|].
  apply elem_of_app in Hq as [Hq|Hq]; [|by apply IH]. destruct c; simpl in Hpl.
  - destruct Hpl as [_ ->]. by apply not_elem_of_nil in Hq.
  - destruct Hpl as [_ Hch]. by eapply chain_pages.
Qed.
Lemma tree_pages m :
  (∀ h lo hi n ls inner, tree m h lo hi n ls inner → ∀ q, q ∈ ls.*1 ++ inner → is_Some (m !! q)) ∧
  (∀ h lo hi cells rc ls inner, forest m h lo hi cells rc ls inner → ∀ q, q ∈ ls.*1 ++ inner → is_Some (m !! q)).
Proof.
  apply tree_forest_ind.
  - intros lo hi n d cco cs Hd _ _ q Hq. apply list_elem_of_singleton in Hq as ->. by eexists.
  - intros h lo hi n d cco cs rc ls inner Hd _ _ IH q Hq.
    destruct (decide (q = n)) as [->|]; [by eexists|]. apply IH. set_solver.
  - done.
  - intros h lo hi c k cells rc ls1 inner1 ls2 inner2 _ _ IH1 _ IH2 q Hq. rewrite fmap_app in Hq.
    assert (q ∈ ls1.*1 ++ inner1 ∨ q ∈ ls2.*1 ++ inner2) as [?|?] by set_solver; auto.
Qed.

(** A tree does not look at the links of its leaves. *)
Lemma tree_relinked m m' :
  (∀ h lo hi n ls inner, tree m h lo hi n ls inner →
     (∀ q, q ∈ ls.*1 → m' !! q = m !! q ∨ relinked m m' q) → (∀ q, q ∈ inner → m' !! q = m !! q) → tree m' h lo hi n ls inner) ∧
  (∀ h lo hi cells rc ls inner, forest m h lo hi cells rc ls inner →
     (∀ q, q ∈ ls.*1 → m' !! q = m !! q ∨ relinked m m' q) → (∀ q, q ∈ inner → m' !! q = m !! q) → forest m' h lo hi cells rc ls inner).
Proof.
  apply tree_forest_ind.
  - intros lo hi n d cco cs Hd Hleaf Hr Hq _. destruct (Hq n) as [Hn|(d' & x & Hd' & Hn)]; [by left|..].
    + econstructor; [by rewrite Hn|done..].
    + rewrite Hd in Hd'. injection Hd' as <-. econstructor; [exact Hn|apply leaf_relink; [exact Hleaf|lia]|done].
  - intros h lo hi n d cco cs rc ls inner Hd Hint _ IH Hq Hi. econstructor; [|done|].
    + rewrite Hi; [done|]. by left.
    + apply IH; [done|]. intros q Hin. apply Hi. by right.
  - intros h lo hi rc ls inner _ IH Hq Hi. constructor. auto.
  - intros h lo hi c k cells rc ls1 inner1 ls2 inner2 Hk _ IH1 _ IH2 Hq Hi. rewrite fmap_app in Hq.
    constructor; [done|apply IH1|apply IH2]; intros q Hin; first [apply Hq|apply Hi]; set_solver.
Qed.

Lemma forest_split m h lo hi l1 c k l2 rc : ∀ ls inner,
  forest m h lo hi (l1 ++ (c, k) :: l2) rc ls inner → StronglySorted Z.lt (keys (l1 ++ (c, k) :: l2)) →
  ∃ ls1 ls2 i1 i2, ls = ls1 ++ ls2 ∧ inner = i1 ++ i2 ∧ in_range lo hi k ∧
    forest m h lo (Some k) l1 c ls1 i1 ∧ forest m h (Some k) hi l2 rc ls2 i2 ∧
    (l1 ≠ [] → ∀ l0, lo = Some l0 → l0 < k).
Proof.
  revert lo. induction l1 as [|[c' k'] l1 IH]; intros lo ls inner Hf Hs; cbn [app] in Hf;
    inversion Hf as [|? ? ? ? ? ? ? ls1 i1 ls2 i2 Hk Ht Hf']; subst.
  - exists ls1, ls2, i1, i2. split_and!; try done. by constructor.
  - unfold keys in Hs. rewrite <- app_comm_cons, fmap_cons in Hs. apply StronglySorted_inv in Hs as [Hs Hall].
    assert (k' < k) as Hlt.
    { rewrite Forall_forall in Hall. apply Hall. rewrite fmap_app, fmap_cons. apply elem_of_app. right. by left. }
    destruct (IH (Some k') ls2 i2 Hf' Hs) as (lsa & lsb & ia & ib & -> & -> & Hkr & Hfa & Hfb & _).
    exists (ls1 ++ lsa), lsb, (i1 ++ ia), ib. rewrite !app_assoc. split_and!; try done.
    + split; [intros l Hl; destruct Hk as [Hk _]; specialize (Hk l Hl); lia|apply Hkr].
    + constructor; [|done|done]. split; [apply Hk|]. by intros u [= <-].
    + intros _ l0 Hl0. destruct Hk as [Hk _]. specialize (Hk l0 Hl0). lia.
Qed.
End Shape.

Section InsertLeaf.
Context {P : Type} `{PagerLaws P}.
Implicit Types (m : gmap Z bytes) (s : P).

(** The overflow pages a payload needs and the length of its cell. *)
Definition overflow_pages (payload : bytes) : nat :=
  if MAX_INLINE_PAYLOAD <? zlen payload then length (chunks OVERFLOW_DATA_SIZE payload) else 0%nat.
Definition cell_len (payload : bytes) : Z := if MAX_INLINE_PAYLOAD <? zlen payload then 20 else 12 + zlen payload.
Definition payload_ok (payload : bytes) : Prop := payload ≠ [] ∧ bytes_ok payload ∧ zlen payload ≤ U32_MAX.

(** ** Lemmas: the leaf an insertion ends at *)

(** The cell of a payload, its overflow chain written. *)
Lemma store_payload s m r payload :
  pager_rep s m → payload_ok payload → is_i64 r → pager_room s (overflow_pages payload) →
  ∃ s1 m1 c ps, cell_rowid c = r ∧ cell_ok c ∧ zlen (cell_bytes c) = cell_len payload ∧ cell_payload m1 c payload ps ∧
    pager_rep s1 m1 ∧ moved [] [] ps m m1 ∧ length ps = overflow_pages payload ∧ (∀ q, q ∈ ps → is_Some (m1 !! q)) ∧
    (∀ k, pager_room s (overflow_pages payload + k) → pager_room s1 k) ∧
    if MAX_INLINE_PAYLOAD <? zlen payload
    then ∃ f, write_overflow_chain payload s = (Ok f, s1) ∧ c = COverflow r (as_u32 (zlen payload)) f
    else s1 = s ∧ c = CInline r payload.
Proof.
  intros Hrep (Hne & Hb & Hlen) Hr Hroom. pose proof PAGE_SIZE_bounds. pose proof (zlen_nonneg payload).
  unfold overflow_pages, cell_len in *. destruct (Z.ltb_spec MAX_INLINE_PAYLOAD (zlen payload)) as [Hlt|Hge].
  - destruct (write_overflow_chain_spec payload s m Hne Hb Hrep Hroom) as
      (s1 & m1 & f & ps & Hw & Hrep1 & Hch & Hfu & Hnd & Hfr & Hsame & Hln & Hr1).
    assert (as_u32 (zlen payload) = zlen payload) as Eu by (apply as_u32_id; int_lia).
    exists s1, m1, (COverflow r (as_u32 (zlen payload)) f), ps. split; [done|].
    split; [exact (conj Hr (conj (as_u32_range _) Hfu))|]. split; [by rewrite cell_bytes_len|].
    split_and!; try done.
    + split; [done..|]. intros q _ Hq. left. by apply Hsame.
    + intros q Hq. by eapply chain_pages.
    + by exists f.
  - assert (zlen payload < 2 ^ 31) by (unfold MAX_INLINE_PAYLOAD in Hge; Z.to_euclidean_division_equations; lia).
    exists s, m, (CInline r payload), []. split; [done|].
    split; [done|]. split; [by rewrite cell_bytes_len|]. split_and!; try done.
    + split; [constructor|by intros q Hq%not_elem_of_nil|]. auto.
    + intros q Hq%not_elem_of_nil. done.
Qed.

Lemma page_available_spec d cco n hdr :
  zlen d = PAGE_SIZE → read_u16 d 1 = Ok n → u16_to_page_size <$> read_u16 d 3 = Ok cco →
  page_available d 0 hdr = Ok (saturating_sub cco (hdr + n * 2)).
Proof.
  intros Hl Hn Hc. unfold page_available. change (0 + 1) with 1. change (0 + 3) with 3. rewrite Hn. cbn [mbind res_bind].
  destruct (read_u16 d 3) as [x| | |]; [|done..]. cbn [fmap res_fmap] in Hc. cbn [mbind res_bind].
  by injection Hc as ->.
Qed.

(** Putting the cell of a payload on a leaf that has room. *)
Lemma insert_into_room s m n d cco cs c r payload :
  pager_rep s m → m !! n = Some d → leaf_ok d cco cs → cell_ok c → cell_rowid c = r → (r ∉ rowids cs.*2) →
  cell_fits cco cs (zlen (cell_bytes c)) →
  (if MAX_INLINE_PAYLOAD <? zlen payload then ∃ f, c = COverflow r (as_u32 (zlen payload)) f else c = CInline r payload) →
  ∃ s' d' cs', (match c with
                | COverflow _ t f => insert_overflow_cell_raw n r t f
                | CInline _ _ => insert_cell_into_leaf_raw n r payload
                end) s = (Ok tt, s') ∧
    pager_rep s' (<[n := d']> m) ∧ leaf_ok d' (cco - zlen (cell_bytes c)) cs' ∧ cs'.*2 = put_cell c cs.*2 ∧ same_links d d' ∧
    ∀ k, pager_room s k → pager_room s' k.
Proof.
  intros Hrep Hd Hleaf Hok <- Hn Hfit Hc.
  pose proof (proj1 (sl_page _ _ _ _ (lf_slotted _ _ _ Hleaf))) as Hl.
  pose proof (slotted_read_cco _ leaf_hdr _ _ _ (lf_slotted _ _ _ Hleaf)) as Hcco.
  pose proof (proj2 (sl_room _ _ _ _ (lf_slotted _ _ _ Hleaf))) as Hle.
  destruct (page_insert_cell_spec d cco cs c Hleaf Hok Hfit) as [[Hin _]|(d' & cs' & _ & Hi & Hleaf' & Hcs & Hsame)]; [done|].
  assert (∃ s', (match c with
                | COverflow _ t f => insert_overflow_cell_raw n (cell_rowid c) t f
                | CInline _ _ => insert_cell_into_leaf_raw n (cell_rowid c) payload
                end) s = (Ok tt, s') ∧ pager_rep s' (<[n := d']> m) ∧ ∀ k, pager_room s k → pager_room s' k) as (s' & Hrun & Hrep' & Hr).
  { destruct c as [r p|r t f]; cbn [cell_rowid cell_bytes] in *.
    - assert (p = payload) as -> by (destruct (_ <? _); [by destruct Hc as [? ?]|by injection Hc as <-]).
      rewrite <- (page_insert_cell_raw_eq _ _ _ _ Hl Hcco Hle) in Hi.
      apply (get_page_mut_law _ _ _ _ _ _ _ _ Hrep Hd Hi (sl_page _ _ _ _ (lf_slotted _ _ _ Hleaf'))).
    - rewrite <- (page_insert_overflow_raw_eq _ _ _ _ _ Hl Hcco Hle) in Hi.
      apply (get_page_mut_law _ _ _ _ _ _ _ _ Hrep Hd Hi (sl_page _ _ _ _ (lf_slotted _ _ _ Hleaf'))). }
  exists s', d', cs'. split_and!; try done. by apply header_same_links.
Qed.

(** Where a leaf stands in the list of leaves. *)
Lemma linked_mid m n LA LB d :
  linked m 0 (LA ++ [n] ++ LB) 0 → m !! n = Some d →
  sub d 6 4 = le_bytes 4 (hd 0 LB) ∧ sub d 10 4 = le_bytes 4 (List.last LA 0) ∧
  linked m 0 LA n ∧ linked m n LB 0.
Proof.
  intros (HA & HnB)%linked_app Hd. cbn [app hd linked] in *. destruct HnB as [(d' & Hd' & H6 & H10) HB].
  rewrite Hd in Hd'. injection Hd' as <-. split_and!; [|done..]. by destruct LB.
Qed.
Lemma linked_relink m n rp LB :
  linked m n LB 0 → NoDup LB → (∀ q, q ∈ LB → ∀ d, m !! q = Some d → zlen d = PAGE_SIZE) → linked (relink (hd 0 LB) rp m) rp LB 0.
Proof.
  destruct LB as [|x LB]; [done|]. cbn [hd linked]. intros [(d & Hd & H6 & H10) Hl] [Hx Hnd]%NoDup_cons Hlen. split.
  - exists (splice d 10 (le_bytes 4 rp)). unfold relink. rewrite lookup_alter_eq, Hd. split; [done|].
    pose proof PAGE_SIZE_bounds. assert (zlen d = PAGE_SIZE) as Hz by (apply (Hlen x); [by left|done]). split.
    + rewrite sub_splice_before by (rewrite ?zlen_le_bytes; lia). done.
    + apply sub_relink; [done|lia].
  - eapply linked_same; [exact Hl|]. intros q Hq. unfold relink. apply lookup_alter_ne. by intros ->.
Qed.
End InsertLeaf.

Section InsertTree.
Context {P : Type} `{PagerLaws P}.
Implicit Types (m : gmap Z bytes) (s : P).

(** What an insertion below a page did: the new leaves and interior pages, the
    cell of the new row and its overflow pages, the leaf list, the pages that
    changed, and ([G]) the shape of the subtree. *)
Definition insert_result (m m' : gmap Z bytes) (lo : option Z) (r : Z) (payload : bytes) (LA LB : list Z)
    (ls : list (Z * list cell)) (inner new : list Z) (G : list (Z * list cell) → list Z → Prop) : Prop :=
  ∃ ls' inner' c ps, (cell_rowid c = r ∧ zlen (cell_bytes c) = cell_len payload ∧ cell_payload m' c payload ps ∧
    tree_cells ls' = put_cell c (tree_cells ls)) ∧ linked m' 0 (LA ++ ls'.*1 ++ LB) 0 ∧ live lo ls' ∧
    ls'.*1 ++ inner' ++ ps ≡ₚ ls.*1 ++ inner ++ new ∧ moved (ls.*1 ++ inner) LB new m m' ∧ G ls' inner'.

Lemma cell_payload_frame m m' c pl ps :
  cell_payload m c pl ps → (∀ q, q ∈ ps → m' !! q = m !! q) → cell_payload m' c pl ps.
Proof. destruct c; simpl; [done|]. intros [? Hch] Hq. split; [done|]. by eapply chain_frame. Qed.

(** The leaf took the cell. *)
Lemma leaf_took m m1 n d cco cs d' cco' cs' c lo hi r payload LA LB ps :
  m !! n = Some d → leaf_ok d cco cs → leaf_ok d' cco' cs' → cs'.*2 = put_cell c cs.*2 → same_links d d' →
  Forall (λ c, in_range lo hi (cell_rowid c)) cs.*2 → in_range lo hi r → cell_rowid c = r →
  zlen (cell_bytes c) = cell_len payload → cell_payload m1 c payload ps → moved [] [] ps m m1 →
  linked m 0 (LA ++ [n] ++ LB) 0 →
  insert_result m (<[n := d']> m1) lo r payload LA LB [(n, cs.*2)] [] ps (grown (<[n := d']> m1) 0 lo hi n Done).
Proof.
  intros Hd Hleaf Hleaf' Hcs Hlinks Hr Hrr Hc Hlen Hpl [Hnd Hfr Hsame] Hlink.
  assert (∀ q, q ∉ ps → m1 !! q = m !! q) as Hs1.
  { intros q Hq. destruct (Hsame q) as [|[[]%not_elem_of_nil _]]; [apply not_elem_of_nil|done|done]. }
  assert (n ∉ ps) as Hnps by (intros Hin; by rewrite Hfr in Hd).
  exists [(n, cs'.*2)], [], c, ps. split; [|split; [|split; [|split; [|split]]]].
  - split_and!; [done..| |].
    + eapply cell_payload_frame; [exact Hpl|]. intros q Hq. apply lookup_insert_ne. by intros ->.
    + unfold tree_cells. simpl. by rewrite !app_nil_r.
  - eapply linked_frame; [exact Hlink|]. intros q dq Hq Hdq. destruct (decide (q = n)) as [->|Hne].
    + exists d'. rewrite lookup_insert_eq. rewrite Hd in Hdq. by injection Hdq as <-.
    + exists dq. rewrite lookup_insert_ne by done. rewrite Hs1; [done|]. intros Hin. by rewrite Hfr in Hdq.
  - unfold live. destruct lo; [|by constructor]. constructor; [|done]. unfold nonempty_leaf. simpl. rewrite Hcs.
    unfold put_cell. by intros [_ ?]%app_eq_nil.
  - done.
  - split; [done..|]. intros q Hq Hq'. left. rewrite lookup_insert_ne by set_solver. by apply Hs1.
  - simpl. econstructor; [apply lookup_insert_eq|done|]. rewrite Hcs. unfold put_cell.
    rewrite Forall_forall in Hr |- *. intros x. rewrite elem_of_app, elem_of_cons, !list_elem_of_filter. naive_solver.
Qed.

(** The leaf was split. *)
Lemma leaf_split m m1 n d dl dr rp cco cs col cor csl csr c ck rest lo hi r payload LA LB ps :
  m !! n = Some d → leaf_ok d cco cs → leaf_ok dl col csl → leaf_ok dr cor csr → (r ∉ rowids cs.*2) →
  csl.*2 = take (split_mid cs.*2 c) (put_cell c cs.*2) → csr.*2 = ck :: rest →
  drop (split_mid cs.*2 c) (put_cell c cs.*2) = ck :: rest →
  sub dl 6 4 = le_bytes 4 rp → sub dl 10 4 = le_bytes 4 (List.last LA 0) →
  sub dr 6 4 = le_bytes 4 (hd 0 LB) → sub dr 10 4 = le_bytes 4 n →
  Forall (λ c, in_range lo hi (cell_rowid c)) cs.*2 → in_range lo hi r → cell_rowid c = r → cell_ok c →
  zlen (cell_bytes c) = cell_len payload → cell_payload m1 c payload ps → moved [] [] ps m m1 →
  (∀ q, q ∈ ps → is_Some (m1 !! q)) → m1 !! rp = None → is_u32 rp → m1 !! 0 = None → n ≠ 0 → rp ≠ 0 →
  (∀ q d, m !! q = Some d → zlen d = PAGE_SIZE) → linked m 0 (LA ++ [n] ++ LB) 0 → NoDup (LA ++ [n] ++ LB) →
  live lo [(n, cs.*2)] →
  let m' := relink (hd 0 LB) rp (<[rp := dr]> (<[n := dl]> m1)) in
  insert_result m m' lo r payload LA LB [(n, cs.*2)] [] (ps ++ [rp]) (grown m' 0 lo hi n (Split (cell_rowid ck) rp)).
Proof.
  intros Hd Hleaf Hll Hlr Hrn Hcl Hcr Hdrop Hl6 Hl10 Hr6 Hr10 Hr Hrr Hc Hcok Hlen Hpl [Hnd Hfr Hsame] Hps Hrp Hrpu H0n Hn0 Hrp0 Hplen
    Hlink Hndl Hlive m'.
  assert (∀ q, q ∉ ps → m1 !! q = m !! q) as Hs1.
  { intros q Hq. destruct (Hsame q) as [|[[]%not_elem_of_nil _]]; [apply not_elem_of_nil|done|done]. }
  assert (n ∉ ps) as Hnps by (intros Hin; by rewrite Hfr in Hd).
  assert (rp ∉ ps) as Hrps by (intros Hin; destruct (Hps _ Hin); congruence).
  assert (m !! rp = None) as Hmrp by (by rewrite <- Hs1).
  assert (n ≠ rp) as Hnr by (intros ->; congruence).
  destruct (linked_mid m n LA LB d Hlink Hd) as (_ & _ & HlA & HlB).
  apply NoDup_app in Hndl as (HndA & HdA & HndB). cbn [app] in HndB. apply NoDup_cons in HndB as [HnB HndB].
  assert (∀ q, q ∈ LA → is_Some (m !! q)) as HpA by (intros; eapply linked_pages; [exact HlA|done]).
  assert (∀ q, q ∈ LB → is_Some (m !! q)) as HpB by (intros; eapply linked_pages; [exact HlB|done]).
  assert (∀ q, q ∈ LA ∨ q ∈ LB → (q ∉ ps) ∧ q ≠ rp ∧ q ≠ n) as Hout.
  { intros q Hq. assert (is_Some (m !! q)) as [dq Hdq] by (destruct Hq; auto). split_and!.
    - intros Hin. by rewrite Hfr in Hdq.
    - intros ->. congruence.
    - intros ->. destruct Hq as [Hq|Hq]; [|done]. apply (HdA n Hq). by left. }
  (* the head of the right part *)
  assert (hd 0 LB = 0 ∨ hd 0 LB ∈ LB) as Hhd by (destruct LB; [by left|right; by left]).
  assert (∀ q, q ≠ n → q ≠ rp → q ∉ LB → m' !! q = m1 !! q) as Hm'.
  { intros q Hqn Hqr HqB. unfold m', relink. destruct (decide (q = hd 0 LB)) as [->|Hqh].
    - destruct Hhd as [E|]; [|done]. rewrite E in *. rewrite lookup_alter_eq, !lookup_insert_ne, H0n by done. done.
    - by rewrite lookup_alter_ne, !lookup_insert_ne by done. }
  assert (hd 0 LB ≠ n ∧ hd 0 LB ≠ rp) as [Hhn Hhr].
  { destruct Hhd as [E|Hin]; [by rewrite E|]. destruct (Hout (hd 0 LB)) as (_ & ? & ?); [by right|done]. }
  assert (m' !! n = Some dl ∧ m' !! rp = Some dr) as [Hmn Hmr].
  { unfold m', relink. rewrite !lookup_alter_ne, lookup_insert_eq, lookup_insert_ne, lookup_insert_eq by done. done. }
  pose proof (lf_sorted _ _ _ Hleaf) as Hsort. pose proof (put_cell_sorted c _ Hsort) as Hsort'.
  assert (csl.*2 ++ csr.*2 = put_cell c cs.*2) as Ecat by (rewrite Hcl, Hcr, <- Hdrop; apply take_drop).
  assert (Forall (λ c, in_range lo hi (cell_rowid c)) (put_cell c cs.*2)) as Hrange.
  { rewrite Forall_forall in Hr |- *. intros x. unfold put_cell. rewrite elem_of_app, elem_of_cons, !list_elem_of_filter. naive_solver. }
  assert (∀ x y, x ∈ csl.*2 → y ∈ csr.*2 → cell_rowid x < cell_rowid y) as Hlt.
  { intros x y Hx Hy. rewrite <- Ecat in Hsort'. apply sorted_cells_app in Hsort' as (_ & _ & Hlt). by apply Hlt. }
  assert (ck ∈ put_cell c cs.*2) as Hck by (rewrite <- Ecat, Hcr; apply elem_of_app; right; by left).
  rewrite <- Ecat in Hrange. apply Forall_app in Hrange as [HrL HrR].
  exists [(n, csl.*2); (rp, csr.*2)], [], c, ps. split; [|split; [|split; [|split; [|split]]]].
  - split_and!; [done..| |].
    + eapply cell_payload_frame; [exact Hpl|]. intros q Hq. apply Hm'; [by intros ->|by intros ->|].
      intros HqB. by destruct (Hout q) as [? _]; [right|].
    + unfold tree_cells. simpl. by rewrite !app_nil_r.
  - cbn [fmap list_fmap fst]. apply linked_app. split; [|apply linked_app; split].
    + eapply linked_same; [exact HlA|]. intros q Hq. destruct (Hout q) as (Hq1 & Hq2 & Hq3); [by left|].
      rewrite Hm', Hs1; [done..|]. intros HqB. apply (HdA q Hq). by right.
    + cbn [linked]. split_and!; [|by exists dr|done]. exists dl. split_and!; [done..|]. exact Hl10.
    + apply (linked_relink _ n); [|done|].
      * eapply linked_same; [exact HlB|]. intros q Hq. destruct (Hout q) as (Hq1 & Hq2 & Hq3); [by right|].
        rewrite !lookup_insert_ne by done. by apply Hs1.
      * intros q Hq dq. destruct (Hout q) as (Hq1 & Hq2 & Hq3); [by right|].
        rewrite !lookup_insert_ne, Hs1 by done. apply Hplen.
  - unfold live in *. destruct lo; [|by constructor; [rewrite Hcr|]]. constructor; [|by constructor; [rewrite Hcr|]].
    apply Forall_cons in Hlive as [Hne _]. unfold nonempty_leaf in *. cbn [snd] in *. rewrite Hcl. intros E.
    apply (f_equal length) in E. rewrite length_take, length_put_cell in E by (rewrite ?Hc; done).
    pose proof (split_mid_pos cs.*2 c Hne). simpl in E. lia.
  - cbn [fmap list_fmap fst app]. constructor. by rewrite (Permutation_app_comm ps [rp]).
  - cbn [fmap list_fmap fst app]. split.
    + apply NoDup_app. split_and!; [done| |by apply NoDup_singleton]. intros q Hq Hq'. apply list_elem_of_singleton in Hq' as ->. done.
    + intros q [Hq|Hq]%elem_of_app; [by apply Hfr|]. apply list_elem_of_singleton in Hq as ->. done.
    + intros q Hq [Hq1 Hq2]%not_elem_of_app. apply not_elem_of_cons in Hq as [Hqn _]. apply not_elem_of_cons in Hq2 as [Hqr _].
      destruct (decide (q = hd 0 LB)) as [->|Hqh]; [|left; unfold m', relink; rewrite lookup_alter_ne, !lookup_insert_ne by done; by apply Hs1].
      destruct Hhd as [E|Hin].
      * left. rewrite Hm'; [by apply Hs1|done|done|]. intros Hin. rewrite E in Hin. destruct (HpB _ Hin) as [? E'].
        rewrite E in Hq1. rewrite <- Hs1 in E' by done. congruence.
      * right. split; [done|]. destruct (HpB _ Hin) as [dq Hdq]. exists dq, rp. split; [done|].
        unfold m', relink. rewrite lookup_alter_eq, !lookup_insert_ne, Hs1, Hdq by done. done.
  - exists [(n, csl.*2)], [(rp, csr.*2)], [], []. split; [done|]. split; [done|].
    assert (in_range lo hi (cell_rowid ck)) as Hckr by (rewrite Hcr in HrR; by apply Forall_cons in HrR as [? _]).
    split; [done|]. split; [|split; [|split; [done|split]]].
    + intros l ->. unfold live in Hlive. apply Forall_cons in Hlive as [Hne _]. unfold nonempty_leaf in Hne. cbn [snd] in Hne.
      destruct (csl.*2) as [|x0 xs] eqn:Ex.
      { exfalso. symmetry in Hcl. apply (f_equal length) in Hcl.
        rewrite length_take, length_put_cell in Hcl by (rewrite ?Hc; done).
        pose proof (split_mid_pos cs.*2 c Hne). simpl in Hcl. lia. }
      apply Forall_cons in HrL as [[Hx0 _] _]. specialize (Hx0 l eq_refl).
      assert (cell_rowid x0 < cell_rowid ck) by (apply Hlt; [by left|rewrite Hcr; by left]). lia.
    + assert (cell_ok ck) as Hckok; [|by apply cell_ok_rowid].
      assert (Forall cell_ok (put_cell c cs.*2)) as Hall.
      { apply put_cell_ok; [done|]. apply Forall_fmap. exact (lf_cells _ _ _ Hleaf). }
      rewrite Forall_forall in Hall. by apply Hall.
    + econstructor; [done|done|]. rewrite Forall_forall in HrL |- *. intros x Hx. split; [apply HrL, Hx|].
      intros u [= <-]. apply Hlt; [done|]. rewrite Hcr. by left.
    + econstructor; [done|done|]. rewrite Forall_forall in HrR |- *. intros x Hx. split; [|apply HrR, Hx].
      intros u [= <-]. rewrite Hcr in Hx. apply elem_of_cons in Hx as [->|Hx]; [lia|].
      assert (sorted_cells (ck :: rest)) as Hsr.
      { rewrite <- Hcr. rewrite <- Ecat in Hsort'. by apply sorted_cells_app in Hsort' as (_ & ? & _). }
      unfold sorted_cells, rowids in Hsr. cbn [map] in Hsr. apply StronglySorted_inv in Hsr as [_ Hall].
      rewrite Forall_forall in Hall. specialize (Hall (cell_rowid x)). apply Z.lt_le_incl, Hall. by apply list_elem_of_fmap_2.
Qed.

(** A leaf cell of a payload always takes less than half a page. *)
Lemma leaf_has_room cco (cs : list (Z * cell)) len :
  (len + 2 <=? saturating_sub cco (LEAF_HEADER_SIZE + zlen cs * 2)) = true → 0 ≤ len → cell_fits cco cs len.
Proof. unfold saturating_sub, cell_fits. intros Hle%Z.leb_le ?. lia. Qed.

(** ** Lemmas: the descent of an insertion *)

Section Descent.
Context (r : Z) (payload : bytes) (Hpay : payload_ok payload) (Hri : is_i64 r).

(** Every leaf that might have to be split can be. *)
Definition can_split (ls : list (Z * list cell)) : Prop :=
  ∀ c x, cell_rowid c = r → zlen (cell_bytes c) = cell_len payload → x ∈ ls → split_fits x.2 c.

Lemma insert_leaf s m n lo hi ls inner LA LB fuel :
  tree m 0 lo hi n ls inner → in_range lo hi r → pager_rep s m → (r ∉ rowids (tree_cells ls)) →
  linked m 0 (LA ++ ls.*1 ++ LB) 0 → NoDup (LA ++ ls.*1 ++ LB) → can_split ls → live lo ls →
  pager_room s (overflow_pages payload + 1) →
  ∃ s' m' res new, insert_into_page (S fuel) n r payload s = (Ok res, s') ∧ pager_rep s' m' ∧
    (length new ≤ overflow_pages payload + 1)%nat ∧
    (∀ k, pager_room s (overflow_pages payload + 1 + k) → pager_room s' k) ∧
    insert_result m m' lo r payload LA LB ls inner new (grown m' 0 lo hi n res).
Proof using Hpay Hri.
  intros Ht Hr Hrep Hn Hlink Hnd Hsplit Hlive Hroom. inversion Ht as [? ? ? d cco cs Hd Hleaf Hrange|]; subst.
  unfold tree_cells in Hn. cbn [fmap list_fmap snd fst concat] in *. rewrite app_nil_r in Hn.
  pose proof Hpay as (_ & _ & Hplen). cbn [insert_into_page]. rewrite (proj2 (Z.ltb_ge _ _)) by done. unfold header_offset. cbv zeta.
  enter_leaf Hrep Hd Hleaf s0 Hk0. rewrite Z.eqb_refl.
  pose proof (proj1 (sl_page _ _ _ _ (lf_slotted _ _ _ Hleaf))) as Hl.
  erewrite ST_bind_Ok; [|unfold st_lift; rewrite (page_available_spec _ cco (zlen cs));
    [done|done|by apply (leaf_count _ _ _ Hleaf)|by apply (slotted_read_cco _ leaf_hdr _ _ _ (lf_slotted _ _ _ Hleaf))]]. cbv beta.
  destruct (store_payload s0 m r payload (proj1 Hk0) Hpay Hri) as
    (s1 & m1 & c & ps & Hc & Hcok & Hclen & Hcpl & Hrep1 & Hmv & Hln & Hpsome & Hr1 & Hst).
  { apply Hk0. eapply pager_room_le; [exact Hroom|lia]. }
  change (if MAX_INLINE_PAYLOAD <? zlen payload then 12 + 8 else 12 + zlen payload) with (cell_len payload). rewrite <- Hclen.
  assert (n ∉ ps) as Hnps by (intros Hin; rewrite (mv_new _ _ _ _ _ Hmv n Hin) in Hd; done).
  assert (∀ q, (q ∉ ps) → m1 !! q = m !! q) as Hs1.
  { intros q Hq. destruct (mv_same _ _ _ _ _ Hmv q) as [|[[]%not_elem_of_nil _]]; [apply not_elem_of_nil|done|done]. }
  assert (m1 !! n = Some d) as Hd1 by (by rewrite Hs1).
  destruct (zlen (cell_bytes c) + 2 <=? saturating_sub cco (LEAF_HEADER_SIZE + zlen cs * 2)) eqn:Efit.
  - apply leaf_has_room in Efit; [|apply zlen_nonneg].
    destruct (insert_into_room s1 m1 n d cco cs c r payload Hrep1 Hd1 Hleaf Hcok Hc Hn Efit) as
      (s2 & d' & cs' & Hins & Hrep2 & Hleaf' & Hcs' & Hlinks & Hr2).
    { destruct (MAX_INLINE_PAYLOAD <? zlen payload); [destruct Hst as (f & _ & ->); by exists f|apply Hst]. }
    exists s2, (<[n := d']> m1), Done, ps. split_and!; [|done|lia| |by eapply leaf_took].
    + destruct (MAX_INLINE_PAYLOAD <? zlen payload).
      * destruct Hst as (f & Hw & ->). pstep Hw. by pstep Hins.
      * destruct Hst as (-> & ->). by pstep Hins.
    + intros k Hk. apply Hr2, Hr1, Hk0. eapply pager_room_le; [exact Hk|lia].
  - assert ((if MAX_INLINE_PAYLOAD <? zlen payload
             then overflow_page ← write_overflow_chain payload; mret (make_overflow_cell r (as_u32 (zlen payload)) overflow_page)
             else mret (make_leaf_cell r payload)) s0 = (Ok (cell_bytes c), s1)) as Hcell.
    { destruct (MAX_INLINE_PAYLOAD <? zlen payload).
      - destruct Hst as (f & Hw & ->). by pstep Hw.
      - by destruct Hst as (-> & ->). }
    pstep Hcell. destruct (linked_mid m n LA LB d Hlink Hd) as (H6 & H10 & HlA & HlB).
    assert (is_u32 (hd 0 LB) ∧ is_u32 (List.last LA 0) ∧ hd 0 LB ≠ n ∧ (hd 0 LB ≠ 0 → ∃ dn, m1 !! hd 0 LB = Some dn)) as (Hu1 & Hu2 & Hhn & Hhd).
    { destruct (rep_page_len _ _ _ _ Hrep Hd) as (_ & Hn0 & _). split; [|split; [|split]].
      - destruct LB as [|x LB]; [done|]. destruct (linked_pages _ _ _ _ x HlB) as [dx Hdx]; [by left|].
        apply (rep_page_len _ _ _ _ Hrep Hdx).
      - destruct LA as [|x LA _] using rev_ind; [done|]. rewrite List.last_last.
        destruct (linked_pages _ _ _ _ x HlA) as [dx Hdx]; [apply elem_of_app; right; by left|]. apply (rep_page_len _ _ _ _ Hrep Hdx).
      - destruct LB as [|x LB]; [simpl; congruence|]. simpl. intros ->.
        apply NoDup_app in Hnd as (_ & _ & Hnd). cbn [app] in Hnd. apply NoDup_cons in Hnd as [Hnin _]. apply Hnin. by left.
      - destruct LB as [|x LB]; [done|]. intros _. destruct (linked_pages _ _ _ _ x HlB) as [dx Hdx]; [by left|]. simpl.
        exists dx. rewrite Hs1; [done|]. intros Hin. by rewrite (mv_new _ _ _ _ _ Hmv x Hin) in Hdx. }
    destruct (split_leaf_spec s1 m1 n d cco cs c (List.last LA 0) (hd 0 LB) Hrep1 Hd1 Hleaf Hcok) as
      (s2 & rp & ck & rest & dl & dr & col & cor & csl & csr & Hrun & Hdrop & Hrp & Hrp0 & Hrpu & Hrep2 & Hll & Hcl & Hl6 & Hl10 & Hlr & Hcr & Hr6 & Hr10 & Hr2);
      rewrite ?Hc; try done.
    { exact (Hsplit c (n, cs.*2) Hc Hclen (list_elem_of_here _ _)). }
    { apply Hr1, Hk0, Hroom. }
    rewrite Hc in Hrun. exists s2, (relink (hd 0 LB) rp (<[rp := dr]> (<[n := dl]> m1))), (Split (cell_rowid ck) rp), (ps ++ [rp]).
    split_and!; [exact Hrun|done|rewrite length_app; simpl; lia| |].
    + intros k Hk. apply Hr2, Hr1, Hk0. eapply pager_room_le; [exact Hk|lia].
    + eapply (leaf_split m m1 n d dl dr rp cco cs col cor csl csr c ck rest); try done.
      * destruct (m1 !! 0) as [dz|] eqn:E; [|done]. by destruct (rep_page_len _ _ _ _ Hrep1 E) as (_ & ? & _).
      * apply (rep_page_len _ _ _ _ Hrep Hd).
      * intros q dq Hdq. apply (rep_page_len _ _ _ _ Hrep Hdq).
Qed.

Lemma put_cell_app_l c l1 l2 :
  (∀ x, x ∈ l2 → cell_rowid c < cell_rowid x) → put_cell c (l1 ++ l2) = put_cell c l1 ++ l2.
Proof.
  intros Hlt. unfold put_cell. rewrite !filter_app, (filter_none _ l2), (filter_id _ l2), app_nil_r, <- app_assoc; [done|..];
    apply Forall_forall; intros x Hx; specialize (Hlt x Hx); lia.
Qed.
Lemma put_cell_app_r c l1 l2 :
  (∀ x, x ∈ l1 → cell_rowid x < cell_rowid c) → put_cell c (l1 ++ l2) = l1 ++ put_cell c l2.
Proof.
  intros Hlt. unfold put_cell. rewrite !filter_app, (filter_none (λ x, cell_rowid c < cell_rowid x) l1), (filter_id _ l1), <- app_assoc;
    [done|..]; apply Forall_forall; intros x Hx; specialize (Hlt x Hx); lia.
Qed.
Lemma moved_widen own own' lb lb' new m m' :
  moved own lb new m m' → (∀ q, q ∈ own → q ∈ own') → (∀ q, q ∈ lb → q ∈ own' ∨ q ∈ lb') → moved own' lb' new m m'.
Proof.
  intros [Hnd Hnew Hsame] Ho Hl. split; [done..|]. intros q Hq Hq'. destruct (Hsame q) as [|[Hin Hrel]]; [auto..|by left|].
  destruct (Hl q Hin); [done|]. by right.
Qed.

(** What became of the children of an interior page. *)
Definition forest_grown (m : gmap Z bytes) (h : nat) (lo hi : option Z) (cells : list (Z * Z)) (rc : Z) (res : InsertResult)
    (ls : list (Z * list cell)) (inner : list Z) : Prop :=
  match res with
  | Done => forest m h lo hi cells rc ls inner
  | Split k n2 =>
      forest m h lo hi (add_child cells rc k n2).1 (add_child cells rc k n2).2 ls inner ∧ (k ∉ keys cells) ∧
      child_for cells rc k = child_for cells rc r ∧ in_range lo hi k ∧ (∀ l, lo = Some l → l < k) ∧ is_i64 k ∧ is_u32 n2
  end.

(** The descent into a subtree of height [h]. *)
Definition insert_tree_at (h fuel : nat) : Prop := ∀ s m n lo hi ls inner LA LB,
  tree m h lo hi n ls inner → in_range lo hi r → pager_rep s m → (r ∉ rowids (tree_cells ls)) →
  linked m 0 (LA ++ ls.*1 ++ LB) 0 → NoDup (inner ++ LA ++ ls.*1 ++ LB) → can_split ls → live lo ls →
  pager_room s (overflow_pages payload + S h) →
  ∃ s' m' res new, insert_into_page fuel n r payload s = (Ok res, s') ∧ pager_rep s' m' ∧
    (length new ≤ overflow_pages payload + S h)%nat ∧
    (∀ k, pager_room s (overflow_pages payload + S h + k) → pager_room s' k) ∧
    insert_result m m' lo r payload LA LB ls inner new (grown m' h lo hi n res).

Lemma insert_result_nonempty m h n lo hi res ls inner : grown m h lo hi n res ls inner → ls ≠ [].
Proof.
  destruct res as [|k n2]; simpl; [intros Ht|intros (ls1 & ls2 & i1 & i2 & -> & _ & _ & _ & _ & _ & Ht & _)];
    destruct (proj1 (tree_leaves_ok m) _ _ _ _ _ _ Ht) as [_ Hne]; [done|by destruct ls1].
Qed.

(** The rowid went to the first child of a forest. *)
Lemma forest_first_child m m' h lo hi c k cells rc ls1 i1 ls2 i2 LA LB new res :
  r < k → in_range lo hi k → forest m h (Some k) hi cells rc ls2 i2 →
  NoDup ((i1 ++ i2) ++ LA ++ (ls1 ++ ls2).*1 ++ LB) → live (Some k) ls2 →
  insert_result m m' lo r payload LA (ls2.*1 ++ LB) ls1 i1 new (grown m' h lo (Some k) c res) →
  insert_result m m' lo r payload LA LB (ls1 ++ ls2) (i1 ++ i2) new (forest_grown m' h lo hi ((c, k) :: cells) rc res).
Proof.
  intros Hrk Hk Hf Hnd Hlive (ls1' & i1' & cl & ps & (Hc & Hlen & Hpl & Hcells) & Hlink & Hl1 & Hperm & Hmv & HG).
  pose proof (insert_result_nonempty _ _ _ _ _ _ _ _ HG) as Hne.
  pose proof (proj2 (tree_range m) _ _ _ _ _ _ _ Hf) as Hr2. rewrite Forall_forall in Hr2.
  assert (forest m' h (Some k) hi cells rc ls2 i2) as Hf'.
  { assert (∀ q, q ∈ ls2.*1 ++ i2 → q ∉ ls1.*1 ++ i1) as Hd.
    { intros q Hq Hq'. rewrite fmap_app in Hnd.
      assert ((i1 ++ i2) ++ LA ++ (ls1.*1 ++ ls2.*1) ++ LB ≡ₚ (ls1.*1 ++ i1) ++ (ls2.*1 ++ i2) ++ LA ++ LB) as Hp by solve_Permutation.
      rewrite Hp in Hnd. apply NoDup_app in Hnd as (_ & Hd & _). apply (Hd q Hq'). set_solver. }
    assert (∀ q, q ∈ ls2.*1 ++ i2 → q ∉ new) as Hn.
    { intros q Hq Hin. destruct (proj2 (tree_pages m) _ _ _ _ _ _ _ Hf q Hq) as [? E]. by rewrite (mv_new _ _ _ _ _ Hmv q Hin) in E. }
    apply (proj2 (tree_relinked m m') _ _ _ _ _ _ _ Hf).
    - intros q Hq. destruct (mv_same _ _ _ _ _ Hmv q) as [|[_ ?]]; [apply Hd; set_solver|apply Hn; set_solver|by left|by right].
    - intros q Hq. destruct (mv_same _ _ _ _ _ Hmv q) as [|[Hin _]]; [apply Hd; set_solver|apply Hn; set_solver|done|].
      exfalso. rewrite fmap_app in Hnd.
      assert ((i1 ++ i2) ++ LA ++ (ls1.*1 ++ ls2.*1) ++ LB ≡ₚ i2 ++ (ls2.*1 ++ LB) ++ i1 ++ LA ++ ls1.*1) as Hp by solve_Permutation.
      rewrite Hp in Hnd. apply NoDup_app in Hnd as (_ & Hd2 & _). apply (Hd2 q Hq). set_solver. }
  exists (ls1' ++ ls2), (i1' ++ i2), cl, ps. split; [|split; [|split; [|split; [|split]]]].
  - split_and!; [done..|]. unfold tree_cells. rewrite !fmap_app, !concat_app. rewrite put_cell_app_l.
    + by f_equal.
    + intros x Hx. destruct (Hr2 x Hx) as [Hx' _]. specialize (Hx' k eq_refl). lia.
  - rewrite fmap_app, <- app_assoc. exact Hlink.
  - by apply (live_app lo ls1' ls2 k).
  - rewrite !fmap_app. transitivity ((ls1'.*1 ++ i1' ++ ps) ++ ls2.*1 ++ i2); [solve_Permutation|]. rewrite Hperm. solve_Permutation.
  - eapply moved_widen; [exact Hmv|rewrite fmap_app; set_solver|rewrite fmap_app; set_solver].
  - destruct res as [|kk n2]; cbn [grown forest_grown] in *; [by constructor|].
    destruct HG as (lsa & lsb & ia & ib & -> & -> & Hkk & Hstr & Hi64 & Hu32 & Hta & Htb).
    assert (kk < k) as Hlt by (by apply Hkk).
    assert (Forall (λ k', k ≤ k') (keys cells)) as Hge.
    { clear -Hf. remember (Some k) as lo0 eqn:E. revert k E.
      induction Hf as [|h lo hi c0 k0 cells rc ls1 i1 ls2 i2 Hk0 _ Hf IH]; intros k ->; [constructor|].
      assert (k ≤ k0) as Hle by (by apply Hk0). unfold keys. rewrite fmap_cons. constructor; [done|].
      eapply Forall_impl; [by apply (IH k0)|]. simpl. lia. }
    cbn [add_child child_for]. rewrite !(proj2 (Z.ltb_lt _ _)) by done. cbn [fst snd]. split_and!; try done.
    + rewrite <- !app_assoc. constructor; [split; [apply Hkk|]|done|].
      * intros u Hu. destruct Hk as [_ Hk]. specialize (Hk u Hu). lia.
      * constructor; [split; [by intros l [= <-]; lia|apply Hk]|done|done].
    + unfold keys. rewrite fmap_cons. intros [?|Hin]%elem_of_cons; [simpl in *; lia|].
      rewrite Forall_forall in Hge. specialize (Hge kk Hin). lia.
    + split; [apply Hkk|]. intros u Hu. destruct Hk as [_ Hk]. specialize (Hk u Hu). lia.
Qed.

(** The rowid went past the first child of a forest. *)
Lemma forest_past m m' h lo hi c k cells rc ls1 i1 ls2 i2 LA LB new res :
  k ≤ r → in_range lo hi k → tree m h lo (Some k) c ls1 i1 →
  NoDup ((i1 ++ i2) ++ LA ++ (ls1 ++ ls2).*1 ++ LB) → live lo ls1 →
  insert_result m m' (Some k) r payload (LA ++ ls1.*1) LB ls2 i2 new (forest_grown m' h (Some k) hi cells rc res) →
  insert_result m m' lo r payload LA LB (ls1 ++ ls2) (i1 ++ i2) new (forest_grown m' h lo hi ((c, k) :: cells) rc res).
Proof.
  intros Hrk Hk Ht Hnd Hlive (ls2' & i2' & cl & ps & (Hc & Hlen & Hpl & Hcells) & Hlink & Hl2 & Hperm & Hmv & HG).
  destruct (proj1 (tree_leaves_ok m) _ _ _ _ _ _ Ht) as [_ Hne].
  pose proof (proj1 (tree_range m) _ _ _ _ _ _ Ht) as Hr1. rewrite Forall_forall in Hr1.
  assert (tree m' h lo (Some k) c ls1 i1) as Ht'.
  { apply (proj1 (tree_frame m m') _ _ _ _ _ _ Ht). intros q Hq. rewrite fmap_app in Hnd.
    assert ((i1 ++ i2) ++ LA ++ (ls1.*1 ++ ls2.*1) ++ LB ≡ₚ (ls1.*1 ++ i1) ++ (ls2.*1 ++ i2) ++ LA ++ LB) as Hp by solve_Permutation.
    rewrite Hp in Hnd. apply NoDup_app in Hnd as (_ & Hd & _). specialize (Hd q Hq).
    destruct (mv_same _ _ _ _ _ Hmv q) as [|[Hin _]]; [set_solver| |done|set_solver].
    intros Hin. destruct (proj1 (tree_pages m) _ _ _ _ _ _ Ht q Hq) as [? E]. by rewrite (mv_new _ _ _ _ _ Hmv q Hin) in E. }
  exists (ls1 ++ ls2'), (i1 ++ i2'), cl, ps. split; [|split; [|split; [|split; [|split]]]].
  - split_and!; [done..|]. unfold tree_cells. rewrite !fmap_app, !concat_app. rewrite put_cell_app_r.
    + by f_equal.
    + intros x Hx. destruct (Hr1 x Hx) as [_ Hx']. specialize (Hx' k eq_refl). lia.
  - rewrite fmap_app. by rewrite <- !app_assoc in *.
  - by apply (live_app lo ls1 ls2' k).
  - rewrite !fmap_app. transitivity (ls1.*1 ++ i1 ++ (ls2'.*1 ++ i2' ++ ps)); [solve_Permutation|]. rewrite Hperm. solve_Permutation.
  - eapply moved_widen; [exact Hmv|rewrite fmap_app; set_solver|set_solver].
  - destruct res as [|kk n2]; cbn [forest_grown] in *; [by constructor|].
    destruct HG as (Hf & Hnk & Hcf & Hkk & Hstr & Hi64 & Hu32). specialize (Hstr k eq_refl).
    cbn [add_child child_for]. rewrite !(proj2 (Z.ltb_ge _ _)) by lia.
    destruct (add_child cells rc kk n2) as [cs rc'] eqn:E. cbn [fst snd] in *. split_and!; try done.
    + by constructor.
    + unfold keys. rewrite fmap_cons. intros [?|Hin]%elem_of_cons; [simpl in *; lia|done].
    + split; [|apply Hkk]. intros l Hl. destruct Hk as [Hk _]. specialize (Hk l Hl). lia.
    + intros l Hl. destruct Hk as [Hk _]. specialize (Hk l Hl). lia.
Qed.

(** Inserting below one of the children of an interior page. *)
Lemma insert_forest h fuel (IH : insert_tree_at h fuel) cells : ∀ s m lo hi rc ls inner LA LB,
  forest m h lo hi cells rc ls inner → in_range lo hi r → pager_rep s m → (r ∉ rowids (tree_cells ls)) →
  linked m 0 (LA ++ ls.*1 ++ LB) 0 → NoDup (inner ++ LA ++ ls.*1 ++ LB) → can_split ls → live lo ls →
  pager_room s (overflow_pages payload + S h) →
  ∃ s' m' res new, insert_into_page fuel (child_for cells rc r) r payload s = (Ok res, s') ∧ pager_rep s' m' ∧
    (length new ≤ overflow_pages payload + S h)%nat ∧
    (∀ k, pager_room s (overflow_pages payload + S h + k) → pager_room s' k) ∧
    insert_result m m' lo r payload LA LB ls inner new (forest_grown m' h lo hi cells rc res).
Proof using Hpay Hri.
  induction cells as [|[c k] cells IHc]; intros s m lo hi rc ls inner LA LB Hf Hr Hrep Hn Hlink Hnd Hsp Hlive Hroom;
    inversion Hf as [? ? ? ? ? ? Ht|? ? ? ? ? ? ? ls1 i1 ls2 i2 Hk Ht Hf']; subst; cbn [child_for].
  - destruct (IH s m rc lo hi ls inner LA LB) as (s' & m' & res & new & Hrun & Hrep' & Hln & Hroom' & Hres); [done..|].
    exists s', m', res, new. split_and!; try done.
    destruct Hres as (ls' & inner' & cl & ps & Hc & Hl & Hlv & Hperm & Hmv & HG).
    exists ls', inner', cl, ps. split; [done|]. split; [done|]. split; [done|]. split; [done|]. split; [done|].
    destruct res as [|kk n2]; cbn [grown forest_grown] in *; [by constructor|].
    destruct HG as (lsa & lsb & ia & ib & -> & -> & Hkk & Hstr & Hi64 & Hu32 & Hta & Htb). cbn [add_child fst snd].
    split_and!; try done; [|apply not_elem_of_nil]. constructor; [done|done|by constructor].
  - assert (rowids (tree_cells (ls1 ++ ls2)) = rowids (tree_cells ls1) ++ rowids (tree_cells ls2)) as Erow
      by (unfold tree_cells, rowids; by rewrite fmap_app, concat_app, map_app).
    rewrite Erow in Hn. apply not_elem_of_app in Hn as [Hn1 Hn2].
    destruct (proj1 (tree_leaves_ok m) _ _ _ _ _ _ Ht) as [_ Hne]. apply (live_app lo ls1 ls2 k Hne) in Hlive as [Hl1 Hl2].
    pose proof Hnd as Hnd0. rewrite fmap_app in Hnd0. rewrite fmap_app in Hlink. destruct (Z.ltb_spec r k).
    + destruct (IH s m c lo (Some k) ls1 i1 LA (ls2.*1 ++ LB)) as (s' & m' & res & new & Hrun & Hrep' & Hln & Hroom' & Hres); try done.
      * split; [apply Hr|]. by intros u [= <-].
      * by rewrite <- app_assoc in Hlink.
      * assert ((i1 ++ i2) ++ LA ++ (ls1.*1 ++ ls2.*1) ++ LB ≡ₚ i2 ++ i1 ++ LA ++ ls1.*1 ++ ls2.*1 ++ LB) as Hp by solve_Permutation.
        rewrite Hp in Hnd0. by apply NoDup_app in Hnd0 as (_ & _ & ?).
      * intros c' x Hc' Hx Hin. apply Hsp; [done..|]. apply elem_of_app. by left.
      * exists s', m', res, new. split_and!; try done. by eapply forest_first_child.
    + destruct (IHc s m (Some k) hi rc ls2 i2 (LA ++ ls1.*1) LB) as (s' & m' & res & new & Hrun & Hrep' & Hln & Hroom' & Hres); try done.
      * split; [by intros u [= <-]|apply Hr].
      * by rewrite <- !app_assoc in *.
      * assert ((i1 ++ i2) ++ LA ++ (ls1.*1 ++ ls2.*1) ++ LB ≡ₚ i1 ++ i2 ++ (LA ++ ls1.*1) ++ ls2.*1 ++ LB) as Hp by solve_Permutation.
        rewrite Hp in Hnd0. by apply NoDup_app in Hnd0 as (_ & _ & ?).
      * intros c' x Hc' Hx Hin. apply Hsp; [done..|]. apply elem_of_app. by right.
      * exists s', m', res, new. split_and!; try done. by eapply forest_past.
Qed.

Lemma cell_payload_pages m c pl ps q : cell_payload m c pl ps → q ∈ ps → is_Some (m !! q).
Proof. destruct c; simpl; intros [? Hch]; [subst; by intros ?%not_elem_of_nil|by eapply chain_pages]. Qed.

(** After the children, the interior page itself changes, and it may get a
    new sibling. *)
Lemma node_result m m' m'' lo LA LB ls inner new ex G G' n :
  insert_result m m' lo r payload LA LB ls inner new G → NoDup ((n :: inner) ++ LA ++ ls.*1 ++ LB) → is_Some (m !! n) →
  NoDup ex → (∀ q, q ∈ ex → m' !! q = None) → (∀ q, q ≠ n → q ∉ ex → m'' !! q = m' !! q) →
  (∀ ls' inner', G ls' inner' → ∀ q, q ∈ ls'.*1 ++ inner' → is_Some (m' !! q)) →
  (∀ ls' inner', G ls' inner' → (∀ q, q ∈ ls'.*1 ++ inner' → m'' !! q = m' !! q) →
     ∃ inner'', inner'' ≡ₚ n :: inner' ++ ex ∧ G' ls' inner'') →
  insert_result m m'' lo r payload LA LB ls (n :: inner) (new ++ ex) G'.
Proof.
  intros (ls' & inner' & cl & ps & (Hc & Hlen & Hpl & Hcells) & Hlink & Hlv & Hperm & Hmv & HG) Hnd Hn Hndex Hex Hsame Hpages Hmk.
  specialize (Hpages _ _ HG).
  assert (∀ q, is_Some (m' !! q) → q ∉ ex) as Hnex by (intros q [? E] Hin; by rewrite Hex in E).
  assert ((n ∉ inner) ∧ (n ∉ LA) ∧ (n ∉ ls.*1) ∧ (n ∉ LB)) as (Hn1 & Hn2 & Hn3 & Hn4).
  { cbn [app] in Hnd. apply NoDup_cons in Hnd as [Hnin _]. set_solver. }
  assert (n ∉ new) as Hn5 by (intros Hin; destruct Hn as [? E]; by rewrite (mv_new _ _ _ _ _ Hmv n Hin) in E).
  assert (∀ q, q ∈ ls'.*1 ++ inner' ++ ps → q ≠ n ∧ is_Some (m' !! q)) as Hin'.
  { intros q Hq. split.
    - intros ->. rewrite Hperm in Hq. set_solver.
    - rewrite app_assoc in Hq. apply elem_of_app in Hq as [Hq|Hq]; [by apply Hpages|by eapply cell_payload_pages]. }
  assert (∀ q, q ∈ ls'.*1 ++ inner' ++ ps → m'' !! q = m' !! q) as Heq.
  { intros q Hq. destruct (Hin' q Hq). apply Hsame; [done|by apply Hnex]. }
  destruct (Hmk _ _ HG) as (inner'' & Hperm2 & HG'); [intros q Hq; apply Heq; set_solver|].
  exists ls', inner'', cl, ps. split; [|split; [|split; [|split; [|split]]]]; [| |done| | |done].
  - split_and!; [done..| |done]. eapply cell_payload_frame; [exact Hpl|]. intros q Hq. apply Heq. set_solver.
  - eapply linked_same; [exact Hlink|]. intros q Hq. assert (is_Some (m' !! q)) by (by eapply linked_pages).
    apply Hsame; [|by apply Hnex]. intros ->.
    apply elem_of_app in Hq as [?|[Hq|?]%elem_of_app]; [done| |done]. destruct (Hin' n) as [? _]; [set_solver|done].
  - rewrite Hperm2. transitivity (n :: (ls'.*1 ++ inner' ++ ps) ++ ex); [solve_Permutation|]. rewrite Hperm. solve_Permutation.
  - assert (∀ q, q ∈ new → is_Some (m' !! q)) as Hnew.
    { intros q Hq. apply (Hin' q). rewrite Hperm. set_solver. }
    split.
    + apply NoDup_app. split_and!; [apply Hmv| |done]. intros q Hq. by apply Hnex, Hnew.
    + intros q [Hq|Hq]%elem_of_app; [by apply Hmv|]. destruct (m !! q) as [dq|] eqn:E; [|done]. exfalso.
      assert (q ∉ ls.*1 ++ inner ++ new) as Hout by (rewrite <- Hperm; intros Hin; apply (Hnex q); [by apply Hin'|done]).
      destruct (mv_same _ _ _ _ _ Hmv q) as [E'|[_ (? & ? & _ & E')]]; [set_solver|set_solver| |];
        rewrite Hex in E' by done; congruence.
    + intros q Hq Hq'. apply not_elem_of_app in Hq as [Hq1 Hq2]. apply not_elem_of_cons in Hq2 as [Hqn Hq2].
      apply not_elem_of_app in Hq' as [Hq3 Hq4]. unfold relinked. rewrite Hsame by done.
      apply (mv_same _ _ _ _ _ Hmv); [set_solver|done].
Qed.

Lemma forest_grown_pages m h lo hi cells rc res ls inner q :
  forest_grown m h lo hi cells rc res ls inner → q ∈ ls.*1 ++ inner → is_Some (m !! q).
Proof. destruct res as [|k n2]; simpl; [intros Hf|intros (Hf & _)]; by apply (proj2 (tree_pages m) _ _ _ _ _ _ _ Hf). Qed.

(** The new child of an interior page, when the page has room for it and when
    it has not. *)
Lemma add_to_parent s m n d cco cs rc k n2 :
  pager_rep s m → m !! n = Some d → interior_ok d cco cs rc → is_i64 k → is_u32 n2 → (k ∉ keys cs.*2) →
  (14 <=? saturating_sub cco (INTERIOR_HEADER_SIZE + zlen cs * 2)) = true →
  ∃ s' d' cs2 rc2,
    (_ ← insert_interior_cell n k (child_for cs.*2 rc k); _ ← replace_child_pointer n (child_for cs.*2 rc k) k n2; mret Done) s
      = (Ok Done, s') ∧
    pager_rep s' (<[n := d']> m) ∧ interior_ok d' (cco - 12) cs2 rc2 ∧ add_child cs.*2 rc k n2 = (cs2.*2, rc2) ∧
    ∀ j, pager_room s j → pager_room s' j.
Proof.
  intros Hrep Hd Hin Hk Hn2 Hkn Hfit%Z.leb_le. unfold saturating_sub in Hfit.
  destruct (interior_add d cco cs rc k n2 Hin Hk Hn2 Hkn) as (d1 & d2 & cs1 & cs2 & rc2 & Hi & Hin1 & Hr & Hin2 & Hadd);
    [by eapply child_for_u32|lia|].
  unfold insert_interior_cell, replace_child_pointer, header_offset.
  destruct (get_page_mut_law _ _ _ _ _ _ _ _ Hrep Hd Hi (sl_page _ _ _ _ (in_slotted _ _ _ _ Hin1))) as (s1 & Hg1 & Hrep1 & Hr1).
  pstep Hg1. destruct (get_page_mut_law _ _ _ _ _ _ _ _ Hrep1 ltac:(apply lookup_insert_eq) Hr (sl_page _ _ _ _ (in_slotted _ _ _ _ Hin2)))
    as (s2 & Hg2 & Hrep2 & Hr2). pstep Hg2. rewrite insert_insert_eq in Hrep2.
  exists s2, d2, cs2, rc2. split_and!; auto.
Qed.

Lemma insert_tree h : ∀ fuel, (h < fuel)%nat → insert_tree_at h fuel.
Proof using Hpay Hri.
  induction h as [|h IH]; intros fuel Hfuel; (destruct fuel as [|fuel]; [lia|]);
    intros s m n lo hi ls inner LA LB Ht Hr Hrep Hn Hlink Hnd Hsp Hlive Hroom.
  { apply NoDup_app in Hnd as (_ & _ & Hnd). by eapply insert_leaf. }
  inversion Ht as [|? ? ? ? d cco cs rc ? inner' Hd Hint Hf]; subst. pose proof Hpay as (_ & _ & Hplen).
  cbn [insert_into_page]. rewrite (proj2 (Z.ltb_ge _ _)) by done. unfold header_offset. cbv zeta.
  enter_interior Hrep Hd Hint s1 Hk1. change (INTERIOR_TABLE =? LEAF_TABLE) with false. rewrite Z.eqb_refl. cbv iota.
  pose proof (interior_page_len _ _ _ _ Hint) as Hl.
  destruct (get_page_keeps _ _ _ _ (proj1 Hk1) Hd) as (s2 & Hg2 & Hk2).
  assert (find_child_page n r s1 = (Ok (child_for cs.*2 rc r), s2)) as Hfc.
  { unfold find_child_page. pstep Hg2. unfold st_lift, header_offset. by rewrite (page_find_child_spec _ _ _ _ _ Hint). }
  pstep Hfc. pose proof Hnd as Hnd0. cbn [app] in Hnd0. apply NoDup_cons in Hnd0 as [Hnin Hnd0].
  destruct (insert_forest h fuel (IH fuel ltac:(lia)) cs.*2 s2 m lo hi rc ls inner' LA LB Hf Hr (proj1 Hk2) Hn Hlink Hnd0 Hsp Hlive)
    as (s3 & m3 & res & new & Hrun & Hrep3 & Hln & Hroom3 & Hres).
  { apply Hk2, Hk1. eapply pager_room_le; [exact Hroom|lia]. }
  pstep Hrun.
  assert (m3 !! n = Some d) as Hd3.
  { destruct Hres as (? & ? & ? & ? & _ & _ & _ & _ & Hmv & _).
    destruct (mv_same _ _ _ _ _ Hmv n) as [E|[Hin _]]; [set_solver| |congruence|set_solver].
    intros Hin. by rewrite (mv_new _ _ _ _ _ Hmv n Hin) in Hd. }
  assert (∀ m4 ex G', NoDup ex → (∀ q, q ∈ ex → m3 !! q = None) → (∀ q, q ≠ n → q ∉ ex → m4 !! q = m3 !! q) →
    (∀ ls' i', forest_grown m3 h lo hi cs.*2 rc res ls' i' → (∀ q, q ∈ ls'.*1 ++ i' → m4 !! q = m3 !! q) →
       ∃ i'', i'' ≡ₚ n :: i' ++ ex ∧ G' ls' i'') → insert_result m m4 lo r payload LA LB ls (n :: inner') (new ++ ex) G') as Hnode.
  { intros m4 ex G' Hndex Hex Hsame Hmk. eapply node_result; [exact Hres|exact Hnd|by eexists|done..| |exact Hmk].
    intros ls' i' HG q. by apply forest_grown_pages with (1 := HG). }
  destruct res as [|k n2].
  - exists s3, m3, Done, (new ++ []). split_and!; [done|done|rewrite length_app; simpl; lia| |].
    + intros j Hj. apply Hroom3, Hk2, Hk1. eapply pager_room_le; [exact Hj|lia].
    + apply Hnode; [constructor|by intros ? ?%not_elem_of_nil|done|]. intros ls' i' HG _. exists (n :: i').
      rewrite app_nil_r. split; [done|]. simpl in *. by econstructor.
  - assert (is_i64 k ∧ is_u32 n2 ∧ (k ∉ keys cs.*2) ∧ child_for cs.*2 rc k = child_for cs.*2 rc r) as (Hki & Hn2u & Hkn & Hcf).
    { destruct Hres as (? & ? & ? & ? & _ & _ & _ & _ & _ & HG). simpl in HG. tauto. }
    destruct (get_page_keeps _ _ _ _ Hrep3 Hd3) as (s4 & Hg4 & Hk4). pstep Hg4.
    erewrite ST_bind_Ok; [|unfold st_lift; rewrite (page_available_spec _ cco (zlen cs));
      [done|done|by apply (interior_count _ _ _ _ Hint)|by apply (slotted_read_cco _ interior_hdr _ _ _ (in_slotted _ _ _ _ Hint))]]. cbv beta.
    rewrite <- Hcf. change (12 + 2) with 14. change (0 + INTERIOR_HEADER_SIZE) with INTERIOR_HEADER_SIZE.
    destruct (14 <=? saturating_sub cco (INTERIOR_HEADER_SIZE + zlen cs * 2)) eqn:Efit.
    + destruct (add_to_parent s4 m3 n d cco cs rc k n2 (proj1 Hk4) Hd3 Hint Hki Hn2u Hkn Efit) as
        (s5 & d' & cs2 & rc2 & Hadd & Hrep5 & Hin2 & Hac & Hr5).
      exists s5, (<[n := d']> m3), Done, (new ++ []). split_and!; [exact Hadd|done|rewrite length_app; simpl; lia| |].
      * intros j Hj. apply Hr5, Hk4, Hroom3, Hk2, Hk1. eapply pager_room_le; [exact Hj|lia].
      * apply Hnode; [constructor|by intros ? ?%not_elem_of_nil|intros; by apply lookup_insert_ne|].
        intros ls' i' (HG & _) Heq. exists (n :: i'). rewrite app_nil_r. split; [done|]. rewrite Hac in HG. simpl in *.
        econstructor; [apply lookup_insert_eq|exact Hin2|]. by apply (proj2 (tree_frame m3 _) _ _ _ _ _ _ _ HG).
    + destruct (split_interior_spec s4 m3 n d cco cs rc k n2 (proj1 Hk4) Hd3 Hint Hki Hn2u Hkn) as
        (s5 & np & l1 & pc & pk & l2 & frc & dl & dr & col & cor & csl & csr & Hac & Hsi & Hnp & Hnp0 & Hnpu & Hrep5 & Hil & Hcl & Hir & Hcr & Hl1 & Hr5).
      { apply Hk4, Hroom3, Hk2, Hk1. eapply pager_room_le; [exact Hroom|lia]. }
      exists s5, (<[np := dr]> (<[n := dl]> m3)), (Split pk np), (new ++ [np]). split_and!; [exact Hsi|done|rewrite length_app; simpl; lia| |].
      * intros j Hj. apply Hr5, Hk4, Hroom3, Hk2, Hk1. eapply pager_room_le; [exact Hj|lia].
      * assert (n ≠ np) as Hnnp by (intros ->; congruence).
        apply Hnode; [apply NoDup_singleton|by intros q ->%list_elem_of_singleton| |].
        { intros q Hqn Hq. rewrite !lookup_insert_ne by set_solver. done. }
        intros ls' i' (HG & _ & _ & Hkr & Hstr & _) Heq. rewrite Hac in HG. cbn [fst snd] in HG.
        assert (Forall (λ c, is_u32 c.1 ∧ is_i64 c.2) cs.*2) as Hcok by (apply Forall_fmap; exact (in_cells _ _ _ _ Hint)).
        destruct (add_child_ok cs.*2 rc k n2 Hcok (in_right_ok _ _ _ _ Hint) Hn2u Hki (in_sorted _ _ _ _ Hint) Hkn) as (Hok & _ & Hsort & _).
        rewrite Hac in Hok, Hsort. cbn [fst] in *.
        destruct (forest_split _ _ _ _ _ _ _ _ _ _ _ HG Hsort) as (lsa & lsb & ia & ib & -> & -> & Hpk & Hfa & Hfb & Hpstr).
        exists ((n :: ia) ++ (np :: ib)). split; [solve_Permutation|]. simpl. exists lsa, lsb, (n :: ia), (np :: ib).
        split; [done|]. split; [done|]. split; [done|]. split; [|split; [|split; [done|split]]].
        -- destruct l1 as [|x l1]; [rewrite Hl1 by done; exact Hstr|by apply Hpstr].
        -- apply Forall_app in Hok as [_ Hok]. by apply Forall_cons in Hok as [[_ ?] _].
        -- econstructor; [by rewrite lookup_insert_ne, lookup_insert_eq|exact Hil|]. rewrite Hcl.
           apply (proj2 (tree_frame m3 _) _ _ _ _ _ _ _ Hfa). intros q Hq. apply Heq. rewrite fmap_app. set_solver.
        -- econstructor; [apply lookup_insert_eq|exact Hir|]. rewrite Hcr.
           apply (proj2 (tree_frame m3 _) _ _ _ _ _ _ _ Hfb). intros q Hq. apply Heq. rewrite fmap_app. set_solver.
Qed.
End Descent.
End InsertTree.

Section InsertTable.
Context {P : Type} `{PagerLaws P}.
Implicit Types (m : gmap Z bytes) (s : P).

(** ** The table after an insertion *)

(** The rows with one more, in rowid order. *)
Definition put_row (r : Z) (row : Row) (rows : list (Z * Row)) : list (Z * Row) :=
  filter (λ x, x.1 < r) rows ++ (r, row) :: filter (λ x, r < x.1) rows.

Lemma cells_rows_put m cs rows pgs c pl ps row :
  cells_rows m cs rows pgs → sorted_cells cs → (cell_rowid c ∉ rowids cs) → cell_payload m c pl ps → deserialize_row pl = Ok row →
  ∃ pgs', cells_rows m (put_cell c cs) (put_row (cell_rowid c) row rows) pgs' ∧ pgs' ≡ₚ ps ++ pgs.
Proof.
  intros Hc Hs Hn Hpl Hrow. pose proof (filter_split cs (cell_rowid c) Hs Hn) as E. rewrite E in Hc.
  apply cells_rows_app in Hc as (r1 & r2 & p1 & p2 & -> & -> & Hc1 & Hc2).
  assert (Forall (λ x, x.1 < cell_rowid c) r1) as Hr1.
  { apply (Forall_fmap fst (λ x, x < cell_rowid c)). rewrite (cells_rows_rowids _ _ _ _ Hc1). unfold rowids. apply Forall_forall.
    intros x (y & -> & Hy)%list_elem_of_fmap. by apply list_elem_of_filter in Hy as [? _]. }
  assert (Forall (λ x, cell_rowid c < x.1) r2) as Hr2.
  { apply (Forall_fmap fst (λ x, cell_rowid c < x)). rewrite (cells_rows_rowids _ _ _ _ Hc2). unfold rowids. apply Forall_forall.
    intros x (y & -> & Hy)%list_elem_of_fmap. by apply list_elem_of_filter in Hy as [? _]. }
  exists (p1 ++ ps ++ p2). split; [|solve_Permutation].
  unfold put_row. rewrite !filter_app, (filter_id _ r1), (filter_none _ r2), (filter_none _ r1), (filter_id _ r2), app_nil_r; try done.
  - unfold put_cell. apply cells_rows_app_2; [done|]. by econstructor.
  - eapply Forall_impl; [exact Hr1|]. simpl. lia.
  - eapply Forall_impl; [exact Hr2|]. simpl. lia.
Qed.

Lemma grow_root_spec s m h root res ls inner :
  pager_rep s m → is_Some (m !! root) → grown m h None None root res ls inner → pager_room s 1 →
  ∃ s' m' root' inner' h' ex, grow_root root res s = (Ok root', s') ∧ pager_rep s' m' ∧ tree m' h' None None root' ls inner' ∧
    (h' ≤ S h)%nat ∧ inner' ≡ₚ inner ++ ex ∧ NoDup ex ∧ (length ex ≤ 1)%nat ∧ (∀ q, q ∈ ex → m !! q = None) ∧
    (∀ q, q ∉ ex → m' !! q = m !! q) ∧ ∀ k, pager_room s (1 + k) → pager_room s' k.
Proof.
  intros Hrep [droot Hroot] HG Hroom. destruct res as [|k n2]; simpl in HG.
  - exists s, m, root, inner, h, []. rewrite app_nil_r. split_and!; try done; [lia|constructor|simpl; lia|by intros ? ?%not_elem_of_nil|].
    intros k Hk. eapply pager_room_le; [exact Hk|lia].
  - destruct HG as (ls1 & ls2 & i1 & i2 & -> & -> & Hk & _ & Hki & Hn2 & Ht1 & Ht2). unfold grow_root.
    destruct (allocate_room s m 0 Hrep Hroom) as (nr & s1 & Ha & Hnr & Hnr0 & Hnru & Hrep1 & Hr1). pstep Ha.
    assert (zlen (([(root, k)] : list (Z * Z))) = 1) as E1 by done. pose proof PAGE_SIZE_bounds.
    destruct (rep_page_len _ _ _ _ Hrep Hroot) as (_ & _ & Hru).
    destruct (refill_interior s1 _ nr zero_page [(root, k)] n2 Hrep1 ltac:(apply lookup_insert_eq) Hn2) as
      (s2 & s3 & d' & cco & cs & Hi & Hf & Hrep3 & Hint & Hcs & Hr3).
    { constructor; [done|constructor]. }
    { unfold keys. simpl. constructor; constructor. }
    { rewrite E1. unfold INTERIOR_HEADER_SIZE. lia. }
    pstep Hi. cbn [st_iter] in Hf. rewrite insert_insert_eq in Hrep3.
    assert (insert_interior_cell nr k root s2 = (Ok tt, s3)) as Hf'.
    { rewrite ST_bind_unfold in Hf. destruct (insert_interior_cell nr k root s2) as [[[]| | |] sx]; try done. }
    pstep Hf'. exists s3, (<[nr := d']> m), nr, (nr :: i1 ++ i2), (S h), [nr]. split_and!; try done.
    + econstructor; [apply lookup_insert_eq|exact Hint|]. rewrite Hcs.
      assert (∀ q, is_Some (m !! q) → <[nr := d']> m !! q = m !! q) as Hq.
      { intros q [? Hq]. apply lookup_insert_ne. intros ->. congruence. }
      constructor; [done| |constructor].
      * apply (proj1 (tree_frame m _) _ _ _ _ _ _ Ht1). intros q Hin. apply Hq. by apply (proj1 (tree_pages m) _ _ _ _ _ _ Ht1).
      * apply (proj1 (tree_frame m _) _ _ _ _ _ _ Ht2). intros q Hin. apply Hq. by apply (proj1 (tree_pages m) _ _ _ _ _ _ Ht2).
    + rewrite (Permutation_app_comm (i1 ++ i2) [nr]). done.
    + apply NoDup_singleton.
    + by intros q ->%list_elem_of_singleton.
    + intros q Hq. apply lookup_insert_ne. intros ->. apply Hq. by left.
    + intros j Hj. apply Hr3, Hr1, Hj.
Qed.

(** A table of height at most [h] with at most [N] pages, in which no leaf but
    the first is empty and every cell takes between [a] and [b] bytes. *)
Definition btree_sized (s : P) (root : Z) (h N : nat) (a b : Z) (rows : list (Z * Row)) : Prop :=
  ∃ m h' ls inner pgs, pager_rep s m ∧ table m h' root ls inner pgs rows ∧ (h' ≤ h)%nat ∧
    (length (ls.*1 ++ inner ++ pgs) ≤ N)%nat ∧ live None ls ∧ Forall (λ c, a ≤ cell_space c ≤ b) (tree_cells ls).
Lemma btree_sized_rep s root h N a b rows : btree_sized s root h N a b rows → btree_rep s root N rows.
Proof. intros (m & h' & ls & inner & pgs & Hrep & Ht & _ & HN & _). by exists m, h', ls, inner, pgs. Qed.

(** Halves of a page of cells that are alike in size fit. *)
Definition similar_sizes (a b : Z) : Prop :=
  0 < a ∧ b * (PAGE_SIZE - LEAF_HEADER_SIZE + 2 * a) ≤ 2 * a * (PAGE_SIZE - LEAF_HEADER_SIZE).

Lemma space_bounds a b l : Forall (λ c, a ≤ cell_space c ≤ b) l → zlen l * a ≤ space l ≤ zlen l * b.
Proof.
  induction 1 as [|c l Hc _ IH]; [done|]. rewrite space_cons, zlen_cons. lia.
Qed.
Lemma cell_alone c payload : zlen (cell_bytes c) = cell_len payload → LEAF_HEADER_SIZE + space [c] ≤ PAGE_SIZE.
Proof.
  intros Hl. pose proof PAGE_SIZE_bounds. unfold space, cell_space, zsum. simpl. rewrite Hl. unfold cell_len, LEAF_HEADER_SIZE.
  unfold MAX_INLINE_PAYLOAD. destruct (Z.ltb_spec (PAGE_SIZE / 2 - 32) (zlen payload)); Z.to_euclidean_division_equations; lia.
Qed.
Lemma split_fits_last d cco cs c payload :
  leaf_ok d cco cs → zlen (cell_bytes c) = cell_len payload → length (filter (λ x, cell_rowid x < cell_rowid c) cs.*2) = length cs.*2 →
  split_fits cs.*2 c.
Proof.
  intros Hleaf Hlen Heq. unfold split_fits, split_mid. rewrite Heq, Nat.eqb_refl.
  assert (put_cell c cs.*2 = cs.*2 ++ [c]) as ->.
  { assert (Forall (λ x, cell_rowid x < cell_rowid c) cs.*2) as Hall.
    { clear -Heq. induction cs.*2 as [|x l IH]; [done|]. rewrite filter_cons in Heq. case_decide; simpl in Heq.
      - constructor; [done|]. apply IH. lia.
      - pose proof (length_filter (λ x, cell_rowid x < cell_rowid c) l). lia. }
    unfold put_cell. rewrite filter_id, filter_none; [done| |done]. eapply Forall_impl; [exact Hall|]. simpl. lia. }
  rewrite take_app_length, drop_app_length. split; [by eapply leaf_space|by eapply cell_alone].
Qed.

Lemma elem_tree_cells (ls : list (Z * list cell)) x c : x ∈ ls → c ∈ x.2 → c ∈ tree_cells ls.
Proof.
  unfold tree_cells. induction ls as [|y ls IH]; [by intros ?%not_elem_of_nil|]. rewrite fmap_cons. cbn [concat].
  intros [->|Hx]%elem_of_cons Hc; apply elem_of_app; [by left|right; auto].
Qed.
Lemma can_split_append m h root ls inner pgs rows r payload :
  table m h root ls inner pgs rows → (∀ r', r' ∈ rows.*1 → r' < r) → can_split r payload ls.
Proof.
  intros Ht Hlast c x Hc Hlen Hx. pose proof (tree_leaves _ _ _ _ _ _ _ Ht) as Hok.
  unfold leaves_ok in Hok. rewrite Forall_forall in Hok. destruct (Hok x Hx) as (d & cco & cs & Hd & Hleaf & Hcs). rewrite <- Hcs.
  eapply split_fits_last; [done|done|]. rewrite filter_id; [done|]. rewrite Hcs. apply Forall_forall. intros y Hy. rewrite Hc.
  apply Hlast. rewrite (cells_rows_rowids _ _ _ _ (tb_rows _ _ _ _ _ _ _ Ht)). apply list_elem_of_fmap_2.
  by eapply elem_tree_cells.
Qed.
Lemma can_split_similar m h root ls inner pgs rows r payload a b :
  table m h root ls inner pgs rows → Forall (λ c, a ≤ cell_space c ≤ b) (tree_cells ls) → similar_sizes a b →
  a ≤ cell_len payload + 2 ≤ b → (r ∉ rowids (tree_cells ls)) → can_split r payload ls.
Proof.
  intros Ht Hsz [Ha Hsim] Hp Hn c x Hc Hlen Hx. pose proof (tree_leaves _ _ _ _ _ _ _ Ht) as Hok.
  unfold leaves_ok in Hok. rewrite Forall_forall in Hok. destruct (Hok x Hx) as (d & cco & cs & Hd & Hleaf & Hcs).
  assert (∀ y, y ∈ x.2 → y ∈ tree_cells ls) as Hin.
  { intros y Hy. by eapply elem_tree_cells. }
  rewrite <- Hcs in Hin |- *.
  destruct (decide (length (filter (λ x, cell_rowid x < cell_rowid c) cs.*2) = length cs.*2)) as [E|E]; [by eapply split_fits_last|].
  pose proof (leaf_space _ _ _ Hleaf) as Hsp.
  assert (Forall (λ c, a ≤ cell_space c ≤ b) cs.*2) as Hcsz.
  { rewrite Forall_forall in Hsz |- *. auto. }
  assert (Forall (λ c, a ≤ cell_space c ≤ b) (put_cell c cs.*2)) as Hall.
  { rewrite Forall_forall in Hcsz |- *. intros y. unfold put_cell. rewrite elem_of_app, elem_of_cons, !list_elem_of_filter.
    intros [[_ ?]|[->|[_ ?]]]; auto. unfold cell_space. lia. }
  assert (length (put_cell c cs.*2) = S (length cs.*2)) as Hl.
  { apply length_put_cell; [apply (lf_sorted _ _ _ Hleaf)|]. rewrite Hc. intros (y & -> & Hy)%list_elem_of_fmap.
    apply Hn. apply list_elem_of_fmap_2. auto. }
  pose proof (space_bounds _ _ _ Hcsz) as [Hb1 _].
  unfold split_fits, split_mid. rewrite (proj2 (Nat.eqb_neq _ _)) by done. set (mid := (S (length cs.*2) / 2)%nat).
  assert (2 * mid ≤ S (length cs.*2) < 2 * mid + 2)%nat as Hmid.
  { unfold mid. pose proof (Nat.div_mod (S (length cs.*2)) 2). pose proof (Nat.mod_upper_bound (S (length cs.*2)) 2). lia. }
  rewrite <- (take_drop mid (put_cell c cs.*2)) in Hall. apply Forall_app in Hall as [H1' H2'].
  apply space_bounds in H1', H2'. unfold zlen in *. rewrite length_take, length_drop, Hl in *.
  set (n := length cs.*2) in *. set (cap := PAGE_SIZE - LEAF_HEADER_SIZE) in *.
  assert ((Z.of_nat n + 2) * b ≤ 2 * cap) as Hkey by nia.
  assert (0 ≤ b) by lia. split; nia.
Qed.

Lemma grown_pages m h lo hi n res ls inner q : grown m h lo hi n res ls inner → q ∈ ls.*1 ++ inner → is_Some (m !! q).
Proof.
  destruct res as [|k n2]; simpl; [intros Ht; by apply (proj1 (tree_pages m) _ _ _ _ _ _ Ht)|].
  intros (ls1 & ls2 & i1 & i2 & -> & -> & _ & _ & _ & _ & Ht1 & Ht2) Hq. rewrite fmap_app in Hq.
  assert (q ∈ ls1.*1 ++ i1 ∨ q ∈ ls2.*1 ++ i2) as [?|?] by set_solver;
    [by apply (proj1 (tree_pages m) _ _ _ _ _ _ Ht1)|by apply (proj1 (tree_pages m) _ _ _ _ _ _ Ht2)].
Qed.

(** The new table from the pieces. *)
Lemma insert_table s root h N a b rows fuel r row k :
  let payload := serialize_row row in
  btree_sized s root h N a b rows → row_ok row → is_i64 r → (r ∉ rows.*1) → zlen payload ≤ U32_MAX →
  a ≤ cell_len payload + 2 ≤ b → (∀ r', r' ∈ rows.*1 → r' < r) ∨ similar_sizes a b → (h < fuel)%nat →
  pager_room s (overflow_pages payload + (h + 2) + k) →
  ∃ root' s1 s' res, insert_into_page fuel root r payload s = (Ok res, s1) ∧ grow_root root res s1 = (Ok root', s') ∧
    btree_sized s' root' (S h) (N + overflow_pages payload + (h + 2)) a b (put_row r row rows) ∧ pager_room s' k.
Proof.
  intros payload (m & h' & ls & inner & pgs & Hrep & Ht & Hh & HN & Hlive & Hsz) Hrow Hri Hn Hplen Hab Hcase Hfuel Hroom.
  pose proof Ht as [Htree Hrows Hlink Hnd]. pose proof (cells_rows_rowids _ _ _ _ Hrows) as Hids.
  assert (payload_ok payload) as Hpay by (split_and!; [apply serialize_row_nonempty|by apply serialize_row_bytes_ok|done]).
  assert (r ∉ rowids (tree_cells ls)) as Hn' by (by rewrite <- Hids).
  assert (can_split r payload ls) as Hsp by (destruct Hcase; [by eapply can_split_append|by eapply can_split_similar]).
  assert (NoDup (inner ++ [] ++ ls.*1 ++ [])) as Hnd1.
  { rewrite app_nil_r, app_nil_l. assert (ls.*1 ++ inner ++ pgs ≡ₚ pgs ++ inner ++ ls.*1) as Hp by solve_Permutation.
    rewrite Hp in Hnd. by apply NoDup_app in Hnd as (_ & _ & ?). }
  destruct (insert_tree r payload Hpay Hri h' fuel ltac:(lia) s m root None None ls inner [] [] Htree) as
    (s1 & m1 & res & new & Hrun & Hrep1 & Hln & Hr1 & (ls' & inner1 & c & ps & (Hc & Hclen & Hcpl & Hcells) & Hlink1 & Hlive1 & Hperm & Hmv & HG));
    try done.
  { by rewrite app_nil_r. }
  { eapply pager_room_le; [exact Hroom|lia]. }
  assert (is_Some (m1 !! root)) as Hroot1.
  { destruct res as [|kk n2]; simpl in HG; [|destruct HG as (? & ? & ? & ? & _ & _ & _ & _ & _ & _ & HG & _)];
      inversion HG; subst; by eexists. }
  destruct (grow_root_spec s1 m1 h' root res ls' inner1 Hrep1 Hroot1 HG) as
    (s2 & m2 & root' & inner2 & h2 & ex & Hgrow & Hrep2 & Ht2 & Hh2 & Hperm2 & Hndx & Hlnx & Hexn & Hsame2 & Hr2).
  { apply Hr1. eapply pager_room_le; [exact Hroom|lia]. }
  exists root', s1, s2, res. split; [done|]. split; [done|].
  split; [|apply Hr2, Hr1; eapply pager_room_le; [exact Hroom|lia]].
  assert (∀ q, is_Some (m1 !! q) → m2 !! q = m1 !! q) as Hkeep2.
  { intros q [? Hq]. apply Hsame2. intros Hin. rewrite Hexn in Hq; done. }
  assert (∀ q, q ∈ pgs → m1 !! q = m !! q) as Hpg1.
  { intros q Hq. destruct (cells_rows_pages _ _ _ _ Hrows q Hq) as [dq Hdq].
    assert (q ∉ ls.*1 ++ inner) as Hout.
    { intros Hin. rewrite app_assoc in Hnd. apply NoDup_app in Hnd as (_ & Hd & _). by apply (Hd q Hin). }
    destruct (mv_same _ _ _ _ _ Hmv q Hout) as [|[[]%not_elem_of_nil _]]; [|done].
    intros Hin. by rewrite (mv_new _ _ _ _ _ Hmv q Hin) in Hdq. }
  assert (deserialize_row payload = Ok row) as Hdec.
  { unfold payload. rewrite <- (app_nil_r (serialize_row row)). by apply deserialize_serialize_row. }
  assert (cells_rows m2 (tree_cells ls) rows pgs) as Hrows2.
  { eapply cells_rows_frame; [exact Hrows|]. intros q Hq. rewrite Hkeep2; [by apply Hpg1|]. rewrite Hpg1 by done.
    by apply (cells_rows_pages _ _ _ _ Hrows). }
  assert (cell_payload m2 c payload ps) as Hcpl2.
  { eapply cell_payload_frame; [exact Hcpl|]. intros q Hq. apply Hkeep2. by eapply cell_payload_pages. }
  rewrite <- Hc in Hn' |- *.
  destruct (cells_rows_put m2 (tree_cells ls) rows pgs c payload ps row Hrows2 (proj1 (tree_sorted m) _ _ _ _ _ _ Htree) Hn' Hcpl2 Hdec)
    as (pgs' & Hrows3 & Hpgs).
  assert (ls'.*1 ++ inner2 ++ pgs' ≡ₚ (ls.*1 ++ inner ++ pgs) ++ new ++ ex) as Hall.
  { rewrite Hperm2, Hpgs. transitivity ((ls'.*1 ++ inner1 ++ ps) ++ ex ++ pgs); [solve_Permutation|].
    rewrite Hperm. solve_Permutation. }
  assert (∀ q, q ∈ (ls.*1 ++ inner ++ pgs) ++ new → is_Some (m1 !! q)) as Hsome1.
  { intros q Hq. assert (q ∈ ls'.*1 ++ inner1 ++ ps ∨ q ∈ pgs) as [Hq'|Hq'] by (rewrite Hperm; set_solver).
    - rewrite app_assoc in Hq'. apply elem_of_app in Hq' as [Hq'|Hq']; [by eapply grown_pages|by eapply cell_payload_pages].
    - rewrite Hpg1 by done. by apply (cells_rows_pages _ _ _ _ Hrows). }
  exists m2, h2, ls', inner2, pgs'. split; [done|]. split; [split|].
  - done.
  - rewrite Hcells. exact Hrows3.
  - cbn [app] in Hlink1. rewrite app_nil_r in Hlink1. eapply linked_same; [exact Hlink1|]. intros q Hq.
    by apply Hkeep2, (linked_pages _ _ _ _ _ Hlink1).
  - rewrite Hall, app_assoc. apply NoDup_app. split_and!; [apply NoDup_app; split_and!; [done| |apply Hmv]| |done].
    + intros q Hq Hin. rewrite app_assoc in Hq. pose proof (mv_new _ _ _ _ _ Hmv q Hin) as E.
      apply elem_of_app in Hq as [Hq|Hq].
      * destruct (proj1 (tree_pages m) _ _ _ _ _ _ Htree q Hq). congruence.
      * destruct (cells_rows_pages _ _ _ _ Hrows q Hq). congruence.
    + intros q Hq Hin. destruct (Hsome1 q Hq) as [? E]. by rewrite Hexn in E.
  - split; [lia|]. split; [|split; [exact Hlive1|]].
    + rewrite (Permutation_length Hall), !length_app in *. lia.
    + rewrite Hcells. rewrite Forall_forall in Hsz |- *. intros y. unfold put_cell.
      rewrite elem_of_app, elem_of_cons, !list_elem_of_filter. intros [[_ ?]|[->|[_ ?]]]; auto.
      unfold cell_space. rewrite Hclen. lia.
Qed.
End InsertTable.

(** ** A new table *)

Lemma new_table {P} `{PagerLaws P} s a b :
  pager_rep s ∅ → pager_room s 1 →
  ∃ root s', create_table s = (Ok root, s') ∧ btree_sized s' root 0 1 a b [] ∧ ∀ k, pager_room s (1 + k) → pager_room s' k.
Proof.
  intros Hrep Hroom. destruct (allocate_room s ∅ 0 Hrep Hroom) as (n & s1 & Ha & _ & Hn0 & Hnu & Hrep1 & Hr1).
  destruct (pager_rep_page _ _ n _ Hrep1 ltac:(apply lookup_insert_eq)) as (Hpage & _).
  destruct (init_leaf_spec zero_page Hpage) as (d' & Hw & Hleaf & H6 & H10 & _).
  destruct (get_page_mut_law _ _ _ _ _ _ _ _ Hrep1 ltac:(apply lookup_insert_eq) Hw (sl_page _ _ _ _ (lf_slotted _ _ _ Hleaf)))
    as (s2 & Hg & Hrep2 & Hr2). rewrite insert_insert_eq in Hrep2.
  unfold create_table. pstep Ha. unfold init_leaf_page, write_page_header, header_offset. pstep Hg.
  exists n, s2. split; [done|]. split; [|auto].
  exists (<[n := d']> ∅), 0%nat, [(n, [])], [], []. split; [done|]. split; [split|].
  - eapply (tree_leaf _ _ _ n d' PAGE_SIZE []); [apply lookup_insert_eq|done|constructor].
  - constructor.
  - simpl. split; [|done]. exists d'. split; [apply lookup_insert_eq|done].
  - apply NoDup_singleton.
  - split; [lia|]. split; [simpl; lia|]. split; [by constructor|constructor].
Qed.

(** Insert the rows one after the other. *)
Fixpoint load {P} `{PageSize, PagerOps P} (fuel : nat) (root : Z) (rows : list (Z * Row)) : ST P Z :=
  match rows with
  | [] => mret root
  | (r, row) :: rest => root' ← insert fuel root r row; load fuel root' rest
  end.
(** The pages needed to load rows into a table of height [h]. *)
Fixpoint load_pages `{PageSize} (h : nat) (rows : list (Z * Row)) : nat :=
  match rows with
  | [] => 0%nat
  | (_, row) :: rest => (overflow_pages (serialize_row row) + (h + 2) + load_pages (S h) rest)%nat
  end.
Definition loadable (x : Z * Row) : Prop := is_i64 x.1 ∧ row_ok x.2 ∧ zlen (serialize_row x.2) ≤ U32_MAX.

Lemma put_row_last r row rows : (∀ r', r' ∈ rows.*1 → r' < r) → put_row r row rows = rows ++ [(r, row)].
Proof.
  intros Hlt. unfold put_row. rewrite filter_id, filter_none; [done|..]; apply Forall_forall; intros x Hx;
    (assert (x.1 < r) by (apply Hlt; by apply list_elem_of_fmap_2)); lia.
Qed.

Lemma load_spec {P} `{PagerLaws P} rows : ∀ s root h N done fuel,
  btree_sized s root h N 0 PAGE_SIZE done → Forall loadable rows → StronglySorted Z.lt (done ++ rows).*1 →
  (h + length rows ≤ fuel)%nat → pager_room s (load_pages h rows) →
  ∃ root' s' h' N', load fuel root rows s = (Ok root', s') ∧ btree_sized s' root' h' N' 0 PAGE_SIZE (done ++ rows) ∧
    (N' ≤ N + load_pages h rows)%nat.
Proof.
  induction rows as [|[r row] rows IH]; intros s root h N dn fuel Hrep Hok Hsort Hfuel Hroom; cbn [load load_pages].
  - exists root, s, h, N. rewrite app_nil_r. split_and!; [done|done|lia].
  - apply Forall_cons in Hok as [(Hri & Hrow & Hlen) Hok]. cbn [fst snd] in *.
    assert (∀ r', r' ∈ dn.*1 → r' < r) as Hlast.
    { rewrite fmap_app, fmap_cons in Hsort. apply sorted_app_keys in Hsort as (_ & _ & Hlt). intros r' Hr'.
      apply Hlt; [done|by left]. }
    assert (0 ≤ cell_len (serialize_row row) + 2 ≤ PAGE_SIZE) as Hcl.
    { pose proof PAGE_SIZE_bounds. pose proof (zlen_nonneg (serialize_row row)). unfold cell_len, MAX_INLINE_PAYLOAD.
      destruct (Z.ltb_spec (PAGE_SIZE / 2 - 32) (zlen (serialize_row row))); Z.to_euclidean_division_equations; lia. }
    destruct (insert_table s root h N 0 PAGE_SIZE dn fuel r row (load_pages (S h) rows) Hrep Hrow Hri) as
      (root1 & s0 & s1 & res & Hi & Hg & Hrep1 & Hroom1); [|done|done|by left|simpl in Hfuel; lia|exact Hroom|].
    { intros Hin. specialize (Hlast r Hin). lia. }
    rewrite put_row_last in Hrep1 by done.
    destruct (IH s1 root1 (S h) _ (dn ++ [(r, row)]) fuel Hrep1 Hok) as (root2 & s2 & h2 & N2 & Hl & Hrep2 & HN2).
    + by rewrite <- app_assoc.
    + simpl in Hfuel. lia.
    + done.
    + exists root2, s2, h2, N2. rewrite <- app_assoc in Hrep2. split_and!; [|done|lia].
      assert (insert fuel root r row s = (Ok root1, s1)) as Hins by (unfold insert; pstep Hi; exact Hg).
      pstep Hins. exact Hl.
Qed.

(** ** Properties *)

(** [C3] Insertion is correct: a row with a new rowid, inserted into a table
    in which no leaf but the first is empty, is stored and nothing else
    changes.  The call returns, the table at the root it gives back holds
    exactly the old rows and the new one in rowid order, is well formed again
    and at most one level higher, and the call uses no more pages than the
    overflow chain of the row and a page for each level and two.  This holds
    when the pager has room for those pages, the row's encoding is shorter than
    4 GiB, and the new rowid is the largest or the cells of the table are alike
    in size, so that the two halves of a leaf that has to be split fit a page
    each (see [split_failure_loses_rows] for what happens when they do not). *)
Theorem insert_correct {P} `{PagerLaws P} s root h N a b rows fuel r row k :
  let payload := serialize_row row in
  btree_sized s root h N a b rows → row_ok row → is_i64 r → (r ∉ rows.*1) → zlen payload ≤ U32_MAX →
  a ≤ cell_len payload + 2 ≤ b → (∀ r', r' ∈ rows.*1 → r' < r) ∨ similar_sizes a b → (h < fuel)%nat →
  pager_room s (overflow_pages payload + (h + 2) + k) →
  ∃ root' s', insert fuel root r row s = (Ok root', s') ∧
    (∀ buf, insert_with_buf fuel root r row buf s = (Ok (root', payload), s')) ∧
    btree_sized s' root' (S h) (N + overflow_pages payload + (h + 2)) a b (put_row r row rows) ∧ pager_room s' k.
Proof.
  intros payload Hrep Hrow Hri Hn Hlen Hab Hcase Hfuel Hroom.
  destruct (insert_table s root h N a b rows fuel r row k Hrep Hrow Hri Hn Hlen Hab Hcase Hfuel Hroom) as
    (root' & s1 & s' & res & Hi & Hg & Hrep' & Hroom').
  exists root', s'. split_and!; [| |done|done].
  - unfold insert. pstep Hi. exact Hg.
  - intros buf. unfold insert_with_buf. change (serialize_row_into row buf) with payload. cbv zeta. pstep Hi. by pstep Hg.
Qed.
Lemma insert_correct_witness :
  let _ := page_size_512 in
  ∃ s s' : MapPager, ∃ root, insert 1 3 9 [VNull] s = (Ok root, s') ∧
    btree_sized s' root 1 3 0 512 [(9, [VNull])].
Proof.
  intros Hps. destruct (new_table MapPager_new 0 512) as (root & s & Hc & Hrep & Hroom).
  { apply MapPager_new_rep. }
  { vm_compute. discriminate. }
  assert (root = 3) as -> by (vm_compute in Hc; congruence).
  destruct (insert_correct s 3 0 1 0 512 [] 1 9 [VNull] 0 Hrep) as (root' & s' & Hi & _ & Hrep' & _).
  - split; [repeat constructor|vm_compute; discriminate].
  - int_lia.
  - apply not_elem_of_nil.
  - vm_compute. discriminate.
  - vm_compute. split; discriminate.
  - left. by intros r' ?%not_elem_of_nil.
  - lia.
  - apply Hroom. vm_compute. discriminate.
  - exists s, s', root'. split; [exact Hi|exact Hrep'].
Defined.

(** A table loaded in rowid order holds what was loaded: creating a table
    and inserting rows with increasing rowids always succeeds while there is
    room for the pages, and the table then holds exactly those rows, large
    rows in overflow chains and leaves and interior pages split as needed
    included. *)
Theorem load_correct {P} `{PagerLaws P} s rows fuel :
  pager_rep s ∅ → Forall loadable rows → StronglySorted Z.lt rows.*1 → (length rows ≤ fuel)%nat →
  pager_room s (1 + load_pages 0 rows) →
  ∃ root s', (root ← create_table; load fuel root rows) s = (Ok root, s') ∧ btree_rep s' root (1 + load_pages 0 rows) rows.
Proof.
  intros Hrep Hok Hsort Hfuel Hroom. destruct (new_table s 0 PAGE_SIZE Hrep) as (root & s1 & Hc & Hrep1 & Hr1).
  { eapply pager_room_le; [exact Hroom|lia]. }
  destruct (load_spec rows s1 root 0 1 [] fuel Hrep1 Hok Hsort Hfuel (Hr1 _ Hroom)) as (root' & s' & h' & N' & Hl & Hrep' & HN).
  exists root', s'. split; [by pstep Hc|].
  destruct (btree_sized_rep _ _ _ _ _ _ _ Hrep') as (m & h2 & ls & inner & pgs & ? & ? & ?).
  exists m, h2, ls, inner, pgs. split_and!; [done|done|lia].
Qed.
Lemma load_correct_witness :
  let _ := page_size_512 in
  let rows := [(1, [VNull]); (5, [VBlob (replicate 600 7)])] in
  ∃ root (s' : MapPager), (root ← create_table; load 2 root rows) MapPager_new = (Ok root, s') ∧
    btree_rep s' root (1 + load_pages 0 rows) rows.
Proof.
  intros Hps rows. apply (load_correct MapPager_new rows 2).
  - apply MapPager_new_rep.
  - assert (bytes_ok (replicate 600 7)) as Hb by (by apply Forall_replicate).
    constructor; [|constructor; [|constructor]]; (split; [simpl; int_lia|]); (split; [|vm_compute; discriminate]);
      (split; [|vm_compute; discriminate]); (constructor; [|constructor]); [done|]. split; [exact Hb|vm_compute; discriminate].
  - repeat constructor.
  - simpl. lia.
  - vm_compute. discriminate.
Defined.

(** The provisos are needed: a leaf emptied by deletions keeps no free
    space, and splitting it uses the lowest rowid of its range as the divider,
    which its parent already has.  Updating the only row of a leaf twice is
    enough: the row is still counted and scanned, but a lookup of its rowid
    answers that there is no such row, and a further insertion of the rowid is
    accepted. *)
Theorem update_loses_row :
  let _ := page_size_512 in
  ((root ← create_table;
    root ← load 5 root [(1, big_row); (2, big_row); (3, big_row); (4, big_row); (5, big_row)];
    before ← find_by_rowid 5 root 5;
    root ← update_row 5 5 root 5 big_row;
    root ← update_row 5 5 root 5 big_row;
    after ← find_by_rowid 5 root 5;
    n ← count_rows 5 root;
    rows ← scan_all 5 9 root;
    root ← insert 5 root 5 small_row;
    rows' ← scan_all 5 9 root;
    mret (before, after, n, rows.*1, rows'.*1)) MapPager_new).1
  = Ok (Some (5, big_row), None, 5, [1; 2; 3; 4; 5], [1; 2; 3; 4; 5; 5]).
Proof. vm_compute. reflexivity. Qed.
