(* ===== verification/BTreeVacuum.v ===== *)
(** Fragmentation statistics and defragmentation of a B-tree
    (src/src/storage/btree.rs, section VACUUM).

    The theorems: on every table that the other operations build, collecting
    the statistics returns and counts the leaves and their free space, but
    counts no overflow page for rowids below 2^32, because the page number is
    read from inside the rowid; and defragmentation does nothing, because no
    operation ever sets the byte that counts fragmented bytes. *)
From S2P Require Import Prelude Values PagerIface BTreePage BTreeNode BTree BTreeTree BTreeSplit.

Section Vacuum.
Context `{PageSize} {P : Type} `{!PagerOps P}.

(** ** Statistics *)

(** Leaves, fragmented bytes, overflow pages, free bytes. *)
Record FragStats := mkFragStats { fs_leaves : Z; fs_frag : Z; fs_overflow : Z; fs_free : Z }.

(** The first overflow pages of the cells of a leaf. *)
Fixpoint overflow_starts (data : bytes) (ptr_base : Z) (is_ : list Z) : res (list Z) :=
  match is_ with
  | [] => Ok []
  | i :: is_ =>
      let ptr_offset := ptr_base + i * 2 in
      if PAGE_SIZE <? ptr_offset + 2 then Ok []
      else
        cell_off ← u16_to_page_size <$> read_u16 data ptr_offset;
        if PAGE_SIZE <? cell_off + 12 then overflow_starts data ptr_base is_
        else
          payload_size ← read_u32 data cell_off;
          if PAGE_SIZE - 12 <? payload_size then
            first_overflow ← read_u32 data (cell_off + 8);
            rest ← overflow_starts data ptr_base is_;
            Ok (first_overflow :: rest)
          else overflow_starts data ptr_base is_
  end.
(** The children of an interior page but the right one. *)
Fixpoint interior_children (data : bytes) (ptr_base : Z) (is_ : list Z) : res (list Z) :=
  match is_ with
  | [] => Ok []
  | i :: is_ =>
      let ptr_offset := ptr_base + i * 2 in
      if PAGE_SIZE <? ptr_offset + 2 then Ok []
      else
        cell_off ← u16_to_page_size <$> read_u16 data ptr_offset;
        if PAGE_SIZE <? cell_off + 4 then interior_children data ptr_base is_
        else
          child ← read_u32 data cell_off;
          rest ← interior_children data ptr_base is_;
          Ok (child :: rest)
  end.

(** [while cur != 0] *)
Fixpoint count_overflow_pages (fuel : nat) (cur : Z) : ST P Z :=
  if cur =? 0 then mret 0
  else match fuel with
  | O => st_lift Hang
  | S fuel =>
      data ← get_page cur;
      next ← st_lift (read_u32 data 0);
      n ← count_overflow_pages fuel next;
      mret (1 + n)
  end.

(** The two fuels bound the height and the overflow chains. *)
Fixpoint collect_frag_stats (fuel chain_fuel : nat) (page_num : Z) (acc : FragStats) : ST P FragStats :=
  match fuel with
  | O => st_lift Hang
  | S fuel =>
      let off := header_offset page_num in
      data ← get_page page_num;
      page_type ← st_lift (index data off);
      cell_count ← st_lift (read_u16 data (off + 1));
      cco ← st_lift (u16_to_page_size <$> read_u16 data (off + 3));
      frag_bytes ← st_lift (index data (off + 5));
      if page_type =? LEAF_TABLE then
        let ptr_end := off + LEAF_HEADER_SIZE + cell_count * 2 in
        data ← get_page page_num;
        starts ← st_lift (overflow_starts data (off + LEAF_HEADER_SIZE) (seqZ 0 cell_count));
        overflow ← st_fold (λ total first, n ← count_overflow_pages chain_fuel first; mret (total + n)) (fs_overflow acc) starts;
        mret (mkFragStats (fs_leaves acc + 1) (fs_frag acc + frag_bytes) overflow (fs_free acc + saturating_sub cco ptr_end))
      else if page_type =? INTERIOR_TABLE then
        data ← get_page page_num;
        children ← st_lift (interior_children data (off + INTERIOR_HEADER_SIZE) (seqZ 0 cell_count));
        rc ← st_lift (read_u32 data (off + 6));
        st_fold (λ acc child, collect_frag_stats fuel chain_fuel child acc) acc (children ++ [rc])
      else mret acc
  end.
Definition fragmentation_stats (fuel chain_fuel : nat) (root_page : Z) : ST P FragStats :=
  collect_frag_stats fuel chain_fuel root_page (mkFragStats 0 0 0 0).

(** ** Defragmentation *)

(** The cells of a leaf with their pointer indices. *)
Fixpoint defragment_cells (data : bytes) (ptr_base : Z) (is_ : list Z) : res (list (Z * bytes)) :=
  match is_ with
  | [] => Ok []
  | i :: is_ =>
      let ptr_off := ptr_base + i * 2 in
      if PAGE_SIZE <? ptr_off + 2 then Ok []
      else
        cell_off ← u16_to_page_size <$> read_u16 data ptr_off;
        if PAGE_SIZE <? cell_off + 4 then defragment_cells data ptr_base is_
        else
          payload_size ← read_u32 data cell_off;
          let inline_payload := if PAGE_SIZE - 12 <? payload_size then 4 else payload_size in
          let cell_len := 4 + 8 + inline_payload in
          cell ← slice data cell_off (Z.min (cell_off + cell_len) PAGE_SIZE);
          rest ← defragment_cells data ptr_base is_;
          Ok ((i, cell) :: rest)
  end.
(** Write the cells down from [write_offset]; the subtraction is checked. *)
Fixpoint write_compacted (ptr_base : Z) (cells : list (Z * bytes)) (write_offset : Z) : ST bytes Z :=
  match cells with
  | [] => mret write_offset
  | (i, cell_data) :: cells =>
      let write_offset := write_offset - zlen cell_data in
      if write_offset <? 0 then st_lift Panic
      else
        _ ← st_upd (λ d, copy_from_slice d write_offset (write_offset + zlen cell_data) cell_data);
        _ ← st_upd (λ d, copy_from_slice d (ptr_base + i * 2) (ptr_base + i * 2 + 2) (le_bytes 2 (page_size_to_u16_val write_offset)));
        write_compacted ptr_base cells write_offset
  end.
(** The rewriting of the page, on its image. *)
Definition page_rewrite (off cell_count : Z) (cells : list (Z * bytes)) : ST bytes unit :=
  let ptr_end := off + LEAF_HEADER_SIZE + cell_count * 2 in
  _ ← st_upd (λ d, if PAGE_SIZE <? ptr_end then Panic
                   else copy_from_slice d ptr_end PAGE_SIZE (replicate (Z.to_nat (PAGE_SIZE - ptr_end)) 0));
  write_offset ← write_compacted (off + LEAF_HEADER_SIZE) cells PAGE_SIZE;
  _ ← st_upd (λ d, copy_from_slice d (off + 3) (off + 5) (le_bytes 2 (page_size_to_u16_val write_offset)));
  st_upd (λ d, set_index d (off + 5) 0).
Definition defragment_leaf (page_num : Z) : ST P bool :=
  let off := header_offset page_num in
  data ← get_page page_num;
  page_type ← st_lift (index data off);
  cell_count ← st_lift (read_u16 data (off + 1));
  frag_bytes ← st_lift (index data (off + 5));
  if negb (page_type =? LEAF_TABLE) || (frag_bytes =? 0) then mret false
  else
    data ← get_page page_num;
    cells ← st_lift (defragment_cells data (off + LEAF_HEADER_SIZE) (seqZ 0 cell_count));
    _ ← get_page_mut page_num (page_rewrite off cell_count cells);
    mret true.

Fixpoint defragment_all (fuel : nat) (root_page : Z) : ST P Z :=
  match fuel with
  | O => st_lift Hang
  | S fuel =>
      let off := header_offset root_page in
      data ← get_page root_page;
      page_type ← st_lift (index data off);
      if page_type =? LEAF_TABLE then
        done ← defragment_leaf root_page; mret (if done : bool then 1 else 0)
      else if page_type =? INTERIOR_TABLE then
        data ← get_page root_page;
        cell_count ← st_lift (read_u16 data (off + 1));
        children ← st_lift (interior_children data (off + INTERIOR_HEADER_SIZE) (seqZ 0 cell_count));
        rc ← st_lift (read_u32 data (off + 6));
        st_fold (λ total child, n ← defragment_all fuel child; mret (total + n)) 0 (children ++ [rc])
      else mret 0
  end.
End Vacuum.

(** ** What the loops read *)

Section Reads.
Context `{PageSize}.

Lemma index_byte (d : bytes) k x : 0 ≤ k → sub d k 1 = [x] → index d k = Ok x.
Proof.
  intros Hk Hs. unfold index. rewrite (proj2 (Z.leb_le 0 k)) by done. unfold sub in Hs.
  assert (d !! Z.to_nat k = Some x) as ->; [|done].
  rewrite <- (Nat.add_0_r (Z.to_nat k)), <- lookup_drop. destruct (drop (Z.to_nat k) d); [done|]. simpl in Hs. by injection Hs as ->.
Qed.
Lemma index_in (d : bytes) k : 0 ≤ k < zlen d → ∃ x, index d k = Ok x.
Proof.
  intros Hk. destruct (zlen_lookup d k Hk) as [x Hx]. exists x. unfold index. rewrite (proj2 (Z.leb_le 0 k)) by lia. by rewrite Hx.
Qed.

(** The loops over the pointers of a page, step by step. *)
Lemma leaf_ptr_in d cco cs i o c : leaf_ok d cco cs → cs !! i = Some (o, c) → 14 + Z.of_nat i * 2 + 2 ≤ PAGE_SIZE.
Proof.
  intros Hleaf Hi. pose proof (sl_room _ _ _ _ (lf_slotted _ _ _ Hleaf)) as Hr. rewrite zlen_cell_slots in Hr.
  apply lookup_lt_Some in Hi. unfold LEAF_HEADER_SIZE, zlen in Hr. lia.
Qed.
Lemma leaf_ptr_read d cco cs i o c :
  leaf_ok d cco cs → cs !! i = Some (o, c) → u16_to_page_size <$> read_u16 d (14 + Z.of_nat i * 2) = Ok o.
Proof.
  intros Hleaf Hi. destruct (leaf_read _ _ _ _ _ _ Hleaf Hi) as (Hp & _ & _ & Ho & Hend & _).
  pose proof (cell_bytes_len_ge c). pose proof PAGE_SIZE_bounds. rewrite Hp. simpl. unfold u16_to_page_size.
  pose proof (slotted_cell _ _ _ _ _ _ _ (lf_slotted _ _ _ Hleaf) (cell_slots_lookup _ _ _ _ Hi)) as (Hc & _).
  pose proof (sl_room _ _ _ _ (lf_slotted _ _ _ Hleaf)) as Hr. pose proof (zlen_nonneg (cell_slots cs)). unfold LEAF_HEADER_SIZE in Hr.
  destruct (Z.eqb_spec o 0); [lia|done].
Qed.
(** A loop over the indices of a list that handles each element by itself. *)
Lemma index_loop {A B} (F : list Z → res (list B)) (g : A → list B) (l : list A) :
  F [] = Ok [] →
  (∀ i x is_ r, l !! i = Some x → F is_ = Ok r → F (Z.of_nat i :: is_) = Ok (g x ++ r)) →
  F (seqZ 0 (zlen l)) = Ok (concat (map g l)).
Proof.
  intros Hnil Hcons. assert (∀ k l2, l = take k l ++ l2 → (k ≤ length l)%nat → F (seqZ (Z.of_nat k) (zlen l2)) = Ok (concat (map g l2))) as Hk.
  2: { apply (Hk 0%nat l); [done|lia]. }
  intros k l2. revert k. induction l2 as [|x l2 IH]; intros k Hl Hlen; [done|].
  assert (l !! k = Some x) as Hx.
  { rewrite Hl, lookup_app_r by (rewrite length_take; lia). rewrite length_take. by replace (k - _)%nat with 0%nat by lia. }
  rewrite zlen_cons. pose proof (zlen_nonneg l2). rewrite seqZ_cons by lia. replace (Z.pred _) with (zlen l2) by lia.
  cbn [map concat]. apply Hcons; [done|]. rewrite <- Nat2Z.inj_succ. apply IH.
  - rewrite (take_S_r _ _ x) by done. rewrite <- app_assoc. exact Hl.
  - apply lookup_lt_Some in Hx. lia.
Qed.

Lemma interior_children_spec d cco cs rc :
  interior_ok d cco cs rc → interior_children d 10 (seqZ 0 (zlen cs)) = Ok cs.*2.*1.
Proof.
  intros Hint. rewrite (index_loop (interior_children d 10) (λ x, [x.2.1]) cs); [|done|].
  { f_equal. clear Hint. induction cs as [|x cs IH]; [done|]. cbn [map concat app fmap list_fmap]. by rewrite IH. }
  intros i [o [c key]] is_ r Hi Hrest. cbn [interior_children].
  destruct (interior_read _ _ _ _ _ _ _ _ Hint Hi) as (Hp & _ & Hch & Ho & Hend & _).
  pose proof (in_slotted _ _ _ _ Hint) as Hs. pose proof (sl_room _ _ _ _ Hs) as Hr. rewrite zlen_interior_slots in Hr.
  pose proof (slotted_cell _ _ _ _ _ _ _ Hs (interior_slots_lookup _ _ _ _ Hi)) as (Hc & _).
  apply lookup_lt_Some in Hi as Hlt. unfold INTERIOR_HEADER_SIZE, zlen in Hr.
  rewrite (proj2 (Z.ltb_ge PAGE_SIZE (10 + _ + _))) by lia. rewrite Hp. cbn [fmap res_fmap mbind res_bind].
  change (u16_to_page_size <$> Ok o) with (Ok (u16_to_page_size o)). cbn [mbind res_bind].
  unfold u16_to_page_size. destruct (Z.eqb_spec o 0); [lia|]. rewrite (proj2 (Z.ltb_ge PAGE_SIZE (o + 4))) by lia.
  rewrite Hch. cbn [mbind res_bind]. by rewrite Hrest.
Qed.

(** The upper half of an [i64] as stored. *)
Lemma le_val_app (a b : bytes) : le_val (a ++ b) = le_val a + 2 ^ (8 * zlen a) * le_val b.
Proof.
  induction a as [|x a IH]; [by cbn [app le_val]; rewrite Z.mul_1_l|]. cbn [app le_val]. rewrite IH, zlen_cons.
  pose proof (zlen_nonneg a). replace (8 * (1 + zlen a)) with (8 + 8 * zlen a) by lia.
  rewrite (Z.pow_add_r 2 8) by lia. change (2 ^ 8) with 256. lia.
Qed.
Lemma rowid_upper_half r : sub (le_bytes 8 r) 4 4 = le_bytes 4 (r mod 2 ^ 64 / 2 ^ 32).
Proof.
  pose proof (le_val_le_bytes 8 r) as Hv. change (8 * Z.of_nat 8) with 64 in Hv.
  set (l := le_bytes 8 r) in *. assert (length l = 8%nat) as Hlen by apply length_le_bytes.
  assert (bytes_ok l) as Hok by apply le_bytes_ok.
  assert (zlen (take 4 l) = 4) as Ht by (unfold zlen; rewrite length_take, Hlen; done).
  rewrite <- (take_drop 4 l), le_val_app, Ht in Hv. change (2 ^ (8 * 4)) with (2 ^ 32) in Hv.
  assert (bytes_ok (take 4 l)) as Hok1 by (by apply Forall_take). assert (bytes_ok (drop 4 l)) as Hok2 by (by apply Forall_drop).
  pose proof (le_val_bound _ Hok1) as Hb. rewrite Ht in Hb. change (2 ^ (8 * 4)) with (2 ^ 32) in Hb.
  unfold sub. change (Z.to_nat 4) with 4%nat. rewrite (take_ge (drop 4 l)) by (rewrite length_drop; lia).
  rewrite <- (le_bytes_le_val (drop 4 l)) by done. rewrite length_drop, Hlen. change (8 - 4)%nat with 4%nat. f_equal.
  rewrite <- Hv. Z.to_euclidean_division_equations; lia.
Qed.

(** The page number the statistics take from an overflow cell: the upper half
    of its rowid. *)
Definition misread (c : cell) : list Z :=
  match c with COverflow r _ _ => [r mod 2 ^ 64 / 2 ^ 32] | CInline _ _ => [] end.
Lemma overflow_starts_spec d cco cs :
  leaf_ok d cco cs → overflow_starts d 14 (seqZ 0 (zlen cs)) = Ok (concat (map (λ x, misread x.2) cs)).
Proof.
  intros Hleaf. apply (index_loop (overflow_starts d 14) (λ x, misread x.2) cs); [done|].
  intros i [o c] is_ r Hi Hrest. cbn [overflow_starts].
  destruct (leaf_read _ _ _ _ _ _ Hleaf Hi) as (_ & _ & Hsz & Ho & Hend & Hsub).
  pose proof (leaf_ptr_in _ _ _ _ _ _ Hleaf Hi). pose proof (cell_bytes_len_ge c). pose proof PAGE_SIZE_bounds.
  rewrite (proj2 (Z.ltb_ge PAGE_SIZE (14 + _ + _))) by lia. rewrite (leaf_ptr_read _ _ _ _ _ _ Hleaf Hi). cbn [mbind res_bind].
  rewrite (proj2 (Z.ltb_ge PAGE_SIZE (o + 12))) by lia. rewrite Hsz. cbn [mbind res_bind].
  pose proof (lf_slotted _ _ _ Hleaf) as Hs. pose proof (proj1 (sl_page _ _ _ _ Hs)) as Hl.
  pose proof (cell_bytes_len c) as Hlen. pose proof Hend as Hend'. rewrite Hlen in Hend'. destruct c as [rr p|rr t f]; cbn [cell_raw_size misread].
  - rewrite (proj2 (Z.ltb_ge (PAGE_SIZE - 12) _)) by (simpl in Hend'; lia). exact Hrest.
  - unfold OVERFLOW_FLAG at 1. rewrite (proj2 (Z.ltb_lt (PAGE_SIZE - 12) _)) by lia.
    rewrite (read_u32_sub d (o + 8) (rr mod 2 ^ 64 / 2 ^ 32)); [|lia|lia|].
    + rewrite Hrest. cbn [mbind res_bind]. do 2 f_equal. unfold as_u32. rewrite Z.mod_small; [done|].
      Z.to_euclidean_division_equations; lia.
    + rewrite (slotted_sub LEAF_HEADER_SIZE leaf_hdr _ _ _ _ _ _ _ _ Hs (cell_slots_lookup _ _ _ _ Hi)) by lia.
      simpl. unfold make_overflow_cell. rewrite sub_app_r by (rewrite zlen_le_bytes; lia). rewrite zlen_le_bytes.
      rewrite sub_app_l by (rewrite ?zlen_le_bytes; lia). apply rowid_upper_half.
Qed.
End Reads.

(** ** Whole trees *)

Section Trees.
Context {P : Type} `{PagerLaws P}.
Implicit Types (m : gmap Z bytes) (s : P).

Lemma count_no_overflow cf l total s :
  Forall (eq 0) l → st_fold (λ total first, n ← count_overflow_pages cf first; mret (total + n)) total l s = (Ok total, s).
Proof.
  intros Hl. revert total. induction Hl as [|x l <- _ IH]; intros total; [done|]. cbn [st_fold].
  rewrite !ST_bind_unfold. destruct cf; cbn [count_overflow_pages]; rewrite Z.eqb_refl; unfold mret, ST_ret; by rewrite Z.add_0_r.
Qed.
Lemma misread_small l : Forall (λ c, 0 ≤ cell_rowid c < 2 ^ 32) l → Forall (eq 0) (concat (map misread l)).
Proof.
  induction 1 as [|c l Hc _ IH]; [done|]. cbn [map concat]. apply Forall_app_2; [|done]. destruct c as [|r t f]; simpl in *; [done|].
  apply Forall_singleton. rewrite Z.mod_small by lia. symmetry. apply Z.div_small. lia.
Qed.
Lemma leaf_free d cco cs :
  leaf_ok d cco cs → 0 ≤ saturating_sub cco (0 + LEAF_HEADER_SIZE + zlen cs * 2) ≤ PAGE_SIZE - LEAF_HEADER_SIZE - space cs.*2.
Proof.
  intros Hleaf. pose proof (lf_slotted _ _ _ Hleaf) as Hs. pose proof (sl_room _ _ _ _ Hs) as Hr. pose proof (sl_used _ _ _ _ Hs) as Hu.
  rewrite zlen_cell_slots in Hr.
  assert (space cs.*2 = zsum (map (λ c : Z * bytes, zlen c.2) (cell_slots cs)) + zlen cs * 2) as ->; [|unfold saturating_sub; lia].
  clear. unfold space, zsum, cell_slots. induction cs as [|[o c] cs IH]; [done|].
  rewrite zlen_cons, fmap_cons. cbn [map foldr snd fst]. rewrite IH. unfold cell_space. lia.
Qed.
Lemma cells_of_map (cs : list (Z * cell)) : map (λ x, misread x.2) cs = map misread cs.*2.
Proof. by rewrite <- list_fmap_compose. Qed.

(** Folding over the children of an interior page. *)
Lemma forest_fold {B} (F : B → Z → ST P B) (Q : list (Z * list cell) → Prop) (R : list (Z * list cell) → B → B → Prop) m h :
  (∀ lo hi n ls inner b s, tree m h lo hi n ls inner → Q ls → pager_rep s m →
     ∃ s' b', F b n s = (Ok b', s') ∧ keeps m s s' ∧ R ls b b') →
  (∀ ls1 ls2, Q (ls1 ++ ls2) → Q ls1 ∧ Q ls2) →
  (∀ ls1 ls2 b1 b2 b3, R ls1 b1 b2 → R ls2 b2 b3 → R (ls1 ++ ls2) b1 b3) →
  ∀ cells rc ls inner lo hi b s, forest m h lo hi cells rc ls inner → Q ls → pager_rep s m →
  ∃ s' b', st_fold F b (cells.*1 ++ [rc]) s = (Ok b', s') ∧ keeps m s s' ∧ R ls b b'.
Proof.
  intros HF HQ HR cells. induction cells as [|[c k] cells IHc]; intros rc ls inner lo hi b s Hf HQls Hrep;
    inversion Hf as [? ? ? ? ? ? Ht|? ? ? ? ? ? ? ls1 i1 ls2 i2 _ Ht Hf']; subst.
  - destruct (HF _ _ _ _ _ b s Ht HQls Hrep) as (s2 & b' & Hrun & Hk & Hr). exists s2, b'. split; [|done].
    cbn [fmap list_fmap app st_fold]. by rewrite !ST_bind_unfold, Hrun.
  - apply HQ in HQls as [HQ1 HQ2]. destruct (HF _ _ _ _ _ b s Ht HQ1 Hrep) as (s2 & b2 & Hrun & Hk2 & Hr2).
    destruct (IHc _ _ _ _ _ b2 s2 Hf' HQ2 (proj1 Hk2)) as (s3 & b3 & Hrun3 & Hk3 & Hr3).
    exists s3, b3. split; [|split; [by eapply keeps_trans|by eapply HR]].
    cbn [fmap list_fmap app st_fold fst]. rewrite ST_bind_unfold, Hrun. exact Hrun3.
Qed.

Definition stats_step (ls : list (Z * list cell)) (a b : FragStats) : Prop :=
  fs_leaves b = fs_leaves a + zlen ls ∧ fs_frag b = fs_frag a ∧ fs_overflow b = fs_overflow a ∧
  fs_free a ≤ fs_free b ≤ fs_free a + zlen ls * (PAGE_SIZE - LEAF_HEADER_SIZE) - space (tree_cells ls).
Lemma tree_cells_app ls1 ls2 : tree_cells (ls1 ++ ls2) = tree_cells ls1 ++ tree_cells ls2.
Proof. unfold tree_cells. by rewrite fmap_app, concat_app. Qed.
Lemma stats_step_app ls1 ls2 a b c : stats_step ls1 a b → stats_step ls2 b c → stats_step (ls1 ++ ls2) a c.
Proof. intros (?&?&?&?) (?&?&?&?). unfold stats_step. rewrite zlen_app, tree_cells_app, space_app. lia. Qed.

Definition small_rowids (ls : list (Z * list cell)) : Prop := Forall (λ c, 0 ≤ cell_rowid c < 2 ^ 32) (tree_cells ls).
Lemma small_rowids_app ls1 ls2 : small_rowids (ls1 ++ ls2) → small_rowids ls1 ∧ small_rowids ls2.
Proof. unfold small_rowids. rewrite tree_cells_app. apply Forall_app. Qed.

Lemma collect_frag_tree cf m h : ∀ lo hi n ls inner acc s fuel,
  tree m h lo hi n ls inner → pager_rep s m → (h < fuel)%nat → small_rowids ls →
  ∃ s' b, collect_frag_stats fuel cf n acc s = (Ok b, s') ∧ keeps m s s' ∧ stats_step ls acc b.
Proof.
  induction h as [|h IH]; intros lo hi n ls inner acc s fuel Ht Hrep Hfuel Hsmall; (destruct fuel as [|fuel]; [lia|]);
    cbn [collect_frag_stats]; unfold header_offset; cbv zeta; change (0 + 1) with 1; change (0 + 3) with 3; change (0 + 5) with 5.
  - inversion Ht as [? ? ? d cco cs Hd Hleaf _|]; subst. pose proof (lf_slotted _ _ _ Hleaf) as Hs.
    enter_leaf Hrep Hd Hleaf s1 Hk1.
    erewrite ST_bind_Ok by (unfold st_lift; rewrite (leaf_count _ _ _ Hleaf); done). cbv beta.
    erewrite ST_bind_Ok by (unfold st_lift; rewrite (slotted_read_cco _ leaf_hdr _ _ _ Hs); done). cbv beta.
    erewrite ST_bind_Ok by (unfold st_lift; rewrite (index_byte d 5 0 ltac:(lia) (lf_frag _ _ _ Hleaf)); done). cbv beta.
    rewrite Z.eqb_refl. cbv iota. destruct (get_page_keeps _ _ _ _ (proj1 Hk1) Hd) as (s2 & Hg2 & Hk2). pstep Hg2.
    change (0 + LEAF_HEADER_SIZE) with 14.
    erewrite ST_bind_Ok by (unfold st_lift; rewrite (overflow_starts_spec _ _ _ Hleaf); done). cbv beta.
    unfold small_rowids, tree_cells in Hsmall. cbn [fmap list_fmap concat snd] in Hsmall. rewrite app_nil_r in Hsmall.
    erewrite ST_bind_Ok by (apply count_no_overflow; rewrite cells_of_map; by apply misread_small). cbv beta.
    eexists s2, _. split; [reflexivity|]. split; [by eapply keeps_trans|]. unfold stats_step. cbn [fs_leaves fs_frag fs_overflow fs_free].
    pose proof (leaf_free _ _ _ Hleaf) as Hf. change (0 + LEAF_HEADER_SIZE) with 14 in Hf.
    unfold tree_cells. cbn [fmap list_fmap concat snd]. rewrite app_nil_r. change (zlen [_]) with 1. lia.
  - inversion Ht as [|? ? ? ? d cco cs rc ? inner' Hd Hint Hf]; subst. pose proof (in_slotted _ _ _ _ Hint) as Hs.
    enter_interior Hrep Hd Hint s1 Hk1.
    erewrite ST_bind_Ok by (unfold st_lift; rewrite (interior_count _ _ _ _ Hint); done). cbv beta.
    erewrite ST_bind_Ok by (unfold st_lift; rewrite (slotted_read_cco _ interior_hdr _ _ _ Hs); done). cbv beta.
    destruct (index_in d 5) as [x Hx]; [rewrite (interior_page_len _ _ _ _ Hint); pose proof PAGE_SIZE_bounds; lia|].
    erewrite ST_bind_Ok by (unfold st_lift; rewrite Hx; done). cbv beta.
    change (INTERIOR_TABLE =? LEAF_TABLE) with false. rewrite Z.eqb_refl. cbv iota.
    destruct (get_page_keeps _ _ _ _ (proj1 Hk1) Hd) as (s2 & Hg2 & Hk2). pstep Hg2.
    change (0 + INTERIOR_HEADER_SIZE) with 10. change (0 + 6) with 6.
    erewrite ST_bind_Ok by (unfold st_lift; rewrite (interior_children_spec _ _ _ _ Hint); done). cbv beta.
    erewrite ST_bind_Ok by (unfold st_lift; rewrite (interior_right _ _ _ _ Hint); done). cbv beta.
    destruct (forest_fold (λ acc child, collect_frag_stats fuel cf child acc) small_rowids stats_step m h
      (λ lo hi n ls inner b s Ht HQ Hr, IH lo hi n ls inner b s fuel Ht Hr ltac:(lia) HQ) small_rowids_app stats_step_app
      _ _ _ _ _ _ acc s2 Hf Hsmall (proj1 Hk2)) as (s3 & b & Hrun & Hk3 & Hr3).
    exists s3, b. split; [exact Hrun|]. split; [|done]. eapply keeps_trans; [exact Hk1|]. by eapply keeps_trans.
Qed.

(** No leaf is ever compacted. *)
Lemma defragment_leaf_none m n d cco cs s :
  pager_rep s m → m !! n = Some d → leaf_ok d cco cs → ∃ s', defragment_leaf n s = (Ok false, s') ∧ keeps m s s'.
Proof.
  intros Hrep Hd Hleaf. unfold defragment_leaf, header_offset. cbv zeta. change (0 + 1) with 1. change (0 + 5) with 5.
  enter_leaf Hrep Hd Hleaf s1 Hk1.
  erewrite ST_bind_Ok by (unfold st_lift; rewrite (leaf_count _ _ _ Hleaf); done). cbv beta.
  erewrite ST_bind_Ok by (unfold st_lift; rewrite (index_byte d 5 0 ltac:(lia) (lf_frag _ _ _ Hleaf)); done). cbv beta.
  rewrite !Z.eqb_refl. by exists s1.
Qed.
Lemma defragment_tree m h : ∀ lo hi n ls inner s fuel,
  tree m h lo hi n ls inner → pager_rep s m → (h < fuel)%nat →
  ∃ s', defragment_all fuel n s = (Ok 0, s') ∧ keeps m s s'.
Proof.
  induction h as [|h IH]; intros lo hi n ls inner s fuel Ht Hrep Hfuel; (destruct fuel as [|fuel]; [lia|]);
    cbn [defragment_all]; unfold header_offset; cbv zeta; change (0 + 1) with 1.
  - inversion Ht as [? ? ? d cco cs Hd Hleaf _|]; subst. enter_leaf Hrep Hd Hleaf s1 Hk1. rewrite Z.eqb_refl.
    destruct (defragment_leaf_none _ _ _ _ _ _ (proj1 Hk1) Hd Hleaf) as (s2 & Hrun & Hk2). pstep Hrun.
    exists s2. split; [done|]. by eapply keeps_trans.
  - inversion Ht as [|? ? ? ? d cco cs rc ? inner' Hd Hint Hf]; subst. enter_interior Hrep Hd Hint s1 Hk1.
    change (INTERIOR_TABLE =? LEAF_TABLE) with false. rewrite Z.eqb_refl. cbv iota.
    destruct (get_page_keeps _ _ _ _ (proj1 Hk1) Hd) as (s2 & Hg2 & Hk2). pstep Hg2.
    erewrite ST_bind_Ok by (unfold st_lift; rewrite (interior_count _ _ _ _ Hint); done). cbv beta.
    change (0 + INTERIOR_HEADER_SIZE) with 10. change (0 + 6) with 6.
    erewrite ST_bind_Ok by (unfold st_lift; rewrite (interior_children_spec _ _ _ _ Hint); done). cbv beta.
    erewrite ST_bind_Ok by (unfold st_lift; rewrite (interior_right _ _ _ _ Hint); done). cbv beta.
    destruct (forest_fold (λ total child, n ← defragment_all fuel child; mret (total + n)) (λ _, True) (λ _ a b, a = b) m h)
      with (cells := cs.*2) (rc := rc) (ls := ls) (inner := inner') (lo := lo) (hi := hi) (b := 0) (s := s2)
      as (s3 & b & Hrun & Hk3 & <-); try done.
    + intros lo' hi' n' ls' i' b s' Ht' _ Hr'. destruct (IH _ _ _ _ _ s' fuel Ht' Hr' ltac:(lia)) as (s3 & Hrun & Hk3).
      exists s3, b. split; [|done]. pstep Hrun. unfold mret, ST_ret. by rewrite Z.add_0_r.
    + by intros; subst.
    + apply Hk2.
    + exists s3. split; [exact Hrun|]. eapply keeps_trans; [exact Hk1|]. by eapply keeps_trans.
Qed.
End Trees.

(** ** Properties *)

(** On a table whose rowids are below 2^32 the fragmentation statistics count
    the leaves and at most the space that no cell uses; they count no
    fragmented byte and no overflow page, however many overflow pages the
    rows have: the loop takes the upper half of the rowid for the number of
    the first overflow page. *)
Theorem fragmentation_stats_correct {P} `{PagerLaws P} s root N rows fuel chain_fuel :
  btree_rep s root N rows → (N ≤ fuel)%nat → Forall (λ r, 0 ≤ r < 2 ^ 32) rows.*1 →
  ∃ s' leaves free, fragmentation_stats fuel chain_fuel root s = (Ok (mkFragStats leaves 0 0 free), s') ∧
    btree_rep s' root N rows ∧ 1 ≤ leaves ≤ Z.of_nat N ∧
    0 ≤ free ≤ leaves * (PAGE_SIZE - LEAF_HEADER_SIZE) - 14 * zlen rows.
Proof.
  intros Hrep Hfuel Hsmall. apply btree_rep_unfold in Hrep as (m & h & ls & inner & pgs & Hrep & Ht & Hlen & Hh & Hls & _).
  pose proof (tb_rows _ _ _ _ _ _ _ Ht) as Hrows. apply cells_rows_rowids in Hrows as Hids.
  assert (small_rowids ls) as Hs.
  { unfold small_rowids. rewrite Hids in Hsmall. by apply Forall_fmap in Hsmall. }
  destruct (collect_frag_tree chain_fuel m h _ _ _ _ _ (mkFragStats 0 0 0 0) s fuel (tb_tree _ _ _ _ _ _ _ Ht) Hrep ltac:(lia) Hs)
    as (s' & [l f o fr] & Hrun & Hk & Hl & Hfr & Hov & Hfree). cbn [fs_leaves fs_frag fs_overflow fs_free] in *. subst l f o.
  exists s', (zlen ls), fr. split; [exact Hrun|]. split; [by eapply btree_rep_keeps|].
  destruct (proj1 (tree_leaves_ok m) _ _ _ _ _ _ (tb_tree _ _ _ _ _ _ _ Ht)) as [_ Hne].
  assert (14 * zlen rows ≤ space (tree_cells ls)).
  { assert (zlen rows = zlen (tree_cells ls)) as ->.
    { unfold zlen. rewrite <- (length_fmap fst rows), Hids. unfold rowids. by rewrite length_map. }
    clear. induction (tree_cells ls) as [|c l IH]; [done|]. rewrite space_cons, zlen_cons. pose proof (cell_bytes_len_ge c). unfold cell_space. lia. }
  unfold zlen in *. destruct ls; [done|]. simpl length in *. lia.
Qed.

(** Defragmenting a table never does anything: no page is compacted and the
    table is unchanged, because no operation sets the fragmented-bytes field
    that [defragment_leaf] tests. *)
Theorem defragment_all_does_nothing {P} `{PagerLaws P} s root N rows fuel :
  btree_rep s root N rows → (N ≤ fuel)%nat →
  ∃ s', defragment_all fuel root s = (Ok 0, s') ∧ btree_rep s' root N rows.
Proof.
  intros Hrep Hfuel. apply btree_rep_unfold in Hrep as (m & h & ls & inner & pgs & Hrep & Ht & Hlen & Hh & _).
  destruct (defragment_tree m h _ _ _ _ _ s fuel (tb_tree _ _ _ _ _ _ _ Ht) Hrep ltac:(lia)) as (s' & Hrun & Hk).
  exists s'. split; [done|]. by eapply btree_rep_keeps.
Qed.

Lemma fragmentation_stats_correct_witness :
  let _ := page_size_512 in
  ∃ s s' : MapPager, ∃ leaves free, btree_rep s 3 1 [(7, [VInteger 1])] ∧
    fragmentation_stats 1 0 3 s = (Ok (mkFragStats leaves 0 0 free), s').
Proof.
  intros Hps. destruct sample_table as (s & Hs & _). exists s.
  destruct (fragmentation_stats_correct s 3 1 _ 1 0 Hs ltac:(lia)) as (s' & leaves & free & Hrun & _).
  { apply Forall_singleton. split; [discriminate|reflexivity]. }
  exists s', leaves, free. split; [exact Hs|exact Hrun].
Defined.
Lemma defragment_all_does_nothing_witness :
  let _ := page_size_512 in
  ∃ s s' : MapPager, btree_rep s 3 1 [(7, [VInteger 1])] ∧ defragment_all 1 3 s = (Ok 0, s').
Proof.
  intros Hps. destruct sample_table as (s & Hs & _). exists s.
  destruct (defragment_all_does_nothing s 3 1 _ 1 Hs ltac:(lia)) as (s' & Hrun & _).
  exists s'. split; [exact Hs|exact Hrun].
Defined.

(** The statistics of a table with one row that occupies two overflow pages,
    and of the same table with the rowid 2^33: none is counted, and the second
    takes page 2 of the file for an overflow page. *)
Theorem fragmentation_stats_misread_overflow :
  let _ := page_size_512 in
  (root ← create_table; root ← insert 2 root 1 [VBlob (replicate 600 7)]; fragmentation_stats 5 5 root) MapPager_new
    = (Ok (mkFragStats 1 0 0 476), ((root ← create_table; insert 2 root 1 [VBlob (replicate 600 7)]) MapPager_new).2) ∧
  ((root ← create_table; root ← insert 2 root (2 ^ 33) [VBlob (replicate 600 7)]; fragmentation_stats 5 5 root) MapPager_new).1
    = Err (PageOutOfRange 2).
Proof. intros Hps. split; vm_compute; reflexivity. Qed.

(** If the field were set, compacting a leaf would cut the overflow cells: it
    keeps 16 of their 20 bytes, so the number of the first overflow page is
    lost and the row reads as page number 0. *)
Theorem defragment_leaf_cuts_overflow_cells :
  let _ := page_size_512 in
  ((root ← create_table; root ← insert 2 root 1 [VBlob (replicate 600 7)];
    _ ← get_page_mut root (st_upd (λ d, set_index d 5 1));
    before ← find_by_rowid 5 root 1;
    done ← defragment_leaf root; mret (before, done)) MapPager_new).1 = Ok (Some (1, [VBlob (replicate 600 7)]), true) ∧
  ∃ e, ((root ← create_table; root ← insert 2 root 1 [VBlob (replicate 600 7)];
    _ ← get_page_mut root (st_upd (λ d, set_index d 5 1));
    _ ← defragment_leaf root; find_by_rowid 5 root 1) MapPager_new).1 = Err e.
Proof. intros Hps. split; [vm_compute; reflexivity|]. eexists. vm_compute. reflexivity. Qed.
