(* ===== verification/PagerTable.v ===== *)
(** The B-tree on the pager: whatever a client of the pager's interface does in
    a transaction keeps what a commit and a rollback need, so a table loaded
    into a new database in memory is there after the commit, and is gone after
    a rollback. *)
From S2P Require Import Prelude Values PagerIface FileIO Superblock Wal Pager PagerMemory PagerRollback PagerCommit BTreePage BTreeNode BTree BTreeTree BTreeInsert.

Section Core.
Context `{PageSize} `{Lz4}.

(** ** What the four operations leave alone *)

Definition core (p : Pager) :=
  (failpoint p, with_free 0 0 (sb_of p), active_slot (cow_state p),
   (λ tx, (base_generation tx, target_generation tx)) <$> active_tx (cow_state p)).
Definition keeps_core {A} (m : ST Pager A) : Prop := ∀ p, core (m p).2 = core p.

Lemma core_bind {A B} (m : ST Pager A) (f : A → ST Pager B) :
  keeps_core m → (∀ a, keeps_core (f a)) → keeps_core (m ≫= f).
Proof.
  intros Hm Hf p. rewrite ST_bind_unfold. specialize (Hm p). destruct (m p) as [[a| | |] p']; simpl in *; try done.
  by rewrite Hf.
Qed.
Lemma core_evict_loop fuel t ql c ps p : core (evict_loop fuel t ql c ps p) = core p.
Proof.
  revert c ps p. induction fuel as [|fuel IH]; intros c ps p; simpl; [done|].
  destruct (negb _); [done|]. destruct (lru_queue p) as [|n q]; [done|].
  destruct (loaded _ !! _) as [[|]|]; try (by rewrite IH). destruct (pages _ !! _) as [pg|]; [|by rewrite IH].
  destruct (dirty pg); [by rewrite IH|]. destruct (recently_used pg); [|by rewrite IH].
  destruct (_ && _); [destruct (2 <=? _)|]; rewrite ?IH; done.
Qed.
Lemma core_evict p : core (evict_lru_if_needed p) = core p.
Proof. unfold evict_lru_if_needed. destruct (_ || _); [done|]. apply core_evict_loop. Qed.
Lemma core_check n : keeps_core (check_range n).
Proof. intros p. unfold check_range. by destruct (Pager.in_range n p). Qed.
Lemma core_ensure b n : keeps_core (ensure_loaded b n).
Proof.
  intros p. unfold ensure_loaded. destruct (loaded p !! idx n) as [[|]|]; try done. cbv zeta.
  destruct (pages _ !! _) as [pg|]; [|apply core_evict]. destruct (match _ with Some _ => _ | None => _ end); apply core_evict.
Qed.
Lemma core_touch n p : core (touch n p) = core p.
Proof. unfold touch. by destruct (0 <? _). Qed.
Lemma core_get_page n : keeps_core (get_page n).
Proof.
  apply core_bind; [apply core_check|intros _]. apply core_bind; [apply core_ensure|intros _ p]. unfold st_fun. cbv zeta.
  destruct (pages _ !! _); apply core_touch.
Qed.
Lemma core_get_page_mut {A} n (f : ST bytes A) : keeps_core (get_page_mut n f).
Proof.
  apply core_bind; [apply core_check|intros _]. apply core_bind; [apply core_ensure|intros _ p]. unfold st_fun. cbv zeta.
  rewrite <- (core_touch n p). generalize (touch n p). clear p. intros p.
  destruct (pages p !! _) as [pg|]; [|done]. destruct (f (data pg)) as [r d].
  unfold mark_dirty, snapshot_page. by destruct (dirty pg), (txn_snapshot p) as [s|]; try destruct (snapshotted pg).
Qed.
Lemma core_mret {A} (a : A) : keeps_core (mret a).
Proof. done. Qed.
Lemma core_free_list_head p : core (free_list_head p).2 = core p.
Proof. unfold free_list_head. destruct (negb _); [done|]. by destruct (negb _). Qed.
Lemma core_allocate : keeps_core allocate_page.
Proof.
  intros p. unfold allocate_page. destruct (_ <=? _); [done|]. pose proof (core_free_list_head p) as Hc.
  destruct (free_list_head p) as [[n|] p1]; simpl in Hc; rewrite <- Hc; [|done].
  apply core_bind; [apply core_get_page|intros d]. apply core_bind; [done|intros next].
  apply core_bind; [done|intros _]. apply core_bind; [apply core_get_page_mut|intros _; apply core_mret].
Qed.
Lemma core_free n : keeps_core (free_page n).
Proof.
  apply core_bind; [apply core_check|intros _]. apply core_bind; [apply core_get_page_mut|intros _ p]. unfold st_fun.
  assert (core (record_freed n p).2 = core p) as Hc.
  { unfold record_freed. destruct (active_tx (cow_state p)) as [tx|] eqn:Htx; [|done]. unfold core. simpl. by rewrite Htx. }
  destruct (record_freed n p) as [[prev pend] q]. simpl in Hc. rewrite <- Hc.
  apply core_bind; [destruct prev; [apply core_get_page_mut|apply core_mret]|intros _].
  destruct pend; [apply core_get_page_mut|apply core_mret].
Qed.

(** ** Clients inside a transaction *)

(** Inside a transaction that began in the state a rollback would restore. *)
Definition txn_inv (c : option PagerFailpoint * SuperblockV2 * SuperblockSlot * option (Z * Z))
    (r : option (DbHeader * SuperblockV2 * SuperblockSlot * list bytes)) (p : Pager) : Prop :=
  good p ∧ restored p = r ∧ core p = c.
Lemma txn_inv_step c r p q : txn_inv c r p → step p q → core q = core p → txn_inv c r q.
Proof. intros (Hg & Hr & Hc) (Hg' & Hr') Hc'. split; [done|]. split; congruence. Qed.

Lemma txn_invariant c r : PagerInvariant Pager (txn_inv c r).
Proof.
  split.
  - intros p m n d Hrep Hi Hn. destruct (pager_rep_page p m n d Hrep Hn) as (_ & Hn1 & _).
    eapply txn_inv_step; [exact Hi| |apply core_get_page]. apply keeps_get_page; [lia|apply Hi].
  - intros A f p m n d Hrep Hi Hn Hd. destruct (pager_rep_page p m n d Hrep Hn) as (_ & Hn1 & _).
    eapply txn_inv_step; [exact Hi| |apply core_get_page_mut]. apply step_get_page_mut; [apply Hi|lia|].
    destruct Hrep as (fl & pl & tl & Hm). destruct (mok_client _ _ _ _ _ Hm n d Hn) as (_ & _ & Hdn).
    rewrite Hdn. intros d' [= <-] _. apply Hd.
  - intros p m Hrep Hi. eapply txn_inv_step; [exact Hi| |apply core_allocate]. apply keeps_allocate_page, Hi.
  - intros p m n d Hrep Hi Hn. destruct (pager_rep_page p m n d Hrep Hn) as (_ & Hn1 & _).
    eapply txn_inv_step; [exact Hi| |apply core_free]. apply keeps_free_page; [lia|apply Hi].
Qed.

(** ** The schema table *)

Lemma schema_page_leaf :
  leaf_ok schema_page PAGE_SIZE [] ∧ sub schema_page 6 4 = le_bytes 4 0 ∧ sub schema_page 10 4 = le_bytes 4 0.
Proof.
  pose proof PAGE_SIZE_bounds. pose proof zlen_zero_page as Lz. destruct init_leaf_table_page_zero as [_ Hok]. unfold schema_page in *.
  set (d0 := splice zero_page 0 [0x0D]) in *.
  assert (zlen d0 = PAGE_SIZE) as L0 by (unfold d0; rewrite length_splice; rewrite ?zlen_1; lia).
  set (d1 := splice d0 1 _) in *.
  assert (zlen d1 = PAGE_SIZE) as L1 by (unfold d1; rewrite length_splice; rewrite ?zlen_le_bytes; lia).
  set (d3 := splice d1 3 _) in *.
  assert (zlen d3 = PAGE_SIZE) as L3 by (unfold d3; rewrite length_splice; rewrite ?zlen_le_bytes; lia).
  assert (∀ k, 6 ≤ k → k + 4 ≤ 14 → sub (splice d3 5 [0]) k 4 = le_bytes 4 0) as Hlinks.
  { intros k Hk Hk2. skip_field. unfold d3. skip_write. unfold d1. skip_write. unfold d0. skip_field.
    unfold sub, zero_page. rewrite drop_replicate, take_replicate. replace (_ `min` _)%nat with 4%nat by lia. done. }
  split; [|split; apply Hlinks; lia].
  split; [| |constructor|constructor|]; [|split; try done|].
  - skip_field. unfold d3. skip_write. unfold d1. skip_write. by apply (sub_splice_eq zero_page 0 [_]); rewrite ?zlen_1; lia.
  - skip_field. unfold d3. rewrite page_size_to_u16_eq, le_bytes_2_as_u16.
    by apply (sub_splice_eq d1 3 (le_bytes 2 _)); rewrite ?zlen_le_bytes; lia.
  - unfold LEAF_HEADER_SIZE, zlen. simpl. lia.
  - constructor.
  - simpl. lia.
  - apply (sub_splice_eq d3 5 [_]); rewrite ?zlen_1; lia.
Qed.

(** The table at page 3 of a new database. *)
Lemma schema_table (L : PagerLaws Pager) (p : Pager) m a b :
  @pager_rep _ _ _ L p m → m !! 3 = Some schema_page → btree_sized p 3 0 1 a b [].
Proof.
  intros Hrep Hm. destruct schema_page_leaf as (Hleaf & H6 & H10).
  exists m, 0%nat, [(3, [])], [], []. split; [done|]. split; [split|].
  - eapply (tree_leaf _ _ _ 3 schema_page PAGE_SIZE []); [done|done|constructor].
  - constructor.
  - simpl. split; [|done]. exists schema_page. split; [done|]. done.
  - apply NoDup_singleton.
  - split; [lia|]. split; [simpl; lia|]. split; [by constructor|constructor].
Qed.
End Core.

Section Database.
Context `{PageSize} `{Lz4}.

(** ** The two ends of a transaction *)

Lemma begin_mem p m fl pl :
  mem_ok p m fl pl [] → idle p → is_u64 (generation (sb_of p)) →
  ∃ p1 g, begin_transaction p = (Ok tt, p1) ∧ mem_ok p1 m fl pl [] ∧ good p1 ∧ is_u64 g ∧
    g = saturating_add_u64 (generation (sb_of p)) 1 ∧ header p1 = header p ∧
    restored p1 = Some (header p, sb_of p, active_slot (cow_state p), pdata p) ∧
    core p1 = (failpoint p, with_free 0 0 (sb_of p), active_slot (cow_state p), Some (generation (sb_of p), g)).
Proof.
  intros Hm Hi Hg. destruct (begin_good p Hi) as (p1 & Hb & Hgood & Hre).
  exists p1, (saturating_add_u64 (generation (sb_of p)) 1). split; [done|].
  unfold begin_transaction, in_transaction in Hb. rewrite (idle_tx p Hi) in Hb. injection Hb as <-.
  split; [|split; [done|]].
  - destruct Hm as [H1 H2 H3 H4 H5 H6 H7 H8 H9 H10]. split; try done. by destruct H1.
  - split; [unfold saturating_add_u64; int_unfold; lia|]. done.
Qed.

(** The numbers of the pools are page numbers. *)
Lemma chain_u32 p m fl pl tl : mem_ok p m fl pl tl → is_u32 (free_root (sb_of p)) ∧ is_u32 (pending_free_root (sb_of p)).
Proof.
  intros Hm. pose proof (mok_total _ _ _ _ _ Hm). pose proof (mok_range _ _ _ _ _ Hm) as Hr. unfold MAX_PAGES in *.
  pose proof (mok_free _ _ _ _ _ Hm) as Hf. pose proof (mok_pending _ _ _ _ _ Hm) as Hp. split.
  - destruct fl as [|n fl]; simpl in Hf; [rewrite Hf; int_lia|]. destruct Hf as [-> _]. specialize (Hr n ltac:(set_solver)). int_lia.
  - destruct pl as [|n pl]; simpl in Hp; [rewrite Hp; int_lia|]. destruct Hp as [-> _]. specialize (Hr n ltac:(set_solver)). int_lia.
Qed.
Lemma sb_ok_core p m fl pl tl sb :
  mem_ok p m fl pl tl → sb_ok sb → with_free 0 0 (sb_of p) = with_free 0 0 sb → sb_ok (sb_of p).
Proof.
  intros Hm [S1 S2 S3 S4 S5 S6 S7 S8 S9] Hc. destruct (chain_u32 _ _ _ _ _ Hm) as [Hf Hp].
  unfold with_free in Hc. injection Hc as E1 E2 E3 E4 E5 E6 E7 E8.
  split; rewrite ?E1, ?E2, ?E3, ?E4, ?E5, ?E6, ?E7; done.
Qed.

Lemma rollback_mem p q m fl pl :
  mem_ok p m fl pl [] → resident q → header q = header p → sb_of q = sb_of p → active_tx (cow_state q) = None →
  pdata q = pdata p → superblock_page_dirty q = false → mem_ok q m fl pl [].
Proof.
  intros [H1 H2 H3 H4 H5 H6 H7 H8 H9 H10] Hr Hh Hs Ht Hd Hsb. split; rewrite ?Hh, ?Hs, ?Ht, ?Hd; done.
Qed.
End Database.

(** [C1] A table in a new database in memory: opening, beginning a transaction and
    inserting rows with increasing rowids into the schema table on page 3
    succeeds while there is room for the pages; committing then succeeds and
    the table holds exactly those rows, under the next generation; rolling
    back instead succeeds too and leaves the pages, the superblock and the
    empty table of the new database. *)
Theorem memory_database_transaction `{PageSize} `{Lz4} uuid rows fuel :
  zlen uuid = 16 → bytes_ok uuid → Forall loadable rows → StronglySorted Z.lt rows.*1 → (length rows ≤ fuel)%nat →
  3 + Z.of_nat (load_pages 0 rows) ≤ MAX_PAGES →
  ∃ p p1 p2 root,
    open_memory uuid = Ok p ∧ begin_transaction p = (Ok tt, p1) ∧ load fuel 3 rows p1 = (Ok root, p2) ∧
    (∃ q, commit_transaction p2 = (Ok tt, q) ∧ btree_rep q root (1 + load_pages 0 rows) rows ∧
       generation (sb_of q) = 2 ∧ in_transaction q = false) ∧
    (∃ q, rollback_transaction p2 = (Ok tt, q) ∧ btree_rep q 3 1 [] ∧ pdata q = pdata p ∧ sb_of q = sb_of p ∧
       in_transaction q = false).
Proof.
  intros Hu Hb Hok Hsort Hfuel Hroom. destruct (open_memory_ok uuid Hu Hb) as (p & Hp & Hm & Hi & Ht & Hsb & Hfp).
  assert (generation (sb_of p) = 1) as Hgen by (by rewrite Hsb).
  destruct (begin_mem p _ _ _ Hm Hi) as (p1 & g & Hbegin & Hm1 & Hg1 & Hgu & Hg & Hh1 & Hre & Hcore); [rewrite Hgen; int_lia|].
  rewrite Hgen in Hg. change (saturating_add_u64 1 1) with 2 in Hg. subst g.
  set (c := (failpoint p, _, _, _)) in *. set (r := Some (header p, _, _, _)) in *.
  set (L := PagerLaws_with (txn_invariant c r)).
  assert (@btree_sized Pager _ _ L p1 3 0 1 0 PAGE_SIZE []) as Hrep.
  { apply (schema_table L p1 {[3 := schema_page]}); [|apply lookup_singleton_eq]. split; [by exists [], [], []|done]. }
  destruct (load_spec (H1 := L) rows p1 3 0 1 [] fuel Hrep Hok Hsort Hfuel) as (root & p2 & h & N & Hl & Hrep2 & HN).
  { change (mem_room p1 (load_pages 0 rows)). unfold mem_room. rewrite Hh1. lia. }
  exists p, p1, p2, root. split; [done|]. split; [done|]. split; [done|].
  destruct (btree_sized_rep _ _ _ _ _ _ _ Hrep2) as (m & h2 & ls & inner & pgs & [Hr2 (Hgood & Hre2 & Hcore2)] & Htab & Hlen).
  destruct Hr2 as (fl & pl & tl & Hm2). split.
  - unfold core, c in Hcore2. pose proof (f_equal (λ x, x.1.1.1) Hcore2) as Cf. pose proof (f_equal (λ x, x.1.1.2) Hcore2) as Cs.
    pose proof (f_equal snd Hcore2) as Ctx. cbn [fst snd] in Cf, Cs, Ctx. destruct (active_tx (cow_state p2)) as [tx|] eqn:Etx; [|done].
    injection Ctx as Cb Cg. assert (sb_ok (sb_of p2)) as Hsb2.
    { eapply sb_ok_core; [exact Hm2| |exact Cs]. rewrite Hsb. by apply initial_superblock_ok. }
    destruct (memory_commit_correct p2 m fl pl tl tx) as (q & ? & ? & ? & Hc & Hmq & _ & _ & Hgq & _ & _ & _ & Htq & _); try done.
    + rewrite Cb. apply (f_equal generation) in Cs. simpl in Cs. by rewrite Cs.
    + by rewrite Cg.
    + congruence.
    + exists q. split; [done|]. split; [|split; [by rewrite Hgq|unfold in_transaction; by rewrite Htq]].
      exists m, h2, ls, inner, pgs. split; [by eexists _, _, _|]. split; [done|]. lia.
  - destruct (rollback_good p2 _ _ _ _ Hgood Hre2) as (q & Hq & Qh & Qs & Qsl & Qd & Qt & Qn & Qsp & Qr & Qf & Qc).
    { rewrite Ht. lia. }
    { unfold pdata. rewrite length_map. symmetry. apply (res_pages p), Hi. }
    exists q. split; [done|]. split; [|split; [done|split; [done|unfold in_transaction; by rewrite Qt]]].
    assert (mem_ok q {[3 := schema_page]} [] [] []) as Hmq by (apply (rollback_mem p q); [exact Hm|exact Qr|exact Qh|exact Qs|exact Qt|exact Qd|by apply Qc, (mok_sb _ _ _ _ _ Hm2)]).
    eapply btree_sized_rep, (schema_table _ q {[3 := schema_page]} 0 PAGE_SIZE); [|apply lookup_singleton_eq].
    by exists [], [], [].
Qed.
Lemma memory_database_transaction_witness :
  let _ := page_size_512 in let _ := no_lz4 in
  let rows := [(1, [VNull]); (5, [VBlob (replicate 600 7)])] in
  ∃ p p1 p2 root, open_memory demo_memory_uuid = Ok p ∧ begin_transaction p = (Ok tt, p1) ∧
    load 2 3 rows p1 = (Ok root, p2) ∧ ∃ q, commit_transaction p2 = (Ok tt, q) ∧ btree_rep q root (1 + load_pages 0 rows) rows.
Proof.
  intros Hps Hlz rows.
  destruct (memory_database_transaction demo_memory_uuid rows 2) as (p & p1 & p2 & root & H1 & H2 & H3 & (q & H4 & H5 & _) & _).
  - reflexivity.
  - by apply Forall_replicate.
  - assert (bytes_ok (replicate 600 7)) as Hb by (by apply Forall_replicate).
    constructor; [|constructor; [|constructor]]; (split; [simpl; int_lia|]); (split; [|vm_compute; discriminate]);
      (split; [|vm_compute; discriminate]); (constructor; [|constructor]); [done|]. split; [exact Hb|vm_compute; discriminate].
  - repeat constructor.
  - simpl. lia.
  - vm_compute. discriminate.
  - exists p, p1, p2, root. split; [exact H1|]. split; [exact H2|]. split; [exact H3|]. exists q. split; [exact H4|exact H5].
Defined.
