(* ===== verification/Text.v ===== *)
(** Text as the SQL functions of src/src/vm/eval_expr.rs use it: UTF-8 and
    characters, trimming, searching and replacing, decimal integers, and the
    decimal reading and printing of doubles ([str::parse::<f64>] rounds to
    nearest even, [Display] prints the shortest digits that read back). *)
From S2P Require Import Prelude Values.
From Stdlib Require Import Floats.SpecFloat.

(** ** Characters *)

(** [s.chars()] of a text, by its UTF-8 bytes. *)
Fixpoint chars (l : bytes) : list Z :=
  match l with
  | [] => []
  | a :: l1 =>
      if a <=? 0x7F then a :: chars l1
      else match l1 with
      | [] => []
      | b :: l2 =>
          if a <=? 0xDF then ((a - 0xC0) * 64 + (b - 0x80)) :: chars l2
          else match l2 with
          | [] => []
          | c :: l3 =>
              if a <=? 0xEF then ((a - 0xE0) * 4096 + (b - 0x80) * 64 + (c - 0x80)) :: chars l3
              else match l3 with
              | [] => []
              | d :: l4 => ((a - 0xF0) * 262144 + (b - 0x80) * 4096 + (c - 0x80) * 64 + (d - 0x80)) :: chars l4
              end
          end
      end
  end.
(** [char::from_u32] *)
Definition is_char (c : Z) : Prop := 0 ≤ c < 0xD800 ∨ 0xE000 ≤ c < 0x110000.
#[export] Instance is_char_dec c : Decision (is_char c) := _.
Definition char_from_u32 (c : Z) : option Z := if decide (is_char c) then Some c else None.
(** [String::push] *)
Definition utf8_encode (c : Z) : bytes :=
  if c <? 0x80 then [c]
  else if c <? 0x800 then [0xC0 + c / 64; 0x80 + c mod 64]
  else if c <? 0x10000 then [0xE0 + c / 4096; 0x80 + (c / 64) mod 64; 0x80 + c mod 64]
  else [0xF0 + c / 262144; 0x80 + (c / 4096) mod 64; 0x80 + (c / 64) mod 64; 0x80 + c mod 64].
(** [chars.iter().collect::<String>()] *)
Definition of_chars (l : list Z) : bytes := mjoin (map utf8_encode l).

(** [char::is_whitespace] *)
Definition is_whitespace (c : Z) : bool :=
  ((9 <=? c) && (c <=? 13)) || (c =? 32) || (c =? 0x85) || (c =? 0xA0) || (c =? 0x1680)
  || ((0x2000 <=? c) && (c <=? 0x200A)) || (c =? 0x2028) || (c =? 0x2029) || (c =? 0x202F) || (c =? 0x205F) || (c =? 0x3000).
Definition in_set (set : bytes) (c : Z) : bool := bool_decide (c ∈ chars set).
Fixpoint drop_while (f : Z → bool) (l : list Z) : list Z :=
  match l with c :: l' => if f c then drop_while f l' else l | [] => [] end.
Definition trim_start_matches (f : Z → bool) (s : bytes) : bytes := of_chars (drop_while f (chars s)).
Definition trim_end_matches (f : Z → bool) (s : bytes) : bytes := of_chars (rev (drop_while f (rev (chars s)))).
Definition trim_matches (f : Z → bool) (s : bytes) : bytes :=
  of_chars (rev (drop_while f (rev (drop_while f (chars s))))).
Definition trim (s : bytes) : bytes := trim_matches is_whitespace s.

(** ** Searching *)

Fixpoint starts_with (p s : bytes) : bool :=
  match p, s with
  | [], _ => true
  | x :: p', y :: s' => (x =? y) && starts_with p' s'
  | _ :: _, [] => false
  end.
(** [s.find(p)]: the byte position of the first occurrence. *)
Fixpoint find_sub (p s : bytes) : option nat :=
  if starts_with p s then Some 0%nat
  else match s with [] => None | _ :: s' => S <$> find_sub p s' end.
Definition contains (s p : bytes) : bool := bool_decide (is_Some (find_sub p s)).
Fixpoint replace_loop (fuel : nat) (from to s : list Z) : list Z :=
  match fuel, s with
  | S fuel, c :: s' =>
      if starts_with from s then to ++ replace_loop fuel from to (drop (length from) s)
      else c :: replace_loop fuel from to s'
  | _, _ => s
  end.
(** [s.replace(from, to)], by characters; an empty [from] occurs around every
    character. *)
Definition str_replace (from to s : bytes) : bytes :=
  of_chars (match chars from with
            | [] => chars to ++ mjoin (map (λ c, c :: chars to) (chars s))
            | f => replace_loop (length (chars s)) f (chars to) (chars s)
            end).

(** ** Integers in decimal *)

Fixpoint show_digits (fuel : nat) (n : Z) (acc : bytes) : bytes :=
  match fuel with
  | O => acc
  | S fuel => let acc := (48 + n mod 10) :: acc in if n <? 10 then acc else show_digits fuel (n / 10) acc
  end.
(** Decimal digits of a number that is not negative. *)
Definition show_N (n : Z) : bytes := show_digits (Z.to_nat (Z.log2 n) + 1) n [].
(** [i64::to_string] *)
Definition show_i64 (v : Z) : bytes := if v <? 0 then 45 :: show_N (- v) else show_N v.

Fixpoint bytes_of_string (s : string) : bytes :=
  match s with
  | String.EmptyString => []
  | String.String c s' => Z.of_nat (Ascii.nat_of_ascii c) :: bytes_of_string s'
  end.
Definition string_of_bytes (l : bytes) : string :=
  foldr (λ b, String.String (Ascii.ascii_of_nat (Z.to_nat b))) String.EmptyString l.

(** ** Doubles *)

(** [f64::to_bits]; every NaN is the quiet one. *)
Definition sign_bit (s : bool) : Z := if s then 2 ^ 63 else 0.
Definition bits_of_f64 (f : spec_float) : Z :=
  match f with
  | S754_zero s => sign_bit s
  | S754_infinity s => sign_bit s + 0x7FF0000000000000
  | S754_nan => 0x7FF8000000000000
  | S754_finite s m e =>
      sign_bit s + (if Zpos m <? 2 ^ 52 then Zpos m else ((e + 1075) mod 2 ^ 11) * 2 ^ 52 + Zpos m mod 2 ^ 52)
  end.
(** The double nearest to [m * 10^k]. *)
Definition round_decimal (neg : bool) (m k : Z) : spec_float :=
  let signed x := if neg then - x else x in
  if m =? 0 then S754_zero neg
  else if 400 <? k then S754_infinity neg
  else if k + Z.log2 m <? -400 then S754_zero neg
  else if 0 <=? k then binary_normalize 53 1024 (signed (m * 10 ^ k)) 0 neg
  else
    let d := 10 ^ (- k) in
    let sh := Z.max 0 (Z.log2 d - Z.log2 m + 66) in
    let n := m * 2 ^ sh in
    let sticky := if n mod d =? 0 then 0 else 1 in
    binary_normalize 53 1024 (signed (2 * (n / d) + sticky)) (- sh - 1) neg.

Definition is_digit (b : Z) : bool := (48 <=? b) && (b <=? 57).
Fixpoint split_digits (l : bytes) : bytes * bytes :=
  match l with
  | b :: l' => if is_digit b then let '(ds, r) := split_digits l' in (b :: ds, r) else ([], l)
  | [] => ([], [])
  end.
Definition digits_val (ds : bytes) : Z := foldl (λ n b, 10 * n + (b - 48)) 0 ds.
Definition split_sign (l : bytes) : bool * bytes :=
  match l with
  | b :: l' => if b =? 43 then (false, l') else if b =? 45 then (true, l') else (false, l)
  | [] => (false, [])
  end.
Definition lower_bytes (l : bytes) : bytes := map (λ b, if (65 <=? b) && (b <=? 90) then b + 32 else b) l.
(** [str::parse::<f64>] *)
Definition parse_exponent (l : bytes) : option Z :=
  match l with
  | [] => Some 0
  | b :: l' =>
      if (b =? 101) || (b =? 69) then
        let '(neg, l1) := split_sign l' in
        let '(ds, l2) := split_digits l1 in
        match ds, l2 with
        | _ :: _, [] => Some (if neg then - digits_val ds else digits_val ds)
        | _, _ => None
        end
      else None
  end.
Definition parse_f64 (t : bytes) : option spec_float :=
  let '(neg, l) := split_sign t in
  let word := string_of_bytes (lower_bytes l) in
  if String.eqb word "inf" || String.eqb word "infinity" then Some (S754_infinity neg)
  else if String.eqb word "nan" then Some S754_nan
  else
    let '(whole, l1) := split_digits l in
    let '(frac, l2) := match l1 with b :: l' => if b =? 46 then split_digits l' else ([], l1) | [] => ([], []) end in
    match whole ++ frac with
    | [] => None
    | ds => e ← parse_exponent l2; Some (round_decimal neg (digits_val ds) (e - zlen frac))
    end.

(** Printing: the least number of digits for which the decimal just below or
    just above reads back, the nearer one of the two first. *)
Definition ge_pow10 (num den p : Z) : bool := if 0 <=? p then den * 10 ^ p <=? num else den <=? num * 10 ^ (- p).
Fixpoint pow10_above (fuel : nat) (num den p : Z) : Z :=
  match fuel with
  | O => p
  | S fuel => if ge_pow10 num den p then pow10_above fuel num den (p + 1) else p
  end.
Fixpoint shortest (fuel : nat) (f : spec_float) (num den p n : Z) : Z * Z :=
  let k := p - n in
  let scaled := if 0 <=? k then num else num * 10 ^ (- k) in
  let d := if 0 <=? k then den * 10 ^ k else den in
  let q := scaled / d in
  let r := scaled mod d in
  let near := if (2 * r <? d) || ((2 * r =? d) && Z.even q) then q else q + 1 in
  let far := if near =? q then q + 1 else q in
  match fuel with
  | O => (near, k)
  | S fuel =>
      if SFeqb (round_decimal false near k) f then (near, k)
      else if SFeqb (round_decimal false far k) f then (far, k)
      else shortest fuel f num den p (n + 1)
  end.
Fixpoint strip_zeros (fuel : nat) (q k : Z) : Z * Z :=
  match fuel with
  | O => (q, k)
  | S fuel => if (k <? 0) && (q mod 10 =? 0) then strip_zeros fuel (q / 10) (k + 1) else (q, k)
  end.
Definition show_decimal (q k : Z) : bytes :=
  let ds := show_N q in
  if 0 <=? k then ds ++ replicate (Z.to_nat k) 48
  else if - k <? zlen ds then take (Z.to_nat (zlen ds + k)) ds ++ 46 :: drop (Z.to_nat (zlen ds + k)) ds
  else 48 :: 46 :: replicate (Z.to_nat (- k - zlen ds)) 48 ++ ds.
(** [impl Display for f64] *)
Definition show_f64 (f : spec_float) : bytes :=
  let sign s := if (s : bool) then [45] else [] in
  match f with
  | S754_nan => [78; 97; 78]
  | S754_infinity s => sign s ++ [105; 110; 102]
  | S754_zero s => sign s ++ [48]
  | S754_finite s m e =>
      let num := if 0 <=? e then Zpos m * 2 ^ e else Zpos m in
      let den := if 0 <=? e then 1 else 2 ^ (- e) in
      let p := pow10_above 4 num den ((Z.log2 num - Z.log2 den) * 30103 / 100000 - 1) in
      let '(q, k) := shortest 17 (S754_finite false m e) num den p 1 in
      let '(q, k) := strip_zeros 20 q k in
      sign s ++ show_decimal q k
  end.

(** ** Lemmas: UTF-8 *)

Definition text_ok (t : bytes) : Prop := bytes_ok t ∧ utf8_valid t = true.

(** Decide each comparison by arithmetic; a branch that contradicts it goes. *)
Ltac cmp_cases :=
  repeat match goal with
  | |- context [?a <=? ?b] => destruct (Z.leb_spec a b); try lia; cbn [andb orb]
  | |- context [?a <? ?b] => destruct (Z.ltb_spec a b); try lia; cbn [andb orb]
  | |- context [?a =? ?b] => destruct (Z.eqb_spec a b); try lia; cbn [andb orb]
  end.
Lemma utf8_encode_chars c r : is_char c → chars (utf8_encode c ++ r) = c :: chars r.
Proof.
  unfold is_char, utf8_encode. intros Hc. cmp_cases; cbn [app chars]; cmp_cases; try done; try div_lia; f_equal; div_lia.
Qed.
Lemma utf8_encode_valid c r : is_char c → utf8_valid (utf8_encode c ++ r) = utf8_valid r.
Proof.
  unfold is_char, utf8_encode, is_cont. intros Hc.
  pose proof (Z.mod_pos_bound c 64). pose proof (Z.mod_pos_bound (c / 64) 64). pose proof (Z.mod_pos_bound (c / 4096) 64).
  cmp_cases; cbn [app utf8_valid]; unfold is_cont; cmp_cases; try done; div_lia.
Qed.
Lemma utf8_encode_bytes c : is_char c → bytes_ok (utf8_encode c).
Proof. unfold is_char, utf8_encode. intros Hc. cmp_cases; repeat constructor; unfold is_byte; div_lia. Qed.
(** A text is empty or one encoded character and a text. *)
Lemma utf8_head t : text_ok t → t = [] ∨ ∃ c r, is_char c ∧ t = utf8_encode c ++ r ∧ text_ok r.
Proof.
  intros [Hb Hv]. destruct t as [|a t]; [by left|]. right. unfold bytes_ok in *.
  inversion Hb as [|? ? Ha Hb1]; subst. unfold is_byte in Ha. cbn [utf8_valid] in Hv.
  destruct (Z.leb_spec a 0x7F).
  { exists a, t. unfold is_char, utf8_encode, text_ok. cmp_cases. split; [lia|]. by repeat split. }
  destruct t as [|b t]; [done|]. inversion Hb1 as [|? ? Hbb Hb2]; subst. unfold is_byte in Hbb.
  destruct ((0xC2 <=? a) && (a <=? 0xDF)) eqn:E2.
  { unfold is_cont in Hv. rewrite !andb_true_iff, !Z.leb_le in *. exists ((a - 0xC0) * 64 + (b - 0x80)), t.
    unfold is_char, utf8_encode, text_ok. cmp_cases. split; [lia|]. split; [|by destruct Hv].
    cbn [app]. f_equal; [|f_equal]; div_lia. }
  destruct t as [|c t]; [done|]. inversion Hb2 as [|? ? Hbc Hb3]; subst. unfold is_byte in Hbc.
  assert (∀ lo hi, 0x80 ≤ lo → hi ≤ 0xBF → (a = 0xE0 → 0xA0 ≤ lo) → (a = 0xED → hi ≤ 0x9F) → 0xE0 ≤ a ≤ 0xEF →
    lo ≤ b ≤ hi → 0x80 ≤ c ≤ 0xBF → utf8_valid t = true →
    ∃ c0 r, is_char c0 ∧ a :: b :: c :: t = utf8_encode c0 ++ r ∧ text_ok r) as H3.
  { intros lo hi H1 H2 Hl Hh Ha3 Hb4 Hc3 Hvt. exists ((a - 0xE0) * 4096 + (b - 0x80) * 64 + (c - 0x80)), t.
    unfold is_char, utf8_encode, text_ok. cmp_cases. split; [lia|]. split; [|done].
    cbn [app]. f_equal; [|f_equal; [|f_equal]]; div_lia. }
  unfold is_cont in Hv.
  destruct (Z.eqb_spec a 0xE0) as [->|].
  { rewrite !andb_true_iff, !Z.leb_le in Hv. apply (H3 0xA0 0xBF); lia || tauto. }
  destruct (Z.eqb_spec a 0xED) as [->|].
  { rewrite !andb_true_iff, !Z.leb_le in Hv. apply (H3 0x80 0x9F); lia || tauto. }
  destruct ((0xE1 <=? a) && (a <=? 0xEF)) eqn:E3.
  { rewrite !andb_true_iff, !Z.leb_le in *. apply (H3 0x80 0xBF); lia || tauto. }
  destruct t as [|d t]; [done|]. inversion Hb3 as [|? ? Hbd Hb4]; subst. unfold is_byte in Hbd.
  assert (∀ lo hi, 0x80 ≤ lo → hi ≤ 0xBF → (a = 0xF0 → 0x90 ≤ lo) → (a = 0xF4 → hi ≤ 0x8F) → 0xF0 ≤ a ≤ 0xF4 →
    lo ≤ b ≤ hi → 0x80 ≤ c ≤ 0xBF → 0x80 ≤ d ≤ 0xBF → utf8_valid t = true →
    ∃ c0 r, is_char c0 ∧ a :: b :: c :: d :: t = utf8_encode c0 ++ r ∧ text_ok r) as H4.
  { intros lo hi H1 H2 Hl Hh Ha3 Hb5 Hc3 Hd3 Hvt.
    exists ((a - 0xF0) * 262144 + (b - 0x80) * 4096 + (c - 0x80) * 64 + (d - 0x80)), t.
    unfold is_char, utf8_encode, text_ok. cmp_cases. split; [lia|]. split; [|done].
    cbn [app]. f_equal; [|f_equal; [|f_equal; [|f_equal]]]; div_lia. }
  destruct (Z.eqb_spec a 0xF0) as [->|].
  { rewrite !andb_true_iff, !Z.leb_le in Hv. apply (H4 0x90 0xBF); lia || tauto. }
  destruct (Z.eqb_spec a 0xF4) as [->|].
  { rewrite !andb_true_iff, !Z.leb_le in Hv. apply (H4 0x80 0x8F); lia || tauto. }
  rewrite !andb_true_iff, !Z.leb_le in Hv. apply (H4 0x80 0xBF); lia || tauto.
Qed.
Lemma of_chars_cons c l : of_chars (c :: l) = utf8_encode c ++ of_chars l.
Proof. reflexivity. Qed.
Lemma chars_text t : text_ok t → of_chars (chars t) = t ∧ Forall is_char (chars t).
Proof.
  remember (length t) as n eqn:Hn. revert t Hn. induction (lt_wf n) as [n _ IH]. intros t -> Ht.
  apply utf8_head in Ht as [->|(c & r & Hc & -> & Hr)]; [done|]. rewrite utf8_encode_chars by done.
  destruct (IH (length r)) with (t := r) as [He Hf]; [|done|done|].
  { rewrite length_app. unfold utf8_encode. repeat case_match; simpl; lia. }
  split; [|by constructor]. by rewrite of_chars_cons, He.
Qed.
Lemma of_chars_app l k : of_chars (l ++ k) = of_chars l ++ of_chars k.
Proof. unfold of_chars. by rewrite map_app, join_app. Qed.
Lemma of_chars_ok l : Forall is_char l → text_ok (of_chars l) ∧ chars (of_chars l) = l.
Proof.
  induction 1 as [|c l Hc _ ([Hb Hv] & He)]; [by repeat split; constructor|]. rewrite of_chars_cons.
  split; [split|].
  - apply Forall_app_2; [by apply utf8_encode_bytes|done].
  - by rewrite utf8_encode_valid.
  - by rewrite utf8_encode_chars, He.
Qed.
Lemma text_app s t : text_ok s → text_ok t → text_ok (s ++ t) ∧ chars (s ++ t) = chars s ++ chars t.
Proof.
  intros Hs Ht. destruct (chars_text s Hs) as [Es Fs]. destruct (chars_text t Ht) as [Et Ft].
  rewrite <- Es, <- Et, <- of_chars_app. destruct (of_chars_ok (chars s ++ chars t)) as [Hok Hc]; [by apply Forall_app_2|].
  rewrite Hc. split; [done|]. by rewrite Es, Et.
Qed.
(** A text of one-byte characters. *)
Lemma ascii_text l : Forall (λ b, 0 ≤ b < 0x80) l → text_ok l.
Proof.
  intros Hl. split; [eapply Forall_impl; [exact Hl|]; intros x Hx; cbn in Hx; unfold is_byte; lia|].
  induction Hl as [|b l Hb _ IH]; [done|]. simpl. by destruct (Z.leb_spec b 0x7F); [|lia].
Qed.

Lemma drop_while_suffix f l : ∃ k, drop_while f l = drop k l.
Proof.
  induction l as [|c l [k IH]]; [by exists 0%nat|]. simpl. destruct (f c); [by exists (S k)|by exists 0%nat].
Qed.
Lemma drop_while_none f l : Forall (λ c, f c = false) l → drop_while f l = l.
Proof. destruct 1 as [|c l Hc _]; [done|]. cbn [drop_while]. by rewrite Hc. Qed.
Lemma Forall_drop_while P f l : Forall P l → Forall P (drop_while f l).
Proof. intros Hl. destruct (drop_while_suffix f l) as [k ->]. by apply Forall_drop. Qed.
Lemma trim_matches_ok f s : text_ok s → text_ok (trim_matches f s) ∧ text_ok (trim_start_matches f s) ∧ text_ok (trim_end_matches f s).
Proof.
  intros Hs. apply chars_text in Hs as [_ Hf]. unfold trim_matches, trim_start_matches, trim_end_matches.
  split; [|split]; apply of_chars_ok.
  - by apply Forall_rev, Forall_drop_while, Forall_rev, Forall_drop_while.
  - by apply Forall_drop_while.
  - by apply Forall_rev, Forall_drop_while, Forall_rev.
Qed.
Lemma replace_loop_ok fuel from to s : Forall is_char to → Forall is_char s → Forall is_char (replace_loop fuel from to s).
Proof.
  intros Ht. revert s. induction fuel as [|fuel IH]; intros s Hs; [done|]. destruct s as [|c s']; [done|]. cbn [replace_loop].
  destruct (starts_with from (c :: s')).
  - apply Forall_app_2; [done|]. by apply IH, Forall_drop.
  - inversion Hs; subst. constructor; [done|]. by apply IH.
Qed.
Lemma str_replace_ok from to s : text_ok to → text_ok s → text_ok (str_replace from to s).
Proof.
  intros Ht Hs. apply chars_text in Ht as [_ Ht]. apply chars_text in Hs as [_ Hs]. unfold str_replace. apply of_chars_ok.
  destruct (chars from).
  - apply Forall_app_2; [done|]. induction Hs as [|c l Hc _ IH]; [constructor|]. simpl. constructor; [done|].
    by apply Forall_app_2.
  - by apply replace_loop_ok.
Qed.

(** ** Lemmas: decimal integers *)

Lemma show_digits_app fuel n acc : show_digits fuel n acc = show_digits fuel n [] ++ acc.
Proof.
  revert n acc. induction fuel as [|fuel IH]; intros n acc; [done|]. cbn [show_digits]. destruct (n <? 10); [done|].
  rewrite (IH _ (_ :: acc)), (IH _ [_]), <- app_assoc. done.
Qed.
Lemma parse_digits_app a l k : parse_digits a (l ++ k) = (n ← parse_digits a l; parse_digits n k).
Proof. revert a. induction l as [|b l IH]; intros a; [done|]. cbn [app parse_digits]. by destruct (_ && _). Qed.
Lemma parse_show_digits fuel n :
  0 ≤ n < 10 ^ Z.of_nat fuel → (0 < fuel)%nat → parse_digits 0 (show_digits fuel n []) = Some n ∧ Forall (λ b, 48 ≤ b ≤ 57) (show_digits fuel n [])
    ∧ show_digits fuel n [] ≠ [].
Proof.
  revert n. induction fuel as [|fuel IH]; intros n Hn Hf; [lia|]. cbn [show_digits].
  pose proof (Z.mod_pos_bound n 10 ltac:(lia)). pose proof (Z.div_mod n 10 ltac:(lia)).
  destruct (Z.ltb_spec n 10).
  - rewrite Z.mod_small by lia. split; [|split; [|done]].
    + cbn [parse_digits]. destruct (Z.leb_spec 48 (48 + n)); [|lia]. destruct (Z.leb_spec (48 + n) 57); [|lia]. cbn. f_equal. lia.
    + constructor; [lia|constructor].
  - replace (Z.of_nat (S fuel)) with (Z.of_nat fuel + 1) in Hn by lia. rewrite Z.pow_add_r in Hn by lia.
    assert (0 ≤ n / 10 < 10 ^ Z.of_nat fuel) as Hd.
    { split; [apply Z.div_pos; lia|]. apply Z.div_lt_upper_bound; lia. }
    destruct fuel as [|fuel]; [simpl in *; lia|]. destruct (IH (n / 10) Hd ltac:(lia)) as (He & Hfa & Hne).
    rewrite show_digits_app. split; [|split].
    + rewrite parse_digits_app, He. cbn [mbind option_bind parse_digits].
      destruct (Z.leb_spec 48 (48 + n mod 10)); [|lia]. destruct (Z.leb_spec (48 + n mod 10) 57); [|lia]. cbn. f_equal. lia.
    + apply Forall_app_2; [done|]. constructor; [lia|constructor].
    + intros E. apply app_nil in E as [_ E]. done.
Qed.
Lemma show_N_spec n : 0 ≤ n → parse_digits 0 (show_N n) = Some n ∧ Forall (λ b, 48 ≤ b ≤ 57) (show_N n) ∧ show_N n ≠ [].
Proof.
  intros Hn. apply parse_show_digits; [|lia]. split; [done|]. rewrite Nat2Z.inj_add, Z2Nat.id by apply Z.log2_nonneg.
  destruct (decide (n = 0)) as [->|]; [simpl; lia|]. pose proof (Z.log2_spec n ltac:(lia)) as [_ Hl].
  eapply Z.lt_le_trans; [exact Hl|]. rewrite Z.add_1_r. apply Z.pow_le_mono_l. lia.
Qed.
Lemma show_i64_text v : text_ok (show_i64 v).
Proof.
  apply ascii_text. unfold show_i64. destruct (Z.ltb_spec v 0).
  - constructor; [lia|]. destruct (show_N_spec (- v)) as (_ & Hf & _); [lia|]. eapply Forall_impl; [exact Hf|]; cbn; lia.
  - destruct (show_N_spec v) as (_ & Hf & _); [lia|]. eapply Forall_impl; [exact Hf|]; cbn; lia.
Qed.
Lemma parse_show_i64 v : is_i64 v → parse_i64 (show_i64 v) = Some v.
Proof.
  intros Hv. unfold show_i64, parse_i64. destruct (Z.ltb_spec v 0).
  - destruct (show_N_spec (- v)) as (He & _ & Hne); [lia|]. simpl. destruct (show_N (- v)) eqn:E; [done|]. rewrite He. simpl.
    rewrite Z.opp_involutive. unfold is_i64 in Hv. by destruct (Z.leb_spec (- 2 ^ 63) v), (Z.ltb_spec v (2 ^ 63)); try lia.
  - destruct (show_N_spec v) as (He & Hf & Hne); [lia|]. destruct (show_N v) as [|b l] eqn:E; [done|].
    inversion Hf as [|? ? Hb _]; subst. destruct (Z.eqb_spec b 43); [lia|]. destruct (Z.eqb_spec b 45); [lia|]. rewrite He. simpl.
    unfold is_i64 in Hv. by destruct (Z.leb_spec (- 2 ^ 63) v), (Z.ltb_spec v (2 ^ 63)); try lia.
Qed.

(** ** Lemmas: doubles *)

Lemma show_N_ascii n : Forall (λ b, 0 ≤ b < 0x80) (show_N n).
Proof.
  unfold show_N. generalize (Z.to_nat (Z.log2 n) + 1)%nat as fuel. intros fuel.
  assert (∀ n acc, Forall (λ b, 0 ≤ b < 0x80) acc → Forall (λ b, 0 ≤ b < 0x80) (show_digits fuel n acc)) as Hd; [|by apply Hd].
  clear n. induction fuel as [|fuel IH]; intros n acc Ha; [done|]. cbn [show_digits]. pose proof (Z.mod_pos_bound n 10 ltac:(lia)).
  assert (Forall (λ b, 0 ≤ b < 0x80) ((48 + n mod 10) :: acc)) by (constructor; [lia|done]). destruct (n <? 10); auto.
Qed.
Lemma show_decimal_ascii q k : Forall (λ b, 0 ≤ b < 0x80) (show_decimal q k).
Proof.
  pose proof (show_N_ascii q) as Hq. assert (∀ n, Forall (λ b : Z, 0 ≤ b < 0x80) (replicate n 48)) as Hz.
  { intros n. apply Forall_replicate. lia. }
  unfold show_decimal. case_match; [by apply Forall_app_2|]. case_match.
  - apply Forall_app_2; [by apply Forall_take|]. constructor; [lia|]. by apply Forall_drop.
  - constructor; [lia|]. constructor; [lia|]. by apply Forall_app_2.
Qed.
Lemma show_f64_text f : text_ok (show_f64 f).
Proof.
  assert (∀ s : bool, Forall (λ b : Z, 0 ≤ b < 0x80) (if s then [45] else [])) as Hs.
  { intros []; [constructor; [lia|constructor]|constructor]. }
  apply ascii_text. destruct f as [s|s| |s m e]; cbn [show_f64].
  - apply Forall_app_2; [done|]. constructor; [lia|constructor].
  - apply Forall_app_2; [done|]. repeat (constructor; [lia|]). constructor.
  - repeat (constructor; [lia|]). constructor.
  - cbv zeta. destruct (shortest _ _ _ _ _ _) as [q k]. destruct (strip_zeros 20 q k) as [q' k'].
    apply Forall_app_2; [done|]. apply show_decimal_ascii.
Qed.
Lemma bits_of_f64_range f : is_u64 (bits_of_f64 f).
Proof.
  assert (∀ s, 0 ≤ sign_bit s ≤ 2 ^ 63) as Hs by (intros []; unfold sign_bit; lia). unfold is_u64.
  destruct f as [s|s| |s m e]; cbn [bits_of_f64]; try specialize (Hs s); [lia..|].
  pose proof (Z.mod_pos_bound (e + 1075) (2 ^ 11) ltac:(lia)). pose proof (Z.mod_pos_bound (Zpos m) (2 ^ 52) ltac:(lia)).
  destruct (Z.ltb_spec (Zpos m) (2 ^ 52)); lia.
Qed.
