(* ===== verification/Like.v ===== *)
(** SQL LIKE (src/src/vm/eval_expr.rs, [like_match]): matching a pattern with
    [%], [_] and an escape character against a text.

    The matcher backtracks to the last [%] only.  The theorem: it always
    returns, and it answers exactly whether the text matches the pattern, read
    as a sequence of literals, single wildcards and gaps; the escape character
    must not be [%] itself, for which it does not. *)
From S2P Require Import Prelude Values Text.

(** ** Characters *)

(** [char::to_ascii_lowercase] *)
Definition char_lower (c : Z) : Z := if (65 <=? c) && (c <=? 90) then c + 32 else c.

Definition PERCENT : Z := 37.
Definition UNDERSCORE : Z := 95.

(** ** The matcher *)

(** The main loop: [Some pi] when the text is used up with the pattern at
    [pi], [None] for [return false]. *)
Fixpoint like_loop (fuel : nat) (t p : list Z) (ec : option Z) (ti pi : nat) (star_pi : option nat) (star_ti : nat)
    : res (option nat) :=
  match t !! ti with
  | None => Ok (Some pi)
  | Some c =>
      match fuel with
      | O => Hang
      | S fuel =>
          let retry :=
            match star_pi with
            | Some sp => like_loop fuel t p ec (star_ti + 1) (sp + 1) star_pi (star_ti + 1)
            | None => Ok None
            end in
          match p !! pi with
          | Some pc =>
              if bool_decide (Some pc = ec) then
                match p !! (pi + 1)%nat with
                | Some pc' => if c =? pc' then like_loop fuel t p ec (ti + 1) (pi + 1 + 1) star_pi star_ti else retry
                | None => Ok None
                end
              else if pc =? UNDERSCORE then like_loop fuel t p ec (ti + 1) (pi + 1) star_pi star_ti
              else if pc =? PERCENT then like_loop fuel t p ec ti (pi + 1) (Some pi) ti
              else if c =? pc then like_loop fuel t p ec (ti + 1) (pi + 1) star_pi star_ti else retry
          | None => retry
          end
      end
  end.
(** [while pi < plen && p_chars[pi] == '%' { pi += 1; }] *)
Fixpoint skip_percent (p : list Z) : list Z :=
  match p with c :: p' => if c =? PERCENT then skip_percent p' else p | [] => [] end.
Definition like_chars (t p : list Z) (ec : option Z) : res bool :=
  r ← like_loop ((length t + 1) * (length p + 1)) t p ec 0 0 None 0;
  Ok (match r with Some pi => bool_decide (skip_percent (drop pi p) = []) | None => false end).
Definition like_match (text pattern : bytes) (escape_char : option Z) (case_insensitive : bool) : res bool :=
  let norm := if case_insensitive then char_lower else id in
  like_chars (map norm (chars text)) (map norm (chars pattern)) (norm <$> escape_char).

(** ** What a pattern means *)

Inductive pat := PAny | POne | PLit (c : Z) | PDangling.
(** Reading a pattern; an escape character at the end escapes nothing. *)
Fixpoint parse_pattern (ec : option Z) (p : list Z) : list pat :=
  match p with
  | [] => []
  | c :: p' =>
      if bool_decide (Some c = ec) then
        match p' with
        | [] => [PDangling]
        | c' :: p'' => PLit c' :: parse_pattern ec p''
        end
      else (if c =? UNDERSCORE then POne else if c =? PERCENT then PAny else PLit c) :: parse_pattern ec p'
  end.
Inductive like : list pat → list Z → Prop :=
  | like_nil : like [] []
  | like_lit c ps t : like ps t → like (PLit c :: ps) (c :: t)
  | like_one c ps t : like ps t → like (POne :: ps) (c :: t)
  | like_any_none ps t : like ps t → like (PAny :: ps) t
  | like_any_more c ps t : like (PAny :: ps) t → like (PAny :: ps) (c :: t).

(** ** Lemmas *)

Lemma like_any ps t : like (PAny :: ps) t ↔ ∃ k, (k ≤ length t)%nat ∧ like ps (drop k t).
Proof.
  split.
  - intros Hl. remember (PAny :: ps) as q eqn:Hq. induction Hl as [| | |ps' t Hl _|c ps' t Hl IH]; simplify_eq.
    + exists 0%nat. split; [lia|]. by rewrite drop_0.
    + destruct (IH eq_refl) as (k & Hk & Hm). exists (S k). split; [simpl; lia|done].
  - intros (k & Hk & Hm). revert t Hk Hm. induction k as [|k IH]; intros t Hk Hm.
    + rewrite drop_0 in Hm. by apply like_any_none.
    + destruct t as [|c t]; [simpl in Hk; lia|]. apply like_any_more, IH; [simpl in Hk; lia|done].
Qed.
Definition single (x : pat) : Prop := match x with POne | PLit _ => True | _ => False end.
(** A run of single-character items takes as many characters. *)
Lemma like_run seg ps t : Forall single seg → like (seg ++ ps) t → (length seg ≤ length t)%nat ∧ like ps (drop (length seg) t).
Proof.
  intros Hs. revert t. induction Hs as [|x seg Hx _ IH]; intros t Hl; simpl in *; [split; [lia|by rewrite drop_0]|].
  destruct x; try done; inversion Hl; subst; simpl; destruct (IH _ ltac:(eassumption)); split; try lia; done.
Qed.
Lemma like_dangling seg t : ¬ like (seg ++ [PDangling]) t.
Proof.
  intros Hl. remember (seg ++ [PDangling]) as q eqn:Hq. revert seg Hq.
  induction Hl as [|c ps t Hl IH|c ps t Hl IH|ps t Hl IH|c ps t Hl IH]; intros seg Hq;
    destruct seg as [|x seg]; simpl in Hq; simplify_eq; [by apply (IH seg)..|].
  by apply (IH (PAny :: seg)).
Qed.
Lemma like_nil_inv ps : like ps [] ↔ Forall (eq PAny) ps.
Proof.
  split.
  - intros Hl. remember [] as t eqn:Ht. induction Hl; simplify_eq; constructor; auto.
  - induction 1 as [|x ps <- _ IH]; [constructor|by apply like_any_none].
Qed.
Lemma all_percent ec p : ec ≠ Some PERCENT → skip_percent p = [] ↔ Forall (eq PAny) (parse_pattern ec p).
Proof.
  intros Hec. induction p as [|c p IH]; simpl; [split; [constructor|done]|].
  destruct (Z.eqb_spec c PERCENT) as [->|Hc].
  - rewrite bool_decide_eq_false_2 by congruence. change (PERCENT =? UNDERSCORE) with false. cbv iota.
    rewrite IH. split; [by constructor|by inversion 1].
  - split; [done|]. case_bool_decide as He.
    + destruct p; inversion 1; done.
    + destruct (c =? UNDERSCORE); inversion 1; done.
Qed.

Section Loop.
Context (t p : list Z) (ec : option Z).
Abbreviation rest n := (parse_pattern ec (drop n p)).

(** The answer a loop state stands for: the pattern from [pi] matches here, or
    the pattern after the last gap matches further on. *)
Definition answer (ti pi : nat) (star : option nat) (star_ti : nat) : Prop :=
  like (rest pi) (drop ti t) ∨
  ∃ sp, star = Some sp ∧ ∃ k, (star_ti < k ≤ length t)%nat ∧ like (rest (sp + 1)) (drop k t).
(** Since the last gap only single characters were matched. *)
Definition run_ok (ti pi : nat) (star : option nat) (star_ti : nat) : Prop :=
  (ti ≤ length t)%nat ∧ (pi ≤ length p)%nat ∧ (star_ti ≤ ti)%nat ∧
  ∀ sp, star = Some sp → (sp < length p)%nat ∧ ∃ seg, rest (sp + 1) = seg ++ rest pi ∧ Forall single seg ∧ length seg = (ti - star_ti)%nat.

Lemma rest_cons pi c : p !! pi = Some c → drop pi p = c :: drop (pi + 1) p.
Proof. intros Hc. rewrite Nat.add_1_r. by apply drop_S. Qed.
Lemma text_cons ti c : t !! ti = Some c → drop ti t = c :: drop (ti + 1) t.
Proof. intros Hc. rewrite Nat.add_1_r. by apply drop_S. Qed.

(** Matching one character moves both positions. *)
Lemma advance_ok ti pi pi' star star_ti x c :
  run_ok ti pi star star_ti → t !! ti = Some c → (pi' ≤ length p)%nat → single x → rest pi = x :: rest pi' →
  run_ok (ti + 1) pi' star star_ti.
Proof.
  intros (H1 & H2 & H3 & H4) Ht Hp Hx Hrest. apply lookup_lt_Some in Ht. split; [lia|]. split; [done|]. split; [lia|].
  intros sp Hsp. destruct (H4 sp Hsp) as (Hlt & seg & Hs & Hf & Hl). split; [done|]. exists (seg ++ [x]).
  rewrite Hs, Hrest, <- app_assoc. split; [done|]. split; [by apply Forall_app_2; [|apply Forall_singleton]|].
  rewrite length_app. simpl. lia.
Qed.
Lemma advance_answer ti pi pi' star star_ti x c :
  t !! ti = Some c → rest pi = x :: rest pi' → (x = POne ∨ x = PLit c) →
  answer ti pi star star_ti ↔ answer (ti + 1) pi' star star_ti.
Proof.
  intros Ht Hrest Hx. unfold answer. rewrite Hrest, (text_cons _ _ Ht).
  assert (like (x :: rest pi') (c :: drop (ti + 1) t) ↔ like (rest pi') (drop (ti + 1) t)) as ->; [|done].
  split; [intros Hl; destruct Hx as [-> | ->]; by inversion Hl|]. intros Hl. destruct Hx as [-> | ->]; by constructor.
Qed.
(** Giving up here moves to the next start after the last gap. *)
Lemma retry_ok ti pi sp star_ti c :
  run_ok ti pi (Some sp) star_ti → t !! ti = Some c → run_ok (star_ti + 1) (sp + 1) (Some sp) (star_ti + 1).
Proof.
  intros (H1 & H2 & H3 & H4) Ht. apply lookup_lt_Some in Ht. destruct (H4 sp eq_refl) as (Hlt & _).
  split; [lia|]. split; [lia|]. split; [lia|]. intros sp' [= <-]. split; [done|]. exists []. split; [done|]. split; [constructor|]. simpl. lia.
Qed.
Lemma retry_answer ti pi sp star_ti c :
  run_ok ti pi (Some sp) star_ti → t !! ti = Some c → ¬ like (rest pi) (drop ti t) →
  answer ti pi (Some sp) star_ti ↔ answer (star_ti + 1) (sp + 1) (Some sp) (star_ti + 1).
Proof.
  intros (H1 & H2 & H3 & H4) Ht Hn. apply lookup_lt_Some in Ht. unfold answer. split.
  - intros [Hl|(sp' & [= <-] & k & Hk & Hl)]; [done|]. destruct (decide (k = star_ti + 1)%nat) as [->|Hne]; [by left|].
    right. exists sp. split; [done|]. exists k. split; [lia|done].
  - intros [Hl|(sp' & [= <-] & k & Hk & Hl)]; right; exists sp; (split; [done|]).
    + exists (star_ti + 1)%nat. split; [lia|done].
    + exists k. split; [lia|done].
Qed.
(** At a new gap the older one can be forgotten. *)
Lemma gap_ok ti pi star star_ti :
  run_ok ti pi star star_ti → (pi < length p)%nat → run_ok ti (pi + 1) (Some pi) ti.
Proof.
  intros (H1 & H2 & H3 & H4) Hp. split; [done|]. split; [lia|]. split; [done|]. intros sp [= <-]. split; [done|].
  exists []. split; [done|]. split; [constructor|]. simpl. lia.
Qed.
Lemma gap_answer ti pi star star_ti :
  run_ok ti pi star star_ti → rest pi = PAny :: rest (pi + 1) →
  answer ti pi star star_ti ↔ answer ti (pi + 1) (Some pi) ti.
Proof.
  intros (H1 & H2 & H3 & H4) Hrest. unfold answer.
  assert (like (rest pi) (drop ti t) ↔ like (rest (pi + 1)) (drop ti t) ∨ ∃ k, (ti < k ≤ length t)%nat ∧ like (rest (pi + 1)) (drop k t)) as Hg.
  { rewrite Hrest, like_any. split.
    - intros (k & Hk & Hl). rewrite length_drop in Hk. rewrite drop_drop in Hl. destruct (decide (k = 0)%nat) as [->|Hne].
      + left. by rewrite Nat.add_0_r in Hl.
      + right. exists (ti + k)%nat. split; [lia|done].
    - intros [Hl|(k & Hk & Hl)].
      + exists 0%nat. split; [lia|]. by rewrite drop_0.
      + exists (k - ti)%nat. rewrite length_drop, drop_drop. split; [lia|]. by replace (ti + (k - ti))%nat with k by lia. }
  split.
  - intros [Hl|(sp & Hsp & k & Hk & Hl)].
    + apply Hg in Hl as [Hl|(k & Hk & Hl)]; [by left|]. right. exists pi. split; [done|]. by exists k.
    + destruct (H4 sp Hsp) as (_ & seg & Hs & Hf & Hlen). rewrite Hs in Hl. apply (like_run _ _ _ Hf) in Hl as [Hlen2 Hl].
      rewrite drop_drop, Hrest in Hl. rewrite length_drop in Hlen2. apply like_any in Hl as (j & Hj & Hl).
      rewrite length_drop in Hj. rewrite drop_drop in Hl.
      destruct (decide (k + length seg + j = ti)%nat) as [E|Hne]; [left; by rewrite <- E|].
      right. exists pi. split; [done|]. exists (k + length seg + j)%nat. split; [lia|done].
  - intros [Hl|(sp & [= <-] & k & Hk & Hl)]; left; apply Hg; [by left|]. right. by exists k.
Qed.

(** The text is used up. *)
Lemma end_answer ti pi star star_ti :
  run_ok ti pi star star_ti → t !! ti = None → ec ≠ Some PERCENT →
  answer ti pi star star_ti ↔ skip_percent (drop pi p) = [].
Proof.
  intros (H1 & H2 & H3 & H4) Ht Hec. apply lookup_ge_None in Ht. rewrite (all_percent ec) by done. unfold answer.
  rewrite (drop_ge t ti) by lia. rewrite like_nil_inv. split; [|by left].
  intros [Hl|(sp & Hsp & k & Hk & Hl)]; [done|]. destruct (H4 sp Hsp) as (_ & seg & Hs & Hf & Hlen). rewrite Hs in Hl.
  apply (like_run _ _ _ Hf) in Hl as [Hlen2 _]. rewrite length_drop in Hlen2. lia.
Qed.
Lemma dangling_answer ti pi star star_ti : run_ok ti pi star star_ti → rest pi = [PDangling] → ¬ answer ti pi star star_ti.
Proof.
  intros (H1 & H2 & H3 & H4) Hrest [Hl|(sp & Hsp & k & Hk & Hl)]; [rewrite Hrest in Hl; by inversion Hl|].
  destruct (H4 sp Hsp) as (_ & seg & Hs & _). rewrite Hs, Hrest in Hl. by apply like_dangling in Hl.
Qed.

Definition loop_measure (ti pi star_ti : nat) : nat := (length t - star_ti) * (length p + 1) + (length p - pi).
Definition loop_answer (r : option nat) : bool :=
  match r with Some pi => bool_decide (skip_percent (drop pi p) = []) | None => false end.

(** A step that keeps the answer keeps the specification. *)
Lemma step_spec (run : res (option nat)) (A B : Prop) :
  (∃ r, run = Ok r ∧ (loop_answer r = true ↔ B)) → (A ↔ B) → ∃ r, run = Ok r ∧ (loop_answer r = true ↔ A).
Proof. intros (r & Hrun & Hr) HAB. exists r. by rewrite HAB. Qed.

Lemma like_loop_spec fuel : ∀ ti pi star star_ti,
  ec ≠ Some PERCENT → run_ok ti pi star star_ti → (loop_measure ti pi star_ti ≤ fuel)%nat →
  ∃ r, like_loop fuel t p ec ti pi star star_ti = Ok r ∧ (loop_answer r = true ↔ answer ti pi star star_ti).
Proof.
  induction fuel as [|fuel IH]; intros ti pi star star_ti Hec Hok Hm.
  all: pose proof Hok as (H1 & H2 & H3 & H4); destruct (t !! ti) as [c|] eqn:Ht;
    [|exists (Some pi); cbn [like_loop]; rewrite Ht; split; [done|]; simpl; rewrite bool_decide_eq_true; symmetry; by eapply end_answer].
  { apply lookup_lt_Some in Ht as Hlt. unfold loop_measure in Hm. nia. }
  cbn [like_loop]. rewrite Ht. apply lookup_lt_Some in Ht as Hlt. unfold loop_measure in Hm.
  assert (¬ like (rest pi) (drop ti t) →
    ∃ r, match star with Some sp => like_loop fuel t p ec (star_ti + 1) (sp + 1) star (star_ti + 1) | None => Ok None end = Ok r ∧
      (loop_answer r = true ↔ answer ti pi star star_ti)) as Hretry.
  { intros Hn. destruct star as [sp|].
    - eapply step_spec; [|by eapply retry_answer]. apply IH; [done|by eapply retry_ok|]. unfold loop_measure. nia.
    - exists None. split; [done|]. split; [done|]. intros [Hl|(sp & ? & _)]; done. }
  destruct (p !! pi) as [pc|] eqn:Hp.
  2: { apply Hretry. apply lookup_ge_None in Hp. rewrite (drop_ge p) by lia. rewrite (text_cons _ _ Ht). inversion 1. }
  apply lookup_lt_Some in Hp as Hpl. pose proof (rest_cons _ _ Hp) as Hrest.
  assert (∀ pi' x, (pi < pi' ≤ length p)%nat → single x → rest pi = x :: rest pi' → (x = POne ∨ x = PLit c) →
    ∃ r, like_loop fuel t p ec (ti + 1) pi' star star_ti = Ok r ∧ (loop_answer r = true ↔ answer ti pi star star_ti)) as Hadv.
  { intros pi' x Hpi' Hx Hr Hxc. eapply step_spec; [|by eapply advance_answer].
    apply IH; [done|eapply advance_ok; [exact Hok|exact Ht|lia|exact Hx|exact Hr]|unfold loop_measure; nia]. }
  assert (rest pi = if bool_decide (Some pc = ec) then match drop (pi + 1) p with [] => [PDangling] | c' :: _ => PLit c' :: rest (pi + 1 + 1) end
    else (if pc =? UNDERSCORE then POne else if pc =? PERCENT then PAny else PLit pc) :: rest (pi + 1)) as Hr.
  { rewrite Hrest. cbn [parse_pattern]. case_bool_decide; [|done]. destruct (p !! (pi + 1)%nat) as [c'|] eqn:Hp'.
    - by rewrite (rest_cons _ _ Hp').
    - apply lookup_ge_None in Hp'. by rewrite (drop_ge p) by lia. }
  case_bool_decide as He.
  - destruct (p !! (pi + 1)%nat) as [c'|] eqn:Hp'.
    + rewrite (rest_cons _ _ Hp') in Hr. apply lookup_lt_Some in Hp' as Hpl'. destruct (Z.eqb_spec c c') as [<-|Hne].
      * eapply Hadv; [|idtac|exact Hr|by right]; [lia|exact I].
      * apply Hretry. rewrite Hr, (text_cons _ _ Ht). by inversion 1.
    + apply lookup_ge_None in Hp'. rewrite (drop_ge p (pi + 1)) in Hr by lia. exists None. split; [done|]. split; [done|].
      intros Ha. by eapply dangling_answer in Ha.
  - destruct (Z.eqb_spec pc UNDERSCORE) as [->|Hu]; [eapply Hadv; [|idtac|exact Hr|by left]; [lia|exact I]|].
    destruct (Z.eqb_spec pc PERCENT) as [->|Hpc].
    + eapply step_spec; [|by eapply gap_answer]. apply IH; [done|by eapply gap_ok|unfold loop_measure; nia].
    + destruct (Z.eqb_spec c pc) as [<-|Hne]; [eapply Hadv; [|idtac|exact Hr|by right]; [lia|exact I]|].
      apply Hretry. rewrite Hr, (text_cons _ _ Ht). by inversion 1.
Qed.
End Loop.

(** Whatever the escape character, the matcher returns. *)
Lemma like_loop_total t p ec fuel : ∀ ti pi star star_ti,
  (ti ≤ length t)%nat → (pi ≤ length p)%nat → (star_ti ≤ ti)%nat → (∀ sp, star = Some sp → (sp < length p)%nat) →
  (loop_measure t p ti pi star_ti ≤ fuel)%nat → ∃ r, like_loop fuel t p ec ti pi star star_ti = Ok r.
Proof.
  unfold loop_measure. induction fuel as [|fuel IH]; intros ti pi star star_ti H1 H2 H3 H4 Hm; cbn [like_loop];
    destruct (t !! ti) as [c|] eqn:Ht; [|by eexists| |by eexists]; apply lookup_lt_Some in Ht; [nia|].
  assert (∃ r, match star with Some sp => like_loop fuel t p ec (star_ti + 1) (sp + 1) star (star_ti + 1) | None => Ok None end = Ok r) as Hretry.
  { destruct star as [sp|]; [|by eexists]. specialize (H4 sp eq_refl). apply IH; [lia..| |nia]. by intros ? [= <-]. }
  destruct (p !! pi) as [pc|] eqn:Hp; [|done]. apply lookup_lt_Some in Hp.
  assert (∀ pi', (pi < pi' ≤ length p)%nat → ∃ r, like_loop fuel t p ec (ti + 1) pi' star star_ti = Ok r) as Hadv.
  { intros pi' Hpi'. apply IH; [lia..|done|nia]. }
  case_bool_decide.
  - destruct (p !! (pi + 1)%nat) as [pc'|] eqn:Hp'; [|by eexists]. apply lookup_lt_Some in Hp'.
    destruct (c =? pc'); [apply Hadv; lia|done].
  - destruct (pc =? UNDERSCORE); [apply Hadv; lia|]. destruct (pc =? PERCENT).
    + apply IH; [lia..| |nia]. by intros ? [= <-].
    + destruct (c =? pc); [apply Hadv; lia|done].
Qed.
Lemma like_match_total text pattern esc ci : ∃ b, like_match text pattern esc ci = Ok b.
Proof.
  unfold like_match, like_chars. cbv zeta.
  set (t := map _ (chars text)). set (p := map _ (chars pattern)).
  destruct (like_loop_total t p ((if ci then char_lower else id) <$> esc) ((length t + 1) * (length p + 1)) 0 0 None 0) as [r Hr].
  - lia.
  - lia.
  - lia.
  - done.
  - unfold loop_measure. nia.
  - rewrite Hr. by eexists.
Qed.

(** ** Properties *)

(** [C16] LIKE always returns, and it answers whether the text matches the pattern:
    [%] stands for any run of characters, [_] for one, an escaped character
    for itself, with letters compared without case on request; a pattern that
    ends in the escape character matches nothing.  The escape character is
    any but [%]. *)
Theorem like_match_correct (text pattern : bytes) (esc : option Z) (ci : bool) :
  let norm : Z → Z := if ci then char_lower else id in
  norm <$> esc ≠ Some PERCENT →
  ∃ b, like_match text pattern esc ci = Ok b ∧
    (b = true ↔ like (parse_pattern (norm <$> esc) (map norm (chars pattern))) (map norm (chars text))).
Proof.
  intros norm Hec. unfold like_match, like_chars. cbv zeta. fold norm. set (t := map norm (chars text)). set (p := map norm (chars pattern)).
  destruct (like_loop_spec t p (norm <$> esc) ((length t + 1) * (length p + 1)) 0 0 None 0 Hec) as (r & Hrun & Hr).
  - split; [lia|]. split; [lia|]. split; [lia|]. done.
  - unfold loop_measure. nia.
  - rewrite Hrun. eexists. split; [reflexivity|]. change (loop_answer p r = true ↔ like (parse_pattern (norm <$> esc) p) t).
    rewrite Hr. unfold answer. rewrite !drop_0. split; [|by left]. intros [Hl|(sp & ? & _)]; done.
Qed.
(** The text [aXbYb] against [A%_b] and [A%\_b], without case. *)
Lemma like_match_correct_witness :
  like_match [97; 88; 98; 89; 98] [65; 37; 92; 95; 98] (Some 92) true = Ok false ∧
  like_match [97; 88; 98; 89; 98] [65; 37; 95; 98] (Some 92) true = Ok true ∧
  ∃ b, like_match [97; 88; 98; 89; 98] [65; 37; 95; 98] (Some 92) true = Ok b ∧
    (b = true ↔ like (parse_pattern (Some 92) (map char_lower (chars [65; 37; 95; 98]))) (map char_lower (chars [97; 88; 98; 89; 98]))).
Proof.
  split; [vm_compute; reflexivity|]. split; [vm_compute; reflexivity|].
  apply (like_match_correct [97; 88; 98; 89; 98] [65; 37; 95; 98] (Some 92) true). vm_compute. discriminate.
Defined.

(** With the escape character [%] the pattern [%%] asks for one percent sign,
    but the loop that skips trailing percent signs does not know of the escape:
    the empty text matches. *)
Theorem like_match_escaped_percent :
  like_match [] [PERCENT; PERCENT] (Some PERCENT) false = Ok true ∧
  parse_pattern (Some PERCENT) [PERCENT; PERCENT] = [PLit PERCENT] ∧ ¬ like [PLit PERCENT] [].
Proof. split; [reflexivity|]. split; [reflexivity|]. inversion 1. Qed.
