(* ===== verification/Expr.v ===== *)
(** Evaluation of SQL expressions (src/src/vm/eval_expr.rs, over the syntax of
    src/src/sql/ast.rs): column resolution through the rows of the enclosing
    queries, operators, predicates, CASE, CAST, subqueries and functions.

    Executing a subquery is the interface [SelectExec] to exec_select.rs; the
    JSON, regular-expression, random and vector functions are the interface
    [OtherFunctions]; Unicode case tables, the word segmentation of the jieba
    crate and the platform's powers and roots are [StdFns]. *)
From S2P Require Import Prelude Values Text Like.
From Stdlib Require Import Floats.SpecFloat.

(** ** Syntax *)

Inductive BinaryOperator : Type :=
  | Add | Subtract | Multiply | Divide | Modulo
  | Equal | NotEqual | LessThan | LessThanOrEqual | GreaterThan | GreaterThanOrEqual
  | And | Or | Concat | Xor | BitwiseOr | BitwiseAnd | BitwiseXor | ShiftLeft | ShiftRight | FtsMatch.
Inductive UnaryOperator : Type := Minus | Not.
Inductive CastTargetType : Type :=
  | CtInteger | CtReal | CtText | CtBlob | CtNumeric | CtDate | CtTime | CtTimestamp | CtJson.

#[export] Instance BinaryOperator_eq_dec : EqDecision BinaryOperator.
Proof. solve_decision. Defined.

Unset Elimination Schemes.
(** [Expr], over the types of SELECT statements and of window functions; a
    real literal is its bit pattern, a text its UTF-8 bytes. *)
Inductive Expr {SelectStmt WindowSpec : Type} : Type :=
  | IntegerLiteral (v : Z)
  | RealLiteral (bits : Z)
  | StringLiteral (s : bytes)
  | BlobLiteral (b : bytes)
  | ENull
  | ColumnRef (table : option string) (column : string)
  | Interval (value : Expr) (leading_field : option bytes)
  | Collate (expr : Expr) (collation : string)
  | BinaryOp (left : Expr) (op : BinaryOperator) (right : Expr)
  | UnaryOp (op : UnaryOperator) (expr : Expr)
  | IsNull (expr : Expr) (negated : bool)
  | InList (expr : Expr) (list : list Expr) (negated : bool)
  | ELike (expr pattern : Expr) (escape_char : option Z) (case_insensitive negated : bool)
  | Between (expr low high : Expr) (negated : bool)
  | Function (name : string) (args : list Expr) (distinct : bool)
  | WindowFunction (spec : WindowSpec)
  | Subquery (query : SelectStmt)
  | InSubquery (expr : Expr) (subquery : SelectStmt) (negated : bool)
  | Exists (subquery : SelectStmt)
  | AnyOp (expr : Expr) (op : BinaryOperator) (subquery : SelectStmt)
  | AllOp (expr : Expr) (op : BinaryOperator) (subquery : SelectStmt)
  | Nested (expr : Expr)
  | Case (operand : option Expr) (when_clauses : list (Expr * Expr)) (else_clause : option Expr)
  | Cast (expr : Expr) (to_type : CastTargetType) (try_cast : bool)
  | MatchAgainst (columns : list string) (query : bytes)
  | Placeholder (idx : nat).
Set Elimination Schemes.
Arguments Expr : clear implicits.

(** [Expr::from_value] *)
Definition from_value {S W} (v : Value) : Expr S W :=
  match v with
  | VNull => ENull
  | VInteger z => IntegerLiteral z
  | VReal bits => RealLiteral bits
  | VText t => StringLiteral t
  | VBlob b => BlobLiteral b
  end.

(** ** Interfaces *)

Class StdFns := mkStdFns {
  to_uppercase : bytes → bytes;
  to_lowercase : bytes → bytes;
  is_alphanumeric : Z → bool;
  powi : Z → Z → Z;
  powf : Z → Z → Z;
  cbrt : Z → Z;
  tokenize : bytes → list bytes;
}.

(** [ExecResult] *)
Inductive ExecResult : Type :=
  | ExecOk (message : string)
  | RowsAffected (count : Z) (message : string)
  | QueryResult (columns : list string) (rows : list Row)
  | Explain (plan : string).

(** The part of the VM's state that evaluation reads or changes itself; the
    rest is [vm_rest]. *)
Abbreviation ColMap := (gmap string nat).
Record VM {Rest : Type} := mkVM {
  current_params : list Value;
  outer_rows : list (Row * ColMap);
  window_results : option (list (list Value));
  current_window_row_idx : nat;
  session_vars : gmap bytes bytes;
  vm_rest : Rest;
}.
Arguments VM : clear implicits.
Definition set_outer_rows {R} (l : list (Row * ColMap)) (s : VM R) : VM R :=
  mkVM R (current_params s) l (window_results s) (current_window_row_idx s) (session_vars s) (vm_rest s).

Class SelectExec (S R : Type) := exec_select : S → ST (VM R) ExecResult.
(** A function outside the model, from its name (in upper case) and the
    evaluation of its arguments. *)
Class OtherFunctions (R : Type) := other_function : string → list (ST (VM R) Value) → ST (VM R) Value.

(** ** Operators *)

Definition VBool (b : bool) : Value := VInteger (if b then 1 else 0).
Definition is_null (v : Value) : bool := match v with VNull => true | _ => false end.
(** A value that is neither NULL nor true. *)
Definition is_falsy (v : Value) : bool := negb (is_null v) && negb (is_truthy v).

(** [a.wrapping_add(b)] and the like on i64; division truncates. *)
Definition wrapping_add (a b : Z) : Z := as_i64 (a + b).
Definition wrapping_sub (a b : Z) : Z := as_i64 (a - b).
Definition wrapping_mul (a b : Z) : Z := as_i64 (a * b).
Definition wrapping_div (a b : Z) : Z := as_i64 (Z.quot a b).
Definition wrapping_rem (a b : Z) : Z := as_i64 (Z.rem a b).
Definition wrapping_neg (a : Z) : Z := as_i64 (- a).
Definition wrapping_abs (a : Z) : Z := as_i64 (Z.abs a).

(** An operation on doubles, on their bit patterns. *)
Definition f64_op (f : Z → Z → spec_float → spec_float → spec_float) (a b : spec_float) : Value :=
  VReal (bits_of_f64 (f 53 1024 a b)).
Definition f64_is_zero (f : spec_float) : bool := SFeqb f (S754_zero false).
(** The arithmetic of two integers, of doubles, or of one of each. *)
Definition arith (fi : Z → Z → Value) (ff : spec_float → spec_float → Value) (l r : Value) : Value :=
  match l, r with
  | VInteger a, VInteger b => fi a b
  | VReal a, VReal b => ff (f64_of_bits a) (f64_of_bits b)
  | VInteger a, VReal b => ff (f64_of_i64 a) (f64_of_bits b)
  | VReal a, VInteger b => ff (f64_of_bits a) (f64_of_i64 b)
  | _, _ => VNull
  end.
Definition on_ints (f : Z → Z → Value) (l r : Value) : Value :=
  match l, r with VInteger a, VInteger b => f a b | _, _ => VNull end.
(** [impl Display for Value] *)
Definition display (v : Value) : bytes :=
  match v with
  | VNull => [78; 85; 76; 76]
  | VInteger z => show_i64 z
  | VReal bits => show_f64 (f64_of_bits bits)
  | VText t => t
  | VBlob b => [120; 39] ++ hex_encode b ++ [39]
  end.
Definition cmp_is (l r : Value) (c : comparison) : bool := bool_decide (partial_cmp l r = Some c).
Definition cmp_is_not (l r : Value) (c : comparison) : bool :=
  match partial_cmp l r with Some o => bool_decide (o ≠ c) | None => false end.

Definition apply_binary_op `{StdFns} (op : BinaryOperator) (left right : Value) : Value :=
  if is_null left || is_null right then
    match op with
    | And => if is_falsy left || is_falsy right then VInteger 0 else VNull
    | Or => if is_truthy left || is_truthy right then VInteger 1 else VNull
    | _ => VNull
    end
  else
    match op with
    | FtsMatch =>
        match left, right with
        | VText t, VText pattern =>
            match tokenize pattern with
            | [] => VInteger 0
            | tokens => VBool (forallb (contains (lower_bytes t)) tokens)
            end
        | _, _ => VInteger 0
        end
    | Add => arith (λ a b, VInteger (wrapping_add a b)) (f64_op SFadd) left right
    | Subtract => arith (λ a b, VInteger (wrapping_sub a b)) (f64_op SFsub) left right
    | Multiply => arith (λ a b, VInteger (wrapping_mul a b)) (f64_op SFmul) left right
    | Divide =>
        arith (λ a b, if b =? 0 then VNull else VInteger (wrapping_div a b))
          (λ a b, if f64_is_zero b then VNull else f64_op SFdiv a b) left right
    | Modulo => on_ints (λ a b, if b =? 0 then VNull else VInteger (wrapping_rem a b)) left right
    | Equal => VBool (value_eq left right)
    | NotEqual => VBool (negb (value_eq left right))
    | LessThan => VBool (cmp_is left right Lt)
    | LessThanOrEqual => VBool (cmp_is_not left right Gt)
    | GreaterThan => VBool (cmp_is left right Gt)
    | GreaterThanOrEqual => VBool (cmp_is_not left right Lt)
    | And => VBool (is_truthy left && is_truthy right)
    | Or => VBool (is_truthy left || is_truthy right)
    | Concat => VText (display left ++ display right)
    | Xor => VBool (xorb (is_truthy left) (is_truthy right))
    | BitwiseOr => on_ints (λ a b, VInteger (Z.lor a b)) left right
    | BitwiseAnd => on_ints (λ a b, VInteger (Z.land a b)) left right
    | BitwiseXor => on_ints (λ a b, VInteger (Z.lxor a b)) left right
    | ShiftLeft => on_ints (λ a b, if (0 <=? b) && (b <? 64) then VInteger (as_i64 (Z.shiftl a b)) else VNull) left right
    | ShiftRight => on_ints (λ a b, if (0 <=? b) && (b <? 64) then VInteger (Z.shiftr a b) else VNull) left right
    end.

Definition apply_unary_op (op : UnaryOperator) (val : Value) : res Value :=
  match op with
  | Minus =>
      match val with
      | VInteger v => Ok (VInteger (wrapping_neg v))
      | VReal bits => Ok (VReal (Z.lxor bits (2 ^ 63)))
      | VNull => Ok VNull
      | _ => Err (TypeError "cannot negate non-numeric value")
      end
  | Not => if is_null val then Ok VNull else Ok (VBool (negb (is_truthy val)))
  end.

(** ** Columns *)

(** The key of a qualified column: every byte of the two names, in lower case,
    pushed as a character. *)
Definition push_lower (s : string) : bytes :=
  mjoin (map utf8_encode (lower_bytes (bytes_of_string s))).
Definition qualified_key (table column : string) : string :=
  string_of_bytes (push_lower table ++ 46 :: push_lower column).
(** A column of a row, by its name in the column map. *)
Definition lookup_cell (scope : Row * ColMap) (key : string) : option Value :=
  idx ← scope.2 !! key; Some (default VNull (scope.1 !! idx)).
(** The first of the keys in the innermost scope that has one. *)
Definition lookup_keys (keys : list string) (scope : Row * ColMap) : option Value :=
  foldr (λ key acc, match lookup_cell scope key with Some v => Some v | None => acc end) None keys.
Definition lookup_scopes (keys : list string) (scopes : list (Row * ColMap)) : option Value :=
  foldr (λ scope acc, match lookup_keys keys scope with Some v => Some v | None => acc end) None scopes.
Definition resolve_column (row : Row) (col_map : ColMap) (outer : list (Row * ColMap)) (table : option string) (column : string)
    : res Value :=
  let qualified := t ← table; lookup_scopes [qualified_key t column] ((row, col_map) :: rev outer) in
  match qualified with
  | Some v => Ok v
  | None =>
      let lower := to_ascii_lowercase column in
      match lookup_cell (row, col_map) column with
      | Some v => Ok v
      | None =>
          match (if String.eqb lower column then None else lookup_cell (row, col_map) lower) with
          | Some v => Ok v
          | None =>
              match lookup_scopes [column; lower] (rev outer) with
              | Some v => Ok v
              | None => Err (ColumnNotFound column)
              end
          end
      end
  end.

(** ** CAST *)

Definition f64_of_text (s : bytes) : option spec_float := parse_f64 (trim s).
(** [v.fract() == 0.0 && v.abs() < 9.2e18] *)
Definition small_integral (f : spec_float) : bool :=
  match f with
  | S754_zero _ => true
  | S754_finite _ m e =>
      if 0 <=? e then Zpos m * 2 ^ e <? 92 * 10 ^ 17
      else (Zpos m mod 2 ^ (- e) =? 0) && (Zpos m / 2 ^ (- e) <? 92 * 10 ^ 17)
  | _ => false
  end.
Definition hex_upper (l : bytes) : bytes := map (λ b, if (97 <=? b) && (b <=? 122) then b - 32 else b) (hex_encode l).
Definition cannot_cast (what to_type : string) (try_cast : bool) : res Value :=
  if try_cast then Ok VNull else Err (RuntimeError ("cannot cast " +:+ what +:+ " to " +:+ to_type)).
Definition quoted (s : bytes) : string := "'" +:+ string_of_bytes s +:+ "'".
(** A cast to text, where a BLOB gives [on_blob]. *)
Definition cast_text (on_blob : bytes → Value) (val : Value) : Value :=
  match val with
  | VText s => VText s
  | VInteger v => VText (show_i64 v)
  | VReal bits => VText (show_f64 (f64_of_bits bits))
  | VNull => VNull
  | VBlob b => on_blob b
  end.
Definition cast (to_type : CastTargetType) (try_cast : bool) (val : Value) : res Value :=
  match to_type with
  | CtInteger =>
      match val with
      | VInteger v => Ok (VInteger v)
      | VReal bits => Ok (VInteger (i64_of_f64 (f64_of_bits bits)))
      | VText s =>
          match parse_i64 (trim s), f64_of_text s with
          | Some i, _ => Ok (VInteger i)
          | None, Some f => Ok (VInteger (i64_of_f64 f))
          | None, None => cannot_cast (quoted s) "INTEGER" try_cast
          end
      | VBlob _ => cannot_cast "BLOB" "INTEGER" try_cast
      | VNull => Ok VNull
      end
  | CtReal =>
      match val with
      | VReal bits => Ok (VReal bits)
      | VInteger v => Ok (VReal (bits_of_f64 (f64_of_i64 v)))
      | VText s =>
          match f64_of_text s with
          | Some f => Ok (VReal (bits_of_f64 f))
          | None => cannot_cast (quoted s) "REAL" try_cast
          end
      | VBlob _ => cannot_cast "BLOB" "REAL" try_cast
      | VNull => Ok VNull
      end
  | CtNumeric =>
      match val with
      | VInteger v => Ok (VInteger v)
      | VReal bits =>
          let f := f64_of_bits bits in
          Ok (if small_integral f then VInteger (i64_of_f64 f) else VReal bits)
      | VText s =>
          match parse_i64 (trim s), f64_of_text s with
          | Some i, _ => Ok (VInteger i)
          | None, Some f => Ok (VReal (bits_of_f64 f))
          | None, None => cannot_cast (quoted s) "NUMERIC" try_cast
          end
      | VBlob _ => cannot_cast "BLOB" "NUMERIC" try_cast
      | VNull => Ok VNull
      end
  | CtText => Ok (cast_text (λ b, VText (if utf8_valid b then b else hex_upper b)) val)
  | CtBlob => Ok (match cast_text VBlob val with VText t => VBlob t | v => v end)
  | CtDate | CtTime | CtTimestamp | CtJson => Ok (cast_text (λ _, VNull) val)
  end.

(** ** Functions *)

(** [Value::Text(s) => f(s)], any other value gives [other]. *)
Definition on_text (f : bytes → Value) (other : Value → Value) (v : Value) : Value :=
  match v with VText s => f s | _ => other v end.
Definition on_integer (f : Z → Value) (v : Value) : Value := match v with VInteger z => f z | _ => VNull end.
(** Numbers of either kind; NULL for anything else. *)
Definition on_number (fi : Z → Value) (ff : Z → Value) (v : Value) : Value :=
  match v with VInteger z => fi z | VReal bits => ff bits | _ => VNull end.

Definition length_of (v : Value) : Value :=
  match v with
  | VText s => VInteger (as_i64 (zlen (chars s)))
  | VBlob b => VInteger (as_i64 (zlen b))
  | VNull => VNull
  | _ => VInteger (as_i64 (zlen (chars (display v))))
  end.
Definition typeof (v : Value) : Value :=
  VText (bytes_of_string match v with
                         | VNull => "null" | VInteger _ => "integer" | VReal _ => "real" | VText _ => "text" | VBlob _ => "blob"
                         end).
(** [(v - 1).max(0) as usize]; the subtraction overflows at the least i64. *)
Definition start_index (v : Z) : res Z := if v =? - 2 ^ 63 then Panic else Ok (Z.max 0 (v - 1)).
Definition substr (s : bytes) (start : Z) (len : option Z) : bytes :=
  let cs := chars s in
  let end_ := match len with Some l => Z.min (start + l) (zlen cs) | None => zlen cs end in
  if zlen cs <=? start then [] else of_chars (sub cs start (end_ - start)).
Definition instr (haystack needle : Value) : Value :=
  match haystack, needle with
  | VText s, VText p =>
      VInteger (match find_sub p s with Some b => as_i64 (zlen (chars (take b s)) + 1) | None => 0 end)
  | VNull, _ | _, VNull => VNull
  | _, _ => VInteger 0
  end.
Definition overlay (s placing : bytes) (from replace_len : Z) : bytes :=
  let cs := chars s in
  let before := sub cs 0 (Z.min from (zlen cs)) in
  let after_start := Z.min (from + replace_len) (zlen cs) in
  of_chars before ++ placing ++ of_chars (sub cs after_start (zlen cs - after_start)).
(** Rounding a double to an integral one. *)
Definition round_f64 (f : bool → Z → Z → Z) (x : spec_float) : spec_float :=
  match x with
  | S754_finite s m e =>
      if 0 <=? e then x
      else let n := f s (Zpos m) (2 ^ (- e)) in
           if n =? 0 then S754_zero s else binary_normalize 53 1024 (if s then - n else n) 0 s
  | _ => x
  end.
(** [f64::ceil], [f64::floor] and [f64::round] (half away from zero), of the
    magnitude [m / d] with its sign. *)
Definition f64_ceil : spec_float → spec_float := round_f64 (λ s m d, if s then m / d else (m + d - 1) / d).
Definition f64_floor : spec_float → spec_float := round_f64 (λ s m d, if s then (m + d - 1) / d else m / d).
Definition f64_round : spec_float → spec_float := round_f64 (λ _ m d, (2 * m + d) / (2 * d)).
(** [f64::signum]: one with the sign, NaN for NaN. *)
Definition f64_signum (bits : Z) : Z :=
  match f64_of_bits bits with
  | S754_nan => bits
  | _ => (if Z.testbit bits 63 then sign_bit true else 0) + 0x3FF0000000000000
  end.
Definition round_digits `{StdFns} (bits digits : Z) : Z :=
  let factor := f64_of_bits (powi (bits_of_f64 (f64_of_i64 10)) digits) in
  bits_of_f64 (SFdiv 53 1024 (f64_round (SFmul 53 1024 (f64_of_bits bits) factor)) factor).
(** [x as i32] *)
Definition as_i32 (x : Z) : Z := let u := x mod 2 ^ 32 in if u <? 2 ^ 31 then u else u - 2 ^ 32.
(** [a.checked_pow(n)] at i64. *)
Definition checked_pow (a n : Z) : option Z :=
  if (2 <=? Z.abs a) && (64 <=? n) then None
  else let p := a ^ (if Z.abs a <=? 1 then Z.min n (2 + n mod 2) else n) in if decide (is_i64 p) then Some p else None.
Definition power `{StdFns} (base exp : Value) : Value :=
  match base, exp with
  | VInteger a, VInteger b =>
      if 0 <=? b then
        match checked_pow a (as_u32 b) with
        | Some v => VInteger v
        | None => VReal (powi (bits_of_f64 (f64_of_i64 a)) (as_i32 b))
        end
      else VReal (powi (bits_of_f64 (f64_of_i64 a)) (as_i32 b))
  | VReal a, VInteger b => VReal (powi a (as_i32 b))
  | VInteger a, VReal b => VReal (powf (bits_of_f64 (f64_of_i64 a)) b)
  | VReal a, VReal b => VReal (powf a b)
  | _, _ => VNull
  end.
(** [(1..=v).product()] *)
Fixpoint factorial (n : nat) : Z := match n with O => 1 | S n' => Z.of_nat n * factorial n' end.
Definition factorial_of (v : Value) : res Value :=
  match v with
  | VInteger z =>
      if z <? 0 then Err (RuntimeError "FACTORIAL requires a non-negative integer")
      else if 20 <? z then Err (RuntimeError ("FACTORIAL(" +:+ pretty z +:+ ") overflows i64; maximum supported value is 20"))
      else Ok (VInteger (factorial (Z.to_nat z)))
  | _ => Ok VNull
  end.
(** [__IS_DISTINCT_FROM__] *)
Definition is_distinct (a b : Value) : bool :=
  match a, b with
  | VNull, VNull => false
  | VNull, _ | _, VNull => true
  | _, _ => negb (value_eq a b)
  end.
Definition nullif (a b : Value) : Value := if value_eq a b then VNull else a.
(** [format!("{v:X}")] of an i64: its two's complement. *)
Fixpoint hex_digits (fuel : nat) (n : Z) (acc : bytes) : bytes :=
  match fuel with
  | O => acc
  | S fuel =>
      let d := n mod 16 in
      let acc := (if d <? 10 then 48 + d else 55 + d) :: acc in
      if n <? 16 then acc else hex_digits fuel (n / 16) acc
  end.
Definition hex (v : Value) : Value :=
  match v with
  | VBlob b => VText (hex_upper b)
  | VInteger z => VText (hex_digits 16 (as_u64 z) [])
  | _ => VNull
  end.
Definition unicode (v : Value) : Value :=
  on_text (λ s, match chars s with c :: _ => VInteger c | [] => VNull end) (λ _, VNull) v.

(** *** EXTRACT *)

(** [format!("{:0w$}", v)] *)
Definition pad (w : nat) (v : Z) : bytes :=
  let ds := show_N (Z.abs v) in
  let sign := if v <? 0 then [45] else [] in
  sign ++ replicate (w - length sign - length ds) 48 ++ ds.
(** The date and time of a number of seconds since 1970. *)
Definition epoch_text (ts : Z) : bytes :=
  let epoch_days := Z.quot ts 86400 in
  let day_secs := ts mod 86400 in
  let n_days := epoch_days + 719468 in
  let era := Z.quot (if 0 <=? n_days then n_days else n_days - 146096) 146097 in
  let doe := n_days - era * 146097 in
  let yoe := Z.quot (doe - Z.quot doe 1460 + Z.quot doe 36524 - Z.quot doe 146096) 365 in
  let y := yoe + era * 400 in
  let doy := doe - (365 * yoe + Z.quot yoe 4 - Z.quot yoe 100) in
  let mp := Z.quot (5 * doy + 2) 153 in
  let d := doy - Z.quot (153 * mp + 2) 5 + 1 in
  let m := if mp <? 10 then mp + 3 else mp - 9 in
  let y := if m <=? 2 then y + 1 else y in
  pad 4 y ++ 45 :: pad 2 m ++ 45 :: pad 2 d ++ 32 :: pad 2 (Z.quot day_secs 3600)
    ++ 58 :: pad 2 (Z.quot (Z.rem day_secs 3600) 60) ++ 58 :: pad 2 (Z.rem day_secs 60).
(** [t.get(a..b).and_then(|s| s.parse().ok())] *)
Definition parse_field (t : bytes) (a b : Z) : option Z :=
  if b <=? zlen t then parse_i64 (sub t a (b - a)) else None.
Definition upper_bytes (l : bytes) : bytes := map (λ b, if (97 <=? b) && (b <=? 122) then b - 32 else b) l.
Definition extract_field (field t : bytes) : option Z :=
  let f := string_of_bytes field in
  if String.eqb f "YEAR" then parse_field t 0 4
  else if String.eqb f "MONTH" then parse_field t 5 7
  else if String.eqb f "DAY" then parse_field t 8 10
  else if String.eqb f "HOUR" then parse_field t 11 13
  else if String.eqb f "MINUTE" then parse_field t 14 16
  else if String.eqb f "SECOND" then parse_field t 17 19
  else None.
Definition date_extract (field : bytes) (val : Value) : Value :=
  let of_text t := match extract_field (upper_bytes field) t with Some v => VInteger v | None => VNull end in
  match val with
  | VText s => of_text s
  | VInteger ts => of_text (epoch_text ts)
  | _ => VNull
  end.

Section Eval.
Context {SelectStmt WindowSpec R : Type} `{StdFns} `{!SelectExec SelectStmt R} `{!OtherFunctions R}.
Abbreviation Ev := (ST (VM R) Value).
Implicit Types (args items : list Ev).

(** [self.eval_expr(&args[i], ..)?] *)
Definition arg args (i : nat) : Ev := match args !! i with Some m => m | None => st_lift Panic end.
(** [if args.len() < n { return Ok(Value::Null) }] *)
Definition need (n : nat) args (body : Ev) : Ev := if decide (length args < n)%nat then mret VNull else body.
Definition fn1 (f : Value → Value) args : Ev := need 1 args (v ← arg args 0; mret (f v)).
Definition fn2 (f : Value → Value → Value) args : Ev :=
  need 2 args (a ← arg args 0; b ← arg args 1; mret (f a b)).
(** [match v { Value::Text(s) => s, _ => return Ok(Value::Null) }] *)
Definition with_text (v : Value) (k : bytes → Ev) : Ev := match v with VText s => k s | _ => mret VNull end.
Definition with_integer (v : Value) (k : Z → Ev) : Ev := match v with VInteger z => k z | _ => mret VNull end.

(** COALESCE *)
Fixpoint coalesce args : Ev :=
  match args with
  | [] => mret VNull
  | a :: args' => v ← a; if is_null v then coalesce args' else mret v
  end.
Definition fn_substr args : Ev :=
  need 2 args (
    s ← arg args 0;
    with_text s (λ s,
      start ← arg args 1;
      with_integer start (λ v,
        start ← st_lift (start_index v);
        len ← (if decide (2 < length args)%nat
               then l ← arg args 2; mret (match l with VInteger v => Some (Z.max 0 v) | _ => None end)
               else mret None);
        mret (VText (substr s start len))))).
Definition fn_replace args : Ev :=
  need 3 args (
    s ← arg args 0;
    with_text s (λ s,
      from ← arg args 1;
      with_text from (λ from, to ← arg args 2; with_text to (λ to, mret (VText (str_replace from to s)))))).
(** TRIM, LTRIM and RTRIM: an optional second argument lists the characters. *)
Definition fn_trim (f : (Z → bool) → bytes → bytes) args : Ev :=
  need 1 args (
    val ← arg args 0;
    if decide (1 < length args)%nat then
      set ← arg args 1;
      mret (match val, set with VText s, VText set => VText (f (in_set set) s) | v, _ => v end)
    else mret (on_text (λ s, VText (f is_whitespace s)) id val)).
Definition fn_round args : Ev :=
  need 1 args (
    val ← arg args 0;
    digits ← (if decide (1 < length args)%nat
              then d ← arg args 1; mret (match d with VInteger v => as_u32 (Z.max 0 v) | _ => 0 end)
              else mret 0);
    mret (on_number VInteger (λ bits, VReal (round_digits bits (as_i32 digits))) val)).
Definition fn_overlay args : Ev :=
  need 3 args (
    s ← arg args 0;
    with_text s (λ s,
      placing ← arg args 1;
      with_text placing (λ placing,
        from ← arg args 2;
        with_integer from (λ v,
          from ← st_lift (start_index v);
          replace_len ← (if decide (3 < length args)%nat
                         then l ← arg args 3; mret (match l with VInteger v => Z.max 0 v | _ => zlen (chars placing) end)
                         else mret (zlen (chars placing)));
          mret (VText (overlay s placing from replace_len)))))).
(** CHAR *)
Fixpoint fn_char args (acc : bytes) : Ev :=
  match args with
  | [] => mret (VText acc)
  | a :: args' =>
      v ← a;
      fn_char args' (match v with
                     | VInteger z => match char_from_u32 (as_u32 z) with Some c => acc ++ utf8_encode c | None => acc end
                     | _ => acc
                     end)
  end.
Definition fn_date_extract args : Ev :=
  need 2 args (
    field ← arg args 0;
    with_text field (λ field, val ← arg args 1; mret (date_extract field val))).
Definition fn_factorial args : Ev := need 1 args (v ← arg args 0; st_lift (factorial_of v)).
Definition fn_ifnull args : Ev := need 2 args (v ← arg args 0; if is_null v then arg args 1 else mret v).
(** [__win]: the value a window function has for the current row. *)
Definition fn_win (args : list (Expr SelectStmt WindowSpec)) : Ev :=
  let idx := match args with IntegerLiteral i :: _ => as_u64 i | _ => 0 end in
  st_gets (λ s, match window_results s with
                | None => Ok VNull
                | Some results => r ← index results (Z.of_nat (current_window_row_idx s)); index r idx
                end).
Definition session_text (user : option bytes) : Value :=
  match default [] user with [] => VNull | u => VText u end.
Definition jwt_sub : bytes := bytes_of_string "request.jwt.sub".
Definition fn_auth_uid : Ev := st_gets (λ s, Ok (session_text (session_vars s !! jwt_sub))).
Definition fn_current_user : Ev :=
  st_gets (λ s, Ok (session_text (match session_vars s !! jwt_sub with
                                  | Some u => Some u
                                  | None => session_vars s !! bytes_of_string "kkdb.current_user"
                                  end))).
Definition fn_current_setting args : Ev :=
  need 1 args (
    key ← arg args 0;
    with_text key (λ key,
      st_gets (λ s, Ok (match session_vars s !! key with Some v => VText v | None => VNull end)))).

Definition is_name (n : string) (names : list string) : bool := existsb (eq_ignore_ascii_case n) names.
Definition OTHER_FUNCTIONS : list string :=
  ["JSON_EXTRACT"; "JSON_EXTRACT_TEXT"; "JSON_ARRAY"; "JSON_MEMBER_OF"; "JSON_OBJECT"; "JSON_TYPE"; "JSON_VALID";
   "JSON_LENGTH"; "JSON_KEYS"; "JSON_CONTAINS"; "JSON_REMOVE"; "JSON_SET"; "JSON_INSERT"; "JSON_REPLACE"; "JSON_QUOTE";
   "JSON_UNQUOTE"; "REGEXP_LIKE"; "RANDOM"; "RAND"; "VEC"; "VEC_SEARCH"; "VEC_DIM"; "VEC_DISTANCE"; "VEC_NORMALIZE"]%string.

Definition eval_function (name : string) (exprs : list (Expr SelectStmt WindowSpec)) args : Ev :=
  let named n := eq_ignore_ascii_case name n in
  if is_name name ["COUNT"; "SUM"; "AVG"; "MIN"; "MAX"]%string
  then match args with [] => mret (VInteger 1) | a :: _ => a end
  else if named "ABS"%string then fn1 (on_number (λ v, VInteger (wrapping_abs v)) (λ bits, VReal (Z.land bits (2 ^ 63 - 1)))) args
  else if named "UPPER"%string then fn1 (on_text (λ s, VText (to_uppercase s)) id) args
  else if named "LOWER"%string then fn1 (on_text (λ s, VText (to_lowercase s)) id) args
  else if named "LENGTH"%string then fn1 length_of args
  else if named "TYPEOF"%string then fn1 typeof args
  else if named "COALESCE"%string then coalesce args
  else if named "IFNULL"%string then fn_ifnull args
  else if is_name name ["SUBSTR"; "SUBSTRING"]%string then fn_substr args
  else if named "REPLACE"%string then fn_replace args
  else if named "TRIM"%string then fn_trim trim_matches args
  else if named "LTRIM"%string then fn_trim trim_start_matches args
  else if named "RTRIM"%string then fn_trim trim_end_matches args
  else if named "NULLIF"%string then fn2 nullif args
  else if named "ROUND"%string then fn_round args
  else if is_name name ["CEIL"; "CEILING"]%string
  then fn1 (on_number VInteger (λ bits, VReal (bits_of_f64 (f64_ceil (f64_of_bits bits))))) args
  else if named "FLOOR"%string
  then fn1 (on_number VInteger (λ bits, VReal (bits_of_f64 (f64_floor (f64_of_bits bits))))) args
  else if named "INSTR"%string then fn2 instr args
  else if named "OVERLAY"%string then fn_overlay args
  else if named "SIGN"%string then fn1 (on_number (λ v, VInteger (Z.sgn v)) (λ bits, VReal (f64_signum bits))) args
  else if named "__IS_DISTINCT_FROM__"%string then fn2 (λ a b, VBool (is_distinct a b)) args
  else if named "__IS_NOT_DISTINCT_FROM__"%string then fn2 (λ a b, VBool (negb (is_distinct a b))) args
  else if named "BITWISE_NOT"%string then fn1 (on_integer (λ v, VInteger (Z.lnot v))) args
  else if named "CBRT"%string
  then fn1 (on_number (λ v, VReal (cbrt (bits_of_f64 (f64_of_i64 v)))) (λ bits, VReal (cbrt bits))) args
  else if named "FACTORIAL"%string then fn_factorial args
  else if is_name name ["POWER"; "POW"]%string then fn2 power args
  else if String.eqb name "__win" then fn_win exprs
  else if named "ARRAY_GET"%string then mret VNull
  else if named "MATCH_AGAINST"%string then mret (VInteger 0)
  else if named "STARTS_WITH"%string
  then fn2 (λ s p, match s, p with VText s, VText p => VBool (starts_with p s) | _, _ => VNull end) args
  else if named "HEX"%string then fn1 hex args
  else if named "UNICODE"%string then fn1 unicode args
  else if named "CHAR"%string then fn_char args []
  else if named "DATE_EXTRACT"%string then fn_date_extract args
  else if is_name name ["auth.uid"; "auth_uid"]%string then fn_auth_uid
  else if named "current_setting"%string then fn_current_setting args
  else if named "current_user"%string then fn_current_user
  else if is_name name OTHER_FUNCTIONS then other_function name args
  else st_err (RuntimeError ("unknown function: " +:+ name)).

(** ** Predicates *)

(** The scan of an IN list: was the value found, and was a NULL seen before. *)
Fixpoint in_list (val : Value) items (has_null : bool) : ST (VM R) (bool * bool) :=
  match items with
  | [] => mret (false, has_null)
  | item :: items' =>
      v ← item;
      if is_null v then in_list val items' true
      else if value_eq val v then mret (true, has_null)
      else in_list val items' has_null
  end.
(** What the scan means for IN and, [negated], for NOT IN. *)
Definition membership (negated : bool) (found_null : bool * bool) : Value :=
  let '(found, has_null) := found_null in
  if found then VBool (negb negated) else if has_null then VNull else VBool negated.
(** The scan of the rows of a subquery until [hit] holds of a row's first
    value. *)
Fixpoint scan_rows (hit : Value → bool) (rows : list Row) (has_null : bool) : bool * bool :=
  match rows with
  | [] => (false, has_null)
  | [] :: rows' => scan_rows hit rows' has_null
  | (v :: _) :: rows' =>
      if is_null v then scan_rows hit rows' true
      else if hit v then (true, has_null)
      else scan_rows hit rows' has_null
  end.
Definition like_op (val pat : Value) (escape_char : option Z) (case_insensitive negated : bool) : res Value :=
  if is_null val || is_null pat then Ok VNull
  else
    match val, pat with
    | VText s, VText p => m ← like_match s p escape_char case_insensitive; Ok (VBool (xorb m negated))
    | _, _ => Ok (VInteger 0)
    end.
Definition between (val lo hi : Value) (negated : bool) : Value :=
  if is_null val || is_null lo || is_null hi then VNull
  else VBool (xorb (cmp_is_not val lo Lt && cmp_is_not val hi Gt) negated).
(** [left MATCH right] on the texts of a row; an error counts as no match. *)
Definition row_text (row : Row) : bytes :=
  let texts := omap (λ v, match v with VText t => Some (to_lowercase t) | _ => None end) row in
  match texts with [] => [] | t :: ts => t ++ mjoin (map (cons 32) ts) end.
Definition fts_match (row : Row) (right : Ev) : Ev := λ s,
  match right s with
  | (Ok (VText keyword), s') =>
      (Ok (match tokenize keyword with [] => VInteger 0 | tokens => VBool (forallb (contains (row_text row)) tokens) end), s')
  | (Ok _, s') | (Err _, s') => (Ok (VInteger 0), s')
  | (r, s') => (r, s')
  end.
(** [MATCH (columns) AGAINST (query)]: the share of the query's words that
    occur in the columns. *)
Fixpoint split_words (cs word : list Z) : list bytes :=
  let flush := match word with [] => [] | _ => [to_lowercase (trim (of_chars (rev word)))] end in
  match cs with
  | [] => flush
  | c :: cs' => if is_alphanumeric c then split_words cs' (c :: word) else flush ++ split_words cs' []
  end.
Definition query_words (query : bytes) : list bytes := filter (λ w, w ≠ []) (split_words (chars query) []).
Definition match_against (row : Row) (col_map : ColMap) (columns : list string) (query : bytes) : Value :=
  let text v := match v with Some (VText t) => 32 :: t | _ => [] end in
  let cells := match columns with
               | [] => map Some row
               | _ => map (λ name, idx ← col_map !! to_ascii_lowercase name; row !! idx) columns
               end in
  let haystack := to_lowercase (mjoin (map text cells)) in
  let tokens := query_words query in
  let matched := length (filter (λ w, contains haystack w = true) tokens) in
  VReal (match trim query, tokens, matched with
         | [], _, _ | _, [], _ | _, _, O => 0
         | _, _, _ => bits_of_f64 (SFdiv 53 1024 (f64_of_i64 (Z.of_nat matched)) (f64_of_i64 (zlen tokens)))
         end).
(** [INTERVAL value field] *)
Definition interval (val : Value) (leading_field : option bytes) : Value :=
  match leading_field with
  | None => val
  | Some field =>
      match val with
      | VText s => VText (trim s ++ 32 :: field)
      | VInteger v => VText (show_i64 v ++ 32 :: field)
      | VReal bits => VText (show_f64 (f64_of_bits bits) ++ 32 :: field)
      | _ => VNull
      end
  end.

(** ** Subqueries *)

(** [self.outer_rows.push(..); let result = self.exec_select(q);
    self.outer_rows.pop();] *)
Definition with_outer_row (row : Row) (col_map : ColMap) (query : SelectStmt) : ST (VM R) ExecResult := λ s,
  let '(r, s') := exec_select query (set_outer_rows (outer_rows s ++ [(row, col_map)]) s) in
  (r, set_outer_rows (removelast (outer_rows s')) s').
Definition subquery_rows (what : string) (row : Row) (col_map : ColMap) (query : SelectStmt) : ST (VM R) (list Row) :=
  result ← with_outer_row row col_map query;
  match result with
  | QueryResult _ rows => mret rows
  | _ => st_err (Internal (what +:+ " did not return rows"))
  end.
Definition scalar_subquery (rows : list Row) : Value :=
  match rows with [] => VNull | first_row :: _ => default VNull (head first_row) end.

(** ** CASE *)

Fixpoint simple_case (op_val : Value) (whens : list (Ev * Ev)) (els : Ev) : Ev :=
  match whens with
  | [] => els
  | (w, t) :: whens' =>
      v ← w;
      if negb (is_null op_val) && negb (is_null v) && value_eq op_val v then t else simple_case op_val whens' els
  end.
Fixpoint searched_case (whens : list (Ev * Ev)) (els : Ev) : Ev :=
  match whens with
  | [] => els
  | (c, t) :: whens' => v ← c; if is_truthy v then t else searched_case whens' els
  end.

Definition eval_and (l r : Ev) : Ev :=
  l ← l;
  if is_falsy l then mret (VInteger 0)
  else
    r ← r;
    mret (if is_falsy r then VInteger 0 else if is_null l || is_null r then VNull else VInteger 1).
Definition eval_or (l r : Ev) : Ev :=
  l ← l;
  if is_truthy l then mret (VInteger 1)
  else
    r ← r;
    mret (if is_truthy r then VInteger 1 else if is_null l || is_null r then VNull else VInteger 0).
(** [val op ANY (subquery)] and [val op ALL (subquery)] *)
Definition any_rows (op : BinaryOperator) (val : Value) (rows : list Row) : Value :=
  let '(found, has_null) := scan_rows (λ v, is_truthy (apply_binary_op op val v)) rows false in
  if found then VInteger 1 else if has_null then VNull else VInteger 0.
Definition all_rows (op : BinaryOperator) (val : Value) (rows : list Row) : Value :=
  let '(missed, has_null) := scan_rows (λ v, negb (is_truthy (apply_binary_op op val v))) rows false in
  if missed then VInteger 0 else if has_null then VNull else VInteger 1.

(** ** [VM::eval_expr] *)

Fixpoint eval_expr (row : Row) (col_map : ColMap) (expr : Expr SelectStmt WindowSpec) : Ev :=
  let eval := eval_expr row col_map in
  match expr with
  | IntegerLiteral v => mret (VInteger v)
  | RealLiteral bits => mret (VReal bits)
  | StringLiteral s => mret (VText s)
  | BlobLiteral b => mret (VBlob b)
  | ENull => mret VNull
  | Placeholder idx =>
      st_gets (λ s,
        let n := length (current_params s) in
        match current_params s !! idx with
        | Some v => Ok v
        | None => Err (RuntimeError ("parameter index " +:+ pretty idx +:+ " out of range (" +:+ pretty n
                    +:+ " parameter" +:+ (if decide (n = 1%nat) then "" else "s") +:+ " supplied)"))
        end)
  | ColumnRef table column => st_gets (λ s, resolve_column row col_map (outer_rows s) table column)
  | BinaryOp e1 And e2 => eval_and (eval e1) (eval e2)
  | BinaryOp e1 Or e2 => eval_or (eval e1) (eval e2)
  | BinaryOp _ FtsMatch e2 => fts_match row (eval e2)
  | BinaryOp e1 op e2 => l ← eval e1; r ← eval e2; mret (apply_binary_op op l r)
  | UnaryOp op e => v ← eval e; st_lift (apply_unary_op op v)
  | IsNull e negated => v ← eval e; mret (VBool (xorb (is_null v) negated))
  | InList e items negated =>
      val ← eval e;
      if is_null val then mret VNull
      else found_null ← in_list val (map eval items) false; mret (membership negated found_null)
  | ELike e pattern escape_char case_insensitive negated =>
      val ← eval e; pat ← eval pattern; st_lift (like_op val pat escape_char case_insensitive negated)
  | Between e low high negated =>
      val ← eval e; lo ← eval low; hi ← eval high; mret (between val lo hi negated)
  | Function name args _ => eval_function name args (map eval args)
  | Nested e => eval e
  | Subquery query => rows ← subquery_rows "subquery" row col_map query; mret (scalar_subquery rows)
  | InSubquery e query negated =>
      val ← eval e;
      if is_null val then mret VNull
      else rows ← subquery_rows "subquery" row col_map query; mret (membership negated (scan_rows (value_eq val) rows false))
  | AnyOp e op query =>
      val ← eval e;
      if is_null val then mret VNull
      else rows ← subquery_rows "subquery in ANY" row col_map query; mret (any_rows op val rows)
  | AllOp e op query =>
      val ← eval e;
      if is_null val then mret VNull
      else rows ← subquery_rows "subquery in ALL" row col_map query; mret (all_rows op val rows)
  | Exists query =>
      rows ← subquery_rows "subquery" row col_map query;
      mret (VBool match rows with [] => false | _ => true end)
  | Case operand whens els =>
      let els := match els with Some e => eval e | None => mret VNull end in
      let whens := map (λ '(w, t), (eval w, eval t)) whens in
      match operand with
      | Some e => op_val ← eval e; simple_case op_val whens els
      | None => searched_case whens els
      end
  | Cast e to_type try_cast => v ← eval e; st_lift (cast to_type try_cast v)
  | Collate e _ => eval e
  | Interval e leading_field => v ← eval e; mret (interval v leading_field)
  | WindowFunction _ => st_err (RuntimeError "window function cannot be evaluated in scalar context")
  | MatchAgainst columns query => mret (match_against row col_map columns query)
  end.
End Eval.
