(* ===== verification/ExprTypes.v ===== *)
(** Type safety of expression evaluation (src/src/vm/eval_expr.rs): on typed
    rows, parameters and literals an expression returns a typed value or an
    error, in a state as well typed; without subqueries and without functions
    outside the model it always returns, and it panics only through the
    functions that compute an index from an argument. *)
From S2P Require Import Prelude Values Text Like Expr.
From Stdlib Require Import Floats.SpecFloat.

(** ** Typed values and states *)

Definition value_wf (v : Value) : Prop :=
  match v with
  | VNull => True
  | VInteger z => is_i64 z
  | VReal bits => is_u64 bits
  | VText t => text_ok t
  | VBlob b => bytes_ok b
  end.
Record vm_ok {R} (s : VM R) : Prop := mkVmOk {
  vm_params : Forall value_wf (current_params s);
  vm_outer : Forall (λ o, Forall value_wf o.1) (outer_rows s);
  vm_windows : ∀ results, window_results s = Some results → Forall (Forall value_wf) results;
  vm_session : map_Forall (λ _ v, text_ok v) (session_vars s);
}.
(** What the standard library functions promise. *)
Class StdLaws `{StdFns} : Prop := {
  upper_text t : text_ok t → text_ok (to_uppercase t);
  lower_text t : text_ok t → text_ok (to_lowercase t);
  powi_u64 a n : is_u64 (powi a n);
  powf_u64 a b : is_u64 (powf a b);
  cbrt_u64 a : is_u64 (cbrt a);
}.

(** ** Subexpressions *)

(** What an expression may contain: [Plain], neither the functions that panic
    on an index nor code outside this model; [Indexing], those functions too;
    [Calling], subqueries and the functions of [OTHER_FUNCTIONS] as well, whose
    code may panic (the JSON functions slice a text that is a lone bracket) and
    need not return (a view that names itself). *)
Inductive Mode : Type := Plain | Indexing | Calling.
#[export] Instance Mode_eq_dec : EqDecision Mode.
Proof. solve_decision. Defined.

Section Syntax.
Context {S W : Type}.
Implicit Types e : Expr S W.

Definition subs e : list (Expr S W) :=
  match e with
  | Interval e _ | Collate e _ | UnaryOp _ e | IsNull e _ | InSubquery e _ _ | AnyOp e _ _ | AllOp e _ _ | Nested e | Cast e _ _ => [e]
  | BinaryOp l _ r => [l; r]
  | InList e l _ => e :: l
  | ELike e p _ _ _ => [e; p]
  | Between e lo hi _ => [e; lo; hi]
  | Function _ args _ => args
  | Case o ws els => option_list o ++ mjoin (map (λ '(w, t), [w; t]) ws) ++ option_list els
  | _ => []
  end.
Lemma Expr_ind (P : Expr S W → Prop) : (∀ e, Forall P (subs e) → P e) → ∀ e, P e.
Proof.
  intros H. fix IH 1. intros e. apply H. destruct e; simpl; repeat (constructor; [apply IH|]); try constructor.
  - induction list as [|x l IHl]; constructor; [apply IH|done].
  - induction args as [|x l IHl]; constructor; [apply IH|done].
  - apply Forall_app_2; [destruct operand; repeat constructor; apply IH|]. apply Forall_app_2.
    + induction when_clauses as [|[w t] l IHl]; simpl; [constructor|]. constructor; [apply IH|]. constructor; [apply IH|done].
    + destruct else_clause; repeat constructor; apply IH.
Qed.

(** The functions that panic on an argument: an index is decremented or used
    unchecked. *)
Definition INDEX_FUNCTIONS : list string := ["SUBSTR"; "SUBSTRING"; "OVERLAY"; "__win"]%string.
(** Typed literals; the functions and subqueries that the mode admits. *)
Definition here_ok (mode : Mode) e : Prop :=
  match e with
  | IntegerLiteral v => is_i64 v
  | RealLiteral bits => is_u64 bits
  | StringLiteral s => text_ok s
  | BlobLiteral b => bytes_ok b
  | Interval _ (Some field) => text_ok field
  | Function name _ _ => (mode = Plain → is_name name INDEX_FUNCTIONS = false) ∧ (mode ≠ Calling → is_name name OTHER_FUNCTIONS = false)
  | Subquery _ | InSubquery _ _ _ | Exists _ | AnyOp _ _ _ | AllOp _ _ _ => mode = Calling
  | _ => True
  end.
Inductive sub_expr : Expr S W → Expr S W → Prop :=
  | sub_here e : sub_expr e e
  | sub_below e1 e2 e3 : e2 ∈ subs e3 → sub_expr e1 e2 → sub_expr e1 e3.
Definition expr_ok (mode : Mode) e : Prop := ∀ e', sub_expr e' e → here_ok mode e'.
Lemma expr_ok_unfold mode e : expr_ok mode e ↔ here_ok mode e ∧ Forall (expr_ok mode) (subs e).
Proof.
  split.
  - intros He. split; [apply He, sub_here|]. apply Forall_forall. intros e2 H2 e1 H1. apply He. by eapply sub_below.
  - intros [He Hs] e' Hsub. inversion Hsub as [|e1 e2 e3 H2 H1]; subst; [done|]. rewrite Forall_forall in Hs. by apply (Hs e2).
Qed.
End Syntax.

(** ** Typed computations *)

(** The state stays typed, and the rows of the enclosing queries are what they
    were. *)
Definition vm_step {R} (s s' : VM R) : Prop := vm_ok s' ∧ outer_rows s' = outer_rows s.
Lemma vm_step_refl {R} (s : VM R) : vm_ok s → vm_step s s.
Proof. by split. Qed.
#[export] Hint Resolve vm_step_refl : core.
(** A computation that keeps the state typed and gives a value in [Q]; it
    panics and hangs only where the mode admits it. *)
Definition good {R A} (mode : Mode) (Q : A → Prop) (m : ST (VM R) A) : Prop :=
  ∀ s, vm_ok s →
    match m s with
    | (Ok v, s') => Q v ∧ vm_step s s'
    | (Err _, s') => vm_step s s'
    | (Panic, _) => mode ≠ Plain
    | (Hang, _) => mode = Calling
    end.
Definition good_res {A} (mode : Mode) (Q : A → Prop) (r : res A) : Prop :=
  match r with Ok v => Q v | Err _ => True | Panic => mode ≠ Plain | Hang => mode = Calling end.
Class SelectLaws (S R : Type) `{SelectExec S R} : Prop :=
  select_good q : good Calling (λ r, match r with QueryResult _ rows => Forall (Forall value_wf) rows | _ => True end) (exec_select q).
Class FunctionLaws (R : Type) `{OtherFunctions R} : Prop :=
  function_good name args : Forall (good Calling value_wf) args → good Calling value_wf (other_function name args).

Section Good.
Context {R : Type}.
Implicit Types mode : Mode.
Lemma good_ret {A} mode (Q : A → Prop) (v : A) : Q v → good (R:=R) mode Q (mret v).
Proof. intros Hv s Hs. split; auto. Qed.
Lemma good_err {A} mode (Q : A → Prop) e : good (R:=R) mode Q (st_err e).
Proof. intros s Hs. by apply vm_step_refl. Qed.
Lemma good_lift {A} mode (Q : A → Prop) (r : res A) : good_res mode Q r → good (R:=R) mode Q (st_lift r).
Proof. intros Hr s Hs. unfold st_lift. destruct r; simpl in *; auto. Qed.
Lemma good_gets {A} mode (Q : A → Prop) (f : VM R → res A) : (∀ s, vm_ok s → good_res mode Q (f s)) → good mode Q (st_gets f).
Proof. intros Hf s Hs. specialize (Hf s Hs). unfold st_gets. destruct (f s); simpl in *; auto. Qed.
Lemma good_bind {A B} mode (Q : A → Prop) (Q' : B → Prop) (m : ST (VM R) A) (f : A → ST (VM R) B) :
  good mode Q m → (∀ v, Q v → good mode Q' (f v)) → good mode Q' (m ≫= f).
Proof.
  intros Hm Hf s Hs. specialize (Hm s Hs). rewrite ST_bind_unfold. destruct (m s) as [[v|e| |] s']; try done.
  destruct Hm as (Hv & Hs' & Ho). specialize (Hf v Hv s' Hs'). unfold vm_step in *. rewrite <- Ho. by destruct (f v s') as [[]].
Qed.
End Good.
Create HintDb typed.
#[export] Hint Resolve good_ret good_err good_lift : typed.

(** ** Operators *)

Lemma VBool_wf b : value_wf (VBool b).
Proof. destruct b; split; lia. Qed.
Lemma as_i64_wf z : value_wf (VInteger (as_i64 z)).
Proof. apply as_i64_range. Qed.
Lemma bits_wf f : value_wf (VReal (bits_of_f64 f)).
Proof. apply bits_of_f64_range. Qed.
Lemma f64_op_wf f a b : value_wf (f64_op f a b).
Proof. apply bits_of_f64_range. Qed.
#[export] Hint Resolve VBool_wf as_i64_wf bits_wf f64_op_wf show_i64_text show_f64_text : typed.

(** A 64-bit integer is one whose bits from 63 on are all the sign. *)
Lemma i64_shiftr z : is_i64 z ↔ Z.shiftr z 63 = 0 ∨ Z.shiftr z 63 = -1.
Proof. rewrite Z.shiftr_div_pow2 by lia. unfold is_i64. split; intros Hz; div_lia. Qed.
Lemma u64_shiftr z : is_u64 z ↔ Z.shiftr z 64 = 0.
Proof. rewrite Z.shiftr_div_pow2 by lia. unfold is_u64. split; intros Hz; div_lia. Qed.
Lemma lor_wf a b : is_i64 a → is_i64 b → is_i64 (Z.lor a b).
Proof. rewrite !i64_shiftr, Z.shiftr_lor. intros [-> | ->] [-> | ->]; auto. Qed.
Lemma land_wf a b : is_i64 a → is_i64 b → is_i64 (Z.land a b).
Proof. rewrite !i64_shiftr, Z.shiftr_land. intros [-> | ->] [-> | ->]; auto. Qed.
Lemma lxor_wf a b : is_i64 a → is_i64 b → is_i64 (Z.lxor a b).
Proof. rewrite !i64_shiftr, Z.shiftr_lxor. intros [-> | ->] [-> | ->]; auto. Qed.
Lemma shiftr_wf a b : is_i64 a → 0 ≤ b → is_i64 (Z.shiftr a b).
Proof.
  unfold is_i64. intros Ha Hb. rewrite Z.shiftr_div_pow2 by lia. pose proof (Z.pow_pos_nonneg 2 b ltac:(lia) Hb).
  split; [apply Z.div_le_lower_bound|apply Z.div_lt_upper_bound]; nia.
Qed.
Lemma hex_digit_ascii n : 0 ≤ n < 16 → 48 ≤ hex_digit n < 128.
Proof. unfold hex_digit. intros. destruct (Z.ltb_spec n 10); lia. Qed.
Lemma hex_encode_ascii b : bytes_ok b → Forall (λ x, 0 ≤ x < 0x80) (hex_encode b).
Proof.
  intros Hb. unfold hex_encode. induction Hb as [|x l Hx _ IH]; [constructor|]. cbn [map mjoin list_join app]. unfold is_byte in Hx.
  rewrite Z.shiftr_div_pow2 by lia. change (Z.land x 0x0f) with (Z.land x (Z.ones 4)). rewrite Z.land_ones by lia.
  pose proof (hex_digit_ascii (x / 2 ^ 4) ltac:(div_lia)). pose proof (hex_digit_ascii (x mod 2 ^ 4) ltac:(div_lia)).
  constructor; [lia|]. constructor; [lia|done].
Qed.
Lemma hex_upper_text b : bytes_ok b → text_ok (hex_upper b).
Proof.
  intros Hb. apply ascii_text. unfold hex_upper. apply Forall_map. eapply Forall_impl; [by apply hex_encode_ascii|].
  cbn. intros x Hx. repeat case_match; lia.
Qed.
Lemma display_text v : value_wf v → text_ok (display v).
Proof.
  destruct v as [|z|bits|t|b]; cbn [display]; intros Hv; auto with typed.
  - apply ascii_text. repeat constructor; lia.
  - apply ascii_text. repeat (constructor; [lia|]). apply Forall_app_2; [by apply hex_encode_ascii|]. constructor; [lia|constructor].
Qed.
Lemma arith_wf fi ff l r :
  (∀ a b, value_wf (fi a b)) → (∀ a b, value_wf (ff a b)) → value_wf (arith fi ff l r).
Proof. intros Hi Hf. by destruct l, r; simpl. Qed.
Lemma on_ints_wf f l r : (∀ a b, is_i64 a → is_i64 b → value_wf (f a b)) → value_wf l → value_wf r → value_wf (on_ints f l r).
Proof. intros Hf. destruct l, r; simpl; auto. Qed.

Section Operators.
Context `{StdFns}.
Lemma apply_binary_op_wf op l r : value_wf l → value_wf r → value_wf (apply_binary_op op l r).
Proof.
  intros Hl Hr. unfold apply_binary_op. destruct (is_null l || is_null r).
  { destruct op; try done; case_match; done. }
  destruct op; auto with typed.
  - apply arith_wf; intros; [apply as_i64_wf|apply f64_op_wf].
  - apply arith_wf; intros; [apply as_i64_wf|apply f64_op_wf].
  - apply arith_wf; intros; [apply as_i64_wf|apply f64_op_wf].
  - apply arith_wf; intros; case_match; try done; [apply as_i64_wf|apply f64_op_wf].
  - apply on_ints_wf; [|done..]. intros. case_match; [done|]. apply as_i64_wf.
  - apply text_app; by apply display_text.
  - apply on_ints_wf; [|done..]. intros. by apply lor_wf.
  - apply on_ints_wf; [|done..]. intros. by apply land_wf.
  - apply on_ints_wf; [|done..]. intros. by apply lxor_wf.
  - apply on_ints_wf; [|done..]. intros. case_match; [|done]. apply as_i64_wf.
  - apply on_ints_wf; [|done..]. intros a b Ha Hb. destruct ((0 <=? b) && (b <? 64)) eqn:E; [|done].
    apply andb_true_iff in E as [E _]. apply Z.leb_le in E. by apply shiftr_wf.
  - destruct l, r; try done. destruct (tokenize _); auto with typed. done.
Qed.
Lemma apply_unary_op_good mode op v : value_wf v → good_res mode value_wf (apply_unary_op op v).
Proof.
  intros Hv. destruct op; simpl.
  - destruct v as [|z|bits|t|b]; simpl; try done; [apply as_i64_range|]. simpl in Hv. rewrite u64_shiftr in *. by rewrite Z.shiftr_lxor, Hv.
  - destruct (is_null v); [done|]. apply VBool_wf.
Qed.
End Operators.

(** ** CAST and functions *)

Lemma i64_guard (o : option Z) (f : Z → Z) z :
  (n ← o; if (- 2 ^ 63 <=? f n) && (f n <? 2 ^ 63) then Some (f n) else None) = Some z → is_i64 z.
Proof.
  destruct o as [n|]; [|done]. cbn [mbind option_bind]. destruct (_ && _) eqn:E; [|done]. intros [= <-].
  apply andb_true_iff in E as [E1 E2]. apply Z.leb_le in E1. apply Z.ltb_lt in E2. by split.
Qed.
Lemma parse_i64_range t z : parse_i64 t = Some z → is_i64 z.
Proof.
  unfold parse_i64. cbv zeta. destruct t as [|b t]; [discriminate|]. destruct (b =? 43).
  - destruct t as [|c t]; [discriminate|]. cbv iota. apply (i64_guard _ (λ n, n)).
  - destruct (b =? 45).
    + destruct t as [|c t]; [discriminate|]. cbv iota. apply (i64_guard _ Z.opp).
    + cbv iota. apply (i64_guard _ (λ n, n)).
Qed.
Lemma i64_of_f64_range f : is_i64 (i64_of_f64 f).
Proof.
  assert (∀ x, is_i64 (Z.max (- 2 ^ 63) (Z.min (2 ^ 63 - 1) x))) as Hc.
  { intros x. generalize (2 ^ 63), (eq_refl : 2 ^ 63 = 9223372036854775808). unfold is_i64. lia. }
  destruct f as [s|[]| |s m e]; [by vm_compute..|apply Hc].
Qed.
Lemma cannot_cast_good mode what ty b : good_res mode value_wf (cannot_cast what ty b).
Proof. by destruct b. Qed.
Lemma cast_text_wf f v : (∀ b, bytes_ok b → value_wf (f b)) → value_wf v → value_wf (cast_text f v).
Proof. intros Hf Hv. destruct v; [done|apply show_i64_text|apply show_f64_text|exact Hv|by apply Hf]. Qed.
Lemma cast_good mode ty b v : value_wf v → good_res mode value_wf (cast ty b v).
Proof.
  intros Hv. destruct ty; cbn [cast].
  - destruct v as [|z|bits|t|bl]; [done|exact Hv|apply i64_of_f64_range| |apply cannot_cast_good].
    destruct (parse_i64 (trim t)) as [i|] eqn:E; [exact (parse_i64_range _ _ E)|].
    destruct (f64_of_text t); [apply i64_of_f64_range|apply cannot_cast_good].
  - destruct v as [|z|bits|t|bl]; [done|apply bits_of_f64_range|exact Hv| |apply cannot_cast_good].
    destruct (f64_of_text t); [apply bits_of_f64_range|apply cannot_cast_good].
  - apply cast_text_wf; [|done]. intros bl Hb. cbn [value_wf]. destruct (utf8_valid bl) eqn:E; [by split|by apply hex_upper_text].
  - destruct v as [|z|bits|t|bl]; [done|apply show_i64_text|apply show_f64_text|apply Hv|exact Hv].
  - destruct v as [|z|bits|t|bl]; [done|exact Hv| | |apply cannot_cast_good].
    + cbv zeta. destruct (small_integral _); [apply i64_of_f64_range|exact Hv].
    + destruct (parse_i64 (trim t)) as [i|] eqn:E; [exact (parse_i64_range _ _ E)|].
      destruct (f64_of_text t); [apply bits_of_f64_range|apply cannot_cast_good].
  - by apply cast_text_wf.
  - by apply cast_text_wf.
  - by apply cast_text_wf.
  - by apply cast_text_wf.
Qed.
Lemma on_text_wf f other v : (∀ s, text_ok s → value_wf (f s)) → (value_wf v → value_wf (other v)) → value_wf v → value_wf (on_text f other v).
Proof. intros Hf Ho Hv. destruct v; simpl in *; auto. Qed.
Lemma on_number_wf fi ff v : (∀ z, is_i64 z → value_wf (fi z)) → (∀ b, is_u64 b → value_wf (ff b)) → value_wf v → value_wf (on_number fi ff v).
Proof. intros Hi Hf Hv. destruct v; simpl in *; auto. Qed.
Lemma length_of_wf v : value_wf (length_of v).
Proof. destruct v; [done|apply as_i64_range..]. Qed.
Lemma typeof_wf v : value_wf (typeof v).
Proof.
  apply ascii_text. destruct v; vm_compute; repeat (constructor; [split; [discriminate|reflexivity]|]); constructor.
Qed.
Lemma sub_chars l a b : Forall is_char l → Forall is_char (sub l a b).
Proof. intros Hl. by apply Forall_take, Forall_drop. Qed.
Lemma substr_text s start len : text_ok s → text_ok (substr s start len).
Proof.
  intros Hs. unfold substr. cbv zeta. case_match; [by split; [constructor|]|]. apply chars_text in Hs as [_ Hs].
  by apply of_chars_ok, sub_chars.
Qed.
Lemma overlay_text s placing from n : text_ok s → text_ok placing → text_ok (overlay s placing from n).
Proof.
  intros Hs Hp. apply chars_text in Hs as [_ Hs]. unfold overlay. cbv zeta.
  apply text_app; [by apply of_chars_ok, sub_chars|]. apply text_app; [done|by apply of_chars_ok, sub_chars].
Qed.
Lemma instr_wf a b : value_wf (instr a b).
Proof. destruct a, b; try done. cbn [instr value_wf]. destruct (find_sub _ _); [apply as_i64_range|done]. Qed.
Lemma factorial_small n : (n ≤ 20)%nat → is_i64 (factorial n).
Proof. intros Hn. do 21 (destruct n as [|n]; [by vm_compute|]). lia. Qed.
Lemma factorial_good mode v : good_res mode value_wf (factorial_of v).
Proof.
  destruct v as [|z| | |]; try done. cbn [factorial_of]. destruct (Z.ltb_spec z 0); [done|]. destruct (Z.ltb_spec 20 z); [done|].
  apply factorial_small. lia.
Qed.
Lemma signum_u64 b : is_u64 b → is_u64 (f64_signum b).
Proof. intros Hb. unfold f64_signum. destruct (f64_of_bits b); try done; destruct (Z.testbit b 63); by vm_compute. Qed.
Lemma hex_wf v : value_wf v → value_wf (hex v).
Proof.
  destruct v as [|z| | |b]; try done; intros Hv; [|by apply hex_upper_text]. apply ascii_text.
  assert (∀ fuel n acc, Forall (λ x, 0 ≤ x < 0x80) acc → Forall (λ x, 0 ≤ x < 0x80) (hex_digits fuel n acc)) as Hd; [|by apply Hd].
  induction fuel as [|fuel IH]; intros n acc Ha; [done|]. cbn [hex_digits]. pose proof (Z.mod_pos_bound n 16 ltac:(lia)).
  assert (Forall (λ x, 0 ≤ x < 0x80) ((if n mod 16 <? 10 then 48 + n mod 16 else 55 + n mod 16) :: acc)).
  { constructor; [case_match; lia|done]. }
  destruct (n <? 16); auto.
Qed.
Lemma unicode_wf v : value_wf v → value_wf (unicode v).
Proof.
  destruct v; try done. intros Hv. apply chars_text in Hv as [_ Hc]. unfold unicode. simpl.
  destruct Hc as [|c l Hc _]; [done|]. unfold is_char in Hc. simpl. unfold is_i64. lia.
Qed.
Lemma date_extract_wf f v : value_wf (date_extract f v).
Proof.
  assert (∀ t a b z, parse_field t a b = Some z → is_i64 z) as Hp.
  { intros t a b z. unfold parse_field. case_match; [apply parse_i64_range|done]. }
  assert (∀ t, value_wf match extract_field (upper_bytes f) t with Some v => VInteger v | None => VNull end) as Hx.
  { intros t. destruct (extract_field _ t) eqn:E; [|done]. unfold extract_field in E. repeat case_match; try done; by eapply Hp. }
  destruct v; simpl; try done; apply Hx.
Qed.
Lemma nullif_wf a b : value_wf a → value_wf (nullif a b).
Proof. unfold nullif. by destruct (value_eq a b). Qed.
Lemma like_op_good mode v p e ci neg : good_res mode value_wf (like_op v p e ci neg).
Proof.
  unfold like_op. destruct (is_null v || is_null p); [done|]. destruct v, p; try done.
  destruct (like_match_total t t0 e ci) as [b Hb]. rewrite Hb. apply VBool_wf.
Qed.
Lemma between_wf v lo hi neg : value_wf (between v lo hi neg).
Proof. unfold between. case_match; [done|apply VBool_wf]. Qed.
Lemma membership_wf neg p : value_wf (membership neg p).
Proof. destruct p as [[] []]; simpl; try done; apply VBool_wf. Qed.
Lemma interval_wf v field : (∀ f, field = Some f → text_ok f) → value_wf v → value_wf (interval v field).
Proof.
  destruct field as [f|]; [|done]. intros Hf Hv. specialize (Hf f eq_refl).
  assert (∀ t, text_ok t → text_ok (t ++ 32 :: f)) as Ht.
  { intros t Ht. apply (text_app t (32 :: f)); [done|]. apply (text_app [32] f); [|done]. apply ascii_text. repeat constructor; lia. }
  destruct v as [|z|bits|t|b]; try done; apply Ht; [apply show_i64_text|apply show_f64_text|]. by apply trim_matches_ok.
Qed.

Section Functions.
Context {S W R : Type} `{StdFns} `{!StdLaws} `{!SelectExec S R} `{!OtherFunctions R}.
Context `{!SelectLaws S R} `{!FunctionLaws R}.
Abbreviation Ev := (ST (VM R) Value).
Abbreviation good1 mode := (good (R:=R) mode value_wf).
Implicit Types (args : list Ev) (mode : Mode).

Lemma arg_good mode args i : Forall (good1 mode) args → (i < length args)%nat → good1 mode (arg args i).
Proof.
  intros Ha Hi. unfold arg. apply lookup_lt_is_Some in Hi as [m Hm]. rewrite Hm. by eapply Forall_lookup in Ha.
Qed.
Lemma need_good mode n args body : ((n ≤ length args)%nat → good1 mode body) → good1 mode (need n args body).
Proof. intros Hb. unfold need. destruct (decide _); [by apply good_ret|]. apply Hb. lia. Qed.
Lemma fn1_good mode f args : Forall (good1 mode) args → (∀ v, value_wf v → value_wf (f v)) → good1 mode (fn1 f args).
Proof.
  intros Ha Hf. apply need_good. intros Hl. eapply good_bind; [apply arg_good; [done|lia]|]. intros v Hv. by apply good_ret, Hf.
Qed.
Lemma fn2_good mode f args :
  Forall (good1 mode) args → (∀ a b, value_wf a → value_wf b → value_wf (f a b)) → good1 mode (fn2 f args).
Proof.
  intros Ha Hf. apply need_good. intros Hl. eapply good_bind; [apply arg_good; [done|lia]|]. intros a Hav.
  eapply good_bind; [apply arg_good; [done|lia]|]. intros b Hb. by apply good_ret, Hf.
Qed.
Lemma with_text_good mode v k : value_wf v → (∀ s, text_ok s → good1 mode (k s)) → good1 mode (with_text v k).
Proof. intros Hv Hk. destruct v; try by apply good_ret. by apply Hk. Qed.
Lemma with_integer_good mode v k : (∀ z, good1 mode (k z)) → good1 mode (with_integer v k).
Proof. intros Hk. destruct v; try by apply good_ret. by apply Hk. Qed.
Lemma option_arg_good {A} mode args i (f : Value → A) (d : A) :
  Forall (good1 mode) args → good (R:=R) mode (λ _, True) (if decide (i < length args)%nat then v ← arg args i; mret (f v) else mret d).
Proof.
  intros Ha. destruct (decide _); [|by apply good_ret]. eapply good_bind; [by apply arg_good|]. intros v _. by apply good_ret.
Qed.
Lemma start_index_good mode v : mode ≠ Plain → good (R:=R) mode (λ _, True) (st_lift (start_index v)).
Proof. intros Hm. apply good_lift. unfold start_index. by destruct (v =? - 2 ^ 63). Qed.
End Functions.
(** Run the next argument, or the next optional one. *)
Ltac run_arg :=
  lazymatch goal with
  | |- good _ _ (arg _ _ ≫= _) => eapply good_bind; [apply arg_good; [assumption|lia]|intros ? ?]
  | |- good _ _ ((if decide _ then _ else _) ≫= _) => eapply good_bind; [by apply option_arg_good|intros ? _]
  | |- good _ _ (st_lift (start_index _) ≫= _) => eapply good_bind; [by apply start_index_good|intros ? _]
  | |- good _ _ (with_text _ _) => apply with_text_good; [assumption|intros ? ?]
  | |- good _ _ (with_integer _ _) => apply with_integer_good; intros ?
  | |- good _ _ (need _ _ _) => apply need_good; intros ?
  end.

Section MoreFunctions.
Context {S W R : Type} `{StdFns} `{!StdLaws} `{!SelectExec S R} `{!OtherFunctions R}.
Context `{!SelectLaws S R} `{!FunctionLaws R}.
Abbreviation Ev := (ST (VM R) Value).
Abbreviation good1 mode := (good (R:=R) mode value_wf).
Implicit Types (args : list Ev) (mode : Mode).

Lemma coalesce_good mode args : Forall (good1 mode) args → good1 mode (coalesce args).
Proof.
  induction 1 as [|a l Ha _ IH]; [by apply good_ret|]. cbn [coalesce]. eapply good_bind; [exact Ha|]. intros v Hv.
  destruct (is_null v); [done|by apply good_ret].
Qed.
Lemma fn_substr_good mode args : mode ≠ Plain → Forall (good1 mode) args → good1 mode (fn_substr args).
Proof. intros Hm Ha. unfold fn_substr. repeat run_arg. apply good_ret. by apply substr_text. Qed.
Lemma fn_overlay_good mode args : mode ≠ Plain → Forall (good1 mode) args → good1 mode (fn_overlay args).
Proof. intros Hm Ha. unfold fn_overlay. repeat run_arg. apply good_ret. by apply overlay_text. Qed.
Lemma fn_replace_good mode args : Forall (good1 mode) args → good1 mode (fn_replace args).
Proof. intros Ha. unfold fn_replace. repeat run_arg. apply good_ret. by apply str_replace_ok. Qed.
Lemma fn_trim_good mode f args :
  (∀ g s, text_ok s → text_ok (f g s)) → Forall (good1 mode) args → good1 mode (fn_trim f args).
Proof.
  intros Hf Ha. unfold fn_trim. run_arg. run_arg. destruct (decide _).
  - run_arg. apply good_ret. destruct v as [| | |t|]; try done. destruct v0; try done. by apply Hf.
  - apply good_ret. apply on_text_wf; [|done..]. intros s Hs. by apply Hf.
Qed.
Lemma fn_round_good mode args : Forall (good1 mode) args → good1 mode (fn_round args).
Proof.
  intros Ha. unfold fn_round. repeat run_arg. apply good_ret. apply on_number_wf; [done| |done]. intros. apply bits_of_f64_range.
Qed.
Lemma fn_char_good mode args : ∀ acc, text_ok acc → Forall (good1 mode) args → good1 mode (fn_char args acc).
Proof.
  induction args as [|a l IH]; intros acc Hacc Ha; [by apply good_ret|]. inversion Ha; subst. cbn [fn_char].
  eapply good_bind; [eassumption|]. intros v _. apply IH; [|done]. destruct v as [|z| | |]; try done.
  unfold char_from_u32. destruct (decide (is_char (as_u32 z))) as [Hc|]; [|done]. apply text_app; [done|].
  destruct (of_chars_ok [as_u32 z]) as [Ho _]; [by apply Forall_singleton|].
  rewrite of_chars_cons in Ho. change (of_chars []) with (@nil Z) in Ho. by rewrite app_nil_r in Ho.
Qed.
Lemma fn_date_extract_good mode args : Forall (good1 mode) args → good1 mode (fn_date_extract args).
Proof. intros Ha. unfold fn_date_extract. repeat run_arg. apply good_ret. apply date_extract_wf. Qed.
Lemma fn_factorial_good mode args : Forall (good1 mode) args → good1 mode (fn_factorial args).
Proof. intros Ha. unfold fn_factorial. repeat run_arg. apply good_lift, factorial_good. Qed.
Lemma fn_ifnull_good mode args : Forall (good1 mode) args → good1 mode (fn_ifnull args).
Proof.
  intros Ha. unfold fn_ifnull. run_arg. run_arg. destruct (is_null v); [apply arg_good; [done|lia]|by apply good_ret].
Qed.
Lemma index_good {A} mode (l : list A) i (P : A → Prop) : mode ≠ Plain → Forall P l → good_res mode P (index l i).
Proof.
  intros Hm Hl. unfold index. destruct (0 <=? i); [|done]. destruct (l !! Z.to_nat i) eqn:E; [|done]. by eapply Forall_lookup in Hl.
Qed.
Lemma fn_win_good mode (exprs : list (Expr S W)) : mode ≠ Plain → good1 mode (fn_win exprs).
Proof.
  intros Hm.  apply good_gets. intros s Hs. destruct (window_results s) as [results|] eqn:E; [|done]. pose proof (vm_windows s Hs _ E) as Hw.
  pose proof (index_good mode results (Z.of_nat (current_window_row_idx s)) _ Hm Hw) as Hi.
  destruct (index results _) as [r| | |]; try done. by apply index_good.
Qed.
Lemma session_text_wf o : (∀ t, o = Some t → text_ok t) → value_wf (session_text o).
Proof. intros Ho. unfold session_text. destruct o as [t|]; [|done]. simpl. destruct t; [done|by apply Ho]. Qed.
Lemma session_get_text (s : VM R) k : vm_ok s → ∀ t, session_vars s !! k = Some t → text_ok t.
Proof. intros Hs t Ht. by apply (vm_session s Hs) in Ht. Qed.
Lemma fn_auth_uid_good mode : good1 mode fn_auth_uid.
Proof. apply good_gets. intros s Hs. by apply session_text_wf, session_get_text. Qed.
Lemma fn_current_user_good mode : good1 mode fn_current_user.
Proof.
  apply good_gets. intros s Hs. apply session_text_wf. intros t. destruct (session_vars s !! jwt_sub) eqn:E.
  - intros [= <-]. by eapply session_get_text in E.
  - by apply session_get_text.
Qed.
Lemma fn_current_setting_good mode args : Forall (good1 mode) args → good1 mode (fn_current_setting args).
Proof.
  intros Ha. unfold fn_current_setting. repeat run_arg. apply good_gets. intros vm Hvm.
  destruct (session_vars vm !! s) eqn:E; [|done]. by eapply session_get_text in E.
Qed.
End MoreFunctions.

(** ** Expressions *)

Section Evaluation.
Context {S W R : Type} `{StdFns} `{!StdLaws} `{!SelectExec S R} `{!OtherFunctions R}.
Context `{!SelectLaws S R} `{!FunctionLaws R}.
Abbreviation Ev := (ST (VM R) Value).
Abbreviation good1 mode := (good (R:=R) mode value_wf).
Implicit Types (args items : list Ev) (mode : Mode).

Lemma is_name_index name names :
  is_name name names = true → Forall (λ n, n ∈ INDEX_FUNCTIONS) names → is_name name INDEX_FUNCTIONS = true.
Proof.
  unfold is_name. rewrite !existsb_exists. intros (n & Hn & He) Hf. exists n. split; [|done].
  rewrite Forall_forall in Hf. apply list_elem_of_In, Hf. by apply list_elem_of_In.
Qed.
Lemma index_fn_good mode name names (m : Ev) :
  is_name name names = true → Forall (λ n, n ∈ INDEX_FUNCTIONS) names → (mode = Plain → is_name name INDEX_FUNCTIONS = false) →
  (mode ≠ Plain → good1 mode m) → good1 mode m.
Proof.
  intros Hn Hf Hi Hm. destruct (decide (mode = Plain)) as [E|E]; [|by apply Hm]. rewrite (is_name_index _ _ Hn Hf) in Hi. by specialize (Hi E).
Qed.
Lemma power_wf a b : value_wf (power a b).
Proof.
  destruct a as [|x|x| |], b as [|y|y| |]; try done; cbn [power]; try apply powi_u64; try apply powf_u64.
  destruct (0 <=? y); [|apply powi_u64]. destruct (checked_pow x (as_u32 y)) as [z|] eqn:E; [|apply powi_u64].
  unfold checked_pow in E. destruct (_ && _); [done|]. cbv zeta in E. case_decide as Hz; [|done]. by injection E as <-.
Qed.
Lemma is_name_single name n : eq_ignore_ascii_case name n = true → is_name name [n] = true.
Proof. unfold is_name. simpl. by intros ->. Qed.

Ltac function_case tac :=
  lazymatch goal with |- good _ _ (if ?c then _ else _) => destruct c eqn:?; [tac|] end.
Lemma eval_function_good mode name (exprs : list (Expr S W)) args :
  (mode = Plain → is_name name INDEX_FUNCTIONS = false) → (mode ≠ Calling → is_name name OTHER_FUNCTIONS = false) →
  Forall (good1 mode) args → good1 mode (eval_function name exprs args).
Proof.
  intros Hi Ho Ha. unfold eval_function. cbv zeta.
  function_case ltac:(destruct Ha; [by apply good_ret|done]).
  function_case ltac:(apply fn1_good; [done|]; intros; apply on_number_wf; [intros; apply as_i64_range| |done]; intros b Hb; cbn [value_wf]).
  { change (2 ^ 63 - 1) with (Z.ones 63). rewrite Z.land_ones by lia. unfold is_u64 in *. div_lia. }
  function_case ltac:(apply fn1_good; [done|]; intros; apply on_text_wf; [by apply upper_text|done..]).
  function_case ltac:(apply fn1_good; [done|]; intros; apply on_text_wf; [by apply lower_text|done..]).
  function_case ltac:(apply fn1_good; [done|]; intros; apply length_of_wf).
  function_case ltac:(apply fn1_good; [done|]; intros; apply typeof_wf).
  function_case ltac:(by apply coalesce_good).
  function_case ltac:(by apply fn_ifnull_good).
  function_case ltac:(eapply index_fn_good; [eassumption|repeat (constructor; [set_solver|]); constructor|done|intros Hm; by apply fn_substr_good]).
  function_case ltac:(by apply fn_replace_good).
  function_case ltac:(apply fn_trim_good; [intros; by apply trim_matches_ok|done]).
  function_case ltac:(apply fn_trim_good; [intros; by apply trim_matches_ok|done]).
  function_case ltac:(apply fn_trim_good; [intros; by apply trim_matches_ok|done]).
  function_case ltac:(apply fn2_good; [done|]; intros; by apply nullif_wf).
  function_case ltac:(by apply fn_round_good).
  function_case ltac:(apply fn1_good; [done|]; intros; apply on_number_wf; [done|intros; apply bits_of_f64_range|done]).
  function_case ltac:(apply fn1_good; [done|]; intros; apply on_number_wf; [done|intros; apply bits_of_f64_range|done]).
  function_case ltac:(apply fn2_good; [done|]; intros; apply instr_wf).
  function_case ltac:(eapply index_fn_good; [by eapply is_name_single|repeat (constructor; [set_solver|]); constructor|done|intros Hm; by apply fn_overlay_good]).
  function_case ltac:(apply fn1_good; [done|]; intros; apply on_number_wf; [intros; split; lia|apply signum_u64|done]).
  function_case ltac:(apply fn2_good; [done|]; intros; apply VBool_wf).
  function_case ltac:(apply fn2_good; [done|]; intros; apply VBool_wf).
  function_case ltac:(apply fn1_good; [done|]; intros v Hv; destruct v; try done; unfold on_integer, Z.lnot; cbn [value_wf] in *; int_lia).
  function_case ltac:(apply fn1_good; [done|]; intros; apply on_number_wf; [intros; apply cbrt_u64|intros; apply cbrt_u64|done]).
  function_case ltac:(by apply fn_factorial_good).
  function_case ltac:(apply fn2_good; [done|]; intros a b Hav Hbv).
  { by apply power_wf. }
  function_case ltac:(idtac).
  { eapply (index_fn_good _ name ["__win"%string]); [|repeat (constructor; [set_solver|]); constructor|done|intros Hm; by apply fn_win_good].
    apply is_name_single. match goal with He : String.eqb name _ = true |- _ => apply String.eqb_eq in He as -> end.
    apply eq_ignore_ascii_case_refl. }
  function_case ltac:(by apply good_ret).
  function_case ltac:(by apply good_ret).
  function_case ltac:(apply fn2_good; [done|]; intros a b _ _; destruct a, b; try done; apply VBool_wf).
  function_case ltac:(apply fn1_good; [done|]; apply hex_wf).
  function_case ltac:(apply fn1_good; [done|]; apply unicode_wf).
  function_case ltac:(apply fn_char_good; [by apply ascii_text|done]).
  function_case ltac:(by apply fn_date_extract_good).
  function_case ltac:(apply fn_auth_uid_good).
  function_case ltac:(by apply fn_current_setting_good).
  function_case ltac:(apply fn_current_user_good).
  function_case ltac:(idtac).
  { destruct (decide (mode = Calling)) as [-> | E]; [by apply function_good|]. specialize (Ho E). congruence. }
  apply good_err.
Qed.

Lemma in_list_good mode val items : ∀ has_null,
  Forall (good1 mode) items → good (R:=R) mode (λ _, True) (in_list val items has_null).
Proof.
  induction items as [|i l IH]; intros n Hi; [by apply good_ret|]. inversion Hi; subst. cbn [in_list].
  eapply good_bind; [eassumption|]. intros v _. destruct (is_null v); [by apply IH|]. destruct (value_eq val v); [by apply good_ret|by apply IH].
Qed.
Lemma fts_match_good mode row (m : Ev) : good1 mode m → good1 mode (fts_match row m).
Proof.
  intros Hm s Hs. specialize (Hm s Hs). unfold fts_match. destruct (m s) as [[v|e| |] s']; try done.
  destruct Hm as [Hv Hs']. destruct v; try done. split; [|exact Hs']. destruct (tokenize t); [done|apply VBool_wf].
Qed.
Lemma case_good mode (whens : list (Ev * Ev)) (els : Ev) :
  Forall (λ p, good1 mode p.1 ∧ good1 mode p.2) whens → good1 mode els →
  good1 mode (searched_case whens els) ∧ ∀ v, good1 mode (simple_case v whens els).
Proof.
  intros Hw He. induction Hw as [|[w t] l [H1 H2] _ [IH1 IH2]]; [done|]. cbn [searched_case simple_case]. split; [|intros x].
  - eapply good_bind; [exact H1|]. intros v _. by destruct (is_truthy v).
  - eapply good_bind; [exact H1|]. intros v _. by destruct (_ && _).
Qed.
Lemma connective_good mode (l r : Ev) : good1 mode l → good1 mode r → good1 mode (eval_and l r) ∧ good1 mode (eval_or l r).
Proof.
  intros Hl Hr. split; (eapply good_bind; [exact Hl|]; intros v _).
  - destruct (is_falsy v); [by apply good_ret|]. eapply good_bind; [exact Hr|]. intros w _. apply good_ret. by repeat case_match.
  - destruct (is_truthy v); [by apply good_ret|]. eapply good_bind; [exact Hr|]. intros w _. apply good_ret. by repeat case_match.
Qed.

Section Row.
Context (row : Row) (col_map : ColMap) (Hrow : Forall value_wf row).
Lemma lookup_keys_wf keys scope v : Forall value_wf scope.1 → lookup_keys keys scope = Some v → value_wf v.
Proof.
  intros Hs. induction keys as [|k ks IH]; simpl; [done|]. destruct (lookup_cell scope k) as [w|] eqn:E; [|done]. intros [= <-].
  unfold lookup_cell in E. destruct (scope.2 !! k) as [i|]; [|done]. cbn in E. injection E as <-.
  destruct (scope.1 !! i) as [x|] eqn:Ex; [|done]. by eapply Forall_lookup in Hs.
Qed.
Lemma lookup_scopes_wf keys scopes v :
  Forall (λ o : Row * ColMap, Forall value_wf o.1) scopes → lookup_scopes keys scopes = Some v → value_wf v.
Proof.
  induction 1 as [|o l Ho _ IH]; simpl; [done|]. destruct (lookup_keys keys o) eqn:E; [|done]. intros [= <-]. by eapply lookup_keys_wf.
Qed.
Lemma resolve_column_good mode outer table column :
  Forall (λ o : Row * ColMap, Forall value_wf o.1) outer → good_res mode value_wf (resolve_column row col_map outer table column).
Proof.
  intros Ho. assert (∀ k v, lookup_cell (row, col_map) k = Some v → value_wf v) as Hc.
  { intros k v Hv. apply (lookup_keys_wf [k] (row, col_map)); [done|]. simpl. by rewrite Hv. }
  unfold resolve_column. cbv zeta. destruct (t ← table; _) as [v|] eqn:E.
  { destruct table as [t|]; [|done]. cbn [mbind option_bind] in E. simpl. eapply lookup_scopes_wf; [|exact E].
    constructor; [done|]. by apply Forall_rev. }
  destruct (lookup_cell _ column) eqn:E1; [by eapply Hc|]. destruct (if String.eqb _ _ then None else _) eqn:E2.
  { destruct (String.eqb _ _); [done|]. by eapply Hc. }
  destruct (lookup_scopes _ _) eqn:E3; [|done]. eapply lookup_scopes_wf; [|exact E3]. by apply Forall_rev.
Qed.
Lemma set_outer_ok (l : list (Row * ColMap)) (s : VM R) : vm_ok s → Forall (λ o, Forall value_wf o.1) l → vm_ok (set_outer_rows l s).
Proof. intros [Hp Ho Hw Hv] Hl. by constructor. Qed.
Lemma Forall_removelast {A} (P : A → Prop) l : Forall P l → Forall P (removelast l).
Proof.
  induction 1 as [|x l Hx Hl IH]; [constructor|]. simpl. destruct l; [constructor|]. by constructor.
Qed.
Lemma subquery_good mode what (q : S) : mode = Calling → good (R:=R) mode (Forall (Forall value_wf)) (subquery_rows what row col_map q).
Proof.
  intros ->. eapply (good_bind _ (λ r, match r with QueryResult _ rows => Forall (Forall value_wf) rows | _ => True end)).
  - intros s Hs. unfold with_outer_row. pose proof (select_good q (set_outer_rows (outer_rows s ++ [(row, col_map)]) s)) as Hq.
    assert (vm_ok (set_outer_rows (outer_rows s ++ [(row, col_map)]) s)) as Hs1.
    { apply set_outer_ok; [done|]. apply Forall_app_2; [apply Hs|]. by repeat constructor. }
    assert (∀ s', vm_step (set_outer_rows (outer_rows s ++ [(row, col_map)]) s) s' → vm_step s (set_outer_rows (removelast (outer_rows s')) s')) as Hpop.
    { intros s' [Hs' Ho]. split; [apply set_outer_ok; [done|]; apply Forall_removelast, Hs'|].
      cbn [outer_rows set_outer_rows] in *. rewrite Ho. apply removelast_last. }
    specialize (Hq Hs1). destruct (exec_select _ _) as [[r|e| |] s']; try done.
    + destruct Hq as [Hq Hs']. split; [done|by apply Hpop].
    + by apply Hpop.
  - intros r Hr. destruct r; try apply good_err. by apply good_ret.
Qed.

Lemma match_against_wf columns query : value_wf (match_against row col_map columns query).
Proof.
  unfold match_against. cbv zeta. destruct (trim query); [done|]. destruct (query_words query); [done|].
  destruct (length _); [done|]. apply bits_wf.
Qed.
Lemma eval_expr_good mode (e : Expr S W) : expr_ok mode e → good1 mode (eval_expr row col_map e).
Proof.
  induction e as [e IH] using Expr_ind. intros He. apply expr_ok_unfold in He as [Hh Hs].
  assert (Forall (λ e : Expr S W, good1 mode (eval_expr row col_map e)) (subs e)) as Hsub.
  { rewrite Forall_forall in IH, Hs. apply Forall_forall. auto. } clear IH Hs.
  assert (∀ (m : Ev) (k : Value → Ev), good1 mode m → (∀ v, value_wf v → good1 mode (k v)) → good1 mode (m ≫= k)) as Hbind.
  { intros m k. apply good_bind. }
  destruct e; cbn [eval_expr subs] in *; try (by apply good_ret); try apply good_err; decompose_Forall_hyps.
  - apply good_gets. intros s Hs. by apply resolve_column_good, Hs.
  - apply Hbind; [done|]. intros v Hv. apply good_ret, interval_wf; [|done]. by intros f ->.
  - done.
  - destruct op; try (apply connective_good; done); try (by apply fts_match_good);
      (apply Hbind; [done|]; intros v Hv; apply Hbind; [done|]; intros w Hw; apply good_ret; by apply apply_binary_op_wf).
  - apply Hbind; [done|]. intros v Hv. by apply good_lift, apply_unary_op_good.
  - apply Hbind; [done|]. intros v Hv. apply good_ret, VBool_wf.
  - apply Hbind; [done|]. intros v Hv. destruct (is_null v); [by apply good_ret|].
    eapply good_bind; [apply in_list_good; by apply Forall_map|]. intros p _. apply good_ret, membership_wf.
  - apply Hbind; [done|]. intros v Hv. apply Hbind; [done|]. intros w Hw. apply good_lift, like_op_good.
  - apply Hbind; [done|]. intros v Hv. apply Hbind; [done|]. intros w Hw. apply Hbind; [done|]. intros x Hx. apply good_ret, between_wf.
  - destruct Hh. apply eval_function_good; [done..|]. by apply Forall_map.
  - eapply good_bind; [by apply subquery_good|]. intros rows Hr. apply good_ret. unfold scalar_subquery.
    destruct Hr as [|r l Hr _]; [done|]. by destruct Hr.
  - apply Hbind; [done|]. intros v Hv. destruct (is_null v); [by apply good_ret|].
    eapply good_bind; [by apply subquery_good|]. intros rows Hr. apply good_ret, membership_wf.
  - eapply good_bind; [by apply subquery_good|]. intros rows Hr. apply good_ret, VBool_wf.
  - apply Hbind; [done|]. intros v Hv. destruct (is_null v); [by apply good_ret|].
    eapply good_bind; [by apply subquery_good|]. intros rows Hr. apply good_ret. unfold any_rows. by destruct (scan_rows _ _ _) as [[] []].
  - apply Hbind; [done|]. intros v Hv. destruct (is_null v); [by apply good_ret|].
    eapply good_bind; [by apply subquery_good|]. intros rows Hr. apply good_ret. unfold all_rows. by destruct (scan_rows _ _ _) as [[] []].
  - done.
  - match goal with Ha : Forall _ (option_list operand), Hb : Forall _ (mjoin _), Hc : Forall _ (option_list else_clause) |- _ =>
      rename Ha into Ho, Hb into Hw, Hc into Hel end. destruct (case_good mode
      (map (λ '(w, t), (eval_expr row col_map w, eval_expr row col_map t)) when_clauses)
      (match else_clause with Some e => eval_expr row col_map e | None => mret VNull end)) as [H1 H2].
    + clear -Hw. induction when_clauses as [|[w t] l IH]; [constructor|]. simpl in *. decompose_Forall_hyps. constructor; [done|by apply IH].
    + destruct else_clause; simpl in *; decompose_Forall_hyps; [done|by apply good_ret].
    + destruct operand; simpl in *; decompose_Forall_hyps; [|done]. by apply Hbind.
  - apply Hbind; [done|]. intros v Hv. by apply good_lift, cast_good.
  - apply good_ret, match_against_wf.
  - apply good_gets. intros s Hs. cbv zeta. destruct (current_params s !! idx) eqn:E; [|done].
    pose proof (vm_params s Hs) as Hp. by eapply Forall_lookup in Hp.
Qed.
End Row.
End Evaluation.

(** ** Properties *)

(** [C19] Evaluating an expression over typed rows, parameters and literals returns
    a typed value (integers in the i64 range, doubles as 64 bits, texts valid
    UTF-8) or an error, and leaves the state typed and the rows of the
    enclosing queries as they were, errors included.  An expression without
    subqueries and without the functions of [OTHER_FUNCTIONS] (JSON, regular
    expressions, vectors, random numbers) always returns, and does not panic
    when it is also without the functions that compute an index from an
    argument (SUBSTR, OVERLAY and the window lookup).  Subqueries and the
    functions of [OTHER_FUNCTIONS] are taken to give typed results when they
    return, and may panic. *)
Theorem eval_expr_type {S W R} `{StdLaws} `{SelectLaws S R} `{FunctionLaws R} mode row col_map (e : Expr S W) (s : VM R) :
  expr_ok mode e → Forall value_wf row → vm_ok s →
  match eval_expr row col_map e s with
  | (Ok v, s') => value_wf v ∧ vm_ok s' ∧ outer_rows s' = outer_rows s
  | (Err _, s') => vm_ok s' ∧ outer_rows s' = outer_rows s
  | (Panic, _) => mode ≠ Plain
  | (Hang, _) => mode = Calling
  end.
Proof.
  intros He Hrow Hs. pose proof (eval_expr_good row col_map Hrow mode e He s Hs) as Hg. unfold vm_step in Hg.
  destruct (eval_expr row col_map e s) as [[]]; tauto.
Qed.

(** Concrete interfaces: ASCII case mapping, powers by multiplication, words
    separated by spaces, a database whose query [n] returns the rows [1..n],
    and no further function. *)
Definition ascii_std : StdFns := mkStdFns upper_bytes lower_bytes
  (λ c, is_digit c || ((65 <=? c) && (c <=? 90)) || ((97 <=? c) && (c <=? 122)))
  (λ a n, bits_of_f64 (Z.iter n (SFmul 53 1024 (f64_of_bits a)) (f64_of_i64 1)))
  (λ a b, bits_of_f64 (f64_of_bits a)) (λ a, bits_of_f64 (f64_of_bits a)) (λ t, [t]).
Definition count_select : SelectExec nat unit :=
  λ n, mret (QueryResult ["n"%string] (map (λ i, [VInteger (Z.of_nat i `mod` 100)]) (seq 1 n))).
Definition no_functions : OtherFunctions unit := λ name args, st_err (RuntimeError name).
Definition sample_vm : VM unit := mkVM unit [VInteger 7; VNull] [] None 0 ∅ ().

Lemma map_ascii_text (f : Z → Z) t : (∀ x, 0 ≤ x < 128 → 0 ≤ f x < 128) → (∀ x, 128 ≤ x → f x = x) → text_ok t → text_ok (map f t).
Proof.
  intros Ha Hn Ht. remember (length t) as n eqn:E. revert t E Ht. induction (lt_wf n) as [n _ IH]. intros t -> Ht.
  apply utf8_head in Ht as [->|(c & r & Hc & -> & Hr)]; [by apply ascii_text|]. rewrite map_app.
  apply text_app; [|apply (IH (length r)); [|done|done]].
  - assert (∀ l, Forall (λ x, 128 ≤ x) l → map f l = l) as Hid.
    { induction 1 as [|x l Hx _ IHl]; [done|]. cbn [map]. by rewrite Hn, IHl. }
    assert (text_ok (utf8_encode c)) as He.
    { pose proof (utf8_encode_valid c [] Hc) as Hv. rewrite app_nil_r in Hv. split; [by apply utf8_encode_bytes|done]. }
    revert He. unfold is_char, utf8_encode in *. destruct (Z.ltb_spec c 0x80); intros He.
    + cbn [map]. apply ascii_text, Forall_singleton, Ha. lia.
    + revert He. destruct (Z.ltb_spec c 0x800); [|destruct (Z.ltb_spec c 0x10000)]; intros He;
        rewrite Hid by (repeat (constructor; [div_lia|]); constructor); exact He.
  - rewrite length_app. unfold utf8_encode. repeat case_match; simpl; lia.
Qed.
Lemma ascii_std_laws : @StdLaws ascii_std.
Proof.
  constructor.
  - intros t. apply map_ascii_text; intros x Hx; destruct ((97 <=? x) && (x <=? 122)) eqn:E; lia.
  - intros t. apply map_ascii_text; intros x Hx; destruct ((65 <=? x) && (x <=? 90)) eqn:E; lia.
  - intros a n. apply bits_of_f64_range.
  - intros a b. apply bits_of_f64_range.
  - intros a. apply bits_of_f64_range.
Qed.
Lemma count_select_laws : @SelectLaws nat unit count_select.
Proof.
  intros q s Hs. cbn. split; [|by split]. apply Forall_map, Forall_forall. intros i _. apply Forall_singleton.
  cbn. unfold is_i64. pose proof (Z.mod_pos_bound (Z.of_nat i) 100). lia.
Qed.
Lemma no_functions_laws : @FunctionLaws unit no_functions.
Proof. intros name args _. apply good_err. Qed.
Lemma sample_vm_ok : vm_ok sample_vm.
Proof. constructor; [repeat constructor; unfold is_i64; lia|constructor|done|apply map_Forall_empty]. Qed.

(** [-a + ?] over the row [(3)], and a SUBSTR whose index overflows. *)
Lemma eval_expr_type_witness :
  let _ := ascii_std in let _ := count_select in let _ := no_functions in
  let e : Expr nat unit := BinaryOp (UnaryOp Minus (ColumnRef None "a")) Add (Placeholder 0) in
  let panics : Expr nat unit := Function "substr" [StringLiteral [97]; IntegerLiteral (- 2 ^ 63)] false in
  (eval_expr [VInteger 3] {["a"%string := 0%nat]} e sample_vm = (Ok (VInteger 4), sample_vm) ∧
   value_wf (VInteger 4)) ∧
  (eval_expr [VInteger 3] ∅ panics sample_vm).1 = Panic.
Proof.
  intros Hstd Hsel Hfn e panics. split; [|vm_compute; reflexivity].
  assert (eval_expr [VInteger 3] {["a"%string := 0%nat]} e sample_vm = (Ok (VInteger 4), sample_vm)) as Hrun by (vm_compute; reflexivity).
  split; [exact Hrun|].
  pose proof (@eval_expr_type nat unit unit Hstd ascii_std_laws Hsel count_select_laws Hfn no_functions_laws Plain [VInteger 3]
    {["a"%string := 0%nat]} e sample_vm) as Ht.
  rewrite Hrun in Ht. apply Ht.
  - apply expr_ok_unfold. split; [exact I|]. repeat constructor; apply expr_ok_unfold; (split; [exact I|]); repeat constructor.
    apply expr_ok_unfold. by split.
  - apply Forall_singleton. split; [discriminate|reflexivity].
  - exact sample_vm_ok.
Defined.
