(* ===== verification/ExprLaws.v ===== *)
(** Laws of expression evaluation (src/src/vm/eval_expr.rs): expressions that
    evaluate alike in every state, three-valued logic, the desugarings of IN,
    BETWEEN and CASE, the quantified comparisons over a subquery, comparison
    and arithmetic, casts, substrings, column names and EXTRACT. *)
From S2P Require Import Prelude Values Text Like Expr ExprTypes.
From Stdlib Require Import Floats.SpecFloat.

(** ** Equivalence of expressions *)

Section Laws.
Context {S W R : Type} `{StdFns} `{!SelectExec S R} `{!OtherFunctions R}.
Implicit Types e a b c : Expr S W.
Implicit Types (m : ST (VM R) Value).

(** Two expressions are equivalent when over every row they give the same
    outcome, errors included, and leave the same state. *)
#[global] Instance expr_equiv : Equiv (Expr S W) := λ e1 e2,
  ∀ row col_map (s : VM R), eval_expr row col_map e1 s = eval_expr row col_map e2 s.
#[global] Instance expr_equivalence : Equivalence (≡@{Expr S W}).
Proof.
  split; [done| |].
  - intros e1 e2 He row cm s. symmetry. apply He.
  - intros e1 e2 e3 H1 H2 row cm s. etrans; [apply H1|apply H2].
Qed.

Lemma bind_ext {A B} (m m' : ST (VM R) A) (f g : A → ST (VM R) B) s :
  m s = m' s → (∀ v s', m' s = (Ok v, s') → f v s' = g v s') → (m ≫= f) s = (m' ≫= g) s.
Proof. intros Hm Hf. rewrite !ST_bind_unfold, Hm. destruct (m' s) as [[v|e| |] s']; try done. by apply Hf. Qed.
Lemma bind_assoc {A B C} (m : ST (VM R) A) (f : A → ST (VM R) B) (g : B → ST (VM R) C) s :
  ((m ≫= f) ≫= g) s = (m ≫= (λ v, f v ≫= g)) s.
Proof. rewrite !ST_bind_unfold. by destruct (m s) as [[v|e| |] s']. Qed.
Lemma ret_bind {A B} (v : A) (f : A → ST (VM R) B) s : (mret v ≫= f) s = f v s.
Proof. done. Qed.

#[global] Instance BinaryOp_proper : Proper ((≡) ==> (=) ==> (≡) ==> (≡)) (@BinaryOp S W).
Proof.
  intros a a' Ha op _ <- b b' Hb row cm s.
  assert (∀ f : Value → Value → Value, (l ← eval_expr row cm a; r ← eval_expr row cm b; mret (f l r)) s
    = (l ← eval_expr row cm a'; r ← eval_expr row cm b'; mret (f l r)) s) as Hg.
  { intros f. apply bind_ext; [apply Ha|]. intros v s1 _. apply bind_ext; [apply Hb|done]. }
  destruct op; cbn [eval_expr]; try apply Hg.
  - unfold eval_and. apply bind_ext; [apply Ha|]. intros v s1 _. destruct (is_falsy v); [done|]. apply bind_ext; [apply Hb|done].
  - unfold eval_or. apply bind_ext; [apply Ha|]. intros v s1 _. destruct (is_truthy v); [done|]. apply bind_ext; [apply Hb|done].
  - unfold fts_match. by rewrite (Hb row cm s).
Qed.
#[global] Instance UnaryOp_proper op : Proper ((≡) ==> (≡)) (@UnaryOp S W op).
Proof. intros a a' Ha row cm s. cbn [eval_expr]. apply bind_ext; [apply Ha|done]. Qed.
#[global] Instance IsNull_proper : Proper ((≡) ==> (=) ==> (≡)) (@IsNull S W).
Proof. intros a a' Ha n _ <- row cm s. cbn [eval_expr]. apply bind_ext; [apply Ha|done]. Qed.

(** ** Three-valued logic *)

Lemma truth_cases v : (is_null v = true ∧ is_truthy v = false ∧ is_falsy v = false)
  ∨ (is_null v = false ∧ is_truthy v = true ∧ is_falsy v = false)
  ∨ (is_null v = false ∧ is_truthy v = false ∧ is_falsy v = true).
Proof.
  unfold is_falsy. destruct (is_null v) eqn:Hn; [by destruct v; left|]. right.
  destruct (is_truthy v); [by left|by right].
Qed.
(** Evaluate by cases on whether the values met are NULL, true or false. *)
Ltac truth v :=
  let Hn := fresh in let Ht := fresh in let Hf := fresh in
  destruct (truth_cases v) as [(Hn & Ht & Hf)|[(Hn & Ht & Hf)|(Hn & Ht & Hf)]]; rewrite ?Hn, ?Ht, ?Hf.
Ltac logic :=
  repeat match goal with
  | |- context [is_null ?v] => lazymatch v with VInteger _ => fail | VNull => fail | _ => truth v end
  | |- context [is_truthy ?v] => lazymatch v with VInteger _ => fail | VNull => fail | _ => truth v end
  | |- context [is_falsy ?v] => lazymatch v with VInteger _ => fail | VNull => fail | _ => truth v end
  end; try reflexivity.

(** AND, OR and NOT of Kleene's three-valued logic, [None] being unknown. *)
Definition truth3 (v : Value) : option bool := if is_null v then None else Some (is_truthy v).
Definition of_truth3 (t : option bool) : Value := match t with Some b => VBool b | None => VNull end.
Definition and3 (x y : option bool) : option bool :=
  match x, y with
  | Some false, _ | _, Some false => Some false
  | Some true, Some true => Some true
  | _, _ => None
  end.
Definition or3 (x y : option bool) : option bool :=
  match x, y with
  | Some true, _ | _, Some true => Some true
  | Some false, Some false => Some false
  | _, _ => None
  end.
Definition connective3 (op : BinaryOperator) : option (option bool → option bool → option bool) :=
  match op with And => Some and3 | Or => Some or3 | _ => None end.

Lemma connective_op op f va vb :
  connective3 op = Some f → apply_binary_op op va vb = of_truth3 (f (truth3 va) (truth3 vb)).
Proof. intros Hf. unfold apply_binary_op, truth3. destruct op; try done; injection Hf as <-; logic. Qed.
Lemma connective_eval op f row cm a b s va s1 :
  connective3 op = Some f → eval_expr row cm a s = (Ok va, s1) →
  (∃ t, (∀ y, f (truth3 va) y = Some t) ∧ eval_expr row cm (BinaryOp a op b) s = (Ok (VBool t), s1)) ∨
  eval_expr row cm (BinaryOp a op b) s = (vb ← eval_expr row cm b; mret (of_truth3 (f (truth3 va) (truth3 vb)))) s1.
Proof.
  intros Hf Ha. destruct op; try done; injection Hf as <-; cbn [eval_expr].
  - unfold eval_and. rewrite (ST_bind_Ok _ _ _ _ _ Ha). unfold truth3. truth va.
    + right. apply bind_ext; [done|]. intros vb s2 _. f_equal. unfold mret. logic.
    + right. apply bind_ext; [done|]. intros vb s2 _. logic.
    + left. exists false. split; [|done]. by intros [[]|].
  - unfold eval_or. rewrite (ST_bind_Ok _ _ _ _ _ Ha). unfold truth3. truth va.
    + right. apply bind_ext; [done|]. intros vb s2 _. logic.
    + left. exists true. split; [|done]. by intros [[]|].
    + right. apply bind_ext; [done|]. intros vb s2 _. logic.
Qed.

Abbreviation ev_not m := (v ← m; st_lift (apply_unary_op Not v)).
Lemma not_cases v : apply_unary_op Not v = Ok (if is_null v then VNull else VBool (is_falsy v)).
Proof. unfold apply_unary_op. by truth v. Qed.
Lemma lift_bind {A B} (v : A) (f : A → ST (VM R) B) s : (st_lift (Ok v) ≫= f) s = f v s.
Proof. done. Qed.
Ltac not_step := rewrite ?not_cases, ?lift_bind; cbn [VBool is_truthy is_null is_falsy negb andb orb Z.eqb Pos.eqb].
Lemma not_and m1 m2 s : ev_not (eval_and m1 m2) s = eval_or (ev_not m1) (ev_not m2) s.
Proof.
  unfold eval_and, eval_or. rewrite !bind_assoc. apply bind_ext; [done|]. intros v s1 _. not_step.
  truth v; not_step; rewrite ?bind_assoc; try reflexivity; (apply bind_ext; [done|]); intros w s2 _; rewrite ret_bind; not_step;
    truth w; reflexivity.
Qed.
Lemma not_or m1 m2 s : ev_not (eval_or m1 m2) s = eval_and (ev_not m1) (ev_not m2) s.
Proof.
  unfold eval_and, eval_or. rewrite !bind_assoc. apply bind_ext; [done|]. intros v s1 _. not_step.
  truth v; not_step; rewrite ?bind_assoc; try reflexivity; (apply bind_ext; [done|]); intros w s2 _; rewrite ret_bind; not_step;
    truth w; reflexivity.
Qed.
Lemma and_assoc m1 m2 m3 s : eval_and (eval_and m1 m2) m3 s = eval_and m1 (eval_and m2 m3) s.
Proof.
  unfold eval_and. rewrite !bind_assoc. apply bind_ext; [done|]. intros v s1 _.
  truth v; [| |reflexivity]; rewrite !bind_assoc; (apply bind_ext; [done|]); intros w s2 _; rewrite ret_bind;
    truth w; try reflexivity; (etrans; [|symmetry; apply bind_assoc]); (apply bind_ext; [done|]); intros x s3 _;
    truth x; reflexivity.
Qed.
Lemma or_assoc m1 m2 m3 s : eval_or (eval_or m1 m2) m3 s = eval_or m1 (eval_or m2 m3) s.
Proof.
  unfold eval_or. rewrite !bind_assoc. apply bind_ext; [done|]. intros v s1 _.
  truth v; [|reflexivity|]; rewrite !bind_assoc; (apply bind_ext; [done|]); intros w s2 _; rewrite ret_bind;
    truth w; try reflexivity; (etrans; [|symmetry; apply bind_assoc]); (apply bind_ext; [done|]); intros x s3 _;
    truth x; reflexivity.
Qed.

(** ** IN *)

(** The chain [x = e1 OR (x = e2 OR (... OR 0))]. *)
Definition or_equals (x : Value) (es : list (Expr S W)) : Expr S W :=
  foldr (λ e acc, BinaryOp (BinaryOp (from_value x) Equal e) Or acc) (IntegerLiteral 0) es.
Lemma or_equals_value row cm x es s w s' :
  eval_expr row cm (or_equals x es) s = (Ok w, s') → w = of_truth3 (truth3 w).
Proof.
  destruct es as [|e es]; [by intros [= <- <-]|].
  change (or_equals x (e :: es)) with (BinaryOp (BinaryOp (from_value x) Equal e) Or (or_equals x es)).
  cbn [eval_expr]. unfold eval_or. rewrite ST_bind_unfold.
  case_match; case_match; try done. destruct (is_truthy _); [by intros [= <- <-]|]. rewrite ST_bind_unfold.
  case_match; case_match; try done. intros [= <- <-].
  match goal with |- (if is_truthy ?u then _ else if is_null ?w || _ then _ else _) = _ => truth u; truth w; reflexivity end.
Qed.
Lemma from_value_eval row cm x (s : VM R) : eval_expr row cm (from_value (S:=S) (W:=W) x) s = (Ok x, s).
Proof. by destruct x. Qed.
Lemma in_list_or row cm x es : is_null x = false →
  ∀ s, (found_null ← in_list x (map (eval_expr row cm) es) false; mret (membership false found_null)) s = eval_expr row cm (or_equals x es) s.
Proof.
  intros Hx. assert (∀ es n s, (found_null ← in_list x (map (eval_expr row cm) es) n; mret (membership false found_null)) s =
    (v ← eval_expr row cm (or_equals x es); mret (if (n : bool) then if is_truthy v then v else VNull else v)) s) as Hgen.
  { clear es. intros es. induction es as [|e es IH]; intros n s; [by destruct n|].
    change (or_equals x (e :: es)) with (BinaryOp (BinaryOp (from_value x) Equal e) Or (or_equals x es)).
    cbn [map in_list eval_expr]. unfold eval_or. rewrite !bind_assoc.
    etrans; [|symmetry; apply ST_bind_Ok, from_value_eval]. rewrite !bind_assoc. apply bind_ext; [done|]. intros v s1 _.
    rewrite ret_bind. unfold apply_binary_op. rewrite Hx. cbn [orb]. destruct (is_null v) eqn:Hv.
    - cbn [is_truthy]. rewrite (IH true), !bind_assoc. apply bind_ext; [done|]. intros w s2 Hw. rewrite ret_bind.
      apply or_equals_value in Hw. rewrite Hw. unfold truth3. destruct n; truth w; reflexivity.
    - destruct (value_eq x v); cbn [VBool is_truthy is_null Z.eqb negb]; [by destruct n|]. rewrite (IH n), !bind_assoc.
      apply bind_ext; [done|]. intros w s2 Hw. rewrite ret_bind.
      apply or_equals_value in Hw. rewrite Hw. unfold truth3. destruct n; truth w; reflexivity. }
  intros s. rewrite Hgen. rewrite ST_bind_unfold. by destruct (eval_expr row cm (or_equals x es) s) as [[v|e| |] s'].
Qed.
Lemma membership_not p : apply_unary_op Not (membership false p) = Ok (membership true p).
Proof. by destruct p as [[] []]. Qed.

(** ** Quantified comparisons *)

Definition is_comparison (op : BinaryOperator) : bool :=
  match op with Equal | NotEqual | LessThan | LessThanOrEqual | GreaterThan | GreaterThanOrEqual => true | _ => false end.
(** The first values of the rows of a subquery. *)
Definition firsts (rows : list Row) : list Value := omap head rows.
(** [val op x1 OR val op x2 OR ...] and [... AND ...]. *)
Definition any3 (op : BinaryOperator) (val : Value) (xs : list Value) : option bool :=
  foldr (λ x acc, or3 (truth3 (apply_binary_op op val x)) acc) (Some false) xs.
Definition all3 (op : BinaryOperator) (val : Value) (xs : list Value) : option bool :=
  foldr (λ x acc, and3 (truth3 (apply_binary_op op val x)) acc) (Some true) xs.

Lemma comparison_truth op val x :
  is_comparison op = true → is_null val = false →
  truth3 (apply_binary_op op val x) = if is_null x then None else Some (is_truthy (apply_binary_op op val x)).
Proof.
  intros Hop Hv. unfold apply_binary_op. rewrite Hv. cbn [orb]. destruct (is_null x); [by destruct op|]. by destruct op.
Qed.
Lemma scan_rows_any hit (f : Value → option bool) rows n :
  (∀ x, f x = if is_null x then None else Some (hit x)) →
  (let '(found, has_null) := scan_rows hit rows n in if found then Some true else if has_null then None else Some false) =
  or3 (if (n : bool) then None else Some false) (foldr (λ x acc, or3 (f x) acc) (Some false) (firsts rows)).
Proof.
  intros Hf. revert n. induction rows as [|[|v r] rows IH]; intros n; [by destruct n|apply IH|].
  change (firsts ((v :: r) :: rows)) with (v :: firsts rows). cbn [scan_rows foldr]. rewrite Hf. destruct (is_null v).
  - rewrite IH. destruct n; by destruct (foldr _ _ _) as [[]|].
  - destruct (hit v); [by destruct n|]. rewrite IH. destruct n; by destruct (foldr _ _ _) as [[]|].
Qed.
Lemma any_rows_or op val rows :
  is_comparison op = true → is_null val = false → any_rows op val rows = of_truth3 (any3 op val (firsts rows)).
Proof.
  intros Hop Hv. unfold any_rows, any3.
  pose proof (scan_rows_any (λ v, is_truthy (apply_binary_op op val v)) (λ x, truth3 (apply_binary_op op val x)) rows false) as Hs.
  specialize (Hs (λ x, comparison_truth op val x Hop Hv)). cbv beta in Hs.
  destruct (scan_rows _ rows false) as [[] []]; destruct (foldr _ _ _) as [[]|]; try done.
Qed.
Lemma and3_or3 x y : negb <$> and3 x y = or3 (negb <$> x) (negb <$> y).
Proof. by destruct x as [[]|], y as [[]|]. Qed.
Lemma all_rows_and op val rows :
  is_comparison op = true → is_null val = false → all_rows op val rows = of_truth3 (all3 op val (firsts rows)).
Proof.
  intros Hop Hv. unfold all_rows, all3.
  pose proof (scan_rows_any (λ v, negb (is_truthy (apply_binary_op op val v))) (λ x, negb <$> truth3 (apply_binary_op op val x)) rows false) as Hs.
  assert (∀ l, foldr (λ x acc, or3 (negb <$> truth3 (apply_binary_op op val x)) acc) (Some false) l =
    negb <$> foldr (λ x acc, and3 (truth3 (apply_binary_op op val x)) acc) (Some true) l) as Hneg.
  { induction l as [|x l IHl]; [done|]. cbn [foldr]. by rewrite and3_or3, IHl. }
  rewrite Hneg in Hs. specialize (Hs ltac:(intros x; rewrite (comparison_truth op val x Hop Hv); by destruct (is_null x))).
  destruct (scan_rows _ rows false) as [[] []]; destruct (foldr _ _ _) as [[]|]; try done.
Qed.
Lemma membership_any val rows :
  is_null val = false → membership false (scan_rows (value_eq val) rows false) = any_rows Equal val rows ∧
  membership true (scan_rows (value_eq val) rows false) = all_rows NotEqual val rows.
Proof.
  intros Hv. assert (∀ hit n, (∀ x, is_null x = false → hit x = value_eq val x) → scan_rows hit rows n = scan_rows (value_eq val) rows n) as Hext.
  { intros hit n Hh. revert n. induction rows as [|[|v r] l IH]; intros n; [done|apply IH|]. cbn [scan_rows].
    destruct (is_null v) eqn:E; [apply IH|]. rewrite Hh by done. destruct (value_eq val v); [done|apply IH]. }
  unfold any_rows, all_rows. rewrite (Hext (λ v, is_truthy (apply_binary_op Equal val v))), (Hext (λ v, negb (is_truthy (apply_binary_op NotEqual val v)))).
  - by destruct (scan_rows _ _ _) as [[] []].
  - intros x Hx. unfold apply_binary_op. rewrite Hv, Hx. cbn. by destruct (value_eq val x).
  - intros x Hx. unfold apply_binary_op. rewrite Hv, Hx. cbn. by destruct (value_eq val x).
Qed.
End Laws.

(** ** Columns *)

(** The keys of a column map are in lower case. *)
Definition keys_lower (scope : Row * ColMap) : Prop :=
  map_Forall (λ key _, to_ascii_lowercase key = key) scope.2.
Lemma ascii_lower_idem c : ascii_lower (ascii_lower c) = ascii_lower c.
Proof. destruct c as [[] [] [] [] [] [] [] []]; reflexivity. Qed.
Lemma to_lower_idem s : to_ascii_lowercase (to_ascii_lowercase s) = to_ascii_lowercase s.
Proof. induction s as [|c s IH]; [done|]. simpl. by rewrite ascii_lower_idem, IH. Qed.
Lemma lower_bytes_string s : lower_bytes (bytes_of_string s) = bytes_of_string (to_ascii_lowercase s).
Proof.
  induction s as [|c s IH]; [done|]. unfold lower_bytes in *. cbn [bytes_of_string map to_ascii_lowercase]. rewrite IH. f_equal.
  by destruct c as [[] [] [] [] [] [] [] []].
Qed.
Lemma qualified_key_lower t c : qualified_key t c = qualified_key (to_ascii_lowercase t) (to_ascii_lowercase c).
Proof. unfold qualified_key, push_lower. by rewrite !lower_bytes_string, !to_lower_idem. Qed.
Lemma lookup_not_lower scope key : keys_lower scope → to_ascii_lowercase key ≠ key → lookup_cell scope key = None.
Proof.
  intros Hk Hne. unfold lookup_cell. destruct (scope.2 !! key) eqn:E; [|done]. by apply Hk in E.
Qed.
Lemma lookup_either scope key :
  keys_lower scope → lookup_keys [key; to_ascii_lowercase key] scope = lookup_cell scope (to_ascii_lowercase key).
Proof.
  intros Hk. cbn [lookup_keys foldr]. destruct (decide (to_ascii_lowercase key = key)) as [->|Hne].
  - by destruct (lookup_cell scope key).
  - rewrite (lookup_not_lower _ _ Hk Hne). by destruct (lookup_cell _ _).
Qed.

(** ** Properties *)

(** [C20] Boolean expressions obey De Morgan's laws and associativity exactly: the
    two sides give the same outcome in every state, with the same errors and
    the same effects, although operands are skipped when the left one
    decides. *)
Theorem boolean_laws {S W R} `{StdFns} `{SelectExec S R} `{OtherFunctions R} (a b c : Expr S W) :
  UnaryOp Not (BinaryOp a And b) ≡ BinaryOp (UnaryOp Not a) Or (UnaryOp Not b) ∧
  UnaryOp Not (BinaryOp a Or b) ≡ BinaryOp (UnaryOp Not a) And (UnaryOp Not b) ∧
  BinaryOp (BinaryOp a And b) And c ≡ BinaryOp a And (BinaryOp b And c) ∧
  BinaryOp (BinaryOp a Or b) Or c ≡ BinaryOp a Or (BinaryOp b Or c).
Proof.
  repeat split; intros row cm s; cbn [eval_expr]; [apply not_and|apply not_or|apply and_assoc|apply or_assoc].
Qed.

(** AND and OR compute Kleene's three-valued connectives: with both operands
    evaluated the answer is the connective of their truth values, as
    [apply_binary_op] gives it; when the left operand decides, whatever the
    right one is, the right one may be skipped. *)
Theorem short_circuit_kleene {S W R} `{StdFns} `{SelectExec S R} `{OtherFunctions R} op f row cm (a b : Expr S W) (s s1 s2 : VM R) va vb :
  connective3 op = Some f → eval_expr row cm a s = (Ok va, s1) → eval_expr row cm b s1 = (Ok vb, s2) →
  apply_binary_op op va vb = of_truth3 (f (truth3 va) (truth3 vb)) ∧
  (eval_expr row cm (BinaryOp a op b) s = (Ok (of_truth3 (f (truth3 va) (truth3 vb))), s2) ∨
   (∀ y, f (truth3 va) y = f (truth3 va) (truth3 vb)) ∧
   eval_expr row cm (BinaryOp a op b) s = (Ok (of_truth3 (f (truth3 va) (truth3 vb))), s1)).
Proof.
  intros Hf Ha Hb. split; [by apply connective_op|].
  destruct (connective_eval _ _ row cm a b s va s1 Hf Ha) as [(t & Ht & Hrun)|Hrun].
  - right. rewrite Hrun, Ht. split; [|done]. intros y. by rewrite Ht.
  - left. by rewrite Hrun, (ST_bind_Ok _ _ _ _ _ Hb).
Qed.

(** IN is the OR of equalities with the value, evaluated from the left until
    one holds, with NULL for unknown; NOT IN is its negation; IFNULL is
    COALESCE of two arguments. *)
Theorem in_list_desugars {S W R} `{StdFns} `{SelectExec S R} `{OtherFunctions R} (x : Value) (e a b : Expr S W) (es : list (Expr S W)) :
  is_null x = false →
  InList (from_value x) es false ≡ or_equals x es ∧
  InList e es true ≡ UnaryOp Not (InList e es false) ∧
  Function "IFNULL" [a; b] false ≡ Function "COALESCE" [a; b] false.
Proof.
  intros Hx. split; [|split]; intros row cm s; cbn [eval_expr].
  - etrans; [apply ST_bind_Ok, from_value_eval|]. cbv beta. rewrite Hx. by apply in_list_or.
  - rewrite bind_assoc. apply bind_ext; [done|]. intros v s1 _. destruct (is_null v); [done|]. rewrite bind_assoc.
    apply bind_ext; [done|]. intros p s2 _. rewrite ret_bind, membership_not. done.
  - change (eval_function "IFNULL" [a; b] (map (eval_expr row cm) [a; b])) with (fn_ifnull [eval_expr row cm a; eval_expr row cm b]).
    change (eval_function "COALESCE" [a; b] (map (eval_expr row cm) [a; b])) with (coalesce [eval_expr row cm a; eval_expr row cm b]).
    unfold fn_ifnull, need. rewrite decide_False by (simpl; lia). cbn [coalesce]. unfold arg. cbn [lookup list_lookup].
    apply bind_ext; [done|]. intros v s1 _. destruct (is_null v) eqn:Hv; [|done].
    rewrite ST_bind_unfold. destruct (eval_expr row cm b s1) as [[w|?| |] s2]; try done. destruct (is_null w) eqn:Hw; [|done].
    by destruct w.
Qed.

(** A comparison quantified over a subquery is the three-valued OR (ANY) or
    AND (ALL) of the comparisons with its rows, IN is [= ANY] and NOT IN is
    [<> ALL], for a value that is not NULL. *)
Theorem quantified_comparisons {S W R} `{StdFns} `{SelectExec S R} `{OtherFunctions R} op row cm (e : Expr S W) (q : S) (s s1 s2 : VM R) v cols rows :
  is_comparison op = true → is_null v = false →
  eval_expr row cm e s = (Ok v, s1) → with_outer_row row cm q s1 = (Ok (QueryResult cols rows), s2) →
  eval_expr row cm (AnyOp e op q) s = (Ok (of_truth3 (any3 op v (firsts rows))), s2) ∧
  eval_expr row cm (AllOp e op q) s = (Ok (of_truth3 (all3 op v (firsts rows))), s2) ∧
  eval_expr row cm (InSubquery e q false) s = eval_expr row cm (AnyOp e Equal q) s ∧
  eval_expr row cm (InSubquery e q true) s = eval_expr row cm (AllOp e NotEqual q) s.
Proof.
  intros Hop Hv He Hq.
  assert (∀ what (k : list Row → Value), (rows ← subquery_rows what row cm q; mret (k rows)) s1 = (Ok (k rows), s2)) as Hk.
  { intros what k. unfold subquery_rows. rewrite bind_assoc. by rewrite (ST_bind_Ok _ _ _ _ _ Hq). }
  cbn [eval_expr]. rewrite !(ST_bind_Ok _ _ _ _ _ He), Hv, !Hk.
  destruct (membership_any v rows Hv) as [-> ->]. rewrite (any_rows_or op), (all_rows_and op) by done. done.
Qed.

(** With NULL on the left the code does not look at the subquery: over an
    empty one the answer is NULL, where OR over nothing is false and AND over
    nothing is true. *)
Theorem null_quantifier_skips_subquery {S W R} `{StdFns} `{SelectExec S R} `{OtherFunctions R} op row cm (q : S) (s : VM R) :
  eval_expr (WindowSpec:=W) row cm (AnyOp ENull op q) s = (Ok VNull, s) ∧ of_truth3 (any3 op VNull []) = VInteger 0 ∧
  eval_expr (WindowSpec:=W) row cm (AllOp ENull op q) s = (Ok VNull, s) ∧ of_truth3 (all3 op VNull []) = VInteger 1.
Proof. done. Qed.

(** Column names are looked up without regard to case: a qualified name, in
    lower case, in the innermost scope that has it, otherwise the plain name,
    in lower case, in the innermost scope that has it; no scope having it is
    the only error. *)
Theorem column_resolution row (cm : ColMap) outer table column :
  Forall keys_lower ((row, cm) :: outer) →
  resolve_column row cm outer table column =
    match (t ← table; lookup_scopes [qualified_key (to_ascii_lowercase t) (to_ascii_lowercase column)] ((row, cm) :: rev outer)) with
    | Some v => Ok v
    | None =>
        match lookup_scopes [to_ascii_lowercase column] ((row, cm) :: rev outer) with
        | Some v => Ok v
        | None => Err (ColumnNotFound column)
        end
    end.
Proof.
  intros Hk. inversion_clear Hk as [|? ? Hk0 Ho]. unfold resolve_column. cbv zeta.
  assert (∀ l : list (Row * ColMap), Forall keys_lower l →
    lookup_scopes [column; to_ascii_lowercase column] l = lookup_scopes [to_ascii_lowercase column] l) as Hs.
  { induction 1 as [|o l Hl _ IH]; [done|]. unfold lookup_scopes in *. cbn [foldr]. rewrite lookup_either, IH by done. cbn [lookup_keys foldr].
    by destruct (lookup_cell o (to_ascii_lowercase column)). }
  destruct table as [t|]; cbn [mbind option_bind].
  1: rewrite (qualified_key_lower t column); destruct (lookup_scopes [qualified_key _ _] _); [done|].
  all: rewrite Hs by (by apply Forall_rev); unfold lookup_scopes; cbn [foldr lookup_keys];
    destruct (String.eqb_spec (to_ascii_lowercase column) column) as [E|E].
  1, 3: rewrite E; by destruct (lookup_cell (row, cm) column).
  all: rewrite (lookup_not_lower (row, cm) column Hk0 E); by destruct (lookup_cell (row, cm) (to_ascii_lowercase column)).
Qed.

(** *** Instances *)

(** [(7 = NULL) AND (1 = 2)]: unknown and false is false. *)
Lemma short_circuit_kleene_witness :
  let _ := ascii_std in let _ := count_select in let _ := no_functions in
  let a : Expr nat unit := BinaryOp (IntegerLiteral 7) Equal ENull in
  let b : Expr nat unit := BinaryOp (IntegerLiteral 1) Equal (IntegerLiteral 2) in
  eval_expr [] ∅ (BinaryOp a And b) sample_vm = (Ok (VInteger 0), sample_vm).
Proof.
  intros Hstd Hsel Hfn a b.
  destruct (short_circuit_kleene And and3 [] ∅ a b sample_vm sample_vm sample_vm VNull (VInteger 0) eq_refl eq_refl eq_refl)
    as [_ [Hrun|[_ Hrun]]]; exact Hrun.
Defined.
(** [3 IN (1, NULL, 3)] *)
Lemma in_list_desugars_witness :
  let _ := ascii_std in let _ := count_select in let _ := no_functions in
  let es : list (Expr nat unit) := [IntegerLiteral 1; ENull; IntegerLiteral 3] in
  eval_expr [] ∅ (InList (IntegerLiteral 3) es false) sample_vm = eval_expr [] ∅ (or_equals (VInteger 3) es) sample_vm ∧
  eval_expr [] ∅ (or_equals (VInteger 3) es) sample_vm = (Ok (VInteger 1), sample_vm).
Proof.
  intros Hstd Hsel Hfn es. split; [|vm_compute; reflexivity].
  destruct (in_list_desugars (R:=unit) (VInteger 3) ENull ENull ENull es eq_refl) as (Hin & _). apply Hin.
Defined.
(** [2 > ALL (1, 2, 3)] *)
Lemma quantified_comparisons_witness :
  let _ := ascii_std in let _ := count_select in let _ := no_functions in
  eval_expr [] ∅ (AllOp (IntegerLiteral 2) GreaterThan 3%nat : Expr nat unit) sample_vm = (Ok (VInteger 0), sample_vm).
Proof.
  intros Hstd Hsel Hfn.
  assert (with_outer_row [] ∅ 3%nat sample_vm
    = (Ok (QueryResult ["n"%string] [[VInteger 1]; [VInteger 2]; [VInteger 3]]), sample_vm)) as Hq by (vm_compute; reflexivity).
  destruct (quantified_comparisons (S:=nat) (W:=unit) (R:=unit) GreaterThan [] ∅ (IntegerLiteral 2) 3%nat sample_vm sample_vm sample_vm
    (VInteger 2) _ _ eq_refl eq_refl eq_refl Hq) as (_ & Hall & _).
  rewrite Hall. reflexivity.
Defined.
(** [T.A] with a table [t] outside: the inner scope has a column [a] too. *)
Lemma column_resolution_witness :
  let inner : ColMap := {["a"%string := 0%nat]} in
  let outer : ColMap := {["t.a"%string := 1%nat]} in
  resolve_column [VInteger 1] inner [([VInteger 2; VInteger 3], outer)] (Some "T"%string) "A" = Ok (VInteger 3) ∧
  resolve_column [VInteger 1] inner [([VInteger 2; VInteger 3], outer)] None "A" = Ok (VInteger 1).
Proof.
  intros inner outer. assert (Forall keys_lower [([VInteger 1], inner); ([VInteger 2; VInteger 3], outer)]) as Hk.
  { repeat constructor; apply map_Forall_singleton; reflexivity. }
  split; rewrite (column_resolution _ _ _ _ _ Hk); vm_compute; reflexivity.
Defined.
