(* ===== verification/ExprFns.v ===== *)
(** The scalar side of SQL expressions (src/src/vm/eval_expr.rs): comparison
    operators, integer arithmetic at 64 bits, CAST, SUBSTR, INSTR and EXTRACT,
    and the functions that do not do what they mean to. *)
From S2P Require Import Prelude Values Text Like Expr ExprTypes.
From Stdlib Require Import Floats.SpecFloat.

(** ** Comparison *)

Definition holds `{StdFns} (op : BinaryOperator) (a b : Value) : bool := is_truthy (apply_binary_op op a b).
Lemma holds_cmp `{StdFns} a b :
  is_null a = false → is_null b = false →
  holds Equal a b = value_eq a b ∧ holds NotEqual a b = negb (value_eq a b) ∧
  holds LessThan a b = cmp_is a b Lt ∧ holds GreaterThan a b = cmp_is a b Gt ∧
  holds LessThanOrEqual a b = cmp_is_not a b Gt ∧ holds GreaterThanOrEqual a b = cmp_is_not a b Lt.
Proof.
  intros Ha Hb. unfold holds, apply_binary_op. rewrite Ha, Hb. cbn [orb].
  assert (∀ c : bool, is_truthy (VBool c) = c) as Ht by (by intros []). by rewrite !Ht.
Qed.
Lemma value_eq_cmp a b : value_eq a b = match partial_cmp a b with Some Eq => true | _ => false end.
Proof.
  destruct (value_cmp_consistent a b) as [He _]. destruct (value_eq a b).
  - by rewrite (proj1 He eq_refl).
  - destruct (partial_cmp a b) as [[]|]; try done. by destruct He as [_ He]; specialize (He eq_refl).
Qed.

(** ** Integers *)

Lemma as_i64_congr z : ∃ k, as_i64 z = z + k * 2 ^ 64.
Proof.
  unfold as_i64. pose proof (Z.div_mod z (2 ^ 64) ltac:(lia)). destruct (z mod 2 ^ 64 <? 2 ^ 63).
  - exists (- (z / 2 ^ 64)). lia.
  - exists (- (z / 2 ^ 64) - 1). lia.
Qed.
Lemma quot_range a b : is_i64 a → b ≠ 0 → ¬ (a = - 2 ^ 63 ∧ b = -1) → is_i64 (Z.quot a b).
Proof.
  unfold is_i64. intros Ha Hb Hne. destruct (decide (b = -1)) as [->|Hb1].
  - change (-1) with (- (1)). rewrite Z.quot_opp_r, Z.quot_1_r by lia. lia.
  - destruct (decide (b = 1)) as [->|Hb2]; [rewrite Z.quot_1_r; lia|].
    assert (2 * Z.abs (Z.quot a b) ≤ Z.abs a); [|lia]. rewrite <- Z.quot_abs by done.
    pose proof (Z.quot_rem' (Z.abs a) (Z.abs b)). pose proof (Z.rem_bound_pos (Z.abs a) (Z.abs b) ltac:(lia) ltac:(lia)).
    pose proof (Z.quot_pos (Z.abs a) (Z.abs b) ltac:(lia) ltac:(lia)). nia.
Qed.
Lemma rem_range a b : is_i64 a → is_i64 b → b ≠ 0 → is_i64 (Z.rem a b).
Proof.
  unfold is_i64. intros Ha Hb Hne. assert (Z.abs (Z.rem a b) < Z.abs b); [|lia]. by apply Z.rem_bound_abs.
Qed.

(** ** Text *)

Lemma chars_ascii l : Forall (λ b, 0 ≤ b < 0x80) l → chars l = l.
Proof. induction 1 as [|b l Hb _ IH]; [done|]. cbn [chars]. destruct (Z.leb_spec b 0x7F); [by rewrite IH|lia]. Qed.
Lemma trim_none s : text_ok s → Forall (λ c, is_whitespace c = false) (chars s) → trim s = s.
Proof.
  intros Hs Hw. unfold trim, trim_matches. rewrite (drop_while_none _ (chars s)) by done.
  rewrite drop_while_none by (by apply Forall_rev). rewrite rev_involutive. by apply chars_text.
Qed.
Lemma show_i64_ascii v : Forall (λ b, 45 ≤ b ≤ 57) (show_i64 v).
Proof.
  unfold show_i64. destruct (Z.ltb_spec v 0).
  - constructor; [lia|]. destruct (show_N_spec (- v)) as (_ & Hf & _); [lia|]. eapply Forall_impl; [exact Hf|]; cbn; lia.
  - destruct (show_N_spec v) as (_ & Hf & _); [lia|]. eapply Forall_impl; [exact Hf|]; cbn; lia.
Qed.
Lemma trim_show_i64 v : trim (show_i64 v) = show_i64 v.
Proof.
  pose proof (show_i64_ascii v) as Hs. apply trim_none; [apply show_i64_text|]. rewrite chars_ascii.
  - eapply Forall_impl; [exact Hs|]. cbn. intros x Hx. unfold is_whitespace.
    repeat match goal with
    | |- context [?a <=? ?b] => destruct (Z.leb_spec a b); try lia; cbn [andb orb]
    | |- context [?a =? ?b] => destruct (Z.eqb_spec a b); try lia; cbn [andb orb]
    end; done.
  - eapply Forall_impl; [exact Hs|]; cbn; lia.
Qed.

(** A byte of a text that does not continue a character starts one. *)
Definition continues (b : Z) : bool := (0x80 <=? b) && (b <? 0xC0).
Lemma char_boundary t k x r :
  text_ok t → drop k t = x :: r → continues x = false → text_ok (take k t) ∧ text_ok (drop k t) ∧ chars t = chars (take k t) ++ chars (drop k t).
Proof.
  remember (length t) as n eqn:Hn. revert t k Hn. induction (lt_wf n) as [n _ IH]. intros t k -> Ht Hd Hx.
  assert (text_ok []) as Hnil by (by apply ascii_text).
  destruct k as [|k]; [rewrite drop_0, take_0; by split_and!|].
  apply utf8_head in Ht as [->|(c & t' & Hc & -> & Ht')]; [done|]. pose proof (utf8_encode_chars c t' Hc) as Hct.
  assert (text_ok (utf8_encode c) ∧ chars (utf8_encode c) = [c]) as [Hec Hcc].
  { pose proof (utf8_encode_chars c [] Hc) as He. pose proof (utf8_encode_valid c [] Hc) as Hv. rewrite app_nil_r in He, Hv.
    split; [split; [by apply utf8_encode_bytes|done]|done]. }
  destruct (decide (S k < length (utf8_encode c))%nat) as [Hlt|Hge].
  - exfalso. unfold utf8_encode, is_char in *. unfold continues in Hx.
    destruct (c <? 0x80); [simpl in Hlt; lia|]. destruct (c <? 0x800); [|destruct (c <? 0x10000)]; simpl in Hlt;
      (do 3 (first [lia|destruct k as [|k]; [simpl in Hd; injection Hd as <- _; rewrite ?andb_false_iff, ?Z.leb_gt, ?Z.ltb_ge in Hx; div_lia|]])); lia.
  - destruct (IH (length t')) with (t := t') (k := (S k - length (utf8_encode c))%nat) as (H1 & H2 & H3); [|done|done| |done|].
    { rewrite length_app. unfold utf8_encode. repeat case_match; simpl; lia. }
    { rewrite drop_app_ge in Hd by lia. exact Hd. }
    rewrite take_app_ge, drop_app_ge by lia. destruct (text_app _ _ Hec H1) as [H4 H5]. split_and!; [done|done|].
    by rewrite Hct, H5, Hcc, H3.
Qed.
Lemma starts_with_spec p s : starts_with p s = true ↔ ∃ r, s = p ++ r.
Proof.
  revert s. induction p as [|x p IH]; intros s; [split; [by exists s|done]|]. destruct s as [|y s]; simpl.
  - split; [done|]. by intros [r ?].
  - rewrite andb_true_iff, Z.eqb_eq, IH. split; [intros [-> [r ->]]; by exists r|]. intros [r [= -> ->]]. split; [done|by exists r].
Qed.
Lemma find_sub_spec p s : match find_sub p s with
  | Some k => (∃ r, drop k s = p ++ r) ∧ (k ≤ length s)%nat ∧ ∀ j r, (j < k)%nat → drop j s ≠ p ++ r
  | None => ∀ j r, drop j s ≠ p ++ r
  end.
Proof.
  induction s as [|y s IH]; cbn [find_sub]; destruct (starts_with p _) eqn:E.
  - apply starts_with_spec in E. split; [done|]. split; [lia|]. intros; lia.
  - intros j r Hj. assert (starts_with p [] = true) by (apply starts_with_spec; exists r; by destruct j). congruence.
  - apply starts_with_spec in E. split; [done|]. split; [lia|]. intros; lia.
  - assert (∀ r, drop 0 (y :: s) ≠ p ++ r) as H0.
    { intros r Hr. assert (starts_with p (y :: s) = true) by (apply starts_with_spec; by exists r). congruence. }
    destruct (find_sub p s) as [k|]; simpl.
    + destruct IH as (Hr & Hk & Hj). split; [done|]. split; [lia|]. intros [|j] r Hlt; [apply H0|]. apply Hj. lia.
    + intros [|j] r; [apply H0|apply IH].
Qed.

(** ** EXTRACT *)

Lemma pad_digits w n : 0 ≤ n < 10 ^ Z.of_nat w → (0 < w)%nat →
  length (pad w n) = w ∧ parse_digits 0 (pad w n) = Some n ∧ Forall (λ b, 48 ≤ b ≤ 57) (pad w n).
Proof.
  intros Hn Hw. unfold pad. destruct (Z.ltb_spec n 0); [lia|]. cbn [app length]. rewrite Z.abs_eq, Nat.sub_0_r by lia.
  destruct (show_N_spec n) as (Hp & Hf & Hne); [lia|].
  assert (length (show_N n) ≤ w)%nat as Hl.
  { assert (∀ fuel m v, 0 ≤ v < 10 ^ Z.of_nat m → (0 < m)%nat → (length (show_digits fuel v []) ≤ m)%nat) as Hs; [|by apply Hs].
    clear. induction fuel as [|fuel IH]; intros m v Hv Hm; [simpl; lia|]. cbn [show_digits].
    destruct (Z.ltb_spec v 10); [simpl; lia|]. rewrite show_digits_app, length_app. cbn [length].
    destruct m as [|[|m]]; [lia|simpl in Hv; lia|].
    replace (Z.of_nat (S (S m))) with (Z.of_nat (S m) + 1) in Hv by lia. rewrite Z.pow_add_r in Hv by lia.
    assert (length (show_digits fuel (v / 10) []) ≤ S m)%nat; [|lia].
    apply IH; [split; [apply Z.div_pos; lia|apply Z.div_lt_upper_bound; lia]|lia]. }
  split_and!.
  - rewrite length_app, length_replicate. lia.
  - rewrite parse_digits_app. assert (∀ k, parse_digits 0 (replicate k 48) = Some 0) as -> by (induction k; done). exact Hp.
  - apply Forall_app_2; [|done]. apply Forall_replicate. lia.
Qed.
Lemma parse_pad w n : 0 ≤ n < 10 ^ Z.of_nat w → (0 < w)%nat → n < 2 ^ 63 → parse_i64 (pad w n) = Some n.
Proof.
  intros Hn Hw Hmax. destruct (pad_digits w n Hn Hw) as (Hl & Hp & Hf). unfold parse_i64. destruct (pad w n) as [|b l]; [simpl in Hl; lia|].
  inversion Hf as [|? ? Hb _]; subst. destruct (Z.eqb_spec b 43); [lia|]. destruct (Z.eqb_spec b 45); [lia|]. rewrite Hp. cbn [mbind option_bind].
  destruct (Z.leb_spec (- 2 ^ 63) n); [|lia]. by destruct (Z.ltb_spec n (2 ^ 63)); [|lia].
Qed.
(** A field of fixed width between separators. *)
Lemma field_at pre w n post :
  0 ≤ n < 10 ^ Z.of_nat w → (0 < w)%nat → n < 2 ^ 63 →
  parse_field (pre ++ pad w n ++ post) (zlen pre) (zlen pre + Z.of_nat w) = Some n.
Proof.
  intros Hn Hw Hmax. destruct (pad_digits w n Hn Hw) as (Hl & _). unfold parse_field.
  destruct (Z.leb_spec (zlen pre + Z.of_nat w) (zlen (pre ++ pad w n ++ post))) as [_|Hlt].
  2: { rewrite !zlen_app in Hlt. unfold zlen in *. lia. }
  unfold sub, zlen. replace (Z.to_nat (Z.of_nat (length pre) + Z.of_nat w - Z.of_nat (length pre))) with w by lia.
  rewrite Nat2Z.id, drop_app_length. replace (take w (pad w n ++ post)) with (pad w n); [by apply parse_pad|].
  rewrite take_app_le by lia. by rewrite take_ge by lia.
Qed.
Lemma epoch_text_fields ts : 0 ≤ ts < 253402300800 →
  let '(y, m, d, h, mi, s) := epoch_secs_to_datetime ts in
  0 ≤ y < 10 ^ 4 ∧ 0 ≤ m < 10 ^ 2 ∧ 0 ≤ d < 10 ^ 2 ∧ 0 ≤ h < 10 ^ 2 ∧ 0 ≤ mi < 10 ^ 2 ∧ 0 ≤ s < 10 ^ 2 ∧
  epoch_text ts = pad 4 y ++ 45 :: pad 2 m ++ 45 :: pad 2 d ++ 32 :: pad 2 h ++ 58 :: pad 2 mi ++ 58 :: pad 2 s.
Proof.
  intros Hts. unfold epoch_secs_to_datetime, epoch_text.
  rewrite (Z.quot_div_nonneg ts) by lia. set (z := ts / 86400 + 719468).
  assert (719468 ≤ z < 719468 + 2932897) as Hz by (subst z; div_lia). destruct (Z.leb_spec 0 z); [|lia].
  rewrite (Z.quot_div_nonneg z) by lia. set (era := z / 146097). set (doe := z - era * 146097).
  assert (0 ≤ doe < 146097) as Hdoe by (subst doe era; div_lia).
  assert (4 ≤ era < 25) as Hera by (subst era; div_lia).
  rewrite (Z.quot_div_nonneg doe 1460), (Z.quot_div_nonneg doe 36524), (Z.quot_div_nonneg doe 146096) by lia.
  pose proof (year_of_era doe Hdoe) as [Hyoe Hdoy].
  assert (0 ≤ doe - doe / 1460 + doe / 36524 - doe / 146096) by div_lia.
  rewrite (Z.quot_div_nonneg (doe - doe / 1460 + doe / 36524 - doe / 146096)) by lia.
  set (yoe := (doe - doe / 1460 + doe / 36524 - doe / 146096) / 365) in *.
  rewrite (Z.quot_div_nonneg yoe 4), (Z.quot_div_nonneg yoe 100) by lia.
  set (doy := doe - (365 * yoe + yoe / 4 - yoe / 100)) in *.
  pose proof (month_of_year doy Hdoy) as (Hmp & Hm & Hd). rewrite (Z.quot_div_nonneg (5 * doy + 2)) by lia.
  set (mp := (5 * doy + 2) / 153) in *. rewrite (Z.quot_div_nonneg (153 * mp + 2)) by lia.
  set (m := if mp <? 10 then mp + 3 else mp - 9) in *. set (d := doy - (153 * mp + 2) / 5 + 1) in *.
  assert (days_in_month m ≤ 31) by (unfold days_in_month; repeat case_match; lia).
  pose proof (Z.mod_pos_bound ts 86400 ltac:(lia)) as Hs. set (s := ts mod 86400) in *.
  rewrite (Z.quot_div_nonneg s), (Z.rem_mod_nonneg s 3600), (Z.rem_mod_nonneg s 60) by lia.
  pose proof (Z.mod_pos_bound s 3600 ltac:(lia)). rewrite (Z.quot_div_nonneg (s mod 3600)) by lia.
  assert (yoe + era * 400 < 10000 ∧ (m <= 2 → yoe + era * 400 < 9999)) as [Hy Hy2].
  { split; [lia|]. intros. subst m. assert (era < 24 ∨ yoe < 399 ∨ (era = 24 ∧ yoe = 399)) as [?|[?|[Ee Ey]]] by lia; [lia|lia|].
    exfalso. assert (doe ≤ 719468 + 2932896 - 24 * 146097) by (subst doe; lia). subst mp. destruct (Z.ltb_spec ((5 * doy + 2) / 153) 10); subst doy; rewrite Ey in *; div_lia. }
  rewrite !as_u32_id by (unfold is_u32; div_lia).
  clearbody z era doe yoe doy m d s.
  split_and!; try reflexivity; try lia; destruct (Z.leb_spec m 2); lia || div_lia.
Qed.

(** ** Properties *)

(** The comparison operators agree with each other on values that are not
    NULL: [<=] is [<] or [=], [<>] is not [=], swapping the operands swaps the
    operator, and of [<], [=] and [>] exactly one holds, unless a NaN is
    involved and only [<>] holds. *)
Theorem comparison_operators `{StdFns} (a b : Value) :
  is_null a = false → is_null b = false →
  holds LessThanOrEqual a b = holds LessThan a b || holds Equal a b ∧
  holds GreaterThanOrEqual a b = holds GreaterThan a b || holds Equal a b ∧
  holds NotEqual a b = negb (holds Equal a b) ∧
  holds GreaterThan a b = holds LessThan b a ∧ holds GreaterThanOrEqual a b = holds LessThanOrEqual b a ∧
  holds Equal a b = holds Equal b a ∧
  (holds LessThan a b, holds Equal a b, holds GreaterThan a b) =
    match partial_cmp a b with
    | Some Lt => (true, false, false)
    | Some Eq => (false, true, false)
    | Some Gt => (false, false, true)
    | None => (false, false, false)
    end.
Proof.
  intros Ha Hb. destruct (holds_cmp a b Ha Hb) as (-> & -> & -> & -> & -> & ->).
  destruct (holds_cmp b a Hb Ha) as (-> & _ & -> & _ & -> & _).
  rewrite !value_eq_cmp. unfold cmp_is, cmp_is_not. destruct (value_cmp_consistent a b) as [_ ->].
  by destruct (partial_cmp a b) as [[]|].
Qed.

(** [C21] Integer arithmetic stays in the i64 range: sums, differences and products
    are exact modulo 2^64, and exact when they fit; division truncates towards
    zero and the remainder takes the sign of the dividend, division by zero
    gives NULL, and only the least integer divided by -1 overflows, to itself;
    a shift by 0 to 63 bits multiplies, modulo 2^64, or divides, rounding
    down, by a power of two, and a shift by any other amount gives NULL. *)
Theorem integer_arithmetic `{StdFns} (a b : Z) :
  is_i64 a → is_i64 b →
  (∀ op f, (op, f) ∈ [(Add, Z.add); (Subtract, Z.sub); (Multiply, Z.mul)] →
    ∃ r k, apply_binary_op op (VInteger a) (VInteger b) = VInteger r ∧ is_i64 r ∧ r = f a b + k * 2 ^ 64 ∧ (is_i64 (f a b) → r = f a b)) ∧
  (b = 0 → apply_binary_op Divide (VInteger a) (VInteger b) = VNull ∧ apply_binary_op Modulo (VInteger a) (VInteger b) = VNull) ∧
  (b ≠ 0 → ∃ q r, apply_binary_op Divide (VInteger a) (VInteger b) = VInteger q ∧ apply_binary_op Modulo (VInteger a) (VInteger b) = VInteger r ∧
    Z.abs r < Z.abs b ∧ 0 ≤ a * r ∧ (a = b * q + r ∨ a = - 2 ^ 63 ∧ b = -1 ∧ q = - 2 ^ 63 ∧ r = 0)) ∧
  (0 ≤ b < 64 → ∃ r k, apply_binary_op ShiftLeft (VInteger a) (VInteger b) = VInteger r ∧ is_i64 r ∧ r = a * 2 ^ b + k * 2 ^ 64 ∧
    apply_binary_op ShiftRight (VInteger a) (VInteger b) = VInteger (a / 2 ^ b)) ∧
  (¬ (0 ≤ b < 64) → apply_binary_op ShiftLeft (VInteger a) (VInteger b) = VNull ∧ apply_binary_op ShiftRight (VInteger a) (VInteger b) = VNull).
Proof.
  intros Ha Hb. assert (∀ z, ∃ k, is_i64 (as_i64 z) ∧ as_i64 z = z + k * 2 ^ 64 ∧ (is_i64 z → as_i64 z = z)) as Hw.
  { intros z. destruct (as_i64_congr z) as [k Hk]. exists k. split; [apply as_i64_range|]. split; [done|apply as_i64_id]. }
  split_and!.
  - intros op f Hop. rewrite !elem_of_cons, elem_of_nil in Hop.
    destruct Hop as [[= -> ->]|[[= -> ->]|[[= -> ->]|[]]]]; cbn; unfold wrapping_add, wrapping_sub, wrapping_mul.
    + destruct (Hw (a + b)) as (k & ? & ? & ?). by exists (as_i64 (a + b)), k.
    + destruct (Hw (a - b)) as (k & ? & ? & ?). by exists (as_i64 (a - b)), k.
    + destruct (Hw (a * b)) as (k & ? & ? & ?). by exists (as_i64 (a * b)), k.
  - by intros ->.
  - intros Hne. cbn. apply Z.eqb_neq in Hne as E. rewrite E. unfold wrapping_div, wrapping_rem.
    exists (as_i64 (Z.quot a b)), (as_i64 (Z.rem a b)). split; [done|]. split; [done|].
    rewrite (as_i64_id (Z.rem a b)) by (by apply rem_range). split; [by apply Z.rem_bound_abs|].
    split; [rewrite Z.mul_comm; by apply Z.rem_sign_mul|]. destruct (decide (a = - 2 ^ 63 ∧ b = -1)) as [[-> ->]|Hov]; [by right|]. left.
    rewrite as_i64_id by (by apply quot_range). apply Z.quot_rem'.
  - intros Hsh. cbn. destruct (Z.leb_spec 0 b); [|lia]. destruct (Z.ltb_spec b 64); [|lia]. cbn [andb].
    rewrite Z.shiftr_div_pow2, Z.shiftl_mul_pow2 by lia. destruct (Hw (a * 2 ^ b)) as (k & ? & ? & _).
    by exists (as_i64 (a * 2 ^ b)), k.
  - intros Hsh. cbn. destruct (Z.leb_spec 0 b), (Z.ltb_spec b 64); try lia; done.
Qed.

(** Casting an integer to TEXT and back gives the integer, and casting a text
    to BLOB and back gives the text. *)
Theorem cast_roundtrip (i : Z) (t : bytes) (try1 try2 : bool) :
  is_i64 i → text_ok t →
  (v ← cast CtText try1 (VInteger i); cast CtInteger try2 v) = Ok (VInteger i) ∧
  (v ← cast CtBlob try1 (VText t); cast CtText try2 v) = Ok (VText t).
Proof.
  intros Hi [_ Ht]. split; cbn [cast cast_text mbind res_bind].
  - by rewrite trim_show_i64, (parse_show_i64 i Hi).
  - by rewrite Ht.
Qed.

(** SUBSTR cuts at characters: the first [k] characters and the rest make up
    the text, and the first part has [k] characters or all of them. *)
Theorem substr_splits (s : bytes) (k : Z) :
  text_ok s → 0 ≤ k →
  substr s 0 (Some k) ++ substr s k None = s ∧ zlen (chars (substr s 0 (Some k))) = Z.min k (zlen (chars s)).
Proof.
  intros Hs Hk. destruct (chars_text s Hs) as [He Hf]. unfold substr. cbv zeta. rewrite Z.add_0_l.
  destruct (Z.leb_spec (zlen (chars s)) 0) as [H0|H0].
  { assert (chars s = []) as Hc by (apply zlen_0_nil; pose proof (zlen_nonneg (chars s)); lia). rewrite Hc in He.
    rewrite Hc, zlen_nil. destruct (Z.leb_spec 0 k); [|lia]. split; [by rewrite <- He|]. change (zlen (chars [])) with 0. lia. }
  unfold sub. rewrite Z.sub_0_r, drop_0. destruct (of_chars_ok (take (Z.to_nat (Z.min k (zlen (chars s)))) (chars s))) as [_ Hc]; [by apply Forall_take|].
  split.
  - destruct (Z.leb_spec (zlen (chars s)) k).
    + rewrite Z.min_r by lia. unfold zlen. by rewrite Nat2Z.id, firstn_all, He, app_nil_r.
    + rewrite Z.min_l by lia. rewrite <- of_chars_app.
      rewrite (take_ge (drop _ _)); [by rewrite take_drop|]. rewrite length_drop. unfold zlen. lia.
  - rewrite Hc. unfold zlen in *. rewrite length_take. lia.
Qed.

(** INSTR finds the first occurrence, in characters: a positive answer is the
    position where SUBSTR gives the needle back, with no occurrence starting
    before, and 0 means that there is none. *)
Theorem instr_correct (s p : bytes) :
  text_ok s → text_ok p → zlen (chars s) < 2 ^ 63 - 1 →
  ∃ r, instr (VText s) (VText p) = VInteger r ∧
    ((0 < r ∧ substr s (r - 1) (Some (zlen (chars p))) = p ∧
       ∃ k, chars (take k s) = take (Z.to_nat (r - 1)) (chars s) ∧ ∀ j q, (j < k)%nat → drop j s ≠ p ++ q)
     ∨ (r = 0 ∧ ∀ j q, drop j s ≠ p ++ q)).
Proof.
  intros Hs Hp Hlen. cbn [instr]. pose proof (find_sub_spec p s) as Hf. destruct (find_sub p s) as [k|].
  2: { exists 0. split; [done|]. by right. }
  destruct Hf as ([q Hq] & Hk & Hfirst).
  assert (text_ok (take k s) ∧ text_ok (drop k s) ∧ chars s = chars (take k s) ++ chars (drop k s)) as (H1 & H2 & H3).
  { destruct p as [|x p].
    - destruct k as [|k]; [rewrite drop_0, take_0; split_and!; [by apply ascii_text|done|done]|].
      exfalso. apply (Hfirst 0%nat s); [lia|]. by rewrite drop_0.
    - eapply char_boundary; [done|exact Hq|]. apply utf8_head in Hp as [?|(c & t & Hc & He & _)]; [done|].
      unfold utf8_encode, is_char in *. unfold continues. apply andb_false_iff. rewrite Z.leb_gt, Z.ltb_ge.
      repeat case_match; injection He as -> _; div_lia. }
  assert (text_ok q ∧ chars (drop k s) = chars p ++ chars q) as [Hqt Hqc].
  { rewrite Hq in H2 |- *. apply chars_text in Hp as Hpc. destruct Hpc as [Hpe Hpf].
    assert (∀ l, Forall is_char l → text_ok (of_chars l ++ q) → text_ok q) as Hcancel.
    { induction 1 as [|c l Hc _ IHl]; [done|]. rewrite of_chars_cons, <- app_assoc. intros [Hb Hv]. apply IHl. split.
      - by apply Forall_app in Hb as [_ Hb].
      - by rewrite utf8_encode_valid in Hv. }
    assert (text_ok q) as Hqt by (apply (Hcancel (chars p)); [done|by rewrite Hpe]). split; [done|]. by apply text_app. }
  exists (zlen (chars (take k s)) + 1). assert (zlen (chars s) = zlen (chars (take k s)) + (zlen (chars p) + zlen (chars q))) as Hlens.
  { by rewrite H3, Hqc, !zlen_app. }
  pose proof (zlen_nonneg (chars (take k s))). pose proof (zlen_nonneg (chars p)). pose proof (zlen_nonneg (chars q)).
  split; [f_equal; apply as_i64_id; unfold is_i64; lia|]. left. split; [lia|]. rewrite Z.add_simpl_r. split.
  - unfold substr. cbv zeta. destruct (chars_text p Hp) as [Hpe _]. destruct (Z.leb_spec (zlen (chars s)) (zlen (chars (take k s)))) as [Hle|Hlt].
    + rewrite <- Hpe. rewrite (zlen_0_nil (chars p)) by lia. done.
    + rewrite Z.min_l by lia. unfold sub. rewrite H3, Hqc.
      replace (Z.to_nat (zlen (chars (take k s)))) with (length (chars (take k s))) by (unfold zlen; lia). rewrite drop_app_length.
      replace (Z.to_nat (_ - _)) with (length (chars p)) by (unfold zlen; lia). by rewrite take_app_length, Hpe.
  - exists k. split; [|done]. rewrite H3. unfold zlen. by rewrite Nat2Z.id, take_app_length.
Qed.

(** One field of the text of a moment, by what stands before and after it. *)
Ltac solve_field Hfield He pre w n post :=
  rewrite (Hfield pre w n post);
    [reflexivity|rewrite He; repeat (rewrite <- ?app_assoc; simpl app); by rewrite ?app_nil_r|assumption|lia|simpl in *; lia| |];
    unfold zlen; repeat (rewrite length_app || (progress simpl length)); lia.
(** EXTRACT from a number of seconds, from 1970 to the year 9999, gives the
    fields of that moment. *)
Theorem date_extract_correct (ts : Z) :
  0 ≤ ts < 253402300800 →
  let '(y, m, d, h, mi, s) := epoch_secs_to_datetime ts in
  Forall (λ p, date_extract (bytes_of_string p.1) (VInteger ts) = VInteger p.2)
    [("year"%string, y); ("MONTH"%string, m); ("Day"%string, d); ("HOUR"%string, h); ("MINUTE"%string, mi); ("SECOND"%string, s)].
Proof.
  intros Hts. pose proof (epoch_text_fields ts Hts) as Hf. destruct (epoch_secs_to_datetime ts) as [[[[[y m] d] h] mi] s].
  destruct Hf as (Hy & Hm & Hd & Hh & Hmi & Hs & He).
  destruct (pad_digits 4 y Hy ltac:(lia)) as (Ly & _). destruct (pad_digits 2 m Hm ltac:(lia)) as (Lm & _).
  destruct (pad_digits 2 d Hd ltac:(lia)) as (Ld & _). destruct (pad_digits 2 h Hh ltac:(lia)) as (Lh & _).
  destruct (pad_digits 2 mi Hmi ltac:(lia)) as (Lmi & _).
  assert (∀ pre w n post a b, epoch_text ts = pre ++ pad w n ++ post → 0 ≤ n < 10 ^ Z.of_nat w → (0 < w)%nat → n < 2 ^ 63 →
    a = zlen pre → b = zlen pre + Z.of_nat w → parse_field (epoch_text ts) a b = Some n) as Hfield.
  { intros pre w n post a b -> ? ? ? -> ->. by apply field_at. }
  repeat constructor; cbn [fst snd date_extract]; unfold extract_field;
    match goal with |- context [string_of_bytes ?f] => set (fs := string_of_bytes f); vm_compute in fs; subst fs end;
    cbn -[parse_field epoch_text].
  - solve_field Hfield He (@nil Z) 4%nat y (45 :: pad 2 m ++ 45 :: pad 2 d ++ 32 :: pad 2 h ++ 58 :: pad 2 mi ++ 58 :: pad 2 s).
  - solve_field Hfield He (pad 4 y ++ 45 :: []) 2%nat m (45 :: pad 2 d ++ 32 :: pad 2 h ++ 58 :: pad 2 mi ++ 58 :: pad 2 s).
  - solve_field Hfield He (pad 4 y ++ 45 :: pad 2 m ++ 45 :: []) 2%nat d (32 :: pad 2 h ++ 58 :: pad 2 mi ++ 58 :: pad 2 s).
  - solve_field Hfield He (pad 4 y ++ 45 :: pad 2 m ++ 45 :: pad 2 d ++ 32 :: []) 2%nat h (58 :: pad 2 mi ++ 58 :: pad 2 s).
  - solve_field Hfield He (pad 4 y ++ 45 :: pad 2 m ++ 45 :: pad 2 d ++ 32 :: pad 2 h ++ 58 :: []) 2%nat mi (58 :: pad 2 s).
  - solve_field Hfield He (pad 4 y ++ 45 :: pad 2 m ++ 45 :: pad 2 d ++ 32 :: pad 2 h ++ 58 :: pad 2 mi ++ 58 :: []) 2%nat s (@nil Z).
Qed.

(** *** Instances *)

Lemma comparison_operators_witness :
  let _ := ascii_std in holds GreaterThan (VText [98]) (VText [97]) = holds LessThan (VText [97]) (VText [98]) ∧
  holds LessThan (VText [97]) (VText [98]) = true.
Proof.
  intros Hstd. split; [|vm_compute; reflexivity].
  destruct (comparison_operators (VText [98]) (VText [97]) eq_refl eq_refl) as (_ & _ & _ & Hgt & _). exact Hgt.
Defined.
Lemma integer_arithmetic_witness :
  let _ := ascii_std in ∃ q r, apply_binary_op Divide (VInteger (- 2 ^ 63)) (VInteger (-1)) = VInteger q ∧
    apply_binary_op Modulo (VInteger (- 2 ^ 63)) (VInteger (-1)) = VInteger r ∧ q = - 2 ^ 63 ∧ r = 0.
Proof.
  intros Hstd. destruct (integer_arithmetic (- 2 ^ 63) (-1)) as (_ & _ & Hdiv & _).
  - split; [discriminate|reflexivity].
  - split; [discriminate|reflexivity].
  - destruct (Hdiv ltac:(discriminate)) as (q & r & Hq & Hr & _). exists q, r. split; [exact Hq|]. split; [exact Hr|].
    vm_compute in Hq, Hr. injection Hq as <-. injection Hr as <-. split; reflexivity.
Defined.
Lemma cast_roundtrip_witness :
  (v ← cast CtText false (VInteger (-120)); cast CtInteger false v) = Ok (VInteger (-120)) ∧
  cast CtText false (VInteger (-120)) = Ok (VText [45; 49; 50; 48]).
Proof.
  split; [|vm_compute; reflexivity]. apply (cast_roundtrip (-120) [] false false).
  - split; [discriminate|reflexivity].
  - split; [constructor|reflexivity].
Defined.
(** The text [aé✓] cut after two characters, and the position of [✓]. *)
Lemma tick_text : text_ok [97; 0xC3; 0xA9; 0xE2; 0x9C; 0x93].
Proof. split; [|reflexivity]. repeat (constructor; [split; [discriminate|reflexivity]|]). constructor. Qed.
Lemma substr_splits_witness :
  substr [97; 0xC3; 0xA9; 0xE2; 0x9C; 0x93] 0 (Some 2) = [97; 0xC3; 0xA9] ∧
  substr [97; 0xC3; 0xA9; 0xE2; 0x9C; 0x93] 0 (Some 2) ++ substr [97; 0xC3; 0xA9; 0xE2; 0x9C; 0x93] 2 None = [97; 0xC3; 0xA9; 0xE2; 0x9C; 0x93].
Proof.
  split; [vm_compute; reflexivity|]. apply (substr_splits [97; 0xC3; 0xA9; 0xE2; 0x9C; 0x93] 2 tick_text). discriminate.
Defined.
Lemma instr_correct_witness :
  ∃ r, instr (VText [97; 0xC3; 0xA9; 0xE2; 0x9C; 0x93]) (VText [0xE2; 0x9C; 0x93]) = VInteger r ∧ r = 3.
Proof.
  destruct (instr_correct [97; 0xC3; 0xA9; 0xE2; 0x9C; 0x93] [0xE2; 0x9C; 0x93]) as (r & Hr & _).
  - exact tick_text.
  - split; [repeat (constructor; [split; [discriminate|reflexivity]|]); constructor|reflexivity].
  - vm_compute. reflexivity.
  - exists r. split; [exact Hr|]. vm_compute in Hr. injection Hr as <-. reflexivity.
Defined.
(** 2024-02-29 12:00:00 *)
Lemma date_extract_correct_witness :
  date_extract (bytes_of_string "Day") (VInteger 1709208000) = VInteger 29 ∧
  let '(y, m, d, h, mi, s) := epoch_secs_to_datetime 1709208000 in
  Forall (λ p, date_extract (bytes_of_string p.1) (VInteger 1709208000) = VInteger p.2)
    [("year"%string, y); ("MONTH"%string, m); ("Day"%string, d); ("HOUR"%string, h); ("MINUTE"%string, mi); ("SECOND"%string, s)].
Proof. split; [vm_compute; reflexivity|]. apply (date_extract_correct 1709208000). split; [discriminate|reflexivity]. Defined.

(** ** What does not hold *)

(** One second before 1970 is the 31st of December 1969, but the day is
    computed by a division that truncates while the time of day is not: the
    date is a day late. *)
Theorem date_extract_negative :
  date_extract (bytes_of_string "DAY") (VInteger (-1)) = VInteger 1 ∧
  date_extract (bytes_of_string "YEAR") (VInteger (-1)) = VInteger 1970 ∧
  date_extract (bytes_of_string "HOUR") (VInteger (-1)) = VInteger 23 ∧
  days_from_civil 1969 12 31 = -1 / 86400.
Proof. repeat split; vm_compute; reflexivity. Qed.

(** [5 BETWEEN 10 AND NULL] is unknown although [5 >= 10] is false, so the
    conjunction it stands for is false; [5 NOT BETWEEN 10 AND NULL] does not
    hold either. *)
Theorem between_null_unknown `{StdFns} :
  between (VInteger 5) (VInteger 10) VNull false = VNull ∧ between (VInteger 5) (VInteger 10) VNull true = VNull ∧
  apply_binary_op And (apply_binary_op GreaterThanOrEqual (VInteger 5) (VInteger 10))
    (apply_binary_op LessThanOrEqual (VInteger 5) VNull) = VInteger 0.
Proof. done. Qed.

(** The exponent of POWER is cut to 32 bits: 2 to the power 2^32 is 1. *)
Theorem power_exponent_wraps `{StdFns} :
  power (VInteger 2) (VInteger (2 ^ 32)) = VInteger 1 ∧ power (VInteger 3) (VInteger (2 ^ 32 + 2)) = VInteger 9.
Proof. split; vm_compute; reflexivity. Qed.

(** SIGN of the real 0.0 is 1.0, of the integer 0 it is 0. *)
Theorem sign_of_zero :
  on_number (λ v, VInteger (Z.sgn v)) (λ bits, VReal (f64_signum bits)) (VReal 0) = VReal 0x3FF0000000000000 ∧
  f64_of_bits 0x3FF0000000000000 = f64_of_i64 1 ∧
  on_number (λ v, VInteger (Z.sgn v)) (λ bits, VReal (f64_signum bits)) (VInteger 0) = VInteger 0.
Proof. repeat split; vm_compute; reflexivity. Qed.

(** A cast of non-numeric text to INTEGER is meant to fail, but the texts
    [nan] and [infinity] give numbers. *)
Theorem cast_nan_to_integer :
  cast CtInteger false (VText (bytes_of_string "nan")) = Ok (VInteger 0) ∧
  cast CtInteger false (VText (bytes_of_string "infinity")) = Ok (VInteger (2 ^ 63 - 1)) ∧
  is_Err (cast CtInteger false (VText (bytes_of_string "nil"))) = true.
Proof. repeat split; vm_compute; reflexivity. Qed.
