(* ===== verification/Binlog.v ===== *)
(** The binary log: src/src/binlog/mod.rs, the records and their encoding,
    and [BinlogManager], the append-only file of checksummed frames.

    A host is the log file as the operating system has it ([disk], of which
    [synced] bytes are known to survive a crash) and the manager with the
    buffer of its [BufWriter].  [crc32fast] is third-party: [Crc32] states the
    one fact the code relies on.  The theorems: records round-trip through
    their encoding; the manager refines an abstract list of records of which
    a prefix is durable ([binlog_refines_log]); scanning arbitrary file
    contents ends, in bounds. *)
From S2P Require Import Prelude Varint PrefixCompress Values FileIO.

(** ** Records *)

(** [LogRecord]: strings are their UTF-8 bytes. *)
Inductive LogRecord : Type :=
  | Begin (txid : Z)
  | Insert (txid : Z) (table_name : bytes) (rowid : Z) (row : Row)
  | Update (txid : Z) (table_name : bytes) (rowid : Z) (old_row new_row : Row)
  | Delete (txid : Z) (table_name : bytes) (rowid : Z) (row : option Row)
  | Prepare (txid : Z)
  | Commit (txid : Z)
  | Rollback (txid : Z)
  | Sql (sql user_id : bytes) (raft_index : Z).

#[export] Instance LogRecord_eq_dec : EqDecision LogRecord.
Proof. solve_decision. Defined.

Definition write_string (s buf : bytes) : bytes := write_varint_u64 (zlen s) buf ++ s.
Definition write_row (row : Row) (buf : bytes) : bytes :=
  let row_buf := serialize_row_into row [] in
  write_varint_u64 (zlen row_buf) buf ++ row_buf.

(** [LogRecord::serialize]: writing to a vector never fails. *)
Definition serialize_record (r : LogRecord) (buf : bytes) : bytes :=
  match r with
  | Begin txid => write_varint_u64 txid (buf ++ [1])
  | Insert txid table_name rowid row =>
      let buf := write_varint_u64 txid (buf ++ [2]) in
      let buf := write_string table_name buf in
      let buf := write_varint_u64 (zigzag_encode rowid) buf in
      write_row row buf
  | Update txid table_name rowid old_row new_row =>
      let buf := write_varint_u64 txid (buf ++ [3]) in
      let buf := write_string table_name buf in
      let buf := write_varint_u64 (zigzag_encode rowid) buf in
      write_row new_row (write_row old_row buf)
  | Delete txid table_name rowid row =>
      let buf := write_varint_u64 txid (buf ++ [4]) in
      let buf := write_string table_name buf in
      let buf := write_varint_u64 (zigzag_encode rowid) buf in
      match row with
      | Some r => write_row r (buf ++ [1])
      | None => buf ++ [0]
      end
  | Prepare txid => write_varint_u64 txid (buf ++ [5])
  | Commit txid => write_varint_u64 txid (buf ++ [6])
  | Rollback txid => write_varint_u64 txid (buf ++ [7])
  | Sql sql user_id raft_index =>
      write_string user_id (write_string sql (write_varint_u64 raft_index (buf ++ [8])))
  end.

(** Code that returns an [Option] and may panic. *)
Definition ropt (A : Type) : Type := res (option A).
#[export] Instance ropt_ret : MRet ropt := λ A a, Ok (Some a).
#[export] Instance ropt_bind : MBind ropt := λ A B f m,
  match m with
  | Ok (Some a) => f a
  | Ok None => Ok None
  | Err e => Err e
  | Panic => Panic
  | Hang => Hang
  end.
(** [r.ok()?] *)
Definition ok {A} (r : res A) : ropt A :=
  match r with Ok a => Ok (Some a) | Err _ => Ok None | Panic => Panic | Hang => Hang end.
(** An expression that yields a plain value or panics. *)
Definition got {A} (r : res A) : ropt A := Some <$> r.
Definition none {A} : ropt A := Ok None.

(** [n + len as usize] overflows for a length close to [usize::MAX]: a panic
    where overflow is checked, and otherwise an [end] below [n], so that the
    slice panics. *)
Definition end_of (n len : Z) : ropt Z := if U64_MAX <? n + len then Panic else mret (n + len).

Definition read_string (data : bytes) : ropt (bytes * Z) :=
  '(len, n) ← ok (read_varint_u64 data);
  end_ ← end_of n len;
  if zlen data <? end_ then none
  else
    s ← got (slice data n end_);
    if utf8_valid s then mret (s, end_) else none.
Definition read_row (data : bytes) : ropt (Row * Z) :=
  '(len, n) ← ok (read_varint_u64 data);
  end_ ← end_of n len;
  if zlen data <? end_ then none
  else
    s ← got (slice data n end_);
    row ← ok (deserialize_row s);
    mret (row, end_).

(** [let (x, n) = f(&data[off..])?; off += n;] *)
Definition read_at {A} (f : bytes → ropt (A * Z)) (data : bytes) (off : Z) : ropt (A * Z) :=
  rest ← got (slice_from data off);
  '(x, n) ← f rest;
  mret (x, off + n).
Definition read_u64_at (data : bytes) (off : Z) : ropt (Z * Z) :=
  read_at (λ d, ok (read_varint_u64 d)) data off.

(** The fields that the records of row changes start with. *)
Definition read_change (data : bytes) (off : Z) : ropt (Z * bytes * Z * Z) :=
  '(txid, off) ← read_u64_at data off;
  '(table_name, off) ← read_at read_string data off;
  '(rowid_enc, off) ← read_u64_at data off;
  mret (txid, table_name, zigzag_decode rowid_enc, off).

(** [LogRecord::deserialize] *)
Definition deserialize_record (data : bytes) (pos : Z) : ropt (LogRecord * Z) :=
  if zlen data <=? pos then none
  else
    tag ← got (index data pos);
    let off := pos + 1 in
    if tag =? 1 then '(txid, off) ← read_u64_at data off; mret (Begin txid, off)
    else if tag =? 2 then
      '(txid, table_name, rowid, off) ← read_change data off;
      '(row, off) ← read_at read_row data off;
      mret (Insert txid table_name rowid row, off)
    else if tag =? 3 then
      '(txid, table_name, rowid, off) ← read_change data off;
      '(old_row, off) ← read_at read_row data off;
      '(new_row, off) ← read_at read_row data off;
      mret (Update txid table_name rowid old_row new_row, off)
    else if tag =? 4 then
      '(txid, table_name, rowid, off) ← read_change data off;
      has_row ← (Ok (data !! Z.to_nat off) : ropt Z);
      let off := off + 1 in
      if negb (has_row =? 0) then
        '(r, off) ← read_at read_row data off;
        mret (Delete txid table_name rowid (Some r), off)
      else mret (Delete txid table_name rowid None, off)
    else if tag =? 5 then '(txid, off) ← read_u64_at data off; mret (Prepare txid, off)
    else if tag =? 6 then '(txid, off) ← read_u64_at data off; mret (Commit txid, off)
    else if tag =? 7 then '(txid, off) ← read_u64_at data off; mret (Rollback txid, off)
    else if tag =? 8 then
      '(raft_index, off) ← read_u64_at data off;
      '(sql, off) ← read_at read_string data off;
      '(user_id, off) ← read_at read_string data off;
      mret (Sql sql user_id raft_index, off)
    else none.

(** ** The log file *)

(** [crc32fast::hash] *)
Class Crc32 := {
  crc_hash : bytes → Z;
  crc_hash_range : ∀ data, is_u32 (crc_hash data);
}.

(** [content] is what a reader of the path sees; the first [synced] bytes of
    it survive a crash. *)
Record OsFile := { content : bytes; synced : Z }.

(** [BinlogManager]: [file] is the buffer of the [BufWriter], [path] whether
    there is a path (both are [None] for an in-memory log). *)
Record BinlogManager := {
  file : option bytes;
  path : bool;
  write_pos : Z;
  mem_buf : bytes;
}.
Record Host := { disk : OsFile; mgr : BinlogManager }.

(** [BinlogManager::open] on a directory whose log file is [f] ([create] makes
    an empty one). *)
Definition open_binlog (f : option OsFile) : Host :=
  let f := default {| content := []; synced := 0 |} f in
  {| disk := f;
     mgr := {| file := Some []; path := true; write_pos := zlen (content f); mem_buf := [] |} |}.
Definition open_memory (f : OsFile) : Host :=
  {| disk := f; mgr := {| file := None; path := false; write_pos := 0; mem_buf := [] |} |}.

(** [BufWriter::with_capacity(64 * 1024, file)] and its [write_all]: the new
    buffer and file content. *)
Definition BUF_CAPACITY : Z := 64 * 1024.
Definition bw_write_all (bs : bytes) (wc : bytes * bytes) : bytes * bytes :=
  let '(w, c) := wc in
  let spare := BUF_CAPACITY - zlen w in
  if zlen bs <? spare then (w ++ bs, c)
  else
    let '(w, c) := if spare <? zlen bs then ([], c ++ w) else (w, c) in
    if BUF_CAPACITY <=? zlen bs then (w, c ++ bs) else (w ++ bs, c).

Section Manager.
  Context `{!Crc32}.

(** The frame of a payload: its length, its checksum, its bytes. *)
Definition header (record_buf : bytes) : bytes :=
  le_bytes 4 (as_u32 (zlen record_buf)) ++ le_bytes 4 (crc_hash record_buf).
Definition frame (record_buf : bytes) : bytes := header record_buf ++ record_buf.

(** [BinlogManager::append] returns the offset of the start of the frame. *)
Definition append (record : LogRecord) (h : Host) : Z * Host :=
  let m := mgr h in
  let record_buf := serialize_record record [] in
  let next := write_pos m + (8 + zlen record_buf) in
  (write_pos m,
   match file m with
   | Some w =>
       let '(w, c) := bw_write_all record_buf (bw_write_all (header record_buf) (w, content (disk h))) in
       {| disk := {| content := c; synced := synced (disk h) |};
          mgr := {| file := Some w; path := path m; write_pos := next; mem_buf := mem_buf m |} |}
   | None =>
       {| disk := disk h;
          mgr := {| file := None; path := path m; write_pos := next;
                    mem_buf := mem_buf m ++ header record_buf ++ record_buf |} |}
   end).

(** [BufWriter::flush] *)
Definition flush (h : Host) : Host :=
  match file (mgr h) with
  | Some w =>
      {| disk := {| content := content (disk h) ++ w; synced := synced (disk h) |};
         mgr := {| file := Some []; path := path (mgr h); write_pos := write_pos (mgr h); mem_buf := mem_buf (mgr h) |} |}
  | None => h
  end.
(** [BinlogManager::fsync] *)
Definition fsync (h : Host) : Host :=
  match file (mgr h) with
  | Some _ =>
      let h := flush h in
      {| disk := {| content := content (disk h); synced := zlen (content (disk h)) |}; mgr := mgr h |}
  | None => h
  end.

(** The frame at [pos], as the loops of [scan_frames] and [recover] check it:
    its payload and the position after it, or nothing when it is torn or its
    checksum differs. *)
Definition frame_at (content : bytes) (pos : Z) : ropt (bytes * Z) :=
  record_len ← got (read_u32 content pos);
  stored_crc ← got (read_u32 content (pos + 4));
  let data_start := pos + 8 in
  let data_end := data_start + record_len in
  if zlen content <? data_end then none
  else
    data ← got (slice content data_start data_end);
    if crc_hash data =? stored_crc then mret (data, data_end) else none.

(** [BinlogManager::scan_frames] *)
Fixpoint scan_loop (fuel : nat) (content : bytes) (pos : Z) (results : list (Z * bytes)) : res (list (Z * bytes)) :=
  match fuel with
  | O => Hang
  | S fuel =>
      if pos + 8 <=? zlen content then
        f ← frame_at content pos : res _;
        match f with
        | Some (_, data_end) =>
            framed ← slice content pos data_end;
            scan_loop fuel content data_end (results ++ [(data_end, framed)])
        | None => Ok results
        end
      else Ok results
  end.
Definition scan_frames (content : bytes) (from_pos : Z) : res (list (Z * bytes)) :=
  if U64_MAX <? from_pos + 8 then Panic else scan_loop (S (length content)) content from_pos [].

(** [BinlogManager::read_from] reads the file, not the writer's buffer. *)
Definition read_from (h : Host) (from_pos : Z) : res (list (Z * bytes)) :=
  if path (mgr h) then scan_frames (content (disk h)) from_pos else scan_frames (mem_buf (mgr h)) from_pos.

(** The loop of [BinlogManager::recover]: the last valid position, the
    prepared and the finished transactions. *)
Fixpoint recover_loop (fuel : nat) (content : bytes) (pos : Z) (prepared committed : gset Z) : res (Z * gset Z * gset Z) :=
  match fuel with
  | O => Hang
  | S fuel =>
      if pos + 8 <=? zlen content then
        f ← frame_at content pos : res _;
        match f with
        | Some (data, data_end) =>
            r ← deserialize_record data 0 : res _;
            match r with
            | Some (record, _) =>
                let '(prepared, committed) :=
                  match record with
                  | Prepare txid => ({[txid]} ∪ prepared, committed)
                  | Commit txid | Rollback txid => (prepared, {[txid]} ∪ committed)
                  | _ => (prepared, committed)
                  end in
                recover_loop fuel content data_end prepared committed
            | None => Ok (pos, prepared, committed)
            end
        | None => Ok (pos, prepared, committed)
        end
      else Ok (pos, prepared, committed)
  end.
(** [BinlogManager::recover]: the transactions that were prepared and neither
    committed nor rolled back; the tail after the last valid record is cut. *)
Definition recover : ST Host (gset Z) := λ h,
  if negb (path (mgr h)) then (Ok ∅, h)
  else
    let h := flush h in
    let c := content (disk h) in
    match recover_loop (S (length c)) c 0 ∅ ∅ with
    | Ok (last_valid, prepared, committed) =>
        let d := if last_valid <? zlen c
                 then {| content := file_set_len last_valid c; synced := last_valid |}
                 else disk h in
        (Ok (prepared ∖ committed),
         {| disk := d;
            mgr := {| file := file (mgr h); path := path (mgr h); write_pos := last_valid; mem_buf := mem_buf (mgr h) |} |})
    | Err e => (Err e, h)
    | Panic => (Panic, h)
    | Hang => (Hang, h)
    end.

End Manager.

(** ** Round trips *)

(** What the types of the fields guarantee: 64-bit integers, valid UTF-8,
    values in range, and allocations of at most [isize::MAX] bytes. *)
Definition string_ok (s : bytes) : Prop := bytes_ok s ∧ utf8_valid s = true ∧ zlen s < 2 ^ 63.
Definition log_row_ok (row : Row) : Prop := row_ok row ∧ zlen (serialize_row row) < 2 ^ 63.
Definition record_ok (r : LogRecord) : Prop :=
  match r with
  | Begin txid | Prepare txid | Commit txid | Rollback txid => is_u64 txid
  | Insert txid t rowid row => is_u64 txid ∧ string_ok t ∧ is_i64 rowid ∧ log_row_ok row
  | Update txid t rowid row row' => is_u64 txid ∧ string_ok t ∧ is_i64 rowid ∧ log_row_ok row ∧ log_row_ok row'
  | Delete txid t rowid row => is_u64 txid ∧ string_ok t ∧ is_i64 rowid ∧ from_option log_row_ok True row
  | Sql sql user_id raft_index => string_ok sql ∧ string_ok user_id ∧ is_u64 raft_index
  end.

Definition string_enc (s : bytes) : bytes := varint (zlen s) ++ s.
Definition row_enc (row : Row) : bytes := varint (zlen (serialize_row row)) ++ serialize_row row.

Lemma write_string_app s buf : write_string s buf = buf ++ string_enc s.
Proof. unfold write_string, string_enc. by rewrite write_varint_app, app_assoc. Qed.
Lemma write_row_app row buf : write_row row buf = buf ++ row_enc row.
Proof. unfold write_row, row_enc. rewrite write_varint_app, <- app_assoc. done. Qed.

(** A record as the concatenation of its fields. *)
Definition record_fields (r : LogRecord) : bytes :=
  let change tag txid t rowid rest := [tag] ++ varint txid ++ string_enc t ++ varint (zigzag_encode rowid) ++ rest in
  match r with
  | Begin txid => [1] ++ varint txid
  | Insert txid t rowid row => change 2 txid t rowid (row_enc row)
  | Update txid t rowid row row' => change 3 txid t rowid (row_enc row ++ row_enc row')
  | Delete txid t rowid row =>
      change 4 txid t rowid (match row with Some r => [1] ++ row_enc r | None => [0] end)
  | Prepare txid => [5] ++ varint txid
  | Commit txid => [6] ++ varint txid
  | Rollback txid => [7] ++ varint txid
  | Sql sql user_id i => [8] ++ varint i ++ string_enc sql ++ string_enc user_id
  end.
Lemma serialize_record_fields r buf : serialize_record r buf = buf ++ record_fields r.
Proof.
  destruct r as [ | | |? ? ? []| | | |]; cbn [serialize_record record_fields];
    by rewrite ?write_row_app, ?write_string_app, ?write_varint_app, <- ?app_assoc.
Qed.

(** [rest] is what follows position [off] of [data]. *)
Definition follows (data : bytes) (off : Z) (rest : bytes) : Prop := slice_from data off = Ok rest.
Lemma follows_skip data off enc rest : follows data off (enc ++ rest) → follows data (off + zlen enc) rest.
Proof.
  unfold follows, slice_from. intros (Ha & _ & Hs)%slice_inv. pose proof (zlen_nonneg enc). pose proof (zlen_nonneg rest).
  assert (zlen (enc ++ rest) = zlen data - off) as Hl by (rewrite Hs; apply length_sub; lia). rewrite zlen_app in Hl.
  rewrite slice_Ok by lia. f_equal. assert (drop (length enc) (enc ++ rest) = rest) as Hd by apply drop_app_length.
  rewrite <- Hd, Hs. unfold sub. rewrite skipn_firstn_comm, drop_drop. f_equal; [unfold zlen in *; lia|]. f_equal. unfold zlen. lia.
Qed.
Lemma read_step {A B} (f : bytes → ropt (A * Z)) enc rest x data off (k : A * Z → ropt B) :
  follows data off (enc ++ rest) → f (enc ++ rest) = Ok (Some (x, zlen enc)) →
  (read_at f data off ≫= k) = k (x, off + zlen enc).
Proof. unfold follows, read_at. intros -> Hf. cbn [got fmap res_fmap mbind ropt_bind]. by rewrite Hf. Qed.
Lemma u64_enc v rest : is_u64 v → ok (read_varint_u64 (varint v ++ rest)) = Ok (Some (v, zlen (varint v))).
Proof. intros. by rewrite read_varint_app. Qed.
Lemma end_of_ok n len : 1 ≤ n ≤ 10 → len < 2 ^ 63 → end_of n len = Ok (Some (n + len)).
Proof. intros. unfold end_of. destruct (Z.ltb_spec U64_MAX (n + len)); [int_lia|done]. Qed.
(** A length-prefixed payload. *)
Lemma read_payload {B} (p rest : bytes) (k : bytes → Z → ropt B) :
  zlen p < 2 ^ 63 →
  ('(len, n) ← ok (read_varint_u64 ((varint (zlen p) ++ p) ++ rest));
   end_ ← end_of n len;
   if zlen ((varint (zlen p) ++ p) ++ rest) <? end_ then none
   else s ← got (slice ((varint (zlen p) ++ p) ++ rest) n end_); k s end_)
  = k p (zlen (varint (zlen p) ++ p)).
Proof.
  intros Hp. assert (is_u64 (zlen p)) as Hu by (pose proof (zlen_nonneg p); int_lia).
  rewrite <- app_assoc. rewrite (u64_enc _ _ Hu). cbn [mbind ropt_bind]. pose proof (varint_u64_length _ Hu).
  rewrite end_of_ok by lia. cbn [mbind ropt_bind]. rewrite !zlen_app. pose proof (zlen_nonneg rest).
  destruct (Z.ltb_spec (zlen (varint (zlen p)) + (zlen p + zlen rest)) (zlen (varint (zlen p)) + zlen p)); [lia|].
  by rewrite slice_mid.
Qed.
Lemma string_read s rest : string_ok s → read_string (string_enc s ++ rest) = Ok (Some (s, zlen (string_enc s))).
Proof.
  intros (Hb & Hv & Hl). unfold read_string, string_enc.
  rewrite (read_payload s rest (λ s end_, if utf8_valid s then mret (s, end_) else none)) by done. by rewrite Hv.
Qed.
Lemma row_read row rest : log_row_ok row → read_row (row_enc row ++ rest) = Ok (Some (row, zlen (row_enc row))).
Proof.
  intros (Hr & Hl). unfold read_row, row_enc.
  rewrite (read_payload _ rest (λ s end_, row ← ok (deserialize_row s); mret (row, end_))) by done.
  pose proof (deserialize_serialize_row row [] Hr) as Hd. rewrite app_nil_r in Hd. by rewrite Hd.
Qed.

(** Read the field that follows, and move past it. *)
Ltac read_next :=
  unfold read_u64_at;
  match goal with
  | H : follows ?d ?o (?e ++ ?r) |- context [read_at ?f ?d ?o] =>
      erewrite (read_step f e r _ d o);
      [ | exact H
        | match goal with
          | |- read_string _ = _ => apply string_read
          | |- read_row _ = _ => apply row_read
          | |- _ => apply u64_enc
          end; first [assumption | apply zigzag_encode_range; assumption] ];
      cbv beta iota; apply follows_skip in H
  end.
Lemma change_read txid t rowid rest data off {B} (k : Z * bytes * Z * Z → ropt B) :
  is_u64 txid → string_ok t → is_i64 rowid →
  follows data off (varint txid ++ string_enc t ++ varint (zigzag_encode rowid) ++ rest) →
  (read_change data off ≫= k) = k (txid, t, rowid, off + zlen (varint txid) + zlen (string_enc t) + zlen (varint (zigzag_encode rowid)))
    ∧ follows data (off + zlen (varint txid) + zlen (string_enc t) + zlen (varint (zigzag_encode rowid))) rest.
Proof.
  intros ??? Hf. unfold read_change. do 3 read_next. split; [|done]. cbn [mbind ropt_bind mret ropt_ret]. by rewrite zigzag_decode_encode.
Qed.
Lemma follows_index data off x rest : follows data off (x :: rest) → index data off = Ok x ∧ data !! Z.to_nat off = Some x.
Proof.
  unfold follows, slice_from. intros (Ha & _ & Hs)%slice_inv. assert (data !! Z.to_nat off = Some x) as E.
  { assert (drop (Z.to_nat off) data !! 0%nat = Some x) as Hd; [|by rewrite lookup_drop, Nat.add_0_r in Hd].
    unfold sub in Hs. rewrite take_ge in Hs by (rewrite length_drop; unfold zlen; lia). by rewrite <- Hs. }
  split; [|done]. by apply index_Ok; [|lia].
Qed.
Ltac fields_end := unfold mret, ropt_ret; do 3 f_equal; rewrite ?zlen_cons, ?zlen_app, ?zlen_cons, ?zlen_nil; lia.
Lemma deserialize_fields r data pos rest :
  record_ok r → follows data pos (record_fields r ++ rest) →
  deserialize_record data pos = Ok (Some (r, pos + zlen (record_fields r))).
Proof.
  intros Hr Hf. unfold deserialize_record.
  assert (∃ tag fs, record_fields r = tag :: fs) as (tag & fs & E) by (destruct r; cbn; eauto).
  rewrite E in Hf. cbn [app] in Hf. pose proof (follows_index _ _ _ _ Hf) as [Hi Hl].
  destruct (Z.leb_spec (zlen data) pos) as [Hle|_]; [apply lookup_lt_Some in Hl; unfold follows, slice_from in Hf;
    apply slice_inv in Hf; unfold zlen in *; lia|].
  rewrite Hi. apply (follows_skip _ _ [tag]) in Hf. change (zlen [tag]) with 1 in Hf. cbn [got fmap res_fmap mbind ropt_bind].
  destruct r as [txid|txid t rowid row|txid t rowid row row'|txid t rowid row|txid|txid|txid|sql uid i];
    cbn [record_fields app] in E |- *; injection E as <- <-; rewrite <- ?app_assoc in Hf; cbn [Z.eqb Pos.eqb];
    cbn [record_ok] in Hr.
  1,5-7: read_next; fields_end.
  1-3: destruct Hr as (Htx & Ht & Hid & Hr);
    destruct (change_read txid t rowid _ _ _ (λ p, mret p) Htx Ht Hid Hf) as [_ Hf'];
    erewrite (λ k, proj1 (change_read txid t rowid _ _ _ k Htx Ht Hid Hf)); clear Hf; cbv beta iota.
  - read_next. fields_end.
  - destruct Hr. do 2 read_next. fields_end.
  - destruct row as [row|]; cbn [app] in Hf'; pose proof (follows_index _ _ _ _ Hf') as [_ Hx]; rewrite Hx;
      cbn [mbind ropt_bind]; cbn [Z.eqb negb]; [|fields_end].
    apply (follows_skip _ _ [1]) in Hf'. change (zlen [1]) with 1 in Hf'. cbn in Hr. read_next. fields_end.
  - destruct Hr as (?&?&?). do 3 read_next. fields_end.
Qed.

(** ** Scanning a log *)

Section Scan.
  Context `{!Crc32}.

(** A record that [append] can frame: its length is written in 32 bits. *)
Definition fits (r : LogRecord) : Prop := record_ok r ∧ zlen (serialize_record r []) ≤ U32_MAX.
Definition record_frame (r : LogRecord) : bytes := frame (serialize_record r []).
Definition log_bytes (rs : list LogRecord) : bytes := mjoin (map record_frame rs).
(** What a torn write leaves: a proper prefix of a frame (possibly empty). *)
Definition torn (t : bytes) : Prop := ∃ p, zlen p ≤ U32_MAX ∧ t `prefix_of` frame p ∧ t ≠ frame p.
(** The frames of [rs] when the first one starts at [pos], each with the
    position after it. *)
Fixpoint events (pos : Z) (rs : list LogRecord) : list (Z * bytes) :=
  match rs with
  | [] => []
  | r :: rs => let next := pos + zlen (record_frame r) in (next, record_frame r) :: events next rs
  end.

Lemma zlen_frame p : zlen (frame p) = 8 + zlen p.
Proof. unfold frame, header. len_lia. Qed.
Lemma log_bytes_app rs rs' : log_bytes (rs ++ rs') = log_bytes rs ++ log_bytes rs'.
Proof. unfold log_bytes. by rewrite map_app, join_app. Qed.
Lemma log_bytes_cons r rs : log_bytes (r :: rs) = record_frame r ++ log_bytes rs.
Proof. reflexivity. Qed.
Lemma events_app pos rs rs' : events pos (rs ++ rs') = events pos rs ++ events (pos + zlen (log_bytes rs)) rs'.
Proof.
  revert pos. induction rs as [|r rs IH]; intros pos; [unfold log_bytes; cbn; by rewrite Z.add_0_r|].
  rewrite log_bytes_cons, zlen_app. cbn [events app]. rewrite IH. by rewrite Z.add_assoc.
Qed.

(** The header of a frame, when at least its payload starts. *)
Lemma frame_header pre p k content :
  zlen p ≤ U32_MAX → content = pre ++ header p ++ k →
  read_u32 content (zlen pre) = Ok (zlen p) ∧ read_u32 content (zlen pre + 4) = Ok (crc_hash p).
Proof.
  intros Hp ->. pose proof (zlen_nonneg p). pose proof (crc_hash_range p) as Hc. unfold read_u32, header.
  rewrite as_u32_id by int_lia. rewrite <- app_assoc. split.
  - rewrite slice_skip by lia. replace (zlen pre + 4 - zlen pre) with 4 by lia. rewrite Z.sub_diag.
    rewrite slice_here by done. cbn [fmap res_fmap]. f_equal. apply le_val_id. int_lia.
  - rewrite app_assoc, slice_skip by len_lia. rewrite zlen_app, zlen_le_bytes.
    replace (zlen pre + 4 - (zlen pre + Z.of_nat 4)) with 0 by lia.
    replace (zlen pre + 4 + 4 - (zlen pre + Z.of_nat 4)) with 4 by lia.
    rewrite slice_here by done. cbn [fmap res_fmap]. f_equal. apply le_val_id. apply Hc.
Qed.
Lemma zlen_header p : zlen (header p) = 8.
Proof. unfold header. len_lia. Qed.

Lemma frame_at_frame pre p rest content :
  zlen p ≤ U32_MAX → content = pre ++ frame p ++ rest →
  frame_at content (zlen pre) = Ok (Some (p, zlen pre + zlen (frame p))).
Proof.
  intros Hp E. unfold frame_at.
  destruct (frame_header pre p (p ++ rest) content Hp) as [-> ->]; [by rewrite E; unfold frame; rewrite <- app_assoc|].
  cbn [got fmap res_fmap mbind ropt_bind]. rewrite zlen_frame.
  replace (zlen pre + (8 + zlen p)) with (zlen pre + 8 + zlen p) by lia.
  pose proof (zlen_nonneg p). pose proof (zlen_nonneg rest).
  destruct (Z.ltb_spec (zlen content) (zlen pre + 8 + zlen p)) as [Hlt|_]; [rewrite E, !zlen_app, zlen_frame in Hlt; lia|].
  replace (slice content (zlen pre + 8) (zlen pre + 8 + zlen p)) with (Ok p).
  - unfold got. cbn [fmap res_fmap mbind ropt_bind]. by rewrite Z.eqb_refl.
  - rewrite E. unfold frame. rewrite <- app_assoc, app_assoc. pose proof (slice_mid (pre ++ header p) p rest) as Hs.
    rewrite zlen_app, zlen_header in Hs. done.
Qed.
Lemma frame_at_torn pre t content :
  torn t → 8 ≤ zlen t → content = pre ++ t → frame_at content (zlen pre) = Ok None.
Proof.
  intros (p & Hp & [k Hk] & Hne) Ht E. unfold frame_at.
  assert (∃ t', t = header p ++ t' ∧ p = t' ++ k ∧ k ≠ []) as (t' & -> & Ep & Hnk).
  { unfold frame in Hk. apply app_eq_inv in Hk as [(d & Ed & ->)|(d & -> & Ed)].
    - assert (d = []) as ->. { apply zlen_0_nil. pose proof (zlen_header p) as Hz. rewrite Ed, zlen_app in Hz. pose proof (zlen_nonneg d). lia. }
      rewrite app_nil_r in Ed. exists []. rewrite app_nil_r. repeat split; [done|].
      cbn [app]. intros ->. apply Hne. unfold frame. by rewrite Ed, app_nil_r.
    - exists d. repeat split; [done|]. intros ->. apply Hne. rewrite app_nil_r in Ed. unfold frame. by rewrite Ed. }
  destruct (frame_header pre p t' content Hp E) as [-> ->]. cbn [got fmap res_fmap mbind ropt_bind].
  rewrite (proj2 (Z.ltb_lt _ _)); [done|]. rewrite E, Ep, !zlen_app, zlen_header.
  destruct k as [|x k]; [done|]. rewrite zlen_cons. pose proof (zlen_nonneg k). lia.
Qed.

Lemma fits_len r : fits r → zlen (serialize_record r []) ≤ U32_MAX.
Proof. by intros []. Qed.
Lemma slice_frame (pre f rest : bytes) : slice (pre ++ f ++ rest) (zlen pre) (zlen pre + zlen f) = Ok f.
Proof. apply slice_mid. Qed.

Lemma scan_loop_log fuel pre rs t acc :
  Forall fits rs → torn t → (length rs < fuel)%nat →
  scan_loop fuel (pre ++ log_bytes rs ++ t) (zlen pre) acc = Ok (acc ++ events (zlen pre) rs).
Proof.
  intros Hrs Ht. revert fuel pre acc. induction Hrs as [|r rs Hr _ IH]; intros fuel pre acc Hf;
    (destruct fuel as [|fuel]; [cbn [length] in Hf; lia|]); cbn [scan_loop].
  - cbn [events log_bytes map mjoin list_join app]. rewrite zlen_app.
    destruct (Z.leb_spec (zlen pre + 8) (zlen pre + zlen t)); [|by rewrite app_nil_r].
    rewrite (frame_at_torn pre t) by (done || lia). cbn [mbind res_bind]. by rewrite app_nil_r.
  - rewrite log_bytes_cons, <- app_assoc.
    destruct (Z.leb_spec (zlen pre + 8) (zlen (pre ++ record_frame r ++ log_bytes rs ++ t))) as [_|Hlt].
    + unfold record_frame. rewrite (frame_at_frame pre _ (log_bytes rs ++ t)) by (done || by apply fits_len).
      cbn [mbind res_bind]. rewrite slice_frame. cbn [mbind res_bind events].
      rewrite (app_assoc pre), <- zlen_app. rewrite (IH fuel (pre ++ _)) by (cbn [length] in Hf; lia).
      rewrite zlen_app, <- app_assoc. done.
    + exfalso. revert Hlt. unfold record_frame. rewrite !zlen_app, zlen_frame.
      pose proof (zlen_nonneg (serialize_record r [])). pose proof (zlen_nonneg (log_bytes rs)). pose proof (zlen_nonneg t). lia.
Qed.

Lemma deserialize_serialize_record r rest :
  record_ok r → deserialize_record (serialize_record r [] ++ rest) 0 = Ok (Some (r, zlen (serialize_record r []))).
Proof.
  intros Hr. rewrite serialize_record_fields. cbn [app]. apply (deserialize_fields r _ 0 rest Hr).
  unfold follows, slice_from. pose proof (zlen_nonneg (record_fields r ++ rest)). rewrite slice_Ok by lia. f_equal. apply sub_all. lia.
Qed.

Lemma recover_loop_log fuel pre rs t P C :
  Forall fits rs → torn t → (length rs < fuel)%nat →
  ∃ P' C', recover_loop fuel (pre ++ log_bytes rs ++ t) (zlen pre) P C = Ok (zlen pre + zlen (log_bytes rs), P', C') ∧
    (∀ x, x ∈ P' ↔ x ∈ P ∨ Prepare x ∈ rs) ∧ (∀ x, x ∈ C' ↔ x ∈ C ∨ Commit x ∈ rs ∨ Rollback x ∈ rs).
Proof.
  intros Hrs Ht. revert fuel pre P C. induction Hrs as [|r rs Hr _ IH]; intros fuel pre P C Hf;
    (destruct fuel as [|fuel]; [cbn [length] in Hf; lia|]); cbn [recover_loop].
  - exists P, C. assert (zlen (log_bytes []) = 0) as -> by done. change (log_bytes [] ++ t) with t. rewrite (zlen_app pre), Z.add_0_r.
    split; [|split; intros x; rewrite !elem_of_nil; tauto].
    destruct (Z.leb_spec (zlen pre + 8) (zlen pre + zlen t)); [|done].
    by rewrite (frame_at_torn pre t) by (done || lia).
  - rewrite log_bytes_cons, <- app_assoc.
    destruct (Z.leb_spec (zlen pre + 8) (zlen (pre ++ record_frame r ++ log_bytes rs ++ t))) as [_|Hlt].
    + unfold record_frame at 1. rewrite (frame_at_frame pre _ (log_bytes rs ++ t)) by (done || by apply fits_len).
      cbn [mbind res_bind]. pose proof (deserialize_serialize_record r [] (proj1 Hr)) as Hd. rewrite app_nil_r in Hd. rewrite Hd.
      cbn [mbind res_bind]. fold (record_frame r). rewrite (app_assoc pre), <- zlen_app.
      set (PC := match r with Prepare _ => _ | _ => _ end).
      destruct (IH fuel (pre ++ record_frame r) PC.1 PC.2) as (P' & C' & E & HP & HC); [cbn [length] in Hf; lia|].
      exists P', C'. rewrite (surjective_pairing PC). split; [rewrite E; do 3 f_equal; rewrite !zlen_app; lia|].
      split; intros x; rewrite ?HP, ?HC; subst PC; destruct r; cbn [fst snd];
        rewrite ?elem_of_union, ?elem_of_singleton, ?elem_of_cons; intuition congruence.
    + exfalso. revert Hlt. unfold record_frame. rewrite !zlen_app, zlen_frame.
      pose proof (zlen_nonneg (serialize_record r [])). pose proof (zlen_nonneg (log_bytes rs)). pose proof (zlen_nonneg t). lia.
Qed.

Lemma torn_nil : torn [].
Proof. exists []. split; [done|]. split; [apply prefix_nil|]. intros E. pose proof (zlen_frame []) as Hz. by rewrite <- E in Hz. Qed.
(** A prefix of a log is a number of whole records and a torn one. *)
Lemma log_prefix c rs :
  Forall fits rs → c `prefix_of` log_bytes rs →
  ∃ n t, (n ≤ length rs)%nat ∧ c = log_bytes (take n rs) ++ t ∧ torn t ∧
    ((n < length rs)%nat → zlen c < zlen (log_bytes (take (S n) rs))).
Proof.
  intros Hrs. revert c. induction Hrs as [|r rs Hr _ IH]; intros c [k Hk].
  - exists 0%nat, []. symmetry in Hk. apply app_eq_nil in Hk as [-> _]. repeat split; [done|apply torn_nil|cbn; lia].
  - rewrite log_bytes_cons in Hk. apply app_eq_inv in Hk as [(d & Ed & ->)|(d & -> & Ed)].
    + destruct d as [|x d].
      * rewrite app_nil_r in Ed. subst c. exists 1%nat, [].
        split; [cbn; lia|]. split; [cbn; by rewrite take_0, !app_nil_r|]. split; [apply torn_nil|].
        destruct rs as [|r' rs]; [cbn; lia|]. intros _. rewrite !firstn_cons, !log_bytes_cons, !zlen_app. unfold record_frame. rewrite !zlen_frame.
        pose proof (zlen_nonneg (serialize_record r' [])). pose proof (zlen_nonneg (log_bytes (take 0 rs))). lia.
      * exists 0%nat, c. split; [lia|]. split; [done|]. split.
        { exists (serialize_record r []). split; [by apply fits_len|]. fold (record_frame r). rewrite Ed. split; [by exists (x :: d)|].
          intros E. apply (f_equal zlen) in E. rewrite zlen_app, zlen_cons in E. pose proof (zlen_nonneg d). lia. }
        intros _. rewrite firstn_cons, log_bytes_cons, Ed, !zlen_app, zlen_cons. pose proof (zlen_nonneg d). pose proof (zlen_nonneg (log_bytes (take 0 rs))). lia.
    + destruct (IH d) as (n & t & Hn & -> & Ht & Hlt); [by exists k|]. exists (S n), t. cbn [length].
      split; [lia|]. rewrite firstn_cons, log_bytes_cons, <- app_assoc. split; [done|]. split; [done|].
      intros ?. rewrite firstn_cons, log_bytes_cons. rewrite !(zlen_app (record_frame r)). specialize (Hlt ltac:(lia)). lia.
Qed.
Lemma log_bytes_take_le rs n m : (n ≤ m)%nat → zlen (log_bytes (take n rs)) ≤ zlen (log_bytes (take m rs)).
Proof.
  intros Hnm. rewrite <- (take_drop n (take m rs)), take_take, Nat.min_l by done. rewrite log_bytes_app, zlen_app.
  pose proof (zlen_nonneg (log_bytes (drop n (take m rs)))). lia.
Qed.

(** ** The log as a list of records

    [Spec]: the records appended so far, and how many of them are durable.  A
    crash keeps at least those, possibly more, and always a prefix. *)
Record Spec := { records : list LogRecord; durable : nat }.
Inductive Event : Type :=
  | EAppend (r : LogRecord) (pos : Z)
  | ESync
  | ERestart
  | ERead (from : Z) (out : res (list (Z * bytes)))
  | ECrash (doubtful : res (gset Z)).
(** Where the [n]th record starts. *)
Definition record_pos (rs : list LogRecord) (n : nat) : Z := zlen (log_bytes (take n rs)).

(** Prepared, and neither committed nor rolled back. *)
Definition in_doubt (rs : list LogRecord) (x : Z) : Prop :=
  (Prepare x ∈ rs) ∧ (Commit x ∉ rs) ∧ (Rollback x ∉ rs).

Inductive spec_step : Spec → Event → Spec → Prop :=
  | spec_append s r :
      fits r →
      spec_step s (EAppend r (record_pos (records s) (length (records s))))
        {| records := records s ++ [r]; durable := durable s |}
  | spec_sync s : spec_step s ESync {| records := records s; durable := length (records s) |}
  | spec_restart s : spec_step s ERestart s
  | spec_read s i n :
      (durable s ≤ n ≤ length (records s))%nat →
      spec_step s (ERead (record_pos (records s) i)
        (Ok (events (record_pos (records s) i) (drop i (take n (records s)))))) s
  | spec_read_other s from out :
      U64_MAX < from + 8 ∨ (∀ i, from ≠ record_pos (records s) i) → spec_step s (ERead from out) s
  | spec_crash s n d :
      (durable s ≤ n ≤ length (records s))%nat →
      (∀ x, x ∈ d ↔ in_doubt (take n (records s)) x) →
      spec_step s (ECrash (Ok d)) {| records := take n (records s); durable := durable s |}.

(** [ERestart] closes the log, which writes out the buffer without syncing it,
    and opens it again.  What a crash leaves of a file: all that was synced, and a prefix of what
    was written after it. *)
Definition crashed (f f' : OsFile) : Prop :=
  content f' `prefix_of` content f ∧ synced f ≤ synced f' ≤ zlen (content f').
Inductive log_step : Host → Event → Host → Prop :=
  | step_append h r : fits r → log_step h (EAppend r (append r h).1) (append r h).2
  | step_fsync h : log_step h ESync (fsync h)
  | step_restart h : log_step h ERestart (open_binlog (Some (disk (flush h))))
  | step_read h from : log_step h (ERead from (read_from h from)) h
  | step_crash h f :
      crashed (disk h) f → log_step h (ECrash (recover (open_binlog (Some f))).1) (recover (open_binlog (Some f))).2.

Inductive trace {S} (step : S → Event → S → Prop) : S → list Event → S → Prop :=
  | trace_nil s : trace step s [] s
  | trace_cons s e s' es s'' : step s e s' → trace step s' es s'' → trace step s (e :: es) s''.

(** The file and the writer's buffer hold the frames of the records. *)
Record implements (h : Host) (s : Spec) : Prop := {
  imp_fits : Forall fits (records s);
  imp_path : path (mgr h) = true;
  imp_bytes : ∃ w, file (mgr h) = Some w ∧ content (disk h) ++ w = log_bytes (records s);
  imp_pos : write_pos (mgr h) = zlen (log_bytes (records s));
  imp_durable : (durable s ≤ length (records s))%nat;
  imp_synced : record_pos (records s) (durable s) ≤ synced (disk h) ≤ zlen (content (disk h));
}.

Lemma bw_write_all_spec bs w c :
  ∃ w' c', bw_write_all bs (w, c) = (w', c') ∧ c' ++ w' = c ++ w ++ bs ∧ c `prefix_of` c'.
Proof.
  unfold bw_write_all. destruct (Z.ltb_spec (zlen bs) (BUF_CAPACITY - zlen w)); [by eexists _, _; repeat split|].
  destruct (Z.ltb_spec (BUF_CAPACITY - zlen w) (zlen bs)) as [|Hle]; destruct (Z.leb_spec BUF_CAPACITY (zlen bs)) as [Hc|];
    eexists _, _; (split; [reflexivity|]); rewrite <- ?app_assoc.
  - rewrite app_nil_r. split; [done|]. by eexists.
  - split; [done|]. by eexists.
  - assert (w = []) as -> by (apply zlen_0_nil; pose proof (zlen_nonneg w); lia). rewrite app_nil_r. split; [done|]. by eexists.
  - done.
Qed.
Lemma prefix_zlen {A} (l k : list A) : l `prefix_of` k → zlen l ≤ zlen k.
Proof. intros [d ->]. rewrite zlen_app. pose proof (zlen_nonneg d). lia. Qed.

Lemma append_implements h s r :
  implements h s → fits r →
  (append r h).1 = record_pos (records s) (length (records s)) ∧
  implements (append r h).2 {| records := records s ++ [r]; durable := durable s |}.
Proof.
  intros [Hf Hp (w & Hw & Hb) Hpos Hd Hs] Hr. unfold append. rewrite Hw. cbn [fst snd].
  destruct (bw_write_all_spec (header (serialize_record r [])) w (content (disk h))) as (w1 & c1 & -> & E1 & P1).
  destruct (bw_write_all_spec (serialize_record r []) w1 c1) as (w2 & c2 & -> & E2 & P2).
  apply prefix_zlen in P1, P2. unfold record_pos in *. rewrite firstn_all. split; [done|].
  assert (log_bytes [r] = record_frame r) as H1 by (unfold log_bytes; cbn; by rewrite app_nil_r).
  constructor; cbn [records durable disk mgr path file write_pos content synced].
  - apply Forall_app_2; [done|]. by constructor.
  - done.
  - exists w2. split; [done|]. rewrite E2, app_assoc, E1, log_bytes_app, <- Hb, <- !app_assoc, H1. done.
  - rewrite Hpos, log_bytes_app, zlen_app, H1. unfold record_frame. by rewrite zlen_frame.
  - rewrite length_app. lia.
  - unfold record_pos. rewrite take_app_le by lia. lia.
Qed.
Lemma fsync_implements h s :
  implements h s → implements (fsync h) {| records := records s; durable := length (records s) |}.
Proof.
  intros [Hf Hp (w & Hw & Hb) Hpos Hd Hs]. unfold fsync, flush. rewrite Hw. cbn [file mgr disk content synced path write_pos mem_buf].
  constructor; cbn [records durable disk mgr path file write_pos content synced]; try done.
  - exists []. by rewrite app_nil_r.
  - unfold record_pos. rewrite firstn_all, Hb. lia.
Qed.
Lemma restart_implements h s : implements h s → implements (open_binlog (Some (disk (flush h)))) s.
Proof.
  intros [Hf Hp (w & Hw & Hb) Hpos Hd Hs]. unfold open_binlog, flush. rewrite Hw.
  constructor; cbn [records durable disk mgr path file write_pos content synced default from_option id]; try done.
  - exists []. by rewrite app_nil_r.
  - by rewrite Hb.
  - rewrite zlen_app. pose proof (zlen_nonneg w). lia.
Qed.

(** The content of the file: whole records, the durable ones among them, and
    a torn one. *)
Lemma content_prefix (c : bytes) s :
  Forall fits (records s) → (durable s ≤ length (records s))%nat → c `prefix_of` log_bytes (records s) →
  record_pos (records s) (durable s) ≤ zlen c →
  ∃ n t, (durable s ≤ n ≤ length (records s))%nat ∧ c = log_bytes (take n (records s)) ++ t ∧ torn t ∧
    ((n < length (records s))%nat → zlen c < record_pos (records s) (S n)).
Proof.
  intros Hf Hd Hc Hs. destruct (log_prefix c (records s) Hf Hc) as (n & t & Hn & E & Ht & Hlt).
  exists n, t. split; [|done]. split; [|done]. destruct (decide (durable s ≤ n)%nat); [done|].
  specialize (Hlt ltac:(lia)). pose proof (log_bytes_take_le (records s) (S n) (durable s) ltac:(lia)). unfold record_pos in *. lia.
Qed.
Lemma length_log_bytes rs : (length rs ≤ length (log_bytes rs))%nat.
Proof.
  induction rs as [|r rs IH]; [cbn; lia|]. rewrite log_bytes_cons, length_app. cbn [length].
  assert (8 ≤ zlen (record_frame r)); [|unfold zlen in *; lia].
  unfold record_frame. rewrite zlen_frame. pose proof (zlen_nonneg (serialize_record r [])). lia.
Qed.
(** Scanning a log from a frame boundary. *)
Lemma scan_from rs t i :
  Forall fits rs → torn t → record_pos rs i + 8 ≤ U64_MAX →
  scan_frames (log_bytes rs ++ t) (record_pos rs i) = Ok (events (record_pos rs i) (drop i rs)).
Proof.
  intros Hf Ht Hi. unfold scan_frames. destruct (Z.ltb_spec U64_MAX (record_pos rs i + 8)); [lia|].
  rewrite <- (take_drop i rs) at 1 2. rewrite log_bytes_app, <- app_assoc. unfold record_pos.
  rewrite scan_loop_log; [done|by apply Forall_drop|done|].
  rewrite !length_app. pose proof (length_log_bytes (drop i rs)). lia.
Qed.

Lemma read_from_pos h s i :
  implements h s → record_pos (records s) i + 8 ≤ U64_MAX →
  ∃ n, (durable s ≤ n ≤ length (records s))%nat ∧
    read_from h (record_pos (records s) i) = Ok (events (record_pos (records s) i) (drop i (take n (records s)))).
Proof.
  intros [Hf Hp (w & Hw & Hb) Hpos Hd Hs] Hfrom.
  destruct (content_prefix (content (disk h)) s Hf Hd) as (n & t & Hn & E & Ht & Hlt); [by exists w|lia|].
  exists n. split; [done|]. unfold read_from. rewrite Hp, E. destruct (decide (i ≤ n)%nat).
  - replace (record_pos (records s) i) with (record_pos (take n (records s)) i) in * by (unfold record_pos; by rewrite take_take, Nat.min_l).
    apply scan_from; [by apply Forall_take|done|lia].
  - rewrite drop_ge by (rewrite length_take; lia). unfold scan_frames.
    destruct (Z.ltb_spec U64_MAX (record_pos (records s) i + 8)); [lia|]. cbn [scan_loop events].
    destruct (Z.leb_spec (record_pos (records s) i + 8) (zlen (log_bytes (take n (records s)) ++ t))) as [Hle|]; [|done]. exfalso.
    rewrite <- E in Hle. destruct (decide (n < length (records s))%nat).
    + specialize (Hlt ltac:(done)). pose proof (log_bytes_take_le (records s) (S n) i ltac:(lia)). unfold record_pos in *. lia.
    + apply (f_equal zlen) in Hb. rewrite zlen_app in Hb.
      unfold record_pos in Hle. rewrite take_ge in Hle by lia. pose proof (zlen_nonneg w). lia.
Qed.
Lemma read_implements h s from :
  implements h s → spec_step s (ERead from (read_from h from)) s.
Proof.
  intros Hh. destruct (decide (U64_MAX < from + 8)) as [|Hfrom]; [by apply spec_read_other; left|].
  destruct (decide (Exists (λ i, from = record_pos (records s) i) (seq 0 (S (length (records s)))))) as [Hex|Hno].
  - apply Exists_exists in Hex as (i & _ & ->). destruct (read_from_pos h s i Hh) as (n & Hn & ->); [lia|]. by apply spec_read.
  - apply spec_read_other. right. intros i Hi. apply Hno, Exists_exists. exists (i `min` length (records s))%nat.
    split; [apply elem_of_seq; lia|]. rewrite Hi. unfold record_pos. destruct (Nat.min_spec i (length (records s))) as [[? ->]|[? ->]]; [done|].
    by rewrite !take_ge by lia.
Qed.

Lemma take_file n (f : bytes) : 0 ≤ n ≤ zlen f → file_set_len n f = take (Z.to_nat n) f.
Proof. intros. unfold file_set_len. by rewrite pad_to_id by lia. Qed.
Lemma crash_implements h s f :
  implements h s → crashed (disk h) f →
  ∃ s', spec_step s (ECrash (recover (open_binlog (Some f))).1) s' ∧ implements (recover (open_binlog (Some f))).2 s'.
Proof.
  intros [Hf Hp (w & Hw & Hb) Hpos Hd Hs] [Hc Hy].
  destruct (content_prefix (content f) s Hf Hd) as (n & t & Hn & E & Ht & Hlt); [by etrans; [exact Hc|exists w]|lia|].
  unfold recover, open_binlog, flush. cbn [default from_option id mgr path negb file disk content synced mem_buf]. rewrite app_nil_r.
  destruct (recover_loop_log (S (length (content f))) [] (take n (records s)) t ∅ ∅) as (P & C & ER & HP & HC);
    [by apply Forall_take|done|rewrite E, length_app; pose proof (length_log_bytes (take n (records s))); lia|].
  cbn [app] in ER. rewrite <- E in ER. change (zlen []) with 0 in ER. rewrite ER. cbn [fst snd].
  exists {| records := take n (records s); durable := durable s |}. split.
  - apply spec_crash; [done|]. intros x. unfold in_doubt. rewrite elem_of_difference, HP, HC. set_solver.
  - assert (file_set_len (zlen (log_bytes (take n (records s)))) (content f) = log_bytes (take n (records s))) as Hcut.
    { pose proof (zlen_nonneg t). rewrite take_file by (rewrite E, zlen_app; pose proof (zlen_nonneg (log_bytes (take n (records s)))); lia).
      unfold zlen. by rewrite Nat2Z.id, E, take_app_length. }
    assert (record_pos (take n (records s)) (durable s) = record_pos (records s) (durable s)) as Hrp
      by (unfold record_pos; by rewrite take_take, Nat.min_l by lia).
    rewrite Z.add_0_l. constructor; cbn [records durable disk mgr path file write_pos]; try done.
    + by apply Forall_take.
    + exists []. split; [done|]. rewrite app_nil_r. destruct (Z.ltb_spec (zlen (log_bytes (take n (records s)))) (zlen (content f))) as [|Hge]; cbn [content]; [done|].
      rewrite E, zlen_app in Hge. rewrite E, (zlen_0_nil t) by (pose proof (zlen_nonneg t); lia). apply app_nil_r.
    + rewrite length_take. lia.
    + rewrite Hrp. pose proof (log_bytes_take_le (records s) (durable s) n ltac:(lia)) as Hle. unfold record_pos in *.
      destruct (Z.ltb_spec (zlen (log_bytes (take n (records s)))) (zlen (content f))); cbn [content synced]; rewrite ?Hcut; lia.
Qed.
Lemma open_implements : implements (open_binlog None) {| records := []; durable := 0 |}.
Proof. constructor; cbn; try done. by exists []. Qed.
End Scan.

(** CRC-32 (reflected polynomial 0xEDB88320), which [crc32fast] computes. *)
Definition crc32_byte (crc b : Z) : Z :=
  Nat.iter 8 (λ c, if Z.testbit c 0 then Z.lxor (Z.shiftr c 1) 0xEDB88320 else Z.shiftr c 1) (Z.lxor crc b).
Definition crc32_ieee (data : bytes) : Z := as_u32 (Z.lxor (foldl crc32_byte 0xFFFFFFFF data) 0xFFFFFFFF).
#[export] Instance Crc32_ieee : Crc32 := {|
  crc_hash := crc32_ieee;
  crc_hash_range := λ data, as_u32_range _;
|}.
Example crc32_check : crc32_ieee [49; 50; 51; 52; 53; 54; 55; 56; 57] = 0xCBF43926.
Proof. reflexivity. Qed.

(** ** Properties *)

(** A log record is read back from its bytes wherever they stand, together
    with the position after them. *)
Theorem log_record_roundtrip (r : LogRecord) (pre rest : bytes) (Hr : record_ok r) :
  deserialize_record (serialize_record r pre ++ rest) (zlen pre) = Ok (Some (r, zlen (serialize_record r pre))).
Proof.
  rewrite serialize_record_fields, <- app_assoc. rewrite (deserialize_fields r _ _ rest Hr), zlen_app; [done|].
  unfold follows. by rewrite slice_from_app.
Qed.
Definition sample_update : LogRecord :=
  Update 300 [0xC3; 0xA9] (-5) [VNull; VInteger (2 ^ 62)] [VText [0x61]; VBlob [0; 255]; VReal 0x3FF0000000000000].
Lemma sample_update_ok : record_ok sample_update.
Proof.
  assert (∀ row, Forall value_ok row → zlen row ≤ 4 → zlen (serialize_row row) < 2 ^ 63 → log_row_ok row) as Hrow.
  { intros row Hv Hl Hz. split; [split; [done|]|done]. unfold MAX_COLUMNS. lia. }
  repeat apply conj; try (apply Hrow; [repeat constructor; vm_compute; done|vm_compute; done..]).
  all: repeat constructor; vm_compute; done.
Qed.
Lemma log_record_roundtrip_witness :
  deserialize_record (serialize_record sample_update [9; 9] ++ [7]) 2 =
    Ok (Some (sample_update, zlen (serialize_record sample_update [9; 9]))).
Proof. apply (log_record_roundtrip sample_update [9; 9] [7]). exact sample_update_ok. Defined.

(** [C22] The log manager implements an append-only list of records of which a
    prefix is durable: along every sequence of appends, syncs,
    reads, restarts and crashes, each append returns the position where its frame starts; closing the log and
    opening it again keeps all records; a read
    from the position of a record returns exactly the frames of the records
    from there on up to some point not before the last synced one; a crash
    that keeps the synced bytes and any prefix of the others, followed by
    [open] and [recover], keeps a prefix of the records that has all the
    synced ones, and reports exactly the transactions that are prepared in it
    and neither committed nor rolled back. *)
Theorem binlog_refines_log `{!Crc32} (es : list Event) (h : Host) (Hes : trace log_step (open_binlog None) es h) :
  ∃ s, trace spec_step {| records := []; durable := 0 |} es s ∧ implements h s.
Proof.
  revert Hes. generalize open_implements.
  generalize (open_binlog None), ({| records := []; durable := 0 |}). intros h0 s0 Hi Ht. revert s0 Hi.
  induction Ht as [h0|h0 e h1 es h2 Hstep _ IH]; intros s0 Hi; [exists s0; split; [constructor|done]|].
  assert (∃ s1, spec_step s0 e s1 ∧ implements h1 s1) as (s1 & Hs & Hi1).
  { destruct Hstep as [h r Hr|h|h|h from|h f Hc].
    - destruct (append_implements h s0 r Hi Hr) as [-> ?]. eexists. split; [by apply spec_append|done].
    - eexists. split; [apply spec_sync|by apply fsync_implements].
    - eexists. split; [apply spec_restart|by apply restart_implements].
    - eexists. split; [by apply read_implements|done].
    - by apply (crash_implements h s0 f). }
  destruct (IH s1 Hi1) as (s2 & Hs2 & ?). exists s2. split; [by econstructor|done].
Qed.
(** Two records, the first one synced, the second one written out by the
    restart; the crash cuts the frame of the second. *)
Definition run_hosts : list Host :=
  let h1 := (append (Prepare 7) (open_binlog None)).2 in
  let h2 := fsync h1 in
  let h3 := (append (Commit 7) h2).2 in
  [h1; h2; h3; open_binlog (Some (disk (flush h3)))].
Definition run_host (n : nat) : Host := nth n run_hosts (open_binlog None).
Definition torn_file : OsFile := {| content := take 15 (content (disk (run_host 3))); synced := 10 |}.
Definition run_events : list Event :=
  [EAppend (Prepare 7) 0; ESync; EAppend (Commit 7) 10; ERestart; ERead 10 (read_from (run_host 3) 10);
   ECrash (Ok {[7]})].
Lemma binlog_refines_log_witness :
  ∃ s, trace spec_step {| records := []; durable := 0 |} run_events s ∧ implements (recover (open_binlog (Some torn_file))).2 s.
Proof.
  assert (∀ r, record_ok r → zlen (serialize_record r []) ≤ 20 → fits r) as Hfits.
  { intros r Hr Hl. split; [done|]. unfold U32_MAX. lia. }
  apply (binlog_refines_log run_events).
  eapply trace_cons; [apply (step_append (open_binlog None) (Prepare 7)); apply Hfits; vm_compute; done|].
  eapply trace_cons; [apply (step_fsync (run_host 0))|].
  eapply trace_cons; [apply (step_append (run_host 1) (Commit 7)); apply Hfits; vm_compute; done|].
  eapply trace_cons; [apply (step_restart (run_host 2))|].
  eapply trace_cons; [apply (step_read (run_host 3) 10)|].
  eapply trace_cons; [|constructor].
  replace (Ok {[7]}) with (recover (open_binlog (Some torn_file))).1 by (vm_compute; reflexivity).
  apply step_crash. split; [apply prefix_take|split; [apply Z.leb_le; vm_compute; reflexivity|apply Z.leb_le; vm_compute; reflexivity]].
Defined.

(** The frames of a scan: each the next stretch of the content, with the
    position after it, whose length and checksum agree with its header. *)
Fixpoint chained `{!Crc32} (content : bytes) (pos : Z) (out : list (Z * bytes)) : Prop :=
  match out with
  | [] => True
  | (next, framed) :: out =>
      pos + 8 ≤ next ≤ zlen content ∧ framed = sub content pos (next - pos) ∧
      framed = frame (drop 8 framed) ∧ chained content next out
  end.
Lemma read_u32_in content pos :
  bytes_ok content → 0 ≤ pos → pos + 4 ≤ zlen content →
  ∃ x, read_u32 content pos = Ok x ∧ is_u32 x ∧ le_bytes 4 x = sub content pos 4.
Proof.
  intros Hc ??. exists (le_val (sub content pos 4)). unfold read_u32. rewrite slice_Ok by lia. cbn [fmap res_fmap].
  replace (pos + 4 - pos) with 4 by lia. split; [done|]. split; [|apply (le_bytes_sub content pos 4); [done|lia..]].
  pose proof (le_val_bound _ (sub_ok _ pos 4 Hc)) as Hb. rewrite length_sub in Hb by lia. exact Hb.
Qed.
Lemma frame_at_cases `{!Crc32} content pos :
  bytes_ok content → 0 ≤ pos → pos + 8 ≤ zlen content →
  frame_at content pos = Ok None ∨
  ∃ p e, frame_at content pos = Ok (Some (p, e)) ∧ pos + 8 ≤ e ≤ zlen content ∧ sub content pos (e - pos) = frame p.
Proof.
  intros Hc H0 H8. unfold frame_at.
  destruct (read_u32_in content pos Hc) as (n & -> & Hn & En); [lia..|].
  destruct (read_u32_in content (pos + 4) Hc) as (c & -> & _ & Ec); [lia..|]. unfold got. cbn [fmap res_fmap mbind ropt_bind].
  destruct (Z.ltb_spec (zlen content) (pos + 8 + n)); [by left|]. rewrite slice_Ok by int_lia. cbn [fmap res_fmap mbind ropt_bind].
  replace (pos + 8 + n - (pos + 8)) with n by lia.
  destruct (Z.eqb_spec (crc_hash (sub content (pos + 8) n)) c) as [Hcrc|]; [|by left]. right.
  exists (sub content (pos + 8) n), (pos + 8 + n). split; [done|]. split; [int_lia|]. unfold frame, header.
  assert (zlen (sub content (pos + 8) n) = n) as -> by (apply length_sub; int_lia).
  rewrite as_u32_id by done. rewrite Hcrc, En, Ec. rewrite (sub_join content pos 4) by lia.
  rewrite sub_join by int_lia. f_equal. lia.
Qed.
Lemma scan_loop_safe `{!Crc32} fuel content pos acc :
  bytes_ok content → 0 ≤ pos → (0 < fuel)%nat → zlen content < 8 * Z.of_nat fuel + pos →
  ∃ out, scan_loop fuel content pos acc = Ok (acc ++ out) ∧ chained content pos out.
Proof.
  intros Hc. revert pos acc. induction fuel as [|fuel IH]; intros pos acc Hp H0 Hf; [lia|]. cbn [scan_loop].
  destruct (Z.leb_spec (pos + 8) (zlen content)); [|exists []; by rewrite app_nil_r].
  destruct (frame_at_cases content pos Hc Hp) as [->|(p & e & -> & He & Ep)]; [done|exists []; by rewrite app_nil_r|].
  cbn [mbind res_bind]. rewrite slice_Ok by lia. cbn [mbind res_bind].
  destruct (IH e (acc ++ [(e, sub content pos (e - pos))])) as (out & -> & Hch); [lia..|].
  exists ((e, sub content pos (e - pos)) :: out). rewrite <- app_assoc. split; [done|]. cbn [chained]. split; [lia|]. split; [done|].
  split; [|done]. rewrite Ep. unfold frame at 2. f_equal.
Qed.

(** scanning any bytes from any position ends without a panic, and yields
    consecutive stretches of the content, each the frame of its payload. *)
Theorem scan_frames_safe `{!Crc32} (content : bytes) (from : Z)
    (Hc : bytes_ok content) (Hf : 0 ≤ from ≤ U64_MAX - 8) :
  ∃ out, scan_frames content from = Ok out ∧ chained content from out.
Proof.
  unfold scan_frames. destruct (Z.ltb_spec U64_MAX (from + 8)); [lia|].
  destruct (scan_loop_safe (S (length content)) content from [] Hc) as (out & -> & ?); [lia|lia|unfold zlen; lia|]. by exists out.
Qed.
Lemma scan_frames_safe_witness :
  ∃ out, scan_frames (content torn_file) 3 = Ok out ∧ chained (content torn_file) 3 out.
Proof.
  apply (scan_frames_safe (content torn_file) 3); [|unfold U64_MAX; lia].
  apply (bool_decide_eq_true_1 (bytes_ok (content torn_file))). vm_compute. reflexivity.
Defined.

(** ** Where the code does something else

    A record whose length field is close to [usize::MAX] makes the parser
    overflow, although its checksum is right: recovery panics. *)
Definition long_length_file : OsFile :=
  {| content := frame ([2; 1] ++ varint U64_MAX); synced := 0 |}.
Lemma recover_long_length : (recover (open_binlog (Some long_length_file))).1 = Panic.
Proof. vm_compute. reflexivity. Qed.
(** A log that is opened after a torn write and not recovered takes appends
    that no reader sees. *)
Lemma append_after_torn_write :
  let h := fsync (append (Commit 7) (open_binlog (Some torn_file))).2 in
  read_from h 0 = Ok (events 0 [Prepare 7]) ∧
  read_from (fsync (append (Commit 7) (recover (open_binlog (Some torn_file))).2).2) 0 = Ok (events 0 [Prepare 7; Commit 7]).
Proof. vm_compute. done. Qed.
(** A record in the writer's buffer is not read. *)
Lemma read_before_flush : read_from (append (Prepare 7) (open_binlog None)).2 0 = Ok [].
Proof. vm_compute. done. Qed.
