(* ===== verification/BinlogFollower.v ===== *)
(** Replication over the binary log: src/src/binlog/mod.rs ([base64_encode],
    [base64_decode], [BinlogBroadcaster], [BinlogFollower]) and the handler
    of src/src/raft/http_transport.rs that streams the log.

    HTTP and the parsing of a JSON line are third-party: a body is the list of
    its lines after parsing.  What a follower applies is the list of the
    records it passed to [apply_fn].  The theorems: base 64 round-trips; a
    pull makes a follower that has applied a prefix of the leader's records
    apply exactly the others; a follower resumes where its checkpoint says;
    text literals read back as the text. *)
From S2P Require Import Prelude Varint PrefixCompress Values FileIO Text Binlog.

(** ** Base 64 *)

Definition BASE64_TABLE : bytes :=
  bytes_of_string "ABCDEFGHIJKLMNOPQRSTUVWXYZabcdefghijklmnopqrstuvwxyz0123456789+/".
(** [CHARS[i]]; the index is below 64 for bytes. *)
Definition base64_char (i : Z) : Z := default 0 (BASE64_TABLE !! Z.to_nat i).
(** The four characters of a chunk of [n] bytes. *)
Definition base64_chunk (b0 b1 b2 n : Z) : bytes :=
  [ base64_char (Z.shiftr b0 2);
    base64_char (Z.lor (Z.shiftl (Z.land b0 3) 4) (Z.shiftr b1 4));
    if 1 <? n then base64_char (Z.lor (Z.shiftl (Z.land b1 0xf) 2) (Z.shiftr b2 6)) else 61;
    if 2 <? n then base64_char (Z.land b2 0x3f) else 61 ].
Fixpoint base64_encode (data : bytes) : bytes :=
  match data with
  | [] => []
  | [b0] => base64_chunk b0 0 0 1
  | [b0; b1] => base64_chunk b0 b1 0 2
  | b0 :: b1 :: b2 :: rest => base64_chunk b0 b1 b2 3 ++ base64_encode rest
  end.

(** [TABLE.iter().position(|&t| t == b)] *)
Fixpoint position (b : Z) (l : bytes) : option Z :=
  match l with
  | [] => None
  | t :: l => if t =? b then Some 0 else Z.succ <$> position b l
  end.
Fixpoint base64_loop (l : bytes) (buf bits : Z) (out : bytes) : option bytes :=
  match l with
  | [] => Some out
  | b :: l =>
      val ← position b BASE64_TABLE;
      let buf := Z.lor (as_u32 (Z.shiftl buf 6)) val in
      let bits := bits + 6 in
      if 8 <=? bits then
        let bits := bits - 8 in
        base64_loop l (Z.land buf (Z.shiftl 1 bits - 1)) bits (out ++ [as_u8 (Z.shiftr buf bits)])
      else base64_loop l buf bits out
  end.
Definition base64_decode (s : bytes) : option bytes :=
  base64_loop (trim_end_matches (λ c, c =? 61) s) 0 0 [].

(** ** The leader's side *)

Section Leader.
  Context `{!Crc32}.

(** [BinlogEvent]: the position after the record and its frame. *)
Definition BinlogEvent : Type := Z * bytes.
(** [BinlogBroadcaster::append_and_broadcast], one caller at a time: the start
    of the record and the event sent to the subscribers. *)
Definition append_and_broadcast (record : LogRecord) (h : Host) : res (Z * BinlogEvent) * Host :=
  let '(start_pos, h) := append record h in
  let frame_len := write_pos (mgr h) - start_pos in
  if path (mgr h) then
    let h := fsync h in
    let c := content (disk h) in
    let end_ := start_pos + frame_len in
    let framed := if end_ <=? zlen c then slice c start_pos end_ else Ok [] in
    (f ← framed; Ok (start_pos, (start_pos + zlen f, f)), h)
  else
    let inner := serialize_record record [] in
    let buf := le_bytes 4 (as_u32 (zlen inner)) ++ le_bytes 4 (crc_hash inner) ++ inner in
    (Ok (start_pos, (start_pos + zlen buf, buf)), h).

(** A line of the stream, parsed: its fields [pos] and [data] when they are
    there; [None] is a line that is not JSON. *)
Definition Line : Type := option (option Z * option bytes).
(** [binlog_stream_handler] *)
Definition binlog_stream (h : Host) (from_pos : Z) : res (list Line) :=
  records ← read_from h from_pos;
  Ok (map (λ '(next_pos, framed), Some (Some next_pos, Some (base64_encode framed))) records).

End Leader.

(** ** The follower's side *)

(** The loop of [BinlogFollower::pull_batch] over the lines of the body; the
    error is a text. *)
Fixpoint pull_lines (lines : list Line) (results : list (Z * LogRecord)) : res (string + list (Z * LogRecord)) :=
  match lines with
  | [] => Ok (inr results)
  | None :: _ => Ok (inl "json parse"%string)
  | Some (pos, data) :: lines =>
      let pos := default 0 pos in
      match base64_decode (default [] data) with
      | None => Ok (inl "base64 decode error"%string)
      | Some framed =>
          if zlen framed <? 8 then pull_lines lines results
          else
            payload ← slice_from framed 8;
            r ← deserialize_record payload 0 : res _;
            match r with
            | Some (record, _) => pull_lines lines (results ++ [(pos, record)])
            | None => pull_lines lines results
            end
      end
  end.
Definition pull_batch (body : list Line) : res (string + list (Z * LogRecord)) := pull_lines body [].

(** [BinlogFollower]: [checkpoint] is the checkpoint path, if there is one,
    with the content of the file, if it exists.  [applied] are the records
    given to [apply_fn]. *)
Record BinlogFollower := {
  pos : Z;
  checkpoint : option (option bytes);
  applied : list LogRecord;
}.

(** [str::parse::<u64>] *)
Definition parse_u64 (t : bytes) : option Z :=
  match match t with b :: l => if b =? 43 then l else t | [] => t end with
  | [] => None
  | l => n ← parse_digits 0 l; if n <=? U64_MAX then Some n else None
  end.
(** [BinlogFollower::new] *)
Definition new_follower (checkpoint : option (option bytes)) (applied : list LogRecord) : BinlogFollower :=
  {| pos := default 0 (file ← checkpoint; s ← file; if utf8_valid s then parse_u64 (trim s) else None);
     checkpoint := checkpoint;
     applied := applied |}.
(** [BinlogFollower::save_checkpoint] *)
Definition save_checkpoint (f : BinlogFollower) : BinlogFollower :=
  {| pos := pos f;
     checkpoint := match checkpoint f with Some _ => Some (Some (show_N (pos f))) | None => None end;
     applied := applied f |}.
Definition apply_record (f : BinlogFollower) (r : Z * LogRecord) : BinlogFollower :=
  {| pos := r.1; checkpoint := checkpoint f; applied := applied f ++ [r.2] |}.
(** One turn of [BinlogFollower::run_loop], on the body the leader sent. *)
Definition run_turn (body : list Line) (f : BinlogFollower) : res BinlogFollower :=
  b ← pull_batch body;
  match b with
  | inr [] => Ok f
  | inr records => Ok (save_checkpoint (foldl apply_record f records))
  | inl _ => Ok f
  end.

(** [BinlogFollower::record_to_sql] *)
Definition value_to_sql_literal (v : Value) : bytes :=
  match v with
  | VNull => bytes_of_string "NULL"
  | VInteger i => show_i64 i
  | VReal f => show_f64 (f64_of_bits f)
  | VText s => [39] ++ str_replace [39] [39; 39] s ++ [39]
  | VBlob b => bytes_of_string "X'" ++ hex_encode b ++ [39]
  end.
(** [l.join(sep)] *)
Fixpoint join_with (sep : bytes) (l : list bytes) : bytes :=
  match l with
  | [] => []
  | [x] => x
  | x :: l => x ++ sep ++ join_with sep l
  end.
Definition record_to_sql (r : LogRecord) : list bytes :=
  let s := bytes_of_string in
  match r with
  | Begin txid => [s "-- BEGIN txid=" ++ show_N txid]
  | Insert _ table_name _ row =>
      let cols := map (λ i, s "col" ++ show_N i) (seqZ 0 (zlen row)) in
      let vals := map value_to_sql_literal row in
      [s "INSERT OR REPLACE INTO " ++ table_name ++ s " (" ++ join_with (s ", ") cols ++ s ") VALUES (" ++ join_with (s ", ") vals ++ s ")"]
  | Update _ table_name rowid _ new_row =>
      let sets := imap (λ i v, s "col" ++ show_N (Z.of_nat i) ++ s " = " ++ value_to_sql_literal v) new_row in
      [s "UPDATE " ++ table_name ++ s " SET " ++ join_with (s ", ") sets ++ s " WHERE rowid = " ++ show_i64 rowid]
  | Delete _ table_name rowid _ => [s "DELETE FROM " ++ table_name ++ s " WHERE rowid = " ++ show_i64 rowid]
  | Commit txid => [s "-- COMMIT txid=" ++ show_N txid]
  | Rollback txid => [s "-- ROLLBACK txid=" ++ show_N txid]
  | Prepare txid => [s "-- PREPARE txid=" ++ show_N txid]
  | Sql sql _ _ => [sql]
  end.

(** ** Base 64 round-trips *)

Lemma list_ind3 {A} (P : list A → Prop) :
  P [] → (∀ a, P [a]) → (∀ a b, P [a; b]) → (∀ a b c l, P l → P (a :: b :: c :: l)) → ∀ l, P l.
Proof. intros H0 H1 H2 H3. fix IH 1. intros [|a [|b [|c l]]]; [apply H0|apply H1|apply H2|]. apply H3, IH. Qed.

(** The six-bit groups of the bytes. *)
Fixpoint sextets (data : bytes) : list Z :=
  match data with
  | [] => []
  | [b0] => [b0 / 4; b0 mod 4 * 16]
  | [b0; b1] => [b0 / 4; b0 mod 4 * 16 + b1 / 16; b1 mod 16 * 4]
  | b0 :: b1 :: b2 :: rest => b0 / 4 :: b0 mod 4 * 16 + b1 / 16 :: b1 mod 16 * 4 + b2 / 64 :: b2 mod 64 :: sextets rest
  end.
Definition sextet (i : Z) : Prop := 0 ≤ i < 64.
Lemma sextet_forallb (P : Z → bool) : forallb P (seqZ 0 64) = true → ∀ i, sextet i → P i = true.
Proof. intros H i Hi. rewrite forallb_forall in H. apply H, list_elem_of_In, elem_of_seqZ. unfold sextet in Hi. lia. Qed.
Lemma position_char i : sextet i → position (base64_char i) BASE64_TABLE = Some i.
Proof.
  intros Hi. apply (bool_decide_eq_true_1 _). revert i Hi.
  apply (sextet_forallb (λ i, bool_decide (position (base64_char i) BASE64_TABLE = Some i))). vm_compute. reflexivity.
Qed.
Lemma base64_char_range i : sextet i → 0 ≤ base64_char i < 128 ∧ base64_char i ≠ 61.
Proof.
  intros Hi. apply (bool_decide_eq_true_1 _). revert i Hi.
  apply (sextet_forallb (λ i, bool_decide (0 ≤ base64_char i < 128 ∧ base64_char i ≠ 61))). vm_compute. reflexivity.
Qed.

Lemma shiftr_div x n : 0 ≤ n → Z.shiftr x n = x / 2 ^ n.
Proof. apply Z.shiftr_div_pow2. Qed.
Lemma land_mod x n m : 0 ≤ n → m = Z.ones n → Z.land x m = x mod 2 ^ n.
Proof. intros ? ->. by apply Z.land_ones. Qed.
Lemma lor_shift_add x y n : 0 ≤ n → 0 ≤ y < 2 ^ n → Z.lor (Z.shiftl x n) y = x * 2 ^ n + y.
Proof. intros. rewrite Z.lor_comm, lor_shiftl_add by lia. lia. Qed.

Lemma base64_chunk_sextets b0 b1 b2 n :
  is_byte b0 → is_byte b1 → is_byte b2 →
  base64_chunk b0 b1 b2 n =
    [ base64_char (b0 / 4); base64_char (b0 mod 4 * 16 + b1 / 16);
      if 1 <? n then base64_char (b1 mod 16 * 4 + b2 / 64) else 61;
      if 2 <? n then base64_char (b2 mod 64) else 61 ].
Proof.
  intros H0 H1 H2. unfold base64_chunk. unfold is_byte in *.
  rewrite !shiftr_div, (land_mod b0 2 3), (land_mod b1 4 0xf), (land_mod b2 6 0x3f) by (done || lia).
  rewrite !lor_shift_add by (lia || div_lia). done.
Qed.
Lemma base64_encode_sextets data :
  bytes_ok data → ∃ n, base64_encode data = map base64_char (sextets data) ++ replicate n 61 ∧ Forall sextet (sextets data).
Proof.
  induction data as [|b0|b0 b1|b0 b1 b2 l IH] using list_ind3; intros Hb.
  - by exists 0%nat.
  - apply Forall_cons in Hb as [H0 _]. exists 2%nat. cbn [base64_encode sextets].
    rewrite base64_chunk_sextets by (done || unfold is_byte; lia). cbn. rewrite Z.add_0_r. split; [done|].
    unfold is_byte, sextet in *. repeat constructor; div_lia.
  - apply Forall_cons in Hb as [H0 [H1 _]%Forall_cons]. exists 1%nat. cbn [base64_encode sextets].
    rewrite base64_chunk_sextets by (done || unfold is_byte; lia). cbn. rewrite Z.add_0_r. split; [done|].
    unfold is_byte, sextet in *. repeat constructor; div_lia.
  - apply Forall_cons in Hb as [H0 [H1 [H2 Hl]%Forall_cons]%Forall_cons]. destruct (IH Hl) as (n & E & Hs). exists n.
    cbn [base64_encode sextets]. rewrite base64_chunk_sextets by done. split; [cbn; by rewrite E|].
    unfold is_byte, sextet in *. repeat (constructor; [div_lia|]). done.
Qed.

(** One character, before and after a byte is complete. *)
Lemma base64_step i l buf bits out :
  sextet i → bits = 0 ∨ 2 ≤ bits ≤ 6 → 0 ≤ buf < 2 ^ bits →
  base64_loop (base64_char i :: l) buf bits out =
    if bits =? 0 then base64_loop l i 6 out
    else base64_loop l ((buf * 64 + i) mod 2 ^ (bits - 2)) (bits - 2) (out ++ [as_u8 ((buf * 64 + i) / 2 ^ (bits - 2))]).
Proof.
  intros Hi Hbits Hbuf. cbn [base64_loop]. rewrite position_char by done. cbn [mbind option_bind].
  assert (2 ^ bits ≤ 2 ^ 6) as Hp by (apply Z.pow_le_mono_r; lia).
  assert (as_u32 (Z.shiftl buf 6) = Z.shiftl buf 6) as ->.
  { apply as_u32_id. unfold is_u32. rewrite Z.shiftl_mul_pow2 by lia. lia. }
  rewrite lor_shift_add by (done || lia). change (2 ^ 6) with 64.
  destruct (Z.eqb_spec bits 0) as [->|Hn].
  - assert (buf = 0) as -> by lia. done.
  - destruct (Z.leb_spec 8 (bits + 6)) as [H8|]; [|lia]. replace (bits + 6 - 8) with (bits - 2) by lia.
    rewrite shiftr_div by lia. rewrite (land_mod _ (bits - 2)); [done|lia|]. unfold Z.ones. lia.
Qed.
Lemma base64_loop_sextets data out : bytes_ok data → base64_loop (map base64_char (sextets data)) 0 0 out = Some (out ++ data).
Proof.
  assert (∀ x, is_byte x → as_u8 x = x) as H8 by (intros; by apply as_u8_id). revert out.
  induction data as [|b0|b0 b1|b0 b1 b2 l IH] using list_ind3; intros out Hb; cbn [sextets map].
  - by rewrite app_nil_r.
  - apply Forall_cons in Hb as [H0 _]. unfold is_byte in H0. rewrite !base64_step by (unfold sextet; try div_lia).
    cbn [Z.eqb base64_loop]. change (2 ^ (6 - 2)) with 16. do 2 f_equal. f_equal. rewrite H8; [div_lia|unfold is_byte; div_lia].
  - apply Forall_cons in Hb as [H0 [H1 _]%Forall_cons]. unfold is_byte in H0, H1. rewrite !base64_step by (unfold sextet; try div_lia).
    cbn [Z.eqb base64_loop]. change (2 ^ (6 - 2)) with 16. change (2 ^ (6 - 2 - 2)) with 4. rewrite <- app_assoc.
    do 2 f_equal. cbn [app]. f_equal; [|f_equal]; (rewrite H8; [div_lia|unfold is_byte; div_lia]).
  - apply Forall_cons in Hb as [H0 [H1 [H2 Hl]%Forall_cons]%Forall_cons]. unfold is_byte in H0, H1, H2.
    rewrite !base64_step by (unfold sextet; try div_lia).
    cbn [Z.eqb]. change (2 ^ (6 - 2)) with 16. change (2 ^ (6 - 2 - 2)) with 4. change (6 - 2 - 2 - 2) with 0.
    replace ((((b0 / 4 * 64 + (b0 mod 4 * 16 + b1 / 16)) mod 16 * 64 + (b1 mod 16 * 4 + b2 / 64)) mod 4 * 64 + b2 mod 64) mod 2 ^ 0) with 0
      by (rewrite Z.mod_1_r; lia).
    rewrite IH, <- !app_assoc by done. do 2 f_equal. cbn [app].
    f_equal; [|f_equal; [|f_equal]]; (rewrite H8; [div_lia|unfold is_byte; div_lia]).
Qed.

Lemma ascii_chars l : Forall (λ b, 0 ≤ b < 128) l → chars l = l ∧ of_chars l = l.
Proof.
  intros Hl. assert (of_chars l = l) as E.
  { induction Hl as [|b l Hb _ IH]; [done|]. rewrite of_chars_cons, IH. unfold utf8_encode. by destruct (Z.ltb_spec b 0x80); [|lia]. }
  split; [|done]. rewrite <- E at 1. apply of_chars_ok. eapply Forall_impl; [exact Hl|]. cbn. unfold is_char. lia.
Qed.
Lemma drop_while_replicate f n c l : f c = true → drop_while f (replicate n c ++ l) = drop_while f l.
Proof. intros Hf. induction n as [|n IH]; [done|]. cbn. by rewrite Hf. Qed.
Lemma trim_padding l n :
  Forall (λ b, 0 ≤ b < 128 ∧ b ≠ 61) l → trim_end_matches (λ c, c =? 61) (l ++ replicate n 61) = l.
Proof.
  intros Hl. unfold trim_end_matches.
  assert (Forall (λ b, 0 ≤ b < 128) l) as Ha by (eapply Forall_impl; [exact Hl|]; cbn; tauto).
  rewrite (proj1 (ascii_chars (l ++ replicate n 61) ltac:(apply Forall_app_2; [done|apply Forall_replicate; lia]))).
  rewrite rev_app_distr. assert (rev (replicate n 61) = replicate n 61) as -> by (rewrite rev_alt; apply reverse_replicate).
  rewrite drop_while_replicate by done. rewrite drop_while_none, rev_involutive; [by apply ascii_chars|].
  apply Forall_rev. eapply Forall_impl; [exact Hl|]. cbn. intros b [_ ?]. by apply Z.eqb_neq.
Qed.
Lemma base64_decode_encode data : bytes_ok data → base64_decode (base64_encode data) = Some data.
Proof.
  intros Hd. destruct (base64_encode_sextets data Hd) as (n & -> & Hs). unfold base64_decode.
  rewrite trim_padding; [by apply base64_loop_sextets|]. apply Forall_map.
  eapply Forall_impl; [exact Hs|]. intros i Hi. by apply base64_char_range.
Qed.

(** decoding the base 64 text of any bytes gives the bytes back. *)
Theorem base64_roundtrip (data : bytes) (Hd : bytes_ok data) :
  base64_decode (base64_encode data) = Some data.
Proof. by apply base64_decode_encode. Qed.
Lemma base64_roundtrip_witness : base64_decode (base64_encode [0; 255; 128; 7]) = Some [0; 255; 128; 7].
Proof. apply (base64_roundtrip [0; 255; 128; 7]). repeat constructor; lia. Defined.
Example base64_sample : base64_encode (bytes_of_string "kkdb!") = bytes_of_string "a2tkYiE=".
Proof. reflexivity. Qed.

(** ** Following a leader *)

Section Following.
  Context `{!Crc32}.

Lemma record_bytes_ok r : record_ok r → bytes_ok (serialize_record r []).
Proof.
  intros Hr. rewrite serialize_record_fields. cbn [app].
  assert (∀ v, is_u64 v → bytes_ok (varint v)) as Hv by (intros v [? _]; by apply varint_bytes_ok).
  assert (∀ t, string_ok t → bytes_ok (string_enc t)) as Hs.
  { intros t (Hb & _ & Hl). apply Forall_app_2; [apply varint_bytes_ok, zlen_nonneg|done]. }
  assert (∀ row, log_row_ok row → bytes_ok (row_enc row)) as Hw.
  { intros row (Ho & Hl). apply Forall_app_2; [apply varint_bytes_ok, zlen_nonneg|by apply serialize_row_bytes_ok]. }
  assert (∀ b l, 0 ≤ b < 256 → bytes_ok l → bytes_ok (b :: l)) as Hc by (intros; by constructor).
  assert (∀ l k, bytes_ok l → bytes_ok k → bytes_ok (l ++ k)) as Ha by (intros; by apply Forall_app_2).
  pose proof (λ v Hv, zigzag_encode_range v Hv) as Hz.
  destruct r as [ | | |? ? ? []| | | |]; cbn [record_fields record_ok app from_option] in *;
    repeat match goal with H : _ ∧ _ |- _ => destruct H end;
    repeat match goal with
    | |- bytes_ok (string_enc _) => apply Hs
    | |- bytes_ok (row_enc _) => apply Hw
    | |- bytes_ok (varint _) => apply Hv
    | |- is_u64 (zigzag_encode _) => apply Hz
    | |- bytes_ok (_ ++ _) => apply Ha
    | |- bytes_ok (_ :: _) => apply Hc; [lia|]
    | |- bytes_ok [] => apply Forall_nil_2
    end; assumption.
Qed.
Lemma frame_bytes_ok p : bytes_ok p → bytes_ok (frame p).
Proof. intros. repeat apply Forall_app_2; (done || apply le_bytes_ok). Qed.

(** The records with the positions after them. *)
Fixpoint located (pos : Z) (rs : list LogRecord) : list (Z * LogRecord) :=
  match rs with
  | [] => []
  | r :: rs => let next := pos + zlen (record_frame r) in (next, r) :: located next rs
  end.
Lemma pull_lines_events rs p acc :
  Forall fits rs →
  pull_lines (map (λ '(next_pos, framed), Some (Some next_pos, Some (base64_encode framed))) (events p rs)) acc =
    Ok (inr (acc ++ located p rs)).
Proof.
  intros Hrs. revert p acc. induction Hrs as [|r rs [Hr _] _ IH]; intros p acc; cbn [events map pull_lines located]; [by rewrite app_nil_r|].
  cbn [default from_option id]. rewrite base64_decode_encode by by apply frame_bytes_ok, record_bytes_ok.
  unfold record_frame. rewrite !zlen_frame. pose proof (zlen_nonneg (serialize_record r [])).
  destruct (Z.ltb_spec (8 + zlen (serialize_record r [])) 8); [lia|].
  replace (slice_from (frame (serialize_record r [])) 8) with (Ok (serialize_record r [])) by (unfold frame; by rewrite <- (zlen_header (serialize_record r [])), slice_from_app).
  cbn [mbind res_bind].
  pose proof (deserialize_serialize_record r [] Hr) as Hd. rewrite app_nil_r in Hd. rewrite Hd. cbn [mbind res_bind].
  rewrite IH, <- app_assoc. done.
Qed.
Lemma apply_located rs p f :
  pos f = p → foldl apply_record f (located p rs) =
    {| pos := p + zlen (log_bytes rs); checkpoint := checkpoint f; applied := applied f ++ rs |}.
Proof.
  revert p f. induction rs as [|r rs IH]; intros p f Hp; cbn [located foldl].
  - destruct f; cbn in *. subst. by rewrite Z.add_0_r, app_nil_r.
  - rewrite IH by done. rewrite log_bytes_cons, zlen_app. cbn. by rewrite <- app_assoc, Z.add_assoc.
Qed.

Lemma parse_show_u64 n : is_u64 n → utf8_valid (show_N n) = true ∧ parse_u64 (trim (show_N n)) = Some n.
Proof.
  intros Hn. destruct (show_N_spec n) as (Hp & Hd & Hne); [apply Hn|].
  assert (Forall (λ b, 0 ≤ b < 128) (show_N n)) as Ha by apply show_N_ascii.
  split; [by apply ascii_text|]. unfold trim, trim_matches. rewrite (proj1 (ascii_chars _ Ha)).
  assert (Forall (λ c, is_whitespace c = false) (show_N n)) as Hw.
  { eapply Forall_impl; [exact Hd|]. intros b Hb. cbn in Hb.
    assert (forallb (λ c, negb (is_whitespace c)) (seqZ 48 10) = true) as Hall by reflexivity.
    rewrite forallb_forall in Hall. apply negb_true_iff, Hall, list_elem_of_In, elem_of_seqZ. lia. }
  rewrite (drop_while_none _ (show_N n)), drop_while_none, rev_involutive by (done || by apply Forall_rev).
  rewrite (proj2 (ascii_chars _ Ha)). unfold parse_u64.
  destruct (show_N n) as [|b l] eqn:E; [done|]. apply Forall_cons in Hd as [Hb _].
  destruct (Z.eqb_spec b 43); [lia|]. rewrite Hp. cbn [mbind option_bind].
  destruct (Z.leb_spec n U64_MAX); [done|int_lia].
Qed.

(** The follower has applied the first [i] records of the leader, stands after
    them, and would resume there. *)
Record following (f : BinlogFollower) (rs : list LogRecord) (i : nat) : Prop := {
  fol_len : (i ≤ length rs)%nat;
  fol_pos : pos f = record_pos rs i;
  fol_applied : applied f = take i rs;
  fol_resumes : checkpoint f ≠ None → pos (new_follower (checkpoint f) (applied f)) = pos f;
}.

(** [C23] A follower that has applied the first records of the leader, once
    each and in order, and pulls once, has then applied more of them, at
    least all that the leader has synced, again once each and in order; its
    checkpoint makes a restarted follower resume after them.  So a leader
    that has synced its log is caught up with in one turn. *)
Theorem follower_catches_up (h : Host) (s : Spec) (f : BinlogFollower) (i : nat)
    (Hh : implements h s) (Hf : following f (records s) i)
    (Hsize : zlen (log_bytes (records s)) + 8 ≤ U64_MAX) :
  ∃ body f' j, binlog_stream h (pos f) = Ok body ∧ run_turn body f = Ok f' ∧
    (i ≤ j)%nat ∧ (durable s ≤ j)%nat ∧ following f' (records s) j.
Proof.
  destruct Hf as [Hi Hp Ha Hc]. rewrite Hp.
  assert (∀ k, (k ≤ length (records s))%nat → record_pos (records s) k ≤ zlen (log_bytes (records s))) as Hle.
  { intros k Hk. unfold record_pos. rewrite <- (firstn_all (records s)) at 2. by apply log_bytes_take_le. }
  destruct (read_from_pos h s i Hh) as (n & Hn & Er); [specialize (Hle i Hi); lia|].
  set (line := λ '(next_pos, framed), Some (Some next_pos, Some (base64_encode framed)) : Line).
  assert (pull_batch (map line (events (record_pos (records s) i) (drop i (take n (records s)))))
    = Ok (inr (located (record_pos (records s) i) (drop i (take n (records s)))))) as Hpull.
  { unfold pull_batch. apply pull_lines_events, Forall_drop, Forall_take, (imp_fits _ _ Hh). }
  exists (map line (events (record_pos (records s) i) (drop i (take n (records s))))).
  unfold binlog_stream. rewrite Er. unfold run_turn. rewrite Hpull. cbn [mbind res_bind].
  assert (length (drop i (take n (records s))) = n - i)%nat as Hlen by (rewrite length_drop, length_take; lia).
  destruct (drop i (take n (records s))) as [|r rs] eqn:E; cbn [located]; cbn [length] in Hlen.
  - exists f, i. split; [reflexivity|]. split; [reflexivity|]. split; [lia|]. split; [lia|]. by constructor.
  - eexists _, n. split; [reflexivity|]. split; [reflexivity|]. split; [lia|]. split; [lia|].
    change (_ :: located _ rs) with (located (record_pos (records s) i) (r :: rs)). rewrite apply_located by done. rewrite <- E.
    assert (record_pos (records s) i + zlen (log_bytes (drop i (take n (records s)))) = record_pos (records s) n) as ->.
    { unfold record_pos. rewrite <- (take_drop i (take n (records s))) at 2. rewrite take_take, Nat.min_l by lia. by rewrite log_bytes_app, zlen_app. }
    constructor; cbn [pos checkpoint applied save_checkpoint]; [lia|done| |].
    + rewrite Ha. rewrite <- (take_drop i (take n (records s))) at 2. by rewrite take_take, Nat.min_l by lia.
    + destruct (checkpoint f) as [c|]; [|done]. intros _. unfold new_follower. cbn.
      destruct (parse_show_u64 (record_pos (records s) n)) as [-> ->]; [|done].
      specialize (Hle n ltac:(lia)). pose proof (zlen_nonneg (log_bytes (take n (records s)))). unfold record_pos in *. int_lia.
Qed.
End Following.

(** A leader with a synced record and a buffered one; a follower that has
    applied the first. *)
Definition leader_sql : LogRecord := Sql (bytes_of_string "SELECT 1") [] 5.
Definition leader_host : Host := (append leader_sql (fsync (append (Prepare 7) (open_binlog None)).2)).2.
Definition follower : BinlogFollower := new_follower (Some (Some (bytes_of_string "10"))) [Prepare 7].
Lemma leader_implements : implements leader_host {| records := [Prepare 7; leader_sql]; durable := 1 |}.
Proof.
  assert (∀ r, record_ok r → zlen (serialize_record r []) ≤ 20 → fits r) as Hfits.
  { intros r Hr Hl. split; [done|]. unfold U32_MAX. lia. }
  apply (append_implements _ {| records := [Prepare 7]; durable := 1 |} leader_sql).
  - apply (fsync_implements _ {| records := [Prepare 7]; durable := 0 |}).
    apply (append_implements _ {| records := []; durable := 0 |} (Prepare 7) open_implements).
    apply Hfits; vm_compute; done.
  - apply Hfits; [|vm_compute; done].
    split; [split; [|vm_compute; done]|split; [split; [constructor|vm_compute; done]|vm_compute; done]].
    apply (bool_decide_eq_true_1 (bytes_ok (bytes_of_string "SELECT 1"))). vm_compute. reflexivity.
Qed.
Lemma follower_catches_up_witness :
  ∃ body f' j, binlog_stream leader_host 10 = Ok body ∧ run_turn body follower = Ok f' ∧
    (1 ≤ j)%nat ∧ (1 ≤ j)%nat ∧ following f' [Prepare 7; leader_sql] j.
Proof.
  apply (follower_catches_up leader_host {| records := [Prepare 7; leader_sql]; durable := 1 |} follower 1).
  - exact leader_implements.
  - constructor; [cbn; lia|vm_compute; reflexivity|reflexivity|intros _; reflexivity].
  - apply Z.leb_le. vm_compute. reflexivity.
Defined.

(** ** The event of a broadcast is the frame of its record *)

(** what the broadcaster sends to the subscribers is the frame of the
    record that it has appended, with the position after it, for a log on
    disk (which it syncs) as for one in memory. *)
Theorem broadcast_sends_frame `{!Crc32} (h : Host) (s : Spec) (r : LogRecord) (Hh : implements h s) (Hr : fits r) :
  let start := record_pos (records s) (length (records s)) in
  ∃ h', append_and_broadcast r h = (Ok (start, (start + zlen (record_frame r), record_frame r)), h') ∧
    implements h' {| records := records s ++ [r]; durable := S (length (records s)) |} ∧
  ∀ d, append_and_broadcast r (open_memory d) =
    (Ok (0, (zlen (record_frame r), record_frame r)), (append r (open_memory d)).2).
Proof.
  intros start. destruct (append_implements h s r Hh Hr) as [Ea Hi]. fold start in Ea.
  unfold append_and_broadcast. rewrite (surjective_pairing (append r h)), Ea.
  pose proof (imp_path _ _ Hi) as Hp. rewrite Hp. pose proof (fsync_implements _ _ Hi) as Hs. cbn [records] in Hs.
  assert (content (disk (fsync (append r h).2)) = log_bytes (records s) ++ record_frame r) as Ec.
  { destruct Hi as [_ _ (w & Hw & Hb) _ _ _]. unfold fsync, flush. rewrite Hw. cbn [file mgr disk content]. rewrite Hb.
    cbn [records]. rewrite log_bytes_app. unfold log_bytes at 2. cbn. by rewrite app_nil_r. }
  pose proof (imp_pos _ _ Hi) as Hw. cbn [records] in Hw. rewrite log_bytes_app in Hw.
  assert (log_bytes [r] = record_frame r) as E1 by (unfold log_bytes; cbn; by rewrite app_nil_r). rewrite E1, zlen_app in Hw.
  assert (start = zlen (log_bytes (records s))) as Est by (unfold start, record_pos; by rewrite firstn_all).
  rewrite Hw, Ec, Est, zlen_app.
  replace (zlen (log_bytes (records s)) + (zlen (log_bytes (records s)) + zlen (record_frame r) - zlen (log_bytes (records s))))
    with (zlen (log_bytes (records s)) + zlen (record_frame r)) by lia. rewrite Z.leb_refl.
  pose proof (slice_mid (log_bytes (records s)) (record_frame r) []) as Hm. rewrite app_nil_r in Hm. rewrite Hm.
  eexists. split; [reflexivity|]. split; [by rewrite length_app, Nat.add_1_r in Hs|]. intros d. done.
Qed.
Lemma broadcast_sends_frame_witness :
  let start := record_pos [Prepare 7; leader_sql] 2 in
  ∃ h', append_and_broadcast (Commit 7) leader_host = (Ok (start, (start + zlen (record_frame (Commit 7)), record_frame (Commit 7))), h') ∧
    implements h' {| records := [Prepare 7; leader_sql; Commit 7]; durable := 3 |} ∧
  ∀ d, append_and_broadcast (Commit 7) (open_memory d) =
    (Ok (0, (zlen (record_frame (Commit 7)), record_frame (Commit 7))), (append (Commit 7) (open_memory d)).2).
Proof.
  apply (broadcast_sends_frame leader_host {| records := [Prepare 7; leader_sql]; durable := 1 |} (Commit 7) leader_implements).
  split; [vm_compute; done|]. apply Z.leb_le. vm_compute. reflexivity.
Defined.

(** ** Text literals *)

(** How SQL reads a text literal after its opening quote: two quotes are one,
    a single one ends it. *)
Fixpoint read_literal (s : bytes) (acc : bytes) : option (bytes * bytes) :=
  match s with
  | [] => None
  | c :: s' =>
      if c =? 39 then
        match s' with
        | d :: s'' => if d =? 39 then read_literal s'' (acc ++ [39]) else Some (acc, s')
        | [] => Some (acc, [])
        end
      else read_literal s' (acc ++ [c])
  end.

Definition double_quotes (l : list Z) : list Z := mjoin (map (λ c, if c =? 39 then [39; 39] else [c]) l).
Lemma double_quotes_cons c l : double_quotes (c :: l) = (if c =? 39 then [39; 39] else [c]) ++ double_quotes l.
Proof. reflexivity. Qed.
Lemma replace_quotes fuel l : (length l ≤ fuel)%nat → replace_loop fuel [39] [39; 39] l = double_quotes l.
Proof.
  revert fuel. induction l as [|c l IH]; intros [|fuel] Hl; try done; cbn [length] in Hl; [lia|].
  cbn [replace_loop]. rewrite double_quotes_cons, <- (IH fuel) by lia.
  assert (starts_with [39] (c :: l) = (c =? 39)) as -> by (cbn [starts_with]; by rewrite andb_true_r, Z.eqb_sym).
  by destruct (c =? 39).
Qed.
Lemma read_literal_plain l s acc : Forall (λ b, b ≠ 39) l → read_literal (l ++ s) acc = read_literal s (acc ++ l).
Proof.
  intros Hl. revert acc. induction Hl as [|b l Hb _ IH]; intros acc; cbn [app read_literal]; [by rewrite app_nil_r|].
  destruct (Z.eqb_spec b 39); [done|]. by rewrite IH, <- app_assoc.
Qed.
Lemma utf8_no_quote c : is_char c → c ≠ 39 → Forall (λ b, b ≠ 39) (utf8_encode c).
Proof. intros Hc ?. unfold is_char in Hc. unfold utf8_encode. cmp_cases; repeat constructor; div_lia. Qed.
Lemma read_literal_quoted l rest acc :
  Forall is_char l → head rest ≠ Some 39 →
  read_literal (of_chars (double_quotes l) ++ 39 :: rest) acc = Some (acc ++ of_chars l, rest).
Proof.
  intros Hl Hr. revert acc. induction Hl as [|c l Hc _ IH]; intros acc.
  - cbn. rewrite app_nil_r. destruct rest as [|d rest]; [done|]. cbn in Hr. destruct (Z.eqb_spec d 39) as [->|]; done.
  - rewrite double_quotes_cons, of_chars_app, <- app_assoc, of_chars_cons.
    destruct (Z.eqb_spec c 39) as [->|Hne].
    + cbn. rewrite IH, <- app_assoc. done.
    + unfold of_chars at 1. cbn [map mjoin list_join]. rewrite app_nil_r.
      rewrite read_literal_plain by by apply utf8_no_quote. by rewrite IH, <- app_assoc.
Qed.

(** the SQL literal of a text is a quoted literal that reads back as the
    text, whatever quotes the text contains and whatever follows. *)
Theorem text_literal_reads_back (t rest : bytes) (Ht : text_ok t) (Hr : head rest ≠ Some 39) :
  ∃ body, value_to_sql_literal (VText t) ++ rest = 39 :: body ∧ read_literal body [] = Some (t, rest).
Proof.
  destruct (chars_text t Ht) as [Et Hc]. exists (of_chars (double_quotes (chars t)) ++ 39 :: rest). split.
  - unfold value_to_sql_literal, str_replace. change (chars [39]) with [39]. change (chars [39; 39]) with [39; 39].
    cbn [app]. rewrite replace_quotes by done. by rewrite <- app_assoc.
  - by rewrite read_literal_quoted, Et.
Qed.
Lemma text_literal_reads_back_witness :
  ∃ body, value_to_sql_literal (VText [0x61; 39; 0xC3; 0xA9; 39]) ++ [41] = 39 :: body ∧
    read_literal body [] = Some ([0x61; 39; 0xC3; 0xA9; 39], [41]).
Proof. apply (text_literal_reads_back [0x61; 39; 0xC3; 0xA9; 39] [41]); [split; [repeat constructor; lia|reflexivity]|done]. Defined.

(** ** Where the code does something else

    A whole double becomes an integer literal, so that the follower stores
    another value. *)
Lemma whole_double_literal :
  value_to_sql_literal (VReal 0x3FF0000000000000) = value_to_sql_literal (VInteger 1).
Proof. vm_compute. reflexivity. Qed.
(** The statement of an insert has neither the row's identifier nor the names
    of the columns. *)
Lemma insert_statement_rowid txid t rowid rowid' row :
  record_to_sql (Insert txid t rowid row) = record_to_sql (Insert txid t rowid' row).
Proof. reflexivity. Qed.
(** A follower does not verify the checksum of a frame: it applies a record
    from a frame whose checksum is wrong. *)
Lemma follower_skips_checksum :
  run_turn [Some (Some 10, Some (base64_encode ([2; 0; 0; 0; 0; 0; 0; 0] ++ serialize_record (Commit 7) [])))] (new_follower None [])
  = Ok {| pos := 10; checkpoint := None; applied := [Commit 7] |} ∧ crc_hash (serialize_record (Commit 7) []) ≠ 0.
Proof. by vm_compute. Qed.
(** A follower panics on a frame with a text length close to [usize::MAX]. *)
Lemma follower_panics :
  run_turn [Some (Some 21, Some (base64_encode (frame ([2; 1] ++ varint U64_MAX))))] (new_follower None []) = Panic.
Proof. vm_compute. reflexivity. Qed.
