(* ===== verification/Transactions.v ===== *)
(** Transactions: the transaction statements of src/src/vm/execute.rs, over
    the pager, the undo log and registry, the lock managers and the binary log.

    [Session] has the fields of [VM] that BEGIN, COMMIT, ROLLBACK and the
    savepoint statements read or change.  The schema catalogue is only copied
    and put back here: it is a parameter.  A mutex is never poisoned.  The
    theorems: the two phases of COMMIT, and what recovery of the binary log
    says after a crash; what the end of a transaction releases; ROLLBACK
    restores the pages of the catalogue and of every table, and the schema. *)
From S2P Require Import Prelude Varint Values Binlog Mvcc LockManager RowLocks PagerIface FileIO Superblock Wal Pager PagerMemory PagerRollback PagerCommit.

Section Session.
Context `{PageSize, Lz4, Crc32} {Schema : Type}.

Record Session := mkSession {
  pager : Pager;
  table_pagers : gmap string Pager;
  schema : Schema;
  schema_snapshot : option Schema;
  mvcc_undo_log : UndoLog;
  current_txn_id : Z;
  txn_registry : TransactionRegistry;
  mvcc_snapshot : option MvccSnapshot;
  lock_table : LockTable;
  row_lock_manager : RowLockManager;
  isolation_level : IsolationLevel;
  binlog : Host;
  index_eq_cache : gmap string (gmap bytes (list Z));
  index_rowid_cache : gmap string (gmap Z Z);
  index_ordered_cache : gmap string (list (Value * Z))
}.

Definition set_pager (x : Pager) (s : Session) : Session :=
  mkSession x (table_pagers s) (schema s) (schema_snapshot s) (mvcc_undo_log s) (current_txn_id s)
    (txn_registry s) (mvcc_snapshot s) (lock_table s) (row_lock_manager s) (isolation_level s) (binlog s)
    (index_eq_cache s) (index_rowid_cache s) (index_ordered_cache s).
Definition set_table_pagers (x : gmap string Pager) (s : Session) : Session :=
  mkSession (pager s) x (schema s) (schema_snapshot s) (mvcc_undo_log s) (current_txn_id s) (txn_registry s)
    (mvcc_snapshot s) (lock_table s) (row_lock_manager s) (isolation_level s) (binlog s) (index_eq_cache s)
    (index_rowid_cache s) (index_ordered_cache s).
Definition set_schema (x : Schema) (s : Session) : Session :=
  mkSession (pager s) (table_pagers s) x (schema_snapshot s) (mvcc_undo_log s) (current_txn_id s)
    (txn_registry s) (mvcc_snapshot s) (lock_table s) (row_lock_manager s) (isolation_level s) (binlog s)
    (index_eq_cache s) (index_rowid_cache s) (index_ordered_cache s).
Definition set_schema_snapshot (x : option Schema) (s : Session) : Session :=
  mkSession (pager s) (table_pagers s) (schema s) x (mvcc_undo_log s) (current_txn_id s) (txn_registry s)
    (mvcc_snapshot s) (lock_table s) (row_lock_manager s) (isolation_level s) (binlog s) (index_eq_cache s)
    (index_rowid_cache s) (index_ordered_cache s).
Definition set_mvcc_undo_log (x : UndoLog) (s : Session) : Session :=
  mkSession (pager s) (table_pagers s) (schema s) (schema_snapshot s) x (current_txn_id s) (txn_registry s)
    (mvcc_snapshot s) (lock_table s) (row_lock_manager s) (isolation_level s) (binlog s) (index_eq_cache s)
    (index_rowid_cache s) (index_ordered_cache s).
Definition set_current_txn_id (x : Z) (s : Session) : Session :=
  mkSession (pager s) (table_pagers s) (schema s) (schema_snapshot s) (mvcc_undo_log s) x (txn_registry s)
    (mvcc_snapshot s) (lock_table s) (row_lock_manager s) (isolation_level s) (binlog s) (index_eq_cache s)
    (index_rowid_cache s) (index_ordered_cache s).
Definition set_txn_registry (x : TransactionRegistry) (s : Session) : Session :=
  mkSession (pager s) (table_pagers s) (schema s) (schema_snapshot s) (mvcc_undo_log s) (current_txn_id s) x
    (mvcc_snapshot s) (lock_table s) (row_lock_manager s) (isolation_level s) (binlog s) (index_eq_cache s)
    (index_rowid_cache s) (index_ordered_cache s).
Definition set_mvcc_snapshot (x : option MvccSnapshot) (s : Session) : Session :=
  mkSession (pager s) (table_pagers s) (schema s) (schema_snapshot s) (mvcc_undo_log s) (current_txn_id s)
    (txn_registry s) x (lock_table s) (row_lock_manager s) (isolation_level s) (binlog s) (index_eq_cache s)
    (index_rowid_cache s) (index_ordered_cache s).
Definition set_lock_table (x : LockTable) (s : Session) : Session :=
  mkSession (pager s) (table_pagers s) (schema s) (schema_snapshot s) (mvcc_undo_log s) (current_txn_id s)
    (txn_registry s) (mvcc_snapshot s) x (row_lock_manager s) (isolation_level s) (binlog s) (index_eq_cache
    s) (index_rowid_cache s) (index_ordered_cache s).
Definition set_row_lock_manager (x : RowLockManager) (s : Session) : Session :=
  mkSession (pager s) (table_pagers s) (schema s) (schema_snapshot s) (mvcc_undo_log s) (current_txn_id s)
    (txn_registry s) (mvcc_snapshot s) (lock_table s) x (isolation_level s) (binlog s) (index_eq_cache s)
    (index_rowid_cache s) (index_ordered_cache s).
Definition set_binlog (x : Host) (s : Session) : Session :=
  mkSession (pager s) (table_pagers s) (schema s) (schema_snapshot s) (mvcc_undo_log s) (current_txn_id s)
    (txn_registry s) (mvcc_snapshot s) (lock_table s) (row_lock_manager s) (isolation_level s) x
    (index_eq_cache s) (index_rowid_cache s) (index_ordered_cache s).
(** [VM::clear_index_caches] *)
Definition clear_index_caches (s : Session) : Session :=
  mkSession (pager s) (table_pagers s) (schema s) (schema_snapshot s) (mvcc_undo_log s) (current_txn_id s)
    (txn_registry s) (mvcc_snapshot s) (lock_table s) (row_lock_manager s) (isolation_level s) (binlog s) ∅ ∅
    ∅.

Definition modify (f : Session → Session) : ST Session unit := λ s, (Ok tt, f s).
(** [self.pager.op()?] *)
Definition on_pager {A} (m : ST Pager A) : ST Session A := λ s,
  let '(r, p) := m (pager s) in (r, set_pager p s).
Definition returns {A} (r : res A) : bool := match r with Panic | Hang => false | _ => true end.
(** [for tbl_pager in self.table_pagers.values_mut() { let _ = ... }]: errors
    are dropped. *)
Definition on_table_pagers (m : ST Pager unit) : ST Session unit := λ s,
  let rs := m <$> table_pagers s in
  (if decide (map_Forall (λ _ r, returns r.1 = true) rs) then Ok tt else Panic, set_table_pagers (snd <$> rs) s).
(** [let _ = self.binlog.append(..)] and [let _ = self.binlog.fsync()] *)
Definition binlog_append (r : LogRecord) : ST Session unit := modify (λ s, set_binlog (Binlog.append r (binlog s)).2 s).
Definition binlog_fsync : ST Session unit := modify (λ s, set_binlog (Binlog.fsync (binlog s)) s).

(** The start of [VM::execute_statement]. *)
Definition refresh_snapshot : ST Session unit := modify (λ s,
  let id := current_txn_id s in
  let s := if negb (id =? 0) && bool_decide (isolation_level s = ReadCommitted)
           then set_mvcc_snapshot (Some (Mvcc.snapshot id (txn_registry s))) s else s in
  if negb (id =? 0) && bool_decide (isolation_level s = ReadUncommitted)
  then set_mvcc_snapshot (Some (snapshot_read_uncommitted id (txn_registry s))) s else s).

(** [Statement::Begin] *)
Definition exec_begin : ST Session string :=
  s ← st_get;
  let actual_txid := default 0 (active_txid (pager s)) in
  _ ← on_pager begin_transaction;
  _ ← on_table_pagers begin_transaction;
  s ← st_get;
  let new_txid := default actual_txid (active_txid (pager s)) in
  _ ← modify (λ s, let '(id, reg) := reg_begin (txn_registry s) in set_current_txn_id id (set_txn_registry reg s));
  _ ← modify (λ s, set_mvcc_snapshot
        (Some (snapshot_for_isolation (current_txn_id s) (isolation_level s) (txn_registry s))) s);
  _ ← modify (λ s, set_mvcc_undo_log (clear (mvcc_undo_log s)) s);
  _ ← binlog_append (Begin new_txid);
  _ ← modify (λ s, set_schema_snapshot (Some (schema s)) s);
  _ ← modify clear_index_caches;
  mret "Transaction started"%string.

Section Statements.
(** The size of a [Value] in memory, for the statistics of the undo log. *)
Variable value_size : Z.

(** [Statement::Commit] *)
Definition exec_commit : ST Session string :=
  s ← st_get;
  let txid := default 0 (active_txid (pager s)) in
  _ ← binlog_append (Prepare txid);
  _ ← binlog_fsync;
  _ ← on_pager commit_transaction;
  _ ← on_table_pagers (λ p, if in_transaction p then commit_transaction p else (Ok tt, p));
  _ ← binlog_append (Commit txid);
  _ ← binlog_fsync;
  _ ← modify (λ s, set_mvcc_undo_log (clear (mvcc_undo_log s)) s);
  _ ← modify (λ s, set_txn_registry (reg_commit (current_txn_id s) (txn_registry s)) s);
  _ ← modify (set_mvcc_snapshot None);
  _ ← modify (λ s, set_mvcc_undo_log (purge value_size (min_active_txn_id (txn_registry s)) (mvcc_undo_log s)) s);
  _ ← modify (λ s, set_lock_table (LockManager.release_all (current_txn_id s) (lock_table s)) s);
  s ← st_get;
  _ ← match mvcc_snapshot s with
      | Some snap => st_lift (validate_read_set (current_txn_id s) (max_committed_txn_id snap) (row_lock_manager s))
      | None => mret tt
      end;
  _ ← modify (λ s, set_row_lock_manager (commit_version (current_txn_id s) (row_lock_manager s)) s);
  _ ← modify (λ s, set_row_lock_manager (RowLocks.release_all (current_txn_id s) (row_lock_manager s)) s);
  _ ← modify (set_current_txn_id 0);
  _ ← modify (set_schema_snapshot None);
  _ ← modify clear_index_caches;
  mret "Committed"%string.

(** [if let Some(snapshot) = self.schema_snapshot.take() { self.schema = snapshot }] *)
Definition restore_schema (s : Session) : Session :=
  match schema_snapshot s with
  | Some snap => set_schema snap (set_schema_snapshot None s)
  | None => s
  end.

(** [Statement::Rollback] *)
Definition exec_rollback : ST Session string :=
  s ← st_get;
  let txid := default 0 (active_txid (pager s)) in
  _ ← binlog_append (Rollback txid);
  _ ← modify (λ s, set_mvcc_undo_log (clear (mvcc_undo_log s)) s);
  _ ← modify (λ s, set_txn_registry (reg_abort (current_txn_id s) (txn_registry s)) s);
  _ ← modify (set_mvcc_snapshot None);
  _ ← on_pager rollback_transaction;
  _ ← on_table_pagers (λ p, if in_transaction p then rollback_transaction p else (Ok tt, p));
  _ ← modify restore_schema;
  _ ← modify (λ s, set_lock_table (LockManager.release_all (current_txn_id s) (lock_table s)) s);
  _ ← modify (λ s, set_row_lock_manager (RowLocks.release_all (current_txn_id s) (row_lock_manager s)) s);
  _ ← modify (set_current_txn_id 0);
  _ ← modify clear_index_caches;
  mret "Rolled back"%string.

(** [Statement::Savepoint], [Statement::ReleaseSavepoint] and
    [Statement::RollbackToSavepoint] *)
Definition exec_savepoint (name : string) : ST Session string :=
  _ ← on_pager (Pager.savepoint name);
  _ ← modify (λ s, set_mvcc_undo_log (Mvcc.savepoint value_size name (current_txn_id s) (mvcc_undo_log s)) s);
  mret ("SAVEPOINT " +:+ name).
Definition exec_release_savepoint (name : string) : ST Session string :=
  _ ← on_pager (release_savepoint name);
  mret ("RELEASE SAVEPOINT " +:+ name).
Definition exec_rollback_to_savepoint (name : string) : ST Session string :=
  _ ← on_pager (Pager.rollback_to_savepoint name);
  _ ← modify restore_schema;
  _ ← modify clear_index_caches;
  mret ("ROLLBACK TO SAVEPOINT " +:+ name).

(** [VM::auto_flush] *)
Definition auto_flush (nanos : Z) : ST Session unit :=
  s ← st_get;
  if in_transaction (pager s) then mret tt
  else
    _ ← on_pager (Pager.flush nanos);
    s ← st_get;
    st_iter (λ name, λ s,
      match table_pagers s !! name with
      | Some p => let '(r, p) := Pager.flush nanos p in (r, set_table_pagers (<[name := p]> (table_pagers s)) s)
      | None => (Ok tt, s)
      end) (map fst (map_to_list (table_pagers s))).

(** The transaction statements of [VM::execute_statement]. *)
Inductive TxnStatement : Type :=
  | SBegin | SCommit | SRollback
  | SSavepoint (name : string) | SRelease (name : string) | SRollbackTo (name : string).
Definition execute_txn (stmt : TxnStatement) : ST Session string :=
  _ ← refresh_snapshot;
  match stmt with
  | SBegin => exec_begin
  | SCommit => exec_commit
  | SRollback => exec_rollback
  | SSavepoint name => exec_savepoint name
  | SRelease name => exec_release_savepoint name
  | SRollbackTo name => exec_rollback_to_savepoint name
  end.

(** ** What the statements do, in one equation each *)

Definition commit_tables (s : Session) : gmap string (res unit * Pager) :=
  (λ p, if in_transaction p then commit_transaction p else (Ok tt, p)) <$> table_pagers s.
Definition rollback_tables (s : Session) : gmap string (res unit * Pager) :=
  (λ p, if in_transaction p then rollback_transaction p else (Ok tt, p)) <$> table_pagers s.
Definition all_return (rs : gmap string (res unit * Pager)) : Prop := map_Forall (λ _ r, returns r.1 = true) rs.

(** After the first phase: the binary log has the prepare record, synced. *)
Definition prepared_log (s : Session) : Host :=
  Binlog.fsync (Binlog.append (Prepare (default 0 (active_txid (pager s)))) (binlog s)).2.
Definition committed_session (s : Session) (p : Pager) : Session :=
  let id := current_txn_id s in
  let reg := reg_commit id (txn_registry s) in
  mkSession p (snd <$> commit_tables s) (schema s) None
    (purge value_size (min_active_txn_id reg) (clear (mvcc_undo_log s))) 0 reg None
    (LockManager.release_all id (lock_table s))
    (RowLocks.release_all id (commit_version id (row_lock_manager s))) (isolation_level s)
    (Binlog.fsync (Binlog.append (Commit (default 0 (active_txid (pager s)))) (prepared_log s)).2) ∅ ∅ ∅.
Lemma exec_commit_Ok s p :
  commit_transaction (pager s) = (Ok tt, p) → all_return (commit_tables s) →
  exec_commit s = (Ok "Committed"%string, committed_session s p).
Proof.
  intros Hp Ht. destruct s. unfold exec_commit, on_pager, on_table_pagers, binlog_append, binlog_fsync, modify.
  unfold mbind, ST_bind, st_get. cbn [pager set_binlog]. cbn in Hp. rewrite Hp. cbn.
  unfold all_return, commit_tables in Ht. cbn in Ht. rewrite decide_True by done. reflexivity.
Qed.
Lemma exec_commit_fails s r p :
  commit_transaction (pager s) = (r, p) → r ≠ Ok tt →
  exec_commit s = (match r with Err e => Err e | Hang => Hang | _ => Panic end, set_pager p (set_binlog (prepared_log s) s)).
Proof.
  intros Hp Hr. destruct s. unfold exec_commit, on_pager, binlog_append, binlog_fsync, modify.
  unfold mbind, ST_bind, st_get. cbn [pager set_binlog]. cbn in Hp. rewrite Hp. by destruct r as [[]| | |].
Qed.
Lemma exec_commit_tables s p :
  commit_transaction (pager s) = (Ok tt, p) → ¬ all_return (commit_tables s) → (exec_commit s).1 = Panic.
Proof.
  intros Hp Ht. destruct s. unfold exec_commit, on_pager, on_table_pagers, binlog_append, binlog_fsync, modify.
  unfold mbind, ST_bind, st_get. cbn [pager set_binlog]. cbn in Hp. rewrite Hp. cbn.
  unfold all_return, commit_tables in Ht. cbn in Ht. by rewrite decide_False by done.
Qed.

Definition rolled_back_session (s : Session) (p : Pager) : Session :=
  let id := current_txn_id s in
  mkSession p (snd <$> rollback_tables s) (default (schema s) (schema_snapshot s)) None
    (clear (mvcc_undo_log s)) 0 (reg_abort id (txn_registry s)) None
    (LockManager.release_all id (lock_table s)) (RowLocks.release_all id (row_lock_manager s)) (isolation_level s)
    (Binlog.append (Rollback (default 0 (active_txid (pager s)))) (binlog s)).2 ∅ ∅ ∅.
Lemma exec_rollback_Ok s p :
  rollback_transaction (pager s) = (Ok tt, p) → all_return (rollback_tables s) →
  exec_rollback s = (Ok "Rolled back"%string, rolled_back_session s p).
Proof.
  intros Hp Ht. destruct s as [pg tp sc sn ul ct tr ms lt rl il bl c1 c2 c3].
  unfold exec_rollback, on_pager, on_table_pagers, binlog_append, modify.
  unfold mbind, ST_bind, st_get. cbn. cbn in Hp. rewrite Hp. cbn.
  unfold all_return, rollback_tables in Ht. cbn in Ht. rewrite decide_True by done. by destruct sn.
Qed.

Definition begun_session (s : Session) (p : Pager) : Session :=
  let '(id, reg) := reg_begin (txn_registry s) in
  mkSession p (snd <$> (begin_transaction <$> table_pagers s)) (schema s) (Some (schema s))
    (clear (mvcc_undo_log s)) id reg (Some (snapshot_for_isolation id (isolation_level s) reg))
    (lock_table s) (row_lock_manager s) (isolation_level s)
    (Binlog.append (Begin (default (default 0 (active_txid (pager s))) (active_txid p))) (binlog s)).2 ∅ ∅ ∅.
Lemma begin_returns p : returns (begin_transaction p).1 = true.
Proof. unfold begin_transaction. by destruct (in_transaction p). Qed.
Lemma exec_begin_Ok s p :
  begin_transaction (pager s) = (Ok tt, p) → exec_begin s = (Ok "Transaction started"%string, begun_session s p).
Proof.
  intros Hp. destruct s. unfold exec_begin, on_pager, on_table_pagers, binlog_append, modify.
  unfold mbind, ST_bind, st_get. cbn. cbn in Hp. rewrite Hp. cbn.
  rewrite decide_True; [done|]. intros k r. rewrite lookup_fmap. intros (q & _ & ->)%fmap_Some. apply begin_returns.
Qed.

(** ** Recovery of the binary log after COMMIT *)

(** A log whose records are all durable is recovered whole. *)
Lemma recovered_all h rs f :
  implements h {| records := rs; durable := length rs |} → crashed (disk h) f →
  ∃ d, (recover (open_binlog (Some f))).1 = Ok d ∧ ∀ x, x ∈ d ↔ in_doubt rs x.
Proof.
  intros Hh Hf. destruct (crash_implements h _ f Hh Hf) as (s' & Hs & _).
  inversion Hs as [| | | | |s0 n d Hn Hd E1 E2]; subst. exists d. split; [done|]. intros x. rewrite Hd. cbn in *.
  by rewrite take_ge by lia.
Qed.
Lemma fits_mark r t : is_u64 t → r = Prepare t ∨ r = Commit t ∨ r = Rollback t ∨ r = Begin t → fits r.
Proof.
  intros Ht Hr. split; [by destruct Hr as [->|[->|[->| ->]]]|]. rewrite serialize_record_fields. cbn [app].
  pose proof (varint_u64_length t Ht). unfold U32_MAX.
  destruct Hr as [->|[->|[->| ->]]]; cbn [record_fields app]; rewrite zlen_cons; lia.
Qed.
Lemma append_sync_implements h rs k r :
  implements h {| records := rs; durable := k |} → fits r →
  implements (Binlog.fsync (Binlog.append r h).2) {| records := rs ++ [r]; durable := length (rs ++ [r]) |}.
Proof.
  intros Hh Hr. destruct (append_implements h _ r Hh Hr) as [_ Hi]. exact (fsync_implements _ _ Hi).
Qed.
Lemma prepared_implements s rs k t :
  implements (binlog s) {| records := rs; durable := k |} → active_txid (pager s) = Some t → is_u64 t →
  implements (prepared_log s) {| records := rs ++ [Prepare t]; durable := length (rs ++ [Prepare t]) |}.
Proof.
  intros Hh Ht Hu. unfold prepared_log. rewrite Ht. cbn [default from_option id]. eapply append_sync_implements; [exact Hh|].
  eapply fits_mark; [exact Hu|by left].
Qed.
(** The second phase, by how the commit of the pager ended. *)
Lemma commit_phases s rs t r s' :
  implements (prepared_log s) {| records := rs ++ [Prepare t]; durable := length (rs ++ [Prepare t]) |} →
  active_txid (pager s) = Some t → is_u64 t → exec_commit s = (r, s') → returns r = true →
  let rs' := rs ++ [Prepare t] ++ (if is_Ok r then [Commit t] else []) in
  (∀ e, r = Err e ↔ (commit_transaction (pager s)).1 = Err e) ∧ pager s' = (commit_transaction (pager s)).2 ∧
  table_pagers s' = (if is_Ok r then (λ p, if in_transaction p then (commit_transaction p).2 else p) <$> table_pagers s else table_pagers s) ∧
  implements (binlog s') {| records := rs'; durable := length rs' |} ∧ is_Err r = negb (is_Ok r).
Proof.
  intros Hp Ht Hu E Hret. destruct (commit_transaction (pager s)) as [rp p] eqn:Ep.
  destruct (decide (rp = Ok tt)) as [->|Hne].
  - destruct (decide (all_return (commit_tables s))) as [Ha|Ha].
    + rewrite (exec_commit_Ok s p Ep Ha) in E. injection E as <- <-.
      unfold committed_session. cbn [binlog is_Ok pager table_pagers fst snd is_Err negb]. rewrite Ht. cbn [default from_option id].
      split_and!; [done..| | |done].
      * unfold commit_tables. rewrite <- map_fmap_compose. apply map_fmap_ext. intros i q _. cbn. by destruct (in_transaction q).
      * rewrite app_assoc. eapply append_sync_implements; [exact Hp|]. eapply fits_mark; [exact Hu|by right; left].
    + pose proof (exec_commit_tables s p Ep Ha) as Hpan. rewrite E in Hpan. cbn in Hpan. by subst r.
  - rewrite (exec_commit_fails s rp p Ep Hne) in E. injection E as <- <-.
    destruct rp as [[]|e| |]; try done. cbn [fst snd]. split_and!; try done; [intros e'; split; congruence|by destruct s..].
Qed.
End Statements.
End Session.
Arguments Session : clear implicits.


(** ** The end of a transaction *)

Section Ends.
Context `{PageSize, Lz4, Crc32} {Schema : Type} (value_size : Z).
Implicit Types s : Session Schema.

Lemma exec_commit_inv s msg s' :
  exec_commit value_size s = (Ok msg, s') →
  ∃ p, commit_transaction (pager s) = (Ok tt, p) ∧ all_return (commit_tables s) ∧ s' = committed_session value_size s p.
Proof.
  intros E. destruct (commit_transaction (pager s)) as [r p] eqn:Ep. destruct (decide (r = Ok tt)) as [->|Hne].
  - destruct (decide (all_return (commit_tables s))) as [Ha|Ha].
    + rewrite (exec_commit_Ok value_size s p Ep Ha) in E. injection E as _ <-. by exists p.
    + pose proof (exec_commit_tables value_size s p Ep Ha) as Hpan. by rewrite E in Hpan.
  - rewrite (exec_commit_fails value_size s r p Ep Hne) in E. by destruct r as [[]| | |].
Qed.
Lemma exec_rollback_inv s msg s' :
  exec_rollback s = (Ok msg, s') → ∃ p, s' = rolled_back_session s p.
Proof.
  intros E. destruct (rollback_transaction (pager s)) as [r p] eqn:Ep. destruct (decide (all_return (rollback_tables s))) as [Ha|Ha].
  - destruct (decide (r = Ok tt)) as [->|Hne].
    + rewrite (exec_rollback_Ok s p Ep Ha) in E. injection E as _ <-. by exists p.
    + exfalso. revert E. destruct s. unfold exec_rollback, on_pager, binlog_append, modify.
      unfold mbind, ST_bind, st_get. cbn. cbn in Ep. rewrite Ep. by destruct r as [[]| | |].
  - exfalso. revert E. destruct s. unfold exec_rollback, on_pager, on_table_pagers, binlog_append, modify.
    unfold mbind, ST_bind, st_get. cbn. cbn in Ep. rewrite Ep. unfold all_return, rollback_tables in Ha. cbn in Ha.
    destruct r as [[]| | |]; cbn; try done. by rewrite decide_False by done.
Qed.
(** Refreshing the snapshot changes nothing else. *)
Lemma refresh_only s : ∃ snap, refresh_snapshot s = (Ok tt, set_mvcc_snapshot snap s).
Proof.
  unfold refresh_snapshot, modify. destruct s as [pg tp sc sn ul ct tr ms lt rl il bl c1 c2 c3]. cbn.
  destruct (negb (ct =? 0)); [|by exists ms]. cbn.
  destruct il; cbn; try (by exists ms); by eexists.
Qed.

(** What ending the transaction [t] leaves of a session. *)
Record ended (t : Z) (s s' : Session Schema) : Prop := {
  end_id : current_txn_id s' = 0;
  end_snapshot : mvcc_snapshot s' = None ∧ schema_snapshot s' = None;
  end_undo : entries (mvcc_undo_log s') = [];
  end_active : ∀ x, x ∈ active_txns (txn_registry s') ↔ x ∈ active_txns (txn_registry s) ∧ x ≠ t;
  end_table_locks : ∀ table e,
    e ∈ entry_or_default (LockManager.locks (lock_table s')) table ↔
    e ∈ entry_or_default (LockManager.locks (lock_table s)) table ∧ holder_txn e ≠ t;
  end_row_locks : locks_agree (row_lock_manager s) → ∀ key x,
    locks (row_lock_manager s') !! key = Some x ↔ locks (row_lock_manager s) !! key = Some x ∧ x ≠ t;
  end_caches : index_eq_cache s' = ∅ ∧ index_rowid_cache s' = ∅ ∧ index_ordered_cache s' = ∅;
}.

Lemma released_entries t lt table e :
  e ∈ entry_or_default (LockManager.locks (LockManager.release_all t lt)) table ↔
  e ∈ entry_or_default (LockManager.locks lt) table ∧ holder_txn e ≠ t.
Proof. rewrite LockManager.release_all_entries, list_elem_of_filter. tauto. Qed.
Lemma released_rows t m key x :
  locks_agree m → locks (RowLocks.release_all t m) !! key = Some x ↔ locks m !! key = Some x ∧ x ≠ t.
Proof.
  intros Hm. rewrite (RowLocks.release_all_locks t m key Hm). destruct (locks m !! key) as [y|]; [|naive_solver].
  destruct (Z.eqb_spec y t); naive_solver.
Qed.
Lemma commit_version_locks t m : locks (commit_version t m) = locks m ∧ txn_locks (commit_version t m) = txn_locks m.
Proof. unfold commit_version. by destruct (txn_locks m !! t). Qed.
Lemma commit_version_agree t m : locks_agree m → locks_agree (commit_version t m).
Proof. unfold locks_agree, locked_by. by destruct (commit_version_locks t m) as [-> ->]. Qed.
End Ends.

Ltac session_fields :=
  cbn [pager table_pagers schema schema_snapshot mvcc_undo_log current_txn_id txn_registry mvcc_snapshot lock_table
       row_lock_manager isolation_level binlog index_eq_cache index_rowid_cache index_ordered_cache
       set_mvcc_snapshot active_txns max_committed reg_commit reg_abort].

(** A COMMIT or a ROLLBACK that succeeds ends the transaction: there is no
    snapshot and no undo entry any more, the transaction is no longer active
    in the registry, its table locks and its row locks are gone and those of
    the others are untouched, and the index caches are empty; a commit is
    recorded in the registry and as the version of every row it had locked. *)
Theorem transaction_end `{PageSize, Lz4, Crc32} {Schema} (value_size : Z) (s s' : Session Schema) (stmt : TxnStatement) (msg : string)
    (Hstmt : stmt = SCommit ∨ stmt = SRollback) (Hrun : execute_txn value_size stmt s = (Ok msg, s')) :
  let t := current_txn_id s in
  ended t s s' ∧
  (stmt = SCommit → t ≤ max_committed (txn_registry s') ∧
     (locks_agree (row_lock_manager s) → ∀ key, locks (row_lock_manager s) !! key = Some t →
        committed_versions (row_lock_manager s') !! key = Some t)).
Proof.
  intros t. unfold execute_txn in Hrun. destruct (refresh_only s) as [snap Es].
  rewrite (ST_bind_Ok _ _ _ _ _ Es) in Hrun. clear Es.
  destruct Hstmt as [-> | ->].
  - apply exec_commit_inv in Hrun as (p & _ & _ & ->). split.
    + constructor; unfold committed_session; session_fields; try done.
      * intros x. rewrite list_elem_of_filter. tauto.
      * intros. apply released_entries.
      * intros Ha key x. rewrite released_rows by by apply commit_version_agree. by destruct (commit_version_locks (current_txn_id s) (row_lock_manager s)) as [-> _].
    + intros _. unfold committed_session. session_fields. split; [destruct (Z.ltb_spec (max_committed (txn_registry s)) (current_txn_id s)); lia|].
      intros [Ha _] key Hk. apply Ha in Hk. unfold locked_by in Hk. fold t in Hk |- *.
      unfold RowLocks.release_all, commit_version. destruct (txn_locks (row_lock_manager s) !! t) as [ks|] eqn:Ek; [|by apply elem_of_nil in Hk].
      cbn. rewrite Ek. cbn. rewrite foldl_insert_lookup. by rewrite bool_decide_eq_true_2.
  - apply exec_rollback_inv in Hrun as (p & ->). split; [|done].
    constructor; unfold rolled_back_session; session_fields; try done.
    + intros x. rewrite list_elem_of_filter. tauto.
    + intros. apply released_entries.
    + intros Ha key x. by rewrite released_rows.
Qed.

(** ** Rolling back *)

Section RollBack.
Context `{PageSize, Lz4, Crc32} {Schema : Type}.

(** [q] has the pages of [p], and is outside a transaction. *)
Definition same_pages (p q : Pager) : Prop :=
  header q = header p ∧ sb_of q = sb_of p ∧ active_slot (cow_state q) = active_slot (cow_state p) ∧ pdata q = pdata p ∧ idle q.
(** Inside a transaction that began in the state [p0]. *)
Definition undoable (p0 p : Pager) : Prop :=
  good p ∧ restored p = Some (header p0, sb_of p0, active_slot (cow_state p0), pdata p0).

Lemma undoable_begin p : idle p → ∃ p1, begin_transaction p = (Ok tt, p1) ∧ undoable p p1.
Proof. intros Hi. destruct (begin_good p Hi) as (p1 & Hb & Hg & Hr). by exists p1. Qed.
Lemma undoable_keeps {A} p0 p (m : ST Pager A) : undoable p0 p → keeps m → undoable p0 (m p).2.
Proof. intros [Hg Hr] Hm. destruct (Hm p Hg) as [Hg' Hr']. split; [done|congruence]. Qed.
Lemma undoable_rollback p0 p :
  idle p0 → undoable p0 p → in_transaction p = true ∧ ∃ q, rollback_transaction p = (Ok tt, q) ∧ same_pages p0 q.
Proof.
  intros [I1 I2 I3 I4 I5 I6 I7 I8] [Hg Hre]. split.
  { destruct Hg as (_ & _ & _ & _ & _ & _ & tx & Htx & _). unfold in_transaction. by rewrite Htx. }
  destruct (rollback_good _ _ _ _ _ Hg Hre) as (q & Hq & Qh & Qs & Qsl & Qd & Qt & Qn & Qsp & Qr & Qf & _);
    [done|unfold pdata; by rewrite length_map, (res_pages p0 I1)|].
  exists q. split; [done|]. split_and!; try done. split; rewrite ?Qh, ?Qs, ?Qd; done.
Qed.

(** What statements inside a transaction do: they work on the pagers, and
    change anything else but the copy of the schema. *)
Inductive session_op : Type :=
  | OnPager (m : ST Pager unit)
  | OnTable (name : string) (m : ST Pager unit)
  | OnRest (f : Session Schema → Session Schema).
Definition session_op_ok (o : session_op) : Prop :=
  match o with
  | OnPager m | OnTable _ m => keeps m
  | OnRest f => ∀ s, pager (f s) = pager s ∧ table_pagers (f s) = table_pagers s ∧ schema_snapshot (f s) = schema_snapshot s
  end.
Definition run_session_op (s : Session Schema) (o : session_op) : Session Schema :=
  match o with
  | OnPager m => set_pager (m (pager s)).2 s
  | OnTable name m => set_table_pagers (alter (λ p, (m p).2) name (table_pagers s)) s
  | OnRest f => f s
  end.

(** In a transaction that began in the session [s0]. *)
Record in_txn (s0 s : Session Schema) : Prop := {
  it_pager : undoable (pager s0) (pager s);
  it_tables : ∀ name, match table_pagers s0 !! name, table_pagers s !! name with
                      | Some p0, Some p => undoable p0 p | None, None => True | _, _ => False end;
  it_schema : schema_snapshot s = Some (schema s0);
}.
Lemma in_txn_begin s0 :
  idle (pager s0) → map_Forall (λ _ p, idle p) (table_pagers s0) →
  ∃ s1, exec_begin s0 = (Ok "Transaction started"%string, s1) ∧ in_txn s0 s1.
Proof.
  intros Hp Ht. destruct (undoable_begin _ Hp) as (p1 & Hb & Hu). exists (begun_session s0 p1).
  split; [by apply exec_begin_Ok|]. constructor; unfold begun_session; cbn; [done| |done].
  intros name. rewrite !lookup_fmap. destruct (table_pagers s0 !! name) as [p0|] eqn:E; [|done].
  destruct (undoable_begin p0 (Ht name p0 E)) as (q & Hq & Hu'). cbn. by rewrite Hq.
Qed.
Lemma in_txn_op s0 s o : in_txn s0 s → session_op_ok o → in_txn s0 (run_session_op s o).
Proof.
  intros [Hp Ht Hs] Ho. destruct o as [m|name m|f]; cbn in Ho |- *.
  - constructor; [by apply undoable_keeps|done|done].
  - constructor; [done| |done]. intros k. specialize (Ht k). cbn. destruct (decide (k = name)) as [->|].
    + rewrite lookup_alter_eq. destruct (table_pagers s0 !! name), (table_pagers s !! name); cbn; try done. by apply undoable_keeps.
    + by rewrite lookup_alter_ne.
  - destruct (Ho s) as (E1 & E2 & E3). constructor; by rewrite ?E1, ?E2, ?E3.
Qed.
Lemma in_txn_ops s0 s ops : in_txn s0 s → Forall session_op_ok ops → in_txn s0 (foldl run_session_op s ops).
Proof. intros Hs Ho. revert s Hs. induction Ho as [|o ops Ho _ IH]; intros s Hs; [done|]. cbn. by apply IH, in_txn_op. Qed.
End RollBack.
Arguments session_op : clear implicits.

(** [C25] ROLLBACK takes the transaction back when the pagers of the catalogue and
    of the tables have neither file nor write-ahead log and no transaction is
    open: whatever reads, writes, allocations, frees, savepoints and flushes
    the statements of the transaction called on those pagers, and whatever they
    did to the schema and the rest of the session but the copy of the schema
    taken by BEGIN, BEGIN and ROLLBACK succeed, and after them the header, the
    superblock and the content of every page of each pager and the schema
    are as they were before BEGIN.  ROLLBACK TO a savepoint, which drops that
    copy, is not among the statements. *)
Theorem session_rollback_restores `{PageSize, Lz4, Crc32} {Schema} (s : Session Schema) (ops : list (session_op Schema))
    (Hp : idle (pager s)) (Ht : map_Forall (λ _ p, idle p) (table_pagers s)) (Ho : Forall session_op_ok ops) :
  ∃ s1 s2, exec_begin s = (Ok "Transaction started"%string, s1) ∧
    exec_rollback (foldl run_session_op s1 ops) = (Ok "Rolled back"%string, s2) ∧
    same_pages (pager s) (pager s2) ∧ schema s2 = schema s ∧
    ∀ name, match table_pagers s !! name, table_pagers s2 !! name with
            | Some p, Some q => same_pages p q | None, None => True | _, _ => False end.
Proof.
  destruct (in_txn_begin s Hp Ht) as (s1 & Eb & Hin). exists s1.
  pose proof (in_txn_ops _ _ _ Hin Ho) as Hops. generalize dependent (foldl run_session_op s1 ops).
  intros s' [Hu Hts Hs]. destruct (undoable_rollback _ _ Hp Hu) as (_ & q & Hq & Hsame).
  exists (rolled_back_session s' q). split; [done|].
  assert (∀ name, match table_pagers s !! name, rollback_tables s' !! name with
                  | Some p, Some (r, p') => r = Ok tt ∧ same_pages p p' | None, None => True | _, _ => False end) as Hrt.
  { intros name. specialize (Hts name). unfold rollback_tables. rewrite lookup_fmap.
    destruct (table_pagers s !! name) as [p0|] eqn:E0, (table_pagers s' !! name) as [p|] eqn:E1; cbn; try done.
    destruct (undoable_rollback p0 p (Ht name p0 E0) Hts) as (-> & p' & -> & ?). done. }
  split.
  { apply exec_rollback_Ok; [done|]. intros name [r p'] E. specialize (Hrt name). rewrite E in Hrt.
    destruct (table_pagers s !! name); [|done]. by destruct Hrt as [-> _]. }
  unfold rolled_back_session. session_fields. rewrite Hs. split; [done|]. split; [done|].
  intros name. specialize (Hrt name). rewrite lookup_fmap. destruct (table_pagers s !! name), (rollback_tables s' !! name) as [[r p']|]; cbn; try done.
  by destruct Hrt.
Qed.

(** ** Witnesses *)

(** A session on a new database in memory, with one table file and a log on
    disk; its schema is a list of names. *)
Definition demo_session (p : Pager) : Session (list string) :=
  mkSession p {["t" := p]} [] None UndoLog_new 0 Registry_new None LockTable_new RLM_new Serializable (open_binlog None) ∅ ∅ ∅.
Definition with_schema (l : list string) : session_op (list string) := OnRest (set_schema l).


Lemma transaction_end_witness :
  let _ := page_size_512 in let _ := no_lz4 in
  ∃ p s1 s2, open_memory demo_memory_uuid = Ok p ∧ exec_begin (demo_session p) = (Ok "Transaction started"%string, s1) ∧
    current_txn_id s1 = 1 ∧ ended 1 s1 s2 ∧
    (SCommit = SCommit → 1 ≤ max_committed (txn_registry s2) ∧
       (locks_agree (row_lock_manager s1) → ∀ key, locks (row_lock_manager s1) !! key = Some 1 →
          committed_versions (row_lock_manager s2) !! key = Some 1)).
Proof.
  intros Hps Hlz.
  eassert (open_memory demo_memory_uuid = Ok _) as H0 by (vm_compute; reflexivity).
  match type of H0 with _ = Ok ?x => set (p0 := x) in H0 end.
  eassert (exec_begin (demo_session p0) = (Ok "Transaction started"%string, _)) as H1 by (vm_compute; reflexivity).
  match type of H1 with _ = (_, ?x) => set (s1 := x) in H1 end.
  eassert (execute_txn 32 SCommit s1 = (Ok "Committed"%string, _)) as H2 by (vm_compute; reflexivity).
  match type of H2 with _ = (_, ?x) => set (s2 := x) in H2 end.
  exists p0, s1, s2. split; [exact H0|]. split; [exact H1|]. split; [reflexivity|].
  apply (transaction_end 32 s1 s2 SCommit "Committed"); [by left|exact H2].
Defined.

Lemma session_rollback_restores_witness :
  let _ := page_size_512 in let _ := no_lz4 in
  ∃ p s1 s2, open_memory demo_memory_uuid = Ok p ∧ exec_begin (demo_session p) = (Ok "Transaction started"%string, s1) ∧
    exec_rollback (foldl run_session_op s1
      [OnPager (_ ← allocate_page; mret tt); with_schema ["a"]; OnTable "t" (get_page_mut 3 (put_next 9))])
      = (Ok "Rolled back"%string, s2) ∧
    same_pages p (pager s2) ∧ schema s2 = [] ∧
    ∀ name, match ({["t" := p]} : gmap string Pager) !! name, table_pagers s2 !! name with
            | Some p, Some q => same_pages p q | None, None => True | _, _ => False end.
Proof.
  intros Hps Hlz. destruct (open_memory_ok demo_memory_uuid eq_refl) as (p & Hp & _ & Hi & _).
  { by apply Forall_replicate. }
  destruct (session_rollback_restores (demo_session p)
    [OnPager (_ ← allocate_page; mret tt); with_schema ["a"]; OnTable "t" (get_page_mut 3 (put_next 9))])
    as (s1 & s2 & Hs).
  - exact Hi.
  - by apply map_Forall_singleton.
  - repeat apply Forall_cons_2; [apply keeps_bind; [apply keeps_allocate_page|intros; apply keeps_mret]|done| |done].
    apply keeps_get_page_mut; [lia|]. intros d. apply put_next_bytes.
  - exists p, s1, s2. split; [exact Hp|exact Hs].
Defined.

(** ** Where the code does something else *)

(** COMMIT validates the read set after it has dropped the snapshot that the
    validation needs, so it never does: a serializable transaction whose
    reads are stale commits. *)
Definition stale_session (p : Pager) : Session (list string) :=
  mkSession p ∅ [] None UndoLog_new 2 (mkRegistry [2] 6 5) (Some (mkSnapshot 2 [2] 1)) LockTable_new
    (mkRLM ∅ ∅ {[2 := [("t"%string, 1)]]} {[("t"%string, 1) := 5]}) Serializable (Binlog.open_memory {| content := []; synced := 0 |}) ∅ ∅ ∅.
Lemma commit_skips_validation p (s := stale_session p) :
  let _ := page_size_512 in let _ := no_lz4 in
  open_memory demo_memory_uuid = Ok p →
  is_Err (validate_read_set 2 1 (row_lock_manager s)) = true ∧ (exec_commit 32 s).1 = Ok "Committed"%string.
Proof. intros Hps Hlz Hp. vm_compute in Hp. injection Hp as <-. by vm_compute. Qed.

(** COMMIT reports success although the pager of a table has failed to commit
    and is still in its transaction. *)
Lemma commit_hides_table_failure p :
  let _ := page_size_512 in let _ := no_lz4 in
  open_memory demo_memory_uuid = Ok p →
  let s := (exec_begin (demo_session p)).2 in
  let s := run_session_op s (OnTable "t" (λ q, (Ok tt, set_failpoint (Some AfterDataPagesWrite) q))) in
  let '(r, s') := exec_commit 32 s in
  r = Ok "Committed"%string ∧ in_transaction (pager s') = false ∧ in_transaction <$> (table_pagers s' !! "t") = Some true.
Proof. intros Hps Hlz Hp. vm_compute in Hp. injection Hp as <-. by vm_compute. Qed.

(** ROLLBACK TO a savepoint puts back the schema of BEGIN, not that of the
    savepoint, and a later ROLLBACK then has no schema to put back. *)
Lemma savepoint_loses_schema p :
  let _ := page_size_512 in let _ := no_lz4 in
  open_memory demo_memory_uuid = Ok p →
  let s := run_session_op (exec_begin (demo_session p)).2 (with_schema ["a"]) in
  let s := run_session_op (exec_savepoint 32 "sp" s).2 (with_schema ["a"; "b"]) in
  let s := (exec_rollback_to_savepoint "sp" s).2 in
  schema s = [] ∧ schema (exec_rollback (run_session_op s (with_schema ["c"]))).2 = ["c"].
Proof. intros Hps Hlz Hp. vm_compute in Hp. injection Hp as <-. by vm_compute. Qed.
(** A savepoint outside a transaction begins one of the catalogue's pager
    only: ROLLBACK then keeps the schema. *)
Lemma savepoint_without_begin p :
  let _ := page_size_512 in let _ := no_lz4 in
  open_memory demo_memory_uuid = Ok p →
  let s := run_session_op (exec_savepoint 32 "sp" (demo_session p)).2 (with_schema ["a"]) in
  in_transaction (pager s) = true ∧ in_transaction <$> (table_pagers s !! "t") = Some false ∧ schema (exec_rollback s).2 = ["a"].
Proof. intros Hps Hlz Hp. vm_compute in Hp. injection Hp as <-. by vm_compute. Qed.
(** The savepoint statements leave the pagers of the tables alone. *)
Lemma savepoints_skip_tables `{PageSize, Lz4} {Schema} (value_size : Z) name (s : Session Schema) :
  table_pagers (exec_savepoint value_size name s).2 = table_pagers s ∧
  table_pagers (exec_rollback_to_savepoint name s).2 = table_pagers s.
Proof.
  destruct s as [pg tp sc sn ul ct tr ms lt rl il bl c1 c2 c3].
  unfold exec_savepoint, exec_rollback_to_savepoint, on_pager, modify. unfold mbind, ST_bind. cbn.
  destruct (Pager.savepoint name pg) as [[a|e| |] q], (Pager.rollback_to_savepoint name pg) as [[a'|e'| |] q']; cbn; try done; by destruct sn.
Qed.
