(* ===== verification/RowOps.v ===== *)
(** Operations on rows of a result (src/src/vm/exec_select.rs): the keys that
    identify a value or a row, DISTINCT, the set operations, the comparison of
    ORDER BY with its NULL placement, sorting with the top-N shortcut, OFFSET
    and LIMIT.

    The slice sort is stable, so on a total preorder its result is unique and
    is written as an insertion sort; [select_nth_unstable_by] promises less and
    is the interface [SelectNth].  On an order that is not total (doubles that
    are NaN, integers beside doubles) the standard library promises nothing,
    and no theorem does either. *)
From S2P Require Import Prelude Varint Values Text Expr.
From Stdlib Require Import Floats.SpecFloat.

(** ** Keys *)

(** [typed_key_into] *)
Definition typed_key (v : Value) : bytes :=
  match v with
  | VNull => [78]
  | VInteger i => 73 :: show_i64 i
  | VText t => 84 :: t
  | VReal r => 82 :: show_f64 (f64_of_bits r)
  | VBlob b => 66 :: hex_encode b
  end.
(** The key of DISTINCT and of GROUP BY: the keys of the values, each ended by
    a NUL. *)
Definition tuple_key (vs : list Value) : bytes := mjoin (map (λ v, typed_key v ++ [0]) vs).
(** [row_key], of the set operations. *)
Definition row_key (row : Row) : bytes :=
  mjoin (map (λ v, let bytes := serialize v in le_bytes 4 (as_u32 (zlen bytes)) ++ bytes) row).

(** ** DISTINCT and set operations *)

(** Keep a row when its key is new: [seen.insert(key)]. *)
Fixpoint keep_new (key : Row → bytes) (ok : bytes → bool) (seen : gset bytes) (rows : list Row) : list Row :=
  match rows with
  | [] => []
  | row :: rows' =>
      let k := key row in
      if ok k && bool_decide (k ∉ seen) then row :: keep_new key ok ({[k]} ∪ seen) rows'
      else keep_new key ok seen rows'
  end.
Definition distinct (rows : list Row) : list Row := keep_new tuple_key (λ _, true) ∅ rows.

Inductive SetOpKind : Type :=
  | UnionAll | UnionDistinct | IntersectAll | IntersectDistinct | ExceptAll | ExceptDistinct.

(** [*counts.entry(row_key(row)).or_insert(0) += 1] *)
Definition count_rows_by_key (rows : list Row) : gmap bytes nat :=
  foldl (λ counts row, <[row_key row := S (default O (counts !! row_key row))]> counts) ∅ rows.
(** The filter of INTERSECT ALL and EXCEPT ALL: a row that finds a count above
    zero consumes one and answers [hit]. *)
Fixpoint consume (hit : bool) (counts : gmap bytes nat) (rows : list Row) : list Row :=
  match rows with
  | [] => []
  | row :: rows' =>
      match counts !! row_key row with
      | Some (S c) =>
          let rest := consume hit (<[row_key row := c]> counts) rows' in
          if hit then row :: rest else rest
      | _ => let rest := consume hit counts rows' in if hit then rest else row :: rest
      end
  end.
Definition key_set (rows : list Row) : gset bytes := list_to_set (map row_key rows).
(** The [match setop.kind] of [exec_set_op]. *)
Definition set_op (kind : SetOpKind) (left_rows right_rows : list Row) : list Row :=
  match kind with
  | UnionAll => left_rows ++ right_rows
  | UnionDistinct => keep_new row_key (λ _, true) ∅ (left_rows ++ right_rows)
  | IntersectAll => consume true (count_rows_by_key right_rows) left_rows
  | IntersectDistinct =>
      let right_keys := key_set right_rows in keep_new row_key (λ k, bool_decide (k ∈ right_keys)) ∅ left_rows
  | ExceptAll => consume false (count_rows_by_key right_rows) left_rows
  | ExceptDistinct =>
      let right_keys := key_set right_rows in keep_new row_key (λ k, negb (bool_decide (k ∈ right_keys))) ∅ left_rows
  end.

(** ** Sorting *)

Fixpoint insert_by {A} (c : A → A → comparison) (x : A) (l : list A) : list A :=
  match l with
  | [] => [x]
  | y :: l' => match c x y with Gt => y :: insert_by c x l' | _ => x :: l end
  end.
(** [slice::sort_by], which is stable. *)
Definition sort_by {A} (c : A → A → comparison) (l : list A) : list A := foldr (insert_by c) [] l.

(** [slice::select_nth_unstable_by(i, c)] *)
Class SelectNth := select_nth : ∀ {A}, (A → A → comparison) → nat → list A → list A.

(** [compare_value_pair] *)
Definition reverse_if (b : bool) (c : comparison) : comparison := if b then CompOpp c else c.
Definition compare_value_pair (a b : Value) (nulls_first : option bool) (ascending : bool) : comparison :=
  let nf := default (negb ascending) nulls_first in
  match is_null a, is_null b with
  | true, true => Eq
  | true, false => if nf then Lt else Gt
  | false, true => if nf then Gt else Lt
  | false, false =>
      match partial_cmp a b with
      | None | Some Eq => Eq
      | Some ord => reverse_if (negb ascending) ord
      end
  end.
(** The direction of an [OrderByItem]: [ascending], [nulls_first]. *)
Abbreviation Direction := (bool * option bool)%type.
(** The closures [cmp_fn] and [compare_keyed]. *)
Fixpoint compare_keys (dirs : list Direction) (ka kb : list Value) : comparison :=
  match dirs with
  | [] => Eq
  | (ascending, nulls_first) :: dirs' =>
      match compare_value_pair (default VNull (head ka)) (default VNull (head kb)) nulls_first ascending with
      | Eq => compare_keys dirs' (tail ka) (tail kb)
      | ord => ord
      end
  end.
(** The comparison of [exec_set_op], which reads the direction only. *)
Fixpoint compare_setop (dirs : list Direction) (ka kb : list Value) : comparison :=
  match dirs with
  | [] => Eq
  | (ascending, _) :: dirs' =>
      match reverse_if (negb ascending) (default Eq (partial_cmp (default VNull (head ka)) (default VNull (head kb)))) with
      | Eq => compare_setop dirs' (tail ka) (tail kb)
      | ord => ord
      end
  end.

(** A row with its sort keys. *)
Abbreviation Keyed := (list Value * Row)%type.
(** The [if let Some(k) = top_n_limit] of [exec_select]. *)
Definition sort_top_n `{SelectNth} (c : Keyed → Keyed → comparison) (top_n_limit : option Z) (keyed : list Keyed) : list Keyed :=
  match top_n_limit with
  | Some k =>
      if k =? 0 then []
      else if k <? zlen keyed then sort_by c (take (Z.to_nat k) (select_nth c (Z.to_nat k - 1) keyed))
      else sort_by c keyed
  | None => sort_by c keyed
  end.

(** ** OFFSET and LIMIT *)

(** [Vec::truncate] *)
Definition truncate {A} (n : Z) (l : list A) : list A := if n <? zlen l then take (Z.to_nat n) l else l.
(** [if offset < rows.len() { rows.split_off(offset) } else { clear }] *)
Definition split_off {A} (n : Z) (l : list A) : list A := if n <? zlen l then drop (Z.to_nat n) l else [].
(** [Value::Integer(v) if v >= 0 => v], for LIMIT. *)
Definition limit_value (v : Value) : option Z :=
  match v with VInteger n => if 0 <=? n then Some n else None | _ => None end.
(** [Value::Integer(v) if v > 0 => v, _ => 0], for OFFSET. *)
Definition offset_value (v : Value) : Z := match v with VInteger n => if 0 <? n then n else 0 | _ => 0 end.
(** [limit.saturating_add(offset)] *)
Definition top_n_of (limit : option Z) (offset : Z) : option Z := (λ l, saturating_add_u64 l offset) <$> limit.

(** ** Lemmas: keys *)

(** The place of the first NUL ends a key that has none. *)
Lemma split_nul a b r s : 0 ∉ a → 0 ∉ b → a ++ 0 :: r = b ++ 0 :: s → a = b ∧ r = s.
Proof.
  revert b. induction a as [|x a IH]; intros [|y b] Ha Hb He; simpl in He; simplify_eq; [done|set_solver..|].
  destruct (IH b) as [-> ->]; [set_solver..|done|done].
Qed.
Lemma show_i64_inj a b : is_i64 a → is_i64 b → show_i64 a = show_i64 b → a = b.
Proof. intros Ha Hb He. apply parse_show_i64 in Ha, Hb. rewrite He in Ha. congruence. Qed.
Lemma hex_digit_inj a b : 0 ≤ a < 16 → 0 ≤ b < 16 → hex_digit a = hex_digit b → a = b.
Proof. unfold hex_digit. intros. destruct (Z.ltb_spec a 10), (Z.ltb_spec b 10); lia. Qed.
Lemma nibbles b : is_byte b → 0 ≤ Z.shiftr b 4 < 16 ∧ 0 ≤ Z.land b 15 < 16 ∧ b = 16 * Z.shiftr b 4 + Z.land b 15.
Proof.
  unfold is_byte. intros Hb. rewrite Z.shiftr_div_pow2 by lia. change 15 with (Z.ones 4). rewrite Z.land_ones by lia.
  change (2 ^ 4) with 16. Z.to_euclidean_division_equations. lia.
Qed.
Lemma hex_encode_cons b l : hex_encode (b :: l) = hex_digit (Z.shiftr b 4) :: hex_digit (Z.land b 15) :: hex_encode l.
Proof. reflexivity. Qed.
Lemma hex_encode_inj a b : bytes_ok a → bytes_ok b → hex_encode a = hex_encode b → a = b.
Proof.
  intros Ha. revert b. induction Ha as [|x a Hx _ IH]; intros b Hb He; destruct Hb as [|y b Hy Hb]; rewrite ?hex_encode_cons in He; [done..|].
  destruct (nibbles x Hx) as (? & ? & ->), (nibbles y Hy) as (? & ? & ->). injection He as E1 E2 E3.
  apply hex_digit_inj in E1, E2; [|lia..]. rewrite E1, E2. f_equal. by apply IH.
Qed.
Lemma hex_encode_no_nul b : bytes_ok b → 0 ∉ hex_encode b.
Proof.
  induction 1 as [|x b Hx _ IH]; [set_solver|]. rewrite hex_encode_cons. destruct (nibbles x Hx) as (? & ? & _).
  unfold hex_digit. intros [E|[E|?]%elem_of_cons]%elem_of_cons; [..|done]; case_match; lia.
Qed.
Lemma show_i64_no_nul v : 0 ∉ show_i64 v.
Proof.
  assert (∀ n, 0 ≤ n → 0 ∉ show_N n) as Hn.
  { intros n Hn Hin. destruct (show_N_spec n Hn) as (_ & Hf & _). rewrite Forall_forall in Hf. specialize (Hf _ Hin). simpl in Hf. lia. }
  unfold show_i64. destruct (Z.ltb_spec v 0); [|by apply Hn]. intros [?|?]%elem_of_cons; [done|]. by apply (Hn (- v)); [lia|].
Qed.

(** A value whose key tells it apart: no double. *)
Definition key_ok (v : Value) : Prop :=
  match v with VInteger z => is_i64 z | VReal _ => False | VBlob b => bytes_ok b | _ => True end.
(** A value whose key ends where the NUL after it stands. *)
Definition key_exact (v : Value) : Prop := key_ok v ∧ match v with VText t => 0 ∉ t | _ => True end.
Lemma typed_key_inj a b : key_ok a → key_ok b → typed_key a = typed_key b → a = b.
Proof.
  destruct a as [|z|r|t|l], b as [|z'|r'|t'|l']; cbn [key_ok typed_key]; intros Ha Hb He; try discriminate He.
  - reflexivity.
  - injection He as He. f_equal. by apply show_i64_inj.
  - destruct Ha.
  - by injection He as ->.
  - injection He as He. f_equal. by apply hex_encode_inj.
Qed.
Lemma typed_key_no_nul a : key_exact a → 0 ∉ typed_key a.
Proof.
  unfold key_exact. destruct a as [|z|r|t|l]; cbn [key_ok typed_key]; intros [Ha Ht]; rewrite not_elem_of_cons.
  - split; [done|apply not_elem_of_nil].
  - split; [done|apply show_i64_no_nul].
  - destruct Ha.
  - by split.
  - split; [done|]. by apply hex_encode_no_nul.
Qed.
Lemma tuple_key_cons v vs : tuple_key (v :: vs) = typed_key v ++ 0 :: tuple_key vs.
Proof. unfold tuple_key. simpl. by rewrite <- app_assoc. Qed.
Lemma tuple_key_inj a b : Forall key_exact a → Forall key_exact b → tuple_key a = tuple_key b → a = b.
Proof.
  assert (∀ v vs, tuple_key (v :: vs) ≠ []) as Hne by (intros v vs; rewrite tuple_key_cons; by destruct (typed_key v)).
  intros Ha. revert b. induction Ha as [|x a Hx _ IH]; intros b Hb He; destruct Hb as [|y b Hy Hb]; [done| | |].
  - by symmetry in He; apply Hne in He.
  - by apply Hne in He.
  - rewrite !tuple_key_cons in He. apply split_nul in He as [E1 E2]; [|by apply typed_key_no_nul..].
    f_equal; [apply typed_key_inj; [apply Hx|apply Hy|done]|by apply IH].
Qed.
Lemma serialize_inj a b : value_ok a → value_ok b → serialize a = serialize b → a = b.
Proof.
  intros Ha Hb He. pose proof (deserialize_serialize a [] Ha) as E1. pose proof (deserialize_serialize b [] Hb) as E2.
  rewrite He in E1. congruence.
Qed.
Lemma serialize_short v : value_ok v → 0 ≤ zlen (serialize v) < 2 ^ 32.
Proof.
  assert (MAX_VALUE_LEN = 268435456) as Hmax by reflexivity. intros Hv. split; [apply zlen_nonneg|].
  destruct v as [|z|r|t|l]; cbn [value_ok] in Hv; unfold serialize; cbn [serialize_into app].
  - done.
  - rewrite write_varint_app, zlen_app, zlen_cons, zlen_nil.
    pose proof (varint_u64_length _ (zigzag_encode_range z Hv)). lia.
  - rewrite zlen_cons, zlen_le_bytes. lia.
  - destruct Hv as (_ & _ & Hl). rewrite write_varint_app, !zlen_app, zlen_cons, zlen_nil.
    pose proof (zlen_nonneg t). pose proof (varint_u64_length (zlen t) ltac:(int_lia)). lia.
  - destruct Hv as (_ & Hl). rewrite write_varint_app, !zlen_app, zlen_cons, zlen_nil.
    pose proof (zlen_nonneg l). pose proof (varint_u64_length (zlen l) ltac:(int_lia)). lia.
Qed.
Lemma row_key_inj a b : Forall value_ok a → Forall value_ok b → row_key a = row_key b → a = b.
Proof.
  intros Ha. revert b. induction Ha as [|x a Hx _ IH]; intros b Hb He; destruct Hb as [|y b Hy Hb]; [done..|].
  unfold row_key in He. cbn [map mjoin list_join] in He. rewrite <- !app_assoc in He.
  apply app_inj_1 in He as [El He]; [|by rewrite !length_le_bytes].
  apply (f_equal le_val) in El. pose proof (serialize_short x Hx). pose proof (serialize_short y Hy).
  rewrite !le_val_le_bytes, !as_u32_id, !Z.mod_small in El by (unfold is_u32; simpl; lia).
  apply app_inj_1 in He as [Es He]; [|unfold zlen in El; lia]. f_equal; [by apply serialize_inj|by apply IH].
Qed.

(** ** Lemmas: multiplicities *)

(** How often a row occurs. *)
Definition mult (x : Row) (l : list Row) : nat := length (filter (x =.) l).
Lemma mult_nil x : mult x [] = 0%nat.
Proof. reflexivity. Qed.
Lemma mult_cons x y l : mult x (y :: l) = ((if decide (x = y) then 1 else 0) + mult x l)%nat.
Proof. unfold mult. rewrite filter_cons. by destruct (decide (x = y)). Qed.
Lemma mult_app x l k : mult x (l ++ k) = (mult x l + mult x k)%nat.
Proof. unfold mult. by rewrite filter_app, length_app. Qed.

Section Keyed.
Context (P : Row → Prop) (key : Row → bytes) (key_inj : ∀ a b, P a → P b → key a = key b → a = b).

Lemma keep_new_mult ok seen rows x : P x → Forall P rows →
  mult x (keep_new key ok seen rows)
  = if ok (key x) && bool_decide (key x ∉ seen) && bool_decide (0 < mult x rows)%nat then 1%nat else 0%nat.
Proof.
  intros Hx Hf. revert seen. induction Hf as [|y l Hy _ IH]; intros seen; [by rewrite andb_false_r|]. cbn [keep_new].
  rewrite mult_cons. destruct (decide (x = y)) as [<-|Hne].
  - destruct (ok (key x) && bool_decide (key x ∉ seen)) eqn:E.
    + rewrite mult_cons, decide_True, IH by done. rewrite (bool_decide_false (key x ∉ {[key x]} ∪ seen)) by set_solver.
      by rewrite andb_false_r.
    + by rewrite IH, E.
  - assert (key x ≠ key y) as Hk by (intros E; by apply Hne, key_inj). cbn [Nat.add]. destruct (ok (key y) && _).
    + rewrite mult_cons, decide_False, IH by done. cbn [Nat.add].
      by rewrite (bool_decide_ext (key x ∉ {[key y]} ∪ seen) (key x ∉ seen)) by set_solver.
    + apply IH.
Qed.
Lemma keep_new_sublist ok seen rows : keep_new key ok seen rows `sublist_of` rows.
Proof.
  revert seen. induction rows as [|y l IH]; intros seen; [constructor|]. cbn [keep_new]. destruct (_ && _).
  - by apply sublist_skip.
  - by apply sublist_cons.
Qed.
End Keyed.

Abbreviation rows_ok := (Forall (Forall value_ok)).
Lemma count_rows_by_key_lookup rows x : Forall value_ok x → rows_ok rows →
  default O (count_rows_by_key rows !! row_key x) = mult x rows.
Proof.
  intros Hx Hf. unfold count_rows_by_key.
  assert (∀ m : gmap bytes nat, default O (foldl (λ (counts : gmap bytes nat) row, <[row_key row := S (default O (counts !! row_key row))]> counts) m rows !! row_key x)
    = (default O (m !! row_key x) + mult x rows)%nat) as He; [|by rewrite He, lookup_empty].
  induction Hf as [|y l Hy _ IH]; intros m; cbn [foldl]; [rewrite mult_nil; lia|]. rewrite IH, mult_cons.
  destruct (decide (x = y)) as [<-|Hne].
  - rewrite lookup_insert_eq. simpl. lia.
  - rewrite lookup_insert_ne; [lia|]. intros E. by apply Hne, row_key_inj.
Qed.
Lemma consume_mult hit counts rows x : Forall value_ok x → rows_ok rows →
  mult x (consume hit counts rows)
  = let c := default O (counts !! row_key x) in if hit then Nat.min (mult x rows) c else (mult x rows - c)%nat.
Proof.
  intros Hx Hf. cbn zeta. revert counts. induction Hf as [|y l Hy _ IH]; intros counts.
  { cbn [consume]. rewrite mult_nil. by destruct hit. }
  cbn [consume]. rewrite mult_cons. destruct (decide (x = y)) as [<-|Hne].
  - destruct (counts !! row_key x) as [[|c]|] eqn:E; cbn [default].
    + destruct hit; rewrite ?mult_cons, ?decide_True, IH, E by done; simpl; lia.
    + destruct hit; rewrite ?mult_cons, ?decide_True, IH, lookup_insert_eq by done; simpl; lia.
    + destruct hit; rewrite ?mult_cons, ?decide_True, IH, E by done; simpl; lia.
  - assert (row_key x ≠ row_key y) as Hk by (intros E; by apply Hne, row_key_inj).
    destruct (counts !! row_key y) as [[|c]|]; destruct hit; rewrite ?mult_cons, ?decide_False, IH by done;
      rewrite ?lookup_insert_ne by done; done.
Qed.
Lemma consume_sublist hit counts rows : consume hit counts rows `sublist_of` rows.
Proof.
  revert counts. induction rows as [|y l IH]; intros counts; [constructor|]. cbn [consume].
  destruct (counts !! row_key y) as [[|c]|]; destruct hit; first [by apply sublist_skip|by apply sublist_cons].
Qed.
Lemma key_set_spec rows x : Forall value_ok x → rows_ok rows → row_key x ∈ key_set rows ↔ (0 < mult x rows)%nat.
Proof.
  intros Hx Hf. unfold key_set. rewrite elem_of_list_to_set. induction Hf as [|y l Hy _ IH]; cbn [map].
  - rewrite mult_nil. split; [intros E; by apply elem_of_nil in E|lia].
  - rewrite elem_of_cons, mult_cons, IH. destruct (decide (x = y)) as [<-|Hne]; [split; [lia|by left]|].
    split; [intros [E|?]; [by apply row_key_inj in E|lia]|intros; right; lia].
Qed.

(** ** Lemmas: total preorders and sorting *)

(** On the elements that satisfy [P], a comparison is a total preorder. *)
Record total_on {A} (P : A → Prop) (c : A → A → comparison) : Prop := {
  total_antisym x y : P x → P y → c y x = CompOpp (c x y);
  total_trans x y z : P x → P y → P z → c x y ≠ Gt → c y z ≠ Gt → c x z ≠ Gt;
}.
(** What the standard library documents of [select_nth_unstable_by], on a
    total preorder: a permutation, with the elements up to the index below
    those after it. *)
Class SelectNthLaw `{SelectNth} : Prop :=
  select_nth_law : ∀ A (P : A → Prop) c i l, total_on P c → Forall P l → (i < length l)%nat →
    select_nth c i l ≡ₚ l ∧ ∀ x y, x ∈ take (S i) (select_nth c i l) → y ∈ drop (S i) (select_nth c i l) → c x y ≠ Gt.

Section Sort.
Context {A : Type} (P : A → Prop) (c : A → A → comparison) (Hc : total_on P c).

Definition sorted (l : list A) : Prop := StronglySorted (λ x y, c x y ≠ Gt) l.

Lemma total_refl x : P x → c x x = Eq.
Proof. intros Hx. pose proof (total_antisym _ _ Hc x x Hx Hx) as E. by destruct (c x x). Qed.
Lemma total_flip x y : P x → P y → c x y = Gt → c y x ≠ Gt.
Proof. intros Hx Hy E. by rewrite (total_antisym _ _ Hc x y), E. Qed.
Lemma total_both x y : P x → P y → c x y ≠ Gt → c y x ≠ Gt → c x y = Eq.
Proof. intros Hx Hy. rewrite (total_antisym _ _ Hc x y) by done. by destruct (c x y). Qed.
(** Equal elements compare alike. *)
Lemma total_eq_l x y z : P x → P y → P z → c x y = Eq → c x z = c y z.
Proof.
  intros Hx Hy Hz E. assert (c y x = Eq) as E' by (by rewrite (total_antisym _ _ Hc x y), E).
  assert (∀ a b, P a → P b → c a b = Eq → c b a = Eq → c a z = Gt → c b z = Gt) as Hg.
  { intros a b Ha Hb E1 E2 Eg. destruct (decide (c b z = Gt)) as [|Hn]; [done|]. exfalso.
    by apply (total_trans _ _ Hc a b z Ha Hb Hz) in Hn; [|by rewrite E1]. }
  assert (∀ a b, P a → P b → c a b = Eq → c b a = Eq → c a z = Lt → c b z = Lt) as Hl.
  { intros a b Ha Hb E1 E2 El. destruct (c b z) eqn:Eb; [|done|by rewrite (Hg b a) in El].
    exfalso. apply (total_trans _ _ Hc z b a Hz Hb Ha); [by rewrite (total_antisym _ _ Hc b z), Eb|by rewrite E2|].
    by rewrite (total_antisym _ _ Hc a z), El. }
  destruct (c x z) eqn:E1; symmetry; [|by apply (Hl x y)|by apply (Hg x y)].
  destruct (c y z) eqn:E2; [done|by rewrite (Hl y x) in E1|by rewrite (Hg y x) in E1].
Qed.

Lemma insert_by_perm x l : insert_by c x l ≡ₚ x :: l.
Proof.
  induction l as [|y l IH]; [done|]. cbn [insert_by]. destruct (c x y); [done..|]. rewrite IH. apply Permutation_swap.
Qed.
Lemma sort_by_perm l : sort_by c l ≡ₚ l.
Proof. induction l as [|x l IH]; [done|]. cbn [sort_by foldr]. rewrite insert_by_perm. by f_equiv. Qed.
Lemma insert_by_sorted x l : P x → Forall P l → sorted l → sorted (insert_by c x l).
Proof.
  intros Hx Hl Hs. induction Hs as [|y l Hs IH Hy]; [repeat constructor|].
  inversion Hl as [|? ? HPy HPl]; subst. cbn [insert_by].
  assert (c x y ≠ Gt → sorted (x :: y :: l)) as Hle.
  { intros E. constructor; [by constructor|]. constructor; [done|]. rewrite Forall_forall in Hy, HPl |- *. intros z Hz.
    apply (total_trans _ _ Hc x y z); auto. }
  destruct (c x y) eqn:E; [by apply Hle..|]. constructor; [by apply IH|].
  rewrite insert_by_perm. constructor; [by apply total_flip|done].
Qed.
Lemma sort_by_Forall l (Q : A → Prop) : Forall Q l → Forall Q (sort_by c l).
Proof. by rewrite sort_by_perm. Qed.
Lemma sort_by_sorted l : Forall P l → sorted (sort_by c l).
Proof.
  induction 1 as [|x l Hx Hl IH]; [constructor|]. cbn [sort_by foldr]. apply insert_by_sorted; [done|by apply sort_by_Forall|done].
Qed.
(** Equal elements stay in their order. *)
Lemma insert_by_stable x z l : P x → P z → Forall P l →
  filter (λ y, c z y = Eq) (insert_by c x l) = filter (λ y, c z y = Eq) (x :: l).
Proof.
  intros Hx Hz Hl. induction Hl as [|y l Hy _ IH]; [done|]. cbn [insert_by]. destruct (c x y) eqn:E; [done..|].
  rewrite (filter_cons _ y), IH, !filter_cons. destruct (decide (c z x = Eq)) as [E1|]; [|done].
  destruct (decide (c z y = Eq)) as [E2|]; [|done]. exfalso.
  assert (c x z = Eq) as E3 by (by rewrite (total_antisym _ _ Hc z x), E1). by rewrite (total_eq_l x z y), E2 in E.
Qed.
Lemma sort_by_stable z l : P z → Forall P l → filter (λ y, c z y = Eq) (sort_by c l) = filter (λ y, c z y = Eq) l.
Proof.
  intros Hz. induction 1 as [|x l Hx Hl IH]; [done|]. cbn [sort_by foldr].
  rewrite insert_by_stable by first [done|by apply sort_by_Forall]. rewrite !filter_cons. unfold sort_by in IH. by rewrite IH.
Qed.

(** The head of a sorted list is below every class the list meets. *)
Lemma sorted_head x y l : Forall P (x :: l) → Forall (λ z, c x z ≠ Gt) l → P y →
  (0 < length (filter (λ z, c y z = Eq) (x :: l)))%nat → c x y ≠ Gt.
Proof.
  intros HP Hx Hy Hn. destruct (filter _ (x :: l)) as [|w ws] eqn:Ef; [simpl in Hn; lia|].
  assert (w ∈ filter (λ z, c y z = Eq) (x :: l)) as [Ew Hw]%list_elem_of_filter by (rewrite Ef; left).
  rewrite Forall_forall in HP. assert (c w y ≠ Gt) as Hwy by (rewrite (total_antisym _ _ Hc y w), Ew by auto; done).
  apply elem_of_cons in Hw as [->|Hw]; [done|]. rewrite Forall_forall in Hx.
  apply (total_trans _ _ Hc x w y); [apply HP; left|apply HP; by right|done|by apply Hx|done].
Qed.
Lemma filter_self x l : P x → filter (λ y, c x y = Eq) (x :: l) = x :: filter (λ y, c x y = Eq) l.
Proof. intros Hx. by rewrite filter_cons, decide_True by (by apply total_refl). Qed.
(** Two sorted lists with as many elements of each class agree up to classes. *)
Lemma sorted_unique l k : sorted l → sorted k → Forall P l → l ≡ₚ k → Forall2 (λ x y, c x y = Eq) l k.
Proof.
  intros Hl Hk HP Hp. assert (Forall P k) as HPk by (by rewrite <- Hp).
  assert (∀ z, P z → length (filter (λ y, c z y = Eq) l) = length (filter (λ y, c z y = Eq) k)) as Hn by (intros z _; by rewrite Hp).
  clear Hp. revert k Hk HPk Hn. induction Hl as [|x l Hl IH Hx]; intros k Hk HPk Hn.
  - destruct k as [|y k]; [done|]. inversion HPk; subst. specialize (Hn y ltac:(done)). by rewrite filter_self in Hn.
  - inversion HP as [|? ? HPx HPl]; subst. destruct Hk as [|y k Hk Hy].
    { specialize (Hn x HPx). by rewrite filter_self in Hn. }
    inversion HPk as [|? ? HPy HPk']; subst. assert (c x y = Eq) as E.
    { apply total_both; [done..| |].
      - apply (sorted_head x y l); [done..|]. rewrite Hn, filter_self by done. simpl. lia.
      - apply (sorted_head y x k); [done..|]. rewrite <- Hn, filter_self by done. simpl. lia. }
    constructor; [done|]. apply IH; [done..|]. intros z Hz. specialize (Hn z Hz). rewrite !filter_cons in Hn.
    assert (c z x = c z y) as Ez.
    { rewrite (total_antisym _ _ Hc x z), (total_antisym _ _ Hc y z) by done. f_equal. by apply total_eq_l. }
    rewrite Ez in Hn. destruct (decide (c z y = Eq)); simpl in Hn; lia.
Qed.
Lemma sorted_app l k : sorted l → sorted k → (∀ x y, x ∈ l → y ∈ k → c x y ≠ Gt) → sorted (l ++ k).
Proof.
  induction 1 as [|x l Hl IH Hx]; intros Hk Hlk; [done|]. cbn [app]. constructor.
  - apply IH; [done|]. intros u v Hu Hv. apply Hlk; [by right|done].
  - apply Forall_app_2; [done|]. rewrite Forall_forall. intros v Hv. apply Hlk; [left|done].
Qed.
Lemma sorted_take n l : sorted l → sorted (take n l).
Proof.
  intros Hl. revert n. induction Hl as [|x l Hl IH Hx]; intros [|n]; cbn [take]; try constructor; [apply IH|].
  by apply Forall_take.
Qed.
End Sort.

(** Lexicographic combinations and pullbacks are total preorders. *)
Lemma total_map {A B} (P : B → Prop) (Q : A → Prop) (f : A → B) c : total_on P c → (∀ x, Q x → P (f x)) →
  total_on Q (λ x y, c (f x) (f y)).
Proof.
  intros [Ha Ht] Hf. split; [by intros; apply Ha; apply Hf|]. intros x y z Hx Hy Hz. apply Ht; by apply Hf.
Qed.
Lemma total_lex {A} {P : A → Prop} c1 c2 : total_on P c1 → total_on P c2 →
  total_on P (λ x y, match c1 x y with Eq => c2 x y | o => o end).
Proof.
  intros H1 H2. split.
  - intros x y Hx Hy. rewrite (total_antisym _ _ H1 x y), (total_antisym _ _ H2 x y) by done. by destruct (c1 x y).
  - intros x y z Hx Hy Hz. pose proof (total_trans _ _ H1 x y z Hx Hy Hz) as Ht.
    pose proof (total_trans _ _ H2 x y z Hx Hy Hz) as Ht2. pose proof (total_eq_l _ _ H1 x y z Hx Hy Hz) as He.
    destruct (c1 x y) eqn:E1; [by rewrite He; destruct (c1 y z); auto| |done].
    destruct (c1 x z) eqn:E3; [|done|by destruct (c1 y z); auto]. destruct (c1 y z) eqn:E2; [| |done].
    + assert (c1 z x = Eq) as E by (by rewrite (total_antisym _ _ H1 x z), E3).
      apply (total_eq_l _ _ H1 z x y) in E; [|done..]. by rewrite E1, (total_antisym _ _ H1 y z), E2 in E.
    + assert (c1 z x = Eq) as E by (by rewrite (total_antisym _ _ H1 x z), E3).
      apply (total_eq_l _ _ H1 z x y) in E; [|done..]. by rewrite E1, (total_antisym _ _ H1 y z), E2 in E.
Qed.

(** The top-N shortcut gives a prefix of the full sort, up to equal elements,
    whatever order [select_nth_unstable_by] leaves. *)
Lemma sort_top_n_prefix `{SelectNthLaw} (P : Keyed → Prop) c (Hc : total_on P c) k l : Forall P l → 0 ≤ k →
  sorted c (sort_top_n c (Some k) l)
  ∧ Forall2 (λ x y, c x y = Eq) (sort_top_n c (Some k) l) (take (Z.to_nat k) (sort_by c l))
  ∧ ∃ rest, sort_top_n c (Some k) l ++ rest ≡ₚ l.
Proof.
  intros Hl Hk. pose proof (sort_by_sorted P c Hc l Hl) as Hs. pose proof (sort_by_perm c l) as Hp.
  assert (∀ t, Forall P t → Forall2 (λ x y, c x y = Eq) t t) as Hrefl.
  { intros t Ht. apply Forall_Forall2_diag. eapply Forall_impl; [exact Ht|]. intros x Hx. by eapply total_refl. }
  cbn [sort_top_n]. destruct (Z.eqb_spec k 0) as [->|Hk0].
  { split; [constructor|]. split; [constructor|]. by exists l. }
  destruct (Z.ltb_spec k (zlen l)) as [Hlt|Hge].
  - set (n := Z.to_nat k). destruct (select_nth_law _ P c (n - 1) l Hc Hl ltac:(unfold zlen in *; lia)) as [Hsel Hle].
    set (s := select_nth c (n - 1) l) in *. replace (S (n - 1)) with n in Hle by lia.
    assert (Forall P s) as HPs by (by rewrite Hsel).
    assert (Forall P (take n s) ∧ Forall P (drop n s)) as [Ht Hd] by (split; [by apply Forall_take|by apply Forall_drop]).
    pose proof (sort_by_perm c (take n s)) as Hpt. pose proof (sort_by_perm c (drop n s)) as Hpd.
    assert (sort_by c (take n s) ++ sort_by c (drop n s) ≡ₚ l) as Hall by (by rewrite Hpt, Hpd, take_drop).
    split; [by eapply sort_by_sorted|]. split; [|by exists (sort_by c (drop n s))].
    assert (sorted c (sort_by c (take n s) ++ sort_by c (drop n s))) as Hsort.
    { apply sorted_app; [by eapply sort_by_sorted..|]. intros x y. rewrite Hpt, Hpd. apply Hle. }
    assert (length (sort_by c (take n s)) = n) as Hn.
    { rewrite Hpt, length_take, Hsel. unfold zlen in Hlt. lia. }
    assert (sort_by c (take n s) = take n (sort_by c (take n s) ++ sort_by c (drop n s))) as E by (by rewrite take_app_length').
    rewrite E at 1. apply Forall2_take. apply (sorted_unique P c Hc); [done..|by rewrite Hall|by rewrite Hall, Hp].
  - split; [done|]. rewrite take_ge by (rewrite Hp; unfold zlen in *; lia). split; [|by exists []; rewrite app_nil_r].
    apply Hrefl. by apply sort_by_Forall.
Qed.

(** ** Lemmas: the order of values *)

(** The place of a value in an order: its class, then its content. *)
Definition f64_key (f : spec_float) : list Z :=
  match f with
  | S754_infinity true => [-2]
  | S754_finite true m e => [-1; - e; - Zpos m]
  | S754_zero _ => [0]
  | S754_finite false m e => [1; e; Zpos m]
  | S754_infinity false => [2]
  | S754_nan => [3]
  end.
Definition value_key (v : Value) : list Z :=
  match v with
  | VNull => [0]
  | VInteger z => [1; z]
  | VReal b => 1 :: f64_key (f64_of_bits b)
  | VText t => 2 :: t
  | VBlob b => 3 :: b
  end.
(** The values of one ORDER BY key: with doubles no NaN and no integer, or no
    double. *)
Definition comparable (reals : bool) (v : Value) : Prop :=
  match v with
  | VInteger _ => reals = false
  | VReal b => reals = true ∧ f64_of_bits b ≠ S754_nan
  | _ => True
  end.
Lemma SFcompare_key f g : f ≠ S754_nan → g ≠ S754_nan → SFcompare f g = Some (bytes_cmp (f64_key f) (f64_key g)).
Proof.
  destruct f as [s|[]| |[] m e], g as [s'|[]| |[] m' e']; intros Hf Hg; try done; cbn; f_equal.
  - change (PosDef.Pos.compare_cont Eq m m') with (Zpos m ?= Zpos m').
    destruct (Z.compare_spec e e'), (Z.compare_spec (- e) (- e')); try lia; [|done..].
    destruct (Z.compare_spec (Zpos m) (Zpos m')), (Z.compare_spec (- Zpos m) (- Zpos m')); try lia; done.
  - change (PosDef.Pos.compare_cont Eq m m') with (m ?= m')%positive. destruct (e ?= e'); [by destruct (m ?= m')%positive|done..].
Qed.
Lemma partial_cmp_key reals a b : comparable reals a → comparable reals b →
  partial_cmp a b = Some (bytes_cmp (value_key a) (value_key b)).
Proof.
  destruct a as [|x|x|x|x], b as [|y|y|y|y]; cbn [comparable partial_cmp value_key bytes_cmp]; intros Ha Hb; try done.
  - simpl. by destruct (x ?= y).
  - by destruct Hb; congruence.
  - by destruct Ha; congruence.
  - destruct Ha, Hb. by rewrite SFcompare_key.
Qed.
Lemma bytes_cmp_trans a b c : bytes_cmp a b ≠ Gt → bytes_cmp b c ≠ Gt → bytes_cmp a c ≠ Gt.
Proof.
  revert b c. induction a as [|x a IH]; intros [|y b] [|z c]; simpl; try done.
  destruct (Z.compare_spec x y), (Z.compare_spec y z), (Z.compare_spec x z); try lia; try done. apply IH.
Qed.
Lemma is_null_comparable v : is_null v = true → v = VNull.
Proof. by destruct v. Qed.
Lemma compare_value_pair_eq reals a b nf asc : comparable reals a → comparable reals b →
  compare_value_pair a b nf asc
  = match is_null a, is_null b with
    | true, true => Eq
    | true, false => if default (negb asc) nf then Lt else Gt
    | false, true => if default (negb asc) nf then Gt else Lt
    | false, false => reverse_if (negb asc) (bytes_cmp (value_key a) (value_key b))
    end.
Proof.
  intros Ha Hb. unfold compare_value_pair. rewrite (partial_cmp_key reals) by done.
  destruct (is_null a), (is_null b); [done..|]. by destruct (bytes_cmp _ _), asc.
Qed.
Lemma compare_value_pair_total reals nf asc : total_on (comparable reals) (λ a b, compare_value_pair a b nf asc).
Proof.
  split.
  - intros x y Hx Hy. rewrite !(compare_value_pair_eq reals) by done. rewrite (bytes_cmp_antisym (value_key x) (value_key y)).
    destruct (is_null x), (is_null y), (default (negb asc) nf), asc; try done; by destruct (bytes_cmp _ _).
  - intros x y z Hx Hy Hz. rewrite !(compare_value_pair_eq reals) by done.
    pose proof (bytes_cmp_trans (value_key x) (value_key y) (value_key z)) as H1.
    pose proof (bytes_cmp_trans (value_key z) (value_key y) (value_key x)) as H2.
    rewrite (bytes_cmp_antisym (value_key y) (value_key z)), (bytes_cmp_antisym (value_key x) (value_key y)),
      (bytes_cmp_antisym (value_key x) (value_key z)) in H2.
    destruct (is_null x), (is_null y), (is_null z), (default (negb asc) nf), asc; cbn [reverse_if negb]; try done.
    all: destruct (bytes_cmp (value_key x) (value_key y)), (bytes_cmp (value_key y) (value_key z)),
      (bytes_cmp (value_key x) (value_key z)); simpl in *; naive_solver.
Qed.
(** The sort keys of a row, each column in its class. *)
Definition keys_ok (cls : nat → bool) (ks : list Value) : Prop := ∀ i, comparable (cls i) (default VNull (ks !! i)).
Lemma keys_ok_head cls ks : keys_ok cls ks → comparable (cls 0%nat) (default VNull (head ks)).
Proof. intros Hk. specialize (Hk 0%nat). by destruct ks. Qed.
Lemma keys_ok_tail cls ks : keys_ok cls ks → keys_ok (λ i, cls (S i)) (tail ks).
Proof. intros Hk i. specialize (Hk (S i)). by destruct ks. Qed.
Lemma compare_keys_total cls dirs : total_on (keys_ok cls) (compare_keys dirs).
Proof.
  revert cls. induction dirs as [|[asc nf] dirs IH]; intros cls; [split; [done|naive_solver]|]. cbn [compare_keys].
  apply (total_lex (λ ka kb, compare_value_pair (default VNull (head ka)) (default VNull (head kb)) nf asc)
    (λ ka kb, compare_keys dirs (tail ka) (tail kb))).
  - apply (total_map _ _ (λ ka, default VNull (head ka)) _ (compare_value_pair_total (cls 0%nat) nf asc)). apply keys_ok_head.
  - apply (total_map _ _ tail _ (IH (λ i, cls (S i)))). apply keys_ok_tail.
Qed.
Lemma truncate_take {A} n (l : list A) : 0 ≤ n → truncate n l = take (Z.to_nat n) l.
Proof. intros Hn. unfold truncate, zlen. destruct (Z.ltb_spec n (Z.of_nat (length l))); [done|]. rewrite take_ge by lia. done. Qed.
Lemma split_off_drop {A} n (l : list A) : 0 ≤ n → split_off n l = drop (Z.to_nat n) l.
Proof. intros Hn. unfold split_off, zlen. destruct (Z.ltb_spec n (Z.of_nat (length l))); [done|]. rewrite drop_ge by lia. done. Qed.

(** ** Properties *)

(** DISTINCT keeps one copy of each row and the order of the rows, when no
    text holds a NUL and no value is a double. *)
Theorem distinct_correct (rows : list Row) (Hrows : Forall (Forall key_exact) rows) :
  distinct rows `sublist_of` rows
  ∧ ∀ x, Forall key_exact x → mult x (distinct rows) = Nat.min 1 (mult x rows).
Proof.
  split; [apply keep_new_sublist|]. intros x Hx. unfold distinct.
  rewrite (keep_new_mult (Forall key_exact) tuple_key tuple_key_inj) by done. rewrite (bool_decide_true (_ ∉ _)) by set_solver. cbn [andb].
  case_bool_decide; lia.
Qed.
Lemma distinct_correct_witness :
  let rows := [[VInteger 1; VText [97]]; [VNull; VBlob [0]]; [VInteger 1; VText [97]]] in
  distinct rows = [[VInteger 1; VText [97]]; [VNull; VBlob [0]]] ∧ distinct rows `sublist_of` rows.
Proof.
  split; [vm_compute; reflexivity|]. apply distinct_correct.
  repeat constructor; cbn [key_ok]; try (unfold is_i64, is_byte; lia); set_solver.
Defined.

(** [C34] The set operations are the operations on multisets that SQL names, rows
    being counted as the same when their values are identical, type included: a
    row occurs as often in the result as its occurrences on both sides say.
    The integer 1 and the double 1.0 are different values here, although [=]
    holds of them (see [distinct_splits_equal_values]). *)
Theorem set_op_multiplicity (kind : SetOpKind) (l r : list Row) (Hl : rows_ok l) (Hr : rows_ok r) (x : Row) (Hx : Forall value_ok x) :
  mult x (set_op kind l r)
  = (let a := mult x l in let b := mult x r in
     match kind with
     | UnionAll => a + b
     | UnionDistinct => Nat.min 1 (a + b)
     | IntersectAll => Nat.min a b
     | IntersectDistinct => Nat.min 1 (Nat.min a b)
     | ExceptAll => a - b
     | ExceptDistinct => if decide (b = 0) then Nat.min 1 a else 0
     end)%nat
  ∧ set_op kind l r `sublist_of` l ++ r.
Proof.
  assert (∀ ok rows, rows_ok rows → mult x (keep_new row_key ok ∅ rows)
    = if ok (row_key x) && bool_decide (0 < mult x rows)%nat then 1%nat else 0%nat) as Hkeep.
  { intros ok rows Hrows. rewrite (keep_new_mult (Forall value_ok) row_key row_key_inj) by done.
    by rewrite (bool_decide_true (_ ∉ _)), andb_true_r by set_solver. }
  pose proof (key_set_spec r x Hx Hr) as Hk. split.
  - destruct kind; cbn [set_op]; cbn zeta.
    + apply mult_app.
    + rewrite Hkeep, mult_app by (by apply Forall_app_2). cbn [andb]. case_bool_decide; lia.
    + rewrite consume_mult, count_rows_by_key_lookup by done. done.
    + rewrite Hkeep, (bool_decide_ext _ _ Hk) by done. do 2 case_bool_decide; cbn [andb]; lia.
    + rewrite consume_mult, count_rows_by_key_lookup by done. done.
    + rewrite Hkeep, (bool_decide_ext _ _ Hk) by done. destruct (decide _); do 2 case_bool_decide; cbn [andb negb]; lia.
  - assert (l `sublist_of` l ++ r) as Hlr by apply sublist_inserts_r, reflexivity.
    destruct kind; cbn [set_op]; [done|apply keep_new_sublist|..];
      (etrans; [|exact Hlr]); first [apply consume_sublist|apply keep_new_sublist].
Qed.
Lemma set_op_multiplicity_witness :
  let l := [[VInteger 1]; [VInteger 1]; [VNull]] in let r := [[VInteger 1]; [VNull]; [VText []]] in
  mult [VInteger 1] (set_op ExceptAll l r) = 1%nat ∧ set_op ExceptAll l r = [[VInteger 1]].
Proof.
  split; [|vm_compute; reflexivity].
  refine (proj1 (set_op_multiplicity ExceptAll [[VInteger 1]; [VInteger 1]; [VNull]] [[VInteger 1]; [VNull]; [VText []]] _ _ [VInteger 1] _));
    repeat constructor; cbn [value_ok]; unfold is_i64; done || lia.
Defined.

(** ORDER BY with LIMIT and OFFSET: whatever elements
    [select_nth_unstable_by] leaves first, the page cut out of the truncated
    sort has, row by row, the sort keys of the page of the full sort. *)
Lemma top_n_page `{SelectNthLaw} (dirs : list Direction) (cls : nat → bool) (keyed : list Keyed) (limit offset : Z)
    (Hk : Forall (λ kr, keys_ok cls kr.1) keyed) (Hlimit : 0 ≤ limit) (Hoffset : 0 ≤ offset) (Hlen : zlen keyed ≤ U64_MAX) :
  let c := λ a b : Keyed, compare_keys dirs a.1 b.1 in
  Forall2 (λ a b, c a b = Eq)
    (truncate limit (split_off offset (sort_top_n c (top_n_of (Some limit) offset) keyed)))
    (take (Z.to_nat limit) (drop (Z.to_nat offset) (sort_by c keyed))).
Proof.
  intros c. assert (total_on (λ kr : Keyed, keys_ok cls kr.1) c) as Hc.
  { apply (total_map (keys_ok cls) _ fst); [apply compare_keys_total|done]. }
  unfold top_n_of. cbn [fmap option_fmap option_map]. set (k := saturating_add_u64 limit offset).
  assert (0 ≤ k ∧ (limit + offset ≤ k ∨ zlen keyed ≤ k)) as [Hk0 Hbig] by (unfold k, saturating_add_u64, U64_MAX in *; lia).
  destruct (sort_top_n_prefix _ c Hc k keyed Hk Hk0) as (_ & Hpre & _).
  rewrite truncate_take, split_off_drop by done.
  apply (Forall2_drop _ _ _ (Z.to_nat offset)), (Forall2_take _ _ _ (Z.to_nat limit)) in Hpre.
  assert (take (Z.to_nat limit) (drop (Z.to_nat offset) (take (Z.to_nat k) (sort_by c keyed)))
    = take (Z.to_nat limit) (drop (Z.to_nat offset) (sort_by c keyed))) as <-; [|done].
  pose proof (Permutation_length (sort_by_perm c keyed)) as Hn. unfold zlen in Hbig. destruct Hbig as [Hb|Hb].
  - rewrite !take_drop_commute, take_take. do 2 f_equal. lia.
  - by rewrite (take_ge _ (Z.to_nat k)) by lia.
Qed.
(** A selection that sorts satisfies the law. *)
Definition select_by_sort : SelectNth := λ A c _ l, sort_by c l.
Lemma select_by_sort_law : @SelectNthLaw select_by_sort.
Proof.
  intros A P c i l Hc Hl _. split; [apply sort_by_perm|]. unfold select_nth, select_by_sort. intros x y.
  pose proof (sort_by_sorted P c Hc l Hl) as Hs. revert i x y. induction Hs as [|z s Hs IH Hz]; intros i x y.
  - rewrite take_nil. intros E. by apply elem_of_nil in E.
  - rewrite Forall_forall in Hz. cbn [take drop]. intros [->|Hx]%elem_of_cons Hy.
    + apply Hz. eapply subseteq_drop; exact Hy.
    + destruct i as [|i]; [by apply elem_of_nil in Hx|]. by apply (IH i).
Qed.
(** ** Divergences *)

(** A NUL inside a text makes the keys of different rows equal: DISTINCT keeps
    one of two different rows, and GROUP BY puts them into one group. *)
Lemma distinct_nul_collision :
  let r1 := [VText [97; 0; 84; 98]; VText [99]] in let r2 := [VText [97]; VText [98; 0; 84; 99]] in
  r1 ≠ r2 ∧ distinct [r1; r2] = [r1].
Proof. split; [done|]. vm_compute. reflexivity. Qed.
(** Equal numbers of different types have different keys: 1 and 1.0 are equal
    to [=] and stay two rows under DISTINCT and UNION. *)
Lemma distinct_splits_equal_values :
  let one := VInteger 1 in let one_f := VReal (bits_of_f64 (f64_of_i64 1)) in
  value_eq one one_f = true ∧ distinct [[one]; [one_f]] = [[one]; [one_f]] ∧ set_op UnionDistinct [[one]] [[one_f]] = [[one]; [one_f]].
Proof. vm_compute. done. Qed.
(** Without NULLS FIRST or NULLS LAST an ascending sort puts NULLs last; the
    doc of [OrderByItem::nulls_first] says first. *)
Lemma nulls_default_last :
  sort_by (compare_keys [(true, None)]) [[VNull]; [VInteger 1]] = [[VInteger 1]; [VNull]]
  ∧ sort_by (compare_keys [(false, None)]) [[VInteger 1]; [VNull]] = [[VNull]; [VInteger 1]].
Proof. vm_compute. done. Qed.
(** The ORDER BY of a set operation ignores NULLS FIRST and NULLS LAST, and its
    default is the opposite of the default of SELECT. *)
Lemma setop_ignores_nulls_last :
  sort_by (compare_setop [(true, Some false)]) [[VInteger 1]; [VNull]] = [[VNull]; [VInteger 1]]
  ∧ sort_by (compare_keys [(true, Some false)]) [[VInteger 1]; [VNull]] = [[VInteger 1]; [VNull]]
  ∧ sort_by (compare_keys [(true, None)]) [[VInteger 1]; [VNull]] = [[VInteger 1]; [VNull]].
Proof. vm_compute. done. Qed.
