(* ===== verification/Joins.v ===== *)
(** Joins (src/src/vm/exec_select.rs, the [FromClause::Join] branch of
    [eval_from]): detection of an equality between a column of each side, the
    hash joins and the nested loops of the eight kinds of join.

    The theorems: the nested loops are the joins of relational algebra, and the
    hash joins compute what the nested loops compute on values whose keys are
    exact. *)
From S2P Require Import Prelude Values Text Like Expr ExprTypes ExprLaws RowOps.

(** ** Definitions *)

Inductive JoinType : Type := Inner | Left | Right | Cross | LeftSemi | RightSemi | Full | Natural.

(** The key under which a column name enters a column map: bytes pushed as
    characters when there is an upper-case letter, the name itself otherwise. *)
Definition is_ascii_upper (b : Z) : bool := (65 <=? b) && (b <=? 90).
Definition col_key (name : string) : string :=
  if existsb is_ascii_upper (bytes_of_string name) then string_of_bytes (push_lower name) else name.
Definition build_col_map (names : list string) : ColMap :=
  foldl (λ m '(i, name), <[col_key name := i]> m) ∅ (imap pair names).

(** [row[idx]] *)
Definition at_index {A} (l : list A) (idx : nat) : res A := match l !! idx with Some v => Ok v | None => Panic end.

(** The table of a hash join: the indices of the rows with each key, NULLs
    left out. *)
Fixpoint build_hash (rows : list Row) (idx ri : nat) (hash : gmap bytes (list nat)) : res (gmap bytes (list nat)) :=
  match rows with
  | [] => Ok hash
  | row :: rows' =>
      v ← at_index row idx;
      build_hash rows' idx (S ri)
        (if is_null v then hash else <[typed_key v := default [] (hash !! typed_key v) ++ [ri]]> hash)
  end.
Fixpoint rows_at (rows : list Row) (indices : list nat) : res (list Row) :=
  match indices with
  | [] => Ok []
  | ri :: indices' => row ← at_index rows ri; rest ← rows_at rows indices'; Ok (row :: rest)
  end.
(** Probing with the rows of the other side; [unmatched] is what a row without
    a partner gives. *)
Fixpoint probe_hash (combine : Row → Row → Row) (unmatched : Row → list Row) (build : list Row) (hash : gmap bytes (list nat))
    (probe : list Row) (idx : nat) : res (list Row) :=
  match probe with
  | [] => Ok []
  | row :: probe' =>
      v ← at_index row idx;
      out ← (if is_null v then Ok (unmatched row)
             else match hash !! typed_key v with
                  | Some indices => map (combine row) <$> rows_at build indices
                  | None => Ok (unmatched row)
                  end);
      rest ← probe_hash combine unmatched build hash probe' idx;
      Ok (out ++ rest)
  end.
Definition hash_join combine unmatched (build : list Row) (build_idx : nat) (probe : list Row) (probe_idx : nat) : res (list Row) :=
  hash ← build_hash build build_idx 0 ∅; probe_hash combine unmatched build hash probe probe_idx.

Fixpoint hash_keys (rows : list Row) (idx : nat) (hash : gset bytes) : res (gset bytes) :=
  match rows with
  | [] => Ok hash
  | row :: rows' => v ← at_index row idx; hash_keys rows' idx (if is_null v then hash else {[typed_key v]} ∪ hash)
  end.
Fixpoint probe_keys (hash : gset bytes) (probe : list Row) (idx : nat) : res (list Row) :=
  match probe with
  | [] => Ok []
  | row :: probe' =>
      v ← at_index row idx;
      rest ← probe_keys hash probe' idx;
      Ok (if negb (is_null v) && bool_decide (typed_key v ∈ hash) then row :: rest else rest)
  end.
Definition hash_semi (build : list Row) (build_idx : nat) (probe : list Row) (probe_idx : nat) : res (list Row) :=
  hash ← hash_keys build build_idx ∅; probe_keys hash probe probe_idx.

Section Joins.
Context {S W R : Type} `{StdFns} `{SelectExec S R} `{OtherFunctions R}.
Abbreviation M := (ST (VM R)).

(** A column of the ON condition: by its qualified name, its name in lower
    case, its name. *)
Definition detect_column (col_map : ColMap) (table : option string) (column : string) : option nat :=
  match (t ← table; col_map !! qualified_key t column) with
  | Some i => Some i
  | None =>
      match col_map !! string_of_bytes (push_lower column) with
      | Some i => Some i
      | None => col_map !! column
      end
  end.
Definition detect_equi_join (on : option (Expr S W)) (col_map : ColMap) (left_col_count : nat) : option (nat * nat) :=
  match on with
  | Some (BinaryOp (ColumnRef lt lc) Equal (ColumnRef rt rc)) =>
      li ← detect_column col_map lt lc;
      ri ← detect_column col_map rt rc;
      if (li <? left_col_count)%nat && (left_col_count <=? ri)%nat then Some (li, (ri - left_col_count)%nat)
      else if (ri <? left_col_count)%nat && (left_col_count <=? li)%nat then Some (ri, (li - left_col_count)%nat)
      else None
  | _ => None
  end.

Definition on_matches (on : option (Expr S W)) (col_map : ColMap) (combined : Row) : M bool :=
  match on with
  | Some e => v ← eval_expr combined col_map e; mret (is_truthy v)
  | None => mret true
  end.

(** [for probe { for build { .. } if !matched { .. } }] *)
Definition nested_join (matches : Row → M bool) (combine : Row → Row → Row) (unmatched : Row → list Row)
    (probe build : list Row) : M (list Row) :=
  st_flat_map (λ p,
    out ← st_flat_map (λ b, include ← matches (combine p b); mret (if include : bool then [combine p b] else [])) build;
    mret (match out with [] => unmatched p | _ => out end)) probe.
(** The loop of a semi join, left at the first match. *)
Fixpoint any_match (matches : Row → M bool) (combine : Row → Row) (build : list Row) : M bool :=
  match build with
  | [] => mret false
  | b :: build' => hit ← matches (combine b); if hit : bool then mret true else any_match matches combine build'
  end.
Definition nested_semi (matches : Row → M bool) (combine : Row → Row → Row) (probe build : list Row) : M (list Row) :=
  st_flat_map (λ p, hit ← any_match matches (combine p) build; mret (if hit : bool then [p] else [])) probe.

(** FULL: the inner loop gives the rows and the updated flags of the right
    side. *)
Fixpoint full_inner (matches : Row → M bool) (l : Row) (rights : list Row) (flags : list bool) : M (list Row * list bool) :=
  match rights, flags with
  | r :: rights', flag :: flags' =>
      include ← matches (l ++ r);
      '(out, flags') ← full_inner matches l rights' flags';
      mret (if include : bool then ((l ++ r) :: out, true :: flags') else (out, flag :: flags'))
  | _, _ => mret ([], [])
  end.
Fixpoint full_outer (matches : Row → M bool) (null_right : Row) (lefts rights : list Row) (flags : list bool)
    : M (list Row * list bool) :=
  match lefts with
  | [] => mret ([], flags)
  | l :: lefts' =>
      '(out, flags) ← full_inner matches l rights flags;
      '(rest, flags) ← full_outer matches null_right lefts' rights flags;
      mret (match out with [] => [l ++ null_right] | _ => out end ++ rest, flags)
  end.
Definition full_join (matches : Row → M bool) (left_rows right_rows : list Row) (left_width right_width : nat) : M (list Row) :=
  '(out, right_matched) ←
    full_outer matches (replicate right_width VNull) left_rows right_rows (replicate (length right_rows) false);
  mret (out ++ mjoin (zip_with (λ (m : bool) r, if m then [] else [replicate left_width VNull ++ r]) right_matched right_rows)).

(** NATURAL: pairs of columns with the same name up to case. *)
Definition common_columns (left_cols right_cols : list string) : list (nat * nat) :=
  omap (λ '(li, lname), (λ p, (li, p.1)) <$> list_find (λ rname, eq_ignore_ascii_case rname lname) right_cols) (imap pair left_cols).
Fixpoint same_columns (common : list (nat * nat)) (l r : Row) : res bool :=
  match common with
  | [] => Ok true
  | (li, ri) :: common' =>
      x ← at_index l li; y ← at_index r ri;
      if value_eq x y then same_columns common' l r else Ok false
  end.
Definition not_shared {A} (common : list (nat * nat)) (l : list A) : list A :=
  map snd (filter (λ p, p.1 ∉ map snd common) (imap pair l)).
Definition natural_join (left_cols right_cols : list string) (left_rows right_rows : list Row) : M (list Row) :=
  let common := common_columns left_cols right_cols in
  st_flat_map (λ l,
    st_flat_map (λ r,
      same ← st_lift (same_columns common l r);
      mret (if same : bool then [l ++ not_shared common r] else [])) right_rows) left_rows.

(** The [match join_type]: the rows, given the column pair of a hash join, if
    any. *)
Definition join_rows (join_type : JoinType) (equi : option (nat * nat)) (on : option (Expr S W)) (col_map : ColMap)
    (left_cols right_cols : list string) (left_rows right_rows : list Row) : M (list Row) :=
  let matches := on_matches on col_map in
  let null_left := replicate (length left_cols) VNull in
  let null_right := replicate (length right_cols) VNull in
  let flip_app := λ r l : Row, l ++ r in
  match join_type, equi with
  | (Inner | Cross), Some (li, ri) => st_lift (hash_join app (λ _, []) right_rows ri left_rows li)
  | (Inner | Cross), None => nested_join matches app (λ _, []) left_rows right_rows
  | Left, Some (li, ri) => st_lift (hash_join app (λ l, [l ++ null_right]) right_rows ri left_rows li)
  | Left, None => nested_join matches app (λ l, [l ++ null_right]) left_rows right_rows
  | Right, Some (li, ri) => st_lift (hash_join flip_app (λ r, [null_left ++ r]) left_rows li right_rows ri)
  | Right, None => nested_join matches flip_app (λ r, [null_left ++ r]) right_rows left_rows
  | LeftSemi, Some (li, ri) => st_lift (hash_semi right_rows ri left_rows li)
  | LeftSemi, None => nested_semi matches app left_rows right_rows
  | RightSemi, Some (li, ri) => st_lift (hash_semi left_rows li right_rows ri)
  | RightSemi, None => nested_semi matches flip_app right_rows left_rows
  | Full, _ => full_join matches left_rows right_rows (length left_cols) (length right_cols)
  | Natural, _ => natural_join left_cols right_cols left_rows right_rows
  end.
Definition join_columns (join_type : JoinType) (left_cols right_cols : list string) : list string :=
  match join_type with
  | LeftSemi => left_cols
  | RightSemi => right_cols
  | Natural => left_cols ++ not_shared (common_columns left_cols right_cols) right_cols
  | _ => left_cols ++ right_cols
  end.
(** The branch of [eval_from]; [inject] adds the qualified names of both sides. *)
Definition eval_join (inject : list string → ColMap → ColMap) (join_type : JoinType) (on : option (Expr S W))
    (left right : list Row * list string) : M (list Row * list string) :=
  let '(left_rows, left_cols) := left in
  let '(right_rows, right_cols) := right in
  let combined_cols := left_cols ++ right_cols in
  let col_map := inject combined_cols (build_col_map combined_cols) in
  let equi := detect_equi_join on col_map (length left_cols) in
  rows ← join_rows join_type equi on col_map left_cols right_cols left_rows right_rows;
  mret (rows, join_columns join_type left_cols right_cols).
End Joins.

(** ** Reference definitions *)

(** For every row of [probe] its pairs with the rows of [build] that satisfy
    [hit], or what a row without a partner gives. *)
Definition pairs (hit : Row → Row → bool) (combine : Row → Row → Row) (unmatched : Row → list Row) (probe build : list Row) : list Row :=
  probe ≫= λ p, match List.filter (hit p) build with [] => unmatched p | bs => map (combine p) bs end.
Definition semi (hit : Row → Row → bool) (probe build : list Row) : list Row :=
  List.filter (λ p, existsb (hit p) build) probe.
(** The natural join: the pairs whose values agree, as SQL equality has it, in
    every two columns of one name up to case, without the columns of the right
    side that the left side has too. *)
Definition same_name (n m : string) : bool := String.eqb (to_ascii_lowercase n) (to_ascii_lowercase m).
Definition agree (left_cols right_cols : list string) (x y : Row) : bool :=
  forallb (λ '(n, v), forallb (λ '(m, w), implb (same_name n m) (negb (is_null v) && negb (is_null w) && value_eq v w))
    (zip right_cols y)) (zip left_cols x).
Definition right_only (left_cols right_cols : list string) (y : Row) : Row :=
  map snd (List.filter (λ '(m, _), negb (existsb (λ n, same_name n m) left_cols)) (zip right_cols y)).
(** The joins of relational algebra, over a predicate on the combined rows. *)
Definition join_spec (join_type : JoinType) (p : Row → bool) (left_cols right_cols : list string) (l r : list Row) : list Row :=
  let hit := λ x y, p (x ++ y) in
  let null_left := replicate (length left_cols) VNull in
  let null_right := replicate (length right_cols) VNull in
  match join_type with
  | Inner | Cross => pairs hit app (λ _, []) l r
  | Left => pairs hit app (λ x, [x ++ null_right]) l r
  | Right => pairs (λ y x, hit x y) (λ y x, x ++ y) (λ y, [null_left ++ y]) r l
  | LeftSemi => semi hit l r
  | RightSemi => semi (λ y x, hit x y) r l
  | Full =>
      pairs hit app (λ x, [x ++ null_right]) l r
      ++ map (app null_left) (List.filter (λ y, negb (existsb (λ x, hit x y) l)) r)
  | Natural => l ≫= λ x, map (λ y, x ++ right_only left_cols right_cols y) (List.filter (agree left_cols right_cols x) r)
  end.
(** Where NATURAL is that join: no two columns of the right side have one name,
    and no row of the left side has NULL in a column that both sides have (the
    code matches NULL with NULL). *)
Definition natural_scope (left_cols right_cols : list string) (l : list Row) : Prop :=
  NoDup (map to_ascii_lowercase right_cols)
  ∧ Forall (λ x, ∀ i n, left_cols !! i = Some n → to_ascii_lowercase n ∈ map to_ascii_lowercase right_cols → x !! i ≠ Some VNull) l.

(** ** Lemmas: hash tables *)

Definition cell (row : Row) (idx : nat) : Value := default VNull (row !! idx).
(** Two cells that a hash join brings together. *)
Definition same_key (a b : Value) : bool := negb (is_null a) && negb (is_null b) && bool_decide (typed_key b = typed_key a).
Definition has_column (idx : nat) (row : Row) : Prop := (idx < length row)%nat.
Lemma at_index_cell row idx : has_column idx row → at_index row idx = Ok (cell row idx).
Proof. intros Hr. unfold at_index, cell. destruct (lookup_lt_is_Some_2 row idx Hr) as [v ->]. done. Qed.

(** The indices, from [n], of the rows with key [k]. *)
Fixpoint positions (n : nat) (rows : list Row) (idx : nat) (k : bytes) : list nat :=
  match rows with
  | [] => []
  | row :: rows' =>
      if negb (is_null (cell row idx)) && bool_decide (typed_key (cell row idx) = k)
      then n :: positions (S n) rows' idx k else positions (S n) rows' idx k
  end.
Definition add_positions (h : option (list nat)) (ps : list nat) : option (list nat) :=
  match ps with [] => h | _ => Some (default [] h ++ ps) end.
Lemma build_hash_spec rows idx n hash : Forall (has_column idx) rows →
  ∃ hash', build_hash rows idx n hash = Ok hash' ∧ ∀ k, hash' !! k = add_positions (hash !! k) (positions n rows idx k).
Proof.
  intros Hr. revert n hash. induction Hr as [|row rows Hrow _ IH]; intros n hash; [by exists hash|].
  cbn [build_hash positions]. rewrite at_index_cell by done. cbn [mbind res_bind]. destruct (is_null (cell row idx)); [apply IH|].
  destruct (IH (S n) (<[typed_key (cell row idx) := default [] (hash !! typed_key (cell row idx)) ++ [n]]> hash)) as (hash' & He & Hk).
  exists hash'. split; [done|]. intros k. rewrite Hk. cbn [negb andb]. case_bool_decide as E.
  - rewrite <- E, lookup_insert_eq. unfold add_positions. destruct (positions (S n) rows idx _); [done|].
    simpl. by rewrite <- app_assoc.
  - by rewrite lookup_insert_ne.
Qed.
Lemma rows_at_positions pre rows idx k :
  rows_at (pre ++ rows) (positions (length pre) rows idx k)
  = Ok (List.filter (λ b, negb (is_null (cell b idx)) && bool_decide (typed_key (cell b idx) = k)) rows).
Proof.
  revert pre. induction rows as [|row rows IH]; intros pre; [done|]. cbn [positions List.filter].
  specialize (IH (pre ++ [row])). rewrite length_app, <- app_assoc in IH. cbn [length app] in IH. rewrite Nat.add_1_r in IH.
  destruct (negb _ && _); [|done]. cbn [rows_at]. unfold at_index. rewrite list_lookup_middle by done. cbn [mbind res_bind].
  by rewrite IH.
Qed.
Lemma filter_same_key a build bi :
  List.filter (λ b, same_key a (cell b bi)) build
  = if is_null a then [] else List.filter (λ b, negb (is_null (cell b bi)) && bool_decide (typed_key (cell b bi) = typed_key a)) build.
Proof. unfold same_key. destruct (is_null a); [|done]. cbn. by induction build. Qed.
Lemma hash_join_pairs combine unmatched build bi probe pi : Forall (has_column bi) build → Forall (has_column pi) probe →
  hash_join combine unmatched build bi probe pi
  = Ok (pairs (λ p b, same_key (cell p pi) (cell b bi)) combine unmatched probe build).
Proof.
  intros Hb Hp. unfold hash_join. destruct (build_hash_spec build bi 0 ∅ Hb) as (hash & -> & Hk). cbn [mbind res_bind].
  induction Hp as [|p probe Hrow _ IH]; [done|]. cbn [probe_hash]. rewrite at_index_cell, IH by done. cbn [mbind res_bind].
  unfold pairs. cbn [mbind list_bind]. fold (pairs (λ p b, same_key (cell p pi) (cell b bi)) combine unmatched probe build).
  rewrite filter_same_key. destruct (is_null (cell p pi)); [done|].
  rewrite Hk, lookup_empty. pose proof (rows_at_positions [] build bi (typed_key (cell p pi))) as Hr. cbn [app length] in Hr.
  destruct (positions 0 build bi (typed_key (cell p pi))) as [|i ps] eqn:E; cbn [add_positions default].
  - injection Hr as Hr. by rewrite <- Hr.
  - cbn [app]. rewrite Hr. cbn. destruct (List.filter _ build) eqn:Ef; [|done].
    cbn [rows_at] in Hr. destruct (at_index build i); [|done..]. cbn in Hr. by destruct (rows_at build ps).
Qed.
Lemma hash_semi_spec build bi probe pi : Forall (has_column bi) build → Forall (has_column pi) probe →
  hash_semi build bi probe pi = Ok (semi (λ p b, same_key (cell p pi) (cell b bi)) probe build).
Proof.
  intros Hb Hp. unfold hash_semi.
  assert (∀ hash, ∃ hash', hash_keys build bi hash = Ok hash' ∧ ∀ k, k ∈ hash' ↔
    k ∈ hash ∨ existsb (λ b, negb (is_null (cell b bi)) && bool_decide (typed_key (cell b bi) = k)) build = true) as Hh.
  { induction Hb as [|row rows Hrow _ IH]; intros hash.
    - exists hash. split; [done|]. intros k. cbn. naive_solver.
    - cbn [hash_keys existsb]. rewrite at_index_cell by done. cbn [mbind res_bind].
      destruct (IH (if is_null (cell row bi) then hash else {[typed_key (cell row bi)]} ∪ hash)) as (hash' & He & Hk).
      exists hash'. split; [done|]. intros k. rewrite Hk, orb_true_iff, andb_true_iff, bool_decide_eq_true.
      destruct (is_null (cell row bi)); cbn [negb]; [|set_solver]. naive_solver. }
  destruct (Hh ∅) as (hash & -> & Hk). cbn [mbind res_bind].
  induction Hp as [|p probe Hrow _ IH]; [done|]. cbn [probe_keys]. rewrite at_index_cell, IH by done. cbn [mbind res_bind].
  unfold semi. cbn [List.filter]. f_equal.
  assert (existsb (λ b, same_key (cell p pi) (cell b bi)) build = negb (is_null (cell p pi)) && bool_decide (typed_key (cell p pi) ∈ hash)) as ->.
  { unfold same_key. destruct (is_null (cell p pi)); cbn [negb andb]; [clear; by induction build|]. apply eq_true_iff_eq.
    rewrite bool_decide_eq_true, Hk. set_solver. }
  by destruct (_ && _).
Qed.

(** ** Lemmas: nested loops *)

Lemma bind_if_filter {A B} (f : A → B) (p : A → bool) l : (l ≫= λ x, if p x then [f x] else []) = map f (List.filter p l).
Proof. induction l as [|x l IH]; [done|]. cbn [mbind list_bind List.filter] in *. rewrite IH. by destruct (p x). Qed.
Lemma list_filter_ext_in {A} (p q : A → bool) l : (∀ x, x ∈ l → p x = q x) → List.filter p l = List.filter q l.
Proof.
  induction l as [|x l IH]; intros Hpq; [done|]. cbn [List.filter]. rewrite Hpq by left.
  rewrite IH by (intros y Hy; apply Hpq; by right). done.
Qed.
Lemma existsb_ext_in {A} (p q : A → bool) l : (∀ x, x ∈ l → p x = q x) → existsb p l = existsb q l.
Proof.
  induction l as [|x l IH]; intros Hpq; [done|]. cbn [existsb]. rewrite Hpq by left.
  rewrite IH by (intros y Hy; apply Hpq; by right). done.
Qed.
Lemma bind_ext_in {A B} (f g : A → list B) l : (∀ x, x ∈ l → f x = g x) → l ≫= f = l ≫= g.
Proof.
  induction l as [|x l IH]; intros Hfg; [done|]. cbn [mbind list_bind] in *. rewrite Hfg by left.
  rewrite IH by (intros y Hy; apply Hfg; by right). done.
Qed.
Lemma pairs_ext hit hit' combine unmatched probe build :
  (∀ p b, p ∈ probe → b ∈ build → hit p b = hit' p b) → pairs hit combine unmatched probe build = pairs hit' combine unmatched probe build.
Proof.
  intros Hh. unfold pairs. apply bind_ext_in. intros p Hp. by rewrite (list_filter_ext_in (hit p) (hit' p)) by auto.
Qed.
Lemma semi_ext hit hit' probe build :
  (∀ p b, p ∈ probe → b ∈ build → hit p b = hit' p b) → semi hit probe build = semi hit' probe build.
Proof. intros Hh. unfold semi. apply list_filter_ext_in. intros p Hp. apply existsb_ext_in. auto. Qed.

Section Loops.
Context {R : Type} (matches : Row → ST (VM R) bool) (p : Row → bool) (s : VM R).

Lemma nested_join_pairs combine unmatched probe build :
  (∀ x b, x ∈ probe → b ∈ build → matches (combine x b) s = (Ok (p (combine x b)), s)) →
  nested_join matches combine unmatched probe build s
  = (Ok (pairs (λ x b, p (combine x b)) combine unmatched probe build), s).
Proof.
  intros Hm. unfold nested_join, pairs. apply st_flat_map_pure. intros x Hx. rewrite ST_bind_unfold.
  rewrite (st_flat_map_pure _ (λ b, if p (combine x b) then [combine x b] else [])).
  - rewrite (bind_if_filter (combine x) (λ b, p (combine x b))). by destruct (List.filter _ build).
  - intros b Hb. rewrite ST_bind_unfold, Hm by done. done.
Qed.
Lemma nested_semi_spec combine probe build :
  (∀ x b, x ∈ probe → b ∈ build → matches (combine x b) s = (Ok (p (combine x b)), s)) →
  nested_semi matches combine probe build s = (Ok (semi (λ x b, p (combine x b)) probe build), s).
Proof.
  intros Hm. unfold nested_semi, semi.
  rewrite (st_flat_map_pure _ (λ x, if existsb (λ b, p (combine x b)) build then [x] else [])).
  - rewrite (bind_if_filter id). by rewrite map_id.
  - intros x Hx. rewrite ST_bind_unfold.
    assert (any_match matches (combine x) build s = (Ok (existsb (λ b, p (combine x b)) build), s)) as ->; [|done].
    assert (∀ b, b ∈ build → matches (combine x b) s = (Ok (p (combine x b)), s)) as Hb by auto. clear Hm.
    induction build as [|b bs IH]; [done|]. cbn [any_match existsb]. rewrite ST_bind_unfold, Hb by left.
    destruct (p (combine x b)); [done|]. apply IH. intros c Hc. apply Hb. by right.
Qed.
Lemma full_inner_spec l rights flags : length flags = length rights →
  (∀ y, y ∈ rights → matches (l ++ y) s = (Ok (p (l ++ y)), s)) →
  full_inner matches l rights flags s
  = (Ok (map (app l) (List.filter (λ y, p (l ++ y)) rights), zip_with (λ y f, p (l ++ y) || f) rights flags), s).
Proof.
  revert flags. induction rights as [|y ys IH]; intros [|f fs] Hl Hm; try done. cbn [full_inner].
  rewrite ST_bind_unfold, Hm by left. rewrite ST_bind_unfold, IH by (first [by injection Hl|intros z Hz; apply Hm; by right]).
  cbn [List.filter zip_with]. by destruct (p (l ++ y)).
Qed.
Lemma full_outer_spec null_right lefts rights flags : length flags = length rights →
  (∀ x y, x ∈ lefts → y ∈ rights → matches (x ++ y) s = (Ok (p (x ++ y)), s)) →
  full_outer matches null_right lefts rights flags s
  = (Ok (pairs (λ x y, p (x ++ y)) app (λ x, [x ++ null_right]) lefts rights,
         zip_with (λ y f, existsb (λ x, p (x ++ y)) lefts || f) rights flags), s).
Proof.
  revert flags. induction lefts as [|x xs IH]; intros flags Hl Hm.
  { cbn [full_outer existsb orb]. assert (zip_with (λ (_ : Row) (f : bool), f) rights flags = flags) as ->; [|done].
    clear -Hl. revert flags Hl. induction rights as [|y ys IH]; intros [|f fs] Hl; try done. cbn [zip_with]. f_equal.
    apply IH. by injection Hl. }
  cbn [full_outer]. rewrite ST_bind_unfold, full_inner_spec by (first [done|intros y Hy; apply Hm; [left|done]]).
  rewrite ST_bind_unfold, IH.
  - unfold pairs at 2. cbn [mbind list_bind]. fold (pairs (λ x y, p (x ++ y)) app (λ x, [x ++ null_right]) xs rights).
    assert (zip_with (λ y f, existsb (λ x, p (x ++ y)) xs || f) rights (zip_with (λ y f, p (x ++ y) || f) rights flags)
      = zip_with (λ y f, existsb (λ x, p (x ++ y)) (x :: xs) || f) rights flags) as ->; [|by destruct (List.filter _ rights)].
    clear -Hl. revert flags Hl. induction rights as [|y ys IH]; intros [|f fs] Hl; try done. cbn [zip_with existsb].
    f_equal; [|apply IH; by injection Hl]. by destruct (p (x ++ y)), (existsb _ xs).
  - rewrite length_zip_with. lia.
  - intros x' y Hx Hy. apply Hm; [by right|done].
Qed.
Lemma full_join_spec l r lw rw : (∀ x y, x ∈ l → y ∈ r → matches (x ++ y) s = (Ok (p (x ++ y)), s)) →
  full_join matches l r lw rw s
  = (Ok (pairs (λ x y, p (x ++ y)) app (λ x, [x ++ replicate rw VNull]) l r
         ++ map (app (replicate lw VNull)) (List.filter (λ y, negb (existsb (λ x, p (x ++ y)) l)) r)), s).
Proof.
  intros Hm. unfold full_join. rewrite ST_bind_unfold, full_outer_spec by (first [apply length_replicate|done]).
  cbv beta iota. set (out := pairs _ _ _ l r). clearbody out. clear Hm.
  assert (mjoin (zip_with (λ (m : bool) r, if m then [] else [replicate lw VNull ++ r])
      (zip_with (λ y f, existsb (λ x, p (x ++ y)) l || f) r (replicate (length r) false)) r)
    = map (app (replicate lw VNull)) (List.filter (λ y, negb (existsb (λ x, p (x ++ y)) l)) r)) as ->; [|done].
  induction r as [|y ys IH]; [done|]. cbn [length replicate zip_with List.filter].
  rewrite orb_false_r. match goal with |- mjoin (?a :: ?b) = _ => change (a ++ mjoin b = map (app (replicate lw VNull))
    (if negb (existsb (λ x, p (x ++ y)) l) then y :: List.filter (λ y, negb (existsb (λ x, p (x ++ y)) l)) ys
     else List.filter (λ y, negb (existsb (λ x, p (x ++ y)) l)) ys)) end. rewrite IH. by destruct (existsb _ l).
Qed.
End Loops.
Lemma same_columns_spec common l r : Forall (λ '(li, ri), has_column li l ∧ has_column ri r) common →
  same_columns common l r = Ok (forallb (λ '(li, ri), value_eq (cell l li) (cell r ri)) common).
Proof.
  induction 1 as [|[li ri] common [Hl Hr] _ IH]; [done|]. cbn [same_columns forallb].
  rewrite !at_index_cell by done. cbn [mbind res_bind]. by destruct (value_eq _ _).
Qed.
Lemma common_columns_bounds lc rc : Forall (λ '(li, ri), (li < length lc)%nat ∧ (ri < length rc)%nat) (common_columns lc rc).
Proof.
  apply Forall_forall. intros [li ri]. unfold common_columns. rewrite list_elem_of_omap.
  intros ([i n] & Hi & Hp). apply elem_of_lookup_imap in Hi as (i' & n' & [= -> ->] & Hi).
  destruct (list_find _ rc) as [[j m]|] eqn:E; [|done]. simpl in Hp. injection Hp as -> ->.
  apply list_find_Some in E as (E & _). split; by eapply lookup_lt_Some.
Qed.
(** With different names on the right, the pairs of columns found are all
    those of one name. *)
Lemma elem_of_common_columns lc rc i j : NoDup (map to_ascii_lowercase rc) →
  (i, j) ∈ common_columns lc rc ↔ ∃ n m, lc !! i = Some n ∧ rc !! j = Some m ∧ to_ascii_lowercase n = to_ascii_lowercase m.
Proof.
  intros Hd. unfold common_columns. rewrite list_elem_of_omap. split.
  - intros ([i' n] & Hi & Hp). apply elem_of_lookup_imap in Hi as (i2 & n2 & [= -> ->] & Hi).
    destruct (list_find _ rc) as [[j' m]|] eqn:E; [|done]. simpl in Hp. injection Hp as -> ->.
    apply list_find_Some in E as (E & Hm & _). exists n2, m. split_and!; [done..|]. symmetry. by apply String.eqb_eq, Is_true_true.
  - intros (n & m & Hi & Hj & He). exists (i, n). split; [apply elem_of_lookup_imap; by eauto|].
    destruct (list_find (λ rname, eq_ignore_ascii_case rname n) rc) as [[j' m']|] eqn:E.
    + apply list_find_Some in E as (E & Hm & _). simpl. do 2 f_equal. apply Is_true_true, String.eqb_eq in Hm.
      eapply (NoDup_lookup _ _ _ _ Hd); rewrite list_lookup_fmap; [by rewrite E|]. rewrite Hj. simpl. congruence.
    + eapply list_find_None in E. rewrite Forall_forall in E. destruct (E m); [by eapply list_elem_of_lookup_2|].
      apply Is_true_true, String.eqb_eq. congruence.
Qed.
Lemma filter_imap_zip {A B} (P : nat → Prop) `{∀ j, Decision (P j)} (q : B → bool) (l : list A) : ∀ k (cols : list B),
  length l = length cols → (∀ j m, cols !! j = Some m → P (k + j)%nat ↔ q m = true) →
  map snd (filter (λ p, P p.1) (imap (λ j v, (k + j, v)%nat) l)) = map snd (List.filter (λ '(m, _), q m) (zip cols l)).
Proof.
  induction l as [|v l IH]; intros k [|m cols] Hl Hq; try done. rewrite imap_cons. cbn [zip_with List.filter].
  assert (imap ((λ j v, (k + j, v)%nat) ∘ Datatypes.S) l = imap (λ j v, (Datatypes.S k + j, v)%nat) l) as ->.
  { apply imap_ext. intros j w _. cbn. f_equal. lia. }
  assert (map snd (filter (λ p, P p.1) (imap (λ j v, (Datatypes.S k + j, v)%nat) l)) = map snd (List.filter (λ '(m, _), q m) (zip cols l))) as IH'.
  { apply IH; [by injection Hl|]. intros j m' Hm. rewrite <- (Hq (Datatypes.S j) m' Hm).
    by replace (Datatypes.S k + j)%nat with (k + Datatypes.S j)%nat by lia. }
  specialize (Hq 0%nat m eq_refl). rewrite filter_cons. cbn [fst snd].
  destruct (decide (P (k + 0)%nat)) as [Hp|Hp]; destruct (q m); try naive_solver. cbn [map]. by rewrite IH'.
Qed.
Lemma not_shared_right_only lc rc (y : Row) : NoDup (map to_ascii_lowercase rc) → length y = length rc →
  not_shared (common_columns lc rc) y = right_only lc rc y.
Proof.
  intros Hd Hy. unfold not_shared, right_only.
  rewrite <- (filter_imap_zip (λ j, j ∉ map snd (common_columns lc rc)) (λ m, negb (existsb (λ n, same_name n m) lc)) y 0 rc);
    [f_equal; by apply list_filter_iff|done|].
  intros j m Hm. rewrite negb_true_iff, <- not_true_iff_false, existsb_exists. apply not_iff_compat. rewrite list_elem_of_fmap. split.
  - intros ([i' j'] & Hj & Hin). cbn in Hj. subst j'. apply elem_of_common_columns in Hin as (n & m' & Hn & Hm' & He); [|done].
    rewrite Hm in Hm'. injection Hm' as <-. exists n. split; [apply list_elem_of_In; by eapply list_elem_of_lookup_2|]. by apply String.eqb_eq.
  - intros (n & Hn & He). apply list_elem_of_In, list_elem_of_lookup in Hn as [i Hi]. apply String.eqb_eq in He.
    exists (i, j). split; [done|]. apply elem_of_common_columns; [done|]. by eauto.
Qed.
Lemma value_eq_not_null a b : value_eq a b = true → is_null a = false → is_null b = false.
Proof. by destruct a, b. Qed.
Lemma common_agree lc rc (x y : Row) : NoDup (map to_ascii_lowercase rc) → length x = length lc → length y = length rc →
  (∀ i n, lc !! i = Some n → to_ascii_lowercase n ∈ map to_ascii_lowercase rc → x !! i ≠ Some VNull) →
  forallb (λ '(li, ri), value_eq (cell x li) (cell y ri)) (common_columns lc rc) = agree lc rc x y.
Proof.
  intros Hd Hx Hy Hn. apply eq_true_iff_eq. unfold agree. rewrite !forallb_forall. split.
  - intros Hc [n v] Hi. apply list_elem_of_In, list_elem_of_lookup in Hi as [i Hi]. apply forallb_forall.
    intros [m w] Hj. apply list_elem_of_In, list_elem_of_lookup in Hj as [j Hj].
    apply lookup_zip_with_Some in Hi as (? & ? & [= <- <-] & Hn' & Hv). apply lookup_zip_with_Some in Hj as (? & ? & [= <- <-] & Hm & Hw).
    destruct (same_name n m) eqn:E; [|done]. apply String.eqb_eq in E.
    assert ((i, j) ∈ common_columns lc rc) as Hin by (apply elem_of_common_columns; eauto).
    specialize (Hc (i, j) ltac:(by apply list_elem_of_In)). cbn in Hc. unfold cell in Hc. rewrite Hv, Hw in Hc. cbn in Hc.
    assert (is_null v = false) as Hnv.
    { destruct v; try done. exfalso. apply (Hn i n Hn'); [|done]. rewrite E. apply list_elem_of_fmap. exists m. split; [done|]. by eapply list_elem_of_lookup_2. }
    by rewrite Hc, Hnv, (value_eq_not_null v w).
  - intros Ha [i j] Hin. apply list_elem_of_In in Hin. apply elem_of_common_columns in Hin as (n & m & Hi & Hj & He); [|done]. unfold cell.
    destruct (x !! i) as [v|] eqn:Ev; [|apply lookup_ge_None in Ev; apply lookup_lt_Some in Hi; lia].
    destruct (y !! j) as [w|] eqn:Ew; [|apply lookup_ge_None in Ew; apply lookup_lt_Some in Hj; lia]. cbn.
    assert (∀ (A B : Type) (l : list A) (k : list B) a b p, l !! p = Some a → k !! p = Some b → In (a, b) (zip l k)) as Hzip.
    { intros A B l k a b p Hl Hk. apply list_elem_of_In, (list_elem_of_lookup_2 _ p). rewrite lookup_zip_with, Hl, Hk. done. }
    specialize (Ha (n, v) (Hzip _ _ _ _ _ _ _ Hi Ev)). cbn in Ha. rewrite forallb_forall in Ha.
    specialize (Ha (m, w) (Hzip _ _ _ _ _ _ _ Hj Ew)). cbn in Ha. unfold same_name in Ha. rewrite He, String.eqb_refl in Ha. cbn in Ha.
    by apply andb_true_iff in Ha as [_ Ha].
Qed.

(** ** Lemmas: the equality of ON *)

(** Names of ASCII characters are written the same as bytes and as characters. *)
Definition ascii_name (s : string) : Prop := Forall (λ b, b < 0x80) (bytes_of_string s).
Lemma string_of_bytes_of_string s : string_of_bytes (bytes_of_string s) = s.
Proof.
  unfold string_of_bytes. induction s as [|c s IH]; [done|]. cbn [bytes_of_string foldr].
  by rewrite IH, Nat2Z.id, Ascii.ascii_nat_embedding.
Qed.
Lemma push_lower_ascii s : ascii_name s → string_of_bytes (push_lower s) = to_ascii_lowercase s.
Proof.
  intros Hs. rewrite <- (string_of_bytes_of_string (to_ascii_lowercase s)), <- lower_bytes_string. f_equal. unfold push_lower.
  induction Hs as [|b l Hb _ IH]; [done|]. change (lower_bytes (b :: l)) with ((if (65 <=? b) && (b <=? 90) then b + 32 else b) :: lower_bytes l).
  change (mjoin (map utf8_encode (?c :: ?k))) with (utf8_encode c ++ mjoin (map utf8_encode k)). rewrite IH.
  unfold utf8_encode. destruct (Z.ltb_spec (if (65 <=? b) && (b <=? 90) then b + 32 else b) 0x80); [done|].
  destruct ((65 <=? b) && (b <=? 90)) eqn:E; lia.
Qed.
Lemma value_eq_no_real a b : key_ok a → key_ok b → value_eq a b = bool_decide (a = b).
Proof.
  intros Ha Hb. apply eq_true_iff_eq. rewrite bool_decide_eq_true.
  destruct a as [|z|r|t|l], b as [|z'|r'|t'|l']; cbn [key_ok value_eq] in *; try (by destruct Ha); try (by destruct Hb); try done.
  - rewrite Z.eqb_eq. split; congruence.
  - rewrite bool_decide_eq_true. split; congruence.
  - rewrite bool_decide_eq_true. split; congruence.
Qed.
Lemma equal_same_key `{StdFns} a b : key_ok a → key_ok b →
  is_truthy (apply_binary_op Equal a b) = same_key a b ∧ same_key a b = same_key b a.
Proof.
  intros Ha Hb. unfold apply_binary_op, same_key.
  assert (bool_decide (typed_key b = typed_key a) = bool_decide (a = b) ∧ bool_decide (typed_key a = typed_key b) = bool_decide (a = b))
    as [-> ->].
  { split; apply bool_decide_ext; (split; [intros E; apply typed_key_inj in E; congruence|by intros ->]). }
  rewrite value_eq_no_real by done. destruct (is_null a), (is_null b); [done..|]. split; [|done]. by destruct (bool_decide _).
Qed.

Section OnEval.
Context {S W R : Type} `{StdFns} `{SelectExec S R} `{OtherFunctions R}.

Lemma detect_column_resolves row (cm : ColMap) table column i :
  keys_lower (row, cm) → ascii_name column → detect_column cm table column = Some i →
  resolve_column row cm [] table column = Ok (cell row i).
Proof.
  intros Hk Ha. unfold detect_column, resolve_column. cbv zeta. rewrite push_lower_ascii by done.
  assert (match cm !! to_ascii_lowercase column with Some i => Some i | None => cm !! column end = Some i →
    match lookup_cell (row, cm) column with
    | Some v => Ok v
    | None => match (if String.eqb (to_ascii_lowercase column) column then None else lookup_cell (row, cm) (to_ascii_lowercase column)) with
              | Some v => Ok v
              | None => match lookup_scopes [column; to_ascii_lowercase column] (rev []) with Some v => Ok v | None => Err (ColumnNotFound column) end
              end
    end = Ok (cell row i)) as Hplain.
  { intros Hl. destruct (String.eqb_spec (to_ascii_lowercase column) column) as [E|E].
    - unfold lookup_cell. cbn. rewrite E in Hl. destruct (cm !! column) as [j|]; [|done]. by injection Hl as ->.
    - rewrite (lookup_not_lower (row, cm) column Hk E). unfold lookup_cell. cbn.
      destruct (cm !! to_ascii_lowercase column) as [j|]; [by injection Hl as ->|].
      exfalso. by apply Hk in Hl. }
  destruct table as [t|]; cbn [mbind option_bind]; [|exact Hplain].
  unfold lookup_scopes at 1. cbn [rev app foldr lookup_keys]. unfold lookup_cell at 1. cbn [fst snd].
  destruct (cm !! qualified_key t column) as [j|]; cbn [mbind option_bind]; [by intros [= ->]|exact Hplain].
Qed.

(** What the condition of a hash join evaluates to. *)
Lemma on_matches_equi (on : option (Expr S W)) cm nl li ri (x y : Row) (s : VM R) :
  map_Forall (λ key _, to_ascii_lowercase key = key) cm →
  (∀ lt lc rt rc, on = Some (BinaryOp (ColumnRef lt lc) Equal (ColumnRef rt rc)) → ascii_name lc ∧ ascii_name rc) →
  outer_rows s = [] → detect_equi_join on cm nl = Some (li, ri) → length x = nl →
  key_ok (cell x li) → key_ok (cell y ri) →
  on_matches on cm (x ++ y) s = (Ok (same_key (cell x li) (cell y ri)), s).
Proof.
  intros Hk Hnames Hs Hd Hx Hxl Hyr. unfold detect_equi_join in Hd. repeat (case_match; try done). simplify_eq.
  destruct (Hnames _ _ _ _ eq_refl) as [Ha1 Ha2].
  destruct (detect_column cm table column) as [i|] eqn:E1; [|done]. destruct (detect_column cm table0 column0) as [j|] eqn:E2; [|done].
  cbn [mbind option_bind] in Hd. unfold on_matches. rewrite ST_bind_unfold. cbn [eval_expr]. rewrite ST_bind_unfold.
  unfold st_gets at 1. rewrite Hs, (detect_column_resolves _ _ _ _ _ (Hk : keys_lower (x ++ y, cm)) Ha1 E1).
  rewrite ST_bind_unfold. unfold st_gets at 1. rewrite Hs, (detect_column_resolves _ _ _ _ _ (Hk : keys_lower (x ++ y, cm)) Ha2 E2).
  assert (∀ k, (k < length x)%nat → cell (x ++ y) k = cell x k) as Hl by (intros k Hlt; unfold cell; by rewrite lookup_app_l).
  assert (∀ k, (length x ≤ k)%nat → cell (x ++ y) k = cell y (k - length x)) as Hr by (intros k Hge; unfold cell; by rewrite lookup_app_r).
  destruct ((i <? length x)%nat && (length x <=? j)%nat) eqn:E.
  - apply andb_prop in E as [Ei%Nat.ltb_lt Ej%Nat.leb_le]. injection Hd as <- <-. rewrite Hl, Hr by done.
    cbn. by rewrite (proj1 (equal_same_key _ _ Hxl Hyr)).
  - destruct ((j <? length x)%nat && (length x <=? i)%nat) eqn:E'; [|done].
    apply andb_prop in E' as [Ej%Nat.ltb_lt Ei%Nat.leb_le]. injection Hd as <- <-. rewrite (Hr i), (Hl j) by done.
    cbn. destruct (equal_same_key _ _ Hyr Hxl) as [-> ->]. done.
Qed.
End OnEval.

(** ** Properties *)

Section JoinProperties.
Context {S W R : Type} `{StdFns} `{SelectExec S R} `{OtherFunctions R}.

(** [C33] The nested loops of the joins compute, in the order of the rows, the
    join of relational algebra over the predicate that the condition evaluates
    to, and leave the state alone: inner, cross, left, right, full and the two
    semi-joins; and NATURAL the natural join, when the columns of the right
    side have different names and no row of the left side has NULL in a column
    that both sides have. *)
Theorem nested_joins_correct (jt : JoinType) (on : option (Expr S W)) (cm : ColMap) (lc rc : list string) (l r : list Row)
    (p : Row → bool) (s : VM R)
    (Hl : Forall (λ x, length x = length lc) l) (Hr : Forall (λ y, length y = length rc) r)
    (Hp : ∀ x y, x ∈ l → y ∈ r → on_matches on cm (x ++ y) s = (Ok (p (x ++ y)), s))
    (Hnatural : jt = Natural → natural_scope lc rc l) :
  join_rows jt None on cm lc rc l r s = (Ok (join_spec jt p lc rc l r), s).
Proof.
  destruct jt; cbn [join_rows join_spec].
  - apply (nested_join_pairs _ p). exact Hp.
  - apply (nested_join_pairs _ p). exact Hp.
  - apply (nested_join_pairs _ p s (λ y x, x ++ y)). auto.
  - apply (nested_join_pairs _ p). exact Hp.
  - apply (nested_semi_spec _ p). exact Hp.
  - apply (nested_semi_spec _ p s (λ y x, x ++ y)). auto.
  - apply (full_join_spec _ p). exact Hp.
  - destruct (Hnatural eq_refl) as [Hd Hn]. rewrite Forall_forall in Hl, Hr, Hn. unfold natural_join.
    apply st_flat_map_pure. intros x Hx. rewrite (st_flat_map_pure _ (λ y, if agree lc rc x y then [x ++ right_only lc rc y] else [])).
    + do 2 f_equal. apply (bind_if_filter (λ y, x ++ right_only lc rc y)).
    + intros y Hy. rewrite ST_bind_unfold. unfold st_lift. rewrite same_columns_spec; [rewrite common_agree, not_shared_right_only by eauto; done|].
      eapply Forall_impl; [apply common_columns_bounds|]. intros [li ri] [Hli Hri]. unfold has_column. by rewrite Hl, Hr.
Qed.

(** [C32] A hash join gives the rows of the nested loop it replaces, in the same
    order: for an ON condition that is an equality of a column of each side,
    outside a correlated subquery, on columns of ASCII names and without
    doubles. *)
Theorem hash_join_equals_nested_loop (jt : JoinType) (on : option (Expr S W)) (cm : ColMap) (lc rc : list string) (l r : list Row)
    (li ri : nat) (s : VM R)
    (Hcm : map_Forall (λ key _, to_ascii_lowercase key = key) cm)
    (Hnames : ∀ lt lc' rt rc', on = Some (BinaryOp (ColumnRef lt lc') Equal (ColumnRef rt rc')) → ascii_name lc' ∧ ascii_name rc')
    (Houter : outer_rows s = []) (Hequi : detect_equi_join on cm (length lc) = Some (li, ri))
    (Hl : Forall (λ x, length x = length lc ∧ has_column li x ∧ key_ok (cell x li)) l)
    (Hr : Forall (λ y, length y = length rc ∧ has_column ri y ∧ key_ok (cell y ri)) r) :
  join_rows jt (Some (li, ri)) on cm lc rc l r s = join_rows jt None on cm lc rc l r s.
Proof.
  assert (∀ x y, x ∈ l → y ∈ r → on_matches on cm (x ++ y) s = (Ok (same_key (cell x li) (cell y ri)), s)) as Hon.
  { rewrite Forall_forall in Hl, Hr. intros x y Hx Hy. eapply on_matches_equi; try done; [by apply Hl|by apply Hl|by apply Hr]. }
  set (p := λ row, match on_matches on cm row s with (Ok b, _) => b | _ => false end).
  assert (∀ x y, x ∈ l → y ∈ r → p (x ++ y) = same_key (cell x li) (cell y ri) ∧ same_key (cell x li) (cell y ri) = same_key (cell y ri) (cell x li)) as Hp.
  { intros x y Hx Hy. split; [by unfold p; rewrite Hon|]. rewrite Forall_forall in Hl, Hr. apply equal_same_key; [by apply Hl|by apply Hr]. }
  assert (Forall (has_column li) l ∧ Forall (has_column ri) r) as [Hcl Hcr].
  { split; (eapply Forall_impl; [first [exact Hl|exact Hr]|]); cbn; tauto. }
  assert (∀ x y, x ∈ l → y ∈ r → on_matches on cm (x ++ y) s = (Ok (p (x ++ y)), s)) as Hop.
  { intros x y Hx Hy. destruct (Hp x y Hx Hy) as [-> _]. by apply Hon. }
  destruct jt; [| | | | | |reflexivity|reflexivity]; cbn [join_rows]; unfold st_lift; rewrite ?hash_join_pairs, ?hash_semi_spec by done;
    symmetry.
  1, 2, 4: rewrite (nested_join_pairs _ p) by exact Hop; do 2 f_equal; apply pairs_ext; intros x y Hx Hy; apply (Hp x y Hx Hy).
  - rewrite (nested_join_pairs _ p s (λ y x, x ++ y)) by auto. do 2 f_equal. apply pairs_ext. intros y x Hy Hx.
    by destruct (Hp x y Hx Hy) as [-> ->].
  - rewrite (nested_semi_spec _ p) by exact Hop. do 2 f_equal. apply semi_ext. intros x y Hx Hy. apply (Hp x y Hx Hy).
  - rewrite (nested_semi_spec _ p s (λ y x, x ++ y)) by auto. do 2 f_equal. apply semi_ext. intros y x Hy Hx.
    by destruct (Hp x y Hx Hy) as [-> ->].
Qed.
End JoinProperties.

(** *** Instances and divergences *)

Section Samples.
#[local] Existing Instance ascii_std.
#[local] Existing Instance count_select.
#[local] Existing Instance no_functions.
Definition sample_state : VM unit := mkVM unit [] [] None 0 ∅ ().
Definition people : list string := ["id"; "name"]%string.
Definition orders : list string := ["owner"; "Total"]%string.
Definition sample_map : ColMap := build_col_map (people ++ orders).
Definition on_owner : option (Expr nat unit) := Some (BinaryOp (ColumnRef None "OWNER") Equal (ColumnRef None "id")).

Lemma nested_joins_correct_witness :
  join_rows (S:=nat) (W:=unit) Natural None None ∅ ["a"; "k"]%string ["K"; "b"]%string
    [[VInteger 1; VInteger 7]; [VNull; VInteger 8]] [[VInteger 7; VText [97]]; [VInteger 7; VNull]; [VNull; VNull]] sample_state
  = (Ok [[VInteger 1; VInteger 7; VText [97]]; [VInteger 1; VInteger 7; VNull]], sample_state) ∧
  join_rows Left None on_owner sample_map people orders [[VInteger 1; VText [97]]; [VNull; VText [98]]]
    [[VInteger 1; VInteger 10]; [VInteger 1; VNull]] sample_state
  = (Ok [[VInteger 1; VText [97]; VInteger 1; VInteger 10]; [VInteger 1; VText [97]; VInteger 1; VNull];
         [VNull; VText [98]; VNull; VNull]], sample_state).
Proof.
  split.
  { rewrite (nested_joins_correct (S:=nat) (W:=unit) Natural None ∅ ["a"; "k"]%string ["K"; "b"]%string _ _ (λ _, true) sample_state).
    - vm_compute. reflexivity.
    - repeat (constructor; [reflexivity|]). constructor.
    - repeat (constructor; [reflexivity|]). constructor.
    - intros x y _ _. reflexivity.
    - intros _. split; [apply (bool_decide_unpack _); vm_compute; exact I|].
      repeat (constructor; [intros [|[|i]] n Hn Hin; try discriminate Hn; try discriminate|]); [|constructor].
      injection Hn as <-. apply list_elem_of_In in Hin. vm_compute in Hin. destruct Hin as [Hin|[Hin|[]]]; discriminate Hin. }
  rewrite (nested_joins_correct (S:=nat) (W:=unit) Left on_owner sample_map people orders _ _
    (λ row, same_key (cell row 0) (cell row 2)) sample_state).
  - vm_compute. reflexivity.
  - repeat (constructor; [reflexivity|]). constructor.
  - repeat (constructor; [reflexivity|]). constructor.
  - intros x y Hx Hy. rewrite !elem_of_cons, elem_of_nil in Hx, Hy.
    destruct Hx as [->|[->|[]]], Hy as [->|[->|[]]]; vm_compute; reflexivity.
  - discriminate.
Defined.
Lemma hash_join_equals_nested_loop_witness :
  let l := [[VInteger 1; VText [97]]; [VNull; VText [98]]] in let r := [[VInteger 1; VInteger 10]; [VInteger 2; VNull]] in
  detect_equi_join on_owner sample_map 2 = Some (0%nat, 0%nat) ∧
  join_rows Right (Some (0, 0)%nat) on_owner sample_map people orders l r sample_state
  = join_rows Right None on_owner sample_map people orders l r sample_state.
Proof.
  intros l r. split; [vm_compute; reflexivity|].
  refine (hash_join_equals_nested_loop (S:=nat) (W:=unit) Right on_owner sample_map people orders l r 0 0 sample_state _ _ _ _ _ _).
  - apply (bool_decide_unpack _). vm_compute. exact I.
  - intros lt lc rt rc [= <- <- <- <-]. unfold ascii_name. split; repeat (constructor; [vm_compute; reflexivity|]); constructor.
  - reflexivity.
  - vm_compute. reflexivity.
  - repeat (constructor; [repeat split; cbn; unfold has_column, is_i64; simpl; lia|]). constructor.
  - repeat (constructor; [repeat split; cbn; unfold has_column, is_i64; simpl; lia|]). constructor.
Defined.

(** The keys of a hash join tell 1 and 1.0 apart, which [=] does not: the same
    condition written so that it is not detected joins the rows. *)
Lemma hash_join_separates_types :
  let one_f := VReal (bits_of_f64 (f64_of_i64 1)) in
  let l := [[VInteger 1; VNull]] in let r := [[one_f; VNull]] in
  let on' : option (Expr nat unit) := Some (Nested (BinaryOp (ColumnRef None "owner") Equal (ColumnRef None "id"))) in
  detect_equi_join on_owner sample_map 2 = Some (0, 0)%nat ∧ detect_equi_join on' sample_map 2 = None ∧
  join_rows Inner (Some (0, 0)%nat) on_owner sample_map people orders l r sample_state = (Ok [], sample_state) ∧
  join_rows Inner None on' sample_map people orders l r sample_state = (Ok [[VInteger 1; VNull; one_f; VNull]], sample_state).
Proof. vm_compute. done. Qed.
(** In a correlated subquery the condition may name a column of an enclosing
    query; the detection does not look there, takes the column of that name on
    the left for it and joins on it. *)
Lemma hash_join_ignores_outer_query :
  let outer : Row * ColMap := ([VInteger 7], {["t.id"%string := 0%nat]}) in
  let s := mkVM unit [] [outer] None 0 ∅ () in
  let on : option (Expr nat unit) := Some (BinaryOp (ColumnRef (Some "t"%string) "id") Equal (ColumnRef None "owner")) in
  let l := [[VInteger 1; VNull]] in let r := [[VInteger 1; VNull]] in
  detect_equi_join on sample_map 2 = Some (0, 0)%nat ∧
  join_rows Inner (Some (0, 0)%nat) on sample_map people orders l r s = (Ok [[VInteger 1; VNull; VInteger 1; VNull]], s) ∧
  join_rows Inner None on sample_map people orders l r s = (Ok [], s).
Proof. vm_compute. done. Qed.
(** NATURAL JOIN brings rows together on NULL in a common column. *)
Lemma natural_join_matches_null :
  join_rows (S:=nat) (W:=unit) Natural None None ∅ ["a"]%string ["A"; "b"]%string [[VNull]] [[VNull; VInteger 1]] sample_state
  = (Ok [[VNull; VInteger 1]], sample_state).
Proof. vm_compute. done. Qed.
(** A column name with an upper-case letter and a character beyond ASCII
    enters the column map under a name that no reference has. *)
Lemma column_name_mangled :
  let name := string_of_bytes [71; 195; 182] in
  resolve_column [VInteger 1] (build_col_map [name]) [] None name = Err (ColumnNotFound name).
Proof. vm_compute. done. Qed.
End Samples.
