(* ===== verification/TableFns.v ===== *)
(** Table-valued functions (src/src/vm/exec_select.rs, the
    [FromClause::TableFunction] branch of [eval_from] with [unnest_value] and
    [parse_json_scalar]): [generate_series] and [UNNEST]. *)
From S2P Require Import Prelude Values Text Expr ExprFns.
From Stdlib Require Import Floats.SpecFloat.

(** ** generate_series *)

Definition MAX_SERIES : Z := 1000000.
(** [checked_add] *)
Definition checked_add (a b : Z) : option Z := if decide (is_i64 (a + b)) then Some (a + b) else None.
(** The [while] loop, with [n] rows so far. *)
Fixpoint series_loop (fuel : nat) (cur stop step n : Z) : res (list Row) :=
  if (0 <? step) && (cur <=? stop) || (step <? 0) && (stop <=? cur) then
    match fuel with
    | O => Hang
    | S fuel =>
        match checked_add cur step with
        | None => Ok [[VInteger cur]]
        | Some cur' =>
            if MAX_SERIES <=? n + 1 then Ok [[VInteger cur]]
            else rest ← series_loop fuel cur' stop step (n + 1); Ok ([VInteger cur] :: rest)
        end
    end
  else Ok [].
(** [Value::Integer(v) => v, Value::Real(v) => v as i64] *)
Definition series_arg (what : string) (arg : option Value) : res Z :=
  match arg with
  | Some (VInteger v) => Ok v
  | Some (VReal v) => Ok (i64_of_f64 (f64_of_bits v))
  | _ => Err (RuntimeError ("generate_series: " +:+ what +:+ " must be integer"))
  end.
(** A million iterations are never used up. *)
Definition series_fuel : nat := Z.to_nat MAX_SERIES.
Definition generate_series (args : list Value) : res (list Row) :=
  start ← series_arg "start" (args !! 0%nat);
  stop ← series_arg "stop" (args !! 1%nat);
  let step := match args !! 2%nat with
              | Some (VInteger v) => v
              | Some (VReal v) => i64_of_f64 (f64_of_bits v)
              | _ => 1
              end in
  if step =? 0 then Err (RuntimeError "generate_series: step must not be zero")
  else series_loop series_fuel start stop step 0.

(** ** UNNEST *)

Definition QUOTE : Z := 34.
Definition BACKSLASH : Z := 92.
Definition COMMA : Z := 44.
Definition parse_json_scalar (s : bytes) : Value :=
  let s := trim s in
  if bool_decide (s = bytes_of_string "null") then VNull
  else if bool_decide (s = bytes_of_string "true") then VInteger 1
  else if bool_decide (s = bytes_of_string "false") then VInteger 0
  else if bool_decide (head s = Some QUOTE) && bool_decide (last s = Some QUOTE) && (2 <=? zlen s) then
    VText (str_replace [BACKSLASH; QUOTE] [QUOTE] (sub s 1 (zlen s - 2)))
  else
    match parse_i64 s with
    | Some i => VInteger i
    | None => match parse_f64 s with Some f => VReal (bits_of_f64 f) | None => VText s end
    end.
(** A finished token. *)
Definition push_token (token : list Z) : list Value :=
  let t := trim (of_chars token) in match t with [] => [] | _ => [parse_json_scalar t] end.
(** The loop over the characters between the brackets. *)
Fixpoint json_tokens (cs token : list Z) (in_string escape : bool) : list Value :=
  match cs with
  | [] => push_token token
  | c :: cs' =>
      if (c =? BACKSLASH) && in_string then json_tokens cs' (token ++ [c]) in_string true
      else if escape then json_tokens cs' (token ++ [c]) in_string false
      else if c =? QUOTE then json_tokens cs' (token ++ [c]) (negb in_string) escape
      else if (c =? COMMA) && negb in_string then push_token token ++ json_tokens cs' [] in_string escape
      else json_tokens cs' (token ++ [c]) in_string escape
  end.
(** [s.split(',')] *)
Fixpoint split_commas (cs part : list Z) : list bytes :=
  match cs with
  | [] => [of_chars part]
  | c :: cs' => if c =? COMMA then of_chars part :: split_commas cs' [] else split_commas cs' (part ++ [c])
  end.
Definition unnest_value (val : Value) : list Value :=
  match val with
  | VText s =>
      let trimmed := trim s in
      if bool_decide (head trimmed = Some 91) && bool_decide (last trimmed = Some 93)
      then json_tokens (chars (sub trimmed 1 (zlen trimmed - 2))) [] false false
      else map (λ p, VText (trim p)) (split_commas (chars s) [])
  | VNull => []
  | scalar => [scalar]
  end.

(** ** The branch of [eval_from] *)

(** [str::to_ascii_uppercase] *)
Definition upper_name (name : string) : string := string_of_bytes (upper_bytes (bytes_of_string name)).
Definition table_function_column (name : string) (column : option string) : string :=
  match column with
  | Some c => c
  | None =>
      if String.eqb (upper_name name) "UNNEST" then "unnest"
      else if String.eqb (upper_name name) "GENERATE_SERIES" then "generate_series" else "value"
  end.
Definition table_function (name : string) (args : list Value) : res (list Row) :=
  let func_upper := upper_name name in
  if String.eqb func_upper "UNNEST" then Ok (map (λ v, [v]) (unnest_value (default VNull (head args))))
  else if String.eqb func_upper "GENERATE_SERIES" then generate_series args
  else Err (RuntimeError ("unsupported table function `" +:+ func_upper +:+ "` (supported: UNNEST, generate_series)")).

(** ** Lemmas *)

(** How many terms the series from [cur] to [stop] has. *)
Definition terms (cur stop step : Z) : Z :=
  if 0 <? step then (if cur <=? stop then (stop - cur) / step + 1 else 0)
  else (if stop <=? cur then (cur - stop) / (- step) + 1 else 0).
Definition series (cur step n : Z) : list Row := map (λ i, [VInteger (cur + i * step)]) (seqZ 0 n).
Lemma series_cons cur step n : 0 < n → series cur step n = [VInteger cur] :: series (cur + step) step (n - 1).
Proof.
  intros Hn. unfold series. rewrite seqZ_cons by done. cbn [map]. f_equal; [do 2 f_equal; lia|].
  change (Z.succ 0) with (1 + 0). rewrite <- fmap_add_seqZ, <- Z.sub_1_r. rewrite <- list_fmap_compose. apply list_fmap_ext.
  intros _ i _. cbn. do 2 f_equal. lia.
Qed.
Lemma series_one cur step : series cur step 1 = [[VInteger cur]].
Proof. rewrite series_cons by lia. done. Qed.
(** The loop condition says that a term is left; after a step one less is. *)
Lemma terms_step cur stop step : step ≠ 0 →
  ((0 <? step) && (cur <=? stop) || (step <? 0) && (stop <=? cur) = true → 0 < terms cur stop step ∧
    (terms (cur + step) stop step = terms cur stop step - 1)
    ∧ (is_i64 stop → is_i64 cur → ¬ is_i64 (cur + step) → terms cur stop step = 1))
  ∧ ((0 <? step) && (cur <=? stop) || (step <? 0) && (stop <=? cur) = false → terms cur stop step = 0).
Proof.
  intros Hs. unfold terms, is_i64. destruct (Z.ltb_spec 0 step), (Z.ltb_spec step 0); try lia; cbn [andb orb]; rewrite ?orb_false_r.
  - destruct (Z.leb_spec cur stop); (split; [|done || intros; lia]); intros E; [|done]. clear E.
    pose proof (Z.div_pos (stop - cur) step ltac:(lia) ltac:(lia)). split; [lia|]. split.
    + destruct (Z.leb_spec (cur + step) stop).
      * replace (stop - cur) with (stop - (cur + step) + 1 * step) by lia. rewrite Z.div_add by lia. lia.
      * rewrite (Z.div_small (stop - cur)) by lia. lia.
    + intros. rewrite Z.div_small by lia. lia.
  - destruct (Z.leb_spec stop cur); (split; [|done || intros; lia]); intros E; [|done]. clear E.
    pose proof (Z.div_pos (cur - stop) (- step) ltac:(lia) ltac:(lia)). split; [lia|]. split.
    + destruct (Z.leb_spec stop (cur + step)).
      * replace (cur - stop) with (cur + step - stop + 1 * (- step)) by lia. rewrite Z.div_add by lia. lia.
      * rewrite (Z.div_small (cur - stop)) by lia. lia.
    + intros. rewrite Z.div_small by lia. lia.
Qed.
Lemma series_loop_spec fuel cur stop step n : step ≠ 0 → is_i64 stop → is_i64 cur → 0 ≤ n < MAX_SERIES → MAX_SERIES - n ≤ Z.of_nat fuel →
  series_loop fuel cur stop step n = Ok (series cur step (Z.min (terms cur stop step) (MAX_SERIES - n))).
Proof.
  intros Hs Hstop. revert cur n. induction fuel as [|fuel IH]; intros cur n Hcur Hn Hf; [lia|]. cbn [series_loop].
  destruct (terms_step cur stop step Hs) as [Ht Hf0]. destruct (_ || _); [|by rewrite Hf0, Z.min_l by (done || lia)].
  destruct (Ht eq_refl) as (Hpos & Hnext & Hlast). unfold checked_add. destruct (decide (is_i64 (cur + step))) as [Hi|Hi].
  - destruct (Z.leb_spec MAX_SERIES (n + 1)).
    + rewrite Z.min_r by lia. replace (MAX_SERIES - n) with 1 by lia. by rewrite series_one.
    + rewrite IH by (done || lia). cbn [mbind res_bind]. rewrite (series_cons cur) by lia. do 3 f_equal. lia.
  - rewrite Hlast, Z.min_l by (done || lia). by rewrite series_one.
Qed.

Lemma series_fuel_eq : Z.of_nat series_fuel = MAX_SERIES.
Proof. apply Z2Nat.id. done. Qed.

(** A run of characters with no quote, backslash or comma. *)
Definition plain (cs : list Z) : Prop := Forall (λ c, c ≠ QUOTE ∧ c ≠ BACKSLASH ∧ c ≠ COMMA) cs.
Lemma json_tokens_plain cs token rest : plain cs →
  json_tokens (cs ++ rest) token false false = json_tokens rest (token ++ cs) false false.
Proof.
  intros Hc. revert token. induction Hc as [|c cs (Hq & Hb & Hk) _ IH]; intros token; [by rewrite app_nil_r|].
  cbn [app json_tokens]. rewrite andb_false_r, (proj2 (Z.eqb_neq c QUOTE)), (proj2 (Z.eqb_neq c COMMA)) by done. cbn [andb].
  by rewrite IH, <- app_assoc.
Qed.
Fixpoint join_commas (ls : list bytes) : bytes :=
  match ls with
  | [] => []
  | [l] => l
  | l :: ls' => l ++ COMMA :: join_commas ls'
  end.
(** The text of a JSON array of integers. *)
Definition int_array (vs : list Z) : bytes := 91 :: join_commas (map show_i64 vs) ++ [93].

Lemma show_i64_plain v : plain (show_i64 v).
Proof.
  eapply Forall_impl; [apply show_i64_ascii|]. cbn. unfold QUOTE, BACKSLASH, COMMA. intros b Hb. lia.
Qed.
Lemma show_i64_nonempty v : show_i64 v ≠ [].
Proof. unfold show_i64. destruct (Z.ltb_spec v 0); [done|]. by destruct (show_N_spec v) as (_ & _ & Hne). Qed.
Lemma ascii_of_chars l : Forall (λ b, 0 ≤ b < 0x80) l → of_chars l = l.
Proof.
  intros Hl. rewrite <- (chars_ascii l Hl) at 1. by apply chars_text, ascii_text.
Qed.
Lemma parse_json_int v : is_i64 v → parse_json_scalar (show_i64 v) = VInteger v.
Proof.
  intros Hv. unfold parse_json_scalar. rewrite trim_show_i64, parse_show_i64 by done.
  assert (∀ b l, show_i64 v = b :: l → 45 ≤ b ≤ 57) as Hh.
  { intros b l E. pose proof (show_i64_ascii v) as Ha. rewrite E in Ha. by inversion Ha. }
  assert (head (show_i64 v) ≠ Some QUOTE) as Hq.
  { destruct (show_i64 v) as [|b l] eqn:E; [done|]. specialize (Hh b l eq_refl). intros [= ->]. unfold QUOTE in Hh. lia. }
  rewrite (bool_decide_false (head _ = _)) by done. cbn [andb].
  rewrite !bool_decide_false; [done|..]; intros E; specialize (Hh _ _ E);
    destruct Hh as [_ Hh]; by apply Hh.
Qed.
Lemma push_token_int v : is_i64 v → push_token (show_i64 v) = [VInteger v].
Proof.
  intros Hv. unfold push_token. rewrite ascii_of_chars by (eapply Forall_impl; [apply show_i64_ascii|]; cbn; lia).
  rewrite trim_show_i64, parse_json_int by done. pose proof (show_i64_nonempty v). by destruct (show_i64 v).
Qed.
Lemma json_tokens_ints vs : Forall is_i64 vs → json_tokens (join_commas (map show_i64 vs)) [] false false = map VInteger vs.
Proof.
  induction 1 as [|v vs Hv Hvs IH]; [done|]. destruct vs as [|w vs].
  - cbn [map join_commas]. rewrite <- (app_nil_r (show_i64 v)), json_tokens_plain by apply show_i64_plain.
    cbn [app json_tokens]. by apply push_token_int.
  - change (join_commas (map show_i64 (v :: w :: vs))) with (show_i64 v ++ COMMA :: join_commas (map show_i64 (w :: vs))).
    rewrite json_tokens_plain by apply show_i64_plain. cbn [app json_tokens andb negb Z.eqb COMMA BACKSLASH QUOTE Pos.eqb].
    by rewrite push_token_int, IH.
Qed.
Lemma int_array_bytes vs : Forall (λ b, 44 ≤ b ≤ 57 ∨ b = 91 ∨ b = 93) (int_array vs).
Proof.
  constructor; [lia|]. apply Forall_app_2; [|constructor; [lia|constructor]].
  assert (∀ v, Forall (λ b, 44 ≤ b ≤ 57 ∨ b = 91 ∨ b = 93) (show_i64 v)) as Hs.
  { intros v. eapply Forall_impl; [apply show_i64_ascii|]. cbn. intros. lia. }
  induction vs as [|v [|w vs] IH]; [constructor|apply Hs|].
  change (join_commas (map show_i64 (v :: w :: vs))) with (show_i64 v ++ COMMA :: join_commas (map show_i64 (w :: vs))).
  apply Forall_app_2; [apply Hs|]. constructor; [unfold COMMA; lia|exact IH].
Qed.

(** ** Properties *)

(** [generate_series] always returns: exactly the arithmetic progression
    from start to stop, cut at a million rows, without overflow, and an error
    for a step of zero. *)
Theorem generate_series_correct (start stop step : Z) (Hstart : is_i64 start) (Hstop : is_i64 stop) (Hstep : is_i64 step) :
  generate_series [VInteger start; VInteger stop; VInteger step]
    = (if decide (step = 0) then Err (RuntimeError "generate_series: step must not be zero")
       else Ok (series start step (Z.min (terms start stop step) MAX_SERIES)))
  ∧ generate_series [VInteger start; VInteger stop] = Ok (series start 1 (Z.min (terms start stop 1) MAX_SERIES))
  ∧ (step ≠ 0 → Forall (λ i, is_i64 (start + i * step)) (seqZ 0 (terms start stop step))).
Proof.
  assert (∀ d, d ≠ 0 → series_loop series_fuel start stop d 0 = Ok (series start d (Z.min (terms start stop d) MAX_SERIES))) as Hl.
  { intros d Hd. pose proof series_fuel_eq as Hf. rewrite series_loop_spec; [by rewrite Z.sub_0_r|exact Hd|exact Hstop|exact Hstart| |lia].
    unfold MAX_SERIES. lia. }
  split; [|split].
  - unfold generate_series. cbn [lookup list_lookup series_arg mbind res_bind]. destruct (decide _) as [->|Hne]; [done|].
    rewrite (proj2 (Z.eqb_neq step 0)) by done. by apply Hl.
  - unfold generate_series. cbn [lookup list_lookup series_arg mbind res_bind]. cbn [Z.eqb]. by apply Hl.
  - intros Hne. apply Forall_forall. intros i Hi%elem_of_seqZ. unfold terms, is_i64 in *.
    assert (∀ d k, 0 < k → 0 ≤ i < d / k + 1 → 0 ≤ i * k ≤ d) as Hd.
    { intros d k Hk Hik. pose proof (Z.mul_div_le d k Hk). pose proof (Z.mul_le_mono_nonneg_r i (d / k) k ltac:(lia) ltac:(lia)).
      pose proof (Z.mul_nonneg_nonneg i k ltac:(lia) ltac:(lia)). lia. }
    destruct (Z.ltb_spec 0 step).
    + destruct (Z.leb_spec start stop); [|lia]. specialize (Hd (stop - start) step ltac:(lia) ltac:(lia)). lia.
    + destruct (Z.leb_spec stop start); [|lia]. specialize (Hd (start - stop) (- step) ltac:(lia) ltac:(lia)). lia.
Qed.
Lemma generate_series_correct_witness :
  generate_series [VInteger 9223372036854775800; VInteger 9223372036854775807; VInteger 5]
  = Ok [[VInteger 9223372036854775800]; [VInteger 9223372036854775805]].
Proof.
  rewrite (proj1 (generate_series_correct 9223372036854775800 9223372036854775807 5 ltac:(unfold is_i64; lia) ltac:(unfold is_i64; lia)
    ltac:(unfold is_i64; lia))). vm_compute. reflexivity.
Defined.

(** UNNEST of the text of an array of integers gives the integers, one row
    each, in order. *)
Theorem unnest_integers (vs : list Z) (Hvs : Forall is_i64 vs) :
  table_function "unnest" [VText (int_array vs)] = Ok (map (λ v, [VInteger v]) vs).
Proof.
  assert (trim (int_array vs) = int_array vs) as Ht.
  { pose proof (int_array_bytes vs) as Hb. apply trim_none.
    - apply ascii_text. eapply Forall_impl; [exact Hb|]. cbn. intros. lia.
    - rewrite chars_ascii by (eapply Forall_impl; [exact Hb|]; cbn; intros; lia). eapply Forall_impl; [exact Hb|]. cbn.
      intros b Hr. unfold is_whitespace. cmp_cases; done. }
  assert (sub (int_array vs) 1 (zlen (int_array vs) - 2) = join_commas (map show_i64 vs)) as Hsub.
  { unfold int_array, sub. rewrite zlen_cons, zlen_app, zlen_cons, zlen_nil. change (Z.to_nat 1) with 1%nat. cbn [drop]. rewrite drop_0.
    rewrite take_app_length'; [done|]. unfold zlen. lia. }
  assert (last (int_array vs) = Some 93) as Hlast by (unfold int_array; by rewrite app_comm_cons, last_snoc).
  pose proof (int_array_bytes vs) as Hb. unfold table_function. change (String.eqb (upper_name "unnest") "UNNEST") with true.
  cbn [head default from_option id]. unfold unnest_value. rewrite Ht, Hlast, Hsub. cbn [head int_array].
  rewrite !bool_decide_true by done. cbn [andb]. rewrite chars_ascii.
  - rewrite json_tokens_ints by done. by rewrite map_map.
  - assert (Forall (λ b, 0 ≤ b < 0x80) (int_array vs)) as Ha by (eapply Forall_impl; [exact Hb|]; cbn; intros; lia).
    unfold int_array in Ha. inversion Ha as [|? ? _ Ha']; subst. by apply Forall_app in Ha' as [Ha' _].
Qed.
Lemma unnest_integers_witness : table_function "unnest" [VText (bytes_of_string "[-7,0,42]")] = Ok [[VInteger (-7)]; [VInteger 0]; [VInteger 42]].
Proof.
  exact (unnest_integers [-7; 0; 42] ltac:(repeat (constructor; [unfold is_i64; lia|]); constructor)).
Defined.

(** A string that ends in an escaped backslash does not end where JSON ends
    it: the second backslash escapes again, and the two elements of
    [["a\\","b"]] become one. *)
Lemma unnest_escaped_backslash :
  let q := QUOTE in let b := BACKSLASH in
  unnest_value (VText ([91; q; 97; b; b; q; COMMA; q; 98; q; 93])) = [VText [97; b; q; COMMA; q; 98]].
Proof. vm_compute. reflexivity. Qed.
