(* ===== verification/Aggregates.v ===== *)
(** Aggregation and projection (src/src/vm/exec_select.rs): COUNT, SUM, AVG,
    MIN and MAX over a group, expressions that contain them, GROUP BY with
    HAVING, aggregation without GROUP BY, and the projection of a SELECT list.

    The window functions of a SELECT list are taken out of it before and
    computed per group by the interface [WindowFns]. *)
From S2P Require Import Prelude Values Text Like Expr ExprTypes ExprLaws RowOps Joins.
From Stdlib Require Import Floats.SpecFloat.

(** ** The SELECT list *)

Inductive SelectColumn {S W : Type} : Type :=
  | AllColumns
  | TableAllColumns (table : string)
  | SExpr (expr : Expr S W) (alias : option string).
Arguments SelectColumn : clear implicits.

(** [eval_window_functions_for_groups(window_funcs, groups, col_map,
    window_defs)]: for each group the value of each window function. *)
Class WindowFns (S W D R : Type) :=
  eval_windows : list (Expr S W) → list (list Row) → ColMap → D → ST (VM R) (list (list Value)).

(** [Value::to_f64] *)
Definition to_f64 (v : Value) : option spec_float :=
  match v with
  | VInteger z => Some (f64_of_i64 z)
  | VReal bits => Some (f64_of_bits bits)
  | VText t => parse_f64 t
  | _ => None
  end.
Definition is_aggregate (name : string) : bool := is_name name ["COUNT"; "SUM"; "AVG"; "MIN"; "MAX"]%string.

Section Names.
Context {S W : Type}.

(** [expr_has_aggregate] *)
Fixpoint expr_has_aggregate (expr : Expr S W) : bool :=
  match expr with
  | Function name args _ => is_aggregate name || existsb expr_has_aggregate args
  | BinaryOp l _ r => expr_has_aggregate l || expr_has_aggregate r
  | UnaryOp _ e => expr_has_aggregate e
  | Nested e => expr_has_aggregate e
  | IsNull e _ => expr_has_aggregate e
  | InList e l _ => expr_has_aggregate e || existsb expr_has_aggregate l
  | Between e lo hi _ => expr_has_aggregate e || expr_has_aggregate lo || expr_has_aggregate hi
  | ELike e p _ _ _ => expr_has_aggregate e || expr_has_aggregate p
  | InSubquery e _ _ => expr_has_aggregate e
  | _ => false
  end.
Definition has_aggregate (cols : list (SelectColumn S W)) : bool :=
  existsb (λ c, match c with SExpr e _ => expr_has_aggregate e | _ => false end) cols.

(** [expr_display_name] *)
Definition expr_display_name (expr : Expr S W) : string :=
  match expr with
  | ColumnRef _ column => column
  | Function name _ _ => name
  | IntegerLiteral v => string_of_bytes (show_i64 v)
  | RealLiteral v => string_of_bytes (show_f64 (f64_of_bits v))
  | StringLiteral v => quoted v
  | _ => "?"
  end.

(** [table_column_indices]: the columns of a table, by the qualified names in
    the column map. *)
Definition table_column_indices (table : string) (col_names : list string) (col_map : ColMap) : option (list nat) :=
  match map fst (filter (λ p, col_map !! qualified_key table p.2 = Some p.1) (imap pair col_names)) with
  | [] => None
  | indices => Some indices
  end.

(** The projection plan: the name of each output column, and the index or the
    expression it comes from. *)
Inductive Proj : Type := PIndex (i : nat) | PExpr (e : Expr S W).
Definition plan_column (col_names : list string) (col_map : ColMap) (col : SelectColumn S W) : list (string * Proj) :=
  let all := imap (λ i name, (name, PIndex i)) col_names in
  match col with
  | AllColumns => all
  | TableAllColumns table =>
      match table_column_indices table col_names col_map with
      | Some indices => map (λ idx, (default "" (col_names !! idx), PIndex idx)) indices
      | None => all
      end
  | SExpr e alias => [(default (expr_display_name e) alias, PExpr e)]
  end.
Definition projection_plan (cols : list (SelectColumn S W)) (col_names : list string) (col_map : ColMap) : list (string * Proj) :=
  cols ≫= plan_column col_names col_map.
Definition is_identity (plan : list (string * Proj)) (col_names : list string) : bool :=
  (length plan =? length col_names)%nat
  && forallb (λ '(i, (_, p)), match p with PIndex idx => (idx =? i)%nat | PExpr _ => false end) (imap pair plan).
End Names.

(** ** Aggregate functions *)

(** The accumulator of SUM: an integer until a double or an overflow. *)
Record SumAcc : Type := mkSum { int_sum : Z; real_sum : spec_float; is_int : bool; has_value : bool }.
Definition f64_add : spec_float → spec_float → spec_float := SFadd 53 1024.
Definition add_f64 (acc : SumAcc) (v : spec_float) : SumAcc :=
  mkSum (int_sum acc) (f64_add (if is_int acc then f64_of_i64 (int_sum acc) else real_sum acc) v) false true.
Definition sum_step (acc : SumAcc) (val : Value) : SumAcc :=
  match val with
  | VInteger v =>
      if is_int acc && bool_decide (is_i64 (int_sum acc + v))
      then mkSum (int_sum acc + v) (real_sum acc) true true
      else add_f64 acc (f64_of_i64 v)
  | VReal v => add_f64 acc (f64_of_bits v)
  | VNull => acc
  | _ => match to_f64 val with Some v => add_f64 acc v | None => acc end
  end.
Definition sum_values (vals : list Value) : Value :=
  let acc := foldl sum_step (mkSum 0 (S754_zero false) true false) vals in
  if negb (has_value acc) then VNull
  else if is_int acc then VInteger (int_sum acc) else VReal (bits_of_f64 (real_sum acc)).
Definition avg_values (vals : list Value) : Value :=
  let '(sum, count) := foldl (λ '(sum, count) val, match to_f64 val with Some v => (f64_add sum v, count + 1) | None => (sum, count) end)
                         (S754_zero false, 0) vals in
  if count =? 0 then VNull else VReal (bits_of_f64 (SFdiv 53 1024 sum (f64_of_i64 count))).
(** MIN with [Lt], MAX with [Gt]. *)
Definition best_step (c : comparison) (best : option Value) (val : Value) : option Value :=
  if is_null val then best
  else match best with
       | None => Some val
       | Some current => Some (if cmp_is val current c then val else current)
       end.
Definition best_value (c : comparison) (vals : list Value) : Value := default VNull (foldl (best_step c) None vals).
Fixpoint count_values (distinct : bool) (vals : list Value) (seen : gset bytes) : Z :=
  match vals with
  | [] => 0
  | val :: vals' =>
      if is_null val then count_values distinct vals' seen
      else if negb distinct then 1 + count_values distinct vals' seen
      else if bool_decide (typed_key val ∈ seen) then count_values distinct vals' seen
      else 1 + count_values distinct vals' ({[typed_key val]} ∪ seen)
  end.

(** *** Groups *)

(** The loop that puts each row into the group of its key, in the order of the
    first row of each group. *)
Fixpoint group_loop {A} (keyed : list (bytes * A)) (group_index : gmap bytes nat) (groups : list (list A)) : list (list A) :=
  match keyed with
  | [] => groups
  | (key, row) :: keyed' =>
      match group_index !! key with
      | Some idx => group_loop keyed' group_index (alter (λ g, g ++ [row]) idx groups)
      | None => group_loop keyed' (<[key := length groups]> group_index) (groups ++ [[row]])
      end
  end.

Section Aggregates.
Context {S W R : Type} `{StdFns} `{SelectExec S R} `{OtherFunctions R}.
Abbreviation Ev := (ST (VM R) Value).

(** [eval_aggregate].  The argument is evaluated in every row of the group; the
    accumulation has no effect of its own. *)
Definition eval_aggregate (name : string) (args : list (Expr S W)) (distinct : bool) (group_rows : list Row) (col_map : ColMap) : Ev :=
  let named n := eq_ignore_ascii_case name n in
  let over f arg := vals ← mapM (λ row, eval_expr row col_map arg) group_rows; mret (f vals : Value) in
  if named "COUNT"%string then
    match args with
    | [] | IntegerLiteral 1 :: _ => mret (VInteger (as_i64 (zlen group_rows)))
    | arg :: _ => over (λ vals, VInteger (count_values distinct vals ∅)) arg
    end
  else if named "SUM"%string then match args with [] => mret VNull | arg :: _ => over sum_values arg end
  else if named "AVG"%string then match args with [] => mret VNull | arg :: _ => over avg_values arg end
  else if named "MIN"%string then match args with [] => mret VNull | arg :: _ => over (best_value Lt) arg end
  else if named "MAX"%string then match args with [] => mret VNull | arg :: _ => over (best_value Gt) arg end
  else st_err (RuntimeError ("unknown aggregate function: " +:+ name)).

(** [eval_expr_with_aggregates] *)
Fixpoint eval_expr_with_aggregates (row : Row) (col_map : ColMap) (group_rows : list Row) (expr : Expr S W) : Ev :=
  let eval := eval_expr_with_aggregates row col_map group_rows in
  match expr with
  | Function name args distinct =>
      if String.eqb name "__win" then fn_win args
      else if is_aggregate name then eval_aggregate name args distinct group_rows col_map
      else vals ← mapM id (map eval args); eval_expr row col_map (Function name (map from_value vals) distinct : Expr S W)
  | BinaryOp e1 And e2 => eval_and (eval e1) (eval e2)
  | BinaryOp e1 Or e2 => eval_or (eval e1) (eval e2)
  | BinaryOp e1 op e2 => l ← eval e1; r ← eval e2; mret (apply_binary_op op l r)
  | UnaryOp op e => v ← eval e; st_lift (apply_unary_op op v)
  | Nested e => eval e
  | IsNull e negated => v ← eval e; mret (VBool (xorb (is_null v) negated))
  | InList e items negated =>
      val ← eval e;
      if is_null val then mret VNull
      else found_null ← in_list val (map eval items) false; mret (membership negated found_null)
  | Between e low high negated =>
      val ← eval e; lo ← eval low; hi ← eval high; mret (between val lo hi negated)
  | ELike e pattern escape_char case_insensitive negated =>
      val ← eval e; pat ← eval pattern; st_lift (like_op val pat escape_char case_insensitive negated)
  | Collate e _ => eval e
  | Interval e leading_field => v ← eval e; mret (interval v leading_field)
  | _ => eval_expr row col_map expr
  end.

(** *** Grouping *)

(** An output column name bound to an expression, for GROUP BY. *)
Definition select_aliases (cols : list (SelectColumn S W)) : gmap string (Expr S W) :=
  foldl (λ m c, match c with SExpr e (Some a) => <[to_ascii_lowercase a := e]> m | _ => m end) ∅ cols.
Definition resolve_alias (aliases : gmap string (Expr S W)) (expr : Expr S W) : Expr S W :=
  match expr with
  | ColumnRef None column => default expr (aliases !! to_ascii_lowercase column)
  | _ => expr
  end.
Definition group_key (group_exprs : list (Expr S W)) (col_map : ColMap) (row : Row) : ST (VM R) bytes :=
  vals ← mapM (eval_expr row col_map) group_exprs; mret (tuple_key vals).

Definition set_windows (res : option (list (list Value))) (idx : nat) (s : VM R) : VM R :=
  mkVM R (current_params s) (outer_rows s) res idx (session_vars s) (vm_rest s).
Definition set_window_results (res : list (list Value)) : ST (VM R) unit :=
  λ s, (Ok tt, set_windows (Some res) (current_window_row_idx s) s).
Definition set_window_row (idx : nat) : ST (VM R) unit := λ s, (Ok tt, set_windows (window_results s) idx s).

(** An output row, from the plan and the way expressions are evaluated. *)
Definition project_row (eval : Expr S W → Ev) (plan : list (string * Proj)) (row : Row) : ST (VM R) Row :=
  mapM (λ '(_, p), match p with PIndex i => mret (default VNull (row !! i)) | PExpr e => eval e end) plan.

Context {D : Type} `{WindowFns S W D R}.
(** [project_columns] *)
Definition project_columns (cols : list (SelectColumn S W)) (rows : list Row) (col_names : list string) (col_map : ColMap)
    (window_funcs : list (Expr S W)) (window_defs : D) : ST (VM R) (list string * list Row) :=
  let plan := projection_plan cols col_names col_map in
  if is_identity plan col_names && bool_decide (window_funcs = []) then mret (map fst plan, rows)
  else
    win_res ← eval_windows window_funcs (map (λ r, [r]) rows) col_map window_defs;
    _ ← set_window_results win_res;
    output_rows ← mapM (λ '(idx, row), _ ← set_window_row idx; project_row (eval_expr row col_map) plan row) (imap pair rows);
    mret (map fst plan, output_rows).

(** [apply_group_by] *)
Definition apply_group_by (rows : list Row) (group_exprs : list (Expr S W)) (cols : list (SelectColumn S W)) (col_names : list string)
    (col_map : ColMap) (having : option (Expr S W)) (window_funcs : list (Expr S W)) (window_defs : D)
    : ST (VM R) (list string * list Row) :=
  let aliases := select_aliases cols in
  keyed ← mapM (λ row, key ← group_key (map (resolve_alias aliases) group_exprs) col_map row; mret (key, row)) rows;
  let groups := group_loop keyed ∅ [] in
  let plan := projection_plan cols col_names col_map in
  win_res ← eval_windows window_funcs groups col_map window_defs;
  _ ← set_window_results win_res;
  result ← st_flat_map (λ '(g_idx, group_rows),
    _ ← set_window_row g_idx;
    first_row ← st_lift (at_index group_rows 0);
    let eval := eval_expr_with_aggregates first_row col_map group_rows in
    keep ← match having with None => mret true | Some e => v ← eval e; mret (is_truthy v) end;
    if keep : bool then out_row ← project_row eval plan first_row; mret [out_row] else mret []) (imap pair groups);
  mret (map fst plan, result).

(** [apply_implicit_aggregate]: one group of all the rows. *)
Definition apply_implicit_aggregate (rows : list Row) (cols : list (SelectColumn S W)) (col_names : list string) (col_map : ColMap)
    (window_funcs : list (Expr S W)) (window_defs : D) : ST (VM R) (list string * list Row) :=
  let plan := projection_plan cols col_names col_map in
  win_res ← eval_windows window_funcs [rows] col_map window_defs;
  _ ← set_window_results win_res;
  _ ← set_window_row 0;
  let first_row := default [] (head rows) in
  out_row ← project_row (eval_expr_with_aggregates first_row col_map rows) plan first_row;
  mret (map fst plan, [out_row]).
End Aggregates.

(** ** Lemmas: groups *)

(** The keys in the order of their first occurrence. *)
Fixpoint first_keys {A} (keyed : list (bytes * A)) (seen : list bytes) : list bytes :=
  match keyed with
  | [] => seen
  | (k, _) :: keyed' => first_keys keyed' (if bool_decide (k ∈ seen) then seen else seen ++ [k])
  end.
Definition rows_with {A} (key : bytes) (keyed : list (bytes * A)) : list A := map snd (filter (λ kr, kr.1 = key) keyed).
Lemma rows_with_none {A} key (l : list (bytes * A)) : (∀ kr, kr ∈ l → kr.1 ≠ key) → rows_with key l = [].
Proof.
  intros Hl. unfold rows_with. induction l as [|kr l IH]; [done|]. rewrite filter_cons, decide_False by (apply Hl; left).
  apply IH. intros kr' Hin. apply Hl. by right.
Qed.
Lemma group_loop_spec {A} (keyed : list (bytes * A)) group_index groups seen pre :
  NoDup seen → (∀ k i, group_index !! k = Some i ↔ seen !! i = Some k) →
  groups = map (λ k, rows_with k pre) seen → (∀ kr, kr ∈ pre → kr.1 ∈ seen) →
  group_loop keyed group_index groups = map (λ k, rows_with k (pre ++ keyed)) (first_keys keyed seen).
Proof.
  revert group_index groups seen pre. induction keyed as [|[key row] keyed IH]; intros index groups seen pre Hnd Hix -> Hdone.
  { by rewrite app_nil_r. }
  assert (∀ k, rows_with k (pre ++ [(key, row)]) = rows_with k pre ++ (if decide (key = k) then [row] else [])) as Hsnoc.
  { intros k. unfold rows_with. rewrite filter_app, map_app, filter_cons. cbn [fst]. by destruct (decide (key = k)). }
  cbn [group_loop first_keys]. replace (pre ++ (key, row) :: keyed) with ((pre ++ [(key, row)]) ++ keyed) by (by rewrite <- app_assoc).
  destruct (index !! key) as [i|] eqn:E.
  - apply Hix in E. rewrite bool_decide_true by (by eapply list_elem_of_lookup_2). apply IH; [done|done| |].
    + apply list_eq. intros j. destruct (decide (i = j)) as [<-|Hne].
      * rewrite list_lookup_alter_eq, !list_lookup_fmap, E. cbn. by rewrite Hsnoc, decide_True.
      * rewrite list_lookup_alter_ne, !list_lookup_fmap by done. destruct (seen !! j) as [k|] eqn:Ej; [|done]. cbn.
        rewrite Hsnoc, decide_False; [by rewrite app_nil_r|]. intros ->. by apply Hne, (NoDup_lookup seen i j k).
    + intros kr [Hin| ->%list_elem_of_singleton]%elem_of_app; [by apply Hdone|]. by eapply list_elem_of_lookup_2.
  - assert (key ∉ seen) as Hnew.
    { intros [i Hi]%list_elem_of_lookup. apply Hix in Hi. congruence. }
    rewrite bool_decide_false by done. apply IH.
    + apply NoDup_app. split; [done|]. split; [|apply NoDup_singleton]. intros k Hk ->%list_elem_of_singleton. done.
    + intros k i. rewrite length_map. destruct (decide (key = k)) as [->|Hne].
      * rewrite lookup_insert_eq. split.
        -- intros [= <-]. by rewrite list_lookup_middle.
        -- intros Hi. f_equal. apply lookup_app_Some in Hi as [Hi|[Hle Hi]]; [by apply list_elem_of_lookup_2 in Hi|].
           apply lookup_lt_Some in Hi. simpl in Hi. lia.
      * rewrite lookup_insert_ne, Hix by done. split; [intros Hi; pose proof (lookup_lt_Some _ _ _ Hi); by rewrite lookup_app_l|].
        intros Hi. apply lookup_app_Some in Hi as [Hi|[Hle Hi]]; [done|].
        apply list_lookup_singleton_Some in Hi as [_ ?]. done.
    + rewrite map_app. cbn [map]. f_equal.
      * apply map_ext_in. intros k Hk%list_elem_of_In. rewrite Hsnoc, decide_False; [by rewrite app_nil_r|]. by intros ->.
      * rewrite Hsnoc, decide_True by done. rewrite rows_with_none; [done|].
        intros kr Hin <-. by apply Hnew, Hdone.
    + intros kr [Hin| ->%list_elem_of_singleton]%elem_of_app; apply elem_of_app; [left; by apply Hdone|right; by left].
Qed.

Lemma first_keys_spec {A} (keyed : list (bytes * A)) seen : NoDup seen →
  NoDup (first_keys keyed seen) ∧ ∀ k, k ∈ first_keys keyed seen ↔ k ∈ seen ∨ k ∈ map fst keyed.
Proof.
  revert seen. induction keyed as [|[key row] keyed IH]; intros seen Hnd; [cbn; set_solver|]. cbn [first_keys map].
  destruct (IH (if bool_decide (key ∈ seen) then seen else seen ++ [key])) as [Hn Hk].
  { case_bool_decide; [done|]. apply NoDup_app. split; [done|]. split; [|apply NoDup_singleton]. set_solver. }
  split; [done|]. intros k. rewrite Hk. case_bool_decide; set_solver.
Qed.
Lemma insert_into_groups {A} (f : bytes → list A) key row ks : NoDup ks → key ∈ ks →
  mjoin (map (λ k, (if decide (key = k) then [row] else []) ++ f k) ks) ≡ₚ row :: mjoin (map f ks).
Proof.
  induction 1 as [|k ks Hnew _ IH]; [set_solver|]. intros [<-|Hin]%elem_of_cons; cbn [map].
  - change (mjoin (?a :: ?b)) with (a ++ mjoin b). rewrite decide_True by done. cbn [app]. f_equiv.
    change (mjoin (?a :: ?b)) with (a ++ mjoin b). f_equiv.
    assert (map (λ k, (if decide (key = k) then [row] else []) ++ f k) ks = map f ks) as ->; [|done].
    apply map_ext_in. intros k Hk%list_elem_of_In. rewrite decide_False; [done|]. by intros ->.
  - change (mjoin (?a :: ?b)) with (a ++ mjoin b). rewrite IH, decide_False by (done || by intros ->). cbn [app].
    change (mjoin (?a :: ?b)) with (a ++ mjoin b). by rewrite Permutation_middle.
Qed.
Lemma groups_cover {A} (keyed : list (bytes * A)) ks : NoDup ks → (∀ kr, kr ∈ keyed → kr.1 ∈ ks) →
  mjoin (map (λ k, rows_with k keyed) ks) ≡ₚ map snd keyed.
Proof.
  intros Hnd. induction keyed as [|[key row] keyed IH]; intros Hin.
  - cbn. clear. induction ks as [|k ks IH]; [done|]. exact IH.
  - cbn [map snd]. rewrite <- IH by (intros kr Hkr; apply Hin; by right).
    rewrite <- (insert_into_groups (λ k, rows_with k keyed) key row ks) by (done || apply (Hin (key, row)); left).
    assert (map (λ k, rows_with k ((key, row) :: keyed)) ks
      = map (λ k, (if decide (key = k) then [row] else []) ++ rows_with k keyed) ks) as ->; [|done].
    apply map_ext. intros k. unfold rows_with. rewrite filter_cons. cbn [fst]. by destruct (decide (key = k)).
Qed.

(** ** Lemmas: aggregate functions *)

Definition non_null (vals : list Value) : list Value := filter (λ v, is_null v = false) vals.
Lemma count_all_values vals seen : count_values false vals seen = zlen (non_null vals).
Proof.
  unfold non_null. induction vals as [|v vals IH]; [done|]. cbn [count_values]. rewrite filter_cons.
  destruct (is_null v); [by rewrite decide_False|]. cbn [negb]. by rewrite decide_True, zlen_cons, IH.
Qed.
(** COUNT(DISTINCT): the length of a list of the values without repetition. *)
Lemma count_distinct_values vals seen (svals : list Value) : Forall key_ok vals → Forall key_ok svals →
  (∀ k, k ∈ seen ↔ k ∈ map typed_key svals) →
  ∃ ds, NoDup ds ∧ (∀ v, v ∈ ds ↔ v ∈ non_null vals ∧ v ∉ svals) ∧ count_values true vals seen = zlen ds.
Proof.
  intros Hv. revert seen svals. induction Hv as [|v vals Hv _ IH]; intros seen svals Hs Hseen.
  { exists []. split; [constructor|]. split; [set_solver|done]. }
  cbn [count_values]. unfold non_null. rewrite filter_cons. fold (non_null vals). destruct (is_null v) eqn:En.
  { rewrite decide_False by done. by apply IH. }
  rewrite decide_True by done. cbn [negb]. assert (typed_key v ∈ seen ↔ v ∈ svals) as Hiff.
  { rewrite Hseen, list_elem_of_fmap. split; [|by intros Hin; exists v]. intros (w & Ek & Hw).
    apply typed_key_inj in Ek; [by subst|done|]. rewrite Forall_forall in Hs. by apply Hs. }
  case_bool_decide as Hin.
  - destruct (IH seen svals Hs Hseen) as (ds & Hnd & Hd & Hc). exists ds. split; [done|]. split; [|done].
    intros w. rewrite Hd. apply Hiff in Hin. set_solver.
  - destruct (IH ({[typed_key v]} ∪ seen) (v :: svals)) as (ds & Hnd & Hd & Hc).
    { by constructor. }
    { intros k. cbn [map]. rewrite elem_of_union, elem_of_singleton, elem_of_cons, Hseen. done. }
    exists (v :: ds). split; [constructor; [|done]; rewrite Hd; set_solver|]. split; [|rewrite Hc, zlen_cons; lia].
    intros w. rewrite !elem_of_cons, Hd. rewrite Hiff in Hin. destruct (decide (w = v)); set_solver.
Qed.

(** The sum of the integers of a list. *)
Definition ints (vals : list Value) : list Z := omap (λ v, match v with VInteger z => Some z | _ => None end) vals.
(** Integers, and the values that SUM ignores: NULL, blobs, texts that are no
    number. *)
Definition whole (v : Value) : Prop := match v with VInteger _ => True | _ => to_f64 v = None end.
Lemma sum_integer_values vals acc : is_int acc = true → Forall whole vals →
  (∀ n, is_i64 (int_sum acc + zsum (take n (ints vals)))) →
  foldl sum_step acc vals
  = mkSum (int_sum acc + zsum (ints vals)) (real_sum acc) true (has_value acc || negb (bool_decide (ints vals = []))).
Proof.
  intros Hi Hv. revert acc Hi. induction Hv as [|v vals Hv _ IH]; intros acc Hi Hr.
  { cbn. destruct acc as [i r b h]; cbn in *. subst. by rewrite orb_false_r, Z.add_0_r. }
  assert (to_f64 v = None → sum_step acc v = acc ∧ ints (v :: vals) = ints vals) as Hskip.
  { destruct v; cbn; intros Hn; try done; by rewrite Hn. }
  destruct v as [|z| | |]; try (destruct (Hskip Hv) as [Hs Hn]; rewrite Hn in *; cbn [foldl]; rewrite Hs; by apply IH).
  cbn [foldl sum_step]. change (ints (VInteger z :: vals)) with (z :: ints vals) in *. rewrite Hi. cbn [andb].
  pose proof (Hr 1%nat) as H1. cbn in H1. rewrite Z.add_0_r in H1. rewrite bool_decide_true by done. rewrite IH; cbn [int_sum is_int real_sum has_value].
  - rewrite (bool_decide_false (z :: _ = [])) by done. cbn [negb orb]. rewrite orb_true_r. f_equal.
    change (zsum (z :: ?l)) with (z + zsum l). lia.
  - done.
  - intros n. specialize (Hr (S n)). cbn [take] in Hr. change (zsum (z :: ?l)) with (z + zsum l) in Hr. by rewrite Z.add_assoc in Hr.
Qed.

(** Once it is a double, the sum adds whatever has a value as a double. *)
Lemma sum_real_values vals acc : is_int acc = false → has_value acc = true →
  foldl sum_step acc vals = mkSum (int_sum acc) (foldl f64_add (real_sum acc) (omap to_f64 vals)) false true.
Proof.
  revert acc. induction vals as [|v vals IH]; intros acc Hi Hh; [destruct acc; cbn in *; by subst|].
  cbn [foldl omap list_omap]. assert (∀ x, add_f64 acc x = mkSum (int_sum acc) (f64_add (real_sum acc) x) false true) as Ha.
  { intros x. unfold add_f64. by rewrite Hi. }
  destruct v as [|z|b|t|b]; cbn [sum_step to_f64]; rewrite ?Hi; cbn [andb]; rewrite ?Ha, ?IH by done; try done.
  destruct (parse_f64 t); [by rewrite Ha, IH|by apply IH].
Qed.
(** SUM turns to doubles at the first value that is no integer, or that would
    overflow. *)
Lemma sum_mixed_values pre v post x : Forall whole pre → (∀ n, is_i64 (zsum (take n (ints pre)))) → to_f64 v = Some x →
  (∀ z, v = VInteger z → ¬ is_i64 (zsum (ints pre) + z)) →
  sum_values (pre ++ v :: post) = VReal (bits_of_f64 (foldl f64_add (f64_of_i64 (zsum (ints pre))) (x :: omap to_f64 post))).
Proof.
  intros Hp Hr Hx Hv. unfold sum_values. rewrite foldl_app, (sum_integer_values pre) by (done || intros n; cbn; apply Hr).
  cbn [foldl int_sum real_sum has_value is_int]. rewrite Z.add_0_l. set (acc := mkSum _ _ _ _).
  assert (sum_step acc v = add_f64 acc x) as ->.
  { destruct v as [|z|b|t|b]; cbn [to_f64] in Hx; try discriminate; [|by injection Hx as <-|].
    - injection Hx as <-. cbn [sum_step acc is_int int_sum andb]. by rewrite bool_decide_false by auto.
    - cbn [sum_step to_f64]. by rewrite Hx. }
  unfold add_f64. cbn [acc is_int int_sum]. by rewrite sum_real_values.
Qed.
Lemma avg_values_spec vals :
  avg_values vals = match omap to_f64 vals with
                    | [] => VNull
                    | l => VReal (bits_of_f64 (SFdiv 53 1024 (foldl f64_add (S754_zero false) l) (f64_of_i64 (zlen l))))
                    end.
Proof.
  unfold avg_values. assert (∀ vals sum count,
    foldl (λ '(sum, count) val, match to_f64 val with Some v => (f64_add sum v, count + 1) | None => (sum, count) end) (sum, count) vals
    = (foldl f64_add sum (omap to_f64 vals), count + zlen (omap to_f64 vals))) as ->.
  { clear vals. induction vals as [|v vals IH]; intros sum count; cbn [foldl omap list_omap]; [f_equal; rewrite zlen_nil; lia|].
    destruct (to_f64 v); rewrite IH; [|done]. cbn [foldl]. f_equal. rewrite zlen_cons. lia. }
  rewrite Z.add_0_l. destruct (omap to_f64 vals) as [|x l]; [done|]. destruct (Z.eqb_spec (zlen (x :: l)) 0) as [E|E]; [|done].
  rewrite zlen_cons in E. pose proof (zlen_nonneg l). lia.
Qed.

Lemma bytes_cmp_strict c a b d : c ≠ Eq → bytes_cmp a b = c → bytes_cmp b d = c → bytes_cmp a d = c.
Proof.
  assert (∀ a b d, bytes_cmp a b = Lt → bytes_cmp b d = Lt → bytes_cmp a d = Lt) as Hlt.
  { clear. intros a b d H1 H2. destruct (bytes_cmp a d) eqn:E; [|done|].
    - apply bytes_cmp_eq in E as ->. rewrite bytes_cmp_antisym, H1 in H2. done.
    - by apply (bytes_cmp_trans a b d) in E; rewrite ?H1, ?H2. }
  destruct c; [done|intros _; apply Hlt|]. intros _ H1 H2.
  rewrite (bytes_cmp_antisym d a), (Hlt d b a); [done|by rewrite bytes_cmp_antisym, H2|by rewrite bytes_cmp_antisym, H1].
Qed.
(** No value of the list beats the best one. *)
Lemma best_value_spec reals c vals : c ≠ Eq → Forall (comparable reals) vals →
  match foldl (best_step c) None vals with
  | None => non_null vals = []
  | Some m => m ∈ non_null vals ∧ ∀ v, v ∈ non_null vals → partial_cmp v m ≠ Some c
  end.
Proof.
  intros Hc Hv.
  assert (∀ best pre, Forall (comparable reals) pre →
    match best with None => non_null pre = [] | Some m => m ∈ non_null pre ∧ ∀ v, v ∈ non_null pre → partial_cmp v m ≠ Some c end →
    match foldl (best_step c) best vals with
    | None => non_null (pre ++ vals) = []
    | Some m => m ∈ non_null (pre ++ vals) ∧ ∀ v, v ∈ non_null (pre ++ vals) → partial_cmp v m ≠ Some c
    end) as H; [|exact (H None [] (Forall_nil_2 _) eq_refl)].
  induction Hv as [|v vals Hv _ IH]; intros best pre Hpre Hbest; [by rewrite app_nil_r|]. cbn [foldl].
  replace (pre ++ v :: vals) with ((pre ++ [v]) ++ vals) by (by rewrite <- app_assoc).
  apply IH; [by apply Forall_app_2; [|constructor]|]. unfold best_step, non_null in *. rewrite filter_app, filter_cons.
  destruct (is_null v) eqn:En; [by rewrite decide_False, app_nil_r|]. rewrite decide_True by done. cbn [filter list_filter].
  assert (∀ a, comparable reals a → partial_cmp a a ≠ Some c) as Hself.
  { intros a Ha. rewrite (partial_cmp_key reals) by done. intros [= E]. apply Hc. rewrite <- E. by apply bytes_cmp_eq. }
  destruct best as [m|].
  - destruct Hbest as [Hm Hall]. unfold cmp_is. case_bool_decide as Ecmp.
    + split; [set_solver|]. intros w [Hw| ->%list_elem_of_singleton]%elem_of_app Ew; [|by eapply Hself].
      apply (Hall w Hw). apply list_elem_of_filter in Hw as [_ Hw]. apply list_elem_of_filter in Hm as [_ Hm].
      rewrite Forall_forall in Hpre. rewrite (partial_cmp_key reals) in Ew, Ecmp |- * by auto. f_equal.
      injection Ew as Ew. injection Ecmp as Ecmp. by eapply bytes_cmp_strict.
    + split; [set_solver|]. intros w [Hw| ->%list_elem_of_singleton]%elem_of_app; [by apply Hall|done].
  - rewrite Hbest. split; [set_solver|]. intros w ->%list_elem_of_singleton. by apply Hself.
Qed.

(** ** Properties *)

(** Grouping partitions the rows: one group for each key, in the order of
    the keys' first rows, and in it exactly the rows with that key, in their
    order. *)
Theorem grouping_partitions {A} (keyed : list (bytes * A)) :
  let groups := group_loop keyed ∅ [] in
  let keys := first_keys keyed [] in
  groups = map (λ k, rows_with k keyed) keys
  ∧ NoDup keys ∧ (∀ k, k ∈ keys ↔ k ∈ map fst keyed)
  ∧ mjoin groups ≡ₚ map snd keyed ∧ Forall (λ g, g ≠ []) groups.
Proof.
  intros groups keys. destruct (first_keys_spec keyed [] NoDup_nil_2) as [Hnd Hk].
  assert (groups = map (λ k, rows_with k keyed) keys) as Hg.
  { apply (group_loop_spec keyed ∅ [] [] []); [constructor| |done|].
    - intros k i. rewrite lookup_empty. split; [done|]. by intros ?%lookup_lt_Some%Nat.nlt_0_r.
    - intros kr Hin. by apply elem_of_nil in Hin. }
  assert (∀ k, k ∈ keys ↔ k ∈ map fst keyed) as Hin by (intros k; unfold keys; rewrite Hk; set_solver).
  split; [done|]. split; [done|]. split; [done|]. rewrite Hg. split.
  - apply groups_cover; [done|]. intros kr Hkr. apply Hin. by apply list_elem_of_fmap_2.
  - apply Forall_forall. intros g (k & -> & Hkk)%list_elem_of_fmap. apply Hin, list_elem_of_fmap in Hkk as (kr & -> & Hkr).
    unfold rows_with. intros E. apply map_eq_nil in E.
    assert (kr ∈ filter (λ x, x.1 = kr.1) keyed) as Hf by (by apply list_elem_of_filter). rewrite E in Hf. by apply elem_of_nil in Hf.
Qed.

Section AggregateProperties.
Context {S W R : Type} `{StdFns} `{SelectExec S R} `{OtherFunctions R}.

Lemma aggregate_pure (arg : Expr S W) f rows cm (s : VM R) (g : list Value → Value) :
  (∀ row, row ∈ rows → eval_expr row cm arg s = (Ok (f row), s)) →
  (vals ← mapM (λ row, eval_expr row cm arg) rows; mret (g vals)) s = (Ok (g (map f rows)), s).
Proof. intros Hf. rewrite ST_bind_unfold, (st_mapM_pure _ f) by exact Hf. done. Qed.

(** [C35] Over a group in whose rows the argument evaluates without changing the
    state, the aggregate functions are what their names say of the values that
    are not NULL.  COUNT is their number (of an argument that is not the literal
    1, which the parser puts for COUNT of a star); COUNT(DISTINCT), of values
    that are no doubles, the number of different ones.  SUM is the exact sum of
    integers as long as no partial sum overflows; from the first value that is
    a double, a text that is a number, or an integer that overflows, it is the
    sum of the values as doubles, in the order of the rows.  AVG is the sum as
    doubles divided by the number of numbers.  MIN and MAX, of values of one
    kind, are a value that none beats. *)
Theorem aggregates_correct (arg : Expr S W) (f : Row → Value) (rows : list Row) (cm : ColMap) (s : VM R)
    (Harg : arg ≠ IntegerLiteral 1) (Hf : ∀ row, row ∈ rows → eval_expr row cm arg s = (Ok (f row), s)) :
  let vals := map f rows in
  let aggregate name distinct := eval_aggregate name [arg] distinct rows cm s in
  aggregate "COUNT"%string false = (Ok (VInteger (zlen (non_null vals))), s)
  ∧ (Forall key_ok vals → ∃ ds, NoDup ds ∧ (∀ v, v ∈ ds ↔ v ∈ non_null vals) ∧ aggregate "COUNT"%string true = (Ok (VInteger (zlen ds)), s))
  ∧ (Forall whole vals → (∀ n, is_i64 (zsum (take n (ints vals)))) →
      aggregate "SUM"%string false = (Ok (match ints vals with [] => VNull | l => VInteger (zsum l) end), s))
  ∧ (∀ pre v post x, vals = pre ++ v :: post → Forall whole pre → (∀ n, is_i64 (zsum (take n (ints pre)))) → to_f64 v = Some x →
      (∀ z, v = VInteger z → ¬ is_i64 (zsum (ints pre) + z)) →
      aggregate "SUM"%string false = (Ok (VReal (bits_of_f64 (foldl f64_add (f64_of_i64 (zsum (ints pre))) (x :: omap to_f64 post)))), s))
  ∧ aggregate "AVG"%string false
    = (Ok (match omap to_f64 vals with
           | [] => VNull
           | l => VReal (bits_of_f64 (SFdiv 53 1024 (foldl f64_add (S754_zero false) l) (f64_of_i64 (zlen l))))
           end), s)
  ∧ (∀ reals, Forall (comparable reals) vals →
      (non_null vals = [] ∧ aggregate "MIN"%string false = (Ok VNull, s) ∧ aggregate "MAX"%string false = (Ok VNull, s))
      ∨ ∃ least greatest,
        aggregate "MIN"%string false = (Ok least, s) ∧ least ∈ non_null vals ∧ (∀ v, v ∈ non_null vals → partial_cmp v least ≠ Some Lt)
        ∧ aggregate "MAX"%string false = (Ok greatest, s) ∧ greatest ∈ non_null vals
        ∧ (∀ v, v ∈ non_null vals → partial_cmp v greatest ≠ Some Gt)).
Proof.
  intros vals aggregate.
  assert (∀ d, aggregate "COUNT"%string d = (Ok (VInteger (count_values d vals ∅)), s)) as Hcount.
  { intros d. rewrite <- (aggregate_pure arg f rows cm s (λ vals, VInteger (count_values d vals ∅)) Hf). unfold aggregate, eval_aggregate.
    cbn [eq_ignore_ascii_case]. destruct arg as [[|[]|]| | | | | | | | | | | | | | | | | | | | | | | | | ]; try reflexivity. done. }
  split; [by rewrite Hcount, count_all_values|]. split; [|split; [|split; [|split]]].
  - intros Hk. destruct (count_distinct_values vals ∅ [] Hk (Forall_nil_2 _)) as (ds & Hnd & Hd & Hc); [set_solver|].
    exists ds. split; [done|]. split; [|by rewrite Hcount, Hc]. intros v. rewrite Hd. set_solver.
  - intros Hi Hr. etrans; [apply (aggregate_pure arg f rows cm s sum_values Hf)|]. fold vals. unfold sum_values.
    rewrite sum_integer_values by (done || intros n; cbn; apply Hr). cbn [has_value is_int int_sum orb].
    destruct (ints vals); [done|]. by rewrite bool_decide_false.
  - intros pre v post x Ev Hpre Hr Hx Hv. etrans; [apply (aggregate_pure arg f rows cm s sum_values Hf)|]. fold vals.
    rewrite Ev. by rewrite (sum_mixed_values pre v post x).
  - etrans; [apply (aggregate_pure arg f rows cm s avg_values Hf)|]. fold vals. by rewrite avg_values_spec.
  - intros reals Hc. pose proof (best_value_spec reals Lt vals ltac:(done) Hc) as Hmin.
    pose proof (best_value_spec reals Gt vals ltac:(done) Hc) as Hmax.
    assert (aggregate "MIN"%string false = (Ok (best_value Lt vals), s)) as -> by apply (aggregate_pure arg f rows cm s (best_value Lt) Hf).
    assert (aggregate "MAX"%string false = (Ok (best_value Gt vals), s)) as -> by apply (aggregate_pure arg f rows cm s (best_value Gt) Hf).
    unfold best_value. destruct (foldl (best_step Lt) None vals) as [l|], (foldl (best_step Gt) None vals) as [g|]; cbn.
    + right. exists l, g. naive_solver.
    + destruct Hmin as [Hm _]. rewrite Hmax in Hm. by apply elem_of_nil in Hm.
    + destruct Hmax as [Hm _]. rewrite Hmin in Hm. by apply elem_of_nil in Hm.
    + by left.
Qed.

(** An expression without function calls (and without MATCH) where the
    evaluation with aggregates looks. *)
Fixpoint call_free (e : Expr S W) : bool :=
  match e with
  | Function _ _ _ | BinaryOp _ FtsMatch _ => false
  | BinaryOp l _ r => call_free l && call_free r
  | UnaryOp _ e | Nested e | IsNull e _ | Collate e _ | Interval e _ => call_free e
  | InList e l _ => call_free e && forallb call_free l
  | Between e lo hi _ => call_free e && call_free lo && call_free hi
  | ELike e p _ _ _ => call_free e && call_free p
  | _ => true
  end.
(** Without function calls, evaluation in a group is evaluation in its
    first row: the second evaluator agrees with the first, errors, effects and
    short-circuiting included. *)
Theorem group_evaluation_agrees (row : Row) (cm : ColMap) (group : list Row) (e : Expr S W) (He : call_free e = true) :
  eval_expr_with_aggregates row cm group e = eval_expr row cm e.
Proof.
  revert He. induction e as [e IH] using Expr_ind. destruct e; cbn [call_free subs] in *; intros He; try done;
    repeat match goal with
    | H : Forall _ (_ :: _) |- _ => inversion H; clear H; subst
    end; try (destruct op; try done); repeat match goal with
    | H : _ && _ = true |- _ => apply andb_prop in H as [? ?]
    end; cbn [eval_expr_with_aggregates eval_expr]; repeat match goal with
    | IH : call_free ?e = true → _ = _ |- context [eval_expr_with_aggregates _ _ _ ?e] => rewrite IH by done
    end; try reflexivity.
  assert (map (eval_expr_with_aggregates row cm group) list = map (eval_expr row cm) list) as ->; [|done].
  apply map_ext_in. intros x Hx%list_elem_of_In. match goal with H : Forall _ list |- _ => rewrite Forall_forall in H; apply (H x Hx) end.
  eapply (forallb_forall call_free list); [done|]. by apply list_elem_of_In.
Qed.
End AggregateProperties.

(** *** Instances and divergences *)

(** No window functions. *)
Definition no_windows {S W R} : WindowFns S W unit R := λ _ groups _ _, mret (map (λ _, []) groups).

Section Samples.
#[local] Existing Instance ascii_std.
#[local] Existing Instance count_select.
#[local] Existing Instance no_functions.
#[local] Existing Instance no_windows.
Definition col_a : Expr nat unit := ColumnRef None "a".
Definition map_a : ColMap := {["a"%string := 0%nat; "k"%string := 1%nat]}.
Definition rows_a : list Row := [[VInteger 3; VText [120]]; [VNull; VText [121]]; [VInteger 5; VText [120]]; [VInteger 3; VText [120]]].

Lemma aggregates_correct_witness :
  eval_aggregate "COUNT" [col_a] false rows_a map_a sample_state = (Ok (VInteger 3), sample_state)
  ∧ (∃ ds, NoDup ds ∧ (∀ v, v ∈ ds ↔ v ∈ non_null (map (λ r, cell r 0) rows_a))
      ∧ eval_aggregate "COUNT" [col_a] true rows_a map_a sample_state = (Ok (VInteger (zlen ds)), sample_state))
  ∧ eval_aggregate "SUM" [col_a] false rows_a map_a sample_state = (Ok (VInteger 11), sample_state)
  ∧ (let rows := [[VInteger 3; VNull]; [VReal 0x3FE0000000000000; VNull]; [VInteger 5; VNull]] in
     eval_aggregate "SUM" [col_a] false rows map_a sample_state = (Ok (VReal 0x4021000000000000), sample_state)).
Proof.
  destruct (aggregates_correct (S:=nat) (W:=unit) col_a (λ r, cell r 0) rows_a map_a sample_state) as (Hc & Hd & Hs & _).
  - discriminate.
  - intros row Hrow. unfold rows_a in Hrow. rewrite !elem_of_cons, elem_of_nil in Hrow. destruct Hrow as [->|[->|[->|[->|[]]]]]; reflexivity.
  - split; [rewrite Hc; vm_compute; reflexivity|]. split; [|split].
    + apply Hd. repeat (constructor; [cbn; unfold is_i64; lia|]). constructor.
    + rewrite Hs; [reflexivity|repeat (constructor; [first [exact I|reflexivity]|]); constructor|].
      intros n. change (ints (map (λ r, cell r 0) rows_a)) with [3; 5; 3].
      destruct n as [|[|[|n]]]; cbn [take]; rewrite ?take_nil; unfold is_i64, zsum; cbn [foldr]; lia.
    + intros rows. destruct (aggregates_correct (S:=nat) (W:=unit) col_a (λ r, cell r 0) rows map_a sample_state) as (_ & _ & _ & Hr & _).
      * discriminate.
      * intros row Hrow. unfold rows in Hrow. rewrite !elem_of_cons, elem_of_nil in Hrow. destruct Hrow as [->|[->|[->|[]]]]; reflexivity.
      * rewrite (Hr [VInteger 3] (VReal 0x3FE0000000000000) [VInteger 5] (f64_of_bits 0x3FE0000000000000)).
        -- vm_compute. reflexivity.
        -- reflexivity.
        -- repeat constructor.
        -- intros [|[|n]]; split; vm_compute; done.
        -- reflexivity.
        -- discriminate.
Defined.
Lemma group_evaluation_agrees_witness :
  let e : Expr nat unit := BinaryOp (Between col_a (IntegerLiteral 1) (IntegerLiteral 4) true) Or (InList col_a [IntegerLiteral 3; ENull] false) in
  call_free e = true ∧
  eval_expr_with_aggregates [VInteger 3; VNull] map_a rows_a e sample_state = (Ok (VInteger 1), sample_state).
Proof.
  intros e. split; [reflexivity|]. rewrite (group_evaluation_agrees (S:=nat) (W:=unit) _ _ _ e eq_refl). vm_compute. reflexivity.
Defined.

(** An aggregate inside CASE or CAST is not found: the query is not taken for
    an aggregation, and inside a group the branch is evaluated in the first row
    only, where COUNT is 1 and SUM is the value of its argument. *)
Lemma aggregate_hidden_in_case :
  let count_gt_1 : Expr nat unit := BinaryOp (Function "COUNT" [] false) GreaterThan (IntegerLiteral 1) in
  let e := Case None [(count_gt_1, IntegerLiteral 100)] (Some (IntegerLiteral 200)) in
  let sum_text := Cast (Function "SUM" [col_a] false) CtText false in
  has_aggregate [SExpr e None] = false ∧ has_aggregate [SExpr sum_text None] = false
  ∧ eval_expr_with_aggregates (default [] (head rows_a)) map_a rows_a count_gt_1 sample_state = (Ok (VInteger 1), sample_state)
  ∧ eval_expr_with_aggregates (default [] (head rows_a)) map_a rows_a e sample_state = (Ok (VInteger 200), sample_state)
  ∧ eval_expr_with_aggregates (default [] (head rows_a)) map_a rows_a sum_text sample_state = (Ok (VText [51]), sample_state).
Proof. vm_compute. done. Qed.
(** SUM and AVG do not look at DISTINCT. *)
Lemma sum_ignores_distinct :
  eval_aggregate "SUM" [col_a] true rows_a map_a sample_state = (Ok (VInteger 11), sample_state)
  ∧ eval_aggregate "COUNT" [col_a] true rows_a map_a sample_state = (Ok (VInteger 2), sample_state).
Proof. vm_compute. done. Qed.
(** COUNT(DISTINCT 1) counts the rows. *)
Lemma count_distinct_one_counts_rows :
  eval_aggregate (S:=nat) (W:=unit) "COUNT" [IntegerLiteral 1] true rows_a map_a sample_state = (Ok (VInteger 4), sample_state)
  ∧ eval_aggregate (S:=nat) (W:=unit) "COUNT" [IntegerLiteral 2] true rows_a map_a sample_state = (Ok (VInteger 1), sample_state).
Proof. vm_compute. done. Qed.
(** In a group every argument of a function is evaluated first: COALESCE fails
    on an argument it does not need. *)
Lemma group_coalesce_not_lazy :
  let e : Expr nat unit := Function "COALESCE" [IntegerLiteral 1; Cast (StringLiteral [120]) CtInteger false] false in
  eval_expr [] ∅ e sample_state = (Ok (VInteger 1), sample_state)
  ∧ is_Err (eval_expr_with_aggregates [] ∅ [[]] e sample_state).1 = true.
Proof. vm_compute. done. Qed.
End Samples.
