(* ===== verification/Window.v ===== *)
(** Window functions (src/src/vm/exec_select.rs, [extract_window_funcs] and
    [eval_window_functions_for_groups]): partitions, their order, frames, and
    the value of a window function for each row (or each group of an aggregate
    query). *)
From S2P Require Import Prelude Values Text Expr ExprTypes RowOps Joins Aggregates.
From Stdlib Require Import Floats.SpecFloat.

(** ** Syntax *)

Inductive WindowFunc {E : Type} : Type :=
  | RowNumber | Rank | DenseRank | PercentRank | CumeDist
  | Ntile (n : E)
  | Lag (expr : E) (offset default : option E)
  | Lead (expr : E) (offset default : option E)
  | FirstValue (expr : E) | LastValue (expr : E) | NthValue (expr n : E)
  | WAggregate (name : string) (args : list E) (distinct : bool).
Arguments WindowFunc : clear implicits.
Inductive WindowFrameUnit : Type := Rows | Range | Groups.
Inductive WindowBound {E : Type} : Type :=
  | UnboundedPreceding | Preceding (e : E) | CurrentRow | Following (e : E) | UnboundedFollowing.
Arguments WindowBound : clear implicits.
Record WindowFrame {E : Type} : Type := mkFrame { unit_of : WindowFrameUnit; start_of : WindowBound E; end_of : option (WindowBound E) }.
Arguments WindowFrame : clear implicits.
(** An [OrderByItem]. *)
Abbreviation OrderByItem E := (E * Direction)%type.
(** [Expr::WindowFunction] *)
Record WindowSpec {E : Type} : Type := mkWindow {
  func : WindowFunc E; partition_by : list E; order_by : list (OrderByItem E); frame : option (WindowFrame E) }.
Arguments WindowSpec : clear implicits.
(** [NamedWindowDefinition] *)
Record NamedWindow {E : Type} : Type := mkNamed {
  window_name : string; named_partition_by : list E; named_order_by : list (OrderByItem E); named_frame : option (WindowFrame E) }.
Arguments NamedWindow : clear implicits.
(** The window function of a [WindowFunction] node. *)
Class WindowSyntax (S W : Type) := window_spec : W → WindowSpec (Expr S W).

(** ** Extraction *)

Section Extract.
Context {S W : Type}.
Abbreviation Es := (list (Expr S W)).

(** [extract_window_funcs]: each window function is replaced by a call of
    [__win] with its index among the extracted ones. *)
Fixpoint extract_window_funcs (expr : Expr S W) (acc : Es) : Expr S W * Es :=
  let extract := extract_window_funcs in
  match expr with
  | WindowFunction _ => (Function "__win" [IntegerLiteral (zlen acc)] false, acc ++ [expr])
  | BinaryOp l op r => let '(l, acc) := extract l acc in let '(r, acc) := extract r acc in (BinaryOp l op r, acc)
  | UnaryOp op e => let '(e, acc) := extract e acc in (UnaryOp op e, acc)
  | Nested e => let '(e, acc) := extract e acc in (Nested e, acc)
  | Cast e ty try => let '(e, acc) := extract e acc in (Cast e ty try, acc)
  | Collate e c => let '(e, acc) := extract e acc in (Collate e c, acc)
  | Interval e f => let '(e, acc) := extract e acc in (Interval e f, acc)
  | IsNull e n => let '(e, acc) := extract e acc in (IsNull e n, acc)
  | Function name args d =>
      let '(args, acc) := (fix go l acc := match l with
        | [] => ([], acc)
        | e :: l' => let '(e', acc) := extract e acc in let '(l', acc) := go l' acc in (e' :: l', acc)
        end) args acc in (Function name args d, acc)
  | InList e l n =>
      let '(e, acc) := extract e acc in
      let '(l, acc) := (fix go l acc := match l with
        | [] => ([], acc)
        | e :: l' => let '(e', acc) := extract e acc in let '(l', acc) := go l' acc in (e' :: l', acc)
        end) l acc in (InList e l n, acc)
  | Between e lo hi n =>
      let '(e, acc) := extract e acc in let '(lo, acc) := extract lo acc in let '(hi, acc) := extract hi acc in (Between e lo hi n, acc)
  | ELike e p esc ci n => let '(e, acc) := extract e acc in let '(p, acc) := extract p acc in (ELike e p esc ci n, acc)
  | Case operand whens els =>
      let '(operand, acc) := match operand with
        | Some e => let '(e, acc) := extract e acc in (Some e, acc) | None => (None, acc) end in
      let '(whens, acc) := (fix go l acc := match l with
        | [] => ([], acc)
        | (c, r) :: l' =>
            let '(c, acc) := extract c acc in let '(r, acc) := extract r acc in
            let '(l', acc) := go l' acc in ((c, r) :: l', acc)
        end) whens acc in
      let '(els, acc) := match els with
        | Some e => let '(e, acc) := extract e acc in (Some e, acc) | None => (None, acc) end in
      (Case operand whens els, acc)
  | _ => (expr, acc)
  end.
End Extract.

(** ** Pure parts *)

(** [Vec<Value> == Vec<Value>] *)
Fixpoint keys_eq (a b : list Value) : bool :=
  match a, b with
  | [], [] => true
  | x :: a', y :: b' => value_eq x y && keys_eq a' b'
  | _, _ => false
  end.
(** SUM over a frame: integers wrap around, other values than numbers do not
    count. *)
Definition window_sum_step (acc : SumAcc) (v : Value) : SumAcc :=
  match v with
  | VInteger x =>
      if is_int acc then mkSum (wrapping_add (int_sum acc) x) (real_sum acc) true true
      else mkSum (int_sum acc) (f64_add (real_sum acc) (f64_of_i64 x)) false true
  | VReal x => add_f64 acc (f64_of_bits x)
  | _ => acc
  end.
Definition window_sum (vals : list Value) : Value :=
  let acc := foldl window_sum_step (mkSum 0 (S754_zero false) true false) vals in
  if negb (has_value acc) then VNull
  else if is_int acc then VInteger (int_sum acc) else VReal (bits_of_f64 (real_sum acc)).
Definition window_avg (vals : list Value) : Value :=
  match non_null vals with
  | [] => VNull
  | vs =>
      let sum := foldl (λ sum v, match v with
                   | VInteger x => f64_add sum (f64_of_i64 x)
                   | VReal x => f64_add sum (f64_of_bits x)
                   | _ => sum
                   end) (S754_zero false) vs in
      VReal (bits_of_f64 (SFdiv 53 1024 sum (f64_of_i64 (zlen vs))))
  end.
(** [Iterator::max_by], which keeps the last of equal elements, and [min_by],
    which keeps the first. *)
Definition cmp_or_equal (a b : Value) : comparison := default Eq (partial_cmp a b).
Definition max_by (vals : list Value) : Value :=
  match vals with
  | [] => VNull
  | v :: vs => foldl (λ best v, match cmp_or_equal best v with Gt => best | _ => v end) v vs
  end.
Definition min_by (vals : list Value) : Value :=
  match vals with
  | [] => VNull
  | v :: vs => foldl (λ best v, match cmp_or_equal best v with Gt => v | _ => best end) v vs
  end.
Definition window_aggregate (name : string) (frame_vals : list Value) : Value :=
  let named n := eq_ignore_ascii_case name n in
  if named "SUM"%string then window_sum frame_vals
  else if named "COUNT"%string then VInteger (zlen (non_null frame_vals))
  else if named "AVG"%string then window_avg frame_vals
  else if named "MAX"%string then max_by (non_null frame_vals)
  else if named "MIN"%string then min_by (non_null frame_vals)
  else VNull.
(** The bucket of the row at [p] of [n_total] in NTILE([n_buckets]). *)
Definition ntile (n_total n_buckets p : Z) : Z :=
  let bucket_size := n_total / n_buckets in
  let remainder := n_total mod n_buckets in
  let bucket :=
    if p <? remainder * (bucket_size + 1) then p / (bucket_size + 1) + 1
    else (p - remainder * (bucket_size + 1)) / Z.max bucket_size 1 + remainder + 1 in
  Z.min bucket n_buckets.
(** The boundaries of the peer groups of a partition, from the flags that say
    whether row [q] has other keys than the row before it. *)
Fixpoint group_bounds (changes : list bool) (q gp_start : nat) : list (nat * nat) :=
  match changes with
  | [] => [(gp_start, (q - 1)%nat)]
  | true :: changes' => (gp_start, (q - 1)%nat) :: group_bounds changes' (S q) q
  | false :: changes' => group_bounds changes' (S q) gp_start
  end.
Definition divide_positions (a b : nat) : Value :=
  VReal (bits_of_f64 (SFdiv 53 1024 (f64_of_i64 (Z.of_nat a)) (f64_of_i64 (Z.of_nat b)))).

(** ** Evaluation *)

Section Windows.
Context {S W R : Type} `{StdFns} `{SelectExec S R} `{OtherFunctions R}.
Abbreviation E := (Expr S W).
Abbreviation M := (ST (VM R)).

(** [.unwrap_or(Value::Null)] on an evaluation. *)
Definition unwrap_null (m : M Value) : M Value := λ s, match m s with (Err _, s') => (Ok VNull, s') | r => r end.
(** [eval_constant_expr(e).unwrap_or(default)] *)
Definition constant_or (default_val : Value) (e : E) : M Value := λ s,
  match eval_expr [] ∅ e s with (Err _, s') => (Ok default_val, s') | r => r end.
Definition constant_integer (default_val : Z) (e : E) : M (option Z) :=
  v ← constant_or (VInteger default_val) e; mret (match v with VInteger z => Some z | _ => None end).

Section Partition.
Context (groups : list (list Row)) (col_map : ColMap).

Definition group_at (g : nat) : list Row := default [] (groups !! g).
(** An expression for a group: in its first row, with its aggregates. *)
Definition eval_group (g : nat) (e : E) : M Value :=
  eval_expr_with_aggregates (default [] (head (group_at g))) col_map (group_at g) e.
Definition order_keys (order_by : list (OrderByItem E)) (g : nat) : M (list Value) :=
  mapM (λ item, unwrap_null (eval_group g item.1)) order_by.

(** The partitions, as lists of group indices. *)
Definition partitions (partition_by : list E) : M (list (list nat)) :=
  match partition_by with
  | [] => mret [seq 0 (length groups)]
  | _ =>
      keyed ← mapM (λ g, vals ← mapM (eval_group g) partition_by; mret (tuple_key vals, g)) (seq 0 (length groups));
      mret (group_loop keyed ∅ [])
  end.
Definition sort_partition (order_by : list (OrderByItem E)) (part : list nat) : M (list nat) :=
  match order_by with
  | [] => mret part
  | _ =>
      keyed ← mapM (λ g, keys ← order_keys order_by g; mret (g, keys)) part;
      mret (map fst (sort_by (λ a b, compare_setop (map snd order_by) a.2 b.2) keyed))
  end.

(** One partition in its order, with the order that made it. *)
Context (order_by : list (OrderByItem E)) (part : list nat).
Definition keys_at (q : nat) : M (list Value) := g ← st_lift (at_index part q); order_keys order_by g.
(** The last of the positions that follow each other with the current keys. *)
Fixpoint scan_peers (cur_keys : list Value) (qs : list nat) (found : nat) : M nat :=
  match qs with
  | [] => mret found
  | q :: qs' => q_keys ← keys_at q; if keys_eq q_keys cur_keys then scan_peers cur_keys qs' q else mret found
  end.
(** The first position with the current keys. *)
Fixpoint find_peer (cur_keys : list Value) (qs : list nat) (p : nat) : M nat :=
  match qs with
  | [] => mret p
  | q :: qs' => q_keys ← keys_at q; if keys_eq q_keys cur_keys then mret q else find_peer cur_keys qs' p
  end.
(** The different keys of the first positions. *)
Fixpoint seen_keys (qs : list nat) (seen : list (list Value)) : M (list (list Value)) :=
  match qs with
  | [] => mret seen
  | q :: qs' => q_keys ← keys_at q; seen_keys qs' (if existsb (λ k, keys_eq k q_keys) seen then seen else seen ++ [q_keys])
  end.
Definition last_pos : nat := length part - 1.

(** *** Frames *)

(** A bound of a ROWS frame; [other] is what a bound that is not an integer
    gives. *)
Definition rows_bound (other p : Z) (b : WindowBound E) : M Z :=
  match b with
  | CurrentRow => mret p
  | UnboundedPreceding => mret 0
  | Preceding e => v ← constant_integer 0 e; mret (match v with Some v => saturating_sub p (as_u64 v) | None => other end)
  | Following e => v ← constant_integer 0 e; mret (match v with Some v => saturating_add_u64 p (as_u64 v) | None => p end)
  | UnboundedFollowing => mret (Z.of_nat last_pos)
  end.
Definition rows_frame (p : nat) (wf : WindowFrame E) : M (Z * Z) :=
  start ← rows_bound 0 (Z.of_nat p) (start_of wf);
  stop ← match end_of wf with Some b => rows_bound (Z.of_nat p) (Z.of_nat p) b | None => mret (Z.of_nat p) end;
  mret (start, stop).
Definition range_frame (p : nat) (wf : WindowFrame E) (cur_keys : list Value) : M (Z * Z) :=
  start ← match start_of wf with
          | CurrentRow => q ← scan_peers cur_keys (rev (seq 0 p)) p; mret (Z.of_nat q)
          | _ => mret 0
          end;
  stop ← match default CurrentRow (end_of wf) with
         | CurrentRow => q ← scan_peers cur_keys (seq (p + 1) (length part - (p + 1))) p; mret (Z.of_nat q)
         | _ => mret (Z.of_nat last_pos)
         end;
  mret (start, stop).
(** A bound of a GROUPS frame, in peer groups; the sum overflows as an integer
    of the machine. *)
Definition group_bound (cur n : Z) (b : WindowBound E) : M Z :=
  let amount e := v ← constant_integer 0 e; mret (match v with Some v => as_u64 v | None => 0 end) in
  match b with
  | UnboundedPreceding => mret 0
  | CurrentRow => mret cur
  | Preceding e => v ← amount e; mret (saturating_sub cur v)
  | Following e => v ← amount e; if U64_MAX <? cur + v then st_lift Panic else mret (Z.min (cur + v) (saturating_sub n 1))
  | UnboundedFollowing => mret (saturating_sub n 1)
  end.
Definition groups_frame (p : nat) (wf : WindowFrame E) : M (Z * Z) :=
  changes ← mapM (λ q, q_keys ← keys_at q; prev_keys ← keys_at (q - 1); mret (negb (keys_eq q_keys prev_keys))) (seq 1 last_pos);
  let bounds := group_bounds changes 1 0 in
  let cur := match list_find (λ '(s, e), (s <= p <= e)%nat) bounds with Some (i, _) => Z.of_nat i | None => 0 end in
  group_start ← group_bound cur (zlen bounds) (start_of wf);
  group_end ← group_bound cur (zlen bounds) (default CurrentRow (end_of wf));
  first ← st_lift (index bounds group_start);
  last ← st_lift (index bounds (Z.max group_end group_start));
  mret (Z.of_nat first.1, Z.of_nat last.2).
(** [part_indices[start..=end]] after clamping. *)
Definition clamp_frame (start stop : Z) : list nat :=
  let start := Z.min start (Z.of_nat last_pos) in
  let stop := Z.max (Z.min stop (Z.of_nat last_pos)) start in
  sub part start (stop - start + 1).
Definition frame_of (p : nat) (wf : option (WindowFrame E)) : M (list nat) :=
  '(start, stop) ←
    match wf with
    | Some wf =>
        match unit_of wf with
        | Rows => rows_frame p wf
        | Range => cur_keys ← keys_at p; range_frame p wf cur_keys
        | Groups => _ ← keys_at p; groups_frame p wf
        end
    | None => mret (0, match order_by with [] => Z.of_nat last_pos | _ => Z.of_nat p end)
    end;
  mret (clamp_frame start stop).

(** *** Functions *)

(** The position that RANK counts from, from zero. *)
Definition first_peer (p : nat) : M nat :=
  match order_by with
  | [] => mret p
  | _ => cur_keys ← keys_at p; find_peer cur_keys (seq 0 p) p
  end.
Definition eval_at (q : nat) (e : E) : M Value := g ← st_lift (at_index part q); unwrap_null (eval_group g e).
Definition default_value (d : option E) : M Value := match d with Some d => constant_or VNull d | None => mret VNull end.
Definition row_offset (offset : option E) : M Z :=
  match offset with Some o => v ← constant_integer 1 o; mret (match v with Some v => as_u64 v | None => 1 end) | None => mret 1 end.
(** The [match func] for the row at position [p], with its frame. *)
Definition window_value (f : WindowFunc E) (p : nat) (frame_indices : list nat) : M Value :=
  let n := length part in
  let eval_g g e := unwrap_null (eval_group g e) in
  match f with
  | RowNumber => mret (VInteger (Z.of_nat p + 1))
  | Rank => q ← first_peer p; mret (VInteger (Z.of_nat q + 1))
  | DenseRank =>
      match order_by with
      | [] => mret (VInteger (Z.of_nat p + 1))
      | _ => _ ← keys_at p; seen ← seen_keys (seq 0 (p + 1)) []; mret (VInteger (zlen seen))
      end
  | PercentRank =>
      if (n <=? 1)%nat then mret (VReal 0) else q ← first_peer p; mret (divide_positions q (n - 1))
  | CumeDist =>
      if (n =? 0)%nat then mret (VReal 0)
      else cur_keys ← keys_at p; q ← scan_peers cur_keys (seq (p + 1) (n - (p + 1))) p; mret (divide_positions (q + 1) n)
  | Ntile e =>
      v ← constant_integer 1 e;
      let n_buckets := match v with Some v => if 0 <? v then v else 1 | None => 1 end in
      mret (VInteger (ntile (Z.of_nat n) n_buckets (Z.of_nat p)))
  | Lag e offset d =>
      off ← row_offset offset;
      if off <=? Z.of_nat p then eval_at (p - Z.to_nat off) e else default_value d
  | Lead e offset d =>
      off ← row_offset offset;
      if U64_MAX <? Z.of_nat p + off then st_lift Panic
      else if Z.of_nat p + off <? Z.of_nat n then eval_at (p + Z.to_nat off) e else default_value d
  | FirstValue e => match frame_indices with [] => mret VNull | g :: _ => eval_g g e end
  | LastValue e => match last frame_indices with None => mret VNull | Some g => eval_g g e end
  | NthValue e n_expr =>
      v ← constant_integer 1 n_expr;
      let nth := match v with Some v => if 1 <=? v then v - 1 else 0 | None => 0 end in
      if nth <? zlen frame_indices then g ← st_lift (index frame_indices nth); eval_g g e else mret VNull
  | WAggregate name args _ =>
      frame_vals ← match args with [] => mret [] | e :: _ => mapM (λ g, eval_g g e) frame_indices end;
      mret (window_aggregate name frame_vals)
  end.
End Partition.

Context `{WindowSyntax S W}.
(** The window of a function: its own, or the named one it refers to. *)
Definition PREFIX : string := "__named_window_".
Definition active_window (spec : WindowSpec E) (defs : list (NamedWindow E)) : WindowSpec E :=
  match partition_by spec with
  | ColumnRef _ column :: _ =>
      if String.prefix PREFIX column then
        let name := String.substring (String.length PREFIX) (String.length column) column in
        match find (λ d, String.eqb (window_name d) name) defs with
        | Some d => mkWindow E (func spec) (named_partition_by d) (named_order_by d) (named_frame d)
        | None => spec
        end
      else spec
  | _ => spec
  end.
(** The values of one window function: the group indices with their values. *)
Definition window_column (groups : list (list Row)) (col_map : ColMap) (spec : WindowSpec E) : M (list (nat * Value)) :=
  parts ← partitions groups col_map (partition_by spec);
  st_flat_map (λ part,
    part ← sort_partition groups col_map (order_by spec) part;
    mapM (λ '(p, g),
      frame_indices ← frame_of groups col_map (order_by spec) part p (frame spec);
      v ← window_value groups col_map (order_by spec) part (func spec) p frame_indices;
      mret (g, v)) (imap pair part)) parts.
(** [eval_window_functions_for_groups] *)
Definition eval_window_functions_for_groups (window_exprs : list E) (groups : list (list Row)) (col_map : ColMap)
    (window_defs : list (NamedWindow E)) : M (list (list Value)) :=
  columns ← mapM (λ e,
    match e with
    | WindowFunction w => window_column groups col_map (active_window (window_spec w) window_defs)
    | _ => mret []
    end) window_exprs;
  mret (map (λ g, map (λ column : list (nat * Value), default VNull (list_find (λ gv, gv.1 = g) column ≫= λ r, Some r.2.2)) columns)
         (seq 0 (length groups))).
#[export] Instance select_windows : WindowFns S W (list (NamedWindow E)) R := eval_window_functions_for_groups.
End Windows.

(** ** Lemmas: sorted partitions *)

Lemma count_filter_split {A} (f : A → bool) l k : length (List.filter f (l ++ k)) = (length (List.filter f l) + length (List.filter f k))%nat.
Proof. by rewrite List.filter_app, length_app. Qed.
Lemma positions_all {A} (f : A → bool) l : (∀ x, x ∈ l → f x = true) → List.filter f l = l.
Proof.
  induction l as [|x l IH]; intros Hf; [done|]. cbn [List.filter]. rewrite Hf by left. f_equal. apply IH. intros y Hy. apply Hf. by right.
Qed.
Lemma positions_none {A} (f : A → bool) l : (∀ x, x ∈ l → f x = false) → List.filter f l = [].
Proof.
  induction l as [|x l IH]; intros Hf; [done|]. cbn [List.filter]. rewrite Hf by left. apply IH. intros y Hy. apply Hf. by right.
Qed.
Lemma bool_filter_perm {A} (f : A → bool) l k : l ≡ₚ k → List.filter f l ≡ₚ List.filter f k.
Proof.
  induction 1 as [|x l k _ IH|x y l|l k m _ IH1 _ IH2]; cbn [List.filter]; [done|by destruct (f x); rewrite ?IH| |by rewrite IH1].
  destruct (f x), (f y); [apply Permutation_swap|done..].
Qed.
Definition is_cmp (o o' : comparison) : bool := bool_decide (o = o').

Section Split.
Context {A : Type} (P : A → Prop) (c : A → A → comparison) (Hc : total_on P c).
(** A sorted list is its elements below [x], equal to [x] and above [x]. *)
Lemma sorted_split x l : P x → Forall P l → sorted c l →
  ∃ lo eq hi, l = lo ++ eq ++ hi ∧ (∀ y, y ∈ lo → c y x = Lt) ∧ (∀ y, y ∈ eq → c y x = Eq) ∧ (∀ y, y ∈ hi → c y x = Gt).
Proof.
  intros Hx Hl Hs. induction Hs as [|y l Hs IH Hy].
  { exists [], [], []. split; [done|]. split; [|split]; intros y Hy; by apply elem_of_nil in Hy. }
  inversion Hl as [|? ? HPy HPl]; subst. destruct (IH HPl) as (lo & eq & hi & -> & Hlo & Heq & Hhi).
  rewrite Forall_forall in Hy, HPl. destruct (c y x) eqn:E.
  - assert (lo = []) as ->.
    { destruct lo as [|z lo]; [done|]. exfalso. apply (Hy z); [left|]. specialize (Hlo z ltac:(left)).
      rewrite (total_antisym _ _ Hc z y); [|apply HPl; left|done].
      assert (c z y = Lt) as ->; [|done]. rewrite <- Hlo.
      assert (c z x = CompOpp (c x z)) as -> by (apply (total_antisym _ _ Hc); [done|apply HPl; left]).
      rewrite (total_antisym _ _ Hc y z); [|done|apply HPl; left]. f_equal.
      apply (total_eq_l _ _ Hc); [done..|apply HPl; left|done]. }
    exists [], (y :: eq), hi. split; [done|]. split; [set_solver|]. split; [|done]. intros z [->|Hz]%elem_of_cons; [done|by apply Heq].
  - exists (y :: lo), eq, hi. split; [done|]. split; [|done]. intros z [->|Hz]%elem_of_cons; [done|by apply Hlo].
  - assert (∀ z, z ∈ lo ++ eq ++ hi → c z x = Gt) as Hgt.
    { intros z Hz. destruct (decide (c z x = Gt)) as [|Hn]; [done|]. exfalso.
      by apply (total_trans _ _ Hc y z x HPy (HPl z Hz) Hx (Hy z Hz)) in Hn. }
    exists [], [], (y :: lo ++ eq ++ hi). split; [done|]. split; [set_solver|]. split; [set_solver|].
    intros z [->|Hz]%elem_of_cons; [done|by apply Hgt].
Qed.
End Split.

(** *** The comparison of the window's order *)

Lemma comparable_keys_eq a b : Forall (comparable false) a → Forall (comparable false) b → keys_eq a b = bool_decide (a = b).
Proof.
  assert (∀ x y, comparable false x → comparable false y → value_eq x y = bool_decide (x = y)) as Hv.
  { intros x y Hx Hy. apply eq_true_iff_eq. rewrite bool_decide_eq_true.
    destruct x as [|z|r|t|l], y as [|z'|r'|t'|l']; cbn [comparable value_eq] in *; try (by destruct Hx); try (by destruct Hy); try done.
    - rewrite Z.eqb_eq. split; congruence.
    - rewrite bool_decide_eq_true. split; congruence.
    - rewrite bool_decide_eq_true. split; congruence. }
  intros Ha. revert b. induction Ha as [|x a Hx _ IH]; intros b Hb; destruct Hb as [|y b Hy Hb]; [done..|]. cbn [keys_eq].
  rewrite Hv, IH by done. apply eq_true_iff_eq. rewrite andb_true_iff, !bool_decide_eq_true. split; [by intros [-> ->]|by intros [= -> ->]].
Qed.
Lemma value_key_inj a b : comparable false a → comparable false b → value_key a = value_key b → a = b.
Proof.
  destruct a as [|z|r|t|l], b as [|z'|r'|t'|l']; cbn [comparable value_key]; intros Ha Hb E; try (by destruct Ha); try (by destruct Hb);
    try discriminate E; try reflexivity; by injection E as ->.
Qed.
Definition sort_keys (n : nat) (ks : list Value) : Prop := length ks = n ∧ Forall (comparable false) ks.
Lemma compare_setop_total dirs : total_on (sort_keys (length dirs)) (compare_setop dirs).
Proof.
  induction dirs as [|[asc nf] dirs IH]; [split; [done|naive_solver]|]. cbn [compare_setop length].
  apply (total_lex (λ ka kb, reverse_if (negb asc) (default Eq (partial_cmp (default VNull (head ka)) (default VNull (head kb)))))
    (λ ka kb, compare_setop dirs (tail ka) (tail kb))).
  - apply (total_map (comparable false) _ (λ ks, default VNull (head ks))
      (λ a b, reverse_if (negb asc) (default Eq (partial_cmp a b)))).
    + split.
      * intros x y Hx Hy. rewrite !(partial_cmp_key false) by done. cbn. rewrite (bytes_cmp_antisym (value_key x) (value_key y)).
        destruct asc; [done|]. cbn. by destruct (bytes_cmp _ _).
      * intros x y z Hx Hy Hz. rewrite !(partial_cmp_key false) by done. cbn.
        pose proof (bytes_cmp_trans (value_key x) (value_key y) (value_key z)) as H1.
        pose proof (bytes_cmp_trans (value_key z) (value_key y) (value_key x)) as H2.
        rewrite (bytes_cmp_antisym (value_key y) (value_key z)), (bytes_cmp_antisym (value_key x) (value_key y)),
          (bytes_cmp_antisym (value_key x) (value_key z)) in H2.
        destruct asc; cbn [negb reverse_if]; [done|].
        destruct (bytes_cmp (value_key x) (value_key y)), (bytes_cmp (value_key y) (value_key z)),
          (bytes_cmp (value_key x) (value_key z)); cbn in *; naive_solver.
    + intros ks [Hl Hk]. destruct Hk; [done|]. done.
  - apply (total_map (sort_keys (length dirs)) _ tail _ IH). intros ks [Hl Hk]. destruct Hk as [|k ks Hk Hks]; [done|].
    cbn [tail]. split; [by injection Hl|done].
Qed.
Lemma compare_setop_eq dirs a b : sort_keys (length dirs) a → sort_keys (length dirs) b → compare_setop dirs a b = Eq ↔ a = b.
Proof.
  revert a b. induction dirs as [|[asc nf] dirs IH]; intros a b [Ha Hka] [Hb Hkb].
  { destruct a, b; try done. }
  destruct Hka as [|x a Hx Hka], Hkb as [|y b Hy Hkb]; try done. cbn [compare_setop head default tail from_option id].
  rewrite (partial_cmp_key false) by done. cbn [default from_option id].
  specialize (IH a b). destruct (bytes_cmp (value_key x) (value_key y)) eqn:E.
  - apply bytes_cmp_eq, value_key_inj in E as ->; [|done..]. replace (reverse_if (negb asc) Eq) with Eq by (by destruct asc).
    rewrite IH; [split; [by intros ->|by intros [= ->]]|split; [by injection Ha|done]|split; [by injection Hb|done]].
  - split; [by destruct asc|]. intros [= -> ->]. rewrite (proj2 (bytes_cmp_eq _ _)) in E; done.
  - split; [by destruct asc|]. intros [= -> ->]. rewrite (proj2 (bytes_cmp_eq _ _)) in E; done.
Qed.

(** ** Lemmas: peers *)

Section Ranks.
Context {St W R : Type} `{StdFns} `{SelectExec St R} `{OtherFunctions R}.
Context (groups : list (list Row)) (cm : ColMap) (ob : list (OrderByItem (Expr St W))) (s : VM R) (ks : nat → list Value).
Context (part : list nat).
Abbreviation dirs := (map snd ob).
Abbreviation cmp := (λ g h : nat, compare_setop dirs (ks g) (ks h)).
Context (Hks : ∀ g, g ∈ part → order_keys groups cm ob g s = (Ok (ks g), s) ∧ sort_keys (length dirs) (ks g)).

Lemma keys_at_pure q g : part !! q = Some g → keys_at groups cm ob part q s = (Ok (ks g), s).
Proof.
  intros Hq. unfold keys_at. rewrite ST_bind_unfold. unfold st_lift, at_index. rewrite Hq. apply Hks. by eapply list_elem_of_lookup_2.
Qed.
Lemma keys_eq_cmp g h : g ∈ part → h ∈ part → keys_eq (ks g) (ks h) = is_cmp (cmp g h) Eq.
Proof.
  intros Hg%Hks Hh%Hks. destruct Hg as [_ Hg], Hh as [_ Hh]. rewrite comparable_keys_eq by (apply Hg || apply Hh).
  unfold is_cmp. apply bool_decide_ext. by rewrite (compare_setop_eq dirs _ _ Hg Hh).
Qed.
Lemma cmp_total : total_on (λ g, g ∈ part) cmp.
Proof. apply (total_map _ _ ks _ (compare_setop_total dirs)). intros g Hg. by apply Hks. Qed.

Lemma seen_keys_spec qs seen : Forall (λ q, (q < length part)%nat) qs → NoDup seen → (∀ k, k ∈ seen → ∃ h, h ∈ part ∧ ks h = k) →
  ∃ seen', seen_keys groups cm ob part qs seen s = (Ok seen', s) ∧ NoDup seen'
    ∧ ∀ k, k ∈ seen' ↔ k ∈ seen ∨ ∃ q h, q ∈ qs ∧ part !! q = Some h ∧ ks h = k.
Proof.
  intros Hqs. revert seen. induction Hqs as [|q qs Hq _ IH]; intros seen Hnd Hseen; cbn [seen_keys].
  { exists seen. split; [done|]. split; [done|]. intros k. split; [by left|]. intros [?|(q & h & Hin & _)]; [done|]. by apply elem_of_nil in Hin. }
  destruct (lookup_lt_is_Some_2 part q Hq) as [h Hh]. rewrite ST_bind_unfold, (keys_at_pure q h Hh).
  assert (existsb (λ k, keys_eq k (ks h)) seen = bool_decide (ks h ∈ seen)) as ->.
  { assert (h ∈ part) as Hin by (by eapply list_elem_of_lookup_2). clear -Hseen Hin Hks. apply eq_true_iff_eq.
    rewrite bool_decide_eq_true, existsb_exists. split.
    - intros (k & Hk & E). apply list_elem_of_In in Hk. destruct (Hseen k Hk) as (h' & Hh' & <-).
      rewrite keys_eq_cmp in E by done. unfold is_cmp in E. apply bool_decide_eq_true, compare_setop_eq in E; [by rewrite <- E|by apply Hks|by apply Hks].
    - intros Hk. exists (ks h). split; [by apply list_elem_of_In|]. rewrite keys_eq_cmp by done. unfold is_cmp.
      apply bool_decide_eq_true. by apply (total_refl _ _ cmp_total). }
  case_bool_decide as Hold.
  - destruct (IH seen Hnd Hseen) as (seen' & He & Hn & Hk). exists seen'. split; [done|]. split; [done|].
    intros k. rewrite Hk. split; [intros [?|(q' & h' & ? & ?)]; [by left|right; exists q', h'; set_solver]|].
    intros [?|(q' & h' & [->|?]%elem_of_cons & Hl & <-)]; [by left| |right; by exists q', h'].
    left. rewrite Hh in Hl. by injection Hl as <-.
  - destruct (IH (seen ++ [ks h])) as (seen' & He & Hn & Hk).
    { apply NoDup_app. split; [done|]. split; [set_solver|apply NoDup_singleton]. }
    { intros k [?| ->%list_elem_of_singleton]%elem_of_app; [by apply Hseen|]. exists h. split; [by eapply list_elem_of_lookup_2|done]. }
    exists seen'. split; [done|]. split; [done|]. intros k. rewrite Hk, elem_of_app, list_elem_of_singleton.
    split.
    + intros [[?| ->]|(q' & h' & ? & ?)]; [by left|right; exists q, h; set_solver|right; exists q', h'; set_solver].
    + intros [?|(q' & h' & [->|?]%elem_of_cons & Hl & <-)]; [by left; left| |right; by exists q', h'].
      rewrite Hh in Hl. injection Hl as <-. by left; right.
Qed.

Context (lo eq hi : list nat) (p g : nat) (Hpart : part = lo ++ eq ++ hi) (Hp : part !! p = Some g).
Context (Hlo : ∀ y, y ∈ lo → cmp y g = Lt) (Heq : ∀ y, y ∈ eq → cmp y g = Eq) (Hhi : ∀ y, y ∈ hi → cmp y g = Gt).

Lemma peer_position q h : part !! q = Some h →
  cmp h g = if (q <? length lo)%nat then Lt else if (q <? length lo + length eq)%nat then Eq else Gt.
Proof.
  rewrite Hpart. intros Hq. destruct (Nat.ltb_spec q (length lo)).
  - rewrite lookup_app_l in Hq by done. apply Hlo. by eapply list_elem_of_lookup_2.
  - rewrite lookup_app_r in Hq by done. destruct (Nat.ltb_spec q (length lo + length eq)).
    + rewrite lookup_app_l in Hq by lia. apply Heq. by eapply list_elem_of_lookup_2.
    + rewrite lookup_app_r in Hq by lia. apply Hhi. by eapply list_elem_of_lookup_2.
Qed.
Lemma current_position : (length lo ≤ p < length lo + length eq)%nat.
Proof.
  pose proof (peer_position p g Hp) as E. assert (g ∈ part) as Hg by (by eapply list_elem_of_lookup_2).
  pose proof (total_refl _ _ cmp_total g Hg) as Er. cbn beta in Er, E. rewrite Er in E.
  destruct (Nat.ltb_spec p (length lo)); [done|]. destruct (Nat.ltb_spec p (length lo + length eq)); [lia|done].
Qed.
Lemma peer_keys q : (q < length part)%nat →
  ∃ h, part !! q = Some h ∧ keys_at groups cm ob part q s = (Ok (ks h), s)
    ∧ keys_eq (ks h) (ks g) = (length lo <=? q)%nat && (q <? length lo + length eq)%nat.
Proof.
  intros Hq. destruct (lookup_lt_is_Some_2 part q Hq) as [h Hh]. exists h. split; [done|]. split; [by apply keys_at_pure|].
  rewrite keys_eq_cmp by (by eapply list_elem_of_lookup_2). rewrite (peer_position q h Hh). unfold is_cmp.
  destruct (Nat.ltb_spec q (length lo)), (Nat.leb_spec (length lo) q); try lia; [done|]. by destruct (Nat.ltb_spec q (length lo + length eq)).
Qed.
Lemma length_part : length part = (length lo + length eq + length hi)%nat.
Proof. rewrite Hpart, !length_app. lia. Qed.
Lemma find_peer_spec a n : (a + n = p)%nat → (a ≤ length lo)%nat →
  find_peer groups cm ob part (ks g) (seq a n) p s = (Ok (length lo), s).
Proof.
  revert a. pose proof current_position as Hcur. pose proof length_part as Hlen.
  induction n as [|n IH]; intros a Ha Hle; cbn [seq find_peer].
  { replace (length lo) with p by lia. done. }
  destruct (peer_keys a) as (h & Hh & Hka & He); [lia|]. rewrite ST_bind_unfold, Hka, He.
  destruct (Nat.leb_spec (length lo) a), (Nat.ltb_spec a (length lo + length eq)); try lia; cbn [andb].
  - replace (length lo) with a by lia. done.
  - apply IH; lia.
Qed.
Lemma scan_peers_spec a n : (a + S n = length part)%nat → (p ≤ a < length lo + length eq)%nat →
  scan_peers groups cm ob part (ks g) (seq (S a) n) a s = (Ok (length lo + length eq - 1)%nat, s).
Proof.
  revert a. pose proof current_position as Hcur. pose proof length_part as Hlen.
  induction n as [|n IH]; intros a Ha Hle; cbn [seq scan_peers].
  { replace (length lo + length eq - 1)%nat with a by lia. done. }
  destruct (peer_keys (S a)) as (h & Hh & Hka & He); [lia|]. rewrite ST_bind_unfold, Hka, He.
  destruct (Nat.leb_spec (length lo) (S a)), (Nat.ltb_spec (S a) (length lo + length eq)); try lia; cbn [andb].
  - apply IH; lia.
  - replace (length lo + length eq - 1)%nat with a by lia. done.
Qed.
(** How many rows are below, and up to, the row. *)
Lemma peer_counts f : length (List.filter (λ h, f (compare_setop dirs (ks h) (ks g))) part)
  = ((if f Lt then length lo else 0) + (if f Eq then length eq else 0) + (if f Gt then length hi else 0))%nat.
Proof.
  assert (∀ l o, (∀ y, y ∈ l → cmp y g = o) → length (List.filter (λ h, f (compare_setop dirs (ks h) (ks g))) l) = if f o then length l else 0%nat) as Hone.
  { intros l o Hl. destruct (f o) eqn:E; [rewrite positions_all|rewrite positions_none]; try done; intros y Hy; by rewrite Hl. }
  rewrite Hpart, !count_filter_split, (Hone lo Lt), (Hone eq Eq), (Hone hi Gt) by done. lia.
Qed.
Lemma first_peer_spec : ob ≠ [] → first_peer groups cm ob part p s = (Ok (length lo), s).
Proof.
  intros Hob. pose proof current_position as Hcur. pose proof find_peer_spec as Hfind. pose proof (keys_at_pure _ _ Hp) as Hkp. unfold first_peer.
  destruct ob as [|item ob']; [done|]. rewrite ST_bind_unfold, Hkp. apply Hfind; lia.
Qed.
(** The keys that DENSE_RANK counts. *)
Lemma dense_keys_spec : ∃ ds, seen_keys groups cm ob part (seq 0 (p + 1)) [] s = (Ok ds, s) ∧ NoDup ds
  ∧ ∀ k, k ∈ ds ↔ ∃ h, h ∈ part ∧ ks h = k ∧ match compare_setop dirs k (ks g) with Gt => false | _ => true end = true.
Proof.
  pose proof current_position as Hcur. pose proof length_part as Hlen.
  destruct (seen_keys_spec (seq 0 (p + 1)) []) as (ds & He & Hnd & Hds); [apply Forall_forall; intros q Hq%elem_of_seq; lia|constructor|by intros k ?%elem_of_nil|].
  exists ds. split; [done|]. split; [done|]. intros k. rewrite Hds. split.
  - intros [Hk|(q & h & Hq%elem_of_seq & Hh & <-)]; [by apply elem_of_nil in Hk|]. exists h.
    split; [by eapply list_elem_of_lookup_2|]. split; [done|]. rewrite (peer_position q h Hh : compare_setop _ _ _ = _).
    destruct (Nat.ltb_spec q (length lo)); [done|]. destruct (Nat.ltb_spec q (length lo + length eq)); [done|lia].
  - intros (h & Hh & <- & Hle). right.
    assert (∃ q, (q ≤ p)%nat ∧ ∃ h', part !! q = Some h' ∧ ks h' = ks h) as (q & Hq & h' & Hl & Hkk); [|exists q, h'; split; [apply elem_of_seq; lia|done]].
    assert (h ∈ lo ++ eq ++ hi) as [Hin|[Hin|Hin]%elem_of_app]%elem_of_app by (by rewrite <- Hpart).
    + apply list_elem_of_lookup in Hin as [q Hq]. pose proof (lookup_lt_Some _ _ _ Hq). exists q. split; [lia|].
      exists h. split; [|done]. rewrite Hpart. by rewrite lookup_app_l.
    + exists p. split; [lia|]. exists g. split; [done|]. symmetry. apply (compare_setop_eq dirs); [by apply Hks| |by apply Heq].
      apply Hks. by eapply list_elem_of_lookup_2.
    + by rewrite (Hhi h Hin : compare_setop _ _ _ = _) in Hle.
Qed.
End Ranks.

(** ** Properties *)

Section WindowProperties.
Context {St W R : Type} `{StdFns} `{SelectExec St R} `{OtherFunctions R}.

(** How many of the groups compare to [g] as [f] says. *)
Definition count_groups (f : comparison → bool) (ob : list (OrderByItem (Expr St W))) (ks : nat → list Value) (g : nat) (part : list nat) : nat :=
  length (List.filter (λ h, f (compare_setop (map snd ob) (ks h) (ks g))) part).
Definition not_above (o : comparison) : bool := match o with Gt => false | _ => true end.

(** The sorted partition. *)
Lemma sort_partition_spec (groups : list (list Row)) (cm : ColMap) (ob : list (OrderByItem (Expr St W))) (part0 : list nat)
    (ks : nat → list Value) (s : VM R) : ob ≠ [] →
  (∀ g, g ∈ part0 → order_keys groups cm ob g s = (Ok (ks g), s) ∧ sort_keys (length ob) (ks g)) →
  ∃ part, sort_partition groups cm ob part0 s = (Ok part, s) ∧ part ≡ₚ part0
    ∧ StronglySorted (λ g h, compare_setop (map snd ob) (ks g) (ks h) ≠ Gt) part.
Proof.
  intros Hob Hks. set (c := λ a b : nat * list Value, compare_setop (map snd ob) a.2 b.2).
  exists (map fst (sort_by c (map (λ g, (g, ks g)) part0))). split; [|split].
  - unfold sort_partition. destruct ob as [|item ob']; [done|]. rewrite ST_bind_unfold, (st_mapM_pure _ (λ g, (g, ks g))); [done|].
    intros g Hg. rewrite ST_bind_unfold. by rewrite (proj1 (Hks g Hg)).
  - rewrite sort_by_perm, map_map. cbn. by rewrite map_id.
  - assert (total_on (λ a : nat * list Value, a.1 ∈ part0 ∧ a.2 = ks a.1) c) as Hc.
    { apply (total_map _ _ snd _ (compare_setop_total (map snd ob))). intros [g k] [Hg ->]. rewrite length_map. by apply Hks. }
    assert (Forall (λ a : nat * list Value, a.1 ∈ part0 ∧ a.2 = ks a.1) (map (λ g, (g, ks g)) part0)) as Hf
      by (apply Forall_forall; by intros a (g & -> & Hg)%list_elem_of_fmap).
    pose proof (sort_by_sorted _ c Hc _ Hf) as Hss. pose proof (sort_by_Forall c _ _ Hf) as Hff. clear -Hss Hff.
    unfold sorted in Hss. revert Hss Hff. generalize (sort_by c (map (λ g, (g, ks g)) part0)). unfold c. intros l.
    induction 1 as [|[g k] l Hs IH Hg]; intros Hff; cbn [map]; constructor; [apply IH; by inversion Hff|].
    inversion Hff as [|? ? [_ Hk] Hl]; subst. cbn in Hk. subst k. apply Forall_map. rewrite Forall_forall in *.
    intros [h k] Hin. cbn. specialize (Hg _ Hin). destruct (Hl _ Hin) as [_ Hk]. cbn in *. by subst.
Qed.

End WindowProperties.

Lemma quotient_between d q m k : 0 ≤ m < d → k * d ≤ d * q + m < (k + 1) * d ↔ q = k.
Proof.
  intros Hm. split; [|intros ->; lia]. intros [H1 H2]. destruct (Z.lt_trichotomy q k) as [Hlt|[->|Hgt]]; [|done|].
  - assert (d * (q + 1) ≤ d * k) by (apply Z.mul_le_mono_nonneg_l; lia). lia.
  - assert (d * (k + 1) ≤ d * q) by (apply Z.mul_le_mono_nonneg_l; lia). lia.
Qed.
(** NTILE deals the rows of a partition out to its buckets in order: bucket
    [k] gets the rows from [(k-1)*size + min(k-1, remainder)] on, so that the
    first [remainder] buckets have one row more than the others. *)
Theorem ntile_buckets (n b p k : Z) (Hb : 0 < b) (Hp : 0 ≤ p < n) (Hk : 1 ≤ k ≤ b) :
  ntile n b p = k ↔ (k - 1) * (n / b) + Z.min (k - 1) (n mod b) ≤ p < k * (n / b) + Z.min k (n mod b).
Proof.
  unfold ntile. pose proof (Z.div_mod n b ltac:(lia)) as Hn. pose proof (Z.mod_pos_bound n b Hb) as Hr.
  pose proof (Z.div_pos n b ltac:(lia) Hb) as Hs. set (s := n / b) in *. set (r := n mod b) in *. clearbody s r.
  destruct (Z.ltb_spec p (r * (s + 1))) as [Hlt|Hge].
  - pose proof (Z.div_mod p (s + 1) ltac:(lia)) as Hd. pose proof (Z.mod_pos_bound p (s + 1) ltac:(lia)) as Hm.
    set (q := p / (s + 1)) in *. set (m := p mod (s + 1)) in *. clearbody q m.
    pose proof (quotient_between (s + 1) q m (k - 1) Hm) as Hqk.
    assert (0 ≤ q < r) as Hq by nia. rewrite Z.min_l by lia. destruct (Z.le_gt_cases k r).
    + rewrite !Z.min_l by lia. lia.
    + rewrite (Z.min_r (k - 1)) by lia. split; [lia|]. intros [H1 _].
      assert (r * s ≤ (k - 1) * s) by (apply Z.mul_le_mono_nonneg_r; lia). lia.
  - assert (1 ≤ s) as Hs1 by nia. rewrite (Z.max_l s 1) by lia.
    pose proof (Z.div_mod (p - r * (s + 1)) s ltac:(lia)) as Hd. pose proof (Z.mod_pos_bound (p - r * (s + 1)) s ltac:(lia)) as Hm.
    set (q := (p - r * (s + 1)) / s) in *. set (m := (p - r * (s + 1)) mod s) in *. clearbody q m.
    pose proof (quotient_between s q m (k - r - 1) Hm) as Hqk.
    assert (0 ≤ q < b - r) as Hq by nia. rewrite Z.min_l by lia. destruct (Z.le_gt_cases k r).
    + rewrite (Z.min_l k) by lia. split; [lia|]. intros [_ H2].
      assert (k * (s + 1) ≤ r * (s + 1)) by (apply Z.mul_le_mono_nonneg_r; lia). lia.
    + rewrite !Z.min_r by lia. lia.
Qed.
Lemma ntile_buckets_witness : ntile 10 4 5 = 2 ∧ ntile 10 4 6 = 3.
Proof.
  split; [refine (proj2 (ntile_buckets 10 4 5 2 ltac:(lia) ltac:(lia) ltac:(lia)) _)
         |refine (proj2 (ntile_buckets 10 4 6 3 ltac:(lia) ltac:(lia) ltac:(lia)) _)]; vm_compute; split; congruence.
Defined.

Section Frames.
Context {St W R : Type} `{StdFns} `{SelectExec St R} `{OtherFunctions R}.

(** A frame of rows between constant numbers of rows before and after the
    current one is exactly that part of the partition, cut at its ends; it
    always holds the current row and stays inside the partition. *)
Theorem rows_frame_correct (groups : list (list Row)) (cm : ColMap) (ob : list (OrderByItem (Expr St W))) (part : list nat) (p i j : Z)
    (s : VM R) (Hp : 0 ≤ p < zlen part) (Hi : 0 ≤ i < 2 ^ 63) (Hj : 0 ≤ j < 2 ^ 63) (Hlen : zlen part < 2 ^ 63) :
  let wf := mkFrame (Expr St W) Rows (Preceding (IntegerLiteral i)) (Some (Following (IntegerLiteral j))) in
  let first := Z.max 0 (p - i) in
  let last := Z.min (zlen part - 1) (p + j) in
  frame_of groups cm ob part (Z.to_nat p) (Some wf) s = (Ok (sub part first (last - first + 1)), s)
  ∧ 0 ≤ first ≤ p ∧ p ≤ last < zlen part.
Proof.
  intros wf first last. split; [|unfold first, last; lia].
  assert (Z.of_nat (last_pos part) = zlen part - 1) as Hlast by (unfold last_pos, zlen in *; lia).
  unfold frame_of. cbn [unit_of wf]. rewrite ST_bind_unfold.
  assert (rows_frame part (Z.to_nat p) wf s = (Ok (saturating_sub p i, saturating_add_u64 p j), s)) as ->.
  { replace p with (Z.of_nat (Z.to_nat p)) at 2 3 by lia.
    assert (∀ other z (q : Z), rows_bound (W:=W) (R:=R) part other q (Preceding (IntegerLiteral z)) s = (Ok (saturating_sub q (as_u64 z)), s)
      ∧ rows_bound (W:=W) (R:=R) part other q (Following (IntegerLiteral z)) s = (Ok (saturating_add_u64 q (as_u64 z)), s)) as Hb by done.
    unfold rows_frame. rewrite ST_bind_unfold. cbn [start_of end_of wf]. rewrite (proj1 (Hb _ _ _)), ST_bind_unfold, (proj2 (Hb _ _ _)).
    by rewrite !as_u64_id by int_lia. }
  cbv beta iota. unfold clamp_frame. rewrite Hlast. cbn. do 2 f_equal. unfold saturating_sub, saturating_add_u64, U64_MAX in *.
  assert (2 ^ 63 = 9223372036854775808) as E63 by reflexivity. unfold first, last.
  replace (Z.min (Z.max 0 (p - i)) (zlen part - 1)) with (Z.max 0 (p - i)) by lia.
  replace (Z.max (Z.min (Z.min (p + j) 18446744073709551615) (zlen part - 1)) (Z.max 0 (p - i))) with (Z.min (zlen part - 1) (p + j)) by lia.
  done.
Qed.
End Frames.

(** *** Instances and divergences *)

Section Samples.
#[local] Existing Instance ascii_std.
#[local] Existing Instance count_select.
#[local] Existing Instance no_functions.
Definition expr_k : Expr nat unit := ColumnRef None "k".
Definition expr_x : Expr nat unit := ColumnRef None "x".
Definition map_kx : ColMap := {["k"%string := 0%nat; "x"%string := 1%nat]}.
Definition scores : list (list Row) := [[[VInteger 2; VInteger 5]]; [[VInteger 1; VInteger 7]]; [[VInteger 2; VInteger 9]]; [[VInteger 3; VNull]]].
Definition by_k : list (OrderByItem (Expr nat unit)) := [(expr_k, (true, None))].

Lemma rows_frame_correct_witness :
  frame_of (W:=unit) scores map_kx by_k [7; 8; 9; 10]%nat 1
    (Some (mkFrame (Expr nat unit) Rows (Preceding (IntegerLiteral 3)) (Some (Following (IntegerLiteral 1))))) sample_state
  = (Ok [7; 8; 9]%nat, sample_state).
Proof.
  exact (proj1 (rows_frame_correct (St:=nat) (W:=unit) scores map_kx by_k [7; 8; 9; 10]%nat 1 3 1 sample_state
    ltac:(vm_compute; split; congruence) ltac:(vm_compute; split; congruence) ltac:(vm_compute; split; congruence)
    ltac:(vm_compute; reflexivity))).
Defined.

Definition over_k (f : WindowFunc (Expr nat unit)) (frame : option (WindowFrame (Expr nat unit))) : WindowSpec (Expr nat unit) :=
  mkWindow (Expr nat unit) f [] by_k frame.
(** With ORDER BY and no frame the frame ends at the current row and leaves out
    its later peers; the comment on RANGE frames calls RANGE UNBOUNDED
    PRECEDING .. CURRENT ROW, which includes them, the default. *)
Lemma default_frame_without_peers :
  let sum := WAggregate "SUM" [expr_x] false in
  let range := Some (mkFrame (Expr nat unit) Range UnboundedPreceding (Some CurrentRow)) in
  window_column scores map_kx (over_k sum None) sample_state
    = (Ok [(1, VInteger 7); (0, VInteger 12); (2, VInteger 21); (3, VInteger 21)]%nat, sample_state)
  ∧ window_column scores map_kx (over_k sum range) sample_state
    = (Ok [(1, VInteger 7); (0, VInteger 21); (2, VInteger 21); (3, VInteger 21)]%nat, sample_state).
Proof. vm_compute. done. Qed.
(** A RANGE frame with an offset ignores the offset: 1 PRECEDING AND 1
    FOLLOWING is the whole partition. *)
Lemma range_offset_ignored :
  let count := WAggregate "COUNT" [expr_k] false in
  let one := IntegerLiteral 0 in
  window_column scores map_kx (over_k count (Some (mkFrame (Expr nat unit) Range (Preceding one) (Some (Following one))))) sample_state
    = (Ok [(1, VInteger 4); (0, VInteger 4); (2, VInteger 4); (3, VInteger 4)]%nat, sample_state).
Proof. vm_compute. done. Qed.
(** SUM over a window wraps around where the aggregate SUM turns to a double. *)
Lemma window_sum_wraps :
  window_sum [VInteger (2 ^ 63 - 1); VInteger 1] = VInteger (- 2 ^ 63)
  ∧ sum_values [VInteger (2 ^ 63 - 1); VInteger 1] = VReal (bits_of_f64 (SFadd 53 1024 (f64_of_i64 (2 ^ 62)) (f64_of_i64 (2 ^ 62)))).
Proof. vm_compute. done. Qed.
(** A negative offset of LEAD is cast to an unsigned integer and overflows the
    addition. *)
Lemma lead_negative_panics :
  (window_column scores map_kx (over_k (Lead expr_x (Some (UnaryOp Minus (IntegerLiteral 1))) None) None) sample_state).1 = Panic
  ∧ window_column scores map_kx (over_k (Lag expr_x (Some (UnaryOp Minus (IntegerLiteral 1))) None) None) sample_state
    = (Ok [(1, VNull); (0, VNull); (2, VNull); (3, VNull)]%nat, sample_state).
Proof. vm_compute. done. Qed.
End Samples.
