(* ===== verification/Select.v ===== *)
(** SELECT (src/src/vm/exec_select.rs over src/src/sql/ast.rs): the syntax of
    queries, FROM with views, common table expressions, set operations and
    snapshots, and the pipeline of [exec_select].

    Scanning a table is the interface [TableScans] to the B+tree; the join
    reordering and the choice of an index are the interface [Planner]. *)
From S2P Require Import Prelude Values Text Expr ExprTypes Mvcc RowLocks RowOps Joins TableFns Aggregates Window.

(** ** Syntax *)

Unset Elimination Schemes.
Inductive SelectStmt : Type :=
  | mkSelect (distinct : bool) (columns : list (SelectColumn SelectStmt WindowExpr)) (from : option FromClause)
      (where_clause : option (Expr SelectStmt WindowExpr)) (group_by : list (Expr SelectStmt WindowExpr))
      (having : option (Expr SelectStmt WindowExpr)) (order_by : list (OrderByItem (Expr SelectStmt WindowExpr)))
      (limit offset : option (Expr SelectStmt WindowExpr)) (ctes : list CteDefinition)
      (window_defs : list (NamedWindow (Expr SelectStmt WindowExpr))) (for_update : bool)
with FromClause : Type :=
  | FTable (name : string) (alias : option string)
  | FJoin (left : FromClause) (join_type : JoinType) (right : FromClause) (on : option (Expr SelectStmt WindowExpr))
  | FSubquery (query : SelectStmt) (alias : string)
  | FSetOp (stmt : SetOpStmt) (alias : string)
  | FTableFunction (name : string) (args : list (Expr SelectStmt WindowExpr)) (alias column : option string)
with SetOpStmt : Type :=
  | mkSetOp (kind : SetOpKind) (left right : SelectStmt) (order_by : list (OrderByItem (Expr SelectStmt WindowExpr)))
      (limit offset : option (Expr SelectStmt WindowExpr))
with CteDefinition : Type :=
  | mkCte (name : string) (cte_columns : list string) (query : SelectStmt) (is_recursive : bool)
with WindowExpr : Type :=
  | mkWindowExpr (spec : WindowSpec (Expr SelectStmt WindowExpr)).
Set Elimination Schemes.
Abbreviation SExpr' := (Expr SelectStmt WindowExpr).
Abbreviation Column := (SelectColumn SelectStmt WindowExpr).
#[export] Instance select_window_syntax : WindowSyntax SelectStmt WindowExpr := λ w, match w with mkWindowExpr spec => spec end.

Section Fields.
Context (q : SelectStmt).
Definition is_distinct : bool := match q with mkSelect d _ _ _ _ _ _ _ _ _ _ _ => d end.
Definition columns : list Column := match q with mkSelect _ c _ _ _ _ _ _ _ _ _ _ => c end.
Definition from : option FromClause := match q with mkSelect _ _ f _ _ _ _ _ _ _ _ _ => f end.
Definition where_clause : option SExpr' := match q with mkSelect _ _ _ w _ _ _ _ _ _ _ _ => w end.
Definition group_by : list SExpr' := match q with mkSelect _ _ _ _ g _ _ _ _ _ _ _ => g end.
Definition having : option SExpr' := match q with mkSelect _ _ _ _ _ h _ _ _ _ _ _ => h end.
Definition order_by : list (OrderByItem SExpr') := match q with mkSelect _ _ _ _ _ _ o _ _ _ _ _ => o end.
Definition limit : option SExpr' := match q with mkSelect _ _ _ _ _ _ _ l _ _ _ _ => l end.
Definition offset : option SExpr' := match q with mkSelect _ _ _ _ _ _ _ _ o _ _ _ => o end.
Definition ctes : list CteDefinition := match q with mkSelect _ _ _ _ _ _ _ _ _ c _ _ => c end.
Definition window_defs : list (NamedWindow SExpr') := match q with mkSelect _ _ _ _ _ _ _ _ _ _ w _ => w end.
Definition for_update : bool := match q with mkSelect _ _ _ _ _ _ _ _ _ _ _ u => u end.
End Fields.
Definition cte_name (c : CteDefinition) : string := match c with mkCte n _ _ _ => n end.
Definition cte_columns (c : CteDefinition) : list string := match c with mkCte _ l _ _ => l end.
Definition cte_query (c : CteDefinition) : SelectStmt := match c with mkCte _ _ q _ => q end.
Definition is_recursive (c : CteDefinition) : bool := match c with mkCte _ _ _ r => r end.

(** ** State *)

(** What the interpreter reads of a [PolicySchema] and of a [TableSchema]. *)
Record Policy : Type := mkPolicy { role : option bytes; using_expr : option SExpr' }.
Record Table : Type := mkTable {
  root_page : Z; col_names : list string; column_count : nat; view_select : option SelectStmt;
  rls_enabled : bool; policies : list Policy }.
(** The part of the VM's state that SELECT uses, beside what evaluation uses. *)
Record Engine {Q : Type} : Type := mkEngine {
  tables : gmap string Table;
  cte_cache : gmap string (list string * list Row);
  current_rowid : Z;
  undo_log : UndoLog;
  snapshot_in_use : option MvccSnapshot;
  txn_id : Z;
  row_locks : RowLockManager;
  engine_rest : Q;
}.
Arguments Engine : clear implicits.

(** Scans of a table by its name and root page. *)
Class TableScans (Q : Type) := mkScans {
  table_scan_all : string → Z → ST (VM (Engine Q)) (list (Z * Row));
  table_scan_rows : string → Z → ST (VM (Engine Q)) (list Row);
  table_scan_rows_limit : string → Z → Z → ST (VM (Engine Q)) (list Row);
  table_count_rows : string → Z → ST (VM (Engine Q)) Z;
}.
(** Join reordering, and the rows of an index for a WHERE clause. *)
Class Planner (Q : Type) := mkPlanner {
  reorder_joins : FromClause → VM (Engine Q) → FromClause;
  try_index_scan : FromClause → SExpr' → ST (VM (Engine Q)) (option (list Row * list string));
}.

Section Select.
Context {Q : Type} `{StdFns} `{SelectNth} `{OtherFunctions (Engine Q)} `{TableScans Q} `{Planner Q}.
Abbreviation V := (VM (Engine Q)).
Abbreviation M := (ST V).

Definition upd_engine (f : Engine Q → Engine Q) (s : V) : V :=
  mkVM _ (current_params s) (outer_rows s) (window_results s) (current_window_row_idx s) (session_vars s) (f (vm_rest s)).
Definition set_cte_cache (c : gmap string (list string * list Row)) (e : Engine Q) : Engine Q :=
  mkEngine Q (tables e) c (current_rowid e) (undo_log e) (snapshot_in_use e) (txn_id e) (row_locks e) (engine_rest e).
Definition set_current_rowid (r : Z) (e : Engine Q) : Engine Q :=
  mkEngine Q (tables e) (cte_cache e) r (undo_log e) (snapshot_in_use e) (txn_id e) (row_locks e) (engine_rest e).
Definition set_row_locks (l : RowLockManager) (e : Engine Q) : Engine Q :=
  mkEngine Q (tables e) (cte_cache e) (current_rowid e) (undo_log e) (snapshot_in_use e) (txn_id e) l (engine_rest e).
Definition modify (f : Engine Q → Engine Q) : M unit := λ s, (Ok tt, upd_engine f s).
Definition set_rowid (r : Z) : M unit := modify (set_current_rowid r).
Definition cte_insert (key : string) (v : list string * list Row) : M unit := modify (λ e, set_cte_cache (<[key := v]> (cte_cache e)) e).
Definition cte_remove (key : string) : M unit := modify (λ e, set_cte_cache (delete key (cte_cache e)) e).

(** [schema.get_table(name)] *)
Definition lookup_table (name : string) (s : V) : option Table := tables (vm_rest s) !! to_ascii_lowercase name.
Definition get_table (name : string) : M Table :=
  st_gets (λ s, match lookup_table name s with Some t => Ok t | None => Err (TableNotFound name) end).

(** *** Column maps *)

Fixpoint count_select_output_columns (s : V) (q : SelectStmt) : option nat :=
  match q with
  | mkSelect _ cols from _ _ _ _ _ _ _ _ _ =>
      foldr (λ col acc,
        n ← match col with
            | SExpr _ _ => Some 1%nat
            | AllColumns => match from with Some f => count_from_columns s f | None => None end
            | TableAllColumns table => column_count <$> lookup_table table s
            end;
        m ← acc; Some (n + m)%nat) (Some 0%nat) cols
  end
with count_from_columns (s : V) (f : FromClause) : option nat :=
  match f with
  | FTable name _ => column_count <$> lookup_table name s
  | FJoin l _ r _ => n ← count_from_columns s l; m ← count_from_columns s r; Some (n + m)%nat
  | FSubquery q _ => count_select_output_columns s q
  | FSetOp _ _ => None
  | FTableFunction _ _ _ _ => Some 1%nat
  end.

(** Qualified names for [n] columns from [offset] on. *)
Definition inject_columns (qualifiers : list string) (unqualified : bool) (names : list string) (offset n : nat) (m : ColMap) : ColMap :=
  foldl (λ m i,
    let idx := (offset + i)%nat in
    match names !! idx with
    | None => m
    | Some name =>
        let m := foldl (λ m q, <[qualified_key q name := idx]> m) m qualifiers in
        let unqual := to_ascii_lowercase name in
        if unqualified && bool_decide (m !! unqual = None) then <[unqual := idx]> m else m
    end) m (seq 0 n).
(** [str::to_lowercase] on a name. *)
Definition lower_name (name : string) : string := string_of_bytes (to_lowercase (bytes_of_string name)).
(** [inject_qualified_names] *)
Fixpoint inject_qualified_names (s : V) (from : FromClause) (names : list string) (m : ColMap) (offset : nat) : ColMap * nat :=
  match from with
  | FTable name alias =>
      match lookup_table name s with
      | Some t =>
          let n := column_count t in
          (inject_columns (name :: match alias with Some a => [a] | None => [] end) false names offset n m, (offset + n)%nat)
      | None => (m, offset)
      end
  | FJoin l _ r _ =>
      let '(m, offset) := inject_qualified_names s l names m offset in inject_qualified_names s r names m offset
  | FSubquery q alias =>
      match count_select_output_columns s q with
      | Some n => (inject_columns [alias] true names offset n m, (offset + n)%nat)
      | None => (m, offset)
      end
  | FSetOp _ _ => (m, offset)
  | FTableFunction name _ alias column =>
      let label := table_function_column name column in
      let m := if (offset <? length names)%nat
               then <[lower_name (default name alias) +:+ "." +:+ lower_name label := offset]> m else m in
      (m, (offset + 1)%nat)
  end.

(** *** FROM *)

(** Execution of a query inside a query. *)
Context (rec : SelectStmt → M ExecResult).
#[local] Instance nested_select : SelectExec SelectStmt (Engine Q) := rec.
(** [match exec_select(q)? { QueryResult { columns, rows } => .., _ => other }] *)
Definition query_rows (q : SelectStmt) (other : M (list string * list Row)) : M (list string * list Row) :=
  r ← rec q; match r with QueryResult columns rows => mret (columns, rows) | _ => other end.

(** [col_names[i] = alias.clone()] for the aliases that have a column. *)
Fixpoint rename_columns (aliases names : list string) : list string :=
  match aliases, names with
  | a :: aliases', _ :: names' => a :: rename_columns aliases' names'
  | _, _ => names
  end.

Definition MAX_RECURSION_DEPTH : nat := 1000.
(** The loop of [eval_recursive_cte]: the rows of the last turn are the working
    table of the next one. *)
Fixpoint recursion_loop (fuel : nat) (cte_key : string) (col_names : list string) (rec_q : SelectStmt)
    (iteration_rows all_rows : list Row) : M (list Row) :=
  match fuel, iteration_rows with
  | O, _ | _, [] => mret all_rows
  | S fuel, _ =>
      _ ← cte_insert cte_key (col_names, iteration_rows);
      r ← rec rec_q;
      match r with
      | QueryResult _ [] => mret all_rows
      | QueryResult _ next => recursion_loop fuel cte_key col_names rec_q next (all_rows ++ next)
      | _ => mret all_rows
      end
  end.
(** [eval_recursive_cte] *)
Definition eval_recursive_cte (cte : CteDefinition) : M (list string * list Row) :=
  match from (cte_query cte) with
  | Some (FSetOp (mkSetOp (UnionAll | UnionDistinct) anchor_query recursive_query _ _ _) _) =>
      r ← rec anchor_query;
      match r with
      | QueryResult columns rows =>
          let col_names := rename_columns (cte_columns cte) columns in
          all_rows ← recursion_loop MAX_RECURSION_DEPTH (to_ascii_lowercase (cte_name cte)) col_names recursive_query rows rows;
          mret (col_names, all_rows)
      | _ => mret ([], [])
      end
  | _ => query_rows (cte_query cte) (mret ([], []))
  end.
(** The loop over the WITH clause in [exec_select]. *)
Definition eval_cte (cte : CteDefinition) : M unit :=
  '(col_names, rows) ← (if is_recursive cte then eval_recursive_cte cte else query_rows (cte_query cte) (mret ([], [])));
  cte_insert (to_ascii_lowercase (cte_name cte)) (rename_columns (cte_columns cte) col_names, rows).

(** [exec_set_op] *)
Definition eval_keys (items : list (OrderByItem SExpr')) (row : Row) (col_map : ColMap) : M (list Value) :=
  mapM (λ item, unwrap_null (eval_expr row col_map item.1)) items.
Definition raw_col_map (names : list string) : ColMap := foldl (λ m '(i, n), <[n := i]> m) ∅ (imap pair names).
Definition exec_set_op (stmt : SetOpStmt) : M ExecResult :=
  match stmt with
  | mkSetOp kind left_query right_query order_by limit offset =>
      left_result ← rec left_query;
      right_result ← rec right_query;
      match left_result, right_result with
      | QueryResult col_names left_rows, QueryResult _ right_rows =>
          let result_rows := set_op kind left_rows right_rows in
          let col_map := raw_col_map col_names in
          result_rows ← (match order_by with
            | [] => mret result_rows
            | _ =>
                keyed ← mapM (λ row, keys ← eval_keys order_by row col_map; mret (keys, row)) result_rows;
                mret (map snd (sort_by (λ a b, compare_setop (map snd order_by) a.1 b.1) keyed))
            end);
          result_rows ← (match offset with
            | Some e => v ← eval_expr [] col_map e; mret (split_off (match v with VInteger n => Z.max 0 n | _ => 0 end) result_rows)
            | None => mret result_rows
            end);
          result_rows ← (match limit with
            | Some e => v ← eval_expr [] col_map e; mret (truncate (match v with VInteger n => Z.max 0 n | _ => U64_MAX end) result_rows)
            | None => mret result_rows
            end);
          mret (QueryResult col_names result_rows)
      | QueryResult _ _, _ => st_err (Internal "set-op right not a query result")
      | _, _ => st_err (Internal "set-op left not a query result")
      end
  end.

Definition cached_cte (name : string) (s : V) : option (list string * list Row) := cte_cache (vm_rest s) !! to_ascii_lowercase name.
(** The rows of a table, under the snapshot of the transaction if it has one. *)
Definition visible_rows (name : string) (root : Z) : M (list Row) :=
  s ← st_get;
  match snapshot_in_use (vm_rest s) with
  | Some snapshot =>
      all_rows ← table_scan_all name root;
      mret (snapshot_rows (undo_log (vm_rest s)) snapshot name all_rows)
  | None => table_scan_rows name root
  end.
(** [eval_from] *)
Fixpoint eval_from (f : FromClause) : M (list Row * list string) :=
  match f with
  | FTable name _ =>
      s ← st_get;
      match cached_cte name s with
      | Some (cols, rows) => mret (rows, cols)
      | None =>
          match (t ← lookup_table name s; view_select t) with
          | Some q =>
              '(columns, rows) ← query_rows q (st_err (Internal "view did not return rows"));
              mret (rows, columns)
          | None =>
              t ← get_table name;
              rows ← visible_rows name (root_page t);
              mret (rows, col_names t)
          end
      end
  | FJoin l join_type r on =>
      left_side ← eval_from l;
      right_side ← eval_from r;
      s ← st_get;
      eval_join (λ names m, let '(m, offset) := inject_qualified_names s l names m 0 in (inject_qualified_names s r names m offset).1)
        join_type on left_side right_side
  | FSubquery q _ =>
      '(columns, rows) ← query_rows q (st_err (Internal "subquery did not return rows"));
      mret (rows, columns)
  | FSetOp stmt _ =>
      r ← exec_set_op stmt;
      match r with QueryResult columns rows => mret (rows, columns) | _ => st_err (Internal "set-op did not return rows") end
  | FTableFunction name args _ column =>
      eval_args ← mapM (eval_expr [] ∅) args;
      rows ← st_lift (table_function name eval_args);
      mret (rows, [table_function_column name column])
  end.

(** *** Subqueries of WHERE and row-level security *)

(** [expr_references_cols], [subquery_references_outer] *)
Fixpoint expr_references_cols (cols : list string) (expr : SExpr') : bool :=
  match expr with
  | ColumnRef _ column => existsb (λ c, eq_ignore_ascii_case c column) cols
  | BinaryOp l _ r => expr_references_cols cols l || expr_references_cols cols r
  | UnaryOp _ e | Nested e => expr_references_cols cols e
  | Function _ args _ => existsb (expr_references_cols cols) args
  | InList e l _ => expr_references_cols cols e || existsb (expr_references_cols cols) l
  | _ => false
  end.
Definition subquery_references_outer (subquery : SelectStmt) (outer_cols : list string) : bool :=
  match where_clause subquery with Some e => expr_references_cols outer_cols e | None => false end.
Definition literal_of (v : Value) : SExpr' :=
  match v with VInteger i => IntegerLiteral i | VReal r => RealLiteral r | VText t => StringLiteral t | _ => ENull end.
(** [rewrite_uncorrelated_subqueries], which gives the new expression. *)
Fixpoint rewrite_uncorrelated_subqueries (outer_cols : list string) (expr : SExpr') : M SExpr' :=
  match expr with
  | InSubquery inner subquery negated =>
      if subquery_references_outer subquery outer_cols then mret expr
      else
        r ← rec subquery;
        mret (InList inner (match r with QueryResult _ rows => map literal_of (omap head rows) | _ => [] end) negated)
  | BinaryOp l op r =>
      l ← rewrite_uncorrelated_subqueries outer_cols l;
      r ← rewrite_uncorrelated_subqueries outer_cols r;
      mret (BinaryOp l op r)
  | UnaryOp op e => e ← rewrite_uncorrelated_subqueries outer_cols e; mret (UnaryOp op e)
  | Nested e => e ← rewrite_uncorrelated_subqueries outer_cols e; mret (Nested e)
  | _ => mret expr
  end.
(** [where_is_fts_match] *)
Fixpoint where_is_fts_match (expr : SExpr') : bool :=
  match expr with
  | BinaryOp _ FtsMatch _ => true
  | BinaryOp l And r | BinaryOp l Or r => where_is_fts_match l || where_is_fts_match r
  | _ => false
  end.
(** [collect_base_tables] *)
Fixpoint collect_base_tables (f : FromClause) : list string :=
  match f with
  | FTable name _ => [name]
  | FJoin l _ r _ => collect_base_tables l ++ collect_base_tables r
  | _ => []
  end.
(** The USING expressions that apply to a table. *)
Definition current_user (s : V) : bytes :=
  default [] (match session_vars s !! jwt_sub with
              | Some u => Some u
              | None => session_vars s !! bytes_of_string "kkdb.current_user"
              end).
Definition rls_exprs (s : V) (tname : string) : list SExpr' :=
  match lookup_table tname s with
  | Some t =>
      if rls_enabled t then
        omap using_expr (filter (λ p, role p = None ∨ role p = Some (current_user s)) (policies t))
      else []
  | None => []
  end.
(** [existing AND using] *)
Definition add_rls (where_expr : option SExpr') (policy : SExpr') : option SExpr' :=
  Some (match where_expr with None => policy | Some existing => BinaryOp existing And policy end).
Definition with_rls (s : V) (f : option FromClause) (where_expr : option SExpr') : option SExpr' :=
  match f with
  | Some f => foldl add_rls where_expr (collect_base_tables f ≫= rls_exprs s)
  | None => where_expr
  end.

(** *** The source rows *)

Definition is_nil {A} (l : list A) : bool := match l with [] => true | _ => false end.
Definition is_none {A} (o : option A) : bool := match o with None => true | _ => false end.
(** [SELECT COUNT]-star of nothing else. *)
Definition is_count_star (q : SelectStmt) : bool :=
  is_none (where_clause q) && is_nil (group_by q) && negb (is_distinct q) && is_none (having q)
  && match columns q with
     | [SExpr (Function name args _) _] =>
         eq_ignore_ascii_case name "count" && match args with [] | IntegerLiteral 1 :: _ => true | _ => false end
     | _ => false
     end.
Definition limit_pushdown (q : SelectStmt) : bool :=
  is_none (where_clause q) && is_nil (order_by q) && is_nil (group_by q) && negb (is_distinct q) && is_none (having q)
  && negb (is_none (limit q)) && negb (has_aggregate (columns q)).
Definition constant (e : SExpr') : M Value := eval_expr [] ∅ e.
(** [let offset_val = if let Some(e) = offset { .. } else { 0 }] *)
Definition offset_of (e : option SExpr') : M Z := match e with Some e => v ← constant e; mret (offset_value v) | None => mret 0 end.
Definition rls_on (name : string) (s : V) : bool := match lookup_table name s with Some t => rls_enabled t | None => false end.

(** The rows and columns FROM gives, whether WHERE is done with, or the whole
    result of the COUNT shortcut. *)
Definition source (q : SelectStmt) : M (ExecResult + (list Row * list string * bool)) :=
  let scan f := '(rows, names) ← eval_from f; mret (inr (rows, names, false)) in
  match from q with
  | None => mret (inr ([[]], [], false))
  | Some f =>
      s ← st_get;
      match f, is_count_star q, limit_pushdown q with
      | FTable name _, true, _ =>
          if rls_on name s then scan f
          else
            t ← get_table name;
            count ← table_count_rows name (root_page t);
            mret (inl (QueryResult ["COUNT(*)"%string] [[VInteger (as_i64 count)]]))
      | FTable name _, false, true =>
          if rls_on name s then scan f
          else
            limit_val ← match limit q with Some e => v ← constant e; mret (default U64_MAX (limit_value v)) | None => st_lift Panic end;
            offset_val ← offset_of (offset q);
            t ← get_table name;
            rows ← table_scan_rows_limit name (root_page t) (saturating_add_u64 limit_val offset_val);
            mret (inr (rows, col_names t, false))
      | _, _, true => scan f
      | _, _, false =>
          match where_clause q with
          | Some where_expr =>
              found ← try_index_scan f where_expr;
              match found with
              | Some (rows, names) => mret (inr (rows, names, where_is_fts_match where_expr))
              | None => scan f
              end
          | None => scan f
          end
      end
  end.

(** *** Row ids, the filter and the sort *)

(** [.unwrap_or_default()] *)
Definition or_empty {A} (m : M (list A)) : M (list A) := λ s, match m s with (Err _, s') => (Ok [], s') | r => r end.
(** The row ids that go with the source rows. *)
Definition source_row_ids (f : option FromClause) (rows : list Row) : M (list Z) :=
  let none := replicate (length rows) 0 in
  match rows, f with
  | [], _ => mret []
  | _, Some (FTable name _) =>
      s ← st_get;
      match cached_cte name s with
      | Some _ => mret none
      | None =>
          let root := match lookup_table name s with Some t => root_page t | None => 0 end in
          if root =? 0 then mret none
          else with_ids ← or_empty (table_scan_all name root); mret (map fst with_ids)
      end
  | _, _ => mret none
  end.
(** [if row_ids.len() == rows.len() { zip } else { 0 for each row }] *)
Definition pair_row_ids (row_ids : list Z) (rows : list Row) : list (Z * Row) :=
  if (length row_ids =? length rows)%nat then zip row_ids rows else map (pair 0) rows.
Definition filter_rows (where_expr : SExpr') (col_map : ColMap) (zipped : list (Z * Row)) : M (list (Z * Row)) :=
  st_flat_map (λ '(rowid, row),
    _ ← set_rowid rowid;
    val ← eval_expr row col_map where_expr;
    mret (if is_truthy val then [(rowid, row)] else [])) zipped.
(** WHERE: the rows it keeps and the row ids for FOR UPDATE. *)
Definition apply_where (where_expr : option SExpr') (col_map : ColMap) (row_ids : list Z) (rows : list Row) : M (list Row * list Z) :=
  match where_expr with
  | Some e => kept ← filter_rows e col_map (pair_row_ids row_ids rows); mret (map snd kept, map fst kept)
  | None => mret (rows, row_ids)
  end.

(** [top_n_limit]; OFFSET is evaluated only beside a LIMIT that counts. *)
Definition top_n_limit (limit_expr offset_expr : option SExpr') : M (option Z) :=
  match limit_expr with
  | Some e =>
      v ← constant e;
      match limit_value v with
      | Some l => o ← offset_of offset_expr; mret (top_n_of (Some l) o)
      | None => mret None
      end
  | None => mret None
  end.
Definition by_keys (items : list (OrderByItem SExpr')) (a b : Keyed) : comparison := compare_keys (map snd items) a.1 b.1.
(** The sort before projection.  The key of the [i]th row is evaluated under
    the [i]th id of the source, also after a filter. *)
Definition source_keys (items : list (OrderByItem SExpr')) (col_map : ColMap) (row_ids : list Z) (i : nat) (row : Row) : M Keyed :=
  _ ← set_rowid (default 0 (row_ids !! i));
  keys ← eval_keys items row col_map;
  mret (keys, row).
Definition sort_source (q : SelectStmt) (col_map : ColMap) (row_ids : list Z) (rows : list Row) : M (list Row) :=
  top_n ← top_n_limit (limit q) (offset q);
  keyed ← mapM (λ '(i, row), source_keys (order_by q) col_map row_ids i row) (imap pair rows);
  mret (map snd (sort_top_n (by_keys (order_by q)) top_n keyed)).
(** The sort after projection, of groups: a position, an output column, or an
    expression over the output columns. *)
Definition output_key (row : Row) (col_map : ColMap) (item : OrderByItem SExpr') : M Value :=
  match item.1 with
  | IntegerLiteral n => mret (default VNull (row !! Z.to_nat (saturating_sub (as_u64 n) 1)))
  | ColumnRef _ column => mret (default VNull (i ← col_map !! to_ascii_lowercase column; row !! i))
  | e => unwrap_null (eval_expr row col_map e)
  end.
Definition output_col_map (names : list string) : ColMap := foldl (λ m '(i, n), <[lower_name n := i]> m) ∅ (imap pair names).
Definition sort_output (q : SelectStmt) (names : list string) (rows : list Row) : M (list Row) :=
  keyed ← mapM (λ row, keys ← mapM (output_key row (output_col_map names)) (order_by q); mret (keys, row)) rows;
  top_n ← top_n_limit (limit q) (offset q);
  mret (map snd (sort_top_n (by_keys (order_by q)) top_n keyed)).
Definition pre_sort (q : SelectStmt) : bool := negb (is_nil (order_by q)) && is_nil (group_by q) && negb (has_aggregate (columns q)).

Definition apply_offset (e : option SExpr') (rows : list Row) : M (list Row) :=
  match e with Some e => v ← constant e; mret (split_off (offset_value v) rows) | None => mret rows end.
Definition apply_limit (e : option SExpr') (rows : list Row) : M (list Row) :=
  match e with
  | Some e => v ← constant e; mret (truncate (default (zlen rows) (limit_value v)) rows)
  | None => mret rows
  end.

(** *** The pipeline *)

(** Window functions taken out of the select list and ORDER BY. *)
Fixpoint extract_columns (cols : list Column) (acc : list SExpr') : list Column * list SExpr' :=
  match cols with
  | [] => ([], acc)
  | SExpr e alias :: cols' =>
      let '(e, acc) := extract_window_funcs e acc in
      let '(cols', acc) := extract_columns cols' acc in (SExpr e alias :: cols', acc)
  | c :: cols' => let '(cols', acc) := extract_columns cols' acc in (c :: cols', acc)
  end.
Fixpoint extract_order (items : list (OrderByItem SExpr')) (acc : list SExpr') : list (OrderByItem SExpr') * list SExpr' :=
  match items with
  | [] => ([], acc)
  | (e, d) :: items' =>
      let '(e, acc) := extract_window_funcs e acc in
      let '(items', acc) := extract_order items' acc in ((e, d) :: items', acc)
  end.
(** The statement as it is executed: without its CTEs, its window functions
    extracted, its joins in the order chosen. *)
Definition prepare_select (s : V) (q : SelectStmt) : SelectStmt * list SExpr' :=
  let '(cols, acc) := extract_columns (columns q) [] in
  let '(items, acc) := extract_order (order_by q) acc in
  (mkSelect (is_distinct q) cols ((λ f, reorder_joins f s) <$> from q) (where_clause q) (group_by q) (having q) items
     (limit q) (offset q) [] (window_defs q) (for_update q), acc).
Definition select_col_map (s : V) (f : option FromClause) (names : list string) : ColMap :=
  let m := build_col_map names in
  match f with Some f => (inject_qualified_names s f names m 0).1 | None => m end.
(** Grouping, aggregation without groups, or projection. *)
Definition project_select (q : SelectStmt) (window_funcs : list SExpr') (rows : list Row) (names : list string) (col_map : ColMap)
    : M (list string * list Row) :=
  if negb (is_nil (group_by q)) then
    apply_group_by rows (group_by q) (columns q) names col_map (having q) window_funcs (window_defs q)
  else if has_aggregate (columns q) then
    apply_implicit_aggregate rows (columns q) names col_map window_funcs (window_defs q)
  else project_columns (columns q) rows names col_map window_funcs (window_defs q).
(** The locks of SELECT FOR UPDATE. *)
Definition lock_row (name : string) (rid : Z) : M unit := λ s,
  let e := vm_rest s in
  if rid =? 0 then (Ok tt, s)
  else
    let '(r, m) := try_lock_row name rid (txn_id e) (row_locks e) in
    (match r with Err (Internal msg) => Err (LockConflict msg) | r => r end, upd_engine (set_row_locks m) s).
Definition lock_rows (q : SelectStmt) (row_ids : list Z) : M unit :=
  s ← st_get;
  match from q with
  | Some (FTable name _) =>
      if for_update q && negb (txn_id (vm_rest s) =? 0) then st_iter (lock_row name) row_ids else mret tt
  | _ => mret tt
  end.
(** From the source rows to the output rows, with the ids to lock. *)
Definition select_rows (q : SelectStmt) (window_funcs : list SExpr') (rows : list Row) (names : list string) (where_done : bool)
    : M (list string * list Row * list Z) :=
  row_ids ← source_row_ids (from q) rows;
  s ← st_get;
  let col_map := select_col_map s (from q) names in
  where_expr ← (match (if where_done then None else where_clause q) with
    | Some e => e ← rewrite_uncorrelated_subqueries names e; mret (Some e)
    | None => mret None
    end);
  s ← st_get;
  '(rows, active_row_ids) ← apply_where (with_rls s (from q) where_expr) col_map row_ids rows;
  rows ← (if pre_sort q then sort_source q col_map row_ids rows else mret rows);
  '(names, rows) ← project_select q window_funcs rows names col_map;
  let rows := if is_distinct q then distinct rows else rows in
  rows ← (if negb (is_nil (order_by q)) && negb (pre_sort q) then sort_output q names rows else mret rows);
  rows ← apply_offset (offset q) rows;
  rows ← apply_limit (limit q) rows;
  mret (names, rows, active_row_ids).
(** [exec_select], over the execution of the queries inside. *)
Definition select_body (q : SelectStmt) : M ExecResult :=
  _ ← st_iter eval_cte (ctes q);
  s ← st_get;
  let '(sel, window_funcs) := prepare_select s q in
  src ← source sel;
  match src with
  | inl result => mret result
  | inr (rows, names, where_done) =>
      '(names, rows, active_row_ids) ← select_rows sel window_funcs rows names where_done;
      _ ← st_iter (λ cte, cte_remove (to_ascii_lowercase (cte_name cte))) (ctes q);
      _ ← lock_rows sel active_row_ids;
      mret (QueryResult names rows)
  end.
End Select.

(** Execution with a bound on the nesting of queries; views can refer to each
    other without end, on which the code overflows its stack. *)
Fixpoint exec_select_fuel {Q} `{StdFns} `{SelectNth} `{OtherFunctions (Engine Q)} `{TableScans Q} `{Planner Q} (fuel : nat) (q : SelectStmt)
    : ST (VM (Engine Q)) ExecResult :=
  match fuel with
  | O => st_lift Hang
  | S fuel => select_body (exec_select_fuel fuel) q
  end.
