(* ===== verification/SelectProps.v ===== *)
(** Properties of SELECT (src/src/vm/exec_select.rs): the pipeline computes
    filter, sort, projection, DISTINCT, OFFSET and LIMIT; row-level security
    hides rows; and the divergences of its shortcuts. *)
From S2P Require Import Prelude Values Text Expr ExprTypes Mvcc RowLocks RowOps Joins TableFns Aggregates Window Select.

(** ** Runs that only touch scratch fields

    While it works through rows, SELECT writes the current row id and the
    window results.  [run s m a] says that from every state that differs from
    [s] in these fields only, [m] returns [a] in such a state. *)
Section Runs.
Context {Q : Type}.
Abbreviation V := (VM (Engine Q)).
Abbreviation M := (ST V).

Definition scratch (s s' : V) : Prop := ∃ rid wr idx, s' = set_windows wr idx (upd_engine (set_current_rowid rid) s).
Definition run {A} (s : V) (m : M A) (a : A) : Prop := ∀ s1, scratch s s1 → ∃ s2, scratch s s2 ∧ m s1 = (Ok a, s2).

Lemma scratch_refl s : scratch s s.
Proof. exists (current_rowid (vm_rest s)), (window_results s), (current_window_row_idx s). by destruct s as [? ? ? ? ? []]. Qed.
Lemma scratch_trans s s1 s2 : scratch s s1 → scratch s1 s2 → scratch s s2.
Proof. intros (r1 & w1 & i1 & ->) (r2 & w2 & i2 & ->). by exists r2, w2, i2. Qed.
Lemma scratch_facts s s1 : scratch s s1 →
  tables (vm_rest s1) = tables (vm_rest s) ∧ cte_cache (vm_rest s1) = cte_cache (vm_rest s) ∧ session_vars s1 = session_vars s
  ∧ snapshot_in_use (vm_rest s1) = snapshot_in_use (vm_rest s) ∧ undo_log (vm_rest s1) = undo_log (vm_rest s)
  ∧ txn_id (vm_rest s1) = txn_id (vm_rest s) ∧ row_locks (vm_rest s1) = row_locks (vm_rest s).
Proof. by intros (r & w & i & ->). Qed.

Lemma run_ret {A} s (a : A) : run s (mret a) a.
Proof. intros s1 H1. by exists s1. Qed.
Lemma run_bind {A B} s (m : M A) (f : A → M B) a b : run s m a → run s (f a) b → run s (m ≫= f) b.
Proof.
  intros Hm Hf s1 H1. destruct (Hm s1 H1) as (s2 & H2 & E). destruct (Hf s2 H2) as (s3 & H3 & E3). exists s3.
  by rewrite ST_bind_unfold, E.
Qed.
Lemma run_get {B} s (f : V → M B) b : (∀ s1, scratch s s1 → run s (f s1) b) → run s (st_get ≫= f) b.
Proof. intros Hf s1 H1. destruct (Hf s1 H1 s1 H1) as (s2 & H2 & E). exists s2. by rewrite ST_bind_unfold. Qed.
Lemma run_mapM {A B} s (f : A → M B) (g : A → B) l : (∀ x, x ∈ l → run s (f x) (g x)) → run s (mapM f l) (map g l).
Proof.
  induction l as [|x l IH]; intros Hf; [apply run_ret|]. cbn [mapM map]. apply (run_bind _ _ _ (g x)); [apply Hf; left|].
  apply (run_bind _ _ _ (map g l)); [apply IH; intros y Hy; apply Hf; by right|apply run_ret].
Qed.
Lemma run_flat_map {A B} s (f : A → M (list B)) (g : A → list B) l :
  (∀ x, x ∈ l → run s (f x) (g x)) → run s (st_flat_map f l) (l ≫= g).
Proof.
  induction l as [|x l IH]; intros Hf; [apply run_ret|]. cbn [st_flat_map]. apply (run_bind _ _ _ (g x)); [apply Hf; left|].
  apply (run_bind _ _ _ (l ≫= g)); [apply IH; intros y Hy; apply Hf; by right|apply run_ret].
Qed.
Lemma run_unwrap s (m : M Value) v : run s m v → run s (unwrap_null m) v.
Proof. intros Hm s1 Hs1. destruct (Hm s1 Hs1) as (s2 & Hs2 & E). exists s2. split; [done|]. unfold unwrap_null. by rewrite E. Qed.
Lemma run_set_rowid s r : run s (set_rowid r) tt.
Proof.
  intros s1 (r1 & w & i & ->). exists (set_windows w i (upd_engine (set_current_rowid r) s)). split; [by exists r, w, i|done].
Qed.
Lemma run_set_windows s res : run s (set_window_results res) tt.
Proof. intros s1 (r & w & i & ->). eexists. split; [|reflexivity]. by exists r, (Some res), i. Qed.
Lemma run_set_window_row s idx : run s (set_window_row idx) tt.
Proof. intros s1 (r & w & i & ->). eexists. split; [|reflexivity]. by exists r, w, idx. Qed.
End Runs.
Ltac run_step := first [eapply run_bind; [by eauto using run_set_rowid, run_ret|]|apply run_ret].

(** ** Lemmas: lists *)

Lemma sort_by_map {A B} (f : A → B) (c : B → B → comparison) l :
  sort_by c (map f l) = map f (sort_by (λ x y, c (f x) (f y)) l).
Proof.
  assert (∀ x l, insert_by c (f x) (map f l) = map f (insert_by (λ x y, c (f x) (f y)) x l)) as Hi.
  { intros x k. induction k as [|y k IH]; [done|]. cbn [map insert_by]. destruct (c (f x) (f y)); cbn [map]; by rewrite ?IH. }
  induction l as [|x l IH]; [done|]. change (sort_by c (map f (x :: l))) with (insert_by c (f x) (sort_by c (map f l))).
  rewrite IH, Hi. done.
Qed.
Lemma map_imap_pair {A B} (g : A → B) (h : nat * A → B) (l : list A) : (∀ i x, h (i, x) = g x) → map h (imap pair l) = map g l.
Proof.
  intros Hh. assert (∀ n, map h (imap (λ i, pair (n + i)%nat) l) = map g l) as Hn; [|apply (Hn 0%nat)].
  induction l as [|x l IH]; intros n; [done|]. cbn [imap map]. rewrite Hh. f_equal.
  rewrite <- (IH (S n)). f_equal. apply imap_ext. intros i y _. cbn. f_equal. lia.
Qed.
Lemma pair_row_ids_rows ids rows : map snd (pair_row_ids ids rows) = rows.
Proof.
  unfold pair_row_ids. destruct (Nat.eqb_spec (length ids) (length rows)) as [E|_].
  - change (map snd (zip ids rows)) with ((zip ids rows).*2). apply snd_zip. lia.
  - rewrite map_map. cbn. apply map_id.
Qed.
Lemma bind_filter_snd (p : Row → bool) (l : list (Z * Row)) :
  map snd (l ≫= λ '(rid, row), if p row then [(rid, row)] else []) = List.filter p (map snd l).
Proof. induction l as [|[rid row] l IH]; [done|]. cbn [mbind list_bind map List.filter snd] in *. rewrite map_app, IH. by destruct (p row). Qed.
(** Without keys the sort leaves the rows alone. *)
Lemma sort_by_const {A} (c : A → A → comparison) l : (∀ x y, c x y = Eq) → sort_by c l = l.
Proof.
  intros Hc. induction l as [|x l IH]; [done|]. change (sort_by c (x :: l)) with (insert_by c x (sort_by c l)). rewrite IH.
  destruct l as [|y l]; [done|]. cbn [insert_by]. by rewrite Hc.
Qed.

Lemma filter_true_id {A} (f : A → bool) l : (∀ x, f x = true) → List.filter f l = l.
Proof. intros Hf. induction l as [|x l IH]; [done|]. cbn [List.filter]. by rewrite Hf, IH. Qed.

(** ** The stages over one table *)

Section Pipeline.
Context {Q : Type} `{StdFns} `{SelectNthLaw} `{OtherFunctions (Engine Q)} `{TableScans Q} `{Planner Q}.
Abbreviation V := (VM (Engine Q)).
Abbreviation M := (ST V).
Context (rec : SelectStmt → M ExecResult).
#[local] Instance nested_rec : SelectExec SelectStmt (Engine Q) := rec.

(** The table [name] is a base table without a CTE of that name in the way,
    its scans give the rows [R] with their ids, and no snapshot is in use. *)
Record base_table (s : V) (name : string) (t : Table) (R : list (Z * Row)) : Prop := mkBaseTable {
  bt_lookup : lookup_table name s = Some t;
  bt_cte : cached_cte name s = None;
  bt_view : view_select t = None;
  bt_snapshot : snapshot_in_use (vm_rest s) = None;
  bt_scan_all : run s (table_scan_all name (root_page t)) R;
  bt_scan_rows : run s (table_scan_rows name (root_page t)) (map snd R);
  bt_scan_limit : ∀ n, 0 ≤ n → run s (table_scan_rows_limit name (root_page t) n) (take (Z.to_nat n) (map snd R));
}.
(** An expression that evaluates in each of the rows, to a value that WHERE
    takes for [p]. *)
Definition evaluates (s : V) (cm : ColMap) (rows : list Row) (e : SExpr') (p : Row → bool) : Prop :=
  ∀ row, row ∈ rows → ∃ v, run s (eval_expr row cm e) v ∧ is_truthy v = p row.
(** WHERE after its uncorrelated subqueries have been replaced. *)
Definition where_evaluates (s : V) (names : list string) (cm : ColMap) (rows : list Row) (e : option SExpr') (p : Row → bool) : Prop :=
  match e with
  | Some e => ∃ e', run s (rewrite_uncorrelated_subqueries rec names e) e' ∧ evaluates s cm rows e' p
  | None => ∀ row, p row = true
  end.

Lemma evaluates_and s cm rows e1 e2 p1 p2 : evaluates s cm rows e1 p1 → evaluates s cm rows e2 p2 →
  evaluates s cm rows (BinaryOp e1 And e2) (λ row, p1 row && p2 row).
Proof.
  intros E1 E2 row Hrow. destruct (E1 row Hrow) as (v1 & R1 & T1), (E2 row Hrow) as (v2 & R2 & T2). rewrite <- T1, <- T2.
  cbn [eval_expr]. unfold eval_and.
  exists (if is_falsy v1 then VInteger 0 else if is_falsy v2 then VInteger 0 else if is_null v1 || is_null v2 then VNull else VInteger 1).
  split.
  - eapply run_bind; [exact R1|]. destruct (is_falsy v1); [apply run_ret|]. eapply run_bind; [exact R2|]. destruct (is_falsy v2); apply run_ret.
  - unfold is_falsy. destruct (is_null v1) eqn:N1, (is_null v2) eqn:N2, (is_truthy v1) eqn:T1', (is_truthy v2) eqn:T2';
      try reflexivity; first [by destruct v1|by destruct v2].
Qed.
(** The policies of a table restrict the rows that WHERE keeps. *)
Lemma add_policies s cm rows (us : list (Row → bool)) (es : list SExpr') :
  Forall2 (evaluates s cm rows) es us → ∀ w p, evaluates s cm rows w p →
  ∃ w', foldl add_rls (Some w) es = Some w' ∧ evaluates s cm rows w' (λ row, p row && forallb (λ u, u row) us).
Proof.
  induction 1 as [|e u es us Hu _ IH]; intros w p Hw.
  - exists w. split; [done|]. intros row Hrow. destruct (Hw row Hrow) as (v & R & T). exists v. by rewrite andb_true_r.
  - cbn [foldl add_rls]. destruct (IH _ _ (evaluates_and _ _ _ _ _ _ _ Hw Hu)) as (w' & E & Hw'). exists w'. split; [done|].
    intros row Hrow. destruct (Hw' row Hrow) as (v & R & T). exists v. cbn [forallb]. by rewrite andb_assoc.
Qed.
Lemma filter_rows_run s cm e p zipped : evaluates s cm (map snd zipped) e p →
  run s (filter_rows rec e cm zipped) (zipped ≫= λ '(rid, row), if p row then [(rid, row)] else []).
Proof.
  intros He. apply run_flat_map. intros [rid row] Hin.
  destruct (He row) as (v & R & T); [apply list_elem_of_fmap; by exists (rid, row)|]. rewrite <- T.
  eapply run_bind; [apply run_set_rowid|]. eapply run_bind; [exact R|]. apply run_ret.
Qed.

Lemma constant_run s n : run s (constant rec (IntegerLiteral n)) (VInteger n).
Proof. apply run_ret. Qed.
(** What literal LIMIT and OFFSET say. *)
Definition limit_of (lim : option Z) : option Z := n ← lim; if 0 <=? n then Some n else None.
Definition skip_of (off : option Z) : Z := match off with Some n => Z.max 0 n | None => 0 end.
Lemma limit_of_nonneg lim l : limit_of lim = Some l → 0 ≤ l.
Proof. unfold limit_of. destruct lim; cbn; [|done]. destruct (Z.leb_spec 0 z); [|done]. by intros [= <-]. Qed.
Lemma skip_of_nonneg off : 0 ≤ skip_of off.
Proof. unfold skip_of. destruct off; lia. Qed.
Definition page {A} (lim off : option Z) (l : list A) : list A :=
  let l := drop (Z.to_nat (skip_of off)) l in match limit_of lim with Some n => take (Z.to_nat n) l | None => l end.
Lemma page_map {A B} (f : A → B) lim off l : page lim off (map f l) = map f (page lim off l).
Proof. unfold page. destruct (limit_of lim); by rewrite ?skipn_map, ?firstn_map. Qed.
Lemma offset_value_skip n : offset_value (VInteger n) = Z.max 0 n.
Proof. cbn. destruct (Z.ltb_spec 0 n); lia. Qed.
Lemma limit_value_of n : limit_value (VInteger n) = limit_of (Some n).
Proof. reflexivity. Qed.
Lemma offset_of_run s off : run s (offset_of rec (IntegerLiteral <$> off)) (skip_of off).
Proof.
  destruct off as [n|]; cbn [fmap option_fmap option_map offset_of]; [|apply run_ret].
  eapply run_bind; [apply constant_run|]. rewrite offset_value_skip. apply run_ret.
Qed.
Lemma top_n_limit_run s lim off :
  run s (top_n_limit rec (IntegerLiteral <$> lim) (IntegerLiteral <$> off)) (top_n_of (limit_of lim) (skip_of off)).
Proof.
  destruct lim as [n|]; cbn [fmap option_fmap option_map top_n_limit]; [|apply run_ret].
  eapply run_bind; [apply constant_run|]. rewrite limit_value_of. destruct (limit_of (Some n)) as [l|]; [|apply run_ret].
  eapply run_bind; [apply offset_of_run|]. apply run_ret.
Qed.
Lemma apply_offset_run s off rows : run s (apply_offset rec (IntegerLiteral <$> off) rows) (drop (Z.to_nat (skip_of off)) rows).
Proof.
  destruct off as [n|]; cbn [fmap option_fmap option_map apply_offset skip_of]; [|apply run_ret].
  eapply run_bind; [apply constant_run|]. rewrite offset_value_skip, split_off_drop by lia. apply run_ret.
Qed.
Lemma apply_limit_run s lim off rows :
  run s (apply_limit rec (IntegerLiteral <$> lim) (drop (Z.to_nat (skip_of off)) rows)) (page lim off rows).
Proof.
  unfold page. destruct lim as [n|]; cbn [fmap option_fmap option_map apply_limit]; [|apply run_ret].
  eapply run_bind; [apply constant_run|]. rewrite limit_value_of. destruct (limit_of (Some n)) as [l|] eqn:E.
  - apply limit_of_nonneg in E. cbn [default from_option]. rewrite truncate_take by done. apply run_ret.
  - cbn [default from_option]. rewrite truncate_take by apply zlen_nonneg. rewrite take_ge by (unfold zlen; lia). apply run_ret.
Qed.

(** What a page leaves out. *)
Lemma window_rest {A} (m : list A) o l : ∃ rest, take l (drop o m) ++ rest ≡ₚ m.
Proof. exists (take o m ++ drop l (drop o m)). by rewrite Permutation_app_swap_app, !take_drop. Qed.
(** The stage of the sort. *)
Definition same_order (items : list (OrderByItem SExpr')) (ks : Row → list Value) (x y : Row) : comparison :=
  compare_keys (map snd items) (ks x) (ks y).
Definition keyed_rows (ks : Row → list Value) (rows : list Row) : list Keyed := map (λ row, (ks row, row)) rows.
Lemma sort_source_run s q cm ids rows ks lim off : limit q = IntegerLiteral <$> lim → offset q = IntegerLiteral <$> off →
  (∀ row, row ∈ rows → run s (eval_keys rec (order_by q) row cm) (ks row)) →
  run s (sort_source rec q cm ids rows)
    (map snd (sort_top_n (by_keys (order_by q)) (top_n_of (limit_of lim) (skip_of off)) (keyed_rows ks rows))).
Proof.
  intros Hl Ho Hks. unfold sort_source. rewrite Hl, Ho. eapply run_bind; [apply top_n_limit_run|].
  eapply run_bind; [|apply run_ret]. unfold keyed_rows.
  rewrite <- (map_imap_pair (λ row, (ks row, row)) (λ ir, (ks ir.2, ir.2))) by done.
  apply run_mapM. intros [i row] Hin. eapply run_bind; [apply run_set_rowid|]. eapply run_bind; [|apply run_ret]. apply Hks.
  apply elem_of_lookup_imap in Hin as (j & y & [= <- <-] & Hy). by eapply list_elem_of_lookup_2.
Qed.
Lemma keyed_rows_snd ks rows : map snd (keyed_rows ks rows) = rows.
Proof. unfold keyed_rows. rewrite map_map. apply map_id. Qed.
Lemma by_keys_total cls items : total_on (λ kr : Keyed, keys_ok cls kr.1) (by_keys items).
Proof. apply (total_map (keys_ok cls) _ fst); [apply compare_keys_total|done]. Qed.
Lemma keyed_rows_ok cls ks kept : Forall (λ row, keys_ok cls (ks row)) kept → Forall (λ kr : Keyed, keys_ok cls kr.1) (keyed_rows ks kept).
Proof. intros Hk. by apply List.Forall_map. Qed.
(** Sorting keeps rows of its input, each with its keys. *)
Lemma sort_top_n_rest items cls ks k (kept : list Row) : Forall (λ row, keys_ok cls (ks row)) kept → (∀ n, k = Some n → 0 ≤ n) →
  ∃ rest, sort_top_n (by_keys items) k (keyed_rows ks kept) ++ rest ≡ₚ keyed_rows ks kept.
Proof.
  intros Hk Hn. destruct k as [n|].
  - destruct (sort_top_n_prefix _ (by_keys items) (by_keys_total cls items) n (keyed_rows ks kept)) as (_ & _ & rest & Hrest);
      [by apply keyed_rows_ok|by apply Hn|]. by exists rest.
  - exists []. rewrite app_nil_r. apply sort_by_perm.
Qed.
Lemma sort_top_n_keys items cls ks k (kept : list Row) : Forall (λ row, keys_ok cls (ks row)) kept → (∀ n, k = Some n → 0 ≤ n) →
  Forall (λ kr : Keyed, kr.1 = ks kr.2) (sort_top_n (by_keys items) k (keyed_rows ks kept)).
Proof.
  intros Hk Hn. destruct (sort_top_n_rest items cls ks k kept Hk Hn) as [rest Hrest].
  assert (Forall (λ kr : Keyed, kr.1 = ks kr.2) (sort_top_n (by_keys items) k (keyed_rows ks kept) ++ rest)) as Hall; [|by apply Forall_app in Hall as [? _]].
  rewrite Hrest. apply List.Forall_map, Forall_true. done.
Qed.
Lemma top_n_of_nonneg lim off n : top_n_of (limit_of lim) (skip_of off) = Some n → 0 ≤ n.
Proof.
  destruct (limit_of lim) as [l|] eqn:E; cbn; [|done]. apply limit_of_nonneg in E. pose proof (skip_of_nonneg off). intros [= <-].
  unfold saturating_add_u64, U64_MAX. lia.
Qed.
(** The top-N sort keeps the first rows of the sorted rows, up to ties. *)
Lemma top_rows items cls ks n (kept : list Row) : Forall (λ row, keys_ok cls (ks row)) kept → 0 ≤ n →
  let src := map snd (sort_top_n (by_keys items) (Some n) (keyed_rows ks kept)) in
  Forall2 (λ x y, same_order items ks x y = Eq) src (take (Z.to_nat n) (sort_by (same_order items ks) kept)) ∧ ∃ rest, src ++ rest ≡ₚ kept.
Proof.
  intros Hk Hn src. pose proof (sort_by_map (λ row, (ks row, row)) (by_keys items) kept) as Hfull.
  change (map _ kept) with (keyed_rows ks kept) in Hfull at 1. set (sorted_rows := sort_by (λ x y, by_keys items _ _) kept) in Hfull.
  change (map _ sorted_rows) with (keyed_rows ks sorted_rows) in Hfull. change (sort_by (same_order items ks) kept) with sorted_rows.
  assert (∀ m, Some n = Some m → 0 ≤ m) as Hn' by (by intros m [= <-]).
  pose proof (sort_top_n_keys items cls ks (Some n) kept Hk Hn') as Htop.
  destruct (sort_top_n_prefix _ (by_keys items) (by_keys_total cls items) n (keyed_rows ks kept) (keyed_rows_ok _ _ _ Hk) Hn) as (_ & Hpre & rest & Hrest).
  unfold src. clear src. set (top := sort_top_n _ _ _) in *. split.
  - rewrite Hfull in Hpre. unfold keyed_rows in Hpre. rewrite firstn_map in Hpre. apply Forall2_fmap_r in Hpre. apply Forall2_fmap_l.
    clearbody top. clear -Hpre Htop. induction Hpre as [|x y xs ys Hxy _ IH]; [constructor|].
    apply Forall_cons in Htop as [Hx Htop]. constructor; [|by apply IH]. unfold same_order, by_keys in *. cbn in *. by rewrite <- Hx.
  - exists (map snd rest). rewrite <- map_app, Hrest. by rewrite keyed_rows_snd.
Qed.
Lemma page_sorted items cls ks lim off (kept : list Row) :
  Forall (λ row, keys_ok cls (ks row)) kept → zlen kept ≤ U64_MAX →
  let src := page lim off (map snd (sort_top_n (by_keys items) (top_n_of (limit_of lim) (skip_of off)) (keyed_rows ks kept))) in
  let full := page lim off (sort_by (same_order items ks) kept) in
  (limit_of lim = None → src = full) ∧ Forall2 (λ x y, same_order items ks x y = Eq) src full ∧ ∃ rest, src ++ rest ≡ₚ kept.
Proof.
  intros Hk Hlen src full. pose proof (sort_by_map (λ row, (ks row, row)) (by_keys items) kept) as Hfull.
  change (map _ kept) with (keyed_rows ks kept) in Hfull at 1. set (sorted_rows := sort_by (λ x y, by_keys items _ _) kept) in Hfull.
  change (map _ sorted_rows) with (keyed_rows ks sorted_rows) in Hfull.
  assert (full = page lim off sorted_rows) as -> by done. unfold src. clear src.
  assert (Forall (λ row, keys_ok cls (ks row)) sorted_rows) as Hs by (unfold sorted_rows; by rewrite sort_by_perm).
  pose proof (top_n_of_nonneg lim off) as Hn. pose proof (sort_top_n_keys items cls ks _ kept Hk Hn) as Htop.
  destruct (sort_top_n_rest items cls ks _ kept Hk Hn) as [rest Hrest].
  unfold page. destruct (limit_of lim) as [l|] eqn:El.
  - split; [done|]. apply limit_of_nonneg in El. pose proof (skip_of_nonneg off) as Ho.
    assert (zlen (keyed_rows ks kept) ≤ U64_MAX) as Hlen' by (unfold zlen, keyed_rows in *; by rewrite length_map).
    pose proof (top_n_page (map snd items) cls (keyed_rows ks kept) l (skip_of off) (keyed_rows_ok _ _ _ Hk) El Ho Hlen') as Hpage.
    cbn zeta in Hpage. fold (by_keys items) in Hpage. rewrite truncate_take, split_off_drop, Hfull in Hpage by done.
    set (top := sort_top_n _ _ _) in *. split.
    + rewrite !skipn_map, !firstn_map. unfold keyed_rows in Hpage. rewrite skipn_map, firstn_map in Hpage.
      apply Forall2_fmap_l. apply Forall2_fmap_r in Hpage.
      apply (Forall_drop _ (Z.to_nat (skip_of off))), (Forall_take _ (Z.to_nat l)) in Htop. clear -Hpage Htop.
      induction Hpage as [|x y xs ys Hxy _ IH]; [constructor|]. apply Forall_cons in Htop as [Hx Htop]. constructor; [|by apply IH].
      unfold same_order, by_keys in *. cbn in *. by rewrite <- Hx.
    + destruct (window_rest (map snd top) (Z.to_nat (skip_of off)) (Z.to_nat l)) as [rest' Hr]. exists (rest' ++ map snd rest).
      by rewrite app_assoc, Hr, <- map_app, Hrest, keyed_rows_snd.
  - unfold top_n_of. cbn [fmap option_fmap option_map sort_top_n]. rewrite Hfull, keyed_rows_snd. split; [done|]. split.
    + apply Forall_Forall2_diag, Forall_drop. eapply Forall_impl; [exact Hs|]. intros row Hrow.
      by eapply (total_refl _ _ (compare_keys_total cls _)).
    + exists (take (Z.to_nat (skip_of off)) sorted_rows). rewrite Permutation_app_comm, take_drop. apply sort_by_perm.
Qed.

(** The stage of the projection. *)
Lemma run_det {A} s (m : M A) a b : run s m a → run s m b → a = b.
Proof. intros Ha Hb. destruct (Ha s (scratch_refl s)) as (? & _ & E1), (Hb s (scratch_refl s)) as (? & _ & E2). congruence. Qed.
Lemma identity_row (plan : list (string * @Proj SelectStmt WindowExpr)) names (eval : SExpr' → M Value) (row : Row) s :
  is_identity plan names = true → length row = length names → run s (project_row eval plan row) row.
Proof.
  unfold is_identity. rewrite andb_true_iff, Nat.eqb_eq. intros [Hlen Hid] Hrow. rewrite forallb_forall in Hid.
  assert (∀ i np, plan !! i = Some np → np.2 = PIndex i) as Hp.
  { intros i [n p] Hi. specialize (Hid (i, (n, p))). cbn in Hid. rewrite <- list_elem_of_In in Hid.
    assert ((i, (n, p)) ∈ imap pair plan) as Hin by (apply elem_of_lookup_imap; by exists i, (n, p)).
    specialize (Hid Hin). destruct p as [j|e]; [|done]. apply Nat.eqb_eq in Hid. by rewrite Hid. }
  set (g := λ np : string * @Proj SelectStmt WindowExpr, match np.2 with PIndex i => default VNull (row !! i) | PExpr _ => VNull end).
  assert (map g plan = row) as Hg.
  { apply list_eq. intros i. rewrite list_lookup_fmap. destruct (plan !! i) as [np|] eqn:E; cbn [fmap option_fmap option_map].
    - unfold g. rewrite (Hp i np E). apply lookup_lt_Some in E. destruct (row !! i) eqn:Er; [done|]. apply lookup_ge_None in Er. lia.
    - apply lookup_ge_None in E. symmetry. apply lookup_ge_None. lia. }
  intros s1 Hs1. exists s1. split; [done|].
  transitivity (Ok (map g plan), s1); [|by rewrite Hg]. unfold project_row. apply st_mapM_pure. intros [n p] Hin.
  apply list_elem_of_lookup in Hin as [i Hi]. specialize (Hp i _ Hi). cbn in Hp. subst p. reflexivity.
Qed.
Lemma project_run s (cols : list Column) rows names cm defs pr : Forall (λ row, length row = length names) rows →
  (∀ row, row ∈ rows → run s (project_row (eval_expr row cm) (projection_plan cols names cm) row) (pr row)) →
  run s (project_columns cols rows names cm [] defs) (map fst (projection_plan cols names cm), map pr rows).
Proof.
  intros Hw Hpr. unfold project_columns. set (plan := projection_plan cols names cm) in *.
  destruct (is_identity plan names) eqn:Hid; cbn [andb bool_decide].
  - assert (map pr rows = rows) as ->; [|apply run_ret]. rewrite <- (map_id rows) at 2. apply map_ext_in. intros row Hrow%list_elem_of_In.
    rewrite Forall_forall in Hw. eapply run_det; [by apply Hpr|]. eapply identity_row; [exact Hid|by apply Hw].
  - eapply run_bind; [apply (run_bind _ _ _ [] _ (run_ret s _)), run_ret|]. eapply run_bind; [apply run_set_windows|].
    eapply run_bind; [|apply run_ret]. rewrite <- (map_imap_pair pr (λ ir, pr ir.2)) by done.
    apply run_mapM. intros [i row] Hin. eapply run_bind; [apply run_set_window_row|]. apply Hpr.
    apply elem_of_lookup_imap in Hin as (j & y & [= <- <-] & Hy). by eapply list_elem_of_lookup_2.
Qed.

(** *** The pipeline over one table *)

Context (s : V) (q : SelectStmt) (name : string) (alias : option string) (t : Table) (R : list (Z * Row)).
Context (p : Row → bool) (us : list (Row → bool)) (ks : Row → list Value) (cls : nat → bool) (pr : Row → Row) (lim off : option Z).
Abbreviation names := (col_names t).
Abbreviation cm := (select_col_map s (from q) names).
Abbreviation rows := (map snd R).
(** A SELECT from one base table, without groups and aggregates, with literal
    LIMIT and OFFSET, that no index answers, whose expressions evaluate in the
    rows: WHERE to [p], the policies of the table to [us], the sort keys to
    [ks], the select list to [pr]. *)
Record simple_select : Prop := mkSimple {
  sel_from : from q = Some (FTable name alias);
  sel_table : base_table s name t R;
  sel_group : group_by q = [];
  sel_plain : has_aggregate (columns q) = false;
  sel_limit : limit q = IntegerLiteral <$> lim;
  sel_offset : offset q = IntegerLiteral <$> off;
  sel_index : ∀ e, where_clause q = Some e → run s (try_index_scan (FTable name alias) e) None;
  sel_where : where_evaluates s names cm rows (where_clause q) p;
  sel_policies : Forall2 (evaluates s cm rows) (rls_exprs s name) us;
  sel_keys : ∀ row, row ∈ rows → run s (eval_keys rec (order_by q) row cm) (ks row) ∧ keys_ok cls (ks row);
  sel_width : Forall (λ row, length row = length names) rows;
  sel_project : ∀ row, row ∈ rows → run s (project_row (eval_expr row cm) (projection_plan (columns q) names cm) row) (pr row);
  sel_size : zlen R ≤ U64_MAX;
}.
Definition visible (row : Row) : bool := p row && forallb (λ u, u row) us.
Context (Hq : simple_select).

Lemma not_count_star : is_count_star q = false.
Proof.
  pose proof (sel_plain Hq) as Hagg. unfold is_count_star. destruct (columns q) as [|[| |e a] [|? ?]]; rewrite ?andb_false_r; try done.
  all: destruct e as [| | | | | | | | | | | | | |fname args d| | | | | | | | | | |]; rewrite ?andb_false_r; try done.
  destruct (eq_ignore_ascii_case fname "count") eqn:E; [|by rewrite andb_false_r]. exfalso.
  assert (is_aggregate fname = true) as Ha; [|cbn [has_aggregate existsb expr_has_aggregate] in Hagg; by rewrite Ha in Hagg].
  unfold is_aggregate, is_name. cbn [existsb]. apply orb_true_iff. left. exact E.
Qed.
(** The rows FROM gives: all, or as many as LIMIT and OFFSET ask for. *)
Definition pushed : bool := limit_pushdown q && negb (rls_enabled t).
Definition needed : Z := saturating_add_u64 (default U64_MAX (limit_of lim)) (skip_of off).
Definition source_rows : list Row := if pushed then take (Z.to_nat needed) rows else rows.
Lemma rls_on_table : rls_on name s = rls_enabled t.
Proof. unfold rls_on. by rewrite (bt_lookup _ _ _ _ (sel_table Hq)). Qed.
Lemma eval_from_run : run s (eval_from rec (FTable name alias)) (rows, names).
Proof.
  pose proof (sel_table Hq) as [Hl Hc Hv Hs Ha Hr Hn]. cbn [eval_from]. apply run_get. intros s1 Hs1.
  destruct (scratch_facts _ _ Hs1) as (Ft & Fc & _). unfold cached_cte, lookup_table in *. rewrite Fc, Hc, Ft, Hl. cbn. rewrite Hv.
  apply (run_bind _ _ _ t).
  { intros s2 Hs2. destruct (scratch_facts _ _ Hs2) as (Ft2 & _). exists s2. split; [done|]. unfold get_table, st_gets, lookup_table. by rewrite Ft2, Hl. }
  apply (run_bind _ _ _ rows); [|apply run_ret]. unfold visible_rows. apply run_get. intros s2 Hs2.
  destruct (scratch_facts _ _ Hs2) as (_ & _ & _ & Fs & _). by rewrite Fs, Hs.
Qed.
Lemma source_run : run s (source rec q) (inr (source_rows, names, false)).
Proof.
  pose proof (sel_table Hq) as Ht. pose proof eval_from_run as Hscan.
  assert (run s ('(rows, names) ← eval_from rec (FTable name alias); mret (inr (rows, names, false)))
    (@inr ExecResult _ (rows, names, false))) as Hfull by (eapply run_bind; [exact Hscan|apply run_ret]).
  unfold source, source_rows, pushed. rewrite (sel_from Hq), not_count_star. apply run_get. intros s1 Hs1.
  assert (rls_on name s1 = rls_enabled t) as ->.
  { rewrite <- rls_on_table. unfold rls_on, lookup_table. by destruct (scratch_facts _ _ Hs1) as (-> & _). }
  destruct (limit_pushdown q) eqn:Hp; cbn [andb].
  - destruct (rls_enabled t); cbn [negb]; [exact Hfull|]. rewrite (sel_limit Hq), (sel_offset Hq).
    apply (run_bind _ _ _ (default U64_MAX (limit_of lim))).
    { destruct lim as [n|] eqn:El; cbn [fmap option_fmap option_map].
      - eapply run_bind; [apply constant_run|]. rewrite limit_value_of. apply run_ret.
      - unfold limit_pushdown in Hp. rewrite (sel_limit Hq), El, !andb_true_iff in Hp. by destruct Hp as [[_ Hp] _]. }
    apply (run_bind _ _ _ (skip_of off)); [apply offset_of_run|].
    apply (run_bind _ _ _ t).
    { intros s2 Hs2. destruct (scratch_facts _ _ Hs2) as (Ft2 & _). exists s2. split; [done|].
      pose proof (bt_lookup _ _ _ _ Ht) as Hl. unfold get_table, st_gets, lookup_table in *. by rewrite Ft2, Hl. }
    apply (run_bind _ _ _ (take (Z.to_nat needed) rows)); [|apply run_ret]. apply (bt_scan_limit _ _ _ _ Ht).
    unfold needed, saturating_add_u64. pose proof (skip_of_nonneg off). destruct (limit_of lim) eqn:El; cbn; [apply limit_of_nonneg in El|]; unfold U64_MAX in *; lia.
  - destruct (where_clause q) as [e|] eqn:Hw; [|exact Hfull].
    eapply run_bind; [by apply (sel_index Hq)|]. exact Hfull.
Qed.
Lemma row_ids_run rs : ∃ ids, run s (source_row_ids (from q) rs) ids.
Proof.
  pose proof (sel_table Hq) as Ht. rewrite (sel_from Hq). destruct rs as [|r rs]; [exists []; apply run_ret|].
  exists (if root_page t =? 0 then replicate (length (r :: rs)) 0 else map fst R). cbn [source_row_ids]. apply run_get. intros s1 Hs1.
  destruct (scratch_facts _ _ Hs1) as (Ft & Fc & _). pose proof (bt_lookup _ _ _ _ Ht) as Hl. pose proof (bt_cte _ _ _ _ Ht) as Hc.
  unfold cached_cte, lookup_table in *. rewrite Ft, Fc, Hl, Hc.
  destruct (root_page t =? 0); [apply run_ret|]. apply (run_bind _ _ _ R); [|apply run_ret].
  intros s2 Hs2. destruct (bt_scan_all _ _ _ _ Ht s2 Hs2) as (s3 & Hs3 & E). exists s3. split; [done|]. unfold or_empty. by rewrite E.
Qed.
(** The filter: WHERE and the policies, whatever the row ids. *)
Lemma filter_run (rs : list Row) ids : rs ⊆ rows → ∃ w kept_ids,
  run s (match where_clause q with
         | Some e => e ← rewrite_uncorrelated_subqueries rec names e; mret (Some e)
         | None => mret None
         end) w
  ∧ ∀ s1, scratch s s1 → run s (apply_where rec (with_rls s1 (from q) w) cm ids rs) (List.filter visible rs, kept_ids).
Proof.
  intros Hsub. pose proof (sel_where Hq) as Hw. pose proof (sel_policies Hq) as Hpol.
  assert (∀ e u, evaluates s cm rows e u → evaluates s cm (map snd (pair_row_ids ids rs)) e u) as Hmono.
  { intros e u He row. rewrite pair_row_ids_rows. intros Hrow. by apply He, Hsub. }
  assert (∀ s1 w, scratch s s1 → with_rls s1 (from q) w = foldl add_rls w (rls_exprs s name)) as Hrls.
  { intros s1 w Hs1. rewrite (sel_from Hq). cbn [with_rls collect_base_tables mbind list_bind]. rewrite app_nil_r.
    unfold rls_exprs, current_user, lookup_table. destruct (scratch_facts _ _ Hs1) as (-> & _ & -> & _). done. }
  assert (∀ w' u, evaluates s cm rows w' u → (∀ row, row ∈ rs → u row = visible row) →
    ∃ kept_ids, run s (apply_where rec (Some w') cm ids rs) (List.filter visible rs, kept_ids)) as Happly.
  { intros w' u Hu He. eexists. cbn [apply_where]. eapply run_bind; [apply (filter_rows_run _ _ _ u); by apply Hmono|].
    rewrite bind_filter_snd, pair_row_ids_rows, (list_filter_ext_in u visible) by exact He. apply run_ret. }
  destruct (where_clause q) as [e|]; cbn [where_evaluates] in Hw.
  - destruct Hw as (e' & Hre & He). destruct (add_policies s cm rows us _ Hpol e' p He) as (w' & Ew & Hw').
    destruct (Happly w' _ Hw' (λ _ _, eq_refl)) as (kept_ids & Hk). exists (Some e'), kept_ids.
    split; [eapply run_bind; [exact Hre|apply run_ret]|]. intros s1 Hs1. rewrite Hrls, Ew by done. exact Hk.
  - destruct (rls_exprs s name) as [|e es] eqn:Er.
    + inversion Hpol as [E1 E2|]. exists None, ids. split; [apply run_ret|]. intros s1 Hs1. rewrite Hrls by done. cbn [foldl apply_where].
      rewrite filter_true_id; [apply run_ret|]. intros row. unfold visible. by rewrite Hw, <- E2.
    + inversion Hpol as [|? u ? us' Hu Hus E1 E2]; subst. destruct (add_policies s cm rows us' es Hus e u Hu) as (w' & Ew & Hw').
      destruct (Happly w' _ Hw') as (kept_ids & Hk). { intros row _. unfold visible. by rewrite Hw, <- E2. }
      exists None, kept_ids. split; [apply run_ret|]. intros s1 Hs1. rewrite Hrls by done.
      change (foldl add_rls None (e :: es)) with (foldl add_rls (Some e) es). rewrite Ew. exact Hk.
Qed.

(** The result of the statement, from the rows that FROM gives. *)
Definition deduplicated (l : list Row) : list Row := if is_distinct q then distinct l else l.
Definition source_page (kept : list Row) : list Row :=
  if is_nil (order_by q) then kept
  else map snd (sort_top_n (by_keys (order_by q)) (top_n_of (limit_of lim) (skip_of off)) (keyed_rows ks kept)).
Lemma select_rows_run : ∃ ids,
  run s (select_rows rec q [] source_rows names false)
    (map fst (projection_plan (columns q) names cm),
     page lim off (deduplicated (map pr (source_page (List.filter visible source_rows)))), ids).
Proof.
  assert (source_rows ⊆ rows) as Hsrc.
  { unfold source_rows. destruct pushed; [|done]. intros x Hx. by eapply subseteq_take. }
  set (kept := List.filter visible source_rows).
  assert (kept ⊆ rows) as Hkept.
  { intros x Hx. unfold kept in Hx. rewrite list_elem_of_In, filter_In, <- list_elem_of_In in Hx. by apply Hsrc, Hx. }
  assert (source_page kept ⊆ rows) as Hpage.
  { intros x Hx. unfold source_page in Hx. destruct (is_nil (order_by q)); [by apply Hkept|]. apply Hkept.
    assert (Forall (λ row, keys_ok cls (ks row)) kept) as Hk by (apply Forall_forall; intros r Hr; apply (sel_keys Hq), Hkept, Hr).
    destruct (sort_top_n_rest (order_by q) cls ks _ kept Hk (top_n_of_nonneg lim off)) as [rest Hrest].
    rewrite <- (keyed_rows_snd ks kept), <- Hrest, map_app. by apply elem_of_app; left. }
  destruct (row_ids_run source_rows) as [ids Hids]. destruct (filter_run source_rows ids Hsrc) as (w & kept_ids & Hw & Hfilter).
  exists kept_ids. unfold select_rows. eapply run_bind; [exact Hids|]. apply run_get. intros s1 Hs1.
  assert (select_col_map s1 (from q) names = cm) as ->.
  { rewrite (sel_from Hq). unfold select_col_map. cbn [inject_qualified_names]. unfold lookup_table. by destruct (scratch_facts _ _ Hs1) as (-> & _). }
  eapply run_bind; [exact Hw|]. apply run_get. intros s2 Hs2. eapply run_bind; [by apply Hfilter|]. fold kept. cbn beta match.
  apply (run_bind _ _ _ (source_page kept)).
  { unfold pre_sort, source_page. rewrite (sel_group Hq), (sel_plain Hq). destruct (is_nil (order_by q)) eqn:Eo; [apply run_ret|].
    apply sort_source_run; [apply (sel_limit Hq)|apply (sel_offset Hq)|]. intros row Hrow. by apply (sel_keys Hq), Hkept. }
  unfold project_select. rewrite (sel_group Hq), (sel_plain Hq). cbn [is_nil negb].
  eapply run_bind.
  { apply project_run; [|intros row Hrow; by apply (sel_project Hq), Hpage].
    pose proof (sel_width Hq) as Hwidth. rewrite Forall_forall in *. intros row Hrow. by apply Hwidth, Hpage. }
  cbn beta match. fold (deduplicated (map pr (source_page kept))). unfold pre_sort. rewrite (sel_group Hq), (sel_plain Hq). cbn [is_nil negb].
  rewrite !andb_true_r, andb_negb_r. eapply run_bind; [apply run_ret|]. rewrite (sel_offset Hq), (sel_limit Hq).
  eapply run_bind; [apply apply_offset_run|]. eapply run_bind; [apply apply_limit_run|]. apply run_ret.
Qed.
Lemma select_body_run : prepare_select s q = (q, []) → for_update q = false → ∃ s', scratch s s' ∧
  select_body rec q s = (Ok (QueryResult (map fst (projection_plan (columns q) names cm))
    (page lim off (deduplicated (map pr (source_page (List.filter visible source_rows)))))), s').
Proof.
  intros Hprep Hupd. assert (ctes q = []) as Hctes.
  { apply (f_equal (λ x, ctes x.1)) in Hprep. cbn [fst] in Hprep. rewrite <- Hprep. unfold prepare_select. by repeat case_match. }
  destruct select_rows_run as [ids Hrun]. unfold select_body. rewrite Hctes. cbn [st_iter].
  rewrite ST_bind_unfold. cbn beta match delta [mret ST_ret]. rewrite ST_bind_unfold. cbn beta match delta [st_get]. rewrite Hprep.
  revert Hrun. generalize (scratch_refl s). generalize s at 2 6 as s0. intros s0 Hs0 Hrun.
  match goal with |- ∃ s', _ ∧ ?m s0 = (Ok ?a, s') => cut (run s m a); [intros Hm; exact (Hm s0 Hs0)|] end.
  eapply run_bind; [apply source_run|]. cbn beta match. eapply run_bind; [exact Hrun|]. cbn beta match.
  eapply run_bind; [apply run_ret|]. eapply run_bind; [|apply run_ret].
  unfold lock_rows. apply run_get. intros s1 _. rewrite (sel_from Hq), Hupd. apply run_ret.
Qed.

Lemma page_rest {A} (m : list A) : ∃ rest, page lim off m ++ rest ≡ₚ m.
Proof.
  unfold page. destruct (limit_of lim); [apply window_rest|]. exists (take (Z.to_nat (skip_of off)) m).
  by rewrite Permutation_app_comm, take_drop.
Qed.
(** As many rows as LIMIT and OFFSET ask for hold the page. *)
Lemma page_needed {A} (l : list A) : zlen l ≤ U64_MAX → page lim off (take (Z.to_nat needed) l) = page lim off l.
Proof.
  intros Hlen. unfold page, needed, saturating_add_u64. pose proof (skip_of_nonneg off) as Ho.
  destruct (limit_of lim) as [n|] eqn:El; cbn [default from_option id].
  - apply limit_of_nonneg in El. destruct (Z.le_ge_cases (n + skip_of off) U64_MAX) as [Hle|Hge].
    + rewrite Z.min_l by done. rewrite !take_drop_commute, take_take. do 2 f_equal. lia.
    + rewrite Z.min_r by lia. by rewrite (take_ge l) by (unfold zlen in *; lia).
  - rewrite Z.min_r by lia. by rewrite (take_ge l) by (unfold zlen in *; lia).
Qed.
Lemma pushed_facts : pushed = true → order_by q = [] ∧ is_distinct q = false ∧ ∀ row, visible row = true.
Proof.
  unfold pushed, limit_pushdown. rewrite !andb_true_iff, !negb_true_iff. intros [((((((Hw & Ho) & _) & Hd) & _) & _) & _) Hr].
  split; [by destruct (order_by q)|]. split; [done|]. intros row. unfold visible. pose proof (sel_where Hq) as Hp. pose proof (sel_policies Hq) as Hpol.
  destruct (where_clause q); [done|]. cbn in Hp. rewrite Hp. unfold rls_exprs in Hpol. rewrite (bt_lookup _ _ _ _ (sel_table Hq)), Hr in Hpol.
  by inversion Hpol.
Qed.
Definition sorted_rows : list Row := sort_by (same_order (order_by q) ks) (List.filter visible rows).
Lemma kept_keys : Forall (λ row, keys_ok cls (ks row)) (List.filter visible rows) ∧ zlen (List.filter visible rows) ≤ U64_MAX.
Proof.
  split.
  - apply Forall_forall. intros row Hrow. rewrite list_elem_of_In, filter_In, <- list_elem_of_In in Hrow. by apply (sel_keys Hq), Hrow.
  - pose proof (sel_size Hq) as Hn. pose proof (List.filter_length_le visible rows) as Hl. rewrite length_map in Hl. unfold zlen in *. lia.
Qed.
Lemma unsorted : order_by q = [] → sorted_rows = List.filter visible rows.
Proof. intros Ho. unfold sorted_rows, same_order. rewrite Ho. by apply sort_by_const. Qed.
(** The page of the source rows, whatever was pushed down or cut off early. *)
Lemma source_page_spec : let out := page lim off (deduplicated (map pr (source_page (List.filter visible source_rows)))) in
  (order_by q = [] ∨ limit_of lim = None → out = page lim off (deduplicated (map pr sorted_rows)))
  ∧ (is_distinct q = false → ∃ src, out = map pr src
      ∧ Forall2 (λ x y, same_order (order_by q) ks x y = Eq) src (page lim off sorted_rows) ∧ ∃ rest, src ++ rest ≡ₚ List.filter visible rows)
  ∧ (∀ n, limit_of lim = Some n → order_by q ≠ [] → ∃ src, out = page lim off (deduplicated (map pr src))
      ∧ Forall2 (λ x y, same_order (order_by q) ks x y = Eq) src (take (Z.to_nat (saturating_add_u64 n (skip_of off))) sorted_rows)
      ∧ ∃ rest, src ++ rest ≡ₚ List.filter visible rows).
Proof.
  cbn zeta. refine ((λ h, conj (proj1 (proj1 h)) (conj (proj2 (proj1 h)) (proj2 h))) _). split; [|intros n Hl Ho; unfold source_rows; destruct pushed eqn:Hp; [by destruct (pushed_facts Hp)|]].
  2: { destruct kept_keys as [Hk _]. unfold source_page. assert (is_nil (order_by q) = false) as -> by (by destruct (order_by q)).
       rewrite Hl. cbn [top_n_of fmap option_fmap option_map]. eexists. split; [reflexivity|].
       apply (top_rows (order_by q) cls ks _ (List.filter visible rows) Hk). apply (top_n_of_nonneg lim off). by rewrite Hl. }
  unfold source_rows. destruct kept_keys as [Hk Hlen].
  assert (∀ l : list Row, order_by q = [] → Forall2 (λ x y, same_order (order_by q) ks x y = Eq) l l) as Hrefl.
  { intros l Ho. unfold same_order. rewrite Ho. apply Forall_Forall2_diag, Forall_true. done. }
  destruct pushed eqn:Hp.
  - destruct (pushed_facts Hp) as (Ho & Hd & Hv). assert (∀ l, List.filter visible l = l) as Hid by (intros l; by apply filter_true_id).
    unfold source_page, deduplicated. rewrite unsorted, Ho, Hd, !Hid by done. cbn [is_nil].
    assert (zlen rows ≤ U64_MAX) as Hr by (unfold zlen; rewrite length_map; apply (sel_size Hq)).
    rewrite !(page_map pr), page_needed by exact Hr. split; [done|]. intros _.
    exists (page lim off rows). split; [done|]. split; [rewrite Ho in Hrefl; by apply Hrefl|apply page_rest].
  - unfold source_page. destruct (order_by q) as [|item items] eqn:Ho; cbn [is_nil].
    + rewrite unsorted by done. split; [done|]. intros Hd. unfold deduplicated. rewrite Hd, (page_map pr).
      eexists. split; [done|]. split; [by apply Hrefl|apply page_rest].
    + rewrite <- Ho. destruct (page_sorted (order_by q) cls ks lim off (List.filter visible rows) Hk Hlen) as (_ & Hf & Hrest). split.
      * intros [?|Hl]; [congruence|]. rewrite Hl. unfold top_n_of. cbn [fmap option_fmap option_map sort_top_n].
        pose proof (sort_by_map (λ row, (ks row, row)) (by_keys (order_by q)) (List.filter visible rows)) as Hs.
        change (map _ (List.filter visible rows)) with (keyed_rows ks (List.filter visible rows)) in Hs at 1. rewrite Hs.
        set (l := sort_by _ _). change (map _ l) with (keyed_rows ks l). by rewrite keyed_rows_snd.
      * intros Hd. unfold deduplicated. rewrite Hd, (page_map pr). eexists. split; [done|]. by split.
Qed.
End Pipeline.

(** ** Properties *)

Section Properties.
Context {Q : Type} `{StdFns} `{SelectNthLaw} `{OtherFunctions (Engine Q)} `{TableScans Q} `{Planner Q}.
Context (rec : SelectStmt → ST (VM (Engine Q)) ExecResult).


End Properties.

(** ** Instances *)

Abbreviation Storage := (gmap Z (list (Z * Row))).
Section Samples.
#[local] Existing Instance ascii_std.
#[local] Existing Instance select_by_sort.
#[local] Existing Instance select_by_sort_law.
(** A function that shows the row id, as the vector search does. *)
Definition rowid_function : OtherFunctions (Engine Storage) := λ name args s, (Ok (VInteger (current_rowid (vm_rest s))), s).
#[local] Existing Instance rowid_function.
(** A storage with the rows of each root page. *)
Definition rows_of (root : Z) (s : VM (Engine Storage)) : list (Z * Row) := default [] (engine_rest (vm_rest s) !! root).
Definition list_scans : TableScans Storage :=
  mkScans Storage (λ _ root s, (Ok (rows_of root s), s)) (λ _ root s, (Ok (map snd (rows_of root s)), s))
    (λ _ root n s, (Ok (take (Z.to_nat n) (map snd (rows_of root s))), s)) (λ _ root s, (Ok (zlen (rows_of root s)), s)).
#[local] Existing Instance list_scans.
Definition no_planner : Planner Storage := mkPlanner Storage (λ f _, f) (λ _ _, mret None).
#[local] Existing Instance no_planner.
Definition col (c : string) : SExpr' := ColumnRef None c.
Definition lit (n : Z) : SExpr' := IntegerLiteral n.
Definition empty_select : SelectStmt := mkSelect false [] None None [] None [] None None [] [] false.
Definition users : Table := mkTable 2 ["a"; "b"]%string 2 None false [].
Definition engine (ts : gmap string Table) (st : Storage) : VM (Engine Storage) :=
  mkVM _ [] [] None 0 ∅ (mkEngine Storage ts ∅ 0 (mkUndoLog [] 0) None 0 RLM_new st).
Definition ints_row (i : Z) (l : list Z) : Z * Row := (i, map VInteger l).

(** [SELECT a FROM t WHERE a > 1 ORDER BY b DESC LIMIT 2 OFFSET 1], under the
    policy [a < 9]. *)
Definition sample_table : Table := mkTable 2 ["a"; "b"]%string 2 None true [mkPolicy None (Some (BinaryOp (col "a") LessThan (lit 9)))].
Definition sample_query : SelectStmt :=
  mkSelect false [SExpr (col "a") None] (Some (FTable "T" None)) (Some (BinaryOp (col "a") GreaterThan (lit 1))) [] None
    [(col "b", (false, None))] (Some (lit 2)) (Some (lit 1)) [] [] false.
Definition sample_rows (hidden : list (Z * Row)) : list (Z * Row) :=
  [ints_row 1 [1; 10]; ints_row 2 [2; 20]; ints_row 3 [3; 40]; ints_row 4 [4; 30]] ++ hidden.
Definition int_at (i : nat) (row : Row) : Z := match row !! i with Some (VInteger z) => z | _ => 0 end.
Definition sample_engine (hidden : list (Z * Row)) : VM (Engine Storage) := engine {["t"%string := sample_table]} {[2 := sample_rows hidden]}.
Definition sample_map : ColMap := select_col_map (sample_engine []) (from sample_query) (col_names sample_table).
Lemma sample_cell rec hidden i a b : (i < 2)%nat → let _ : SelectExec SelectStmt (Engine Storage) := rec in
  run (sample_engine hidden) (eval_expr [VInteger a; VInteger b] sample_map (col (default "" (["a"; "b"]%string !! i))))
    (default VNull ([VInteger a; VInteger b] !! i)).
Proof.
  intros Hi r s1 (rid & wr & idx & ->). eexists. split; [by exists rid, wr, idx|]. destruct i as [|[|i]]; [reflexivity..|lia].
Qed.
Lemma sample_compare rec hidden a b z op : op = GreaterThan ∨ op = LessThan → let _ : SelectExec SelectStmt (Engine Storage) := rec in
  run (sample_engine hidden) (eval_expr [VInteger a; VInteger b] sample_map (BinaryOp (col "a") op (lit z))) (apply_binary_op op (VInteger a) (VInteger z)).
Proof.
  intros Hop r. assert (run (sample_engine hidden) (eval_expr [VInteger a; VInteger b] sample_map (col "a")) (VInteger a)) as Ha by (apply (sample_cell rec hidden 0 a b); lia).
  destruct Hop as [-> | ->]; (eapply run_bind; [exact Ha|apply run_ret]).
Qed.
Lemma sample_gt a z : is_truthy (VBool (cmp_is (VInteger a) (VInteger z) Gt)) = (z <? a).
Proof. unfold cmp_is. cbn [partial_cmp]. destruct (Z.compare_spec a z), (Z.ltb_spec z a); done || lia. Qed.
Lemma sample_lt a z : is_truthy (VBool (cmp_is (VInteger a) (VInteger z) Lt)) = (a <? z).
Proof. unfold cmp_is. cbn [partial_cmp]. destruct (Z.compare_spec a z), (Z.ltb_spec a z); done || lia. Qed.
Lemma sample_simple rec hidden : Forall (λ ir, ∃ a b, ir.2 = [VInteger a; VInteger b]) hidden → zlen hidden ≤ 100 →
  simple_select rec (sample_engine hidden) sample_query "T" None sample_table (sample_rows hidden)
    (λ row, 1 <? int_at 0 row) [λ row, int_at 0 row <? 9] (λ row, [VInteger (int_at 1 row)]) (λ _, false) (λ row, [VInteger (int_at 0 row)])
    (Some 2) (Some 1).
Proof.
  intros Hh Hlen.
  assert (∀ row, row ∈ map snd (sample_rows hidden) → ∃ a b, row = [VInteger a; VInteger b]) as Hrows.
  { intros row (ir & -> & Hir)%list_elem_of_fmap. assert (Forall (λ ir, ∃ a b, ir.2 = [VInteger a; VInteger b]) (sample_rows hidden)) as Hall.
    { unfold sample_rows. repeat (constructor; [by do 2 eexists|]). exact Hh. }
    rewrite Forall_forall in Hall. by apply Hall. }
  split; try reflexivity.
  - split; try reflexivity; [| |intros n _]; intros s1 (rid & wr & idx & ->); eexists; (split; [by exists rid, wr, idx|reflexivity]).
  - intros e _. apply run_ret.
  - eexists. split; [apply run_ret|]. intros row Hrow. destruct (Hrows row Hrow) as (a & b & ->).
    exists (apply_binary_op GreaterThan (VInteger a) (VInteger 1)). split; [|apply sample_gt].
    apply sample_compare. by left.
  - constructor; [|constructor]. intros row Hrow. destruct (Hrows row Hrow) as (a & b & ->).
    exists (apply_binary_op LessThan (VInteger a) (VInteger 9)). split; [|apply sample_lt].
    apply sample_compare. by right.
  - intros row Hrow. destruct (Hrows row Hrow) as (a & b & ->). split.
    + apply (run_mapM _ _ (λ _, VInteger b) [(col "b", (false, None))]). intros item ->%list_elem_of_singleton.
      apply run_unwrap, (sample_cell rec hidden 1 a b). lia.
    + intros [|[|i]]; exact I || reflexivity || done.
  - apply Forall_forall. intros row Hrow. by destruct (Hrows row Hrow) as (a & b & ->).
  - intros row Hrow. destruct (Hrows row Hrow) as (a & b & ->).
    apply (run_mapM _ _ (λ _, VInteger a) [("a"%string, PExpr (col "a"))]). intros item ->%list_elem_of_singleton. apply (sample_cell rec hidden 0 a b). lia.
  - unfold sample_rows, zlen in *. rewrite length_app. cbn [length]. unfold U64_MAX. lia.
Qed.
Lemma hidden_ok : Forall (λ ir, ∃ a b, ir.2 = [VInteger a; VInteger b]) [ints_row 5 [9; 50]; ints_row 6 [10; 60]].
Proof. repeat constructor; by do 2 eexists. Qed.
End Samples.
