(* ===== verification/SelectFlaws.v ===== *)
(** Divergences of SELECT (src/src/vm/exec_select.rs), each a run of the
    interpreter on a small database. *)
From S2P Require Import Prelude Values Text Expr ExprTypes Mvcc RowLocks RowOps Joins TableFns Aggregates Window Select SelectProps.

#[local] Existing Instance ascii_std.
#[local] Existing Instance select_by_sort.
#[local] Existing Instance rowid_function.
#[local] Existing Instance list_scans.

(** ** Queries on a table [t] with columns [a] and [b] *)

Definition base : FromClause := FTable "t" None.
Definition t_rows : list (Z * Row) := [ints_row 1 [2; 10]; ints_row 2 [1; 10]; ints_row 3 [3; 20]].
Definition db : VM (Engine Storage) := engine {["t"%string := users]} {[2 := t_rows]}.
Definition select_from (cols : list Column) (f : FromClause) : SelectStmt :=
  mkSelect false cols (Some f) None [] None [] None None [] [] false.
Definition column (c : string) : Column := SExpr (col c) None.
Definition count_star : Column := SExpr (Function "COUNT" [] false) None.
Definition with_limit (n : Z) (q : SelectStmt) : SelectStmt :=
  mkSelect (is_distinct q) (columns q) (from q) (where_clause q) (group_by q) (having q) (order_by q) (Some (lit n)) (offset q) (ctes q) (window_defs q) (for_update q).
Definition with_order (items : list (OrderByItem SExpr')) (q : SelectStmt) : SelectStmt :=
  mkSelect (is_distinct q) (columns q) (from q) (where_clause q) (group_by q) (having q) items (limit q) (offset q) (ctes q) (window_defs q) (for_update q).
Definition with_where (e : SExpr') (q : SelectStmt) : SelectStmt :=
  mkSelect (is_distinct q) (columns q) (from q) (Some e) (group_by q) (having q) (order_by q) (limit q) (offset q) (ctes q) (window_defs q) (for_update q).
Definition with_cte (c : CteDefinition) (q : SelectStmt) : SelectStmt :=
  mkSelect (is_distinct q) (columns q) (from q) (where_clause q) (group_by q) (having q) (order_by q) (limit q) (offset q) [c] (window_defs q) (for_update q).
Definition with_having (e : SExpr') (q : SelectStmt) : SelectStmt :=
  mkSelect (is_distinct q) (columns q) (from q) (where_clause q) (group_by q) (Some e) (order_by q) (limit q) (offset q) (ctes q) (window_defs q) (for_update q).
Definition distinctly (q : SelectStmt) : SelectStmt :=
  mkSelect true (columns q) (from q) (where_clause q) (group_by q) (having q) (order_by q) (limit q) (offset q) (ctes q) (window_defs q) (for_update q).
Definition locking (q : SelectStmt) : SelectStmt :=
  mkSelect (is_distinct q) (columns q) (from q) (where_clause q) (group_by q) (having q) (order_by q) (limit q) (offset q) (ctes q) (window_defs q) true.
Definition one_row (n : Z) : SelectStmt := mkSelect false [SExpr (lit n) (Some "a"%string)] None None [] None [] None None [] [] false.
Definition cte (name : string) (q : SelectStmt) : CteDefinition := mkCte name [] q false.
(** The rows, or the error. *)
Definition rows_or_error (r : res ExecResult) : res (list Row) :=
  r ← r; match r with QueryResult _ rows => Ok rows | _ => Ok [] end.
Definition run_select `{Planner Storage} (q : SelectStmt) (s : VM (Engine Storage)) : res (list Row) := rows_or_error (exec_select_fuel 5 q s).1.

Section Shortcuts.
#[local] Existing Instance no_planner.

(** *** The COUNT and LIMIT shortcuts *)

(** COUNT over a common table expression looks for a table of that name. *)
Lemma count_of_cte_fails :
  run_select (with_cte (cte "c" (one_row 7)) (select_from [count_star] (FTable "c" None))) db = Err (TableNotFound "c")
  ∧ run_select (with_cte (cte "c" (one_row 7)) (select_from [SExpr (Function "COUNT" [col "a"] false) None] (FTable "c" None))) db = Ok [[VInteger 1]].
Proof. vm_compute. done. Qed.
(** The shortcut forgets the name of the column. *)
Lemma count_loses_alias :
  let named e := select_from [SExpr e (Some "n"%string)] base in
  (exec_select_fuel 5 (named (Function "COUNT" [] false)) db).1 = Ok (QueryResult ["COUNT(*)"%string] [[VInteger 3]])
  ∧ (exec_select_fuel 5 (named (Function "COUNT" [col "a"] false)) db).1 = Ok (QueryResult ["n"%string] [[VInteger 3]]).
Proof. vm_compute. done. Qed.
(** The COUNT shortcut returns before the expressions of the WITH clause are
    taken out of the cache, and so does an error: a later statement finds
    them in place of the table. *)
Lemma cte_leaks :
  let counted := (exec_select_fuel 5 (with_cte (cte "t" (one_row 7)) (select_from [count_star] base)) db) in
  let failed := (exec_select_fuel 5 (with_cte (cte "t" (one_row 7)) (select_from [column "nowhere"] base)) db) in
  rows_or_error counted.1 = Ok [[VInteger 3]]
  ∧ run_select (select_from [column "a"] base) counted.2 = Ok [[VInteger 7]]
  ∧ failed.1 = Err (ColumnNotFound "nowhere")
  ∧ run_select (select_from [column "a"] base) failed.2 = Ok [[VInteger 7]]
  ∧ run_select (select_from [column "a"] base) db = Ok [[VInteger 2]; [VInteger 1]; [VInteger 3]].
Proof. vm_compute. done. Qed.
(** A LIMIT without more reads the table although a common table expression
    has its name. *)
Lemma limit_ignores_cte :
  let q := with_cte (cte "t" (one_row 7)) (select_from [column "a"] base) in
  run_select q db = Ok [[VInteger 7]] ∧ run_select (with_limit 1 q) db = Ok [[VInteger 2]].
Proof. vm_compute. done. Qed.
(** Both shortcuts read the rows that the snapshot of the transaction hides. *)
Lemma shortcuts_ignore_snapshot :
  let log := mkUndoLog [UInsert "t" 3 9] 0 in
  let snapshot := mkSnapshot 5 [] 4 in
  let s := upd_engine (λ e, mkEngine Storage (tables e) (cte_cache e) 0 log (Some snapshot) 5 (row_locks e) (engine_rest e)) db in
  run_select (select_from [column "a"] base) s = Ok [[VInteger 2]; [VInteger 1]]
  ∧ run_select (with_limit 10 (select_from [column "a"] base)) s = Ok [[VInteger 2]; [VInteger 1]; [VInteger 3]]
  ∧ run_select (select_from [count_star] base) s = Ok [[VInteger 3]].
Proof. vm_compute. done. Qed.
(** COUNT as a window function over a query with LIMIT counts the rows of the
    page. *)
Lemma window_over_limited_rows :
  let w := WindowFunction (mkWindowExpr (mkWindow _ (WAggregate "COUNT" [col "a"] false) [] [] None)) in
  let q := select_from [SExpr w None] base in
  run_select q db = Ok [[VInteger 3]; [VInteger 3]; [VInteger 3]] ∧ run_select (with_limit 1 q) db = Ok [[VInteger 1]].
Proof. vm_compute. done. Qed.

(** *** ORDER BY, DISTINCT and HAVING *)

(** The top-N sort cuts the rows off before DISTINCT removes duplicates. *)
Lemma distinct_after_top_n :
  let q := with_order [(col "b", (true, None))] (distinctly (select_from [column "b"] base)) in
  run_select q db = Ok [[VInteger 10]; [VInteger 20]] ∧ run_select (with_limit 2 q) db = Ok [[VInteger 10]].
Proof. vm_compute. done. Qed.
(** ORDER BY a position or an output name does not sort, unless there are
    groups or aggregates. *)
Lemma order_by_position_ignored :
  let q := select_from [SExpr (col "a") (Some "x"%string)] base in
  run_select (with_order [(lit 1, (true, None))] q) db = run_select q db
  ∧ run_select (with_order [(col "x", (true, None))] q) db = run_select q db
  ∧ run_select (with_order [(col "a", (true, None))] q) db = Ok [[VInteger 1]; [VInteger 2]; [VInteger 3]].
Proof. vm_compute. done. Qed.
(** After a filter the sort keys are evaluated under the row ids of other
    rows. *)
Lemma order_by_wrong_row_ids :
  let q := with_where (BinaryOp (col "a") NotEqual (lit 2)) (select_from [column "a"] base) in
  let by_id := with_order [(Function "VEC_SEARCH" [] false, (true, None))] (select_from [SExpr (Function "VEC_SEARCH" [] false) None] base) in
  let keys := (mapM (λ '(i, row), source_keys (λ _, st_lift Hang) (order_by by_id) ∅ [1; 2; 3] i row) (imap pair [[VInteger 1]; [VInteger 3]]) db).1 in
  run_select q db = Ok [[VInteger 1]; [VInteger 3]]
  ∧ keys = Ok [([VInteger 1], [VInteger 1]); ([VInteger 2], [VInteger 3])].
Proof. vm_compute. done. Qed.
(** HAVING without GROUP BY has no effect. *)
Lemma having_without_group_ignored :
  let sum := SExpr (Function "SUM" [col "a"] false) None in
  run_select (with_having (lit 0) (select_from [sum] base)) db = Ok [[VInteger 6]].
Proof. vm_compute. done. Qed.

(** *** Set operations, recursion, subqueries *)

(** A negative LIMIT, no limit in a SELECT, leaves no row of a set operation. *)
Lemma setop_negative_limit :
  let union lim := select_from [AllColumns] (FSetOp (mkSetOp UnionAll (one_row 1) (one_row 2) [] lim None) "u") in
  run_select (with_limit (-1) (union None)) db = Ok [[VInteger 1]; [VInteger 2]] ∧ run_select (union (Some (lit (-1)))) db = Ok [].
Proof. vm_compute. done. Qed.
(** UNION in a recursive expression keeps duplicates, so that a recursion that
    reaches a fixed point runs to the bound. *)
Lemma recursive_union_keeps_duplicates :
  let body := select_from [AllColumns] (FSetOp (mkSetOp UnionDistinct (one_row 1) (select_from [column "a"] (FTable "c" None)) [] None None) "u") in
  run_select (with_cte (mkCte "c" [] body true) (select_from [SExpr (Function "COUNT" [col "a"] false) None] (FTable "c" None))) db
  = Ok [[VInteger 1001]].
Proof. vm_compute. done. Qed.
(** A subquery under IN whose select list names a column of the outer query is
    taken for uncorrelated and fails. *)
Lemma correlated_select_list_fails :
  let s := engine {["t"%string := users; "one"%string := mkTable 3 ["x"]%string 1 None false []]} {[2 := t_rows; 3 := [ints_row 1 [5]]]} in
  let inner := select_from [column "b"] (FTable "one" None) in
  run_select (with_where (InSubquery (lit 10) inner false) (select_from [column "a"] base)) s = Err (ColumnNotFound "b")
  ∧ run_select (with_where (IsNull (InSubquery (lit 10) inner false) true) (select_from [column "a"] base)) s
    = Ok [[VInteger 2]; [VInteger 1]; [VInteger 3]].
Proof. vm_compute. done. Qed.
(** Blobs of an uncorrelated subquery become NULL in the list that replaces
    it. *)
Lemma in_subquery_loses_blobs :
  let inner := mkSelect false [SExpr (BlobLiteral [1]) None] None None [] None [] None None [] [] false in
  let test := InSubquery (BlobLiteral [1]) inner false in
  run_select (with_where test (select_from [column "a"] base)) db = Ok []
  ∧ run_select (with_where (Case None [(test, lit 1)] (Some (lit 0))) (select_from [column "a"] base)) db
    = Ok [[VInteger 2]; [VInteger 1]; [VInteger 3]].
Proof. vm_compute. done. Qed.

(** *** Row-level security *)

Definition secured (policies : list Policy) : Table := mkTable 2 ["a"; "b"]%string 2 None true policies.
Definition visible_policy : Policy := mkPolicy None (Some (BinaryOp (col "a") LessThan (lit 3))).
(** With security on and no policy every row is visible. *)
Lemma rls_without_policy_shows_all :
  run_select (select_from [column "a"] base) (engine {["t"%string := secured []]} {[2 := t_rows]}) = Ok [[VInteger 2]; [VInteger 1]; [VInteger 3]].
Proof. vm_compute. done. Qed.
(** In a join a policy names its columns without their table and is evaluated
    on the other table's column of that name: the hidden row is shown. *)
Lemma rls_policy_reads_other_table :
  let s := engine {["t"%string := secured [visible_policy]; "u"%string := mkTable 3 ["a"]%string 1 None false []]} {[2 := t_rows; 3 := [ints_row 1 [0]]]} in
  run_select (select_from [SExpr (ColumnRef (Some "t"%string) "a") None] base) s = Ok [[VInteger 2]; [VInteger 1]]
  ∧ run_select (select_from [SExpr (ColumnRef (Some "t"%string) "a") None] (FJoin base Cross (FTable "u" None) None)) s
    = Ok [[VInteger 2]; [VInteger 1]; [VInteger 3]].
Proof. vm_compute. done. Qed.
(** WHERE is evaluated before the policies, on hidden rows too: an error tells
    of their contents. *)
Lemma where_error_reveals_hidden_row :
  let s rows := engine {["t"%string := secured [visible_policy]]} {[2 := rows]} in
  let probe := Case None [(BinaryOp (col "a") Equal (lit 3), Cast (StringLiteral [120]) CtInteger false)] (Some (lit 1)) in
  run_select (with_where probe (select_from [column "a"] base)) (s (take 2 t_rows)) = Ok [[VInteger 2]; [VInteger 1]]
  ∧ is_Err (run_select (with_where probe (select_from [column "a"] base)) (s t_rows)) = true.
Proof. vm_compute. done. Qed.

(** *** FOR UPDATE *)

Definition in_txn (s : VM (Engine Storage)) : VM (Engine Storage) :=
  upd_engine (λ e, mkEngine Storage (tables e) (cte_cache e) 0 (undo_log e) None 5 (row_locks e) (engine_rest e)) s.
(** With LIMIT every row of the table is locked. *)
Lemma for_update_limit_locks_all :
  let r := exec_select_fuel 5 (locking (with_limit 1 (select_from [column "a"] base))) (in_txn db) in
  rows_or_error r.1 = Ok [[VInteger 2]] ∧ lock_count (row_locks (vm_rest r.2)) = 3.
Proof. vm_compute. done. Qed.
End Shortcuts.

(** When an index answers WHERE, no row is locked: the ids of a scan of the
    whole table do not match the rows in number, and are replaced by 0. *)
Definition index_on_a : Planner Storage := mkPlanner Storage (λ f _, f)
  (λ _ _, mret (Some ([[VInteger 2; VInteger 10]], ["a"; "b"]%string))).
Lemma for_update_by_index_locks_nothing :
  let q := locking (with_where (BinaryOp (col "a") Equal (lit 2)) (select_from [column "a"] base)) in
  let by_index := @exec_select_fuel Storage _ _ _ _ index_on_a 5 q (in_txn db) in
  let by_scan := @exec_select_fuel Storage _ _ _ _ no_planner 5 q (in_txn db) in
  rows_or_error by_index.1 = Ok [[VInteger 2]] ∧ rows_or_error by_scan.1 = Ok [[VInteger 2]]
  ∧ lock_count (row_locks (vm_rest by_index.2)) = 0 ∧ lock_count (row_locks (vm_rest by_scan.2)) = 1.
Proof. vm_compute. done. Qed.
