(* ===== verification/IndexCache.v ===== *)
(** The index caches of the VM (src/src/vm/execute.rs): per index a map from
    the key of the first column to table row ids, a map from table row ids to
    index row ids and the entries in the order of their values; the lookups
    by value, by comparison and by range; and the fetch of rows by their ids.

    The trees behind the caches are the interface [Trees]; [TreeReads] says
    what reading relies on, and the B+tree over any pager discharges it. *)
From S2P Require Import Prelude Values Text Expr RowOps PagerIface BTree BTreeTree.
From Stdlib Require Import Floats.SpecFloat.

(** ** Trees *)

(** The operations of [BTree] on the pager of a table, by the table's name and
    the root page. *)
Class Trees (T : Type) := mkTrees {
  tree_scan_all : string → Z → ST T (list (Z * Row));
  tree_find : string → Z → Z → ST T (option (Z * Row));
  tree_max_rowid : string → Z → ST T Z;
  tree_insert : string → Z → Z → Row → ST T Z;
  tree_delete : string → Z → Z → ST T (bool * Z);
}.
(** The trees a store holds: rows by rowid, under the table and the root. *)
Abbreviation Forest := (gmap (string * Z) (list (Z * Row))).
Definition tree_key (table : string) (root : Z) : string * Z := (to_ascii_lowercase table, root).

(** ** Keys and order *)

(** [index_eq_key] *)
Definition index_eq_key (v : Value) : bytes :=
  match v with
  | VInteger z => 78 :: le_bytes 8 (bits_of_f64 (f64_of_i64 z))
  | VReal r => 78 :: le_bytes 8 r
  | VText t => 84 :: t
  | VBlob b => 66 :: b
  | VNull => [90]
  end.
Definition value_has_total_order (v : Value) : bool := bool_decide (is_Some (partial_cmp v v)).
Definition cmp_value_total (l r : Value) : comparison := default Eq (partial_cmp l r).
(** The comparison of the sorted entries. *)
Definition cmp_entry (a b : Value * Z) : comparison :=
  match cmp_value_total a.1 b.1 with Eq => a.2 ?= b.2 | o => o end.
(** [slice::partition_point], on a slice that the predicate partitions. *)
Fixpoint partition_point {A} (p : A → bool) (l : list A) : nat :=
  match l with [] => O | x :: l' => if p x then S (partition_point p l') else O end.
Definition lower_bound_index_entries (entries : list (Value * Z)) (v : Value) : nat :=
  partition_point (λ e, bool_decide (cmp_value_total e.1 v = Lt)) entries.
Definition upper_bound_index_entries (entries : list (Value * Z)) (v : Value) : nat :=
  partition_point (λ e, bool_decide (cmp_value_total e.1 v ≠ Gt)) entries.
(** [entries[start..end]], which panics when the bounds are not in order. *)
Definition slice_table_rowids (entries : list (Value * Z)) (start end_ : nat) : res (list Z) :=
  if bool_decide (start ≤ end_ ≤ length entries)%nat then Ok (map snd (take (end_ - start) (drop start entries))) else Panic.
Definition range_bounds_for_comparison (entries : list (Value * Z)) (op : BinaryOperator) (v : Value) : nat * nat :=
  match op with
  | LessThan => (0%nat, lower_bound_index_entries entries v)
  | LessThanOrEqual => (0%nat, upper_bound_index_entries entries v)
  | GreaterThan => (upper_bound_index_entries entries v, length entries)
  | GreaterThanOrEqual => (lower_bound_index_entries entries v, length entries)
  | _ => (0%nat, 0%nat)
  end.
Definition flip_comparison_operator (op : BinaryOperator) : option BinaryOperator :=
  match op with
  | Equal => Some Equal
  | LessThan => Some GreaterThan
  | LessThanOrEqual => Some GreaterThanOrEqual
  | GreaterThan => Some LessThan
  | GreaterThanOrEqual => Some LessThanOrEqual
  | _ => None
  end.

(** ** The caches *)

(** [IndexSchema] *)
Record IndexSchema : Type := mkIndex {
  index_name : string; index_table : string; index_columns : list string; index_root : Z; unique : bool; is_fts : bool }.
(** The caches of one index. *)
Abbreviation EqMap := (gmap bytes (list Z)).
Abbreviation RowidMap := (gmap Z Z).
Abbreviation Ordered := (list (Value * Z)).
(** What is read of a [ColumnSchema]. *)
Record ColumnInfo : Type := mkColumn { column_name : string; col_index : nat; primary_key : bool; column_unique : bool; not_null : bool }.
(** The counters of full scans and the indexes to create. *)
Record Adaptive : Type := mkAdaptive {
  query_access_counter : gmap (string * string) Z; adaptive_threshold : Z; pending_auto_indexes : list (string * string) }.
(** The state behind the index operations: the caches by the lower-case name
    of the index, the indexes of the schema and the columns of the tables, the
    trees, and the counters. *)
Record IxState {T : Type} := mkIx {
  index_eq_cache : gmap string EqMap;
  index_rowid_cache : gmap string RowidMap;
  index_ordered_cache : gmap string Ordered;
  indexes : gmap string IndexSchema;
  indexes_by_table : gmap string (list string);
  table_columns : gmap string (list ColumnInfo);
  trees : T;
  adaptive : Adaptive;
}.
Arguments IxState : clear implicits.

Section Caches.
Context {T : Type} `{StdFns} `{Trees T}.
Abbreviation M := (ST (IxState T)).

Definition set_caches (e : gmap string EqMap) (r : gmap string RowidMap) (o : gmap string Ordered) (s : IxState T) : IxState T :=
  mkIx T e r o (indexes s) (indexes_by_table s) (table_columns s) (trees s) (adaptive s).
Definition set_trees (t : T) (s : IxState T) : IxState T :=
  mkIx T (index_eq_cache s) (index_rowid_cache s) (index_ordered_cache s) (indexes s) (indexes_by_table s) (table_columns s) t (adaptive s).
Definition set_indexes (i : gmap string IndexSchema) (s : IxState T) : IxState T :=
  mkIx T (index_eq_cache s) (index_rowid_cache s) (index_ordered_cache s) i (indexes_by_table s) (table_columns s) (trees s) (adaptive s).
Definition set_adaptive (a : Adaptive) (s : IxState T) : IxState T :=
  mkIx T (index_eq_cache s) (index_rowid_cache s) (index_ordered_cache s) (indexes s) (indexes_by_table s) (table_columns s) (trees s) a.
Definition on_trees {A} (m : ST T A) : M A := λ s, let '(r, t) := m (trees s) in (r, set_trees t s).
(** [index.name.to_lowercase()] *)
Definition cache_key (idx : IndexSchema) : string := string_of_bytes (to_lowercase (bytes_of_string (index_name idx))).

(** *** Loading *)

(** One row of the index: the values, and the id of the table row at the end. *)
Definition push_rowid (k : bytes) (rid : Z) (m : EqMap) : EqMap := <[k := default [] (m !! k) ++ [rid]]> m.
Definition load_entry (acc : EqMap * RowidMap * Ordered) (entry : Z * Row) : EqMap * RowidMap * Ordered :=
  let '(eq_map, rowid_map, ordered) := acc in
  match entry.2, last entry.2 with
  | v :: _ :: _, Some (VInteger table_rowid) =>
      (push_rowid (index_eq_key v) table_rowid eq_map, <[table_rowid := entry.1]> rowid_map,
       if value_has_total_order v then ordered ++ [(v, table_rowid)] else ordered)
  | _, _ => acc
  end.
Definition load_entries (rows : list (Z * Row)) : EqMap * RowidMap * Ordered :=
  let '(eq_map, rowid_map, ordered) := foldl load_entry (∅, ∅, []) rows in (eq_map, rowid_map, sort_by cmp_entry ordered).
Definition cache_loaded (key : string) (s : IxState T) : bool :=
  bool_decide (is_Some (index_eq_cache s !! key)) && bool_decide (is_Some (index_rowid_cache s !! key))
  && bool_decide (is_Some (index_ordered_cache s !! key)).
Definition store_caches (key : string) (c : EqMap * RowidMap * Ordered) (s : IxState T) : IxState T :=
  set_caches (<[key := c.1.1]> (index_eq_cache s)) (<[key := c.1.2]> (index_rowid_cache s)) (<[key := c.2]> (index_ordered_cache s)) s.
Definition ensure_index_cache_loaded (idx : IndexSchema) : M unit :=
  s ← st_get;
  if cache_loaded (cache_key idx) s then mret tt
  else
    entries ← on_trees (tree_scan_all (index_table idx) (index_root idx));
    s ← st_get;
    st_put (store_caches (cache_key idx) (load_entries entries) s).

(** *** Lookups *)

Definition index_rowids_for_value (idx : IndexSchema) (v : Value) : M (list Z) :=
  _ ← ensure_index_cache_loaded idx;
  st_gets (λ s, Ok (default [] (m ← index_eq_cache s !! cache_key idx; m !! index_eq_key v))).
Definition ordered_index_entries_for (idx : IndexSchema) : M Ordered :=
  _ ← ensure_index_cache_loaded idx;
  st_gets (λ s, Ok (default [] (index_ordered_cache s !! cache_key idx))).
Definition index_rowids_for_comparison (idx : IndexSchema) (op : BinaryOperator) (v : Value) : M (list Z) :=
  if is_null v then mret []
  else if bool_decide (op = Equal) then index_rowids_for_value idx v
  else if negb (value_has_total_order v) then mret []
  else
    entries ← ordered_index_entries_for idx;
    let '(start, end_) := range_bounds_for_comparison entries op v in
    st_lift (slice_table_rowids entries start end_).
Definition index_rowids_for_between (idx : IndexSchema) (low high : Value) : M (list Z) :=
  if is_null low || is_null high then mret []
  else if negb (value_has_total_order low) || negb (value_has_total_order high) then mret []
  else if bool_decide (cmp_value_total low high = Gt) then mret []
  else
    entries ← ordered_index_entries_for idx;
    st_lift (slice_table_rowids entries (lower_bound_index_entries entries low) (upper_bound_index_entries entries high)).
Definition index_entry_rowid_for_table_rowid (idx : IndexSchema) (table_rowid : Z) : M (option Z) :=
  _ ← ensure_index_cache_loaded idx;
  st_gets (λ s, Ok (m ← index_rowid_cache s !! cache_key idx; m !! table_rowid)).

(** *** Maintenance *)

(** The place of an entry in the order. *)
Definition entry_below (v : Value) (rid : Z) (e : Value * Z) : bool :=
  match cmp_value_total e.1 v with Lt => true | Eq => e.2 <? rid | Gt => false end.
Definition ordered_insert (v : Value) (rid : Z) (ordered : Ordered) : Ordered :=
  if value_has_total_order v then
    let pos := partition_point (entry_below v rid) ordered in take pos ordered ++ (v, rid) :: drop pos ordered
  else ordered.
Definition ordered_delete (v : Value) (rid : Z) (ordered : Ordered) : Ordered :=
  let pos := partition_point (entry_below v rid) ordered in
  match ordered !! pos with
  | Some (w, r) => if value_eq w v && (r =? rid) then take pos ordered ++ drop (S pos) ordered else ordered
  | None => ordered
  end.
Definition eq_delete (v : Value) (rid : Z) (m : EqMap) : EqMap :=
  match m !! index_eq_key v with
  | Some rows =>
      match filter (λ r, r ≠ rid) rows with [] => delete (index_eq_key v) m | rows' => <[index_eq_key v := rows']> m end
  | None => m
  end.
Definition index_cache_insert (idx : IndexSchema) (v : Value) (table_rowid index_rowid : Z) (s : IxState T) : IxState T :=
  let key := cache_key idx in
  match index_eq_cache s !! key, index_rowid_cache s !! key with
  | Some eq_map, Some rowid_map =>
      set_caches (<[key := push_rowid (index_eq_key v) table_rowid eq_map]> (index_eq_cache s))
        (<[key := <[table_rowid := index_rowid]> rowid_map]> (index_rowid_cache s))
        (alter (ordered_insert v table_rowid) key (index_ordered_cache s)) s
  | _, _ => s
  end.
Definition index_cache_delete (idx : IndexSchema) (v : Value) (table_rowid : Z) (s : IxState T) : IxState T :=
  let key := cache_key idx in
  set_caches (alter (eq_delete v table_rowid) key (index_eq_cache s))
    (alter (delete table_rowid) key (index_rowid_cache s))
    (alter (ordered_delete v table_rowid) key (index_ordered_cache s)) s.
(** [clear_index_caches] *)
Definition clear_index_caches (s : IxState T) : IxState T := set_caches ∅ ∅ ∅ s.

(** *** Rows by their ids *)

Definition BULK_SCAN_THRESHOLD : nat := 96.
(** The scan that looks for the wanted rows and stops when it has them all. *)
Fixpoint collect_wanted (wanted : gset Z) (by_id : gmap Z Row) (rows : list (Z * Row)) : gmap Z Row :=
  match rows with
  | [] => by_id
  | (rid, row) :: rows' =>
      if bool_decide (rid ∈ wanted) then
        let wanted := wanted ∖ {[rid]} in
        let by_id := <[rid := row]> by_id in
        if bool_decide (wanted = ∅) then by_id else collect_wanted wanted by_id rows'
      else collect_wanted wanted by_id rows'
  end.
Fixpoint take_wanted (by_id : gmap Z Row) (rowids : list Z) : list (Z * Row) :=
  match rowids with
  | [] => []
  | rid :: rowids' =>
      match by_id !! rid with
      | Some row => (rid, row) :: take_wanted (delete rid by_id) rowids'
      | None => take_wanted by_id rowids'
      end
  end.
Definition fetch_rows_by_rowids (table : string) (root : Z) (rowids : list Z) : M (list (Z * Row)) :=
  match rowids with
  | [] => mret []
  | _ =>
      if bool_decide (BULK_SCAN_THRESHOLD ≤ length rowids)%nat then
        all_rows ← on_trees (tree_scan_all table root);
        mret (take_wanted (collect_wanted (list_to_set rowids) ∅ all_rows) rowids)
      else
        st_flat_map (λ rid, found ← on_trees (tree_find table root rid); mret (match found with Some r => [r] | None => [] end)) rowids
  end.
End Caches.

(** ** Lemmas: searching a sorted list *)

#[export] Instance bool_filter_proper {A} (p : A → bool) : Proper ((≡ₚ) ==> (≡ₚ)) (List.filter p).
Proof.
  intros l k. induction 1 as [|x l k _ IH|x y l|]; cbn [List.filter]; [done| | |by etrans].
  - destruct (p x); by rewrite IH.
  - destruct (p x), (p y); try done. apply Permutation_swap.
Qed.

Lemma partition_point_le {A} (p : A → bool) l : (partition_point p l ≤ length l)%nat.
Proof. induction l as [|x l IH]; cbn [partition_point length]; [done|]. destruct (p x); lia. Qed.
(** On a list that the predicate partitions, the two sides of the point are
    the elements that satisfy it and those that do not. *)
Lemma partition_point_filter {A} (R : A → A → Prop) (p : A → bool) l :
  StronglySorted R l → (∀ x y, x ∈ l → y ∈ l → R x y → p y = true → p x = true) →
  take (partition_point p l) l = List.filter p l ∧ drop (partition_point p l) l = List.filter (λ x, negb (p x)) l.
Proof.
  induction 1 as [|x l Hl IH Hx]; intros Hp; [done|]. cbn [partition_point List.filter].
  destruct (p x) eqn:E; cbn [take drop negb].
  - destruct IH as [-> ->]; [|done]. intros y z Hy Hz. apply Hp; by right.
  - assert (∀ y, y ∈ l → p y = false) as Hf.
    { intros y Hy. destruct (p y) eqn:Ey; [|done]. rewrite Forall_forall in Hx.
      rewrite (Hp x y) in E; [done|left|by right|by apply Hx|done]. }
    clear -Hf. split.
    + induction l as [|y l IH]; [done|]. cbn [List.filter]. rewrite Hf by left. apply IH. intros z Hz. apply Hf. by right.
    + f_equal. induction l as [|y l IH]; [done|]. cbn [List.filter]. rewrite Hf by left. cbn [negb]. f_equal.
      apply IH. intros z Hz. apply Hf. by right.
Qed.

(** ** Lemmas: the order of entries *)

Section Order.
Context (reals : bool).
Abbreviation cmpv := (λ v : Value, comparable reals v).
Abbreviation cmpe := (λ e : Value * Z, comparable reals e.1).

Lemma cmp_value_total_key a b : cmpv a → cmpv b → cmp_value_total a b = bytes_cmp (value_key a) (value_key b).
Proof. intros Ha Hb. unfold cmp_value_total. by rewrite (partial_cmp_key reals) by done. Qed.
Lemma comparable_total v : cmpv v → value_has_total_order v = true.
Proof. intros Hv. unfold value_has_total_order. rewrite (partial_cmp_key reals) by done. by apply bool_decide_eq_true. Qed.
Lemma cmp_value_total_on : total_on cmpv cmp_value_total.
Proof.
  split.
  - intros x y Hx Hy. rewrite !cmp_value_total_key by done. apply bytes_cmp_antisym.
  - intros x y z Hx Hy Hz. rewrite !cmp_value_total_key by done. apply bytes_cmp_trans.
Qed.
Lemma compare_Z_total {A} (P : A → Prop) (f : A → Z) : total_on P (λ x y, f x ?= f y).
Proof. split; [intros x y _ _; apply Z.compare_antisym|]. intros x y z _ _ _. rewrite !Z.compare_le_iff. lia. Qed.
Lemma cmp_entry_total : total_on cmpe cmp_entry.
Proof.
  apply (total_lex (λ a b, cmp_value_total a.1 b.1) (λ a b, a.2 ?= b.2)).
  - by apply (total_map _ _ fst _ cmp_value_total_on).
  - apply compare_Z_total.
Qed.

(** Bounds in the sorted entries select by comparison. *)
Context (entries : Ordered) (Hok : Forall cmpe entries) (Hsorted : sorted cmp_entry entries).

Lemma entry_order x y : x ∈ entries → y ∈ entries → cmp_entry x y ≠ Gt → cmp_value_total x.1 y.1 ≠ Gt.
Proof. unfold cmp_entry. intros _ _. by destruct (cmp_value_total _ _). Qed.
Lemma lower_bound_spec v : cmpv v → let n := lower_bound_index_entries entries v in
  take n entries = List.filter (λ e, bool_decide (cmp_value_total e.1 v = Lt)) entries
  ∧ drop n entries = List.filter (λ e, bool_decide (cmp_value_total e.1 v ≠ Lt)) entries.
Proof.
  intros Hv n. rewrite Forall_forall in Hok.
  destruct (partition_point_filter _ (λ e, bool_decide (cmp_value_total e.1 v = Lt)) entries Hsorted) as [E1 E2].
  - intros x y Hx Hy Hxy%entry_order; [|done..]. rewrite !bool_decide_eq_true. intros Hlt.
    pose proof (total_trans _ _ cmp_value_total_on x.1 y.1 v (Hok x Hx) (Hok y Hy) Hv Hxy) as Ht. rewrite Hlt in Ht.
    specialize (Ht ltac:(done)). destruct (cmp_value_total x.1 v) eqn:E; [|done..].
    rewrite <- (total_eq_l _ _ cmp_value_total_on v x.1 y.1) in Hxy; [|done|by apply Hok..|].
    + by rewrite (total_antisym _ _ cmp_value_total_on y.1 v), Hlt in Hxy by auto.
    + by rewrite (total_antisym _ _ cmp_value_total_on x.1 v), E by auto.
  - split; [exact E1|]. etrans; [exact E2|]. apply List.filter_ext. intros e. by destruct (cmp_value_total e.1 v).
Qed.
Lemma upper_bound_spec v : cmpv v → let n := upper_bound_index_entries entries v in
  take n entries = List.filter (λ e, bool_decide (cmp_value_total e.1 v ≠ Gt)) entries
  ∧ drop n entries = List.filter (λ e, bool_decide (cmp_value_total e.1 v = Gt)) entries.
Proof.
  intros Hv n. rewrite Forall_forall in Hok.
  destruct (partition_point_filter _ (λ e, bool_decide (cmp_value_total e.1 v ≠ Gt)) entries Hsorted) as [E1 E2].
  - intros x y Hx Hy Hxy%entry_order; [|done..]. rewrite !bool_decide_eq_true.
    by apply (total_trans _ _ cmp_value_total_on x.1 y.1 v); auto.
  - split; [exact E1|]. etrans; [exact E2|]. apply List.filter_ext. intros e. by destruct (cmp_value_total e.1 v).
Qed.
End Order.
Lemma partition_point_app {A} (p : A → bool) l k : (∀ x, x ∈ l → p x = true) →
  partition_point p (l ++ k) = (length l + partition_point p k)%nat.
Proof.
  induction l as [|x l IH]; intros Hp; [done|]. cbn [app partition_point length]. rewrite Hp by left.
  rewrite IH; [done|]. intros y Hy. apply Hp. by right.
Qed.
Lemma slice_take entries n : (n ≤ length entries)%nat → slice_table_rowids entries 0 n = Ok (map snd (take n entries)).
Proof. intros Hn. unfold slice_table_rowids. rewrite bool_decide_true by lia. by rewrite drop_0, Nat.sub_0_r. Qed.
Lemma slice_drop entries n : (n ≤ length entries)%nat → slice_table_rowids entries n (length entries) = Ok (map snd (drop n entries)).
Proof. intros Hn. unfold slice_table_rowids. rewrite bool_decide_true by lia. rewrite take_ge; [done|]. rewrite length_drop. lia. Qed.

Lemma filter_nothing {A} (l : list A) : List.filter (λ _, false) l = [].
Proof. by induction l. Qed.

(** What a comparison with [v] asks of a value in the order of the index. *)
Definition in_range (op : BinaryOperator) (v w : Value) : bool :=
  match op with
  | LessThan => bool_decide (cmp_value_total w v = Lt)
  | LessThanOrEqual => bool_decide (cmp_value_total w v ≠ Gt)
  | GreaterThan => bool_decide (cmp_value_total w v = Gt)
  | GreaterThanOrEqual => bool_decide (cmp_value_total w v ≠ Lt)
  | _ => false
  end.
Lemma comparison_slice reals entries op v : Forall (λ e, comparable reals e.1) entries → sorted cmp_entry entries → comparable reals v →
  slice_table_rowids entries (range_bounds_for_comparison entries op v).1 (range_bounds_for_comparison entries op v).2
  = Ok (map snd (List.filter (λ e, in_range op v e.1) entries)).
Proof.
  intros Hok Hs Hv. destruct (lower_bound_spec reals entries Hok Hs v Hv) as [L1 L2], (upper_bound_spec reals entries Hok Hs v Hv) as [U1 U2].
  pose proof (partition_point_le (λ e, bool_decide (cmp_value_total e.1 v = Lt)) entries : (lower_bound_index_entries entries v ≤ _)%nat) as HL.
  pose proof (partition_point_le (λ e, bool_decide (cmp_value_total e.1 v ≠ Gt)) entries : (upper_bound_index_entries entries v ≤ _)%nat) as HU.
  destruct op; cbn [range_bounds_for_comparison fst snd in_range]; rewrite ?slice_take, ?slice_drop by done;
    rewrite ?L1, ?L2, ?U1, ?U2; try reflexivity; rewrite slice_take by lia; by rewrite filter_nothing.
Qed.
Lemma filter_filter {A} (p q : A → bool) l : List.filter p (List.filter q l) = List.filter (λ x, q x && p x) l.
Proof. induction l as [|x l IH]; [done|]. cbn [List.filter]. destruct (q x); cbn [List.filter andb]; by rewrite IH. Qed.
Lemma sorted_drop {A} (c : A → A → comparison) n l : sorted c l → sorted c (drop n l).
Proof. intros Hl. revert n. induction Hl as [|x l Hl IH Hx]; intros [|n]; [constructor|constructor|by constructor|apply IH]. Qed.
Lemma between_slice reals entries low high : Forall (λ e, comparable reals e.1) entries → sorted cmp_entry entries →
  comparable reals low → comparable reals high → cmp_value_total low high ≠ Gt →
  slice_table_rowids entries (lower_bound_index_entries entries low) (upper_bound_index_entries entries high)
  = Ok (map snd (List.filter (λ e, in_range GreaterThanOrEqual low e.1 && in_range LessThanOrEqual high e.1) entries)).
Proof.
  intros Hok Hs Hl Hh Hle. destruct (lower_bound_spec reals entries Hok Hs low Hl) as [L1 L2].
  set (n := lower_bound_index_entries entries low) in *.
  pose proof (partition_point_le (λ e, bool_decide (cmp_value_total e.1 low = Lt)) entries : (n ≤ _)%nat) as Hn.
  assert (upper_bound_index_entries entries high = n + upper_bound_index_entries (drop n entries) high)%nat as E.
  { unfold upper_bound_index_entries. rewrite <- (take_drop n entries) at 1. rewrite partition_point_app.
    - rewrite length_take. f_equal. lia.
    - rewrite L1. intros x Hx. rewrite list_elem_of_In, filter_In, bool_decide_eq_true, <- list_elem_of_In in Hx. destruct Hx as [Hx E].
      apply bool_decide_eq_true. rewrite Forall_forall in Hok. apply (total_trans _ _ (cmp_value_total_on reals) x.1 low high); auto. by rewrite E. }
  assert (Forall (λ e, comparable reals e.1) (drop n entries)) as Hok' by (by apply Forall_drop).
  assert (sorted cmp_entry (drop n entries)) as Hs'.
  { by apply sorted_drop. }
  destruct (upper_bound_spec reals (drop n entries) Hok' Hs' high Hh) as [U1 _].
  pose proof (partition_point_le (λ e, bool_decide (cmp_value_total e.1 high ≠ Gt)) (drop n entries) : (upper_bound_index_entries _ high ≤ _)%nat) as HU.
  rewrite length_drop in HU. unfold slice_table_rowids. rewrite bool_decide_true by lia. rewrite E.
  replace (n + upper_bound_index_entries (drop n entries) high - n)%nat with (upper_bound_index_entries (drop n entries) high) by lia.
  by rewrite U1, L2, filter_filter.
Qed.

(** ** The caches as a view of the index *)

(** An entry of an index: value, table row id, index row id. *)
Abbreviation Entry := (Value * Z * Z)%type.
Definition entry_of (r : Z * Row) : option Entry :=
  match r.2, last r.2 with v :: _ :: _, Some (VInteger table_rowid) => Some (v, table_rowid, r.1) | _, _ => None end.
(** The entries of one index: no table row twice, values of one kind. *)
Definition entries_ok (reals : bool) (E : list Entry) : Prop :=
  Forall (λ e, comparable reals e.1.1) E ∧ NoDup (map (λ e, e.1.2) E).
Record caches_ok (eq_map : EqMap) (rowid_map : RowidMap) (ordered : Ordered) (E : list Entry) : Prop := {
  ok_eq k : default [] (eq_map !! k) ≡ₚ map (λ e, e.1.2) (List.filter (λ e, bool_decide (index_eq_key e.1.1 = k)) E);
  ok_rowid t i : rowid_map !! t = Some i ↔ ∃ v, (v, t, i) ∈ E;
  ok_perm : ordered ≡ₚ map fst E;
  ok_sorted : sorted cmp_entry ordered;
}.
Definition add_entry (acc : EqMap * RowidMap * Ordered) (e : Entry) : EqMap * RowidMap * Ordered :=
  let '(m, r, o) := acc in
  let '(v, t, i) := e in
  (push_rowid (index_eq_key v) t m, <[t := i]> r, if value_has_total_order v then o ++ [(v, t)] else o).
Lemma load_entries_fold rows eq_map rowid_map ordered :
  foldl load_entry (eq_map, rowid_map, ordered) rows
  = foldl add_entry (eq_map, rowid_map, ordered) (omap entry_of rows).
Proof.
  revert eq_map rowid_map ordered. induction rows as [|[i row] rows IH]; intros m r o; [done|]. cbn [foldl omap list_omap]. unfold entry_of, load_entry at 2.
  cbn [fst snd]. destruct row as [|v [|w row]]; [apply IH..|]. destruct (last (v :: w :: row)) as [[]|]; apply IH.
Qed.

Section View.
Context (reals : bool).

(** One entry more. *)
Lemma push_rowid_ok eq_map E v t i : (∀ k, default [] (eq_map !! k) ≡ₚ map (λ e, e.1.2) (List.filter (λ e : Entry, bool_decide (index_eq_key e.1.1 = k)) E)) →
  ∀ k, default [] (push_rowid (index_eq_key v) t eq_map !! k)
    ≡ₚ map (λ e, e.1.2) (List.filter (λ e : Entry, bool_decide (index_eq_key e.1.1 = k)) (E ++ [(v, t, i)])).
Proof.
  intros He k. unfold push_rowid. rewrite List.filter_app, map_app. cbn [List.filter]. rewrite <- He. cbn [fst].
  destruct (decide (index_eq_key v = k)) as [<-|Hne].
  - by rewrite lookup_insert_eq, bool_decide_true.
  - by rewrite lookup_insert_ne, bool_decide_false, app_nil_r.
Qed.
Lemma rowid_insert_ok (rowid_map : RowidMap) (E : list Entry) v t i : (∀ t i, rowid_map !! t = Some i ↔ ∃ v, (v, t, i) ∈ E) →
  (∀ e, e ∈ E → e.1.2 ≠ t) → ∀ t' i', <[t := i]> rowid_map !! t' = Some i' ↔ ∃ v', (v', t', i') ∈ E ++ [(v, t, i)].
Proof.
  intros Hr Hf t' i'. setoid_rewrite elem_of_app. setoid_rewrite list_elem_of_singleton. destruct (decide (t = t')) as [<-|Hne].
  - rewrite lookup_insert_eq. split; [intros [= ->]; exists v; by right|]. intros (v' & [Hin|Hin]); [by apply Hf in Hin|congruence].
  - rewrite lookup_insert_ne, Hr by done. naive_solver.
Qed.
Lemma load_entries_ok rows : entries_ok reals (omap entry_of rows) →
  let '(eq_map, rowid_map, ordered) := load_entries rows in caches_ok eq_map rowid_map ordered (omap entry_of rows).
Proof.
  unfold load_entries. rewrite load_entries_fold. intros Hok.
  assert (∀ E2 E1 m r o, entries_ok reals (E1 ++ E2) →
    (∀ k, default [] (m !! k) ≡ₚ map (λ e, e.1.2) (List.filter (λ e : Entry, bool_decide (index_eq_key e.1.1 = k)) E1)) →
    (∀ t i, r !! t = Some i ↔ ∃ v, (v, t, i) ∈ E1) → o = map fst E1 →
    let '(m, r, o) := foldl add_entry (m, r, o) E2 in
    (∀ k, default [] (m !! k) ≡ₚ map (λ e, e.1.2) (List.filter (λ e : Entry, bool_decide (index_eq_key e.1.1 = k)) (E1 ++ E2)))
    ∧ (∀ t i, r !! t = Some i ↔ ∃ v, (v, t, i) ∈ E1 ++ E2) ∧ o = map fst (E1 ++ E2)) as Hfold.
  { induction E2 as [|[[v t] i] E2 IH]; intros E1 m r o Hok' Hm Hr Ho; cbn [foldl]; [by rewrite app_nil_r|].
    cbn [add_entry]. rewrite (cons_middle (v, t, i)), (app_assoc E1) in Hok' |- *. apply IH; [done|by apply push_rowid_ok| |]; destruct Hok' as [Hc Hd].
    - apply rowid_insert_ok; [done|]. intros e He <-. rewrite !map_app in Hd. apply NoDup_app in Hd as ((_ & Hd & _)%NoDup_app & _).
      apply (Hd e.1.2); [|left]. apply list_elem_of_fmap. by exists e.
    - rewrite !Forall_app, Forall_singleton in Hc. rewrite (comparable_total reals) by apply Hc. by rewrite Ho, map_app. }
  specialize (Hfold (omap entry_of rows) [] ∅ ∅ [] Hok). cbn [app] in Hfold. destruct (foldl _ _ _) as [[m r] o].
  destruct Hfold as (Hm & Hr & Ho); [intros k; by rewrite lookup_empty| |done|].
  { intros t i. rewrite lookup_empty. split; [done|]. intros [v Hv]. by apply elem_of_nil in Hv. }
  split; [done|done|by rewrite sort_by_perm, Ho|]. apply (sort_by_sorted _ _ (cmp_entry_total reals)). rewrite Ho.
  destruct Hok as [Hc _]. by apply Forall_fmap.
Qed.

Lemma entries_snoc E v t i : entries_ok reals (E ++ [(v, t, i)]) → entries_ok reals E ∧ comparable reals v ∧ (∀ e, e ∈ E → e.1.2 ≠ t).
Proof.
  intros [Hc Hd]. rewrite Forall_app, Forall_singleton in Hc. rewrite map_app in Hd. apply NoDup_app in Hd as (Hd & Hn & _).
  split; [split; [apply Hc|done]|]. split; [apply Hc|]. intros e He <-. apply (Hn e.1.2); [|left]. apply list_elem_of_fmap. by exists e.
Qed.
Lemma ordered_ok eq_map rowid_map ordered E : entries_ok reals E → caches_ok eq_map rowid_map ordered E →
  Forall (λ e, comparable reals e.1) ordered.
Proof. intros [Hc _] [_ _ Hp _]. rewrite Hp. by apply Forall_fmap. Qed.

(** The place of an entry. *)
Lemma entry_below_cmp v t x : comparable reals v → comparable reals x.1 → entry_below v t x = bool_decide (cmp_entry x (v, t) = Lt).
Proof.
  intros Hv Hx. unfold entry_below, cmp_entry. cbn [fst snd]. destruct (cmp_value_total x.1 v); [|done..].
  destruct (Z.ltb_spec x.2 t); symmetry; [by apply bool_decide_eq_true|apply bool_decide_eq_false]. by rewrite Z.compare_lt_iff; lia.
Qed.
Lemma cmp_entry_neq_gt x y : comparable reals x.1 → comparable reals y.1 → cmp_entry x y ≠ Gt → cmp_entry y x ≠ Lt.
Proof. intros Hx Hy. rewrite (total_antisym _ _ (cmp_entry_total reals) x y) by done. by destruct (cmp_entry x y). Qed.
Lemma drop_S_inv {A} n (l : list A) x k : drop n l = x :: k → l !! n = Some x ∧ drop (S n) l = k.
Proof.
  revert l. induction n as [|n IH]; intros [|y l] E; cbn [drop] in *; simplify_eq; [done|]. by apply IH.
Qed.
Lemma split_at v t ordered : Forall (λ e, comparable reals e.1) ordered → sorted cmp_entry ordered → comparable reals v →
  let pos := partition_point (entry_below v t) ordered in
  (∀ x, x ∈ take pos ordered → cmp_entry x (v, t) = Lt) ∧ (∀ x, x ∈ drop pos ordered → cmp_entry (v, t) x ≠ Gt).
Proof.
  intros Hok Hs Hv pos. rewrite Forall_forall in Hok.
  destruct (partition_point_filter _ (entry_below v t) ordered Hs) as [E1 E2].
  - intros x y Hx Hy Hxy. rewrite !entry_below_cmp by auto. rewrite !bool_decide_eq_true. intros Hlt.
    pose proof (cmp_entry_total reals) as Ht. pose proof (total_trans _ _ Ht x y (v, t) (Hok x Hx) (Hok y Hy) Hv Hxy) as Htr.
    rewrite Hlt in Htr. specialize (Htr ltac:(done)). destruct (cmp_entry x (v, t)) eqn:E; [|done|done].
    rewrite (total_eq_l _ _ Ht x (v, t) y) in Hxy by auto. by rewrite (total_antisym _ _ Ht y (v, t)), Hlt in Hxy by auto.
  - subst pos. rewrite E1, E2. split; intros x; rewrite list_elem_of_In, filter_In, <- list_elem_of_In; intros [Hx Hb].
    + rewrite entry_below_cmp in Hb by auto. by apply bool_decide_eq_true in Hb.
    + rewrite entry_below_cmp in Hb by auto. apply negb_true_iff, bool_decide_eq_false in Hb.
      rewrite (total_antisym _ _ (cmp_entry_total reals) x (v, t)) by auto. by destruct (cmp_entry x (v, t)).
Qed.
Lemma ordered_insert_ok v t ordered : Forall (λ e, comparable reals e.1) ordered → sorted cmp_entry ordered → comparable reals v →
  sorted cmp_entry (ordered_insert v t ordered) ∧ ordered_insert v t ordered ≡ₚ ordered ++ [(v, t)].
Proof.
  intros Hok Hs Hv. unfold ordered_insert. rewrite (comparable_total reals) by done. cbn zeta.
  destruct (split_at v t ordered Hok Hs Hv) as [Hb Ha]. set (pos := partition_point _ _) in *. split.
  - apply (sorted_app cmp_entry); [by apply sorted_take|constructor; [by apply sorted_drop|by apply Forall_forall]|].
    intros x y Hx [->|Hy]%elem_of_cons; [by rewrite Hb|].
    rewrite Forall_forall in Hok. apply (total_trans _ _ (cmp_entry_total reals) x (v, t) y); [|done| |by rewrite Hb|by apply Ha].
    + apply Hok. by apply elem_of_take in Hx as (? & ?%list_elem_of_lookup_2 & _).
    + apply Hok. by eapply elem_of_submseteq, submseteq_drop.
  - rewrite <- Permutation_middle, take_drop. apply Permutation_cons_append.
Qed.
Lemma value_eq_refl v : comparable reals v → value_eq v v = true.
Proof.
  destruct v as [|z|r|t|b]; cbn [comparable value_eq]; intros Hv; [done|apply Z.eqb_refl| |by apply bool_decide_eq_true..].
  unfold SFeqb. by rewrite SFcompare_key, (proj2 (bytes_cmp_eq _ _)) by (done || apply Hv).
Qed.
Lemma cmp_entry_eq x y : cmp_entry x y = Eq → x.2 = y.2.
Proof. unfold cmp_entry. destruct (cmp_value_total _ _); [|done..]. apply Z.compare_eq. Qed.
Lemma nodup_split {A} (f : A → Z) l x k : NoDup (map f (l ++ x :: k)) → filter (λ y, f y ≠ f x) (l ++ x :: k) = l ++ k.
Proof.
  assert (∀ l, f x ∉ map f l → filter (λ y, f y ≠ f x) l = l) as Hid.
  { intros l' Hl. induction l' as [|y l' IH]; [done|]. cbn [map] in Hl. rewrite filter_cons, decide_True, IH by set_solver. done. }
  rewrite map_app. cbn [map]. intros (_ & Hn & Hd%NoDup_cons)%NoDup_app. destruct Hd as [Hx _].
  rewrite filter_app, filter_cons, decide_False by (by intros E; apply E). rewrite !Hid; [done|done|]. intros Hin. by apply (Hn _ Hin); left.
Qed.
Lemma ordered_delete_ok v t ordered : Forall (λ e, comparable reals e.1) ordered → sorted cmp_entry ordered →
  NoDup (map snd ordered) → (v, t) ∈ ordered → ordered_delete v t ordered = filter (λ e, e.2 ≠ t) ordered.
Proof.
  intros Hok Hs Hd Hin. assert (comparable reals v) as Hv by (rewrite Forall_forall in Hok; by apply (Hok (v, t))).
  pose proof (cmp_entry_total reals) as Ht. unfold ordered_delete. cbn zeta. destruct (split_at v t ordered Hok Hs Hv) as [Hb Ha].
  set (pos := partition_point _ _) in *. rewrite <- (take_drop pos ordered), elem_of_app in Hin.
  destruct Hin as [Hin|Hin]; [apply Hb in Hin; by rewrite (total_refl _ _ Ht) in Hin|].
  pose proof (sorted_drop cmp_entry pos _ Hs) as Hs'. destruct (drop pos ordered) as [|[w r] rest] eqn:Ed; [by apply elem_of_nil in Hin|].
  pose proof (drop_S_inv _ _ _ _ Ed) as [Hw Er]. rewrite Hw.
  assert (ordered = take pos ordered ++ (w, r) :: rest) as Eo by (by rewrite <- Ed, take_drop).
  assert ((w, r) = (v, t)) as E.
  { apply elem_of_cons in Hin as [E|Hin]; [done|]. exfalso. unfold sorted in Hs'. apply StronglySorted_inv in Hs' as [_ Hf].
    rewrite Forall_forall in Hf. specialize (Hf _ Hin). specialize (Ha (w, r) ltac:(left)).
    assert (comparable reals w) as Hcw. { rewrite Forall_forall in Hok. apply (Hok (w, r)). rewrite Eo. set_solver. }
    pose proof (total_both _ _ Ht (w, r) (v, t) Hcw Hv Hf Ha) as E%cmp_entry_eq. cbn [snd] in E. subst r.
    rewrite Eo, map_app in Hd. cbn [map snd] in Hd. apply NoDup_app in Hd as (_ & _ & [Hn _]%NoDup_cons). apply Hn.
    apply list_elem_of_fmap. by exists (v, t). }
  injection E as -> ->. rewrite value_eq_refl, Z.eqb_refl by done. cbn [andb]. rewrite Er. symmetry. rewrite Eo at 1.
  rewrite Eo in Hd. by apply (nodup_split snd _ (v, t)).
Qed.
End View.

(** ** What reading the trees relies on *)

Class TreeReads (T : Type) `{Trees T} := mkTreeReads {
  trees_rep : T → Forest → Prop;
  trees_nodup t F k rows : trees_rep t F → F !! k = Some rows → NoDup rows.*1;
  tree_scan_law t F table root rows : trees_rep t F → F !! tree_key table root = Some rows →
    ∃ t', tree_scan_all table root t = (Ok rows, t') ∧ trees_rep t' F;
  tree_find_law t F table root rid rows : trees_rep t F → F !! tree_key table root = Some rows →
    ∃ t', tree_find table root rid t = (Ok (row_lookup rid rows), t') ∧ trees_rep t' F;
}.

Lemma caches_ok_perm m r o E E' : E ≡ₚ E' → caches_ok m r o E → caches_ok m r o E'.
Proof.
  intros Hp [He Hr Ho Hs]. split; [intros k; by rewrite He, Hp|intros t i; rewrite Hr; by setoid_rewrite Hp|by rewrite Ho, Hp|done].
Qed.
#[export] Instance entries_ok_proper reals : Proper ((≡ₚ) ==> iff) (entries_ok reals).
Proof. intros E E' Hp. unfold entries_ok. by rewrite Hp. Qed.

Section Lookups.
Context {T : Type} `{StdFns} `{TreeReads T} (reals : bool) (F : Forest).
Abbreviation S := (IxState T).

(** The caches of an index, when it has them, show its entries. *)
Definition cached (idx : IndexSchema) (s : S) (E : list Entry) : Prop :=
  match index_eq_cache s !! cache_key idx, index_rowid_cache s !! cache_key idx, index_ordered_cache s !! cache_key idx with
  | Some m, Some r, Some o => caches_ok m r o E
  | None, None, None => True
  | _, _, _ => False
  end.
Definition loaded (idx : IndexSchema) (s : S) : Prop := is_Some (index_eq_cache s !! cache_key idx).
(** The index has the entries [E]. *)
Record index_at (idx : IndexSchema) (s : S) (E : list Entry) : Prop := mkIndexAt {
  ia_rep : trees_rep (trees s) F;
  ia_tree : ∃ rows, F !! tree_key (index_table idx) (index_root idx) = Some rows ∧ omap entry_of rows ≡ₚ E;
  ia_entries : entries_ok reals E;
  ia_cached : cached idx s E;
}.
(** [s'] differs from [s] in the trees' buffers and in the caches of [idx]. *)
Record same_but (idx : IndexSchema) (s s' : S) : Prop := mkSameBut {
  sb_indexes : indexes s' = indexes s;
  sb_by_table : indexes_by_table s' = indexes_by_table s;
  sb_columns : table_columns s' = table_columns s;
  sb_eq k : k ≠ cache_key idx → index_eq_cache s' !! k = index_eq_cache s !! k;
  sb_rowid k : k ≠ cache_key idx → index_rowid_cache s' !! k = index_rowid_cache s !! k;
  sb_ordered k : k ≠ cache_key idx → index_ordered_cache s' !! k = index_ordered_cache s !! k;
}.
Lemma same_but_refl idx s : same_but idx s s.
Proof. by split. Qed.
Lemma same_but_trans idx s1 s2 s3 : same_but idx s1 s2 → same_but idx s2 s3 → same_but idx s1 s3.
Proof.
  intros [A1 A2 A3 A4 A5 A6] [B1 B2 B3 B4 B5 B6]. split; [congruence..| | |]; intros k Hk; by rewrite ?B4, ?A4, ?B5, ?A5, ?B6, ?A6.
Qed.

Lemma ensure_spec idx s E : index_at idx s E →
  ∃ s', ensure_index_cache_loaded idx s = (Ok tt, s') ∧ index_at idx s' E ∧ loaded idx s' ∧ same_but idx s s'.
Proof.
  intros [Hrep (rows & Hrows & HE) Hok Hc]. unfold ensure_index_cache_loaded, loaded. rewrite ST_bind_unfold. cbn [st_get].
  unfold cached in Hc. unfold cache_loaded.
  destruct (index_eq_cache s !! cache_key idx) as [m|] eqn:E1, (index_rowid_cache s !! cache_key idx) as [r|] eqn:E2,
    (index_ordered_cache s !! cache_key idx) as [o|] eqn:E3; try done.
  - rewrite !bool_decide_true by done. cbn [andb]. exists s. split; [done|]. split; [|split; [by rewrite E1|apply same_but_refl]].
    split; [done|by exists rows|done|]. unfold cached. by rewrite E1, E2, E3.
  - rewrite bool_decide_false by (by intros []). cbn [andb].
    destruct (tree_scan_law (trees s) F _ _ rows Hrep Hrows) as (t' & Hs & Hrep'). rewrite ST_bind_unfold. unfold on_trees at 1. rewrite Hs.
    rewrite ST_bind_unfold. cbn [st_get]. unfold st_put. eexists. split; [reflexivity|].
    assert (index_eq_cache (store_caches (cache_key idx) (load_entries rows) (set_trees t' s)) !! cache_key idx = Some (load_entries rows).1.1) as L1
      by (cbn; by rewrite lookup_insert_eq).
    split; [split; [done|by exists rows|done|]|].
    + unfold cached. rewrite L1. cbn. rewrite !lookup_insert_eq. pose proof (load_entries_ok reals rows) as Hl.
      destruct (load_entries rows) as [[m r] o]. eapply caches_ok_perm; [exact HE|]. apply Hl. by rewrite HE.
    + split; [by rewrite L1|]. split; [done|done|done|..]; intros k Hk; cbn; by rewrite lookup_insert_ne.
Qed.

(** Each lookup, as a selection of the entries. *)
Definition by_value (v : Value) (e : Entry) : bool := bool_decide (index_eq_key e.1.1 = index_eq_key v).
Abbreviation rid_of := (λ e : Entry, e.1.2).
Lemma loaded_caches idx s E : index_at idx s E → loaded idx s → ∃ m r o,
  index_eq_cache s !! cache_key idx = Some m ∧ index_rowid_cache s !! cache_key idx = Some r
  ∧ index_ordered_cache s !! cache_key idx = Some o ∧ caches_ok m r o E.
Proof.
  intros Ha [m Hm]. pose proof (ia_cached _ _ _ Ha) as Hc. unfold cached in Hc. rewrite Hm in Hc.
  destruct (index_rowid_cache s !! _) as [r|], (index_ordered_cache s !! _) as [o|]; try done. by exists m, r, o.
Qed.
Lemma index_rowids_for_value_spec idx s E v : index_at idx s E →
  ∃ rids s', index_rowids_for_value idx v s = (Ok rids, s') ∧ index_at idx s' E ∧ same_but idx s s'
    ∧ rids ≡ₚ map rid_of (List.filter (by_value v) E).
Proof.
  intros Ha. destruct (ensure_spec idx s E Ha) as (s' & Hs & Ha' & Hl & Hsame).
  destruct (loaded_caches idx s' E Ha' Hl) as (m & r & o & Hm & _ & _ & Hok).
  eexists _, s'. unfold index_rowids_for_value. rewrite ST_bind_unfold, Hs. unfold st_gets. rewrite Hm.
  split_and!; [done|done|done|]. apply (ok_eq _ _ _ _ Hok).
Qed.
Lemma map_snd_filter (p : Value → bool) (ordered : Ordered) E : ordered ≡ₚ map fst E →
  map snd (List.filter (λ e, p e.1) ordered) ≡ₚ map rid_of (List.filter (λ e, p e.1.1) E).
Proof.
  intros Hp. assert (map snd (List.filter (λ e, p e.1) (map fst E)) = map rid_of (List.filter (λ e, p e.1.1) E)) as <-.
  { clear. induction E as [|[[v t] i] E IH]; [done|]. cbn [map List.filter fst snd]. destruct (p v); cbn [map snd]; by rewrite IH. }
  apply Permutation_map. by rewrite Hp.
Qed.
Lemma index_rowids_for_comparison_spec idx s E op v : index_at idx s E → comparable reals v →
  ∃ rids s', index_rowids_for_comparison idx op v s = (Ok rids, s') ∧ index_at idx s' E ∧ same_but idx s s'
    ∧ rids ≡ₚ map rid_of (List.filter (λ e, negb (is_null v) && if decide (op = Equal) then by_value v e else in_range op v e.1.1) E).
Proof.
  intros Ha Hv. unfold index_rowids_for_comparison. destruct (is_null v) eqn:Hn; cbn [negb andb].
  { exists [], s. rewrite filter_nothing. split_and!; [done|done|apply same_but_refl|done]. }
  destruct (decide (op = Equal)) as [->|Hop].
  { rewrite bool_decide_true by done. by destruct (index_rowids_for_value_spec idx s E v Ha) as (rids & s' & Hs & Ha' & Hsame & Hp); exists rids, s'. }
  rewrite bool_decide_false, (comparable_total reals) by done. cbn [negb].
  destruct (ensure_spec idx s E Ha) as (s' & Hs & Ha' & Hl & Hsame).
  destruct (loaded_caches idx s' E Ha' Hl) as (m & r & o & _ & _ & Ho & Hok).
  assert (ordered_index_entries_for idx s = (Ok o, s')) as Hent.
  { unfold ordered_index_entries_for. rewrite ST_bind_unfold, Hs. unfold st_gets. by rewrite Ho. }
  rewrite ST_bind_unfold, Hent. destruct (range_bounds_for_comparison o op v) as [start end_] eqn:Er.
  pose proof (comparison_slice reals o op v (ordered_ok reals _ _ _ _ (ia_entries _ _ _ Ha') Hok) (ok_sorted _ _ _ _ Hok) Hv) as Hsl.
  rewrite Er in Hsl. cbn [fst snd] in Hsl. exists (map snd (List.filter (λ e, in_range op v e.1) o)), s'. unfold st_lift. rewrite Hsl.
  split_and!; [done|done|done|]. apply (map_snd_filter (in_range op v)). apply Hok.
Qed.
Lemma index_rowids_for_between_spec idx s E low high : index_at idx s E → comparable reals low → comparable reals high →
  ∃ rids s', index_rowids_for_between idx low high s = (Ok rids, s') ∧ index_at idx s' E ∧ same_but idx s s'
    ∧ rids ≡ₚ map rid_of (List.filter (λ e, negb (is_null low || is_null high || bool_decide (cmp_value_total low high = Gt))
        && (in_range GreaterThanOrEqual low e.1.1 && in_range LessThanOrEqual high e.1.1)) E).
Proof.
  intros Ha Hl Hh. unfold index_rowids_for_between. rewrite !(comparable_total reals) by done. cbn [negb orb].
  destruct (is_null low || is_null high); cbn [orb negb andb].
  { exists [], s. rewrite filter_nothing. split_and!; [done|done|apply same_but_refl|done]. }
  case_bool_decide as Hgt; cbn [negb andb].
  { exists [], s. rewrite filter_nothing. split_and!; [done|done|apply same_but_refl|done]. }
  destruct (ensure_spec idx s E Ha) as (s' & Hs & Ha' & Hld & Hsame).
  destruct (loaded_caches idx s' E Ha' Hld) as (m & r & o & _ & _ & Ho & Hok).
  assert (ordered_index_entries_for idx s = (Ok o, s')) as Hent.
  { unfold ordered_index_entries_for. rewrite ST_bind_unfold, Hs. unfold st_gets. by rewrite Ho. }
  rewrite ST_bind_unfold, Hent. unfold st_lift.
  rewrite (between_slice reals) by first [done|by eapply ordered_ok, Hok; apply Ha'|apply Hok].
  eexists _, s'. split; [reflexivity|]. split_and!; [done|done|].
  apply (map_snd_filter (λ v, in_range GreaterThanOrEqual low v && in_range LessThanOrEqual high v)). apply Hok.
Qed.
Lemma index_entry_rowid_spec idx s E t : index_at idx s E →
  ∃ o s', index_entry_rowid_for_table_rowid idx t s = (Ok o, s') ∧ index_at idx s' E ∧ same_but idx s s' ∧ loaded idx s'
    ∧ ∀ i, o = Some i ↔ ∃ v, (v, t, i) ∈ E.
Proof.
  intros Ha. destruct (ensure_spec idx s E Ha) as (s' & Hs & Ha' & Hl & Hsame).
  destruct (loaded_caches idx s' E Ha' Hl) as (m & r & o & _ & Hr & _ & Hok).
  exists (r !! t), s'. unfold index_entry_rowid_for_table_rowid. rewrite ST_bind_unfold, Hs. unfold st_gets. rewrite Hr.
  split_and!; [done..|]. intros i. apply Hok.
Qed.
End Lookups.

(** ** The fetch by row ids *)

Section Fetch.
Context {T : Type} `{StdFns} `{TreeReads T}.

Lemma row_lookup_cons r rid row rows :
  row_lookup r ((rid, row) :: rows) = if decide (rid = r) then Some (rid, row) else row_lookup r rows.
Proof. unfold row_lookup. rewrite filter_cons. cbn [fst]. by destruct (decide (rid = r)). Qed.
Lemma row_lookup_absent r rows : r ∉ rows.*1 → row_lookup r rows = None.
Proof.
  induction rows as [|[rid row] rows IH]; [done|]. cbn [fmap list_fmap fst]. intros Hn.
  rewrite row_lookup_cons, decide_False, IH by set_solver. done.
Qed.
Lemma collect_wanted_spec rows wanted by_id rid : NoDup rows.*1 → (∀ r, r ∈ wanted → by_id !! r = None) →
  collect_wanted wanted by_id rows !! rid = if decide (rid ∈ wanted) then snd <$> row_lookup rid rows else by_id !! rid.
Proof.
  revert wanted by_id. induction rows as [|[r row] rows IH]; intros wanted by_id Hd Hw; cbn [collect_wanted].
  { destruct (decide (rid ∈ wanted)); [by apply Hw|done]. }
  apply NoDup_cons in Hd as [Hr Hd]. cbn [fst] in Hr. rewrite row_lookup_cons. case_bool_decide as Hin.
  - assert (∀ r', r' ∈ wanted ∖ {[r]} → <[r := row]> by_id !! r' = None) as Hw'.
    { intros r' Hr'. rewrite lookup_insert_ne by set_solver. apply Hw. set_solver. }
    assert ((if decide (rid ∈ wanted ∖ {[r]}) then snd <$> row_lookup rid rows else <[r := row]> by_id !! rid)
      = if decide (rid ∈ wanted) then snd <$> (if decide (r = rid) then Some (r, row) else row_lookup rid rows) else by_id !! rid) as E.
    { destruct (decide (r = rid)) as [<-|Hne].
      - rewrite decide_False, decide_True, lookup_insert_eq by set_solver. done.
      - rewrite lookup_insert_ne by done. destruct (decide (rid ∈ wanted)); [rewrite decide_True|rewrite decide_False]; set_solver. }
    case_bool_decide as He; [|rewrite IH by done; exact E]. rewrite <- E, decide_False; [done|set_solver].
  - rewrite IH by done. destruct (decide (rid ∈ wanted)); [|done]. rewrite decide_False; [done|]. by intros ->.
Qed.
Lemma take_wanted_spec by_id rids : NoDup rids → take_wanted by_id rids = omap (λ rid, pair rid <$> by_id !! rid) rids.
Proof.
  intros Hd. revert by_id. induction Hd as [|rid rids Hr _ IH]; intros by_id; [done|]. cbn [take_wanted omap list_omap].
  destruct (by_id !! rid) as [row|] eqn:E; cbn [fmap option_fmap option_map]; [|apply IH]. rewrite IH. f_equal.
  clear -Hr. induction rids as [|r rids IH]; [done|]. cbn [omap list_omap]. rewrite lookup_delete_ne by set_solver.
  destruct (by_id !! r); cbn [fmap option_fmap option_map]; rewrite IH by set_solver; done.
Qed.
(** Both ways of fetching give the rows of the ids that exist, in the order of
    the ids. *)
Lemma fetch_rows_spec F (s : IxState T) table root rows rids :
  trees_rep (trees s) F → F !! tree_key table root = Some rows → NoDup rids →
  ∃ t', fetch_rows_by_rowids table root rids s = (Ok (omap (λ r, row_lookup r rows) rids), set_trees t' s) ∧ trees_rep t' F.
Proof.
  intros Hrep Hrows Hd. pose proof (trees_nodup _ _ _ _ Hrep Hrows) as Hnd. unfold fetch_rows_by_rowids.
  destruct rids as [|rid0 rids0] eqn:Er; [exists (trees s); by destruct s|]. rewrite <- Er in *. clear rid0 rids0 Er. case_bool_decide.
  - destruct (tree_scan_law _ _ _ _ _ Hrep Hrows) as (t' & Hs & Hrep'). exists t'. split; [|done].
    rewrite ST_bind_unfold. unfold on_trees. rewrite Hs. rewrite take_wanted_spec by done.
    assert (∀ l : list Z, (∀ r, r ∈ l → r ∈ rids) → omap (λ rid, pair rid <$> collect_wanted (list_to_set rids) ∅ rows !! rid) l = omap (λ r, row_lookup r rows) l) as Hl;
      [|by rewrite Hl].
    induction l as [|r l IH]; intros Hin; [done|]. cbn [omap list_omap]. rewrite IH by (intros x Hx; apply Hin; by right).
    rewrite collect_wanted_spec by (done || intros; apply lookup_empty). rewrite decide_True by (apply elem_of_list_to_set, Hin; left).
    assert (pair r <$> (snd <$> row_lookup r rows) = row_lookup r rows) as ->; [|done].
    clear. induction rows as [|[r' row] rows IH]; [done|]. rewrite row_lookup_cons. by destruct (decide (r' = r)) as [->|].
  - clear Hd H2. revert s Hrep. induction rids as [|r rids IH]; intros s Hrep; [exists (trees s); by destruct s|]. cbn [st_flat_map omap list_omap].
    destruct (tree_find_law _ _ _ _ r _ Hrep Hrows) as (t' & Hs & Hrep').
    destruct (IH (set_trees t' s) Hrep') as (t2 & Hs2 & Hrep2). exists t2. split; [|done].
    rewrite ST_bind_unfold, ST_bind_unfold. unfold on_trees at 1. rewrite Hs. cbn [mret ST_ret]. rewrite ST_bind_unfold, Hs2.
    cbn [mret ST_ret]. by destruct (row_lookup r rows).
Qed.
End Fetch.

(** ** Maintenance *)

Section Maintenance.
Context {T : Type} `{StdFns} `{TreeReads T} (reals : bool).

Lemma cached_insert idx (s : IxState T) E v t i : cached idx s E → entries_ok reals (E ++ [(v, t, i)]) →
  cached idx (index_cache_insert idx v t i s) (E ++ [(v, t, i)]) ∧ same_but idx s (index_cache_insert idx v t i s)
  ∧ trees (index_cache_insert idx v t i s) = trees s.
Proof.
  intros Hc Hok. apply entries_snoc in Hok as (HE & Hv & Hf). unfold cached in Hc |- *. unfold index_cache_insert.
  destruct (index_eq_cache s !! cache_key idx) as [m|] eqn:E1, (index_rowid_cache s !! cache_key idx) as [r|] eqn:E2,
    (index_ordered_cache s !! cache_key idx) as [o|] eqn:E3; try done.
  - cbn. rewrite !lookup_insert_eq, lookup_alter_eq, E3. cbn. split; [|split; [|done]].
    + pose proof (ordered_ok reals _ _ _ _ HE Hc) as Ho. destruct Hc as [He Hr Hp Hs].
      destruct (ordered_insert_ok reals v t o Ho Hs Hv) as [Hs' Hp'].
      split; [by apply push_rowid_ok|by apply rowid_insert_ok|by rewrite Hp', Hp, map_app|done].
    + split; [done..| | |]; intros k Hk; cbn; by rewrite ?lookup_insert_ne, ?lookup_alter_ne.
  - rewrite ?E1, ?E2, ?E3. split; [done|]. split; [apply same_but_refl|done].
Qed.
Lemma eq_delete_spec v t m k : default [] (eq_delete v t m !! k)
  = if decide (k = index_eq_key v) then filter (λ r, r ≠ t) (default [] (m !! k)) else default [] (m !! k).
Proof.
  unfold eq_delete. destruct (decide (k = index_eq_key v)) as [->|Hne].
  - destruct (m !! index_eq_key v) as [rows|] eqn:E; [|by rewrite E]. cbn. destruct (filter _ rows) eqn:Ef.
    + by rewrite lookup_delete_eq.
    + by rewrite lookup_insert_eq.
  - destruct (m !! index_eq_key v) as [rows|]; [|done]. destruct (filter _ rows); by rewrite ?lookup_delete_ne, ?lookup_insert_ne.
Qed.
Lemma filter_rids (p : Entry → bool) t E :
  filter (λ r, r ≠ t) (map (λ e : Entry, e.1.2) (List.filter p E)) = map (λ e, e.1.2) (List.filter p (filter (λ e, e.1.2 ≠ t) E)).
Proof.
  induction E as [|[[w u] j] E IH]; [done|]. rewrite (filter_cons _ (w, u, j)). cbn [List.filter fst snd].
  destruct (p (w, u, j)) eqn:Ep; cbn [map fst snd].
  - rewrite filter_cons. destruct (decide (u ≠ t)); cbn [List.filter]; rewrite ?Ep; cbn [map fst snd]; by rewrite IH.
  - destruct (decide (u ≠ t)); cbn [List.filter]; by rewrite ?Ep.
Qed.
Lemma filter_all_rids (t : Z) (l : list Z) : t ∉ l → filter (λ r, r ≠ t) l = l.
Proof. induction l as [|x l IH]; [done|]. intros Hn. rewrite filter_cons, decide_True, IH by set_solver. done. Qed.
Lemma cached_delete idx (s : IxState T) E v t i : cached idx s E → entries_ok reals E → (v, t, i) ∈ E →
  cached idx (index_cache_delete idx v t s) (filter (λ e, e.1.2 ≠ t) E) ∧ same_but idx s (index_cache_delete idx v t s)
  ∧ trees (index_cache_delete idx v t s) = trees s.
Proof.
  intros Hc HE Hin. unfold cached in Hc |- *. unfold index_cache_delete. cbn. rewrite !lookup_alter_eq.
  split; [|split; [|done]; split; [done..| | |]; intros k Hk; cbn; by rewrite lookup_alter_ne].
  destruct (index_eq_cache s !! cache_key idx) as [m|], (index_rowid_cache s !! cache_key idx) as [r|],
    (index_ordered_cache s !! cache_key idx) as [o|]; try done. cbn.
  pose proof (ordered_ok reals _ _ _ _ HE Hc) as Ho. destruct Hc as [He Hr Hp Hs], HE as [Hcomp Hd].
  assert (∀ e, e ∈ E → e.1.2 = t → e = (v, t, i)) as Hu.
  { intros e He' Et. clear -He' Et Hin Hd. induction E as [|x E IH]; [by apply elem_of_nil in Hin|].
    cbn [map] in Hd. apply NoDup_cons in Hd as [Hx Hd]. apply elem_of_cons in He', Hin.
    destruct He' as [->|He'], Hin as [Hin|Hin]; [done| | |by apply IH].
    - destruct Hx. rewrite Et. apply list_elem_of_fmap. by exists (v, t, i).
    - subst x. destruct Hx. cbn [fst snd]. rewrite <- Et. apply list_elem_of_fmap. by exists e. }
  assert (NoDup (map snd o)) as Hdo.
  { assert (map snd o ≡ₚ map (λ e : Entry, e.1.2) E) as ->; [|done]. rewrite Hp, map_map. done. }
  assert ((v, t) ∈ o) as Hino. { rewrite Hp. apply list_elem_of_fmap. by exists (v, t, i). }
  assert (ordered_delete v t o ≡ₚ filter (λ e, e.2 ≠ t) o) as Hod by (by rewrite (ordered_delete_ok reals)).
  split.
  - intros k. rewrite eq_delete_spec, <- filter_rids. destruct (decide (k = index_eq_key v)) as [_|Hk]; [by rewrite He|].
    rewrite He, filter_all_rids; [done|]. intros [e [Et He']]%list_elem_of_fmap. rewrite list_elem_of_In, filter_In, <- list_elem_of_In in He'.
    destruct He' as [He' Hb%bool_decide_eq_true]. rewrite (Hu e) in Hb by done. by apply Hk.
  - intros t' i'. rewrite lookup_delete_Some, Hr. setoid_rewrite list_elem_of_filter. cbn [fst snd]. naive_solver.
  - rewrite Hod, Hp. clear. induction E as [|[[w u] j] E IH]; [done|]. rewrite filter_cons. cbn [map fst snd]. rewrite filter_cons. cbn [snd].
    destruct (decide (u ≠ t)); cbn [map]; by rewrite IH.
  - rewrite (ordered_delete_ok reals) by done. unfold sorted in *. clear -Hs. induction Hs as [|x l Hl IH Hx]; [constructor|].
    rewrite filter_cons. destruct (decide _); [|done]. constructor; [done|]. rewrite Forall_forall in Hx |- *. intros y [_ Hy]%list_elem_of_filter. by apply Hx.
Qed.
End Maintenance.

(** ** The B+tree as the trees of one pager *)

Section BTrees.
Context {P : Type} `{PagerLaws P} (N : nat).

Definition btree_trees : Trees P :=
  mkTrees P (λ _, scan_all N N) (λ _, find_by_rowid N) (λ _, max_rowid N) (λ _, insert N) (λ _, delete_by_rowid N N).
(** The pager holds these tables side by side, each of at most [N] pages. *)
Definition btrees_rep (s : P) (F : Forest) : Prop :=
  ∃ m, pager_rep s m ∧ ∀ k rows, F !! k = Some rows →
    ∃ h ls inner pgs, table m h k.2 ls inner pgs rows ∧ (length (ls.*1 ++ inner ++ pgs) ≤ N)%nat.
Lemma btrees_bounds m h root ls inner pgs rows : table m h root ls inner pgs rows → (length (ls.*1 ++ inner ++ pgs) ≤ N)%nat →
  (h < N)%nat ∧ (length ls ≤ N)%nat.
Proof.
  intros Ht Hlen. pose proof (proj1 (tree_height m) _ _ _ _ _ _ (tb_tree _ _ _ _ _ _ _ Ht)).
  destruct (proj1 (tree_leaves_ok m) _ _ _ _ _ _ (tb_tree _ _ _ _ _ _ _ Ht)) as [_ Hne].
  rewrite !length_app, length_fmap in *. destruct ls; [done|]. simpl in *. lia.
Qed.
#[local] Existing Instance btree_trees.
Lemma btree_reads : TreeReads P.
Proof.
  apply (mkTreeReads P _ btrees_rep).
  - intros s F k rows (m & _ & Hf) Hk. destruct (Hf k rows Hk) as (h & ls & inner & pgs & Ht & _).
    rewrite (cells_rows_rowids _ _ _ _ (tb_rows _ _ _ _ _ _ _ Ht)).
    pose proof (proj1 (tree_sorted m) _ _ _ _ _ _ (tb_tree _ _ _ _ _ _ _ Ht)) as Hs.
    clear -Hs. unfold BTreeNode.sorted_cells in Hs. induction Hs as [|x l Hl IH Hx]; constructor; [|done].
    intros Hin. rewrite Forall_forall in Hx. specialize (Hx _ Hin). lia.
  - intros s F tbl root rows (m & Hrep & Hf) Hk. destruct (Hf _ rows Hk) as (h & ls & inner & pgs & Ht & Hlen).
    destruct (btrees_bounds _ _ _ _ _ _ _ Ht Hlen) as [Hh Hl].
    destruct (find_leftmost_tree m h _ _ _ _ _ s N (tb_tree _ _ _ _ _ _ _ Ht) Hrep Hh) as (s1 & Hr & Hk1).
    destruct (scan_leaves_forward (mkScan None true false None decode_plain) m ltac:(done) eq_refl ls 0 rows pgs s1 [] N (tree_leaves _ _ _ _ _ _ _ Ht)
      (tb_linked _ _ _ _ _ _ _ Ht) (tb_rows _ _ _ _ _ _ _ Ht) (proj1 Hk1) ltac:(done) Hl) as (s2 & Hs & Hk2).
    exists s2. split; [|exists m; split; [apply Hk2|done]]. unfold scan_cut in Hs. cbn [sc_limit app] in Hs. rewrite scan_out_id in Hs by done.
    cbn [tree_scan_all btree_trees]. unfold scan_all, scan_leaf_chain. rewrite ST_bind_unfold. cbn [tree_key snd] in Hr. by rewrite Hr.
  - intros s F tbl root rid rows (m & Hrep & Hf) Hk. destruct (Hf _ rows Hk) as (h & ls & inner & pgs & Ht & Hlen).
    destruct (btrees_bounds _ _ _ _ _ _ _ Ht Hlen) as [Hh _].
    destruct (find_by_rowid_tree m h None None root ls inner s rid rows pgs N) as (s' & Hrun & Hk'); [apply Ht|done|apply Ht|done|done|].
    exists s'. split; [exact Hrun|]. exists m. split; [apply Hk'|done].
Qed.
End BTrees.
