(* ===== verification/IndexScan.v ===== *)
(** The use and the upkeep of secondary indexes (src/src/vm/exec_select.rs,
    exec_dml.rs, execute.rs): which conditions an index answers, the index
    scan of SELECT, the row ids of UPDATE and DELETE, the entries a row adds
    and removes, UNIQUE, and the counters of full scans.

    MATCH on full-text tables is the interface [FtsScan], the cost estimate
    that may prefer a full scan is [CostModel]; the theorems hold whatever
    they answer. *)
From S2P Require Import Prelude Values Text Expr BTreeTree RowOps Joins Aggregates Window Select SelectProps IndexCache.

(** What a condition asks of an index. *)
Inductive Lookup : Type :=
  | LEq (v : Value)
  | LIn (vs : list Value)
  | LComparison (op : BinaryOperator) (v : Value)
  | LBetween (low high : Value).

(** A result of MATCH, if the condition is a MATCH and the table has an index
    for it; the choice of a full scan by cost. *)
Class FtsScan (Q : Type) := fts_scan : string → SExpr' → ST (VM (Engine Q)) (option (list Row * list string)).
Class CostModel (Q : Type) := prefers_full_scan : string → string → Lookup → VM (Engine Q) → bool.
(** [update_schema_object_root_page]: the new root in the catalogue. *)
Class CatalogRoots (T : Type) := update_object_root : string → Z → ST T unit.

(** ** Indexes of a table *)

Section Indexes.
Context {T : Type} `{StdFns} `{Trees T} `{CatalogRoots T}.
Abbreviation M := (ST (IxState T)).

(** [indexes_for_table] *)
Definition indexes_for_table (table : string) (s : IxState T) : list IndexSchema :=
  omap (λ n, indexes s !! n) (default [] (indexes_by_table s !! to_ascii_lowercase table)).
Definition has_indexes_for_table (table : string) (s : IxState T) : bool :=
  match indexes_by_table s !! to_ascii_lowercase table with Some (_ :: _) => true | _ => false end.
Definition leads_with (col : string) (idx : IndexSchema) : bool :=
  match index_columns idx with c :: _ => eq_ignore_ascii_case c col | [] => false end.
Definition matching_index (table col : string) (s : IxState T) : option IndexSchema :=
  List.find (leads_with col) (indexes_for_table table s).

(** *** Lookups *)

(** [if seen.insert(rid) { out.push(rid) }] *)
Fixpoint first_seen (seen : gset Z) (rids : list Z) : list Z :=
  match rids with
  | [] => []
  | r :: rids' => if bool_decide (r ∈ seen) then first_seen seen rids' else r :: first_seen ({[r]} ∪ seen) rids'
  end.
(** The [match lookup] of [try_index_scan] and of [try_dml_index_rowids]. *)
Definition index_lookup (idx : IndexSchema) (lookup : Lookup) : M (list Z) :=
  match lookup with
  | LEq v => if is_null v then mret [] else index_rowids_for_value idx v
  | LIn vs => rids ← st_flat_map (index_rowids_for_value idx) vs; mret (first_seen ∅ rids)
  | LComparison op v => index_rowids_for_comparison idx op v
  | LBetween low high => index_rowids_for_between idx low high
  end.

(** *** Full scans that an index could have served *)

Definition counter_key (table col : string) : string * string := (to_ascii_lowercase table, to_ascii_lowercase col).
Definition forget_counter (key : string * string) (s : IxState T) : IxState T :=
  let a := adaptive s in
  set_adaptive (mkAdaptive (delete key (query_access_counter a)) (adaptive_threshold a) (pending_auto_indexes a)) s.
Definition maybe_auto_create_index (table col : string) (s : IxState T) : IxState T :=
  let key := counter_key table col in
  let a := adaptive s in
  if bool_decide (is_Some (indexes s !! ("idx_" +:+ table +:+ "_" +:+ col +:+ "_auto")%string)) then s
  else
    let column := columns ← table_columns s !! to_ascii_lowercase table; List.find (λ c, eq_ignore_ascii_case (column_name c) col) columns in
    if match column with Some c => primary_key c || column_unique c | None => false end then forget_counter key s
    else if existsb (leads_with col) (indexes_for_table table s) then forget_counter key s
    else if bool_decide (key ∈ pending_auto_indexes a) then s
    else set_adaptive (mkAdaptive (query_access_counter a) (adaptive_threshold a) (pending_auto_indexes a ++ [key])) s.
Definition record_full_scan_access (table col : string) : M unit := λ s,
  let key := counter_key table col in
  let a := adaptive s in
  let count := default 0 (query_access_counter a !! key) + 1 in
  if U32_MAX <? count then (Panic, s)
  else
    let s := set_adaptive (mkAdaptive (<[key := count]> (query_access_counter a)) (adaptive_threshold a) (pending_auto_indexes a)) s in
    (Ok tt, if adaptive_threshold a <=? count then maybe_auto_create_index key.1 key.2 s else s).

(** *** The entries of a row *)

(** The columns of the index in the row; a column the table does not have is
    left out. *)
Definition index_key (columns : list ColumnInfo) (idx : IndexSchema) (row : Row) : Row :=
  omap (λ name, c ← List.find (λ c, eq_ignore_ascii_case (column_name c) name) columns; Some (default VNull (row !! col_index c)))
    (index_columns idx).
(** The search for an entry with all the values of the key. *)
Fixpoint conflict_scan (idx : IndexSchema) (key : list Value) (ignore : option Z) (index_rowids : list Z) : M bool :=
  match index_rowids with
  | [] => mret false
  | i :: rest =>
      found ← on_trees (tree_find (index_table idx) (index_root idx) i);
      match found with
      | None => conflict_scan idx key ignore rest
      | Some (_, row) =>
          if bool_decide (length row < length key + 1)%nat then conflict_scan idx key ignore rest
          else if negb (forallb (λ '(a, b), value_eq a b) (zip row key)) then conflict_scan idx key ignore rest
          else
            match last row with
            | Some (VInteger existing) => if bool_decide (Some existing = ignore) then conflict_scan idx key ignore rest else mret true
            | _ => mret true
            end
      end
  end.
(** The index row of a candidate, unless it is the row itself. *)
Definition candidate_entry (idx : IndexSchema) (ignore : option Z) (t : Z) : M (list Z) :=
  if bool_decide (Some t = ignore) then mret []
  else o ← index_entry_rowid_for_table_rowid idx t; mret (match o with Some i => [i] | None => [] end).
Definition unique_index_conflict_exists (idx : IndexSchema) (key : list Value) (ignore : option Z) : M bool :=
  match key with
  | [] => mret false
  | v :: _ =>
      candidates ← index_rowids_for_value idx v;
      index_rowids ← st_flat_map (candidate_entry idx ignore) candidates;
      conflict_scan idx key ignore index_rowids
  end.
Definition unique_error (table : string) (idx : IndexSchema) : KkdbError :=
  ConstraintViolation ("UNIQUE constraint failed: " +:+ table +:+ "." +:+ String.concat ", " (index_columns idx)).
(** [validate_unique_indexes_for_row] *)
Definition validate_unique_index (table : string) (columns : list ColumnInfo) (rowid : Z) (row : Row) (ignore : option Z) (idx : IndexSchema) : M unit :=
  if negb (unique idx) then mret tt
  else
    match mapM (M := res) (λ name, match List.find (λ c, eq_ignore_ascii_case (column_name c) name) columns with
                        | Some c => Ok (default VNull (row !! col_index c))
                        | None => Err (ColumnNotFound (table +:+ "." +:+ name))
                        end) (index_columns idx) with
    | Ok key =>
        if existsb is_null key then mret tt
        else
          conflict ← unique_index_conflict_exists idx key (match ignore with Some r => Some r | None => Some rowid end);
          if conflict : bool then st_err (unique_error table idx) else mret tt
    | Err e => st_err e
    | Panic => st_lift Panic
    | Hang => st_lift Hang
    end.
Definition get_columns (table : string) : M (list ColumnInfo) :=
  st_gets (λ s, match table_columns s !! to_ascii_lowercase table with Some cs => Ok cs | None => Err (TableNotFound table) end).
Definition for_indexes (table : string) (f : list ColumnInfo → IndexSchema → M unit) : M unit :=
  s ← st_get;
  if has_indexes_for_table table s then columns ← get_columns table; st_iter (f columns) (indexes_for_table table s)
  else mret tt.
Definition validate_unique_indexes_for_row (table : string) (rowid : Z) (row : Row) (ignore : option Z) : M unit :=
  for_indexes table (λ columns, validate_unique_index table columns rowid row ignore).

(** The new root in the schema. *)
Definition set_index_root (idx : IndexSchema) (root : Z) (s : IxState T) : IxState T :=
  set_indexes (alter (λ i, mkIndex (index_name i) (index_table i) (index_columns i) root (unique i) (is_fts i)) (cache_key idx) (indexes s)) s.
Definition st_modify {S} (f : S → S) : ST S unit := λ s, (Ok tt, f s).
(** [let _ = m], [m.unwrap_or(0)] *)
Definition ignore_error {S} (m : ST S unit) : ST S unit := λ s, match m s with (Err _, s') => (Ok tt, s') | r => r end.
Definition or_zero {S} (m : ST S Z) : ST S Z := λ s, match m s with (Err _, s') => (Ok 0, s') | r => r end.
Definition insert_index_entry (table : string) (rowid : Z) (row : Row) (columns : list ColumnInfo) (idx : IndexSchema) : M unit :=
  let key := index_key columns idx row in
  conflict ← (if unique idx && negb (existsb is_null key) then unique_index_conflict_exists idx key (Some rowid) else mret false);
  if conflict : bool then st_err (unique_error table idx)
  else
    max ← or_zero (on_trees (tree_max_rowid table (index_root idx)));
    idx_next ← st_lift (if max =? 2 ^ 63 - 1 then Panic else Ok (max + 1));
    new_root ← on_trees (tree_insert table (index_root idx) idx_next (key ++ [VInteger rowid]));
    _ ← st_modify (match key with v :: _ => index_cache_insert idx v rowid idx_next | [] => id end);
    if new_root =? index_root idx then mret tt
    else
      _ ← st_modify (set_index_root idx new_root);
      ignore_error (on_trees (update_object_root (index_name idx) new_root)).
Definition insert_index_entries (table : string) (rowid : Z) (row : Row) : M unit := for_indexes table (insert_index_entry table rowid row).
Definition delete_index_entry (table : string) (rowid : Z) (idx : IndexSchema) : M unit :=
  found ← index_entry_rowid_for_table_rowid idx rowid;
  match found with
  | None => mret tt
  | Some i =>
      entry ← on_trees (tree_find table (index_root idx) i);
      '(_, new_root) ← on_trees (tree_delete table (index_root idx) i);
      _ ← (if new_root =? index_root idx then mret tt
           else _ ← st_modify (set_index_root idx new_root); on_trees (update_object_root (index_name idx) new_root));
      st_modify (match entry with Some (_, v :: _) => index_cache_delete idx v rowid | _ => id end)
  end.
Definition delete_index_entries (table : string) (rowid : Z) : M unit :=
  s ← st_get;
  if has_indexes_for_table table s then st_iter (delete_index_entry table rowid) (indexes_for_table table s) else mret tt.
End Indexes.

(** ** Conditions *)

Section Scan.
Context {T : Type} `{StdFns} `{Trees T} `{OtherFunctions (Engine (IxState T))} `{FtsScan (IxState T)} `{CostModel (IxState T)}.
Abbreviation V := (VM (Engine (IxState T))).
Context (rec : SelectStmt → ST V ExecResult).
#[local] Instance nested_query : SelectExec SelectStmt (Engine (IxState T)) := rec.

(** An operation on the indexes, in the VM. *)
Definition set_engine_rest {Q} (x : Q) (e : Engine Q) : Engine Q :=
  mkEngine Q (tables e) (cte_cache e) (current_rowid e) (undo_log e) (snapshot_in_use e) (txn_id e) (row_locks e) x.
Definition on_index {A} (m : ST (IxState T) A) : ST V A := λ s,
  let '(r, x) := m (engine_rest (vm_rest s)) in (r, upd_engine (set_engine_rest x) s).

(** [eval_constant_expr] *)
Definition eval_constant_expr (e : SExpr') : ST V (option Value) := λ s,
  match eval_expr [] ∅ e s with (Ok v, s') => (Ok (Some v), s') | (Err _, s') => (Ok None, s') | (Panic, s') => (Panic, s') | (Hang, s') => (Hang, s') end.
(** The values of an IN list, without its NULLs; [None] when one of them is
    not constant. *)
Fixpoint eval_constants (items : list SExpr') : ST V (option (list Value)) :=
  match items with
  | [] => mret (Some [])
  | item :: items' =>
      v ← eval_constant_expr item;
      match v with
      | None => mret None
      | Some v => vs ← eval_constants items'; mret (vs ← vs; Some (if is_null v then vs else v :: vs))
      end
  end.
Definition comparison_lookup (column : string) (op : BinaryOperator) (v : Value) : option (string * Lookup) :=
  match op with
  | Equal => Some (column, LEq v)
  | LessThan | LessThanOrEqual | GreaterThan | GreaterThanOrEqual => Some (column, LComparison op v)
  | _ => None
  end.
(** The column and the lookup of a condition on one column. *)
Definition index_condition (where_expr : SExpr') : ST V (option (string * Lookup)) :=
  match where_expr with
  | BinaryOp (ColumnRef _ column) op rhs =>
      v ← eval_constant_expr rhs; mret (v ← v; comparison_lookup column op v)
  | BinaryOp lhs op (ColumnRef _ column) =>
      match flip_comparison_operator op with
      | Some op => v ← eval_constant_expr lhs; mret (v ← v; comparison_lookup column op v)
      | None => mret None
      end
  | InList (ColumnRef _ column) items false =>
      vs ← eval_constants items; mret (vs ← vs; Some (column, LIn vs))
  | Between (ColumnRef _ column) low high false =>
      low ← eval_constant_expr low;
      match low with
      | None => mret None
      | Some low => high ← eval_constant_expr high; mret (high ← high; Some (column, LBetween low high))
      end
  | _ => mret None
  end.

(** *** SELECT *)

Definition index_rows (name : string) (t : Table) (idx : IndexSchema) (lookup : Lookup) : ST (IxState T) (list Row) :=
  rowids ← index_lookup idx lookup;
  fetched ← fetch_rows_by_rowids name (root_page t) rowids;
  mret (map snd fetched).
(** [try_index_scan] *)
Definition try_index_scan (f : FromClause) (where_expr : SExpr') : ST V (option (list Row * list string)) :=
  match f with
  | FTable name _ =>
      fts ← fts_scan name where_expr;
      match fts with
      | Some result => mret (Some result)
      | None =>
          condition ← index_condition where_expr;
          match condition with
          | None => mret None
          | Some (col, lookup) =>
              s ← st_get;
              match matching_index name col (engine_rest (vm_rest s)) with
              | None => _ ← on_index (record_full_scan_access name col); mret None
              | Some idx =>
                  t ← get_table name;
                  if prefers_full_scan name col lookup s then _ ← on_index (record_full_scan_access name col); mret None
                  else rows ← on_index (index_rows name t idx lookup); mret (Some (rows, col_names t))
              end
          end
      end
  | _ => mret None
  end.

(** *** UPDATE and DELETE *)

(** [try_dml_index_rowids] *)
Definition try_dml_index_rowids (name : string) (where_expr : SExpr') : ST V (option (list Z)) :=
  condition ← index_condition where_expr;
  match condition with
  | None => mret None
  | Some (col, lookup) =>
      s ← st_get;
      match matching_index name col (engine_rest (vm_rest s)) with
      | None => mret None
      | Some idx => rowids ← on_index (index_lookup idx lookup); mret (Some rowids)
      end
  end.
(** The column map of UPDATE and DELETE. *)
Definition dml_col_map (columns : list ColumnInfo) : ColMap := build_col_map (map column_name columns).
Definition satisfies (where_clause : option SExpr') (col_map : ColMap) (row : Row) : ST V bool :=
  match where_clause with Some e => v ← eval_expr row col_map e; mret (is_truthy v) | None => mret true end.
(** [rowids_to_delete] *)
Definition rowids_to_delete (name : string) (root : Z) (col_map : ColMap) (where_clause : option SExpr') : ST V (list Z) :=
  index_rowids ← match where_clause with Some e => try_dml_index_rowids name e | None => mret None end;
  match index_rowids with
  | Some rowids => mret rowids
  | None =>
      all_rows ← on_index (on_trees (tree_scan_all name root));
      st_flat_map (λ '(rowid, row), ok ← satisfies where_clause col_map row; mret (if ok : bool then [rowid] else [])) all_rows
  end.
(** [rows_to_update]: the id, the row and the row after the assignments. *)
Definition assign (assignments : list (nat * SExpr')) (col_map : ColMap) (row : Row) : ST V Row :=
  (fix go (l : list (nat * SExpr')) (new_row : Row) : ST V Row :=
     match l with
     | [] => mret new_row
     | (i, e) :: l' =>
         v ← eval_expr row col_map e;
         if bool_decide (i < length new_row)%nat then go l' (<[i := v]> new_row) else st_lift Panic
     end) assignments row.
Definition rows_to_update (name : string) (root : Z) (assignments : list (nat * SExpr')) (col_map : ColMap) (where_clause : option SExpr')
    : ST V (list (Z * Row * Row)) :=
  index_rowids ← match where_clause with Some e => try_dml_index_rowids name e | None => mret None end;
  match index_rowids with
  | Some rowids =>
      fetched ← on_index (fetch_rows_by_rowids name root rowids);
      mapM (λ '(rid, row), new_row ← assign assignments col_map row; mret (rid, row, new_row)) fetched
  | None =>
      all_rows ← on_index (on_trees (tree_scan_all name root));
      st_flat_map (λ '(rid, row),
        ok ← satisfies where_clause col_map row;
        if ok : bool then new_row ← assign assignments col_map row; mret [(rid, row, new_row)] else mret []) all_rows
  end.
End Scan.

(** ** Lemmas: what the index finds *)

(** The values a lookup selects in the index, and those for which its
    condition is true. *)
Definition lookup_hits (l : Lookup) (v : Value) : bool :=
  match l with
  | LEq w => negb (is_null w) && bool_decide (index_eq_key v = index_eq_key w)
  | LIn ws => existsb (λ w, bool_decide (index_eq_key v = index_eq_key w)) ws
  | LComparison op w => negb (is_null w) && if decide (op = Equal) then bool_decide (index_eq_key v = index_eq_key w) else in_range op w v
  | LBetween low high =>
      negb (is_null low || is_null high || bool_decide (cmp_value_total low high = Gt))
      && (in_range GreaterThanOrEqual low v && in_range LessThanOrEqual high v)
  end.
Definition condition_holds `{StdFns} (l : Lookup) (v : Value) : bool :=
  match l with
  | LEq w => is_truthy (apply_binary_op Equal v w)
  | LIn ws => negb (is_null v) && existsb (value_eq v) ws
  | LComparison op w => is_truthy (apply_binary_op op v w)
  | LBetween low high => is_truthy (between v low high false)
  end.
Definition lookup_values (l : Lookup) : list Value :=
  match l with LEq v | LComparison _ v => [v] | LIn vs => vs | LBetween low high => [low; high] end.

(** A double that is a bit pattern, and not the negative zero. *)
Definition plain_value (v : Value) : Prop := match v with VReal b => is_u64 b ∧ b ≠ 2 ^ 63 | _ => True end.
Lemma bits_split b : is_u64 b →
  b = 2 ^ 63 * Z.b2z (Z.testbit b 63) + 2 ^ 52 * Z.land (Z.shiftr b 52) 2047 + Z.land b (Z.ones 52)
  ∧ 0 ≤ Z.land (Z.shiftr b 52) 2047 < 2048 ∧ 0 ≤ Z.land b (Z.ones 52) < 2 ^ 52.
Proof.
  unfold is_u64. intros Hb. change 2047 with (Z.ones 11). rewrite !Z.land_ones, Z.shiftr_div_pow2 by lia.
  rewrite Z.testbit_spec' by lia. Z.to_euclidean_division_equations. lia.
Qed.
Lemma f64_of_bits_inj a b : is_u64 a → is_u64 b → f64_of_bits a = f64_of_bits b → f64_of_bits a ≠ SpecFloat.S754_nan → a = b.
Proof.
  intros Ha Hb He Hn. destruct (bits_split a Ha) as (Ea & Hea & Hma), (bits_split b Hb) as (Eb & Heb & Hmb).
  rewrite Ea, Eb. unfold f64_of_bits in He, Hn. cbv zeta in He, Hn. clear Ea Eb Ha Hb.
  set (s1 := Z.testbit a 63) in *. set (s2 := Z.testbit b 63) in *. clearbody s1 s2.
  set (e1 := Z.land (Z.shiftr a 52) 2047) in *. set (e2 := Z.land (Z.shiftr b 52) 2047) in *. clearbody e1 e2.
  set (m1 := Z.land a (Z.ones 52)) in *. set (m2 := Z.land b (Z.ones 52)) in *. clearbody m1 m2.
  destruct (Z.eqb_spec e1 2047), (Z.eqb_spec e2 2047).
  - destruct (Z.eqb_spec m1 0), (Z.eqb_spec m2 0); try done. injection He as ->. lia.
  - exfalso. destruct (Z.eqb_spec m1 0); [|done]. destruct (Z.eqb_spec e2 0); [by destruct m2|]. by destruct (m2 + 2 ^ 52).
  - exfalso. destruct (Z.eqb_spec m2 0); destruct (Z.eqb_spec e1 0); try (by destruct m1); by destruct (m1 + 2 ^ 52).
  - destruct (Z.eqb_spec e1 0) as [->|He1], (Z.eqb_spec e2 0) as [->|He2].
    + destruct m1 as [|p|p], m2 as [|q|q]; try lia; try done; injection He; intros; subst; lia.
    + destruct (m2 + 2 ^ 52) as [|q|q] eqn:Eq; try lia. destruct m1 as [|p|p]; try lia; try done. injection He. intros. subst. lia.
    + destruct (m1 + 2 ^ 52) as [|q|q] eqn:Eq; try lia. destruct m2 as [|p|p]; try lia; try done. injection He. intros. subst. lia.
    + destruct (m1 + 2 ^ 52) as [|p|p] eqn:Ep, (m2 + 2 ^ 52) as [|q|q] eqn:Eq; try lia. injection He. intros. subst. lia.
Qed.
Lemma f64_key_inj f g : f ≠ SpecFloat.S754_nan → f64_key f = f64_key g → f = g ∨ (∃ s t, f = SpecFloat.S754_zero s ∧ g = SpecFloat.S754_zero t).
Proof.
  destruct f as [s|[]| |[] m e], g as [t|[]| |[] m' e']; cbn [f64_key]; intros Hf E; try done; try (by left); try (by right; eauto); left.
  all: injection E; intros; f_equal; lia.
Qed.
Lemma plain_zero b : is_u64 b → ∀ s, f64_of_bits b = SpecFloat.S754_zero s → b = if s then 2 ^ 63 else 0.
Proof.
  intros Hb s E. apply f64_of_bits_inj; [done|by destruct s| |by rewrite E]. rewrite E. by destruct s.
Qed.
(** Equal values have the same key in the index. *)
Lemma value_eq_key reals v w : comparable reals v → comparable reals w → plain_value v → plain_value w →
  value_eq v w = true → index_eq_key v = index_eq_key w.
Proof.
  destruct v as [|x|x|x|x], w as [|y|y|y|y]; cbn [comparable plain_value value_eq]; intros Hv Hw Pv Pw; try done.
  - by intros ->%Z.eqb_eq.
  - by destruct Hw; congruence.
  - by destruct Hv; congruence.
  - unfold SpecFloat.SFeqb. destruct Hv as [_ Hv], Hw as [_ Hw], Pv as [Px Nx], Pw as [Py Ny]. rewrite SFcompare_key by done.
    destruct (bytes_cmp _ _) eqn:E; [|done..]. intros _. apply bytes_cmp_eq in E.
    apply f64_key_inj in E as [E|(s & t & E1 & E2)]; [..|done].
    + f_equal. by apply f64_of_bits_inj in E as ->.
    + apply plain_zero in E1, E2; [|done..]. destruct s, t; subst; done.
  - by intros ->%bool_decide_eq_true.
  - by intros ->%bool_decide_eq_true.
Qed.

Section Hits.
Context `{StdFns} (reals : bool).

Lemma truthy_VBool b : is_truthy (VBool b) = b.
Proof. by destruct b. Qed.
Lemma op_null op v w : is_null v || is_null w = true → op ≠ And → op ≠ Or → is_truthy (apply_binary_op op v w) = false.
Proof. intros Hn Ha Ho. unfold apply_binary_op. rewrite Hn. by destruct op. Qed.
Lemma comparison_in_range op v w : comparable reals v → comparable reals w → op ∈ [LessThan; LessThanOrEqual; GreaterThan; GreaterThanOrEqual] →
  is_truthy (apply_binary_op op v w) = negb (is_null v || is_null w) && in_range op w v.
Proof.
  intros Hv Hw Hop. destruct (is_null v || is_null w) eqn:En; cbn [negb andb].
  { apply op_null; [done|..]; set_solver. }
  unfold apply_binary_op. rewrite En. unfold cmp_is, cmp_is_not, in_range, cmp_value_total. rewrite (partial_cmp_key reals v w) by done. cbn [default from_option id].
  destruct op; try (exfalso; set_solver); rewrite truthy_VBool; try done; apply bool_decide_ext; split; congruence.
Qed.
(** The index finds at least the entries that satisfy the condition. *)
Lemma hits_complete l v : comparable reals v → plain_value v → Forall (comparable reals) (lookup_values l) → Forall plain_value (lookup_values l) →
  (∀ op w, l = LComparison op w → op ∈ [LessThan; LessThanOrEqual; GreaterThan; GreaterThanOrEqual]) →
  condition_holds l v = true → lookup_hits l v = true.
Proof.
  intros Hv Pv Hl Pl Hop. destruct l as [w|ws|op w|low high]; cbn [condition_holds lookup_hits lookup_values] in *.
  - rewrite Forall_singleton in Hl, Pl. destruct (is_null v || is_null w) eqn:En; [by rewrite op_null by done|].
    unfold apply_binary_op. rewrite En, truthy_VBool. intros He. apply orb_false_iff in En as [_ ->].
    apply bool_decide_eq_true. by apply (value_eq_key reals).
  - intros [_ Hx]%andb_true_iff. apply existsb_exists in Hx as (w & Hw & He). apply existsb_exists. exists w. split; [done|].
    rewrite Forall_forall in Hl, Pl. apply list_elem_of_In in Hw. apply bool_decide_eq_true. apply (value_eq_key reals); auto.
  - rewrite Forall_singleton in Hl. specialize (Hop op w eq_refl). rewrite comparison_in_range by done.
    intros [[_ Hn]%negb_true_iff%orb_false_iff Hr]%andb_true_iff. rewrite Hn. cbn [negb andb]. rewrite decide_False; [done|].
    intros ->. set_solver.
  - rewrite Forall_cons, Forall_singleton in Hl. destruct Hl as [Hl Hh]. unfold between.
    destruct (is_null v || is_null low || is_null high) eqn:En; [done|]. rewrite truthy_VBool, xorb_false_r.
    apply orb_false_iff in En as [[_ Enl]%orb_false_iff Enh]. rewrite Enl, Enh. unfold cmp_is_not, in_range, cmp_value_total.
    rewrite !(partial_cmp_key reals) by done. cbn [default from_option id orb]. intros [H1%bool_decide_eq_true H2%bool_decide_eq_true]%andb_true_iff.
    rewrite !andb_true_iff, negb_true_iff, bool_decide_eq_false, !bool_decide_eq_true. split_and!; [|done|done].
    intros Hgt. pose proof (bytes_cmp_trans (value_key low) (value_key v) (value_key high)) as Ht. rewrite Hgt in Ht. apply Ht; [|done|done].
    rewrite bytes_cmp_antisym. by destruct (bytes_cmp (value_key v) (value_key low)).
Qed.
End Hits.

(** ** Lemmas: the row ids of a lookup *)

Lemma first_seen_spec seen l : NoDup (first_seen seen l) ∧ ∀ x, x ∈ first_seen seen l ↔ x ∈ l ∧ x ∉ seen.
Proof.
  revert seen. induction l as [|r l IH]; intros seen; cbn [first_seen]; [split; [constructor|set_solver]|]. case_bool_decide as Hr.
  - destruct (IH seen) as [Hd Hm]. split; [done|]. intros x. rewrite Hm. set_solver.
  - destruct (IH ({[r]} ∪ seen)) as [Hd Hm]. split.
    + constructor; [|done]. rewrite Hm. set_solver.
    + intros x. rewrite elem_of_cons, Hm. destruct (decide (x = r)); set_solver.
Qed.
Lemma nodup_rids_filter (p : Entry → bool) E : NoDup (map (λ e : Entry, e.1.2) E) → NoDup (map (λ e : Entry, e.1.2) (List.filter p E)).
Proof.
  induction E as [|e E IH]; [done|]. cbn [map List.filter]. intros [Hn Hd]%NoDup_cons. destruct (p e); [|by apply IH]. cbn [map].
  constructor; [|by apply IH]. intros (x & Ex & Hx)%list_elem_of_fmap. apply Hn. rewrite list_elem_of_In, filter_In, <- list_elem_of_In in Hx.
  apply list_elem_of_fmap. exists x. split; [exact Ex|apply Hx].
Qed.

Section IndexLookup.
Context {T : Type} `{StdFns} `{TreeReads T} (reals : bool) (F : Forest).
Abbreviation rids_where p E := (map (λ e : Entry, e.1.2) (List.filter p E)).

Lemma lookup_in_spec idx vs (s : IxState T) E : index_at reals F idx s E →
  ∃ rids s', st_flat_map (index_rowids_for_value idx) vs s = (Ok rids, s') ∧ index_at reals F idx s' E ∧ same_but idx s s'
    ∧ ∀ t, t ∈ rids ↔ ∃ v, v ∈ vs ∧ t ∈ rids_where (by_value v) E.
Proof.
  revert s. induction vs as [|v vs IH]; intros s Ha.
  { exists [], s. split_and!; [done|done|apply same_but_refl|]. intros t. split; [by intros ?%elem_of_nil|]. by intros (v & ?%elem_of_nil & _). }
  destruct (index_rowids_for_value_spec reals F idx s E v Ha) as (rids1 & s1 & Hs1 & Ha1 & Hsame1 & Hp1).
  destruct (IH s1 Ha1) as (rids & s2 & Hs2 & Ha2 & Hsame2 & Hm). eexists _, s2. cbn [st_flat_map].
  rewrite ST_bind_unfold, Hs1, ST_bind_unfold, Hs2. split; [done|]. split; [done|]. split; [by eapply same_but_trans|]. intros t.
  rewrite elem_of_app, Hm, Hp1. setoid_rewrite elem_of_cons. naive_solver.
Qed.
Lemma index_lookup_spec idx l (s : IxState T) E : index_at reals F idx s E → Forall (comparable reals) (lookup_values l) →
  ∃ rids s', index_lookup idx l s = (Ok rids, s') ∧ index_at reals F idx s' E ∧ same_but idx s s'
    ∧ NoDup rids ∧ rids ≡ₚ rids_where (λ e, lookup_hits l e.1.1) E.
Proof.
  intros Ha Hl. pose proof (ia_entries _ _ _ _ _ Ha) as [_ Hd].
  assert (∀ rids p, rids ≡ₚ rids_where p E → NoDup rids ∧ rids ≡ₚ rids_where p E) as Hnd.
  { intros rids p Hp. split; [|done]. rewrite Hp. by apply nodup_rids_filter. }
  destruct l as [w|ws|op w|low high]; cbn [index_lookup lookup_hits lookup_values] in *.
  - destruct (is_null w); cbn [negb andb].
    + exists [], s. split_and!; [done|done|apply same_but_refl|constructor|]. by rewrite filter_nothing.
    + destruct (index_rowids_for_value_spec reals F idx s E w Ha) as (rids & s' & Hs & Ha' & Hsame & Hp).
      destruct (Hnd _ _ Hp) as [Hn1 Hn2]. exists rids, s'. by split_and!.
  - destruct (lookup_in_spec idx ws s E Ha) as (rids & s' & Hs & Ha' & Hsame & Hm). eexists _, s'.
    rewrite ST_bind_unfold, Hs. destruct (first_seen_spec ∅ rids) as [Hf Hfm]. split_and!; [done..|].
    apply NoDup_Permutation; [done|by apply nodup_rids_filter|]. intros t. rewrite Hfm, Hm, list_elem_of_fmap.
    setoid_rewrite list_elem_of_fmap. setoid_rewrite list_elem_of_In. setoid_rewrite filter_In. setoid_rewrite existsb_exists.
    unfold by_value. split; [intros [(v & Hv & e & He & Hin & Hb) _]; exists e; eauto|].
    intros (e & He & Hin & v & Hv & Hb). split; [exists v; eauto|set_solver].
  - rewrite Forall_singleton in Hl. destruct (index_rowids_for_comparison_spec reals F idx s E op w Ha Hl) as (rids & s' & Hs & Ha' & Hsame & Hp).
    destruct (Hnd _ _ Hp) as [Hn1 Hn2]. exists rids, s'. by split_and!.
  - rewrite Forall_cons, Forall_singleton in Hl.
    destruct (index_rowids_for_between_spec reals F idx s E low high Ha) as (rids & s' & Hs & Ha' & Hsame & Hp); [apply Hl..|].
    destruct (Hnd _ _ Hp) as [Hn1 Hn2]. exists rids, s'. by split_and!.
Qed.
End IndexLookup.

(** ** Lemmas: conditions *)

Section Conditions.
Context `{StdFns} (reals : bool).

(** The lookup is made of values of the kind of the index, and the column
    value is told apart from them by its key. *)
Definition lookup_op_ok (l : Lookup) : Prop :=
  ∀ op w, l = LComparison op w → op ∈ [LessThan; LessThanOrEqual; GreaterThan; GreaterThanOrEqual].
Definition lookup_ok (l : Lookup) : Prop :=
  Forall (comparable reals) (lookup_values l) ∧ Forall plain_value (lookup_values l) ∧ lookup_op_ok l.
Definition told_apart (l : Lookup) (v : Value) : Prop :=
  is_null v = false ∧ ∀ w, w ∈ lookup_values l → is_null w = false → index_eq_key v = index_eq_key w → value_eq v w = true.
Lemma hits_exact l v : comparable reals v → plain_value v → lookup_ok l → told_apart l v →
  (∀ vs, l = LIn vs → Forall (λ w, is_null w = false) vs) → lookup_hits l v = condition_holds l v.
Proof.
  intros Hv Pv (Hl & Pl & Hop) [Hn Ht] Hin. destruct (lookup_hits l v) eqn:Eh; symmetry.
  2: { destruct (condition_holds l v) eqn:Ec; [|done]. by rewrite (hits_complete reals l v) in Eh. }
  destruct l as [w|ws|op w|low high]; cbn [condition_holds lookup_hits lookup_values] in *.
  - apply andb_true_iff in Eh as [Ew%negb_true_iff Ek%bool_decide_eq_true]. unfold apply_binary_op. rewrite Hn, Ew. cbn [orb].
    rewrite truthy_VBool. apply Ht; [set_solver|done..].
  - rewrite Hn. cbn [negb andb]. apply existsb_exists in Eh as (w & Hw & Ek%bool_decide_eq_true). apply existsb_exists. exists w. split; [done|].
    apply list_elem_of_In in Hw. apply Ht; [done| |done]. specialize (Hin ws eq_refl). rewrite Forall_forall in Hin. by apply Hin.
  - rewrite Forall_singleton in Hl. specialize (Hop op w eq_refl). rewrite (comparison_in_range reals) by done. rewrite Hn. cbn [orb].
    rewrite decide_False in Eh by (intros ->; set_solver). exact Eh.
  - rewrite Forall_cons, Forall_singleton in Hl. destruct Hl as [Hl Hh]. unfold between, cmp_is_not. rewrite Hn, !(partial_cmp_key reals) by done. cbn [orb].
    apply andb_true_iff in Eh as [[En _]%negb_true_iff%orb_false_iff Eh]. rewrite En, truthy_VBool, xorb_false_r.
    unfold in_range, cmp_value_total in Eh. rewrite !(partial_cmp_key reals) in Eh by done. exact Eh.
Qed.

(** The condition with its sides exchanged. *)
Lemma value_eq_sym v w : value_eq v w = value_eq w v.
Proof.
  assert (∀ f g, SpecFloat.SFeqb f g = SpecFloat.SFeqb g f) as Hf.
  { intros [s|s| |s m e] [t|t| |t m' e']; try done; try (by destruct s, t); try (by destruct s); try (by destruct t).
    unfold SpecFloat.SFeqb, SpecFloat.SFcompare. rewrite (Z.compare_antisym e e').
    change (PosDef.Pos.compare_cont Eq m m') with (m ?= m')%positive. change (PosDef.Pos.compare_cont Eq m' m) with (m' ?= m)%positive.
    rewrite (Pos.compare_antisym m m'). destruct s, t, (e ?= e'), (m ?= m')%positive; done. }
  destruct v, w; cbn [value_eq]; first [reflexivity|apply Hf|apply Z.eqb_sym|by apply bool_decide_ext].
Qed.
Lemma flip_holds op op' v w : comparable reals v → comparable reals w → flip_comparison_operator op = Some op' →
  is_truthy (apply_binary_op op w v) = is_truthy (apply_binary_op op' v w).
Proof.
  intros Hv Hw Hf. destruct (decide (op = Equal)) as [->|Hne].
  - injection Hf as <-. unfold apply_binary_op. rewrite orb_comm, value_eq_sym. done.
  - assert (op ∈ [LessThan; LessThanOrEqual; GreaterThan; GreaterThanOrEqual]) as Ho by (destruct op; try done; set_solver).
    rewrite !(comparison_in_range reals) by (done || destruct op; try done; injection Hf as <-; set_solver).
    rewrite orb_comm. f_equal. pose proof (total_antisym _ _ (cmp_value_total_on reals) v w Hv Hw) as Ha.
    destruct op; try done; injection Hf as <-; cbn [in_range]; apply bool_decide_ext; rewrite Ha; by destruct (cmp_value_total v w).
Qed.
End Conditions.
