(* ===== verification/IndexUpkeep.v ===== *)
(** The upkeep of the indexes of a table (src/src/vm/exec_dml.rs): the entries
    a row adds and removes keep every index a mirror of the table, and the
    search for a conflict decides UNIQUE. *)
From S2P Require Import Prelude Values Text Expr ExprTypes BTreeTree RowOps Aggregates Window Select IndexCache IndexScan.

(** ** What writing the trees relies on

    A write that succeeds changes the rows under one root, which may move to a
    page that held no tree. *)
Class TreeWrites (T : Type) `{TreeReads T} `{CatalogRoots T} := {
  tree_max_law t F table root r t' : trees_rep t F → tree_max_rowid table root t = (r, t') → trees_rep t' F;
  tree_insert_law t F table root rid row rows root' t' :
    trees_rep t F → F !! tree_key table root = Some rows → tree_insert table root rid row t = (Ok root', t') →
    (root' = root ∨ F !! tree_key table root' = None) ∧
    ∃ rows', rows' ≡ₚ rows ++ [(rid, row)] ∧ trees_rep t' (<[tree_key table root' := rows']> (delete (tree_key table root) F));
  tree_delete_law t F table root rid rows b root' t' :
    trees_rep t F → F !! tree_key table root = Some rows → tree_delete table root rid t = (Ok (b, root'), t') →
    (root' = root ∨ F !! tree_key table root' = None) ∧
    trees_rep t' (<[tree_key table root' := filter (λ r, r.1 ≠ rid) rows]> (delete (tree_key table root) F));
  update_root_law t F name root r t' : trees_rep t F → update_object_root name root t = (r, t') → trees_rep t' F;
}.

(** Lists that are equal are permutations of each other. *)
Ltac perm_eq := match goal with |- ?a ≡ₚ ?b => cut (a = b); [by intros ->|] end.

Section Upkeep.
Context {T : Type} `{StdFns} `{TreeWrites T}.

Definition with_root (root : Z) (idx : IndexSchema) : IndexSchema :=
  mkIndex (index_name idx) (index_table idx) (index_columns idx) root (unique idx) (is_fts idx).
Definition index_tree (idx : IndexSchema) : string * Z := tree_key (index_table idx) (index_root idx).
(** The value an index keeps of a row. *)
Definition index_cell (columns : list ColumnInfo) (idx : IndexSchema) (row : Row) : Value := default VNull (head (index_key columns idx row)).
(** The index on [columns] has its first column, and an entry for every row. *)
Record mirrors (reals : bool) (F : Forest) (columns : list ColumnInfo) (x : IxState T) (R : list (Z * Row)) (idx : IndexSchema) (E : list Entry)
    : Prop := mkMirrors {
  mi_at : index_at reals F idx x E;
  mi_key row : index_key columns idx row ≠ [];
  mi_rows : map fst E ≡ₚ map (λ r : Z * Row, (index_cell columns idx r.2, r.1)) R;
}.

(** ** Steps on one index *)

(** A write to the tree of [idx] that may have moved it: the forest, and the
    state apart from the caches of [idx]. *)
Definition moved (idx : IndexSchema) (root' : Z) (rows' : list (Z * Row)) (F : Forest) : Forest :=
  <[tree_key (index_table idx) root' := rows']> (delete (index_tree idx) F).
Record wrote (table : string) (idx : IndexSchema) (root' : Z) (F F' : Forest) (x x' : IxState T) : Prop := mkWrote {
  wr_forest : ∃ rows', F' = moved idx root' rows' F;
  wr_root : root' = index_root idx ∨ F !! tree_key (index_table idx) root' = None;
  wr_indexes : indexes x' = if root' =? index_root idx then indexes x else alter (with_root root') (cache_key idx) (indexes x);
  wr_by_table : indexes_by_table x' = indexes_by_table x;
  wr_columns : table_columns x' = table_columns x;
  wr_eq k : k ≠ cache_key idx → index_eq_cache x' !! k = index_eq_cache x !! k;
  wr_rowid k : k ≠ cache_key idx → index_rowid_cache x' !! k = index_rowid_cache x !! k;
  wr_ordered k : k ≠ cache_key idx → index_ordered_cache x' !! k = index_ordered_cache x !! k;
  wr_rep : trees_rep (trees x') F';
}.
Lemma with_root_self idx : with_root (index_root idx) idx = idx.
Proof. by destruct idx. Qed.
(** Indexes with other names and other trees are not touched. *)
Lemma wrote_frame table idx root' F F' x x' reals idx2 E2 : wrote table idx root' F F' x x' → index_at reals F idx2 x E2 →
  cache_key idx2 ≠ cache_key idx → index_tree idx2 ≠ index_tree idx → index_at reals F' idx2 x' E2.
Proof.
  intros [(rows' & ->) Hroot _ _ _ He Hr Ho Hrep] [_ (rows & Hrows & HE) Hok Hc] Hk Ht. split; [done| |done|].
  - exists rows. split; [|done]. unfold moved, index_tree in *. rewrite lookup_insert_ne, lookup_delete_ne by done || (intros E;
      destruct Hroot as [->|Hf]; congruence). done.
  - unfold cached in *. by rewrite He, Hr, Ho.
Qed.

(** *** The search for a conflict *)

Definition conflicts (key : list Value) (ignore : option Z) (row : Row) : bool :=
  bool_decide (length key + 1 ≤ length row)%nat && forallb (λ '(a, b), value_eq a b) (zip row key)
  && match last row with Some (VInteger existing) => negb (bool_decide (Some existing = ignore)) | _ => true end.
Definition conflict_at (rows : list (Z * Row)) (key : list Value) (ignore : option Z) (i : Z) : bool :=
  match row_lookup i rows with Some r => conflicts key ignore r.2 | None => false end.
Lemma conflict_scan_spec F idx key ignore rows l (x : IxState T) : trees_rep (trees x) F → F !! index_tree idx = Some rows →
  ∃ t', conflict_scan idx key ignore l x = (Ok (existsb (conflict_at rows key ignore) l), set_trees t' x) ∧ trees_rep t' F.
Proof.
  intros Hrep Hrows. revert x Hrep. induction l as [|i l IH]; intros x Hrep; [exists (trees x); by destruct x|].
  cbn [conflict_scan existsb]. destruct (tree_find_law _ _ _ _ i _ Hrep Hrows) as (t1 & Hf & Hrep1).
  destruct (IH (set_trees t1 x) Hrep1) as (t2 & Hs & Hrep2). rewrite ST_bind_unfold. unfold on_trees. rewrite Hf. unfold conflict_at at 1, conflicts.
  destruct (row_lookup i rows) as [[j row]|]; [|by exists t2]. cbn [snd].
  case_bool_decide as Hlen; [rewrite bool_decide_false by lia; by exists t2|]. rewrite bool_decide_true by lia. cbn [andb].
  destruct (forallb _ (zip row key)); cbn [negb andb]; [|by exists t2].
  destruct (last row) as [[]|]; try by exists t1. case_bool_decide; cbn [negb orb]; [by exists t2|by exists t1].
Qed.
Lemma candidate_spec reals F idx ignore t (x : IxState T) E : index_at reals F idx x E →
  ∃ o x', candidate_entry idx ignore t x = (Ok o, x') ∧ index_at reals F idx x' E ∧ same_but idx x x'
    ∧ ∀ i, i ∈ o ↔ Some t ≠ ignore ∧ ∃ v, (v, t, i) ∈ E.
Proof.
  intros Ha. unfold candidate_entry. case_bool_decide as Hig.
  { exists [], x. split_and!; [done|done|apply same_but_refl|]. intros i. split; [by intros ?%elem_of_nil|by intros []]. }
  destruct (index_entry_rowid_spec reals F idx x E t Ha) as (o & x1 & Hs1 & Ha1 & Hsame1 & _ & Ho).
  eexists _, x1. rewrite ST_bind_unfold, Hs1. split_and!; [done..|]. intros i. rewrite <- Ho. destruct o as [i'|].
  - rewrite list_elem_of_singleton. naive_solver.
  - split; [by intros ?%elem_of_nil|by intros []].
Qed.
Lemma candidates_spec reals F idx ignore l (x : IxState T) E : index_at reals F idx x E →
  ∃ irids x', st_flat_map (candidate_entry idx ignore) l x = (Ok irids, x') ∧ index_at reals F idx x' E ∧ same_but idx x x'
    ∧ ∀ i, i ∈ irids ↔ ∃ v t, t ∈ l ∧ Some t ≠ ignore ∧ (v, t, i) ∈ E.
Proof.
  revert x. induction l as [|t l IH]; intros x Ha.
  { exists [], x. split_and!; [done|done|apply same_but_refl|]. intros i. split; [by intros ?%elem_of_nil|]. by intros (? & ? & ?%elem_of_nil & _). }
  destruct (candidate_spec reals F idx ignore t x E Ha) as (o & x1 & Hs1 & Ha1 & Hsame1 & Ho).
  destruct (IH x1 Ha1) as (irids & x' & Hs & Ha' & Hsame & Hm). eexists _, x'. cbn [st_flat_map].
  rewrite ST_bind_unfold, Hs1, ST_bind_unfold, Hs.
  split; [done|]. split; [done|]. split; [by eapply same_but_trans|]. intros i. rewrite elem_of_app, Hm, Ho. setoid_rewrite elem_of_cons. naive_solver.
Qed.
Lemma conflict_exists_spec reals F idx v0 key ignore (x : IxState T) E rows : index_at reals F idx x E → F !! index_tree idx = Some rows →
  ∃ b x', unique_index_conflict_exists idx (v0 :: key) ignore x = (Ok b, x') ∧ index_at reals F idx x' E ∧ same_but idx x x'
    ∧ (b = true ↔ ∃ v t i, (v, t, i) ∈ E ∧ index_eq_key v = index_eq_key v0 ∧ Some t ≠ ignore ∧ conflict_at rows (v0 :: key) ignore i = true).
Proof.
  intros Ha Hrows. destruct (index_rowids_for_value_spec reals F idx x E v0 Ha) as (cands & x1 & Hs1 & Ha1 & Hsame1 & Hp).
  destruct (candidates_spec reals F idx ignore cands x1 E Ha1) as (irids & x2 & Hs2 & Ha2 & Hsame2 & Hm).
  destruct (conflict_scan_spec F idx (v0 :: key) ignore rows irids x2 (ia_rep _ _ _ _ _ Ha2) Hrows) as (t' & Hs3 & Hrep).
  eexists _, _. unfold unique_index_conflict_exists. rewrite ST_bind_unfold, Hs1, ST_bind_unfold, Hs2, Hs3. split; [done|].
  split; [destruct Ha2; by split|]. split; [eapply same_but_trans; [done|]; destruct Hsame2; by split|].
  rewrite existsb_exists. split.
  - intros (i & Hi%list_elem_of_In & Hc). apply Hm in Hi as (v & t & Ht & Hn & Hin). rewrite Hp, list_elem_of_fmap in Ht.
    destruct Ht as ([[w u] j] & -> & He). rewrite list_elem_of_In, filter_In, <- list_elem_of_In in He. destruct He as [He Hk%bool_decide_eq_true].
    cbn [fst snd] in *. assert (w = v) as ->; [|by eauto 8].
    destruct (ia_entries _ _ _ _ _ Ha) as [_ Hd]. clear -Hd Hin He. induction E as [|e E IH]; [by apply elem_of_nil in He|].
    cbn [map] in Hd. apply NoDup_cons in Hd as [Hx Hd]. apply elem_of_cons in Hin, He. destruct Hin as [<-|Hin], He as [E2|He]; [congruence| | |by apply IH].
    + destruct Hx. apply list_elem_of_fmap. by exists (w, u, j).
    + subst e. destruct Hx. apply list_elem_of_fmap. by exists (v, u, i).
  - intros (v & t & i & Hin & Hk & Hn & Hc). exists i. split; [|done]. apply list_elem_of_In, Hm. exists v, t. split; [|done].
    rewrite Hp, list_elem_of_fmap. exists (v, t, i). split; [done|]. rewrite list_elem_of_In, filter_In, <- list_elem_of_In. split; [done|].
    by apply bool_decide_eq_true.
Qed.

(** *** Adding and removing an entry *)

Lemma mirror_ids cell R (E : list Entry) : map fst E ≡ₚ map (λ r : Z * Row, (cell r.2 : Value, r.1)) R → map (λ e : Entry, e.1.2) E ≡ₚ R.*1.
Proof.
  intros Hm. transitivity (map snd (map fst E)); [by rewrite map_map|]. rewrite Hm, map_map. done.
Qed.
Lemma entry_of_key key rowid i : key ≠ [] → entry_of (i, key ++ [VInteger rowid]) = Some (default VNull (head key), rowid, i).
Proof. destruct key as [|v key]; [done|]. intros _. unfold entry_of. cbn [fst snd]. rewrite last_snoc. by destruct key. Qed.
Lemma same_wrote table idx root' F F' (x x1 x2 : IxState T) : same_but idx x x1 → wrote table idx root' F F' x1 x2 → wrote table idx root' F F' x x2.
Proof.
  intros [A1 A2 A3 A4 A5 A6] [B1 B2 B3 B4 B5 B6 B7 B8 B9]. split; [done|done|by rewrite B3, A1|by rewrite B4, A2|by rewrite B5, A3| | | |done];
    intros k Hk; by rewrite ?B6, ?B7, ?B8, ?A4, ?A5, ?A6.
Qed.
(** The check of a unique index changes nothing but the caches. *)
Lemma unique_check_spec reals F idx key ignore (x : IxState T) E : index_at reals F idx x E →
  ∃ b x', (if unique idx && negb (existsb is_null key) then unique_index_conflict_exists idx key ignore else mret false) x = (Ok b, x')
    ∧ index_at reals F idx x' E ∧ same_but idx x x'.
Proof.
  intros Ha. destruct (unique idx && negb _); [|by exists false, x; split_and!; [|done|apply same_but_refl]].
  destruct key as [|v0 key]; [by exists false, x; split_and!; [|done|apply same_but_refl]|].
  destruct (ia_tree _ _ _ _ _ Ha) as (rows & Hrows & _).
  destruct (conflict_exists_spec reals F idx v0 key ignore x E rows Ha Hrows) as (b & x' & Hs & Ha' & Hsame & _). by exists b, x'.
Qed.
Lemma max_spec F table root (x x' : IxState T) m : trees_rep (trees x) F → or_zero (on_trees (tree_max_rowid table root)) x = (Ok m, x') →
  ∃ t', x' = set_trees t' x ∧ trees_rep t' F.
Proof.
  intros Hrep. unfold or_zero, on_trees. destruct (tree_max_rowid table root (trees x)) as [r t'] eqn:Er.
  intros E. exists t'. split; [by destruct r; simplify_eq|]. by eapply tree_max_law.
Qed.
Lemma update_root_spec F name root (x x' : IxState T) : trees_rep (trees x) F → ignore_error (on_trees (update_object_root name root)) x = (Ok tt, x') →
  ∃ t', x' = set_trees t' x ∧ trees_rep t' F.
Proof.
  intros Hrep. unfold ignore_error, on_trees. destruct (update_object_root name root (trees x)) as [r t'] eqn:Er.
  intros E. exists t'. split; [by destruct r; simplify_eq|]. by eapply update_root_law.
Qed.

Lemma insert_step reals F table rowid row columns idx (x x' : IxState T) R E : mirrors reals F columns x R idx E →
  to_ascii_lowercase table = to_ascii_lowercase (index_table idx) → rowid ∉ R.*1 → comparable reals (index_cell columns idx row) →
  insert_index_entry table rowid row columns idx x = (Ok tt, x') →
  ∃ root' F' E', wrote table idx root' F F' x x' ∧ mirrors reals F' columns x' (R ++ [(rowid, row)]) (with_root root' idx) E'.
Proof.
  intros [Ha Hkey Hm] Htab Hrowid Hcell. unfold insert_index_entry. cbv zeta.
  destruct (unique_check_spec reals F idx (index_key columns idx row) (Some rowid) x E Ha) as (b & x1 & Hs1 & Ha1 & Hsame1).
  rewrite ST_bind_unfold, Hs1. destruct b; [done|]. rewrite ST_bind_unfold.
  destruct (or_zero _ x1) as [[m| | |] x2] eqn:E2; [|done..]. destruct (max_spec F _ _ _ _ _ (ia_rep _ _ _ _ _ Ha1) E2) as (t2 & -> & Hrep2).
  rewrite ST_bind_unfold. unfold st_lift at 1. destruct (m =? 2 ^ 63 - 1); [done|]. set (i := m + 1).
  rewrite ST_bind_unfold. unfold on_trees at 1. cbn [trees set_trees].
  destruct (tree_insert table (index_root idx) i _ t2) as [[root'| | |] t3] eqn:E3; [|done..].
  destruct (ia_tree _ _ _ _ _ Ha1) as (rows & Hrows & HE).
  assert (∀ r, tree_key table r = tree_key (index_table idx) r) as Htk by (intros r; unfold tree_key; by rewrite Htab).
  rewrite <- Htk in Hrows. destruct (tree_insert_law _ _ _ _ _ _ _ _ _ Hrep2 Hrows E3) as (Hroot & rows' & Hrows' & Hrep3). rewrite !Htk in *.
  set (v := index_cell columns idx row) in *. set (F' := <[_ := rows']> _) in Hrep3.
  assert (∃ rest, index_key columns idx row = v :: rest) as [rest Ek].
  { unfold v, index_cell. destruct (index_key columns idx row) as [|w l] eqn:Ew; [by apply Hkey in Ew|by exists l]. }
  assert (entries_ok reals (E ++ [(v, rowid, i)])) as Hok.
  { destruct (ia_entries _ _ _ _ _ Ha) as [Hc Hd]. split; [by apply Forall_app_2; [|apply Forall_singleton]|].
    rewrite map_app. apply NoDup_app. split; [done|]. split; [|apply NoDup_singleton]. intros t Ht ->%list_elem_of_singleton.
    apply Hrowid. by rewrite <- (mirror_ids _ _ _ Hm). }
  set (x3 := set_trees t3 (set_trees t2 x1)).
  destruct (cached_insert reals idx x3 E v rowid i) as (Hc4 & Hsame4 & Ht4); [apply Ha1|done|].
  rewrite ST_bind_unfold. unfold st_modify at 1. rewrite Ek. set (x4 := index_cache_insert idx v rowid i x3) in *.
  assert (mirrors reals F' columns x4 (R ++ [(rowid, row)]) (with_root root' idx) (E ++ [(v, rowid, i)])) as Hmir.
  { split; [split|done|].
    - by rewrite Ht4.
    - exists rows'. split; [unfold F'; cbn; by rewrite lookup_insert_eq|]. rewrite Hrows', omap_app, HE. cbn [omap list_omap].
      by rewrite entry_of_key.
    - done.
    - exact Hc4.
    - rewrite !map_app, Hm. done. }
  assert (same_but idx x x4) as Hsame.
  { eapply same_but_trans; [exact Hsame1|]. eapply same_but_trans; [|exact Hsame4]. subst x3. destruct Hsame1; by split. }
  destruct (Z.eqb_spec root' (index_root idx)) as [Er|Hne].
  - intros [= <-]. exists root', F', (E ++ [(v, rowid, i)]). split; [|done]. destruct Hsame.
    split; [by exists rows'|done|by rewrite Er, Z.eqb_refl|done..|apply Hmir].
  - rewrite ST_bind_unfold. unfold st_modify. intros E5. apply (update_root_spec F') in E5 as (t5 & -> & Hrep5); [|apply Hmir].
    exists root', F', (E ++ [(v, rowid, i)]). split.
    + destruct Hsame as [Si ? ? ? ? ?]. split; [by exists rows'|done| |done..|exact Hrep5]. rewrite (proj2 (Z.eqb_neq _ _)) by done.
      by rewrite <- Si.
    + destruct Hmir as [[? ? ? ?] ? ?]. split; [by split|done|done].
Qed.

Lemma row_lookup_in i rows : NoDup rows.*1 → ∀ row, (i, row) ∈ rows → row_lookup i rows = Some (i, row).
Proof.
  intros Hd row Hin. apply row_lookup_elem; [|done]. intros row' Hin'. clear -Hd Hin Hin'. induction rows as [|[r0 row0] rows IH]; [by apply elem_of_nil in Hin|].
  cbn [fmap list_fmap fst] in Hd. apply NoDup_cons in Hd as [Hn Hd]. apply elem_of_cons in Hin, Hin'.
  destruct Hin as [E|Hin], Hin' as [E'|Hin']; [congruence| | |by apply IH].
  - injection E as -> ->. destruct Hn. apply list_elem_of_fmap. by exists (r0, row').
  - injection E' as -> ->. destruct Hn. apply list_elem_of_fmap. by exists (r0, row).
Qed.
Lemma entry_in_rows rows v t i : NoDup rows.*1 → (v, t, i) ∈ omap entry_of rows → ∃ row, row_lookup i rows = Some (i, row) ∧ entry_of (i, row) = Some (v, t, i).
Proof.
  intros Hd ([j row] & Hin & He)%list_elem_of_omap. assert (j = i) as ->.
  { unfold entry_of in He. cbn [fst snd] in He. repeat case_match; simplify_eq. done. }
  exists row. split; [by apply row_lookup_in|done].
Qed.
Lemma omap_entry_filter rows t i (E : list Entry) : NoDup rows.*1 → NoDup (map (λ e : Entry, e.1.2) E) → omap entry_of rows ≡ₚ E → (∃ v, (v, t, i) ∈ E) →
  omap entry_of (filter (λ r, r.1 ≠ i) rows) ≡ₚ filter (λ e, e.1.2 ≠ t) E.
Proof.
  intros Hd Hu HE [v Hv]. rewrite <- HE in Hu, Hv |- *. clear E HE.
  assert (∀ e, e ∈ omap entry_of rows → e.1.2 ≠ t ↔ e.2 ≠ i) as Hiff.
  { intros [[w u] j] Hj. cbn [fst snd]. apply entry_in_rows in Hj as (row1 & Hr1 & He1); [|done].
    pose proof Hv as (row2 & Hr2 & He2)%entry_in_rows; [|done]. split; intros Hne ->; apply Hne.
    - rewrite Hr1 in Hr2. injection Hr2 as ->. congruence.
    - assert (∀ l (a b : Entry), NoDup (map (λ e : Entry, e.1.2) l) → a ∈ l → b ∈ l → a.1.2 = b.1.2 → a = b) as Hinj.
      { clear. induction l as [|x l IH]; intros a b Hd Ha Hb He; [by apply elem_of_nil in Ha|]. cbn [map] in Hd. apply NoDup_cons in Hd as [Hn Hd].
        apply elem_of_cons in Ha, Hb. destruct Ha as [->|Ha], Hb as [->|Hb]; [done| | |by apply IH].
        - destruct Hn. rewrite He. apply list_elem_of_fmap. by exists b.
        - destruct Hn. rewrite <- He. apply list_elem_of_fmap. by exists a. }
      assert ((w, t, j) ∈ omap entry_of rows) as Hw.
      { apply list_elem_of_omap. exists (j, row1). split; [|done]. unfold row_lookup in Hr1.
        destruct (filter _ rows) as [|r0 l0] eqn:Ef; [done|]. injection Hr1 as ->.
        assert ((j, row1) ∈ filter (λ x : Z * Row, x.1 = j) rows) as [_ ?]%list_elem_of_filter by (rewrite Ef; left). done. }
      specialize (Hinj _ _ _ Hu Hw Hv eq_refl). congruence. }
  clear Hv Hu Hd. assert (∀ l : list (Z * Row), (∀ e, e ∈ omap entry_of l → e.1.2 ≠ t ↔ e.2 ≠ i) →
    omap entry_of (filter (λ r, r.1 ≠ i) l) = filter (λ e, e.1.2 ≠ t) (omap entry_of l)) as Hl; [|by rewrite Hl].
  induction l as [|[j row] l IH]; intros Hi; [done|]. rewrite filter_cons. cbn [omap list_omap fst].
  cbn [omap list_omap] in Hi. destruct (entry_of (j, row)) as [[[w u] j']|] eqn:Ee.
  - assert (j' = j) as -> by (unfold entry_of in Ee; cbn [fst snd] in Ee; repeat case_match; by simplify_eq).
    specialize (IH (λ e He, Hi e (list_elem_of_further _ _ _ He))). rewrite filter_cons. cbn [fst snd].
    pose proof (Hi (w, u, j) ltac:(left)) as Hx. cbn [fst snd] in Hx.
    destruct (decide (j ≠ i)), (decide (u ≠ t)); try tauto; cbn [omap list_omap]; rewrite ?Ee, IH; done.
  - specialize (IH Hi). destruct (decide (j ≠ i)); cbn [omap list_omap]; rewrite ?Ee; done.
Qed.
Lemma delete_step reals F table rowid columns idx (x x' : IxState T) R E : mirrors reals F columns x R idx E →
  to_ascii_lowercase table = to_ascii_lowercase (index_table idx) → rowid ∈ R.*1 →
  delete_index_entry table rowid idx x = (Ok tt, x') →
  ∃ root' F' E', wrote table idx root' F F' x x' ∧ mirrors reals F' columns x' (filter (λ r, r.1 ≠ rowid) R) (with_root root' idx) E'.
Proof.
  intros [Ha Hkey Hm] Htab Hrowid. unfold delete_index_entry.
  destruct (index_entry_rowid_spec reals F idx x E rowid Ha) as (o & x1 & Hs1 & Ha1 & Hsame1 & _ & Ho).
  assert (∃ v i, (v, rowid, i) ∈ E) as (v & i & Hin).
  { rewrite <- (mirror_ids _ _ _ Hm) in Hrowid. apply list_elem_of_fmap in Hrowid as ([[v t] i] & -> & He). by exists v, i. }
  rewrite ST_bind_unfold, Hs1, (proj2 (Ho i)) by eauto. destruct (ia_tree _ _ _ _ _ Ha1) as (rows & Hrows & HE).
  assert (∀ r, tree_key table r = tree_key (index_table idx) r) as Htk by (intros r; unfold tree_key; by rewrite Htab).
  rewrite <- Htk in Hrows. pose proof (trees_nodup _ _ _ _ (ia_rep _ _ _ _ _ Ha1) Hrows) as Hnd.
  pose proof Hin as Hin'. rewrite <- HE in Hin'. apply entry_in_rows in Hin' as (row & Hlook & Hent); [|done].
  destruct (tree_find_law _ _ _ _ i _ (ia_rep _ _ _ _ _ Ha1) Hrows) as (t2 & Hf & Hrep2). rewrite Hlook in Hf.
  rewrite ST_bind_unfold. unfold on_trees at 1. rewrite Hf, ST_bind_unfold. unfold on_trees at 1. cbn [trees set_trees].
  destruct (tree_delete table (index_root idx) i t2) as [[[b root']| | |] t3] eqn:E3; [|done..].
  destruct (tree_delete_law _ _ _ _ _ _ _ _ _ Hrep2 Hrows E3) as (Hroot & Hrep3). rewrite !Htk in *. set (rows' := filter _ rows) in *.
  set (F' := <[_ := rows']> _) in Hrep3. set (x3 := set_trees t3 (set_trees t2 x1)).
  assert (∃ rest, row = v :: rest) as [rest ->].
  { unfold entry_of in Hent. cbn [fst snd] in Hent. repeat case_match; simplify_eq. eauto. }
  assert (∀ t (y : IxState T), trees_rep t F' → y = set_trees t (if root' =? index_root idx then x3 else set_index_root idx root' x3) →
    wrote table idx root' F F' x (index_cache_delete idx v rowid y) ∧
    mirrors reals F' columns (index_cache_delete idx v rowid y) (filter (λ r, r.1 ≠ rowid) R) (with_root root' idx) (filter (λ e, e.1.2 ≠ rowid) E)) as Hfinal.
  { intros t y Hrep ->. set (y := set_trees t _). assert (cached idx y E) as Hcy.
    { pose proof (ia_cached _ _ _ _ _ Ha1) as Hc. unfold y. by destruct (root' =? index_root idx). }
    destruct (cached_delete reals idx y E v rowid i Hcy (ia_entries _ _ _ _ _ Ha) Hin) as (Hc' & [S1 S2 S3 S4 S5 S6] & Ht).
    destruct Hsame1 as [A1 A2 A3 A4 A5 A6]. split.
    - split; [by exists rows'|done| | | | | | |rewrite Ht; done].
      + rewrite S1. unfold y. destruct (root' =? index_root idx); cbn; by rewrite A1.
      + rewrite S2. unfold y. by destruct (root' =? index_root idx).
      + rewrite S3. unfold y. by destruct (root' =? index_root idx).
      + intros k Hk. rewrite S4 by done. unfold y. destruct (root' =? index_root idx); cbn; by apply A4.
      + intros k Hk. rewrite S5 by done. unfold y. destruct (root' =? index_root idx); cbn; by apply A5.
      + intros k Hk. rewrite S6 by done. unfold y. destruct (root' =? index_root idx); cbn; by apply A6.
    - destruct (ia_entries _ _ _ _ _ Ha) as [Hcmp Hdup]. split; [split|done|].
      + rewrite Ht. done.
      + exists rows'. split; [unfold F'; cbn; by rewrite lookup_insert_eq|]. unfold rows'. apply omap_entry_filter; [done..|by exists v].
      + split; [rewrite Forall_forall in Hcmp; apply Forall_forall; intros e [_ He]%list_elem_of_filter; by apply Hcmp|]. clear -Hdup. induction E as [|e E IH]; [done|]. cbn [map] in Hdup. apply NoDup_cons in Hdup as [Hn Hdup].
        rewrite filter_cons. destruct (decide _); [|by apply IH]. cbn [map]. constructor; [|by apply IH].
        intros (z & Ez & [_ Hz]%list_elem_of_filter)%list_elem_of_fmap. apply Hn. apply list_elem_of_fmap. by exists z.
      + exact Hc'.
      + transitivity (filter (λ p : Value * Z, p.2 ≠ rowid) (map fst E)).
        { perm_eq. clear. induction E as [|[[w u] j] E IH]; [done|]. cbn [map fst]. rewrite !filter_cons. cbn [fst snd].
          destruct (decide (u ≠ rowid)); cbn [map fst]; by rewrite IH. }
        rewrite Hm. perm_eq. clear. induction R as [|[u row] R IH]; [done|]. cbn [map fst snd]. rewrite !filter_cons. cbn [fst snd].
        destruct (decide (u ≠ rowid)); cbn [map fst]; by rewrite IH. }
  destruct (Z.eqb_spec root' (index_root idx)) as [Er|Hne].
  - rewrite ST_bind_unfold. unfold mret at 1, ST_ret. unfold st_modify. intros [= <-]. exists root', F', (filter (λ e, e.1.2 ≠ rowid) E).
    apply (Hfinal t3); [done|]. by destruct x1.
  - rewrite ST_bind_unfold, ST_bind_unfold. unfold st_modify at 1. unfold on_trees at 1. cbn [trees set_index_root set_indexes set_trees].
    change (trees x3) with t3.
    destruct (update_object_root (index_name idx) root' t3) as [[[]| | |] t5] eqn:E5; [|done..]. unfold st_modify. intros [= <-].
    exists root', F', (filter (λ e, e.1.2 ≠ rowid) E). apply (Hfinal t5); [exact (update_root_law _ _ _ _ _ _ Hrep3 E5)|]. done.
Qed.

(** ** All indexes of a table *)

Context (kind : string → bool) (table : string) (columns : list ColumnInfo).
(** The indexes of the table are [done ++ todo]; those in [done] mirror the
    rows [R'], those in [todo] the rows [R]. *)
Record indexed_by (F : Forest) (x : IxState T) (R' R : list (Z * Row)) (dn todo : list IndexSchema) : Prop := mkIndexedBy {
  ib_names : ∃ names, indexes_by_table x !! to_ascii_lowercase table = Some names
    ∧ Forall2 (λ n idx, n = cache_key idx ∧ indexes x !! n = Some idx) names (dn ++ todo);
  ib_keys : NoDup (map cache_key (dn ++ todo));
  ib_trees : NoDup (map index_tree (dn ++ todo));
  ib_table : Forall (λ idx, to_ascii_lowercase table = to_ascii_lowercase (index_table idx)) (dn ++ todo);
  ib_columns : table_columns x !! to_ascii_lowercase table = Some columns;
  ib_done : Forall (λ idx, ∃ E, mirrors (kind (cache_key idx)) F columns x R' idx E) dn;
  ib_todo : Forall (λ idx, ∃ E, mirrors (kind (cache_key idx)) F columns x R idx E) todo;
}.
(** Every index of the table has exactly the rows [R]. *)
Definition table_indexed (F : Forest) (x : IxState T) (R : list (Z * Row)) (l : list IndexSchema) : Prop := indexed_by F x R R l [].

Lemma mirrors_frame idx root' F F' x x' reals R idx2 E2 : wrote table idx root' F F' x x' → mirrors reals F columns x R idx2 E2 →
  cache_key idx2 ≠ cache_key idx → index_tree idx2 ≠ index_tree idx → mirrors reals F' columns x' R idx2 E2.
Proof. intros Hw [Ha Hk Hr] H1' H2'. split; [by eapply wrote_frame|done|done]. Qed.
Lemma wrote_others idx root' F F' x x' k rows : wrote table idx root' F F' x x' → k ≠ index_tree idx → F !! k = Some rows → F' !! k = Some rows.
Proof.
  intros [(rows' & ->) Hroot _ _ _ _ _ _ _] Hk Hrows. unfold moved, index_tree in *.
  rewrite lookup_insert_ne, lookup_delete_ne by done || (intros E; destruct Hroot as [->|Hf]; congruence). done.
Qed.
(** One index more is done. *)
Lemma loop_step idx root' F F' x x' R' R dn todo E' : indexed_by F x R' R dn (idx :: todo) → wrote table idx root' F F' x x' →
  mirrors (kind (cache_key idx)) F' columns x' R' (with_root root' idx) E' →
  indexed_by F' x' R' R (dn ++ [with_root root' idx]) todo.
Proof.
  intros [(names & Hn & Hnames) Hkeys Htrees Htab Hcol Hdn Htd] Hw Hmir.
  assert (∀ idx2, idx2 ∈ dn ++ todo → cache_key idx2 ≠ cache_key idx ∧ index_tree idx2 ≠ index_tree idx) as Hne.
  { intros idx2 Hin. rewrite map_app in Hkeys, Htrees. cbn [map] in Hkeys, Htrees. rewrite <- Permutation_middle in Hkeys, Htrees.
    apply NoDup_cons in Hkeys as [Hk _], Htrees as [Ht _]. rewrite <- map_app in Hk, Ht.
    split; intros E; [apply Hk|apply Ht]; rewrite <- E; apply list_elem_of_fmap; by exists idx2. }
  assert (∀ idx2, idx2 ∈ dn ++ todo → ∃ rows, F !! index_tree idx2 = Some rows) as Hin.
  { intros idx2 [Hd|Hd]%elem_of_app; [rewrite Forall_forall in Hdn; destruct (Hdn _ Hd) as [E HE]|
      apply Forall_cons in Htd as [_ Htd]; rewrite Forall_forall in Htd; destruct (Htd _ Hd) as [E HE]];
      destruct (ia_tree _ _ _ _ _ (mi_at _ _ _ _ _ _ _ HE)) as (rows & Hr & _); by exists rows. }
  assert ((dn ++ [with_root root' idx]) ++ todo = dn ++ with_root root' idx :: todo) as Eapp by (by rewrite <- app_assoc).
  split; rewrite ?Eapp.
  - exists names. split; [by rewrite (wr_by_table _ _ _ _ _ _ _ Hw)|]. rewrite (wr_indexes _ _ _ _ _ _ _ Hw).
    apply Forall2_app_inv_r in Hnames as (n1 & n2 & Hf1 & Hf2 & ->). inversion Hf2 as [|n idx0 n2' todo0 [En Ei] Hf3]; subst.
    assert (∀ names l, (∀ i, i ∈ l → i ∈ dn ++ todo) → Forall2 (λ n idx, n = cache_key idx ∧ indexes x !! n = Some idx) names l →
      Forall2 (λ n i, n = cache_key i ∧ (if root' =? index_root idx then indexes x else alter (with_root root') (cache_key idx) (indexes x)) !! n = Some i) names l) as Hkeep.
    { clear -Hne. intros names l Hl Hf. induction Hf as [|n i names l [-> Hi] _ IH]; constructor; [|apply IH; intros j Hj; apply Hl; by right].
      split; [done|]. destruct (root' =? index_root idx); [done|]. destruct (Hne i) as [Hk _]; [apply Hl; left|].
      by rewrite lookup_alter_ne by (intros E; by apply Hk). }
    apply Forall2_app; [apply Hkeep; [set_solver|done]|]. constructor; [|apply Hkeep; [set_solver|done]]. split; [done|].
    destruct (Z.eqb_spec root' (index_root idx)) as [->|_]; [by rewrite with_root_self|]. by rewrite lookup_alter_eq, Ei.
  - rewrite map_app in Hkeys |- *. exact Hkeys.
  - rewrite map_app in Htrees |- *. cbn [map] in Htrees |- *. rewrite <- Permutation_middle in Htrees |- *.
    apply NoDup_cons in Htrees as [Ht Hd]. constructor; [|done]. rewrite <- map_app. intros (i & Ei & Hi)%list_elem_of_fmap.
    destruct (wr_root _ _ _ _ _ _ _ Hw) as [->|Hf].
    + rewrite with_root_self in Ei. by apply (Hne i).
    + destruct (Hin i Hi) as [rows Hr]. rewrite <- Ei in Hr. unfold index_tree, with_root in Hr. cbn [index_table index_root] in Hr. congruence.
  - rewrite Forall_app, Forall_cons in Htab |- *. done.
  - by rewrite (wr_columns _ _ _ _ _ _ _ Hw).
  - apply Forall_app_2; [|apply Forall_singleton; by exists E'].
    rewrite Forall_forall in Hdn |- *. intros i Hi. destruct (Hdn i Hi) as [E HE]. exists E. eapply mirrors_frame; [done..| |]; apply Hne; set_solver.
  - apply Forall_cons in Htd as [_ Htd]. rewrite Forall_forall in Htd |- *. intros i Hi. destruct (Htd i Hi) as [E HE]. exists E.
    eapply mirrors_frame; [done..| |]; apply Hne; set_solver.
Qed.
Lemma loop_indexed (f : IndexSchema → ST (IxState T) unit) (P : IndexSchema → Prop) R' R :
  (∀ idx F x x' E, P idx → mirrors (kind (cache_key idx)) F columns x R idx E → to_ascii_lowercase table = to_ascii_lowercase (index_table idx) →
    f idx x = (Ok tt, x') → ∃ root' F' E', wrote table idx root' F F' x x' ∧ mirrors (kind (cache_key idx)) F' columns x' R' (with_root root' idx) E') →
  ∀ todo dn F x x', Forall P todo → indexed_by F x R' R dn todo → st_iter f todo x = (Ok tt, x') →
  ∃ F' l, table_indexed F' x' R' (dn ++ l) ∧ map (with_root 0) l = map (with_root 0) todo ∧ (trees_rep (trees x) F → trees_rep (trees x') F')
    ∧ (∀ k rows, k ∉ map index_tree todo → F !! k = Some rows → F' !! k = Some rows)
    ∧ (∀ k, k ∈ map index_tree l → k ∈ map index_tree todo ∨ F !! k = None) ∧ table_columns x' = table_columns x.
Proof.
  intros Hf. induction todo as [|idx todo IH]; intros dn F x x' HP Hib Hrun.
  - injection Hrun as <-. exists F, []. split; [|split_and!; [done..|by intros k ?%elem_of_nil|done]]. unfold table_indexed. rewrite app_nil_r. destruct Hib as [Hn Hk Ht Htab Hc Hd _].
    rewrite !app_nil_r in *. split; rewrite ?app_nil_r; done.
  - cbn [st_iter] in Hrun. rewrite ST_bind_unfold in Hrun. destruct (f idx x) as [[[]| | |] x1] eqn:E1; [|done..].
    pose proof (ib_todo _ _ _ _ _ _ Hib) as [[E HE] _]%Forall_cons. pose proof (ib_table _ _ _ _ _ _ Hib) as [_ [Htab _]%Forall_cons]%Forall_app.
    apply Forall_cons in HP as [HPi HP]. destruct (Hf idx F x x1 E HPi HE Htab E1) as (root' & F1 & E' & Hw & Hmir).
    destruct (IH _ _ _ _ HP (loop_step _ _ _ _ _ _ _ _ _ _ _ Hib Hw Hmir) Hrun) as (F' & l & Hti & Hkeys & Hrep & Hoth & Hnew & Hcols).
    exists F', (with_root root' idx :: l). split; [by rewrite <- app_assoc in Hti|]. split; [cbn [map]; by rewrite Hkeys|]. split; [intros _; apply Hrep, Hw|].
    split; [|split; [|by rewrite Hcols, (wr_columns _ _ _ _ _ _ _ Hw)]].
    { intros k rows Hk Hrows. cbn [map] in Hk. apply Hoth; [set_solver|]. eapply wrote_others; [done|set_solver|done]. }
    intros k. cbn [map]. rewrite !elem_of_cons. intros [->|Hk].
    + destruct (wr_root _ _ _ _ _ _ _ Hw) as [->|Hf']; [rewrite with_root_self; by left; left|by right].
    + destruct (Hnew k Hk) as [?|Hf']; [by left; right|]. destruct (wr_forest _ _ _ _ _ _ _ Hw) as (rows' & ->). unfold moved in Hf'.
      apply lookup_insert_None in Hf' as [Hf' _]. apply lookup_delete_None in Hf' as [->|Hf']; [by left; left|by right].
Qed.
Lemma indexes_of F x R l : table_indexed F x R l → indexes_for_table table x = l ∧ (has_indexes_for_table table x = true ∨ l = []).
Proof.
  intros [(names & Hn & Hf) _ _ _ _ _ _]. rewrite app_nil_r in Hf. unfold indexes_for_table, has_indexes_for_table. rewrite Hn. cbn [default from_option id].
  split; [|destruct Hf; [by right|by left]]. clear Hn. induction Hf as [|n idx names l [_ Hi] _ IH]; [done|]. cbn [omap list_omap]. by rewrite Hi, IH.
Qed.
Lemma indexed_start F x R R' l : table_indexed F x R l → indexed_by F x R' R [] l.
Proof. intros [Hn Hk Ht Htab Hc Hd _]. rewrite app_nil_r in *. by split. Qed.

(** ** Properties *)

(** Adding a row to a table keeps every index of the table a mirror of it:
    when [insert_index_entries] succeeds, each index has one entry more, for
    the new row, with its caches and its root in the schema up to date, and no
    other tree has changed. *)
Theorem insert_index_entries_correct F (x x' : IxState T) R l rowid row
    (Hti : table_indexed F x R l) (Hrep : trees_rep (trees x) F) (Hnew : rowid ∉ R.*1)
    (Hkind : ∀ idx, idx ∈ l → comparable (kind (cache_key idx)) (index_cell columns idx row))
    (Hrun : insert_index_entries table rowid row x = (Ok tt, x')) :
  ∃ F' l', table_indexed F' x' (R ++ [(rowid, row)]) l' ∧ map (with_root 0) l' = map (with_root 0) l ∧ trees_rep (trees x') F'
    ∧ (∀ k rows, k ∉ map index_tree l → F !! k = Some rows → F' !! k = Some rows)
    ∧ (∀ k, k ∈ map index_tree l' → k ∈ map index_tree l ∨ F !! k = None) ∧ table_columns x' = table_columns x.
Proof.
  destruct (indexes_of F x R l Hti) as [Hl Hhas]. unfold insert_index_entries, for_indexes in Hrun. rewrite ST_bind_unfold in Hrun. cbn [st_get] in Hrun.
  destruct (loop_indexed (insert_index_entry table rowid row columns) (λ idx, comparable (kind (cache_key idx)) (index_cell columns idx row))
    (R ++ [(rowid, row)]) R) with (todo := l) (dn := @nil IndexSchema) (F := F) (x := x) (x' := x') as (F' & l' & H1' & H2' & H3' & H4' & H5').
  - intros idx F0 y y' E HP Hm Htab. by apply (insert_step _ _ _ _ _ _ _ _ _ _ _ Hm Htab).
  - by apply Forall_forall.
  - by apply indexed_start.
  - destruct Hhas as [Hh | ->].
    + rewrite Hh in Hrun. rewrite ST_bind_unfold in Hrun. unfold get_columns at 1, st_gets in Hrun. by rewrite (ib_columns _ _ _ _ _ _ Hti), Hl in Hrun.
    + destruct (has_indexes_for_table table x); [|by injection Hrun as <-]. rewrite ST_bind_unfold in Hrun. unfold get_columns at 1, st_gets in Hrun.
      by rewrite (ib_columns _ _ _ _ _ _ Hti), Hl in Hrun.
  - exists F', l'. split_and!; [done|done|by apply H3'|done|apply H5'..].
Qed.

(** Removing a row: when [delete_index_entries] succeeds, each index of
    the table has lost the entry of the row and nothing else. *)
Theorem delete_index_entries_correct F (x x' : IxState T) R l rowid
    (Hti : table_indexed F x R l) (Hrep : trees_rep (trees x) F) (Hrow : rowid ∈ R.*1)
    (Hrun : delete_index_entries table rowid x = (Ok tt, x')) :
  ∃ F' l', table_indexed F' x' (filter (λ r, r.1 ≠ rowid) R) l' ∧ map (with_root 0) l' = map (with_root 0) l ∧ trees_rep (trees x') F'
    ∧ (∀ k rows, k ∉ map index_tree l → F !! k = Some rows → F' !! k = Some rows)
    ∧ (∀ k, k ∈ map index_tree l' → k ∈ map index_tree l ∨ F !! k = None) ∧ table_columns x' = table_columns x.
Proof.
  destruct (indexes_of F x R l Hti) as [Hl Hhas]. unfold delete_index_entries in Hrun. rewrite ST_bind_unfold in Hrun. cbn [st_get] in Hrun.
  destruct (loop_indexed (delete_index_entry table rowid) (λ _, True)
    (filter (λ r, r.1 ≠ rowid) R) R) with (todo := l) (dn := @nil IndexSchema) (F := F) (x := x) (x' := x') as (F' & l' & H1' & H2' & H3' & H4' & H5').
  - intros idx F0 y y' E _ Hm Htab. by apply (delete_step _ _ _ _ _ _ _ _ _ _ Hm Htab).
  - by apply Forall_true.
  - by apply indexed_start.
  - rewrite Hl in Hrun. destruct Hhas as [Hh | ->]; [by rewrite Hh in Hrun|]. by destruct (has_indexes_for_table table x).
  - exists F', l'. split_and!; [done|done|by apply H3'|done|apply H5'..].
Qed.

(** [C38] UNIQUE is exact: on an index whose rows are keys with a row id at the
    end, whose first values are of one comparable kind with that of the new key,
    none being NaN or a negative zero, the search finds a conflict if and only
    if another row of the table has an equal key. *)
Theorem unique_conflict_exact reals F idx (x : IxState T) E rows v0 key ignore
    (Ha : index_at reals F idx x E) (Hrows : F !! index_tree idx = Some rows)
    (Hform : ∀ i row, (i, row) ∈ rows → ∃ vals t, row = vals ++ [VInteger t] ∧ length vals = S (length key))
    (Hkey : comparable reals v0 ∧ plain_value v0) (Hplain : ∀ e, e ∈ E → plain_value e.1.1) :
  ∃ b x', unique_index_conflict_exists idx (v0 :: key) ignore x = (Ok b, x') ∧ index_at reals F idx x' E
    ∧ (b = true ↔ ∃ i vals t, (i, vals ++ [VInteger t]) ∈ rows ∧ Some t ≠ ignore ∧ Forall2 (λ a b, value_eq a b = true) vals (v0 :: key)).
Proof.
  destruct (conflict_exists_spec reals F idx v0 key ignore x E rows Ha Hrows) as (b & x' & Hs & Ha' & _ & Hb).
  exists b, x'. split; [done|]. split; [done|]. rewrite Hb. clear Hs Ha' Hb.
  pose proof (trees_nodup _ _ _ _ (ia_rep _ _ _ _ _ Ha) Hrows) as Hnd.
  destruct (ia_tree _ _ _ _ _ Ha) as (rows2 & Hrows2 & HE). assert (rows2 = rows) as -> by (unfold index_tree in Hrows; congruence). clear Hrows2.
  assert (∀ vals t, length vals = S (length key) →
    conflicts (v0 :: key) ignore (vals ++ [VInteger t]) = true ↔ Some t ≠ ignore ∧ Forall2 (λ a b, value_eq a b = true) vals (v0 :: key)) as Hconf.
  { intros vals t Hlen. unfold conflicts. rewrite last_snoc, !andb_true_iff, negb_true_iff, bool_decide_eq_false, bool_decide_eq_true, length_app, Hlen.
    assert (forallb (λ '(a, b), value_eq a b) (zip (vals ++ [VInteger t]) (v0 :: key)) = true ↔ Forall2 (λ a b, value_eq a b = true) vals (v0 :: key)) as ->;
      [|cbn [length]; split; [by intros [[_ ?] ?]|intros [? ?]; split_and!; [lia|done..]]].
    assert (∀ l k r, length l = length k → forallb (λ '(a, b), value_eq a b) (zip (l ++ r) k) = true ↔ Forall2 (λ a b, value_eq a b = true) l k) as Hz;
      [|by apply Hz].
    clear. induction l as [|a l IH]; intros [|b k] r Hl; try done; cbn [app].
    - split; [constructor|]. by destruct r.
    - cbn [zip zip_with forallb]. rewrite andb_true_iff, Forall2_cons, IH by (cbn in Hl; lia). done. }
  split.
  - intros (v & t & i & Hin & Hk & Hn & Hc). unfold conflict_at in Hc. destruct (row_lookup i rows) as [[j row]|] eqn:El; [|done]. cbn [snd] in Hc.
    assert ((j, row) ∈ rows) as Hjr.
    { unfold row_lookup in El. destruct (filter _ rows) as [|r0 l0] eqn:Ef; [done|]. injection El as ->.
      assert ((j, row) ∈ filter (λ x : Z * Row, x.1 = i) rows) as [_ ?]%list_elem_of_filter by (rewrite Ef; left). done. }
    destruct (Hform j row Hjr) as (vals & t' & -> & Hlen). apply Hconf in Hc as [Hn' Hf]; [|done]. by exists j, vals, t'.
  - intros (i & vals & t & Hin & Hn & Hf). destruct (Hform i _ Hin) as (vals' & t' & Eq & Hlen).
    apply app_inj_tail in Eq as [<- _]. destruct vals as [|v vals]; [by apply Forall2_length in Hf|].
    assert ((v, t, i) ∈ E) as HinE.
    { rewrite <- HE. apply list_elem_of_omap. exists (i, (v :: vals) ++ [VInteger t]). split; [done|]. by rewrite entry_of_key. }
    exists v, t, i. split; [done|]. split; [|split; [done|]].
    + apply Forall2_cons in Hf as [Hv _]. destruct Hkey as [Hc Hp]. apply (value_eq_key reals); [|done|by apply (Hplain _ HinE)|done|done].
      destruct (ia_entries _ _ _ _ _ Ha) as [Hcmp _]. rewrite Forall_forall in Hcmp. by apply (Hcmp _ HinE).
    + unfold conflict_at. rewrite (row_lookup_in i rows Hnd _ Hin). cbn [snd]. apply Hconf; [done|]. by split.
Qed.
End Upkeep.

(** ** A store of lists, and a sample *)

Section ListTrees.
(** The trees as lists of rows in a finite map; roots do not move. *)
Definition with_tree {A} (table : string) (root : Z) (f : list (Z * Row) → res A * list (Z * Row)) : ST Forest A := λ t,
  match t !! tree_key table root with
  | Some rows => let '(r, rows') := f rows in (r, <[tree_key table root := rows']> t)
  | None => (Err (Internal "no such page"), t)
  end.
Definition list_trees : Trees Forest :=
  mkTrees Forest (λ table root, with_tree table root (λ rows, (Ok rows, rows)))
    (λ table root rid, with_tree table root (λ rows, (Ok (row_lookup rid rows), rows)))
    (λ table root, with_tree table root (λ rows, (Ok (foldr Z.max 0 rows.*1), rows)))
    (λ table root rid row, with_tree table root (λ rows,
       if bool_decide (rid ∈ rows.*1) then (Err (ConstraintViolation "duplicate rowid"), rows) else (Ok root, rows ++ [(rid, row)])))
    (λ table root rid, with_tree table root (λ rows, (Ok (bool_decide (rid ∈ rows.*1), root), filter (λ r, r.1 ≠ rid) rows))).
Definition list_rep (t F : Forest) : Prop := ∀ k rows, F !! k = Some rows → t !! k = Some rows ∧ NoDup rows.*1.
#[local] Existing Instance list_trees.
Lemma list_rep_keep (t F : Forest) table root (rows : list (Z * Row)) : list_rep t F → F !! tree_key table root = Some rows → list_rep (<[tree_key table root := rows]> t) F.
Proof.
  intros Hrep Hrows k rows' Hk. destruct (Hrep k rows' Hk) as [Ht Hd]. split; [|done]. destruct (decide (k = tree_key table root)) as [->|Hne].
  - rewrite lookup_insert_eq. congruence.
  - by rewrite lookup_insert_ne.
Qed.
Lemma list_rep_write (t F : Forest) table root (rows' : list (Z * Row)) : list_rep t F → NoDup rows'.*1 →
  list_rep (<[tree_key table root := rows']> t) (<[tree_key table root := rows']> (delete (tree_key table root) F)).
Proof.
  intros Hrep Hd k r Hk. destruct (decide (k = tree_key table root)) as [->|Hne].
  - rewrite lookup_insert_eq in Hk |- *. by injection Hk as <-.
  - rewrite lookup_insert_ne, lookup_delete_ne in Hk by done. rewrite lookup_insert_ne by done. by apply Hrep.
Qed.
Definition list_reads : TreeReads Forest.
Proof.
  apply (mkTreeReads Forest _ list_rep).
  - intros t F k rows Hrep Hk. by apply Hrep in Hk as [_ Hd].
  - intros t F table root rows Hrep Hk. exists (<[tree_key table root := rows]> t). split; [|by apply list_rep_keep].
    cbn. unfold with_tree. by rewrite (proj1 (Hrep _ _ Hk)).
  - intros t F table root rid rows Hrep Hk. exists (<[tree_key table root := rows]> t). split; [|by apply list_rep_keep].
    cbn. unfold with_tree. by rewrite (proj1 (Hrep _ _ Hk)).
Defined.
#[local] Existing Instance list_reads.
Definition list_catalog : CatalogRoots Forest := λ _ _ t, (Ok tt, t).
#[local] Existing Instance list_catalog.
Lemma list_writes : TreeWrites Forest.
Proof.
  split.
  - intros t F table root r t' Hrep. cbn. unfold with_tree. destruct (t !! tree_key table root) as [rows|] eqn:E; intros [= <- <-]; [|done].
    intros k rows' Hk. destruct (Hrep k rows' Hk) as [Ht Hd]. split; [|done]. destruct (decide (k = tree_key table root)) as [->|Hne].
    + rewrite lookup_insert_eq. congruence.
    + by rewrite lookup_insert_ne.
  - intros t F table root rid row rows root' t' Hrep Hk. cbn. unfold with_tree. rewrite (proj1 (Hrep _ _ Hk)).
    case_bool_decide as Hin; [done|]. intros [= <- <-]. split; [by left|]. exists (rows ++ [(rid, row)]). split; [done|].
    apply (list_rep_write t F table root); [done|]. rewrite fmap_app. apply NoDup_app. split; [apply (Hrep _ _ Hk)|].
    split; [|apply NoDup_singleton]. intros i Hi. cbn. rewrite list_elem_of_singleton. by intros ->.
  - intros t F table root rid rows b root' t' Hrep Hk. cbn. unfold with_tree. rewrite (proj1 (Hrep _ _ Hk)). intros [= <- <- <-]. split; [by left|].
    apply (list_rep_write t F table root); [done|]. destruct (Hrep _ _ Hk) as [_ Hd]. clear -Hd. induction rows as [|[i row] rows IH]; [done|].
    cbn [fmap list_fmap fst] in Hd. apply NoDup_cons in Hd as [Hn Hd]. rewrite filter_cons. destruct (decide _); [|by apply IH]. cbn [fmap list_fmap fst].
    constructor; [|by apply IH]. intros ([j row'] & -> & [_ Hj]%list_elem_of_filter)%list_elem_of_fmap. apply Hn. apply list_elem_of_fmap. by exists (j, row').
  - intros t F name root r t' Hrep [= <- <-]. done.
Qed.
End ListTrees.

(** A run, from its outcome. *)
Lemma run_outcome {S A} (m : ST S A) s a : fst (m s) = Ok a → m s = (Ok a, snd (m s)).
Proof. destruct (m s). by intros [= ->]. Qed.

Section Sample.
#[local] Existing Instance ascii_std.
#[local] Existing Instance list_trees.
#[local] Existing Instance list_reads.
#[local] Existing Instance list_catalog.
#[local] Existing Instance list_writes.

(** A table of two rows with a unique index on its second column. *)
Definition people_columns : list ColumnInfo := [mkColumn "id" 0 true false true; mkColumn "age" 1 false false false].
Definition age_index : IndexSchema := mkIndex "by_age" "people" ["age"]%string 5 true false.
Definition people_rows : list (Z * Row) := [(1, [VInteger 1; VInteger 30]); (2, [VInteger 2; VInteger 20])].
Definition age_rows : list (Z * Row) := [(1, [VInteger 30; VInteger 1]); (2, [VInteger 20; VInteger 2])].
Definition people_forest : Forest := {[tree_key "people" 2 := people_rows; tree_key "people" 5 := age_rows]}.
Definition people_state : IxState Forest :=
  mkIx Forest ∅ ∅ ∅ {["by_age"%string := age_index]} {["people"%string := ["by_age"%string]]} {["people"%string := people_columns]} people_forest
    (mkAdaptive ∅ 100 []).
Lemma people_rep : trees_rep people_forest people_forest.
Proof.
  intros k rows Hk. split; [done|]. unfold people_forest in Hk. apply lookup_insert_Some in Hk as [[_ <-]|[_ [_ <-]%lookup_singleton_Some]];
    repeat constructor; set_solver.
Qed.
Lemma people_at : index_at false people_forest age_index people_state [(VInteger 30, 1, 1); (VInteger 20, 2, 2)].
Proof.
  split; [apply people_rep|by exists age_rows| |done]. split; [by repeat constructor|]. cbn. repeat constructor; set_solver.
Qed.
Lemma people_indexed : table_indexed (λ _, false) "people" people_columns people_forest people_state people_rows [age_index].
Proof.
  split; [|apply NoDup_singleton|apply NoDup_singleton|by repeat constructor|done| |by constructor].
  - exists ["by_age"%string]. split; [done|]. by repeat constructor.
  - constructor; [|done]. exists [(VInteger 30, 1, 1); (VInteger 20, 2, 2)]. split; [apply people_at|done|done].
Qed.
Lemma insert_index_entries_correct_witness :
  let row := [VInteger 3; VInteger 40] in
  ∃ x' F' l', insert_index_entries "people" 3 row people_state = (Ok tt, x')
    ∧ table_indexed (λ _, false) "people" people_columns F' x' (people_rows ++ [(3, row)]) l' ∧ trees_rep (trees x') F'.
Proof.
  intros row. destruct (insert_index_entries_correct (λ _, false) "people" people_columns people_forest people_state
    (snd (insert_index_entries "people" 3 row people_state)) people_rows [age_index] 3 row people_indexed people_rep) as (F' & l' & Hti & _ & Hrep & _).
  - set_solver.
  - intros idx ->%list_elem_of_singleton. reflexivity.
  - by apply run_outcome.
  - exists (snd (insert_index_entries "people" 3 row people_state)), F', l'. split; [by apply run_outcome|by split].
Defined.
Lemma delete_index_entries_correct_witness :
  ∃ x' F' l', delete_index_entries "people" 1 people_state = (Ok tt, x')
    ∧ table_indexed (λ _, false) "people" people_columns F' x' [(2, [VInteger 2; VInteger 20])] l' ∧ trees_rep (trees x') F'.
Proof.
  destruct (delete_index_entries_correct (λ _, false) "people" people_columns people_forest people_state
    (snd (delete_index_entries "people" 1 people_state)) people_rows [age_index] 1 people_indexed people_rep) as (F' & l' & Hti & _ & Hrep & _).
  - set_solver.
  - by apply run_outcome.
  - exists (snd (delete_index_entries "people" 1 people_state)), F', l'. split; [by apply run_outcome|by split].
Defined.
Lemma unique_conflict_exact_witness :
  ∃ x', unique_index_conflict_exists age_index [VInteger 20] (Some 1) people_state = (Ok true, x').
Proof.
  destruct (unique_conflict_exact false people_forest age_index people_state _ age_rows (VInteger 20) [] (Some 1) people_at) as (b & x' & Hrun & _ & Hb).
  - reflexivity.
  - intros i row [[= -> ->]|[[= -> ->]|[]%elem_of_nil]%elem_of_cons]%elem_of_cons; [by exists [VInteger 30], 1|by exists [VInteger 20], 2].
  - done.
  - intros e [->|[->|[]%elem_of_nil]%elem_of_cons]%elem_of_cons; done.
  - exists x'. assert (b = true) as ->; [|exact Hrun]. apply Hb. exists 2, [VInteger 20], 2. split; [right; left|]. split; [done|]. by repeat constructor.
Defined.
End Sample.
