(* ===== verification/IndexProps.v ===== *)
(** Properties of secondary indexes (src/src/vm/exec_select.rs, exec_dml.rs,
    execute.rs): an index scan finds the rows of a full scan, DELETE finds the
    same rows with an index as without where keys tell values apart, the
    entries follow the rows of the table; and what goes wrong outside. *)
From S2P Require Import Prelude Values Text Expr ExprTypes Mvcc RowLocks BTreeTree RowOps Joins Aggregates Window Select SelectProps IndexCache IndexScan IndexUpkeep.

(** ** Conditions *)

Section Condition.
Context {T : Type} `{StdFns} `{TreeReads T} `{OtherFunctions (Engine (IxState T))} `{FtsScan (IxState T)} `{CostModel (IxState T)} (reals : bool).
Abbreviation V := (VM (Engine (IxState T))).
Context (rec : SelectStmt → ST V ExecResult).
#[local] Instance nested_cond : SelectExec SelectStmt (Engine (IxState T)) := rec.

(** The column of a condition, and the expressions it is compared with. *)
Definition columns_of (e : SExpr') : list SExpr' :=
  match e with
  | BinaryOp (ColumnRef tab c) _ _ => [ColumnRef tab c]
  | BinaryOp _ _ (ColumnRef tab c) => [ColumnRef tab c]
  | InList e _ _ | Between e _ _ _ => [e]
  | _ => []
  end.
Definition constants_of (e : SExpr') : list SExpr' :=
  match e with
  | BinaryOp (ColumnRef _ _) _ rhs => [rhs]
  | BinaryOp lhs _ (ColumnRef _ _) => [lhs]
  | InList _ items _ => items
  | Between _ low high _ => [low; high]
  | _ => []
  end.
(** An expression with the same value in every row, without effect. *)
Definition constant_value (s : V) (cm : ColMap) (rows : list Row) (c : SExpr') (v : Value) : Prop :=
  eval_expr [] ∅ c s = (Ok v, s) ∧ ∀ row, row ∈ rows → eval_expr row cm c s = (Ok v, s).
Definition column_value (s : V) (cm : ColMap) (rows : list Row) (e : SExpr') (cell : Row → Value) : Prop :=
  ∀ row c, row ∈ rows → c ∈ columns_of e → eval_expr row cm c s = (Ok (cell row), s).

Lemma eval_constant_of s cm rows c v : constant_value s cm rows c v → eval_constant_expr rec c s = (Ok (Some v), s).
Proof. intros [E _]. unfold eval_constant_expr, nested_query. unfold nested_cond in E. by rewrite E. Qed.
Lemma eval_constants_of s cm rows items : (∀ c, c ∈ items → ∃ v, constant_value s cm rows c v) →
  ∃ vs, Forall2 (constant_value s cm rows) items vs ∧ eval_constants rec items s = (Ok (Some (List.filter (λ v, negb (is_null v)) vs)), s).
Proof.
  induction items as [|c items IH]; intros Hc; [by exists []|]. destruct (Hc c ltac:(left)) as [v Hv].
  destruct IH as (vs & Hvs & Hrun); [intros d Hd; apply Hc; by right|]. exists (v :: vs). split; [by constructor|].
  cbn [eval_constants List.filter]. rewrite ST_bind_unfold, (eval_constant_of _ _ _ _ _ Hv), ST_bind_unfold, Hrun. by destruct (is_null v).
Qed.
Lemma in_list_found (row : Row) cm s (items : list SExpr') vs val has_null : Forall2 (λ c v, eval_expr row cm c s = (Ok v, s)) items vs →
  ∃ r, in_list val (map (eval_expr row cm) items) has_null s = (Ok r, s)
    ∧ r.1 = existsb (value_eq val) (List.filter (λ v, negb (is_null v)) vs).
Proof.
  intros Hf. revert has_null. induction Hf as [|c v items vs Hc _ IH]; intros has_null; [by exists (false, has_null)|].
  cbn [map in_list List.filter]. rewrite ST_bind_unfold, Hc. destruct (is_null v) eqn:En; cbn [negb]; [apply IH|]. cbn [existsb].
  destruct (value_eq val v); [by exists (true, has_null)|apply IH].
Qed.

(** The lookup of a condition says where the condition is true. *)
Lemma condition_correct s cm rows e col l cell : index_condition rec e s = (Ok (Some (col, l)), s) →
  (∀ c, c ∈ constants_of e → ∃ v, constant_value s cm rows c v) → column_value s cm rows e cell →
  (∀ row, row ∈ rows → comparable reals (cell row)) → Forall (comparable reals) (lookup_values l) →
  (∀ row, row ∈ rows → ∃ v, eval_expr row cm e s = (Ok v, s) ∧ is_truthy v = condition_holds l (cell row))
  ∧ lookup_op_ok l ∧ ∀ vs, l = LIn vs → Forall (λ w, is_null w = false) vs.
Proof.
  intros Hrun Hconst Hcol Hcell Hl.
  assert (∀ (a : SExpr') op b va vb row, row ∈ rows → op ≠ And → op ≠ Or → op ≠ FtsMatch → eval_expr row cm a s = (Ok va, s) → eval_expr row cm b s = (Ok vb, s) →
    eval_expr row cm (BinaryOp a op b) s = (Ok (apply_binary_op op va vb), s)) as Hbin.
  { intros a op b va vb row Hrow Ha Ho Hf Ea Eb. destruct op; try done; cbn [eval_expr]; rewrite ST_bind_unfold, Ea, ST_bind_unfold, Eb; done. }
  assert (∀ column op v, comparison_lookup column op v = Some (col, l) → column = col ∧ op ≠ And ∧ op ≠ Or ∧ op ≠ FtsMatch
    ∧ lookup_op_ok l ∧ (∀ vs, l = LIn vs → Forall (λ w, is_null w = false) vs)
    ∧ lookup_values l = [v] ∧ ∀ w, condition_holds l w = is_truthy (apply_binary_op op w v)) as Hcmp.
  { intros column op v E. destruct op; try done; injection E as <- <-; split_and!; try done; intros o w [= <- _]; set_solver. }
  destruct e as [| | | | | | | |e1 op e2| | |e1 items []| |e1 low high []| | | | | | | | | | | | ]; try done; try (by destruct e1).
  - assert ((∃ tab c, e1 = ColumnRef tab c) ∨ ¬ ∃ tab c, e1 = ColumnRef tab c) as [(tab & c & ->)|He1]
      by (destruct e1; eauto; right; by intros (? & ? & ?)).
    + cbn [index_condition constants_of] in Hrun, Hconst. destruct (Hconst e2 ltac:(left)) as [v Hv].
      rewrite ST_bind_unfold, (eval_constant_of _ _ _ _ _ Hv) in Hrun. injection Hrun as E. apply Hcmp in E as (-> & Na & No & Nf & Hok & Hin & _ & Hh).
      split; [|done]. intros row Hrow. eexists. split; [apply Hbin; [done..|apply Hcol; [done|left]|by apply Hv]|]. by rewrite Hh.
    + assert (index_condition rec (BinaryOp e1 op e2) = match e2 with
        | ColumnRef _ column => match flip_comparison_operator op with
           | Some op => v ← eval_constant_expr rec e1; mret (v ← v; comparison_lookup column op v) | None => mret None end
        | _ => mret None end) as E by (destruct e1; try done; exfalso; eauto).
      rewrite E in Hrun. destruct e2 as [| | | | |tab c| | | | | | | | | | | | | | | | | | | |]; try done.
      destruct (flip_comparison_operator op) as [op'|] eqn:Ef; [|done].
      assert (constants_of (BinaryOp e1 op (ColumnRef tab c)) = [e1]) as Ec by (destruct e1; try done; exfalso; eauto).
      assert (columns_of (BinaryOp e1 op (ColumnRef tab c)) = [ColumnRef tab c]) as Ecc by (destruct e1; try done; exfalso; eauto).
      rewrite Ec in Hconst. destruct (Hconst e1 ltac:(left)) as [v Hv].
      rewrite ST_bind_unfold, (eval_constant_of _ _ _ _ _ Hv) in Hrun. injection Hrun as E'. apply Hcmp in E' as (-> & Na & No & Nf & Hok & Hin & Hvs & Hh).
      split; [|done]. intros row Hrow. eexists. split; [apply Hbin; [done|by destruct op|by destruct op|by destruct op|by apply Hv|apply Hcol; [done|rewrite Ecc; left]]|].
      rewrite Hvs, Forall_singleton in Hl. rewrite Hh. apply (flip_holds reals); auto.
  - destruct e1 as [| | | | |tab c| | | | | | | | | | | | | | | | | | | |]; try done. cbn [index_condition constants_of] in Hrun, Hconst.
    destruct (eval_constants_of s cm rows items Hconst) as (vs & Hvs & Hc). rewrite ST_bind_unfold, Hc in Hrun. injection Hrun as -> <-.
    split; [|split; [done|]].
    + intros row Hrow. pose proof (Hcol row _ Hrow ltac:(left)) as Ecol. cbn [eval_expr] in Ecol |- *. rewrite ST_bind_unfold, Ecol. cbn [condition_holds].
      destruct (is_null (cell row)) eqn:En; cbn [negb andb]; [by eexists|].
      destruct (in_list_found row cm s items vs (cell row) false) as ([found hn] & Hr & Hfound).
      { eapply Forall2_impl; [exact Hvs|]. intros c' v [_ Hv]. by apply Hv. }
      eexists. split; [by rewrite ST_bind_unfold, Hr|]. cbn [fst] in Hfound. rewrite <- Hfound. by destruct found, hn.
    + intros vs' [= <-]. apply Forall_forall. intros w Hw. rewrite list_elem_of_In, filter_In in Hw. by apply negb_true_iff, Hw.
  - destruct e1 as [| | | | |tab c| | | | | | | | | | | | | | | | | | | |]; try done. cbn [index_condition constants_of] in Hrun, Hconst.
    destruct (Hconst low ltac:(left)) as [vl Hvl], (Hconst high ltac:(right; left)) as [vh Hvh].
    rewrite ST_bind_unfold, (eval_constant_of _ _ _ _ _ Hvl), ST_bind_unfold, (eval_constant_of _ _ _ _ _ Hvh) in Hrun. injection Hrun as -> <-.
    split; [|done]. intros row Hrow. pose proof (Hcol row _ Hrow ltac:(left)) as Ecol. cbn [eval_expr] in Ecol |- *. rewrite ST_bind_unfold, Ecol, ST_bind_unfold, (proj2 Hvl row Hrow), ST_bind_unfold, (proj2 Hvh row Hrow).
    by eexists.
Qed.

(** ** The rows an index finds *)

Context (F : Forest).
(** The table [name] has the rows [R]; the index [idx] on its column [col],
    whose value in a row is [cell], has an entry for every row. *)
Record indexed_table (s : V) (name : string) (R : list (Z * Row)) (col : string) (cell : Row → Value) (idx : IndexSchema) (E : list Entry) : Prop :=
  mkIndexedTable {
  it_index : matching_index name col (engine_rest (vm_rest s)) = Some idx;
  it_at : index_at reals F idx (engine_rest (vm_rest s)) E;
  it_mirror : map fst E ≡ₚ map (λ r : Z * Row, (cell r.2, r.1)) R;
  it_plain r : r ∈ R → plain_value (cell r.2);
}.
(** The condition compares the column with constants of its kind. *)
Record indexed_condition (s : V) (cm : ColMap) (R : list (Z * Row)) (e : SExpr') (col : string) (l : Lookup) (cell : Row → Value) : Prop :=
  mkIndexedCondition {
  ic_lookup : index_condition rec e s = (Ok (Some (col, l)), s);
  ic_column : column_value s cm (map snd R) e cell;
  ic_constants c : c ∈ constants_of e → ∃ v, constant_value s cm (map snd R) c v;
  ic_kind : Forall (comparable reals) (lookup_values l);
  ic_plain : Forall plain_value (lookup_values l);
}.

Lemma mirror_comparable s name R col cell idx E r : indexed_table s name R col cell idx E → r ∈ R → comparable reals (cell r.2).
Proof.
  intros [_ Ha Hm _] Hr. destruct (ia_entries _ _ _ _ _ Ha) as [Hc _]. rewrite Forall_forall in Hc.
  assert ((cell r.2, r.1) ∈ map fst E) as (e & Ee & He)%list_elem_of_fmap by (rewrite Hm; apply list_elem_of_fmap; by exists r).
  specialize (Hc e He). rewrite <- Ee in Hc. exact Hc.
Qed.
Lemma mirror_rids (p : Value → bool) R cell E : map fst E ≡ₚ map (λ r : Z * Row, (cell r.2, r.1)) R →
  map (λ e : Entry, e.1.2) (List.filter (λ e, p e.1.1) E) ≡ₚ map fst (List.filter (λ r, p (cell r.2)) R).
Proof.
  intros Hm. rewrite <- (map_snd_filter p (map fst E) E) by done.
  rewrite Hm. clear. induction R as [|r R IH]; [done|]. cbn [map List.filter fst]. destruct (p (cell r.2)); cbn [map snd]; by rewrite IH.
Qed.
Lemma omap_row_lookup R l : NoDup R.*1 → (∀ r, r ∈ l → r ∈ R) → omap (λ rid, row_lookup rid R) (map fst l) = l.
Proof.
  intros Hd. induction l as [|[rid row] l IH]; intros Hl; [done|]. cbn [map omap list_omap fst].
  rewrite (row_lookup_elem rid row R), IH; [done|intros r Hr; apply Hl; by right| |apply Hl; left].
  intros row' Hr'. specialize (Hl (rid, row) ltac:(left)). clear -Hd Hr' Hl. induction R as [|[r0 row0] R IH]; [by apply elem_of_nil in Hl|].
  cbn [fmap list_fmap fst] in Hd. apply NoDup_cons in Hd as [Hn Hd]. apply elem_of_cons in Hr', Hl.
  destruct Hr' as [E'|Hr'], Hl as [E|Hl]; [congruence| | |by apply IH].
  - injection E' as -> ->. destruct Hn. apply list_elem_of_fmap. by exists (r0, row).
  - injection E as -> ->. destruct Hn. apply list_elem_of_fmap. by exists (r0, row').
Qed.
Lemma index_rows_spec name t R cell idx l (x : IxState T) E : index_at reals F idx x E →
  map fst E ≡ₚ map (λ r : Z * Row, (cell r.2, r.1)) R → F !! tree_key name (root_page t) = Some R → Forall (comparable reals) (lookup_values l) →
  ∃ rows x', index_rows name t idx l x = (Ok rows, x') ∧ index_at reals F idx x' E ∧ same_but idx x x'
    ∧ rows ≡ₚ map snd (List.filter (λ r, lookup_hits l (cell r.2)) R).
Proof.
  intros Ha Hm HR Hl. destruct (index_lookup_spec reals F idx l x E Ha Hl) as (rids & x1 & Hs1 & Ha1 & Hsame & Hd & Hp).
  rewrite (mirror_rids (lookup_hits l) R cell E Hm) in Hp.
  destruct (fetch_rows_spec F x1 name (root_page t) R rids (ia_rep _ _ _ _ _ Ha1) HR Hd) as (t' & Hf & Hrep).
  eexists _, (set_trees t' x1). split; [by unfold index_rows; rewrite ST_bind_unfold, Hs1, ST_bind_unfold, Hf|].
  split; [destruct Ha1; by split|]. split; [destruct Hsame; by split|]. apply Permutation_map. rewrite Hp.
  rewrite omap_row_lookup; [done|by eapply trees_nodup|]. intros r. rewrite !list_elem_of_In, filter_In. tauto.
Qed.

(** [C37] A SELECT that uses an index gets the rows of a full scan, when the column
    and the constants it is compared with hold comparable values of one kind
    (no NaN and no negative zero), the constants do not depend on the row, the
    table is read without a snapshot and no WITH has its name, no full-text
    search answers WHERE, and the planner prefers the index: the index scan
    returns rows of the table, among them every row for which WHERE is true, so
    that WHERE keeps the same rows, in some order.  Whether the caches are
    loaded, how many ids are fetched and which of the two ways of fetching is
    taken does not show. *)
Theorem index_scan_agrees (s : V) (cm : ColMap) (name : string) (alias : option string) (t : Table) (R : list (Z * Row)) (e : SExpr')
    (col : string) (l : Lookup) (cell : Row → Value) (idx : IndexSchema) (E : list Entry)
    (Ht : lookup_table name s = Some t) (HR : F !! tree_key name (root_page t) = Some R)
    (Hidx : indexed_table s name R col cell idx E) (Hcond : indexed_condition s cm R e col l cell)
    (Hfts : fts_scan name e s = (Ok None, s)) (Hcost : prefers_full_scan name col l s = false) :
  ∃ rows x p rest, try_index_scan rec (FTable name alias) e s = (Ok (Some (rows, col_names t)), upd_engine (set_engine_rest x) s)
    ∧ (∀ row, row ∈ map snd R → ∃ v, eval_expr row cm e s = (Ok v, s) ∧ is_truthy v = p row)
    ∧ List.filter p rows ≡ₚ List.filter p (map snd R)
    ∧ rows ++ rest ≡ₚ map snd R
    ∧ index_at reals F idx x E.
Proof.
  destruct Hcond as [Hc Hcol Hconst Hkind Hplain]. pose proof (λ r, mirror_comparable s name R col cell idx E r Hidx) as Hcomp.
  destruct Hidx as [Hmi Ha Hm Hpl].
  assert (∀ row, row ∈ map snd R → ∃ r, r ∈ R ∧ row = r.2) as Hin by (intros row (r & -> & Hr)%list_elem_of_fmap; by exists r).
  destruct (condition_correct s cm (map snd R) e col l cell Hc Hconst Hcol) as (Hev & Hop & _); [|done|].
  { intros row (r & Hr & ->)%Hin. by apply Hcomp. }
  destruct (index_rows_spec name t R cell idx l _ E Ha Hm HR Hkind) as (rows & x & Hrows & Hax & _ & Hperm).
  exists rows, x, (λ row, condition_holds l (cell row)), (map snd (List.filter (λ r, negb (lookup_hits l (cell r.2))) R)).
  split; [|split; [exact Hev|split; [|split; [|done]]]].
  - unfold try_index_scan. rewrite ST_bind_unfold, Hfts, ST_bind_unfold, Hc, ST_bind_unfold. cbn [st_get]. rewrite Hmi.
    rewrite ST_bind_unfold. unfold get_table, st_gets. rewrite Ht, Hcost, ST_bind_unfold. unfold on_index. by rewrite Hrows.
  - rewrite Hperm. clear -Hcomp Hpl Hkind Hplain Hop. induction R as [|r R IH]; [done|].
    assert (List.filter (λ row, condition_holds l (cell row)) (map snd (List.filter (λ r, lookup_hits l (cell r.2)) R))
      ≡ₚ List.filter (λ row, condition_holds l (cell row)) (map snd R)) as IH'.
    { apply IH; intros r' Hr'; [apply Hpl|apply Hcomp]; by right. }
    cbn [map List.filter]. destruct (lookup_hits l (cell r.2)) eqn:Eh; cbn [map List.filter].
    + destruct (condition_holds l (cell r.2)); by rewrite IH'.
    + destruct (condition_holds l (cell r.2)) eqn:Ec; [|done].
      rewrite (hits_complete reals l) in Eh; [done|apply Hcomp; left|apply Hpl; left|done..].
  - rewrite Hperm, <- map_app. apply Permutation_map. clear. induction R as [|r R IH]; [done|]. cbn [List.filter].
    destruct (lookup_hits l (cell r.2)); cbn [negb app]; [by rewrite IH|]. by rewrite <- Permutation_middle, IH.
Qed.

(** DELETE removes the same rows with an index as without one, when the
    column has no NULL and the keys of the index tell its values from the
    constants: the ids are those of the rows for which WHERE is true, each
    once. *)
Theorem delete_by_index_agrees (s : V) (cm : ColMap) (name : string) (root : Z) (R : list (Z * Row)) (e : SExpr')
    (col : string) (l : Lookup) (cell : Row → Value) (idx : IndexSchema) (E : list Entry)
    (HR : F !! tree_key name root = Some R)
    (Hidx : indexed_table s name R col cell idx E) (Hcond : indexed_condition s cm R e col l cell)
    (Htold : ∀ r, r ∈ R → told_apart l (cell r.2)) :
  ∃ rids x p, rowids_to_delete rec name root cm (Some e) s = (Ok rids, upd_engine (set_engine_rest x) s)
    ∧ (∀ row, row ∈ map snd R → ∃ v, eval_expr row cm e s = (Ok v, s) ∧ is_truthy v = p row)
    ∧ rids ≡ₚ map fst (List.filter (λ r, p r.2) R) ∧ NoDup rids.
Proof.
  destruct Hcond as [Hc Hcol Hconst Hkind Hplain]. pose proof (λ r, mirror_comparable s name R col cell idx E r Hidx) as Hcomp.
  destruct Hidx as [Hmi Ha Hm Hpl].
  destruct (condition_correct s cm (map snd R) e col l cell Hc Hconst Hcol) as (Hev & Hop & Hin); [|done|].
  { intros row (r & -> & Hr)%list_elem_of_fmap. by apply Hcomp. }
  destruct (index_lookup_spec reals F idx l _ E Ha Hkind) as (rids & x & Hs & Hax & _ & Hd & Hp).
  rewrite (mirror_rids (lookup_hits l) R cell E Hm) in Hp.
  exists rids, x, (λ row, condition_holds l (cell row)). split; [|split; [exact Hev|split; [|done]]].
  - unfold rowids_to_delete. rewrite ST_bind_unfold. unfold try_dml_index_rowids at 1.
    rewrite ST_bind_unfold, Hc, ST_bind_unfold. cbn [st_get]. rewrite Hmi, ST_bind_unfold. unfold on_index. by rewrite Hs.
  - rewrite Hp. apply Permutation_map. clear -Hcomp Hpl Hkind Hplain Hop Hin Htold. induction R as [|r R IH]; [done|]. cbn [List.filter].
    rewrite (hits_exact reals l (cell r.2)); [|apply Hcomp; left|apply Hpl; left|by split_and!|apply Htold; left|done].
    assert (List.filter (λ r, lookup_hits l (cell r.2)) R ≡ₚ List.filter (λ r, condition_holds l (cell r.2)) R) as IH'.
    { apply IH; intros r' Hr'; first [exact (Htold r' (list_elem_of_further _ _ _ Hr'))|exact (Hcomp r' (list_elem_of_further _ _ _ Hr'))|exact (Hpl r' (list_elem_of_further _ _ _ Hr'))]. }
    destruct (condition_holds l (cell r.2)); by rewrite IH'.
Qed.
End Condition.

(** ** The sample table *)

Section Sample.
#[local] Existing Instance ascii_std.
#[local] Existing Instance select_by_sort.
#[local] Existing Instance list_trees.
#[local] Existing Instance list_reads.
Abbreviation Ix := (IxState Forest).
Definition no_functions_ix : OtherFunctions (Engine Ix) := λ _ _, st_err (Internal "no such function").
#[local] Existing Instance no_functions_ix.
Definition no_fts : FtsScan Ix := λ _ _, mret None.
#[local] Existing Instance no_fts.
Definition prefer_index : CostModel Ix := λ _ _ _ _, false.
#[local] Existing Instance prefer_index.
Definition no_query : SelectStmt → ST (VM (Engine Ix)) ExecResult := λ _, st_err (Internal "no query").

Definition people_table : Table := mkTable 2 ["id"; "age"]%string 2 None false [].
Definition people_engine (x : Ix) : VM (Engine Ix) :=
  mkVM _ [] [] None 0 ∅ (mkEngine Ix {["people"%string := people_table]} ∅ 0 (mkUndoLog [] 0) None 0 RLM_new x).
Definition people_map : ColMap := dml_col_map people_columns.
Definition age_of (row : Row) : Value := default VNull (row !! 1%nat).
Definition age_is (op : BinaryOperator) (n : Z) : SExpr' := BinaryOp (ColumnRef None "age") op (IntegerLiteral n).
Lemma people_table_indexed : indexed_table false people_forest (people_engine people_state) "people" people_rows "age" age_of age_index
  [(VInteger 30, 1, 1); (VInteger 20, 2, 2)].
Proof.
  split; [done|apply people_at|done|]. intros r Hr. apply elem_of_cons in Hr as [->|Hr]; [exact I|].
  apply elem_of_cons in Hr as [->|Hr]; [exact I|]. by apply elem_of_nil in Hr.
Qed.
Lemma age_condition op n l : comparison_lookup "age" op (VInteger n) = Some ("age"%string, l) →
  indexed_condition false no_query (people_engine people_state) people_map people_rows (age_is op n) "age" l age_of.
Proof.
  intros Hl. assert (lookup_values l = [VInteger n]) as Hv by (destruct op; try done; by injection Hl as <-). split.
  - unfold index_condition, age_is. rewrite ST_bind_unfold. cbn. by rewrite Hl.
  - intros row c Hrow ->%list_elem_of_singleton. apply elem_of_cons in Hrow as [->|Hrow]; [done|].
    by apply elem_of_cons in Hrow as [->|Hrow]; [|apply elem_of_nil in Hrow].
  - intros c ->%list_elem_of_singleton. by exists (VInteger n).
  - rewrite Hv. by repeat constructor.
  - rewrite Hv. by repeat constructor.
Qed.
Lemma index_scan_agrees_witness :
  ∃ rows x rest, try_index_scan no_query (FTable "people" None) (age_is GreaterThan 25) (people_engine people_state)
    = (Ok (Some (rows, ["id"; "age"]%string)), x) ∧ rows ++ rest ≡ₚ map snd people_rows.
Proof.
  destruct (index_scan_agrees false no_query people_forest (people_engine people_state) people_map "people" None people_table people_rows
    (age_is GreaterThan 25) "age" (LComparison GreaterThan (VInteger 25)) age_of age_index _ eq_refl eq_refl people_table_indexed
    (age_condition GreaterThan 25 _ eq_refl) eq_refl eq_refl) as (rows & x & p & rest & Hrun & _ & _ & Hrest & _).
  eexists rows, _, rest. split; [exact Hrun|exact Hrest].
Defined.
Lemma delete_by_index_agrees_witness :
  ∃ rids x, rowids_to_delete no_query "people" 2 people_map (Some (age_is Equal 20)) (people_engine people_state) = (Ok rids, x) ∧ NoDup rids.
Proof.
  destruct (delete_by_index_agrees false no_query people_forest (people_engine people_state) people_map "people" 2 people_rows
    (age_is Equal 20) "age" (LEq (VInteger 20)) age_of age_index _ eq_refl people_table_indexed (age_condition Equal 20 _ eq_refl)) as (rids & x & p & Hrun & _ & _ & Hd).
  - intros r [->|[->|[]%elem_of_nil]%elem_of_cons]%elem_of_cons; (split; [done|]); intros w ->%list_elem_of_singleton _; vm_compute; [discriminate|done].
  - eexists rids, _. split; [exact Hrun|exact Hd].
Defined.
End Sample.
