(* ===== verification/IndexFlaws.v ===== *)
(** Divergences of the use of indexes (src/src/vm/exec_select.rs,
    exec_dml.rs), each a run on a small table with an index on [age] and the
    same statement without the index. *)
From S2P Require Import Prelude Values Text Expr ExprTypes Mvcc RowLocks RowOps Joins TableFns Aggregates Window Select SelectProps IndexCache IndexScan IndexUpkeep IndexProps.

#[local] Existing Instance ascii_std.
#[local] Existing Instance select_by_sort.
#[local] Existing Instance list_trees.
#[local] Existing Instance list_reads.
#[local] Existing Instance list_catalog.
#[local] Existing Instance no_functions_ix.
#[local] Existing Instance no_fts.
#[local] Existing Instance prefer_index.

Abbreviation Ix := (IxState Forest).
(** A table [people(id, age)] with the given ages, with or without the index. *)
Definition aged (ages : list Value) : list (Z * Row) := imap (λ i v, (Z.of_nat i + 1, [VInteger (Z.of_nat i + 1); v])) ages.
Definition age_entries (ages : list Value) : list (Z * Row) := imap (λ i v, (Z.of_nat i + 1, [v; VInteger (Z.of_nat i + 1)])) ages.
Definition people_with (indexed : bool) (ages : list Value) : VM (Engine Ix) :=
  people_engine (mkIx Forest ∅ ∅ ∅ (if indexed then {["by_age"%string := age_index]} else ∅)
    (if indexed then {["people"%string := ["by_age"%string]]} else ∅) {["people"%string := people_columns]}
    {[tree_key "people" 2 := aged ages; tree_key "people" 5 := age_entries ages]} (mkAdaptive ∅ 100 [])).

(** Scans of the trees, and SELECT with the index scan and no reordering. *)
Definition people_scan (name : string) (root : Z) : ST (VM (Engine Ix)) (list (Z * Row)) := on_index (on_trees (tree_scan_all name root)).
Definition tree_scans : TableScans Ix :=
  mkScans Ix people_scan (λ name root, rows ← people_scan name root; mret (map snd rows))
    (λ name root n, rows ← people_scan name root; mret (take (Z.to_nat n) (map snd rows))) (λ name root, rows ← people_scan name root; mret (zlen rows)).
#[local] Existing Instance tree_scans.
Definition index_planner (rec : SelectStmt → ST (VM (Engine Ix)) ExecResult) : Planner Ix := mkPlanner Ix (λ f _, f) (try_index_scan rec).
Fixpoint select_with_indexes (fuel : nat) (q : SelectStmt) : ST (VM (Engine Ix)) ExecResult :=
  match fuel with
  | O => st_lift Hang
  | S fuel => let _ := index_planner (select_with_indexes fuel) in select_body (select_with_indexes fuel) q
  end.
Definition ages_of (r : res ExecResult) : res (list Row) := r ← r; match r with QueryResult _ rows => Ok rows | _ => Ok [] end.
Definition age_col : SExpr' := ColumnRef None "age".
Definition select_age (f : FromClause) (e : SExpr') (ctes : list CteDefinition) : SelectStmt :=
  mkSelect false [SExpr age_col None] (Some f) (Some e) [] None [] None None ctes [] false.
Definition run_age (e : SExpr') (s : VM (Engine Ix)) : res (list Row) := ages_of (select_with_indexes 3 (select_age (FTable "people" None) e []) s).1.
Definition deleted (e : SExpr') (s : VM (Engine Ix)) : res (list Z) := (rowids_to_delete no_query "people" 2 people_map (Some e) s).1.

(** *** UPDATE and DELETE take every row the index finds *)

(** NULL sorts below every value, so that [age < 25] finds the rows whose age
    is NULL: DELETE removes them. *)
Lemma delete_by_index_removes_nulls :
  let ages := [VInteger 30; VNull; VInteger 20] in
  deleted (age_is LessThan 25) (people_with true ages) = Ok [2; 3]
  ∧ deleted (age_is LessThan 25) (people_with false ages) = Ok [3].
Proof. vm_compute. done. Qed.
(** The key of an integer is its double: beyond [2^53] different integers
    share one, and DELETE removes rows it was not asked to. *)
Lemma delete_by_index_collides :
  let ages := [VInteger (2 ^ 53); VInteger (2 ^ 53 + 1)] in
  deleted (age_is Equal (2 ^ 53 + 1)) (people_with true ages) = Ok [1; 2]
  ∧ deleted (age_is Equal (2 ^ 53 + 1)) (people_with false ages) = Ok [2].
Proof. vm_compute. done. Qed.
(** UPDATE evaluates its assignments on those rows too. *)
Lemma update_by_index_changes_nulls :
  let ages := [VNull; VInteger 20] in
  let set := [(1%nat, IntegerLiteral 0)] in
  (rows_to_update no_query "people" 2 set people_map (Some (age_is LessThan 25)) (people_with true ages)).1
    = Ok [(1, [VInteger 1; VNull], [VInteger 1; VInteger 0]); (2, [VInteger 2; VInteger 20], [VInteger 2; VInteger 0])]
  ∧ (rows_to_update no_query "people" 2 set people_map (Some (age_is LessThan 25)) (people_with false ages)).1
    = Ok [(2, [VInteger 2; VInteger 20], [VInteger 2; VInteger 0])].
Proof. vm_compute. done. Qed.

(** *** SELECT loses rows *)

(** The two zeros are equal but have different keys. *)
Lemma index_misses_negative_zero :
  let zero := BinaryOp age_col Equal (RealLiteral 0) in
  let ages := [VReal (2 ^ 63); VReal 0] in
  run_age zero (people_with true ages) = Ok [[VReal 0]] ∧ run_age zero (people_with false ages) = Ok [[VReal (2 ^ 63)]; [VReal 0]].
Proof. vm_compute. done. Qed.
(** The index scan reads the table past the snapshot of the transaction. *)
Lemma index_ignores_snapshot :
  let hide s := upd_engine (λ e, mkEngine Ix (tables e) (cte_cache e) 0 (mkUndoLog [UInsert "people" 2 9] 0) (Some (mkSnapshot 5 [] 4)) 5
    (row_locks e) (engine_rest e)) s in
  let ages := [VInteger 30; VInteger 40] in
  run_age (age_is GreaterThan 25) (hide (people_with true ages)) = Ok [[VInteger 30]; [VInteger 40]]
  ∧ run_age (age_is GreaterThan 25) (hide (people_with false ages)) = Ok [[VInteger 30]].
Proof. vm_compute. done. Qed.
(** A common table expression that has the name of an indexed table is passed
    over. *)
Lemma index_ignores_cte :
  let q := select_age (FTable "people" None) (age_is GreaterThan 25)
    [mkCte "people" [] (mkSelect false [SExpr (IntegerLiteral 99) (Some "age"%string)] None None [] None [] None None [] [] false) false] in
  ages_of (select_with_indexes 3 q (people_with true [VInteger 30])).1 = Ok [[VInteger 30]]
  ∧ ages_of (select_with_indexes 3 q (people_with false [VInteger 30])).1 = Ok [[VInteger 99]].
Proof. vm_compute. done. Qed.
(** In a correlated subquery the right side of [age = id] counts as a constant
    when the enclosing row has an [id]: the index looks up the outer value and
    the rows whose own [id] is their age are lost. *)
Lemma index_captures_outer_column :
  let outer s := set_outer_rows [([VInteger 7], {["id"%string := 0%nat]})] s in
  let e := BinaryOp age_col Equal (ColumnRef None "id") in
  let ages := [VInteger 1; VInteger 7] in
  run_age e (outer (people_with true ages)) = Ok [] ∧ run_age e (outer (people_with false ages)) = Ok [[VInteger 1]].
Proof. vm_compute. done. Qed.
