(* ===== verification/Checks.v ===== *)
(** CHECK constraints (src/src/vm/exec_dml.rs, [eval_check_expr_simple]): the
    evaluator of its own that INSERT and UPDATE use for the conditions of a
    table, apart from the evaluator of queries.

    The theorem: on the conditions it knows (comparisons, arithmetic, IS NULL,
    AND, OR, NOT) it refuses the rows for which the condition is false and
    accepts those for which it is true.  What goes wrong outside comes last. *)
From S2P Require Import Prelude Values Text Expr ExprTypes.
From Stdlib Require Import Floats.SpecFloat.

(** ** The evaluator *)

Section Checks.
Context {S W : Type} `{StdFns}.

(** [a as i32] of an ordering; for doubles two comparisons. *)
Definition sign_of (lt gt : bool) : Z := if lt then -1 else if gt then 1 else 0.
Definition f64_sign (a b : spec_float) : Z := sign_of (SFltb a b) (SFltb b a).
Definition chk_cmp (l r : Value) : Z :=
  match l, r with
  | VInteger a, VInteger b => sign_of (a <? b) (b <? a)
  | VReal a, VReal b => f64_sign (f64_of_bits a) (f64_of_bits b)
  | VInteger a, VReal b => f64_sign (f64_of_i64 a) (f64_of_bits b)
  | VReal a, VInteger b => f64_sign (f64_of_bits a) (f64_of_i64 b)
  | VText a, VText b => sign_of (bool_decide (bytes_cmp a b = Lt)) (bool_decide (bytes_cmp a b = Gt))
  | _, _ => 0
  end.
(** Arithmetic on i64 that panics on overflow. *)
Definition checked (z : Z) : res Value := if (- 2 ^ 63 <=? z) && (z <? 2 ^ 63) then Ok (VInteger z) else Panic.
Definition chk_arith (fi : Z → Z → Z) (ff : Z → Z → spec_float → spec_float → spec_float) (l r : Value) : res Value :=
  match l, r with
  | VInteger a, VInteger b => checked (fi a b)
  | VReal a, VReal b => Ok (f64_op ff (f64_of_bits a) (f64_of_bits b))
  | VInteger a, VReal b => Ok (f64_op ff (f64_of_i64 a) (f64_of_bits b))
  | VReal a, VInteger b => Ok (f64_op ff (f64_of_bits a) (f64_of_i64 b))
  | _, _ => Ok VNull
  end.
Definition chk_truthy (v : Value) : bool := match v with VInteger z => negb (z =? 0) | VNull => false | _ => true end.
(** The value of a column, NULL if there is none of that name. *)
Definition check_column (row : Row) (col_names : list string) (column : string) : Value :=
  default VNull ('(i, _) ← list_find (λ n, to_lowercase (bytes_of_string n) = to_lowercase (bytes_of_string column)) col_names; row !! i).
Definition check_compare (op : BinaryOperator) (l r : Value) : Value :=
  VBool match op with
  | Equal => value_eq l r
  | NotEqual => negb (value_eq l r)
  | LessThan => chk_cmp l r <? 0
  | LessThanOrEqual => chk_cmp l r <=? 0
  | GreaterThan => chk_cmp l r >? 0
  | _ => chk_cmp l r >=? 0
  end.
Definition check_binary (op : BinaryOperator) (l r : Value) : res Value :=
  match op with
  | Equal | NotEqual | LessThan | LessThanOrEqual | GreaterThan | GreaterThanOrEqual =>
      Ok (if is_null l || is_null r then VNull else check_compare op l r)
  | Add => chk_arith Z.add SFadd l r
  | Subtract => chk_arith Z.sub SFsub l r
  | Multiply => chk_arith Z.mul SFmul l r
  | Divide => match l, r with VInteger a, VInteger b => if b =? 0 then Ok VNull else checked (Z.quot a b) | _, _ => Ok VNull end
  | And => Ok (VBool (chk_truthy l && chk_truthy r))
  | Or => Ok (VBool (chk_truthy l || chk_truthy r))
  | _ => Ok VNull
  end.
Definition check_unary (op : UnaryOperator) (v : Value) : res Value :=
  match op with
  | Not => Ok (VBool (negb (chk_truthy v)))
  | Minus => match v with VInteger i => checked (- i) | VReal bits => Ok (VReal (Z.lxor bits (2 ^ 63))) | _ => Ok VNull end
  end.
Fixpoint eval_check_expr_simple (row : Row) (col_names : list string) (e : Expr S W) : res Value :=
  match e with
  | IntegerLiteral i => Ok (VInteger i)
  | RealLiteral bits => Ok (VReal bits)
  | StringLiteral s => Ok (VText s)
  | ENull => Ok VNull
  | ColumnRef _ column => Ok (check_column row col_names column)
  | BinaryOp e1 op e2 =>
      l ← eval_check_expr_simple row col_names e1;
      r ← eval_check_expr_simple row col_names e2;
      check_binary op l r
  | IsNull inner negated => v ← eval_check_expr_simple row col_names inner; Ok (VBool (xorb (is_null v) negated))
  | UnaryOp op inner => v ← eval_check_expr_simple row col_names inner; check_unary op v
  | _ => Ok VNull
  end.
(** [!matches!(val, Value::Integer(0))] *)
Definition check_passes (v : Value) : bool := match v with VInteger z => negb (z =? 0) | _ => true end.

(** ** Conditions on which it agrees with queries *)

Definition same_kind (l r : Value) : bool :=
  match l, r with
  | VText _, VText _ => true
  | (VInteger _ | VReal _), (VInteger _ | VReal _) => bool_decide (is_Some (partial_cmp l r))
  | _, _ => false
  end.
Definition is_real (v : Value) : bool := match v with VReal _ => true | _ => false end.
(** An operation on values for which it does what a query does: order on
    values of one kind, division of integers. *)
Definition op_agrees (op : BinaryOperator) (l r : Value) : bool :=
  match op with
  | Equal | NotEqual | Add | Subtract | Multiply => true
  | LessThan | LessThanOrEqual | GreaterThan | GreaterThanOrEqual => is_null l || is_null r || same_kind l r
  | Divide => negb (is_real l || is_real r)
  | _ => false
  end.
Section Fragment.
Context (row : Row) (col_names : list string).
Abbreviation check := (eval_check_expr_simple row col_names).
Definition on_value (p : Value → bool) (r : res Value) : bool := match r with Ok v => p v | _ => true end.
(** Terms: no logical connective; every operation agrees on its operands. *)
Fixpoint simple_term (e : Expr S W) : bool :=
  match e with
  | IntegerLiteral _ | RealLiteral _ | StringLiteral _ | ENull | ColumnRef _ _ => true
  | BinaryOp l op r => simple_term l && simple_term r && on_value (λ a, on_value (op_agrees op a) (check r)) (check l)
  | IsNull e _ => simple_term e
  | UnaryOp Minus e => simple_term e && on_value (λ v, match v with VText _ | VBlob _ => false | _ => true end) (check e)
  | _ => false
  end.
(** A truth value as a query gives it. *)
Definition is_flag (v : Value) : bool := match v with VInteger _ | VNull => true | _ => false end.
Fixpoint simple_condition (e : Expr S W) : bool :=
  match e with
  | BinaryOp l And r | BinaryOp l Or r => simple_condition l && simple_condition r
  | UnaryOp Not e => simple_condition e
  | _ => simple_term e && on_value is_flag (check e)
  end.
Fixpoint columns_in (e : Expr S W) : list (option string * string) :=
  match e with
  | ColumnRef t c => [(t, c)]
  | BinaryOp l _ r => columns_in l ++ columns_in r
  | IsNull e _ | UnaryOp _ e => columns_in e
  | _ => []
  end.
End Fragment.

(** ** Lemmas *)

Lemma sign_of_cmp (lt gt : bool) (c : comparison) : lt = bool_decide (c = Lt) → gt = bool_decide (c = Gt) →
  (sign_of lt gt <? 0) = bool_decide (c = Lt) ∧ (sign_of lt gt <=? 0) = bool_decide (c ≠ Gt)
  ∧ (sign_of lt gt >? 0) = bool_decide (c = Gt) ∧ (sign_of lt gt >=? 0) = bool_decide (c ≠ Lt).
Proof. intros -> ->. by destruct c. Qed.
Lemma f64_sign_cmp a b c : SFcompare a b = Some c → SFltb a b = bool_decide (c = Lt) ∧ SFltb b a = bool_decide (c = Gt).
Proof. intros Hc. unfold SFltb. rewrite (SFcompare_antisym a b), Hc. by destruct c. Qed.
Lemma chk_cmp_spec l r : same_kind l r = true → ∃ c, partial_cmp l r = Some c
  ∧ (chk_cmp l r <? 0) = bool_decide (c = Lt) ∧ (chk_cmp l r <=? 0) = bool_decide (c ≠ Gt)
  ∧ (chk_cmp l r >? 0) = bool_decide (c = Gt) ∧ (chk_cmp l r >=? 0) = bool_decide (c ≠ Lt).
Proof.
  destruct l as [|a|a|a|a], r as [|b|b|b|b]; cbn [same_kind]; try done; rewrite ?bool_decide_eq_true; cbn [partial_cmp chk_cmp].
  - intros _. exists (a ?= b). split; [done|]. apply sign_of_cmp.
    + apply Bool.eq_iff_eq_true. rewrite Z.ltb_lt, bool_decide_eq_true. apply Z.compare_lt_iff.
    + apply Bool.eq_iff_eq_true. rewrite Z.ltb_lt, bool_decide_eq_true. symmetry. apply Z.compare_gt_iff.
  - intros [c Hc]. exists c. split; [done|]. unfold f64_sign. destruct (f64_sign_cmp _ _ _ Hc). by apply sign_of_cmp.
  - intros [c Hc]. exists c. split; [done|]. unfold f64_sign. destruct (f64_sign_cmp _ _ _ Hc). by apply sign_of_cmp.
  - intros [c Hc]. exists c. split; [done|]. unfold f64_sign. destruct (f64_sign_cmp _ _ _ Hc). by apply sign_of_cmp.
  - intros _. exists (bytes_cmp a b). split; [done|]. by apply sign_of_cmp.
Qed.
Lemma checked_Ok z v : checked z = Ok v → v = VInteger z ∧ as_i64 z = z.
Proof.
  unfold checked. destruct ((- 2 ^ 63 <=? z) && (z <? 2 ^ 63)) eqn:E; [|done]. intros [= <-]. split; [done|].
  apply as_i64_id. unfold is_i64. lia.
Qed.

(** An operation that agrees. *)
Lemma op_agrees_spec op l r c : op_agrees op l r = true → check_binary op l r = Ok c → apply_binary_op op l r = c.
Proof.
  intros Ha Hc. unfold apply_binary_op. destruct (is_null l || is_null r) eqn:En.
  - destruct l, r; try done; destruct op; try done; cbn in Hc; by simplify_eq.
  - destruct op; try done; cbn [op_agrees check_binary] in Ha, Hc; rewrite ?En in Ha, Hc; cbn [orb] in Ha.
    all: try (by simplify_eq); try (apply chk_cmp_spec in Ha as (o & Ho & H1' & H2' & H3' & H4'); injection Hc as <-;
      unfold check_compare, cmp_is, cmp_is_not; rewrite Ho, ?H1', ?H2', ?H3', ?H4'; f_equal; apply bool_decide_ext; naive_solver).
    all: destruct l, r; try done; cbn [chk_arith arith] in *; try (by simplify_eq).
    all: try (apply checked_Ok in Hc as [-> Hz]; unfold wrapping_add, wrapping_sub, wrapping_mul; by rewrite Hz).
    destruct (_ =? 0); [by simplify_eq|]. apply checked_Ok in Hc as [-> Hz]. unfold wrapping_div. by rewrite Hz.
Qed.

(** It returns a value, or panics at an overflow. *)
Lemma check_returns row col_names e r : eval_check_expr_simple row col_names e = r → (∃ c, r = Ok c) ∨ r = Panic.
Proof.
  intros <-. revert e. fix IH 1. intros e. destruct e as [| | | | |t col| | |e1 op e2|op e1|e1 neg| | | | | | | | | | | | | | | ]; cbn [eval_check_expr_simple]; eauto.
  - destruct (IH e1) as [[a ->]| ->]; [|by right]. destruct (IH e2) as [[b ->]| ->]; [|by right]. cbn [mbind res_bind].
    destruct op; cbn [check_binary]; eauto; destruct a, b; cbn [chk_arith]; eauto; unfold checked; repeat case_match; eauto.
  - destruct (IH e1) as [[a ->]| ->]; [|by right]. cbn [mbind res_bind]. destruct op; cbn [check_unary]; eauto.
    destruct a; eauto; unfold checked; case_match; eauto.
  - destruct (IH e1) as [[a ->]| ->]; [|by right]. cbn [mbind res_bind]. eauto.
Qed.

Section Agreement.
Context {R : Type} `{SelectExec S R} `{OtherFunctions R} (row : Row) (col_names : list string) (cm : ColMap) (s : VM R).
Abbreviation check := (eval_check_expr_simple row col_names).
(** The queries' way of finding the columns finds the same ones. *)
Definition same_columns (e : Expr S W) : Prop :=
  ∀ t c, (t, c) ∈ columns_in e → resolve_column row cm (outer_rows s) t c = Ok (check_column row col_names c).

Lemma term_agrees e c : simple_term row col_names e = true → same_columns e → check e = Ok c → eval_expr row cm e s = (Ok c, s).
Proof.
  unfold same_columns. revert c. revert e. fix IH 1. intros e c. destruct e as [| | | | |t col| | |e1 op e2|op e1|e1 neg| | | | | | | | | | | | | | | ]; try done; cbn [simple_term columns_in eval_check_expr_simple].
  1-4: by intros _ _ [= <-].
  - intros _ Hcol [= <-]. cbn [eval_expr]. unfold st_gets. by rewrite Hcol by left.
  - intros [[H1' H2']%andb_true_iff Hop]%andb_true_iff Hcol. destruct (check e1) as [a| | |] eqn:E1; [|done..]. destruct (check e2) as [b| | |] eqn:E2; [|done..].
    cbn [mbind res_bind on_value] in Hop |- *. intros Hc.
    pose proof (IH e1 a H1' (λ t c Hin, Hcol t c (proj2 (elem_of_app _ _ _) (or_introl Hin))) E1) as HA.
    pose proof (IH e2 b H2' (λ t c Hin, Hcol t c (proj2 (elem_of_app _ _ _) (or_intror Hin))) E2) as HB.
    pose proof (op_agrees_spec op a b c Hop Hc) as Ho.
    destruct op; try done; cbn [eval_expr]; by rewrite ST_bind_unfold, HA, ST_bind_unfold, HB, Ho.
  - destruct op; [|done]. intros [H1' Hm]%andb_true_iff Hcol. destruct (check e1) as [a| | |] eqn:E1; [|done..]. cbn [mbind res_bind on_value] in Hm |- *.
    intros Hc. cbn [eval_expr]. rewrite ST_bind_unfold, (IH e1 a H1' Hcol E1). unfold st_lift.
    destruct a; try done; cbn [check_unary apply_unary_op] in *; [by simplify_eq| |by simplify_eq].
    apply checked_Ok in Hc as [-> Hz]. unfold wrapping_neg. by rewrite Hz.
  - intros H1' Hcol. destruct (check e1) as [a| | |] eqn:E1; [|done..]. cbn [mbind res_bind]. intros [= <-].
    cbn [eval_expr]. by rewrite ST_bind_unfold, (IH e1 a H1' Hcol E1).
Qed.
(** What the two evaluators know of a condition. *)
Definition verdict (v c : Value) : Prop :=
  is_flag v = true ∧ is_flag c = true ∧ (is_truthy v = true → chk_truthy c = true) ∧ (is_falsy v = true → c = VInteger 0).
Lemma verdict_self v : is_flag v = true → verdict v v.
Proof. intros Hv. split_and!; [done..| |]; destruct v; try done. cbn. unfold is_falsy. cbn. by intros ->%negb_true_iff%negb_false_iff%Z.eqb_eq. Qed.
Lemma verdict_bool v b : is_flag v = true → (is_truthy v = true → b = true) → (is_falsy v = true → b = false) → verdict v (VBool b).
Proof. intros Hv Ht Hf. split_and!; [done|done|by intros ->%Ht|by intros ->%Hf]. Qed.
Lemma verdict_truthy v c : verdict v c → (is_truthy v = true → chk_truthy c = true) ∧ (is_falsy v = true → chk_truthy c = false).
Proof. intros (_ & _ & Ht & Hf). split; [done|]. by intros ->%Hf. Qed.
(** The three truth values. *)
Lemma flag_cases v : is_flag v = true → v = VNull ∨ is_truthy v = true ∧ is_falsy v = false ∧ is_null v = false ∨ is_truthy v = false ∧ is_falsy v = true ∧ is_null v = false.
Proof. destruct v as [|z| | |]; try done; [by left|]. intros _. right. unfold is_falsy. cbn. destruct (z =? 0); cbn; [by right|by left]. Qed.
Lemma condition_agrees e c : simple_condition row col_names e = true → same_columns e → check e = Ok c →
  ∃ v, eval_expr row cm e s = (Ok v, s) ∧ verdict v c.
Proof.
  unfold same_columns. revert c. revert e. fix IH 1. intros e c.
  assert (simple_term row col_names e && on_value is_flag (check e) = true → same_columns e → check e = Ok c → ∃ v, eval_expr row cm e s = (Ok v, s) ∧ verdict v c) as Hleaf.
  { intros [H1' H2']%andb_true_iff Hcol Hc. exists c. split; [by apply term_agrees|]. rewrite Hc in H2'. by apply verdict_self. }
  destruct e as [| | | | |t col| | |e1 op e2|op e1|e1 neg| | | | | | | | | | | | | | | ]; try exact Hleaf.
  - assert (∀ op', op = op' → op' = And ∨ op' = Or → simple_condition row col_names e1 && simple_condition row col_names e2 = true →
      same_columns (BinaryOp e1 op e2) → check (BinaryOp e1 op e2) = Ok c → ∃ v, eval_expr row cm (BinaryOp e1 op e2) s = (Ok v, s) ∧ verdict v c) as Hcon.
    2: { destruct op; try exact Hleaf; [apply (Hcon And)|apply (Hcon Or)]; tauto. }
    intros op' -> Hop [H1' H2']%andb_true_iff Hcol. cbn [eval_check_expr_simple].
    destruct (check e1) as [a| | |] eqn:E1; [|done..]. destruct (check e2) as [b| | |] eqn:E2; [|done..]. cbn [mbind res_bind].
    destruct (IH e1 a H1' (λ t c Hin, Hcol t c (proj2 (elem_of_app _ _ _) (or_introl Hin))) E1) as (va & HA & HvA).
    destruct (IH e2 b H2' (λ t c Hin, Hcol t c (proj2 (elem_of_app _ _ _) (or_intror Hin))) E2) as (vb & HB & HvB).
    pose proof (verdict_truthy _ _ HvA) as [A1 A2]. pose proof (verdict_truthy _ _ HvB) as [B1 B2].
    destruct Hop as [-> | ->]; cbn [check_binary eval_expr]; intros [= <-]; unfold eval_and, eval_or; rewrite ST_bind_unfold, HA;
      (destruct (flag_cases va) as [-> |[(TA & FA & NA)|(TA & FA & NA)]]; [apply HvA| | |]); rewrite ?TA, ?FA, ?NA; cbn [is_falsy is_truthy is_null negb andb];
      rewrite ?ST_bind_unfold, ?HB; (destruct (flag_cases vb) as [-> |[(TB & FB & NB)|(TB & FB & NB)]]; [apply HvB| | |]);
      rewrite ?TB, ?FB, ?NB; cbn [is_falsy is_truthy is_null negb andb orb]; eexists; (split; [reflexivity|]); apply verdict_bool; try done; intros _;
      rewrite ?A1, ?B1, ?A2, ?B2 by done; rewrite ?andb_false_r, ?orb_true_r; done.
  - destruct op; [exact Hleaf|]. cbn [simple_condition columns_in eval_check_expr_simple]. intros H1' Hcol.
    destruct (check e1) as [a| | |] eqn:E1; [|done..]. cbn [mbind res_bind check_unary]. intros [= <-].
    destruct (IH e1 a H1' Hcol E1) as (va & HA & HvA). pose proof (verdict_truthy _ _ HvA) as [A1 A2].
    cbn [eval_expr]. rewrite ST_bind_unfold, HA. unfold st_lift, apply_unary_op.
    destruct (flag_cases va) as [-> |[(TA & FA & NA)|(TA & FA & NA)]]; [apply HvA|..]; rewrite ?NA, ?TA; cbn [is_null negb]; eexists; (split; [reflexivity|]); apply verdict_bool; try done.
    + by rewrite A1.
    + by rewrite A2.
Qed.
End Agreement.
End Checks.

(** ** Properties *)

(** [C39] A CHECK decides its condition: on a condition made of comparisons,
    sums, differences, products, quotients without doubles, negation, IS NULL,
    AND, OR and NOT, where the operands of an order comparison are of one kind, the
    evaluator of constraints returns, or panics at an overflow; where it
    returns, a row for which a query finds the condition true is accepted, and
    one for which a query finds it false is refused; and without connectives the
    two evaluators give the same value, so that an unknown comparison is
    accepted.  Quotients of doubles and remainders are left out: the evaluator
    of constraints takes them for unknown. *)
Theorem check_constraint_correct {S W R} `{StdFns} `{SelectExec S R} `{OtherFunctions R} (row : Row) (col_names : list string)
    (cm : ColMap) (s : VM R) (e : Expr S W)
    (Hcond : simple_condition row col_names e = true) (Hcols : same_columns row col_names cm s e) :
  match eval_check_expr_simple row col_names e with
  | Ok c =>
      ∃ v, eval_expr row cm e s = (Ok v, s)
      ∧ (is_null v = false → check_passes c = is_truthy v)
      ∧ (simple_term row col_names e = true → c = v)
  | Panic => True
  | Err _ | Hang => False
  end.
Proof.
  destruct (eval_check_expr_simple row col_names e) as [c|err| |] eqn:Ec; [|exfalso|done|exfalso].
  - destruct (condition_agrees row col_names cm s e c Hcond Hcols Ec) as (v & Hv & Hfv & Hfc & Ht & Hf). exists v. split; [done|]. split.
    + intros Hn. unfold is_falsy in Hf. rewrite Hn in Hf. destruct (is_truthy v); [|by rewrite Hf].
      specialize (Ht eq_refl). by destruct c.
    + intros Hterm. pose proof (term_agrees row col_names cm s e c Hterm Hcols Ec) as Hv'. congruence.
  - by apply (check_returns row col_names e (Err err)) in Ec as [[? ?]|?].
  - by apply (check_returns row col_names e Hang) in Ec as [[? ?]|?].
Qed.

Section Sample.
#[local] Existing Instance ascii_std.
#[local] Existing Instance count_select.
#[local] Existing Instance no_functions.
Abbreviation E := (Expr nat unit).
Definition price : E := ColumnRef None "price".
Definition cost : E := ColumnRef None "cost".
Definition names : list string := ["Price"; "cost"]%string.
Definition names_map : ColMap := {["price"%string := 0%nat; "cost"%string := 1%nat]}.
(** [price > cost + 1 AND (price <= 100 OR cost IS NULL)] *)
Definition price_check : E :=
  BinaryOp (BinaryOp price GreaterThan (BinaryOp cost Add (IntegerLiteral 1))) And
    (BinaryOp (BinaryOp price LessThanOrEqual (IntegerLiteral 100)) Or (IsNull cost false)).
Definition refuses (e : E) (row : Row) : bool := match eval_check_expr_simple row names e with Ok v => negb (check_passes v) | _ => false end.
(** What a query says of the condition. *)
Definition queried (e : E) (row : Row) : res Value := (eval_expr row names_map e sample_vm).1.

Lemma check_constraint_correct_witness :
  (refuses price_check [VInteger 7; VInteger 5] = false ∧ queried price_check [VInteger 7; VInteger 5] = Ok (VInteger 1))
  ∧ refuses price_check [VInteger 120; VInteger 5] = true.
Proof.
  split; [|by vm_compute].
  pose proof (check_constraint_correct [VInteger 7; VInteger 5] names names_map sample_vm price_check eq_refl) as Hc.
  assert (same_columns [VInteger 7; VInteger 5] names names_map sample_vm price_check) as Hcols.
  { intros t c Hin. assert ((t, c) = (None, "price"%string) ∨ (t, c) = (None, "cost"%string)) as [[= -> ->]|[= -> ->]] by (cbn in Hin; set_solver); done. }
  assert (eval_check_expr_simple [VInteger 7; VInteger 5] names price_check = Ok (VInteger 1)) as Ec by (vm_compute; done).
  specialize (Hc Hcols). rewrite Ec in Hc. destruct Hc as (v & Hv & _). unfold refuses, queried. rewrite Ec, Hv.
  split; [done|]. rewrite <- Hv. by vm_compute.
Defined.

(** *** Constraints that are not the conditions they are written as *)

(** An unknown operand of AND counts as false: a row whose condition is
    unknown is refused, which a single unknown comparison is not. *)
Lemma check_refuses_unknown :
  let e := BinaryOp (BinaryOp price GreaterThan (IntegerLiteral 0)) And (BinaryOp cost GreaterThan (IntegerLiteral 0)) in
  queried e [VNull; VInteger 5] = Ok VNull ∧ refuses e [VNull; VInteger 5] = true
  ∧ refuses (BinaryOp price GreaterThan (IntegerLiteral 0)) [VNull; VInteger 5] = false.
Proof. vm_compute. done. Qed.
(** Every expression the evaluator does not know is NULL, so that a CHECK with
    BETWEEN, IN, LIKE, a function, a cast, even parentheses is never enforced. *)
Lemma check_ignores_predicates :
  let row := [VInteger 200; VInteger 5] in
  map (λ e, (queried e row, refuses e row))
    [Between price (IntegerLiteral 0) (IntegerLiteral 100) false; InList price [IntegerLiteral 1; IntegerLiteral 2] false;
     Nested (BinaryOp price LessThan cost); BinaryOp (Function "ABS" [price] false) LessThan (IntegerLiteral 9);
     BinaryOp (BinaryOp price Modulo (IntegerLiteral 3)) Equal (IntegerLiteral 0)]
  = repeat (Ok (VInteger 0), false) 5.
Proof. vm_compute. done. Qed.
(** So is one that divides a double. *)
Lemma check_ignores_real_division :
  let e := BinaryOp (BinaryOp price Divide (RealLiteral 0x4000000000000000)) LessThan (IntegerLiteral 10) in
  queried e [VReal 0x4059000000000000; VNull] = Ok (VInteger 0) ∧ refuses e [VReal 0x4059000000000000; VNull] = false.
Proof. vm_compute. done. Qed.
(** Values of different kinds are neither less nor greater: a text passes
    [price <= 100], which a query finds false. *)
Lemma check_compares_kinds_as_equal :
  let e := BinaryOp price LessThanOrEqual (IntegerLiteral 100) in
  queried e [VText [97]; VNull] = Ok (VInteger 0) ∧ refuses e [VText [97]; VNull] = false.
Proof. vm_compute. done. Qed.
End Sample.
