(* ===== verification/Dml.v ===== *)
(** INSERT, UPDATE and DELETE (src/src/vm/exec_dml.rs): the conflict policies
    of INSERT, NOT NULL, CHECK and FOREIGN KEY, the referential actions of a
    parent, triggers, RETURNING, and what a statement leaves in the indexes,
    the undo log, the row locks and the binary log.

    Parsing and executing the text of a statement (triggers and cascades) is
    the interface [ExecuteSql]; full-text and vector indexes are
    [SearchIndexes]; the transactions of the pagers are [Pagers]. *)
From S2P Require Import Prelude Values Text Expr Mvcc RowLocks Binlog Joins Aggregates Window Select IndexCache IndexScan Checks.

(** ** Syntax *)

Inductive ConflictPolicy : Type :=
  | OnConflictError
  | OnConflictReplace
  | OnConflictIgnore
  | OnConflictUpdate (assignments : list (string * SExpr')).
Inductive InsertSource : Type := InsertValues (rows : list (list SExpr')) | InsertSelect (query : SelectStmt).
Record InsertStmt : Type := mkInsert {
  insert_table : string; insert_columns : option (list string); insert_source : InsertSource; conflict : ConflictPolicy;
  insert_returning : option (list SExpr') }.
Record UpdateStmt : Type := mkUpdate {
  update_table : string; assignments : list (string * SExpr'); update_where : option SExpr'; update_returning : option (list SExpr') }.
Record DeleteStmt : Type := mkDelete { delete_table : string; delete_where : option SExpr'; delete_returning : option (list SExpr') }.
Inductive FkAction : Type := Restrict | Cascade | SetNull.
Inductive TriggerTiming : Type := Before | After.
Inductive TriggerEvent : Type := EvInsert | EvUpdate | EvDelete.
#[export] Instance TriggerTiming_eq_dec : EqDecision TriggerTiming.
Proof. solve_decision. Defined.
#[export] Instance TriggerEvent_eq_dec : EqDecision TriggerEvent.
Proof. solve_decision. Defined.

(** ** State *)

Record ForeignKey : Type := mkFk {
  fk_col_name : string; fk_col_index : nat; ref_table : string; ref_col : option string; on_delete : FkAction; on_update : FkAction }.
Record Trigger : Type := mkTrigger { timing : TriggerTiming; event : TriggerEvent; body_sql : bytes }.
(** The rest of a [TableSchema], beside what SELECT ([Select.Table]) and the
    indexes ([IndexCache.ColumnInfo]) read of it. *)
Record TableInfo : Type := mkInfo { schema_name : string; next_rowid : Z; foreign_keys : list ForeignKey; check_constraints : list (option string * SExpr') }.
(** A clone of the schema. *)
Record SchemaCopy : Type := mkCopy {
  sc_tables : gmap string Table; sc_infos : gmap string TableInfo; sc_triggers : gmap string (list Trigger);
  sc_indexes : gmap string IndexSchema; sc_by_table : gmap string (list string); sc_columns : gmap string (list ColumnInfo) }.
Record Dml {T : Type} : Type := mkDml {
  dml_vm : VM (Engine (IxState T));
  infos : gmap string TableInfo;
  triggers : gmap string (list Trigger);
  binlog : Host;
  schema_snapshot : option SchemaCopy;
}.
Arguments Dml : clear implicits.

(** The transactions of the catalogue's pager, and of the pagers of tables that
    have a file of their own. *)
Class Pagers (T : Type) := mkPagers {
  in_transaction : T → bool;
  active_txid : T → option Z;
  begin_transaction : ST T unit;
  commit_transaction : ST T unit;
  rollback_transaction : ST T unit;
  rollback_table_pagers : T → T;
  flush_pagers : ST T unit;
}.
Class ExecuteSql (D : Type) := execute_sql : bytes → ST D ExecResult.
Class SearchIndexes (D : Type) := mkSearch {
  maintain_fts_insert : string → Z → Row → ST D unit;
  maintain_fts_delete : string → Z → ST D unit;
  maintain_vec_insert : string → Z → Row → ST D unit;
  maintain_vec_delete : string → Z → ST D unit;
}.

(** [let _ = m] *)
Definition ignore_result {S A} (m : ST S A) : ST S unit := λ s,
  match m s with (Ok _, s') | (Err _, s') => (Ok tt, s') | (Panic, s') => (Panic, s') | (Hang, s') => (Hang, s') end.
(** [rid + 1] on i64 *)
Definition succ_i64 (z : Z) : res Z := if z =? 2 ^ 63 - 1 then Panic else Ok (z + 1).

(** ** The text of triggers *)

Fixpoint split_on (sep : Z) (l : bytes) : list bytes :=
  match l with
  | [] => [[]]
  | b :: l' => if b =? sep then [] :: split_on sep l' else match split_on sep l' with w :: ws => (b :: w) :: ws | [] => [[b]] end
  end.
Definition is_boundary (s : bytes) (i : nat) : bool :=
  match s !! i with Some b => negb ((128 <=? b) && (b <? 192)) | None => bool_decide (i = length s) end.
Definition str_slice (s : bytes) (i j : nat) : res bytes :=
  if bool_decide (i ≤ j)%nat && is_boundary s i && is_boundary s j then Ok (take (j - i) (drop i s)) else Panic.
Definition keyword (s : string) : bytes := bytes_of_string s.
Definition ends_with (p s : bytes) : bool := starts_with (rev p) (rev s).
(** The statements of the body of a trigger. *)
Definition trigger_statements `{StdFns} (body : bytes) : res (list bytes) :=
  let sql := trim body in
  if bool_decide (lower_bytes sql = keyword "begin") || bool_decide (lower_bytes sql = keyword "end") then Ok []
  else
    inner ← (if starts_with (keyword "BEGIN") (to_uppercase sql) && ends_with (keyword "END") (to_uppercase sql)
             then inner ← str_slice sql 5 (length sql - 3); Ok (trim inner) else Ok sql);
    Ok (List.filter (λ s, negb (zlen s =? 0)) (map trim (split_on 59 inner))).

(** ** Columns and literals *)

Definition column_index (cs : list ColumnInfo) (name : string) : option nat :=
  col_index <$> List.find (λ c, eq_ignore_ascii_case (column_name c) name) cs.
Definition pk_index (cs : list ColumnInfo) : option nat := col_index <$> List.find primary_key cs.
(** A map from lower-case names; the last of two equal ones counts. *)
Definition lower_col_map (l : list (string * nat)) : ColMap := foldl (λ m '(name, i), <[to_ascii_lowercase name := i]> m) ∅ l.
(** A value as a literal in the text of a cascade. *)
Definition sql_literal (v : Value) : option bytes :=
  match v with
  | VInteger i => Some (show_i64 i)
  | VReal bits => Some (show_f64 (f64_of_bits bits))
  | VText t => Some ([39] ++ str_replace [39] [39; 39] t ++ [39])
  | VNull | VBlob _ => None
  end.
Definition delete_children_sql (child col : string) (literal : bytes) : bytes :=
  keyword ("DELETE FROM " +:+ child +:+ " WHERE " +:+ col +:+ " = ") ++ literal.
Definition update_children_sql (child col : string) (new literal : bytes) : bytes :=
  keyword ("UPDATE " +:+ child +:+ " SET " +:+ col +:+ " = ") ++ new ++ keyword (" WHERE " +:+ col +:+ " = ") ++ literal.
(** [Schema::index_key] *)
Definition row_index_key (vs : list Value) : bytes := mjoin (map (λ v, le_bytes 4 (as_u32 (zlen (serialize v))) ++ serialize v) vs).

Section Dml.
Context {T : Type} `{StdFns} `{Crc32} `{Trees T} `{CatalogRoots T} `{Pagers T} `{ExecuteSql (Dml T)} `{SearchIndexes (Dml T)}
  `{OtherFunctions (Engine (IxState T))} `{FtsScan (IxState T)}.
Context (rec : SelectStmt → ST (VM (Engine (IxState T))) ExecResult) (value_size : Z).
#[local] Instance dml_query : SelectExec SelectStmt (Engine (IxState T)) := rec.
Abbreviation V := (VM (Engine (IxState T))).
Abbreviation D := (ST (Dml T)).

(** ** Access to the state *)

Definition set_vm (v : V) (s : Dml T) : Dml T := mkDml T v (infos s) (triggers s) (binlog s) (schema_snapshot s).
Definition set_infos (i : gmap string TableInfo) (s : Dml T) : Dml T := mkDml T (dml_vm s) i (triggers s) (binlog s) (schema_snapshot s).
Definition set_binlog (b : Host) (s : Dml T) : Dml T := mkDml T (dml_vm s) (infos s) (triggers s) b (schema_snapshot s).
Definition set_snapshot (c : option SchemaCopy) (s : Dml T) : Dml T := mkDml T (dml_vm s) (infos s) (triggers s) (binlog s) c.
Definition engine (s : Dml T) : Engine (IxState T) := vm_rest (dml_vm s).
Definition ix (s : Dml T) : IxState T := engine_rest (engine s).
Definition pagers (s : Dml T) : T := trees (ix s).
Definition on_vm {A} (m : ST V A) : D A := λ s, let '(r, v) := m (dml_vm s) in (r, set_vm v s).
Definition on_ix {A} (m : ST (IxState T) A) : D A := on_vm (on_index m).
Definition on_pager {A} (m : ST T A) : D A := on_ix (on_trees m).
Definition set_tables (f : gmap string Table → gmap string Table) (e : Engine (IxState T)) : Engine (IxState T) :=
  mkEngine _ (f (tables e)) (cte_cache e) (current_rowid e) (undo_log e) (snapshot_in_use e) (txn_id e) (row_locks e) (engine_rest e).
Definition set_undo_log (l : UndoLog) (e : Engine (IxState T)) : Engine (IxState T) :=
  mkEngine _ (tables e) (cte_cache e) (current_rowid e) l (snapshot_in_use e) (txn_id e) (row_locks e) (engine_rest e).
Definition table_of (name : string) : D Table := on_vm (get_table name).
Definition columns_of_table (name : string) : D (list ColumnInfo) := on_ix (get_columns name).
Definition info_of (name : string) : D TableInfo :=
  st_gets (λ s, match infos s !! to_ascii_lowercase name with Some i => Ok i | None => Err (TableNotFound name) end).
Definition set_root (name : string) (root : Z) : D unit :=
  on_vm (modify (set_tables (alter (λ t, mkTable root (col_names t) (column_count t) (view_select t) (rls_enabled t) (policies t)) (to_ascii_lowercase name)))).
Definition set_next_rowid (name : string) (next : Z) : D unit :=
  st_modify (λ s, set_infos (alter (λ i, mkInfo (schema_name i) next (foreign_keys i) (check_constraints i)) (to_ascii_lowercase name) (infos s)) s).
(** [update_row]: deletes and inserts. *)
Definition tree_update (name : string) (root rowid : Z) (row : Row) : ST T Z :=
  '(_, root) ← tree_delete name root rowid; tree_insert name root rowid row.
Definition clone_schema (s : Dml T) : SchemaCopy :=
  mkCopy (tables (engine s)) (infos s) (triggers s) (indexes (ix s)) (indexes_by_table (ix s)) (table_columns (ix s)).
Definition restore_schema (c : SchemaCopy) (s : Dml T) : Dml T :=
  let x := ix s in
  let x := mkIx T (index_eq_cache x) (index_rowid_cache x) (index_ordered_cache x) (sc_indexes c) (sc_by_table c) (sc_columns c) (trees x) (adaptive x) in
  mkDml T (upd_engine (λ e, set_engine_rest x (set_tables (λ _, sc_tables c) e)) (dml_vm s)) (sc_infos c) (sc_triggers c) (binlog s) (schema_snapshot s).

(** ** Triggers *)

Definition get_triggers (name : string) (t : TriggerTiming) (e : TriggerEvent) (s : Dml T) : list Trigger :=
  List.filter (λ g, bool_decide (timing g = t) && bool_decide (event g = e))
    (default [] (triggers s !! string_of_bytes (to_lowercase (bytes_of_string name)))).
(** Their errors are ignored. *)
Definition fire_triggers (name : string) (t : TriggerTiming) (e : TriggerEvent) : D unit :=
  s ← st_get;
  st_iter (λ body, statements ← st_lift (trigger_statements body); st_iter (λ sql, ignore_result (execute_sql sql)) statements)
    (map body_sql (get_triggers name t e s)).

(** ** Constraints *)

Definition check_error (name : string) (constraint : option string) : KkdbError :=
  ConstraintViolation ("CHECK constraint " +:+ default "CHECK"%string constraint +:+ " failed for table " +:+ name).
Definition check_constraints_for_row (name : string) (row : Row) : D unit :=
  t ← table_of name;
  info ← info_of name;
  st_iter (λ '(constraint, e),
    v ← st_lift (eval_check_expr_simple row (col_names t) e);
    if check_passes v then mret tt else st_err (check_error name constraint)) (check_constraints info).
(** The column of a parent that a key refers to; the first one when there is
    none of that name, or no primary key. *)
Definition referenced_column (cs : list ColumnInfo) (col : option string) : option nat :=
  match col with Some c => column_index cs c | None => pk_index cs end.
(** [scan_rows] reads the rows of [scan_all] (BTreeTree). *)
Definition fk_value_exists_in_parent (name : string) (col : option string) (v : Value) : D bool :=
  t ← table_of name;
  cs ← columns_of_table name;
  rows ← on_pager (tree_scan_all name (root_page t));
  let idx := default 0%nat (referenced_column cs col) in
  mret (existsb (λ row : Row, match row !! idx with Some w => value_eq w v | None => false end) (map snd rows)).
Definition fk_insert_error (name : string) (fk : ForeignKey) : KkdbError :=
  ConstraintViolation ("FOREIGN KEY constraint failed: " +:+ name +:+ "." +:+ fk_col_name fk +:+ " references " +:+ ref_table fk).
Definition check_fk_on_insert (name : string) (row : Row) : D unit :=
  info ← info_of name;
  st_iter (λ fk,
    let v := default VNull (row !! fk_col_index fk) in
    if is_null v then mret tt
    else
      found ← fk_value_exists_in_parent (ref_table fk) (ref_col fk) v;
      if found : bool then mret tt else st_err (fk_insert_error name fk)) (foreign_keys info).
(** The tables of the schema, and the keys of one of them into [parent]. *)
Definition list_tables (s : Dml T) : list string := map fst (map_to_list (tables (engine s))).
Definition fks_into (parent : string) (info : TableInfo) : list ForeignKey :=
  List.filter (λ fk, eq_ignore_ascii_case (ref_table fk) parent) (foreign_keys info).
Definition for_children (parent : string) (f : string → ForeignKey → D unit) : D unit :=
  s ← st_get;
  st_iter (λ child,
    s ← st_get;
    match infos s !! to_ascii_lowercase child with
    | None => mret tt
    | Some info => st_iter (f child) (fks_into parent info)
    end) (list_tables s).
Definition fk_delete_error (parent child : string) : KkdbError :=
  ConstraintViolation ("FOREIGN KEY constraint failed: deleting from " +:+ parent +:+ " has dependent rows in " +:+ child).
Definition enforce_fk_parent_delete (parent : string) (row : Row) : D unit :=
  for_children parent (λ child fk,
    cs ← columns_of_table parent;
    match (i ← referenced_column cs (ref_col fk); row !! i) with
    | None | Some VNull => mret tt
    | Some v =>
        match on_delete fk with
        | Cascade =>
            match sql_literal v with
            | Some lit => _ ← execute_sql (delete_children_sql child (fk_col_name fk) lit); mret tt
            | None => mret tt
            end
        | SetNull =>
            match sql_literal v with
            | Some lit => _ ← execute_sql (update_children_sql child (fk_col_name fk) (keyword "NULL") lit); mret tt
            | None => mret tt
            end
        | Restrict =>
            has_child ← fk_value_exists_in_parent child (Some (fk_col_name fk)) v;
            if has_child : bool then st_err (fk_delete_error parent child) else mret tt
        end
    end).
Definition fk_update_error (parent child col : string) : KkdbError :=
  ConstraintViolation ("FOREIGN KEY constraint failed: updating " +:+ parent +:+ " changes referenced value in " +:+ child +:+ "." +:+ col).
Definition enforce_fk_parent_update (parent : string) (old_row new_row : Row) : D unit :=
  for_children parent (λ child fk,
    cs ← columns_of_table parent;
    let i := default 0%nat (referenced_column cs (ref_col fk)) in
    let old := default VNull (old_row !! i) in
    let new := default VNull (new_row !! i) in
    if value_eq old new || is_null old then mret tt
    else
      match sql_literal old, (if is_null new then Some (keyword "NULL") else sql_literal new) with
      | Some old_lit, Some new_lit =>
          match on_update fk with
          | Cascade => _ ← execute_sql (update_children_sql child (fk_col_name fk) new_lit old_lit); mret tt
          | SetNull => _ ← execute_sql (update_children_sql child (fk_col_name fk) (keyword "NULL") old_lit); mret tt
          | Restrict =>
              has_child ← fk_value_exists_in_parent child (Some (fk_col_name fk)) old;
              if has_child : bool then st_err (fk_update_error parent child (fk_col_name fk)) else mret tt
          end
      | _, _ => mret tt
      end).

(** ** Logs *)

Definition log_record (record : Z → LogRecord) : D unit :=
  st_modify (λ s, set_binlog (append (record (default 0 (active_txid (pagers s)))) (binlog s)).2 s).
Definition in_explicit_transaction (s : Dml T) : bool := in_transaction (pagers s) && negb (txn_id (engine s) =? 0).
(** [UndoLog::push] of an entry of the current transaction. *)
Definition push_undo (entry : Z → UndoEntry) : D unit :=
  st_modify (λ s, set_vm (upd_engine (λ e, set_undo_log (push value_size (entry (txn_id e)) (undo_log e)) e) (dml_vm s)) s).
Definition record_undo (entry : Z → UndoEntry) : D unit := s ← st_get; if in_explicit_transaction s then push_undo entry else mret tt.
Definition lock_row (name : string) (rowid : Z) : D unit := λ s,
  let '(r, m) := try_lock_row name rowid (txn_id (engine s)) (row_locks (engine s)) in (r, set_vm (upd_engine (set_row_locks m) (dml_vm s)) s).
Definition lock_and_record_undo (name : string) (rowid : Z) (entry : option (Z → UndoEntry)) : D unit :=
  s ← st_get;
  if in_explicit_transaction s then _ ← lock_row name rowid; match entry with Some e => push_undo e | None => mret tt end
  else mret tt.
Definition log_insert (name : string) (rowid : Z) (row : Row) : D unit := log_record (λ t, Binlog.Insert t (bytes_of_string name) rowid row).
Definition log_update (name : string) (rowid : Z) (old_row new_row : Row) : D unit :=
  log_record (λ t, Binlog.Update t (bytes_of_string name) rowid old_row new_row).
(** [auto_flush] *)
Definition auto_flush : D unit := s ← st_get; if in_transaction (pagers s) then mret tt else on_pager flush_pagers.

(** ** INSERT *)

(** The columns an INSERT names. *)
Definition insert_indices (cs : list ColumnInfo) (names : option (list string)) : res (list nat) :=
  match names with
  | Some names =>
      mapM (λ c, match list_find (λ tc, eq_ignore_ascii_case (column_name tc) c) cs with Some (i, _) => Ok i | None => Err (ColumnNotFound c) end) names
  | None => Ok (seq 0 (length cs))
  end.
Definition fill_row (n : nat) (indices : list nat) (values : list Value) : Row :=
  foldl (λ row '(i, v), <[i := v]> row) (repeat VNull n) (zip indices values).
(** The row id, the next one, and the row with its key. *)
Definition assign_rowid (pk : option nat) (next : Z) (row : Row) : res (Z * Z * Row) :=
  match pk with
  | Some i =>
      match row !! i with
      | None => Panic
      | Some (VInteger v) => if next <=? v then n ← succ_i64 v; Ok (v, n, row) else Ok (v, next, row)
      | Some VNull => n ← succ_i64 next; Ok (next, n, <[i := VInteger next]> row)
      | Some _ => n ← succ_i64 next; Ok (next, n, row)
      end
  | None => n ← succ_i64 next; Ok (next, n, row)
  end.
Definition not_null_error (name column : string) : KkdbError := ConstraintViolation ("NOT NULL constraint failed: " +:+ name +:+ "." +:+ column).
Fixpoint check_not_null (name : string) (cs : list ColumnInfo) (row : Row) : res unit :=
  match cs with
  | [] => Ok tt
  | c :: cs' =>
      if not_null c && negb (primary_key c) then
        match row !! col_index c with
        | None => Panic
        | Some VNull => Err (not_null_error name (column_name c))
        | Some _ => check_not_null name cs' row
        end
      else check_not_null name cs' row
  end.

Section Policies.
(** The table as the statement names it and as the schema does, and its
    columns. *)
Context (name own_name : string) (cs : list ColumnInfo).

(** Each policy gives the new root, and whether the row counts. *)
Definition insert_or_error (root rowid : Z) (row : Row) : D Z :=
  _ ← on_ix (validate_unique_indexes_for_row name rowid row None);
  new_root ← on_pager (tree_insert name root rowid row);
  _ ← on_ix (insert_index_entries name rowid row);
  _ ← maintain_fts_insert name rowid row;
  _ ← maintain_vec_insert name rowid row;
  _ ← log_insert name rowid row;
  _ ← record_undo (UInsert name rowid);
  _ ← fire_triggers name After EvInsert;
  mret new_root.
(** [.err().filter(|e| matches!(e, ConstraintViolation(_)))]: any other error
    counts as no conflict. *)
Definition constraint_conflict (m : D unit) : D bool := λ s,
  match m s with
  | (Ok _, s') => (Ok false, s')
  | (Err (ConstraintViolation _), s') => (Ok true, s')
  | (Err _, s') => (Ok false, s')
  | (Panic, s') => (Panic, s')
  | (Hang, s') => (Hang, s')
  end.
Definition insert_or_ignore (root rowid : Z) (row : Row) : D (option Z) :=
  conflict ← constraint_conflict (on_ix (validate_unique_indexes_for_row name rowid row None));
  pk_exists ← match pk_index cs with
              | Some _ => found ← on_pager (tree_find name root rowid); mret (bool_decide (is_Some found))
              | None => mret false
              end;
  if (conflict : bool) || (pk_exists : bool) then mret None
  else
    new_root ← on_pager (tree_insert name root rowid row);
    _ ← on_ix (insert_index_entries name rowid row);
    _ ← log_insert name rowid row;
    _ ← fire_triggers name After EvInsert;
    mret (Some new_root).

(** The first row whose column [i] is [v]. *)
Definition find_by_column (i : nat) (v : Value) (rows : list (Z * Row)) : option Z :=
  fst <$> List.find (λ r : Z * Row, match r.2 !! i with Some w => value_eq w v | None => false end) rows.
Definition existing_rowid_for_pk (root : Z) (row : Row) : D (option Z) :=
  match pk_index cs with
  | None => mret None
  | Some i =>
      match default VNull (row !! i) with
      | VInteger k => found ← on_pager (tree_find name root k); mret (_ ← found; Some k)
      | v => rows ← on_pager (tree_scan_all name root); mret (find_by_column i v rows)
      end
  end.
Definition remove_row (root rowid : Z) : D Z :=
  _ ← maintain_fts_delete name rowid;
  _ ← on_ix (delete_index_entries name rowid);
  '(_, new_root) ← on_pager (tree_delete name root rowid);
  mret new_root.
(** The rows with the key of [row] in a unique index. *)
Definition index_conflicts (rowid : Z) (row : Row) (idx : IndexSchema) : D (list Z) :=
  if negb (unique idx) then mret []
  else
    cs ← columns_of_table name;
    key ← st_lift (mapM (M := res) (λ i, at_index row i) (omap (column_index cs) (index_columns idx)));
    if existsb is_null key then mret []
    else
      rows ← on_pager (tree_scan_all name (index_root idx));
      mret (omap (λ r : Z * Row,
        match last r.2 with
        | Some (VInteger t) =>
            if negb (t =? rowid) && bool_decide (row_index_key (take (length r.2 - 1) r.2) = row_index_key key) then Some t else None
        | _ => None
        end) rows).
Definition insert_or_replace (root rowid : Z) (row : Row) : D Z :=
  existing ← existing_rowid_for_pk root row;
  root ← match existing with
         | None => mret root
         | Some old =>
             old_row ← on_pager (tree_find name root old);
             root ← remove_row root old;
             _ ← match old_row with Some (_, r) => record_undo (UDelete name old r) | None => mret tt end;
             mret root
         end;
  s ← st_get;
  conflicts ← st_flat_map (index_conflicts rowid row) (indexes_for_table name (ix s));
  root ← (fix go (l : list Z) (root : Z) : D Z :=
            match l with [] => mret root | c :: l' => root ← remove_row root c; go l' root end) conflicts root;
  new_root ← on_pager (tree_insert name root rowid row);
  _ ← on_ix (insert_index_entries name rowid row);
  _ ← maintain_fts_insert name rowid row;
  _ ← maintain_vec_insert name rowid row;
  _ ← log_insert name rowid row;
  _ ← fire_triggers name After EvInsert;
  mret new_root.
(** ON CONFLICT DO UPDATE: the assignments on the existing row. *)
Definition upsert_row (assignments : list (string * SExpr')) (col_map : ColMap) (old_row : Row) : D Row :=
  (fix go (l : list (string * SExpr')) (new_row : Row) : D Row :=
     match l with
     | [] => mret new_row
     | (c, e) :: l' =>
         cs ← columns_of_table name;
         match column_index cs c with
         | None => go l' new_row
         | Some i => v ← on_vm (eval_expr old_row col_map e); go l' (<[i := v]> new_row)
         end
     end) assignments old_row.
Definition insert_or_update (assignments : list (string * SExpr')) (root rowid : Z) (row : Row) : D Z :=
  let i := default 0%nat (pk_index cs) in
  existing ← on_pager (tree_scan_all name root);
  match find_by_column i (default VNull (row !! i)) existing with
  | Some old =>
      found ← on_pager (tree_find name root old);
      let old_row := match found with Some (_, r) => r | None => [] end in
      t ← table_of name;
      new_row ← upsert_row assignments (lower_col_map (imap (λ i n, (n, i)) (col_names t))) old_row;
      _ ← check_constraints_for_row name new_row;
      _ ← check_fk_on_insert name new_row;
      _ ← maintain_fts_delete name old;
      _ ← on_ix (delete_index_entries name old);
      _ ← on_ix (validate_unique_indexes_for_row name old new_row (Some old));
      new_root ← on_pager (tree_update name root old new_row);
      _ ← on_ix (insert_index_entries name old new_row);
      _ ← maintain_fts_insert name old new_row;
      _ ← maintain_vec_delete name old;
      _ ← maintain_vec_insert name old new_row;
      _ ← log_update name old old_row new_row;
      _ ← lock_and_record_undo name old (Some (UUpdate name old old_row));
      mret new_root
  | None =>
      new_root ← on_pager (tree_insert name root rowid row);
      _ ← ignore_error (on_ix (insert_index_entries name rowid row));
      _ ← maintain_fts_insert name rowid row;
      _ ← maintain_vec_insert name rowid row;
      _ ← fire_triggers name After EvInsert;
      mret new_root
  end.

(** What the loop over the rows carries. *)
Record Progress : Type := mkProgress { root : Z; next : Z; count : Z; returned : list Row }.
Definition insert_row (policy : ConflictPolicy) (indices : list nat) (p : Progress) (values : list Value) : D Progress :=
  if negb (bool_decide (length values = length indices)) then st_err (ColumnCountMismatch (zlen indices) (zlen values))
  else
    '(rowid, next, row) ← st_lift (assign_rowid (pk_index cs) (next p) (fill_row (length cs) indices values));
    _ ← fire_triggers name Before EvInsert;
    _ ← st_lift (check_not_null own_name cs row);
    _ ← check_fk_on_insert name row;
    _ ← check_constraints_for_row name row;
    match policy with
    | OnConflictError => r ← insert_or_error (root p) rowid row; mret (mkProgress r next (count p + 1) (returned p ++ [row]))
    | OnConflictIgnore =>
        r ← insert_or_ignore (root p) rowid row;
        mret (match r with
              | Some r => mkProgress r next (count p + 1) (returned p)
              | None => mkProgress (root p) next (count p) (returned p)
              end)
    | OnConflictReplace => r ← insert_or_replace (root p) rowid row; mret (mkProgress r next (count p + 1) (returned p))
    | OnConflictUpdate a => r ← insert_or_update a (root p) rowid row; mret (mkProgress r next (count p + 1) (returned p))
    end.
Fixpoint insert_rows (policy : ConflictPolicy) (indices : list nat) (p : Progress) (rows : list (list Value)) : D Progress :=
  match rows with
  | [] => mret p
  | values :: rows' => p ← insert_row policy indices p values; insert_rows policy indices p rows'
  end.
End Policies.

(** *** RETURNING *)

Definition returning_row (exprs : list SExpr') (col_map : ColMap) (row : Row) : D Row :=
  st_flat_map (λ e,
    match e with
    | ColumnRef _ column => if String.eqb column "*" then mret row else v ← on_vm (eval_expr row col_map e); mret [v]
    | _ => v ← on_vm (eval_expr row col_map e); mret [v]
    end) exprs.
Definition returning_names (exprs : list SExpr') : list string :=
  imap (λ i e, match e with ColumnRef _ column => column | _ => "col" +:+ pretty i end) exprs.
(** [build_table_col_map] *)
Definition returning (name : string) (exprs : list SExpr') (rows : list Row) : D ExecResult :=
  cs ← columns_of_table name;
  let col_map := lower_col_map (map (λ c, (column_name c, col_index c)) cs) in
  rows ← mapM (returning_row exprs col_map) rows;
  mret (QueryResult (returning_names exprs) rows).

(** *** The statement *)

Definition affected (n : Z) (what : string) : ExecResult := RowsAffected n (pretty n +:+ " row(s) " +:+ what).
Definition update_root (name : string) (original root : Z) : D unit :=
  if root =? original then mret tt else on_pager (update_object_root name root).
Definition insert_value_rows (i : InsertStmt) (value_rows : list (list Value)) : D ExecResult :=
  let name := insert_table i in
  t ← table_of name;
  cs ← columns_of_table name;
  info ← info_of name;
  indices ← st_lift (insert_indices cs (insert_columns i));
  p ← insert_rows name (schema_name info) cs (conflict i) indices (mkProgress (root_page t) (next_rowid info) 0 []) value_rows;
  _ ← table_of name;
  _ ← set_root name (root p);
  _ ← set_next_rowid name (next p);
  _ ← update_root name (root_page t) (root p);
  _ ← auto_flush;
  match insert_returning i with
  | Some exprs => returning name exprs (returned p)
  | None => mret (affected (count p) "inserted")
  end.
(** The values of the rows, before anything is written. *)
Definition insert_values (i : InsertStmt) : D (list (list Value)) :=
  match insert_source i with
  | InsertValues rows => mapM (λ row, mapM (λ e, on_vm (eval_expr [] ∅ e)) row) rows
  | InsertSelect q =>
      r ← on_vm (rec q);
      match r with QueryResult _ rows => mret rows | _ => st_err (Internal "INSERT SELECT: exec_select did not return rows") end
  end.
Definition reload_schema : D unit :=
  st_modify (λ s, match schema_snapshot s with Some c => restore_schema c (set_snapshot None s) | None => s end).
(** A failed implicit transaction; [tables] tells whether the pagers of the
    tables are rolled back too. *)
Definition abandon (with_tables : bool) (e : KkdbError) : D ExecResult :=
  _ ← ignore_error (on_pager rollback_transaction);
  _ ← (if with_tables then on_pager (λ t, (Ok tt, rollback_table_pagers t)) else mret tt);
  _ ← reload_schema;
  _ ← on_ix (st_modify clear_index_caches);
  st_err e.
(** The implicit transaction around an INSERT outside a transaction. *)
Definition conclude (with_tables : bool) (m : D ExecResult) : D ExecResult := λ s,
  match m s with
  | (Ok r, s1) =>
      match on_pager commit_transaction s1 with
      | (Ok _, s2) => (Ok r, set_snapshot None s2)
      | (Err e, s2) => abandon with_tables e s2
      | (Panic, s2) => (Panic, s2)
      | (Hang, s2) => (Hang, s2)
      end
  | (Err e, s1) => abandon false e s1
  | (Panic, s1) => (Panic, s1)
  | (Hang, s1) => (Hang, s1)
  end.
Definition in_implicit_transaction (with_tables : bool) (m : D ExecResult) : D ExecResult :=
  s ← st_get;
  if in_transaction (pagers s) then m
  else
    _ ← on_pager begin_transaction;
    _ ← st_modify (λ s, set_snapshot (Some (clone_schema s)) s);
    conclude with_tables m.
Definition exec_insert (i : InsertStmt) : D ExecResult :=
  rows ← insert_values i;
  in_implicit_transaction true (insert_value_rows i rows).
Definition insert_batch_raw (name : string) (rows : list (list Value)) : D ExecResult :=
  in_implicit_transaction false (insert_value_rows (mkInsert name None (InsertValues []) OnConflictError None) rows).

(** ** UPDATE *)

Definition assignment_indices (cm : ColMap) (l : list (string * SExpr')) : res (list (nat * SExpr')) :=
  mapM (λ '(c, e), match cm !! to_ascii_lowercase c with Some i => Ok (i, e) | None => Err (ColumnNotFound c) end) l.
Definition update_one (name : string) (root : Z) (r : Z * Row * Row) : D Z :=
  let '(rowid, old_row, new_row) := r in
  _ ← fire_triggers name Before EvUpdate;
  _ ← check_constraints_for_row name new_row;
  _ ← maintain_fts_delete name rowid;
  _ ← maintain_vec_delete name rowid;
  _ ← on_ix (delete_index_entries name rowid);
  _ ← on_ix (validate_unique_indexes_for_row name rowid new_row (Some rowid));
  new_root ← on_pager (tree_update name root rowid new_row);
  _ ← on_ix (insert_index_entries name rowid new_row);
  _ ← maintain_fts_insert name rowid new_row;
  _ ← maintain_vec_insert name rowid new_row;
  _ ← log_update name rowid old_row new_row;
  _ ← lock_and_record_undo name rowid (Some (UUpdate name rowid old_row));
  _ ← enforce_fk_parent_update name old_row new_row;
  _ ← fire_triggers name After EvUpdate;
  mret new_root.
(** A loop that carries the root page. *)
Fixpoint fold_root {A} (f : Z → A → D Z) (root : Z) (l : list A) : D Z :=
  match l with [] => mret root | x :: l' => root ← f root x; fold_root f root l' end.
Definition finish_rows (name : string) (original root : Z) : D unit :=
  _ ← (if root =? original then mret tt else _ ← table_of name; _ ← set_root name root; update_root name original root);
  auto_flush.
Definition exec_update (u : UpdateStmt) : D ExecResult :=
  let name := update_table u in
  t ← table_of name;
  cs ← columns_of_table name;
  let cm := dml_col_map cs in
  assignments ← st_lift (assignment_indices cm (assignments u));
  rows ← on_vm (rows_to_update rec name (root_page t) assignments cm (update_where u));
  root ← fold_root (update_one name) (root_page t) rows;
  _ ← finish_rows name (root_page t) root;
  match update_returning u with
  | Some exprs => returning name exprs (map snd rows)
  | None => mret (affected (zlen rows) "updated")
  end.

(** ** DELETE *)

(** The rows to return come along with the root. *)
Definition delete_one (name : string) (p : Z * list Row) (rowid : Z) : D (Z * list Row) :=
  let '(root, deleted) := p in
  _ ← fire_triggers name Before EvDelete;
  parent_row ← on_pager (tree_find name root rowid);
  _ ← match parent_row with Some (_, row) => enforce_fk_parent_delete name row | None => mret tt end;
  _ ← maintain_fts_delete name rowid;
  _ ← maintain_vec_delete name rowid;
  _ ← on_ix (delete_index_entries name rowid);
  found ← on_pager (tree_find name root rowid);
  let old_row := snd <$> found in
  '(_, new_root) ← on_pager (tree_delete name root rowid);
  _ ← lock_and_record_undo name rowid (r ← old_row; Some (UDelete name rowid r));
  _ ← log_record (λ t, Binlog.Delete t (bytes_of_string name) rowid old_row);
  _ ← fire_triggers name After EvDelete;
  mret (new_root, deleted ++ match old_row with Some r => [r] | None => [] end).
Fixpoint delete_rows (name : string) (p : Z * list Row) (rowids : list Z) : D (Z * list Row) :=
  match rowids with [] => mret p | r :: rowids' => p ← delete_one name p r; delete_rows name p rowids' end.
Definition exec_delete (d : DeleteStmt) : D ExecResult :=
  let name := delete_table d in
  t ← table_of name;
  cs ← columns_of_table name;
  rowids ← on_vm (rowids_to_delete rec name (root_page t) (dml_col_map cs) (delete_where d));
  '(root, deleted) ← delete_rows name (root_page t, []) rowids;
  _ ← finish_rows name (root_page t) root;
  match delete_returning d with
  | Some exprs =>
      r ← returning name exprs deleted;
      _ ← log_record Binlog.Commit;
      mret r
  | None => mret (affected (zlen rowids) "deleted")
  end.
End Dml.
