(* ===== verification/Keeps.v ===== *)
(** Computations that keep a property of the state whatever their outcome, a
    value, an error or a panic; and that evaluating an expression
    (src/src/vm/eval_expr.rs, modelled in Expr) is one whenever the subqueries
    and the functions outside the model are. *)
From S2P Require Import Prelude Values Text Expr ExprTypes Mvcc RowLocks Binlog Joins Aggregates Window Select IndexCache IndexScan Checks Dml.

(** ** Computations that keep a property of the state *)

Definition Keeps {S A} (P : S → Prop) (m : ST S A) : Prop := ∀ s r s', P s → m s = (r, s') → P s'.
Create HintDb keeps.

Section Keeps.
Context {S : Type} (P : S → Prop).
Lemma stays_ret {A} (a : A) : Keeps P (mret a).
Proof. by intros s r s' HP [= _ <-]. Qed.
Lemma stays_lift {A} (r : res A) : Keeps P (st_lift r).
Proof. by intros s r' s' HP [= _ <-]. Qed.
Lemma stays_err {A} e : Keeps P (st_err (A := A) e).
Proof. by intros s r' s' HP [= _ <-]. Qed.
Lemma stays_get : Keeps P st_get.
Proof. by intros s r' s' HP [= _ <-]. Qed.
Lemma stays_gets {A} (f : S → res A) : Keeps P (st_gets f).
Proof. by intros s r' s' HP [= _ <-]. Qed.
Lemma stays_bind {A B} (m : ST S A) (f : A → ST S B) : Keeps P m → (∀ a, Keeps P (f a)) → Keeps P (m ≫= f).
Proof.
  intros Hm Hf s r s' HP. rewrite ST_bind_unfold. destruct (m s) as [[a| | |] s1] eqn:E; intros Hr; [by eapply Hf; [eapply Hm|]|..]; injection Hr as _ <-; by eapply Hm.
Qed.
Lemma stays_modify f : (∀ s, P s → P (f s)) → Keeps P (st_modify f).
Proof. intros Hf s r s' HP [= _ <-]. by apply Hf. Qed.
Lemma stays_iter {A} (f : A → ST S unit) l : (∀ a, Keeps P (f a)) → Keeps P (st_iter f l).
Proof. intros Hf. induction l as [|a l IH]; cbn [st_iter]; [apply stays_ret|]. apply stays_bind; [done|by intros _]. Qed.
Lemma stays_flat_map {A B} (f : A → ST S (list B)) l : (∀ a, Keeps P (f a)) → Keeps P (st_flat_map f l).
Proof.
  intros Hf. induction l as [|a l IH]; cbn [st_flat_map]; [apply stays_ret|]. apply stays_bind; [done|intros b]. apply stays_bind; [done|intros c; apply stays_ret].
Qed.
Lemma stays_mapM {A B} (f : A → ST S B) l : (∀ a, Keeps P (f a)) → Keeps P (mapM f l).
Proof.
  intros Hf. induction l as [|a l IH]; cbn [mapM]; [apply stays_ret|]. apply stays_bind; [done|intros b]. apply stays_bind; [done|intros c; apply stays_ret].
Qed.
Lemma stays_ignore_error m : Keeps P m → Keeps P (ignore_error m).
Proof. intros Hm s r s' HP. unfold ignore_error. destruct (m s) as [[]] eqn:E; intros [= _ <-]; by eapply Hm. Qed.
Lemma stays_ignore_result {A} (m : ST S A) : Keeps P m → Keeps P (ignore_result m).
Proof. intros Hm s r s' HP. unfold ignore_result. destruct (m s) as [[]] eqn:E; intros [= _ <-]; by eapply Hm. Qed.
Lemma stays_or_zero m : Keeps P m → Keeps P (or_zero m).
Proof. intros Hm s r s' HP. unfold or_zero. destruct (m s) as [[]] eqn:E; intros [= _ <-]; by eapply Hm. Qed.
End Keeps.
#[export] Hint Resolve stays_ret stays_lift stays_err stays_get stays_gets : keeps.

(** Follows the structure of a computation; the hints know its operations. *)
Ltac keeps :=
  repeat first
    [ progress intros
    | solve [eauto 2 with keeps]
    | apply stays_bind
    | apply stays_iter | apply stays_flat_map | apply stays_mapM
    | apply stays_ignore_error | apply stays_ignore_result | apply stays_or_zero
    | case_match ].

(** ** Evaluation *)

Section Evaluation.
Context {S W R : Type} `{StdFns} `{!SelectExec S R} `{!OtherFunctions R} (Q : R → Prop).
(** Of the rest of the state of the VM. *)
Definition rest_keeps (s : VM R) : Prop := Q (vm_rest s).
Abbreviation K := (Keeps rest_keeps).
Context (Hselect : ∀ q : S, K (exec_select q)) (Hother : ∀ name args, Forall (λ m, K m) args → K (other_function name args)).
Abbreviation Ev := (ST (VM R) Value).
Implicit Types (args : list Ev).

Lemma stays_arg args i : Forall (λ m, K m) args → K (arg args i).
Proof. intros Ha. unfold arg. destruct (args !! i) eqn:E; [by eapply Forall_lookup in Ha|apply stays_lift]. Qed.
Lemma stays_fn1 f args : Forall (λ m, K m) args → K (fn1 f args).
Proof. intros Ha. unfold fn1, need. keeps; by apply stays_arg. Qed.
Lemma stays_fn2 f args : Forall (λ m, K m) args → K (fn2 f args).
Proof. intros Ha. unfold fn2, need. keeps; by apply stays_arg. Qed.
Lemma stays_coalesce args : Forall (λ m, K m) args → K (coalesce args).
Proof. induction 1 as [|a l Ha _ IH]; cbn [coalesce]; keeps. Qed.
Lemma stays_fn_char args : Forall (λ m, K m) args → ∀ acc, K (fn_char args acc).
Proof. induction 1 as [|a l Ha _ IH]; intros acc; cbn [fn_char]; [apply stays_ret|]. apply stays_bind; [done|by intros]. Qed.
#[local] Hint Resolve stays_arg stays_fn1 stays_fn2 stays_coalesce stays_fn_char : keeps.
Lemma stays_function name (exprs : list (Expr S W)) args : Forall (λ m, K m) args → K (eval_function name exprs args).
Proof.
  intros Ha. unfold eval_function. cbv zeta.
  destruct (is_name name _); [destruct Ha; [apply stays_ret|done]|].
  repeat match goal with |- Keeps _ (if ?c then _ else _) =>
    destruct c; [solve [eauto 2 with keeps
      | unfold fn_ifnull, fn_substr, fn_replace, fn_trim, fn_round, fn_overlay, fn_factorial, fn_win, fn_date_extract, fn_auth_uid, fn_current_setting,
          fn_current_user, need, with_text, with_integer; keeps]|] end.
  apply stays_err.
Qed.
Lemma stays_in_list val items : Forall (λ m, K m) items → ∀ has_null, K (in_list val items has_null).
Proof. induction 1 as [|a l Ha _ IH]; intros n; cbn [in_list]; keeps. Qed.
Lemma stays_fts_match row (m : Ev) : K m → K (fts_match row m).
Proof. intros Hm s r s' HP. unfold fts_match. destruct (m s) as [r1 s1] eqn:E. pose proof (Hm s r1 s1 HP E). by destruct r1 as [[]| | |]; intros [= _ <-]. Qed.
Lemma stays_subquery what row col_map (q : S) : K (subquery_rows what row col_map q).
Proof.
  unfold subquery_rows. apply stays_bind; [|intros; case_match; keeps]. intros s r s' HP. unfold with_outer_row.
  destruct (exec_select _ _) as [r1 s1] eqn:E. intros [= _ <-]. by apply (Hselect q (set_outer_rows (outer_rows s ++ [(row, col_map)]) s) r1 s1).
Qed.
Lemma stays_case (whens : list (Ev * Ev)) (els : Ev) : Forall (λ p, K p.1 ∧ K p.2) whens → K els →
  K (searched_case whens els) ∧ ∀ v, K (simple_case v whens els).
Proof.
  intros Hw He. induction Hw as [|[w t] l [H1' H2'] _ [IH1 IH2]]; [done|]. cbn [searched_case simple_case]. split; [|intros x]; keeps.
Qed.
#[local] Hint Resolve stays_function stays_in_list stays_fts_match stays_subquery : keeps.
Lemma stays_eval row col_map (e : Expr S W) : K (eval_expr row col_map e).
Proof.
  induction e as [e IH] using Expr_ind.
  destruct e; cbn [eval_expr subs] in *; decompose_Forall_hyps; try solve [unfold eval_and, eval_or; keeps].
  - apply stays_bind; [done|]. intros v. destruct (is_null v); [apply stays_ret|]. apply stays_bind; [apply stays_in_list; by apply Forall_map|keeps].
  - apply stays_function. by apply Forall_map.
  - match goal with Ha : Forall _ (option_list operand), Hb : Forall _ (mjoin _), Hc : Forall _ (option_list else_clause) |- _ =>
      rename Ha into Ho, Hb into Hw, Hc into Hel end. destruct (stays_case
      (map (λ '(w, t), (eval_expr row col_map w, eval_expr row col_map t)) when_clauses)
      (match else_clause with Some e => eval_expr row col_map e | None => mret VNull end)) as [H1' H2'].
    + clear -Hw. induction when_clauses as [|[w t] l IH]; [constructor|]. simpl in *. decompose_Forall_hyps. constructor; [done|by apply IH].
    + destruct else_clause; simpl in *; decompose_Forall_hyps; [done|apply stays_ret].
    + destruct operand; simpl in *; decompose_Forall_hyps; [|done]. by apply stays_bind.
Qed.
End Evaluation.
