(* ===== verification/DmlLemmas.v ===== *)
(** What the statements of Dml do to a table, step by step: the rows its tree
    holds and its indexes mirror, the records and undo entries a step leaves,
    and what it does not touch. *)
From S2P Require Import Prelude Values Text Expr Mvcc RowLocks Binlog BTreeTree RowOps Joins Aggregates Window Select IndexCache IndexScan IndexUpkeep Checks Dml.

(** ** The indexes, when other trees change *)

Section Indexes.
Context {T : Type} `{StdFns} `{TreeWrites T} (kind : string → bool) (name : string) (cs : list ColumnInfo).
Abbreviation indexed := (table_indexed kind name cs).

Lemma mirrors_other reals F F' x x' R idx E : mirrors reals F cs x R idx E → trees_rep (trees x') F' → F' !! index_tree idx = F !! index_tree idx →
  cached idx x' E → mirrors reals F' cs x' R idx E.
Proof. intros [[_ (rows & Hr & HE) Hok _] Hk Hm] Hrep Hsame Hc. split; [split; [done| |done|done]|done|done]. exists rows. unfold index_tree in Hsame. by rewrite Hsame. Qed.
Lemma indexed_forest F F' x t' R l : indexed F x R l → trees_rep t' F' → (∀ idx, idx ∈ l → F' !! index_tree idx = F !! index_tree idx) →
  indexed F' (set_trees t' x) R l.
Proof.
  intros [Hn Hk Ht Htab Hcol Hd Htd] Hrep Hsame. rewrite app_nil_r in *. split; rewrite ?app_nil_r; try done.
  rewrite Forall_forall in Hd |- *. intros idx Hin. destruct (Hd idx Hin) as [E HE]. exists E.
  apply (mirrors_other _ F F' x); [done|done|by apply Hsame|apply HE].
Qed.
Lemma indexed_trees F x t' R l : indexed F x R l → trees_rep t' F → indexed F (set_trees t' x) R l.
Proof. intros Hi Hrep. by apply (indexed_forest F). Qed.
Lemma indexed_tree_in F x R l idx : indexed F x R l → idx ∈ l → ∃ rows, F !! index_tree idx = Some rows.
Proof.
  intros [_ _ _ _ _ Hd _] Hin. rewrite Forall_forall in Hd. destruct (Hd idx Hin) as [E [[_ (rows & Hr & _) _ _] _ _]]. by exists rows.
Qed.
(** The caches of one index have been loaded. *)
Lemma indexed_same F x x' R l idx : indexed F x R l → idx ∈ l → same_but idx x x' → trees_rep (trees x') F →
  (∀ reals E, index_at reals F idx x E → cached idx x' E) → indexed F x' R l.
Proof.
  intros [Hn Hk Ht Htab Hcol Hd _] Hin [S1 S2 S3 S4 S5 S6] Hrep Hc. rewrite app_nil_r in *. split; rewrite ?app_nil_r; try done.
  - by rewrite S1, S2.
  - by rewrite S3.
  - rewrite Forall_forall in Hd |- *. intros idx2 Hin2. destruct (Hd idx2 Hin2) as [E HE]. exists E. apply (mirrors_other _ F F x); [done|done|done|].
    destruct (decide (cache_key idx2 = cache_key idx)) as [Ek|Hne].
    + assert (idx2 = idx) as ->; [|eapply Hc, HE].
      clear -Hk Hin Hin2 Ek. induction l as [|i l IH]; [by apply elem_of_nil in Hin|]. cbn [map] in Hk. apply NoDup_cons in Hk as [Hi Hk].
      apply elem_of_cons in Hin, Hin2. destruct Hin as [->|Hin], Hin2 as [->|Hin2]; [done| | |by apply IH].
      * destruct Hi. rewrite <- Ek. apply list_elem_of_fmap. by exists idx2.
      * destruct Hi. rewrite Ek. apply list_elem_of_fmap. by exists idx.
    + destruct HE as [[_ _ _ HE] _ _]. unfold cached in *. by rewrite S4, S5, S6.
Qed.
(** The check of UNIQUE loads caches and does nothing else. *)
Lemma validate_indexes F R l rowid row ignore : ∀ todo x x', (∀ idx, idx ∈ todo → idx ∈ l) → indexed F x R l → trees_rep (trees x) F →
  st_iter (validate_unique_index name cs rowid row ignore) todo x = (Ok tt, x') →
  indexed F x' R l ∧ trees_rep (trees x') F ∧ table_columns x' = table_columns x.
Proof.
  induction todo as [|idx todo IH]; intros x x' Htodo Hi Hrep Hrun; [by injection Hrun as <-|].
  cbn [st_iter] in Hrun. rewrite ST_bind_unfold in Hrun. destruct (validate_unique_index name cs rowid row ignore idx x) as [[[]| | |] x1] eqn:E1; [|done..].
  assert (indexed F x1 R l ∧ trees_rep (trees x1) F ∧ table_columns x1 = table_columns x) as (Hi1 & Hrep1 & Hc1).
  2: { destruct (IH x1 x') as (? & ? & Hc2); [intros i Hin; apply Htodo; by right|done..|]. by rewrite <- Hc1. }
  unfold validate_unique_index in E1. destruct (unique idx); cbn [negb] in E1; [|by injection E1 as <-].
  destruct (mapM _ _) as [key| | |]; [|done..]. destruct (existsb is_null key); [by injection E1 as <-|].
  assert (idx ∈ l) as Hin by (apply Htodo; left). rewrite ST_bind_unfold in E1. destruct key as [|v0 key]; [by injection E1 as <-|].
  pose proof (ib_done _ _ _ _ _ _ _ _ _ Hi) as Hd. rewrite Forall_forall in Hd. destruct (Hd idx Hin) as [E [Ha _ _]].
  destruct (ia_tree _ _ _ _ _ Ha) as (rows & Hrows & _).
  destruct (conflict_exists_spec _ F idx v0 key (match ignore with Some r => Some r | None => Some rowid end) x E rows Ha Hrows) as (b & x2 & Hs2 & Ha2 & Hsame & _).
  rewrite Hs2 in E1. assert (x1 = x2) as -> by (destruct b; [done|by injection E1]).
  split; [|split; [apply Ha2|apply Hsame]]. eapply indexed_same; [done|done|done|apply Ha2|].
  intros reals' E' Ha'. destruct (conflict_exists_spec _ F idx v0 key (match ignore with Some r => Some r | None => Some rowid end) x E' rows Ha' Hrows) as (b' & x3 & Hs3 & Ha3 & _).
  rewrite Hs2 in Hs3. injection Hs3 as <- <-. apply Ha3.
Qed.
Lemma validate_spec F x x' R l rowid row ignore : indexed F x R l → trees_rep (trees x) F →
  validate_unique_indexes_for_row name rowid row ignore x = (Ok tt, x') →
  indexed F x' R l ∧ trees_rep (trees x') F ∧ table_columns x' = table_columns x.
Proof.
  intros Hi Hrep. unfold validate_unique_indexes_for_row, for_indexes. rewrite ST_bind_unfold. cbn [st_get].
  destruct (has_indexes_for_table name x); [|by intros [= <-]]. rewrite ST_bind_unfold. unfold get_columns, st_gets.
  rewrite (ib_columns _ _ _ _ _ _ _ _ _ Hi), (proj1 (indexes_of _ _ _ _ _ _ _ Hi)). by apply validate_indexes.
Qed.
End Indexes.

(** ** Steps of a statement *)

Section Steps.
Context {T : Type} `{StdFns} `{Crc32} `{TreeWrites T} `{Pagers T} `{ExecuteSql (Dml T)} `{SearchIndexes (Dml T)}
  `{OtherFunctions (Engine (IxState T))} `{FtsScan (IxState T)}.
Context (rec : SelectStmt → ST (VM (Engine (IxState T))) ExecResult) (value_size : Z).
Abbreviation D := (ST (Dml T)).

Definition set_ix (x : IxState T) (s : Dml T) : Dml T := set_vm (upd_engine (set_engine_rest x) (dml_vm s)) s.
Lemma on_ix_run {A} (m : ST (IxState T) A) s : on_ix m s = let '(r, x) := m (ix s) in (r, set_ix x s).
Proof. unfold on_ix, on_vm, on_index, ix, engine. by destruct (m _). Qed.
Lemma on_pager_run {A} (m : ST T A) s : on_pager m s = let '(r, t) := m (pagers s) in (r, set_ix (set_trees t (ix s)) s).
Proof. unfold on_pager. rewrite on_ix_run. unfold on_trees, pagers. by destruct (m _). Qed.
Lemma ix_set_ix x s : ix (set_ix x s) = x.
Proof. done. Qed.
Lemma on_ix_Ok {A} (m : ST (IxState T) A) s a s' : on_ix m s = (Ok a, s') → ∃ x, m (ix s) = (Ok a, x) ∧ s' = set_ix x s.
Proof. rewrite on_ix_run. destruct (m (ix s)) as [r x]. intros [= -> <-]. by exists x. Qed.
Lemma on_pager_Ok {A} (m : ST T A) s a s' : on_pager m s = (Ok a, s') → ∃ t, m (pagers s) = (Ok a, t) ∧ s' = set_ix (set_trees t (ix s)) s.
Proof. rewrite on_pager_run. destruct (m (pagers s)) as [r t]. intros [= -> <-]. by exists t. Qed.
(** A successful composition. *)
Lemma bind_Ok {A B} (m : D A) (f : A → D B) s b s' : (m ≫= f) s = (Ok b, s') → ∃ a s1, m s = (Ok a, s1) ∧ f a s1 = (Ok b, s').
Proof. rewrite ST_bind_unfold. destruct (m s) as [[a| | |] s1]; try done. intros Hf. by exists a, s1. Qed.
Lemma lift_Ok {A} (r : res A) (s : Dml T) a s' : st_lift r s = (Ok a, s') → r = Ok a ∧ s' = s.
Proof. by intros [= -> <-]. Qed.

(** From [s] to [s'] the schema is the same, and the records and the undo
    entries have been appended. *)
Definition append_all (rs : list LogRecord) (h : Host) : Host := foldl (λ h r, (append r h).2) h rs.
Definition push_all (es : list UndoEntry) (l : UndoLog) : UndoLog := foldl (λ l e, push value_size e l) l es.
Record stepped (rs : list LogRecord) (es : list UndoEntry) (s s' : Dml T) : Prop := mkStepped {
  sp_tables : tables (engine s') = tables (engine s);
  sp_infos : infos s' = infos s;
  sp_triggers : triggers s' = triggers s;
  sp_columns : table_columns (ix s') = table_columns (ix s);
  sp_txn : txn_id (engine s') = txn_id (engine s);
  sp_snapshot : schema_snapshot s' = schema_snapshot s;
  sp_binlog : binlog s' = append_all rs (binlog s);
  sp_undo : undo_log (engine s') = push_all es (undo_log (engine s));
}.
Lemma stepped_refl s : stepped [] [] s s.
Proof. by split. Qed.
Lemma stepped_trans rs es rs' es' s1 s2 s3 : stepped rs es s1 s2 → stepped rs' es' s2 s3 → stepped (rs ++ rs') (es ++ es') s1 s3.
Proof.
  intros [A1 A2 A3 A4 A5 A6 A7 A8] [B1 B2 B3 B4 B5 B6 B7 B8]. split; try congruence.
  - unfold append_all in *. by rewrite foldl_app, B7, A7.
  - unfold push_all in *. by rewrite foldl_app, B8, A8.
Qed.
Lemma stepped_ix x s : table_columns x = table_columns (ix s) → stepped [] [] s (set_ix x s).
Proof. by split. Qed.

(** *** Triggers, search indexes and logs *)

(** The table has no trigger, no full-text and no vector index. *)
Definition no_triggers (name : string) (s : Dml T) : Prop := default [] (triggers s !! string_of_bytes (to_lowercase (bytes_of_string name))) = [].
Lemma fire_no_triggers name t e s : no_triggers name s → fire_triggers name t e s = (Ok tt, s).
Proof. intros Hn. unfold fire_triggers. rewrite ST_bind_unfold. cbn [st_get]. unfold get_triggers. rewrite Hn. done. Qed.
Record no_search_indexes (name : string) : Prop := mkNoSearch {
  ns_fts_insert rowid row s : maintain_fts_insert name rowid row s = (Ok tt, s);
  ns_fts_delete rowid s : maintain_fts_delete name rowid s = (Ok tt, s);
  ns_vec_insert rowid row s : maintain_vec_insert name rowid row s = (Ok tt, s);
  ns_vec_delete rowid s : maintain_vec_delete name rowid s = (Ok tt, s);
}.
Lemma stepped_triggers name rs es s s' : stepped rs es s s' → no_triggers name s → no_triggers name s'.
Proof. intros Hs. unfold no_triggers. by rewrite (sp_triggers _ _ _ _ Hs). Qed.

(** What is known of the pagers' transaction whenever the trees are sound. *)
Definition txn_known (open : bool) (txid : Z) : Prop := ∀ t F, trees_rep t F → in_transaction t = open ∧ default 0 (active_txid t) = txid.
Context (open : bool) (txid : Z) (Htxn : txn_known open txid).
(** The undo entries of a row in a transaction with number [n]. *)
Definition undone (n : Z) (entry : Z → UndoEntry) : list UndoEntry := if open && negb (n =? 0) then [entry n] else [].
Lemma record_undo_spec F entry s s' : trees_rep (pagers s) F → record_undo value_size entry s = (Ok tt, s') →
  stepped [] (undone (txn_id (engine s)) entry) s s' ∧ ix s' = ix s.
Proof.
  intros Hrep. unfold record_undo. rewrite ST_bind_unfold. cbn [st_get]. unfold in_explicit_transaction, undone. rewrite (proj1 (Htxn _ _ Hrep)).
  destruct (open && negb _); [|by intros [= <-]]. intros [= <-]. by split.
Qed.
Lemma lock_and_record_undo_spec F name rowid entry s s' : trees_rep (pagers s) F → lock_and_record_undo value_size name rowid (Some entry) s = (Ok tt, s') →
  stepped [] (undone (txn_id (engine s)) entry) s s' ∧ ix s' = ix s.
Proof.
  intros Hrep. unfold lock_and_record_undo. rewrite ST_bind_unfold. cbn [st_get]. unfold in_explicit_transaction, undone. rewrite (proj1 (Htxn _ _ Hrep)).
  destruct (open && negb _); [|by intros [= <-]]. rewrite ST_bind_unfold. unfold lock_row.
  destruct (try_lock_row name rowid _ _) as [[[]| | |] m] eqn:E; [|done..]. intros [= <-]. by split.
Qed.
Lemma log_record_spec F record s s' : trees_rep (pagers s) F → log_record record s = (Ok tt, s') → stepped [record txid] [] s s' ∧ ix s' = ix s.
Proof.
  intros Hrep. unfold log_record, st_modify. rewrite (proj2 (Htxn _ _ Hrep)). intros [= <-]. by split.
Qed.
End Steps.

(** ** A table and its indexes *)

Section TableAt.
Context {T : Type} `{StdFns} `{Crc32} `{TreeWrites T} `{Pagers T} `{ExecuteSql (Dml T)} `{SearchIndexes (Dml T)}
  `{OtherFunctions (Engine (IxState T))} `{FtsScan (IxState T)} (value_size : Z).
Context (kind : string → bool) (name : string) (cs : list ColumnInfo).
Abbreviation steps := (stepped value_size).

(** The tree of the table has the rows [R], its indexes [l] have the rows
    [Ri]; between the two halves of a change these differ. *)
Record table_at (F : Forest) (s : Dml T) (root : Z) (R Ri : list (Z * Row)) (l : list IndexSchema) : Prop := mkTableAt {
  ta_rep : trees_rep (pagers s) F;
  ta_rows : ∃ R0, F !! tree_key name root = Some R0 ∧ R0 ≡ₚ R;
  ta_indexed : table_indexed kind name cs F (ix s) Ri l;
  ta_apart : tree_key name root ∉ map index_tree l;
}.
(** The values of the row are of the kinds of the indexes. *)
Definition kinds_ok (l : list IndexSchema) (row : Row) : Prop := ∀ idx, idx ∈ l → comparable (kind (cache_key idx)) (index_cell cs idx row).
(** The same indexes, perhaps at other roots. *)
Definition same_indexes (l l' : list IndexSchema) : Prop := map (with_root 0) l' = map (with_root 0) l.
(** No tree of another table has changed. *)
Definition others (F F' : Forest) : Prop := ∀ k rows, k.1 ≠ to_ascii_lowercase name → F !! k = Some rows → F' !! k = Some rows.
(** What a step on the table leads to. *)
Definition leads (F : Forest) (s s' : Dml T) (rs : list LogRecord) (es : list UndoEntry) (root' : Z) (R' Ri' : list (Z * Row)) (l : list IndexSchema) : Prop :=
  ∃ F' l', table_at F' s' root' R' Ri' l' ∧ same_indexes l l' ∧ others F F' ∧ steps rs es s s'.

Lemma others_trans F1 F2 F3 : others F1 F2 → others F2 F3 → others F1 F3.
Proof. intros H12 H23 k rows Hk Hr. by apply H23, H12. Qed.
Lemma kinds_ok_same l l' row : same_indexes l l' → kinds_ok l row → kinds_ok l' row.
Proof.
  intros Hs Hk idx Hin. assert (with_root 0 idx ∈ map (with_root 0) l) as (i & Ei & Hi)%list_elem_of_fmap
    by (rewrite <- Hs; apply list_elem_of_fmap; by exists idx).
  specialize (Hk i Hi). destruct idx, i. unfold with_root in Ei. cbn in Ei. injection Ei as -> -> -> -> ->. exact Hk.
Qed.
Lemma leads_refl F s root R Ri l : table_at F s root R Ri l → leads F s s [] [] root R Ri l.
Proof. intros Ht. exists F, l. split; [done|]. split; [done|]. split; [by intros k rows|apply stepped_refl]. Qed.
(** One step after another. *)
Lemma leads_after F F1 s s1 s2 rs es rs' es' root R Ri l l1 : same_indexes l l1 → others F F1 → steps rs es s s1 →
  leads F1 s1 s2 rs' es' root R Ri l1 → leads F s s2 (rs ++ rs') (es ++ es') root R Ri l.
Proof.
  intros Hi1 Ho1 Hs1 (F2 & l2 & Ht2 & Hi2 & Ho2 & Hs2). exists F2, l2. split; [done|].
  split; [unfold same_indexes in *; congruence|]. split; [by eapply others_trans|by eapply stepped_trans].
Qed.
Lemma leads_trans F s s1 s2 rs es rs' es' root1 R1 Ri1 root2 R2 Ri2 l : leads F s s1 rs es root1 R1 Ri1 l →
  (∀ F1 l1, table_at F1 s1 root1 R1 Ri1 l1 → same_indexes l l1 → others F F1 → steps rs es s s1 → leads F1 s1 s2 rs' es' root2 R2 Ri2 l1) →
  leads F s s2 (rs ++ rs') (es ++ es') root2 R2 Ri2 l.
Proof. intros (F1 & l1 & Ht1 & Hi1 & Ho1 & Hs1) Hnext. eapply leads_after; [done..|]. by apply Hnext. Qed.
(** A step that leaves the indexes' state alone. *)
Lemma leads_logs F s s' rs es root R Ri l : table_at F s root R Ri l → steps rs es s s' → ix s' = ix s → leads F s s' rs es root R Ri l.
Proof.
  intros [Hrep Hr Hi Ha] Hs Hix. exists F, l. split; [split; [|done| |done]; unfold pagers in *; by rewrite Hix|]. split; [done|]. by split; [intros k rows|].
Qed.

Lemma index_tree_name F x Ri l idx : table_indexed kind name cs F x Ri l → idx ∈ l → (index_tree idx).1 = to_ascii_lowercase name.
Proof.
  intros Hi Hin. pose proof (ib_table _ _ _ _ _ _ _ _ _ Hi) as Htab. rewrite app_nil_r, Forall_forall in Htab. cbn. symmetry. by apply Htab.
Qed.
(** A write to the tree of the table. *)
Lemma table_written F s t root root' R Ri l rows' : table_at F s root R Ri l → (root' = root ∨ F !! tree_key name root' = None) →
  trees_rep t (<[tree_key name root' := rows']> (delete (tree_key name root) F)) →
  leads F s (set_ix (set_trees t (ix s)) s) [] [] root' rows' Ri l.
Proof.
  intros [Hrep (R0 & HR & HR0) Hi Ha] Hroot Hrep'. set (F' := <[_ := rows']> _) in *.
  assert (∀ idx, idx ∈ l → F' !! index_tree idx = F !! index_tree idx) as Hsame.
  { intros idx Hin. assert (index_tree idx ≠ tree_key name root) as Hne by (intros E; apply Ha; rewrite <- E; apply list_elem_of_fmap; by exists idx).
    destruct (indexed_tree_in _ _ _ _ _ _ _ _ Hi Hin) as [rows Hrows]. unfold F'. rewrite lookup_insert_ne, lookup_delete_ne; [done|by symmetry|].
    destruct Hroot as [->|Hf]; [by symmetry|]. intros E. congruence. }
  exists F', l. split; [split|split; [done|split]].
  - done.
  - exists rows'. unfold F'. by rewrite lookup_insert_eq.
  - rewrite ix_set_ix. by apply (indexed_forest _ _ _ F).
  - intros (idx & E & Hin)%list_elem_of_fmap. destruct (indexed_tree_in _ _ _ _ _ _ _ _ Hi Hin) as [rows Hrows].
    destruct Hroot as [->|Hf]; [apply Ha; rewrite E; apply list_elem_of_fmap; by exists idx|congruence].
  - intros k rows Hk Hr. unfold F'. rewrite lookup_insert_ne, lookup_delete_ne by (intros <-; apply Hk; done). done.
  - by apply stepped_ix.
Qed.
Lemma tree_added F s root R Ri l rowid row root' s' : table_at F s root R Ri l → on_pager (tree_insert name root rowid row) s = (Ok root', s') →
  (rowid ∉ R.*1) ∧ leads F s s' [] [] root' (R ++ [(rowid, row)]) Ri l.
Proof.
  intros Ht (t & Hrun & ->)%on_pager_Ok. pose proof Ht as [Hrep (R0 & HR & HR0) Hi Ha].
  destruct (tree_insert_law _ _ _ _ _ _ _ _ _ Hrep HR Hrun) as (Hroot & rows' & Hrows' & Hrep').
  pose proof (trees_nodup _ _ _ rows' Hrep' (lookup_insert_eq _ _ _)) as Hd. rewrite Hrows', HR0, fmap_app in Hd.
  apply NoDup_app in Hd as (_ & Hd & _). split; [intros Hin; apply (Hd _ Hin); left|].
  destruct (table_written F s t root root' R Ri l rows' Ht Hroot Hrep') as (F' & l' & [A1 (R1 & A2 & A2') A3 A4] & Hrest).
  exists F', l'. split; [|done]. split; [done| |done|done]. exists R1. split; [done|]. by rewrite A2', Hrows', HR0.
Qed.
Lemma tree_removed F s root R Ri l rowid b root' s' : table_at F s root R Ri l → on_pager (tree_delete name root rowid) s = (Ok (b, root'), s') →
  leads F s s' [] [] root' (filter (λ r, r.1 ≠ rowid) R) Ri l.
Proof.
  intros Ht (t & Hrun & ->)%on_pager_Ok. pose proof Ht as [Hrep (R0 & HR & HR0) Hi Ha].
  destruct (tree_delete_law _ _ _ _ _ _ _ _ _ Hrep HR Hrun) as (Hroot & Hrep').
  destruct (table_written F s t root root' R Ri l _ Ht Hroot Hrep') as (F' & l' & [A1 (R1 & A2 & A2') A3 A4] & Hrest).
  exists F', l'. split; [|done]. split; [done| |done|done]. exists R1. split; [done|]. by rewrite A2', HR0.
Qed.
Lemma tree_found F s root R Ri l rowid found s' : table_at F s root R Ri l → on_pager (tree_find name root rowid) s = (Ok found, s') →
  (∀ row, (rowid, row) ∈ R → found = Some (rowid, row)) ∧ leads F s s' [] [] root R Ri l.
Proof.
  intros [Hrep (R0 & HR & HR0) Hi Ha] (t & Hrun & ->)%on_pager_Ok. destruct (tree_find_law _ _ _ _ rowid _ Hrep HR) as (t' & Hf & Hrep').
  rewrite Hf in Hrun. injection Hrun as <- <-. split.
  - intros row Hin. rewrite <- HR0 in Hin. apply row_lookup_in; [by eapply trees_nodup|done].
  - exists F, l. split; [split; [done|by exists R0|rewrite ix_set_ix; by apply indexed_trees|done]|]. split; [done|]. split; [by intros k rows|by apply stepped_ix].
Qed.
Lemma entries_changed F s x root R Ri Ri' l F' l' : table_at F s root R Ri l → trees_rep (trees x) F' → table_indexed kind name cs F' x Ri' l' →
  same_indexes l l' → (∀ k rows, k ∉ map index_tree l → F !! k = Some rows → F' !! k = Some rows) →
  (∀ k, k ∈ map index_tree l' → k ∈ map index_tree l ∨ F !! k = None) → table_columns x = table_columns (ix s) →
  leads F s (set_ix x s) [] [] root R Ri' l.
Proof.
  intros [Hrep (R0 & HR & HR0) Hi Ha] Hrep' Hi' Hsame Hoth Hnew Hcols. exists F', l'. split; [split|split; [done|split]].
  - done.
  - exists R0. split; [by apply Hoth|done].
  - done.
  - intros [Hk|Hk]%Hnew; [done|congruence].
  - intros k rows Hk Hr. apply Hoth; [|done]. intros (idx & -> & Hin)%list_elem_of_fmap. apply Hk. exact (index_tree_name F (ix s) Ri l idx Hi Hin).
  - by apply stepped_ix.
Qed.
Lemma entries_added F s root R Ri l rowid row s' : table_at F s root R Ri l → rowid ∉ Ri.*1 → kinds_ok l row →
  on_ix (insert_index_entries name rowid row) s = (Ok tt, s') → leads F s s' [] [] root R (Ri ++ [(rowid, row)]) l.
Proof.
  intros Ht Hnew Hk (x & Hrun & ->)%on_ix_Ok. pose proof Ht as [Hrep Hrows Hi Ha].
  destruct (insert_index_entries_correct kind name cs F (ix s) x Ri l rowid row Hi Hrep Hnew Hk Hrun) as (F' & l' & Hi' & Hsame & Hrep' & Hoth & Hnew' & Hcols).
  by eapply entries_changed.
Qed.
Lemma entries_removed F s root R Ri l rowid s' : table_at F s root R Ri l → rowid ∈ Ri.*1 →
  on_ix (delete_index_entries name rowid) s = (Ok tt, s') → leads F s s' [] [] root R (filter (λ r, r.1 ≠ rowid) Ri) l.
Proof.
  intros Ht Hin (x & Hrun & ->)%on_ix_Ok. pose proof Ht as [Hrep Hrows Hi Ha].
  destruct (delete_index_entries_correct kind name cs F (ix s) x Ri l rowid Hi Hrep Hin Hrun) as (F' & l' & Hi' & Hsame & Hrep' & Hoth & Hnew' & Hcols).
  by eapply entries_changed.
Qed.
Lemma unique_checked F s root R Ri l rowid row ignore s' : table_at F s root R Ri l →
  on_ix (validate_unique_indexes_for_row name rowid row ignore) s = (Ok tt, s') → leads F s s' [] [] root R Ri l.
Proof.
  intros Ht (x & Hrun & ->)%on_ix_Ok. pose proof Ht as [Hrep Hrows Hi Ha].
  destruct (validate_spec kind name cs F _ _ _ _ _ _ _ Hi Hrep Hrun) as (Hi' & Hrep' & Hcols).
  eapply entries_changed; [done..|by intros k rows|by intros k; left|done].
Qed.

(** *** Loops that read *)

(** The state [s] was reached from [s0] without touching other tables. *)
Definition since (F0 F : Forest) (s0 s : Dml T) : Prop := others F0 F ∧ ∃ rs es, steps rs es s0 s.
Lemma since_refl F s : since F F s s.
Proof. split; [by intros k rows|]. exists [], []. apply stepped_refl. Qed.
Lemma since_leads F0 F s0 s F1 s1 rs es : since F0 F s0 s → others F F1 → steps rs es s s1 → since F0 F1 s0 s1.
Proof. intros [Ho (rs0 & es0 & Hs)] Ho1 Hs1. split; [by eapply others_trans|]. eexists _, _. by eapply stepped_trans. Qed.
Lemma iter_reads {A} (f : A → ST (Dml T) unit) (P : A → Prop) (F0 : Forest) (s0 : Dml T) root R Ri : ∀ todo,
  (∀ a F s s' l, a ∈ todo → table_at F s root R Ri l → since F0 F s0 s → f a s = (Ok tt, s') → P a ∧ leads F s s' [] [] root R Ri l) →
  ∀ F s s' l, table_at F s root R Ri l → since F0 F s0 s → st_iter f todo s = (Ok tt, s') → Forall P todo ∧ leads F s s' [] [] root R Ri l.
Proof.
  induction todo as [|a todo IH]; intros Hf F s s' l Ht Hsi Hrun; [injection Hrun as <-; split; [constructor|by apply leads_refl]|].
  cbn [st_iter] in Hrun. apply bind_Ok in Hrun as ([] & s1 & H1' & H2').
  destruct (Hf a F s s1 l) as [HP Hl]; [left|done..|]. assert (Forall P todo ∧ leads F s s' ([] ++ []) ([] ++ []) root R Ri l) as [HPs Hls]; [|by split; [constructor|]].
  destruct Hl as (F1 & l1 & Ht1 & Hi1 & Ho1 & Hs1).
  destruct (IH (λ a F s s' l Hin, Hf a F s s' l (list_elem_of_further _ _ _ Hin)) F1 s1 s' l1 Ht1 (since_leads _ _ _ _ _ _ _ _ Hsi Ho1 Hs1) H2') as [HPs Hl2].
  split; [done|]. by eapply leads_after.
Qed.

(** *** Constraints *)

Lemma table_of_run n (s : Dml T) : table_of n s = (match tables (engine s) !! to_ascii_lowercase n with Some t => Ok t | None => Err (TableNotFound n) end, s).
Proof. unfold table_of, on_vm, get_table, st_gets. by destruct s as [[] ? ? ? ?]. Qed.
Lemma columns_run n (s : Dml T) : columns_of_table n s = (match table_columns (ix s) !! to_ascii_lowercase n with Some c => Ok c | None => Err (TableNotFound n) end, s).
Proof. unfold columns_of_table, on_ix, on_vm, on_index, get_columns, st_gets. by destruct s as [[? ? ? ? ? []] ? ? ? ?]. Qed.
(** A row that satisfies the CHECKs of the table. *)
Definition checks_hold (s : Dml T) (row : Row) : Prop :=
  ∃ t info, tables (engine s) !! to_ascii_lowercase name = Some t ∧ infos s !! to_ascii_lowercase name = Some info ∧
    Forall (λ c : option string * SExpr', ∃ v, eval_check_expr_simple row (col_names t) c.2 = Ok v ∧ check_passes v = true) (check_constraints info).
Lemma checks_spec row s s' : check_constraints_for_row name row s = (Ok tt, s') → s' = s ∧ checks_hold s row.
Proof.
  unfold check_constraints_for_row. rewrite ST_bind_unfold, table_of_run. destruct (tables (engine s) !! _) as [t|] eqn:Et; [|done].
  rewrite ST_bind_unfold. unfold info_of, st_gets. destruct (infos s !! _) as [info|] eqn:Ei; [|done]. intros Hrun.
  assert (∀ l s1, st_iter (λ '(constraint, e), v ← st_lift (eval_check_expr_simple row (col_names t) e);
      if check_passes v then mret tt else st_err (check_error name constraint)) l s1 = (Ok tt, s') →
      s' = s1 ∧ Forall (λ c : option string * SExpr', ∃ v, eval_check_expr_simple row (col_names t) c.2 = Ok v ∧ check_passes v = true) l) as Hl.
  { induction l as [|[c e] l IH]; intros s1 H1'; [by injection H1'|]. cbn [st_iter] in H1'.
    apply bind_Ok in H1' as ([] & s2 & H1' & H2'). apply bind_Ok in H1' as (v & s3 & [Hv ->]%lift_Ok & H3').
    destruct (check_passes v) eqn:Ep; [|done]. injection H3' as ->. destruct (IH s2 H2') as [-> HF]. split; [done|]. constructor; [by exists v|done]. }
  destruct (Hl _ _ Hrun) as [-> HF]. split; [done|]. by exists t, info.
Qed.

(** A table holds a row with the value [v] in the column. *)
Definition holds_value (F : Forest) (s : Dml T) (n : string) (col : option string) (v : Value) : Prop :=
  ∃ t c rows, tables (engine s) !! to_ascii_lowercase n = Some t ∧ table_columns (ix s) !! to_ascii_lowercase n = Some c
    ∧ F !! tree_key n (root_page t) = Some rows
    ∧ ∃ r w, r ∈ rows ∧ r.2 !! default 0%nat (referenced_column c col) = Some w ∧ value_eq w v = true.
(** Every other table has its tree. *)
Definition others_stored (F : Forest) (s : Dml T) : Prop :=
  ∀ n t, to_ascii_lowercase n ≠ to_ascii_lowercase name → tables (engine s) !! to_ascii_lowercase n = Some t → ∃ rows, F !! tree_key n (root_page t) = Some rows.
Lemma since_stored F0 F s0 s : since F0 F s0 s → others_stored F0 s0 → others_stored F s.
Proof.
  intros [Ho (rs & es & Hs)] Hst n t Hn. rewrite (sp_tables _ _ _ _ _ Hs). intros [rows Hr]%(Hst n); [|done]. exists rows. by apply Ho.
Qed.
Lemma since_holds F0 F s0 s n col v : since F0 F s0 s → others_stored F0 s0 → to_ascii_lowercase n ≠ to_ascii_lowercase name →
  holds_value F s n col v ↔ holds_value F0 s0 n col v.
Proof.
  intros [Ho (rs & es & Hs)] Hst Hn. unfold holds_value. rewrite (sp_tables _ _ _ _ _ Hs), (sp_columns _ _ _ _ _ Hs). split.
  - intros (t & c & rows & Ht & Hc & Hr & Hv). exists t, c, rows. split; [done|]. split; [done|]. split; [|done].
    destruct (Hst n t Hn Ht) as [rows0 Hr0]. pose proof (Ho (tree_key n (root_page t)) rows0 Hn Hr0). congruence.
  - intros (t & c & rows & Ht & Hc & Hr & Hv). exists t, c, rows. split; [done|]. split; [done|]. split; [|done]. by apply Ho.
Qed.
Lemma value_exists_spec F s root R Ri l n col v b s' : table_at F s root R Ri l → others_stored F s → to_ascii_lowercase n ≠ to_ascii_lowercase name →
  fk_value_exists_in_parent n col v s = (Ok b, s') → (b = true ↔ holds_value F s n col v) ∧ leads F s s' [] [] root R Ri l.
Proof.
  intros Ht Hst Hn. unfold fk_value_exists_in_parent. rewrite ST_bind_unfold, table_of_run. destruct (tables (engine s) !! _) as [t|] eqn:Et; [|done].
  rewrite ST_bind_unfold, columns_run. destruct (table_columns (ix s) !! _) as [c|] eqn:Ec; [|done].
  destruct (Hst n t Hn Et) as [rows Hr]. destruct Ht as [Hrep Hrows Hi Ha]. destruct (tree_scan_law _ _ _ _ _ Hrep Hr) as (t' & Hs & Hrep').
  rewrite ST_bind_unfold, on_pager_run, Hs. intros [= <- <-]. split.
  - rewrite existsb_exists. unfold holds_value. split.
    + intros (row & ((rid & row') & -> & Hin)%list_elem_of_In%list_elem_of_fmap & Hv). exists t, c, rows. split_and!; [done..|]. exists (rid, row').
      cbn [snd] in *. destruct (row' !! _) as [w|] eqn:Ew; [|done]. by exists w.
    + intros (t2 & c2 & rows2 & Et2 & Ec2 & Hr2 & r & w & Hin & Hw & Hv). simplify_eq. exists r.2. split; [|by rewrite Hw].
      apply list_elem_of_In, list_elem_of_fmap. by exists r.
  - exists F, l. split; [split; [done|done|rewrite ix_set_ix; by apply indexed_trees|done]|]. split; [done|]. split; [by intros k r|by apply stepped_ix].
Qed.
(** A row whose foreign keys are NULL or refer to a row of the parent. *)
Definition keys_hold (F : Forest) (s : Dml T) (row : Row) : Prop :=
  ∀ info fk, infos s !! to_ascii_lowercase name = Some info → fk ∈ foreign_keys info →
    let v := default VNull (row !! fk_col_index fk) in is_null v = true ∨ holds_value F s (ref_table fk) (ref_col fk) v.
(** The foreign keys of the table refer to other tables. *)
Definition keys_elsewhere (s : Dml T) : Prop :=
  ∀ info fk, infos s !! to_ascii_lowercase name = Some info → fk ∈ foreign_keys info → to_ascii_lowercase (ref_table fk) ≠ to_ascii_lowercase name.
Lemma fk_insert_spec F s root R Ri l row s' : table_at F s root R Ri l → others_stored F s → keys_elsewhere s →
  check_fk_on_insert name row s = (Ok tt, s') → keys_hold F s row ∧ leads F s s' [] [] root R Ri l.
Proof.
  intros Ht Hst Hel. unfold check_fk_on_insert. rewrite ST_bind_unfold. unfold info_of, st_gets.
  destruct (infos s !! _) as [info|] eqn:Ei; [|done]. intros Hrun.
  assert (Forall (λ fk, let v := default VNull (row !! fk_col_index fk) in is_null v = true ∨ holds_value F s (ref_table fk) (ref_col fk) v) (foreign_keys info)
    ∧ leads F s s' [] [] root R Ri l) as [HF Hl].
  - eapply iter_reads; [|exact Ht|apply since_refl|exact Hrun].
    intros fk F1 s1 s2 l1 Hin Ht1 Hsi. cbv beta zeta.
    destruct (is_null _) eqn:En; [intros Hr; injection Hr as <-; split; [by left|by apply leads_refl]|].
    intros (b & s3 & H1' & H2')%bind_Ok. specialize (Hel _ _ Ei Hin).
    destruct (value_exists_spec F1 s1 root R Ri l1 _ _ _ b s3 Ht1 (since_stored _ _ _ _ Hsi Hst) Hel H1') as [Hb Hl1].
    destruct b; [|done]. injection H2' as <-. split; [|done]. right. apply (since_holds F F1 s s1); [done..|]. by apply Hb.
  - split; [|done]. intros info2 fk Ei2 Hin. simplify_eq. rewrite Forall_forall in HF. by apply HF.
Qed.
End TableAt.
