(* ===== verification/DmlAtomic.v ===== *)
(** INSERT is all or nothing (src/src/vm/exec_dml.rs, [exec_insert],
    [insert_batch_raw]): outside a transaction the statement runs in one of its
    own, and whatever makes it fail, on whichever row and after whatever
    writes, the trees and the schema are as they were. *)
From S2P Require Import Prelude Values Text Expr Mvcc RowLocks Binlog BTreeTree RowOps Joins Aggregates Window Select IndexCache IndexScan IndexUpkeep Checks Dml Keeps DmlLemmas.

(** ** A transaction of the pagers *)

(** [begun F t]: the trees are in a transaction begun when they held [F]. *)
Class Transactional (T : Type) `{TreeReads T} `{CatalogRoots T} `{Pagers T} := {
  begun : Forest → T → Prop;
  begin_law t F r t' : trees_rep t F → begin_transaction t = (r, t') → match r with Ok _ => begun F t' | _ => trees_rep t' F end;
  begun_open t F : begun F t → in_transaction t = true;
  begun_scan F table root : Keeps (begun F) (tree_scan_all table root);
  begun_find F table root rid : Keeps (begun F) (tree_find table root rid);
  begun_max F table root : Keeps (begun F) (tree_max_rowid table root);
  begun_insert F table root rid row : Keeps (begun F) (tree_insert table root rid row);
  begun_delete F table root rid : Keeps (begun F) (tree_delete table root rid);
  begun_update_root F name root : Keeps (begun F) (update_object_root name root);
  commit_law t F e t' : begun F t → commit_transaction t = (Err e, t') → begun F t';
  rollback_law t F r t' : begun F t → rollback_transaction t = (r, t') → r = Ok tt ∧ trees_rep t' F;
  rollback_tables_law t F : trees_rep t F → trees_rep (rollback_table_pagers t) F;
}.
#[export] Hint Resolve begun_scan begun_find begun_max begun_insert begun_delete begun_update_root : keeps.

Section Atomic.
Context {T : Type} `{StdFns} `{Crc32} `{TreeReads T} `{CatalogRoots T} `{Pagers T} `{!Transactional T} `{ExecuteSql (Dml T)} `{SearchIndexes (Dml T)}
  `{OtherFunctions (Engine (IxState T))} `{FtsScan (IxState T)}.
Context (rec : SelectStmt → ST (VM (Engine (IxState T))) ExecResult) (value_size : Z) (F : Forest) (c : option SchemaCopy).

(** *** Indexes *)

Definition begun_ix (x : IxState T) : Prop := begun F (trees x).
Lemma stays_on_trees {A} (m : ST T A) : Keeps (begun F) m → Keeps begun_ix (on_trees m).
Proof. intros Hm x r x' HP. unfold on_trees. destruct (m (trees x)) as [r' t] eqn:E. intros [= _ <-]. by eapply Hm. Qed.
#[local] Hint Resolve stays_on_trees : keeps.
Lemma stays_ix_modify f : (∀ x : IxState T, trees (f x) = trees x) → Keeps begun_ix (st_modify f).
Proof. intros Hf. apply stays_modify. intros x. unfold begun_ix. by rewrite Hf. Qed.
Lemma stays_ensure idx : Keeps begun_ix (ensure_index_cache_loaded idx).
Proof.
  intros x r x' HP. unfold ensure_index_cache_loaded. rewrite ST_bind_unfold. cbn [st_get]. destruct (cache_loaded _ _); [by intros [= _ <-]|].
  rewrite ST_bind_unfold. destruct (on_trees _ x) as [r1 x1] eqn:E. pose proof (stays_on_trees _ (begun_scan _ _ _) _ _ _ HP E) as HP1.
  destruct r1; intros [= _ <-]; done.
Qed.
#[local] Hint Resolve stays_ensure : keeps.
Lemma stays_for_value idx v : Keeps begun_ix (index_rowids_for_value idx v).
Proof. unfold index_rowids_for_value. keeps. Qed.
Lemma stays_entry_rowid idx t : Keeps begun_ix (index_entry_rowid_for_table_rowid idx t).
Proof. unfold index_entry_rowid_for_table_rowid. keeps. Qed.
#[local] Hint Resolve stays_for_value stays_entry_rowid : keeps.
Lemma stays_conflict_scan idx key ignore l : Keeps begun_ix (conflict_scan idx key ignore l).
Proof. induction l as [|i l IH]; cbn [conflict_scan]; keeps. Qed.
Lemma stays_candidate idx ignore t : Keeps begun_ix (candidate_entry idx ignore t).
Proof. unfold candidate_entry. keeps. Qed.
#[local] Hint Resolve stays_conflict_scan stays_candidate : keeps.
Lemma stays_conflict idx key ignore : Keeps begun_ix (unique_index_conflict_exists idx key ignore).
Proof. unfold unique_index_conflict_exists. keeps. Qed.
#[local] Hint Resolve stays_conflict : keeps.
Lemma stays_columns name : Keeps begun_ix (get_columns name).
Proof. apply stays_gets. Qed.
#[local] Hint Resolve stays_columns : keeps.
Lemma stays_validate name rowid row ignore : Keeps begun_ix (validate_unique_indexes_for_row name rowid row ignore).
Proof. unfold validate_unique_indexes_for_row, for_indexes, validate_unique_index. keeps. Qed.
Lemma stays_insert_entries name rowid row : Keeps begun_ix (insert_index_entries name rowid row).
Proof.
  unfold insert_index_entries, for_indexes, insert_index_entry. keeps; apply stays_ix_modify; intros x; try done.
  all: unfold index_cache_insert; by repeat case_match.
Qed.
Lemma stays_delete_entries name rowid : Keeps begun_ix (delete_index_entries name rowid).
Proof. unfold delete_index_entries, delete_index_entry. keeps; apply stays_ix_modify; intros x; try done; by repeat case_match. Qed.
#[local] Hint Resolve stays_validate stays_insert_entries stays_delete_entries : keeps.

(** *** The statement *)

(** In the transaction, with the schema to go back to. *)
Definition begun_at (s : Dml T) : Prop := begun F (pagers s) ∧ schema_snapshot s = c.
Lemma stays_on_ix {A} (m : ST (IxState T) A) : Keeps begun_ix m → Keeps begun_at (on_ix m).
Proof.
  intros Hm s r s' [HP Hc]. rewrite on_ix_run. destruct (m (ix s)) as [r' x] eqn:E. intros [= _ <-]. split; [|done]. by apply (Hm (ix s) r' x).
Qed.
Lemma stays_on_pager {A} (m : ST T A) : Keeps (begun F) m → Keeps begun_at (on_pager m).
Proof. intros Hm. by apply stays_on_ix, stays_on_trees. Qed.
#[local] Hint Resolve stays_on_ix stays_on_pager : keeps.
Lemma stays_same {A} (m : ST (Dml T) A) : (∀ s, pagers (m s).2 = pagers s ∧ schema_snapshot (m s).2 = schema_snapshot s) → Keeps begun_at m.
Proof. intros Hm s r s' [HP Hc] E. specialize (Hm s). rewrite E in Hm. cbn in Hm. destruct Hm as [Hm1 Hm2]. split; [by rewrite Hm1|by rewrite Hm2]. Qed.
(** What the statement calls beside the pagers leaves the transaction open. *)
Record inside : Prop := mkInside {
  in_execute sql : Keeps begun_at (execute_sql sql);
  in_fts_insert name rowid row : Keeps begun_at (maintain_fts_insert name rowid row);
  in_fts_delete name rowid : Keeps begun_at (maintain_fts_delete name rowid);
  in_vec_insert name rowid row : Keeps begun_at (maintain_vec_insert name rowid row);
  in_vec_delete name rowid : Keeps begun_at (maintain_vec_delete name rowid);
  in_query q : Keeps (rest_keeps (λ e, begun_ix (engine_rest e))) (rec q);
  in_function fn args : Forall (λ m, Keeps (rest_keeps (λ e, begun_ix (engine_rest e))) m) args →
    Keeps (rest_keeps (λ e, begun_ix (engine_rest e))) (other_function fn args);
}.
Context (Hin : inside).
#[local] Hint Resolve in_execute in_fts_insert in_fts_delete in_vec_insert in_vec_delete : keeps.
Lemma stays_eval_expr row cm (e : SExpr') : Keeps begun_at (on_vm (eval_expr (SelectExec0 := dml_query rec) row cm e)).
Proof.
  intros s r s' [HP Hc]. unfold on_vm. destruct (eval_expr _ _ _ _) as [r1 v] eqn:E. intros [= _ <-]. split; [|done].
  apply (stays_eval (λ e, begun_ix (engine_rest e)) (in_query Hin) (in_function Hin) row cm e (dml_vm s) r1 v HP E).
Qed.
#[local] Hint Resolve stays_eval_expr : keeps.
Lemma stays_table_of n : Keeps begun_at (table_of n).
Proof. apply stays_same. intros s. by rewrite table_of_run. Qed.
Lemma stays_columns_of n : Keeps begun_at (columns_of_table n).
Proof. apply stays_same. intros s. by rewrite columns_run. Qed.
Lemma stays_info_of n : Keeps begun_at (info_of n).
Proof. apply stays_gets. Qed.
Lemma stays_log record : Keeps begun_at (log_record record).
Proof. by apply stays_same. Qed.
Lemma stays_push_undo e : Keeps begun_at (push_undo value_size e).
Proof. by apply stays_same. Qed.
Lemma stays_lock name rowid : Keeps begun_at (lock_row name rowid).
Proof. apply stays_same. intros s. unfold lock_row. by destruct (try_lock_row _ _ _ _). Qed.
#[local] Hint Resolve stays_table_of stays_columns_of stays_info_of stays_log stays_push_undo stays_lock : keeps.
Lemma stays_record_undo e : Keeps begun_at (record_undo value_size e).
Proof. unfold record_undo. keeps. Qed.
Lemma stays_lock_and_undo name rowid e : Keeps begun_at (lock_and_record_undo value_size name rowid e).
Proof. unfold lock_and_record_undo. keeps. Qed.
Lemma stays_fire name t e : Keeps begun_at (fire_triggers name t e).
Proof. unfold fire_triggers. keeps. Qed.
Lemma stays_checks name row : Keeps begun_at (check_constraints_for_row name row).
Proof. unfold check_constraints_for_row. keeps. Qed.
Lemma stays_value_exists n col v : Keeps begun_at (fk_value_exists_in_parent n col v).
Proof. unfold fk_value_exists_in_parent. keeps. Qed.
#[local] Hint Resolve stays_record_undo stays_lock_and_undo stays_fire stays_checks stays_value_exists : keeps.
Lemma stays_fk_insert name row : Keeps begun_at (check_fk_on_insert name row).
Proof. unfold check_fk_on_insert. keeps. Qed.
Lemma stays_remove_row name root rowid : Keeps begun_at (remove_row name root rowid).
Proof. unfold remove_row. keeps. Qed.
Lemma stays_update name root rowid row : Keeps begun_at (on_pager (tree_update name root rowid row)).
Proof. apply stays_on_pager. unfold tree_update. keeps. Qed.
#[local] Hint Resolve stays_fk_insert stays_remove_row stays_update : keeps.

(** The four conflict policies. *)
Lemma stays_or_error name root rowid row : Keeps begun_at (insert_or_error value_size name root rowid row).
Proof. unfold insert_or_error, log_insert. keeps. Qed.
Lemma stays_constraint_conflict m : Keeps begun_at m → Keeps begun_at (constraint_conflict m).
Proof.
  intros Hm s r s' HP. unfold constraint_conflict. destruct (m s) as [r1 s1] eqn:E. pose proof (Hm s r1 s1 HP E).
  destruct r1 as [|e| |]; [..|by intros [= _ <-]|by intros [= _ <-]]; [by intros [= _ <-]|]. destruct e; by intros [= _ <-].
Qed.
#[local] Hint Resolve stays_constraint_conflict : keeps.
Lemma stays_or_ignore name cs root rowid row : Keeps begun_at (insert_or_ignore name cs root rowid row).
Proof. unfold insert_or_ignore, log_insert. keeps; eauto 4 with keeps. Qed.
Lemma stays_index_conflicts name rowid row idx : Keeps begun_at (index_conflicts name rowid row idx).
Proof. unfold index_conflicts. keeps. Qed.
Lemma stays_existing name cs root row : Keeps begun_at (existing_rowid_for_pk name cs root row).
Proof. unfold existing_rowid_for_pk. keeps. Qed.
#[local] Hint Resolve stays_index_conflicts stays_existing : keeps.
Lemma stays_or_replace name cs root rowid row : Keeps begun_at (insert_or_replace value_size name cs root rowid row).
Proof.
  unfold insert_or_replace, log_insert. keeps. match goal with |- Keeps _ (_ ?l ?r) => revert r; induction l as [|x l IH]; intros r end; keeps.
Qed.
Lemma stays_upsert_row name assignments cm old : Keeps begun_at (upsert_row rec name assignments cm old).
Proof.
  unfold upsert_row. generalize old at 2. induction assignments as [|[col e] l IH]; intros new; keeps; apply IH.
Qed.
#[local] Hint Resolve stays_upsert_row : keeps.
Lemma stays_or_update name cs assignments root rowid row : Keeps begun_at (insert_or_update rec value_size name cs assignments root rowid row).
Proof. unfold insert_or_update, log_update. keeps. Qed.
#[local] Hint Resolve stays_or_error stays_or_ignore stays_or_replace stays_or_update : keeps.
Lemma stays_insert_rows name own cs policy indices rows : ∀ p, Keeps begun_at (insert_rows rec value_size name own cs policy indices p rows).
Proof.
  induction rows as [|values rows IH]; intros p; cbn [insert_rows]; [apply stays_ret|]. apply stays_bind; [|apply IH]. unfold insert_row. keeps.
Qed.
#[local] Hint Resolve stays_insert_rows : keeps.
Lemma stays_returning name exprs rows : Keeps begun_at (returning rec name exprs rows).
Proof. unfold returning, returning_row. keeps. Qed.
Lemma stays_auto_flush : Keeps begun_at auto_flush.
Proof.
  intros s r s' [HP Hc]. unfold auto_flush. rewrite ST_bind_unfold. cbn [st_get]. rewrite (begun_open _ F HP). by intros [= _ <-].
Qed.
Lemma stays_set_root name root : Keeps begun_at (set_root name root).
Proof. by apply stays_same. Qed.
Lemma stays_set_next name next : Keeps begun_at (set_next_rowid name next).
Proof. by apply stays_same. Qed.
Lemma stays_update_root_of name a b : Keeps begun_at (update_root name a b).
Proof. unfold update_root. keeps. Qed.
#[local] Hint Resolve stays_returning stays_auto_flush stays_set_root stays_set_next stays_update_root_of : keeps.
Lemma stays_statement i rows : Keeps begun_at (insert_value_rows rec value_size i rows).
Proof. unfold insert_value_rows. keeps. Qed.
End Atomic.

(** ** Properties *)

Section Atomicity.
Context {T : Type} `{StdFns} `{Crc32} `{TreeReads T} `{CatalogRoots T} `{Pagers T} `{!Transactional T} `{ExecuteSql (Dml T)} `{SearchIndexes (Dml T)}
  `{OtherFunctions (Engine (IxState T))} `{FtsScan (IxState T)}.
Context (rec : SelectStmt → ST (VM (Engine (IxState T))) ExecResult) (value_size : Z).

(** The schema is [s]'s, the trees hold [F], and no cache is stale. *)
Record restored (F : Forest) (s s' : Dml T) : Prop := mkRestored {
  re_trees : trees_rep (pagers s') F;
  re_schema : clone_schema s' = clone_schema s;
  re_caches : (index_eq_cache (ix s'), index_rowid_cache (ix s'), index_ordered_cache (ix s')) = (∅, ∅, ∅)
    ∨ (index_eq_cache (ix s'), index_rowid_cache (ix s'), index_ordered_cache (ix s')) = (index_eq_cache (ix s), index_rowid_cache (ix s), index_ordered_cache (ix s));
}.
Lemma abandon_restores F c with_tables e s r s' : begun_at F (Some c) s → abandon with_tables e s = (r, s') →
  r = Err e ∧ trees_rep (pagers s') F ∧ clone_schema s' = c
  ∧ (index_eq_cache (ix s'), index_rowid_cache (ix s'), index_ordered_cache (ix s')) = (∅, ∅, ∅).
Proof.
  intros [HP Hc]. unfold abandon. rewrite ST_bind_unfold. unfold ignore_error at 1. rewrite on_pager_run.
  destruct (rollback_transaction (pagers s)) as [r1 t1] eqn:E1. destruct (rollback_law _ F _ _ HP E1) as [-> Hrep].
  assert (∃ t2, trees_rep t2 F ∧ (if with_tables then on_pager (λ t, (Ok tt, rollback_table_pagers t)) else mret tt) (set_ix (set_trees t1 (ix s)) s)
    = (Ok tt, set_ix (set_trees t2 (ix s)) s)) as (t2 & Hrep2 & E2).
  { destruct with_tables; [|by exists t1]. exists (rollback_table_pagers t1). split; [by apply rollback_tables_law|]. by rewrite on_pager_run. }
  rewrite ST_bind_unfold, E2, ST_bind_unfold. unfold reload_schema, st_modify at 1. cbn [schema_snapshot set_ix set_vm]. rewrite Hc.
  rewrite ST_bind_unfold, on_ix_run. intros [= <- <-]. split; [done|]. split; [exact Hrep2|]. split; [by destruct c|done].
Qed.

(** [C31] INSERT outside a transaction is atomic where the rollback of the
    catalogue's pager restores the trees of all tables, as when they share one
    file, and where the SQL of triggers, the maintenance of search indexes and
    the subqueries leave the transaction open: when the statement fails, on any
    row, under any conflict policy, the trees of every table and index hold what
    they held, the schema is the schema before the statement, and the index
    caches are empty. *)
Theorem insert_atomic F (s s' : Dml T) (i : InsertStmt) (rows : list (list Value)) (with_tables : bool) (e : KkdbError)
    (Hrep : trees_rep (pagers s) F) (Hout : in_transaction (pagers s) = false) (Hin : ∀ c, inside rec F c)
    (Hrun : in_implicit_transaction with_tables (insert_value_rows rec value_size i rows) s = (Err e, s')) :
  restored F s s'.
Proof.
  unfold in_implicit_transaction in Hrun. rewrite ST_bind_unfold in Hrun. cbn [st_get] in Hrun. rewrite Hout, ST_bind_unfold, on_pager_run in Hrun.
  destruct (begin_transaction (pagers s)) as [r0 t0] eqn:E0. pose proof (begin_law _ F _ _ Hrep E0) as Hb.
  destruct r0 as [[]|e0| |]; [|injection Hrun as _ <-; split; [done|done|by right]|done..].
  rewrite ST_bind_unfold in Hrun. unfold st_modify at 1 in Hrun. set (s1 := set_snapshot _ _) in Hrun.
  assert (begun_at F (Some (clone_schema s)) s1) as H1' by done. unfold conclude in Hrun.
  destruct (insert_value_rows rec value_size i rows s1) as [r2 s2] eqn:E2. pose proof (stays_statement rec value_size F _ (Hin _) i rows s1 r2 s2 H1' E2) as H2'.
  assert (∀ wt s3 r3, begun_at F (Some (clone_schema s)) s3 → abandon wt r3 s3 = (Err e, s') → restored F s s') as Hab.
  { intros wt s3 r3 H3' E3. destruct (abandon_restores F _ wt r3 s3 _ _ H3' E3) as (_ & A & B & C). split; [done|done|by left]. }
  destruct r2 as [res|e2| |]; [|by eapply Hab|done..]. destruct (on_pager commit_transaction s2) as [r3 s3] eqn:E3.
  rewrite on_pager_run in E3. destruct (commit_transaction (pagers s2)) as [r4 t4] eqn:E4. injection E3 as -> <-.
  destruct r3 as [[]|e3| |]; [done| |done..]. eapply Hab; [|exact Hrun]. destruct H2' as [HP Hc]. split; [by apply (commit_law (pagers s2) F e3 t4)|done].
Qed.
End Atomicity.
