(* ===== verification/DmlStore.v ===== *)
(** A store on which the statements of Dml run: trees as lists of rows in a
    finite map, with a copy to go back to while a transaction is open; and a
    sample database, people and their pets. *)
From S2P Require Import Prelude Values Text Expr ExprTypes Mvcc RowLocks Binlog BTreeTree RowOps Joins Aggregates Window Select IndexCache IndexScan IndexUpkeep Checks Dml DmlLemmas DmlAtomic.

(** ** The store *)

Definition Store : Type := Forest * option Forest.
Definition lift {A} (m : ST Forest A) : ST Store A := λ t, let '(r, f) := m t.1 in (r, (f, t.2)).
Definition store_trees : Trees Store :=
  let _ := list_trees in
  mkTrees Store (λ n r, lift (tree_scan_all n r)) (λ n r i, lift (tree_find n r i)) (λ n r, lift (tree_max_rowid n r))
    (λ n r i row, lift (tree_insert n r i row)) (λ n r i, lift (tree_delete n r i)).
#[local] Existing Instance store_trees.
Definition store_catalog : CatalogRoots Store := λ _ _ t, (Ok tt, t).
#[local] Existing Instance store_catalog.
(** The lists of [t] are [F], and [saved] is the copy. *)
Definition store_rep (saved : option Forest) (t : Store) (F : Forest) : Prop := list_rep t.1 F ∧ t.2 = saved.
Definition store_reads (saved : option Forest) : TreeReads Store.
Proof.
  apply (mkTreeReads Store _ (store_rep saved)).
  - intros t F k rows [Hrep _]. exact (@trees_nodup _ _ list_reads t.1 F k rows Hrep).
  - intros t F table root rows [Hrep Hs] Hr. destruct (@tree_scan_law _ _ list_reads t.1 F table root rows Hrep Hr) as (t' & E & Hrep').
    exists (t', t.2). split; [|by split]. cbn [tree_scan_all store_trees]. unfold lift. by rewrite E.
  - intros t F table root rid rows [Hrep Hs] Hr. destruct (@tree_find_law _ _ list_reads t.1 F table root rid rows Hrep Hr) as (t' & E & Hrep').
    exists (t', t.2). split; [|by split]. cbn [tree_find store_trees]. unfold lift. by rewrite E.
Defined.
Lemma lift_run {A} (m : ST Forest A) t r t' : lift m t = (r, t') → m t.1 = (r, t'.1) ∧ t'.2 = t.2.
Proof. unfold lift. destruct (m t.1). by intros [= -> <-]. Qed.
Lemma store_writes saved : @TreeWrites Store store_trees (store_reads saved) store_catalog.
Proof.
  pose proof list_writes as L. split.
  - intros t F table root r t' [Hrep Hs] [E E2]%lift_run. split; [|by rewrite E2]. by eapply (@tree_max_law _ _ _ _ L).
  - intros t F table root rid row rows root' t' [Hrep Hs] Hr [E E2]%lift_run.
    destruct (@tree_insert_law _ _ _ _ L t.1 F table root rid row rows root' t'.1 Hrep Hr E) as (Hroot & rows' & Hp & Hrep').
    split; [done|]. exists rows'. split; [done|]. split; [done|by rewrite E2].
  - intros t F table root rid rows b root' t' [Hrep Hs] Hr [E E2]%lift_run.
    destruct (@tree_delete_law _ _ _ _ L t.1 F table root rid rows b root' t'.1 Hrep Hr E) as (Hroot & Hrep').
    split; [done|]. split; [done|by rewrite E2].
  - intros t F name root r t' Hrep [= _ <-]. done.
Qed.
(** Transactions copy the lists, and put them back. *)
Definition store_pagers : Pagers Store :=
  mkPagers Store (λ t, bool_decide (is_Some t.2)) (λ t, _ ← t.2; Some 7)
    (λ t, match t.2 with None => (Ok tt, (t.1, Some t.1)) | Some _ => (Err (Internal "transaction already active"), t) end)
    (λ t, match t.2 with Some _ => (Ok tt, (t.1, None)) | None => (Err (Internal "no active transaction"), t) end)
    (λ t, match t.2 with Some f => (Ok tt, (f, None)) | None => (Err (Internal "no active transaction"), t) end)
    id (λ t, (Ok tt, t)).
#[local] Existing Instance store_pagers.
Lemma store_known f : @txn_known Store _ (store_reads (Some f)) store_pagers true 7.
Proof. intros t F [_ Hs]. cbn. by rewrite Hs. Qed.
Definition store_transactional : @Transactional Store store_trees (store_reads None) store_catalog store_pagers.
Proof.
  apply (Build_Transactional Store _ _ _ _ (λ F t, ∃ f, t.2 = Some f ∧ list_rep f F));
    try (intros; intros t r t' (f & Hf & HF) [_ Ht]%lift_run; exists f; rewrite Ht; done).
  - intros t F r t' [Hrep Hs]. cbn. rewrite Hs. intros [= <- <-]. by exists t.1.
  - intros t F (f & Hf & _). cbn. by rewrite Hf.
  - intros F name root t r t' Ht E. by injection E as _ <-.
  - intros t F e t' (f & Hf & _). cbn. by rewrite Hf.
  - intros t F r t' (f & Hf & HF). cbn. rewrite Hf. intros [= <- <-]. split; [done|]. split; [exact HF|done].
  - done.
Defined.

(** ** The sample database *)

Section Sample.
#[local] Existing Instance ascii_std.
Abbreviation Ix := (IxState Store).
Definition no_functions_dml : OtherFunctions (Engine Ix) := λ _ _, st_err (Internal "no such function").
#[local] Existing Instance no_functions_dml.
Definition no_fts_dml : FtsScan Ix := λ _ _, mret None.
#[local] Existing Instance no_fts_dml.
Definition no_sql : ExecuteSql (Dml Store) := λ _, st_err (SyntaxError "no parser").
#[local] Existing Instance no_sql.
Definition no_search : SearchIndexes (Dml Store) := mkSearch _ (λ _ _ _, mret tt) (λ _ _, mret tt) (λ _ _ _, mret tt) (λ _ _, mret tt).
#[local] Existing Instance no_search.
Definition no_query_dml : SelectStmt → ST (VM (Engine Ix)) ExecResult := λ _, st_err (Internal "no query").

(** [people(id PRIMARY KEY, age CHECK (age >= 0))] with a unique index on
    [age], and [pets(id PRIMARY KEY, owner NOT NULL REFERENCES people)]. *)
Definition pets_columns : list ColumnInfo := [mkColumn "id" 0 true false true; mkColumn "owner" 1 false false true].
Definition pets_table : Table := mkTable 9 ["id"; "owner"]%string 2 None false [].
Definition people_table' : Table := mkTable 2 ["id"; "age"]%string 2 None false [].
Definition pets_rows : list (Z * Row) := [(1, [VInteger 1; VInteger 2])].
Definition owner_key : ForeignKey := mkFk "owner" 1 "people" None Restrict Restrict.
Definition age_check : SExpr' := BinaryOp (ColumnRef None "age") GreaterThanOrEqual (IntegerLiteral 0).
Definition pets_info : TableInfo := mkInfo "pets" 2 [owner_key] [].
Definition people_info : TableInfo := mkInfo "people" 3 [] [(None, age_check)].
Definition home_forest : Forest := {[tree_key "people" 2 := people_rows; tree_key "people" 5 := age_rows; tree_key "pets" 9 := pets_rows]}.
Definition home_ix (saved : option Forest) : Ix :=
  mkIx Store ∅ ∅ ∅ {["by_age"%string := age_index]} {["people"%string := ["by_age"%string]; "pets"%string := []]}
    {["people"%string := people_columns; "pets"%string := pets_columns]} (home_forest, saved) (mkAdaptive ∅ 100 []).
Definition home_engine (txn : Z) (saved : option Forest) : Engine Ix :=
  mkEngine Ix {["people"%string := people_table'; "pets"%string := pets_table]} ∅ 0 (mkUndoLog [] 0) None txn RLM_new (home_ix saved).
(** In transaction [txn], or outside any. *)
Definition home (txn : Z) (saved : option Forest) : Dml Store :=
  mkDml Store (mkVM _ [] [] None 0 ∅ (home_engine txn saved)) {["people"%string := people_info; "pets"%string := pets_info]} ∅
    (open_memory {| content := []; synced := 0 |}) None.

Lemma home_list_rep : list_rep home_forest home_forest.
Proof.
  intros k rows Hk. split; [done|]. unfold home_forest in Hk.
  apply lookup_insert_Some in Hk as [[_ <-]|[_ Hk]]; [repeat constructor; set_solver|].
  apply lookup_insert_Some in Hk as [[_ <-]|[_ [_ <-]%lookup_singleton_Some]]; repeat constructor; set_solver.
Qed.
Section Saved.
Context (txn : Z) (saved : option Forest).
#[local] Instance sample_reads : TreeReads Store := store_reads saved.
Lemma home_rep : trees_rep (pagers (home txn saved)) home_forest.
Proof. split; [apply home_list_rep|done]. Qed.
Lemma people_home : table_at (λ _, false) "people" people_columns home_forest (home txn saved) 2 people_rows people_rows [age_index].
Proof.
  split; [apply home_rep|by exists people_rows| |].
  - split; [|apply NoDup_singleton|apply NoDup_singleton|by repeat constructor|done| |by constructor].
    + exists ["by_age"%string]. split; [done|]. by repeat constructor.
    + constructor; [|done]. exists [(VInteger 30, 1, 1); (VInteger 20, 2, 2)]. split; [|done|done].
      split; [apply home_rep|by exists age_rows| |done]. split; [by repeat constructor|]. cbn. repeat constructor; set_solver.
  - cbn. by intros ?%list_elem_of_singleton.
Qed.
Lemma pets_home : table_at (λ _, false) "pets" pets_columns home_forest (home txn saved) 9 pets_rows pets_rows [].
Proof.
  split; [apply home_rep|by exists pets_rows| |by intros ?%elem_of_nil].
  split; [|constructor|constructor|by constructor|done|by constructor|by constructor]. exists []. split; [done|constructor].
Qed.
Lemma home_tables n t : tables (engine (home txn saved)) !! n = Some t → n = "people"%string ∧ t = people_table' ∨ n = "pets"%string ∧ t = pets_table.
Proof. cbn. intros [[<- <-]|[_ [<- <-]%lookup_singleton_Some]]%lookup_insert_Some; [by left|by right]. Qed.
Lemma home_stored name : others_stored name home_forest (home txn saved).
Proof.
  intros n t _ [[En ->]|[En ->]]%home_tables; unfold tree_key; rewrite En; [by exists people_rows|by exists pets_rows].
Qed.
Lemma home_infos n i : infos (home txn saved) !! n = Some i → n = "people"%string ∧ i = people_info ∨ n = "pets"%string ∧ i = pets_info.
Proof. cbn. intros [[<- <-]|[_ [<- <-]%lookup_singleton_Some]]%lookup_insert_Some; [by left|by right]. Qed.
End Saved.

(** *** A failing INSERT *)

Section Outside.
#[local] Existing Instances store_trees store_catalog store_pagers store_transactional.
#[local] Instance outside_reads : TreeReads Store := store_reads None.
Lemma sample_inside c : inside no_query_dml home_forest c.
Proof.
  split; try (intros; intros s r s' HP E; by injection E as _ <-).
Qed.
(** A pet of person 1, and one of nobody. *)
Definition two_pets : InsertStmt := mkInsert "pets" None (InsertValues []) OnConflictError None.
Lemma insert_atomic_witness : ∃ e s', in_implicit_transaction true (insert_value_rows no_query_dml 1 two_pets [[VNull; VInteger 1]; [VNull; VInteger 9]]) (home 0 None)
  = (Err e, s') ∧ restored home_forest (home 0 None) s'.
Proof.
  assert (let r := in_implicit_transaction true (insert_value_rows no_query_dml 1 two_pets [[VNull; VInteger 1]; [VNull; VInteger 9]]) (home 0 None) in
    r.1 = Err (fk_insert_error "pets" owner_key)) as Hr by (vm_compute; reflexivity).
  destruct (in_implicit_transaction _ _ _) as [r s'] eqn:Hrun. cbn [fst] in Hr. subst r. exists (fk_insert_error "pets" owner_key), s'. split; [done|].
  exact (insert_atomic no_query_dml 1 home_forest (home 0 None) s' two_pets [[VNull; VInteger 1]; [VNull; VInteger 9]] true _ (home_rep 0 None) eq_refl sample_inside Hrun).
Defined.
End Outside.
End Sample.
