(* ===== verification/DmlProps.v ===== *)
(** Properties of INSERT, UPDATE and DELETE (src/src/vm/exec_dml.rs): the rows
    a statement leaves in the table, the indexes that mirror them, the records
    and undo entries of the statement, and the constraints that hold after it. *)
From S2P Require Import Prelude Values Text Expr ExprTypes Mvcc RowLocks Binlog BTreeTree RowOps Joins Aggregates Window Select IndexCache IndexScan IndexUpkeep Checks Dml DmlLemmas DmlAtomic DmlStore.

(** The rows of an INSERT with their ids, and the next id: the rows are
    numbered before any of them is stored. *)
Fixpoint numbered (pk : option nat) (n : nat) (indices : list nat) (next : Z) (rows : list (list Value)) : res (list (Z * Row) * Z) :=
  match rows with
  | [] => Ok ([], next)
  | values :: rows' =>
      if negb (bool_decide (length values = length indices)) then Err (ColumnCountMismatch (zlen indices) (zlen values))
      else
        '(rowid, next, row) ← assign_rowid pk next (fill_row n indices values);
        '(rest, next) ← numbered pk n indices next rows';
        Ok ((rowid, row) :: rest, next)
  end.

(** Flushing keeps the trees. *)
Class FlushKeeps (T : Type) `{TreeReads T} `{Pagers T} := flush_law t F r t' : trees_rep t F → flush_pagers t = (r, t') → trees_rep t' F.

Section Statements.
Context {T : Type} `{StdFns} `{Crc32} `{TreeWrites T} `{Pagers T} `{!FlushKeeps T} `{ExecuteSql (Dml T)} `{SearchIndexes (Dml T)}
  `{OtherFunctions (Engine (IxState T))} `{FtsScan (IxState T)}.
Context (rec : SelectStmt → ST (VM (Engine (IxState T))) ExecResult) (value_size : Z) (kind : string → bool) (name : string) (cs : list ColumnInfo).
Abbreviation at_table := (table_at kind name cs).
Abbreviation to := (leads value_size kind name cs).
Context (open : bool) (txid : Z) (Htxn : txn_known open txid) (Hsearch : no_search_indexes name).

(** ** INSERT *)

(** What is asked of a new row beside UNIQUE. *)
Record row_ok (F : Forest) (s : Dml T) (row : Row) : Prop := mkRowOk {
  ok_not_null c : c ∈ cs → not_null c = true → primary_key c = false → ∃ v, row !! col_index c = Some v ∧ v ≠ VNull;
  ok_checks : checks_hold name s row;
  ok_keys : keys_hold name F s row;
}.
Lemma not_null_spec own row : check_not_null own cs row = Ok tt →
  ∀ c, c ∈ cs → not_null c = true → primary_key c = false → ∃ v, row !! col_index c = Some v ∧ v ≠ VNull.
Proof.
  induction cs as [|c0 l IH]; intros Hrun c; [by intros ?%elem_of_nil|]. cbn [check_not_null] in Hrun. rewrite elem_of_cons.
  intros [->|Hin] Hn Hp.
  - rewrite Hn, Hp in Hrun. cbn in Hrun. destruct (row !! _) as [v|]; [|done]. exists v. split; [done|]. by destruct v.
  - destruct (not_null c0 && _); [|by apply IH]. destruct (row !! _) as [[]|]; try done; by apply IH.
Qed.
Lemma row_ok_since F0 F s0 s row : since value_size name F0 F s0 s → others_stored name F0 s0 → keys_elsewhere name s0 →
  row_ok F s row → row_ok F0 s0 row.
Proof.
  intros Hsi Hst Hel [H1' H2' H3']. pose proof Hsi as [Ho (rs & es & Hs)]. split; [done| |].
  - destruct H2' as (t & info & Ht & Hi & HF). exists t, info. by rewrite <- (sp_tables _ _ _ _ _ Hs), <- (sp_infos _ _ _ _ _ Hs).
  - intros info fk Hi Hin. specialize (H3' info fk). rewrite (sp_infos _ _ _ _ _ Hs) in H3'. specialize (H3' Hi Hin). cbv zeta in H3' |- *.
    destruct H3' as [?|Hv]; [by left|]. right. by apply (since_holds value_size name F0 F s0 s); [..|by eapply Hel|].
Qed.
Lemma insert_or_error_spec F s root R l rowid row root' s' : at_table F s root R R l → no_triggers name s → kinds_ok kind cs l row →
  insert_or_error value_size name root rowid row s = (Ok root', s') →
  to F s s' [Binlog.Insert txid (bytes_of_string name) rowid row] (undone open (txn_id (engine s)) (UInsert name rowid)) root'
    (R ++ [(rowid, row)]) (R ++ [(rowid, row)]) l.
Proof.
  intros Ht Hnt Hk Hrun. unfold insert_or_error in Hrun.
  apply bind_Ok in Hrun as ([] & s1 & E1 & Hrun). apply (leads_trans value_size kind name cs F s s1 s' [] [] _ _ root R R);
    [by eapply unique_checked|intros F1 l1 Ht1 Hi1 _ Hs1].
  apply bind_Ok in Hrun as (r & s2 & E2 & Hrun). destruct (tree_added value_size kind name cs F1 s1 root R R l1 rowid row r s2 Ht1 E2) as [Hnew Hl2].
  apply (leads_trans value_size kind name cs F1 s1 s2 s' [] [] _ _ _ _ _ _ _ _ _ Hl2). intros F2 l2 Ht2 Hi2 _ Hs2.
  apply bind_Ok in Hrun as ([] & s3 & E3 & Hrun).
  apply (leads_trans value_size kind name cs F2 s2 s3 s' [] [] _ _ r (R ++ [(rowid, row)]) (R ++ [(rowid, row)])).
  { eapply entries_added; [done|done| |done]. eapply kinds_ok_same; [done|]. by eapply kinds_ok_same. }
  intros F3 l3 Ht3 _ _ Hs3. rewrite ST_bind_unfold, (ns_fts_insert _ Hsearch), ST_bind_unfold, (ns_vec_insert _ Hsearch) in Hrun.
  apply bind_Ok in Hrun as ([] & s4 & E4 & Hrun). destruct (log_record_spec value_size _ _ Htxn F3 _ _ _ (ta_rep _ _ _ _ _ _ _ _ _ Ht3) E4) as [Hs4 Hx4].
  apply (leads_trans value_size kind name cs F3 s3 s4 s' [_] [] [] _ r (R ++ [(rowid, row)]) (R ++ [(rowid, row)])); [by eapply leads_logs|intros F4 l4 Ht4 _ _ _].
  apply bind_Ok in Hrun as ([] & s5 & E5 & Hrun). destruct (record_undo_spec value_size _ _ Htxn F4 _ _ _ (ta_rep _ _ _ _ _ _ _ _ _ Ht4) E5) as [Hs5 Hx5].
  rewrite (sp_txn _ _ _ _ _ Hs4), (sp_txn _ _ _ _ _ Hs3), (sp_txn _ _ _ _ _ Hs2), (sp_txn _ _ _ _ _ Hs1) in Hs5.
  rewrite ST_bind_unfold, fire_no_triggers in Hrun by (repeat (eapply stepped_triggers; [eassumption|]); done). injection Hrun as <- <-.
  by eapply leads_logs.
Qed.

(** The records and the undo entries of the new rows. *)
Definition insert_records (new : list (Z * Row)) : list LogRecord := map (λ r : Z * Row, Binlog.Insert txid (bytes_of_string name) r.1 r.2) new.
Definition insert_undos (n : Z) (new : list (Z * Row)) : list UndoEntry := new ≫= λ r : Z * Row, undone open n (UInsert name r.1).
(** Whatever ids they get, the new rows are of the kinds of the indexes. *)
Definition new_kinds (l : list IndexSchema) (indices : list nat) (rows : list (list Value)) : Prop :=
  ∀ values next rowid n row, values ∈ rows → assign_rowid (pk_index cs) next (fill_row (length cs) indices values) = Ok (rowid, n, row) →
    kinds_ok kind cs l row.
Lemma insert_row_spec F s own p indices values p' s' l R :
  at_table F s (Dml.root p) R R l → no_triggers name s → others_stored name F s → keys_elsewhere name s →
  new_kinds l indices [values] →
  insert_row rec value_size name own cs OnConflictError indices p values s = (Ok p', s') →
  ∃ rowid row, assign_rowid (pk_index cs) (next p) (fill_row (length cs) indices values) = Ok (rowid, next p', row)
    ∧ length values = length indices
    ∧ p' = mkProgress (Dml.root p') (next p') (count p + 1) (returned p ++ [row])
    ∧ row_ok F s row
    ∧ to F s s' (insert_records [(rowid, row)]) (insert_undos (txn_id (engine s)) [(rowid, row)]) (Dml.root p') (R ++ [(rowid, row)]) (R ++ [(rowid, row)]) l.
Proof.
  intros Ht Hnt Hst Hel Hk Hrun. unfold insert_row in Hrun. destruct (bool_decide _) eqn:Elen; [|done]. apply bool_decide_eq_true in Elen. cbn [negb] in Hrun.
  apply bind_Ok in Hrun as ([[rowid n] row] & s0 & [Ea ->]%lift_Ok & Hrun).
  rewrite ST_bind_unfold, fire_no_triggers in Hrun by done. apply bind_Ok in Hrun as ([] & s0 & [En ->]%lift_Ok & Hrun).
  apply bind_Ok in Hrun as ([] & s1 & E1 & Hrun). destruct (fk_insert_spec value_size kind name cs F s (Dml.root p) R R l row s1 Ht Hst Hel E1) as [Hkeys Hl1].
  apply bind_Ok in Hrun as ([] & s2 & E2 & Hrun). apply checks_spec in E2 as [-> Hchecks]. apply bind_Ok in Hrun as (r & s3 & E3 & Hrun).
  injection Hrun as <- <-. exists rowid, row. cbn [Dml.root next]. split; [done|]. split; [done|]. split; [done|].
  destruct Hl1 as (F1 & l1 & Ht1 & Hi1 & Ho1 & Hs1). split.
  { split; [by eapply not_null_spec| |done]. destruct Hchecks as (t & info & A & B & C). exists t, info.
    by rewrite <- (sp_tables _ _ _ _ _ Hs1), <- (sp_infos _ _ _ _ _ Hs1). }
  unfold insert_undos. cbn [mbind list_bind insert_records map]. rewrite app_nil_r, <- (sp_txn _ _ _ _ _ Hs1).
  apply (leads_trans value_size kind name cs F s s1 s3 [] [] [_] _ (Dml.root p) R R).
  - by exists F1, l1.
  - intros F2 l2 Ht2 Hi2 Ho2 Hs2. eapply insert_or_error_spec; [done|by eapply stepped_triggers| |done]. eapply kinds_ok_same; [done|]. eapply Hk; [left|done].
Qed.
Lemma insert_rows_spec own indices rows : ∀ F s p p' s' l R,
  at_table F s (Dml.root p) R R l → no_triggers name s → others_stored name F s → keys_elsewhere name s →
  new_kinds l indices rows →
  insert_rows rec value_size name own cs OnConflictError indices p rows s = (Ok p', s') →
  ∃ new, numbered (pk_index cs) (length cs) indices (next p) rows = Ok (new, next p')
    ∧ count p' = count p + zlen new ∧ returned p' = returned p ++ map snd new
    ∧ Forall (λ r, row_ok F s r.2) new
    ∧ to F s s' (insert_records new) (insert_undos (txn_id (engine s)) new) (Dml.root p') (R ++ new) (R ++ new) l.
Proof.
  induction rows as [|values rows IH]; intros F s p p' s' l R Ht Hnt Hst Hel Hk Hrun.
  { injection Hrun as <- <-. exists []. rewrite !app_nil_r. split_and!; [done|unfold zlen; cbn; lia|done|constructor|by apply leads_refl]. }
  cbn [insert_rows] in Hrun. apply bind_Ok in Hrun as (p1 & s1 & E1 & Hrun). cbn [numbered] in Hk |- *.
  destruct (insert_row_spec F s own p indices values p1 s1 l R Ht Hnt Hst Hel) as (rowid & row & Ea & Elen & Ep & Hok & Hl1); [|done|].
  { intros v next rowid n row ->%list_elem_of_singleton. apply Hk. left. }
  rewrite (bool_decide_true _ Elen). cbn [negb]. rewrite Ea. cbn [mbind res_bind].
  destruct Hl1 as (F1 & l1 & Ht1 & Hi1 & Ho1 & Hs1). pose proof (since_leads value_size name F F s s F1 s1 _ _ (since_refl _ _ _ _) Ho1 Hs1) as Hsi.
  destruct (IH F1 s1 p1 p' s' l1 (R ++ [(rowid, row)])) as (new & Hn & Hc & Hr & Hoks & Hl2).
  - done.
  - by eapply stepped_triggers.
  - by eapply since_stored.
  - intros info fk. rewrite (sp_infos _ _ _ _ _ Hs1). apply Hel.
  - intros v nx rid n rw Hin Hrid. eapply kinds_ok_same; [done|]. eapply Hk; [by right|done].
  - done.
  - exists ((rowid, row) :: new). rewrite Hn. split; [done|].
    rewrite Hc, Hr, Ep. cbn [count returned]. split; [rewrite zlen_cons; lia|]. split; [by rewrite <- app_assoc|]. split.
    + constructor; [done|]. eapply Forall_impl; [exact Hoks|]. intros r. by apply row_ok_since.
    + change ((rowid, row) :: new) with ([(rowid, row)] ++ new). rewrite app_assoc.
      unfold insert_records, insert_undos in *. rewrite map_app, bind_app. rewrite (sp_txn _ _ _ _ _ Hs1) in Hl2.
      by eapply leads_after.
Qed.

Lemma assign_rowid_next pk next row rowid n row' : assign_rowid pk next row = Ok (rowid, n, row') → next ≤ n ∧ rowid < n.
Proof.
  unfold assign_rowid, succ_i64. intros Hrun. destruct pk as [i|].
  - destruct (row !! i) as [[|v| | |]|]; try done; cbn [mbind res_bind] in Hrun.
    2: destruct (Z.leb_spec next v); [|injection Hrun as <- <- <-; lia].
    all: destruct (_ =? 2 ^ 63 - 1); cbn in Hrun; [done|]; injection Hrun as <- <- <-; lia.
  - destruct (_ =? 2 ^ 63 - 1); cbn in Hrun; [done|]; injection Hrun as <- <- <-; lia.
Qed.
Lemma numbered_next pk n indices rows : ∀ next new next', numbered pk n indices next rows = Ok (new, next') → next ≤ next' ∧ ∀ r, r ∈ new → r.1 < next'.
Proof.
  induction rows as [|values rows IH]; intros next new next'; cbn [numbered].
  - intros [= <- <-]. split; [lia|]. by intros r ?%elem_of_nil.
  - destruct (negb _); [done|]. destruct (assign_rowid _ _ _) as [[[rowid n1] row]| | |] eqn:Ea; [|done..]. cbn [mbind res_bind].
    apply assign_rowid_next in Ea. destruct (numbered _ _ _ _ rows) as [[rest n2]| | |] eqn:Er; [|done..]. cbn [mbind res_bind]. intros [= <- <-].
    apply IH in Er as [Hle Hlt]. split; [lia|]. intros r [->|Hr]%elem_of_cons; [cbn; lia|by apply Hlt].
Qed.

(** *** The end of a statement *)

(** Storing the new root: the table is where the schema says. *)
Lemma update_root_spec' F s original root R l s' : at_table F s root R R l → update_root name original root s = (Ok tt, s') →
  to F s s' [] [] root R R l.
Proof.
  intros Ht. unfold update_root. destruct (root =? original); [intros Hr; injection Hr as <-; by apply leads_refl|].
  intros (t & Hrun & ->)%on_pager_Ok. pose proof Ht as [Hrep Hrows Hi Ha].
  pose proof (update_root_law _ _ _ _ _ _ Hrep Hrun) as Hrep'. exists F, l.
  split; [split; [done|done|rewrite ix_set_ix; by apply indexed_trees|done]|]. split; [done|]. split; [by intros k r|by apply stepped_ix].
Qed.
Lemma auto_flush_spec F s root R l s' : at_table F s root R R l → auto_flush s = (Ok tt, s') → to F s s' [] [] root R R l.
Proof.
  intros Ht. unfold auto_flush. rewrite ST_bind_unfold. cbn [st_get]. destruct (in_transaction (pagers s)); [intros Hr; injection Hr as <-; by apply leads_refl|].
  intros (t & Hrun & ->)%on_pager_Ok. pose proof Ht as [Hrep Hrows Hi Ha]. pose proof (flush_law _ _ _ _ Hrep Hrun) as Hrep'. exists F, l.
  split; [split; [done|done|rewrite ix_set_ix; by apply indexed_trees|done]|]. split; [done|]. split; [by intros k r|by apply stepped_ix].
Qed.
(** The state with the new root of the table in the schema. *)
Definition rooted (root : Z) (s : Dml T) : Dml T := (set_root name root s).2.
Lemma rooted_at F s r root R l : at_table F s root R R l → at_table F (rooted r s) root R R l.
Proof. intros [A B C D']. by split. Qed.
Lemma rooted_table root s t : tables (engine s) !! to_ascii_lowercase name = Some t →
  ∃ t', tables (engine (rooted root s)) !! to_ascii_lowercase name = Some t' ∧ root_page t' = root ∧ col_names t' = col_names t.
Proof. intros Ht. unfold engine in Ht. eexists. split; [cbn; by rewrite lookup_alter_eq, Ht|done]. Qed.

(** [C28] INSERT with the default conflict policy, without RETURNING, into a table
    without triggers and search indexes, whose foreign keys refer to other
    tables, of values of the kinds its indexes hold, stores exactly the rows it
    is given: when the statement succeeds, the table has its old rows and the new ones,
    numbered in order, each index mirrors them, the catalogue knows the root and
    the next row id, which no stored row has, no other table has changed, the
    binary log and the undo log have one entry for each row, and every new row
    satisfies NOT NULL, CHECK and FOREIGN KEY. *)
Theorem insert_statement_correct F (s s' : Dml T) (i : InsertStmt) (rows : list (list Value)) (t : Table) (info : TableInfo) R l result
    (Hname : insert_table i = name) (Hpolicy : conflict i = OnConflictError) (Hreturning : insert_returning i = None)
    (Htable : tables (engine s) !! to_ascii_lowercase name = Some t) (Hinfo : infos s !! to_ascii_lowercase name = Some info)
    (Hat : at_table F s (root_page t) R R l) (Htriggers : no_triggers name s) (Hstored : others_stored name F s) (Hkeys : keys_elsewhere name s)
    (Hkinds : ∀ indices, insert_indices cs (insert_columns i) = Ok indices → new_kinds l indices rows)
    (Hrun : insert_value_rows rec value_size i rows s = (Ok result, s')) :
  ∃ indices new F' t' info' l',
    insert_indices cs (insert_columns i) = Ok indices
    ∧ numbered (pk_index cs) (length cs) indices (next_rowid info) rows = Ok (new, next_rowid info')
    ∧ result = affected (zlen new) "inserted"
    ∧ tables (engine s') !! to_ascii_lowercase name = Some t' ∧ infos s' !! to_ascii_lowercase name = Some info'
    ∧ (∀ r, r ∈ new → r.1 < next_rowid info')
    ∧ at_table F' s' (root_page t') (R ++ new) (R ++ new) l' ∧ others name F F'
    ∧ Forall (λ r, row_ok F s r.2) new
    ∧ binlog s' = append_all (insert_records new) (binlog s)
    ∧ undo_log (engine s') = push_all value_size (insert_undos (txn_id (engine s)) new) (undo_log (engine s)).
Proof.
  unfold insert_value_rows in Hrun. rewrite Hname, Hpolicy, Hreturning in Hrun. rewrite ST_bind_unfold, table_of_run, Htable in Hrun.
  rewrite ST_bind_unfold, columns_run, (ib_columns _ _ _ _ _ _ _ _ _ (ta_indexed _ _ _ _ _ _ _ _ _ Hat)) in Hrun.
  rewrite ST_bind_unfold in Hrun. unfold info_of at 1, st_gets in Hrun. rewrite Hinfo in Hrun.
  apply bind_Ok in Hrun as (indices & s0 & [Ei ->]%lift_Ok & Hrun). apply bind_Ok in Hrun as (p & s1 & E1 & Hrun).
  destruct (insert_rows_spec (schema_name info) indices rows F s (mkProgress (root_page t) (next_rowid info) 0 []) p s1 l R Hat Htriggers Hstored Hkeys (Hkinds _ Ei) E1)
    as (new & Hnew & Hcount & _ & Hok & F1 & l1 & Ht1 & Hi1 & Ho1 & Hs1). cbn [next count] in Hnew, Hcount.
  assert (tables (engine s1) !! to_ascii_lowercase name = Some t) as Htable1 by (by rewrite (sp_tables _ _ _ _ _ Hs1)).
  rewrite ST_bind_unfold, table_of_run, Htable1 in Hrun. apply bind_Ok in Hrun as ([] & s2 & E2 & Hrun).
  assert (s2 = rooted (Dml.root p) s1) as -> by (unfold rooted; by rewrite E2). clear E2.
  apply bind_Ok in Hrun as ([] & s3 & E3 & Hrun). injection E3 as <-. apply bind_Ok in Hrun as ([] & s4 & E4 & Hrun).
  apply bind_Ok in Hrun as ([] & s5 & E5 & Hrun). injection Hrun as <- <-. set (s3 := set_infos _ _) in E4.
  assert (at_table F1 s3 (Dml.root p) (R ++ new) (R ++ new) l1) as Ht3 by (apply (rooted_at _ _ (Dml.root p)) in Ht1 as []; by split).
  destruct (update_root_spec' _ _ _ _ _ _ _ Ht3 E4) as (F4 & l4 & Ht4 & Hi4 & Ho4 & Hs4).
  destruct (auto_flush_spec _ _ _ _ _ _ Ht4 E5) as (F5 & l5 & Ht5 & Hi5 & Ho5 & Hs5).
  pose proof (stepped_trans _ _ _ _ _ _ _ _ Hs4 Hs5) as Hs35. destruct (rooted_table (Dml.root p) s1 t Htable1) as (t' & Et' & Er & _).
  pose proof (numbered_next _ _ _ _ _ _ _ Hnew) as [_ Hlt].
  exists indices, new, F5, t', (mkInfo (schema_name info) (next p) (foreign_keys info) (check_constraints info)), l5.
  split; [done|]. split; [done|]. split; [by rewrite Hcount|]. split; [by rewrite (sp_tables _ _ _ _ _ Hs35)|].
  split; [rewrite (sp_infos _ _ _ _ _ Hs35); cbn; by rewrite lookup_alter_eq, (sp_infos _ _ _ _ _ Hs1), Hinfo|].
  split; [done|]. split; [by rewrite Er|]. split; [by eapply others_trans; [|eapply others_trans]|]. split; [done|].
  split; [rewrite (sp_binlog _ _ _ _ _ Hs35); apply (sp_binlog _ _ _ _ _ Hs1)|rewrite (sp_undo _ _ _ _ _ Hs35); apply (sp_undo _ _ _ _ _ Hs1)].
Qed.

(** ** DELETE *)

(** A foreign key of [child] into the table. *)
Definition key_into (s : Dml T) (child : string) (fk : ForeignKey) : Prop :=
  child ∈ list_tables s ∧ ∃ info, infos s !! to_ascii_lowercase child = Some info ∧ fk ∈ fks_into name info.
(** No other table refers to the row. *)
Definition no_dependents (F : Forest) (s : Dml T) (row : Row) : Prop :=
  ∀ child fk i v, key_into s child fk → referenced_column cs (ref_col fk) = Some i → row !! i = Some v → v ≠ VNull →
    ¬ holds_value F s child (Some (fk_col_name fk)) v.
(** The keys into the table come from other tables, and restrict. *)
Definition restricted (s : Dml T) : Prop :=
  ∀ child fk, key_into s child fk → on_delete fk = Restrict ∧ to_ascii_lowercase child ≠ to_ascii_lowercase name.
Lemma since_key F0 F s0 s child fk : since value_size name F0 F s0 s → key_into s child fk ↔ key_into s0 child fk.
Proof. intros [_ (rs & es & Hs)]. unfold key_into, list_tables. by rewrite (sp_tables _ _ _ _ _ Hs), (sp_infos _ _ _ _ _ Hs). Qed.
Lemma since_dependents F0 F s0 s row : since value_size name F0 F s0 s → others_stored name F0 s0 → restricted s0 →
  no_dependents F s row → no_dependents F0 s0 row.
Proof.
  intros Hsi Hst Hr Hn child fk i v Hk Hi Hv Hnn Hh. apply (Hn child fk i v); [by rewrite since_key|done..|].
  rewrite since_holds; [done|done|done|]. by apply (Hr child fk).
Qed.
(** The loop over the keys into the table, when it only reads. *)
Lemma for_children_spec F s root R Ri l (f : string → ForeignKey → ST (Dml T) unit) (P : string → ForeignKey → Prop) s' : at_table F s root R Ri l →
  (∀ child fk F1 s1 s2 l1, key_into s child fk → at_table F1 s1 root R Ri l1 → since value_size name F F1 s s1 → f child fk s1 = (Ok tt, s2) →
    P child fk ∧ to F1 s1 s2 [] [] root R Ri l1) →
  for_children name f s = (Ok tt, s') → (∀ child fk, key_into s child fk → P child fk) ∧ to F s s' [] [] root R Ri l.
Proof.
  intros Ht Hf. unfold for_children. rewrite ST_bind_unfold. cbn [st_get]. intros Hrun.
  assert (Forall (λ child, ∀ info, infos s !! to_ascii_lowercase child = Some info → Forall (P child) (fks_into name info)) (list_tables s)
    ∧ to F s s' [] [] root R Ri l) as [HF Hl].
  2: { split; [|done]. intros child fk [Hc (info & Hi & Hfk)]. rewrite Forall_forall in HF. specialize (HF child Hc info Hi). rewrite Forall_forall in HF. by apply HF. }
  eapply iter_reads; [|exact Ht|apply since_refl|exact Hrun]. clear Hrun Ht l.
  intros child F1 s1 s1' l1 Hchild Ht1 Hsi1. cbv beta. rewrite ST_bind_unfold. cbn [st_get].
  assert (infos s1 = infos s) as -> by (destruct Hsi1 as [_ (rs & es & Hs)]; apply Hs).
  destruct (infos s !! to_ascii_lowercase child) as [info|] eqn:Ei; [|intros Hr; injection Hr as <-; split; [done|by apply leads_refl]].
  intros Hrun. enough (Forall (P child) (fks_into name info) ∧ to F1 s1 s1' [] [] root R Ri l1) as [HF Hl] by (split; [|done]; by intros info2 [= <-]).
  eapply iter_reads; [|exact Ht1|exact Hsi1|exact Hrun]. intros fk F2 s2 s3 l2 Hfk. apply Hf. split; [done|by exists info].
Qed.
Lemma fk_delete_spec F s root R Ri l row s' : at_table F s root R Ri l → others_stored name F s → restricted s →
  enforce_fk_parent_delete name row s = (Ok tt, s') → no_dependents F s row ∧ to F s s' [] [] root R Ri l.
Proof.
  intros Ht Hst Hres Hrun. enough ((∀ child fk, key_into s child fk → ∀ i v, referenced_column cs (ref_col fk) = Some i → row !! i = Some v → v ≠ VNull →
    ¬ holds_value F s child (Some (fk_col_name fk)) v) ∧ to F s s' [] [] root R Ri l) as [HF Hl]
    by (split; [intros child fk i v Hk; by apply HF|done]).
  eapply for_children_spec; [exact Ht| |exact Hrun]. clear Hrun Ht l.
  intros child fk F1 s1 s2 l1 Hk Ht1 Hsi. cbv beta. rewrite ST_bind_unfold, columns_run, (ib_columns _ _ _ _ _ _ _ _ _ (ta_indexed _ _ _ _ _ _ _ _ _ Ht1)).
  destruct (referenced_column cs (ref_col fk)) as [i|]; cbn [mbind option_bind]; [|intros Hr; injection Hr as <-; split; [done|by apply leads_refl]].
  destruct (row !! i) as [v|] eqn:Ev; [|intros Hr; injection Hr as <-; split; [intros j v [= <-]; by rewrite Ev|by apply leads_refl]].
  destruct (decide (v = VNull)) as [->|Hv].
  { intros Hr. injection Hr as <-. split; [intros j v [= <-]; rewrite Ev; by intros [= <-]|by apply leads_refl]. }
  destruct (Hres child fk Hk) as [-> Hne].
  intros Hrun. assert ((has_child ← fk_value_exists_in_parent child (Some (fk_col_name fk)) v;
    if has_child : bool then st_err (fk_delete_error name child) else mret tt) s1 = (Ok tt, s2)) as Hrun' by (by destruct v). clear Hrun.
  apply bind_Ok in Hrun' as (b & s3 & E1 & E2).
  destruct (value_exists_spec value_size kind name cs F1 s1 root R Ri l1 _ _ _ b s3 Ht1 (since_stored value_size name _ _ _ _ Hsi Hst) Hne E1) as [Hb Hl1].
  destruct b; [done|]. injection E2 as <-. split; [|done]. intros j v2 [= <-]. rewrite Ev. intros [= <-] _ Hh.
  apply (since_holds value_size name F F1 s s1) in Hh; [|done..]. by apply Hb in Hh.
Qed.
Lemma delete_one_spec F s root R l deleted rowid row p' s' : at_table F s root R R l → no_triggers name s → others_stored name F s → restricted s →
  (rowid, row) ∈ R → delete_one value_size name (root, deleted) rowid s = (Ok p', s') →
  p'.2 = deleted ++ [row] ∧ no_dependents F s row
  ∧ to F s s' [Binlog.Delete txid (bytes_of_string name) rowid (Some row)] (undone open (txn_id (engine s)) (UDelete name rowid row)) p'.1
      (filter (λ r, r.1 ≠ rowid) R) (filter (λ r, r.1 ≠ rowid) R) l.
Proof.
  intros Ht Hnt Hst Hres Hin Hrun. unfold delete_one in Hrun. rewrite ST_bind_unfold, fire_no_triggers in Hrun by done.
  apply bind_Ok in Hrun as (found & s1 & E1 & Hrun). destruct (tree_found value_size kind name cs F s root R R l rowid found s1 Ht E1) as [Hf (F1 & l1 & Ht1 & Hi1 & Ho1 & Hs1)].
  rewrite (Hf row Hin) in Hrun. clear found E1 Hf. pose proof (since_leads value_size name F F s s F1 s1 _ _ (since_refl _ _ _ _) Ho1 Hs1) as Hsi1.
  apply bind_Ok in Hrun as ([] & s2 & E2 & Hrun).
  destruct (fk_delete_spec F1 s1 root R R l1 row s2 Ht1) as [Hdep (F2 & l2 & Ht2 & Hi2 & Ho2 & Hs2)];
    [by eapply since_stored|intros c fk; rewrite since_key by done; apply Hres|done|].
  rewrite ST_bind_unfold, (ns_fts_delete _ Hsearch), ST_bind_unfold, (ns_vec_delete _ Hsearch) in Hrun.
  apply bind_Ok in Hrun as ([] & s3 & E3 & Hrun).
  destruct (entries_removed value_size kind name cs F2 s2 root R R l2 rowid s3 Ht2) as (F3 & l3 & Ht3 & Hi3 & Ho3 & Hs3);
    [apply list_elem_of_fmap; by exists (rowid, row)|done|].
  apply bind_Ok in Hrun as (found & s4 & E4 & Hrun).
  destruct (tree_found value_size kind name cs F3 s3 root _ _ l3 rowid found s4 Ht3 E4) as [Hf (F4 & l4 & Ht4 & Hi4 & Ho4 & Hs4)]. rewrite (Hf row Hin) in Hrun.
  cbn [fmap option_fmap option_map snd] in Hrun. apply bind_Ok in Hrun as ([b r] & s5 & E5 & Hrun).
  destruct (tree_removed value_size kind name cs F4 s4 root _ _ l4 rowid b r s5 Ht4 E5) as (F5 & l5 & Ht5 & Hi5 & Ho5 & Hs5).
  apply bind_Ok in Hrun as ([] & s6 & E6 & Hrun). cbn [mbind option_bind] in E6.
  destruct (lock_and_record_undo_spec value_size _ _ Htxn F5 _ _ _ _ _ (ta_rep _ _ _ _ _ _ _ _ _ Ht5) E6) as [Hs6 Hx6].
  assert (trees_rep (pagers s6) F5) as Hrep6 by (unfold pagers; rewrite Hx6; apply Ht5).
  apply bind_Ok in Hrun as ([] & s7 & E7 & Hrun). destruct (log_record_spec value_size _ _ Htxn F5 _ _ _ Hrep6 E7) as [Hs7 Hx7].
  pose proof (stepped_trans _ _ _ _ _ _ _ _ Hs1 (stepped_trans _ _ _ _ _ _ _ _ Hs2 (stepped_trans _ _ _ _ _ _ _ _ Hs3
    (stepped_trans _ _ _ _ _ _ _ _ Hs4 Hs5)))) as Hs15.
  pose proof (stepped_trans _ _ _ _ _ _ _ _ Hs6 Hs7) as Hs57. cbn [app] in Hs15, Hs57. rewrite app_nil_r, (sp_txn _ _ _ _ _ Hs15) in Hs57.
  pose proof (stepped_trans _ _ _ _ _ _ _ _ Hs15 Hs57) as Hs17. cbn [app] in Hs17.
  rewrite ST_bind_unfold, fire_no_triggers in Hrun by (by eapply stepped_triggers). injection Hrun as <- <-. cbn [fst snd].
  split; [done|]. split; [by eapply since_dependents|]. exists F5, l5. split.
  { destruct Ht5 as [A B C Dd]. split; [unfold pagers in *; by rewrite Hx7|done|by rewrite Hx7, Hx6|done]. }
  split; [unfold same_indexes in *; congruence|]. split; [|done]. do 4 (eapply others_trans; [eassumption|]). done.
Qed.

Definition delete_records (gone : list (Z * Row)) : list LogRecord := map (λ r : Z * Row, Binlog.Delete txid (bytes_of_string name) r.1 (Some r.2)) gone.
Definition delete_undos (n : Z) (gone : list (Z * Row)) : list UndoEntry := gone ≫= λ r : Z * Row, undone open n (UDelete name r.1 r.2).
Definition without (gone R : list (Z * Row)) : list (Z * Row) := filter (λ r, r.1 ∉ gone.*1) R.
Lemma same_id (R : list (Z * Row)) q r : NoDup R.*1 → q ∈ R → r ∈ R → q.1 = r.1 → q = r.
Proof.
  intros Hd Hq Hr E. destruct q as [i a], r as [j b]. cbn in E. subst j.
  pose proof (row_lookup_in i R Hd a Hq). pose proof (row_lookup_in i R Hd b Hr). congruence.
Qed.
Lemma nodup_filter_ids (P : Z * Row → Prop) `{!∀ r, Decision (P r)} (R : list (Z * Row)) : NoDup R.*1 → NoDup (filter P R).*1.
Proof.
  induction R as [|r R IH]; [constructor|]. cbn [fmap list_fmap]. intros [Hn Hd]%NoDup_cons. rewrite filter_cons.
  destruct (decide _); [|by apply IH]. cbn [fmap list_fmap]. constructor; [|by apply IH].
  intros (q & Eq & [_ Hq]%list_elem_of_filter)%list_elem_of_fmap. apply Hn. rewrite Eq. by apply list_elem_of_fmap_2.
Qed.
(** Removing the selected rows leaves the others. *)
Lemma without_spec gone R (p : Row → bool) : NoDup R.*1 → gone ≡ₚ filter (λ r, p r.2 = true) R →
  ∀ r, r ∈ without gone R ↔ r ∈ R ∧ p r.2 = false.
Proof.
  intros Hd Hg r. unfold without. rewrite list_elem_of_filter. split.
  - intros [Hr HrR]. split; [done|]. apply not_true_iff_false. intros Hp. apply Hr, list_elem_of_fmap. exists r. split; [done|].
    rewrite Hg. by apply list_elem_of_filter.
  - intros [HrR Hp]. split; [|done]. intros (g & Eg & Hgin)%list_elem_of_fmap. rewrite Hg in Hgin. apply list_elem_of_filter in Hgin as [Hpg Hin].
    apply (same_id R) in Eg as ->; [congruence|done..].
Qed.
Lemma without_cons r gone R : without gone (filter (λ q, q.1 ≠ r.1) R) = without (r :: gone) R.
Proof.
  clear. unfold without. rewrite list_filter_filter. apply list_filter_iff. intros q. cbn [fmap list_fmap]. rewrite not_elem_of_cons. tauto.
Qed.
Lemma restricted_since F0 F s0 s : since value_size name F0 F s0 s → restricted s0 → restricted s.
Proof. intros Hsi Hr child fk. rewrite since_key by done. apply Hr. Qed.
Lemma delete_rows_spec gone : ∀ F s root deleted p' s' l R,
  at_table F s root R R l → no_triggers name s → others_stored name F s → restricted s →
  NoDup gone.*1 → (∀ r, r ∈ gone → r ∈ R) → delete_rows value_size name (root, deleted) gone.*1 s = (Ok p', s') →
  p'.2 = deleted ++ gone.*2 ∧ Forall (λ r, no_dependents F s r.2) gone
  ∧ to F s s' (delete_records gone) (delete_undos (txn_id (engine s)) gone) p'.1 (without gone R) (without gone R) l.
Proof.
  induction gone as [|[rowid row] gone IH]; intros F s root deleted p' s' l R Ht Hnt Hst Hres Hnd Hin Hrun.
  { injection Hrun as <- <-. cbn [fst snd fmap list_fmap]. rewrite app_nil_r. split; [done|]. split; [constructor|].
    assert (without [] R = R) as ->; [|by apply leads_refl]. unfold without. apply filter_all. intros r _. apply not_elem_of_nil. }
  cbn [fmap list_fmap fst] in Hnd, Hrun. apply NoDup_cons in Hnd as [Hn Hnd]. cbn [delete_rows] in Hrun. apply bind_Ok in Hrun as ([r d] & s1 & E1 & Hrun).
  destruct (delete_one_spec F s root R l deleted rowid row _ s1 Ht Hnt Hst Hres (Hin _ ltac:(left)) E1) as (Hd & Hdep & F1 & l1 & Ht1 & Hi1 & Ho1 & Hs1).
  cbn [fst snd] in Hd, Ht1. pose proof (since_leads value_size name F F s s F1 s1 _ _ (since_refl _ _ _ _) Ho1 Hs1) as Hsi.
  destruct (IH F1 s1 r d p' s' l1 _ Ht1) as (Hd2 & Hdeps & Hl2);
    [by eapply stepped_triggers|by eapply since_stored|by eapply restricted_since|done| |done|].
  { intros q Hq. apply list_elem_of_filter. split; [|apply Hin; by right]. intros E. apply Hn. rewrite <- E. by apply list_elem_of_fmap_2. }
  split; [by rewrite Hd2, Hd, <- app_assoc|]. split.
  { constructor; [done|]. eapply Forall_impl; [exact Hdeps|]. intros q. by apply since_dependents. }
  rewrite (sp_txn _ _ _ _ _ Hs1), (without_cons (rowid, row)) in Hl2. unfold delete_records, delete_undos in *. cbn [map mbind list_bind].
  change (?a :: ?b) with ([a] ++ b). by eapply leads_after.
Qed.

(** *** The statement *)

(** WHERE selects by [p], in every state of the trees. *)
Definition selects (s : Dml T) (R : list (Z * Row)) (where_clause : option SExpr') (p : Row → bool) : Prop :=
  ∀ x r, r ∈ R → satisfies rec where_clause (dml_col_map cs) r.2 (upd_engine (set_engine_rest x) (dml_vm s)) = (Ok (p r.2), upd_engine (set_engine_rest x) (dml_vm s)).
Lemma scan_rowids s x R p where_clause : selects s R where_clause p → ∀ l, (∀ r, r ∈ l → r ∈ R) →
  st_flat_map (λ '(rowid, row), ok ← satisfies rec where_clause (dml_col_map cs) row; mret (if ok : bool then [rowid] else [])) l
    (upd_engine (set_engine_rest x) (dml_vm s))
  = (Ok (map fst (List.filter (λ r : Z * Row, p r.2) l)), upd_engine (set_engine_rest x) (dml_vm s)).
Proof.
  intros Hsel. induction l as [|[rid row] l IH]; intros Hl; [done|]. cbn [st_flat_map]. rewrite ST_bind_unfold, ST_bind_unfold.
  pose proof (Hsel x (rid, row) (Hl _ ltac:(left))) as Hs. cbn [snd] in Hs. rewrite Hs.
  unfold mret at 1, ST_ret at 1. rewrite ST_bind_unfold, IH by (intros r Hr; apply Hl; by right).
  cbn [List.filter snd]. by destruct (p row).
Qed.
Lemma bool_filter_filter {A} (p : A → bool) l : List.filter p l = filter (λ x, p x = true) l.
Proof. induction l as [|x l IH]; [done|]. cbn [List.filter]. rewrite filter_cons, IH. by destruct (p x). Qed.
Lemma rowids_spec F s t R l where_clause p : at_table F s (root_page t) R R l → selects s R where_clause p →
  match where_clause with Some e => try_dml_index_rowids rec name e (dml_vm s) = (Ok None, dml_vm s) | None => True end →
  ∃ gone t', on_vm (rowids_to_delete rec name (root_page t) (dml_col_map cs) where_clause) s = (Ok gone.*1, set_ix (set_trees t' (ix s)) s)
    ∧ gone ≡ₚ filter (λ r, p r.2 = true) R ∧ trees_rep t' F.
Proof.
  intros [Hrep (R0 & HR & HR0) Hi Ha] Hsel Hidx. destruct (tree_scan_law _ _ _ _ _ Hrep HR) as (t' & Hs & Hrep').
  exists (List.filter (λ r : Z * Row, p r.2) R0), t'. split; [|split; [by rewrite bool_filter_filter, HR0|done]].
  unfold on_vm, rowids_to_delete. rewrite ST_bind_unfold.
  assert (match where_clause with Some e => try_dml_index_rowids rec name e | None => mret None end (dml_vm s) = (Ok None, dml_vm s)) as -> by (by destruct where_clause).
  rewrite ST_bind_unfold. unfold on_index. unfold on_trees. change (trees (engine_rest (vm_rest (dml_vm s)))) with (pagers s). rewrite Hs.
  rewrite (scan_rowids s _ R p); [done|done|]. intros r. by rewrite HR0.
Qed.

(** The rows of other tables that refer to this one refer to rows it has. *)
Definition refs_hold (F : Forest) (s : Dml T) (R : list (Z * Row)) : Prop :=
  ∀ child fk t rows r, key_into s child fk → tables (engine s) !! to_ascii_lowercase child = Some t → F !! tree_key child (root_page t) = Some rows → r ∈ rows →
    let v := default VNull (r.2 !! fk_col_index fk) in
    is_null v = true ∨ ∃ q i w, q ∈ R ∧ referenced_column cs (ref_col fk) = Some i ∧ q.2 !! i = Some w ∧ value_eq w v = true.
(** The schema knows the column of a key by its name. *)
Definition keys_named (s : Dml T) : Prop :=
  ∀ child fk, key_into s child fk → ∃ c, table_columns (ix s) !! to_ascii_lowercase child = Some c ∧ column_index c (fk_col_name fk) = Some (fk_col_index fk).
Lemma refs_kept F s gone R : others_stored name F s → restricted s → keys_named s → Forall (λ r, no_dependents F s r.2) gone →
  NoDup R.*1 → (∀ r, r ∈ gone → r ∈ R) → refs_hold F s R → refs_hold F s (without gone R).
Proof.
  intros Hst Hres Hnamed Hdep Hnd Hin Hrefs child fk t rows r Hk Ht Hr Hrow. cbv zeta.
  destruct (Hrefs child fk t rows r Hk Ht Hr Hrow) as [?|(q & i & w & Hq & Hi & Hw & Heq)]; [by left|].
  destruct (is_null (default VNull (r.2 !! fk_col_index fk))) eqn:En; [by left|]. right. exists q, i, w. split; [|done].
  apply list_elem_of_filter. split; [|done]. intros (g & Eg & Hg)%list_elem_of_fmap.
  apply (same_id R) in Eg as ->; [|done|done|by apply Hin].
  rewrite Forall_forall in Hdep. destruct (Hnamed child fk Hk) as (c & Hc & Hidx).
  apply (Hdep g Hg child fk i w Hk Hi Hw).
  - intros ->. by destruct (default VNull (r.2 !! fk_col_index fk)).
  - exists t, c, rows. split; [done|]. split; [done|]. split; [done|]. exists r. destruct (r.2 !! fk_col_index fk) as [v|] eqn:Ev; [|done].
    exists v. split; [done|]. split; [cbn [referenced_column]; by rewrite Hidx|]. by rewrite value_eq_sym.
Qed.

Lemma finish_spec F s original root R l t s' : at_table F s root R R l → tables (engine s) !! to_ascii_lowercase name = Some t → root_page t = original →
  finish_rows name original root s = (Ok tt, s') →
  ∃ F' t' l', tables (engine s') !! to_ascii_lowercase name = Some t' ∧ at_table F' s' (root_page t') R R l' ∧ others name F F'
    ∧ infos s' = infos s ∧ table_columns (ix s') = table_columns (ix s) ∧ binlog s' = binlog s ∧ undo_log (engine s') = undo_log (engine s)
    ∧ (∀ n, n ≠ to_ascii_lowercase name → tables (engine s') !! n = tables (engine s) !! n) ∧ dom (tables (engine s')) = dom (tables (engine s)).
Proof.
  intros Ht Htab Hpage Hrun. unfold finish_rows in Hrun. apply bind_Ok in Hrun as ([] & s1 & E1 & E2).
  assert (∃ t1, tables (engine s1) !! to_ascii_lowercase name = Some t1 ∧ root_page t1 = root ∧ (∃ F1 l1, at_table F1 s1 root R R l1 ∧ others name F F1)
    ∧ infos s1 = infos s ∧ table_columns (ix s1) = table_columns (ix s) ∧ binlog s1 = binlog s ∧ undo_log (engine s1) = undo_log (engine s)
    ∧ (∀ n, n ≠ to_ascii_lowercase name → tables (engine s1) !! n = tables (engine s) !! n) ∧ dom (tables (engine s1)) = dom (tables (engine s)))
    as (t1 & Et1 & Er1 & (F1 & l1 & Ht1 & Ho1) & A1 & A2 & A3 & A4 & A5 & A6).
  { destruct (Z.eqb_spec root original) as [->|Hne].
    - injection E1 as <-. exists t. split_and!; try done. exists F, l. split; [done|]. by intros k rows.
    - rewrite ST_bind_unfold, table_of_run, Htab in E1. apply bind_Ok in E1 as ([] & s2 & E3 & E1).
      assert (s2 = rooted root s) as -> by (unfold rooted; by rewrite E3). destruct (rooted_table root s t Htab) as (t' & Et' & Er' & _).
      destruct (update_root_spec' F (rooted root s) original root R l s1 (rooted_at _ _ _ _ _ _ Ht) E1) as (F1 & l1 & Ht1 & _ & Ho1 & Hs1).
      exists t'. rewrite (sp_tables _ _ _ _ _ Hs1), (sp_infos _ _ _ _ _ Hs1), (sp_columns _ _ _ _ _ Hs1), (sp_binlog _ _ _ _ _ Hs1), (sp_undo _ _ _ _ _ Hs1).
      split_and!; try done; [by exists F1, l1|intros n Hn; cbn; by rewrite lookup_alter_ne|cbn; apply dom_alter_L]. }
  destruct (auto_flush_spec F1 s1 root R l1 s' Ht1 E2) as (F2 & l2 & Ht2 & _ & Ho2 & Hs2).
  exists F2, t1, l2. rewrite (sp_tables _ _ _ _ _ Hs2), (sp_infos _ _ _ _ _ Hs2), (sp_columns _ _ _ _ _ Hs2), (sp_binlog _ _ _ _ _ Hs2), (sp_undo _ _ _ _ _ Hs2), Er1.
  split_and!; try done. by eapply others_trans.
Qed.
Lemma refs_elsewhere F F' s s' R : others_stored name F s → restricted s → refs_hold F s R → others name F F' →
  infos s' = infos s → dom (tables (engine s')) = dom (tables (engine s)) → (∀ n, n ≠ to_ascii_lowercase name → tables (engine s') !! n = tables (engine s) !! n) →
  refs_hold F' s' R.
Proof.
  intros Hst Hres Hrefs Ho Hi Hd Ht child fk t rows r [Hc (info & Hinfo & Hfk)].
  assert (key_into s child fk) as Hk.
  { split; [|exists info; by rewrite <- Hi]. revert Hc. unfold list_tables. rewrite !list_elem_of_fmap.
    intros ([n u] & -> & Hin%elem_of_map_to_list%elem_of_dom_2). rewrite Hd in Hin. apply elem_of_dom in Hin as [v Hv].
    exists (n, v). split; [done|by apply elem_of_map_to_list]. }
  destruct (Hres child fk Hk) as [_ Hne]. rewrite Ht by done. intros Htab Hrows. destruct (Hst child t Hne Htab) as [rows0 Hrows0].
  pose proof (Ho (tree_key child (root_page t)) rows0 Hne Hrows0). assert (rows = rows0) as -> by congruence. by apply (Hrefs child fk t rows0 r).
Qed.

(** [C30] DELETE without RETURNING, from a table without triggers and search
    indexes, none of whose indexes answers WHERE, with foreign keys into the
    table that come from other tables and restrict, and with WHERE that
    evaluates without an error, removes the rows for which WHERE is true and nothing
    else: when the statement succeeds, the table and its indexes have the other
    rows, no other table has changed, the binary log has one record and the undo
    log one entry for each row removed, with the row as it was; and no row of
    another table is left without the row it refers to, if none was before. *)
Theorem delete_correct F (s s' : Dml T) (d : DeleteStmt) (t : Table) R l (p : Row → bool) result
    (Hname : delete_table d = name) (Hreturning : delete_returning d = None)
    (Htable : tables (engine s) !! to_ascii_lowercase name = Some t)
    (Hat : at_table F s (root_page t) R R l) (Htriggers : no_triggers name s) (Hstored : others_stored name F s) (Hrestricted : restricted s)
    (Hwhere : selects s R (delete_where d) p)
    (Hscan : match delete_where d with Some e => try_dml_index_rowids rec name e (dml_vm s) = (Ok None, dml_vm s) | None => True end)
    (Hrun : exec_delete rec value_size d s = (Ok result, s')) :
  ∃ gone F' t' l',
    gone ≡ₚ filter (λ r, p r.2 = true) R ∧ result = affected (zlen gone) "deleted"
    ∧ tables (engine s') !! to_ascii_lowercase name = Some t'
    ∧ (let kept := without gone R in at_table F' s' (root_page t') kept kept l') ∧ (∀ r, r ∈ without gone R ↔ r ∈ R ∧ p r.2 = false)
    ∧ others name F F'
    ∧ binlog s' = append_all (delete_records gone) (binlog s)
    ∧ undo_log (engine s') = push_all value_size (delete_undos (txn_id (engine s)) gone) (undo_log (engine s))
    ∧ (keys_named s → refs_hold F s R → refs_hold F' s' (without gone R)).
Proof.
  unfold exec_delete in Hrun. rewrite Hname, Hreturning in Hrun. rewrite ST_bind_unfold, table_of_run, Htable in Hrun.
  rewrite ST_bind_unfold, columns_run, (ib_columns _ _ _ _ _ _ _ _ _ (ta_indexed _ _ _ _ _ _ _ _ _ Hat)) in Hrun.
  destruct (rowids_spec F s t R l _ p Hat Hwhere Hscan) as (gone & t0 & Hids & Hgone & Hrep0). rewrite ST_bind_unfold, Hids in Hrun.
  set (s0 := set_ix _ s) in *.
  assert (at_table F s0 (root_page t) R R l) as Ht0 by (destruct Hat as [A B C E0]; split; [done|done|unfold s0; rewrite ix_set_ix; by apply indexed_trees|done]).
  assert (stepped value_size [] [] s s0) as Hs0 by (by apply stepped_ix). assert (others name F F) as HoF by (by intros k rows).
  pose proof (since_leads value_size name F F s s F s0 _ _ (since_refl _ _ _ _) HoF Hs0) as Hsi0.
  assert (∃ R0, R0 ≡ₚ R ∧ NoDup R0.*1) as (R0 & HR0 & Hnd0)
    by (destruct Hat as [Hrep (R0 & HR & HR0) _ _]; exists R0; split; [done|by eapply trees_nodup]).
  assert (NoDup R.*1) as HndR by (by rewrite <- HR0). clear R0 HR0 Hnd0.
  assert (NoDup gone.*1) as Hnd by (rewrite Hgone; by apply nodup_filter_ids).
  assert (∀ r, r ∈ gone → r ∈ R) as Hin by (intros r; rewrite Hgone, list_elem_of_filter; tauto).
  apply bind_Ok in Hrun as ([root dl] & s1 & E1 & Hrun).
  destruct (delete_rows_spec gone F s0 (root_page t) [] (root, dl) s1 l R Ht0) as (_ & Hdep & F1 & l1 & Ht1 & Hi1 & Ho1 & Hs1);
    [by eapply stepped_triggers|by eapply since_stored|by eapply restricted_since|done|done|done|]. cbn [fst] in Ht1.
  apply bind_Ok in Hrun as ([] & s2 & E2 & Hrun). injection Hrun as <- <-. pose proof (stepped_trans _ _ _ _ _ _ _ _ Hs0 Hs1) as Hs01.
  assert (tables (engine s1) !! to_ascii_lowercase name = Some t) as Htab1 by (by rewrite (sp_tables _ _ _ _ _ Hs01)).
  destruct (finish_spec F1 s1 (root_page t) root _ l1 t s2 Ht1 Htab1 eq_refl E2) as (F2 & t2 & l2 & Et2 & Ht2 & Ho2 & B1 & B2 & B3 & B4 & B5 & B6).
  exists gone, F2, t2, l2. split; [done|]. split; [unfold zlen; by rewrite length_fmap|]. split; [done|]. split; [exact Ht2|]. split; [by apply without_spec|].
  split; [by eapply others_trans|]. split; [rewrite B3; apply (sp_binlog _ _ _ _ _ Hs01)|]. split; [rewrite B4; apply (sp_undo _ _ _ _ _ Hs01)|].
  intros Hnamed Hrefs. apply (refs_elsewhere F F2 s s2); [done|done| |by eapply others_trans|by rewrite B1, (sp_infos _ _ _ _ _ Hs01)|
    by rewrite B6, (sp_tables _ _ _ _ _ Hs01)|by intros n Hn; rewrite B5, (sp_tables _ _ _ _ _ Hs01)].
  apply refs_kept; [done..| | | |done]; [|done|done]. eapply Forall_impl; [exact Hdep|]. intros r. by apply since_dependents.
Qed.
End Statements.

(** ** On the sample database *)

Section Sample.
#[local] Existing Instances ascii_std store_trees store_catalog store_pagers no_functions_dml no_fts_dml no_sql no_search.
(** In transaction 5 of the application, 7 of the pager. *)
Definition home_saved : option Forest := Some home_forest.
#[local] Instance home_reads : TreeReads Store := store_reads home_saved.
#[local] Instance home_writes : TreeWrites Store := store_writes home_saved.
#[local] Instance home_flush : FlushKeeps Store.
Proof. by intros t F r t' Hrep [= _ <-]. Qed.
Lemma home_search name : no_search_indexes name.
Proof. done. Qed.
Definition at_home : Dml Store := home 5 home_saved.

(** A pet of person 1. *)
Definition new_pet : InsertStmt := mkInsert "pets" None (InsertValues []) OnConflictError None.
Lemma insert_statement_correct_witness :
  ∃ s' F' l', insert_value_rows no_query_dml 1 new_pet [[VNull; VInteger 1]] at_home = (Ok (affected 1 "inserted"), s')
    ∧ table_at (λ _, false) "pets" pets_columns F' s' 9 (pets_rows ++ [(2, [VInteger 2; VInteger 1])]) (pets_rows ++ [(2, [VInteger 2; VInteger 1])]) l'
    ∧ undo_log (engine s') = push 1 (UInsert "pets" 2 5) (mkUndoLog [] 0).
Proof.
  assert (let r := insert_value_rows no_query_dml 1 new_pet [[VNull; VInteger 1]] at_home in
    r.1 = Ok (affected 1 "inserted") ∧ root_page <$> tables (engine r.2) !! "pets"%string = Some 9) as [Hr Hp] by (split; vm_compute; reflexivity).
  destruct (insert_value_rows _ _ _ _ at_home) as [r s'] eqn:Hrun. cbn [fst snd] in Hr, Hp. subst r.
  destruct (insert_statement_correct no_query_dml 1 (λ _, false) "pets" pets_columns true 7 (store_known home_forest) (home_search "pets")
    home_forest at_home s' new_pet [[VNull; VInteger 1]] pets_table pets_info pets_rows [] (affected 1 "inserted")
    eq_refl eq_refl eq_refl eq_refl eq_refl (pets_home 5 home_saved) eq_refl (home_stored 5 home_saved "pets"))
    as (indices & new & F' & t' & info' & l' & Hi & Hn & _ & Ht & _ & _ & Hat & _ & _ & _ & Hu); [| |done|].
  - intros info fk [= <-] ->%list_elem_of_singleton. done.
  - intros indices _ values next rowid n row _ _ idx ?%elem_of_nil. done.
  - injection Hi as <-. injection Hn as <- _. exists s', F', l'. split; [done|]. change (to_ascii_lowercase "pets") with "pets"%string in Ht.
    rewrite Ht in Hp. injection Hp as Hp. rewrite Hp in Hat. split; [exact Hat|exact Hu].
Defined.

(** Whoever is thirty, with no index to find them. *)
Definition gone_person : DeleteStmt := mkDelete "people" (Some (Nested (BinaryOp (ColumnRef None "age") Equal (IntegerLiteral 30)))) None.
Definition is_thirty (row : Row) : bool := bool_decide (row !! 1%nat = Some (VInteger 30)).
Lemma thirty_selects : selects no_query_dml people_columns at_home people_rows (delete_where gone_person) is_thirty.
Proof. intros x r [->|[->|[]%elem_of_nil]%elem_of_cons]%elem_of_cons; reflexivity. Qed.
Lemma home_key child fk : key_into "people" at_home child fk → child = "pets"%string ∧ fk = owner_key.
Proof.
  intros [([n u] & -> & Hin%elem_of_map_to_list)%list_elem_of_fmap (info & Hi & Hfk)]. cbn [fst] in *.
  apply home_tables in Hin as [[-> _]|[-> _]]; injection Hi as <-; [by apply elem_of_nil in Hfk|]. by apply list_elem_of_singleton in Hfk as ->.
Qed.
Lemma home_restricted : restricted "people" at_home.
Proof. intros child fk [-> ->]%home_key. by split. Qed.
Lemma home_named : keys_named "people" at_home.
Proof. intros child fk [-> ->]%home_key. by exists pets_columns. Qed.
Lemma home_refs : refs_hold "people" people_columns home_forest at_home people_rows.
Proof.
  intros child fk t rows r [-> ->]%home_key. intros [= <-] [= <-] ->%list_elem_of_singleton. right.
  exists (2, [VInteger 2; VInteger 20]), 0%nat, (VInteger 2). split; [right; left|]. done.
Qed.
Lemma delete_correct_witness :
  ∃ s' F' l', exec_delete no_query_dml 1 gone_person at_home = (Ok (affected 1 "deleted"), s')
    ∧ table_at (λ _, false) "people" people_columns F' s' 2 [(2, [VInteger 2; VInteger 20])] [(2, [VInteger 2; VInteger 20])] l'
    ∧ refs_hold "people" people_columns F' s' [(2, [VInteger 2; VInteger 20])].
Proof.
  assert (let r := exec_delete no_query_dml 1 gone_person at_home in
    r.1 = Ok (affected 1 "deleted") ∧ root_page <$> tables (engine r.2) !! "people"%string = Some 2) as [Hr Hp] by (split; vm_compute; reflexivity).
  destruct (exec_delete _ _ _ at_home) as [r s'] eqn:Hrun. cbn [fst snd] in Hr, Hp. subst r.
  destruct (delete_correct no_query_dml 1 (λ _, false) "people" people_columns true 7 (store_known home_forest) (home_search "people")
    home_forest at_home s' gone_person people_table' people_rows [age_index] is_thirty (affected 1 "deleted")
    eq_refl eq_refl eq_refl (people_home 5 home_saved) eq_refl (home_stored 5 home_saved "people"))
    as (gone & F' & t' & l' & Hg & _ & Ht & Hat & _ & _ & _ & _ & Hrefs); [|apply thirty_selects|reflexivity|done|].
  - apply home_restricted.
  - assert (gone = [(1, [VInteger 1; VInteger 30])]) as -> by (by apply Permutation_singleton_r in Hg).
    exists s', F', l'. split; [done|]. change (to_ascii_lowercase "people") with "people"%string in Ht.
    rewrite Ht in Hp. injection Hp as Hp. rewrite Hp in Hat. split; [exact Hat|]. apply Hrefs; [|apply home_refs].
    apply home_named.
Defined.
End Sample.
