(* ===== verification/DmlUpdate.v ===== *)
(** UPDATE (src/src/vm/exec_dml.rs, [exec_update]): the rows it leaves in the
    table and its indexes, its records and undo entries, and the constraints it
    checks. *)
From S2P Require Import Prelude Values Text Expr ExprTypes Mvcc RowLocks Binlog BTreeTree RowOps Joins Aggregates Window Select IndexCache IndexScan IndexUpkeep Checks Dml Keeps DmlLemmas DmlAtomic DmlStore DmlProps.

Section Statements.
Context {T : Type} `{StdFns} `{Crc32} `{TreeWrites T} `{Pagers T} `{!FlushKeeps T} `{ExecuteSql (Dml T)} `{SearchIndexes (Dml T)}
  `{OtherFunctions (Engine (IxState T))} `{FtsScan (IxState T)}.
Context (rec : SelectStmt → ST (VM (Engine (IxState T))) ExecResult) (value_size : Z) (kind : string → bool) (name : string) (cs : list ColumnInfo).
Abbreviation at_table := (table_at kind name cs).
Abbreviation to := (leads value_size kind name cs).
Context (open : bool) (txid : Z) (Htxn : txn_known open txid) (Hsearch : no_search_indexes name).

(** ** One row *)

Lemma table_nodup F s root R Ri l : at_table F s root R Ri l → NoDup R.*1.
Proof. intros [Hrep (R0 & HR & HR0) _ _]. rewrite <- HR0. by eapply trees_nodup. Qed.
Lemma checks_stepped rs es (s s' : Dml T) row : stepped value_size rs es s s' → checks_hold name s' row → checks_hold name s row.
Proof. intros Hs (t & info & A & B & C). exists t, info. by rewrite <- (sp_tables _ _ _ _ _ Hs), <- (sp_infos _ _ _ _ _ Hs). Qed.
Lemma tree_updated F s root R Ri l rowid row root' s' : at_table F s root R Ri l → on_pager (tree_update name root rowid row) s = (Ok root', s') →
  to F s s' [] [] root' (filter (λ r, r.1 ≠ rowid) R ++ [(rowid, row)]) Ri l.
Proof.
  intros Ht Hrun. assert (∃ b r s1, on_pager (tree_delete name root rowid) s = (Ok (b, r), s1) ∧ on_pager (tree_insert name r rowid row) s1 = (Ok root', s'))
    as (b & r & s1 & E1 & E2).
  { revert Hrun. rewrite !on_pager_run. unfold tree_update. rewrite ST_bind_unfold. destruct (tree_delete name root rowid (pagers s)) as [[[b r]| | |] t1]; [|done..].
    intros Hrun. exists b, r, (set_ix (set_trees t1 (ix s)) s). split; [done|]. rewrite on_pager_run. exact Hrun. }
  apply (leads_trans value_size kind name cs F s s1 s' [] [] [] [] r (filter (λ r, r.1 ≠ rowid) R) Ri); [by eapply tree_removed|].
  intros F1 l1 Ht1 _ _ _. by apply (tree_added value_size kind name cs F1 s1 r _ Ri l1 rowid row root' s' Ht1).
Qed.

(** The keys into the table come from other tables, and restrict. *)
Definition update_restricted (s : Dml T) : Prop :=
  ∀ child fk, key_into name s child fk → on_update fk = Restrict ∧ to_ascii_lowercase child ≠ to_ascii_lowercase name.
(** The values that no cascade can write, of which nothing is checked. *)
Definition unchecked (old new : Value) : Prop := sql_literal old = None ∨ is_null new = false ∧ sql_literal new = None.
(** No row of another table refers to a value that is gone. *)
Definition references_kept (F : Forest) (s : Dml T) (old_row new_row : Row) : Prop :=
  ∀ child fk, key_into name s child fk →
    let i := default 0%nat (referenced_column cs (ref_col fk)) in
    let old := default VNull (old_row !! i) in
    let new := default VNull (new_row !! i) in
    value_eq old new = true ∨ is_null old = true ∨ unchecked old new ∨ ¬ holds_value F s child (Some (fk_col_name fk)) old.
Lemma update_restricted_since F0 F (s0 s : Dml T) : since value_size name F0 F s0 s → update_restricted s0 → update_restricted s.
Proof. intros Hsi Hr child fk. rewrite since_key by done. apply Hr. Qed.
Lemma references_since F0 F s0 s old_row new_row : since value_size name F0 F s0 s → others_stored name F0 s0 → update_restricted s0 →
  references_kept F s old_row new_row → references_kept F0 s0 old_row new_row.
Proof.
  intros Hsi Hst Hr Hk child fk Hc. assert (key_into name s child fk) as Hc' by (by rewrite since_key). specialize (Hk child fk Hc'). cbv zeta in Hk |- *.
  destruct Hk as [?|[?|[?|Hn]]]; [by left|by right; left|by right; right; left|]. right; right; right. intros Hh. apply Hn.
  rewrite since_holds; [done|done|done|]. by apply (Hr child fk).
Qed.
Lemma fk_update_spec F s root R Ri l old_row new_row s' : at_table F s root R Ri l → others_stored name F s → update_restricted s →
  enforce_fk_parent_update name old_row new_row s = (Ok tt, s') → references_kept F s old_row new_row ∧ to F s s' [] [] root R Ri l.
Proof.
  intros Ht Hst Hres Hrun. eapply for_children_spec; [exact Ht| |exact Hrun]. clear Hrun Ht l.
  intros child fk F1 s1 s2 l1 Hk Ht1 Hsi. cbv beta. rewrite ST_bind_unfold, columns_run, (ib_columns _ _ _ _ _ _ _ _ _ (ta_indexed _ _ _ _ _ _ _ _ _ Ht1)).
  cbv zeta. set (old := default VNull (old_row !! _)). set (new := default VNull (new_row !! _)).
  destruct (value_eq old new) eqn:Eq; [intros Hr; injection Hr as <-; split; [by left|by apply leads_refl]|].
  destruct (is_null old) eqn:En; [intros Hr; injection Hr as <-; split; [by right; left|by apply leads_refl]|]. cbn [orb].
  destruct (sql_literal old) as [lit|] eqn:El; [|intros Hr; injection Hr as <-; split; [by right; right; left; left|by apply leads_refl]].
  destruct (if is_null new then _ else _) eqn:Enew.
  2: { intros Hr; injection Hr as <-; split; [|by apply leads_refl]. right; right; left; right. by destruct (is_null new). }
  destruct (Hres child fk Hk) as [-> Hne]. intros (b & s3 & E1 & E2)%bind_Ok.
  destruct (value_exists_spec value_size kind name cs F1 s1 root R Ri l1 _ _ _ b s3 Ht1 (since_stored value_size name _ _ _ _ Hsi Hst) Hne E1) as [Hb Hl1].
  destruct b; [done|]. injection E2 as <-. split; [|done]. right; right; right. intros Hh.
  apply (since_holds value_size name F F1 s s1) in Hh; [|done..]. by apply Hb in Hh.
Qed.

Definition update_undo (rowid : Z) (old_row : Row) : Z → UndoEntry := UUpdate name rowid old_row.
Definition update_record (rowid : Z) (old_row new_row : Row) : LogRecord := Binlog.Update txid (bytes_of_string name) rowid old_row new_row.
(** The writes of [update_one], up to the keys of the other tables. *)
Lemma row_rewritten F s s1 s2 s3 s4 s5 s6 root R l rowid old_row new_row root' : at_table F s root R R l → rowid ∈ R.*1 → kinds_ok kind cs l new_row →
  on_ix (delete_index_entries name rowid) s = (Ok tt, s1) → on_ix (validate_unique_indexes_for_row name rowid new_row (Some rowid)) s1 = (Ok tt, s2) →
  on_pager (tree_update name root rowid new_row) s2 = (Ok root', s3) → on_ix (insert_index_entries name rowid new_row) s3 = (Ok tt, s4) →
  log_update name rowid old_row new_row s4 = (Ok tt, s5) → lock_and_record_undo value_size name rowid (Some (update_undo rowid old_row)) s5 = (Ok tt, s6) →
  let R' := filter (λ r, r.1 ≠ rowid) R ++ [(rowid, new_row)] in
  to F s s6 [update_record rowid old_row new_row] (undone open (txn_id (engine s)) (update_undo rowid old_row)) root' R' R' l.
Proof.
  intros Ht Hin Hk E1 E2 E3 E4 E5 E6 R'.
  apply (leads_trans value_size kind name cs F s s1 s6 [] [] _ _ root R (filter (λ r, r.1 ≠ rowid) R)); [by eapply entries_removed|intros F1 l1 Ht1 Hi1 _ Hs1].
  apply (leads_trans value_size kind name cs F1 s1 s2 s6 [] [] _ _ root R (filter (λ r, r.1 ≠ rowid) R)); [by eapply unique_checked|intros F2 l2 Ht2 Hi2 _ Hs2].
  apply (leads_trans value_size kind name cs F2 s2 s3 s6 [] [] _ _ root' R' (filter (λ r, r.1 ≠ rowid) R)); [by eapply tree_updated|intros F3 l3 Ht3 Hi3 _ Hs3].
  apply (leads_trans value_size kind name cs F3 s3 s4 s6 [] [] _ _ root' R' R').
  { eapply entries_added; [done| | |done].
    - intros (q & Eq & [Hq _]%list_elem_of_filter)%list_elem_of_fmap. by apply Hq.
    - do 3 (eapply kinds_ok_same; [done|]). done. }
  intros F4 l4 Ht4 Hi4 _ Hs4. destruct (log_record_spec value_size _ _ Htxn F4 _ _ _ (ta_rep _ _ _ _ _ _ _ _ _ Ht4) E5) as [Hs5 Hx5].
  apply (leads_trans value_size kind name cs F4 s4 s5 s6 [_] [] [] _ root' R' R'); [by eapply leads_logs|intros F5 l5 Ht5 _ _ _].
  destruct (lock_and_record_undo_spec value_size _ _ Htxn F5 _ _ _ _ _ (ta_rep _ _ _ _ _ _ _ _ _ Ht5) E6) as [Hs6 Hx6].
  rewrite (sp_txn _ _ _ _ _ Hs5), (sp_txn _ _ _ _ _ Hs4), (sp_txn _ _ _ _ _ Hs3), (sp_txn _ _ _ _ _ Hs2), (sp_txn _ _ _ _ _ Hs1) in Hs6. by eapply leads_logs.
Qed.
Lemma update_one_spec F s root R l rowid old_row new_row root' s' : at_table F s root R R l → no_triggers name s → others_stored name F s → update_restricted s →
  (rowid, old_row) ∈ R → kinds_ok kind cs l new_row → update_one value_size name root (rowid, old_row, new_row) s = (Ok root', s') →
  checks_hold name s new_row ∧ references_kept F s old_row new_row
  ∧ (let R' := filter (λ r, r.1 ≠ rowid) R ++ [(rowid, new_row)] in
     to F s s' [update_record rowid old_row new_row] (undone open (txn_id (engine s)) (update_undo rowid old_row)) root' R' R' l).
Proof.
  intros Ht Hnt Hst Hres Hin Hk Hrun. unfold update_one in Hrun. rewrite ST_bind_unfold, fire_no_triggers in Hrun by done.
  apply bind_Ok in Hrun as ([] & s0 & [-> Hc]%checks_spec & Hrun). split; [done|].
  rewrite ST_bind_unfold, (ns_fts_delete _ Hsearch), ST_bind_unfold, (ns_vec_delete _ Hsearch) in Hrun.
  apply bind_Ok in Hrun as ([] & s1 & E1 & Hrun). apply bind_Ok in Hrun as ([] & s2 & E2 & Hrun). apply bind_Ok in Hrun as (r & s3 & E3 & Hrun).
  apply bind_Ok in Hrun as ([] & s4 & E4 & Hrun). rewrite ST_bind_unfold, (ns_fts_insert _ Hsearch), ST_bind_unfold, (ns_vec_insert _ Hsearch) in Hrun.
  apply bind_Ok in Hrun as ([] & s5 & E5 & Hrun). apply bind_Ok in Hrun as ([] & s6 & E6 & Hrun). apply bind_Ok in Hrun as ([] & s7 & E7 & Hrun).
  assert (rowid ∈ R.*1) as Hid by (apply list_elem_of_fmap; by exists (rowid, old_row)).
  destruct (row_rewritten F s s1 s2 s3 s4 s5 s6 root R l rowid old_row new_row r Ht Hid Hk E1 E2 E3 E4 E5 E6) as (F6 & l6 & Ht6 & Hi6 & Ho6 & Hs6).
  pose proof (since_leads value_size name F F s s F6 s6 _ _ (since_refl _ _ _ _) Ho6 Hs6) as Hsi.
  destruct (fk_update_spec F6 s6 r _ _ l6 old_row new_row s7 Ht6) as [Hrefs Hl7]; [by eapply since_stored|by eapply update_restricted_since|done|].
  destruct Hl7 as (F7 & l7 & Ht7 & Hi7 & Ho7 & Hs7). pose proof (stepped_trans _ _ _ _ _ _ _ _ Hs6 Hs7) as Hs67. rewrite !app_nil_r in Hs67.
  rewrite ST_bind_unfold, fire_no_triggers in Hrun by (by eapply stepped_triggers). injection Hrun as <- <-.
  split; [by eapply references_since|]. exists F7, l7. split; [done|]. split; [unfold same_indexes in *; congruence|]. split; [by eapply others_trans|done].
Qed.

(** ** The statement *)

(** The rows [changed], with [f] for the assignments. *)
Section Rows.
Context (f : Row → Row).
Definition change_of (r : Z * Row) : Z * Row * Row := (r, f r.2).
Definition update_records (changed : list (Z * Row)) : list LogRecord := map (λ r : Z * Row, update_record r.1 r.2 (f r.2)) changed.
Definition update_undos (n : Z) (changed : list (Z * Row)) : list UndoEntry := changed ≫= λ r : Z * Row, undone open n (update_undo r.1 r.2).
Definition updated (changed R : list (Z * Row)) : list (Z * Row) := without changed R ++ map (λ r : Z * Row, (r.1, f r.2)) changed.
Lemma updated_cons rowid old_row changed R : rowid ∉ changed.*1 →
  updated changed (filter (λ r, r.1 ≠ rowid) R ++ [(rowid, f old_row)]) = updated ((rowid, old_row) :: changed) R.
Proof.
  intros Hn. unfold updated. cbn [map fst snd]. rewrite <- (without_cons (rowid, old_row)). unfold without. cbn [fst]. rewrite filter_app.
  rewrite (filter_cons_True _ (rowid, f old_row)) by done. by rewrite filter_nil, <- app_assoc.
Qed.
Lemma updated_rows_spec changed : ∀ F s root root' s' l R,
  at_table F s root R R l → no_triggers name s → others_stored name F s → update_restricted s →
  NoDup changed.*1 → (∀ r, r ∈ changed → r ∈ R) → (∀ r, r ∈ changed → kinds_ok kind cs l (f r.2)) →
  fold_root (update_one value_size name) root (map change_of changed) s = (Ok root', s') →
  Forall (λ r, checks_hold name s (f r.2)) changed ∧ Forall (λ r, references_kept F s r.2 (f r.2)) changed
  ∧ to F s s' (update_records changed) (update_undos (txn_id (engine s)) changed) root' (updated changed R) (updated changed R) l.
Proof.
  induction changed as [|[rowid row] changed IH]; intros F s root root' s' l R Ht Hnt Hst Hres Hnd Hin Hk Hrun.
  { injection Hrun as <- <-. split; [constructor|]. split; [constructor|].
    assert (updated [] R = R) as ->; [|by apply leads_refl]. unfold updated, without. cbn [map]. rewrite app_nil_r. apply filter_all. intros r _. apply not_elem_of_nil. }
  cbn [fmap list_fmap fst] in Hnd. cbn [map] in Hrun. unfold change_of at 1 in Hrun. apply NoDup_cons in Hnd as [Hn Hnd]. cbn [fold_root fst snd] in Hrun.
  apply bind_Ok in Hrun as (r & s1 & E1 & Hrun).
  destruct (update_one_spec F s root R l rowid row (f row) r s1 Ht Hnt Hst Hres (Hin _ ltac:(left)) (Hk (rowid, row) ltac:(left)) E1) as (Hc & Hrefs & F1 & l1 & Ht1 & Hi1 & Ho1 & Hs1).
  pose proof (since_leads value_size name F F s s F1 s1 _ _ (since_refl _ _ _ _) Ho1 Hs1) as Hsi.
  destruct (IH F1 s1 r root' s' l1 _ Ht1) as (Hcs & Hrs & Hl2);
    [by eapply stepped_triggers|by eapply since_stored|by eapply update_restricted_since|done| | |done|].
  { intros q Hq. apply elem_of_app; left. apply list_elem_of_filter. split; [|apply Hin; by right]. intros E. apply Hn. rewrite <- E. by apply list_elem_of_fmap_2. }
  { intros q Hq. eapply kinds_ok_same; [done|]. apply Hk. by right. }
  split; [constructor; [done|]; eapply Forall_impl; [exact Hcs|]; intros q; by eapply checks_stepped|].
  split; [constructor; [done|]; eapply Forall_impl; [exact Hrs|]; intros q; by apply references_since|].
  rewrite (sp_txn _ _ _ _ _ Hs1), updated_cons in Hl2 by done. unfold update_records, update_undos in *. cbn [map mbind list_bind fst snd].
  change (?a :: ?b) with ([a] ++ b). by eapply leads_after.
Qed.

(** The assignments give [f] of the rows WHERE selects, in every state of the
    trees. *)
Definition assigns (s : Dml T) (R : list (Z * Row)) (l : list (nat * SExpr')) (p : Row → bool) : Prop :=
  ∀ x r, r ∈ R → p r.2 = true → assign rec l (dml_col_map cs) r.2 (upd_engine (set_engine_rest x) (dml_vm s)) = (Ok (f r.2), upd_engine (set_engine_rest x) (dml_vm s)).
Lemma scan_changes s x R p l where_clause : selects rec cs s R where_clause p → assigns s R l p → ∀ rows, (∀ r, r ∈ rows → r ∈ R) →
  st_flat_map (λ '(rid, row),
    ok ← satisfies rec where_clause (dml_col_map cs) row;
    if ok : bool then new_row ← assign rec l (dml_col_map cs) row; mret [(rid, row, new_row)] else mret []) rows
    (upd_engine (set_engine_rest x) (dml_vm s))
  = (Ok (map change_of (List.filter (λ r : Z * Row, p r.2) rows)), upd_engine (set_engine_rest x) (dml_vm s)).
Proof.
  intros Hsel Has. induction rows as [|[rid row] rows IH]; intros Hl; [done|]. cbn [st_flat_map]. rewrite !ST_bind_unfold.
  pose proof (Hsel x (rid, row) (Hl _ ltac:(left))) as Hs. pose proof (Has x (rid, row) (Hl _ ltac:(left))) as Ha. cbn [snd] in Hs, Ha. rewrite Hs.
  cbn [List.filter snd]. destruct (p row).
  - rewrite ST_bind_unfold, Ha by done. unfold mret at 1, ST_ret at 1. rewrite ST_bind_unfold, IH by (intros r Hr; apply Hl; by right). done.
  - unfold mret at 1, ST_ret at 1. rewrite ST_bind_unfold, IH by (intros r Hr; apply Hl; by right). done.
Qed.
Lemma changes_spec F s t R l where_clause p idx : at_table F s (root_page t) R R l → selects rec cs s R where_clause p → assigns s R idx p →
  match where_clause with Some e => try_dml_index_rowids rec name e (dml_vm s) = (Ok None, dml_vm s) | None => True end →
  ∃ changed t', on_vm (rows_to_update rec name (root_page t) idx (dml_col_map cs) where_clause) s = (Ok (map change_of changed), set_ix (set_trees t' (ix s)) s)
    ∧ changed ≡ₚ filter (λ r, p r.2 = true) R ∧ trees_rep t' F.
Proof.
  intros [Hrep (R0 & HR & HR0) Hi Ha] Hsel Has Hidx. destruct (tree_scan_law _ _ _ _ _ Hrep HR) as (t' & Hs & Hrep').
  exists (List.filter (λ r : Z * Row, p r.2) R0), t'. split; [|split; [by rewrite bool_filter_filter, HR0|done]].
  unfold on_vm, rows_to_update. rewrite ST_bind_unfold.
  assert (match where_clause with Some e => try_dml_index_rowids rec name e | None => mret None end (dml_vm s) = (Ok None, dml_vm s)) as -> by (by destruct where_clause).
  rewrite ST_bind_unfold. unfold on_index. unfold on_trees. change (trees (engine_rest (vm_rest (dml_vm s)))) with (pagers s). rewrite Hs.
  rewrite (scan_changes s _ R p); [done|done|done|]. intros r. by rewrite HR0.
Qed.

(** [C29] UPDATE without RETURNING, on a table without triggers and search indexes,
    none of whose indexes answers WHERE, with foreign keys into the table that
    come from other tables and restrict, and with WHERE and assignments that
    evaluate without an error to values of the kinds its indexes hold, changes
    the rows for which WHERE is true, each to what the
    assignments make of it, and nothing else: when the statement succeeds, the
    table and its indexes have the other rows and the new versions under the
    same ids, no other table has changed, the binary log and the undo log have
    one entry for each row, with the row as it was; every new version satisfies
    CHECK, and no row of another table refers to a value an update took away,
    except the values no literal can express. *)
Theorem update_correct F (s s' : Dml T) (u : UpdateStmt) (t : Table) R l (p : Row → bool) (indices : list (nat * SExpr')) result
    (Hname : update_table u = name) (Hreturning : update_returning u = None)
    (Htable : tables (engine s) !! to_ascii_lowercase name = Some t)
    (Hat : at_table F s (root_page t) R R l) (Htriggers : no_triggers name s) (Hstored : others_stored name F s) (Hrestricted : update_restricted s)
    (Hassign : assignment_indices (dml_col_map cs) (Dml.assignments u) = Ok indices)
    (Hwhere : selects rec cs s R (update_where u) p) (Hsets : assigns s R indices p)
    (Hscan : match update_where u with Some e => try_dml_index_rowids rec name e (dml_vm s) = (Ok None, dml_vm s) | None => True end)
    (Hkinds : ∀ r, r ∈ R → p r.2 = true → kinds_ok kind cs l (f r.2))
    (Hrun : exec_update rec value_size u s = (Ok result, s')) :
  ∃ changed F' t' l',
    changed ≡ₚ filter (λ r, p r.2 = true) R ∧ result = affected (zlen changed) "updated"
    ∧ tables (engine s') !! to_ascii_lowercase name = Some t'
    ∧ (let R' := updated changed R in at_table F' s' (root_page t') R' R' l') ∧ (∀ r, r ∈ without changed R ↔ r ∈ R ∧ p r.2 = false)
    ∧ others name F F'
    ∧ Forall (λ r, checks_hold name s (f r.2) ∧ references_kept F s r.2 (f r.2)) changed
    ∧ binlog s' = append_all (update_records changed) (binlog s)
    ∧ undo_log (engine s') = push_all value_size (update_undos (txn_id (engine s)) changed) (undo_log (engine s)).
Proof.
  unfold exec_update in Hrun. rewrite Hname, Hreturning in Hrun. rewrite ST_bind_unfold, table_of_run, Htable in Hrun.
  rewrite ST_bind_unfold, columns_run, (ib_columns _ _ _ _ _ _ _ _ _ (ta_indexed _ _ _ _ _ _ _ _ _ Hat)) in Hrun.
  rewrite Hassign, ST_bind_unfold in Hrun. unfold st_lift at 1 in Hrun.
  destruct (changes_spec F s t R l _ p indices Hat Hwhere Hsets Hscan) as (changed & t0 & Hids & Hch & Hrep0). rewrite ST_bind_unfold, Hids in Hrun.
  set (s0 := set_ix _ s) in *.
  assert (at_table F s0 (root_page t) R R l) as Ht0 by (destruct Hat as [A B C E0]; split; [done|done|unfold s0; rewrite ix_set_ix; by apply indexed_trees|done]).
  assert (stepped value_size [] [] s s0) as Hs0 by (by apply stepped_ix). assert (others name F F) as HoF by (by intros k rows).
  pose proof (since_leads value_size name F F s s F s0 _ _ (since_refl _ _ _ _) HoF Hs0) as Hsi0. pose proof (table_nodup _ _ _ _ _ _ Hat) as HndR.
  assert (NoDup changed.*1) as Hnd by (rewrite Hch; by apply nodup_filter_ids).
  assert (∀ r, r ∈ changed → p r.2 = true ∧ r ∈ R) as Hin by (intros r; by rewrite Hch, list_elem_of_filter).
  apply bind_Ok in Hrun as (root & s1 & E1 & Hrun).
  destruct (updated_rows_spec changed F s0 (root_page t) root s1 l R Ht0) as (Hc & Hrefs & F1 & l1 & Ht1 & Hi1 & Ho1 & Hs1);
    [by eapply stepped_triggers|by eapply since_stored|by eapply update_restricted_since|done|by intros r []%Hin|by intros r []%Hin; apply Hkinds|done|].
  apply bind_Ok in Hrun as ([] & s2 & E2 & Hrun). injection Hrun as <- <-. pose proof (stepped_trans _ _ _ _ _ _ _ _ Hs0 Hs1) as Hs01.
  assert (tables (engine s1) !! to_ascii_lowercase name = Some t) as Htab1 by (by rewrite (sp_tables _ _ _ _ _ Hs01)).
  destruct (finish_spec value_size kind name cs F1 s1 (root_page t) root _ l1 t s2 Ht1 Htab1 eq_refl E2) as (F2 & t2 & l2 & Et2 & Ht2 & Ho2 & _ & _ & B3 & B4 & _).
  exists changed, F2, t2, l2. split; [done|]. split; [unfold zlen; by rewrite length_map|]. split; [done|]. split; [exact Ht2|]. split; [by apply without_spec|].
  split; [by eapply others_trans|]. split; [|split; [rewrite B3; apply (sp_binlog _ _ _ _ _ Hs01)|rewrite B4; apply (sp_undo _ _ _ _ _ Hs01)]].
  rewrite Forall_forall in Hc, Hrefs. apply Forall_forall. intros r Hr. split; [by eapply checks_stepped; [|apply Hc]|by eapply references_since; [..|apply Hrefs]].
Qed.
End Rows.
End Statements.

(** ** On the sample database *)

Section Sample.
#[local] Existing Instances ascii_std store_trees store_catalog store_pagers no_functions_dml no_fts_dml no_sql no_search home_reads home_writes home_flush.

(** A birthday of whoever is thirty. *)
Definition birthday : UpdateStmt :=
  mkUpdate "people" [("age"%string, BinaryOp (ColumnRef None "age") Add (IntegerLiteral 1))]
    (Some (Nested (BinaryOp (ColumnRef None "age") Equal (IntegerLiteral 30)))) None.
Definition older (row : Row) : Row := <[1%nat := VInteger 31]> row.
Definition birthday_sets : list (nat * SExpr') := [(1%nat, BinaryOp (ColumnRef None "age") Add (IntegerLiteral 1))].
Lemma birthday_selects : selects no_query_dml people_columns at_home people_rows (update_where birthday) is_thirty.
Proof. intros x r [->|[->|[]%elem_of_nil]%elem_of_cons]%elem_of_cons; reflexivity. Qed.
Lemma birthday_assigns : assigns no_query_dml people_columns older at_home people_rows birthday_sets is_thirty.
Proof. intros x r [->|[->|[]%elem_of_nil]%elem_of_cons]%elem_of_cons; [reflexivity|done]. Qed.
Lemma home_update_restricted : update_restricted "people" at_home.
Proof. intros child fk [-> ->]%home_key. by split. Qed.
Lemma birthday_kinds r : r ∈ people_rows → is_thirty r.2 = true → kinds_ok (λ _, false) people_columns [age_index] (older r.2).
Proof. by intros [->|[->|[]%elem_of_nil]%elem_of_cons]%elem_of_cons _ idx ->%list_elem_of_singleton. Qed.
Lemma update_correct_witness :
  ∃ s' F' l', exec_update no_query_dml 1 birthday at_home = (Ok (affected 1 "updated"), s')
    ∧ (let R' := [(2, [VInteger 2; VInteger 20]); (1, [VInteger 1; VInteger 31])] in table_at (λ _, false) "people" people_columns F' s' 2 R' R' l')
    ∧ undo_log (engine s') = push 1 (UUpdate "people" 1 [VInteger 1; VInteger 30] 5) (mkUndoLog [] 0).
Proof.
  assert (let r := exec_update no_query_dml 1 birthday at_home in
    r.1 = Ok (affected 1 "updated") ∧ root_page <$> tables (engine r.2) !! "people"%string = Some 2) as [Hr Hp] by (split; vm_compute; reflexivity).
  destruct (exec_update _ _ _ at_home) as [r s'] eqn:Hrun. cbn [fst snd] in Hr, Hp. subst r.
  destruct (update_correct no_query_dml 1 (λ _, false) "people" people_columns true 7 (store_known home_forest) (home_search "people") older
    home_forest at_home s' birthday people_table' people_rows [age_index] is_thirty birthday_sets (affected 1 "updated")
    eq_refl eq_refl eq_refl (people_home 5 home_saved) eq_refl (home_stored 5 home_saved "people") home_update_restricted eq_refl
    birthday_selects birthday_assigns eq_refl birthday_kinds Hrun)
    as (changed & F' & t' & l' & Hc & _ & Ht & Hat & _ & _ & _ & _ & Hu).
  assert (changed = [(1, [VInteger 1; VInteger 30])]) as -> by (by apply Permutation_singleton_r in Hc).
  exists s', F', l'. split; [done|]. change (to_ascii_lowercase "people") with "people"%string in Ht.
  rewrite Ht in Hp. injection Hp as Hp. rewrite Hp in Hat. split; [exact Hat|exact Hu].
Defined.
End Sample.
