(* ===== verification/DmlFlaws.v ===== *)
(** What INSERT, UPDATE and DELETE leave undone (src/src/vm/exec_dml.rs), on
    the sample database of DmlStore. *)
From S2P Require Import Prelude Values Text Expr ExprTypes Mvcc RowLocks Binlog BTreeTree RowOps Joins Aggregates Window Select IndexCache IndexScan IndexUpkeep Checks Dml DmlLemmas DmlStore.

Section Flaws.
#[local] Existing Instances ascii_std store_trees store_catalog store_pagers no_functions_dml no_fts_dml no_sql no_search.
Definition rows_of (name : string) (root : Z) (s : Dml Store) : option (list (Z * Row)) := (pagers s).1 !! tree_key name root.
(** [name.column = n], which no index serves, and [SET column = e]. *)
Definition where_eq (column : string) (n : Z) : option SExpr' := Some (Nested (BinaryOp (ColumnRef None column) Equal (IntegerLiteral n))).
Definition set_where (name column : string) (e : SExpr') (w : option SExpr') : UpdateStmt := mkUpdate name [(column, e)] w None.
Abbreviation update u s := (exec_update no_query_dml 1 u s).
Abbreviation delete_from d s := (exec_delete no_query_dml 1 d s).
Abbreviation insert_into i s := (exec_insert no_query_dml 1 i s).

(** UPDATE checks CHECK, but neither NOT NULL nor the foreign keys of the row
    it writes: the owner of a pet becomes NULL, or nobody. *)
Example update_skips_not_null :
  let r := update (set_where "pets" "owner" ENull None) (home 0 None) in
  r.1 = Ok (affected 1 "updated") ∧ rows_of "pets" 9 r.2 = Some [(1, [VInteger 1; VNull])]
  ∧ check_not_null "pets" pets_columns [VInteger 1; VNull] = Err (not_null_error "pets" "owner").
Proof. by vm_compute. Qed.
Example update_skips_foreign_keys :
  let r := update (set_where "pets" "owner" (IntegerLiteral 9) None) (home 0 None) in
  r.1 = Ok (affected 1 "updated") ∧ rows_of "pets" 9 r.2 = Some [(1, [VInteger 1; VInteger 9])].
Proof. by vm_compute. Qed.
(** An UPDATE of an INTEGER PRIMARY KEY leaves the row under its old id, and
    looks for no row that has the key. *)
Example update_duplicates_key :
  let r := update (set_where "people" "id" (IntegerLiteral 2) (where_eq "id" 1)) (home 0 None) in
  r.1 = Ok (affected 1 "updated") ∧ rows_of "people" 2 r.2 = Some [(2, [VInteger 2; VInteger 20]); (1, [VInteger 2; VInteger 30])].
Proof. by vm_compute. Qed.
(** An UPDATE that UNIQUE refuses has removed the row's index entries, and
    outside a transaction nothing brings them back. *)
Example refused_update_loses_index_entry :
  let r := update (set_where "people" "age" (IntegerLiteral 20) (where_eq "id" 1)) (home 0 None) in
  (∃ e, r.1 = Err e) ∧ rows_of "people" 2 r.2 = Some people_rows ∧ rows_of "people" 5 r.2 = Some [(2, [VInteger 20; VInteger 2])].
Proof. split; [eexists; by vm_compute|by vm_compute]. Qed.
(** UPDATE is not atomic outside a transaction: the rows before the one that
    fails its CHECK stay changed. *)
Example update_not_atomic :
  let minus := BinaryOp (ColumnRef None "age") Subtract (IntegerLiteral 25) in
  let r := update (set_where "people" "age" minus None) (home 0 None) in
  (∃ e, r.1 = Err e) ∧ rows_of "people" 2 r.2 = Some [(2, [VInteger 2; VInteger 20]); (1, [VInteger 1; VInteger 5])].
Proof. split; [eexists; by vm_compute|by vm_compute]. Qed.

(** The row lock is taken after the row is gone: a DELETE that loses the race
    for the lock fails, and its deletion stays in the transaction, without an
    undo entry. *)
Definition locked_home : Dml Store :=
  let s := home 5 (Some home_forest) in
  set_vm (upd_engine (set_row_locks (try_lock_row "people" 1 6 RLM_new).2) (dml_vm s)) s.
Example delete_before_lock :
  let r := delete_from (mkDelete "people" (where_eq "id" 1) None) locked_home in
  (∃ e, r.1 = Err e) ∧ rows_of "people" 2 r.2 = Some [(2, [VInteger 2; VInteger 20])] ∧ undo_log (engine r.2) = UndoLog_new.
Proof. split; [eexists; by vm_compute|by vm_compute]. Qed.

(** An INSERT that fails is undone in the trees but not in the binary log. *)
Example failed_insert_stays_in_binlog :
  let r := insert_into (mkInsert "pets" None (InsertValues [[ENull; IntegerLiteral 1]; [ENull; IntegerLiteral 9]]) OnConflictError None) (home 0 None) in
  r.1 = Err (fk_insert_error "pets" owner_key) ∧ rows_of "pets" 9 r.2 = Some pets_rows
  ∧ binlog r.2 = (append (Binlog.Insert 7 (bytes_of_string "pets") 2 [VInteger 2; VInteger 1]) (binlog (home 0 None))).2
  ∧ binlog r.2 ≠ binlog (home 0 None).
Proof. vm_compute. split_and!; try reflexivity. discriminate. Qed.
(** INSERT OR IGNORE and its like count the new row, but leave no undo entry
    and return no row. *)
Example insert_or_ignore_without_undo :
  let r := insert_into (mkInsert "pets" None (InsertValues [[ENull; IntegerLiteral 1]]) OnConflictIgnore (Some [ColumnRef None "id"])) (home 5 (Some home_forest)) in
  r.1 = Ok (QueryResult ["id"%string] []) ∧ rows_of "pets" 9 r.2 = Some (pets_rows ++ [(2, [VInteger 2; VInteger 1])]) ∧ undo_log (engine r.2) = UndoLog_new.
Proof. by vm_compute. Qed.
(** DELETE ... RETURNING ends the transaction in the binary log, though the
    transaction goes on. *)
Example returning_commits :
  let s := home 5 (Some home_forest) in
  let r := delete_from (mkDelete "people" (where_eq "id" 1) (Some [ColumnRef None "id"])) s in
  in_transaction (pagers r.2) = true
  ∧ binlog r.2 = (append (Binlog.Commit 7) (append (Binlog.Delete 7 (bytes_of_string "people") 1 (Some [VInteger 1; VInteger 30])) (binlog s)).2).2.
Proof. by vm_compute. Qed.

(** A foreign key that holds a blob, which has no literal, does not restrict:
    the value it refers to may change. *)
Definition blob_home : Dml Store :=
  let s := home 0 None in
  set_ix (set_trees (<[tree_key "pets" 9 := [(1, [VInteger 1; VBlob [1]])]]> home_forest, None) (ix s)) s.
Example blob_key_unrestricted :
  let r := enforce_fk_parent_update "people" [VBlob [1]; VNull] [VInteger 3; VNull] blob_home in
  r.1 = Ok tt
  ∧ (fk_value_exists_in_parent "pets" (Some "owner"%string) (VBlob [1]) blob_home).1 = Ok true.
Proof. by vm_compute. Qed.
End Flaws.
