(* ===== verification/QueryCache.v ===== *)
(** The query cache (src/src/vm/optimizer/query_cache.rs) and the statements
    that use it ([execute_statement] and [extract_table_names_from_select] in
    src/src/vm/execute.rs): results by the text of the query, the least recently
    used one evicted first, the results of a table dropped when it changes.

    The statements that triggers and cascades execute drop the results of their
    tables too; which tables these are is the interface [NestedTables].  The
    counters of the statistics are not bounded. *)
From S2P Require Import Prelude Values Text Expr ExprTypes Mvcc RowLocks Binlog RowOps Joins Aggregates Window Select IndexCache IndexScan IndexUpkeep Checks Dml DmlLemmas DmlStore.

(** ** The cache *)

Record QueryCacheEntry : Type := mkEntry { entry_columns : list string; entry_rows : list Row; referenced_tables : list string; hit_count : Z }.
Record CacheStats : Type := mkStats { lookups : Z; hits : Z; misses : Z; inserts : Z; invalidations : Z; evictions : Z }.
(** [lru_order]: oldest first. *)
Record QueryCache : Type := mkCache {
  cached : gmap bytes QueryCacheEntry; lru_order : list bytes; max_entries : nat; enabled : bool; stats : CacheStats }.
Definition no_stats : CacheStats := mkStats 0 0 0 0 0 0.
Definition QueryCache_new (max_entries : nat) : QueryCache := mkCache ∅ [] max_entries true no_stats.
(** [trim] and [to_ascii_lowercase] *)
Definition normalize_key (sql : bytes) : bytes := lower_bytes (trim sql).
(** [lru_order.retain(|k| k != key)] *)
Definition retain_others (key : bytes) (l : list bytes) : list bytes := filter (λ k, k ≠ key) l.

Definition get (sql : bytes) (c : QueryCache) : option (list string * list Row) * QueryCache :=
  let key := normalize_key sql in
  let st := stats c in
  match cached c !! key with
  | Some e =>
      (Some (entry_columns e, entry_rows e),
       mkCache (<[key := mkEntry (entry_columns e) (entry_rows e) (referenced_tables e) (hit_count e + 1)]> (cached c))
         (retain_others key (lru_order c) ++ [key]) (max_entries c) (enabled c)
         (mkStats (lookups st + 1) (hits st + 1) (misses st) (inserts st) (invalidations st) (evictions st)))
  | None =>
      (None, mkCache (cached c) (lru_order c) (max_entries c) (enabled c)
         (mkStats (lookups st + 1) (hits st) (misses st + 1) (inserts st) (invalidations st) (evictions st)))
  end.
(** While the cache is [full], the oldest entry goes. *)
Fixpoint evict (full : nat → bool) (m : gmap bytes QueryCacheEntry) (lru : list bytes) (n : Z) : gmap bytes QueryCacheEntry * list bytes * Z :=
  match lru with
  | oldest :: lru' => if full (size m) then evict full (delete oldest m) lru' (n + 1) else (m, lru, n)
  | [] => (m, [], n)
  end.
Definition evicted (full : nat → bool) (c : QueryCache) : QueryCache :=
  let '(m, lru, n) := evict full (cached c) (lru_order c) 0 in
  let st := stats c in
  mkCache m lru (max_entries c) (enabled c) (mkStats (lookups st) (hits st) (misses st) (inserts st) (invalidations st) (evictions st + n)).
Definition put (sql : bytes) (tables : list string) (columns : list string) (rows : list Row) (c : QueryCache) : QueryCache :=
  if negb (enabled c) then c
  else
    let key := normalize_key sql in
    let c := evicted (λ n, (max_entries c <=? n)%nat) c in
    let st := stats c in
    mkCache (<[key := mkEntry columns rows tables 0]> (cached c)) (retain_others key (lru_order c) ++ [key]) (max_entries c) (enabled c)
      (mkStats (lookups st) (hits st) (misses st) (inserts st + 1) (invalidations st) (evictions st)).
Definition drop_key (c : QueryCache) (key : bytes) : QueryCache :=
  let st := stats c in
  mkCache (delete key (cached c)) (retain_others key (lru_order c)) (max_entries c) (enabled c)
    (mkStats (lookups st) (hits st) (misses st) (inserts st) (invalidations st + 1) (evictions st)).
Definition refers (table : string) (e : QueryCacheEntry) : bool := existsb (λ t, String.eqb t table) (referenced_tables e).
Definition invalidate_table (name : string) (c : QueryCache) : QueryCache :=
  let keys := map fst (List.filter (λ p : bytes * QueryCacheEntry, refers (to_ascii_lowercase name) p.2) (map_to_list (cached c))) in
  foldl drop_key c keys.
Definition clear (c : QueryCache) : QueryCache := mkCache ∅ [] (max_entries c) (enabled c) (stats c).
Definition reset_stats (c : QueryCache) : QueryCache := mkCache (cached c) (lru_order c) (max_entries c) (enabled c) no_stats.
Definition set_enabled (b : bool) (c : QueryCache) : QueryCache :=
  let c := mkCache (cached c) (lru_order c) (max_entries c) b (stats c) in if b then c else clear c.
Definition set_max_entries (n : nat) (c : QueryCache) : QueryCache :=
  evicted (λ size, (n <? size)%nat) (mkCache (cached c) (lru_order c) n (enabled c) (stats c)).

(** ** The tables of a query *)

Section Collect.
Context (extract : SelectStmt → list string).
Fixpoint collect_tables_from_expr (e : SExpr') : list string :=
  match e with
  | Exists q | Subquery q => extract q
  | InSubquery e q _ | AnyOp e _ q | AllOp e _ q => collect_tables_from_expr e ++ extract q
  | BinaryOp l _ r => collect_tables_from_expr l ++ collect_tables_from_expr r
  | UnaryOp _ e | IsNull e _ | Nested e | Collate e _ => collect_tables_from_expr e
  | Between e low high _ => collect_tables_from_expr e ++ collect_tables_from_expr low ++ collect_tables_from_expr high
  | InList e l _ => collect_tables_from_expr e ++ mjoin (map collect_tables_from_expr l)
  | Case o whens els =>
      match o with Some e => collect_tables_from_expr e | None => [] end
      ++ mjoin (map (λ '(c, r), collect_tables_from_expr c ++ collect_tables_from_expr r) whens)
      ++ match els with Some e => collect_tables_from_expr e | None => [] end
  | Function _ args _ => mjoin (map collect_tables_from_expr args)
  | ELike e p _ _ _ => collect_tables_from_expr e ++ collect_tables_from_expr p
  | _ => []
  end.
End Collect.
Fixpoint extract_table_names_from_select (q : SelectStmt) : list string :=
  match q with
  | mkSelect _ columns from where_clause _ having _ _ _ _ _ _ =>
      match from with Some f => collect_from_tables f | None => [] end
      ++ match where_clause with Some e => collect_tables_from_expr extract_table_names_from_select e | None => [] end
      ++ match having with Some e => collect_tables_from_expr extract_table_names_from_select e | None => [] end
      ++ mjoin (map (λ c, match c with SExpr e _ => collect_tables_from_expr extract_table_names_from_select e | _ => [] end) columns)
  end
with collect_from_tables (f : FromClause) : list string :=
  match f with
  | FTable name _ => [to_ascii_lowercase name]
  | FJoin l _ r _ => collect_from_tables l ++ collect_from_tables r
  | FSubquery q _ => extract_table_names_from_select q
  | FSetOp _ _ | FTableFunction _ _ _ _ => []
  end.

(** ** The statements *)

Inductive Statement : Type := Select (q : SelectStmt) | Insert (i : InsertStmt) | Update (u : UpdateStmt) | Delete (d : DeleteStmt).
(** The tables of the statements that the triggers and cascades of a statement
    execute. *)
Class NestedTables (T : Type) := nested_tables : Statement → Dml T → list string.
Record Session {T : Type} : Type := mkSession { dml : Dml T; query_cache : QueryCache }.
Arguments Session : clear implicits.

Section Statements.
Context {T : Type} `{StdFns} `{Crc32} `{Trees T} `{CatalogRoots T} `{Pagers T} `{ExecuteSql (Dml T)} `{SearchIndexes (Dml T)}
  `{OtherFunctions (Engine (IxState T))} `{FtsScan (IxState T)} `{NestedTables T}.
Context (rec : SelectStmt → ST (VM (Engine (IxState T))) ExecResult) (value_size : Z).

Definition on_dml {A} (m : ST (Dml T) A) : ST (Session T) A := λ s, let '(r, d) := m (dml s) in (r, mkSession T d (query_cache s)).
Definition on_cache (f : QueryCache → QueryCache) (s : Session T) : Session T := mkSession T (dml s) (f (query_cache s)).
(** Outside a snapshot, without parameters. *)
Definition cache_eligible (s : Session T) : bool :=
  match snapshot_in_use (engine (dml s)) with None => true | Some _ => false end
  && match current_params (dml_vm (dml s)) with [] => true | _ => false end && enabled (query_cache s).
Definition remember (q : SelectStmt) (sql : bytes) (r : ExecResult) (s : Session T) : Session T :=
  match r, extract_table_names_from_select q with
  | QueryResult columns rows, (_ :: _) as tables => on_cache (put sql tables columns rows) s
  | _, _ => s
  end.
Definition select_cached (q : SelectStmt) (sql : bytes) : ST (Session T) ExecResult := λ s,
  let eligible := cache_eligible s in
  let '(hit, s) := if eligible then let '(hit, c) := get sql (query_cache s) in (hit, mkSession T (dml s) c) else (None, s) in
  match hit with
  | Some (columns, rows) => (Ok (QueryResult columns rows), s)
  | None =>
      match on_dml (on_vm (rec q)) s with
      | (Ok r, s) => (Ok r, if eligible then remember q sql r s else s)
      | other => other
      end
  end.
(** A statement that succeeds drops the results of its table. *)
Definition invalidating (name : string) (m : ST (Dml T) ExecResult) : ST (Session T) ExecResult := λ s,
  match on_dml m s with (Ok r, s) => (Ok r, on_cache (invalidate_table name) s) | other => other end.
Definition execute_statement (st : Statement) (sql : bytes) : ST (Session T) ExecResult := λ s,
  match st with
  | Select q => select_cached q sql s
  | Insert i => invalidating (insert_table i) (exec_insert rec value_size i) (on_cache (λ c, foldr invalidate_table c (nested_tables st (dml s))) s)
  | Update u => invalidating (update_table u) (exec_update rec value_size u) (on_cache (λ c, foldr invalidate_table c (nested_tables st (dml s))) s)
  | Delete d => invalidating (delete_table d) (exec_delete rec value_size d) (on_cache (λ c, foldr invalidate_table c (nested_tables st (dml s))) s)
  end.

(** *** Histories *)

(** What a session does to the cache: a statement and its outcome, or a change
    of the settings of the cache, which another session variable or a shutdown
    makes. *)
Inductive Event : Type :=
  | Executed (st : Statement) (sql : bytes) (r : res ExecResult)
  | Enabled (b : bool)
  | MaxEntries (n : nat)
  | Cleared
  | StatsReset.
(** The events, the last one first. *)
Inductive reachable : list Event → Session T → Prop :=
  | reach_new d n : reachable [] (mkSession T d (QueryCache_new n))
  | reach_statement h s st sql r s' : reachable h s → execute_statement st sql s = (r, s') → reachable (Executed st sql r :: h) s'
  | reach_enabled h s b : reachable h s → reachable (Enabled b :: h) (on_cache (set_enabled b) s)
  | reach_max h s n : reachable h s → reachable (MaxEntries n :: h) (on_cache (set_max_entries n) s)
  | reach_cleared h s : reachable h s → reachable (Cleared :: h) (on_cache clear s)
  | reach_stats h s : reachable h s → reachable (StatsReset :: h) (on_cache reset_stats s)
  (** what happens to the rest of the state, the cache standing still *)
  | reach_other h s d : reachable h s → reachable h (mkSession T d (query_cache s)).
Definition written_table (st : Statement) : option string :=
  match st with Select _ => None | Insert i => Some (insert_table i) | Update u => Some (update_table u) | Delete d => Some (delete_table d) end.
(** The event leaves the results that rest on [tables]. *)
Definition spares (tables : list string) (ev : Event) : Prop :=
  match ev with
  | Executed st _ (Ok _) => ∀ name, written_table st = Some name → to_ascii_lowercase name ∉ tables
  | Enabled b => b = true
  | Cleared => False
  | _ => True
  end.
(** The entry is the result of a query with the same text, and nothing since
    has written one of its tables. *)
Definition served_from (h : list Event) (key : bytes) (e : QueryCacheEntry) : Prop :=
  ∃ newer q sql older, h = newer ++ Executed (Select q) sql (Ok (QueryResult (entry_columns e) (entry_rows e))) :: older
    ∧ normalize_key sql = key ∧ referenced_tables e = extract_table_names_from_select q ∧ Forall (spares (referenced_tables e)) newer.
Definition justified (h : list Event) (c : QueryCache) : Prop := ∀ key e, cached c !! key = Some e → served_from h key e.
End Statements.

(** ** Lemmas *)

(** *** The order of use is an order of the entries *)

Definition bounded (c : QueryCache) : Prop := (size (cached c) ≤ max 1 (max_entries c))%nat.
Record cache_wf (c : QueryCache) : Prop := mkCacheWf {
  wf_nodup : NoDup (lru_order c);
  wf_keys k : k ∈ lru_order c ↔ is_Some (cached c !! k);
}.
Lemma retain_spec key l k : k ∈ retain_others key l ↔ k ∈ l ∧ k ≠ key.
Proof. unfold retain_others. rewrite list_elem_of_filter. tauto. Qed.
Lemma retain_nodup key l : NoDup l → NoDup (retain_others key l).
Proof. apply NoDup_filter. Qed.
Lemma moved_nodup key l : NoDup l → NoDup (retain_others key l ++ [key]).
Proof.
  intros Hl. apply NoDup_app. split; [by apply retain_nodup|]. split; [|apply NoDup_singleton].
  intros k [_ Hk]%retain_spec. by rewrite list_elem_of_singleton.
Qed.
Lemma moved_keys key l k : k ∈ retain_others key l ++ [key] ↔ k ∈ l ∨ k = key.
Proof. rewrite elem_of_app, retain_spec, list_elem_of_singleton. destruct (decide (k = key)); tauto. Qed.
Lemma evict_spec full : ∀ lru m n m' lru' n', NoDup lru → (∀ k, k ∈ lru ↔ is_Some (m !! k)) → evict full m lru n = (m', lru', n') →
  NoDup lru' ∧ (∀ k, k ∈ lru' ↔ is_Some (m' !! k)) ∧ m' ⊆ m ∧ (m' = ∅ ∨ full (size m') = false).
Proof.
  induction lru as [|k lru IH]; intros m n m' lru' n' Hnd Hk; cbn [evict].
  - intros [= <- <- <-]. split; [done|]. split; [done|]. split; [done|]. left. apply map_empty. intros k. apply eq_None_not_Some. rewrite <- Hk. apply not_elem_of_nil.
  - apply NoDup_cons in Hnd as [Hn Hnd]. destruct (full (size m)) eqn:Ef; [|intros [= <- <- <-]; split; [by constructor|by auto]].
    intros Hr. apply IH in Hr as (A & B & C & D); [|done|].
    + split; [done|]. split; [done|]. split; [|done]. etrans; [exact C|apply delete_subseteq].
    + intros k'. destruct (decide (k' = k)) as [->|Hne].
      * rewrite lookup_delete_eq, <- not_eq_None_Some. split; [done|by intros ?].
      * rewrite lookup_delete_ne by done. rewrite <- Hk, elem_of_cons. tauto.
Qed.
Lemma evicted_spec full c : cache_wf c → let c' := evicted full c in
  cache_wf c' ∧ cached c' ⊆ cached c ∧ (cached c' = ∅ ∨ full (size (cached c')) = false) ∧ max_entries c' = max_entries c ∧ enabled c' = enabled c.
Proof.
  intros [Hnd Hk]. unfold evicted. destruct (evict full (cached c) (lru_order c) 0) as [[m lru] n] eqn:E.
  destruct (evict_spec full _ _ _ _ _ _ Hnd Hk E) as (A & B & C & D). split; [by split|done].
Qed.
Lemma get_wf sql c : cache_wf c → cache_wf (get sql c).2.
Proof.
  intros [Hnd Hk]. unfold get. destruct (cached c !! normalize_key sql) eqn:E; [|by split]. split; cbn [lru_order cached snd]; [by apply moved_nodup|].
  intros k. rewrite moved_keys, Hk. destruct (decide (k = normalize_key sql)) as [->|Hne].
  - rewrite lookup_insert_eq. split; [by eauto|by right].
  - rewrite lookup_insert_ne by done. tauto.
Qed.
Lemma put_wf sql tables columns rows c : cache_wf c → cache_wf (put sql tables columns rows c).
Proof.
  intros Hwf. unfold put. destruct (negb _); [done|]. destruct (evicted_spec (λ n, (max_entries c <=? n)%nat) c Hwf) as ([Hnd Hk] & _).
  split; cbn [lru_order cached]; [by apply moved_nodup|]. intros k. rewrite moved_keys, Hk. destruct (decide (k = normalize_key sql)) as [->|Hne].
  - rewrite lookup_insert_eq. split; [by eauto|by right].
  - rewrite lookup_insert_ne by done. tauto.
Qed.
Lemma drop_wf c key : cache_wf c → cache_wf (drop_key c key).
Proof.
  intros [Hnd Hk]. split; cbn [lru_order cached drop_key]; [by apply retain_nodup|]. intros k. rewrite retain_spec, Hk.
  destruct (decide (k = key)) as [->|Hne].
  - rewrite lookup_delete_eq, <- not_eq_None_Some. split; [by intros []|done].
  - rewrite lookup_delete_ne by done. tauto.
Qed.
Lemma drops_spec keys : ∀ c, cache_wf c → let c' := foldl drop_key c keys in
  cache_wf c' ∧ max_entries c' = max_entries c ∧ enabled c' = enabled c
  ∧ ∀ k e, cached c' !! k = Some e ↔ cached c !! k = Some e ∧ k ∉ keys.
Proof.
  induction keys as [|key keys IH]; intros c Hwf; cbn [foldl].
  - split; [done|]. do 2 (split; [done|]). intros k e. pose proof (not_elem_of_nil k). tauto.
  - destruct (IH (drop_key c key) (drop_wf c key Hwf)) as (A & B & C & D). split; [done|]. do 2 (split; [done|]). intros k e.
    rewrite D, not_elem_of_cons. cbn [cached drop_key]. destruct (decide (k = key)) as [->|Hne]; [rewrite lookup_delete_eq; naive_solver|].
    rewrite lookup_delete_ne by done. tauto.
Qed.
Lemma invalidate_spec name c : cache_wf c → let c' := invalidate_table name c in
  cache_wf c' ∧ max_entries c' = max_entries c ∧ enabled c' = enabled c
  ∧ ∀ k e, cached c' !! k = Some e ↔ cached c !! k = Some e ∧ to_ascii_lowercase name ∉ referenced_tables e.
Proof.
  intros Hwf c'. unfold invalidate_table in c'. destruct (drops_spec (map fst (List.filter (λ p : bytes * QueryCacheEntry, refers (to_ascii_lowercase name) p.2)
    (map_to_list (cached c)))) c Hwf) as (A & B & C & D). split; [done|]. do 2 (split; [done|]). intros k e. unfold c'. rewrite D.
  assert (∀ e, refers (to_ascii_lowercase name) e = true ↔ to_ascii_lowercase name ∈ referenced_tables e) as Href.
  { intros e0. unfold refers. rewrite existsb_exists. split.
    - intros (t & Ht & ->%String.eqb_eq). by apply list_elem_of_In.
    - intros Ht. eexists. split; [by apply list_elem_of_In|apply String.eqb_refl]. }
  split; intros [Hk Hn]; (split; [done|]); intros Hin; apply Hn.
  - apply list_elem_of_fmap. exists (k, e). split; [done|]. apply list_elem_of_In, filter_In. split; [by apply list_elem_of_In, elem_of_map_to_list|by apply Href].
  - apply list_elem_of_fmap in Hin as ([k' e'] & E & [Hin Hr]%list_elem_of_In%filter_In). cbn in E. subst k'.
    apply list_elem_of_In, elem_of_map_to_list in Hin. cbn in Hr. apply Href in Hr. congruence.
Qed.

(** *** Every entry has a query behind it *)

(** The entries of [c'] are entries of [c], but for the count of hits. *)
Definition within (c' c : QueryCache) : Prop :=
  ∀ k e', cached c' !! k = Some e' → ∃ e, cached c !! k = Some e
    ∧ (entry_columns e', entry_rows e', referenced_tables e') = (entry_columns e, entry_rows e, referenced_tables e).
Lemma within_subset c c' : cached c' ⊆ cached c → within c' c.
Proof. intros Hs k e Hk. exists e. split; [by eapply lookup_weaken|done]. Qed.
Lemma within_trans c1 c2 c3 : within c1 c2 → within c2 c3 → within c1 c3.
Proof. intros H12 H23 k e (e2 & H2' & E2)%H12. apply H23 in H2' as (e3 & H3' & E3). exists e3. split; [done|congruence]. Qed.
Lemma within_get sql c : within (get sql c).2 c.
Proof.
  intros k e. unfold get. destruct (cached c !! normalize_key sql) as [e0|] eqn:E; cbn [cached snd]; [|by exists e].
  intros [[<- <-]|[_ Hk]]%lookup_insert_Some; [by exists e0|by exists e].
Qed.
Lemma within_invalidate name c : cache_wf c → within (invalidate_table name c) c.
Proof. intros Hwf k e Hk. destruct (invalidate_spec name c Hwf) as (_ & _ & _ & Hs). apply Hs in Hk as [Hk _]. by exists e. Qed.
Lemma justified_within h c c' : within c' c → justified h c → justified h c'.
Proof.
  intros Hw Hj k e' (e & Hk & [= Ec Er Et])%Hw. destruct (Hj k e Hk) as (newer & q & sql & older & -> & A & B & C).
  exists newer, q, sql, older. by rewrite Ec, Er, Et.
Qed.
Lemma justified_cons h c ev : (∀ k e, cached c !! k = Some e → spares (referenced_tables e) ev) → justified h c → justified (ev :: h) c.
Proof.
  intros Hs Hj k e Hk. destruct (Hj k e Hk) as (newer & q & sql & older & -> & A & B & C). exists (ev :: newer), q, sql, older.
  split; [done|]. split; [done|]. split; [done|]. constructor; [by eapply Hs|done].
Qed.
Lemma justified_select h c q sql r : justified h c → justified (Executed (Select q) sql r :: h) c.
Proof. apply justified_cons. intros k e _. by destruct r. Qed.
Lemma justified_put h c q sql columns rows : cache_wf c → justified h c →
  justified (Executed (Select q) sql (Ok (QueryResult columns rows)) :: h) (put sql (extract_table_names_from_select q) columns rows c).
Proof.
  intros Hwf Hj. unfold put. destruct (negb (enabled c)); [by apply justified_select|].
  destruct (evicted_spec (λ n, (max_entries c <=? n)%nat) c Hwf) as (_ & Hsub & _).
  intros k e. cbn [cached]. intros [[<- <-]|[_ Hk]]%lookup_insert_Some; [by exists [], q, sql, h|]. apply (justified_select h c q sql _ Hj). by eapply lookup_weaken.
Qed.

(** *** The size *)

Lemma bounded_within c c' : cached c' ⊆ cached c → max_entries c' = max_entries c → bounded c → bounded c'.
Proof. unfold bounded. intros Hs -> Hb. apply map_subseteq_size in Hs. lia. Qed.
Lemma get_bounded sql c : bounded c → bounded (get sql c).2.
Proof.
  unfold bounded, get. destruct (cached c !! normalize_key sql) as [e|] eqn:E; [|done]. cbn [cached snd max_entries]. by rewrite map_size_insert_Some.
Qed.
Lemma put_bounded sql tables columns rows c : cache_wf c → bounded c → bounded (put sql tables columns rows c).
Proof.
  intros Hwf Hb. unfold put. destruct (negb _); [done|]. destruct (evicted_spec (λ n, (max_entries c <=? n)%nat) c Hwf) as (_ & _ & Hfull & Hmax & _).
  unfold bounded in *. cbn [cached max_entries]. set (c' := evicted _ _) in *. rewrite Hmax.
  assert (size (<[normalize_key sql := mkEntry columns rows tables 0]> (cached c')) ≤ S (size (cached c')))%nat as Hins by (rewrite map_size_insert; destruct (_ !! _); unfold id; lia).
  destruct Hfull as [He|Hlt%Nat.leb_gt]; [rewrite He, map_size_empty in Hins; rewrite He|]; lia.
Qed.
Lemma set_max_bounded n c : cache_wf c → bounded (set_max_entries n c).
Proof.
  intros [Hnd Hk]. unfold set_max_entries. set (c1 := mkCache _ _ _ _ _). assert (cache_wf c1) as Hwf by done.
  destruct (evicted_spec (λ size, (n <? size)%nat) c1 Hwf) as (_ & _ & Hfull & Hmax & _). unfold bounded. rewrite Hmax. cbn [max_entries c1].
  destruct Hfull as [->|Hlt%Nat.ltb_ge]; [rewrite map_size_empty|]; lia.
Qed.
Lemma invalidate_bounded name c : cache_wf c → bounded c → bounded (invalidate_table name c).
Proof.
  intros Hwf. destruct (invalidate_spec name c Hwf) as (_ & Hmax & _ & Hs). apply bounded_within; [|done].
  apply map_subseteq_spec. intros k e Hk. by apply Hs in Hk as [Hk _].
Qed.

(** *** Together *)

Record cache_inv (h : list Event) (c : QueryCache) : Prop := mkInv { inv_wf : cache_wf c; inv_bounded : bounded c; inv_justified : justified h c }.
Lemma invalidate_inv h name c : cache_inv h c → cache_inv h (invalidate_table name c).
Proof.
  intros [A B C]. split; [by apply (invalidate_spec name c)|by apply invalidate_bounded|]. by eapply justified_within; [apply within_invalidate|].
Qed.
Lemma nested_inv h names c : cache_inv h c → cache_inv h (foldr invalidate_table c names).
Proof. intros Hi. induction names as [|n names IH]; [done|]. cbn [foldr]. by apply invalidate_inv. Qed.
Lemma written_inv h c st sql r name : written_table st = Some name → cache_inv h c → cache_inv (Executed st sql (Ok r) :: h) (invalidate_table name c).
Proof.
  intros Hn Hi. destruct (invalidate_inv h name c Hi) as [A B C]. split; [done|done|]. apply justified_cons; [|done].
  intros k e Hk. destruct (invalidate_spec name c (inv_wf _ _ Hi)) as (_ & _ & _ & Hs). apply Hs in Hk as [_ Hk]. cbn [spares]. rewrite Hn. by intros ? [= <-].
Qed.
Lemma failed_inv h c st sql r : (∀ a, r ≠ Ok a) → cache_inv h c → cache_inv (Executed st sql r :: h) c.
Proof. intros Hr [A B C]. split; [done|done|]. apply justified_cons; [|done]. intros k e _. destruct r; [by edestruct Hr|done..]. Qed.
Lemma evicted_inv h full c : cache_wf c → justified h c → cache_wf (evicted full c) ∧ justified h (evicted full c).
Proof.
  intros A C. destruct (evicted_spec full c A) as (D & E & _). split; [done|]. eapply justified_within; [|done]. by apply within_subset.
Qed.

Section Reachable.
Context {T : Type} `{StdFns} `{Crc32} `{Trees T} `{CatalogRoots T} `{Pagers T} `{ExecuteSql (Dml T)} `{SearchIndexes (Dml T)}
  `{OtherFunctions (Engine (IxState T))} `{FtsScan (IxState T)} `{NestedTables T}.
Context (rec : SelectStmt → ST (VM (Engine (IxState T))) ExecResult) (value_size : Z).
Implicit Types s : Session T.

Lemma select_spec q sql s r s' : select_cached rec q sql s = (r, s') →
  (∃ c, r = Ok c ∧ (∃ columns rows, c = QueryResult columns rows ∧ (get sql (query_cache s)).1 = Some (columns, rows))
    ∧ dml s' = dml s ∧ query_cache s' = (get sql (query_cache s)).2)
  ∨ on_vm (rec q) (dml s) = (r, dml s')
    ∧ ∃ c, (c = query_cache s ∨ c = (get sql (query_cache s)).2)
      ∧ (query_cache s' = c ∨ ∃ columns rows, r = Ok (QueryResult columns rows) ∧ query_cache s' = put sql (extract_table_names_from_select q) columns rows c).
Proof.
  unfold select_cached. destruct (cache_eligible s).
  - destruct (get sql (query_cache s)) as [[[columns rows]|] c] eqn:E; cbn [fst snd].
    + intros [= <- <-]. left. eexists. split; [done|]. split; [by exists columns, rows|done].
    + unfold on_dml. cbn [dml query_cache]. destruct (on_vm (rec q) (dml s)) as [r0 d]. intros Hr. right.
      destruct r0 as [r0|e| |]; [|injection Hr as <- <-; split; [done|]; exists c; split; [by right|by left]..]. injection Hr as <- <-.
      unfold remember. destruct r0 as [|?|columns rows|]; try (split; [done|]; exists c; split; [by right|by left]).
      destruct (extract_table_names_from_select q) as [|t l] eqn:Et; [split; [done|]; exists c; split; [by right|by left]|].
      split; [done|]. exists c. split; [by right|]. right. by exists columns, rows.
  - unfold on_dml. destruct (on_vm (rec q) (dml s)) as [r0 d]. intros Hr. right.
    destruct r0 as [r0|e| |]; injection Hr as <- <-; (split; [done|]); exists (query_cache s); (split; [by left|by left]).
Qed.
Lemma select_inv h q sql s r s' : cache_inv h (query_cache s) → select_cached rec q sql s = (r, s') →
  cache_inv (Executed (Select q) sql r :: h) (query_cache s').
Proof.
  intros [A B C] Hrun. assert (∀ c, c = query_cache s ∨ c = (get sql (query_cache s)).2 → cache_inv h c) as Hc.
  { intros c [-> | ->]; [done|]. split; [by apply get_wf|by apply get_bounded|]. eapply justified_within; [apply within_get|done]. }
  apply select_spec in Hrun as [(c & -> & _ & _ & ->)|(_ & c & Hcc & Hput)].
  - destruct (Hc _ (or_intror eq_refl)) as [D E F]. split; [done|done|by apply justified_select].
  - destruct (Hc c Hcc) as [D E F]. destruct Hput as [->|(columns & rows & -> & ->)]; [split; [done|done|by apply justified_select]|].
    split; [by apply put_wf|by apply put_bounded|by apply justified_put].
Qed.
Lemma invalidating_inv h st sql name m s r s' : written_table st = Some name → cache_inv h (query_cache s) →
  invalidating name m s = (r, s') → cache_inv (Executed st sql r :: h) (query_cache s').
Proof.
  intros Hn Hi. unfold invalidating, on_dml. destruct (m (dml s)) as [[r0|e| |] d]; intros [= <- <-]; [by apply written_inv|by apply failed_inv..].
Qed.
Lemma reachable_inv h s : reachable rec value_size h s → cache_inv h (query_cache s).
Proof.
  induction 1 as [d n|h s st sql r s' _ IH Hrun|h s b _ IH|h s n _ IH|h s _ IH|h s _ IH|h s d _ IH]; cbn [query_cache on_cache].
  - split; [split; [constructor|]|unfold bounded; cbn [cached QueryCache_new]; rewrite map_size_empty; lia|by intros k e].
    intros k. cbn. rewrite lookup_empty, <- not_eq_None_Some, elem_of_nil. tauto.
  - destruct st; cbn [execute_statement] in Hrun; [by eapply select_inv|eapply invalidating_inv; [done| |exact Hrun]; by apply nested_inv..].
  - destruct IH as [A B C]. destruct b; cbn [set_enabled]; [split; [by destruct A|done|by apply justified_cons]|].
    split; [split; [constructor|]|unfold bounded; cbn [cached clear]; rewrite map_size_empty; lia|by intros k e].
    intros k. cbn. rewrite lookup_empty, <- not_eq_None_Some, elem_of_nil. tauto.
  - destruct IH as [A B C]. set (c := query_cache s) in *.
    destruct (evicted_inv h (λ size, (n <? size)%nat) (mkCache (cached c) (lru_order c) n (enabled c) (stats c))) as [D E]; [by destruct A|done|].
    split; [done|by apply set_max_bounded|by apply justified_cons].
  - split; [split; [constructor|]|unfold bounded; cbn [cached clear]; rewrite map_size_empty; lia|by intros k e].
    intros k. cbn. rewrite lookup_empty, <- not_eq_None_Some, elem_of_nil. tauto.
  - destruct IH as [A B C]. split; [by destruct A|done|by apply justified_cons].
  - done.
Qed.

(** ** Properties *)

(** In every history the order of use lists the entries once each, and their
    number keeps the bound (a bound of zero counting as one). *)
Theorem query_cache_bounded h s (Hreach : reachable rec value_size h s) :
  let c := query_cache s in
  NoDup (lru_order c) ∧ (∀ k, k ∈ lru_order c ↔ is_Some (cached c !! k)) ∧ (size (cached c) ≤ max 1 (max_entries c))%nat.
Proof. apply reachable_inv in Hreach as [[A B] C _]. by split. Qed.
End Reachable.
Section Sample.
#[local] Existing Instances ascii_std select_by_sort store_trees store_catalog store_pagers no_functions_dml no_fts_dml no_sql no_search.
#[local] Instance no_nested : NestedTables Store := λ _ _, [].
Abbreviation Ix := (IxState Store).
Definition home_scan (name : string) (root : Z) : ST (VM (Engine Ix)) (list (Z * Row)) := on_index (on_trees (tree_scan_all name root)).
#[local] Instance home_scans : TableScans Ix :=
  mkScans Ix home_scan (λ name root, rows ← home_scan name root; mret (map snd rows))
    (λ name root n, rows ← home_scan name root; mret (take (Z.to_nat n) (map snd rows))) (λ name root, rows ← home_scan name root; mret (zlen rows)).
#[local] Instance home_planner : Planner Ix := mkPlanner Ix (λ f _, f) (λ _ _, mret None).
Definition home_query : SelectStmt → ST (VM (Engine Ix)) ExecResult := exec_select_fuel 3.
Definition session : Session Store := mkSession Store (home 0 None) (QueryCache_new 8).
Abbreviation execute st sql := (execute_statement home_query 1 st (bytes_of_string sql)).
Definition query (columns : list SExpr') (f : FromClause) (ctes : list CteDefinition) : SelectStmt :=
  mkSelect false (map (λ e, SExpr e None) columns) (Some f) None [] None [] None None ctes [] false.
Definition pet_ids (f : FromClause) : SelectStmt := query [ColumnRef None "id"] f [].
Definition pets_from : FromClause := FTable "pets" None.
Definition another_pet : Statement := Insert (mkInsert "pets" None (InsertValues [[ENull; IntegerLiteral 1]]) OnConflictError None).
Definition answer (r : res ExecResult) : res (list Row) := r ← r; match r with QueryResult _ rows => Ok rows | _ => Err (Internal "no rows") end.
(** The same query before and after [st], and what it means after. *)
Definition stale (q : SelectStmt) (st : Statement) (s : Session Store) : res (list Row) * res (list Row) :=
  let s1 := (execute (Select q) "query" s).2 in
  let s2 := (execute st "change" s1).2 in
  (answer (execute (Select q) "query" s2).1, answer (home_query q (dml_vm (dml s2))).1).

Example insert_drops_answer : stale (pet_ids pets_from) another_pet session = (Ok [[VInteger 1]; [VInteger 2]], Ok [[VInteger 1]; [VInteger 2]]).
Proof. by vm_compute. Qed.

(** *** Answers that are not those of the query *)

(** Keys are lower case, string literals included: a query gets the answer of
    another. *)
Example literals_fold_case :
  let q s := query [StringLiteral (bytes_of_string s)] pets_from [] in
  let s1 := (execute (Select (q "A")) "SELECT 'A' FROM pets" session).2 in
  answer (execute (Select (q "a")) "SELECT 'a' FROM pets" s1).1 = Ok [[VText (bytes_of_string "A")]].
Proof. by vm_compute. Qed.
(** The tables behind a view, a common table expression or a set operation in
    FROM are not among those the answer rests on: after an INSERT the old answer
    is served. *)
Definition with_table (name : string) (t : Table) (s : Session Store) : Session Store :=
  mkSession Store (set_vm (upd_engine (set_tables (insert name t)) (dml_vm (dml s))) (dml s)) (query_cache s).
Definition old_and_new : res (list Row) * res (list Row) := (Ok [[VInteger 1]], Ok [[VInteger 1]; [VInteger 2]]).
Example views_stale : stale (pet_ids (FTable "v" None)) another_pet (with_table "v" (mkTable 0 [] 0 (Some (pet_ids pets_from)) false []) session) = old_and_new.
Proof. by vm_compute. Qed.
Example ctes_stale : stale (query [ColumnRef None "id"] (FTable "c" None) [mkCte "c" [] (pet_ids pets_from) false]) another_pet session = old_and_new.
Proof. by vm_compute. Qed.
Example set_operations_stale :
  let both := FSetOp (mkSetOp UnionDistinct (pet_ids pets_from) (pet_ids pets_from) [] None None) "b" in
  let person := BinaryOp (ColumnRef (Some "people"%string) "id") Equal (IntegerLiteral 1) in
  stale (query [ColumnRef (Some "b"%string) "id"] (FJoin (FTable "people" None) Inner both (Some person)) []) another_pet session = old_and_new.
Proof. by vm_compute. Qed.
(** The answer does not depend on who asks: a user gets the rows that the
    policies of the table show to another. *)
Definition as_user (user : string) (s : Session Store) : Session Store :=
  let v := dml_vm (dml s) in
  mkSession Store (set_vm (mkVM _ (current_params v) (outer_rows v) (window_results v) (current_window_row_idx v) (<[jwt_sub := bytes_of_string user]> (session_vars v)) (vm_rest v)) (dml s))
    (query_cache s).
Definition anns_pets : Table :=
  mkTable 9 ["id"; "owner"]%string 2 None true [mkPolicy None (Some (BinaryOp (Function "auth_uid" [] false) Equal (StringLiteral (bytes_of_string "ann"))))].
Example policies_bypassed :
  let s := as_user "ann" (with_table "pets" anns_pets session) in
  let s1 := as_user "bob" (execute (Select (pet_ids pets_from)) "SELECT id FROM pets" s).2 in
  answer (execute (Select (pet_ids pets_from)) "SELECT id FROM pets" s1).1 = Ok [[VInteger 1]]
  ∧ answer (home_query (pet_ids pets_from) (dml_vm (dml s1))).1 = Ok [].
Proof. by vm_compute. Qed.
(** An UPDATE that fails half-way leaves its changes and the old answer. *)
Example failed_update_stale :
  let minus := mkUpdate "people" [("age"%string, BinaryOp (ColumnRef None "age") Subtract (IntegerLiteral 25))] None None in
  stale (query [ColumnRef None "age"] (FTable "people" None) []) (Update minus) session
  = (Ok [[VInteger 30]; [VInteger 20]], Ok [[VInteger 20]; [VInteger 5]]).
Proof. by vm_compute. Qed.
(** A cache of no entries keeps one. *)
Example capacity_zero_keeps_one : size (cached (put (bytes_of_string "q") ["t"%string] [] [] (QueryCache_new 0))) = 1%nat.
Proof. by vm_compute. Qed.
End Sample.
